(* ===== verification/_CoqProject ===== *)
-Q . S2P
Prelude.v
Text.v
HexUtils.v
Bytes.v
ChaCha20.v
Poly1305.v
Poly1305Spec.v
Stream.v
Ser.v
SerLaws.v
Aead.v
Tlv.v
Features.v
Msgs.v
Noise.v
OnionHop.v
ChannelMsgs.v
ChannelMsgsLaws.v
GossipMsgs.v
Wire.v
Secrets.v
Transactions.v
TlvStruct.v
ChanTx.v
ChanTxSpec.v
ChanCodecs.v
Octets.v
WireCases.v
ChanCases.v
Invoice.v
InvoiceSpec.v
NoiseSafe.v
NoiseCases.v
InboundPayment.v
Onion.v
OnionSpec.v
OnionError.v
OnionCases.v
Scid.v
Graph.v
GraphSpec.v
GraphAuth.v
GossipSync.v
PeerManager.v
PeerStream.v
PeerSpec.v
PeerSafe.v
PeerRead.v
PeerReach.v
PeerTrace.v
PeerCases.v
RapidSync.v
Scoring.v
ScoringSpec.v
ScoringStore.v
Zbase32.v
Fs.v
Disk.v
DiskCases.v
ChainMonitor.v
ChainMonitorSpec.v
Json.v
Bitcoind.v
App.v
Events.v
Probe.v
ProbeAll.v
ProbeAllSpec.v
DumpResults.v
Peers.v
StartupArgs.v
Cli.v
Toy.v
Scraper.v
BlockSync.v
BlockSyncSpec.v
BlockInit.v
Payer.v
PayerSpec.v
Startup.v
