(* ===== verification/Prelude.v ===== *)
(** * Verification of hidden-lightning-network

    The program finds unannounced ("hidden") Lightning channels.  A scraper joins a
    dump of unspent outputs with the list of transactions into candidate channel ids;
    a Lightning node built on LDK (vendored under src/rust-lightning) sends, for every
    node and candidate, a payment with a made-up hash over a route whose last hop is
    the guessed channel; the failure code LDK reports tells whether the channel
    exists.  This development models the node's own code and the parts of LDK whose
    logic it depends on, and proves what they promise.

    ** The parts and how they interact

    [start_ldk] (src/main.rs) parses the arguments, connects to bitcoind, restores
    the key seed, channel monitors and channel manager from disk, starts LDK's
    tasks and the command loop.  [poll_for_user_input] (src/cli.rs) runs one command
    per line; "probeall" is the prober.  It calls [probe] (src/probe.rs), which asks
    LDK for a route and sends a payment, recording it in the shared map of pending
    payments.  LDK's events arrive concurrently in [handle_ldk_events] (src/main.rs),
    which removes pending payments and appends rows to the table of attempts that
    "probeall" and "dump_results" read.  LDK calls the persister (src/disk.rs) for
    every change of a channel and the bitcoind client (src/bitcoind_client.rs) for
    fees and broadcasts; the SPV client (lightning-block-sync) drives it along the
    chain.  A probe leaves the node as an onion packet (ln/onion_utils.rs) inside a
    message (ln/msgs.rs, ln/wire.rs, util/ser.rs) over an encrypted connection
    (ln/peer_channel_encryptor.rs, util/chacha20poly1305rfc.rs); its failure comes back
    the same way, [process_onion_failure] turns it into the failure code the prober
    reads, and the network graph (routing/gossip.rs), which says which channels are
    public, learns from gossip messages and from such failures.  Connections are handled by
    the peer manager (ln/peer_handler.rs), which frames and decodes what peers send, hands
    it to the handler of channels and to the gossip handler of the network graph, and sends
    what these ask for.  The graph can also be filled from the snapshot of a server
    (lightning-rapid-gossip-sync), and the scorer (routing/scoring.rs) learns from the fate of
    payments which channels to avoid.  Payments of the user's own are invoices: lightning-invoice
    writes and reads them, its payer pays and retries them, ln/inbound_payment.rs recognises what
    was asked for.  The transactions a channel consists of are made in ln/chan_utils.rs; the chain
    monitor (chain/chainmonitor.rs) hands every block to the channels' monitors and holds a channel
    back until the persister is done.

    ** Conventions

    Rust code that can fail is a [result], code that can panic an [outcome], code with
    effects a [prog S]: a function from a state to an outcome and the state it leaves,
    also when it panics.  Machine integers are [Z] with their wrap-around or overflow
    panic written out; bytes are [Z] in 0..255; a [str] is a [string] of bytes.  Code
    outside the repository, and LDK's routing and channel machinery, is reached
    through type classes ([Keys], [Ldk], [Platform] in App.v; [TxidApi], [MonitorApi]
    in Disk.v; [HeaderApi] in BlockSync.v; [Secp] in Msgs.v, the keys, signatures and
    points of secp256k1; [NoiseCrypto], [OnionCrypto], [GossipCrypto], [KeyTweaks], [Sha256],
    [InvoiceCrypto], the hashes and curve operations of one component; [BitcoinApi],
    [TransactionCodec] and [TxSizes], what is used of the bitcoin crate; [Bech32], the conversion
    and text encoding of BIP 173; [UnstableSort]; [Clock]; [PayerEnv] and [PayerOps], the world of
    the invoice payer; [MonitorOps] and [Surroundings], that of the chain monitor;
    [FixedTimeEq]) whose laws are separate classes
    that state documented behaviour, such as that both ends of a Diffie-Hellman exchange
    compute the same point; nothing is assumed of a hash but its length and, where an
    onion ends, that a real tag is not zero.  Toy.v, the files ending in Cases, and the last
    sections of BlockSyncSpec.v, PayerSpec.v, InvoiceSpec.v, ChainMonitorSpec.v and others give
    concrete instances.

    Components that call each other inside LDK meet at type classes too: the peer manager is
    written against [ChannelMessageHandler], [RoutingMessageHandler], [CustomMessageHandler]
    and [SocketDescriptor] (the traits of the source), proved against their laws
    ([ChannelLaws], [RoutingLaws], [CustomHandlerLaws], [SocketLaws] in PeerSpec.v), and the
    handlers of the source discharge them.

    Concurrency is an explicit schedule: at every sleep and await of the command loop the
    environment performs the next batch of events, Ctrl-C presses and changes inside LDK ([env_steps] of Events.v), and theorems quantify over it.  The
    file system (Fs.v) takes a schedule of I/O failures and power losses in the same
    way; a rename takes effect atomically and unsynced contents may be lost.

    ** The files

    - Prelude.v: the monads, [keeps] (what a program preserves, with the hint database
      [keeps] and tactic [solve_keeps]), integer widths, bit lemmas, lists.
    - Text.v, Bytes.v: string and byte functions of the Rust standard library: parsing
      and printing of numbers, splitting, UTF-8, integer encodings.
    - HexUtils.v: src/hex_utils.rs.  Round trip and exact domain of decoding.
    - Poly1305.v, Poly1305Spec.v, Aead.v: util/poly1305.rs and chacha20poly1305rfc.rs.
      The limb code is the tag of RFC 8439 without overflow; sealing and opening; what
      the stream adapters authenticate.
    - Stream.v, Ser.v, SerLaws.v, Tlv.v: util/ser.rs and ser_macros.rs.  A reader is a
      tree of read calls ([rd]), run against the bytes; a [Codec] is a pair of a writer
      and a reader, and the class [RoundTrip] with its instances carries the round trip
      of every format ([EndRoundTrip] for formats that read to the end of the input,
      [Total] for readers that never panic).  TLV streams refine a record-wise
      specification.
    - Features.v, Msgs.v, OnionHop.v, ChannelMsgs.v, ChannelMsgsLaws.v, GossipMsgs.v and
      Wire.v, WireCases.v: ln/features.rs, ln/msgs.rs and ln/wire.rs.  Every
      message round trips; decoding any bytes gives a message or an error and a message
      in the range of its types.
      Octets.v: what is encoded is bytes.
    - Noise.v, NoiseSafe.v, NoiseCases.v: ln/peer_channel_encryptor.rs.  The handshake
      agrees on keys and identities, the transport delivers, nonces are fresh; no bytes make
      an encryptor panic.
    - Onion.v, OnionSpec.v, OnionError.v, OnionCases.v: ln/onion_utils.rs.  Every hop gets its payload, amounts and expiries are right,
      failures are attributed to the hop that made them, no packet makes the sender panic.
    - Graph.v, GraphSpec.v, GraphAuth.v: the network graph of routing/gossip.rs (concrete runs
      are in PeerCases.v).  Channels and nodes stay consistent under every sequence of
      operations; what peers say is in the graph only when it was signed.
    - GossipSync.v: [P2PGossipSync] of routing/gossip.rs, over ordered maps.  Queries for a range of blocks are answered completely.
    - PeerManager.v: ln/peer_handler.rs and util/atomic_counter.rs, the whole manager.
      PeerStream.v: how bytes are cut into calls makes no difference.  PeerSpec.v: a small
      logic of triples for programs that panic only in named ways, the laws of the handlers,
      the invariant of a peer.  PeerSafe.v (writing, disconnecting), PeerRead.v (handshake,
      framing, decoding, messages) and PeerReach.v (events, ticks, all operations): every
      call returns and keeps the manager consistent.  PeerTrace.v: the gossip handler keeps
      the laws; the order of the calls to the channel handler, and the graph
      behind the connections.  PeerCases.v: two managers that complete a handshake and
      exchange messages, and the panics that are left.
    - RapidSync.v: lightning-rapid-gossip-sync.  The bytes of a snapshot mean a sequence of
      announcements and updates; no bytes make the reader panic, and the graph stays consistent.
    - Scoring.v, ScoringSpec.v, ScoringStore.v: routing/scoring.rs and the directed views of
      gossip.rs.  What a failed path teaches, penalties without overflow that grow with the
      amount, and the scorer on disk.
    - InboundPayment.v: ln/inbound_payment.rs.  What was issued is honoured for its amount and
      until its expiry, and nothing else is.
    - Invoice.v, InvoiceSpec.v: lightning-invoice lib.rs, ser.rs and de.rs, with util/invoice.rs
      and the payment secret of ln/mod.rs.  A valid invoice of any fields survives printing and
      parsing, what the builder makes is accepted, and every text gets an answer.
    - Payer.v, PayerSpec.v: lightning-invoice payment.rs.  Attempts are bounded by the limit
      of retries, and every request is answered.
    - Secrets.v, Transactions.v, TlvStruct.v, ChanTx.v, ChanTxSpec.v, ChanCodecs.v, ChanCases.v:
      ln/chan_utils.rs, util/transaction_utils.rs, chain/transaction.rs and the structures of
      ser_macros.rs.  Revealed secrets are found again; keys, scripts, HTLC, closing and commitment
      transactions; HTLCs find their outputs; what is built verifies; stored structures are read
      back.
    - ChainMonitor.v, ChainMonitorSpec.v: chain/chainmonitor.rs.  It refines an automaton over
      the answers of the persister; a channel goes on only when its updates are stored.
    - ChaCha20.v, Scid.v, Zbase32.v: lightning/src/util/chacha20.rs, scid_utils.rs (with
      the prober's own copy in src/probe.rs) and zbase32.rs.  The cipher equals the RFC
      7539 block function and decrypts what it encrypted; short channel ids are a
      bijection; fake ids look real; zbase32 round trips.
    - Fs.v: the file-system model.
    - Disk.v, DiskCases.v: src/disk.rs persister, the recovery in src/main.rs and
      lightning-persister/src/lib.rs.  A single channel is restored exactly; a write
      is atomic under failures and power loss; and computed histories that lose updates.
    - Json.v, Bitcoind.v: lightning-block-sync rpc.rs and convert.rs, src/convert.rs and
      src/bitcoind_client.rs, with doubles as the Standard Library's [spec_float].  The
      fee floor, all-or-nothing polls, rejected broadcasts.
    - App.v: the application's state and interfaces.
    - Events.v: [handle_ldk_events].  What each event changes, and that no environment
      step adds pending payments or loses attempts.
    - Probe.v, ProbeAll.v, ProbeAllSpec.v: src/probe.rs and "probeall" of src/cli.rs.
      What is probed equals a filter of the transaction list, nothing public or already
      answered is probed, at most 31 payments are in flight, Ctrl-C stops it, the
      wait for HTLCs returns.
    - DumpResults.v: "dump_results".  The rows it writes.
    - Peers.v: peer, graph, scorer and log files of src/disk.rs, [parse_peer_info].
    - StartupArgs.v, Cli.v: the rest of src/cli.rs: arguments, command loop, commands.
    - Toy.v: concrete instances, and runs satisfying the theorems' hypotheses.
    - Scraper.v: src/scraper/main.rs.  It computes the join, in parts of 10,000.
    - BlockSync.v, BlockSyncSpec.v: lightning-block-sync lib.rs and
      poll.rs.  The listener is told a walk along the chain, the fork-point search ends,
      and with a good source one poll reaches the best tip.
    - BlockInit.v: lightning-block-sync init.rs.  Listeners written at different blocks are all
      taken to the best tip.
    - Startup.v: [start_ldk] up to the channel manager (lines 412 to
      594).  The network check and the stability of the key seed.

    ** Fuel

    Loops the source leaves unbounded (the wait for HTLCs, the retry of a probe, the wait
    for a peer, the fork-point search) take fuel and return [OutOfFuel] when it is used
    up.  Safety theorems hold for every fuel and every outcome, [OutOfFuel] included.
    Termination is stated separately: [wait_htlcs_returns],
    [find_difference_terminates] and [spv_client_reaches_tip] give the fuel that is
    enough.  The retry of a probe ends only when LDK accepts one, so no bound exists for it.
    The loops of the peer manager take the fuel they need, which [manager_stays_consistent]
    shows to be enough: reading, one turn a byte; writing, what is queued and what one call
    can add ([write_fuel]).  The payer's retries take two more than the limit, which
    [requests_answered] shows to be enough; the parser of tagged fields takes the length of its
    input, enough by [invoice_parse_total].  The chain monitor's rescan for dependent transactions
    follows what the chain source returns and has no bound of its own: its theorems hold for every
    fuel.  All other loops are structural.

    ** Not modelled

    The channel state machine (channel.rs, channelmanager.rs): the application reaches it through
    class [Ldk] only.  Channel monitors and claims on chain (channelmonitor.rs, onchaintx.rs,
    package.rs): abstract, with the laws their callers rely on.  The router, behind [Ldk] and
    [PayerOps]; keysinterface.rs; the read-only views of gossip.rs other than the directed ones, and
    the serialisation of the graph; the background processor and the tokio tasks that drive the peer
    manager (lightning-net-tokio), and the locks inside LDK: a call is one step; utils.rs of
    lightning-invoice, which calls the channel manager; [start_ldk] after the channel manager,
    which wires components and spawns tasks; HTTP framing; JSON and CSV syntax (parameters);
    terminal formatting beyond the printed lines. *)

From Stdlib Require Export Ascii String ZArith Lia.
From stdpp Require Export base gmap strings list numbers option sorting.

(** ** Rust results and panics

    [result] is Rust's [Result]; [outcome] is what running a piece of Rust code
    can end in: a value, a panic (an [unwrap] on [None]/[Err], an index out of
    range, an explicit [panic!]; the crate is built with [panic = "abort"], so a
    panic ends the process), or exhaustion of the fuel that bounds a loop the
    source leaves unbounded. *)

Inductive result (T E : Type) : Type :=
| Ok (t : T)
| Err (e : E).
Arguments Ok {T E} _.
Arguments Err {T E} _.

Inductive outcome (A : Type) : Type :=
| Ret (a : A)
| Panic (why : string)
| OutOfFuel.
Arguments Ret {A} _.
Arguments Panic {A} _.
Arguments OutOfFuel {A}.

Definition is_ok {T E} (r : result T E) : bool :=
  match r with Ok _ => true | Err _ => false end.

Definition is_err {T E} (r : result T E) : bool := negb (is_ok r).

Definition map_err {T E F} (f : E -> F) (r : result T E) : result T F :=
  match r with Ok t => Ok t | Err e => Err (f e) end.

(** [Option::ok_or]. *)
Definition ok_or {T E} (o : option T) (e : E) : result T E :=
  match o with Some t => Ok t | None => Err e end.

Global Instance result_ret {E} : MRet (fun T => result T E) := fun _ t => Ok t.
Global Instance result_bind {E} : MBind (fun T => result T E) :=
  fun _ _ f r => match r with Ok t => f t | Err e => Err e end.

Global Instance outcome_ret : MRet outcome := fun _ a => Ret a.
Global Instance outcome_bind : MBind outcome :=
  fun _ _ f o =>
    match o with Ret a => f a | Panic w => Panic w | OutOfFuel => OutOfFuel end.

(** [Option::unwrap] and [Result::unwrap]. *)
Definition unwrap {A} (why : string) (o : option A) : outcome A :=
  match o with Some a => Ret a | None => Panic why end.

Definition unwrap_result {T E} (why : string) (r : result T E) : outcome T :=
  match r with Ok t => Ret t | Err _ => Panic why end.

(** ** Programs: a state-passing monad with panics

    A program over the state [S] returns its outcome together with the state
    reached, also when it panics: what was already written to disk or printed
    stays written. *)

Definition prog (S A : Type) : Type := S -> outcome A * S.

Global Instance prog_ret {S} : MRet (prog S) := fun _ a s => (Ret a, s).
Global Instance prog_bind {S} : MBind (prog S) :=
  fun _ _ f m s =>
    match m s with
    | (Ret a, s') => f a s'
    | (Panic w, s') => (Panic w, s')
    | (OutOfFuel, s') => (OutOfFuel, s')
    end.

Definition get {S} : prog S S := fun s => (Ret s, s).
Definition put {S} (s : S) : prog S unit := fun _ => (Ret tt, s).
Definition modify {S} (f : S -> S) : prog S unit := fun s => (Ret tt, f s).
Definition gets {S A} (f : S -> A) : prog S A := fun s => (Ret (f s), s).
Definition panic {S A} (why : string) : prog S A := fun s => (Panic why, s).
Definition lift {S A} (o : outcome A) : prog S A := fun s => (o, s).

(** The [?] operator: continue on [Ok], return the [Err]. *)
Definition bind_ok {S A B E} (m : prog S (result A E)) (f : A -> prog S (result B E)) :
    prog S (result B E) :=
  r ← m; match r with Ok a => f a | Err e => mret (Err e) end.
Notation "'let?' x := m 'in' k" := (bind_ok m (fun x => k))
  (at level 10, x pattern, m at level 100, k at level 200).

Lemma bind_ok_inv {S A B E} (m : prog S (result A E)) (f : A -> prog S (result B E)) s o s' :
  bind_ok m f s = (o, s') ->
  (exists a s1, m s = (Ret (Ok a), s1) /\ f a s1 = (o, s')) \/
  (exists o1, m s = (o1, s') /\ (forall a, o1 <> Ret (Ok a)) /\ (forall b, o <> Ret (Ok b))).
Proof.
  unfold bind_ok, mbind, prog_bind. destruct (m s) as [[[a|e]|w|] s1] eqn:E1; intros H.
  - left. eauto.
  - right. unfold mret, prog_ret in H. simplify_eq. eexists. split; [done|]. done.
  - right. simplify_eq. eexists. split; [done|]. done.
  - right. simplify_eq. eexists. split; [done|]. done.
Qed.

Lemma bind_ok_Ok {S A B E} (m : prog S (result A E)) (f : A -> prog S (result B E)) s a s' :
  m s = (Ret (Ok a), s') -> bind_ok m f s = f a s'.
Proof. unfold bind_ok, mbind, prog_bind. by intros ->. Qed.

(** The [?] operator on a pure [Result]. *)
Definition rbind {A B E} (r : result A E) (f : A -> result B E) : result B E :=
  match r with Ok a => f a | Err e => Err e end.
Notation "'let!' x := m 'in' k" := (rbind m (fun x => k))
  (at level 10, x pattern, m at level 100, k at level 200).

(** A loop over a list, threading an accumulator. *)
Fixpoint foldM {S A B} (f : B -> A -> prog S B) (b : B) (l : list A) : prog S B :=
  match l with
  | [] => mret b
  | a :: l' => b' ← f b a; foldM f b' l'
  end.

(** The state a program ends in and the value it returns. *)
Definition exec {S A} (m : prog S A) (s : S) : S := (m s).2.
Definition value {S A} (m : prog S A) (s : S) : option A :=
  match (m s).1 with Ret a => Some a | _ => None end.

Lemma prog_bind_Ret {S A B} (m : prog S A) (f : A -> prog S B) s a s' :
  m s = (Ret a, s') -> (m ≫= f) s = f a s'.
Proof. unfold mbind, prog_bind. by intros ->. Qed.

Lemma prog_bind_Panic {S A B} (m : prog S A) (f : A -> prog S B) s w s' :
  m s = (Panic w, s') -> (m ≫= f) s = (Panic w, s').
Proof. unfold mbind, prog_bind. by intros ->. Qed.

(** ** What a program keeps

    [keeps R m]: every run of [m], also one that panics or runs out of fuel, ends in
    a state related by [R] to the one it started in. *)

Definition keeps {S A} (R : S -> S -> Prop) (m : prog S A) : Prop :=
  forall s o s', m s = (o, s') -> R s s'.

Section Keeps.
Context {S : Type} (R : S -> S -> Prop) `{!PreOrder R}.

Lemma keeps_pure {A} (o : outcome A) : keeps R (fun s => (o, s)).
Proof. intros s o' s' [= <- <-]. reflexivity. Qed.
Lemma keeps_ret {A} (a : A) : keeps R (mret (M := prog S) a).
Proof. apply keeps_pure. Qed.
Lemma keeps_lift {A} (o : outcome A) : keeps R (lift o).
Proof. apply keeps_pure. Qed.
Lemma keeps_panic {A} why : keeps R (@panic S A why).
Proof. apply keeps_pure. Qed.
Lemma keeps_gets {A} (f : S -> A) : keeps R (gets f).
Proof. intros s o' s' [= <- <-]. reflexivity. Qed.
Lemma keeps_modify (f : S -> S) : (forall s, R s (f s)) -> keeps R (modify f).
Proof. intros H s o s' [= <- <-]. apply H. Qed.

Lemma keeps_bind {A B} (m : prog S A) (f : A -> prog S B) :
  keeps R m -> (forall a, keeps R (f a)) -> keeps R (m ≫= f).
Proof.
  intros Hm Hf s o s' H. unfold mbind, prog_bind in H.
  destruct (m s) as [[a| |] s1] eqn:E; simplify_eq; [|by eapply Hm..].
  etrans; [by eapply Hm|by eapply Hf].
Qed.

Lemma keeps_bind_ok {A B E} (m : prog S (result A E)) (f : A -> prog S (result B E)) :
  keeps R m -> (forall a, keeps R (f a)) -> keeps R (bind_ok m f).
Proof. intros Hm Hf. apply keeps_bind; [done|]. intros [a|e]; [apply Hf|apply keeps_ret]. Qed.
End Keeps.

Create HintDb keeps.
#[export] Hint Resolve keeps_ret keeps_lift keeps_panic keeps_gets keeps_bind keeps_bind_ok : keeps.

(** Prove [keeps] of a program by its structure: binds, then the cases of its
    matches, then the hints for its primitives. *)
Ltac keeps_step :=
  match goal with
  | |- forall _, _ => intro
  | |- keeps _ (_ ≫= _) => apply keeps_bind
  | |- keeps _ (bind_ok _ _) => apply keeps_bind_ok
  | |- keeps _ (match ?x with _ => _ end) => destruct x eqn:?
  | |- keeps _ _ => solve [eauto with keeps typeclass_instances]
  | |- PreOrder _ => apply _
  end.
Ltac solve_keeps := repeat keeps_step.

(** ** Machine integers

    A w-bit unsigned integer is a [Z] in [[0, 2^w)]; [wrap w] is the truncation
    Rust's [as] and the shift operators perform. *)

Open Scope Z_scope.

Definition wrap (w z : Z) : Z := z `mod` 2 ^ w.
Definition in_width (w z : Z) : Prop := 0 <= z < 2 ^ w.
Definition in_widthb (w z : Z) : bool := (0 <=? z) && (z <? 2 ^ w).

Abbreviation u8 := (in_width 8).
Abbreviation u16 := (in_width 16).
Abbreviation u32 := (in_width 32).
Abbreviation u64 := (in_width 64).

Definition U64_MAX : Z := 2 ^ 64 - 1.
Definition U32_MAX : Z := 2 ^ 32 - 1.
Definition U16_MAX : Z := 2 ^ 16 - 1.

(** Checked and saturating unsigned arithmetic. *)
Definition checked (w z : Z) : option Z :=
  if (0 <=? z) && (z <? 2 ^ w) then Some z else None.
Definition saturating_sub (a b : Z) : Z := Z.max 0 (a - b).
Definition saturating_add (w a b : Z) : Z := Z.min (2 ^ w - 1) (a + b).

(** Arithmetic that panics on overflow, as in the development profile. *)
Definition checked_op (w : Z) (what : string) (z : Z) : outcome Z :=
  if in_widthb w z then Ret z else Panic ("attempt to " +:+ what +:+ " with overflow").
Definition add32 (a b : Z) : outcome Z := checked_op 32 "add" (a + b).
Definition mul32 (a b : Z) : outcome Z := checked_op 32 "multiply" (a * b).
Definition add64 (a b : Z) : outcome Z := checked_op 64 "add" (a + b).
Definition sub64 (a b : Z) : outcome Z := checked_op 64 "subtract" (a - b).
Definition mul64 (a b : Z) : outcome Z := checked_op 64 "multiply" (a * b).

Global Instance in_width_dec w z : Decision (in_width w z).
Proof. unfold in_width. apply _. Defined.

Lemma in_widthb_true w z : in_widthb w z = true <-> in_width w z.
Proof. unfold in_widthb, in_width. rewrite andb_true_iff, Z.leb_le, Z.ltb_lt. done. Qed.

Lemma checked_op_ok w what z : in_width w z -> checked_op w what z = Ret z.
Proof. intros H. unfold checked_op. by rewrite (proj2 (in_widthb_true w z) H). Qed.

Lemma wrap_in_width w z : 0 <= w -> in_width w (wrap w z).
Proof. intros ?. apply Z.mod_pos_bound. apply Z.pow_pos_nonneg; lia. Qed.

Lemma wrap_small w z : in_width w z -> wrap w z = z.
Proof. apply Z.mod_small. Qed.

Lemma in_width_mono v w z : v <= w -> in_width v z -> in_width w z.
Proof.
  intros Hvw [Hlo Hhi]. split; [done|].
  pose proof (Z.pow_le_mono_r 2 v w ltac:(lia) Hvw). lia.
Qed.

(** Bits above the width of a number are zero. *)
Lemma testbit_above w z i : in_width w z -> 0 <= w -> w <= i -> Z.testbit z i = false.
Proof.
  intros Hz Hw Hi. rewrite <- (Z.mod_small z (2 ^ w)) by done.
  by apply Z.mod_pow2_bits_high.
Qed.

Lemma in_width_testbit w z :
  0 <= w -> 0 <= z -> (forall i, w <= i -> Z.testbit z i = false) -> in_width w z.
Proof.
  intros Hw Hz H. split; [done|].
  destruct (Z.eq_dec z 0) as [->|Hne]; [lia|].
  apply Z.log2_lt_pow2; [lia|].
  destruct (Z_lt_le_dec (Z.log2 z) w) as [|Hge]; [done|].
  specialize (H (Z.log2 z) Hge). rewrite Z.bit_log2 in H by lia. done.
Qed.

Lemma lor_in_width w a b : 0 <= w -> in_width w a -> in_width w b -> in_width w (Z.lor a b).
Proof.
  intros Hw Ha Hb. apply in_width_testbit; [done| |].
  - apply Z.lor_nonneg. by destruct Ha, Hb.
  - intros i Hi. rewrite Z.lor_spec. by rewrite !(testbit_above w).
Qed.

Lemma land_in_width w a b : 0 <= w -> in_width w b -> in_width w (Z.land a b).
Proof.
  intros Hw Hb. apply in_width_testbit; [done| |].
  - apply Z.land_nonneg. right. apply Hb.
  - intros i Hi. rewrite Z.land_spec, (testbit_above w b) by done. apply andb_false_r.
Qed.

Lemma shiftl_in_width v w a k :
  0 <= k -> 0 <= v -> v + k <= w -> in_width v a -> in_width w (Z.shiftl a k).
Proof.
  intros Hk Hv Hw [Hlo Hhi]. apply (in_width_mono (v + k)); [done|].
  rewrite Z.shiftl_mul_pow2 by done. split; [nia|].
  rewrite Z.pow_add_r by done. apply Z.mul_lt_mono_pos_r; [|done].
  apply Z.pow_pos_nonneg; lia.
Qed.

Lemma shiftr_in_width v w a k : 0 <= k -> v - k <= w -> k <= v -> in_width v a -> in_width w (Z.shiftr a k).
Proof.
  intros Hk Hw Hkv [Hlo Hhi]. apply (in_width_mono (v - k)); [done|].
  rewrite Z.shiftr_div_pow2 by done. split.
  - apply Z.div_pos; [done|]. apply Z.pow_pos_nonneg; lia.
  - apply Z.div_lt_upper_bound; [apply Z.pow_pos_nonneg; lia|].
    rewrite <- Z.pow_add_r by lia. by replace (k + (v - k)) with v by lia.
Qed.

(** Or-ing a shifted field with a narrower one is an addition. *)
Lemma lor_shiftl_add a b k : 0 <= k -> in_width k b -> Z.lor (Z.shiftl a k) b = a * 2 ^ k + b.
Proof.
  intros Hk Hb. rewrite <- Z.shiftl_mul_pow2 by done. symmetry. apply Z.add_nocarry_lor.
  apply Z.bits_inj'. intros i Hi. rewrite Z.land_spec, Z.testbit_0_l.
  destruct (Z_lt_le_dec i k) as [H|H].
  - by rewrite Z.shiftl_spec_low.
  - rewrite (testbit_above k b) by done. apply andb_false_r.
Qed.

(** ** Automation *)

Create HintDb width.
#[export] Hint Resolve wrap_in_width lor_in_width : width.
#[export] Hint Extern 1 (_ <= _) => lia : width.

(** Two integers are equal when their bits are: the goal is reduced to a boolean
    equation on [Z.testbit]s of the atoms, with the index split against the
    constants it is compared with. *)
Ltac bits_rewrite :=
  repeat first
    [ rewrite Z.lor_spec | rewrite Z.land_spec | rewrite Z.lxor_spec
    | rewrite Z.shiftr_spec by lia | rewrite Z.shiftl_spec by lia
    | rewrite Z.testbit_0_l
    | rewrite Z.testbit_neg_r by lia
    | rewrite Z.ones_spec_low by lia
    | rewrite Z.ones_spec_high by lia
    | rewrite Z.mod_pow2_bits_low by lia
    | rewrite Z.mod_pow2_bits_high by lia ].

Ltac bits_above :=
  repeat match goal with
  | H : in_width ?w ?z |- context [Z.testbit ?z ?i] =>
      rewrite (testbit_above w z i H) by lia
  end.

Ltac bits_step := bits_rewrite; bits_above;
  rewrite ?andb_false_r, ?andb_true_r, ?orb_false_r, ?orb_false_l, ?andb_false_l;
  try done; try (f_equal; lia).

Ltac split_index i ks :=
  lazymatch ks with
  | nil => idtac
  | ?k :: ?ks' =>
      let H := fresh "Hi" in
      destruct (Z_lt_le_dec i k) as [H|H]; split_index i ks'
  end.

(** Close a goal by evaluating a decision procedure for it. *)
Ltac by_decide :=
  match goal with |- ?P => apply (bool_decide_unpack P); vm_compute; exact I end.

(** Destruct the matches a goal or hypothesis is stuck on. *)
Ltac step_match :=
  match goal with
  | |- context [match ?x with _ => _ end] => destruct x eqn:?
  end.

Ltac inv_match H :=
  repeat match type of H with
  | context [match ?x with _ => _ end] => destruct x eqn:?; try discriminate H
  end.

(** ** Lists *)

Lemma cons_congr {A} (x y : A) l k : x = y -> l = k -> x :: l = y :: k.
Proof. by intros -> ->. Qed.

Lemma Forall_fmap_iff {A B} (P : B -> Prop) (f : A -> B) l :
  Forall P (f <$> l) <-> Forall (fun x => P (f x)) l.
Proof. apply Forall_fmap. Qed.

Lemma filter_andb {A} (f g : A -> bool) (l : list A) :
  List.filter (fun x => f x && g x) l = List.filter g (List.filter f l).
Proof.
  induction l as [|x l IH]; [done|]. cbn [List.filter].
  destruct (f x); cbn [List.filter andb]; [destruct (g x)|]; by rewrite ?IH.
Qed.

Lemma last_snoc_inv {A} (l : list A) x : last l = Some x -> exists l', l = l' ++ [x].
Proof. intros H. exists (removelast l). apply last_Some in H as [l' ->].
  by rewrite removelast_last. Qed.

(** ** Stable sorting by an integer key: [slice::sort_by] *)

Section SortBy.
Context {A : Type} (key : A -> Z).

Fixpoint insert_by (x : A) (l : list A) : list A :=
  match l with
  | [] => [x]
  | y :: l' => if key x <=? key y then x :: l else y :: insert_by x l'
  end.

Fixpoint sort_by (l : list A) : list A :=
  match l with
  | [] => []
  | x :: l' => insert_by x (sort_by l')
  end.

Lemma insert_by_Permutation x l : insert_by x l ≡ₚ x :: l.
Proof.
  induction l as [|y l IH]; [done|]. cbn. destruct (_ <=? _); [done|].
  rewrite IH. apply Permutation_swap.
Qed.

Lemma sort_by_Permutation l : sort_by l ≡ₚ l.
Proof. induction l as [|x l IH]; [done|]. cbn. by rewrite insert_by_Permutation, IH. Qed.

Lemma insert_by_sorted x l :
  StronglySorted (fun a b => key a <= key b) l ->
  StronglySorted (fun a b => key a <= key b) (insert_by x l).
Proof.
  induction 1 as [|y l Hs IH Hy]; cbn; [by repeat constructor|].
  destruct (Z.leb_spec (key x) (key y)).
  - constructor; [by constructor|]. constructor; [done|].
    eapply Forall_impl; [exact Hy|]. cbn. intros; lia.
  - constructor; [done|]. rewrite insert_by_Permutation. constructor; [lia|done].
Qed.

Lemma sort_by_sorted l : StronglySorted (fun a b => key a <= key b) (sort_by l).
Proof. induction l; cbn; [constructor|]. by apply insert_by_sorted. Qed.

(** A permutation of a list sorted by distinct keys is sorted back to it. *)
Lemma sort_by_unique l k :
  l ≡ₚ k -> StronglySorted (fun a b => key a < key b) k -> sort_by l = k.
Proof.
  intros Hp Hk.
  assert (Hp' : sort_by l ≡ₚ k) by (by rewrite sort_by_Permutation).
  pose proof (sort_by_sorted l) as Hs. revert Hs Hp'. generalize (sort_by l). clear Hp l.
  induction Hk as [|y k Hk IH Hy]; intros s Hs Hp.
  { by apply Permutation_nil_r in Hp. }
  destruct s as [|x s]; [by apply Permutation_nil_l in Hp|].
  inversion Hs as [|? ? Hs' Hx]; subst.
  assert (Hxy : x = y).
  { assert (Hin : x ∈ y :: k) by (rewrite <- Hp; left).
    apply elem_of_cons in Hin as [?|Hin]; [done|].
    assert (Hin' : y ∈ x :: s) by (rewrite Hp; left).
    apply elem_of_cons in Hin' as [?|Hin']; [done|].
    rewrite Forall_forall in Hx, Hy. specialize (Hx _ Hin'). specialize (Hy _ Hin). cbn in *. lia. }
  subst y. f_equal. apply IH; [done|]. by apply Permutation_cons_inv in Hp.
Qed.
End SortBy.
