(* ===== verification/Text.v ===== *)
(** * Text: the string functions of the Rust standard library the program uses

    A Rust [str] is modelled as a [string], one [ascii] per byte.  [parse::<uN>],
    [to_string] on unsigned integers, [split] on a one-byte separator, [rsplitn],
    [split_whitespace], [starts_with]/[ends_with] and byte indexing are written
    out.  [split_whitespace] knows the six ASCII white-space bytes; the Unicode
    spaces outside ASCII are not separators here. *)

From S2P Require Import Prelude.

Local Open Scope Z_scope.

(** ** Bytes of a string *)

Definition byte_of (a : ascii) : Z := Z.of_N (N_of_ascii a).
Definition ascii_of (z : Z) : ascii := ascii_of_N (Z.to_N z).

Lemma byte_of_u8 a : u8 (byte_of a).
Proof.
  unfold byte_of, in_width. pose proof (N_ascii_bounded a). split; [lia|].
  change (2 ^ 8) with 256. lia.
Qed.

Lemma byte_of_ascii_of z : u8 z -> byte_of (ascii_of z) = z.
Proof.
  unfold byte_of, ascii_of, in_width. change (2 ^ 8) with 256. intros ?.
  rewrite N_ascii_embedding by lia. lia.
Qed.

Lemma ascii_of_byte_of a : ascii_of (byte_of a) = a.
Proof. unfold byte_of, ascii_of. by rewrite N2Z.id, ascii_N_embedding. Qed.

Definition bytes_of (s : string) : list Z := byte_of <$> list_ascii_of_string s.

Fixpoint len (s : string) : Z :=
  match s with EmptyString => 0 | String _ r => 1 + len r end.

Lemma len_nonneg s : 0 <= len s.
Proof. induction s; cbn; lia. Qed.

Lemma app_cons a s t : String a s +:+ t = String a (s +:+ t).
Proof. done. Qed.

Lemma app_nil_l t : "" +:+ t = t.
Proof. done. Qed.

Lemma len_app s t : len (s +:+ t) = len s + len t.
Proof.
  induction s as [|a s IH]; [done|]. rewrite app_cons. cbn [len]. rewrite IH. lia.
Qed.

Lemma bytes_of_cons a s : bytes_of (String a s) = byte_of a :: bytes_of s.
Proof. done. Qed.
Lemma bytes_of_app s t : bytes_of (s +:+ t) = bytes_of s ++ bytes_of t.
Proof.
  induction s as [|a s IH]; [done|]. rewrite app_cons, !bytes_of_cons, IH. done.
Qed.

Lemma length_bytes_of s : Z.of_nat (length (bytes_of s)) = len s.
Proof.
  induction s as [|a s IH]; [done|]. rewrite bytes_of_cons. cbn [length len]. lia.
Qed.

Lemma app_nil_r s : s +:+ "" = s.
Proof. induction s as [|a s IH]; [done|]. rewrite app_cons. by f_equal. Qed.

Lemma app_assoc_s s t u : (s +:+ t) +:+ u = s +:+ (t +:+ u).
Proof. induction s as [|a s IH]; [done|]. rewrite !app_cons. by f_equal. Qed.

Lemma app_inj_r s t u : s +:+ t = s +:+ u -> t = u.
Proof. induction s as [|a s IH]; [done|]. rewrite !app_cons. intros [= H]. auto. Qed.

(** ** Splitting *)

Fixpoint split_on (c : ascii) (s : string) : list string :=
  match s with
  | EmptyString => [""]
  | String a r =>
      if decide (a = c) then "" :: split_on c r
      else match split_on c r with
           | h :: t => String a h :: t
           | [] => [String a ""]
           end
  end.

(** [rsplitn(2, c)]: the part after the last separator, then what is before it. *)
Fixpoint last_split (c : ascii) (s : string) : option (string * string) :=
  match s with
  | EmptyString => None
  | String a r =>
      match last_split c r with
      | Some (pre, post) => Some (String a pre, post)
      | None => if decide (a = c) then Some ("", r) else None
      end
  end.

Definition rsplitn2 (c : ascii) (s : string) : list string :=
  match last_split c s with
  | Some (pre, post) => [post; pre]
  | None => [s]
  end.

Definition is_whitespace (a : ascii) : bool :=
  let b := byte_of a in (b =? 32) || ((9 <=? b) && (b <=? 13)).

Fixpoint words_aux (s : string) (cur : string) : list string :=
  match s with
  | EmptyString => if decide (cur = "") then [] else [cur]
  | String a r =>
      if is_whitespace a
      then (if decide (cur = "") then words_aux r "" else cur :: words_aux r "")
      else words_aux r (cur +:+ String a "")
  end.
Definition split_whitespace (s : string) : list string := words_aux s "".

Fixpoint no_char (c : ascii) (s : string) : bool :=
  match s with
  | EmptyString => true
  | String a r => bool_decide (a <> c) && no_char c r
  end.

Fixpoint ends_with (s suffix : string) : bool :=
  bool_decide (s = suffix) ||
  match s with EmptyString => false | String _ r => ends_with r suffix end.

(** [s.contains(pat)]. *)
Fixpoint contains (s pat : string) : bool :=
  String.prefix pat s ||
  match s with EmptyString => false | String _ r => contains r pat end.

Fixpoint is_ascii (s : string) : bool :=
  match s with
  | EmptyString => true
  | String a r => (byte_of a <? 128) && is_ascii r
  end.

Lemma split_on_cons_ne c s : split_on c s <> [].
Proof.
  destruct s as [|a r]; cbn; [done|]. case_decide; [done|].
  by destruct (split_on c r).
Qed.

Lemma split_on_no_char c s : no_char c s = true -> split_on c s = [s].
Proof.
  induction s as [|a r IH]; cbn; [done|].
  intros [Ha Hr]%andb_true_iff. apply bool_decide_eq_true in Ha.
  rewrite decide_False by done. by rewrite IH.
Qed.

Lemma split_on_app c s t :
  no_char c s = true -> split_on c (s +:+ String c t) = s :: split_on c t.
Proof.
  induction s as [|a r IH]; rewrite ?app_nil_l, ?app_cons; cbn [no_char split_on]; intros H.
  - by rewrite decide_True.
  - apply andb_true_iff in H as [Ha Hr]. apply bool_decide_eq_true in Ha.
    rewrite decide_False by done. by rewrite IH.
Qed.

Lemma last_split_app c s t :
  no_char c t = true -> last_split c (s +:+ String c t) = Some (s, t).
Proof.
  intros Ht.
  assert (Hn : last_split c t = None).
  { clear s. induction t as [|a r IH]; cbn in *; [done|].
    apply andb_true_iff in Ht as [Ha Hr]. apply bool_decide_eq_true in Ha.
    rewrite IH by done. by rewrite decide_False. }
  induction s as [|a r IH]; rewrite ?app_nil_l, ?app_cons; cbn [last_split].
  - rewrite Hn. by rewrite decide_True.
  - by rewrite IH.
Qed.

Lemma no_char_app c s t : no_char c (s +:+ t) = no_char c s && no_char c t.
Proof.
  induction s as [|a s IH]; [done|]. rewrite app_cons. cbn [no_char]. by rewrite IH, andb_assoc.
Qed.

Lemma is_ascii_app s t : is_ascii (s +:+ t) = is_ascii s && is_ascii t.
Proof.
  induction s as [|a s IH]; [done|]. rewrite app_cons. cbn [is_ascii]. by rewrite IH, andb_assoc.
Qed.

(** A string that lacks a character of the suffix does not end with it. *)
Lemma ends_with_no_char c s suffix :
  no_char c s = true -> no_char c suffix = false -> ends_with s suffix = false.
Proof.
  induction s as [|a r IH]; intros Hs Hx; cbn [ends_with].
  - rewrite orb_false_r. apply bool_decide_eq_false. by intros <-.
  - cbn in Hs. apply andb_true_iff in Hs as [Ha Hr]. rewrite IH, orb_false_r by done.
    apply bool_decide_eq_false. intros <-. cbn in Hx. by rewrite Ha, Hr in Hx.
Qed.

(** ** Decimal numbers *)

Definition digit_char (d : Z) : ascii := ascii_of (48 + d).
Definition digit_val (a : ascii) : option Z :=
  let b := byte_of a in if (48 <=? b) && (b <=? 57) then Some (b - 48) else None.

Fixpoint to_digits (fuel : nat) (n : Z) (acc : string) : string :=
  match fuel with
  | O => acc
  | S f =>
      let acc' := String (digit_char (n `mod` 10)) acc in
      if n `div` 10 =? 0 then acc' else to_digits f (n `div` 10) acc'
  end.

(** [n.to_string()] for an unsigned [n]. *)
Definition to_string (n : Z) : string := to_digits (S (Z.to_nat (Z.log2 n))) n "".

(** [s.parse::<uN>()], [max] being [uN::MAX]: each digit is accumulated with a
    checked multiplication and a checked addition; one leading [+] is accepted. *)
Fixpoint parse_digits (max acc : Z) (s : string) : option Z :=
  match s with
  | EmptyString => Some acc
  | String a r =>
      match digit_val a with
      | None => None
      | Some d =>
          if acc * 10 <=? max then
            if acc * 10 + d <=? max then parse_digits max (acc * 10 + d) r else None
          else None
      end
  end.

Definition parse_uint (max : Z) (s : string) : option Z :=
  match s with
  | EmptyString => None
  | String a r =>
      if decide (a = "+"%char) then
        match r with EmptyString => None | _ => parse_digits max 0 r end
      else parse_digits max 0 s
  end.

Definition parse_u64 : string -> option Z := parse_uint U64_MAX.
Definition parse_u32 : string -> option Z := parse_uint U32_MAX.
Definition parse_u16 : string -> option Z := parse_uint U16_MAX.

Lemma digit_val_char d : 0 <= d < 10 -> digit_val (digit_char d) = Some d.
Proof.
  intros H. unfold digit_val, digit_char. rewrite byte_of_ascii_of.
  - replace (48 <=? 48 + d) with true by (symmetry; apply Z.leb_le; lia).
    replace (48 + d <=? 57) with true by (symmetry; apply Z.leb_le; lia).
    cbn. f_equal. lia.
  - unfold in_width. change (2 ^ 8) with 256. lia.
Qed.

Lemma digit_char_not_plus d : 0 <= d < 10 -> digit_char d <> "+"%char.
Proof.
  intros Hd Heq. apply (f_equal byte_of) in Heq. unfold digit_char in Heq.
  rewrite byte_of_ascii_of in Heq; [|unfold in_width; change (2^8) with 256; lia].
  change (byte_of "+") with 43 in Heq. lia.
Qed.

Lemma to_digits_parse max f n rest :
  0 <= n <= max -> n < 2 ^ Z.of_nat f ->
  parse_digits max 0 (to_digits f n rest) = parse_digits max n rest.
Proof.
  revert n rest. induction f as [|f IH]; intros n rest Hn Hf.
  { cbn in *. by replace n with 0 by lia. }
  cbn [to_digits]. pose proof (Z.mod_pos_bound n 10 ltac:(lia)) as Hm.
  pose proof (Z.div_mod n 10 ltac:(lia)) as Hdm.
  destruct (Z.eqb_spec (n `div` 10) 0) as [Hz|Hz].
  - cbn [parse_digits]. rewrite digit_val_char by lia.
    replace (n `mod` 10) with n by lia.
    replace (0 * 10 <=? max) with true by (symmetry; apply Z.leb_le; lia).
    by replace (0 * 10 + n <=? max) with true by (symmetry; apply Z.leb_le; lia).
  - rewrite IH; cycle 1.
    + lia.
    + rewrite Nat2Z.inj_succ, Z.pow_succ_r in Hf by lia.
      apply Z.div_lt_upper_bound; lia.
    + cbn [parse_digits]. rewrite digit_val_char by lia.
      replace (n `div` 10 * 10 <=? max) with true by (symmetry; apply Z.leb_le; lia).
      replace (n `div` 10 * 10 + n `mod` 10) with n by lia.
      by replace (n <=? max) with true by (symmetry; apply Z.leb_le; lia).
Qed.

Lemma to_digits_head f n rest :
  0 <= n -> exists d r, to_digits (S f) n rest = String (digit_char d) r /\ 0 <= d < 10.
Proof.
  revert n rest. induction f as [|f IH]; intros n rest Hn.
  - cbn. pose proof (Z.mod_pos_bound n 10 ltac:(lia)).
    destruct (_ =? 0); eexists _, _; split; try done; lia.
  - cbn [to_digits]. pose proof (Z.mod_pos_bound n 10 ltac:(lia)).
    destruct (Z.eqb_spec (n `div` 10) 0); [by eexists _, _|].
    apply IH. apply Z.div_pos; lia.
Qed.

Lemma parse_to_string max n : 0 <= n <= max -> parse_uint max (to_string n) = Some n.
Proof.
  intros Hn. unfold to_string.
  destruct (to_digits_head (Z.to_nat (Z.log2 n)) n "" ltac:(lia)) as (d & r & Heq & Hd).
  unfold parse_uint. rewrite Heq.
  rewrite decide_False by (by apply digit_char_not_plus).
  rewrite <- Heq, to_digits_parse; [done|lia|].
  rewrite Nat2Z.inj_succ, Z2Nat.id by apply Z.log2_nonneg.
  destruct (Z.eq_dec n 0) as [->|]; [cbn; lia|]. apply Z.log2_spec. lia.
Qed.

Lemma to_string_inj m n : 0 <= m -> 0 <= n -> to_string m = to_string n -> m = n.
Proof.
  intros Hm Hn Heq.
  pose proof (parse_to_string (Z.max m n) m ltac:(lia)) as H1.
  pose proof (parse_to_string (Z.max m n) n ltac:(lia)) as H2.
  rewrite Heq in H1. rewrite H1 in H2. by injection H2.
Qed.

Lemma parse_digits_bound max acc s n : acc <= max -> parse_digits max acc s = Some n -> n <= max.
Proof.
  revert acc. induction s as [|a r IH]; cbn; intros acc Hacc H; [by simplify_eq|].
  inv_match H. apply IH in H; [done|]. by apply Z.leb_le.
Qed.

Lemma digit_val_bound a d : digit_val a = Some d -> 0 <= d < 10.
Proof.
  unfold digit_val. intros H. inv_match H. simplify_eq.
  apply andb_true_iff in Heqb as [?%Z.leb_le ?%Z.leb_le]. lia.
Qed.

Lemma parse_digits_lower max acc s n : 0 <= acc -> parse_digits max acc s = Some n -> 0 <= n.
Proof.
  revert acc. induction s as [|a r IH]; cbn; intros acc Hacc H; [by simplify_eq|].
  destruct (digit_val a) as [d|] eqn:Hd; [|done]. apply digit_val_bound in Hd.
  inv_match H. apply IH in H; lia.
Qed.

(** A parsed integer fits the width it was parsed at. *)
Lemma parse_uint_bound max s n : 0 <= max -> parse_uint max s = Some n -> 0 <= n <= max.
Proof.
  unfold parse_uint. intros Hm H. inv_match H;
    (split; [by eapply parse_digits_lower in H|by eapply parse_digits_bound in H]).
Qed.

(** A decimal representation contains no separator the program splits on. *)
Lemma to_digits_no_char c f n rest :
  digit_val c = None -> 0 <= n -> no_char c rest = true -> no_char c (to_digits f n rest) = true.
Proof.
  intros Hc. revert n rest. induction f as [|f IH]; intros n rest Hn Hr; [done|].
  cbn [to_digits].
  assert (Hcons : no_char c (String (digit_char (n `mod` 10)) rest) = true).
  { cbn. rewrite Hr, andb_true_r. apply bool_decide_eq_true. intros <-.
    rewrite digit_val_char in Hc; [done|]. apply Z.mod_pos_bound. lia. }
  destruct (n `div` 10 =? 0); [done|]. apply IH; [|done]. apply Z.div_pos; lia.
Qed.

Lemma to_string_no_char c n : digit_val c = None -> 0 <= n -> no_char c (to_string n) = true.
Proof. intros. by apply to_digits_no_char. Qed.

Lemma to_digits_ascii f n rest :
  0 <= n -> is_ascii rest = true -> is_ascii (to_digits f n rest) = true.
Proof.
  revert n rest. induction f as [|f IH]; intros n rest Hn Hr; [done|]. cbn [to_digits].
  assert (H : is_ascii (String (digit_char (n `mod` 10)) rest) = true).
  { cbn [is_ascii]. pose proof (Z.mod_pos_bound n 10 ltac:(lia)). unfold digit_char.
    rewrite byte_of_ascii_of; [rewrite Hr; lia|]. unfold in_width. change (2 ^ 8) with 256. lia. }
  destruct (_ =? 0); [done|]. apply IH; [apply Z.div_pos; lia|done].
Qed.

Lemma to_string_ascii n : 0 <= n -> is_ascii (to_string n) = true.
Proof. intros. by apply to_digits_ascii. Qed.

Lemma to_string_len n : 0 <= n -> 1 <= len (to_string n).
Proof.
  intros Hn. unfold to_string.
  destruct (to_digits_head (Z.to_nat (Z.log2 n)) n "" Hn) as (d & r & -> & _).
  cbn [len]. pose proof (len_nonneg r). lia.
Qed.

(** Taking the prefix of known length, and the rest. *)
Lemma substring_0_app s t n :
  len s = Z.of_nat n -> String.substring 0 n (s +:+ t) = s.
Proof.
  revert n. induction s as [|a s IH]; intros n Hn; rewrite ?app_nil_l, ?app_cons; cbn [len] in Hn.
  - replace n with 0%nat by lia. by destruct t.
  - destruct n as [|n]; [pose proof (len_nonneg s); lia|]. cbn [String.substring].
    f_equal. apply IH. lia.
Qed.

Lemma substring_all t n : len t <= Z.of_nat n -> String.substring 0 n t = t.
Proof.
  revert n. induction t as [|a t IH]; intros n Hn; [by destruct n|]. cbn [len] in Hn.
  destruct n as [|n]; [pose proof (len_nonneg t); lia|]. cbn [String.substring]. f_equal. apply IH. lia.
Qed.

Lemma substring_skip s t k n :
  len s = Z.of_nat k -> String.substring k n (s +:+ t) = String.substring 0 n t.
Proof.
  revert k. induction s as [|a s IH]; intros k Hk; rewrite ?app_nil_l, ?app_cons; cbn [len] in Hk.
  - by replace k with 0%nat by lia.
  - destruct k as [|k]; [pose proof (len_nonneg s); lia|]. cbn [String.substring]. apply IH. lia.
Qed.

Lemma string_length_len s : Z.of_nat (String.length s) = len s.
Proof. induction s as [|a s IH]; [done|]. cbn [String.length len]. lia. Qed.

(** ** Formatting *)

Definition newline : string := String "010" "".
Definition dquote : string := String "034" "".

(** [{:?}] of a string, for strings with nothing to escape (no quotes, backslashes or
    control characters), and of a byte array. *)
Definition debug_str (s : string) : string := dquote +:+ s +:+ dquote.
Definition debug_bytes (bs : list Z) : string := "[" +:+ String.concat ", " (to_string <$> bs) +:+ "]".

(** ** UTF-8 *)

Definition is_cont (b : Z) : bool := (0x80 <=? b) && (b <=? 0xbf).

(** [str::from_utf8]'s check of well-formedness. *)
Fixpoint valid_utf8 (bs : list Z) : bool :=
  match bs with
  | [] => true
  | b0 :: r0 =>
      if b0 <? 0x80 then valid_utf8 r0
      else match r0 with
      | [] => false
      | b1 :: r1 =>
          if (0xc2 <=? b0) && (b0 <=? 0xdf) then is_cont b1 && valid_utf8 r1
          else match r1 with
          | [] => false
          | b2 :: r2 =>
              if (0xe0 <=? b0) && (b0 <=? 0xef) then
                is_cont b1 && is_cont b2 && ((b0 >? 0xe0) || (0xa0 <=? b1)) &&
                (negb (b0 =? 0xed) || (b1 <=? 0x9f)) && valid_utf8 r2
              else match r2 with
              | [] => false
              | b3 :: r3 =>
                  (0xf0 <=? b0) && (b0 <=? 0xf4) && is_cont b1 && is_cont b2 && is_cont b3 &&
                  ((b0 >? 0xf0) || (0x90 <=? b1)) && ((b0 <? 0xf4) || (b1 <=? 0x8f)) && valid_utf8 r3
              end
          end
      end
  end.

Definition string_of_bytes (bs : list Z) : string := string_of_list_ascii (ascii_of <$> bs).

Lemma string_of_bytes_of s : string_of_bytes (bytes_of s) = s.
Proof.
  unfold string_of_bytes, bytes_of. rewrite <- list_fmap_compose.
  rewrite (list_fmap_ext _ id); [by rewrite list_fmap_id, string_of_list_ascii_of_string|].
  intros i a _. apply ascii_of_byte_of.
Qed.


Definition from_utf8 (bs : list Z) : option string :=
  if valid_utf8 bs then Some (string_of_bytes bs) else None.
