(* ===== verification/HexUtils.v ===== *)
(** * HexUtils: src/hex_utils.rs

    Hexadecimal decoding ([to_vec]), encoding ([hex_str]) and the parsing of a
    compressed public key ([to_compressed_pubkey]).  [PublicKey::from_slice] is the
    secp256k1 crate's: it is a parameter. *)

From S2P Require Import Prelude Text.

Local Open Scope Z_scope.

(** ** Definitions *)

(** The match of [to_vec] on one byte: the value or-ed into the accumulator. *)
Definition hex_nibble (c : Z) : option Z :=
  if (65 <=? c) && (c <=? 70) then Some (c - 65 + 10)
  else if (97 <=? c) && (c <=? 102) then Some (c - 97 + 10)
  else if (48 <=? c) && (c <=? 57) then Some (c - 48)
  else None.

(** The loop over [hex.as_bytes().iter().enumerate()]; [b] is the [u8]
    accumulator, whose [<<=] drops the bits shifted out. *)
Fixpoint to_vec_loop (cs : list Z) (idx b : Z) (out : list Z) : option (list Z) :=
  match cs with
  | [] => Some out
  | c :: cs' =>
      let b := wrap 8 (Z.shiftl b 4) in
      match hex_nibble c with
      | None => None
      | Some v =>
          let b := Z.lor b v in
          if Z.land idx 1 =? 1
          then to_vec_loop cs' (idx + 1) 0 (out ++ [b])
          else to_vec_loop cs' (idx + 1) b out
      end
  end.

Definition to_vec (hex : string) : option (list Z) := to_vec_loop (bytes_of hex) 0 0 [].

Definition hex_digit (n : Z) : ascii :=
  if n <? 10 then ascii_of (48 + n) else ascii_of (87 + n).

(** [format!("{:02x}", v)] for a byte. *)
Definition format_02x (v : Z) : string :=
  String (hex_digit (v `div` 16)) (String (hex_digit (v `mod` 16)) "").

Fixpoint hex_str (value : list Z) : string :=
  match value with
  | [] => ""
  | v :: vs => format_02x v +:+ hex_str vs
  end.

(** [&hex[0..n]]: slicing past the end panics. *)
Definition str_prefix (n : nat) (s : string) : outcome string :=
  if (Z.of_nat n <=? len s) then Ret (String.substring 0 n s)
  else Panic "byte index out of bounds".

Section PublicKeys.
Context {PublicKey : Type} (from_slice : list Z -> option PublicKey).

Definition to_compressed_pubkey (hex : string) : outcome (option PublicKey) :=
  prefix ← str_prefix (33 * 2) hex;
  match to_vec prefix with
  | Some data =>
      match from_slice data with
      | Some pk => Ret (Some pk)
      | None => Ret None
      end
  | None => Ret None
  end.
End PublicKeys.

(** ** Lemmas *)

Lemma hex_nibble_bound c v : hex_nibble c = Some v -> 0 <= v < 16.
Proof. unfold hex_nibble. intros H. inv_match H; simplify_eq; lia. Qed.

Lemma byte_of_hex_digit n :
  0 <= n < 16 -> byte_of (hex_digit n) = if n <? 10 then 48 + n else 87 + n.
Proof.
  intros H. unfold hex_digit. destruct (Z.ltb_spec n 10); apply byte_of_ascii_of;
    unfold in_width; change (2 ^ 8) with 256; lia.
Qed.

Lemma hex_nibble_digit n : 0 <= n < 16 -> hex_nibble (byte_of (hex_digit n)) = Some n.
Proof.
  intros H. rewrite byte_of_hex_digit by done. unfold hex_nibble.
  destruct (Z.ltb_spec n 10); repeat case_match; f_equal; lia.
Qed.

Lemma lor_nibbles hi lo : 0 <= hi < 16 -> 0 <= lo < 16 -> Z.lor (wrap 8 (Z.shiftl hi 4)) lo = hi * 16 + lo.
Proof.
  intros Hhi Hlo.
  assert (Hall : forallb (fun a => forallb (fun b => Z.lor (wrap 8 (Z.shiftl a 4)) b =? a * 16 + b)
     (seqZ 0 16)) (seqZ 0 16) = true) by (vm_compute; done).
  rewrite forallb_forall in Hall. specialize (Hall hi).
  rewrite <- list_elem_of_In, elem_of_seqZ in Hall. specialize (Hall ltac:(lia)).
  rewrite forallb_forall in Hall. specialize (Hall lo).
  rewrite <- list_elem_of_In, elem_of_seqZ in Hall. specialize (Hall ltac:(lia)).
  by apply Z.eqb_eq.
Qed.

Lemma land_1_even idx : Z.even idx = true -> Z.land idx 1 = 0.
Proof. intros H. change 1 with (Z.ones 1). rewrite Z.land_ones by lia. change (2 ^ 1) with 2.
  rewrite Zmod_even, H. done. Qed.

Lemma land_1_odd idx : Z.even idx = true -> Z.land (idx + 1) 1 = 1.
Proof. intros H. change 1 with (Z.ones 1) at 2. rewrite Z.land_ones by lia. change (2 ^ 1) with 2.
  rewrite Zmod_even, Z.add_1_r, Z.even_succ, <- Z.negb_even, H. done. Qed.

(** Two hexadecimal digits are consumed per output byte. *)
Lemma to_vec_loop_pair c1 c2 cs idx out :
  Z.even idx = true ->
  to_vec_loop (c1 :: c2 :: cs) idx 0 out =
  match hex_nibble c1, hex_nibble c2 with
  | Some hi, Some lo => to_vec_loop cs (idx + 2) 0 (out ++ [hi * 16 + lo])
  | _, _ => None
  end.
Proof.
  intros Hev. cbn [to_vec_loop]. rewrite land_1_even by done.
  destruct (hex_nibble c1) as [hi|] eqn:E1; [|done]. cbn [Z.eqb].
  rewrite land_1_odd by done. cbn.
  destruct (hex_nibble c2) as [lo|] eqn:E2; [|done].
  apply hex_nibble_bound in E1, E2.
  change (wrap 8 (Z.shiftl 0 4)) with 0. rewrite Z.lor_0_l, lor_nibbles by done.
  by replace (idx + 1 + 1) with (idx + 2) by lia.
Qed.

Lemma to_vec_loop_hex_str vs idx out :
  Z.even idx = true -> Forall u8 vs ->
  to_vec_loop (bytes_of (hex_str vs)) idx 0 out = Some (out ++ vs).
Proof.
  intros Hev Hvs. revert idx out Hev. induction Hvs as [|v vs Hv Hvs IH]; intros idx out Hev.
  { cbn. by rewrite (right_id_L [] (++)). }
  cbn [hex_str]. unfold format_02x. rewrite !app_cons, app_nil_l, !bytes_of_cons.
  unfold in_width in Hv. change (2 ^ 8) with 256 in Hv.
  rewrite to_vec_loop_pair by done.
  pose proof (Z.div_mod v 16 ltac:(lia)). pose proof (Z.mod_pos_bound v 16 ltac:(lia)).
  rewrite !hex_nibble_digit; [|lia|].
  - rewrite IH; [|by rewrite Z.even_add, Hev].
    replace (v `div` 16 * 16 + v `mod` 16) with v by lia. by rewrite <- (assoc_L (++)).
  - split; [apply Z.div_pos; lia|apply Z.div_lt_upper_bound; lia].
Qed.

(** Characterisation of a successful decoding: pairs of hexadecimal digits, a
    trailing digit that has no partner being dropped. *)
Fixpoint hex_pairs (cs : list Z) : option (list Z) :=
  match cs with
  | [] => Some []
  | [c] => match hex_nibble c with Some _ => Some [] | None => None end
  | c1 :: c2 :: cs' =>
      match hex_nibble c1, hex_nibble c2, hex_pairs cs' with
      | Some hi, Some lo, Some vs => Some ((hi * 16 + lo) :: vs)
      | _, _, _ => None
      end
  end.

Lemma pair_ind {A} (P : list A -> Prop) :
  P [] -> (forall x, P [x]) -> (forall x y l, P l -> P (x :: y :: l)) -> forall l, P l.
Proof.
  intros H0 H1 H2 l. enough (P l /\ forall x, P (x :: l)) by tauto.
  induction l as [|x l [IH1 IH2]]; [by split|]. split; [apply IH2|]. intros y. by apply H2.
Qed.

Lemma to_vec_loop_pairs cs idx out :
  Z.even idx = true ->
  to_vec_loop cs idx 0 out = (fun vs => out ++ vs) <$> hex_pairs cs.
Proof.
  revert idx out. induction cs as [|c|c1 c2 cs IH] using pair_ind; intros idx out Hev.
  - cbn. by rewrite (right_id_L [] (++)).
  - cbn. destruct (hex_nibble c); [|done]. rewrite land_1_even by done. cbn.
    by rewrite (right_id_L [] (++)).
  - rewrite to_vec_loop_pair by done. cbn [hex_pairs].
    destruct (hex_nibble c1); [|done]. destruct (hex_nibble c2); [|done].
    rewrite IH by (by rewrite Z.even_add, Hev). destruct (hex_pairs cs); [|done].
    cbn. by rewrite <- (assoc_L (++)).
Qed.

Lemma to_vec_pairs s : to_vec s = hex_pairs (bytes_of s).
Proof. unfold to_vec. rewrite to_vec_loop_pairs by done. by destruct (hex_pairs _). Qed.

Lemma hex_pairs_u8 cs vs :
  hex_pairs cs = Some vs ->
  Forall u8 vs /\ Z.of_nat (length vs) = Z.of_nat (length cs) `div` 2.
Proof.
  revert vs. induction cs as [|c|c1 c2 cs IH] using pair_ind; intros vs H.
  - cbn in H. by simplify_eq.
  - cbn in H. inv_match H. by simplify_eq.
  - cbn [hex_pairs] in H. inv_match H. simplify_eq.
    destruct (IH _ eq_refl) as [Hf Hl].
    apply hex_nibble_bound in Heqo, Heqo0. split.
    + constructor; [|done]. unfold in_width. change (2 ^ 8) with 256. lia.
    + cbn [length]. rewrite !Nat2Z.inj_succ, Hl.
      replace (Z.succ (Z.succ (Z.of_nat (length cs)))) with (Z.of_nat (length cs) + 1 * 2) by lia.
      rewrite Z.div_add by lia. lia.
Qed.

Lemma hex_pairs_Some cs :
  Forall (fun c => is_Some (hex_nibble c)) cs -> is_Some (hex_pairs cs).
Proof.
  induction cs as [|c|c1 c2 cs IH] using pair_ind; intros H.
  - by eexists.
  - inversion H as [|? ? [v Hv] ?]; subst. cbn. rewrite Hv. by eexists.
  - inversion H as [|? ? [v Hv] H']; subst. inversion H' as [|? ? [v' Hv'] H'']; subst.
    destruct (IH H'') as [vs Hvs]. cbn. rewrite Hv, Hv', Hvs. by eexists.
Qed.

Lemma hex_pairs_nibbles cs : is_Some (hex_pairs cs) -> Forall (fun c => is_Some (hex_nibble c)) cs.
Proof.
  induction cs as [|c|c1 c2 cs IH] using pair_ind; intros [vs H].
  - done.
  - cbn in H. inv_match H. constructor; [|done]. rewrite Heqo. by eexists.
  - cbn [hex_pairs] in H. inv_match H. constructor; [|constructor].
    + rewrite Heqo. by eexists.
    + rewrite Heqo0. by eexists.
    + apply IH. by eexists.
Qed.

(** ** Properties *)

(** Decoding what [hex_str] printed gives the bytes back. *)
Theorem to_vec_hex_str (vs : list Z) : Forall u8 vs -> to_vec (hex_str vs) = Some vs.
Proof. intros H. unfold to_vec. by rewrite to_vec_loop_hex_str. Qed.

Lemma to_vec_hex_str_witness : to_vec (hex_str [0; 255; 18]) = Some [0; 255; 18].
Proof. apply to_vec_hex_str. repeat constructor; vm_compute; done. Defined.

(** [to_vec] succeeds exactly on strings of hexadecimal digits, and then returns
    [len / 2] bytes: an odd trailing digit is silently dropped. *)
Theorem to_vec_spec (s : string) :
  (is_Some (to_vec s) <-> Forall (fun c => is_Some (hex_nibble c)) (bytes_of s)) /\
  (forall vs, to_vec s = Some vs ->
     Forall u8 vs /\ Z.of_nat (length vs) = len s `div` 2).
Proof.
  rewrite to_vec_pairs. split.
  - split; [apply hex_pairs_nibbles|apply hex_pairs_Some].
  - intros vs H. apply hex_pairs_u8 in H as [? H]. by rewrite length_bytes_of in H.
Qed.

(** [to_compressed_pubkey] panics exactly on strings shorter than 66 bytes. *)
Theorem to_compressed_pubkey_panics {PublicKey} (from_slice : list Z -> option PublicKey) hex :
  (exists why, to_compressed_pubkey from_slice hex = Panic why) <-> len hex < 66.
Proof.
  unfold to_compressed_pubkey, str_prefix. change (Z.of_nat (33 * 2)) with 66.
  destruct (Z.leb_spec 66 (len hex)); cbn.
  - split; [|lia]. intros [why H0]. inv_match H0.
  - split; [lia|]. intros _. by eexists.
Qed.
