(* ===== verification/Bytes.v ===== *)
(** * Bytes: byte strings and the integer encodings of the Rust standard library

    A [u8] slice is a [list Z] whose elements are bytes.  [to_be_bytes],
    [from_be_bytes], [to_le_bytes], [from_le_bytes] at [n] bytes, exclusive or of
    byte strings, and the slices [&b[i..j]]. *)

From S2P Require Import Prelude.

Local Open Scope Z_scope.

Abbreviation bytes := (list Z).
Abbreviation all_u8 := (Forall (in_width 8)).

(** ** Definitions *)

Fixpoint to_le_bytes (n : nat) (z : Z) : bytes :=
  match n with
  | O => []
  | S k => (z `mod` 256) :: to_le_bytes k (z `div` 256)
  end.

Fixpoint from_le_bytes (bs : bytes) : Z :=
  match bs with
  | [] => 0
  | b :: r => b + 256 * from_le_bytes r
  end.

Definition to_be_bytes (n : nat) (z : Z) : bytes := rev (to_le_bytes n z).
Definition from_be_bytes (bs : bytes) : Z := from_le_bytes (rev bs).

Definition slice {A} (i j : nat) (l : list A) : list A := take (j - i) (drop i l).

Fixpoint xor_bytes (a b : bytes) : bytes :=
  match a, b with
  | x :: a', y :: b' => Z.lxor x y :: xor_bytes a' b'
  | _, _ => []
  end.

(** ** Lemmas *)

Lemma length_to_le_bytes n z : length (to_le_bytes n z) = n.
Proof. revert z. induction n as [|n IH]; intros z; cbn; [done|]. by rewrite IH. Qed.

Lemma length_to_be_bytes n z : length (to_be_bytes n z) = n.
Proof. unfold to_be_bytes. by rewrite length_rev, length_to_le_bytes. Qed.

Lemma to_le_bytes_u8 n z : all_u8 (to_le_bytes n z).
Proof.
  revert z. induction n as [|n IH]; intros z; cbn; constructor; [|done].
  unfold in_width. change (2 ^ 8) with 256. apply Z.mod_pos_bound. lia.
Qed.

Lemma to_be_bytes_u8 n z : all_u8 (to_be_bytes n z).
Proof. unfold to_be_bytes. apply Forall_rev. apply to_le_bytes_u8. Qed.

Lemma pow256_succ n : 256 ^ Z.of_nat (S n) = 256 * 256 ^ Z.of_nat n.
Proof. rewrite Nat2Z.inj_succ, Z.pow_succ_r by lia. done. Qed.

Lemma from_to_le_bytes n z : 0 <= z < 256 ^ Z.of_nat n -> from_le_bytes (to_le_bytes n z) = z.
Proof.
  revert z. induction n as [|n IH]; intros z Hz; cbn [to_le_bytes from_le_bytes].
  { change (256 ^ Z.of_nat 0) with 1 in Hz. lia. }
  rewrite pow256_succ in Hz. rewrite IH.
  - pose proof (Z.div_mod z 256). lia.
  - split; [apply Z.div_pos; lia|apply Z.div_lt_upper_bound; lia].
Qed.

Lemma from_to_be_bytes n z : 0 <= z < 256 ^ Z.of_nat n -> from_be_bytes (to_be_bytes n z) = z.
Proof.
  intros H. unfold from_be_bytes, to_be_bytes. rewrite rev_involutive. by apply from_to_le_bytes.
Qed.

Lemma from_le_bytes_bound bs : all_u8 bs -> 0 <= from_le_bytes bs < 256 ^ Z.of_nat (length bs).
Proof.
  induction 1 as [|b bs Hb _ IH]; [cbn; lia|]. cbn [from_le_bytes length].
  rewrite pow256_succ. unfold in_width in Hb. change (2 ^ 8) with 256 in Hb. lia.
Qed.

Lemma from_be_bytes_bound bs : all_u8 bs -> 0 <= from_be_bytes bs < 256 ^ Z.of_nat (length bs).
Proof.
  intros H. unfold from_be_bytes. rewrite <- (length_rev bs). apply from_le_bytes_bound.
  by apply Forall_rev.
Qed.

Lemma to_from_le_bytes bs : all_u8 bs -> to_le_bytes (length bs) (from_le_bytes bs) = bs.
Proof.
  induction 1 as [|b bs Hb _ IH]; [done|]. cbn [from_le_bytes length to_le_bytes].
  unfold in_width in Hb. change (2 ^ 8) with 256 in Hb. f_equal.
  - rewrite (Z.mul_comm 256), Z.mod_add by lia. apply Z.mod_small. lia.
  - rewrite (Z.mul_comm 256), Z.div_add, Z.div_small by lia. by rewrite Z.add_0_l.
Qed.

Lemma to_from_be_bytes bs : all_u8 bs -> to_be_bytes (length bs) (from_be_bytes bs) = bs.
Proof.
  intros H. unfold to_be_bytes, from_be_bytes. rewrite <- (length_rev bs).
  rewrite to_from_le_bytes by (by apply Forall_rev). by rewrite rev_involutive.
Qed.

Lemma lxor_u8 a b : u8 a -> u8 b -> u8 (Z.lxor a b).
Proof.
  intros Ha Hb. apply in_width_testbit; [lia| |].
  - apply Z.lxor_nonneg. unfold in_width in *. lia.
  - intros i Hi. rewrite Z.lxor_spec. by rewrite !(testbit_above 8) by (done || lia).
Qed.

Lemma xor_bytes_u8 a b : all_u8 a -> all_u8 b -> all_u8 (xor_bytes a b).
Proof.
  intros Ha. revert b. induction Ha as [|x a Hx _ IH]; intros b Hb; [constructor|].
  destruct Hb as [|y b Hy Hb]; cbn; [constructor|]. constructor; [by apply lxor_u8|by apply IH].
Qed.

Lemma length_xor_bytes a b : length (xor_bytes a b) = Nat.min (length a) (length b).
Proof. revert b. induction a as [|x a IH]; intros [|y b]; cbn; [done..|]. by rewrite IH. Qed.

Lemma xor_bytes_involutive a b :
  (length a <= length b)%nat -> xor_bytes (xor_bytes a b) b = a.
Proof.
  revert b. induction a as [|x a IH]; intros [|y b] H; cbn in *; [done|done|lia|].
  rewrite IH by lia. by rewrite Z.lxor_assoc, Z.lxor_nilpotent, Z.lxor_0_r.
Qed.

Lemma length_slice {A} i j (l : list A) :
  (i <= j <= length l)%nat -> length (slice i j l) = (j - i)%nat.
Proof. intros H. unfold slice. rewrite length_take, length_drop. lia. Qed.

Lemma slice_app {A} i j k (l : list A) :
  (i <= j <= k)%nat -> slice i k l = slice i j l ++ slice j k l.
Proof.
  intros H. unfold slice. rewrite <- (take_drop (j - i) (take (k - i) (drop i l))) at 1.
  rewrite take_take, skipn_firstn_comm, drop_drop. f_equal; f_equal; [lia..|f_equal; lia].
Qed.

Lemma Forall_slice {A} (P : A -> Prop) i j l : Forall P l -> Forall P (slice i j l).
Proof. intros H. apply Forall_take. by apply Forall_drop. Qed.

(** Little-endian numbers of concatenations, prefixes and suffixes. *)
Lemma pow256_pow2 n : 256 ^ Z.of_nat n = 2 ^ (8 * Z.of_nat n).
Proof. change 256 with (2 ^ 8). by rewrite <- Z.pow_mul_r by lia. Qed.

Lemma from_le_bytes_app a b :
  from_le_bytes (a ++ b) = from_le_bytes a + 256 ^ Z.of_nat (length a) * from_le_bytes b.
Proof.
  induction a as [|x a IH]; cbn [from_le_bytes app length]; [change (256 ^ Z.of_nat 0) with 1; lia|].
  rewrite IH, pow256_succ. lia.
Qed.

Lemma from_le_bytes_zeros n : from_le_bytes (replicate n 0) = 0.
Proof. induction n as [|n IH]; cbn; [done|]. by rewrite IH. Qed.

Lemma from_le_bytes_split n bs :
  all_u8 bs -> (n <= length bs)%nat ->
  from_le_bytes (take n bs) = from_le_bytes bs `mod` 256 ^ Z.of_nat n /\
  from_le_bytes (drop n bs) = from_le_bytes bs `div` 256 ^ Z.of_nat n.
Proof.
  intros Hu Hn. pose proof (from_le_bytes_app (take n bs) (drop n bs)) as E.
  rewrite take_drop, length_take, Nat.min_l in E by done.
  pose proof (from_le_bytes_bound (take n bs) ltac:(by apply Forall_take)) as B.
  rewrite length_take, Nat.min_l in B by done. rewrite E. split.
  - rewrite Z.mul_comm, Z.mod_add, Z.mod_small by lia. done.
  - rewrite Z.mul_comm, Z.div_add, Z.div_small by lia. done.
Qed.

Lemma from_le_bytes_slice i n bs :
  all_u8 bs -> (i + n <= length bs)%nat ->
  from_le_bytes (slice i (i + n) bs) =
  (from_le_bytes bs `div` 2 ^ (8 * Z.of_nat i)) `mod` 2 ^ (8 * Z.of_nat n).
Proof.
  intros Hu Hn. unfold slice. replace (i + n - i)%nat with n by lia.
  rewrite (proj1 (from_le_bytes_split n (drop i bs) ltac:(by apply Forall_drop) ltac:(rewrite length_drop; lia))).
  rewrite (proj2 (from_le_bytes_split i bs Hu ltac:(lia))). by rewrite !pow256_pow2.
Qed.

Lemma to_le_bytes_app n m z :
  to_le_bytes (n + m) z = to_le_bytes n z ++ to_le_bytes m (z `div` 256 ^ Z.of_nat n).
Proof.
  revert z. induction n as [|n IH]; intros z; cbn [to_le_bytes app Nat.add].
  { change (256 ^ Z.of_nat 0) with 1. by rewrite Z.div_1_r. }
  rewrite IH, pow256_succ, Z.div_div by lia. done.
Qed.

Lemma to_le_bytes_mod n z : to_le_bytes n (z `mod` 256 ^ Z.of_nat n) = to_le_bytes n z.
Proof.
  revert z. induction n as [|n IH]; intros z; [done|]. cbn [to_le_bytes].
  rewrite pow256_succ, Z.rem_mul_r by lia. f_equal.
  - by rewrite Z.mul_comm, Z.mod_add, Z.mod_mod by lia.
  - rewrite Z.mul_comm, Z.div_add, Z.div_small, Z.add_0_l by (try lia; apply Z.mod_pos_bound; lia).
    apply IH.
Qed.

#[export] Hint Resolve to_le_bytes_u8 to_be_bytes_u8 xor_bytes_u8 Forall_slice : width.
