(* ===== verification/ChaCha20.v ===== *)
(** * ChaCha20: rust-lightning/lightning/src/util/chacha20.rs

    The stream cipher as the file writes it: four rows of four 32-bit words
    ([u32x4]), a [round!] on whole rows followed by a [swizzle!] that rotates the
    rows so that the diagonal round can use the same code, an output buffer of one
    block with an offset, and the [process] loops that consume it.  The reference
    is the word-indexed description of RFC 7539: quarter rounds on columns and
    then on diagonals of a 4x4 matrix. *)

From S2P Require Import Prelude Bytes.

Local Open Scope Z_scope.

(** ** Definitions *)

Record u32x4 := U32x4 { w0 : Z; w1 : Z; w2 : Z; w3 : Z }.

Global Instance u32x4_eq_dec : EqDecision u32x4.
Proof. solve_decision. Defined.

Definition map2 (f : Z -> Z -> Z) (x y : u32x4) : u32x4 :=
  U32x4 (f (w0 x) (w0 y)) (f (w1 x) (w1 y)) (f (w2 x) (w2 y)) (f (w3 x) (w3 y)).

Definition wrapping_add32 (a b : Z) : Z := wrap 32 (a + b).
Definition wrapping_sub32 (a b : Z) : Z := wrap 32 (a - b).

Definition u32x4_add : u32x4 -> u32x4 -> u32x4 := map2 wrapping_add32.
Definition u32x4_sub : u32x4 -> u32x4 -> u32x4 := map2 wrapping_sub32.
Definition u32x4_bitxor : u32x4 -> u32x4 -> u32x4 := map2 Z.lxor.
Definition u32x4_shr : u32x4 -> u32x4 -> u32x4 := map2 Z.shiftr.
Definition u32x4_shl : u32x4 -> u32x4 -> u32x4 := map2 (fun a k => wrap 32 (Z.shiftl a k)).

Definition from_bytes (bs : bytes) : u32x4 :=
  U32x4 (from_le_bytes (slice 0 4 bs)) (from_le_bytes (slice 4 8 bs))
        (from_le_bytes (slice 8 12 bs)) (from_le_bytes (slice 12 16 bs)).

Definition BLOCK_SIZE : nat := 64.

Record ChaChaState := mkState { row_a : u32x4; row_b : u32x4; row_c : u32x4; row_d : u32x4 }.

Record ChaCha20 := mkChaCha { cc_state : ChaChaState; cc_output : bytes; cc_offset : nat }.

(** [swizzle!(b, c, d)]: rotate the three rows left by one, two and three words. *)
Definition rot1 (x : u32x4) : u32x4 := U32x4 (w1 x) (w2 x) (w3 x) (w0 x).
Definition rot2 (x : u32x4) : u32x4 := U32x4 (w2 x) (w3 x) (w0 x) (w1 x).
Definition rot3 (x : u32x4) : u32x4 := U32x4 (w3 x) (w0 x) (w1 x) (w2 x).

Definition swizzle_bcd (s : ChaChaState) : ChaChaState :=
  mkState (row_a s) (rot1 (row_b s)) (rot2 (row_c s)) (rot3 (row_d s)).
Definition swizzle_dcb (s : ChaChaState) : ChaChaState :=
  mkState (row_a s) (rot3 (row_b s)) (rot2 (row_c s)) (rot1 (row_d s)).

(** [state_to_buffer!]: the sixteen words, little endian. *)
Definition words_of (x : u32x4) : list Z := [w0 x; w1 x; w2 x; w3 x].
Definition state_words (s : ChaChaState) : list Z :=
  words_of (row_a s) ++ words_of (row_b s) ++ words_of (row_c s) ++ words_of (row_d s).
Definition state_to_buffer (s : ChaChaState) : bytes :=
  concat ((to_le_bytes 4) <$> state_words s).

Definition S32 : u32x4 := U32x4 32 32 32 32.
Definition S16 : u32x4 := U32x4 16 16 16 16.
Definition S12 : u32x4 := U32x4 12 12 12 12.
Definition S8 : u32x4 := U32x4 8 8 8 8.
Definition S7 : u32x4 := U32x4 7 7 7 7.

(** [rotate!(a, b, c)] returns the new value of [a]. *)
Definition rotate (a b c : u32x4) : u32x4 :=
  let v := u32x4_bitxor a b in
  let r := u32x4_sub S32 c in
  let right := u32x4_shr v r in
  u32x4_bitxor (u32x4_shl v c) right.

(** [round!(state)], one assignment per line of the macro. *)
Definition round (s : ChaChaState) : ChaChaState :=
  let '(mkState a b c d) := s in
  let a := u32x4_add a b in
  let d := rotate d a S16 in
  let c := u32x4_add c d in
  let b := rotate b c S12 in
  let a := u32x4_add a b in
  let d := rotate d a S8 in
  let c := u32x4_add c d in
  let b := rotate b c S7 in
  mkState a b c d.

Definition constant_16 : bytes :=
  [101; 120; 112; 97; 110; 100; 32; 49; 54; 45; 98; 121; 116; 101; 32; 107].
Definition constant_32 : bytes :=
  [101; 120; 112; 97; 110; 100; 32; 51; 50; 45; 98; 121; 116; 101; 32; 107].

(** [ChaCha20::expand]: any key length but 16 and 32 is unreachable, and the
    [copy_from_slice] of the last branch panics unless the nonce has 8 bytes. *)
Definition expand (key nonce : bytes) : outcome ChaChaState :=
  constant ← (if decide (length key = 16%nat) then Ret constant_16
              else if decide (length key = 32%nat) then Ret constant_32
              else Panic "unreachable");
  let a := from_bytes (slice 0 16 constant) in
  let b := from_bytes (slice 0 16 key) in
  let c := if decide (length key = 16%nat) then from_bytes (slice 0 16 key)
           else from_bytes (slice 16 32 key) in
  d ← (if decide (length nonce = 16%nat) then Ret (from_bytes (slice 0 16 nonce))
       else if decide (length nonce = 12%nat) then Ret (from_bytes (replicate 4 0 ++ nonce))
       else if decide (length nonce = 8%nat) then Ret (from_bytes (replicate 8 0 ++ nonce))
       else Panic "copy_from_slice");
  Ret (mkState a b c d).

Definition new (key nonce : bytes) : outcome ChaCha20 :=
  if decide (length key = 16%nat \/ length key = 32%nat) then
    if decide (length nonce = 8%nat \/ length nonce = 12%nat) then
      st ← expand key nonce; Ret (mkChaCha st (replicate BLOCK_SIZE 0) 64)
    else Panic "assertion failed: nonce.len()"
  else Panic "assertion failed: key.len()".

Definition double_round (s : ChaChaState) : ChaChaState :=
  swizzle_dcb (round (swizzle_bcd (round s))).

Definition add_state (s t : ChaChaState) : ChaChaState :=
  mkState (u32x4_add (row_a s) (row_a t)) (u32x4_add (row_b s) (row_b t))
          (u32x4_add (row_c s) (row_c t)) (u32x4_add (row_d s) (row_d t)).

(** The key-stream block [update] writes to [self.output]. *)
Definition block_of (s : ChaChaState) : bytes :=
  state_to_buffer (add_state (Nat.iter 10 double_round s) s).

Definition next_counter (s : ChaChaState) : ChaChaState :=
  mkState (row_a s) (row_b s) (row_c s) (u32x4_add (row_d s) (U32x4 1 0 0 0)).

Definition update (c : ChaCha20) : outcome ChaCha20 :=
  let st := next_counter (cc_state c) in
  if w0 (row_d st) =? 0 then Panic "counter is exhausted"
  else Ret (mkChaCha st (block_of (cc_state c)) 0).

(** [process_in_place]: the [while i < len] loop, [input] being what is left of
    the buffer; every iteration consumes at least one byte, so the length of the
    input bounds the iterations. *)
Fixpoint process_loop (fuel : nat) (c : ChaCha20) (input : bytes) : outcome (bytes * ChaCha20) :=
  match input with
  | [] => Ret ([], c)
  | _ :: _ =>
      match fuel with
      | O => OutOfFuel
      | S f =>
          c ← (if decide (cc_offset c = BLOCK_SIZE) then update c else Ret c);
          let count := Nat.min (BLOCK_SIZE - cc_offset c) (length input) in
          let out := xor_bytes (take count input) (drop (cc_offset c) (cc_output c)) in
          '(rest, c') ← process_loop f (mkChaCha (cc_state c) (cc_output c) (cc_offset c + count))
                          (drop count input);
          Ret (out ++ rest, c')
      end
  end.

Definition process_in_place (c : ChaCha20) (input : bytes) : outcome (bytes * ChaCha20) :=
  process_loop (length input) c input.

(** [process] writes to a second buffer of the same length. *)
Definition process (c : ChaCha20) (input : bytes) (output_len : nat) : outcome (bytes * ChaCha20) :=
  if decide (length input = output_len) then process_in_place c input
  else Panic "assertion failed: input.len() == output.len()".

Definition get_single_block (key nonce : bytes) : outcome bytes :=
  st ← expand key nonce;
  '(out, _) ← process_in_place (mkChaCha st (replicate BLOCK_SIZE 0) 64) (replicate 32 0);
  Ret out.

(** ** The RFC 7539 description *)

Module Rfc.

Definition rotl (n x : Z) : Z := Z.lor (wrap 32 (Z.shiftl x n)) (Z.shiftr x (32 - n)).

Definition quarter (a b c d : Z) : Z * Z * Z * Z :=
  let a := wrapping_add32 a b in let d := rotl 16 (Z.lxor d a) in
  let c := wrapping_add32 c d in let b := rotl 12 (Z.lxor b c) in
  let a := wrapping_add32 a b in let d := rotl 8 (Z.lxor d a) in
  let c := wrapping_add32 c d in let b := rotl 7 (Z.lxor b c) in
  (a, b, c, d).

(** [QUARTERROUND(i, j, k, l)] on the sixteen-word state. *)
Definition quarter_round (i j k l : nat) (v : list Z) : list Z :=
  let '(a, b, c, d) := quarter (nth i v 0) (nth j v 0) (nth k v 0) (nth l v 0) in
  <[l := d]> (<[k := c]> (<[j := b]> (<[i := a]> v))).

Definition inner_block (v : list Z) : list Z :=
  quarter_round 3 4 9 14 (quarter_round 2 7 8 13 (quarter_round 1 6 11 12 (quarter_round 0 5 10 15
  (quarter_round 3 7 11 15 (quarter_round 2 6 10 14 (quarter_round 1 5 9 13
  (quarter_round 0 4 8 12 v))))))).

Definition block (v : list Z) : bytes :=
  concat ((to_le_bytes 4) <$> zip_with wrapping_add32 (Nat.iter 10 inner_block v) v).

End Rfc.

(** ** Lemmas: word arithmetic *)

Definition row_ok (x : u32x4) : Prop := u32 (w0 x) /\ u32 (w1 x) /\ u32 (w2 x) /\ u32 (w3 x).
Definition state_ok (s : ChaChaState) : Prop :=
  row_ok (row_a s) /\ row_ok (row_b s) /\ row_ok (row_c s) /\ row_ok (row_d s).

Lemma lxor_u32 a b : u32 a -> u32 b -> u32 (Z.lxor a b).
Proof.
  intros Ha Hb. apply in_width_testbit; [lia| |].
  - apply Z.lxor_nonneg. unfold in_width in *. lia.
  - intros i Hi. rewrite Z.lxor_spec. by rewrite !(testbit_above 32) by (done || lia).
Qed.

(** The two halves of a rotation have no bit in common, so xor is or. *)
Lemma rotate_halves n x :
  0 < n < 32 -> u32 x ->
  Z.lxor (wrap 32 (Z.shiftl x n)) (Z.shiftr x (32 - n)) = Rfc.rotl n x.
Proof.
  intros Hn Hx. unfold Rfc.rotl. apply Z.bits_inj'. intros i Hi.
  rewrite Z.lxor_spec, Z.lor_spec.
  destruct (Z_lt_le_dec i n) as [H|H].
  - unfold wrap. rewrite Z.mod_pow2_bits_low, Z.shiftl_spec_low by lia.
    by destruct (Z.testbit _ _).
  - rewrite (Z.shiftr_spec _ (32 - n)), (testbit_above 32 x (i + (32 - n))) by (done || lia).
    by destruct (Z.testbit _ _).
Qed.

Lemma rotl_u32 n x : 0 < n < 32 -> u32 x -> u32 (Rfc.rotl n x).
Proof.
  intros Hn Hx. unfold Rfc.rotl. apply lor_in_width; [lia|by apply wrap_in_width|].
  apply (shiftr_in_width 32); [lia|lia|lia|done].
Qed.

Lemma rotate_row a b (k : Z) :
  0 < k < 32 -> row_ok a -> row_ok b ->
  rotate a b (U32x4 k k k k) = map2 (fun x y => Rfc.rotl k (Z.lxor x y)) a b.
Proof.
  intros Hk (?&?&?&?) (?&?&?&?).
  unfold rotate, u32x4_bitxor, u32x4_shl, u32x4_shr, u32x4_sub, map2, wrapping_sub32. cbn.
  rewrite (wrap_small 32 (32 - k)) by (unfold in_width; change (2 ^ 32) with 4294967296; lia).
  rewrite !rotate_halves by (done || by apply lxor_u32). done.
Qed.

Lemma row_ok_add a b : row_ok (u32x4_add a b).
Proof. repeat split; apply wrap_in_width; lia. Qed.

Lemma row_ok_rotl k a b :
  0 < k < 32 -> row_ok a -> row_ok b -> row_ok (map2 (fun x y => Rfc.rotl k (Z.lxor x y)) a b).
Proof. intros Hk (?&?&?&?) (?&?&?&?). repeat split; apply rotl_u32; auto using lxor_u32. Qed.

#[local] Hint Resolve row_ok_add row_ok_rotl : width.
#[local] Hint Extern 1 (_ < _ < _) => lia : width.

(** A row round is four quarter rounds, one per column. *)
Definition column_round (s : ChaChaState) : ChaChaState :=
  let '(a0, b0, c0, d0) := Rfc.quarter (w0 (row_a s)) (w0 (row_b s)) (w0 (row_c s)) (w0 (row_d s)) in
  let '(a1, b1, c1, d1) := Rfc.quarter (w1 (row_a s)) (w1 (row_b s)) (w1 (row_c s)) (w1 (row_d s)) in
  let '(a2, b2, c2, d2) := Rfc.quarter (w2 (row_a s)) (w2 (row_b s)) (w2 (row_c s)) (w2 (row_d s)) in
  let '(a3, b3, c3, d3) := Rfc.quarter (w3 (row_a s)) (w3 (row_b s)) (w3 (row_c s)) (w3 (row_d s)) in
  mkState (U32x4 a0 a1 a2 a3) (U32x4 b0 b1 b2 b3) (U32x4 c0 c1 c2 c3) (U32x4 d0 d1 d2 d3).

Lemma round_columns s : state_ok s -> round s = column_round s /\ state_ok (round s).
Proof.
  intros (Ha & Hb & Hc & Hd). destruct s as [a b c d]; cbn [row_a row_b row_c row_d] in *.
  unfold round, S16, S12, S8, S7.
  rewrite !rotate_row by auto 20 with width.
  split; [done|]. unfold state_ok; cbn [row_a row_b row_c row_d]. auto 20 with width.
Qed.

Definition columns (v : list Z) : list Z :=
  Rfc.quarter_round 3 7 11 15 (Rfc.quarter_round 2 6 10 14 (Rfc.quarter_round 1 5 9 13
  (Rfc.quarter_round 0 4 8 12 v))).
Definition diagonals (v : list Z) : list Z :=
  Rfc.quarter_round 3 4 9 14 (Rfc.quarter_round 2 7 8 13 (Rfc.quarter_round 1 6 11 12
  (Rfc.quarter_round 0 5 10 15 v))).

(** Destruct the quarter rounds applied to variables, innermost first. *)
Ltac split_quarters :=
  repeat (cbv -[Rfc.quarter];
          match goal with
          | |- context [Rfc.quarter ?a ?b ?c ?d] =>
              is_var a; is_var b; is_var c; is_var d;
              destruct (Rfc.quarter a b c d) as [[[? ?] ?] ?]
          end).

Lemma columns_words s : columns (state_words s) = state_words (column_round s).
Proof.
  destruct s as [[a0 a1 a2 a3] [b0 b1 b2 b3] [c0 c1 c2 c3] [d0 d1 d2 d3]].
  unfold columns, Rfc.quarter_round, column_round, state_words, words_of. by split_quarters.
Qed.

Lemma diagonals_words s :
  diagonals (state_words s) = state_words (swizzle_dcb (column_round (swizzle_bcd s))).
Proof.
  destruct s as [[a0 a1 a2 a3] [b0 b1 b2 b3] [c0 c1 c2 c3] [d0 d1 d2 d3]].
  unfold diagonals, Rfc.quarter_round, column_round, state_words, words_of, swizzle_bcd, swizzle_dcb.
  by split_quarters.
Qed.

Lemma swizzle_ok s : state_ok s -> state_ok (swizzle_bcd s) /\ state_ok (swizzle_dcb s).
Proof. intros ((?&?&?&?)&(?&?&?&?)&(?&?&?&?)&(?&?&?&?)).
  split; unfold state_ok, row_ok; cbn; tauto. Qed.

Lemma double_round_inner s :
  state_ok s ->
  state_words (double_round s) = Rfc.inner_block (state_words s) /\ state_ok (double_round s).
Proof.
  intros Hs. unfold double_round.
  destruct (round_columns s Hs) as [E1 H1].
  destruct (swizzle_ok _ H1) as [H2 _].
  destruct (round_columns _ H2) as [E2 H3].
  destruct (swizzle_ok _ H3) as [_ H4]. split; [|done].
  rewrite E2, <- diagonals_words, E1, <- columns_words.
  unfold diagonals, columns, Rfc.inner_block. reflexivity.
Qed.

Lemma rounds_inner n s :
  state_ok s ->
  state_words (Nat.iter n double_round s) = Nat.iter n Rfc.inner_block (state_words s) /\
  state_ok (Nat.iter n double_round s).
Proof.
  intros Hs. induction n as [|n [IH1 IH2]]; [done|].
  destruct (double_round_inner _ IH2) as [E H]. rewrite IH1 in E. split; [exact E|exact H].
Qed.

Lemma add_state_words s t :
  state_words (add_state s t) = zip_with wrapping_add32 (state_words s) (state_words t).
Proof. done. Qed.

(** ** Lemmas: the process loops *)

(** One byte of the stream: what the loops do, without the blocking. *)
Definition step_byte (c : ChaCha20) (x : Z) : outcome (Z * ChaCha20) :=
  c ← (if decide (cc_offset c = BLOCK_SIZE) then update c else Ret c);
  Ret (Z.lxor x (nth (cc_offset c) (cc_output c) 0),
       mkChaCha (cc_state c) (cc_output c) (cc_offset c + 1)).

Fixpoint bytewise (c : ChaCha20) (input : bytes) : outcome (bytes * ChaCha20) :=
  match input with
  | [] => Ret ([], c)
  | x :: xs =>
      '(y, c) ← step_byte c x;
      '(ys, c) ← bytewise c xs;
      Ret (y :: ys, c)
  end.

Definition buffer_ok (c : ChaCha20) : Prop :=
  length (cc_output c) = BLOCK_SIZE /\ (cc_offset c <= BLOCK_SIZE)%nat.

Lemma length_state_to_buffer s : length (state_to_buffer s) = BLOCK_SIZE.
Proof. done. Qed.

Lemma update_ok c c' : update c = Ret c' -> buffer_ok c' /\ cc_offset c' = 0%nat.
Proof.
  unfold update. destruct (_ =? 0); [done|]. intros [= <-]. split; [|done].
  split; [done|cbn; lia].
Qed.

Lemma bytewise_app c a b :
  bytewise c (a ++ b) =
  ('(ya, c) ← bytewise c a; '(yb, c) ← bytewise c b; Ret (ya ++ yb, c)).
Proof.
  revert c. induction a as [|x a IH]; intros c; cbn.
  { by destruct (bytewise c b) as [[? ?]| |]. }
  destruct (step_byte c x) as [[y c1]| |]; cbn; [|done..].
  rewrite IH. destruct (bytewise c1 a) as [[ya c2]| |]; cbn; [|done..].
  by destruct (bytewise c2 b) as [[? ?]| |].
Qed.

(** Within one buffered block, the byte-wise run is one xor. *)
Lemma bytewise_within st out off xs :
  (off + length xs <= length out)%nat -> length out = BLOCK_SIZE ->
  bytewise (mkChaCha st out off) xs =
  Ret (xor_bytes xs (drop off out), mkChaCha st out (off + length xs)).
Proof.
  intros Hlen Hout. revert off Hlen. induction xs as [|x xs IH]; intros off Hlen; cbn [length] in *.
  { cbn. by rewrite Nat.add_0_r. }
  cbn [bytewise]. unfold step_byte. cbn [cc_offset cc_output cc_state].
  rewrite decide_False by lia. cbn.
  rewrite IH by lia. cbn.
  destruct (lookup_lt_is_Some_2 out off) as [y Hy]; [lia|].
  rewrite (drop_S out y off Hy). cbn [xor_bytes].
  rewrite (nth_lookup_Some out off 0 y Hy).
  rewrite Nat.add_1_r, Nat.add_succ_comm. done.
Qed.

Lemma process_loop_bytewise f c input :
  buffer_ok c -> (length input <= f)%nat -> process_loop f c input = bytewise c input.
Proof.
  revert c input. induction f as [|f IH]; intros c input Hc Hf.
  { destruct input; [done|cbn in Hf; lia]. }
  destruct input as [|x xs]; [done|]. cbn [process_loop]. cbn [bytewise]. unfold step_byte.
  destruct (if decide (cc_offset c = BLOCK_SIZE) then update c else Ret c) as [c1| |] eqn:E;
    cbn [mbind outcome_bind]; [|done..].
  assert (H1 : buffer_ok c1 /\ (cc_offset c1 < BLOCK_SIZE)%nat).
  { case_decide as Hd.
    - apply update_ok in E as [? ->]. split; [done|]. unfold BLOCK_SIZE; lia.
    - injection E as <-. split; [done|]. destruct Hc. lia. }
  destruct H1 as [[Hlen Hle] Hlt]. destruct c1 as [st out off]; cbn [cc_state cc_output cc_offset] in *.
  set (count := Nat.min (BLOCK_SIZE - off) (length (x :: xs))).
  assert (Hcount : (1 <= count)%nat) by (unfold count; cbn [length]; lia).
  assert (Hbw : bytewise (mkChaCha st out off) (x :: xs) =
    ('(y, c) ← bytewise (mkChaCha st out off) (take count (x :: xs));
     '(ys, c) ← bytewise c (drop count (x :: xs)); Ret (y ++ ys, c))).
  { by rewrite <- bytewise_app, take_drop. }
  assert (Htake : length (take count (x :: xs)) = count)
    by (rewrite length_take; unfold count; lia).
  rewrite (bytewise_within st out off (take count (x :: xs))) in Hbw
    by (rewrite ?Htake; unfold count; lia).
  rewrite Htake in Hbw. cbn [mbind outcome_bind] in Hbw.
  rewrite IH; cycle 1.
  { split; cbn [cc_output cc_offset]; unfold count; lia. }
  { rewrite length_drop. cbn [length] in *. lia. }
  rewrite <- Hbw. cbn [bytewise]. unfold step_byte; cbn [cc_offset cc_output cc_state].
  by rewrite decide_False by lia.
Qed.

Lemma bytewise_involutive c c' xs ys :
  bytewise c xs = Ret (ys, c') -> bytewise c ys = Ret (xs, c').
Proof.
  revert c ys. induction xs as [|x xs IH]; intros c ys H; cbn in H; [by simplify_eq|].
  unfold step_byte in *.
  destruct (if decide (cc_offset c = BLOCK_SIZE) then update c else Ret c) as [c1| |] eqn:E;
    cbn in H; [|done..].
  destruct (bytewise _ xs) as [[zs c2]| |] eqn:Eb; cbn in H; [|done..].
  injection H as <- <-. cbn. unfold step_byte. rewrite E. cbn. rewrite (IH _ _ Eb). cbn.
  by rewrite Z.lxor_assoc, Z.lxor_nilpotent, Z.lxor_0_r.
Qed.

Lemma length_bytewise c c' xs ys : bytewise c xs = Ret (ys, c') -> length ys = length xs.
Proof.
  revert c ys. induction xs as [|x xs IH]; intros c ys H; cbn in H; [by simplify_eq|].
  destruct (step_byte c x) as [[y c1]| |]; cbn in H; [|done..].
  destruct (bytewise c1 xs) as [[zs c2]| |] eqn:Eb; cbn in H; [|done..].
  injection H as <- <-. cbn. f_equal. by eapply IH.
Qed.

Lemma bytewise_buffer_ok c c' xs ys : buffer_ok c -> bytewise c xs = Ret (ys, c') -> buffer_ok c'.
Proof.
  revert c ys. induction xs as [|x xs IH]; intros c ys Hc E; cbn in E; [by simplify_eq|].
  unfold step_byte in E.
  destruct (if decide (cc_offset c = BLOCK_SIZE) then update c else Ret c) as [c2| |] eqn:E2;
    cbn in E; [|done..].
  destruct (bytewise _ xs) as [[zs c3]| |] eqn:Eb; cbn in E; [|done..]. simplify_eq.
  eapply IH; [|done]. case_decide.
  - apply update_ok in E2 as [[? ?] Ho]. split; cbn; [done|]. rewrite Ho. unfold BLOCK_SIZE; lia.
  - simplify_eq. destruct Hc. split; cbn; [done|]. lia.
Qed.

(** Key-stream bytes that can still be produced before the 32-bit counter wraps. *)
Definition available (c : ChaCha20) : Z :=
  64 * (2 ^ 32 - 1 - w0 (row_d (cc_state c))) + (64 - Z.of_nat (cc_offset c)).

Lemma step_byte_available c x :
  buffer_ok c -> u32 (w0 (row_d (cc_state c))) -> 0 < available c ->
  exists y c', step_byte c x = Ret (y, c') /\ buffer_ok c' /\
    u32 (w0 (row_d (cc_state c'))) /\ available c' = available c - 1.
Proof.
  intros [Hl Ho] Hw Hav. unfold step_byte, available, in_width in *.
  change (2 ^ 32) with 4294967296 in *. case_decide as Hd.
  - unfold update. rewrite Hd in *. unfold BLOCK_SIZE in *.
    assert (Hn : w0 (row_d (next_counter (cc_state c))) = w0 (row_d (cc_state c)) + 1).
    { cbn. unfold wrapping_add32, wrap. apply Z.mod_small. lia. }
    rewrite Hn. replace (_ =? 0) with false by (symmetry; apply Z.eqb_neq; lia).
    cbn [mbind outcome_bind]. eexists _, _. split; [done|].
    cbn [cc_state cc_offset cc_output]. rewrite Hn. split; [split; [done|cbn; unfold BLOCK_SIZE; lia]|]. lia.
  - eexists _, _. split; [done|]. cbn [cc_state cc_offset cc_output].
    split; [split; cbn; [done|lia]|]. unfold BLOCK_SIZE in *. lia.
Qed.

Lemma bytewise_total c xs :
  buffer_ok c -> u32 (w0 (row_d (cc_state c))) -> Z.of_nat (length xs) <= available c ->
  exists ys c', bytewise c xs = Ret (ys, c').
Proof.
  revert c. induction xs as [|x xs IH]; intros c Hc Hw Hav; cbn [length] in Hav; [by eexists _, _|].
  destruct (step_byte_available c x Hc Hw) as (y & c1 & E & Hc1 & Hw1 & Hav1); [lia|].
  destruct (IH c1 Hc1 Hw1) as (ys & c2 & E2); [lia|].
  cbn. rewrite E. cbn. rewrite E2. by eexists _, _.
Qed.

Definition zero_state : ChaChaState :=
  mkState (from_bytes constant_32) (U32x4 0 0 0 0) (U32x4 0 0 0 0) (U32x4 0 0 0 0).

(** A fresh cipher has its block counter at zero. *)
Lemma new_fresh key nonce :
  length key = 32%nat -> length nonce = 8%nat \/ length nonce = 12%nat ->
  exists c, new key nonce = Ret c /\ buffer_ok c /\ cc_offset c = 64%nat /\
    w0 (row_d (cc_state c)) = 0.
Proof.
  intros Hk Hn. unfold new, expand. rewrite Hk. cbn -[from_bytes slice].
  assert (buffer_ok (mkChaCha zero_state (replicate BLOCK_SIZE 0) 64)) as Hb
    by (split; cbn; [done|unfold BLOCK_SIZE; lia]).
  destruct Hn as [Hn|Hn]; rewrite Hn; cbn -[from_bytes slice]; (eexists; split; [done|]);
    split; done.
Qed.

Lemma fresh_process_total key nonce msg :
  length key = 32%nat -> length nonce = 8%nat \/ length nonce = 12%nat ->
  Z.of_nat (length msg) <= 64 * (2 ^ 32 - 1) ->
  exists c enc c',
    new key nonce = Ret c /\ buffer_ok c /\ process_in_place c msg = Ret (enc, c') /\
    length enc = length msg.
Proof.
  intros Hk Hn Hlen. destruct (new_fresh key nonce Hk Hn) as (c & Ec & Hc & Ho & Hw).
  destruct (bytewise_total c msg Hc) as (enc & c' & E).
  { rewrite Hw. by vm_compute. }
  { unfold available. rewrite Hw, Ho. lia. }
  exists c, enc, c'. unfold process_in_place.
  rewrite (process_loop_bytewise _ c msg) by (done || lia).
  split_and!; eauto using length_bytewise.
Qed.

(** ** Properties *)

(** The key stream block of the row-wise code is the RFC 7539 block. *)
Theorem block_of_rfc (s : ChaChaState) : state_ok s -> block_of s = Rfc.block (state_words s).
Proof.
  intros Hs. unfold block_of, Rfc.block, state_to_buffer. rewrite add_state_words.
  by rewrite (proj1 (rounds_inner 10 s Hs)).
Qed.

Lemma block_of_rfc_witness : block_of zero_state = Rfc.block (state_words zero_state).
Proof. apply block_of_rfc. vm_compute. intuition discriminate. Defined.

(** Encrypting in pieces is encrypting at once: the offset and the buffered block
    are carried over exactly. *)
Theorem process_in_place_app (c : ChaCha20) (a b : bytes) :
  buffer_ok c ->
  process_in_place c (a ++ b) =
  ('(ya, c) ← process_in_place c a; '(yb, c) ← process_in_place c b; Ret (ya ++ yb, c)).
Proof.
  intros Hc. unfold process_in_place.
  rewrite !process_loop_bytewise, bytewise_app by (done || lia).
  destruct (bytewise c a) as [[ya c1]| |] eqn:E; cbn; [|done..].
  by rewrite process_loop_bytewise by (lia || by eapply bytewise_buffer_ok).
Qed.

(** Decryption: from a fresh cipher, a message no longer than what the 32-bit block
    counter allows is encrypted without a panic, to as many bytes, and the same
    key and nonce decrypt it. *)
Theorem chacha_decrypts (key nonce msg : bytes) :
  length key = 32%nat -> length nonce = 8%nat \/ length nonce = 12%nat ->
  Z.of_nat (length msg) <= 64 * (2 ^ 32 - 1) ->
  exists c enc c',
    new key nonce = Ret c /\ process_in_place c msg = Ret (enc, c') /\
    length enc = length msg /\ process_in_place c enc = Ret (msg, c').
Proof.
  intros Hk Hn Hlen.
  destruct (fresh_process_total key nonce msg Hk Hn Hlen) as (c & enc & c' & Ec & Hc & E & Hl).
  exists c, enc, c'. split_and!; [done..|]. unfold process_in_place in *.
  rewrite process_loop_bytewise in * by (done || lia). by apply bytewise_involutive.
Qed.

Lemma chacha_decrypts_witness :
  exists c enc c',
    new (replicate 32 7) (replicate 12 1) = Ret c /\ process_in_place c [1; 2; 3] = Ret (enc, c') /\
    length enc = 3%nat /\ process_in_place c enc = Ret ([1; 2; 3], c').
Proof. apply (chacha_decrypts (replicate 32 7) (replicate 12 1) [1; 2; 3]); [done|by right|by vm_compute]. Defined.

Example chacha_tls_vector :
  (c ← new (replicate 32 0) (replicate 8 0);
   '(out, _) ← process_in_place c (replicate 16 0); Ret out) =
  Ret [118; 184; 224; 173; 160; 241; 61; 144; 64; 93; 106; 229; 83; 134; 189; 40].
Proof. vm_compute. reflexivity. Qed.
