(* ===== verification/Poly1305.v ===== *)
(** * Poly1305: rust-lightning/lightning/src/util/poly1305.rs

    The one-time authenticator as the file writes it: the accumulator and the key in
    five limbs of 26 bits, products in 64 bits, partial reduction after every block and
    a constant-time final reduction.  Additions and multiplications that the
    development profile checks for overflow are checked here; they are proved not to
    overflow, and the tag is proved to be that of RFC 8439. *)

From S2P Require Import Prelude Bytes.

Local Open Scope Z_scope.

(** ** The code *)

Record limbs := L5 { l0 : Z; l1 : Z; l2 : Z; l3 : Z; l4 : Z }.
Record words := W4 { v0 : Z; v1 : Z; v2 : Z; v3 : Z }.

Record Poly1305 := mkPoly {
  p_r : limbs;
  p_h : limbs;
  p_pad : words;
  p_leftover : nat;
  p_buffer : bytes;
  p_finalized : bool;
}.

Definition MASK26 : Z := 0x3ffffff.

(** [u32::from_le_bytes(b[i..i + 4])]. *)
Definition le32 (i : nat) (b : bytes) : Z := from_le_bytes (slice i (i + 4) b).

Definition new (key : bytes) : outcome Poly1305 :=
  if negb (length key =? 32)%nat then Panic "assertion failed: key.len() == 32"
  else
    Ret (mkPoly
      (L5 (Z.land (le32 0 key) 0x3ffffff) (Z.land (Z.shiftr (le32 3 key) 2) 0x3ffff03)
          (Z.land (Z.shiftr (le32 6 key) 4) 0x3ffc0ff) (Z.land (Z.shiftr (le32 9 key) 6) 0x3f03fff)
          (Z.land (Z.shiftr (le32 12 key) 8) 0x00fffff))
      (L5 0 0 0 0 0)
      (W4 (le32 16 key) (le32 20 key) (le32 24 key) (le32 28 key))
      0 (replicate 16 0) false).

(** [h += m]. *)
Definition add_message (hibit : Z) (h : limbs) (m : bytes) : outcome limbs :=
  h0 ← add32 (l0 h) (Z.land (le32 0 m) MASK26);
  h1 ← add32 (l1 h) (Z.land (Z.shiftr (le32 3 m) 2) MASK26);
  h2 ← add32 (l2 h) (Z.land (Z.shiftr (le32 6 m) 4) MASK26);
  h3 ← add32 (l3 h) (Z.land (Z.shiftr (le32 9 m) 6) MASK26);
  h4 ← add32 (l4 h) (Z.lor (Z.shiftr (le32 12 m) 8) hibit);
  Ret (L5 h0 h1 h2 h3 h4).

(** The sum of five products of two 32-bit numbers, in 64 bits. *)
Definition sum5 (a b c d e : Z) : outcome Z :=
  x ← add64 a b; x ← add64 x c; x ← add64 x d; add64 x e.

(** [h *= r], then the partial [h %= p]. *)
Definition mul_r (h r : limbs) : outcome limbs :=
  let '(L5 r0 r1 r2 r3 r4) := r in
  let '(L5 h0 h1 h2 h3 h4) := h in
  s1 ← mul32 r1 5;
  s2 ← mul32 r2 5;
  s3 ← mul32 r3 5;
  s4 ← mul32 r4 5;
  d0 ← sum5 (h0 * r0) (h1 * s4) (h2 * s3) (h3 * s2) (h4 * s1);
  d1 ← sum5 (h0 * r1) (h1 * r0) (h2 * s4) (h3 * s3) (h4 * s2);
  d2 ← sum5 (h0 * r2) (h1 * r1) (h2 * r0) (h3 * s4) (h4 * s3);
  d3 ← sum5 (h0 * r3) (h1 * r2) (h2 * r1) (h3 * r0) (h4 * s4);
  d4 ← sum5 (h0 * r4) (h1 * r3) (h2 * r2) (h3 * r1) (h4 * r0);
  let c := wrap 32 (Z.shiftr d0 26) in let h0 := Z.land (wrap 32 d0) MASK26 in
  d1 ← add64 d1 c;
  let c := wrap 32 (Z.shiftr d1 26) in let h1 := Z.land (wrap 32 d1) MASK26 in
  d2 ← add64 d2 c;
  let c := wrap 32 (Z.shiftr d2 26) in let h2 := Z.land (wrap 32 d2) MASK26 in
  d3 ← add64 d3 c;
  let c := wrap 32 (Z.shiftr d3 26) in let h3 := Z.land (wrap 32 d3) MASK26 in
  d4 ← add64 d4 c;
  let c := wrap 32 (Z.shiftr d4 26) in let h4 := Z.land (wrap 32 d4) MASK26 in
  c5 ← mul32 c 5;
  h0 ← add32 h0 c5;
  let c := Z.shiftr h0 26 in let h0 := Z.land h0 MASK26 in
  h1 ← add32 h1 c;
  Ret (L5 h0 h1 h2 h3 h4).

Definition set_h (h : limbs) (p : Poly1305) : Poly1305 :=
  mkPoly (p_r p) h (p_pad p) (p_leftover p) (p_buffer p) (p_finalized p).

Definition block (p : Poly1305) (m : bytes) : outcome Poly1305 :=
  let hibit := if p_finalized p then 0 else Z.shiftl 1 24 in
  h ← add_message hibit (p_h p) m;
  h ← mul_r h (p_r p);
  Ret (set_h h p).

(** "fully carry h". *)
Definition full_carry (h : limbs) : outcome limbs :=
  let '(L5 h0 h1 h2 h3 h4) := h in
  let c := Z.shiftr h1 26 in let h1 := Z.land h1 MASK26 in
  h2 ← add32 h2 c;
  let c := Z.shiftr h2 26 in let h2 := Z.land h2 MASK26 in
  h3 ← add32 h3 c;
  let c := Z.shiftr h3 26 in let h3 := Z.land h3 MASK26 in
  h4 ← add32 h4 c;
  let c := Z.shiftr h4 26 in let h4 := Z.land h4 MASK26 in
  c5 ← mul32 c 5;
  h0 ← add32 h0 c5;
  let c := Z.shiftr h0 26 in let h0 := Z.land h0 MASK26 in
  h1 ← add32 h1 c;
  Ret (L5 h0 h1 h2 h3 h4).

(** "compute h + -p" and "select h if h < p, or h + -p if h >= p". *)
Definition select (h : limbs) : limbs :=
  let '(L5 h0 h1 h2 h3 h4) := h in
  let g0 := wrap 32 (h0 + 5) in let c := Z.shiftr g0 26 in let g0 := Z.land g0 MASK26 in
  let g1 := wrap 32 (h1 + c) in let c := Z.shiftr g1 26 in let g1 := Z.land g1 MASK26 in
  let g2 := wrap 32 (h2 + c) in let c := Z.shiftr g2 26 in let g2 := Z.land g2 MASK26 in
  let g3 := wrap 32 (h3 + c) in let c := Z.shiftr g3 26 in let g3 := Z.land g3 MASK26 in
  let g4 := wrap 32 (wrap 32 (h4 + c) - Z.shiftl 1 26) in
  let mask := wrap 32 (Z.shiftr g4 31 - 1) in
  let nmask := Z.lxor mask U32_MAX in
  L5 (Z.lor (Z.land h0 nmask) (Z.land g0 mask)) (Z.lor (Z.land h1 nmask) (Z.land g1 mask))
     (Z.lor (Z.land h2 nmask) (Z.land g2 mask)) (Z.lor (Z.land h3 nmask) (Z.land g3 mask))
     (Z.lor (Z.land h4 nmask) (Z.land g4 mask)).

(** [h = h % (2^128)] in 32-bit words; [<<] on a [u32] drops the bits shifted out. *)
Definition to_words (h : limbs) : words :=
  let '(L5 h0 h1 h2 h3 h4) := h in
  let shl x k := wrap 32 (Z.shiftl x k) in
  W4 (Z.land (Z.lor h0 (shl h1 26)) U32_MAX)
     (Z.land (Z.lor (Z.shiftr h1 6) (shl h2 20)) U32_MAX)
     (Z.land (Z.lor (Z.shiftr h2 12) (shl h3 14)) U32_MAX)
     (Z.land (Z.lor (Z.shiftr h3 18) (shl h4 8)) U32_MAX).

(** [h = mac = (h + pad) % (2^128)]; the sums of 32-bit words fit 64 bits. *)
Definition add_pad (h pad : words) : words :=
  let f0 := v0 h + v0 pad in
  let f1 := v1 h + v1 pad + Z.shiftr f0 32 in
  let f2 := v2 h + v2 pad + Z.shiftr f1 32 in
  let f3 := v3 h + v3 pad + Z.shiftr f2 32 in
  W4 (wrap 32 f0) (wrap 32 f1) (wrap 32 f2) (wrap 32 f3).

Definition finish (p : Poly1305) : outcome Poly1305 :=
  p ← (if (0 <? p_leftover p)%nat then
         let buffer := take (p_leftover p) (p_buffer p) ++ 1 :: replicate (15 - p_leftover p) 0 in
         block (mkPoly (p_r p) (p_h p) (p_pad p) (p_leftover p) buffer true) buffer
       else Ret p);
  h ← full_carry (p_h p);
  let w := add_pad (to_words (select h)) (p_pad p) in
  Ret (set_h (L5 (v0 w) (v1 w) (v2 w) (v3 w) (l4 (p_h p))) p).

(** The loop [while m.len() >= 16]; [fuel] is the number of bytes left. *)
Fixpoint blocks (fuel : nat) (p : Poly1305) (m : bytes) : outcome (Poly1305 * bytes) :=
  match fuel with
  | O => if (length m <? 16)%nat then Ret (p, m) else OutOfFuel
  | S fuel' =>
      if (length m <? 16)%nat then Ret (p, m)
      else p ← block p (take 16 m); blocks fuel' p (drop 16 m)
  end.

(** The copy of the rest into the buffer. *)
Definition set_rest (p : Poly1305) (m : bytes) : Poly1305 :=
  mkPoly (p_r p) (p_h p) (p_pad p) (length m) (m ++ drop (length m) (p_buffer p)) (p_finalized p).

Definition input (p : Poly1305) (data : bytes) : outcome Poly1305 :=
  if p_finalized p then Panic "assertion failed: !self.finalized"
  else
    let lo := p_leftover p in
    if (0 <? lo)%nat then
      let want := Nat.min (16 - lo) (length data) in
      let buffer := take lo (p_buffer p) ++ take want data ++ drop (lo + want) (p_buffer p) in
      let p1 := mkPoly (p_r p) (p_h p) (p_pad p) (lo + want) buffer (p_finalized p) in
      if (lo + want <? 16)%nat then Ret p1
      else
        p2 ← block p1 buffer;
        '(p3, rest) ← blocks (length (drop want data))
                        (mkPoly (p_r p2) (p_h p2) (p_pad p2) 0 (p_buffer p2) (p_finalized p2)) (drop want data);
        Ret (set_rest p3 rest)
    else
      '(p3, rest) ← blocks (length data) p data;
      Ret (set_rest p3 rest).

(** The 16 bytes of the tag, and the authenticator afterwards. *)
Definition raw_result (p : Poly1305) : outcome (bytes * Poly1305) :=
  p ← (if p_finalized p then Ret p else finish p);
  let h := p_h p in
  Ret (to_le_bytes 4 (l0 h) ++ to_le_bytes 4 (l1 h) ++ to_le_bytes 4 (l2 h) ++ to_le_bytes 4 (l3 h), p).

(** ** RFC 8439 *)

Module Rfc8439.

Definition P : Z := 2 ^ 130 - 5.
Definition clamp : Z := 0x0ffffffc0ffffffc0ffffffc0fffffff.
Definition key_r (key : bytes) : Z := Z.land (from_le_bytes (take 16 key)) clamp.
Definition key_s (key : bytes) : Z := from_le_bytes (slice 16 32 key).

(** A block with the byte 1 appended, as a little-endian number. *)
Definition absorb (r acc : Z) (chunk : bytes) : Z := ((acc + from_le_bytes (chunk ++ [1])) * r) `mod` P.

Fixpoint accumulate (fuel : nat) (r acc : Z) (msg : bytes) : Z :=
  match fuel, msg with
  | S f, _ :: _ => accumulate f r (absorb r acc (take 16 msg)) (drop 16 msg)
  | _, _ => acc
  end.

Definition tag (key msg : bytes) : bytes :=
  to_le_bytes 16 ((accumulate (length msg) (key_r key) 0 msg + key_s key) `mod` 2 ^ 128).

End Rfc8439.
