(* ===== verification/Poly1305Spec.v ===== *)
(** * The authenticator computes the RFC 8439 tag

    The limbs of Poly1305.v read as numbers in base 2^26: loading a block, the product
    with the key and its partial reduction, the final reduction and the addition of the
    pad are each the corresponding operation on integers, and no checked addition or
    multiplication overflows. *)

From S2P Require Import Prelude Bytes Poly1305.

Local Open Scope Z_scope.

(** ** Limbs as numbers *)

Definition val (h : limbs) : Z :=
  l0 h + 2 ^ 26 * l1 h + 2 ^ 52 * l2 h + 2 ^ 78 * l3 h + 2 ^ 104 * l4 h.
Definition wval (w : words) : Z := v0 w + 2 ^ 32 * v1 w + 2 ^ 64 * v2 w + 2 ^ 96 * v3 w.

Definition le_limbs (b : Z) (h : limbs) : Prop :=
  0 <= l0 h < b /\ 0 <= l1 h < b /\ 0 <= l2 h < b /\ 0 <= l3 h < b /\ 0 <= l4 h < b.

(** The accumulator between two blocks: all limbs have 26 bits but the second, which
    has taken the last carry. *)
Definition acc_ok (h : limbs) : Prop :=
  0 <= l0 h < 2 ^ 26 /\ 0 <= l1 h < 2 ^ 26 + 64 /\ 0 <= l2 h < 2 ^ 26 /\
  0 <= l3 h < 2 ^ 26 /\ 0 <= l4 h < 2 ^ 26.

Definition words_ok (w : words) : Prop := u32 (v0 w) /\ u32 (v1 w) /\ u32 (v2 w) /\ u32 (v3 w).

Lemma land_MASK26 z : Z.land z MASK26 = z `mod` 2 ^ 26.
Proof. apply (Z.land_ones z 26). lia. Qed.

Lemma shiftr26 z : Z.shiftr z 26 = z `div` 2 ^ 26.
Proof. by apply Z.shiftr_div_pow2. Qed.

(** One digit in base 2^26, split from the digits above it. *)
Lemma digit26 z a :
  0 <= a -> z `div` 2 ^ a = (z `div` 2 ^ a) `mod` 2 ^ 26 + 2 ^ 26 * (z `div` 2 ^ (a + 26)).
Proof.
  intros Ha. rewrite Z.pow_add_r by lia. rewrite <- Z.div_div by (try apply Z.pow_nonzero; lia).
  pose proof (Z.div_mod (z `div` 2 ^ a) (2 ^ 26) ltac:(lia)). lia.
Qed.

Lemma digits26 z :
  z = z `mod` 2 ^ 26 + 2 ^ 26 * ((z `div` 2 ^ 26) `mod` 2 ^ 26) +
      2 ^ 52 * ((z `div` 2 ^ 52) `mod` 2 ^ 26) + 2 ^ 78 * ((z `div` 2 ^ 78) `mod` 2 ^ 26) +
      2 ^ 104 * (z `div` 2 ^ 104).
Proof.
  pose proof (digit26 z 0 ltac:(lia)) as D0. pose proof (digit26 z 26 ltac:(lia)) as D1.
  pose proof (digit26 z 52 ltac:(lia)) as D2. pose proof (digit26 z 78 ltac:(lia)) as D3.
  change (0 + 26) with 26 in *. change (26 + 26) with 52 in *.
  change (52 + 26) with 78 in *. change (78 + 26) with 104 in *.
  change (2 ^ 0) with 1 in *. rewrite Z.div_1_r in *. lia.
Qed.

(** Bounds of the residues and quotients in the goal. *)
Ltac bound_mods :=
  repeat match goal with
  | |- context [?a `mod` ?b] =>
      lazymatch goal with
      | H : 0 <= a `mod` b < b |- _ => fail
      | _ => pose proof (Z.mod_pos_bound a b ltac:(lia))
      end
  end.

(** ** Loading *)

(** A field of a little-endian 32-bit load is a field of the whole number. *)
Lemma le32_field i k mask m :
  all_u8 m -> (i + 4 <= length m)%nat -> 0 <= k <= 32 -> in_width (32 - k) mask ->
  Z.land (Z.shiftr (le32 i m) k) mask = Z.land (from_le_bytes m `div` 2 ^ (8 * Z.of_nat i + k)) mask.
Proof.
  intros Hu Hl Hk Hm. unfold le32. rewrite from_le_bytes_slice by done.
  change (8 * Z.of_nat 4) with 32. set (z := from_le_bytes m).
  rewrite <- !Z.shiftr_div_pow2 by lia. rewrite <- Z.shiftr_shiftr by lia.
  apply Z.bits_inj'. intros j Hj. rewrite !Z.land_spec, !Z.shiftr_spec by lia.
  destruct (Z_lt_le_dec j (32 - k)) as [H|H].
  - rewrite Z.mod_pow2_bits_low, !Z.shiftr_spec by lia. done.
  - rewrite (testbit_above (32 - k) mask) by (done || lia). by rewrite !andb_false_r.
Qed.

Lemma le32_limb i k m :
  all_u8 m -> (i + 4 <= length m)%nat -> 0 <= k <= 6 ->
  Z.land (Z.shiftr (le32 i m) k) MASK26 = (from_le_bytes m `div` 2 ^ (8 * Z.of_nat i + k)) `mod` 2 ^ 26.
Proof.
  intros Hu Hl Hk. rewrite le32_field, land_MASK26; [done|done|done|lia|].
  apply (in_width_mono 26); [lia|]. by vm_compute.
Qed.

Lemma le32_top m :
  all_u8 m -> length m = 16%nat -> Z.shiftr (le32 12 m) 8 = from_le_bytes m `div` 2 ^ 104.
Proof.
  intros Hu Hl. unfold le32. rewrite from_le_bytes_slice by (done || lia).
  rewrite Z.shiftr_div_pow2 by lia. change (8 * Z.of_nat 4) with 32. change (8 * Z.of_nat 12) with 96.
  pose proof (from_le_bytes_bound m Hu) as B. rewrite Hl in B. change (256 ^ Z.of_nat 16) with (2 ^ 128) in B.
  rewrite Z.mod_small, Z.div_div; [done|lia..|].
  split; [apply Z.div_pos; lia|apply Z.div_lt_upper_bound; lia].
Qed.

Definition load (m : bytes) : limbs :=
  L5 (Z.land (le32 0 m) MASK26) (Z.land (Z.shiftr (le32 3 m) 2) MASK26)
     (Z.land (Z.shiftr (le32 6 m) 4) MASK26) (Z.land (Z.shiftr (le32 9 m) 6) MASK26)
     (Z.shiftr (le32 12 m) 8).

Lemma load_val m :
  all_u8 m -> length m = 16%nat ->
  val (load m) = from_le_bytes m /\ le_limbs (2 ^ 26) (load m) /\ l4 (load m) < 2 ^ 24.
Proof.
  intros Hu Hl. unfold val, le_limbs, load; cbn [l0 l1 l2 l3 l4].
  rewrite <- (Z.shiftr_0_r (le32 0 m)). rewrite !le32_limb, le32_top by (done || lia).
  change (8 * Z.of_nat 0 + 0) with 0. change (8 * Z.of_nat 3 + 2) with 26.
  change (8 * Z.of_nat 6 + 4) with 52. change (8 * Z.of_nat 9 + 6) with 78.
  pose proof (from_le_bytes_bound m Hu) as B. rewrite Hl in B. change (256 ^ Z.of_nat 16) with (2 ^ 128) in B.
  set (z := from_le_bytes m) in *.
  pose proof (digits26 z) as D.
  assert (0 <= z `div` 2 ^ 104 < 2 ^ 24).
  { split; [apply Z.div_pos; lia|]. apply Z.div_lt_upper_bound; lia. }
  change (2 ^ 0) with 1. rewrite Z.div_1_r. bound_mods. split_and!; lia.
Qed.

(** A limb of the clamped key is a field of the key under the limb's mask. *)
Lemma clamp_field z a mask :
  0 <= a -> mask = (Rfc8439.clamp `div` 2 ^ a) `mod` 2 ^ 26 ->
  (Z.land z Rfc8439.clamp `div` 2 ^ a) `mod` 2 ^ 26 = Z.land (z `div` 2 ^ a) mask.
Proof.
  intros Ha ->. rewrite <- !Z.land_ones, <- !Z.shiftr_div_pow2 by lia.
  by rewrite Z.shiftr_land, Z.land_assoc.
Qed.

Lemma new_spec key p :
  all_u8 key -> new key = Ret p ->
  val (p_r p) = Rfc8439.key_r key /\ le_limbs (2 ^ 26) (p_r p) /\
  wval (p_pad p) = Rfc8439.key_s key /\ words_ok (p_pad p) /\
  p_h p = L5 0 0 0 0 0 /\ p_leftover p = 0%nat /\ length (p_buffer p) = 16%nat /\
  p_finalized p = false.
Proof.
  intros Hu H. unfold new in H. destruct (length key =? 32)%nat eqn:El; [|done].
  apply Nat.eqb_eq in El. injection H as <-.
  cbn [p_r p_h p_pad p_leftover p_buffer p_finalized].
  assert (Hu1 : all_u8 (take 16 key)) by (by apply Forall_take).
  assert (Hl1 : length (take 16 key) = 16%nat) by (rewrite length_take; lia).
  assert (Hs : forall i, (i + 4 <= 16)%nat -> le32 i key = le32 i (take 16 key)).
  { intros i Hi. unfold le32, slice. rewrite skipn_firstn_comm, take_take. do 2 f_equal. lia. }
  split_and!; try done.
  - unfold Rfc8439.key_r. set (z := from_le_bytes (take 16 key)).
    rewrite (digits26 (Z.land z Rfc8439.clamp)). unfold val; cbn [l0 l1 l2 l3 l4].
    rewrite !Hs by lia. rewrite <- (Z.shiftr_0_r (le32 0 (take 16 key))).
    rewrite !le32_field by (done || lia || by vm_compute). fold z.
    rewrite <- (Z.mod_small (Z.land z Rfc8439.clamp `div` 2 ^ 104) (2 ^ 26)); [|].
    + rewrite <- (Z.div_1_r (Z.land z Rfc8439.clamp)) at 1. change 1 with (2 ^ 0) at 1.
      rewrite (clamp_field z 0 0x3ffffff), (clamp_field z 26 0x3ffff03), (clamp_field z 52 0x3ffc0ff),
        (clamp_field z 78 0x3f03fff), (clamp_field z 104 0xfffff) by (lia || by vm_compute). done.
    + rewrite <- Z.shiftr_div_pow2, Z.shiftr_land by lia. apply (in_width_mono 20); [lia|].
      apply land_in_width; [lia|]. by vm_compute.
  - unfold le_limbs; cbn [l0 l1 l2 l3 l4].
    assert (B : forall z m, in_width 26 m -> 0 <= Z.land z m < 2 ^ 26)
      by (intros; by apply land_in_width).
    split_and!; apply B; by vm_compute.
  - unfold wval, Rfc8439.key_s, le32; cbn [v0 v1 v2 v3].
    rewrite (slice_app 16 20 32), (slice_app 20 24 32), (slice_app 24 28 32) by lia.
    rewrite !from_le_bytes_app, !length_slice by lia. cbn [Nat.sub]. cbn [Nat.add]. lia.
  - assert (B : forall i, (i + 4 <= 32)%nat -> u32 (le32 i key)).
    { intros i Hi. unfold le32. rewrite from_le_bytes_slice by (done || lia). by apply wrap_in_width. }
    unfold words_ok; cbn [v0 v1 v2 v3]. split_and!; apply B; lia.
Qed.

(** ** One block *)

Ltac u32_lia := unfold in_width in *; lia.
(** Discharge the next overflow check of the goal. *)
Ltac no_overflow := unfold add32, mul32, add64; rewrite checked_op_ok by u32_lia; cbn [mbind outcome_bind].

Definition sum_ok (h : limbs) : Prop := le_limbs (2 ^ 27 + 64) h.

Lemma add_message_ok (fin : bool) h m :
  acc_ok h -> all_u8 m -> length m = 16%nat ->
  exists h', add_message (if fin then 0 else Z.shiftl 1 24) h m = Ret h' /\ sum_ok h' /\
    val h' = val h + from_le_bytes m + (if fin then 0 else 2 ^ 128).
Proof.
  intros (B0 & B1 & B2 & B3 & B4) Hu Hl.
  destruct (load_val m Hu Hl) as (V & (M0 & M1 & M2 & M3 & M4) & M5).
  unfold add_message.
  change (Z.land (le32 0 m) MASK26) with (l0 (load m)).
  change (Z.land (Z.shiftr (le32 3 m) 2) MASK26) with (l1 (load m)).
  change (Z.land (Z.shiftr (le32 6 m) 4) MASK26) with (l2 (load m)).
  change (Z.land (Z.shiftr (le32 9 m) 6) MASK26) with (l3 (load m)).
  change (Z.shiftr (le32 12 m) 8) with (l4 (load m)).
  assert (E : Z.lor (l4 (load m)) (if fin then 0 else Z.shiftl 1 24) = l4 (load m) + (if fin then 0 else 2 ^ 24)).
  { destruct fin; [rewrite Z.lor_0_r; lia|]. rewrite Z.lor_comm, lor_shiftl_add by u32_lia. lia. }
  rewrite E. assert (F : 0 <= (if fin then 0 else 2 ^ 24) <= 2 ^ 24) by (destruct fin; lia).
  do 5 no_overflow. eexists. split; [done|]. rewrite <- V. unfold sum_ok, le_limbs, val; cbn [l0 l1 l2 l3 l4].
  split; [split_and!; lia|]. destruct fin; lia.
Qed.

(** A step of the carry chain. *)
Lemma carry64 d : 0 <= d < 2 ^ 58 ->
  Z.land (wrap 32 d) MASK26 + 2 ^ 26 * wrap 32 (Z.shiftr d 26) = d /\
  0 <= Z.land (wrap 32 d) MASK26 < 2 ^ 26 /\ 2 ^ 26 * wrap 32 (Z.shiftr d 26) <= d /\
  0 <= wrap 32 (Z.shiftr d 26).
Proof.
  intros Hd. rewrite land_MASK26, shiftr26.
  rewrite (wrap_small 32 (d `div` 2 ^ 26)) by
    (split; [apply Z.div_pos; lia|apply Z.div_lt_upper_bound; lia]).
  unfold wrap. rewrite <- (Znumtheory.Zmod_div_mod (2 ^ 26) (2 ^ 32) d) by (try lia; by exists (2 ^ 6)).
  pose proof (Z.div_mod d (2 ^ 26) ltac:(lia)). bound_mods.
  pose proof (Z.div_pos d (2 ^ 26) ltac:(lia) ltac:(lia)). split_and!; lia.
Qed.

Lemma mul_bound a b x y : 0 <= a <= x -> 0 <= b <= y -> 0 <= a * b <= x * y.
Proof. nia. Qed.

Lemma carry32 x : 0 <= x -> Z.land x MASK26 + 2 ^ 26 * Z.shiftr x 26 = x /\ 0 <= Z.land x MASK26 < 2 ^ 26 /\ 0 <= Z.shiftr x 26.
Proof.
  intros Hx. rewrite land_MASK26, shiftr26. pose proof (Z.div_mod x (2 ^ 26) ltac:(lia)). bound_mods.
  pose proof (Z.div_pos x (2 ^ 26) ltac:(lia) ltac:(lia)). split_and!; lia.
Qed.

Lemma sum5_ok a b c d e :
  0 <= a -> 0 <= b -> 0 <= c -> 0 <= d -> 0 <= e -> a + b + c + d + e < 2 ^ 64 ->
  sum5 a b c d e = Ret (a + b + c + d + e).
Proof. intros. unfold sum5. do 3 no_overflow. unfold add64. by rewrite checked_op_ok by u32_lia. Qed.

(** The carry chain on five column sums: the value is kept up to a multiple of p. *)
Definition carries (d0 d1 d2 d3 d4 : Z) : outcome limbs :=
  let c := wrap 32 (Z.shiftr d0 26) in let h0 := Z.land (wrap 32 d0) MASK26 in
  d1 ← add64 d1 c;
  let c := wrap 32 (Z.shiftr d1 26) in let h1 := Z.land (wrap 32 d1) MASK26 in
  d2 ← add64 d2 c;
  let c := wrap 32 (Z.shiftr d2 26) in let h2 := Z.land (wrap 32 d2) MASK26 in
  d3 ← add64 d3 c;
  let c := wrap 32 (Z.shiftr d3 26) in let h3 := Z.land (wrap 32 d3) MASK26 in
  d4 ← add64 d4 c;
  let c := wrap 32 (Z.shiftr d4 26) in let h4 := Z.land (wrap 32 d4) MASK26 in
  c5 ← mul32 c 5;
  h0 ← add32 h0 c5;
  let c := Z.shiftr h0 26 in let h0 := Z.land h0 MASK26 in
  h1 ← add32 h1 c;
  Ret (L5 h0 h1 h2 h3 h4).

Ltac carry_step :=
  match goal with
  | |- context [Z.land (wrap 32 ?d) MASK26] =>
      let H := fresh "C" in pose proof (carry64 d ltac:(lia)) as H;
      set (Z.land (wrap 32 d) MASK26) in *; set (wrap 32 (Z.shiftr d 26)) in *
  | |- context [Z.land ?x MASK26] =>
      let H := fresh "C" in pose proof (carry32 x ltac:(lia)) as H;
      set (Z.land x MASK26) in *; set (Z.shiftr x 26) in *
  end.

Lemma carries_ok d0 d1 d2 d3 d4 :
  0 <= d0 < 2 ^ 57 + 2 ^ 56 + 2 ^ 55 -> 0 <= d1 < 2 ^ 57 + 2 ^ 56 + 2 ^ 55 ->
  0 <= d2 < 2 ^ 57 + 2 ^ 56 + 2 ^ 55 -> 0 <= d3 < 2 ^ 57 + 2 ^ 56 + 2 ^ 55 -> 0 <= d4 < 6 * 2 ^ 53 ->
  exists h k, carries d0 d1 d2 d3 d4 = Ret h /\ acc_ok h /\
    val h = val (L5 d0 d1 d2 d3 d4) - Rfc8439.P * k.
Proof.
  intros. unfold carries. cbv zeta.
  carry_step. no_overflow. carry_step. no_overflow. carry_step. no_overflow. carry_step. no_overflow.
  carry_step. no_overflow. no_overflow. carry_step. no_overflow.
  eexists _, z8. split; [done|]. unfold acc_ok, val, Rfc8439.P; cbn [l0 l1 l2 l3 l4]. split_and!; try lia.
Qed.

Lemma mul_r_carries h0 h1 h2 h3 h4 r0 r1 r2 r3 r4 :
  sum_ok (L5 h0 h1 h2 h3 h4) -> le_limbs (2 ^ 26) (L5 r0 r1 r2 r3 r4) ->
  mul_r (L5 h0 h1 h2 h3 h4) (L5 r0 r1 r2 r3 r4) =
  carries (h0 * r0 + h1 * (r4 * 5) + h2 * (r3 * 5) + h3 * (r2 * 5) + h4 * (r1 * 5))
          (h0 * r1 + h1 * r0 + h2 * (r4 * 5) + h3 * (r3 * 5) + h4 * (r2 * 5))
          (h0 * r2 + h1 * r1 + h2 * r0 + h3 * (r4 * 5) + h4 * (r3 * 5))
          (h0 * r3 + h1 * r2 + h2 * r1 + h3 * r0 + h4 * (r4 * 5))
          (h0 * r4 + h1 * r3 + h2 * r2 + h3 * r1 + h4 * r0).
Proof.
  intros (?&?&?&?&?) (?&?&?&?&?). cbn [l0 l1 l2 l3 l4] in *. unfold mul_r. do 4 no_overflow.
  repeat (rewrite sum5_ok; [cbn [mbind outcome_bind]|try nia..]). done.
Qed.

Lemma mul_r_ok h r :
  sum_ok h -> le_limbs (2 ^ 26) r ->
  exists h' k, mul_r h r = Ret h' /\ acc_ok h' /\ val h' = val h * val r - Rfc8439.P * k.
Proof.
  destruct h as [h0 h1 h2 h3 h4], r as [r0 r1 r2 r3 r4]. intros Hh Hr.
  rewrite mul_r_carries by done. destruct Hh as (?&?&?&?&?), Hr as (?&?&?&?&?). cbn [l0 l1 l2 l3 l4] in *.
  edestruct carries_ok as (h' & k & E & A & V); cycle 5.
  - exists h', (k + (h1 * r4 + h2 * r3 + h3 * r2 + h4 * r1) + 2 ^ 26 * (h2 * r4 + h3 * r3 + h4 * r2)
                + 2 ^ 52 * (h3 * r4 + h4 * r3) + 2 ^ 78 * (h4 * r4)).
    split; [exact E|]. split; [done|]. rewrite V. unfold val, Rfc8439.P; cbn [l0 l1 l2 l3 l4]. ring.
  - nia.
  - nia.
  - nia.
  - nia.
  - nia.
Qed.

(** The state between calls: key of 26-bit limbs, pad of 32-bit words, a bounded
    accumulator and a buffer of bytes. *)
Definition poly_ok (p : Poly1305) : Prop :=
  le_limbs (2 ^ 26) (p_r p) /\ acc_ok (p_h p) /\ words_ok (p_pad p) /\
  length (p_buffer p) = 16%nat /\ all_u8 (p_buffer p) /\ (p_leftover p < 16)%nat.

Lemma block_ok p m :
  le_limbs (2 ^ 26) (p_r p) -> acc_ok (p_h p) -> all_u8 m -> length m = 16%nat ->
  exists h, block p m = Ret (set_h h p) /\ acc_ok h /\
    val h `mod` Rfc8439.P =
    ((val (p_h p) + from_le_bytes m + (if p_finalized p then 0 else 2 ^ 128)) * val (p_r p)) `mod` Rfc8439.P.
Proof.
  intros Hr Hh Hu Hl. unfold block.
  destruct (add_message_ok (p_finalized p) (p_h p) m Hh Hu Hl) as (h1 & E1 & S1 & V1). rewrite E1.
  cbn [mbind outcome_bind]. destruct (mul_r_ok h1 (p_r p) S1 Hr) as (h2 & k & E2 & A2 & V2). rewrite E2.
  exists h2. split; [done|]. split; [done|]. rewrite V2, V1.
  replace (_ - Rfc8439.P * k) with
    ((val (p_h p) + from_le_bytes m + (if p_finalized p then 0 else 2 ^ 128)) * val (p_r p) + (- k) * Rfc8439.P) by ring.
  apply Z.mod_add. by vm_compute.
Qed.

(** ** The final reduction *)

Lemma full_carry_ok h :
  acc_ok h -> exists h' k, full_carry h = Ret h' /\ le_limbs (2 ^ 26) h' /\ val h' = val h - Rfc8439.P * k.
Proof.
  destruct h as [h0 h1 h2 h3 h4]. intros (?&?&?&?&?). cbn [l0 l1 l2 l3 l4] in *. unfold full_carry. cbv zeta.
  carry_step. no_overflow. carry_step. no_overflow. carry_step. no_overflow. carry_step. no_overflow. no_overflow.
  carry_step. no_overflow.
  eexists _, z6. split; [done|]. unfold le_limbs, val, Rfc8439.P; cbn [l0 l1 l2 l3 l4]. split_and!; lia.
Qed.

Lemma nmask_1 x : 0 <= x < 2 ^ 32 -> Z.land x (Z.lxor 0 U32_MAX) = x.
Proof. intros H. change (Z.lxor 0 U32_MAX) with (Z.ones 32). rewrite Z.land_ones by lia. by apply Z.mod_small. Qed.

Lemma mask_1 x : 0 <= x < 2 ^ 32 -> Z.land x U32_MAX = x.
Proof. intros H. change U32_MAX with (Z.ones 32). rewrite Z.land_ones by lia. by apply Z.mod_small. Qed.

(** [mask] is all ones or all zeros as the top bit of g4 is clear or set. *)
Lemma select_ok h :
  le_limbs (2 ^ 26) h -> le_limbs (2 ^ 26) (select h) /\ val (select h) = val h `mod` Rfc8439.P.
Proof.
  destruct h as [h0 h1 h2 h3 h4]. intros (?&?&?&?&?). cbn [l0 l1 l2 l3 l4] in *.
  unfold select. cbv zeta.
  rewrite (wrap_small 32 (h0 + 5)) by u32_lia. carry_step.
  rewrite (wrap_small 32 (h1 + _)) by u32_lia. carry_step.
  rewrite (wrap_small 32 (h2 + _)) by u32_lia. carry_step.
  rewrite (wrap_small 32 (h3 + _)) by u32_lia. carry_step.
  rewrite (wrap_small 32 (h4 + _)) by u32_lia.
  change (Z.shiftl 1 26) with (2 ^ 26).
  destruct (Z_lt_le_dec (h4 + z6) (2 ^ 26)) as [Hlt|Hge].
  - assert (E : wrap 32 (h4 + z6 - 2 ^ 26) = h4 + z6 - 2 ^ 26 + 2 ^ 32).
    { unfold wrap. rewrite <- (Z.mod_add _ 1) by lia. rewrite Z.mod_small by lia. lia. }
    rewrite E. replace (Z.shiftr (h4 + z6 - 2 ^ 26 + 2 ^ 32) 31) with 1.
    2: { rewrite Z.shiftr_div_pow2 by lia. apply Z.div_unique with (h4 + z6 - 2 ^ 26 + 2 ^ 31); lia. }
    change (wrap 32 (1 - 1)) with 0. rewrite !Z.land_0_r, !Z.lor_0_r, !nmask_1 by lia.
    unfold le_limbs, val; cbn [l0 l1 l2 l3 l4]. split; [split_and!; lia|].
    symmetry. apply Z.mod_small. unfold Rfc8439.P. lia.
  - rewrite (wrap_small 32 (h4 + z6 - 2 ^ 26)) by u32_lia.
    replace (Z.shiftr (h4 + z6 - 2 ^ 26) 31) with 0.
    2: { rewrite Z.shiftr_div_pow2 by lia. symmetry. apply Z.div_small; lia. }
    change (wrap 32 (0 - 1)) with U32_MAX. change (Z.lxor U32_MAX U32_MAX) with 0.
    rewrite !Z.land_0_r, !Z.lor_0_l, !mask_1 by lia.
    unfold le_limbs, val; cbn [l0 l1 l2 l3 l4]. split; [split_and!; lia|].
    apply (Z.mod_unique_pos _ _ 1); unfold Rfc8439.P; lia.
Qed.

(** A word made of the top of one limb and the bottom of the next. *)
Lemma lor_wrap_shiftl a b k :
  0 <= k <= 32 -> in_width k a ->
  Z.land (Z.lor a (wrap 32 (Z.shiftl b k))) U32_MAX = a + 2 ^ k * (b `mod` 2 ^ (32 - k)).
Proof.
  intros Hk Ha.
  assert (E : wrap 32 (Z.shiftl b k) = Z.shiftl (b `mod` 2 ^ (32 - k)) k).
  { unfold wrap. rewrite !Z.shiftl_mul_pow2 by lia. replace 32 with (32 - k + k) at 1 by lia.
    rewrite Z.pow_add_r by lia. apply Z.mul_mod_distr_r; apply Z.pow_nonzero; lia. }
  rewrite E, Z.lor_comm, lor_shiftl_add by (done || lia). rewrite mask_1; [lia|].
  pose proof (Z.mod_pos_bound b (2 ^ (32 - k)) ltac:(apply Z.pow_pos_nonneg; lia)) as B.
  assert (2 ^ 32 = 2 ^ (32 - k) * 2 ^ k) as E2 by (rewrite <- Z.pow_add_r by lia; f_equal; lia).
  destruct Ha. nia.
Qed.

Lemma to_words_ok h :
  le_limbs (2 ^ 26) h -> words_ok (to_words h) /\ wval (to_words h) = val h `mod` 2 ^ 128.
Proof.
  destruct h as [h0 h1 h2 h3 h4]. intros (?&?&?&?&?). cbn [l0 l1 l2 l3 l4] in *. unfold to_words. cbv zeta.
  assert (in_width 26 h0 /\ in_width 20 (Z.shiftr h1 6) /\ in_width 14 (Z.shiftr h2 12) /\
          in_width 8 (Z.shiftr h3 18)) as (?&?&?&?)
    by (split_and!; [u32_lia|apply (shiftr_in_width 26); u32_lia..]).
  rewrite !lor_wrap_shiftl by (done || lia).
  rewrite !Z.shiftr_div_pow2 by lia. cbn [Z.sub Z.add Z.opp Z.pos_sub Pos.pred_double].
  change (32 - 26) with 6. change (32 - 20) with 12. change (32 - 14) with 18. change (32 - 8) with 24.
  pose proof (Z.div_mod h1 (2 ^ 6) ltac:(lia)). pose proof (Z.div_mod h2 (2 ^ 12) ltac:(lia)).
  pose proof (Z.div_mod h3 (2 ^ 18) ltac:(lia)). pose proof (Z.div_mod h4 (2 ^ 24) ltac:(lia)).
  assert (B : forall h k, 0 <= h < 2 ^ 26 -> 0 <= k <= 26 -> 0 <= h `div` 2 ^ k < 2 ^ (26 - k)).
  { intros h k Hh Hk. pose proof (Z.pow_pos_nonneg 2 k ltac:(lia) ltac:(lia)). split; [apply Z.div_pos; lia|].
    apply Z.div_lt_upper_bound; [done|]. rewrite <- Z.pow_add_r by lia. rewrite Zplus_minus. apply Hh. }
  pose proof (B h1 6). pose proof (B h2 12). pose proof (B h3 18). pose proof (B h4 24).
  unfold words_ok, wval, in_width, val; cbn [v0 v1 v2 v3 l0 l1 l2 l3 l4]. bound_mods.
  pose proof (Z.mod_pos_bound h2 (2 ^ 12) ltac:(lia)). pose proof (Z.mod_pos_bound h3 (2 ^ 18) ltac:(lia)).
  pose proof (Z.mod_pos_bound h4 (2 ^ 24) ltac:(lia)).
  split; [split_and!; lia|]. apply (Z.mod_unique_pos _ _ (h4 `div` 2 ^ 24)); lia.
Qed.

Lemma add_pad_ok h pad :
  words_ok h -> words_ok pad ->
  words_ok (add_pad h pad) /\ wval (add_pad h pad) = (wval h + wval pad) `mod` 2 ^ 128.
Proof.
  intros (?&?&?&?) (?&?&?&?). unfold add_pad, words_ok. cbv zeta. cbn [v0 v1 v2 v3].
  split; [split_and!; apply wrap_in_width; lia|]. unfold wval at 1; cbn [v0 v1 v2 v3].
  unfold wrap, in_width in *. rewrite !Z.shiftr_div_pow2 by lia.
  set (f0 := v0 h + v0 pad). set (f1 := v1 h + v1 pad + f0 `div` 2 ^ 32).
  set (f2 := v2 h + v2 pad + f1 `div` 2 ^ 32). set (f3 := v3 h + v3 pad + f2 `div` 2 ^ 32).
  assert (D : forall f, f = 2 ^ 32 * (f `div` 2 ^ 32) + f `mod` 2 ^ 32) by (intros; apply Z.div_mod; lia).
  bound_mods. pose proof (D f0). pose proof (D f1). pose proof (D f2). pose proof (D f3).
  apply (Z.mod_unique_pos _ _ (f3 `div` 2 ^ 32)); unfold wval; subst f3 f2 f1 f0; lia.
Qed.

(** ** Absorbing a message *)

Section Absorb.
Context (r : Z).

Definition acc_all (a : Z) (m : bytes) : Z := Rfc8439.accumulate (length m) r a m.

Lemma accumulate_fuel f a m : (length m <= f)%nat -> Rfc8439.accumulate f r a m = acc_all a m.
Proof.
  unfold acc_all. revert a m. assert (G : forall n f g a m, (length m <= n)%nat -> (length m <= f)%nat ->
    (length m <= g)%nat -> Rfc8439.accumulate f r a m = Rfc8439.accumulate g r a m); [|eauto].
  clear f. induction n as [|n IH]; intros f g a m Hn Hf Hg.
  { destruct m; [by destruct f, g|cbn in Hn; lia]. }
  destruct m as [|x m]; [by destruct f, g|].
  destruct f as [|f]; [cbn in Hf; lia|]. destruct g as [|g]; [cbn in Hg; lia|].
  cbn [Rfc8439.accumulate]. apply IH; rewrite length_drop; cbn [length] in *; lia.
Qed.

Lemma acc_all_block a b m : length b = 16%nat -> acc_all a (b ++ m) = acc_all (Rfc8439.absorb r a b) m.
Proof.
  intros Hb. unfold acc_all at 1. destruct b as [|x b]; [done|]. cbn [app length Rfc8439.accumulate].
  rewrite (take_app_length' (x :: b) m), (drop_app_length' (x :: b) m) by done.
  apply accumulate_fuel. rewrite length_app. lia.
Qed.

Lemma acc_all_last a m : (0 < length m <= 16)%nat -> acc_all a m = Rfc8439.absorb r a m.
Proof.
  intros Hm. destruct m as [|x m]; [cbn in Hm; lia|]. unfold acc_all.
  cbn [length Rfc8439.accumulate]. rewrite (take_ge (x :: m)), (drop_ge (x :: m)) by lia.
  by destruct (length m).
Qed.

Lemma acc_all_app n a full m :
  length full = (16 * n)%nat -> acc_all a (full ++ m) = acc_all (acc_all a full) m.
Proof.
  revert a full. induction n as [|n IH]; intros a full Hl.
  { by destruct full. }
  assert (Lb : length (take 16 full) = 16%nat) by (rewrite length_take; lia).
  assert (Ld : length (drop 16 full) = (16 * n)%nat) by (rewrite length_drop; lia).
  rewrite <- (take_drop 16 full). revert Lb Ld. generalize (take 16 full) (drop 16 full). intros b d Lb Ld.
  rewrite <- app_assoc, (acc_all_block a b (d ++ m)), (acc_all_block a b d) by done. by apply IH.
Qed.

Lemma absorb_mod a b m : a `mod` Rfc8439.P = b `mod` Rfc8439.P -> Rfc8439.absorb r a m = Rfc8439.absorb r b m.
Proof.
  intros H. unfold Rfc8439.absorb. assert (Rfc8439.P <> 0) by done.
  rewrite <- (Z.mul_mod_idemp_l (a + _)), <- (Z.mul_mod_idemp_l (b + _)) by done.
  rewrite <- (Z.add_mod_idemp_l a), <- (Z.add_mod_idemp_l b) by done. by rewrite H.
Qed.
End Absorb.

Lemma from_le_one m : from_le_bytes (m ++ [1]) = from_le_bytes m + 256 ^ Z.of_nat (length m).
Proof. rewrite from_le_bytes_app. cbn [from_le_bytes]. lia. Qed.

(** The key and the accumulator after the whole blocks [full]. *)
Record folded (key full : bytes) (p : Poly1305) : Prop := {
  f_ok : poly_ok p;
  f_open : p_finalized p = false;
  f_r : val (p_r p) = Rfc8439.key_r key;
  f_pad : wval (p_pad p) = Rfc8439.key_s key;
  f_blocks : exists n, length full = (16 * n)%nat;
  f_h : val (p_h p) `mod` Rfc8439.P = acc_all (Rfc8439.key_r key) 0 full `mod` Rfc8439.P;
}.

(** The authenticator has been given the message [msg]. *)
Definition absorbed (key msg : bytes) (p : Poly1305) : Prop :=
  exists full, folded key full p /\ msg = full ++ take (p_leftover p) (p_buffer p).

Lemma block_folded key full p m :
  folded key full p -> all_u8 m -> length m = 16%nat ->
  exists h, block p m = Ret (set_h h p) /\ folded key (full ++ m) (set_h h p).
Proof.
  intros [(Hr & Hh & Hrest) Ho Er Ep [n Hn] Ha] Hu Hl.
  destruct (block_ok p m Hr Hh Hu Hl) as (h & E & A & V). exists h. split; [done|].
  split; try done. { exists (S n). rewrite length_app. lia. }
  cbn [p_h set_h]. rewrite V, Ho, Er, (acc_all_app _ n) by done.
  rewrite (acc_all_last _ _ m) by lia. rewrite <- (absorb_mod _ _ _ m Ha).
  unfold Rfc8439.absorb. rewrite from_le_one, Hl, Z.mod_mod by done.
  do 2 f_equal. change (256 ^ Z.of_nat 16) with (2 ^ 128). lia.
Qed.

Definition with_rest (lo : nat) (buf : bytes) (p : Poly1305) : Poly1305 :=
  mkPoly (p_r p) (p_h p) (p_pad p) lo buf (p_finalized p).

Lemma folded_rest key full p lo buf :
  folded key full p -> length buf = 16%nat -> all_u8 buf -> (lo < 16)%nat ->
  folded key full (with_rest lo buf p).
Proof. intros [(?&?&?&?&?&?) ? ? ? ? ?] ? ? ?. split; try done. Qed.

Lemma blocks_folded fuel key full p m :
  (length m <= fuel)%nat -> folded key full p -> all_u8 m ->
  exists p' mid rest, blocks fuel p m = Ret (p', rest) /\ m = mid ++ rest /\ (length rest < 16)%nat /\
    folded key (full ++ mid) p' /\ p_buffer p' = p_buffer p.
Proof.
  revert full p m. induction fuel as [|fuel IH]; intros full p m Hf Hp Hu; cbn [blocks].
  { exists p, [], []. destruct m; [|cbn in Hf; lia]. rewrite (app_nil_r full). cbn. split_and!; (done || lia). }
  destruct (Nat.ltb_spec (length m) 16) as [Hlt|Hge].
  { exists p, [], m. by rewrite (app_nil_r full). }
  destruct (block_folded key full p (take 16 m)) as (h & E & F); [done|by apply Forall_take|rewrite length_take; lia|].
  rewrite E. cbn [mbind outcome_bind].
  destruct (IH (full ++ take 16 m) (set_h h p) (drop 16 m)) as (p' & mid & rest & E' & Em & Hr & F' & B);
    [rewrite length_drop; lia|done|by apply Forall_drop|].
  exists p', (take 16 m ++ mid), rest. split_and!; [done| |done| |done].
  - by rewrite <- app_assoc, <- Em, take_drop.
  - by rewrite app_assoc.
Qed.

Lemma set_rest_absorbed key full p m :
  folded key full p -> all_u8 m -> (length m < 16)%nat -> absorbed key (full ++ m) (set_rest p m).
Proof.
  intros F Hu Hm. pose proof F as [(?&?&?&Hl&Hb&?) ? ? ? ? ?]. exists full. split.
  - apply (folded_rest key full p (length m)); [done| | |done].
    + rewrite length_app, length_drop. lia.
    + apply Forall_app. split; [done|by apply Forall_drop].
  - cbn [set_rest p_leftover p_buffer]. by rewrite take_app_length.
Qed.

Lemma block_rest lo buf p m h :
  block p m = Ret (set_h h p) -> block (with_rest lo buf p) m = Ret (set_h h (with_rest lo buf p)).
Proof.
  unfold block, with_rest. cbn [p_h p_r p_finalized].
  destruct (add_message _ _ _); cbn [mbind outcome_bind]; [|done..].
  destruct (mul_r _ _); cbn [mbind outcome_bind]; [|done..]. unfold set_h; cbn. by intros [= <-].
Qed.

(** The [while] loop and the copy of the rest. *)
Lemma blocks_absorbed key full p data :
  folded key full p -> all_u8 data ->
  exists p', ('(p3, rest) ← blocks (length data) p data; Ret (set_rest p3 rest)) = Ret p' /\
    absorbed key (full ++ data) p'.
Proof.
  intros F Hu.
  destruct (blocks_folded (length data) key full p data) as (p3 & mid & rest & E3 & -> & Hr3 & F3 & B3); [done..|].
  rewrite E3. cbn [mbind outcome_bind]. eexists. split; [done|].
  rewrite app_assoc. apply set_rest_absorbed; [done| |done]. by apply Forall_app in Hu as [_ ?].
Qed.

Lemma input_absorbed key msg p data :
  absorbed key msg p -> all_u8 data ->
  exists p', input p data = Ret p' /\ absorbed key (msg ++ data) p'.
Proof.
  intros (full & F & ->) Hu. unfold input. pose proof F as [(Hr&Hh&Hpad&Hl&Hb&Hlo) Ho ? ? ? ?].
  assert (Hif : forall x y : outcome Poly1305, (if p_finalized p then x else y) = y) by (by rewrite Ho). rewrite Hif.
  destruct (Nat.ltb_spec 0 (p_leftover p)) as [Hpos|Hz].
  2: { replace (p_leftover p) with 0%nat by lia. rewrite app_nil_r. by apply blocks_absorbed. }
  cbv zeta. set (lo := p_leftover p) in *. set (want := Nat.min (16 - lo) (length data)).
  set (buf := take lo (p_buffer p) ++ take want data ++ drop (lo + want) (p_buffer p)).
  assert (Lb : length buf = 16%nat)
    by (unfold buf; rewrite !length_app, !length_take, length_drop; unfold want; lia).
  assert (Ub : all_u8 buf)
    by (unfold buf; rewrite !Forall_app; split_and!; auto using Forall_take, Forall_drop).
  fold (with_rest (lo + want) buf p).
  destruct (Nat.ltb_spec (lo + want) 16) as [Hlt|Hge].
  - eexists. split; [done|]. exists full. split; [by apply folded_rest|].
    cbn [with_rest p_leftover p_buffer]. rewrite <- app_assoc. f_equal. unfold buf. rewrite app_assoc.
    rewrite take_app_length' by (rewrite length_app, !length_take; unfold want; lia).
    f_equal. symmetry. apply take_ge. unfold want in *. lia.
  - assert (Eb : buf = take lo (p_buffer p) ++ take want data)
      by (unfold buf; by rewrite (drop_ge (p_buffer p)), app_nil_r by lia).
    destruct (block_folded key full (with_rest 0 buf p) buf) as (h & E & F2);
      [apply folded_rest; (done || lia)|done|done|].
    apply (block_rest (lo + want) buf) in E.
    change (with_rest (lo + want) buf (with_rest 0 buf p)) with (with_rest (lo + want) buf p) in E.
    rewrite E. cbn [mbind outcome_bind].
    assert (Ee : (full ++ take lo (p_buffer p)) ++ data = (full ++ buf) ++ drop want data)
      by (by rewrite Eb, <- !app_assoc, take_drop).
    rewrite Ee. apply blocks_absorbed; [done|by apply Forall_drop].
Qed.

(** ** The tag *)

Lemma tag_words w :
  words_ok w ->
  to_le_bytes 4 (v0 w) ++ to_le_bytes 4 (v1 w) ++ to_le_bytes 4 (v2 w) ++ to_le_bytes 4 (v3 w) =
  to_le_bytes 16 (wval w).
Proof.
  intros (?&?&?&?). unfold wval, in_width in *.
  rewrite (to_le_bytes_app 4 12), (to_le_bytes_app 4 8), (to_le_bytes_app 4 4). change (256 ^ Z.of_nat 4) with (2 ^ 32).
  assert (M : forall a b, 0 <= a < 2 ^ 32 -> to_le_bytes 4 (a + 2 ^ 32 * b) = to_le_bytes 4 a).
  { intros a b Ha. rewrite <- (to_le_bytes_mod 4 (a + _)). change (256 ^ Z.of_nat 4) with (2 ^ 32).
    by rewrite Z.mul_comm, Z.mod_add, Z.mod_small by lia. }
  assert (D : forall a b, 0 <= a < 2 ^ 32 -> (a + 2 ^ 32 * b) `div` 2 ^ 32 = b).
  { intros a b Ha. by rewrite Z.mul_comm, Z.div_add, Z.div_small by lia. }
  replace (v0 w + _ + _ + _) with (v0 w + 2 ^ 32 * (v1 w + 2 ^ 32 * (v2 w + 2 ^ 32 * v3 w))) by lia.
  by rewrite !D, !M by done.
Qed.

Lemma reduce_ok h pad :
  acc_ok h -> words_ok pad ->
  exists h', full_carry h = Ret h' /\ words_ok (add_pad (to_words (select h')) pad) /\
    wval (add_pad (to_words (select h')) pad) = (val h `mod` Rfc8439.P + wval pad) `mod` 2 ^ 128.
Proof.
  intros Hh Hp. destruct (full_carry_ok h Hh) as (h' & k & E & L & V). exists h'. split; [done|].
  destruct (select_ok h' L) as [L2 V2]. destruct (to_words_ok _ L2) as [W3 V3].
  destruct (add_pad_ok _ pad W3 Hp) as [W4 V4]. split; [done|]. rewrite V4, V3, V2, Z.add_mod_idemp_l by lia.
  do 2 f_equal. rewrite V. replace (_ - Rfc8439.P * k) with (val h + (- k) * Rfc8439.P) by ring.
  by apply Z.mod_add.
Qed.

Lemma absorb_range r a m : 0 <= Rfc8439.absorb r a m < Rfc8439.P.
Proof. by apply Z.mod_pos_bound. Qed.

Lemma acc_all_range f r a m : 0 <= a < Rfc8439.P -> 0 <= Rfc8439.accumulate f r a m < Rfc8439.P.
Proof.
  revert a m. induction f as [|f IH]; intros a [|x m] H; try done. apply IH, absorb_range.
Qed.

Lemma finish_absorbed key msg p :
  absorbed key msg p ->
  exists p' w, finish p = Ret p' /\ p_h p' = L5 (v0 w) (v1 w) (v2 w) (v3 w) (l4 (p_h p')) /\ words_ok w /\
    wval w = (acc_all (Rfc8439.key_r key) 0 msg + Rfc8439.key_s key) `mod` 2 ^ 128.
Proof.
  intros (full & F & ->). unfold finish. pose proof F as [(Hr&Hh&Hpad&Hl&Hb&Hlo) Ho Er Ep [n Hn] Ha].
  rewrite (acc_all_app _ n) by done. set (a := acc_all _ 0 full) in *.
  assert (Ra : 0 <= a < Rfc8439.P) by (by apply acc_all_range).
  rewrite (Z.mod_small a) in Ha by done.
  destruct (Nat.ltb_spec 0 (p_leftover p)) as [Hpos|Hz].
  - set (rest := take (p_leftover p) (p_buffer p)). set (buf := rest ++ _).
    assert (Lr : length rest = p_leftover p) by (unfold rest; rewrite length_take; lia).
    assert (Lb : length buf = 16%nat) by (unfold buf; rewrite length_app; cbn [length]; rewrite length_replicate; lia).
    assert (Ub : all_u8 buf).
    { unfold buf. apply Forall_app. split; [by apply Forall_take|]. constructor; [by vm_compute|].
      apply Forall_replicate. by vm_compute. }
    destruct (block_ok (mkPoly (p_r p) (p_h p) (p_pad p) (p_leftover p) buf true) buf) as (h & E & A & V);
      [done..|]. rewrite E. cbn [mbind outcome_bind set_h p_h p_r p_pad p_finalized] in *.
    destruct (reduce_ok h (p_pad p) A Hpad) as (h' & E2 & W & V2). rewrite E2. cbn [mbind outcome_bind].
    eexists _, _. split; [done|]. split; [done|]. split; [done|]. rewrite V2, V, Er, Ep. do 2 f_equal.
    rewrite acc_all_last by lia. rewrite <- (absorb_mod _ (val (p_h p)) a) by (by rewrite Ha, Z.mod_small).
    unfold Rfc8439.absorb. rewrite from_le_one. do 2 f_equal. unfold buf.
    rewrite from_le_bytes_app. cbn [from_le_bytes]. rewrite from_le_bytes_zeros. lia.
  - replace (p_leftover p) with 0%nat by lia. cbn [mbind outcome_bind].
    destruct (reduce_ok (p_h p) (p_pad p) Hh Hpad) as (h' & E2 & W & V2). rewrite E2. cbn [mbind outcome_bind].
    eexists _, _. split; [done|]. split; [done|]. split; [done|]. by rewrite V2, Ep, Ha.
Qed.

Lemma raw_result_absorbed key msg p :
  absorbed key msg p -> exists p', raw_result p = Ret (Rfc8439.tag key msg, p').
Proof.
  intros H. destruct (finish_absorbed key msg p H) as (p' & w & E & Eh & W & V).
  unfold raw_result. destruct H as (full & [_ -> _ _ _ _] & _). rewrite E. cbn [mbind outcome_bind].
  exists p'. rewrite Eh. cbn [l0 l1 l2 l3]. by rewrite tag_words, V.
Qed.

Lemma new_absorbed key p : all_u8 key -> new key = Ret p -> absorbed key [] p.
Proof.
  intros Hu H. destruct (new_spec key p Hu H) as (Er & Lr & Ep & Wp & Eh & El & Lb & Ef).
  exists []. rewrite El. split; [|done]. split; try done.
  - unfold poly_ok. rewrite Eh, El. split_and!; try done; try lia.
    unfold new in H. destruct (negb _); [done|]. injection H as <-. cbn [p_buffer]. by_decide.
  - by exists 0%nat.
  - by rewrite Eh.
Qed.

(** [input] of several pieces, one after the other. *)
Fixpoint input_all (p : Poly1305) (pieces : list bytes) : outcome Poly1305 :=
  match pieces with
  | [] => Ret p
  | m :: ms => p ← input p m; input_all p ms
  end.

Lemma input_all_absorbed key pieces msg p :
  absorbed key msg p -> Forall all_u8 pieces ->
  exists p', input_all p pieces = Ret p' /\ absorbed key (msg ++ concat pieces) p'.
Proof.
  intros H Hu. revert msg p H. induction Hu as [|m ms Hm _ IH]; intros msg p H; cbn [input_all concat].
  { exists p. by rewrite app_nil_r. }
  destruct (input_absorbed key msg p m H Hm) as (p1 & E1 & H1). rewrite E1. cbn [mbind outcome_bind].
  destruct (IH _ _ H1) as (p2 & E2 & H2). exists p2. by rewrite app_assoc.
Qed.

(** ** Properties *)

(** C40: the limb code computes the Poly1305 tag of RFC 8439, however the message is
    cut into calls of [input], and no addition or multiplication overflows. *)
Theorem poly1305_rfc (key : bytes) (pieces : list bytes) :
  length key = 32%nat -> all_u8 key -> Forall all_u8 pieces ->
  exists p0 p p', new key = Ret p0 /\ input_all p0 pieces = Ret p /\
    raw_result p = Ret (Rfc8439.tag key (concat pieces), p').
Proof.
  intros Hl Hk Hu. destruct (new key) as [p0| |] eqn:E0; [|unfold new in E0; rewrite Hl in E0; done..].
  pose proof (new_absorbed key p0 Hk E0) as H0.
  destruct (input_all_absorbed key pieces [] p0 H0 Hu) as (p & E & H).
  destruct (raw_result_absorbed key _ p H) as (p' & Er). by exists p0, p, p'.
Qed.

Lemma poly1305_rfc_witness :
  exists p0 p p', new (replicate 32 200) = Ret p0 /\ input_all p0 [replicate 20 255; [1; 2]] = Ret p /\
    raw_result p = Ret (Rfc8439.tag (replicate 32 200) (replicate 20 255 ++ [1; 2]), p').
Proof. apply (poly1305_rfc (replicate 32 200) [replicate 20 255; [1; 2]]); [done|by_decide..]. Defined.
