(* ===== verification/Stream.v ===== *)
(** * Byte streams: the readers and writers of rust-lightning/lightning/src/util/ser.rs

    [Readable::read] is generic in the reader it is given, so a decoder is a tree [rd] of
    the calls of [Read::read] it makes; [run] performs the calls on a reader, and the
    adaptors of ser.rs ([FixedLengthReader], [ReadTrackingReader]) are handlers that turn
    the calls of one decoder into those on the reader inside.  A [Writeable] is the list
    of the [write_all] calls it makes; the writers are what they make of the list.  Each
    adaptor is proved to act as a simple operation on byte slices. *)

From S2P Require Import Prelude Bytes.

Local Open Scope Z_scope.

(** ** Errors *)

(** [std::io::ErrorKind], as far as the code looks at it.  Calls interrupted by a signal
    are repeated by the standard library. *)
Inductive IoKind := UnexpectedEof | OtherKind (what : string).

Inductive DecodeError :=
| UnknownVersion
| UnknownRequiredFeature
| InvalidValue
| ShortRead
| BadLengthDescriptor
| Io (e : IoKind)
| UnsupportedCompression.

Global Instance IoKind_eq_dec : EqDecision IoKind.
Proof. solve_decision. Defined.
Global Instance DecodeError_eq_dec : EqDecision DecodeError.
Proof. solve_decision. Defined.

(** [impl From<io::Error> for DecodeError]. *)
Definition from_io (e : IoKind) : DecodeError :=
  match e with UnexpectedEof => ShortRead | _ => Io e end.

(** ** Decoders *)

(** [RRead n k]: one call of [Read::read] with a buffer of [n] bytes; [k] is given the
    bytes read.  [RFuel k]: [k] is given a bound for the loop that follows, which the
    reader chooses: one more than the bytes it has left. *)
Inductive rd (A : Type) : Type :=
| RRet (o : outcome (result A DecodeError))
| RRead (n : nat) (k : result bytes IoKind -> rd A)
| RFuel (k : nat -> rd A).
Arguments RRet {A} _.
Arguments RRead {A} _ _.
Arguments RFuel {A} _.

Abbreviation rok a := (RRet (Ret (Ok a))).
Abbreviation rerr e := (RRet (Ret (Err e))).

(** Continue with the result of a decoder, an error included. *)
Fixpoint rd_match {A B} (m : rd A) (f : result A DecodeError -> rd B) : rd B :=
  match m with
  | RRet (Ret r) => f r
  | RRet (Panic w) => RRet (Panic w)
  | RRet OutOfFuel => RRet OutOfFuel
  | RRead n k => RRead n (fun x => rd_match (k x) f)
  | RFuel k => RFuel (fun n => rd_match (k n) f)
  end.

(** The [?] operator. *)
Definition rd_bind {A B} (m : rd A) (f : A -> rd B) : rd B :=
  rd_match m (fun r => match r with Ok a => f a | Err e => rerr e end).

Global Instance rd_mret : MRet rd := fun _ a => rok a.
Global Instance rd_mbind : MBind rd := fun _ _ f m => rd_bind m f.

Definition of_result {A} (r : result A DecodeError) : rd A := RRet (Ret r).

(** [Read::read_exact] of the standard library: read until the buffer is full; a read of
    no bytes is the end of the stream.  Every iteration fills at least one byte. *)
Fixpoint read_exact_loop (fuel n : nat) (acc : bytes) : rd bytes :=
  match n with
  | O => rok acc
  | S _ =>
      match fuel with
      | O => RRet OutOfFuel
      | S fuel' =>
          RRead n (fun r =>
            match r with
            | Ok [] => rerr (from_io UnexpectedEof)
            | Ok bs => read_exact_loop fuel' (n - length bs) (acc ++ bs)
            | Err e => rerr (from_io e)
            end)
      end
  end.

Definition read_exact (n : nat) : rd bytes := read_exact_loop n n [].

(** ** Readers *)

(** What implements [Read]; [left] bounds the bytes the reader will still give. *)
Class Read (R : Type) := {
  do_read : nat -> prog R (result bytes IoKind);
  left : R -> nat;
}.

Fixpoint run `{Read R} {A} (m : rd A) : prog R (result A DecodeError) :=
  match m with
  | RRet o => lift o
  | RRead n k => r ← do_read n; run (k r)
  | RFuel k => fun s => run (k (S (left s))) s
  end.

(** [impl Read for &[u8]]. *)
Global Instance Read_slice : Read bytes := {
  do_read n := fun bs => (Ret (Ok (take n bs)), drop n bs);
  left bs := length bs;
}.

(** *** [FixedLengthReader] *)

Record FixedLengthReader := mkFixed { bytes_read : Z; total_bytes : Z }.

Definition fixed_new (total : Z) : FixedLengthReader := mkFixed 0 total.
Definition bytes_remain (s : FixedLengthReader) : bool := negb (bytes_read s =? total_bytes s).

(** The calls a decoder makes on a [FixedLengthReader], as calls on the reader inside. *)
Fixpoint in_fixed {A} (s : FixedLengthReader) (m : rd A) : rd (A * FixedLengthReader) :=
  match m with
  | RRet (Ret (Ok a)) => rok (a, s)
  | RRet (Ret (Err e)) => rerr e
  | RRet (Panic w) => RRet (Panic w)
  | RRet OutOfFuel => RRet OutOfFuel
  | RRead n k =>
      if total_bytes s =? bytes_read s then in_fixed s (k (Ok []))
      else
        let read_len := Z.to_nat (Z.min (Z.of_nat n) (total_bytes s - bytes_read s)) in
        RRead read_len (fun r =>
          match r with
          | Ok v => in_fixed (mkFixed (bytes_read s + Z.of_nat (length v)) (total_bytes s)) (k r)
          | Err e => in_fixed s (k r)
          end)
  | RFuel k =>
      RFuel (fun f => in_fixed s (k (S (Nat.min (f - 1) (Z.to_nat (total_bytes s - bytes_read s))))))
  end.

(** [io_extras::copy] into [sink()] and [io_extras::read_to_end], as lib.rs has them for
    builds without std; std's own have other buffer sizes. *)
Fixpoint copy_to_sink (fuel : nat) : rd unit :=
  match fuel with
  | O => RRet OutOfFuel
  | S fuel' =>
      RRead 64 (fun r =>
        match r with
        | Ok [] => rok tt
        | Ok (_ :: _) => copy_to_sink fuel'
        | Err _ => RRet (Panic "called `Result::unwrap()` on an `Err` value")
        end)
  end.

Fixpoint read_to_end_loop (fuel : nat) (result : bytes) : rd bytes :=
  match fuel with
  | O => RRet OutOfFuel
  | S fuel' =>
      RRead 64 (fun r =>
        match r with
        | Ok [] => rok result
        | Ok (b :: bs) => read_to_end_loop fuel' (result ++ b :: bs)
        | Err e => rerr (from_io e)
        end)
  end.

Definition read_to_end : rd bytes := RFuel (fun fuel => read_to_end_loop fuel []).

Definition eat_remaining (s : FixedLengthReader) : rd FixedLengthReader :=
  '(_, s) ← in_fixed s (RFuel copy_to_sink);
  if negb (bytes_read s =? total_bytes s) then rerr ShortRead else rok s.

(** *** [ReadTrackingReader] *)

(** The decoder's result and whether any byte was read. *)
Fixpoint in_tracking {A} (have_read : bool) (m : rd A) : rd (result A DecodeError * bool) :=
  match m with
  | RRet (Ret r) => rok (r, have_read)
  | RRet (Panic w) => RRet (Panic w)
  | RRet OutOfFuel => RRet OutOfFuel
  | RRead n k =>
      RRead n (fun r =>
        match r with
        | Ok [] => in_tracking have_read (k r)
        | Ok _ => in_tracking true (k r)
        | Err _ => in_tracking have_read (k r)
        end)
  | RFuel k => RFuel (fun f => in_tracking have_read (k f))
  end.

(** ** Writers *)

(** [VecWriter] and [LengthCalculatingWriter], given the calls of [write_all]. *)
Definition vec_writer (calls : list bytes) : bytes := concat calls.
Definition length_writer (calls : list bytes) : Z :=
  foldl (fun n buf => n + Z.of_nat (length buf)) 0 calls.

(** ** Lemmas: decoders on slices *)

Section Run.
Context `{Read R}.

Lemma run_match {A B} (m : rd A) (f : result A DecodeError -> rd B) s :
  run (rd_match m f) s =
  match run m s with
  | (Ret r, s') => run (f r) s'
  | (Panic w, s') => (Panic w, s')
  | (OutOfFuel, s') => (OutOfFuel, s')
  end.
Proof.
  revert s. induction m as [o|n k IH|k IH]; intros s; cbn.
  - by destruct o as [[a|e]|w|].
  - unfold mbind, prog_bind. destruct (do_read n s) as [[r|w|] s']; [apply IH|done..].
  - apply IH.
Qed.

Lemma run_bind {A B} (m : rd A) (f : A -> rd B) s :
  run (m ≫= f) s =
  match run m s with
  | (Ret (Ok a), s') => run (f a) s'
  | (Ret (Err e), s') => (Ret (Err e), s')
  | (Panic w, s') => (Panic w, s')
  | (OutOfFuel, s') => (OutOfFuel, s')
  end.
Proof.
  unfold mbind, rd_mbind, rd_bind. rewrite run_match.
  by destruct (run m s) as [[[a|e]|w|] s'].
Qed.

Lemma run_bind_Ok {A B} (m : rd A) (f : A -> rd B) s a s' :
  run m s = (Ret (Ok a), s') -> run (m ≫= f) s = run (f a) s'.
Proof. rewrite run_bind. by intros ->. Qed.
End Run.

Lemma run_read_exact_ok n bs :
  (n <= length bs)%nat -> run (read_exact n) bs = (Ret (Ok (take n bs)), drop n bs).
Proof.
  intros Hn. unfold read_exact. destruct n as [|n]; [done|]. cbn.
  unfold mbind, prog_bind. destruct bs as [|b bs]; [cbn in Hn; lia|]. cbn in Hn.
  rewrite firstn_cons, skipn_cons. cbn [length]. rewrite length_take, Nat.min_l by lia.
  rewrite Nat.sub_diag. by destruct n.
Qed.

Lemma run_read_exact_short n bs :
  (length bs < n)%nat -> run (read_exact n) bs = (Ret (Err ShortRead), []).
Proof.
  intros Hn. unfold read_exact. destruct n as [|n]; [lia|]. cbn.
  unfold mbind, prog_bind. destruct bs as [|b bs]; [done|]. cbn in Hn.
  rewrite firstn_cons, skipn_cons. cbn [length]. rewrite (take_ge bs), (drop_ge bs) by lia.
  cbn [Nat.sub]. destruct (n - length bs)%nat as [|d] eqn:Ed; [lia|]. destruct n as [|n]; [lia|]. done.
Qed.

(** A decoder on a slice leaves a suffix of it. *)
Lemma run_suffix {A} (m : rd A) (bs : bytes) :
  exists n, (n <= length bs)%nat /\ (run m bs).2 = drop n bs.
Proof.
  revert bs. induction m as [o|n k IH|k IH]; intros bs; cbn.
  - exists 0%nat. split; [lia|done].
  - unfold mbind, prog_bind. destruct (IH (Ok (take n bs)) (drop n bs)) as (i & Hi & E).
    rewrite E, drop_drop. rewrite length_drop in Hi.
    destruct (Nat.le_gt_cases (n + i) (length bs)) as [|Hgt]; [by exists (n + i)%nat|].
    exists (length bs). split; [done|]. rewrite !drop_ge by lia. done.
  - apply IH.
Qed.

(** *** [FixedLengthReader] is a sub-slice *)

Definition fixed_ok (s : FixedLengthReader) : Prop := 0 <= bytes_read s <= total_bytes s.

Definition advance (s : FixedLengthReader) (n : nat) : FixedLengthReader :=
  mkFixed (bytes_read s + Z.of_nat n) (total_bytes s).

Definition room (s : FixedLengthReader) : nat := Z.to_nat (total_bytes s - bytes_read s).

Lemma advance_advance s n m : advance (advance s n) m = advance s (n + m).
Proof. unfold advance. cbn. f_equal. lia. Qed.

Lemma advance_0 s : advance s 0 = s.
Proof. destruct s. unfold advance. cbn. f_equal. lia. Qed.

Lemma room_advance s n : fixed_ok s -> room (advance s n) = (room s - n)%nat.
Proof. unfold room, advance, fixed_ok. cbn. lia. Qed.

Lemma run_in_fixed {A} (m : rd A) s bs :
  fixed_ok s ->
  run (in_fixed s m) bs =
  (let sub := take (room s) bs in
   let '(o, rest) := run m sub in
   (match o with
    | Ret (Ok a) => Ret (Ok (a, advance s (length sub - length rest)))
    | Ret (Err e) => Ret (Err e)
    | Panic w => Panic w
    | OutOfFuel => OutOfFuel
    end, rest ++ drop (room s) bs)).
Proof.
  revert s bs. induction m as [o|n k IH|k IH]; intros s bs Hs; cbn.
  - destruct o as [[a|e]|w|]; cbn; rewrite ?take_drop; [|done..].
    by rewrite Nat.sub_diag, advance_0.
  - unfold mbind, prog_bind. cbn [do_read Read_slice].
    destruct (Z.eqb_spec (total_bytes s) (bytes_read s)) as [E|E].
    + assert (R0 : room s = 0%nat) by (unfold room; lia). rewrite IH by done. rewrite R0. cbn.
      by rewrite take_0, take_nil, drop_nil.
    + cbn. unfold mbind, prog_bind. cbn. set (rl := Z.to_nat (Z.min (Z.of_nat n) (total_bytes s - bytes_read s))).
      assert (Erl : rl = Nat.min n (room s)) by (unfold rl, room, fixed_ok in *; lia).
      assert (Et : take n (take (room s) bs) = take rl bs) by (by rewrite take_take, Erl).
      assert (Ed : drop n (take (room s) bs) = take (room s - rl) (drop rl bs)).
      { rewrite skipn_firstn_comm, Erl. destruct (Nat.le_gt_cases n (room s)).
        - by rewrite Nat.min_l by lia.
        - rewrite Nat.min_r by lia. replace (room s - n)%nat with 0%nat by lia. by rewrite Nat.sub_diag. }
      rewrite Et, Ed. fold (advance s (length (take rl bs))).
      assert (Hl : (length (take rl bs) <= room s)%nat) by (rewrite length_take; lia).
      rewrite IH by (unfold fixed_ok, advance, room in *; cbn; lia).
      rewrite room_advance by done.
      assert (Es : take (room s - length (take rl bs)) (drop rl bs) = take (room s - rl) (drop rl bs)).
      { destruct (Nat.le_gt_cases rl (length bs)); [by rewrite length_take, Nat.min_l by lia|].
        rewrite (drop_ge bs) by lia. by rewrite !take_nil. }
      assert (Er : drop (room s - length (take rl bs)) (drop rl bs) = drop (room s) bs).
      { rewrite drop_drop. destruct (Nat.le_gt_cases rl (length bs)).
        - rewrite length_take, Nat.min_l by lia. f_equal. lia.
        - rewrite !drop_ge; [done|lia|]. rewrite length_take. lia. }
      cbn. rewrite Es, Er. set (sub := take (room s - rl) (drop rl bs)).
      destruct (run_suffix (k (Ok (take rl bs))) sub) as (i & Hi & E2).
      destruct (run (k (Ok (take rl bs))) sub) as [o rest]; cbn in E2 |- *. f_equal.
      destruct o as [[a|e]|w|]; try done. rewrite advance_advance. do 4 f_equal.
      assert (length (take (room s) bs) = length (take rl bs) + length sub)%nat
        by (unfold sub; rewrite !length_take, length_drop; lia).
      subst rest. rewrite length_drop. lia.
  - rewrite IH by done. cbn. rewrite Nat.sub_0_r.
    replace (Nat.min (length bs) (Z.to_nat (total_bytes s - bytes_read s))) with (length (take (room s) bs))
      by (rewrite length_take; unfold room; lia).
    done.
Qed.

Lemma run_copy_to_sink fuel bs :
  (length bs < fuel)%nat -> run (copy_to_sink fuel) bs = (Ret (Ok tt), []).
Proof.
  revert bs. induction fuel as [|fuel IH]; intros bs Hf; [lia|]. cbn [copy_to_sink run].
  unfold mbind, prog_bind. cbn [do_read Read_slice]. destruct bs as [|b bs]; [done|].
  replace 64%nat with (S 63) by reflexivity. rewrite firstn_cons, skipn_cons.
  apply IH. rewrite length_drop. cbn in Hf. lia.
Qed.

Lemma run_read_to_end_loop fuel acc bs :
  (length bs < fuel)%nat -> run (read_to_end_loop fuel acc) bs = (Ret (Ok (acc ++ bs)), []).
Proof.
  revert acc bs. induction fuel as [|fuel IH]; intros acc bs Hf; [lia|]. cbn [read_to_end_loop run].
  unfold mbind, prog_bind. cbn [do_read Read_slice]. destruct bs as [|b bs]; [cbn; by rewrite app_nil_r|].
  replace 64%nat with (S 63) by reflexivity. rewrite firstn_cons, skipn_cons.
  rewrite IH by (rewrite length_drop; cbn in Hf; lia). by rewrite <- app_assoc, <- app_comm_cons, take_drop.
Qed.

Lemma run_read_to_end (bs : bytes) : run read_to_end bs = (Ret (Ok bs), []).
Proof. unfold read_to_end. cbn [run left Read_slice]. apply run_read_to_end_loop. lia. Qed.

Lemma run_eat_remaining s bs :
  fixed_ok s ->
  run (eat_remaining s) bs =
  (if (room s <=? length bs)%nat then Ret (Ok (mkFixed (total_bytes s) (total_bytes s))) else Ret (Err ShortRead),
   drop (room s) bs).
Proof.
  intros Hs. unfold eat_remaining. rewrite run_bind, run_in_fixed by done. cbv zeta.
  cbn [run]. rewrite run_copy_to_sink by (cbn; lia). cbn [length]. rewrite Nat.sub_0_r, length_take, app_nil_l.
  unfold advance; cbn [bytes_read total_bytes].
  destruct (Nat.leb_spec (room s) (length bs)) as [Hle|Hgt].
  - rewrite Nat.min_l by done. replace (bytes_read s + Z.of_nat (room s)) with (total_bytes s)
      by (unfold room, fixed_ok in *; lia).
    by rewrite Z.eqb_refl.
  - rewrite Nat.min_r by lia.
    destruct (Z.eqb_spec (bytes_read s + Z.of_nat (length bs)) (total_bytes s)) as [E|E];
      [unfold room in Hgt; lia|done].
Qed.

(** *** [ReadTrackingReader] knows whether the decoder consumed anything *)

Lemma run_in_tracking {A} (m : rd A) h bs :
  run (in_tracking h m) bs =
  (let '(o, rest) := run m bs in
   (match o with
    | Ret r => Ret (Ok (r, h || (length rest <? length bs)%nat))
    | Panic w => Panic w
    | OutOfFuel => OutOfFuel
    end, rest)).
Proof.
  revert h bs. induction m as [o|n k IH|k IH]; intros h bs; cbn [in_tracking run].
  - unfold lift. destruct o as [r|w|]; try done. cbn [run]. unfold lift. by rewrite Nat.ltb_irrefl, orb_false_r.
  - unfold mbind, prog_bind. cbn [do_read Read_slice].
    destruct (run_suffix (k (Ok (take n bs))) (drop n bs)) as (i & Hi & E).
    rewrite length_drop in Hi. destruct (take n bs) as [|b tl] eqn:Et; rewrite IH.
    + assert (Ed : drop n bs = bs) by (rewrite <- (take_drop n bs) at 2; by rewrite Et). by rewrite Ed.
    + destruct (run (k (Ok (b :: tl))) (drop n bs)) as [o rest]; cbn in E |- *. f_equal.
      destruct o as [r|w|]; try done. do 3 f_equal. subst rest. cbn.
      assert (length (take n bs) = S (length tl)) as Hl by (by rewrite Et).
      rewrite length_take in Hl. rewrite !length_drop. symmetry. apply orb_true_iff. right.
      apply Nat.ltb_lt. lia.
  - apply IH.
Qed.

Lemma length_writer_vec calls : length_writer calls = Z.of_nat (length (vec_writer calls)).
Proof.
  unfold length_writer, vec_writer. rewrite <- (Z.add_0_l (Z.of_nat _)). generalize 0.
  induction calls as [|c calls IH]; intros z; cbn [foldl concat]; [cbn; lia|].
  rewrite IH, length_app. lia.
Qed.
