(* ===== verification/Ser.v ===== *)
(** * Serialisation: rust-lightning/lightning/src/util/ser.rs, byte_utils.rs

    One codec per [impl Writeable]/[impl Readable] pair: the calls of [write_all] it makes
    and the decoder.  Three type classes state what a codec promises: [RoundTrip] (what was
    written is read back, whatever follows it), [Typed] (whatever is accepted is in range)
    and [Total] (no input makes the decoder panic or loop).  Messages are composed of
    these codecs and inherit the promises. *)

From S2P Require Import Prelude Text Bytes Stream.

Local Open Scope Z_scope.

(** ** Codecs *)

Record Codec (T : Type) := mkCodec { c_write : T -> list bytes; c_read : rd T }.
Arguments mkCodec {T} _ _.
Arguments c_write {T} _ _.
Arguments c_read {T} _.

(** [Writeable::encode] and [Writeable::serialized_length]. *)
Definition encode {T} (c : Codec T) (x : T) : bytes := vec_writer (c_write c x).
#[global] Arguments encode : simpl never.
Definition serialized_length {T} (c : Codec T) (x : T) : Z := length_writer (c_write c x).

(** *** Integers *)

Definition u8c : Codec Z :=
  mkCodec (fun x : Z => [[x]]) (buf ← read_exact 1; mret (nth 0 buf 0)).

(** [impl_writeable_primitive!(u64, 8)], [(u32, 4)], [(u16, 2)]. *)
Definition uintc (len : nat) : Codec Z :=
  mkCodec (fun x => [to_be_bytes len x]) (buf ← read_exact len; mret (from_be_bytes buf)).
Definition u16c := uintc 2.
Definition u32c := uintc 4.
Definition u64c := uintc 8.

Definition boolc : Codec bool :=
  mkCodec (fun b : bool => [[if b then 1 else 0]])
    (buf ← read_exact 1;
     if negb (nth 0 buf 0 =? 0) && negb (nth 0 buf 0 =? 1) then rerr InvalidValue
     else mret (nth 0 buf 0 =? 1)).

(** [uN::leading_zeros]. *)
Definition leading_zeros (bits z : Z) : Z := if z =? 0 then bits else bits - 1 - Z.log2 z.

(** [HighZeroBytesDroppedVarInt]: the loop of reads into the second half of the buffer;
    [got] is what has been read. *)
Fixpoint read_upto (fuel len : nat) (got : bytes) : rd bytes :=
  RRead (len - length got) (fun r =>
    match r with
    | Err e => rerr (from_io e)
    | Ok bs =>
        let got := got ++ bs in
        if negb (length bs =? 0)%nat && negb (length got =? len)%nat then
          match fuel with
          | O => RRet OutOfFuel
          | S fuel' => read_upto fuel' len got
          end
        else rok got
    end).

Definition high_zero_dropped (len : nat) : Codec Z :=
  mkCodec
    (fun x => [drop (Z.to_nat (leading_zeros (8 * Z.of_nat len) x `div` 8)) (to_be_bytes len x)])
    (got ← read_upto len len [];
     let total_read_len := length got in
     let buf := replicate len 0 ++ got ++ replicate (len - total_read_len) 0 in
     if (total_read_len =? 0)%nat || negb (nth len buf 0 =? 0) then
       let first_byte := (len - (len - total_read_len))%nat in
       mret (from_be_bytes (slice first_byte (first_byte + len) buf))
     else rerr InvalidValue).

(** [BigSize]. *)
Definition BigSize : Codec Z :=
  mkCodec
    (fun x =>
       if x <=? 0xFC then c_write u8c (wrap 8 x)
       else if x <=? 0xFFFF then c_write u8c 0xFD ++ c_write u16c (wrap 16 x)
       else if x <=? 0xFFFFFFFF then c_write u8c 0xFE ++ c_write u32c (wrap 32 x)
       else c_write u8c 0xFF ++ c_write u64c x)
    (n ← c_read u8c;
     if n =? 0xFF then
       x ← c_read u64c; if x <? 0x100000000 then rerr InvalidValue else mret x
     else if n =? 0xFE then
       x ← c_read u32c; if x <? 0x10000 then rerr InvalidValue else mret x
     else if n =? 0xFD then
       x ← c_read u16c; if x <? 0xFD then rerr InvalidValue else mret x
     else mret n).

(** [be48_to_array] and [slice_to_be48]; [U48] is written with an assertion. *)
Definition be48_to_array (u : Z) : outcome bytes :=
  if Z.land u 0xffff000000000000 =? 0 then
    Ret ((fun i => Z.land (Z.shiftr u (8 * i)) 0xff) <$> [5; 4; 3; 2; 1; 0])
  else Panic "assertion failed: u & 0xffff_0000_0000_0000 == 0".
Definition slice_to_be48 (v : bytes) : Z :=
  foldl Z.lor 0 (zip_with (fun b i => Z.shiftl b (8 * i)) v [5; 4; 3; 2; 1; 0]).

Definition u48_write (u : Z) : outcome (list bytes) := v ← be48_to_array u; Ret [v].
Definition u48_read : rd Z := buf ← read_exact 6; mret (slice_to_be48 buf).

(** *** Arrays, vectors and strings *)

(** [impl_array!]. *)
Definition arrayc (n : nat) : Codec bytes := mkCodec (fun x => [x]) (read_exact n).

(** The length prefix [(self.len() as u16)], which keeps only 16 bits. *)
Definition len16 {A} (l : list A) : Z := wrap 16 (Z.of_nat (length l)).

(** [Vec<u8>]; [Script] has the same code. *)
Definition vecc : Codec bytes :=
  mkCodec (fun x => c_write u16c (len16 x) ++ [x])
    (len ← c_read u16c; read_exact (Z.to_nat len)).
Definition scriptc : Codec bytes := vecc.

Definition stringc : Codec string :=
  mkCodec (fun s => c_write u16c (len16 (bytes_of s)) ++ [bytes_of s])
    (v ← c_read vecc;
     match from_utf8 v with Some s => mret s | None => rerr InvalidValue end).

(** [for _ in 0..n { ret.push(Readable::read(r)?) }]. *)
Fixpoint read_n {T} (c : Codec T) (n : nat) : rd (list T) :=
  match n with
  | O => mret []
  | S n' => x ← c_read c; xs ← read_n c n'; mret (x :: xs)
  end.

Definition write_each {T} (c : Codec T) (l : list T) : list bytes := concat (c_write c <$> l).

(** [Vec<Signature>]. *)
Definition COMPACT_SIGNATURE_SIZE : Z := 64.
Definition MAX_BUF_SIZE : Z := 64 * 1024.

Definition sig_vecc {T} (sig : Codec T) : Codec (list T) :=
  mkCodec (fun l => c_write u16c (len16 l) ++ write_each sig l)
    (len ← c_read u16c;
     match checked 64 (len * COMPACT_SIGNATURE_SIZE) with
     | None => rerr BadLengthDescriptor
     | Some byte_size =>
         if MAX_BUF_SIZE <? byte_size then rerr BadLengthDescriptor
         else read_n sig (Z.to_nat len)
     end).

(** The blanket [impl<T: Readable> MaybeReadable for T]. *)
Definition maybe_read {T} (c : Codec T) : rd (option T) := x ← c_read c; mret (Some x).

(** [VecWriteWrapper] and [VecReadWrapper]: elements until the end of the stream; an
    element that [MaybeReadable] does not know is skipped. *)
Fixpoint read_until_end {T} (m : rd (option T)) (fuel : nat) : rd (list T) :=
  match fuel with
  | O => RRet OutOfFuel
  | S fuel' =>
      '(r, have_read) ← in_tracking false m;
      match r with
      | Ok (Some v) => vs ← read_until_end m fuel'; mret (v :: vs)
      | Ok None => read_until_end m fuel'
      | Err e => if bool_decide (e = ShortRead) && negb have_read then mret [] else rerr e
      end
  end.

Definition vec_wrapper {T} (c : Codec T) : Codec (list T) :=
  mkCodec (write_each c) (RFuel (read_until_end (maybe_read c))).

(** *** Options, tuples and the like *)

Definition optionc {T} (c : Codec T) : Codec (option T) :=
  mkCodec
    (fun o : option T =>
       match o with
       | None => c_write u8c 0
       | Some d => c_write BigSize (serialized_length c d + 1) ++ c_write c d
       end)
    (len ← c_read BigSize;
     if len =? 0 then mret None
     else '(x, _) ← in_fixed (fixed_new (len - 1)) (c_read c); mret (Some x)).

Definition pairc {A B} (a : Codec A) (b : Codec B) : Codec (A * B) :=
  mkCodec (fun x : A * B => c_write a x.1 ++ c_write b x.2)
    (x ← c_read a; y ← c_read b; mret (x, y)).

Definition triplec {A B C} (a : Codec A) (b : Codec B) (c : Codec C) : Codec (A * B * C) :=
  mkCodec (fun x : A * B * C => c_write a x.1.1 ++ c_write b x.1.2 ++ c_write c x.2)
    (x ← c_read a; y ← c_read b; z ← c_read c; mret (x, y, z)).

Definition unitc : Codec unit := mkCodec (fun _ => []) (mret tt).

(** A type with its own fallible conversion from a fixed-size array: [PublicKey],
    [SecretKey], [Signature]. *)
Definition slicec {T} (size : nat) (serialize : T -> bytes) (from_slice : bytes -> option T) : Codec T :=
  mkCodec (fun x => c_write (arrayc size) (serialize x))
    (buf ← c_read (arrayc size);
     match from_slice buf with Some k => mret k | None => rerr InvalidValue end).

(** [bitcoin::OutPoint]: the txid and a [u32]. *)
Definition outpointc : Codec (bytes * Z) := pairc (arrayc 32) u32c.

(** [Duration::new(secs, nanos)] carries whole seconds and panics when they overflow. *)
Definition duration_new (secs nanos : Z) : outcome (Z * Z) :=
  let s := secs + nanos `div` 1000000000 in
  if s <=? U64_MAX then Ret (s, nanos `mod` 1000000000) else Panic "overflow in Duration::new".

Definition durationc : Codec (Z * Z) :=
  mkCodec (fun d : Z * Z => c_write u64c d.1 ++ c_write u32c d.2)
    (secs ← c_read u64c; nanos ← c_read u32c;
     match duration_new secs nanos with
     | Ret d => mret d
     | Panic w => RRet (Panic w)
     | OutOfFuel => RRet OutOfFuel
     end).

(** *** Maps and sets *)

Section Maps.
Context {K V : Type} `{Countable K} (kc : Codec K) (vc : Codec (option V)).

(** The value's [MaybeReadable::read] gives [None] for values of a later version, which
    are skipped; a key seen twice is an error. *)
Fixpoint read_map (n : nat) (ret : gmap K V) : rd (gmap K V) :=
  match n with
  | O => mret ret
  | S n' =>
      k ← c_read kc; v_opt ← c_read vc;
      match v_opt with
      | None => read_map n' ret
      | Some v => if ret !! k then rerr InvalidValue else read_map n' (<[k := v]> ret)
      end
  end.

Definition hashmap_read : rd (gmap K V) := len ← c_read u16c; read_map (Z.to_nat len) ∅.

(** [entries] is the order in which [HashMap::iter] visits the map. *)
Definition hashmap_write (entries : list (K * V)) : list bytes :=
  c_write u16c (len16 entries) ++ concat ((fun e => c_write kc e.1 ++ c_write vc (Some e.2)) <$> entries).

Fixpoint read_set (n : nat) (ret : gset K) : rd (gset K) :=
  match n with
  | O => mret ret
  | S n' => x ← c_read kc; if decide (x ∈ ret) then rerr InvalidValue else read_set n' ({[x]} ∪ ret)
  end.

Definition hashset_read : rd (gset K) := len ← c_read u16c; read_set (Z.to_nat len) ∅.
Definition hashset_write (items : list K) : list bytes := c_write u16c (len16 items) ++ write_each kc items.
End Maps.

(** Codecs are looked up by name. *)
#[global] Typeclasses Opaque u8c uintc u16c u32c u64c boolc high_zero_dropped BigSize arrayc vecc scriptc
  stringc sig_vecc vec_wrapper optionc pairc triplec unitc slicec outpointc durationc.

(** ** What codecs promise *)

Class RoundTrip {T} (c : Codec T) (valid : T -> Prop) : Prop :=
  round_trip : forall x rest, valid x -> run (c_read c) (encode c x ++ rest) = (Ret (Ok x), rest).

Class Typed {T} (c : Codec T) (valid : T -> Prop) : Prop :=
  typed : forall bs x rest, all_u8 bs -> run (c_read c) bs = (Ret (Ok x), rest) -> valid x.

(** What the transport can deliver: bytes, fewer than 2^16 of them. *)
Definition sized (bs : bytes) : Prop := all_u8 bs /\ Z.of_nat (length bs) < 2 ^ 16.

(** A decoder returns, a value or an error, on every message. *)
Definition total {T} (m : rd T) : Prop := forall bs, sized bs -> exists r rest, run m bs = (Ret r, rest).
Class Total {T} (c : Codec T) : Prop := is_total : total (c_read c).

(** An accepted encoding is the one that is written. *)
Class Canonical {T} (c : Codec T) : Prop :=
  canonical : forall bs x rest, all_u8 bs -> run (c_read c) bs = (Ret (Ok x), rest) -> bs = encode c x ++ rest.

(** *** How the promises compose *)

Lemma encode_bytes {T} (c : Codec T) x : encode c x = concat (c_write c x).
Proof. done. Qed.

Lemma serialized_length_encode {T} (c : Codec T) x : serialized_length c x = Z.of_nat (length (encode c x)).
Proof. apply length_writer_vec. Qed.

(** One field of a composite decoder, read from its encoding. *)
Lemma run_field {T A} (c : Codec T) valid `{!RoundTrip c valid} (f : T -> rd A) x rest :
  valid x -> run (c_read c ≫= f) (concat (c_write c x) ++ rest) = run (f x) rest.
Proof. intros H. apply run_bind_Ok. by apply round_trip. Qed.

Lemma run_ret {A} (a : A) (bs : bytes) : run (mret (M := rd) a) bs = (Ret (Ok a), bs).
Proof. done. Qed.

Lemma run_bind_inv {A B} (m : rd A) (f : A -> rd B) (bs : bytes) x rest :
  run (m ≫= f) bs = (Ret (Ok x), rest) ->
  exists a bs', run m bs = (Ret (Ok a), bs') /\ run (f a) bs' = (Ret (Ok x), rest).
Proof.
  rewrite run_bind. destruct (run m bs) as [[[a|e]|w|] bs'] eqn:E; intros; simplify_eq. by exists a, bs'.
Qed.

Lemma run_u8 {A} (m : rd A) bs o rest : all_u8 bs -> run m bs = (o, rest) -> all_u8 rest.
Proof.
  intros Hu E. destruct (run_suffix m bs) as (n & _ & E2). rewrite E in E2. cbn in E2. subst. by apply Forall_drop.
Qed.

Lemma run_sized {A} (m : rd A) bs o rest : sized bs -> run m bs = (o, rest) -> sized rest.
Proof.
  intros [Hu Hl] E. split; [by eapply run_u8|].
  destruct (run_suffix m bs) as (n & _ & E2). rewrite E in E2. cbn in E2. subst. rewrite length_drop. lia.
Qed.

Lemma sized_take n bs : sized bs -> sized (take n bs).
Proof. intros [Hu Hl]. split; [by apply Forall_take|]. rewrite length_take. lia. Qed.

Lemma total_ret {A} (r : result A DecodeError) : total (RRet (Ret r)).
Proof. intros bs _. by eexists _, _. Qed.

Lemma total_bind {A B} (m : rd A) (f : A -> rd B) : total m -> (forall a, total (f a)) -> total (m ≫= f).
Proof.
  intros Hm Hf bs Hu. rewrite run_bind. destruct (Hm bs Hu) as ([a|e] & rest & E); rewrite E; [|by eexists _, _].
  apply Hf. by eapply run_sized.
Qed.

Lemma total_read_exact n : total (read_exact n).
Proof.
  intros bs _. destruct (Nat.le_gt_cases n (length bs)).
  - rewrite run_read_exact_ok by done. by eexists _, _.
  - rewrite run_read_exact_short by done. by eexists _, _.
Qed.

Lemma read_exact_inv n bs x rest :
  run (read_exact n) bs = (Ret (Ok x), rest) -> bs = x ++ rest /\ length x = n.
Proof.
  destruct (Nat.le_gt_cases n (length bs)).
  - rewrite run_read_exact_ok by done. intros [= <- <-]. rewrite take_drop, length_take. split; [done|lia].
  - by rewrite run_read_exact_short.
Qed.

Lemma run_read_exact_app x rest : run (read_exact (length x)) (x ++ rest) = (Ret (Ok x), rest).
Proof.
  rewrite run_read_exact_ok by (rewrite length_app; lia). by rewrite take_app_length, drop_app_length.
Qed.

Create HintDb total.
#[export] Hint Resolve total_ret total_bind total_read_exact : total.
#[export] Hint Extern 2 (total (c_read _)) => apply is_total : total.

(** Decoders built of binds, tests and matches are total when their parts are. *)
Ltac solve_total :=
  repeat match goal with
  | |- forall _, _ => intro
  | |- Total ?c => let c' := eval red in c in change (total (c_read c')); cbn [c_read]
  | |- total (_ ≫= _) => apply total_bind
  | |- total (mret _) => apply total_ret
  | |- total (match ?x with _ => _ end) => destruct x
  | |- total _ => solve [eauto with total typeclass_instances]
  end.
