(* ===== verification/SerLaws.v ===== *)
(** * The codecs of ser.rs keep their promises

    Instances of [RoundTrip], [Typed], [Total] and [Canonical] for the codecs of Ser.v, and
    the tactics by which composite codecs inherit them. *)

From S2P Require Import Prelude Text Bytes Stream Ser.

Local Open Scope Z_scope.

(** Unfold one level of a composite codec: its fields one after the other. *)
Ltac open_encode :=
  cbn [c_read c_write]; rewrite ?concat_app; cbn [concat]; rewrite ?List.app_nil_r, <- ?app_assoc.
Ltac open_codec :=
  lazymatch goal with
  | |- run (c_read ?c) (encode ?c ?x ++ ?rest) = ?r =>
      let c' := eval red in c in
      change (run (c_read c') (concat (c_write c' x) ++ rest) = r)
  | |- ?l = encode ?c ?x ++ ?rest =>
      let c' := eval red in c in change (l = concat (c_write c' x) ++ rest)
  end; open_encode.
Ltac open_read H :=
  lazymatch type of H with
  | run (c_read ?c) ?bs = ?r =>
      let c' := eval red in c in change (run (c_read c') bs = r) in H
  end; cbn [c_read] in H.

(** Read the next field of a composite codec from its encoding. *)
Ltac next_field := rewrite run_field by (done || eauto with codec).
Create HintDb codec.

(** Take apart a successful run of a composite decoder. *)
Ltac inv_run :=
  repeat match goal with
  | H : run (_ ≫= _) _ = (Ret (Ok _), _) |- _ =>
      let a := fresh "a" in let bs := fresh "bs" in let E := fresh "E" in
      apply run_bind_inv in H as (a & bs & E & H);
      try (assert (all_u8 bs) by (eapply run_u8; [|exact E]; done))
  | H : run (mret _) _ = _ |- _ => rewrite run_ret in H; injection H as H ?; subst
  | H : run (rerr _) _ = _ |- _ => discriminate H
  | H : run (if ?b then _ else _) _ = (Ret (Ok _), _) |- _ => destruct b eqn:?; try discriminate H
  | H : run (match ?x with _ => _ end) _ = (Ret (Ok _), _) |- _ => destruct x eqn:?; try discriminate H
  end.

Lemma run_exact {A} n (f : bytes -> rd A) x rest :
  length x = n -> run (read_exact n ≫= f) (x ++ rest) = run (f x) rest.
Proof. intros <-. apply run_bind_Ok, run_read_exact_app. Qed.

(** ** Integers *)

Global Instance u8c_total : Total u8c.
Proof. solve_total. Qed.
Global Instance uintc_total n : Total (uintc n).
Proof. solve_total. Qed.
Global Instance boolc_total : Total boolc.
Proof. solve_total. Qed.

Global Instance u8c_roundtrip : RoundTrip u8c u8.
Proof. intros x rest Hx. done. Qed.

Global Instance uintc_roundtrip n : RoundTrip (uintc n) (in_width (8 * Z.of_nat n)).
Proof.
  intros x rest Hx. open_codec. rewrite run_exact by apply length_to_be_bytes.
  rewrite run_ret, from_to_be_bytes; [done|]. by rewrite pow256_pow2.
Qed.

Global Instance boolc_roundtrip : RoundTrip boolc (fun _ => True).
Proof. by intros [] rest. Qed.

Global Instance u8c_typed : Typed u8c u8.
Proof.
  intros bs x rest Hu H. open_read H. inv_run. apply read_exact_inv in E as [-> Hl].
  destruct a as [|b [|c a]]; try done. cbn in *. by apply Forall_cons in Hu as [? _].
Qed.

Global Instance uintc_typed n : Typed (uintc n) (in_width (8 * Z.of_nat n)).
Proof.
  intros bs x rest Hu H. open_read H. inv_run. apply read_exact_inv in E as [-> Hl].
  apply Forall_app in Hu as [Hu _]. unfold in_width. rewrite <- Hl, <- pow256_pow2. by apply from_be_bytes_bound.
Qed.

Global Instance boolc_typed : Typed boolc (fun _ => True).
Proof. done. Qed.

Global Instance u8c_canonical : Canonical u8c.
Proof.
  intros bs x rest Hu H. open_read H. inv_run. apply read_exact_inv in E as [-> Hl].
  by destruct a as [|b [|c a]].
Qed.

Global Instance uintc_canonical n : Canonical (uintc n).
Proof.
  intros bs x rest Hu H. open_read H. inv_run. apply read_exact_inv in E as [-> Hl].
  apply Forall_app in Hu as [Hu _]. open_codec. rewrite <- Hl. by rewrite to_from_be_bytes.
Qed.

Global Instance boolc_canonical : Canonical boolc.
Proof.
  intros bs x rest Hu H. open_read H. inv_run. apply read_exact_inv in E as [-> Hl].
  destruct a as [|b [|c a]]; try done. open_codec. cbn in *. f_equal.
  destruct (Z.eqb_spec b 1); [done|]. destruct (Z.eqb_spec b 0); [done|]. discriminate.
Qed.

(** Widths of the byte-sized integers, for the side conditions. *)
Lemma u16_width z : u16 z -> in_width (8 * Z.of_nat 2) z.
Proof. done. Qed.
Lemma u32_width z : u32 z -> in_width (8 * Z.of_nat 4) z.
Proof. done. Qed.
Lemma u64_width z : u64 z -> in_width (8 * Z.of_nat 8) z.
Proof. done. Qed.
#[export] Hint Resolve u16_width u32_width u64_width : codec.

Global Instance u16c_roundtrip : RoundTrip u16c u16 := uintc_roundtrip 2.
Global Instance u32c_roundtrip : RoundTrip u32c u32 := uintc_roundtrip 4.
Global Instance u64c_roundtrip : RoundTrip u64c u64 := uintc_roundtrip 8.
Global Instance u16c_typed : Typed u16c u16 := uintc_typed 2.
Global Instance u32c_typed : Typed u32c u32 := uintc_typed 4.
Global Instance u64c_typed : Typed u64c u64 := uintc_typed 8.
Global Instance u16c_total : Total u16c := uintc_total 2.
Global Instance u32c_total : Total u32c := uintc_total 4.
Global Instance u64c_total : Total u64c := uintc_total 8.
Global Instance u16c_canonical : Canonical u16c := uintc_canonical 2.
Global Instance u32c_canonical : Canonical u32c := uintc_canonical 4.
Global Instance u64c_canonical : Canonical u64c := uintc_canonical 8.

(** *** BigSize *)

Global Instance bigsize_total : Total BigSize.
Proof. solve_total. Qed.

Ltac width_lia := unfold in_width in *; lia.
Ltac eval_if := match goal with
  | |- context [if ?b then _ else _] => (replace b with true by lia) || (replace b with false by lia)
  end.

Global Instance bigsize_roundtrip : RoundTrip BigSize u64.
Proof.
  intros x rest Hx. open_codec. unfold in_width in Hx.
  destruct (Z.leb_spec x 0xFC); [|destruct (Z.leb_spec x 0xFFFF); [|destruct (Z.leb_spec x 0xFFFFFFFF)]];
    rewrite ?concat_app, <- ?app_assoc, ?wrap_small by width_lia;
    rewrite (run_field u8c u8) by width_lia; repeat eval_if; cbn [Z.eqb Pos.eqb].
  - done.
  - rewrite (run_field u16c u16) by width_lia. by eval_if.
  - rewrite (run_field u32c u32) by width_lia. by eval_if.
  - rewrite (run_field u64c u64) by width_lia. by eval_if.
Qed.

Global Instance bigsize_typed : Typed BigSize u64.
Proof.
  intros bs x rest Hu H. open_read H. inv_run;
    repeat match goal with E : run (c_read ?c) _ = (Ret (Ok _), _) |- _ => apply typed in E; [|done] end;
    width_lia.
Qed.

Global Instance bigsize_canonical : Canonical BigSize.
Proof.
  intros bs x rest Hu H. open_read H. inv_run;
    repeat match goal with E : run (c_read ?c) _ = (Ret (Ok _), _) |- _ =>
      let T := fresh "T" in pose proof E as T; apply typed in T; [|done]; apply canonical in E; [|done] end; subst.
  all: open_codec; unfold in_width in *; repeat eval_if;
    rewrite ?wrap_small by width_lia; rewrite ?concat_app, <- ?app_assoc;
    first [by replace a with 255 by lia | by replace a with 254 by lia | by replace a with 253 by lia | done].
Qed.

(** *** Integers without their high zero bytes

    They extend to the end of the stream, so the round trip is of the whole input. *)

Class EndRoundTrip {T} (c : Codec T) (valid : T -> Prop) : Prop :=
  end_round_trip : forall x, valid x -> run (c_read c) (encode c x) = (Ret (Ok x), []).

Global Instance round_trip_end {T} (c : Codec T) valid : RoundTrip c valid -> EndRoundTrip c valid | 100.
Proof. intros H x Hx. specialize (H x [] Hx). by rewrite List.app_nil_r in H. Qed.

Lemma run_read_upto len bs :
  (0 < len)%nat -> run (read_upto len len []) bs = (Ret (Ok (take len bs)), drop len bs).
Proof.
  intros Hl. destruct len as [|len]; [lia|]. cbn [read_upto run length]. rewrite Nat.sub_0_r.
  unfold mbind, prog_bind. cbn [do_read Read_slice app].
  destruct (Nat.eqb_spec (length (take (S len) bs)) 0) as [E|E]; [done|].
  destruct (Nat.eqb_spec (length (take (S len) bs)) (S len)) as [E2|E2]; [done|]. cbn [negb andb].
  assert (Hd : drop (S len) bs = []) by (apply drop_ge; rewrite length_take in E2; lia).
  rewrite Hd. destruct len as [|len]; cbn [read_upto run]; unfold mbind, prog_bind; cbn [do_read Read_slice];
    rewrite take_nil, drop_nil, List.app_nil_r; cbn [length Nat.eqb negb andb run]; done.
Qed.

Lemma to_be_bytes_high k m x :
  0 <= x < 256 ^ Z.of_nat m -> to_be_bytes (k + m) x = replicate k 0 ++ to_be_bytes m x.
Proof.
  intros Hx. unfold to_be_bytes. rewrite Nat.add_comm, to_le_bytes_app, rev_app_distr, Z.div_small by done.
  f_equal. clear Hx. induction k as [|k IH]; [done|]. cbn [to_le_bytes rev]. change (0 `div` 256) with 0.
  rewrite IH. change (0 `mod` 256) with 0. by rewrite <- replicate_cons_app.
Qed.

Lemma from_be_bytes_zeros n : from_be_bytes (replicate n 0) = 0.
Proof.
  pose proof (to_be_bytes_high n 0 0 ltac:(cbn; lia)) as E. rewrite Nat.add_0_r, List.app_nil_r in E.
  rewrite <- E. apply from_to_be_bytes. lia.
Qed.

Lemma to_be_bytes_head m x :
  256 ^ Z.of_nat m <= x < 256 ^ Z.of_nat (S m) ->
  exists b tl, to_be_bytes (S m) x = b :: tl /\ b <> 0 /\ length tl = m.
Proof.
  intros Hx. unfold to_be_bytes. replace (S m) with (m + 1)%nat by lia. rewrite to_le_bytes_app, rev_app_distr.
  cbn [to_le_bytes rev app]. eexists _, _. split; [done|].
  rewrite pow256_succ in Hx. pose proof (Z.pow_pos_nonneg 256 (Z.of_nat m)).
  rewrite length_rev, length_to_le_bytes. split; [|done].
  rewrite Z.mod_small.
  - pose proof (Z.div_le_lower_bound x (256 ^ Z.of_nat m) 1). lia.
  - split; [apply Z.div_pos; lia|apply Z.div_lt_upper_bound; lia].
Qed.

(** The significant bytes of a number. *)
Lemma high_zero_split len x :
  0 < x -> in_width (8 * Z.of_nat len) x ->
  exists m, (S m <= len)%nat /\ 256 ^ Z.of_nat m <= x < 256 ^ Z.of_nat (S m) /\
    Z.to_nat (leading_zeros (8 * Z.of_nat len) x `div` 8) = (len - S m)%nat.
Proof.
  intros Hpos [_ Hx]. pose proof (Z.log2_spec x Hpos) as [Hlo Hhi].
  pose proof (Z.log2_nonneg x). pose proof (proj1 (Z.log2_lt_pow2 x (8 * Z.of_nat len) Hpos) Hx) as Hb.
  exists (Z.to_nat (Z.log2 x `div` 8)).
  pose proof (Z.div_mod (Z.log2 x) 8 ltac:(lia)). pose proof (Z.mod_pos_bound (Z.log2 x) 8 ltac:(lia)).
  split_and!; [lia| | |].
  - rewrite pow256_pow2. etrans; [|exact Hlo]. apply Z.pow_le_mono_r; lia.
  - rewrite pow256_pow2. eapply Z.lt_le_trans; [exact Hhi|]. apply Z.pow_le_mono_r; lia.
  - unfold leading_zeros. destruct (Z.eqb_spec x 0); [lia|].
    assert (E : (8 * Z.of_nat len - 1 - Z.log2 x) `div` 8 = Z.of_nat len - 1 - Z.log2 x `div` 8);
      [|rewrite E; lia].
    symmetry. apply (Z.div_unique_pos _ _ _ (7 - Z.log2 x `mod` 8)); lia.
Qed.

Global Instance high_zero_roundtrip len :
  EndRoundTrip (high_zero_dropped len) (fun x => (0 < len)%nat /\ in_width (8 * Z.of_nat len) x).
Proof.
  intros x [Hl Hx]. unfold encode, vec_writer, high_zero_dropped. cbn [c_read c_write concat].
  rewrite List.app_nil_r, run_bind, run_read_upto by done.
  destruct (Z.eq_dec x 0) as [->|Hne].
  - assert (E : Z.to_nat (leading_zeros (8 * Z.of_nat len) 0 `div` 8) = len).
    { unfold leading_zeros. cbn [Z.eqb]. rewrite Z.mul_comm, Z.div_mul by lia. lia. }
    rewrite E, (drop_ge (to_be_bytes len 0)) by (rewrite length_to_be_bytes; lia).
    rewrite take_nil, drop_nil. cbn [length Nat.eqb orb]. rewrite Nat.sub_0_r, Nat.sub_diag. cbn [app Nat.add].
    rewrite run_ret. unfold slice. rewrite drop_0, Nat.sub_0_r, take_app_length' by (by rewrite length_replicate).
    by rewrite from_be_bytes_zeros.
  - destruct (high_zero_split len x) as (m & Hm & Hr & E); [destruct Hx; lia|done|]. rewrite E.
    assert (Hx0 : 0 <= x) by (destruct Hx; lia).
    assert (Ed : drop (len - S m) (to_be_bytes len x) = to_be_bytes (S m) x).
    { replace (to_be_bytes len x) with (to_be_bytes (len - S m + S m) x) by (f_equal; lia).
      rewrite to_be_bytes_high by lia. by rewrite drop_app_length' by (by rewrite length_replicate). }
    rewrite Ed.
    destruct (to_be_bytes_head m x Hr) as (b & tl & Eb & Hb & Htl).
    assert (Lb : length (to_be_bytes (S m) x) = S m) by apply length_to_be_bytes.
    rewrite take_ge, drop_ge by lia. rewrite Lb.
    replace (nth len _ 0) with b.
    2: { rewrite app_nth2; rewrite length_replicate; [|lia]. by rewrite Nat.sub_diag, Eb. }
    replace (_ =? 0)%nat with false by (symmetry; apply Nat.eqb_neq; lia).
    replace (b =? 0) with false by (symmetry; by apply Z.eqb_neq). cbn [orb negb].
    rewrite run_ret. do 3 f_equal. unfold slice.
    replace (len - (len - S m))%nat with (S m) by lia. rewrite Nat.add_comm, Nat.add_sub.
    rewrite drop_app_le by (rewrite length_replicate; lia). rewrite drop_replicate.
    rewrite app_assoc, take_app_length' by (rewrite length_app, length_replicate, Lb; lia).
    rewrite <- (to_be_bytes_high (len - S m) (S m)) by lia. replace (len - S m + S m)%nat with len by lia.
    apply from_to_be_bytes. by rewrite pow256_pow2.
Qed.

Lemma total_read_upto len : (0 < len)%nat -> total (read_upto len len []).
Proof. intros Hl bs _. rewrite run_read_upto by done. by eexists _, _. Qed.
#[export] Hint Resolve total_read_upto : total.

Global Instance high_zero_total len : (0 < len)%nat -> Total (high_zero_dropped len).
Proof. intros Hl. solve_total. Qed.

Lemma zeros_u8 n : all_u8 (replicate n 0).
Proof. apply Forall_replicate. by vm_compute. Qed.

Global Instance high_zero_typed len : Typed (high_zero_dropped len) (in_width (8 * Z.of_nat len)).
Proof.
  intros bs x rest Hu H. open_read H. apply run_bind_inv in H as (got & bs' & E & H).
  destruct len as [|len].
  { destruct (_ || _); [|done]. rewrite run_ret in H. simplify_eq. by vm_compute. }
  rewrite run_read_upto in E by lia. injection E as <- <-. destruct (_ || _); [|done].
  rewrite run_ret in H. injection H as <- _. set (g := take (S len) bs).
  assert (Hg : all_u8 g /\ (length g <= S len)%nat)
    by (split; [by apply Forall_take|unfold g; rewrite length_take; lia]). destruct Hg as [Hg Lg].
  pose proof (from_be_bytes_bound (slice (S len - (S len - length g)) (S len - (S len - length g) + S len)
    (replicate (S len) 0 ++ g ++ replicate (S len - length g) 0))) as B.
  rewrite length_slice in B by (rewrite !length_app, !length_replicate; lia).
  replace (_ + S len - _)%nat with (S len) in B by lia.
  unfold in_width. rewrite <- pow256_pow2. apply B. apply Forall_slice. rewrite !Forall_app. auto using zeros_u8.
Qed.

(** *** U48 *)

Lemma slice_to_be48_spec u :
  in_width 48 u -> slice_to_be48 ((fun i => Z.land (Z.shiftr u (8 * i)) 0xff) <$> [5; 4; 3; 2; 1; 0]) = u.
Proof.
  intros Hu. unfold slice_to_be48. cbn [fmap list_fmap zip_with foldl].
  change 0xff with (Z.ones 8). apply Z.bits_inj'. intros i Hi.
  split_index i [8; 16; 24; 32; 40; 48]; try lia; bits_step.
Qed.

Lemma land_high48 u : u64 u -> (Z.land u 0xffff000000000000 =? 0) = (u <? 2 ^ 48).
Proof.
  intros Hu. assert (E : Z.land u 0xffff000000000000 = Z.shiftl (u `div` 2 ^ 48) 48).
  { change 0xffff000000000000 with (Z.shiftl (Z.ones 16) 48). rewrite <- Z.shiftr_div_pow2 by lia.
    apply Z.bits_inj'. intros i Hi. split_index i [48; 64]; try lia; bits_step.
    by rewrite !(Z.testbit_neg_r _ (i - 48)), andb_false_r by lia. }
  rewrite E, Z.shiftl_mul_pow2 by lia. destruct Hu. destruct (Z.ltb_spec u (2 ^ 48)).
  - rewrite Z.div_small by lia. done.
  - apply Z.eqb_neq. pose proof (Z.div_le_lower_bound u (2 ^ 48) 1 ltac:(lia) ltac:(lia)). lia.
Qed.

(** A 48-bit number is read back; a larger one is refused by the writer's assertion. *)
Theorem u48_roundtrip (u : Z) (rest : bytes) :
  u64 u ->
  (2 ^ 48 <= u -> u48_write u = Panic "assertion failed: u & 0xffff_0000_0000_0000 == 0") /\
  (u < 2 ^ 48 -> exists calls, u48_write u = Ret calls /\ run u48_read (vec_writer calls ++ rest) = (Ret (Ok u), rest)).
Proof.
  intros Hu. unfold u48_write, be48_to_array. rewrite land_high48 by done. split.
  - intros Hge. by replace (u <? 2 ^ 48) with false by lia.
  - intros Hlt. replace (u <? 2 ^ 48) with true by lia. eexists. split; [done|].
    unfold vec_writer. cbn [concat]. rewrite List.app_nil_r. unfold u48_read.
    rewrite run_exact by done. rewrite run_ret, slice_to_be48_spec; [done|]. destruct Hu. split; lia.
Qed.

(** ** Arrays, vectors and strings *)

Definition array_ok (n : nat) (x : bytes) : Prop := length x = n /\ all_u8 x.

Global Instance arrayc_total n : Total (arrayc n).
Proof. solve_total. Qed.
Global Instance arrayc_roundtrip n : RoundTrip (arrayc n) (array_ok n).
Proof. intros x rest [<- _]. open_codec. apply run_read_exact_app. Qed.
Lemma run_array {A} n (f : bytes -> rd A) x rest :
  array_ok n x -> run (c_read (arrayc n) ≫= f) (x ++ rest) = run (f x) rest.
Proof. intros [Hl _]. by apply run_exact. Qed.
Global Instance arrayc_typed n : Typed (arrayc n) (array_ok n).
Proof.
  intros bs x rest Hu H. open_read H. apply read_exact_inv in H as [-> Hl].
  apply Forall_app in Hu as [? _]. by split.
Qed.
Global Instance arrayc_canonical n : Canonical (arrayc n).
Proof. intros bs x rest Hu H. open_read H. apply read_exact_inv in H as [-> Hl]. by open_codec. Qed.

Definition len_ok {A} (l : list A) : Prop := Z.of_nat (length l) < 2 ^ 16.
Definition vec_ok (x : bytes) : Prop := len_ok x /\ all_u8 x.

Lemma len16_small {A} (l : list A) : len_ok l -> len16 l = Z.of_nat (length l) /\ u16 (len16 l).
Proof. intros H. unfold len_ok, len16 in *. rewrite wrap_small by width_lia. split; [done|width_lia]. Qed.

Lemma u16_len_ok {A} (l : list A) z : u16 z -> length l = Z.to_nat z -> len_ok l.
Proof. unfold len_ok. intros [] ->. lia. Qed.

Global Instance vecc_total : Total vecc.
Proof. solve_total. Qed.
Global Instance vecc_roundtrip : RoundTrip vecc vec_ok.
Proof.
  intros x rest [Hl Hu]. destruct (len16_small x Hl) as [E W]. open_codec.
  rewrite (run_field u16c u16) by done. rewrite E, Nat2Z.id. apply run_read_exact_app.
Qed.
Global Instance vecc_typed : Typed vecc vec_ok.
Proof.
  intros bs x rest Hu H. open_read H. inv_run. apply read_exact_inv in H as [-> Hl].
  apply typed in E; [|done]. apply Forall_app in H0 as [? _]. split; [by eapply u16_len_ok|done].
Qed.
Global Instance vecc_canonical : Canonical vecc.
Proof.
  intros bs x rest Hu H. open_read H. inv_run. apply read_exact_inv in H as [-> Hl].
  pose proof E as T. apply typed in T; [|done]. apply canonical in E; [|done]. subst bs. open_codec.
  destruct (len16_small x (u16_len_ok _ _ T Hl)) as [-> _]. rewrite Hl, Z2Nat.id by (destruct T; lia). done.
Qed.

Global Instance scriptc_total : Total scriptc := vecc_total.
Global Instance scriptc_roundtrip : RoundTrip scriptc vec_ok := vecc_roundtrip.
Global Instance scriptc_typed : Typed scriptc vec_ok := vecc_typed.

Definition string_ok (s : string) : Prop :=
  len_ok (bytes_of s) /\ valid_utf8 (bytes_of s) = true.

Global Instance stringc_total : Total stringc.
Proof. solve_total. Qed.

Lemma bytes_of_u8 s : all_u8 (bytes_of s).
Proof. unfold bytes_of. apply Forall_fmap_iff, Forall_forall. intros a _. apply byte_of_u8. Qed.

Lemma bytes_of_string_of bs : all_u8 bs -> bytes_of (string_of_bytes bs) = bs.
Proof.
  intros H. unfold string_of_bytes, bytes_of. rewrite list_ascii_of_string_of_list_ascii, <- list_fmap_compose.
  induction H as [|b bs Hb _ IH]; [done|]. cbn. by rewrite byte_of_ascii_of, IH.
Qed.

Global Instance stringc_roundtrip : RoundTrip stringc string_ok.
Proof.
  intros s rest [Hl Hv]. open_codec. rewrite app_assoc.
  assert (E : concat (c_write vecc (bytes_of s)) = concat (c_write u16c (len16 (bytes_of s))) ++ bytes_of s)
    by (cbn; by rewrite List.app_nil_r).
  rewrite <- E, (run_field vecc vec_ok) by (split; [done|apply bytes_of_u8]).
  unfold from_utf8. rewrite Hv. by rewrite string_of_bytes_of.
Qed.
Global Instance stringc_typed : Typed stringc string_ok.
Proof.
  intros bs s rest Hu H. open_read H. inv_run. apply typed in E as [Hl Hb]; [|done].
  unfold from_utf8 in Heqo. destruct (valid_utf8 a) eqn:Ev; simplify_eq.
  unfold string_ok. by rewrite bytes_of_string_of.
Qed.

(** ** Options, tuples and the like *)

Definition opt_ok {T} (c : Codec T) (valid : T -> Prop) (o : option T) : Prop :=
  match o with Some x => valid x /\ serialized_length c x + 1 < 2 ^ 64 | None => True end.

Lemma fixed_new_ok n : 0 <= n -> fixed_ok (fixed_new n).
Proof. unfold fixed_ok, fixed_new. cbn. lia. Qed.

(** A value alone in a [FixedLengthReader] of its own length. *)
Lemma run_in_fixed_whole {T} (c : Codec T) valid `{!EndRoundTrip c valid} x rest :
  valid x ->
  run (in_fixed (fixed_new (serialized_length c x)) (c_read c)) (encode c x ++ rest) =
  (Ret (Ok (x, mkFixed (serialized_length c x) (serialized_length c x))), rest).
Proof.
  intros Hv. rewrite serialized_length_encode. rewrite run_in_fixed by (apply fixed_new_ok; lia).
  assert (R : room (fixed_new (Z.of_nat (length (encode c x)))) = length (encode c x))
    by (unfold room, fixed_new; cbn; lia).
  rewrite R. cbv zeta. rewrite take_app_length, drop_app_length, end_round_trip by done. cbn [length app].
  unfold advance, fixed_new. cbn. by rewrite Nat.sub_0_r.
Qed.

Global Instance optionc_roundtrip {T} (c : Codec T) valid :
  EndRoundTrip c valid -> RoundTrip (optionc c) (opt_ok c valid).
Proof.
  intros Hc [x|] rest Hv; open_codec; [|done]. destruct Hv as [Hv Hl].
  assert (Hn : 0 <= serialized_length c x) by (rewrite serialized_length_encode; lia).
  rewrite ?concat_app, <- ?app_assoc, (run_field BigSize u64) by width_lia.
  replace (_ =? 0) with false by lia. rewrite Z.add_simpl_r.
  rewrite (run_bind_Ok _ _ _ _ _ (run_in_fixed_whole c valid x rest Hv)). done.
Qed.

Lemma total_in_fixed {A} (m : rd A) s : fixed_ok s -> total m -> total (in_fixed s m).
Proof.
  intros Hs Hm bs Hu. rewrite run_in_fixed by done. cbv zeta.
  destruct (Hm (take (room s) bs)) as ([a|e] & rest & ->); [by apply sized_take|by eexists _, _..].
Qed.

(** The decoder after a field may rely on the field's range. *)
Lemma total_bind_typed {A B} (c : Codec A) valid `{!Total c, !Typed c valid} (f : A -> rd B) :
  (forall a, valid a -> total (f a)) -> total (c_read c ≫= f).
Proof.
  intros Hf bs Hu. rewrite run_bind. destruct (is_total bs Hu) as ([a|e] & rest & E); rewrite E; [|by eexists _, _].
  apply Hf; [by eapply typed; [apply Hu|]|by eapply run_sized].
Qed.

Global Instance optionc_total {T} (c : Codec T) : Total c -> Total (optionc c).
Proof.
  intros Hc. change (total (c_read (optionc c))). cbn [c_read optionc]. apply (total_bind_typed BigSize u64). intros len Hl.
  destruct (Z.eqb_spec len 0); [solve_total|]. apply total_bind; [|solve_total].
  apply total_in_fixed; [apply fixed_new_ok; width_lia|done].
Qed.

Global Instance pairc_total {A B} (a : Codec A) (b : Codec B) : Total a -> Total b -> Total (pairc a b).
Proof. intros. solve_total. Qed.
Global Instance pairc_roundtrip {A B} (a : Codec A) (b : Codec B) va vb :
  RoundTrip a va -> RoundTrip b vb -> RoundTrip (pairc a b) (fun x => va x.1 /\ vb x.2).
Proof.
  intros Ha Hb [x y] rest [Hx Hy]. open_codec. rewrite (run_field a va), (run_field b vb) by done. done.
Qed.
Global Instance pairc_typed {A B} (a : Codec A) (b : Codec B) va vb :
  Typed a va -> Typed b vb -> Typed (pairc a b) (fun x => va x.1 /\ vb x.2).
Proof.
  intros Ha Hb bs x rest Hu H. open_read H. inv_run. apply Ha in E; [|done]. apply Hb in E0; [|done]. done.
Qed.
Global Instance triplec_total {A B C} (a : Codec A) (b : Codec B) (c : Codec C) :
  Total a -> Total b -> Total c -> Total (triplec a b c).
Proof. intros. solve_total. Qed.
Global Instance triplec_roundtrip {A B C} (a : Codec A) (b : Codec B) (c : Codec C) va vb vc :
  RoundTrip a va -> RoundTrip b vb -> RoundTrip c vc ->
  RoundTrip (triplec a b c) (fun x => va x.1.1 /\ vb x.1.2 /\ vc x.2).
Proof.
  intros Ha Hb Hc [[x y] z] rest (Hx & Hy & Hz). open_codec.
  rewrite (run_field a va), (run_field b vb), (run_field c vc) by done. done.
Qed.
Global Instance unitc_total : Total unitc.
Proof. solve_total. Qed.
Global Instance unitc_roundtrip : RoundTrip unitc (fun _ => True).
Proof. by intros [] rest _. Qed.

Global Instance slicec_total {T} n (ser : T -> bytes) de : Total (slicec n ser de).
Proof. solve_total. Qed.
Lemma slicec_roundtrip {T} n (ser : T -> bytes) de :
  RoundTrip (slicec n ser de) (fun x => array_ok n (ser x) /\ de (ser x) = Some x).
Proof.
  intros x rest [Ha Hd]. open_codec. rewrite (run_field (arrayc n) (array_ok n)) by done. by rewrite Hd.
Qed.

(** Lists of a given length. *)
Lemma run_read_n {T} (c : Codec T) valid `{!RoundTrip c valid} l rest :
  Forall valid l -> run (read_n c (length l)) (concat (write_each c l) ++ rest) = (Ret (Ok l), rest).
Proof.
  unfold write_each. induction 1 as [|x l Hx _ IH]; [done|]. cbn [fmap list_fmap concat length read_n].
  rewrite concat_app, <- app_assoc, (run_field c valid) by done.
  by rewrite (run_bind_Ok _ _ _ _ _ IH).
Qed.

Lemma total_read_n {T} (c : Codec T) n : Total c -> total (read_n c n).
Proof. intros Hc. induction n as [|n IH]; cbn [read_n]; solve_total. Qed.
#[export] Hint Resolve total_read_n : total.

Lemma read_n_typed {T} (c : Codec T) valid `{!Typed c valid} n bs l rest :
  all_u8 bs -> run (read_n c n) bs = (Ret (Ok l), rest) -> Forall valid l /\ length l = n.
Proof.
  revert bs l. induction n as [|n IH]; intros bs l Hu H; cbn [read_n] in H; inv_run; [done|].
  apply typed in E; [|done]. apply IH in E0 as [? ?]; [|done]. cbn. auto.
Qed.

Definition sig_vec_ok {T} (valid : T -> Prop) (l : list T) : Prop :=
  Forall valid l /\ Z.of_nat (length l) * COMPACT_SIGNATURE_SIZE <= MAX_BUF_SIZE.

Global Instance sig_vecc_total {T} (c : Codec T) : Total c -> Total (sig_vecc c).
Proof. intros. solve_total. Qed.
Global Instance sig_vecc_roundtrip {T} (c : Codec T) valid :
  RoundTrip c valid -> RoundTrip (sig_vecc c) (sig_vec_ok valid).
Proof.
  intros Hc l rest [Hl Hn]. unfold COMPACT_SIGNATURE_SIZE, MAX_BUF_SIZE in Hn.
  destruct (len16_small l) as [E W]; [unfold len_ok; lia|]. open_codec.
  rewrite (run_field u16c u16) by done. rewrite E. unfold checked, COMPACT_SIGNATURE_SIZE, MAX_BUF_SIZE.
  replace (_ && _) with true by lia. replace (_ <? _) with false by lia.
  rewrite Nat2Z.id. by apply (run_read_n c valid).
Qed.
Global Instance sig_vecc_typed {T} (c : Codec T) valid :
  Typed c valid -> Typed (sig_vecc c) (sig_vec_ok valid).
Proof.
  intros Hc bs l rest Hu H. open_read H. inv_run. apply typed in E; [|done].
  unfold checked in Heqo. destruct (_ && _) eqn:Eb; simplify_eq.
  apply (read_n_typed c valid) in H as [? Hl]; [|done]. split; [done|]. rewrite Hl. destruct E. lia.
Qed.

(** ** Elements until the end of the stream

    The loop ends because every element has at least one byte. *)

Definition nonempty {T} (c : Codec T) (valid : T -> Prop) : Prop :=
  forall x, valid x -> encode c x <> [].

Lemma run_maybe_read {T} (c : Codec T) valid `{!RoundTrip c valid} x rest :
  valid x -> run (maybe_read c) (encode c x ++ rest) = (Ret (Ok (Some x)), rest).
Proof. intros Hx. unfold maybe_read. rewrite (run_bind_Ok _ _ _ _ _ (round_trip x rest Hx)). done. Qed.

Lemma run_read_until_end {T} (c : Codec T) valid `{!RoundTrip c valid} l fuel :
  (forall bs, bs = [] -> run (c_read c) bs = (Ret (Err ShortRead), [])) ->
  Forall valid l -> (length l < fuel)%nat ->
  run (read_until_end (maybe_read c) fuel) (concat (write_each c l)) = (Ret (Ok l), []).
Proof.
  intros Hend Hl. revert fuel. unfold write_each.
  induction Hl as [|x l Hx _ IH]; intros fuel Hf; (destruct fuel as [|fuel]; [cbn in Hf; lia|]);
    cbn [fmap list_fmap concat read_until_end].
  - assert (E : run (in_tracking false (maybe_read c)) [] = (Ret (Ok (Err ShortRead, false)), [])).
    { rewrite run_in_tracking. unfold maybe_read. rewrite run_bind, Hend by done. done. }
    rewrite (run_bind_Ok _ _ _ _ _ E). done.
  - rewrite concat_app.
    assert (E : exists h, run (in_tracking false (maybe_read c)) (concat (c_write c x) ++ concat (concat (c_write c <$> l)))
                = (Ret (Ok (Ok (Some x), h)), concat (concat (c_write c <$> l)))).
    { rewrite run_in_tracking. unfold maybe_read.
      rewrite (run_field c valid) by done. by eexists. }
    destruct E as [h E]. rewrite (run_bind_Ok _ _ _ _ _ E).
    rewrite (run_bind_Ok _ _ _ _ _ (IH fuel ltac:(cbn in Hf; lia))). done.
Qed.

Lemma length_concat_nonempty (ls : list bytes) : Forall (fun b => b <> []) ls -> (length ls <= length (concat ls))%nat.
Proof.
  induction 1 as [|b ls Hb _ IH]; [done|]. cbn. rewrite length_app. destruct b; [done|cbn; lia].
Qed.

Global Instance vec_wrapper_roundtrip {T} (c : Codec T) valid :
  RoundTrip c valid -> (run (c_read c) [] = (Ret (Err ShortRead), [])) -> nonempty c valid ->
  EndRoundTrip (vec_wrapper c) (Forall valid).
Proof.
  intros Hc Hend Hne l Hl. unfold encode, vec_writer, vec_wrapper. cbn [c_read c_write run].
  apply (run_read_until_end c valid); [by intros ? ->|done|]. cbn [left Read_slice].
  assert (E : concat (write_each c l) = concat (encode c <$> l)).
  { unfold write_each. induction l as [|x l IH]; [done|]. cbn. rewrite concat_app. unfold encode, vec_writer. f_equal.
    apply IH. by inversion Hl. }
  rewrite E. apply Nat.lt_succ_r. rewrite <- (length_fmap (encode c) l). apply length_concat_nonempty.
  apply Forall_fmap_iff. eapply Forall_impl; [exact Hl|]. apply Hne.
Qed.
