(* ===== verification/Aead.v ===== *)
(** * ChaCha20Poly1305: rust-lightning/lightning/src/util/chacha20poly1305rfc.rs

    The authenticated cipher over ChaCha20.v and Poly1305.v, one-shot and streaming, and the
    adapters that encrypt a value while it is written and decrypt it while it is read.  The
    specification is that of RFC 8439: the tag authenticates the padded additional data, the
    padded ciphertext and their lengths under the first key-stream block. *)

From S2P Require Import Prelude Bytes ChaCha20 Poly1305 Poly1305Spec Stream Ser SerLaws.

Local Open Scope Z_scope.

(** [bitcoin_hashes::cmp::fixed_time_eq], which asserts that the lengths agree. *)
Class FixedTimeEq := { fixed_time_eq : bytes -> bytes -> outcome bool }.
Class FixedTimeEqLaws `{FixedTimeEq} :=
  fixed_time_eq_spec a b : length a = length b -> fixed_time_eq a b = Ret (bool_decide (a = b)).

(** ** The cipher *)

Record ChaCha20Poly1305RFC := mkAead {
  a_cipher : ChaCha20.ChaCha20;
  a_mac : Poly1305.Poly1305;
  a_finished : bool;
  a_data_len : Z;
  a_aad_len : Z;
}.

Definition pad_mac_16 (mac : Poly1305.Poly1305) (len : Z) : outcome Poly1305.Poly1305 :=
  if negb (len `mod` 16 =? 0) then Poly1305.input mac (replicate (16 - Z.to_nat (len `mod` 16)) 0) else Ret mac.

Definition new (key nonce aad : bytes) : outcome ChaCha20Poly1305RFC :=
  if negb ((length key =? 16)%nat || (length key =? 32)%nat) then
    Panic "assertion failed: key.len() == 16 || key.len() == 32"
  else if negb (length nonce =? 12)%nat then Panic "assertion failed: nonce.len() == 12"
  else if negb (forallb (Z.eqb 0) (take 4 nonce)) then Panic "assertion failed: nonce[0] == 0 && ..."
  else
    cipher ← ChaCha20.new key (drop 4 nonce);
    '(mac_key, cipher) ← ChaCha20.process cipher (replicate 64 0) 64;
    mac ← Poly1305.new (take 32 mac_key);
    mac ← Poly1305.input mac aad;
    mac ← pad_mac_16 mac (Z.of_nat (length aad));
    Ret (mkAead cipher mac false 0 (Z.of_nat (length aad))).

(** The end of the authenticated data: padding and the two lengths, then the tag. *)
Definition mac_tail (mac : Poly1305.Poly1305) (data_len aad_len : Z) : outcome (bytes * Poly1305.Poly1305) :=
  mac ← pad_mac_16 mac data_len;
  mac ← Poly1305.input mac (to_le_bytes 8 aad_len);
  mac ← Poly1305.input mac (to_le_bytes 8 data_len);
  Poly1305.raw_result mac.

(** [encrypt]: the output, the tag, and the cipher afterwards. *)
Definition encrypt (s : ChaCha20Poly1305RFC) (input : bytes) (output_len out_tag_len : nat) :
    outcome (bytes * bytes * ChaCha20Poly1305RFC) :=
  if negb (length input =? output_len)%nat then Panic "assertion failed: input.len() == output.len()"
  else if a_finished s then Panic "assertion failed: self.finished == false"
  else
    '(output, cipher) ← ChaCha20.process (a_cipher s) input output_len;
    data_len ← add64 (a_data_len s) (Z.of_nat (length input));
    mac ← Poly1305.input (a_mac s) output;
    '(tag, mac) ← mac_tail mac data_len (a_aad_len s);
    if (out_tag_len <? 16)%nat then Panic "range end index 16 out of range for slice"
    else Ret (output, tag, mkAead cipher mac true data_len (a_aad_len s)).

Definition encrypt_in_place (s : ChaCha20Poly1305RFC) (input_output : bytes) : outcome (bytes * ChaCha20Poly1305RFC) :=
  if a_finished s then Panic "assertion failed: self.finished == false"
  else
    '(output, cipher) ← ChaCha20.process_in_place (a_cipher s) input_output;
    data_len ← add64 (a_data_len s) (Z.of_nat (length input_output));
    mac ← Poly1305.input (a_mac s) output;
    Ret (output, mkAead cipher mac false data_len (a_aad_len s)).

Definition finish_and_get_tag (s : ChaCha20Poly1305RFC) : outcome (bytes * ChaCha20Poly1305RFC) :=
  if a_finished s then Panic "assertion failed: self.finished == false"
  else
    '(tag, mac) ← mac_tail (a_mac s) (a_data_len s) (a_aad_len s);
    Ret (tag, mkAead (a_cipher s) mac true (a_data_len s) (a_aad_len s)).

Section Cipher.
Context `{FixedTimeEq}.

(** [decrypt]: the output, when the tag is right; otherwise the buffer is left alone. *)
Definition decrypt (s : ChaCha20Poly1305RFC) (input : bytes) (output_len : nat) (tag : bytes) :
    outcome (option bytes * ChaCha20Poly1305RFC) :=
  if negb (length input =? output_len)%nat then Panic "assertion failed: input.len() == output.len()"
  else if a_finished s then Panic "assertion failed: self.finished == false"
  else
    mac ← Poly1305.input (a_mac s) input;
    data_len ← add64 (a_data_len s) (Z.of_nat (length input));
    '(calc_tag, mac) ← mac_tail mac data_len (a_aad_len s);
    eq ← fixed_time_eq calc_tag tag;
    if (eq : bool) then
      '(output, cipher) ← ChaCha20.process (a_cipher s) input output_len;
      Ret (Some output, mkAead cipher mac true data_len (a_aad_len s))
    else Ret (None, mkAead (a_cipher s) mac true data_len (a_aad_len s)).

Definition decrypt_in_place (s : ChaCha20Poly1305RFC) (input_output : bytes) : outcome (bytes * ChaCha20Poly1305RFC) :=
  if a_finished s then Panic "assertion failed: self.finished == false"
  else
    mac ← Poly1305.input (a_mac s) input_output;
    data_len ← add64 (a_data_len s) (Z.of_nat (length input_output));
    '(output, cipher) ← ChaCha20.process_in_place (a_cipher s) input_output;
    Ret (output, mkAead cipher mac false data_len (a_aad_len s)).

Definition finish_and_check_tag (s : ChaCha20Poly1305RFC) (tag : bytes) : outcome (bool * ChaCha20Poly1305RFC) :=
  if a_finished s then Panic "assertion failed: self.finished == false"
  else
    '(calc_tag, mac) ← mac_tail (a_mac s) (a_data_len s) (a_aad_len s);
    eq ← fixed_time_eq calc_tag tag;
    Ret (eq : bool, mkAead (a_cipher s) mac true (a_data_len s) (a_aad_len s)).

(** ** The adapters *)

(** [ChaChaPolyReader]: the calls a decoder makes, as calls on the reader inside whose
    bytes are decrypted. *)
Fixpoint in_chacha_poly {A} (s : ChaCha20Poly1305RFC) (m : rd A) : rd (A * ChaCha20Poly1305RFC) :=
  match m with
  | RRet (Ret (Ok a)) => rok (a, s)
  | RRet (Ret (Err e)) => rerr e
  | RRet (Panic w) => RRet (Panic w)
  | RRet OutOfFuel => RRet OutOfFuel
  | RRead n k =>
      RRead n (fun r =>
        match r with
        | Ok (b :: bs) =>
            match decrypt_in_place s (b :: bs) with
            | Ret (dest, s') => in_chacha_poly s' (k (Ok dest))
            | Panic w => RRet (Panic w)
            | OutOfFuel => RRet OutOfFuel
            end
        | r => in_chacha_poly s (k r)
        end)
  | RFuel k => RFuel (fun f => in_chacha_poly s (k f))
  end.

(** [ChaChaPolyWriter::write_all]: the calls of [write_all] on the writer inside, at most
    8192 bytes each. *)
Fixpoint poly_write_all (fuel : nat) (s : ChaCha20Poly1305RFC) (src : bytes) :
    outcome (list bytes * ChaCha20Poly1305RFC) :=
  match src with
  | [] => Ret ([], s)
  | _ :: _ =>
      match fuel with
      | O => OutOfFuel
      | S fuel' =>
          '(out, s) ← encrypt_in_place s (take (Z.to_nat 8192) src);
          '(outs, s) ← poly_write_all fuel' s (drop (Z.to_nat 8192) src);
          Ret (out :: outs, s)
      end
  end.

Fixpoint poly_write_calls (s : ChaCha20Poly1305RFC) (calls : list bytes) :
    outcome (list bytes * ChaCha20Poly1305RFC) :=
  match calls with
  | [] => Ret ([], s)
  | src :: calls' =>
      '(outs, s) ← poly_write_all (length src) s src;
      '(outs', s) ← poly_write_calls s calls';
      Ret (outs ++ outs', s)
  end.

(** [ChaChaPolyWriteAdapter::write]. *)
Definition write_adapter {T} (c : Codec T) (rho : bytes) (writeable : T) : outcome (list bytes) :=
  chacha ← new rho (replicate 12 0) [];
  '(outs, chacha) ← poly_write_calls chacha (c_write c writeable);
  '(tag, _) ← finish_and_get_tag chacha;
  Ret (outs ++ [tag]).

Definition lift_outcome {A} (o : outcome A) : rd A :=
  match o with Ret a => mret a | Panic w => RRet (Panic w) | OutOfFuel => RRet OutOfFuel end.

(** [ChaChaPolyReadAdapter::read] from a reader of [total_bytes]. *)
Definition read_adapter {T} (c : Codec T) (total_bytes : Z) (secret : bytes) : rd T :=
  if total_bytes <? 16 then rerr InvalidValue
  else
    chacha ← lift_outcome (new secret (replicate 12 0) []);
    let decrypted_len := total_bytes - 16 in
    '(readable, chacha, s) ← in_fixed (fixed_new decrypted_len) (in_chacha_poly chacha (c_read c));
    _ ← eat_remaining s;
    tag ← read_exact 16;
    '(ok, _) ← lift_outcome (finish_and_check_tag chacha tag);
    if negb (ok : bool) then rerr InvalidValue else mret readable.
End Cipher.

(** ** RFC 8439, section 2.8 *)

Definition pad16 (b : bytes) : bytes := b ++ replicate (Z.to_nat ((- Z.of_nat (length b)) `mod` 16)) 0.
Definition mac_data (aad ct : bytes) : bytes :=
  pad16 aad ++ pad16 ct ++ to_le_bytes 8 (Z.of_nat (length aad)) ++ to_le_bytes 8 (Z.of_nat (length ct)).

(** The one-time key is the first half of the first key-stream block; the message uses the
    blocks after it. *)
Definition one_time_key (key nonce : bytes) : outcome (bytes * ChaCha20.ChaCha20) :=
  c ← ChaCha20.new key (drop 4 nonce);
  '(k, c) ← ChaCha20.process_in_place c (replicate 64 0);
  Ret (take 32 k, c).

(** Key-stream bytes after the first block. *)
Definition MAX_DATA : Z := 64 * (2 ^ 32 - 2).

(** ** Lemmas on the cipher *)

Definition cipher_ok (c : ChaCha20.ChaCha20) : Prop :=
  buffer_ok c /\ u32 (w0 (row_d (cc_state c))) /\ all_u8 (cc_output c).

Lemma state_to_buffer_u8 s : all_u8 (state_to_buffer s).
Proof.
  unfold state_to_buffer. generalize (state_words s). intros l. induction l as [|x l IH]; [constructor|].
  cbn [fmap list_fmap concat]. apply Forall_app. split; [apply to_le_bytes_u8|done].
Qed.

Lemma step_byte_ok c x y c' :
  cipher_ok c -> step_byte c x = Ret (y, c') ->
  all_u8 (cc_output c') /\ u32 (w0 (row_d (cc_state c'))) /\ (u8 x -> u8 y).
Proof.
  intros (Hb & Hw & Hu) E. unfold step_byte in E.
  destruct (if decide (cc_offset c = BLOCK_SIZE) then update c else Ret c) as [c1| |] eqn:E1; cbn in E; [|done..].
  injection E as <- <-. cbn [cc_output cc_state].
  assert (Hc1 : all_u8 (cc_output c1) /\ u32 (w0 (row_d (cc_state c1)))).
  { case_decide; [|by simplify_eq]. unfold update in E1. destruct (_ =? 0); [done|]. injection E1 as <-.
    split; [apply state_to_buffer_u8|]. apply wrap_in_width. lia. }
  destruct Hc1 as [Hu1 Hw1]. split_and!; [done..|]. intros Hx. apply lxor_u8; [done|].
  destruct (nth_in_or_default (cc_offset c1) (cc_output c1) 0) as [Hin| ->]; [|done].
  apply list_elem_of_In in Hin. by eapply Forall_forall in Hin.
Qed.

Lemma bytewise_ok c xs ys c' :
  cipher_ok c -> bytewise c xs = Ret (ys, c') -> cipher_ok c' /\ (all_u8 xs -> all_u8 ys).
Proof.
  intros Hc E. assert (Hb : buffer_ok c') by (eapply bytewise_buffer_ok; [apply Hc|exact E]).
  revert c ys Hc E. induction xs as [|x xs IH]; intros c ys Hc E; cbn in E; [by simplify_eq|].
  destruct (step_byte c x) as [[y c1]| |] eqn:E1; cbn in E; [|done..].
  destruct (bytewise c1 xs) as [[zs c2]| |] eqn:E2; cbn in E; [|done..]. injection E as <- <-.
  destruct (step_byte_ok _ _ _ _ Hc E1) as (Hu1 & Hw1 & Hy).
  assert (Hc1 : cipher_ok c1).
  { split_and!; try done. eapply (bytewise_buffer_ok c c1 [x] [y]); [apply Hc|]. cbn. by rewrite E1. }
  destruct (IH c1 zs Hc1 E2) as [H2 H3]. split; [done|]. intros [? ?]%Forall_cons. constructor; auto.
Qed.

Lemma bytewise_available c xs ys c' :
  cipher_ok c -> bytewise c xs = Ret (ys, c') -> Z.of_nat (length xs) <= available c ->
  available c' = available c - Z.of_nat (length xs).
Proof.
  revert c ys. induction xs as [|x xs IH]; intros c ys Hc E Hl; cbn in E; [simplify_eq; cbn; lia|].
  destruct Hc as (Hb & Hw & Hu). cbn [length] in Hl.
  destruct (step_byte_available c x Hb Hw) as (y & c1 & E1 & Hb1 & Hw1 & Ha1); [lia|].
  destruct (step_byte_ok c x y c1 ltac:(by split_and!) E1) as (Hu1 & _ & _).
  rewrite E1 in E. cbn in E. destruct (bytewise c1 xs) as [[zs c2]| |] eqn:E2; cbn in E; [|done..].
  injection E as <- <-. rewrite (IH c1 zs) by (done || lia). cbn [length]. lia.
Qed.

(** ** The state of a stream *)

(** After [ct] has been produced or consumed, for the plaintext [pt]. *)
Record at_ct (pk : bytes) (c0 : ChaCha20.ChaCha20) (aad ct pt : bytes) (s : ChaCha20Poly1305RFC) : Prop := {
  at_open : a_finished s = false;
  at_cipher : bytewise c0 ct = Ret (pt, a_cipher s);
  at_mac : absorbed pk (pad16 aad ++ ct) (a_mac s);
  at_len : a_data_len s = Z.of_nat (length ct);
  at_aad : a_aad_len s = Z.of_nat (length aad);
}.

(** The cipher after its first block. *)
Record started (c0 : ChaCha20.ChaCha20) : Prop := { st_ok : cipher_ok c0; st_available : available c0 = MAX_DATA }.

Lemma pad_mac_16_absorbed pk msg b mac :
  absorbed pk (msg ++ b) mac ->
  exists mac', pad_mac_16 mac (Z.of_nat (length b)) = Ret mac' /\ absorbed pk (msg ++ pad16 b) mac'.
Proof.
  intros Ha. unfold pad_mac_16, pad16. set (r := Z.of_nat (length b) `mod` 16).
  pose proof (Z.mod_pos_bound (Z.of_nat (length b)) 16 ltac:(lia)).
  destruct (Z.eqb_spec r 0) as [E|E]; cbn [negb].
  - exists mac. split; [done|]. rewrite Z.mod_opp_l_z by (done || lia). cbn. by rewrite List.app_nil_r.
  - rewrite Z.mod_opp_l_nz by (done || lia). fold r. replace (Z.to_nat (16 - r)) with (16 - Z.to_nat r)%nat by lia.
    rewrite app_assoc. apply input_absorbed; [done|]. apply zeros_u8.
Qed.

Lemma mac_tail_absorbed pk aad ct mac :
  absorbed pk (pad16 aad ++ ct) mac ->
  exists mac', mac_tail mac (Z.of_nat (length ct)) (Z.of_nat (length aad)) = Ret (Rfc8439.tag pk (mac_data aad ct), mac').
Proof.
  intros Ha. unfold mac_tail. destruct (pad_mac_16_absorbed _ _ _ _ Ha) as (m1 & -> & H1). cbn [mbind outcome_bind].
  destruct (input_absorbed _ _ _ (to_le_bytes 8 (Z.of_nat (length aad))) H1 (to_le_bytes_u8 _ _)) as (m2 & -> & H2).
  cbn [mbind outcome_bind].
  destruct (input_absorbed _ _ _ (to_le_bytes 8 (Z.of_nat (length ct))) H2 (to_le_bytes_u8 _ _)) as (m3 & -> & H3).
  cbn [mbind outcome_bind]. unfold mac_data. rewrite <- !app_assoc in H3. by apply raw_result_absorbed.
Qed.

Section Stream.
Context (pk aad : bytes) (c0 : ChaCha20.ChaCha20) (Hc0 : started c0).

Lemma at_cipher_ok ct pt s :
  at_ct pk c0 aad ct pt s -> Z.of_nat (length ct) <= MAX_DATA ->
  cipher_ok (a_cipher s) /\ available (a_cipher s) = MAX_DATA - Z.of_nat (length ct) /\ length pt = length ct.
Proof.
  intros Hs Hl. destruct Hc0 as [Hok Hav]. pose proof (at_cipher _ _ _ _ _ _ Hs) as E. split_and!.
  - by eapply bytewise_ok.
  - rewrite <- Hav. eapply bytewise_available; [done|done|lia].
  - by eapply length_bytewise.
Qed.

(** The next piece goes through the cipher. *)
Lemma next_piece ct pt s x :
  at_ct pk c0 aad ct pt s -> Z.of_nat (length ct) + Z.of_nat (length x) <= MAX_DATA ->
  exists y c', process_in_place (a_cipher s) x = Ret (y, c') /\ bytewise (a_cipher s) x = Ret (y, c') /\
    length y = length x /\ (all_u8 x -> all_u8 y).
Proof.
  intros Hs Hl. destruct (at_cipher_ok _ _ _ Hs) as (Hok & Hav & _); [lia|].
  pose proof Hok as (Hb & Hw & _). destruct (bytewise_total (a_cipher s) x Hb Hw) as (y & c' & E); [lia|].
  exists y, c'. unfold process_in_place. rewrite process_loop_bytewise by (done || lia).
  split_and!; [done..|by eapply length_bytewise|]. by eapply bytewise_ok.
Qed.

Lemma add_len ct pt s (x : bytes) :
  at_ct pk c0 aad ct pt s -> Z.of_nat (length ct) + Z.of_nat (length x) <= MAX_DATA ->
  add64 (a_data_len s) (Z.of_nat (length x)) = Ret (Z.of_nat (length (ct ++ x))).
Proof.
  intros Hs Hl. rewrite (at_len _ _ _ _ _ _ Hs), length_app, Nat2Z.inj_add. unfold add64, MAX_DATA in *.
  apply checked_op_ok. width_lia.
Qed.

(** The state after a piece, given what was done with it. *)
Lemma at_next ct pt s x y c' mac :
  at_ct pk c0 aad ct pt s -> bytewise (a_cipher s) x = Ret (y, c') -> absorbed pk ((pad16 aad ++ ct) ++ x) mac ->
  at_ct pk c0 aad (ct ++ x) (pt ++ y) (mkAead c' mac false (Z.of_nat (length (ct ++ x))) (a_aad_len s)).
Proof.
  intros [Ho Hc Hm Hl Ha] E Hx. split; cbn; [done| |by rewrite app_assoc|done|done].
  rewrite bytewise_app, Hc. cbn [mbind outcome_bind]. by rewrite E.
Qed.

Lemma decrypt_in_place_at ct pt s x :
  at_ct pk c0 aad ct pt s -> all_u8 x -> Z.of_nat (length ct) + Z.of_nat (length x) <= MAX_DATA ->
  exists y s', decrypt_in_place s x = Ret (y, s') /\ at_ct pk c0 aad (ct ++ x) (pt ++ y) s' /\
    bytewise (a_cipher s) x = Ret (y, a_cipher s').
Proof.
  intros Hs Hu Hl. destruct (next_piece _ _ _ x Hs Hl) as (y & c' & Ep & Eb & _).
  destruct (input_absorbed _ _ _ x (at_mac _ _ _ _ _ _ Hs) Hu) as (mac & Em & Hm).
  unfold decrypt_in_place. rewrite (at_open _ _ _ _ _ _ Hs), Em. cbn [mbind outcome_bind].
  rewrite (add_len _ _ _ _ Hs Hl). cbn [mbind outcome_bind]. rewrite Ep. cbn [mbind outcome_bind].
  eexists _, _. split; [done|]. split; [by eapply at_next|done].
Qed.

Lemma encrypt_in_place_at ct pt s x :
  at_ct pk c0 aad ct pt s -> all_u8 x -> Z.of_nat (length ct) + Z.of_nat (length x) <= MAX_DATA ->
  exists y s', encrypt_in_place s x = Ret (y, s') /\ at_ct pk c0 aad (ct ++ y) (pt ++ x) s' /\
    bytewise (a_cipher s) x = Ret (y, a_cipher s').
Proof.
  intros Hs Hu Hl. destruct (next_piece _ _ _ x Hs Hl) as (y & c' & Ep & Eb & Ly & Uy).
  destruct (input_absorbed _ _ _ y (at_mac _ _ _ _ _ _ Hs) (Uy Hu)) as (mac & Em & Hm).
  unfold encrypt_in_place. rewrite (at_open _ _ _ _ _ _ Hs), Ep. cbn [mbind outcome_bind].
  rewrite <- Ly, (add_len _ _ _ y Hs) by lia. cbn [mbind outcome_bind]. rewrite Em. cbn [mbind outcome_bind].
  eexists _, _. split; [done|]. split; [|done]. eapply at_next; [done| |done]. by apply bytewise_involutive.
Qed.

(** The tag of what went through. *)
Definition tag_of (ct : bytes) : bytes := Rfc8439.tag pk (mac_data aad ct).

Lemma tag_length ct : length (tag_of ct) = 16%nat.
Proof. apply length_to_le_bytes. Qed.

Lemma mac_tail_at ct pt s :
  at_ct pk c0 aad ct pt s -> exists mac', mac_tail (a_mac s) (a_data_len s) (a_aad_len s) = Ret (tag_of ct, mac').
Proof. intros [Ho Hc Hm -> ->]. by apply mac_tail_absorbed. Qed.

Lemma finish_tag_at ct pt s :
  at_ct pk c0 aad ct pt s -> exists s', finish_and_get_tag s = Ret (tag_of ct, s').
Proof.
  intros Hs. destruct (mac_tail_at _ _ _ Hs) as [mac E]. unfold finish_and_get_tag.
  rewrite (at_open _ _ _ _ _ _ Hs), E. by eexists.
Qed.

Lemma finish_check_at `{FixedTimeEqLaws} ct pt s tag :
  at_ct pk c0 aad ct pt s -> length tag = 16%nat ->
  exists s', finish_and_check_tag s tag = Ret (bool_decide (tag_of ct = tag), s').
Proof.
  intros Hs Hl. destruct (mac_tail_at _ _ _ Hs) as [mac E]. unfold finish_and_check_tag.
  rewrite (at_open _ _ _ _ _ _ Hs), E. cbn [mbind outcome_bind].
  rewrite fixed_time_eq_spec by (by rewrite tag_length). by eexists.
Qed.

(** One shot is one piece and the tag. *)
Lemma encrypt_at s ct pt msg :
  at_ct pk c0 aad ct pt s -> all_u8 msg -> Z.of_nat (length ct) + Z.of_nat (length msg) <= MAX_DATA ->
  exists enc s', encrypt s msg (length msg) 16 = Ret (enc, tag_of (ct ++ enc), s') /\
    bytewise (a_cipher s) msg = Ret (enc, a_cipher s') /\ length enc = length msg /\ all_u8 enc.
Proof.
  intros Hs Hu Hl. destruct (next_piece _ _ _ msg Hs Hl) as (enc & c' & Ep & Eb & Ly & Uy).
  destruct (input_absorbed _ _ _ enc (at_mac _ _ _ _ _ _ Hs) (Uy Hu)) as (mac & Em & Hm).
  assert (Hn : at_ct pk c0 aad (ct ++ enc) (pt ++ msg) (mkAead c' mac false (Z.of_nat (length (ct ++ enc))) (a_aad_len s))).
  { eapply at_next; [done| |done]. by apply bytewise_involutive. }
  destruct (mac_tail_at _ _ _ Hn) as [mac' Et]. cbn [a_mac a_data_len a_aad_len] in Et.
  unfold encrypt, process. rewrite Nat.eqb_refl, decide_True, (at_open _ _ _ _ _ _ Hs), Ep by done. cbn [negb mbind outcome_bind].
  rewrite <- Ly, (add_len _ _ _ enc Hs) by lia. cbn [mbind outcome_bind]. rewrite Em. cbn [mbind outcome_bind].
  rewrite Et. cbn [mbind outcome_bind Nat.ltb Nat.leb]. eexists _, _. split_and!; [done..|auto].
Qed.

Lemma decrypt_at `{FixedTimeEqLaws} s ct pt enc tag :
  at_ct pk c0 aad ct pt s -> all_u8 enc -> Z.of_nat (length ct) + Z.of_nat (length enc) <= MAX_DATA ->
  length tag = 16%nat ->
  exists msg c' s', bytewise (a_cipher s) enc = Ret (msg, c') /\
    decrypt s enc (length enc) tag = Ret (if bool_decide (tag_of (ct ++ enc) = tag) then Some msg else None, s').
Proof.
  intros Hs Hu Hl Ht. destruct (next_piece _ _ _ enc Hs Hl) as (msg & c' & Ep & Eb & Ly & _).
  destruct (input_absorbed _ _ _ enc (at_mac _ _ _ _ _ _ Hs) Hu) as (mac & Em & Hm).
  destruct (mac_tail_at _ _ _ (at_next _ _ _ _ _ _ _ Hs Eb Hm)) as [mac' Et]. cbn [a_mac a_data_len a_aad_len] in Et.
  unfold decrypt, process. rewrite Nat.eqb_refl, (at_open _ _ _ _ _ _ Hs), Em. cbn [negb mbind outcome_bind].
  rewrite (add_len _ _ _ enc Hs Hl). cbn [mbind outcome_bind]. rewrite Et. cbn [mbind outcome_bind].
  rewrite fixed_time_eq_spec by (by rewrite tag_length). cbn [mbind outcome_bind]. exists msg, c'.
  case_bool_decide; [|by eexists]. rewrite decide_True, Ep by done. by eexists.
Qed.
End Stream.

(** A fresh cipher. *)
Lemma fresh_cipher key nonce :
  length key = 32%nat -> length nonce = 8%nat ->
  exists c, ChaCha20.new key nonce = Ret c /\ cipher_ok c /\ available c = 64 * (2 ^ 32 - 1).
Proof.
  intros Hk Hn. destruct (new_fresh key nonce Hk (or_introl Hn)) as (c & Ec & Hb & Ho & Hw).
  assert (Hout : cc_output c = replicate BLOCK_SIZE 0).
  { unfold ChaCha20.new in Ec. destruct (decide _); [|done]. destruct (decide _); [|done].
    destruct (expand key nonce) as [st| |]; cbn in Ec; [|done..]. by injection Ec as <-. }
  exists c. split; [done|]. split; [split; [done|]; split; [by rewrite Hw|rewrite Hout; apply zeros_u8]|].
  unfold available. rewrite Hw, Ho. lia.
Qed.

Lemma first_block key nonce z :
  length key = 32%nat -> length nonce = 8%nat -> length z = 64%nat -> all_u8 z ->
  exists c k c0, ChaCha20.new key nonce = Ret c /\ process_in_place c z = Ret (k, c0) /\
    length k = 64%nat /\ all_u8 k /\ started c0.
Proof.
  intros Hk Hn Hz Hu. destruct (fresh_cipher key nonce Hk Hn) as (c & Ec & Hok & Hav).
  destruct (bytewise_total c z) as (k & c0 & E); [apply Hok|apply Hok|lia|].
  destruct (bytewise_ok _ _ _ _ Hok E) as [Hok0 Hk8]. exists c, k, c0. split_and!; [done| |..].
  - unfold process_in_place. rewrite process_loop_bytewise; [exact E|apply Hok|lia].
  - rewrite <- Hz. by eapply length_bytewise.
  - auto.
  - split; [done|]. rewrite (bytewise_available _ _ _ _ Hok E), Hav by lia. unfold MAX_DATA. lia.
Qed.

Lemma new_mac k aad :
  length k = 64%nat -> all_u8 k -> all_u8 aad ->
  exists m0 m1 m2, Poly1305.new (take 32 k) = Ret m0 /\ Poly1305.input m0 aad = Ret m1 /\
    pad_mac_16 m1 (Z.of_nat (length aad)) = Ret m2 /\ absorbed (take 32 k) (pad16 aad) m2.
Proof.
  intros Hk Hu Ha.
  assert (Hpk : length (take 32 k) = 32%nat) by (rewrite length_take; lia).
  destruct (Poly1305.new (take 32 k)) as [m0| |] eqn:Em; [|unfold Poly1305.new in Em; by rewrite Hpk in Em..].
  pose proof (new_absorbed _ _ (Forall_take _ _ _ Hu) Em) as Hm0.
  destruct (input_absorbed _ _ _ aad Hm0 Ha) as (m1 & Em1 & Hm1).
  destruct (pad_mac_16_absorbed _ [] aad m1 Hm1) as (m2 & Em2 & Hm2). by exists m0, m1, m2.
Qed.

Lemma new_at key nonce aad :
  length key = 32%nat -> length nonce = 12%nat -> take 4 nonce = [0; 0; 0; 0] -> all_u8 aad ->
  exists pk c0 s, one_time_key key nonce = Ret (pk, c0) /\ started c0 /\
    new key nonce aad = Ret s /\ at_ct pk c0 aad [] [] s.
Proof.
  intros Hk Hn H0 Ha. unfold one_time_key, new, process. generalize (zeros_u8 64).
  assert (Hz : length (replicate 64 0) = 64%nat) by apply length_replicate. revert Hz.
  generalize (replicate 64 0). intros z Hz Hzu.
  destruct (first_block key (drop 4 nonce) z) as (c & k & c0 & Ec & Ep & Lk & Uk & Hst);
    [done|rewrite length_drop; lia|done|done|].
  destruct (new_mac k aad Lk Uk Ha) as (m0 & m1 & m2 & Em & Em1 & Em2 & Hm).
  rewrite Hk, Hn, H0, Ec. cbn [negb orb Nat.eqb forallb andb Z.eqb mbind outcome_bind].
  rewrite decide_True, Ep by done. cbn [mbind outcome_bind]. rewrite Em. cbn [mbind outcome_bind].
  rewrite Em1. cbn [mbind outcome_bind]. rewrite Em2.
  eexists _, _, _. split_and!; [done|done|done|]. split; cbn; try done. by rewrite List.app_nil_r.
Qed.

(** ** Decoding while decrypting *)

Section Adapters.
Context `{FixedTimeEqLaws}.

Lemma take_plus {A} n j (l : list A) : take (n + j) l = take n l ++ take j (drop n l).
Proof. revert l. induction n as [|n IH]; intros [|x l]; cbn; [done..|by rewrite take_nil|by rewrite IH]. Qed.

Lemma bytewise_split n c bs dec c1 :
  bytewise c bs = Ret (dec, c1) ->
  exists c', bytewise c (take n bs) = Ret (take n dec, c') /\ bytewise c' (drop n bs) = Ret (drop n dec, c1).
Proof.
  intros E. rewrite <- (take_drop n bs) in E. rewrite bytewise_app in E.
  destruct (bytewise c (take n bs)) as [[y c']| |] eqn:E1; cbn in E; [|done..].
  destruct (bytewise c' (drop n bs)) as [[z c2]| |] eqn:E2; cbn in E; [|done..]. injection E as <- <-.
  apply length_bytewise in E1 as L1. pose proof (length_bytewise _ _ _ _ E2) as L2. rewrite length_take in L1.
  rewrite length_drop in L2. exists c'. destruct (Nat.le_gt_cases n (length bs)).
  - rewrite take_app_length', drop_app_length' by lia. done.
  - destruct z; [|cbn in L2; lia]. rewrite List.app_nil_r, (take_ge y), (drop_ge y) by lia. done.
Qed.

(** A decoder that succeeds on the plaintext succeeds on the ciphertext, consuming as much,
    and what it consumed is what the authenticator has seen. *)
Lemma run_in_chacha_poly pk c0 aad (Hc0 : started c0) {A} (m : rd A) : forall s ct pt bs dec c1 a rest,
  at_ct pk c0 aad ct pt s -> all_u8 bs -> Z.of_nat (length ct) + Z.of_nat (length bs) <= MAX_DATA ->
  bytewise (a_cipher s) bs = Ret (dec, c1) -> run m dec = (Ret (Ok a), rest) ->
  exists n s', (n <= length bs)%nat /\ rest = drop n dec /\ run (in_chacha_poly s m) bs = (Ret (Ok (a, s')), drop n bs) /\
    at_ct pk c0 aad (ct ++ take n bs) (pt ++ take n dec) s'.
Proof.
  induction m as [o|n k IH|k IH]; intros s ct pt bs dec c1 a rest Hs Hu Hl Eb Hr; cbn [run in_chacha_poly] in *.
  - unfold lift in Hr. destruct o as [[x|e]|w|]; simplify_eq. exists 0%nat, s.
    split; [lia|]. split; [done|]. split; [done|]. rewrite !take_0, !List.app_nil_r. done.
  - unfold mbind, prog_bind in *. cbn [do_read Read_slice] in *.
    destruct (bytewise_split n _ _ _ _ Eb) as (c' & E1 & E2).
    assert (Ht : all_u8 (take n bs)) by (by apply Forall_take).
    assert (Hlen : length (take n bs) = length (take n dec)) by (by apply length_bytewise in E1).
    destruct (take n bs) as [|b tl] eqn:Et.
    + assert (Etd : take n dec = []) by (apply nil_length_inv; by rewrite <- Hlen).
      assert (Ed : drop n bs = bs) by (rewrite <- (take_drop n bs) at 2; by rewrite Et).
      assert (Edd : drop n dec = dec) by (rewrite <- (take_drop n dec) at 2; by rewrite Etd).
      rewrite Ed. rewrite Etd, Edd in Hr. by apply (IH (Ok []) s ct pt bs dec c1).
    + rewrite <- Et in *. clear Et b tl.
      destruct (decrypt_in_place_at pk aad c0 Hc0 ct pt s (take n bs) Hs Ht) as (y & s1 & Ey & Hs1 & Ey').
      { rewrite length_take. lia. }
      rewrite E1 in Ey'. injection Ey' as <- ->.
      destruct (IH (Ok (take n dec)) s1 (ct ++ take n bs) (pt ++ take n dec) (drop n bs) (drop n dec) c1 a rest)
        as (j & s' & Hj & Er & E & Ha); [done|by apply Forall_drop| |done|done|].
      { rewrite length_app, length_drop. rewrite length_take. lia. }
      assert (Ldec : length dec = length bs) by (by eapply length_bytewise).
      rewrite length_drop in Hj. exists (Nat.min n (length bs) + j)%nat, s'.
      assert (D : forall l : bytes, length l = length bs -> drop (Nat.min n (length bs) + j) l = drop j (drop n l) /\
        take (Nat.min n (length bs) + j) l = take n l ++ take j (drop n l)).
      { intros l Ll. rewrite <- drop_drop, take_plus. rewrite <- Ll.
        destruct (Nat.le_gt_cases n (length l)); [by rewrite Nat.min_l by lia|].
        rewrite Nat.min_r, !(drop_ge l), !(take_ge l) by lia. done. }
      destruct (D bs eq_refl) as [-> ->]. destruct (D dec Ldec) as [-> ->]. rewrite !app_assoc.
      split; [lia|]. split_and!; [done| |done]. rewrite Ey. cbn. exact E.
  - cbn [left Read_slice] in *. assert (Ldec : length dec = length bs) by (by eapply length_bytewise).
    rewrite Ldec in Hr. by apply (IH (S (length bs)) s ct pt bs dec c1).
Qed.

(** ** Encrypting while writing *)

Lemma poly_write_all_at pk c0 aad (Hc0 : started c0) fuel : forall s ct pt src,
  at_ct pk c0 aad ct pt s -> all_u8 src -> Z.of_nat (length ct) + Z.of_nat (length src) <= MAX_DATA ->
  (length src <= fuel)%nat ->
  exists outs s', poly_write_all fuel s src = Ret (outs, s') /\ length (concat outs) = length src /\
    at_ct pk c0 aad (ct ++ concat outs) (pt ++ src) s'.
Proof.
  induction fuel as [|fuel IH]; intros s ct pt src Hs Hu Hl Hf;
    (destruct src as [|b src]; [exists [], s; cbn; by rewrite !List.app_nil_r|]); [cbn in Hf; lia|].
  set (l := b :: src) in *. assert (Hlen : (0 < length l)%nat) by (cbn; lia). clearbody l. clear b src.
  assert (Eq : poly_write_all (S fuel) s l =
    ('(out, s) ← encrypt_in_place s (take (Z.to_nat 8192) l);
     '(outs, s) ← poly_write_all fuel s (drop (Z.to_nat 8192) l); Ret (out :: outs, s))) by (by destruct l; [cbn in Hlen; lia|]).
  rewrite Eq. clear Eq.
  destruct (encrypt_in_place_at pk aad c0 Hc0 ct pt s (take (Z.to_nat 8192) l) Hs) as (y & s1 & E1 & Hs1 & Eb).
  { by apply Forall_take. } { rewrite length_take. lia. }
  assert (Ly : length y = length (take (Z.to_nat 8192) l)) by (by apply length_bytewise in Eb). rewrite length_take in Ly.
  destruct (IH s1 (ct ++ y) (pt ++ take (Z.to_nat 8192) l) (drop (Z.to_nat 8192) l)) as (outs & s2 & E2 & L2 & Hs2);
    [done|by apply Forall_drop|rewrite length_app, length_drop; lia|rewrite length_drop; lia|].
  rewrite E1. cbn [mbind outcome_bind]. rewrite E2. cbn [mbind outcome_bind]. exists (y :: outs), s2.
  split; [done|]. cbn [concat]. rewrite length_app, L2, length_drop. split; [lia|].
  rewrite <- !app_assoc, take_drop in Hs2. exact Hs2.
Qed.

Lemma poly_write_calls_at pk c0 aad (Hc0 : started c0) calls : forall s ct pt,
  at_ct pk c0 aad ct pt s -> Forall all_u8 calls ->
  Z.of_nat (length ct) + Z.of_nat (length (concat calls)) <= MAX_DATA ->
  exists outs s', poly_write_calls s calls = Ret (outs, s') /\ length (concat outs) = length (concat calls) /\
    at_ct pk c0 aad (ct ++ concat outs) (pt ++ concat calls) s'.
Proof.
  induction calls as [|src calls IH]; intros s ct pt Hs Hu Hl; cbn [poly_write_calls concat] in *.
  { exists [], s. cbn. by rewrite !List.app_nil_r. }
  apply Forall_cons in Hu as [Hu1 Hu]. rewrite length_app in Hl.
  destruct (poly_write_all_at pk c0 aad Hc0 (length src) s ct pt src) as (o1 & s1 & E1 & L1 & H1); [done|done|lia|lia|].
  destruct (IH s1 (ct ++ concat o1) (pt ++ src)) as (o2 & s2 & E2 & L2 & H2); [done|done|rewrite length_app; lia|].
  rewrite E1. cbn [mbind outcome_bind]. rewrite E2. cbn [mbind outcome_bind]. exists (o1 ++ o2), s2.
  split; [done|]. rewrite concat_app, !length_app, L1, L2. split; [done|]. by rewrite !app_assoc.
Qed.

(** What the write adapter produces: the ciphertext of the encoding and its tag. *)
Lemma write_adapter_at {T} (c : Codec T) rho x :
  length rho = 32%nat -> Forall all_u8 (c_write c x) -> Z.of_nat (length (encode c x)) <= MAX_DATA ->
  exists pk c0 enc c1 calls, one_time_key rho (replicate 12 0) = Ret (pk, c0) /\ started c0 /\
    write_adapter c rho x = Ret calls /\ bytewise c0 (encode c x) = Ret (enc, c1) /\
    concat calls = enc ++ tag_of pk [] enc /\ all_u8 enc /\ length enc = length (encode c x).
Proof.
  intros Hr Hu Hl. destruct (new_at rho (replicate 12 0) []) as (pk & c0 & s & E1 & Hst & En & Hs); [done..|constructor|].
  destruct (poly_write_calls_at pk c0 [] Hst (c_write c x) s [] [] Hs Hu) as (outs & s' & Ew & Lw & Hs').
  { cbn. exact Hl. }
  destruct (finish_tag_at _ _ _ _ _ _ Hs') as [s2 Et]. cbn [app] in *.
  pose proof (at_cipher _ _ _ _ _ _ Hs') as Ec. pose proof (bytewise_involutive _ _ _ _ Ec) as Ec'.
  exists pk, c0, (concat outs), (a_cipher s'), (outs ++ [tag_of pk [] (concat outs)]). split_and!; try done.
  - unfold write_adapter. rewrite En. cbn [mbind outcome_bind]. rewrite Ew. cbn [mbind outcome_bind]. by rewrite Et.
  - rewrite concat_app. cbn [concat]. by rewrite List.app_nil_r.
  - eapply bytewise_ok; [apply Hst|exact Ec'|]. by apply Forall_concat.
Qed.

(** The read adapter on a ciphertext whose decoding succeeds: bytes the decoder does not
    ask for are skipped, and the tag is checked on the others. *)
Lemma read_adapter_at {T} (c : Codec T) rho pk c0 enc dec c1 x n tag rest :
  length rho = 32%nat -> one_time_key rho (replicate 12 0) = Ret (pk, c0) -> started c0 ->
  all_u8 enc -> Z.of_nat (length enc) <= MAX_DATA -> bytewise c0 enc = Ret (dec, c1) ->
  (n <= length enc)%nat -> run (c_read c) dec = (Ret (Ok x), drop n dec) -> length tag = 16%nat ->
  run (read_adapter c (Z.of_nat (length enc) + 16) rho) (enc ++ tag ++ rest) =
  (if bool_decide (tag_of pk [] (take n enc) = tag) then Ret (Ok x) else Ret (Err InvalidValue), rest).
Proof.
  intros Hr E1 Hst Hu Hl Eb Hn Hx Ht.
  destruct (new_at rho (replicate 12 0) []) as (pk' & c0' & s & E1' & _ & En & Hs); [done..|constructor|].
  rewrite E1 in E1'. injection E1' as <- <-.
  assert (Es : a_cipher s = c0). { pose proof (at_cipher _ _ _ _ _ _ Hs) as E. cbn in E. by injection E. }
  unfold read_adapter. replace (_ <? 16) with false by lia. rewrite En. cbn [lift_outcome].
  rewrite run_bind, run_ret. replace (Z.of_nat (length enc) + 16 - 16) with (Z.of_nat (length enc)) by lia.
  rewrite run_bind, run_in_fixed by (apply fixed_new_ok; lia). cbv zeta.
  assert (R : room (fixed_new (Z.of_nat (length enc))) = length enc) by (unfold room, fixed_new; cbn; lia).
  rewrite R, take_app_length, drop_app_length. rewrite <- Es in Eb.
  destruct (run_in_chacha_poly pk c0 [] Hst (c_read c) s [] [] enc dec c1 x (drop n dec) Hs Hu) as (n' & s' & Hn' & Er & E & Hs');
    [cbn; lia|done|done|].
  assert (Ld : length dec = length enc) by (by eapply length_bytewise).
  assert (n' = n) as ->.
  { assert (length (drop n dec) = length (drop n' dec)) as L by (by rewrite Er). rewrite !length_drop in L. lia. }
  rewrite E. rewrite length_drop. unfold advance, fixed_new. cbn [bytes_read total_bytes].
  rewrite run_bind, run_eat_remaining by (unfold fixed_ok; cbn; lia).
  match goal with |- context [room ?f] => assert (Rf : room f = length (drop n enc)) by (unfold room; cbn; rewrite length_drop; lia) end.
  rewrite Rf. replace (_ <=? _)%nat with true by (symmetry; apply Nat.leb_le; rewrite !length_app; lia).
  rewrite drop_app_length, run_exact by done. rewrite run_bind. cbn [app] in Hs'.
  destruct (finish_check_at pk [] c0 (take n enc) (take n dec) s' tag Hs' Ht) as [s2 Ef]. rewrite Ef. cbn [lift_outcome].
  rewrite run_ret. by case_bool_decide.
Qed.
End Adapters.

(** ** Properties *)

Section Properties.
Context `{FixedTimeEqLaws}.

(** Sealing and opening: a fresh cipher encrypts every message the block counter allows
    without a panic; the ciphertext is the message under the key stream after the first
    block, the tag is the RFC 8439 tag of the additional data and the ciphertext; and a
    fresh cipher with the same key, nonce and data gives the message back for this tag and
    refuses every other, leaving the output alone. *)
Theorem aead_seals (key nonce aad msg : bytes) :
  length key = 32%nat -> length nonce = 12%nat -> take 4 nonce = [0; 0; 0; 0] ->
  all_u8 aad -> all_u8 msg -> Z.of_nat (length msg) <= MAX_DATA ->
  exists s pk c0 enc c1 s',
    new key nonce aad = Ret s /\ one_time_key key nonce = Ret (pk, c0) /\
    process_in_place c0 msg = Ret (enc, c1) /\
    encrypt s msg (length msg) 16 = Ret (enc, Rfc8439.tag pk (mac_data aad enc), s') /\
    (forall tag, length tag = 16%nat -> exists s'',
       decrypt s enc (length enc) tag =
       Ret (if bool_decide (Rfc8439.tag pk (mac_data aad enc) = tag) then Some msg else None, s'')).
Proof.
  intros Hk Hn Hz Ha Hu Hl. destruct (new_at key nonce aad Hk Hn Hz Ha) as (pk & c0 & s & E1 & Hst & En & Hs).
  assert (Es : a_cipher s = c0). { pose proof (at_cipher _ _ _ _ _ _ Hs) as E. cbn in E. by injection E. }
  destruct (encrypt_at pk aad c0 Hst s [] [] msg Hs Hu) as (enc & s' & Ee & Eb & Le & Ue); [cbn; lia|].
  exists s, pk, c0, enc, (a_cipher s'), s'. rewrite Es in Eb. split_and!; [done|done| |done|].
  - unfold process_in_place. rewrite process_loop_bytewise; [done|apply Hst|lia].
  - intros tag Ht. destruct (decrypt_at pk aad c0 Hst s [] [] enc tag Hs Ue) as (m & c' & s'' & Em & Ed); [cbn; lia|done|].
    rewrite Es in Em. apply bytewise_involutive in Eb. rewrite Eb in Em. injection Em as <- _. by exists s''.
Qed.

(** A value written through the encrypting adapter is read back through the decrypting one,
    with what follows it left in the stream; its bytes are those of the encoding encrypted
    at once, and the tag. *)
Theorem adapter_roundtrip {T} (c : Codec T) valid `{!EndRoundTrip c valid} (rho : bytes) (x : T) (rest : bytes) :
  length rho = 32%nat -> valid x -> Forall all_u8 (c_write c x) -> Z.of_nat (length (encode c x)) <= MAX_DATA ->
  exists calls, write_adapter c rho x = Ret calls /\
    length (concat calls) = (length (encode c x) + 16)%nat /\
    run (read_adapter c (Z.of_nat (length (concat calls))) rho) (concat calls ++ rest) = (Ret (Ok x), rest).
Proof.
  intros Hr Hx Hu Hl. destruct (write_adapter_at c rho x Hr Hu Hl) as (pk & c0 & enc & c1 & calls & E1 & Hst & Ew & Eb & Ec & Ue & Le).
  exists calls. split; [done|]. rewrite Ec, length_app, tag_length. split; [lia|].
  apply bytewise_involutive in Eb. rewrite <- app_assoc, Nat2Z.inj_add.
  rewrite (read_adapter_at c rho pk c0 enc (encode c x) c1 x (length enc)); try done.
  - rewrite take_ge by lia. by rewrite bool_decide_eq_true_2.
  - lia.
  - rewrite end_round_trip by done. by rewrite drop_ge by lia.
Qed.

(** The decrypting adapter does not authenticate what its decoder leaves unread: bytes
    inserted before the tag are accepted, whatever they are, when the decoder stops by
    itself. *)
Theorem adapter_accepts_inserted_bytes {T} (c : Codec T) valid `{!RoundTrip c valid} (rho : bytes) (x : T) (junk : bytes) :
  length rho = 32%nat -> valid x -> Forall all_u8 (c_write c x) -> all_u8 junk ->
  Z.of_nat (length (encode c x) + length junk) <= MAX_DATA ->
  exists calls enc tag, write_adapter c rho x = Ret calls /\ concat calls = enc ++ tag /\ length tag = 16%nat /\
    run (read_adapter c (Z.of_nat (length (enc ++ junk ++ tag))) rho) (enc ++ junk ++ tag) = (Ret (Ok x), []).
Proof.
  intros Hr Hx Hu Hj Hl.
  destruct (write_adapter_at c rho x Hr Hu) as (pk & c0 & enc & c1 & calls & E1 & Hst & Ew & Eb & Ec & Ue & Le); [lia|].
  exists calls, enc, (tag_of pk [] enc). split_and!; [done|done|apply tag_length|].
  assert (Hok1 : cipher_ok c1 /\ available c1 = MAX_DATA - Z.of_nat (length (encode c x))).
  { destruct Hst as [Hok Hav]. split; [by eapply bytewise_ok|]. rewrite <- Hav. eapply bytewise_available; [done|done|lia]. }
  destruct Hok1 as [(Hb1 & Hw1 & _) Hav1]. destruct (bytewise_total c1 junk Hb1 Hw1) as (dj & c2 & Ej); [lia|].
  apply bytewise_involutive in Eb.
  assert (Ebj : bytewise c0 (enc ++ junk) = Ret (encode c x ++ dj, c2)) by (rewrite bytewise_app, Eb; cbn; by rewrite Ej).
  rewrite <- (List.app_nil_r (tag_of pk [] enc)) at 2. rewrite !length_app, tag_length, !Nat2Z.inj_add, app_assoc.
  replace (Z.of_nat (length enc) + (Z.of_nat (length junk) + Z.of_nat 16)) with (Z.of_nat (length (enc ++ junk)) + 16)
    by (rewrite length_app; lia).
  rewrite (read_adapter_at c rho pk c0 (enc ++ junk) (encode c x ++ dj) c2 x (length enc)); try done.
  - rewrite take_app_length. by rewrite bool_decide_eq_true_2.
  - by apply Forall_app.
  - rewrite length_app. lia.
  - rewrite length_app. lia.
  - rewrite round_trip by done. by rewrite Le, drop_app_length.
Qed.
End Properties.

(** ** Concrete runs *)

#[local] Instance list_eq : FixedTimeEq := {|
  fixed_time_eq a b := if decide (length a = length b) then Ret (bool_decide (a = b)) else Panic "assertion failed: a.len() == b.len()"
|}.
#[local] Instance list_eq_laws : FixedTimeEqLaws.
Proof. intros a b Hl. cbn. by rewrite decide_True. Qed.

Lemma aead_seals_witness :
  exists s pk c0 enc c1 s',
    new (replicate 32 9) (replicate 12 0) [1; 2] = Ret s /\ one_time_key (replicate 32 9) (replicate 12 0) = Ret (pk, c0) /\
    process_in_place c0 [7; 8; 9] = Ret (enc, c1) /\
    encrypt s [7; 8; 9] 3 16 = Ret (enc, Rfc8439.tag pk (mac_data [1; 2] enc), s') /\
    (forall tag, length tag = 16%nat -> exists s'',
       decrypt s enc (length enc) tag =
       Ret (if bool_decide (Rfc8439.tag pk (mac_data [1; 2] enc) = tag) then Some [7; 8; 9] else None, s'')).
Proof. apply (aead_seals (replicate 32 9) (replicate 12 0) [1; 2] [7; 8; 9]); [done|done|done|by_decide|by_decide|by vm_compute]. Defined.

Lemma adapter_roundtrip_witness :
  exists calls, write_adapter u64c (replicate 32 9) 77 = Ret calls /\
    length (concat calls) = (length (encode u64c 77%Z) + 16)%nat /\
    run (read_adapter u64c (Z.of_nat (length (concat calls))) (replicate 32 9)) (concat calls ++ [5]) = (Ret (Ok 77), [5]).
Proof. apply (adapter_roundtrip u64c u64 (replicate 32 9) 77 [5]); [done|done|repeat constructor; done|by vm_compute]. Defined.

Lemma adapter_accepts_inserted_bytes_witness :
  exists calls enc tag, write_adapter u64c (replicate 32 9) 77 = Ret calls /\ concat calls = enc ++ tag /\ length tag = 16%nat /\
    run (read_adapter u64c (Z.of_nat (length (enc ++ [1; 2; 3] ++ tag))) (replicate 32 9)) (enc ++ [1; 2; 3] ++ tag) = (Ret (Ok 77), []).
Proof.
  apply (adapter_accepts_inserted_bytes u64c u64 (replicate 32 9) 77 [1; 2; 3]);
    [done|done|repeat constructor; done|by_decide|by vm_compute].
Defined.
