(* ===== verification/Tlv.v ===== *)
(** * TLV streams: the macros of rust-lightning/lightning/src/util/ser_macros.rs

    [decode_tlv_stream!] and its helpers are given a list of fields; each is a type number,
    a kind and the code that reads the field into the local variables, which are the state
    [S] here.  The reader works on a byte stream; the specification works on a list of
    records, and the two are proved to agree. *)

From S2P Require Import Prelude Text Bytes Stream Ser SerLaws.

Local Open Scope Z_scope.

(** ** The macros *)

(** [required], [(default_value, d)], and the kinds that may be absent: [option],
    [vec_type], [ignorable], [(option: Trait)]. *)
Inductive fieldty (S : Type) := Required | DefaultValue (set_default : S -> S) | Absentable.
Arguments Required {S}.
Arguments DefaultValue {S} _.
Arguments Absentable {S}.

Record tlv_field (S : Type) := mkField {
  tf_type : Z;
  tf_kind : fieldty S;
  tf_decode : S -> rd S;
}.
Arguments mkField {S} _ _ _.
Arguments tf_type {S} _.
Arguments tf_kind {S} _.
Arguments tf_decode {S} _ _.

Section Decode.
Context {S : Type} (fields : list (tlv_field S)).

(** [$last_seen_type.is_none() || $last_seen_type.unwrap() < $type]. *)
Definition before (last_seen_type : option Z) (type : Z) : bool :=
  match last_seen_type with None => true | Some t => t <? type end.

(** [check_tlv_order!]. *)
Definition check_tlv_order (last_seen_type : option Z) (typ : Z) (f : tlv_field S) (s : S) : result S DecodeError :=
  let invalid_order := before last_seen_type (tf_type f) && (tf_type f <? typ) in
  match tf_kind f with
  | DefaultValue d => if invalid_order then Ok (d s) else Ok s
  | Required => if invalid_order then Err InvalidValue else Ok s
  | Absentable => Ok s
  end.

(** [check_missing_tlv!]. *)
Definition check_missing_tlv (last_seen_type : option Z) (f : tlv_field S) (s : S) : result S DecodeError :=
  let missing := before last_seen_type (tf_type f) in
  match tf_kind f with
  | DefaultValue d => if missing then Ok (d s) else Ok s
  | Required => if missing then Err InvalidValue else Ok s
  | Absentable => Ok s
  end.

(** The macro's repetition [$({ ... })*] of a check, field by field. *)
Fixpoint each (chk : tlv_field S -> S -> result S DecodeError) (fs : list (tlv_field S)) (s : S) : result S DecodeError :=
  match fs with
  | [] => Ok s
  | f :: fs' => match chk f s with Ok s' => each chk fs' s' | Err e => Err e end
  end.

Definition field_of (typ : Z) : option (tlv_field S) :=
  List.find (fun f => tf_type f =? typ) fields.

(** Types must increase. *)
Definition not_increasing (last_seen_type : option Z) (typ : Z) : bool :=
  match last_seen_type with Some t => typ <=? t | None => false end.

(** [decode_tlv_stream!]. *)
Fixpoint tlv_loop (fuel : nat) (last_seen_type : option Z) (s : S) : rd S :=
  match fuel with
  | O => RRet OutOfFuel
  | Datatypes.S fuel' =>
      '(r, have_read) ← in_tracking false (c_read BigSize);
      match r with
      | Err ShortRead =>
          if negb have_read then of_result (each (check_missing_tlv last_seen_type) fields s)
          else rerr ShortRead
      | Err e => rerr e
      | Ok typ =>
          if not_increasing last_seen_type typ then rerr InvalidValue
          else
            s ← of_result (each (check_tlv_order last_seen_type typ) fields s);
            length ← c_read BigSize;
            match field_of typ with
            | Some f =>
                '(s, sr) ← in_fixed (fixed_new length) (tf_decode f s);
                if bytes_remain sr then _ ← eat_remaining sr; rerr InvalidValue
                else _ ← eat_remaining sr; tlv_loop fuel' (Some typ) s
            | None =>
                if typ `mod` 2 =? 0 then rerr UnknownRequiredFeature
                else _ ← eat_remaining (fixed_new length); tlv_loop fuel' (Some typ) s
            end
      end
  end.

Definition decode_tlv_stream (s : S) : rd S := RFuel (fun fuel => tlv_loop fuel None s).

(** A stream of a declared length: [decode_tlv_stream!] in a [FixedLengthReader], then
    [eat_remaining().map_err(|_| DecodeError::ShortRead)]. *)
Definition read_tlv_within (tlv_len : Z) (s : S) : rd S :=
  '(s, r) ← in_fixed (fixed_new tlv_len) (decode_tlv_stream s);
  rd_match (eat_remaining r) (fun e => match e with Ok _ => mret s | Err _ => rerr ShortRead end).

(** [read_tlv_fields!]. *)
Definition read_tlv_fields (s : S) : rd S := tlv_len ← c_read BigSize; read_tlv_within tlv_len s.
End Decode.

(** [encode_tlv!]: a present field is written with its type and length. *)
Definition encode_tlv (type : Z) (payload : option (list bytes)) : list bytes :=
  match payload with
  | None => []
  | Some p => c_write BigSize type ++ c_write BigSize (length_writer p) ++ p
  end.

(** [encode_tlv_stream!]. *)
Definition encode_tlv_stream (fs : list (Z * option (list bytes))) : list bytes :=
  concat ((fun f => encode_tlv f.1 f.2) <$> fs).

(** [get_varint_length_prefixed_tlv_length!], summed. *)
Definition tlv_length (fs : list (Z * option (list bytes))) : Z :=
  foldl (fun len f =>
    match f.2 with
    | None => len
    | Some p => len + serialized_length BigSize f.1 + serialized_length BigSize (length_writer p) + length_writer p
    end) 0 fs.

(** [encode_varint_length_prefixed_tlv!] and [write_tlv_fields!]. *)
Definition write_tlv_fields (fs : list (Z * option (list bytes))) : list bytes :=
  c_write BigSize (tlv_length fs) ++ encode_tlv_stream fs.

(** [write_ver_prefix!] and [read_ver_prefix!]. *)
Definition write_ver_prefix (this_version min_version : Z) : list bytes := [[this_version]; [min_version]].
Definition read_ver_prefix (this_version : Z) : rd Z :=
  ver ← c_read u8c; min_ver ← c_read u8c;
  if this_version <? min_ver then rerr UnknownVersion else mret ver.

(** ** The specification: records instead of bytes *)

Definition record_bytes (r : Z * bytes) : bytes :=
  encode BigSize r.1 ++ encode BigSize (Z.of_nat (length r.2)) ++ r.2.

Definition record_ok (r : Z * bytes) : Prop := u64 r.1 /\ u64 (Z.of_nat (length r.2)).

(** A type that does not come after the last one. *)
Definition out_of_order (last : option Z) (typ : Z) : bool :=
  match last with Some t => negb (t <? typ) | None => false end.

Lemma out_of_order_eq last typ : out_of_order last typ = not_increasing last typ.
Proof. destruct last as [t|]; [|done]. cbn. lia. Qed.

Section Spec.
Context {S : Type} (fields : list (tlv_field S)).

Fixpoint tlv_spec (last_seen_type : option Z) (s : S) (recs : list (Z * bytes)) : outcome (result S DecodeError) :=
  match recs with
  | [] => Ret (each (check_missing_tlv last_seen_type) fields s)
  | (typ, payload) :: recs' =>
      if out_of_order last_seen_type typ then Ret (Err InvalidValue)
      else
        match each (check_tlv_order last_seen_type typ) fields s with
        | Err e => Ret (Err e)
        | Ok s =>
            match field_of fields typ with
            | Some f =>
                match run (tf_decode f s) payload with
                | (Ret (Ok s'), []) => tlv_spec (Some typ) s' recs'
                | (Ret (Ok _), _ :: _) => Ret (Err InvalidValue)
                | (o, _) => o
                end
            | None =>
                if typ `mod` 2 =? 0 then Ret (Err UnknownRequiredFeature)
                else tlv_spec (Some typ) s recs'
            end
        end
  end.

Lemma run_in_tracking_ok {A} (c : Codec A) valid `{!RoundTrip c valid} x rest :
  valid x -> exists h, run (in_tracking false (c_read c)) (encode c x ++ rest) = (Ret (Ok (Ok x, h)), rest).
Proof. intros Hx. rewrite run_in_tracking, round_trip by done. by eexists. Qed.

Lemma run_eat_exact n (bs rest : bytes) :
  n = Z.of_nat (length bs) ->
  run (eat_remaining (fixed_new n)) (bs ++ rest) = (Ret (Ok (mkFixed n n)), rest).
Proof.
  intros ->. rewrite run_eat_remaining by (apply fixed_new_ok; lia).
  assert (R : room (fixed_new (Z.of_nat (length bs))) = length bs) by (unfold room, fixed_new; cbn; lia).
  rewrite R, length_app. replace (_ <=? _)%nat with true by (symmetry; apply Nat.leb_le; lia).
  by rewrite drop_app_length.
Qed.

Lemma run_eat_done n (bs : bytes) : run (eat_remaining (mkFixed n n)) bs = (Ret (Ok (mkFixed n n)), bs) \/ n < 0.
Proof.
  destruct (Z_lt_le_dec n 0); [by right|left].
  rewrite run_eat_remaining by (unfold fixed_ok; cbn; lia).
  assert (R : room (mkFixed n n) = 0%nat) by (unfold room; cbn; lia). by rewrite R.
Qed.

(** Reading the value of a known field from a record. *)
Lemma run_field_value {B} (m : rd S) payload rest (k : S -> FixedLengthReader -> rd B) :
  run ('(s, sr) ← in_fixed (fixed_new (Z.of_nat (length payload))) m;
       if bytes_remain sr then _ ← eat_remaining sr; rerr InvalidValue
       else _ ← eat_remaining sr; k s sr) (payload ++ rest) =
  match run m payload with
  | (Ret (Ok s'), []) =>
      run (k s' (mkFixed (Z.of_nat (length payload)) (Z.of_nat (length payload)))) rest
  | (Ret (Ok _), _ :: _) => (Ret (Err InvalidValue), rest)
  | (Ret (Err e), l) => (Ret (Err e), l ++ rest)
  | (Panic w, l) => (Panic w, l ++ rest)
  | (OutOfFuel, l) => (OutOfFuel, l ++ rest)
  end.
Proof.
  rewrite run_bind, run_in_fixed by (apply fixed_new_ok; lia). cbv zeta.
  assert (R : room (fixed_new (Z.of_nat (length payload))) = length payload) by (unfold room, fixed_new; cbn; lia).
  rewrite R, take_app_length, drop_app_length.
  destruct (run_suffix m payload) as (n & Hn & E). destruct (run m payload) as [[[s'|e]|w|] l]; try done.
  cbn in E. subst l. unfold advance, fixed_new, bytes_remain. cbn [bytes_read total_bytes].
  rewrite length_drop. destruct (drop n payload) as [|b l] eqn:Ed.
  - assert (length (drop n payload) = 0%nat) as Hl by (by rewrite Ed). rewrite length_drop in Hl.
    replace (0 + _) with (Z.of_nat (length payload)) by lia. rewrite Z.eqb_refl. cbn [negb app].
    rewrite run_bind. destruct (run_eat_done (Z.of_nat (length payload)) rest) as [->|]; [done|lia].
  - assert (length (drop n payload) = Datatypes.S (length l)) as Hl by (by rewrite Ed). rewrite length_drop in Hl.
    replace (0 + _ =? _) with false by (symmetry; apply Z.eqb_neq; lia). cbn [negb]. rewrite run_bind.
    rewrite run_eat_remaining by (unfold fixed_ok; cbn; lia).
    match goal with |- context [room ?x] => assert (Rx : room x = Datatypes.S (length l)) by (unfold room; cbn; lia) end.
    rewrite Rx, length_app. replace (_ <=? _)%nat with true by (symmetry; apply Nat.leb_le; cbn; lia).
    cbn [run lift]. f_equal. by rewrite (drop_app_length' (b :: l)).
Qed.

Lemma tlv_loop_spec fuel last s recs :
  Forall record_ok recs -> (length recs < fuel)%nat ->
  (run (tlv_loop fields fuel last s) (concat (record_bytes <$> recs))).1 = tlv_spec last s recs.
Proof.
  intros Hr. revert fuel last s. induction Hr as [|[typ payload] recs [Ht Hp] _ IH]; intros fuel last s Hf;
    (destruct fuel as [|fuel]; [cbn in Hf; lia|]); cbn [tlv_loop fmap list_fmap concat tlv_spec].
  - done.
  - cbn [fst snd] in *. unfold record_bytes at 1. cbn [fst snd]. rewrite <- !app_assoc.
    destruct (run_in_tracking_ok BigSize u64 typ
      (encode BigSize (Z.of_nat (length payload)) ++ payload ++ concat (record_bytes <$> recs)) Ht) as [h E].
    rewrite (run_bind_Ok _ _ _ _ _ E). rewrite ?out_of_order_eq in *. destruct (not_increasing last typ); [done|].
    destruct (each (check_tlv_order last typ) fields s) as [s1|e]; [|done].
    unfold of_result. cbn [mbind rd_mbind rd_bind rd_match].
    match goal with |- context [run ?m (encode BigSize ?z ++ ?r)] => rewrite (run_bind_Ok _ _ _ _ _ (round_trip z r Hp)) end.
    destruct (field_of fields typ) as [f|].
    + match goal with |- context [run ?m (payload ++ ?r)] => rewrite (run_field_value _ payload r) end.
      destruct (run (tf_decode f s1) payload) as [[[s'|e]|w|] [|b l]]; try done. apply IH. cbn in Hf. lia.
    + destruct (typ `mod` 2 =? 0); [done|].
      rewrite run_bind, (run_eat_exact _ payload) by done. apply IH. cbn in Hf. lia.
Qed.
End Spec.

(** ** Lemmas on the specification *)

Section SpecLemmas.
Context {S : Type}.
Implicit Types (fields : list (tlv_field S)) (f : tlv_field S).

Lemma each_ok (chk : tlv_field S -> S -> result S DecodeError) fs s :
  Forall (fun f => chk f s = Ok s) fs -> each chk fs s = Ok s.
Proof. induction 1 as [|f fs Hf _ IH]; [done|]. cbn. by rewrite Hf. Qed.

Lemma check_order_ok last typ f s :
  tf_kind f = Absentable \/ before last (tf_type f) = false \/ typ <= tf_type f ->
  check_tlv_order last typ f s = Ok s.
Proof.
  intros H. unfold check_tlv_order. destruct (tf_kind f) eqn:Ek; [| |done];
    (destruct H as [H|[H|H]]; [done|rewrite H; done|]);
    (replace (tf_type f <? typ) with false by lia); by rewrite andb_false_r.
Qed.

Lemma check_missing_ok last f s :
  tf_kind f = Absentable \/ before last (tf_type f) = false -> check_missing_tlv last f s = Ok s.
Proof.
  intros H. unfold check_missing_tlv. destruct (tf_kind f) eqn:Ek; [| |done];
    (destruct H as [H|H]; [done|by rewrite H]).
Qed.

Lemma field_of_app pre f post :
  Forall (fun g => tf_type g <> tf_type f) pre -> field_of (pre ++ f :: post) (tf_type f) = Some f.
Proof.
  unfold field_of. induction 1 as [|g pre Hg _ IH]; cbn; [by rewrite Z.eqb_refl|].
  replace (tf_type g =? tf_type f) with false by lia. done.
Qed.

(** *** Encoding the fields of a value and decoding them again *)

(** A field, what is written for it, and what reading that does to the variables. *)
Record step := mkStep { st_field : tlv_field S; st_payload : option bytes; st_upd : S -> S }.

Definition step_ok (st : step) : Prop :=
  match st_payload st with
  | None => tf_kind (st_field st) = Absentable
  | Some p => forall s, run (tf_decode (st_field st) s) p = (Ret (Ok (st_upd st s)), [])
  end.

Definition records_of (steps : list step) : list (Z * bytes) :=
  omap (fun st => p ← st_payload st; Some (tf_type (st_field st), p)) steps.

Definition decoded (steps : list step) (s : S) : S :=
  foldl (fun s st => match st_payload st with Some _ => st_upd st s | None => s end) s steps.

Definition increasing (fs : list (tlv_field S)) : Prop :=
  StronglySorted (fun f g => tf_type f < tf_type g) fs.

(** The types seen so far are below those to come, and no required one was missed. *)
Definition passed (last : option Z) (pre post : list (tlv_field S)) : Prop :=
  Forall (fun f => tf_kind f = Absentable \/ before last (tf_type f) = false) pre /\
  Forall (fun f => not_increasing last (tf_type f) = false) post.

Lemma tlv_spec_steps pre steps last s :
  increasing (pre ++ (st_field <$> steps)) -> Forall step_ok steps -> passed last pre (st_field <$> steps) ->
  tlv_spec (pre ++ (st_field <$> steps)) last s (records_of steps) = Ret (Ok (decoded steps s)).
Proof.
  intros Hi Hok Hp. revert pre last s Hi Hp. induction Hok as [|st steps Hst _ IH]; intros pre last s Hi [Hpre Hpost].
  { cbn. rewrite List.app_nil_r. f_equal. apply each_ok. eapply Forall_impl; [exact Hpre|].
    intros f Hf. by apply check_missing_ok. }
  cbn [fmap list_fmap] in *. apply Forall_cons in Hpost as [Hlast Hpost].
  assert (Hsplit : Forall (fun g => tf_type g < tf_type (st_field st)) pre /\
                   Forall (fun g => tf_type (st_field st) < tf_type g) (st_field <$> steps)).
  { apply StronglySorted_app in Hi as (Hc & _ & Hs). inversion Hs; subst. split; [|done].
    apply Forall_forall. intros g Hg. apply Hc; [done|left]. }
  destruct Hsplit as [Hlt Hgt].
  specialize (IH (pre ++ [st_field st])). rewrite <- app_assoc in IH. cbn [app] in IH.
  unfold records_of in *. cbn [omap list_omap]. unfold step_ok in Hst. unfold decoded. cbn [foldl].
  destruct (st_payload st) as [p|]; cbn [mbind option_bind].
  - cbn [tlv_spec]. rewrite out_of_order_eq, Hlast. rewrite each_ok.
    2: { apply Forall_app. split; [|constructor].
         - eapply Forall_impl; [exact Hpre|]. intros f [?|?]; apply check_order_ok; tauto.
         - apply check_order_ok. right. right. lia.
         - eapply Forall_impl; [exact Hgt|]. cbn. intros f Hf. apply check_order_ok. right. right. lia. }
    rewrite field_of_app by (eapply Forall_impl; [exact Hlt|]; cbn; intros; lia).
    rewrite Hst. apply IH; [done|]. split.
    + apply Forall_app. split; [|constructor; [|done]].
      * eapply Forall_impl; [exact Hlt|]. cbn. intros f Hf. right. lia.
      * right. cbn. lia.
    + eapply Forall_impl; [exact Hgt|]. cbn. intros f Hf. lia.
  - apply IH; [done|]. split; [|done]. apply Forall_app. split; [done|]. constructor; [by left|done].
Qed.

Lemma tlv_spec_round_trip steps s :
  increasing (st_field <$> steps) -> Forall step_ok steps ->
  tlv_spec (st_field <$> steps) None s (records_of steps) = Ret (Ok (decoded steps s)).
Proof.
  intros Hi Hok. apply (tlv_spec_steps [] steps None s Hi Hok). split; [constructor|].
  apply Forall_forall. done.
Qed.
End SpecLemmas.
Arguments step : clear implicits.

(** ** The stream reader *)

Lemma record_bytes_length r : record_ok r -> (0 < length (record_bytes r))%nat.
Proof.
  intros [Ht Hl]. unfold record_bytes. rewrite length_app.
  pose proof (bigsize_roundtrip r.1 [] Ht) as E. rewrite List.app_nil_r in E.
  destruct (encode BigSize r.1); [done|cbn; lia].
Qed.

Lemma records_bytes_length recs :
  Forall record_ok recs -> (length recs <= length (concat (record_bytes <$> recs)))%nat.
Proof.
  intros H. rewrite <- (length_fmap record_bytes recs) at 1. apply length_concat_nonempty.
  apply Forall_fmap_iff. eapply Forall_impl; [exact H|]. intros r Hr E.
  apply record_bytes_length in Hr. rewrite E in Hr. cbn in Hr. lia.
Qed.

Section Stream.
Context {S : Type} (fields : list (tlv_field S)).

Lemma bigsize_consumes bs r rest :
  run (c_read BigSize) bs = (Ret r, rest) -> (length rest < length bs)%nat \/ bs = [] /\ rest = [] /\ r = Err ShortRead.
Proof.
  destruct bs as [|b bs]; [intros [= <- <-]; by right|intros H; left].
  destruct (run_suffix (c_read BigSize) (b :: bs)) as (n & Hn & E2). rewrite H in E2. cbn [snd] in E2. subst rest.
  destruct n as [|n]; [|rewrite length_drop; cbn in *; lia].
  exfalso. rewrite drop_0 in H. cbn [c_read BigSize] in H. rewrite run_bind in H.
  change (run (c_read u8c) (b :: bs)) with (Ret (Ok b) : outcome (result Z DecodeError), bs) in H. cbv beta iota in H.
  match type of H with run ?m bs = _ => destruct (run_suffix m bs) as (k & Hk & E3) end.
  rewrite H in E3. cbn [snd] in E3. assert (length (b :: bs) = length (drop k bs)) as L by (by rewrite <- E3).
  rewrite length_drop in L. cbn in L. lia.
Qed.

(** A successful decoder has read the whole stream. *)
Lemma tlv_loop_end fuel last s bs s' rest :
  run (tlv_loop fields fuel last s) bs = (Ret (Ok s'), rest) -> rest = [].
Proof.
  revert last s bs. induction fuel as [|fuel IH]; intros last s bs H; [done|].
  cbn [tlv_loop] in H. apply run_bind_inv in H as ([r h] & bs1 & E & H).
  rewrite run_in_tracking in E. destruct (run (c_read BigSize) bs) as [[r1|w|] rest1] eqn:Eb; simplify_eq.
  destruct r as [typ|[]]; try done.
  - rewrite ?out_of_order_eq in *. destruct (not_increasing last typ); [done|].
    apply run_bind_inv in H as (s1 & bs2 & E2 & H). apply run_bind_inv in H as (len & bs3 & E3 & H).
    destruct (field_of fields typ) as [f|].
    + apply run_bind_inv in H as ([s2 sr] & bs4 & E4 & H). destruct (bytes_remain sr).
      * by apply run_bind_inv in H as (? & ? & _ & H).
      * apply run_bind_inv in H as (? & ? & _ & H). by eapply IH.
    + destruct (typ `mod` 2 =? 0); [done|]. apply run_bind_inv in H as (? & ? & _ & H). by eapply IH.
  - destruct (bigsize_consumes _ _ _ Eb) as [Hlt|(-> & -> & _)].
    + replace (length bs1 <? length bs)%nat with true in H by (symmetry; by apply Nat.ltb_lt). done.
    + cbn in H. by injection H as _ <-.
Qed.

Lemma run_decode_tlv_stream s recs :
  Forall record_ok recs ->
  (run (decode_tlv_stream fields s) (concat (record_bytes <$> recs))).1 = tlv_spec fields None s recs.
Proof.
  intros Hr. unfold decode_tlv_stream. cbn [run]. apply tlv_loop_spec; [done|].
  cbn [left Read_slice]. pose proof (records_bytes_length recs Hr). lia.
Qed.

Lemma run_decode_tlv_ok s recs s' :
  Forall record_ok recs -> tlv_spec fields None s recs = Ret (Ok s') ->
  run (decode_tlv_stream fields s) (concat (record_bytes <$> recs)) = (Ret (Ok s'), []).
Proof.
  intros Hr H. rewrite <- (run_decode_tlv_stream s recs Hr) in H.
  destruct (run (decode_tlv_stream fields s) _) as [o rest] eqn:E. cbn in H. subst o.
  f_equal. unfold decode_tlv_stream in E. cbn [run] in E. by eapply tlv_loop_end.
Qed.

(** *** No input makes the reader panic or loop *)

Lemma eat_remaining_total s : fixed_ok s -> total (eat_remaining s).
Proof. intros Hs bs _. rewrite run_eat_remaining by done. destruct (_ <=? _)%nat; by eexists _, _. Qed.

Lemma in_fixed_ok {A} (m : rd A) s bs a s' rest :
  fixed_ok s -> run (in_fixed s m) bs = (Ret (Ok (a, s')), rest) -> fixed_ok s'.
Proof.
  intros Hs. rewrite run_in_fixed by done. cbv zeta.
  destruct (run_suffix m (take (room s) bs)) as (n & Hn & E).
  destruct (run m (take (room s) bs)) as [[[x|e]|w|] l]; intros; simplify_eq. cbn in E. subst l.
  unfold fixed_ok, advance, room in *. cbn. rewrite length_drop. rewrite !length_take in *. lia.
Qed.

Lemma total_tlv_loop fuel last s bs :
  Forall (fun f => forall s, total (tf_decode f s)) fields ->
  sized bs -> (length bs < fuel)%nat ->
  exists r rest, run (tlv_loop fields fuel last s) bs = (Ret r, rest).
Proof.
  intros Hf. revert last s bs. induction fuel as [|fuel IH]; intros last s bs Hu Hl; [lia|].
  cbn [tlv_loop]. rewrite run_bind, run_in_tracking.
  destruct (is_total (c := BigSize) bs Hu) as (r & bs1 & E1). rewrite E1.
  assert (Hu1 : sized bs1) by (by eapply run_sized). destruct r as [typ|e].
  2: { destruct e; try (by eexists _, _). destruct (negb _); by eexists _, _. }
  destruct (bigsize_consumes _ _ _ E1) as [Hlt|(_ & _ & ?)]; [|done].
  destruct (not_increasing last typ); [by eexists _, _|]. rewrite run_bind.
  destruct (each _ _ _) as [s1|e]; [|by eexists _, _]. cbn [of_result run lift]. rewrite run_bind.
  destruct (is_total (c := BigSize) bs1 Hu1) as ([len|e] & bs2 & E2); rewrite E2; [|by eexists _, _].
  assert (Hu2 : sized bs2) by (by eapply run_sized).
  assert (Hlen : 0 <= len) by (apply (typed bs1) in E2; [|apply Hu1]; destruct E2; lia).
  assert (Hb2 : (length bs2 < fuel)%nat).
  { destruct (bigsize_consumes _ _ _ E2) as [?|(_ & _ & ?)]; [lia|done]. }
  assert (Heat : forall sr (bs' : bytes), fixed_ok sr -> sized bs' -> (length bs' < fuel)%nat -> forall s',
    exists r rest, run (_ ← eat_remaining sr; tlv_loop fields fuel (Some typ) s') bs' = (Ret r, rest)).
  { intros sr bs' Hsr Hu' Hl' s'. rewrite run_bind.
    destruct (eat_remaining_total sr Hsr bs' Hu') as ([x|e] & bs'' & E''); rewrite E''; [|by eexists _, _].
    apply IH; [by eapply run_sized|]. destruct (run_suffix (eat_remaining sr) bs') as (k & _ & Ek).
    rewrite E'' in Ek. cbn in Ek. subst bs''. rewrite length_drop. lia. }
  destruct (field_of fields typ) as [f|] eqn:Ef.
  - assert (Hd : total (in_fixed (fixed_new len) (tf_decode f s1))).
    { apply total_in_fixed; [by apply fixed_new_ok|]. unfold field_of in Ef. apply find_some in Ef as [Hin _].
      rewrite Forall_forall in Hf. apply Hf. by apply list_elem_of_In. }
    rewrite run_bind. destruct (Hd bs2 Hu2) as ([[s2 sr]|e] & bs3 & E3); rewrite E3; [|by eexists _, _].
    assert (Hsr : fixed_ok sr) by (eapply in_fixed_ok; [by apply fixed_new_ok|exact E3]).
    assert (Hu3 : sized bs3) by (by eapply run_sized).
    destruct (bytes_remain sr).
    + rewrite run_bind. destruct (eat_remaining_total sr Hsr bs3 Hu3) as ([x|e] & bs4 & ->); by eexists _, _.
    + apply Heat; [done|done|]. destruct (run_suffix (in_fixed (fixed_new len) (tf_decode f s1)) bs2) as (k & _ & Ek).
      rewrite E3 in Ek. cbn in Ek. subst bs3. rewrite length_drop. lia.
  - destruct (typ `mod` 2 =? 0); [by eexists _, _|]. apply Heat; [by apply fixed_new_ok|done|done].
Qed.

Lemma total_decode_tlv_stream s :
  Forall (fun f => forall s, total (tf_decode f s)) fields -> total (decode_tlv_stream fields s).
Proof.
  intros Hf bs Hu. unfold decode_tlv_stream. cbn [run]. apply total_tlv_loop; [done|done|]. cbn. lia.
Qed.
End Stream.

(** *** What a successful decoder establishes *)

Section Inv.
Context {S : Type} (fields : list (tlv_field S)).

(** [P] is kept by everything the macros do to the variables. *)
Definition kept_by (P : S -> Prop) (f : tlv_field S) : Prop :=
  (forall s bs s' rest, P s -> all_u8 bs -> run (tf_decode f s) bs = (Ret (Ok s'), rest) -> P s') /\
  match tf_kind f with DefaultValue d => forall s, P s -> P (d s) | _ => True end.

Lemma each_kept P (chk : tlv_field S -> S -> result S DecodeError) fs s s' :
  Forall (fun f => forall s s', P s -> chk f s = Ok s' -> P s') fs -> P s -> each chk fs s = Ok s' -> P s'.
Proof.
  intros H. revert s. induction H as [|f fs Hf _ IH]; intros s Hs E; cbn in E; [by simplify_eq|].
  destruct (chk f s) as [s1|] eqn:E1; [|done]. eapply IH; [|done]. by eapply Hf.
Qed.

Lemma check_order_kept P last typ f s s' :
  kept_by P f -> P s -> check_tlv_order last typ f s = Ok s' -> P s'.
Proof.
  intros [_ Hd] Hs. unfold check_tlv_order. destruct (tf_kind f); repeat case_match; intros; simplify_eq; auto.
Qed.

Lemma check_missing_kept P last f s s' :
  kept_by P f -> P s -> check_missing_tlv last f s = Ok s' -> P s'.
Proof.
  intros [_ Hd] Hs. unfold check_missing_tlv. destruct (tf_kind f); repeat case_match; intros; simplify_eq; auto.
Qed.

Lemma in_fixed_inv {A} (m : rd A) n bs a sr rest :
  0 <= n -> all_u8 bs -> run (in_fixed (fixed_new n) m) bs = (Ret (Ok (a, sr)), rest) ->
  exists bs' rest', all_u8 bs' /\ run m bs' = (Ret (Ok a), rest').
Proof.
  intros Hn Hu. rewrite run_in_fixed by (by apply fixed_new_ok). cbv zeta.
  destruct (run m _) as [[[x|e]|w|] l] eqn:E; intros; simplify_eq.
  eexists _, _. split; [|exact E]. by apply Forall_take.
Qed.

(** The decoders a successful run goes through. *)
Lemma tlv_loop_inv P fuel last s bs s' rest :
  Forall (kept_by P) fields -> all_u8 bs -> P s ->
  run (tlv_loop fields fuel last s) bs = (Ret (Ok s'), rest) -> P s'.
Proof.
  intros Hk. assert (Ho : forall last typ, Forall (fun f => forall s s', P s -> check_tlv_order last typ f s = Ok s' -> P s') fields).
  { intros. eapply Forall_impl; [exact Hk|]. intros f Hf s1 s2. by apply check_order_kept. }
  assert (Hm : forall last, Forall (fun f => forall s s', P s -> check_missing_tlv last f s = Ok s' -> P s') fields).
  { intros. eapply Forall_impl; [exact Hk|]. intros f Hf s1 s2. by apply check_missing_kept. }
  revert last s bs. induction fuel as [|fuel IH]; intros last s bs Hu Hs H; [done|].
  cbn [tlv_loop] in H. apply run_bind_inv in H as ([r h] & bs1 & E & H).
  assert (all_u8 bs1) by (by eapply run_u8). destruct r as [typ|[]]; try done.
  - rewrite ?out_of_order_eq in *. destruct (not_increasing last typ); [done|].
    apply run_bind_inv in H as (s1 & bs2 & E2 & H). apply run_bind_inv in H as (len & bs3 & E3 & H).
    assert (Hs1 : P s1) by (unfold of_result in E2; cbn in E2; injection E2 as E2 _; by eapply each_kept).
    assert (all_u8 bs2) by (by eapply run_u8). assert (all_u8 bs3) by (by eapply run_u8).
    apply typed in E3; [|done]. destruct (field_of fields typ) as [f|] eqn:Ef.
    + apply run_bind_inv in H as ([s2 sr] & bs4 & E4 & H). destruct (bytes_remain sr).
      * by apply run_bind_inv in H as (? & ? & _ & H).
      * assert (all_u8 bs4) by (by eapply run_u8).
        apply run_bind_inv in H as (? & bs5 & E5 & H). eapply IH; [by eapply run_u8| |exact H].
        apply in_fixed_inv in E4 as (bs' & rest' & Hu' & E4); [|width_lia|done].
        unfold field_of in Ef. apply find_some in Ef as [Hin _]. rewrite Forall_forall in Hk.
        destruct (Hk f) as [Hdec _]; [by apply list_elem_of_In|]. exact (Hdec _ _ _ _ Hs1 Hu' E4).
    + destruct (typ `mod` 2 =? 0); [done|]. apply run_bind_inv in H as (? & ? & E5 & H).
      eapply IH; [by eapply run_u8| |exact H]. done.
  - destruct (negb h); [|done]. cbn in H. injection H as H _. exact (each_kept P _ _ _ _ (Hm last) Hs H).
Qed.

Lemma decode_tlv_stream_inv P s bs s' rest :
  Forall (kept_by P) fields -> all_u8 bs -> P s ->
  run (decode_tlv_stream fields s) bs = (Ret (Ok s'), rest) -> P s'.
Proof. intros Hk Hu Hs H. unfold decode_tlv_stream in H. cbn [run] in H. by eapply tlv_loop_inv. Qed.

Lemma read_tlv_within_inv P len s bs s' rest :
  Forall (kept_by P) fields -> 0 <= len -> all_u8 bs -> P s ->
  run (read_tlv_within fields len s) bs = (Ret (Ok s'), rest) -> P s'.
Proof.
  intros Hk Hl Hu Hs H. unfold read_tlv_within in H.
  apply run_bind_inv in H as ([s2 r] & bs2 & E2 & H). rewrite run_match in H.
  destruct (run (eat_remaining r) bs2) as [[[x|e]|w|] bs3]; try done. rewrite run_ret in H. simplify_eq.
  apply in_fixed_inv in E2 as (bs' & rest' & Hu' & E4); [|done|done].
  exact (decode_tlv_stream_inv P _ _ _ _ Hk Hu' Hs E4).
Qed.

Lemma read_tlv_fields_inv P s bs s' rest :
  Forall (kept_by P) fields -> all_u8 bs -> P s ->
  run (read_tlv_fields fields s) bs = (Ret (Ok s'), rest) -> P s'.
Proof.
  intros Hk Hu Hs H. unfold read_tlv_fields in H. apply run_bind_inv in H as (len & bs1 & E & H).
  assert (all_u8 bs1) by (by eapply run_u8). apply typed in E; [|done].
  eapply read_tlv_within_inv; [done| |done|done|done]. width_lia.
Qed.

Lemma total_read_tlv_within len s :
  Forall (fun f => forall s, total (tf_decode f s)) fields -> 0 <= len -> total (read_tlv_within fields len s).
Proof.
  intros Hf Hl bs Hu. unfold read_tlv_within. rewrite run_bind.
  destruct (total_in_fixed (decode_tlv_stream fields s) (fixed_new len)) with (bs := bs) as ([[s1 r]|e] & bs1 & E);
    [by apply fixed_new_ok|by apply total_decode_tlv_stream|done| |rewrite E; by eexists _, _].
  rewrite E, run_match. destruct (eat_remaining_total r) with (bs := bs1) as ([x|e] & bs2 & E2).
  - eapply in_fixed_ok; [|exact E]. by apply fixed_new_ok.
  - by eapply run_sized.
  - rewrite E2. by eexists _, _.
  - rewrite E2. by eexists _, _.
Qed.

Lemma total_read_tlv_fields s :
  Forall (fun f => forall s, total (tf_decode f s)) fields -> total (read_tlv_fields fields s).
Proof.
  intros Hf. unfold read_tlv_fields. apply (total_bind_typed BigSize u64). intros len Hl.
  apply total_read_tlv_within; [done|width_lia].
Qed.
End Inv.

(** *** Writing *)

Definition outs_records (outs : list (Z * option (list bytes))) : list (Z * bytes) :=
  omap (fun o => p ← o.2; Some (o.1, concat p)) outs.

Lemma encode_tlv_stream_records outs :
  concat (encode_tlv_stream outs) = concat (record_bytes <$> outs_records outs).
Proof.
  unfold encode_tlv_stream, outs_records. induction outs as [|[t [p|]] outs IH]; [done|..];
    cbn [fmap list_fmap concat omap list_omap mbind option_bind fst snd encode_tlv]; [|done].
  rewrite !concat_app, IH. unfold record_bytes, encode, vec_writer. cbn [fst snd].
  by rewrite <- !app_assoc, length_writer_vec.
Qed.

Lemma tlv_length_encode outs : tlv_length outs = length_writer (encode_tlv_stream outs).
Proof.
  rewrite length_writer_vec. unfold tlv_length, vec_writer, encode_tlv_stream.
  rewrite <- (Z.add_0_l (Z.of_nat _)). generalize 0. induction outs as [|[t [p|]] outs IH]; intros z;
    cbn [foldl fmap list_fmap concat fst snd encode_tlv]; [cbn; lia|rewrite IH|rewrite IH; done].
  rewrite !concat_app, !length_app, !serialized_length_encode, !length_writer_vec. unfold encode, vec_writer. lia.
Qed.

(** *** Required fields are there *)

Section RequiredField.
Context {S : Type} (fields : list (tlv_field S)) (f : tlv_field S) (Q : S -> Prop).
Hypothesis Hfield : field_of fields (tf_type f) = Some f.
Hypothesis Hreq : tf_kind f = Required.
Hypothesis Hset : forall s bs s' rest, all_u8 bs -> run (tf_decode f s) bs = (Ret (Ok s'), rest) -> Q s'.
Hypothesis Hkeep : Forall (kept_by Q) fields.

Lemma required_in : f ∈ fields.
Proof. unfold field_of in Hfield. apply find_some in Hfield as [H _]. by apply list_elem_of_In. Qed.

Lemma each_at (chk : tlv_field S -> S -> result S DecodeError) fs s s' :
  f ∈ fs -> each chk fs s = Ok s' -> exists s1 s2, chk f s1 = Ok s2.
Proof.
  revert s. induction fs as [|g fs IH]; intros s Hin E; [by apply not_elem_of_nil in Hin|].
  cbn in E. destruct (chk g s) as [s1|] eqn:E1; [|done].
  apply elem_of_cons in Hin as [->|Hin]; [by exists s, s1|]. by eapply IH.
Qed.

Lemma order_not_missed last typ s s' :
  each (check_tlv_order last typ) fields s = Ok s' -> before last (tf_type f) = true -> typ <= tf_type f.
Proof.
  intros E Hb. apply (each_at _ _ _ _ required_in) in E as (s1 & s2 & E).
  unfold check_tlv_order in E. rewrite Hreq, Hb in E. cbn [andb] in E.
  destruct (tf_type f <? typ) eqn:Et; [done|]. lia.
Qed.

Lemma tlv_loop_required fuel last s bs s' rest :
  all_u8 bs -> before last (tf_type f) = true \/ Q s ->
  run (tlv_loop fields fuel last s) bs = (Ret (Ok s'), rest) -> Q s'.
Proof.
  revert last s bs. induction fuel as [|fuel IH]; intros last s bs Hu [Hb|Hq] H; [done|done| |].
  2: { eapply tlv_loop_inv; [exact Hkeep|exact Hu|exact Hq|exact H]. }
  cbn [tlv_loop] in H. apply run_bind_inv in H as ([r h] & bs1 & E & H).
  assert (all_u8 bs1) by (by eapply run_u8). destruct r as [typ|[]]; try done.
  - rewrite ?out_of_order_eq in *. destruct (not_increasing last typ); [done|].
    apply run_bind_inv in H as (s1 & bs2 & E2 & H). apply run_bind_inv in H as (len & bs3 & E3 & H).
    cbn in E2. injection E2 as E2 <-. pose proof (order_not_missed _ _ _ _ E2 Hb) as Hle.
    assert (all_u8 bs3) by (by eapply run_u8).
    apply typed in E3; [|done]. destruct (field_of fields typ) as [g|] eqn:Eg.
    + apply run_bind_inv in H as ([s2 sr] & bs4 & E4 & H). destruct (bytes_remain sr).
      { by apply run_bind_inv in H as (? & ? & _ & H). }
      assert (all_u8 bs4) by (by eapply run_u8).
      apply run_bind_inv in H as (? & bs5 & E5 & H). eapply IH; [by eapply run_u8| |exact H].
      destruct (Z.eq_dec typ (tf_type f)) as [->|Hne]; [right|left; cbn; lia].
      apply in_fixed_inv in E4 as (bs' & rest' & Hu' & E4); [|width_lia|done].
      rewrite Hfield in Eg. injection Eg as <-. exact (Hset _ _ _ _ Hu' E4).
    + destruct (typ `mod` 2 =? 0); [done|]. apply run_bind_inv in H as (? & ? & E5 & H).
      eapply IH; [by eapply run_u8| |exact H]. left. cbn.
      destruct (Z.eq_dec typ (tf_type f)) as [->|Hne]; [by rewrite Hfield in Eg|lia].
  - destruct (negb h); [|done]. cbn in H. injection H as H _.
    apply (each_at _ _ _ _ required_in) in H as (s1 & s2 & H). unfold check_missing_tlv in H. by rewrite Hreq, Hb in H.
Qed.

Lemma decode_tlv_stream_required s bs s' rest :
  all_u8 bs -> run (decode_tlv_stream fields s) bs = (Ret (Ok s'), rest) -> Q s'.
Proof.
  intros Hu H. unfold decode_tlv_stream in H. cbn [run] in H.
  exact (tlv_loop_required _ None _ _ _ _ Hu (or_introl eq_refl) H).
Qed.
End RequiredField.

(** ** Properties *)


(** A stream in its declared length gives back the fields, and leaves what follows them. *)
Lemma run_read_tlv_within {S} (steps : list (step S)) (outs : list (Z * option (list bytes))) (s : S) rest :
  outs_records outs = records_of steps -> Forall record_ok (records_of steps) ->
  increasing (st_field <$> steps) -> Forall step_ok steps ->
  run (read_tlv_within (st_field <$> steps) (tlv_length outs) s) (concat (encode_tlv_stream outs) ++ rest) =
  (Ret (Ok (decoded steps s)), rest).
Proof.
  intros Eo Hr Hi Hok. unfold read_tlv_within. set (bs := concat (encode_tlv_stream outs)).
  assert (El : tlv_length outs = Z.of_nat (length bs)) by (by rewrite tlv_length_encode, length_writer_vec).
  rewrite El, run_bind, run_in_fixed by (apply fixed_new_ok; lia). cbv zeta.
  assert (R : room (fixed_new (Z.of_nat (length bs))) = length bs) by (unfold room, fixed_new; cbn; lia).
  rewrite R, take_app_length, drop_app_length. unfold bs at 1.
  rewrite encode_tlv_stream_records, Eo, (run_decode_tlv_ok _ s _ _ Hr (tlv_spec_round_trip steps s Hi Hok)).
  cbn [length app]. rewrite run_match. unfold advance, fixed_new. cbn [bytes_read total_bytes].
  rewrite Nat.sub_0_r, Z.add_0_l. destruct (run_eat_done (Z.of_nat (length bs)) rest) as [->|]; [done|lia].
Qed.

(** [write_tlv_fields!] followed by [read_tlv_fields!]. *)
Lemma read_write_tlv_fields {S} (steps : list (step S)) (outs : list (Z * option (list bytes))) (s : S) rest :
  outs_records outs = records_of steps -> Forall record_ok (records_of steps) -> u64 (tlv_length outs) ->
  increasing (st_field <$> steps) -> Forall step_ok steps ->
  run (read_tlv_fields (st_field <$> steps) s) (concat (write_tlv_fields outs) ++ rest) =
  (Ret (Ok (decoded steps s)), rest).
Proof.
  intros Eo Hr Hl Hi Hok. unfold read_tlv_fields, write_tlv_fields. rewrite concat_app, <- app_assoc.
  rewrite (run_field BigSize u64) by done. by apply run_read_tlv_within.
Qed.
