(* ===== verification/Features.v ===== *)
(** * Feature flags: rust-lightning/lightning/src/ln/features.rs

    Flags are a vector of bytes, least significant first, as in the source.  Read as one
    little-endian number, bit [i] of the number is feature bit [i]: the operations on
    bytes are proved to be the operations on bits that BOLT 9 describes. *)

From S2P Require Import Prelude Text Bytes Stream Ser SerLaws.

Local Open Scope Z_scope.

(** ** The code *)

Inductive Feature :=
| DataLossProtect | InitialRoutingSync | UpfrontShutdownScript | GossipQueries
| VariableLengthOnion | StaticRemoteKey | PaymentSecret | BasicMPP | Wumbo
| ShutdownAnySegwit | ChannelType | SCIDPrivacy | ZeroConf | Keysend.

(** The [define_feature!] lines. *)
Definition ODD_BIT (f : Feature) : Z :=
  match f with
  | DataLossProtect => 1 | InitialRoutingSync => 3 | UpfrontShutdownScript => 5 | GossipQueries => 7
  | VariableLengthOnion => 9 | StaticRemoteKey => 13 | PaymentSecret => 15 | BasicMPP => 17 | Wumbo => 19
  | ShutdownAnySegwit => 27 | ChannelType => 45 | SCIDPrivacy => 47 | ZeroConf => 51 | Keysend => 55
  end.
Definition EVEN_BIT (f : Feature) : Z := ODD_BIT f - 1.
Definition BYTE_OFFSET (f : Feature) : Z := EVEN_BIT f `div` 8.
Definition REQUIRED_MASK (f : Feature) : Z := Z.shiftl 1 (EVEN_BIT f - 8 * BYTE_OFFSET f).
Definition OPTIONAL_MASK (f : Feature) : Z := Z.shiftl 1 (ODD_BIT f - 8 * BYTE_OFFSET f).

(** [define_context!]: the features of each byte. *)
Record Context := mkContext {
  required_features : list (list Feature);
  optional_features : list (list Feature);
}.

Definition InitContext : Context := mkContext
  [[]; [VariableLengthOnion; StaticRemoteKey; PaymentSecret]; []; []; []; []; []]
  [[DataLossProtect; InitialRoutingSync; UpfrontShutdownScript; GossipQueries]; []; [BasicMPP; Wumbo];
   [ShutdownAnySegwit]; []; [ChannelType; SCIDPrivacy]; [ZeroConf]].
Definition NodeContext : Context := mkContext
  [[]; [VariableLengthOnion; StaticRemoteKey; PaymentSecret]; []; []; []; []; []]
  [[DataLossProtect; UpfrontShutdownScript; GossipQueries]; []; [BasicMPP; Wumbo];
   [ShutdownAnySegwit]; []; [ChannelType; SCIDPrivacy]; [ZeroConf; Keysend]].
Definition ChannelContext : Context := mkContext [] [].
Definition InvoiceContext : Context := mkContext
  [[]; [VariableLengthOnion; PaymentSecret]; []] [[]; []; [BasicMPP]].
Definition ChannelTypeContext : Context := mkContext
  [[]; [StaticRemoteKey]; []; []; []; [SCIDPrivacy]; [ZeroConf]] [[]; []; []; []; []; []; []].

Definition lor_all (l : list Z) : Z := foldr Z.lor 0 l.
#[global] Arguments lor_all : simpl never.

Definition KNOWN_FEATURE_FLAGS (c : Context) : bytes :=
  zip_with (fun r o => Z.lor (lor_all (REQUIRED_MASK <$> r)) (lor_all (OPTIONAL_MASK <$> o)))
    (required_features c) (optional_features c).
Definition KNOWN_FEATURE_MASK (c : Context) : bytes :=
  zip_with (fun r o => lor_all ((fun f => Z.lor (REQUIRED_MASK f) (OPTIONAL_MASK f)) <$> (r ++ o)))
    (required_features c) (optional_features c).

(** [Vec::resize(n, 0)]. *)
Definition resize (n : nat) (l : bytes) : bytes := take n l ++ replicate (n - length l) 0.

(** The methods of a feature's trait. *)
Definition requires_feature (f : Feature) (flags : bytes) : bool :=
  match flags !! Z.to_nat (BYTE_OFFSET f) with
  | Some b => negb (Z.land b (REQUIRED_MASK f) =? 0)
  | None => false
  end.
Definition supports_feature (f : Feature) (flags : bytes) : bool :=
  match flags !! Z.to_nat (BYTE_OFFSET f) with
  | Some b => negb (Z.land b (Z.lor (REQUIRED_MASK f) (OPTIONAL_MASK f)) =? 0)
  | None => false
  end.

Definition or_at (i : nat) (mask : Z) (flags : bytes) : bytes :=
  let flags := if (length flags <=? i)%nat then resize (i + 1) flags else flags in
  alter (fun b => Z.lor b mask) i flags.
Definition set_required_bit (f : Feature) : bytes -> bytes :=
  or_at (Z.to_nat (BYTE_OFFSET f)) (REQUIRED_MASK f).
Definition set_optional_bit (f : Feature) : bytes -> bytes :=
  or_at (Z.to_nat (BYTE_OFFSET f)) (OPTIONAL_MASK f).

(** [iter().rposition(|&byte| byte != 0)] and the resize after it: drop the zero bytes at
    the end. *)
Fixpoint trim_high (l : bytes) : bytes :=
  match l with
  | [] => []
  | b :: l' => match trim_high l' with [] => if b =? 0 then [] else [b] | t => b :: t end
  end.

(** [!mask] of a [u8]. *)
Definition not8 (m : Z) : Z := Z.lxor m 0xff.

Definition clear_bits (f : Feature) (flags : bytes) : bytes :=
  trim_high (alter (fun b => Z.land (Z.land b (not8 (REQUIRED_MASK f))) (not8 (OPTIONAL_MASK f)))
               (Z.to_nat (BYTE_OFFSET f)) flags).

(** [Features<T>]; the context is an argument where the code uses [T]. *)
Definition empty : bytes := [].
Definition known (c : Context) : bytes := KNOWN_FEATURE_FLAGS c.

(** [InitFeatures::write_up_to_13]. *)
Definition write_up_to_13 (flags : bytes) : list bytes :=
  let len := Nat.min 2 (length flags) in
  c_write u16c (Z.of_nat len) ++
  ((fun i : nat => [let b := nth i flags 0 in if (i =? 0)%nat then b else Z.land b 0x3f]) <$> rev (seq 0 len)).

(** [InitFeatures::or]. *)
Fixpoint or_zip (a b : bytes) : bytes :=
  match a, b with
  | x :: a', y :: b' => Z.lor x y :: or_zip a' b'
  | _, _ => a
  end.
Definition or (flags o : bytes) : bytes :=
  or_zip (resize (Nat.max (length flags) (length o)) flags) o.

(** [to_context_internal] from [T] to [C]. *)
Definition to_context_internal (T C : Context) (flags : bytes) : bytes :=
  zip_with (fun b m => Z.land (Z.land b m.1) m.2) flags
    (zip (KNOWN_FEATURE_MASK T) (KNOWN_FEATURE_MASK C)).

(** [ChannelTypeFeatures::from_counterparty_init] and [only_static_remote_key]. *)
Definition from_counterparty_init (counterparty_init : bytes) : bytes :=
  (fun b => Z.land (Z.lor b (Z.shiftr (Z.land b 0xaa) 1)) 0x55) <$>
    to_context_internal InitContext ChannelTypeContext counterparty_init.
Definition only_static_remote_key : bytes := set_required_bit StaticRemoteKey empty.

Definition supports_any_optional_bits (flags : bytes) : bool :=
  existsb (fun b => negb (Z.land b 0xaa =? 0)) flags.

(** The features of byte [i] that the context does not know. *)
Definition unknown_features (c : Context) (i : nat) : Z :=
  match KNOWN_FEATURE_MASK c !! i with Some m => not8 m | None => 0xff end.

Definition requires_unknown_bits (c : Context) (flags : bytes) : bool :=
  existsb (fun ib => negb (Z.land ib.2 (Z.land 0x55 (unknown_features c ib.1)) =? 0)) (imap pair flags).
Definition supports_unknown_bits (c : Context) (flags : bytes) : bool :=
  existsb (fun ib => negb (Z.land ib.2 (unknown_features c ib.1) =? 0)) (imap pair flags).

(** [write_be] and [from_be_bytes]; the length-prefixed codec of the message features and
    the codec of [ChannelTypeFeatures], which extends to the end of its TLV. *)
Definition write_be (flags : bytes) : list bytes := concat (c_write u8c <$> rev flags).
Definition from_be_bytes (flags : bytes) : bytes := rev flags.

Definition featuresc : Codec bytes :=
  mkCodec (fun flags => c_write u16c (len16 flags) ++ write_be flags)
    (v ← c_read vecc; mret (from_be_bytes v)).
Definition channel_typec : Codec bytes :=
  mkCodec write_be (v ← read_to_end; mret (from_be_bytes v)).

#[global] Typeclasses Opaque featuresc channel_typec.

(** [InvoiceFeatures] in base 32: the loops over the bytes and over the 5-bit digits. *)
Definition lor_u5 (x : Z) (i : nat) (res : bytes) : bytes := alter (fun c => Z.lor c x) i res.

Definition write_u5_step (length_u5s : nat) (res : bytes) (ib : nat * Z) : bytes :=
  let '(byte_idx, byte) := ib in
  let pos := (byte_idx * 8)%nat in
  let idx := (length_u5s - pos / 5 - 1)%nat in
  let shifted := Z.shiftl byte (Z.of_nat (pos mod 5)) in
  let res := lor_u5 (Z.land shifted 0x1f) idx res in
  let res := if (0 <? idx)%nat then lor_u5 (Z.land (Z.shiftr shifted 5) 0x1f) (idx - 1) res else res in
  if (1 <? idx)%nat then lor_u5 (Z.land (Z.shiftr shifted 10) 0x1f) (idx - 2) res else res.

(** "Trim the highest feature bits": digits are most significant first. *)
Fixpoint trim_front (l : bytes) : bytes :=
  match l with
  | [] => []
  | b :: l' => if b =? 0 then trim_front l' else l
  end.

Definition write_base32 (flags : bytes) : bytes :=
  let length_u5s := ((length flags * 8 + 4) / 5)%nat in
  trim_front (foldl (write_u5_step length_u5s) (replicate length_u5s 0) (imap pair flags)).

Definition read_u5_step (n length_bytes : nat) (res : bytes) (ic : nat * Z) : bytes :=
  let '(u5_idx, chunk) := ic in
  let pos := ((n - u5_idx - 1) * 5)%nat in
  let idx := (pos / 8)%nat in
  let bit := Z.of_nat (pos mod 8) in
  let res := lor_u5 (Z.land (Z.shiftl chunk bit) 0xff) idx res in
  if (idx =? length_bytes - 1)%nat then res
  else lor_u5 (Z.land (Z.shiftr chunk (8 - bit)) 0xff) (idx + 1) res.

Definition from_base32 (field_data : bytes) : bytes :=
  let length_bytes := ((length field_data * 5 + 7) / 8)%nat in
  trim_high (foldl (read_u5_step (length field_data) length_bytes) (replicate length_bytes 0) (imap pair field_data)).

(** ** Flags as numbers *)

(** Feature bit [i]. *)
Definition bit (flags : bytes) (i : Z) : bool := Z.testbit (from_le_bytes flags) i.

Lemma from_le_bytes_lor b r : u8 b -> 0 <= from_le_bytes r -> from_le_bytes (b :: r) = Z.lor (Z.shiftl (from_le_bytes r) 8) b.
Proof. intros Hb Hr. cbn [from_le_bytes]. rewrite lor_shiftl_add by (done || lia). lia. Qed.

Lemma bit_spec flags i :
  all_u8 flags -> 0 <= i -> bit flags i = Z.testbit (nth (Z.to_nat (i `div` 8)) flags 0) (i `mod` 8).
Proof.
  unfold bit. intros Hu. revert i. induction Hu as [|b r Hb Hr IH]; intros i Hi.
  { destruct (Z.to_nat (i `div` 8)); by rewrite !Z.testbit_0_l. }
  pose proof (from_le_bytes_bound r Hr) as [Hr0 _]. rewrite from_le_bytes_lor, Z.lor_spec by done.
  destruct (Z_lt_le_dec i 8) as [Hlt|Hge].
  - rewrite Z.shiftl_spec_low by done. rewrite Z.div_small, Z.mod_small by lia. done.
  - rewrite Z.shiftl_spec, (testbit_above 8 b) by (done || lia). rewrite orb_false_r, IH by lia.
    replace i with ((i - 8) + 1 * 8) at 3 4 by lia. rewrite Z.div_add, Z.mod_add by lia.
    replace (Z.to_nat ((i - 8) `div` 8 + 1)) with (S (Z.to_nat ((i - 8) `div` 8))); [done|].
    pose proof (Z.div_pos (i - 8) 8). lia.
Qed.

Lemma bit_at flags (k : nat) j :
  all_u8 flags -> 0 <= j < 8 -> bit flags (8 * Z.of_nat k + j) = Z.testbit (nth k flags 0) j.
Proof.
  intros Hu Hj. rewrite bit_spec by (done || lia).
  rewrite Z.mul_comm, Z.add_comm, Z.div_add, Z.mod_add, Z.div_small, Z.mod_small by lia.
  by rewrite Z.add_0_l, Nat2Z.id.
Qed.

(** A byte meets a mask when a bit of one is a bit of the other. *)
Lemma land_nonzero b m : u8 b -> negb (Z.land b m =? 0) = true <-> exists j, 0 <= j < 8 /\ Z.testbit b j = true /\ Z.testbit m j = true.
Proof.
  intros Hb. rewrite negb_true_iff, Z.eqb_neq. split.
  - intros H. destruct (Z.eq_dec (Z.land b m) 0) as [|Hne]; [done|].
    assert (Hp : 0 < Z.land b m).
    { assert (0 <= Z.land b m) by (apply Z.land_nonneg; destruct Hb; lia). lia. }
    exists (Z.log2 (Z.land b m)). pose proof (Z.bit_log2 _ Hp) as E. rewrite Z.land_spec, andb_true_iff in E.
    destruct E as [E1 E2]. split; [|done]. pose proof (Z.log2_nonneg (Z.land b m)). split; [done|].
    destruct (Z_lt_le_dec (Z.log2 (Z.land b m)) 8); [done|].
    rewrite (testbit_above 8 b) in E1 by (done || lia). done.
  - intros (j & Hj & H1 & H2) E. assert (Z.testbit (Z.land b m) j = true) as Ht by (by rewrite Z.land_spec, H1, H2).
    by rewrite E, Z.testbit_0_l in Ht.
Qed.

Lemma EVEN_BIT_split f : EVEN_BIT f = 8 * BYTE_OFFSET f + (EVEN_BIT f - 8 * BYTE_OFFSET f) /\
  ODD_BIT f = 8 * BYTE_OFFSET f + (ODD_BIT f - 8 * BYTE_OFFSET f) /\ 0 <= BYTE_OFFSET f /\
  0 <= EVEN_BIT f - 8 * BYTE_OFFSET f < 8 /\ 0 <= ODD_BIT f - 8 * BYTE_OFFSET f < 8.
Proof. split_and!; try lia; destruct f; vm_compute; done. Qed.

Lemma testbit_mask k j : 0 <= k -> 0 <= j -> Z.testbit (Z.shiftl 1 k) j = (k =? j).
Proof.
  intros Hk Hj. rewrite Z.shiftl_1_l. destruct (Z.eqb_spec k j) as [->|H]; [by apply Z.pow2_bits_true|].
  by apply Z.pow2_bits_false.
Qed.

Lemma testbit_masks f j : 0 <= j < 8 ->
  Z.testbit (REQUIRED_MASK f) j = (EVEN_BIT f =? 8 * BYTE_OFFSET f + j) /\
  Z.testbit (OPTIONAL_MASK f) j = (ODD_BIT f =? 8 * BYTE_OFFSET f + j).
Proof.
  intros Hj. destruct (EVEN_BIT_split f) as (_ & _ & _ & He & Ho). unfold REQUIRED_MASK, OPTIONAL_MASK.
  rewrite !testbit_mask by lia. split; lia.
Qed.

Lemma nth_lookup_default (flags : bytes) k : nth k flags 0 = default 0 (flags !! k).
Proof. destruct (flags !! k) eqn:E; [by apply nth_lookup_Some|]. apply nth_overflow. by apply lookup_ge_None. Qed.

(** ** What a feature's methods test and set *)

Lemma lookup_u8 (flags : bytes) k b : all_u8 flags -> flags !! k = Some b -> u8 b.
Proof. intros Hu E. eapply Forall_lookup in Hu; done. Qed.

Lemma requires_feature_spec f flags : all_u8 flags -> requires_feature f flags = bit flags (EVEN_BIT f).
Proof.
  intros Hu. destruct (EVEN_BIT_split f) as (E & _ & H0 & He & _). rewrite E.
  rewrite <- (Z2Nat.id (BYTE_OFFSET f)) at 1 by done. rewrite bit_at by done. rewrite nth_lookup_default.
  unfold requires_feature. destruct (flags !! Z.to_nat (BYTE_OFFSET f)) as [b|] eqn:Eb; [|by rewrite Z.testbit_0_l].
  cbn [from_option id]. apply eq_bool_prop_intro. rewrite !Is_true_true. rewrite land_nonzero by (by eapply lookup_u8). split.
  - intros (j & Hj & H1 & H2). rewrite (proj1 (testbit_masks f j Hj)) in H2. apply Z.eqb_eq in H2.
    by replace (EVEN_BIT f - 8 * BYTE_OFFSET f) with j by lia.
  - intros H. exists (EVEN_BIT f - 8 * BYTE_OFFSET f). split; [done|]. split; [done|].
    rewrite (proj1 (testbit_masks f _ He)). lia.
Qed.

Lemma supports_feature_spec f flags :
  all_u8 flags -> supports_feature f flags = bit flags (EVEN_BIT f) || bit flags (ODD_BIT f).
Proof.
  intros Hu. destruct (EVEN_BIT_split f) as (E & Eo & H0 & He & Ho). rewrite E, Eo.
  rewrite <- (Z2Nat.id (BYTE_OFFSET f)) at 1 3 by done. rewrite !bit_at by done. rewrite nth_lookup_default.
  unfold supports_feature. destruct (flags !! Z.to_nat (BYTE_OFFSET f)) as [b|] eqn:Eb; [|by rewrite !Z.testbit_0_l].
  cbn [from_option id]. apply eq_bool_prop_intro. rewrite !Is_true_true. rewrite land_nonzero by (by eapply lookup_u8).
  rewrite orb_true_iff. split.
  - intros (j & Hj & H1 & H2). destruct (testbit_masks f j Hj) as [Mr Mo]. rewrite Z.lor_spec, orb_true_iff, Mr, Mo in H2.
    destruct H2 as [H2|H2]; apply Z.eqb_eq in H2; [left|right].
    + by replace (EVEN_BIT f - 8 * BYTE_OFFSET f) with j by lia.
    + by replace (ODD_BIT f - 8 * BYTE_OFFSET f) with j by lia.
  - intros [H|H]; [exists (EVEN_BIT f - 8 * BYTE_OFFSET f)|exists (ODD_BIT f - 8 * BYTE_OFFSET f)];
      (split; [done|]); (split; [done|]); rewrite Z.lor_spec.
    + rewrite (proj1 (testbit_masks f _ He)). apply orb_true_iff. left. lia.
    + rewrite (proj2 (testbit_masks f _ Ho)). apply orb_true_iff. right. lia.
Qed.

Lemma resize_u8 n flags : all_u8 flags -> all_u8 (resize n flags).
Proof. intros Hu. apply Forall_app. split; [by apply Forall_take|apply zeros_u8]. Qed.

Lemma nth_resize n flags k : (length flags <= n)%nat -> nth k (resize n flags) 0 = nth k flags 0.
Proof.
  intros Hn. unfold resize. rewrite take_ge by done. destruct (Nat.lt_ge_cases k (length flags)).
  - by rewrite app_nth1.
  - rewrite app_nth2 by done. rewrite (nth_overflow flags) by done.
    rewrite nth_lookup_default. destruct (_ !! _) as [b|] eqn:E; [|done].
    by apply lookup_replicate in E as [-> _].
Qed.

Lemma or_at_u8 i m flags : u8 m -> all_u8 flags -> all_u8 (or_at i m flags).
Proof.
  intros Hm Hu. unfold or_at. apply Forall_alter; [destruct (_ <=? _)%nat; [by apply resize_u8|done]|].
  intros b _ Hb. apply lor_in_width; (done || lia).
Qed.

Lemma nth_or_at i m flags k :
  nth k (or_at i m flags) 0 = if (k =? i)%nat then Z.lor (nth k flags 0) m else nth k flags 0.
Proof.
  unfold or_at. set (fl := if (length flags <=? i)%nat then resize (i + 1) flags else flags).
  assert (Hl : (i < length fl)%nat /\ nth k fl 0 = nth k flags 0).
  { unfold fl. destruct (Nat.leb_spec (length flags) i).
    - rewrite nth_resize by lia. split; [|done]. unfold resize. rewrite length_app, length_take, length_replicate. lia.
    - split; [lia|done]. }
  destruct Hl as [Hl E]. rewrite <- E, !nth_lookup_default.
  destruct (Nat.eqb_spec k i) as [->|Hne].
  - rewrite list_lookup_alter_eq. destruct (fl !! i) eqn:Ei; [done|]. apply lookup_ge_None in Ei. lia.
  - by rewrite list_lookup_alter_ne.
Qed.

Lemma bit_or_at k j flags i :
  0 <= j < 8 -> 0 <= i -> all_u8 flags ->
  bit (or_at k (Z.shiftl 1 j) flags) i = bit flags i || (i =? 8 * Z.of_nat k + j).
Proof.
  intros Hj Hi Hu. assert (Hm : u8 (Z.shiftl 1 j)).
  { apply (shiftl_in_width 1); [lia..|by vm_compute]. }
  rewrite !bit_spec by (done || by apply or_at_u8). rewrite nth_or_at.
  pose proof (Z.mod_pos_bound i 8 ltac:(lia)). pose proof (Z.div_mod i 8 ltac:(lia)).
  pose proof (Z.div_pos i 8 ltac:(lia) ltac:(lia)).
  destruct (Nat.eqb_spec (Z.to_nat (i `div` 8)) k) as [E|E].
  - rewrite Z.lor_spec, testbit_mask by lia. f_equal. lia.
  - replace (i =? _) with false by lia. by rewrite orb_false_r.
Qed.

Lemma set_bits_spec f flags i :
  all_u8 flags -> 0 <= i ->
  bit (set_required_bit f flags) i = bit flags i || (i =? EVEN_BIT f) /\
  bit (set_optional_bit f flags) i = bit flags i || (i =? ODD_BIT f).
Proof.
  intros Hu Hi. destruct (EVEN_BIT_split f) as (E & Eo & H0 & He & Ho).
  unfold set_required_bit, set_optional_bit, REQUIRED_MASK, OPTIONAL_MASK.
  rewrite !bit_or_at by done. rewrite Z2Nat.id by done. by rewrite <- E, <- Eo.
Qed.

(** [or] is the union. *)
Lemma or_zip_nth a b k : (length b <= length a)%nat -> nth k (or_zip a b) 0 = Z.lor (nth k a 0) (nth k b 0).
Proof.
  revert b k. induction a as [|x a IH]; intros [|y b] k Hl; cbn [or_zip length] in *; try lia.
  - by destruct k.
  - destruct k; by rewrite Z.lor_0_r.
  - destruct k as [|k]; [done|]. cbn. apply IH. lia.
Qed.

Lemma or_zip_u8 a b : all_u8 a -> all_u8 b -> all_u8 (or_zip a b).
Proof.
  intros Ha. revert b. induction Ha as [|x a Hx Ha IH]; intros b Hb; [constructor|].
  destruct Hb as [|y b Hy Hb]; cbn; constructor; auto. apply lor_in_width; (done || lia).
Qed.

Lemma or_spec a b i : all_u8 a -> all_u8 b -> 0 <= i -> bit (or a b) i = bit a i || bit b i.
Proof.
  intros Ha Hb Hi. unfold or. rewrite !bit_spec by (done || (apply or_zip_u8; [by apply resize_u8|done])).
  rewrite or_zip_nth by (unfold resize; rewrite length_app, length_take, length_replicate; lia).
  by rewrite nth_resize, Z.lor_spec by lia.
Qed.

(** ** Known and unknown bits *)

(** The features a context lists, in the byte where it lists them. *)
Definition context_features (c : Context) : list Feature :=
  concat (zip_with app (required_features c) (optional_features c)).
Definition known_bit (c : Context) (i : Z) : bool :=
  existsb (fun f => (EVEN_BIT f =? i) || (ODD_BIT f =? i)) (context_features c).

(** Every feature is listed in the byte of its bits. *)
Definition context_ok (c : Context) : bool :=
  forallb (fun kl => forallb (fun f => BYTE_OFFSET f =? Z.of_nat kl.1) kl.2)
    (imap pair (zip_with app (required_features c) (optional_features c))).

Lemma known_mask_eq c :
  KNOWN_FEATURE_MASK c =
  (fun fs => lor_all ((fun f => Z.lor (REQUIRED_MASK f) (OPTIONAL_MASK f)) <$> fs)) <$>
    zip_with app (required_features c) (optional_features c).
Proof.
  unfold KNOWN_FEATURE_MASK. generalize (required_features c) (optional_features c). intros r.
  induction r as [|x r IH]; intros [|y o]; cbn; [done..|]. by rewrite IH.
Qed.

Lemma testbit_lor_all (l : list Z) j : Z.testbit (lor_all l) j = existsb (fun m => Z.testbit m j) l.
Proof. unfold lor_all. induction l as [|m l IH]; cbn; [by rewrite Z.testbit_0_l|]. by rewrite Z.lor_spec, IH. Qed.

Lemma context_ok_lookup c k fs f :
  context_ok c = true -> zip_with app (required_features c) (optional_features c) !! k = Some fs -> f ∈ fs ->
  BYTE_OFFSET f = Z.of_nat k.
Proof.
  unfold context_ok. intros H Ek Hf. rewrite forallb_forall in H.
  assert (Hin : In (k, fs) (imap pair (zip_with app (required_features c) (optional_features c)))).
  { apply list_elem_of_In, list_elem_of_lookup. exists k. by rewrite list_lookup_imap, Ek. }
  specialize (H _ Hin). cbn [fst snd] in H. rewrite forallb_forall in H. apply Z.eqb_eq, H. by apply list_elem_of_In.
Qed.

(** Bit [j] of byte [k] of the mask is set when the context knows bit [8k+j]. *)
Lemma known_mask_bit c k j :
  context_ok c = true -> 0 <= j < 8 ->
  Z.testbit (default 0 (KNOWN_FEATURE_MASK c !! k)) j = known_bit c (8 * Z.of_nat k + j).
Proof.
  intros Hc Hj. unfold known_bit, context_features. rewrite known_mask_eq, list_lookup_fmap.
  set (bs := zip_with app _ _). apply eq_bool_prop_intro. rewrite !Is_true_true, existsb_exists. split.
  - destruct (bs !! k) as [fs|] eqn:Ek; cbn [fmap option_fmap option_map from_option id]; [|by rewrite Z.testbit_0_l].
    rewrite testbit_lor_all, existsb_exists. intros (m & Hm & Ht).
    apply list_elem_of_In, list_elem_of_fmap in Hm as (f & -> & Hf). exists f. split.
    + apply in_concat. exists fs. rewrite <- !list_elem_of_In. split; [apply list_elem_of_lookup; eauto|done].
    + pose proof (context_ok_lookup c k fs f Hc Ek Hf) as Eo. destruct (testbit_masks f j Hj) as [Mr Mo].
      rewrite Z.lor_spec, Mr, Mo, Eo in Ht. done.
  - intros (f & Hf & Hb). apply in_concat in Hf as (fs & Hfs & Hf). apply list_elem_of_In in Hf, Hfs.
    apply list_elem_of_lookup in Hfs as [k' Ek']. pose proof (context_ok_lookup c k' fs f Hc Ek' Hf) as Eo.
    destruct (EVEN_BIT_split f) as (He & Ho & _ & Be & Bo).
    assert (Hkk : k' = k). { apply orb_true_iff in Hb as [Hb|Hb]; apply Z.eqb_eq in Hb; lia. } subst k'.
    fold bs in Ek'. rewrite Ek'. cbn [fmap option_fmap option_map from_option id].
    rewrite testbit_lor_all, existsb_exists. exists (Z.lor (REQUIRED_MASK f) (OPTIONAL_MASK f)). split.
    + apply list_elem_of_In, list_elem_of_fmap. eauto.
    + destruct (testbit_masks f j Hj) as [Mr Mo]. by rewrite Z.lor_spec, Mr, Mo, Eo.
Qed.

Lemma testbit_not8 m j : 0 <= j < 8 -> Z.testbit (not8 m) j = negb (Z.testbit m j).
Proof.
  intros Hj. unfold not8. change 0xff with (Z.ones 8). rewrite Z.lxor_spec, Z.ones_spec_low by lia.
  apply xorb_true_r.
Qed.

Lemma unknown_features_bit c k j :
  context_ok c = true -> 0 <= j < 8 ->
  Z.testbit (unknown_features c k) j = negb (known_bit c (8 * Z.of_nat k + j)).
Proof.
  intros Hc Hj. rewrite <- known_mask_bit by done. unfold unknown_features.
  destruct (KNOWN_FEATURE_MASK c !! k); cbn [from_option id]; [by apply testbit_not8|].
  rewrite Z.testbit_0_l. change 0xff with (Z.ones 8). by apply Z.ones_spec_low.
Qed.

Lemma existsb_imap_pair (P : nat * Z -> bool) (l : bytes) :
  existsb P (imap pair l) = true <-> exists k b, l !! k = Some b /\ P (k, b) = true.
Proof.
  rewrite existsb_exists. split.
  - intros ([k b] & Hin & HP). apply list_elem_of_In, list_elem_of_lookup in Hin as [i Hi].
    rewrite list_lookup_imap in Hi. destruct (l !! i) eqn:E; simplify_eq/=. eauto.
  - intros (k & b & E & HP). exists (k, b). split; [|done]. apply list_elem_of_In, list_elem_of_lookup.
    exists k. by rewrite list_lookup_imap, E.
Qed.

Lemma testbit_even_mask j : 0 <= j < 8 -> Z.testbit 0x55 j = Z.even j.
Proof. intros Hj. assert (E : j = 0 \/ j = 1 \/ j = 2 \/ j = 3 \/ j = 4 \/ j = 5 \/ j = 6 \/ j = 7) by lia.
  by destruct E as [->|[->|[->|[->|[->|[->|[->| ->]]]]]]]. Qed.

Lemma bit_true_lookup flags i :
  all_u8 flags -> 0 <= i ->
  bit flags i = true <-> exists b, flags !! Z.to_nat (i `div` 8) = Some b /\ u8 b /\ Z.testbit b (i `mod` 8) = true.
Proof.
  intros Hu Hi. rewrite bit_spec by done. rewrite nth_lookup_default.
  destruct (flags !! Z.to_nat (i `div` 8)) as [b|] eqn:E; cbn [from_option id].
  - split; [intros H; exists b; eauto using lookup_u8|]. by intros (b' & [= <-] & _ & ?).
  - rewrite Z.testbit_0_l. split; [done|]. by intros (b & ? & _).
Qed.

(** An unknown required feature is an even bit, set, that belongs to no feature of the
    context; exactly then does [requires_unknown_bits] say so. *)
Theorem requires_unknown_bits_spec (c : Context) (flags : bytes) :
  context_ok c = true -> all_u8 flags ->
  requires_unknown_bits c flags = true <->
  exists i, 0 <= i /\ Z.even i = true /\ bit flags i = true /\ known_bit c i = false.
Proof.
  intros Hc Hu. unfold requires_unknown_bits. rewrite existsb_imap_pair. split.
  - intros (k & b & E & H). cbn [fst snd] in H. rewrite land_nonzero in H by (by eapply lookup_u8).
    destruct H as (j & Hj & Hb & Hm). rewrite Z.land_spec, andb_true_iff, testbit_even_mask, unknown_features_bit in Hm by done.
    destruct Hm as [He Hk]. apply negb_true_iff in Hk. exists (8 * Z.of_nat k + j). split; [lia|]. split_and!; [|  |done].
    + rewrite Z.even_add, Z.even_mul. cbn. by rewrite He.
    + rewrite bit_at by done. by rewrite (nth_lookup_Some _ _ _ _ E).
  - intros (i & Hi & He & Hb & Hk). apply bit_true_lookup in Hb as (b & E & Hub & Ht); [|done|done].
    pose proof (Z.mod_pos_bound i 8 ltac:(lia)). pose proof (Z.div_mod i 8 ltac:(lia)).
    pose proof (Z.div_pos i 8 ltac:(lia) ltac:(lia)).
    exists (Z.to_nat (i `div` 8)), b. split; [done|]. cbn [fst snd]. rewrite land_nonzero by done.
    exists (i `mod` 8). split; [done|]. split; [done|].
    rewrite Z.land_spec, testbit_even_mask, unknown_features_bit by done. rewrite Z2Nat.id by done.
    replace (8 * (i `div` 8) + i `mod` 8) with i by lia. rewrite Hk. cbn [negb]. rewrite andb_true_r.
    rewrite H0 in He. rewrite Z.even_add, Z.even_mul in He. cbn in He. by destruct (Z.even (i `mod` 8)).
Qed.

Lemma requires_unknown_bits_witness :
  requires_unknown_bits InitContext [0; 0; 0; 0; 1] = true.
Proof.
  apply (requires_unknown_bits_spec InitContext [0; 0; 0; 0; 1]); [reflexivity|by_decide|].
  exists 32. split_and!; [lia|reflexivity|reflexivity|reflexivity].
Defined.

(** ** Contexts and channel types *)

Lemma to_context_nth T C flags k :
  nth k (to_context_internal T C flags) 0 =
  Z.land (Z.land (nth k flags 0) (default 0 (KNOWN_FEATURE_MASK T !! k))) (default 0 (KNOWN_FEATURE_MASK C !! k)).
Proof.
  rewrite !nth_lookup_default. unfold to_context_internal. rewrite lookup_zip_with, lookup_zip_with.
  destruct (flags !! k) as [b|]; [|done]. cbn [mbind option_bind from_option].
  destruct (KNOWN_FEATURE_MASK T !! k) as [m|]; [|by rewrite Z.land_0_r].
  destruct (KNOWN_FEATURE_MASK C !! k) as [m'|]; [done|]. cbn. by rewrite Z.land_0_r.
Qed.

Lemma land_mask_u8 b m : u8 b -> u8 (Z.land b m).
Proof. intros Hb. rewrite Z.land_comm. apply land_in_width; (done || lia). Qed.

Lemma to_context_u8 T C flags : all_u8 flags -> all_u8 (to_context_internal T C flags).
Proof.
  intros Hu. unfold to_context_internal. apply Forall_zip_with_fst with (P := u8); [done|].
  apply Forall_forall. intros m _ b Hb. by do 2 apply land_mask_u8.
Qed.

(** Only features that both contexts know are carried over. *)
Lemma to_context_bit T C flags i :
  context_ok T = true -> context_ok C = true -> all_u8 flags -> 0 <= i ->
  bit (to_context_internal T C flags) i = bit flags i && known_bit T i && known_bit C i.
Proof.
  intros HT HC Hu Hi. rewrite !bit_spec by (done || by apply to_context_u8). rewrite to_context_nth, !Z.land_spec.
  pose proof (Z.mod_pos_bound i 8 ltac:(lia)). pose proof (Z.div_mod i 8 ltac:(lia)).
  pose proof (Z.div_pos i 8 ltac:(lia) ltac:(lia)).
  rewrite !known_mask_bit by done. rewrite Z2Nat.id by done.
  by replace (8 * (i `div` 8) + i `mod` 8) with i by lia.
Qed.

Lemma channel_type_byte b j :
  u8 b -> 0 <= j < 8 ->
  Z.testbit (Z.land (Z.lor b (Z.shiftr (Z.land b 0xaa) 1)) 0x55) j = Z.even j && (Z.testbit b j || Z.testbit b (j + 1)).
Proof.
  intros Hb Hj. rewrite Z.land_spec, testbit_even_mask, Z.lor_spec, Z.shiftr_spec, Z.land_spec by lia.
  rewrite andb_comm. destruct (Z.even j) eqn:Ej; [|done]. cbn [andb]. f_equal.
  assert (Hodd : Z.testbit 0xaa (j + 1) = true).
  { assert (E : j = 0 \/ j = 2 \/ j = 4 \/ j = 6).
    { assert (E : j = 0 \/ j = 1 \/ j = 2 \/ j = 3 \/ j = 4 \/ j = 5 \/ j = 6 \/ j = 7) by lia.
      destruct E as [->|[->|[->|[->|[->|[->|[->| ->]]]]]]]; try done; auto. }
    by destruct E as [->|[->|[->| ->]]]. }
  by rewrite Hodd, andb_true_r.
Qed.

(** A feature bit is known with its partner. *)
Lemma known_bit_partner c i : Z.even i = true -> known_bit c i = known_bit c (i + 1).
Proof.
  intros He. unfold known_bit. induction (context_features c) as [|f l IH]; [done|]. cbn [existsb]. f_equal; [|done].
  assert (Ho : Z.even (ODD_BIT f) = false) by (by destruct f).
  assert (ODD_BIT f <> i) by (intros <-; congruence).
  assert (EVEN_BIT f <> i + 1).
  { unfold EVEN_BIT. intros E. replace i with (ODD_BIT f - 2) in He by lia. by rewrite Z.even_sub, Ho in He. }
  unfold EVEN_BIT in *. lia.
Qed.

Lemma even_byte i : Z.even (i `mod` 8) = Z.even i.
Proof.
  rewrite (Z.div_mod i 8) at 2 by lia. rewrite Z.even_add, Z.even_mul. cbn. by destruct (Z.even (i `mod` 8)).
Qed.

(** The implicit channel type has exactly the required bits of the features that are
    known for channels and initial features and that the peer supports, in either form. *)
Theorem from_counterparty_init_spec (init : bytes) (i : Z) :
  all_u8 init -> 0 <= i ->
  bit (from_counterparty_init init) i =
  Z.even i && (bit init i || bit init (i + 1)) && known_bit InitContext i && known_bit ChannelTypeContext i.
Proof.
  intros Hu Hi. pose proof (to_context_u8 InitContext ChannelTypeContext init Hu) as Hc.
  assert (Hr : all_u8 (from_counterparty_init init)).
  { apply Forall_fmap_iff. eapply Forall_impl; [exact Hc|]. intros b Hb.
    apply land_mask_u8, lor_in_width; [lia|done|]. apply (shiftr_in_width 8); [lia..|by apply land_mask_u8]. }
  pose proof (Z.mod_pos_bound i 8 ltac:(lia)) as Hm. rewrite bit_spec by done.
  unfold from_counterparty_init. rewrite nth_lookup_default, list_lookup_fmap.
  replace (default 0 _) with ((fun b => Z.land (Z.lor b (Z.shiftr (Z.land b 0xaa) 1)) 0x55)
    (nth (Z.to_nat (i `div` 8)) (to_context_internal InitContext ChannelTypeContext init) 0)).
  2: { rewrite nth_lookup_default. by destruct (_ !! _). }
  assert (Hub : u8 (nth (Z.to_nat (i `div` 8)) (to_context_internal InitContext ChannelTypeContext init) 0)).
  { rewrite nth_lookup_default. destruct (_ !! _) eqn:E; [exact (lookup_u8 _ _ _ Hc E)|by vm_compute]. }
  rewrite channel_type_byte, even_byte by done.
  destruct (Z.even i) eqn:He; [|done]. cbn [andb].
  assert (Hne : i `mod` 8 <> 7). { intros E. rewrite <- even_byte, E in He. done. }
  rewrite <- bit_spec by done.
  replace (Z.testbit (nth (Z.to_nat (i `div` 8)) _ 0) (i `mod` 8 + 1)) with
    (bit (to_context_internal InitContext ChannelTypeContext init) (i + 1)).
  2: { rewrite bit_spec by (done || lia). pose proof (Z.div_mod i 8 ltac:(lia)).
       rewrite (Z.div_unique (i + 1) 8 (i `div` 8) (i `mod` 8 + 1)) at 1 by lia.
       by rewrite (Z.mod_unique (i + 1) 8 (i `div` 8) (i `mod` 8 + 1)) at 1 by lia. }
  rewrite !to_context_bit by (done || lia). rewrite <- !known_bit_partner by done.
  by destruct (bit init i), (bit init (i + 1)), (known_bit InitContext i), (known_bit ChannelTypeContext i).
Qed.

Lemma from_counterparty_init_witness :
  bit (from_counterparty_init [0; 0x20]) 12 = true.
Proof. rewrite (from_counterparty_init_spec [0; 0x20] 12); [reflexivity|by_decide|lia]. Defined.

(** ** On the wire *)

Lemma concat_write_be flags : concat (write_be flags) = rev flags.
Proof.
  unfold write_be. induction (rev flags) as [|b l IH]; [done|]. cbn [fmap list_fmap concat].
  rewrite concat_app, IH. done.
Qed.

Global Instance featuresc_total : Total featuresc.
Proof. solve_total. Qed.
Global Instance featuresc_roundtrip : RoundTrip featuresc vec_ok.
Proof.
  intros flags rest [Hl Hu]. open_codec. rewrite concat_write_be.
  assert (E : concat (c_write vecc (rev flags)) = concat (c_write u16c (len16 flags)) ++ rev flags).
  { cbn [c_write vecc]. rewrite concat_app. cbn [concat]. rewrite List.app_nil_r. unfold len16. by rewrite length_rev. }
  rewrite app_assoc, <- E, (run_field vecc vec_ok).
  - unfold from_be_bytes. by rewrite rev_involutive.
  - split; [unfold len_ok; by rewrite length_rev|by apply Forall_rev].
Qed.
Global Instance featuresc_typed : Typed featuresc vec_ok.
Proof.
  intros bs x rest Hu H. open_read H. inv_run. apply typed in E as [Hl Hv]; [|done].
  split; [unfold len_ok, from_be_bytes; by rewrite length_rev|by apply Forall_rev].
Qed.

Lemma total_read_to_end : total read_to_end.
Proof. intros bs _. rewrite run_read_to_end. by eexists _, _. Qed.
#[export] Hint Resolve total_read_to_end : total.

Global Instance channel_typec_total : Total channel_typec.
Proof. solve_total. Qed.
Global Instance channel_typec_roundtrip : EndRoundTrip channel_typec (fun _ => True).
Proof.
  intros flags _. unfold encode, vec_writer, channel_typec. cbn [c_write c_read].
  rewrite concat_write_be, run_bind, run_read_to_end. unfold from_be_bytes. rewrite run_ret. by rewrite rev_involutive.
Qed.
Global Instance channel_typec_typed : Typed channel_typec all_u8.
Proof.
  intros bs x rest Hu H. open_read H. rewrite run_bind, run_read_to_end in H. rewrite run_ret in H. simplify_eq.
  by apply Forall_rev.
Qed.

(** *** The two feature fields of an init message *)

(** The first field: the low 13 bits. *)
Definition up_to_13 (flags : bytes) : bytes :=
  match flags with
  | [] => []
  | [b] => [b]
  | b :: c :: _ => [b; Z.land c 0x3f]
  end.

Lemma run_up_to_13 {A} (f : bytes -> rd A) flags rest :
  all_u8 flags ->
  run (c_read featuresc ≫= f) (concat (write_up_to_13 flags) ++ rest) = run (f (up_to_13 flags)) rest.
Proof.
  intros Hu. assert (E : concat (write_up_to_13 flags) = concat (c_write featuresc (up_to_13 flags))).
  { destruct flags as [|b [|c flags]]; reflexivity. }
  rewrite E. apply (run_field featuresc vec_ok).
  destruct flags as [|b [|c flags]]; [by split|..]; inversion Hu as [|? ? Hb Hu']; subst.
  - split; [by vm_compute|done].
  - inversion Hu'; subst. split; [by vm_compute|].
    constructor; [done|]. constructor; [by apply land_mask_u8|constructor].
Qed.

(** Merging the low bits back changes nothing. *)
Lemma or_up_to_13 flags : all_u8 flags -> or flags (up_to_13 flags) = flags.
Proof.
  intros Hu. unfold or, resize. destruct flags as [|b [|c flags]].
  - done.
  - cbn. by rewrite Z.lor_diag.
  - cbn [up_to_13 length]. replace (Nat.max _ _) with (S (S (length flags))) by lia.
    rewrite take_ge by done. cbn [length]. rewrite Nat.sub_diag. cbn [replicate or_zip app].
    rewrite List.app_nil_r, Z.lor_diag. do 2 f_equal. 2: by destruct flags.
    apply Z.bits_inj'. intros i Hi. rewrite Z.lor_spec, Z.land_spec. by destruct (Z.testbit c i).
Qed.

Lemma or_u8 a b : all_u8 a -> all_u8 b -> all_u8 (or a b).
Proof. intros Ha Hb. apply or_zip_u8; [by apply resize_u8|done]. Qed.

Lemma length_or_zip a b : length (or_zip a b) = length a.
Proof. revert b. induction a as [|x a IH]; intros [|y b]; cbn; auto. Qed.

Lemma or_len_ok a b : len_ok a -> len_ok b -> len_ok (or a b).
Proof.
  unfold len_ok, or. intros Ha Hb. rewrite length_or_zip. unfold resize.
  rewrite length_app, length_take, length_replicate. lia.
Qed.

(** ** Features in base 32 *)

(** Bit [i] of a vector of groups (most significant first) and of bytes (least significant first). *)
Definition at32 (v : list Z) (i : nat) : bool := (i / 5 <? length v)%nat && Z.testbit (nth (length v - 1 - i / 5) v 0) (Z.of_nat (i mod 5)).
Definition at8 (v : bytes) (i : nat) : bool := Z.testbit (nth (i / 8) v 0) (Z.of_nat (i mod 8)).

Lemma length_lor_u5 x j res : length (lor_u5 x j res) = length res.
Proof. apply length_alter. Qed.
Lemma nth_lor_u5 x j res k : (j < length res)%nat -> nth k (lor_u5 x j res) 0 = Z.lor (nth k res 0) (if (k =? j)%nat then x else 0).
Proof.
  intros Hj. unfold lor_u5. rewrite !nth_lookup_default. destruct (Nat.eqb_spec k j) as [->|Hne].
  - rewrite list_lookup_alter, decide_True by done. by destruct (lookup_lt_is_Some_2 res j Hj) as [c ->].
  - rewrite list_lookup_alter_ne by done. by rewrite Z.lor_0_r.
Qed.
Lemma lor_u5_width w x j res : 0 <= w -> in_width w x -> Forall (in_width w) res -> Forall (in_width w) (lor_u5 x j res).
Proof. intros Hw Hx Hr. unfold lor_u5. apply Forall_alter; [done|]. intros c Hc Hcw. by apply lor_in_width. Qed.

Lemma land_ones_bit w x j : 0 <= j < w -> Z.testbit (Z.land x (Z.ones w)) j = Z.testbit x j.
Proof. intros Hj. by rewrite Z.land_spec, Z.ones_spec_low, andb_true_r by lia. Qed.
Lemma ones_land_width w x : 0 <= w -> in_width w (Z.land x (Z.ones w)).
Proof. intros Hw. apply land_in_width; [done|]. unfold in_width. rewrite Z.ones_equiv. pose proof (Z.pow_pos_nonneg 2 w). lia. Qed.

(** A byte's step sets its bits. *)
Lemma write_u5_step_nth n res k byte p :
  length res = n -> (8 * k / 5 < n)%nat -> (p < n)%nat ->
  nth (n - 1 - p) (write_u5_step n res (k, byte)) 0 =
  Z.lor (nth (n - 1 - p) res 0)
    (if (8 * k / 5 <=? p)%nat && (p <=? 8 * k / 5 + 2)%nat
     then Z.land (Z.shiftr (Z.shiftl byte (Z.of_nat (8 * k mod 5))) (5 * Z.of_nat (p - 8 * k / 5))) (Z.ones 5) else 0).
Proof.
  intros Hl Hq Hp. unfold write_u5_step. rewrite (Nat.mul_comm k 8). change 0x1f with (Z.ones 5).
  generalize dependent (8 * k / 5)%nat. intros q Hq. set (sh := Z.shiftl byte _).
  cbv zeta. destruct (Nat.ltb_spec 0 (n - q - 1)); destruct (Nat.ltb_spec 1 (n - q - 1)); try lia;
    rewrite !nth_lor_u5 by (rewrite ?length_lor_u5; lia); rewrite <- ?Z.lor_assoc; f_equal.
  all: destruct (Nat.leb_spec q p); destruct (Nat.leb_spec p (q + 2)); cbn [andb].
  all: repeat match goal with |- context [(?a =? ?b)%nat] => destruct (Nat.eqb_spec a b); try lia end; rewrite ?Z.lor_0_r, ?Z.lor_0_l; try done.
  all: first [replace (5 * Z.of_nat (p - q)) with 0 by lia | replace (5 * Z.of_nat (p - q)) with 5 by lia | replace (5 * Z.of_nat (p - q)) with 10 by lia].
  all: by rewrite ?Z.shiftr_0_r.
Qed.

Lemma length_write_u5_step n res ib : length (write_u5_step n res ib) = length res.
Proof. destruct ib. unfold write_u5_step. cbv zeta. repeat case_match; by rewrite !length_lor_u5. Qed.
Lemma write_u5_step_width n res ib : Forall (in_width 5) res -> Forall (in_width 5) (write_u5_step n res ib).
Proof.
  destruct ib. intros Hr. unfold write_u5_step. cbv zeta. change 0x1f with (Z.ones 5).
  repeat case_match; repeat (apply lor_u5_width; [lia|by apply ones_land_width|]); done.
Qed.
Lemma write_u5_step_bits n res k byte i :
  length res = n -> (8 * k / 5 < n)%nat -> (i / 5 < n)%nat -> u8 byte ->
  at32 (write_u5_step n res (k, byte)) i = at32 res i || ((8 * k <=? i)%nat && Z.testbit byte (Z.of_nat (i - 8 * k))).
Proof.
  intros Hl Hq Hi Hb. unfold at32. rewrite length_write_u5_step, Hl, (proj2 (Nat.ltb_lt _ _) Hi), write_u5_step_nth by done.
  cbn [andb]. rewrite Z.lor_spec. f_equal.
  pose proof (Nat.div_mod_eq i 5). pose proof (Nat.mod_upper_bound i 5 ltac:(lia)).
  pose proof (Nat.div_mod_eq (8 * k) 5). pose proof (Nat.mod_upper_bound (8 * k) 5 ltac:(lia)).
  destruct (Nat.leb_spec (8 * k / 5) (i / 5)); destruct (Nat.leb_spec (i / 5) (8 * k / 5 + 2)); cbn [andb];
    [|rewrite Z.testbit_0_l; symmetry..].
  - rewrite land_ones_bit, Z.shiftr_spec, Z.shiftl_spec by lia. destruct (Nat.leb_spec (8 * k) i); cbn [andb].
    + f_equal. lia.
    + apply Z.testbit_neg_r. lia.
  - rewrite (testbit_above 8 byte), andb_false_r by (done || lia). done.
  - destruct (Nat.leb_spec (8 * k) i); [lia|done].
  - lia.
Qed.
Lemma at8_cons b l j : at8 (b :: l) j = if (j <? 8)%nat then Z.testbit b (Z.of_nat j) else at8 l (j - 8).
Proof.
  unfold at8. destruct (Nat.ltb_spec j 8) as [Hj|Hj].
  - by rewrite Nat.div_small, Nat.mod_small by done.
  - replace j with (j - 8 + 1 * 8)%nat at 1 2 by lia. rewrite Nat.div_add, Nat.Div0.mod_add, Nat.add_1_r by lia. done.
Qed.
Lemma write_fold n flags res k i :
  length res = n -> (8 * (k + length flags) <= 5 * n)%nat -> (i / 5 < n)%nat -> all_u8 flags ->
  at32 (foldl (write_u5_step n) res (imap (fun j b => ((k + j)%nat, b)) flags)) i = at32 res i || ((8 * k <=? i)%nat && at8 flags (i - 8 * k)).
Proof.
  intros Hl Hn Hi Hf. revert res k Hl Hn. induction Hf as [|b flags Hb Hf IH]; intros res k Hl Hn.
  - cbn [imap foldl]. unfold at8. rewrite nth_overflow, Z.testbit_0_l, andb_false_r, orb_false_r by (cbn; lia). done.
  - cbn [length] in Hn. rewrite imap_cons. cbn [foldl]. rewrite Nat.add_0_r.
    assert (Hq : (8 * k / 5 < n)%nat) by (apply Nat.div_lt_upper_bound; lia).
    rewrite (imap_ext _ (fun j b => ((S k + j)%nat, b))) by (intros; cbn; f_equal; lia).
    rewrite IH by (rewrite ?length_write_u5_step; done || lia). rewrite write_u5_step_bits by done. rewrite at8_cons, <- orb_assoc. f_equal.
    destruct (Nat.leb_spec (8 * k) i); destruct (Nat.leb_spec (8 * S k) i); destruct (Nat.ltb_spec (i - 8 * k) 8); try lia; cbn [andb].
    + rewrite (testbit_above 8 b) by (done || lia). cbn [orb]. f_equal. lia.
    + by rewrite orb_false_r.
Qed.

(** A group's step sets its bits. *)
Lemma length_read_u5_step n lb res ic : length (read_u5_step n lb res ic) = length res.
Proof. destruct ic. unfold read_u5_step. cbv zeta. case_match; by rewrite !length_lor_u5. Qed.
Lemma read_u5_step_width n lb res ic : all_u8 res -> all_u8 (read_u5_step n lb res ic).
Proof.
  destruct ic. intros Hr. unfold read_u5_step. cbv zeta. change 0xff with (Z.ones 8).
  case_match; repeat (apply lor_u5_width; [lia|by apply ones_land_width|]); done.
Qed.
Lemma read_u5_step_bits n lb res u chunk i :
  length res = lb -> (u < n)%nat -> (5 * n <= 8 * lb)%nat -> (i / 8 < lb)%nat -> in_width 5 chunk ->
  at8 (read_u5_step n lb res (u, chunk)) i =
  at8 res i || (((n - u - 1) * 5 <=? i)%nat && Z.testbit chunk (Z.of_nat (i - (n - u - 1) * 5))).
Proof.
  intros Hl Hu Hn Hi Hc. unfold at8, read_u5_step. cbv zeta. change 0xff with (Z.ones 8).
  set (pos := ((n - u - 1) * 5)%nat). assert (Hpos : (pos + 5 <= 8 * lb)%nat) by lia. clearbody pos.
  pose proof (Nat.div_mod_eq i 8). pose proof (Nat.mod_upper_bound i 8 ltac:(lia)).
  pose proof (Nat.div_mod_eq pos 8). pose proof (Nat.mod_upper_bound pos 8 ltac:(lia)).
  destruct (Nat.eqb_spec (pos / 8) (lb - 1)); rewrite !nth_lor_u5 by (rewrite ?length_lor_u5; lia); rewrite !Z.lor_spec, <- ?orb_assoc; f_equal.
  all: repeat match goal with |- context [(?a =? ?b)%nat] => destruct (Nat.eqb_spec a b); try lia end.
  all: rewrite ?land_ones_bit, ?Z.testbit_0_l, ?orb_false_r, ?orb_false_l by lia.
  all: destruct (Nat.leb_spec pos i); cbn [andb]; rewrite ?Z.shiftl_spec, ?Z.shiftr_spec by lia.
  all: try (apply Z.testbit_neg_r; lia); try (f_equal; lia); try lia; try done.
  all: symmetry; apply (testbit_above 5); [done|lia|lia].
Qed.
Lemma at32_cons c l i : at32 (c :: l) i = if (i / 5 =? length l)%nat then Z.testbit c (Z.of_nat (i mod 5)) else at32 l i.
Proof.
  unfold at32. cbn [length]. rewrite Nat.sub_succ, Nat.sub_0_r.
  destruct (Nat.eqb_spec (i / 5) (length l)) as [->|Hne].
  - rewrite (proj2 (Nat.ltb_lt _ _)), Nat.sub_diag by lia. done.
  - destruct (Nat.ltb_spec (i / 5) (length l)); destruct (Nat.ltb_spec (i / 5) (S (length l))); try lia; try done.
    by replace (length l - i / 5)%nat with (S (length l - 1 - i / 5)) by lia.
Qed.
Lemma read_fold n lb l res s i :
  length res = lb -> n = (s + length l)%nat -> (5 * n <= 8 * lb)%nat -> (i / 8 < lb)%nat -> Forall (in_width 5) l ->
  at8 (foldl (read_u5_step n lb) res (imap (fun j b => ((s + j)%nat, b)) l)) i = at8 res i || at32 l i.
Proof.
  intros Hl Hn Hlb Hi Hf. revert res s Hl Hn. induction Hf as [|c l Hc Hf IH]; intros res s Hl Hn.
  - cbn. by rewrite orb_false_r.
  - cbn [length] in Hn. rewrite imap_cons. cbn [foldl]. rewrite Nat.add_0_r.
    rewrite (imap_ext _ (fun j b => ((S s + j)%nat, b))) by (intros; cbn; f_equal; lia).
    rewrite IH by (rewrite ?length_read_u5_step; done || lia). rewrite read_u5_step_bits by (done || lia).
    rewrite at32_cons, <- orb_assoc. f_equal. replace (n - s - 1)%nat with (length l) by lia.
    pose proof (Nat.div_mod_eq i 5). pose proof (Nat.mod_upper_bound i 5 ltac:(lia)).
    destruct (Nat.eqb_spec (i / 5) (length l)) as [E|E].
    + destruct (Nat.leb_spec (length l * 5) i); [|lia]. cbn [andb]. unfold at32. rewrite (proj2 (Nat.ltb_ge _ _)) by lia.
      cbn [andb]. rewrite orb_false_r. f_equal. lia.
    + destruct (Nat.leb_spec (length l * 5) i); [|done]. rewrite (testbit_above 5 c) by (done || lia). done.
Qed.

(** Zeros cut off change no bit. *)
Lemma at32_trim_front v i : at32 (trim_front v) i = at32 v i.
Proof.
  induction v as [|c v IH]; [done|]. cbn [trim_front]. destruct (Z.eqb_spec c 0) as [->|]; [|done].
  rewrite IH, at32_cons. case_match eqn:E; [|done]. apply Nat.eqb_eq in E. unfold at32. rewrite E, Nat.ltb_irrefl, Z.testbit_0_l. done.
Qed.
Lemma trim_front_suffix v : exists k, v = replicate k 0 ++ trim_front v.
Proof.
  induction v as [|c v [k IH]]; [by exists 0%nat|]. cbn [trim_front]. destruct (Z.eqb_spec c 0) as [->|]; [|by exists 0%nat].
  exists (S k). cbn. by f_equal.
Qed.
Lemma trim_high_ext a b : (forall k, nth k a 0 = nth k b 0) -> trim_high a = trim_high b.
Proof.
  assert (Z0 : forall l, (forall k, nth k l 0 = 0) -> trim_high l = []).
  { induction l as [|x l IH]; intros Hl; [done|]. cbn [trim_high]. rewrite IH; [|intros k; apply (Hl (S k))]. by rewrite (Hl 0%nat : x = 0). }
  revert b. induction a as [|x a IH]; intros b Hb.
  - symmetry. apply Z0. intros k. rewrite <- Hb. by destruct k.
  - destruct b as [|y b]; [apply Z0; intros k; rewrite Hb; by destruct k|].
    cbn [trim_high]. rewrite (IH b); [|intros k; apply (Hb (S k))]. by rewrite (Hb 0%nat : x = y).
Qed.

Lemma u8_bits_ext a b : u8 a -> u8 b -> (forall j, (j < 8)%nat -> Z.testbit a (Z.of_nat j) = Z.testbit b (Z.of_nat j)) -> a = b.
Proof.
  intros Ha Hb Hj. apply Z.bits_inj'. intros n Hn. destruct (Z.lt_ge_cases n 8).
  - specialize (Hj (Z.to_nat n) ltac:(lia)). by rewrite Z2Nat.id in Hj by lia.
  - by rewrite !(testbit_above 8) by (done || lia).
Qed.

Lemma foldl_length {A} (f : bytes -> A -> bytes) l res : (forall r x, length (f r x) = length r) -> length (foldl f res l) = length res.
Proof. intros Hf. revert res. induction l as [|x l IH]; intros res; cbn; [done|]. by rewrite IH, Hf. Qed.
Lemma foldl_width {A} w (f : bytes -> A -> bytes) l res :
  (forall r x, Forall (in_width w) r -> Forall (in_width w) (f r x)) -> Forall (in_width w) res -> Forall (in_width w) (foldl f res l).
Proof. intros Hf. revert res. induction l as [|x l IH]; intros res Hr; cbn; [done|]. apply IH. by apply Hf. Qed.
Lemma at_zeros n i : at32 (replicate n 0) i = false /\ at8 (replicate n 0) i = false.
Proof. unfold at32, at8. rewrite !nth_lookup_default. split; (destruct (_ !! _) as [b|] eqn:E; [apply lookup_replicate in E as [-> _]|]; by rewrite Z.testbit_0_l, ?andb_false_r). Qed.

Lemma write_base32_bits flags i : all_u8 flags -> at32 (write_base32 flags) i = at8 flags i.
Proof.
  intros Hf. unfold write_base32. rewrite at32_trim_front. set (n := ((length flags * 8 + 4) / 5)%nat).
  assert (Hn : (8 * length flags <= 5 * n)%nat).
  { subst n. pose proof (Nat.div_mod_eq (length flags * 8 + 4) 5). pose proof (Nat.mod_upper_bound (length flags * 8 + 4) 5 ltac:(lia)). lia. }
  destruct (Nat.lt_ge_cases (i / 5) n) as [Hi|Hi].
  - change (imap pair flags) with (imap (fun j b => ((0 + j)%nat, b)) flags).
    rewrite write_fold by (rewrite ?length_replicate; done || lia). rewrite (proj1 (at_zeros n i)). cbn [Nat.mul orb andb Nat.leb]. by rewrite Nat.sub_0_r.
  - unfold at32. rewrite foldl_length, length_replicate by apply length_write_u5_step. rewrite (proj2 (Nat.ltb_ge _ _)) by done.
    cbn [andb]. unfold at8. rewrite nth_overflow; [by rewrite Z.testbit_0_l|]. pose proof (Nat.div_mod_eq i 5). pose proof (Nat.mod_upper_bound i 5 ltac:(lia)).
    apply Nat.div_le_lower_bound; lia.
Qed.
Lemma write_base32_width flags : Forall (in_width 5) (write_base32 flags) /\ (length (write_base32 flags) <= (length flags * 8 + 4) / 5)%nat.
Proof.
  unfold write_base32. set (v := foldl _ _ _). destruct (trim_front_suffix v) as [k Hk].
  assert (Hv : Forall (in_width 5) v).
  { apply foldl_width; [intros; by apply write_u5_step_width|]. apply Forall_replicate. unfold in_width. lia. }
  assert (Hl : length v = ((length flags * 8 + 4) / 5)%nat).
  { subst v. by rewrite foldl_length, length_replicate by apply length_write_u5_step. }
  rewrite <- Hl. clearbody v. clear Hl. split; [rewrite Hk in Hv; by apply Forall_app in Hv as [_ ?]|].
  apply (f_equal length) in Hk. rewrite length_app in Hk. lia.
Qed.

(** Flags without trailing zeros are read back as they were. *)
Lemma features_base32_roundtrip flags : all_u8 flags -> trim_high flags = flags -> from_base32 (write_base32 flags) = flags.
Proof.
  intros Hf Ht. destruct (write_base32_width flags) as [Hw _]. pose proof (fun i => write_base32_bits flags i Hf) as Hb.
  generalize dependent (write_base32 flags). intros v Hw Hb. unfold from_base32. set (lb := ((length v * 5 + 7) / 8)%nat). etrans; [|exact Ht].
  assert (Hn : (5 * length v <= 8 * lb)%nat).
  { subst lb. pose proof (Nat.div_mod_eq (length v * 5 + 7) 8). pose proof (Nat.mod_upper_bound (length v * 5 + 7) 8 ltac:(lia)). lia. }
  assert (Z8 : u8 0) by (unfold in_width; lia).
  apply trim_high_ext. intros k. set (r := foldl _ _ _).
  assert (Hr : all_u8 r). { apply foldl_width; [intros; by apply read_u5_step_width|]. by apply Forall_replicate. }
  assert (Hlr : length r = lb). { subst r. by rewrite foldl_length, length_replicate by apply length_read_u5_step. }
  assert (N8 : forall l : bytes, all_u8 l -> u8 (nth k l 0)).
  { intros l Hl. rewrite nth_lookup_default. destruct (l !! k) eqn:E; [by eapply lookup_u8|done]. }
  apply u8_bits_ext; [by apply N8..|]. intros j Hj.
  assert (A : forall l, Z.testbit (nth k l 0) (Z.of_nat j) = at8 l (8 * k + j)).
  { intros l. unfold at8. rewrite Nat.mul_comm, Nat.div_add_l, (Nat.div_small j), Nat.add_0_r by lia.
    by rewrite Nat.add_comm, Nat.Div0.mod_add, Nat.mod_small by lia. }
  rewrite !A, <- Hb. destruct (Nat.lt_ge_cases k lb) as [Hk|Hk].
  - subst r. change (imap pair v) with (imap (fun j b => ((0 + j)%nat, b)) v). rewrite read_fold; [|by rewrite length_replicate|done|done| |done].
    + by rewrite (proj2 (at_zeros lb (8 * k + j))).
    + rewrite Nat.mul_comm, Nat.div_add_l, (Nat.div_small j) by lia. lia.
  - rewrite <- A, nth_overflow, Z.testbit_0_l by lia. unfold at32. rewrite (proj2 (Nat.ltb_ge _ _)); [done|].
    apply Nat.div_le_lower_bound; lia.
Qed.
