(* ===== verification/Msgs.v ===== *)
(** * Messages: rust-lightning/lightning/src/ln/msgs.rs

    One module per message of the Lightning wire protocol, with the source's fields and
    its codec.  [impl_writeable_msg!] and [impl_writeable!] are combinators over the fields'
    codecs; messages with code of their own follow it.  Keys and signatures are parameters
    with the laws of their fixed-size encodings. *)

From S2P Require Import Prelude Text Bytes Stream Ser SerLaws Tlv Features.

Local Open Scope Z_scope.

(** ** Parameters: secp256k1 and bitcoin's variable-length integer *)

Class Secp := {
  PublicKey : Type;
  pk_serialize : PublicKey -> bytes;
  pk_from_slice : bytes -> option PublicKey;
  Signature : Type;
  sig_serialize_compact : Signature -> bytes;
  sig_from_compact : bytes -> option Signature;
  (** [VarInt::consensus_decode], its errors as [DecodeError]. *)
  varint_decode : rd Z;
}.

(** Encodings have a fixed size and are read back; 33 zero bytes are no key; a small
    [VarInt] is its own byte, and decoding one returns. *)
Class SecpLaws `{Secp} := {
  pk_array k : array_ok 33 (pk_serialize k);
  pk_roundtrip k : pk_from_slice (pk_serialize k) = Some k;
  pk_zero : pk_from_slice (replicate 33 0) = None;
  sig_array s : array_ok 64 (sig_serialize_compact s);
  sig_roundtrip s : sig_from_compact (sig_serialize_compact s) = Some s;
  varint_small n rest : 0 <= n < 0xFD -> run varint_decode (n :: rest) = (Ret (Ok n), rest);
  varint_total : total varint_decode;
  varint_typed bs n rest : all_u8 bs -> run varint_decode bs = (Ret (Ok n), rest) -> u64 n;
}.

Definition pubkeyc `{Secp} : Codec PublicKey := slicec 33 pk_serialize pk_from_slice.
Definition sigc `{Secp} : Codec Signature := slicec 64 sig_serialize_compact sig_from_compact.

#[global] Typeclasses Opaque pubkeyc sigc.

(** ** The macros *)

(** [impl_writeable!]: the fields in order. *)
Definition impl_writeable {M B} (fields : Codec B) (of_msg : M -> B) (build : B -> M) : Codec M :=
  mkCodec (fun m => c_write fields (of_msg m)) (b ← c_read fields; mret (build b)).

(** [impl_writeable_msg!]: the fields in order, then a TLV stream. *)
Definition impl_writeable_msg {M B S} (fields : Codec B) (of_msg : M -> B)
    (tlvs : M -> list (Z * option (list bytes))) (tlv_fields : list (tlv_field S)) (init : S)
    (build : B -> S -> M) : Codec M :=
  mkCodec (fun m => c_write fields (of_msg m) ++ encode_tlv_stream (tlvs m))
    (b ← c_read fields; s ← decode_tlv_stream tlv_fields init; mret (build b s)).

(** A TLV of kind [option], the only one of its message. *)
Definition option_field {T} (type : Z) (c : Codec T) : tlv_field (option T) :=
  mkField type Absentable (fun _ => x ← c_read c; mret (Some x)).

(** A message without TLVs of its own. *)
Definition plain_msg {M B} (fields : Codec B) (of_msg : M -> B) (build : B -> M) : Codec M :=
  impl_writeable_msg fields of_msg (fun _ => []) [] tt (fun b _ => build b).

(** A message with one optional TLV. *)
Definition option_msg {M B T} (fields : Codec B) (of_msg : M -> B) (type : Z) (c : Codec T)
    (tlv : M -> option T) (build : B -> option T -> M) : Codec M :=
  impl_writeable_msg fields of_msg (fun m => [(type, c_write c <$> tlv m)]) [option_field type c] None build.

#[global] Typeclasses Opaque impl_writeable impl_writeable_msg plain_msg option_msg.

(** ** Laws of the macros *)

Lemma option_field_kept {T} type (c : Codec T) validT :
  Typed c validT -> kept_by (fun s => forall x, s = Some x -> validT x) (option_field type c).
Proof.
  intros Hc. split; [|done]. cbn [option_field tf_decode]. intros s bs s' rest _ Hu H. inv_run.
  apply Hc in E; [|done]. by intros x [= <-].
Qed.

Lemma option_field_total {T} type (c : Codec T) s : Total c -> total (tf_decode (option_field type c) s).
Proof. intros Hc. cbn [option_field tf_decode]. solve_total. Qed.

Section MacroLaws.
Context {M B : Type} (fields : Codec B) (of_msg : M -> B).

Global Instance pairc_end_roundtrip {X Y} (a : Codec X) (b : Codec Y) va vb :
  RoundTrip a va -> EndRoundTrip b vb -> EndRoundTrip (pairc a b) (fun x => va x.1 /\ vb x.2).
Proof.
  intros Ha Hb [x y] [Hx Hy]. unfold encode, vec_writer, pairc. cbn [c_read c_write fst snd] in *.
  rewrite concat_app, (run_field a va) by done. by rewrite (run_bind_Ok _ _ _ _ _ (Hb y Hy)).
Qed.

Lemma impl_writeable_roundtrip (build : B -> M) valid :
  RoundTrip fields valid -> (forall m, build (of_msg m) = m) ->
  RoundTrip (impl_writeable fields of_msg build) (fun m => valid (of_msg m)).
Proof. intros Hf Hb m rest Hm. open_codec. rewrite (run_field fields valid) by done. by rewrite run_ret, Hb. Qed.

Lemma impl_writeable_end (build : B -> M) valid :
  EndRoundTrip fields valid -> (forall m, build (of_msg m) = m) ->
  EndRoundTrip (impl_writeable fields of_msg build) (fun m => valid (of_msg m)).
Proof.
  intros Hf Hb m Hm. unfold encode, vec_writer, impl_writeable. cbn [c_read c_write].
  rewrite (run_bind_Ok _ _ _ _ _ (Hf (of_msg m) Hm)). by rewrite run_ret, Hb.
Qed.

Lemma impl_writeable_typed (build : B -> M) valid (ok : M -> Prop) :
  Typed fields valid -> (forall b, valid b -> ok (build b)) -> Typed (impl_writeable fields of_msg build) ok.
Proof. intros Hf Hb bs m rest Hu H. open_read H. inv_run. apply Hf in E; auto. Qed.

Global Instance impl_writeable_total (build : B -> M) : Total fields -> Total (impl_writeable fields of_msg build).
Proof. intros. solve_total. Qed.

Section Tlvs.
Context {S : Type} (tlvs : M -> list (Z * option (list bytes))) (tlv_fields : list (tlv_field S)) (init : S)
  (build : B -> S -> M).
Abbreviation msg := (impl_writeable_msg fields of_msg tlvs tlv_fields init build).

Lemma msg_total : Total fields -> Forall (fun f => forall s, total (tf_decode f s)) tlv_fields -> Total msg.
Proof.
  intros Hf Ht. change (total (c_read msg)). cbn [c_read impl_writeable_msg]. apply total_bind; [done|].
  intros b. apply total_bind; [by apply total_decode_tlv_stream|solve_total].
Qed.

Lemma msg_typed valid P (ok : M -> Prop) :
  Typed fields valid -> Forall (kept_by P) tlv_fields -> P init ->
  (forall b s, valid b -> P s -> ok (build b s)) -> Typed msg ok.
Proof.
  intros Hf Hk Hi Hb bs m rest Hu H. open_read H. inv_run. apply Hf in E; [|done].
  apply (decode_tlv_stream_inv _ P) in E0; auto.
Qed.

Lemma msg_roundtrip valid (steps : list (step S)) m :
  RoundTrip fields valid -> valid (of_msg m) ->
  tlv_fields = st_field <$> steps -> outs_records (tlvs m) = records_of steps ->
  Forall record_ok (records_of steps) -> increasing tlv_fields -> Forall step_ok steps ->
  build (of_msg m) (decoded steps init) = m ->
  run (c_read msg) (encode msg m) = (Ret (Ok m), []).
Proof.
  intros Hf Hv Et Eo Hr Hi Hs Hb. unfold encode, vec_writer, impl_writeable_msg. cbn [c_read c_write].
  rewrite concat_app, (run_field fields valid) by done. rewrite encode_tlv_stream_records, Eo. subst tlv_fields.
  rewrite (run_bind_Ok _ _ _ _ _ (run_decode_tlv_ok _ init _ _ Hr (tlv_spec_round_trip steps init Hi Hs))).
  by rewrite run_ret, Hb.
Qed.
End Tlvs.

(** *** Messages without TLVs *)

Lemma plain_msg_roundtrip (build : B -> M) valid (ok : M -> Prop) :
  RoundTrip fields valid -> (forall m, ok m -> valid (of_msg m)) -> (forall m, build (of_msg m) = m) ->
  EndRoundTrip (plain_msg fields of_msg build) ok.
Proof.
  intros Hf Hv Hb m Hm. apply (msg_roundtrip _ _ _ _ valid []); auto; constructor.
Qed.

Lemma plain_msg_typed (build : B -> M) valid (ok : M -> Prop) :
  Typed fields valid -> (forall b, valid b -> ok (build b)) -> Typed (plain_msg fields of_msg build) ok.
Proof. intros Hf Hb. apply (msg_typed _ _ _ _ valid (fun _ => True)); auto. Qed.

Global Instance plain_msg_total (build : B -> M) : Total fields -> Total (plain_msg fields of_msg build).
Proof. intros Hf. apply msg_total; [done|constructor]. Qed.

(** *** Messages with one optional TLV *)

Section OptionMsg.
Context {T : Type} (type : Z) (c : Codec T) (tlv : M -> option T) (build : B -> option T -> M).
Context (validT : T -> Prop).
Abbreviation omsg := (option_msg fields of_msg type c tlv build).

(** What can be written for the TLV: a valid value whose length fits. *)
Definition tlv_ok (o : option T) : Prop :=
  match o with Some x => validT x /\ serialized_length c x < 2 ^ 64 | None => True end.

Global Instance option_msg_total : Total fields -> Total c -> Total omsg.
Proof. intros Hf Hc. apply msg_total; [done|]. constructor; [intros; by apply option_field_total|done]. Qed.

Lemma option_msg_typed valid (ok : M -> Prop) :
  Typed fields valid -> Typed c validT ->
  (forall b s, valid b -> (forall x, s = Some x -> validT x) -> ok (build b s)) -> Typed omsg ok.
Proof.
  intros Hf Hc Hb. apply (msg_typed _ _ _ _ valid (fun s => forall x, s = Some x -> validT x)); auto; [|done].
  constructor; [by apply option_field_kept|constructor].
Qed.

Lemma option_msg_roundtrip valid m :
  RoundTrip fields valid -> EndRoundTrip c validT -> u64 type ->
  valid (of_msg m) -> tlv_ok (tlv m) -> build (of_msg m) (tlv m) = m ->
  run (c_read omsg) (encode omsg m) = (Ret (Ok m), []).
Proof.
  intros Hf Hc Ht Hv Ho Hb.
  apply (msg_roundtrip _ _ _ _ valid
    [mkStep (option_field type c) (vec_writer <$> (c_write c <$> tlv m)) (fun _ => tlv m)]); try done.
  - cbn. by destruct (tlv m).
  - cbn. destruct (tlv m) as [x|]; cbn; [|constructor]. destruct Ho as [_ Hl]. constructor; [|constructor].
    split; [done|]. rewrite serialized_length_encode in Hl. change (u64 (Z.of_nat (length (encode c x)))). width_lia.
  - repeat constructor.
  - constructor; [|constructor]. unfold step_ok. cbn. destruct (tlv m) as [x|]; cbn; [|done].
    intros s. destruct Ho as [Hx _]. by rewrite (run_bind_Ok _ _ _ _ _ (Hc x Hx)).
  - cbn. by destruct (tlv m).
Qed.

(** Without the TLV the last field may extend to the end of the message. *)
Lemma option_msg_end valid m :
  EndRoundTrip fields valid -> valid (of_msg m) -> tlv m = None -> build (of_msg m) None = m ->
  run (c_read omsg) (encode omsg m) = (Ret (Ok m), []).
Proof.
  intros Hf Hv Ho Hb. unfold encode, vec_writer, option_msg, impl_writeable_msg. cbn [c_read c_write].
  rewrite Ho. cbn [encode_tlv_stream fmap list_fmap concat encode_tlv fst snd option_fmap option_map].
  rewrite concat_app. cbn [concat app]. rewrite List.app_nil_r.
  rewrite (run_bind_Ok _ _ _ _ _ (Hf (of_msg m) Hv)).
  assert (E : run (decode_tlv_stream [option_field type c] None) [] = (Ret (Ok None), [])) by reflexivity.
  by rewrite (run_bind_Ok _ _ _ _ _ E), run_ret, Hb.
Qed.
End OptionMsg.
End MacroLaws.

(** ** Keys and signatures *)

Section KeyLaws.
Context `{SecpLaws}.

Global Instance pubkeyc_roundtrip : RoundTrip pubkeyc (fun _ => True).
Proof. intros k rest _. apply slicec_roundtrip. split; [apply pk_array|apply pk_roundtrip]. Qed.
Global Instance sigc_roundtrip : RoundTrip sigc (fun _ => True).
Proof. intros k rest _. apply slicec_roundtrip. split; [apply sig_array|apply sig_roundtrip]. Qed.
Global Instance pubkeyc_typed : Typed pubkeyc (fun _ => True).
Proof. done. Qed.
Global Instance sigc_typed : Typed sigc (fun _ => True).
Proof. done. Qed.
Global Instance pubkeyc_total : Total pubkeyc := slicec_total _ _ _.
Global Instance sigc_total : Total sigc := slicec_total _ _ _.
End KeyLaws.

(** The laws of a message built by the macros: instances for its fields, and the tuple of
    fields taken apart and put together again. *)
Ltac split_fields := cbn in *; intuition (subst; cbn in *; eauto).
Ltac open_ok H := red in H; split_fields.
Ltac plain_rt := eapply plain_msg_roundtrip; [apply _|let H := fresh in intros [] H; open_ok H|by intros []].
Ltac plain_ty := eapply plain_msg_typed; [apply _|intros; repeat case_match; red; split_fields].
Ltac option_rt :=
  let H := fresh in intros [] H;
  eapply option_msg_roundtrip; [apply _|apply _|by vm_compute|open_ok H|open_ok H|done].
Ltac option_ty := eapply option_msg_typed; [apply _|apply _|intros; repeat case_match; red; split_fields].
