(* ===== verification/Noise.v ===== *)
(** * The encrypted transport: rust-lightning/lightning/src/ln/peer_channel_encryptor.rs

    The Noise handshake in three acts and the framing of messages that follows it, with the
    keys rotated every thousand nonces.  SHA-256, HMAC and the Diffie-Hellman function are
    parameters; HKDF is util/crypto.rs.  All errors ask for the peer to be disconnected
    without a message, so an error is its text. *)

From S2P Require Import Prelude Text HexUtils Bytes ChaCha20 Poly1305 Poly1305Spec Stream Ser SerLaws Aead Tlv Features Msgs.

Local Open Scope Z_scope.

(** ** Parameters *)

Class NoiseCrypto `{Secp} := {
  SecretKey : Type;
  from_secret_key : SecretKey -> PublicKey;
  ecdh : PublicKey -> SecretKey -> bytes;
  sha256 : bytes -> bytes;
  hmac_sha256 : bytes -> bytes -> bytes;
}.

(** Digests have 32 bytes; both ends of a key exchange compute the same secret. *)
Class NoiseLaws `{NoiseCrypto} := {
  sha256_array m : array_ok 32 (sha256 m);
  hmac_array k m : array_ok 32 (hmac_sha256 k m);
  ecdh_comm a b : ecdh (from_secret_key a) b = ecdh (from_secret_key b) a;
}.

(** ** util/crypto.rs *)

Section Hkdf.
Context `{NoiseCrypto}.

Definition hkdf_extract_expand (salt ikm : bytes) : bytes * bytes * bytes :=
  let prk := hmac_sha256 salt ikm in
  let t1 := hmac_sha256 prk [1] in
  (t1, hmac_sha256 prk (t1 ++ [2]), prk).

Definition hkdf_extract_expand_twice (salt ikm : bytes) : bytes * bytes :=
  let '(k1, k2, _) := hkdf_extract_expand salt ikm in (k1, k2).

Definition hkdf_extract_expand_thrice (salt ikm : bytes) : bytes * bytes * bytes :=
  let '(k1, k2, prk) := hkdf_extract_expand salt ikm in (k1, k2, hmac_sha256 prk (k2 ++ [3])).
End Hkdf.

(** ** The state *)

Definition LN_MAX_MSG_LEN : Z := U16_MAX.

Definition NOISE_CK : bytes :=
  [0x26; 0x40; 0xf5; 0x2e; 0xeb; 0xcd; 0x9e; 0x88; 0x29; 0x58; 0x95; 0x1c; 0x79; 0x42; 0x50; 0xee;
   0xdb; 0x28; 0x00; 0x2c; 0x05; 0xd7; 0xdc; 0x2e; 0xa0; 0xf1; 0x95; 0x40; 0x60; 0x42; 0xca; 0xf1].
Definition NOISE_H : bytes :=
  [0xd1; 0xfb; 0xf6; 0xde; 0xe4; 0xf6; 0x86; 0xf1; 0x32; 0xfd; 0x70; 0x2c; 0x4a; 0xbf; 0x8f; 0xba;
   0x4b; 0xb4; 0x20; 0xd8; 0x9d; 0x2a; 0x04; 0x8a; 0x3c; 0x4f; 0x4c; 0x09; 0x2e; 0x37; 0xb6; 0x76].

Inductive NextNoiseStep := ActOne | ActTwo | ActThree | NoiseComplete.
Inductive NoiseStep := PreActOne | PostActOne | PostActTwo.

Global Instance NoiseStep_eq_dec : EqDecision NoiseStep.
Proof. solve_decision. Defined.

Record BidirectionalNoiseState := mkBi { h : bytes; ck : bytes }.

Inductive DirectionalNoiseState `{NoiseCrypto} :=
| Outbound (ie : SecretKey)
| Inbound (ie : option PublicKey) (re : option SecretKey) (temp_k2 : option bytes).

Record Keys := mkKeys { sk : bytes; sn : Z; sck : bytes; rk : bytes; rn : Z; rck : bytes }.

Inductive NoiseState `{NoiseCrypto} :=
| InProgress (state : NoiseStep) (directional_state : DirectionalNoiseState) (bidirectional_state : BidirectionalNoiseState)
| Finished (keys : Keys).

Record PeerChannelEncryptor `{NoiseCrypto} := mkPeer {
  their_node_id : option PublicKey;
  noise_state : NoiseState;
}.

Definition LightningError : Type := string.

Section Noise.
Context `{NoiseCrypto} `{FixedTimeEq}.

Definition new_outbound (their_node_id : PublicKey) (ephemeral_key : SecretKey) : PeerChannelEncryptor :=
  let h := sha256 (NOISE_H ++ pk_serialize their_node_id) in
  mkPeer _ _ (Some their_node_id) (InProgress PreActOne (Outbound ephemeral_key) (mkBi h NOISE_CK)).

Definition new_inbound (our_node_secret : SecretKey) : PeerChannelEncryptor :=
  let our_node_id := from_secret_key our_node_secret in
  let h := sha256 (NOISE_H ++ pk_serialize our_node_id) in
  mkPeer _ _ None (InProgress PreActOne (Inbound None None None) (mkBi h NOISE_CK)).

(** ** Encryption with additional data *)

Definition nonce_of (n : Z) : bytes := replicate 4 0 ++ to_le_bytes 8 n.

(** [res] is a buffer of [res_len] bytes, which must be filled exactly. *)
Definition encrypt_with_ad (res_len : nat) (n : Z) (key ad plaintext : bytes) : outcome bytes :=
  chacha ← Aead.new key (nonce_of n) ad;
  if (res_len <? length plaintext)%nat then Panic "range end index out of range for slice"
  else
    '(enc, tag, _) ← Aead.encrypt chacha plaintext (length plaintext) 16;
    if (res_len =? length plaintext + 16)%nat then Ret (enc ++ tag) else Panic "copy_from_slice: source slice length".

Definition decrypt_with_ad (res_len : nat) (n : Z) (key ad cyphertext : bytes) : outcome (result bytes LightningError) :=
  chacha ← Aead.new key (nonce_of n) ad;
  if (length cyphertext <? 16)%nat then Panic "attempt to subtract with overflow"
  else
    let split := (length cyphertext - 16)%nat in
    '(res, _) ← Aead.decrypt chacha (take split cyphertext) res_len (drop split cyphertext);
    match res with
    | None => Ret (Err "Bad MAC")
    | Some res => Ret (Ok res)
    end.

(** ** The acts *)

(** [hkdf]: the chaining key moves on, a temporary key is returned. *)
Definition hkdf (state : BidirectionalNoiseState) (ss : bytes) : bytes * BidirectionalNoiseState :=
  let '(t1, t2) := hkdf_extract_expand_twice (ck state) ss in
  (t2, mkBi (h state) t1).

Definition mix_hash (state : BidirectionalNoiseState) (data : bytes) : BidirectionalNoiseState :=
  mkBi (sha256 (h state ++ data)) (ck state).

Definition outbound_noise_act (state : BidirectionalNoiseState) (our_key : SecretKey) (their_key : PublicKey) :
    outcome (bytes * bytes * BidirectionalNoiseState) :=
  let our_pub := from_secret_key our_key in
  let state := mix_hash state (pk_serialize our_pub) in
  let ss := ecdh their_key our_key in
  let '(temp_k, state) := hkdf state ss in
  c ← encrypt_with_ad 16 0 temp_k (h state) [];
  let state := mix_hash state c in
  Ret (0 :: pk_serialize our_pub ++ c, temp_k, state).

(** The state is left as far as the act got when it is refused. *)
Definition inbound_noise_act (act : bytes) (our_key : SecretKey) :
    prog BidirectionalNoiseState (result (PublicKey * bytes) LightningError) := fun state =>
  if negb (length act =? 50)%nat then (Panic "assertion failed: act.len() == 50", state)
  else if negb (nth 0 act 0 =? 0) then
    (Ret (Err ("Unknown handshake version number " +:+ to_string (nth 0 act 0))), state)
  else
    match pk_from_slice (slice 1 34 act) with
    | None => (Ret (Err ("Invalid public key " +:+ hex_str (slice 1 34 act))), state)
    | Some their_pub =>
        let state := mix_hash state (pk_serialize their_pub) in
        let ss := ecdh their_pub our_key in
        let '(temp_k, state) := hkdf state ss in
        match decrypt_with_ad 0 0 temp_k (h state) (drop 34 act) with
        | Ret (Ok _) => (Ret (Ok (their_pub, temp_k)), mix_hash state (drop 34 act))
        | Ret (Err e) => (Ret (Err e), state)
        | Panic w => (Panic w, state)
        | OutOfFuel => (OutOfFuel, state)
        end
    end.

Definition set_noise (p : PeerChannelEncryptor) (s : NoiseState) : PeerChannelEncryptor := mkPeer _ _ (their_node_id p) s.

Definition wrong_direction {A} : prog PeerChannelEncryptor A := panic "Wrong direction for act".
Definition wrong_step {A} : prog PeerChannelEncryptor A := panic "Requested act at wrong step".
Definition complete {A} : prog PeerChannelEncryptor A := panic "Cannot get act one after noise handshake completes".
Definition unwrap {A} (o : option A) : outcome A :=
  match o with Some x => Ret x | None => Panic "called `Option::unwrap()` on a `None` value" end.

Definition get_act_one : prog PeerChannelEncryptor bytes :=
  p ← get;
  match noise_state p with
  | InProgress state (Outbound ie) bi =>
      if negb (bool_decide (state = PreActOne)) then wrong_step
      else
        id ← lift (unwrap (their_node_id p));
        '(res, _, bi) ← lift (outbound_noise_act bi ie id);
        _ ← put (set_noise p (InProgress PostActOne (Outbound ie) bi));
        mret res
  | InProgress _ (Inbound _ _ _) _ => wrong_direction
  | Finished _ => complete
  end.

Definition get_or_insert {A} (o : option A) (x : A) : A := match o with Some y => y | None => x end.

Definition process_act_one_with_keys (act_one : bytes) (our_node_secret our_ephemeral : SecretKey) :
    prog PeerChannelEncryptor (result bytes LightningError) :=
  if negb (length act_one =? 50)%nat then panic "assertion failed: act_one.len() == 50"
  else
    p ← get;
    match noise_state p with
    | InProgress state (Inbound ie re temp_k2) bi =>
        if negb (bool_decide (state = PreActOne)) then wrong_step
        else
          let '(o, bi) := inbound_noise_act act_one our_node_secret bi in
          r ← lift o;
          match r with
          | Err e => _ ← put (set_noise p (InProgress state (Inbound ie re temp_k2) bi)); mret (Err e)
          | Ok (their_pub, _) =>
              let ie := get_or_insert ie their_pub in
              let re := get_or_insert re our_ephemeral in
              '(res, temp_k, bi) ← lift (outbound_noise_act bi re ie);
              _ ← put (set_noise p (InProgress PostActTwo (Inbound (Some ie) (Some re) (Some temp_k)) bi));
              mret (Ok res)
          end
    | InProgress _ (Outbound _) _ => wrong_direction
    | Finished _ => complete
    end.

(** The third act of the initiator, once the second is accepted: the act, the session keys
    and the chaining key. *)
Definition make_act_three (bi : BidirectionalNoiseState) (re : PublicKey) (temp_k2 : bytes) (our_node_secret : SecretKey) :
    outcome (bytes * (bytes * bytes) * bytes) :=
  let our_node_id := from_secret_key our_node_secret in
  c ← encrypt_with_ad 49 1 temp_k2 (h bi) (pk_serialize our_node_id);
  let bi := mix_hash bi c in
  let ss := ecdh re our_node_secret in
  let '(temp_k, bi) := hkdf bi ss in
  t ← encrypt_with_ad 16 0 temp_k (h bi) [];
  Ret (0 :: c ++ t, hkdf_extract_expand_twice (ck bi) [], ck bi).

Definition process_act_two (act_two : bytes) (our_node_secret : SecretKey) :
    prog PeerChannelEncryptor (result (bytes * PublicKey) LightningError) :=
  if negb (length act_two =? 50)%nat then panic "assertion failed: act_two.len() == 50"
  else
    p ← get;
    match noise_state p with
    | InProgress state (Outbound ie) bi =>
        if negb (bool_decide (state = PostActOne)) then wrong_step
        else
          let '(o, bi) := inbound_noise_act act_two ie bi in
          r ← lift o;
          match r with
          | Err e => _ ← put (set_noise p (InProgress state (Outbound ie) bi)); mret (Err e)
          | Ok (re, temp_k2) =>
              '(res, (sk, rk), ck) ← lift (make_act_three bi re temp_k2 our_node_secret);
              _ ← put (set_noise p (Finished (mkKeys sk 0 ck rk 0 ck)));
              id ← lift (unwrap (their_node_id p));
              mret (Ok (res, id))
          end
    | InProgress _ (Inbound _ _ _) _ => wrong_direction
    | Finished _ => complete
    end.

Definition process_act_three (act_three : bytes) : prog PeerChannelEncryptor (result PublicKey LightningError) :=
  if negb (length act_three =? 66)%nat then panic "assertion failed: act_three.len() == 66"
  else
    p ← get;
    match noise_state p with
    | InProgress state (Inbound ie re temp_k2) bi =>
        if negb (bool_decide (state = PostActTwo)) then wrong_step
        else if negb (nth 0 act_three 0 =? 0) then
          mret (Err ("Unknown handshake version number " +:+ to_string (nth 0 act_three 0)))
        else
          k2 ← lift (unwrap temp_k2);
          let? node_id := lift (decrypt_with_ad 33 1 k2 (h bi) (slice 1 50 act_three)) in
          match pk_from_slice node_id with
          | None => mret (Err ("Bad node_id from peer, " +:+ hex_str node_id))
          | Some id =>
              let bi := mix_hash bi (slice 1 50 act_three) in
              _ ← put (mkPeer _ _ (Some id) (InProgress state (Inbound ie re temp_k2) bi));
              re' ← lift (unwrap re);
              let ss := ecdh id re' in
              let '(temp_k, bi) := hkdf bi ss in
              _ ← put (mkPeer _ _ (Some id) (InProgress state (Inbound ie re temp_k2) bi));
              let? _ := lift (decrypt_with_ad 0 0 temp_k (h bi) (drop 50 act_three)) in
              let '(rk, sk) := hkdf_extract_expand_twice (ck bi) [] in
              _ ← put (mkPeer _ _ (Some id) (Finished (mkKeys sk 0 (ck bi) rk 0 (ck bi))));
              mret (Ok id)
          end
    | InProgress _ (Outbound _) _ => wrong_direction
    | Finished _ => complete
    end.

(** ** Messages *)

(** The keys of one direction are replaced after a thousand nonces. *)
Definition rotate_send (k : Keys) : Keys :=
  if 1000 <=? sn k then
    let '(new_sck, new_sk) := hkdf_extract_expand_twice (sck k) (sk k) in
    mkKeys new_sk 0 new_sck (rk k) (rn k) (rck k)
  else k.
Definition rotate_receive (k : Keys) : Keys :=
  if 1000 <=? rn k then
    let '(new_rck, new_rk) := hkdf_extract_expand_twice (rck k) (rk k) in
    mkKeys (sk k) (sn k) (sck k) new_rk 0 new_rck
  else k.
Definition set_sn (k : Keys) (n : Z) : Keys := mkKeys (sk k) n (sck k) (rk k) (rn k) (rck k).
Definition set_rn (k : Keys) (n : Z) : Keys := mkKeys (sk k) (sn k) (sck k) (rk k) n (rck k).

Definition encrypt_message (msg : bytes) : prog PeerChannelEncryptor bytes :=
  if LN_MAX_MSG_LEN <? Z.of_nat (length msg) then panic "Attempted to encrypt message longer than 65535 bytes!"
  else
    p ← get;
    match noise_state p with
    | Finished k =>
        let k := rotate_send k in
        hdr ← lift (encrypt_with_ad 18 (sn k) (sk k) [] (to_be_bytes 2 (wrap 16 (Z.of_nat (length msg)))));
        n1 ← lift (add64 (sn k) 1);
        body ← lift (encrypt_with_ad (length msg + 16) n1 (sk k) [] msg);
        n2 ← lift (add64 n1 1);
        _ ← put (set_noise p (Finished (set_sn k n2)));
        mret (hdr ++ body)
    | InProgress _ _ _ => panic "Tried to encrypt a message prior to noise handshake completion"
    end.

Definition decrypt_length_header (msg : bytes) : prog PeerChannelEncryptor (result Z LightningError) :=
  if negb (length msg =? 18)%nat then panic "assertion failed: msg.len() == 16+2"
  else
    p ← get;
    match noise_state p with
    | Finished k =>
        let k := rotate_receive k in
        _ ← put (set_noise p (Finished k));
        let? res := lift (decrypt_with_ad 2 (rn k) (rk k) [] msg) in
        n1 ← lift (add64 (rn k) 1);
        _ ← put (set_noise p (Finished (set_rn k n1)));
        mret (Ok (Bytes.from_be_bytes res))
    | InProgress _ _ _ => panic "Tried to decrypt a message prior to noise handshake completion"
    end.

Definition decrypt_message (msg : bytes) : prog PeerChannelEncryptor (result bytes LightningError) :=
  if LN_MAX_MSG_LEN + 16 <? Z.of_nat (length msg) then
    panic "Attempted to decrypt message longer than 65535 + 16 bytes!"
  else
    p ← get;
    match noise_state p with
    | Finished k =>
        if (length msg <? 16)%nat then panic "attempt to subtract with overflow"
        else
          let? res := lift (decrypt_with_ad (length msg - 16) (rn k) (rk k) [] msg) in
          n1 ← lift (add64 (rn k) 1);
          _ ← put (set_noise p (Finished (set_rn k n1)));
          mret (Ok res)
    | InProgress _ _ _ => panic "Tried to decrypt a message prior to noise handshake completion"
    end.

Definition get_noise_step (p : PeerChannelEncryptor) : NextNoiseStep :=
  match noise_state p with
  | InProgress PreActOne _ _ => ActOne
  | InProgress PostActOne _ _ => ActTwo
  | InProgress PostActTwo _ _ => ActThree
  | Finished _ => NoiseComplete
  end.

Definition is_ready_for_encryption (p : PeerChannelEncryptor) : bool :=
  match noise_state p with InProgress _ _ _ => false | Finished _ => true end.
End Noise.

(** ** Lemmas: sealing *)

Section Seal.
Context `{FixedTimeEqLaws}.

Lemma nonce_of_ok n : length (nonce_of n) = 12%nat /\ take 4 (nonce_of n) = [0; 0; 0; 0].
Proof. unfold nonce_of. rewrite length_app, length_to_le_bytes. done. Qed.

(** What was sealed opens; with another tag it does not. *)
Lemma sealed n key ad pt :
  length key = 32%nat -> all_u8 ad -> all_u8 pt -> Z.of_nat (length pt) <= MAX_DATA ->
  exists ct, encrypt_with_ad (length pt + 16) n key ad pt = Ret ct /\ length ct = (length pt + 16)%nat /\ all_u8 ct /\
    decrypt_with_ad (length pt) n key ad ct = Ret (Ok pt) /\
    (forall tag, length tag = 16%nat -> tag <> drop (length pt) ct ->
       decrypt_with_ad (length pt) n key ad (take (length pt) ct ++ tag) = Ret (Err "Bad MAC")).
Proof.
  intros Hk Ha Hp Hl. destruct (nonce_of_ok n) as [Hn H0n].
  destruct (new_at key (nonce_of n) ad Hk Hn H0n Ha) as (pk & c0 & s & _ & Hst & En & Hs).
  destruct (encrypt_at pk ad c0 Hst s [] [] pt Hs Hp) as (enc & s' & Ee & Eb & Le & Ue); [cbn; lia|]. cbn [app] in Ee.
  set (tag0 := tag_of pk ad enc) in *. assert (Lt : length tag0 = 16%nat) by apply tag_length.
  assert (Hdec : forall tag, length tag = 16%nat ->
    decrypt_with_ad (length pt) n key ad (enc ++ tag) =
    Ret (if bool_decide (tag0 = tag) then Ok pt else Err "Bad MAC")).
  { intros tag Ht. destruct (decrypt_at pk ad c0 Hst s [] [] enc tag Hs Ue) as (m & c' & s'' & Em & Ed); [cbn; lia|done|].
    apply bytewise_involutive in Eb. rewrite Eb in Em. injection Em as <- _. cbn [app] in Ed. fold tag0 in Ed.
    unfold decrypt_with_ad. rewrite En. cbn [mbind outcome_bind]. rewrite length_app, Ht.
    replace (_ <? 16)%nat with false by (symmetry; apply Nat.ltb_ge; lia).
    replace (length enc + 16 - 16)%nat with (length enc) by lia. rewrite take_app_length, drop_app_length, <- Le, Ed.
    cbn [mbind outcome_bind]. case_bool_decide; cbn [mbind outcome_bind]; done. }
  exists (enc ++ tag0). split_and!.
  - unfold encrypt_with_ad. rewrite En. cbn [mbind outcome_bind].
    replace (_ <? _)%nat with false by (symmetry; apply Nat.ltb_ge; lia). rewrite Ee. cbn [mbind outcome_bind].
    by rewrite Nat.eqb_refl.
  - rewrite length_app. lia.
  - apply Forall_app. split; [done|]. apply to_le_bytes_u8.
  - rewrite Hdec by done. by rewrite bool_decide_eq_true_2.
  - intros tag Ht Hne. rewrite take_app_length', Hdec by done. rewrite drop_app_length' in Hne by done.
    by rewrite bool_decide_eq_false_2.
Qed.
End Seal.

(** ** The handshake *)

Section Handshake.
Context `{SecpLaws} `{!NoiseCrypto} `{!NoiseLaws} `{!FixedTimeEq} `{!FixedTimeEqLaws}.

Lemma twice_arrays salt ikm :
  array_ok 32 (hkdf_extract_expand_twice salt ikm).1 /\ array_ok 32 (hkdf_extract_expand_twice salt ikm).2.
Proof. split; apply hmac_array. Qed.

Lemma pk_zero_byte (k : PublicKey) : length (pk_serialize k) = 33%nat /\ all_u8 (pk_serialize k).
Proof. apply pk_array. Qed.

(** An act made for a key is accepted by its owner, and both sides then agree on the
    transcript, the chaining key and the temporary key. *)
Lemma act_accepted bi our their :
  array_ok 32 (h bi) ->
  exists act tk bi', outbound_noise_act bi our (from_secret_key their) = Ret (act, tk, bi') /\ length act = 50%nat /\
    inbound_noise_act act their bi = (Ret (Ok (from_secret_key our, tk)), bi') /\ array_ok 32 tk /\ array_ok 32 (h bi').
Proof.
  intros Hh. unfold outbound_noise_act, inbound_noise_act, hkdf.
  set (bi1 := mix_hash bi (pk_serialize (from_secret_key our))).
  destruct (hkdf_extract_expand_twice (ck bi1) (ecdh (from_secret_key their) our)) as [t1 t2] eqn:Et.
  pose proof (twice_arrays (ck bi1) (ecdh (from_secret_key their) our)) as [Ht1 Ht2]. rewrite Et in Ht1, Ht2. cbn [fst snd] in *.
  destruct (sealed 0 t2 (h (mkBi (h bi1) t1)) []) as (c & Ec & Lc & Uc & Ed & _); [apply Ht2|apply sha256_array|done|done|].
  cbn [length Nat.add] in Ec, Lc, Ed. rewrite Ec. cbn [mbind outcome_bind].
  destruct (pk_zero_byte (from_secret_key our)) as [Lp Up].
  eexists _, _, _. split; [done|].
  assert (La : length (0 :: pk_serialize (from_secret_key our) ++ c) = 50%nat) by (cbn; rewrite length_app; lia).
  assert (S1 : slice 1 34 (0 :: pk_serialize (from_secret_key our) ++ c) = pk_serialize (from_secret_key our)).
  { unfold slice. cbn [drop Nat.sub]. rewrite drop_0. by apply take_app_length'. }
  assert (D1 : drop 34 (0 :: pk_serialize (from_secret_key our) ++ c) = c) by (cbn [drop]; by apply drop_app_length').
  split; [done|]. rewrite La, S1, pk_roundtrip, D1. cbn [nth Nat.eqb negb Z.eqb]. fold bi1.
  rewrite ecdh_comm, Et, Ed. split; [done|]. split; [done|]. apply sha256_array.
Qed.

(** The third act. *)
Lemma act_three_accepted bi re our tk :
  array_ok 32 (h bi) -> array_ok 32 tk ->
  exists act keys ck', make_act_three bi (from_secret_key re) tk our = Ret (act, keys, ck') /\ length act = 66%nat /\
    nth 0 act 0 = 0 /\ decrypt_with_ad 33 1 tk (h bi) (slice 1 50 act) = Ret (Ok (pk_serialize (from_secret_key our))) /\
    (let '(temp_k, bi') := hkdf (mix_hash bi (slice 1 50 act)) (ecdh (from_secret_key our) re) in
     decrypt_with_ad 0 0 temp_k (h bi') (drop 50 act) = Ret (Ok []) /\
     hkdf_extract_expand_twice (ck bi') [] = keys /\ ck bi' = ck').
Proof.
  intros Hh Htk. unfold make_act_three. destruct (pk_zero_byte (from_secret_key our)) as [Lp Up].
  destruct (sealed 1 tk (h bi) (pk_serialize (from_secret_key our))) as (c & Ec & Lc & Uc & Ed & _);
    [apply Htk|apply Hh|done|rewrite Lp; by vm_compute|].
  rewrite Lp in Ec, Lc, Ed. cbn [Nat.add] in Ec, Lc. rewrite Ec. cbn [mbind outcome_bind].
  destruct (hkdf (mix_hash bi c) (ecdh (from_secret_key re) our)) as [temp_k bi'] eqn:Eh.
  assert (Hk : array_ok 32 temp_k /\ array_ok 32 (h bi')).
  { unfold hkdf in Eh. pose proof (twice_arrays (ck (mix_hash bi c)) (ecdh (from_secret_key re) our)) as [_ T2].
    destruct (hkdf_extract_expand_twice _ _). injection Eh as <- <-. split; [done|apply sha256_array]. }
  destruct Hk as [Hk Hh']. destruct (sealed 0 temp_k (h bi') []) as (t & Et & Lt & Ut & Edt & _); [apply Hk|apply Hh'|done|done|].
  cbn [length Nat.add] in Et, Lt, Edt. rewrite Et. cbn [mbind outcome_bind]. eexists _, _, _. split; [done|].
  assert (S1 : slice 1 50 (0 :: c ++ t) = c) by (unfold slice; cbn [drop Nat.sub]; rewrite drop_0; by apply take_app_length').
  assert (D1 : drop 50 (0 :: c ++ t) = t) by (cbn [drop]; by apply drop_app_length').
  split; [cbn; rewrite length_app; lia|]. split; [done|]. rewrite S1, D1. split; [done|].
  rewrite ecdh_comm, Eh. done.
Qed.

(** *** Sessions *)

(** One direction: the sender's key, nonce and chaining key are the receiver's; two nonces
    are used per message, so the count is even, and at most a thousand. *)
Record one_way (key : bytes) (n : Z) (chain key' : bytes) (n' : Z) (chain' : bytes) : Prop := {
  ow_key : key = key'; ow_nonce : n = n'; ow_chain : chain = chain';
  ow_array : array_ok 32 key; ow_range : 0 <= n <= 1000; ow_even : n `mod` 2 = 0;
}.

Definition keys_mirrored (kp kq : Keys) : Prop :=
  one_way (sk kp) (sn kp) (sck kp) (rk kq) (rn kq) (rck kq) /\
  one_way (sk kq) (sn kq) (sck kq) (rk kp) (rn kp) (rck kp).

Definition mirrored (p q : PeerChannelEncryptor) : Prop :=
  exists kp kq, noise_state p = Finished kp /\ noise_state q = Finished kq /\ keys_mirrored kp kq.

Lemma fresh_mirrored a b c : array_ok 32 a -> array_ok 32 b -> keys_mirrored (mkKeys a 0 c b 0 c) (mkKeys b 0 c a 0 c).
Proof. intros Ha Hb. split; split; cbn; (done || lia). Qed.

(** Evaluate a handler up to the acts it makes or checks. *)
Ltac acts := cbn -[outbound_noise_act inbound_noise_act make_act_three decrypt_with_ad slice hkdf mix_hash drop nth NOISE_H NOISE_CK
  hkdf_extract_expand_twice].

(** Between honest peers that know each other's keys the three acts are accepted in order,
    each end learns who the other is, and they end with the same keys, one's for sending
    being the other's for receiving. *)
Theorem noise_handshake (our_secret their_secret ie re : SecretKey) :
  exists act1 p1 act2 q1 act3 p2 q2,
    get_act_one (new_outbound (from_secret_key their_secret) ie) = (Ret act1, p1) /\
    process_act_one_with_keys act1 their_secret re (new_inbound their_secret) = (Ret (Ok act2), q1) /\
    process_act_two act2 our_secret p1 = (Ret (Ok (act3, from_secret_key their_secret)), p2) /\
    process_act_three act3 q1 = (Ret (Ok (from_secret_key our_secret)), q2) /\
    their_node_id p2 = Some (from_secret_key their_secret) /\ their_node_id q2 = Some (from_secret_key our_secret) /\
    mirrored p2 q2.
Proof.
  set (bi0 := mkBi (sha256 (NOISE_H ++ pk_serialize (from_secret_key their_secret))) NOISE_CK).
  destruct (act_accepted bi0 ie their_secret) as (act1 & tk1 & bi1 & O1 & L1 & I1 & _ & Hh1); [apply sha256_array|].
  destruct (act_accepted bi1 re ie Hh1) as (act2 & tk2 & bi2 & O2 & L2 & I2 & Htk2 & Hh2).
  destruct (act_three_accepted bi2 re our_secret tk2 Hh2 Htk2) as (act3 & keys & ck' & O3 & L3 & Z3 & D3 & K3).
  set (p1 := mkPeer _ _ (Some (from_secret_key their_secret)) (InProgress PostActOne (Outbound ie) bi1)).
  set (q1 := mkPeer _ _ None (InProgress PostActTwo (Inbound (Some (from_secret_key ie)) (Some re) (Some tk2)) bi2)).
  destruct keys as [k1 k2].
  exists act1, p1, act2, q1, act3,
    (mkPeer _ _ (Some (from_secret_key their_secret)) (Finished (mkKeys k1 0 ck' k2 0 ck'))),
    (mkPeer _ _ (Some (from_secret_key our_secret)) (Finished (mkKeys k2 0 ck' k1 0 ck'))).
  split; [|split; [|split; [|split]]].
  - unfold get_act_one, mbind, prog_bind, get, lift, put. acts. fold bi0. by rewrite O1.
  - unfold process_act_one_with_keys, mbind, prog_bind, get, lift, put. rewrite L1. acts. fold bi0. rewrite I1. acts.
    by rewrite O2.
  - unfold process_act_two, mbind, prog_bind, get, lift, put. rewrite L2. acts. rewrite I2. acts. by rewrite O3.
  - unfold process_act_three, bind_ok, mbind, prog_bind, get, lift, put. rewrite L3. acts. rewrite Z3.
    acts. rewrite D3. acts. rewrite pk_roundtrip. acts.
    destruct (hkdf (mix_hash bi2 (slice 1 50 act3)) (ecdh (from_secret_key our_secret) re)) as [temp_k bi'].
    destruct K3 as (E1 & E2 & E3). rewrite E1. acts. by rewrite E2, E3.
  - split_and!; [done|done|]. eexists _, _. split_and!; [done|done|].
    destruct (hkdf _ _) as [temp_k bi']. destruct K3 as (_ & E2 & _).
    pose proof (twice_arrays (ck bi') []) as [T1 T2]. rewrite E2 in T1, T2. by apply fresh_mirrored.
Qed.

(** *** Messages *)

Lemma even_below n : 0 <= n <= 1000 -> n `mod` 2 = 0 -> n < 1000 -> n <= 998.
Proof. intros Hr He Hl. pose proof (Z.div_mod n 2 ltac:(lia)). lia. Qed.

(** Both ends of a direction rotate together, and then have two nonces left. *)
Lemma rotate_together kp kq :
  keys_mirrored kp kq ->
  keys_mirrored (rotate_send kp) (rotate_receive kq) /\ sn (rotate_send kp) <= 998.
Proof.
  intros [[E1 E2 E3 Ha Hr He] Hback]. unfold rotate_send, rotate_receive. rewrite <- E2, <- E1, <- E3.
  destruct (Z.leb_spec 1000 (sn kp)) as [Hge|Hlt].
  - pose proof (twice_arrays (sck kp) (sk kp)) as [_ T2]. destruct (hkdf_extract_expand_twice (sck kp) (sk kp)) as [c k].
    cbn in T2. split; [|cbn; lia]. split; [|exact Hback]. split; cbn; (done || lia).
  - split; [|by apply even_below]. split; [|exact Hback]. by split.
Qed.

Lemma advance_mirrored kp kq :
  keys_mirrored kp kq -> sn kp <= 998 ->
  keys_mirrored (set_sn kp (sn kp + 1 + 1)) (set_rn kq (sn kp + 1 + 1)).
Proof.
  intros [[E1 E2 E3 Ha Hr He] Hback] Hl. split; [|exact Hback]. split; cbn; try done; [lia|].
  replace (sn kp + 1 + 1) with (sn kp + 1 * 2) by lia. by rewrite Z_mod_plus_full.
Qed.

Lemma add64_small n : 0 <= n <= 1000 -> add64 n 1 = Ret (n + 1).
Proof. intros Hn. unfold add64. apply checked_op_ok. width_lia. Qed.

(** What a sender with two nonces left makes of a message: a header and a body, each sealed
    under its own nonce. *)
Lemma encrypt_finished p k msg :
  noise_state p = Finished k -> array_ok 32 (sk (rotate_send k)) -> 0 <= sn (rotate_send k) <= 998 ->
  all_u8 msg -> Z.of_nat (length msg) <= LN_MAX_MSG_LEN ->
  let k1 := rotate_send k in
  exists hdr body, encrypt_message msg p = (Ret (hdr ++ body), set_noise p (Finished (set_sn k1 (sn k1 + 1 + 1)))) /\
    length hdr = 18%nat /\ length body = (length msg + 16)%nat /\
    decrypt_with_ad 2 (sn k1) (sk k1) [] hdr = Ret (Ok (to_be_bytes 2 (Z.of_nat (length msg)))) /\
    (forall tag, length tag = 16%nat -> tag <> drop 2 hdr ->
       decrypt_with_ad 2 (sn k1) (sk k1) [] (take 2 hdr ++ tag) = Ret (Err "Bad MAC")) /\
    decrypt_with_ad (length msg) (sn k1 + 1) (sk k1) [] body = Ret (Ok msg).
Proof.
  intros Ep Ha Hn Hu Hl. cbv zeta. set (k1 := rotate_send k) in *.
  destruct (sealed (sn k1) (sk k1) [] (to_be_bytes 2 (wrap 16 (Z.of_nat (length msg)))))
    as (hdr & Eh & Lh & _ & Dh & Bh); [apply Ha|done|apply to_be_bytes_u8|by rewrite length_to_be_bytes|].
  unfold LN_MAX_MSG_LEN, U16_MAX in Hl.
  destruct (sealed (sn k1 + 1) (sk k1) [] msg) as (body & Eb & Lb & _ & Db & _); [apply Ha|done|done|unfold MAX_DATA; lia|].
  rewrite length_to_be_bytes in Eh, Lh, Dh, Bh. cbn [Nat.add] in Eh, Lh. rewrite wrap_small in Dh by width_lia.
  exists hdr, body. split; [|by split_and!].
  unfold encrypt_message, LN_MAX_MSG_LEN, mbind, prog_bind, get, lift, put. replace (_ <? _) with false by (unfold U16_MAX; lia).
  rewrite Ep. cbv zeta. fold k1. rewrite Eh, add64_small by lia. rewrite Eb, add64_small by lia. done.
Qed.

(** One message from [p] to [q]. *)
Lemma message_delivered p q msg :
  mirrored p q -> all_u8 msg -> Z.of_nat (length msg) <= LN_MAX_MSG_LEN ->
  exists ct p' q1 q2,
    encrypt_message msg p = (Ret ct, p') /\ length ct = (length msg + 34)%nat /\
    decrypt_length_header (take 18 ct) q = (Ret (Ok (Z.of_nat (length msg))), q1) /\
    decrypt_message (drop 18 ct) q1 = (Ret (Ok msg), q2) /\ mirrored p' q2.
Proof.
  intros (kp & kq & Ep & Eq & Hk) Hu Hl. destruct (rotate_together _ _ Hk) as [Hk1 Hn].
  pose proof Hk1 as [[E1 E2 E3 Ha Hr He] _].
  destruct (encrypt_finished p kp msg Ep Ha ltac:(lia) Hu Hl) as (hdr & body & Ee & Lh & Lb & Dh & _ & Db).
  set (kp1 := rotate_send kp) in *. set (kq1 := rotate_receive kq) in *.
  exists (hdr ++ body), (set_noise p (Finished (set_sn kp1 (sn kp1 + 1 + 1)))),
    (set_noise q (Finished (set_rn kq1 (rn kq1 + 1)))), (set_noise q (Finished (set_rn kq1 (rn kq1 + 1 + 1)))).
  unfold LN_MAX_MSG_LEN, U16_MAX in Hl. split_and!.
  - done.
  - rewrite length_app. lia.
  - rewrite take_app_length' by done.
    unfold decrypt_length_header, bind_ok, mbind, prog_bind, get, lift, put. rewrite Lh. cbn [Nat.eqb negb].
    rewrite Eq. cbv zeta. fold kq1. rewrite <- E1, <- E2, Dh, add64_small by lia. unfold mret, prog_ret.
    rewrite from_to_be_bytes by (cbn; lia). done.
  - rewrite drop_app_length' by done.
    unfold decrypt_message, LN_MAX_MSG_LEN, bind_ok, mbind, prog_bind, get, lift, put.
    replace (_ <? _) with false by (unfold U16_MAX; lia).
    cbn [noise_state set_noise]. replace (_ <? 16)%nat with false by (symmetry; apply Nat.ltb_ge; lia).
    replace (length body - 16)%nat with (length msg) by lia. cbn [rn rk set_rn].
    rewrite <- E1, <- E2, Db, add64_small by lia. done.
  - eexists _, _. split_and!; [done|done|]. rewrite <- E2. by apply advance_mirrored.
Qed.

Lemma mirrored_sym p q : mirrored p q -> mirrored q p.
Proof. intros (kp & kq & Ep & Eq & Hf & Hb). exists kq, kp. by split_and!. Qed.

(** *** Conversations *)

(** One message from the sender to the receiver, over a reliable stream: the length header
    is read first, then as many bytes as it says and the tag. *)
Definition deliver (msg : bytes) (sender receiver : PeerChannelEncryptor) :
    outcome (result bytes LightningError) * PeerChannelEncryptor * PeerChannelEncryptor :=
  match encrypt_message msg sender with
  | (Ret ct, sender) =>
      let '(o, receiver) :=
        (let? len := decrypt_length_header (take 18 ct) in
         decrypt_message (take (Z.to_nat len + 16) (drop 18 ct))) receiver in
      (o, sender, receiver)
  | (Panic w, sender) => (Panic w, sender, receiver)
  | (OutOfFuel, sender) => (OutOfFuel, sender, receiver)
  end.

(** A conversation: each message with its direction; what each delivery gave. *)
Fixpoint converse (msgs : list (bool * bytes)) (p q : PeerChannelEncryptor) :
    list (outcome (result bytes LightningError)) * PeerChannelEncryptor * PeerChannelEncryptor :=
  match msgs with
  | [] => ([], p, q)
  | (forward, msg) :: msgs' =>
      let '(o, p, q) :=
        if (forward : bool) then deliver msg p q
        else let '(o, q, p) := deliver msg q p in (o, p, q) in
      let '(os, p, q) := converse msgs' p q in
      (o :: os, p, q)
  end.

Lemma deliver_mirrored msg p q :
  mirrored p q -> all_u8 msg -> Z.of_nat (length msg) <= LN_MAX_MSG_LEN ->
  exists p' q', deliver msg p q = (Ret (Ok msg), p', q') /\ mirrored p' q'.
Proof.
  intros Hm Hu Hl. destruct (message_delivered p q msg Hm Hu Hl) as (ct & p' & q1 & q2 & Ee & Lc & Eh & Ed & Hm').
  exists p', q2. split; [|done]. unfold deliver. rewrite Ee, (bind_ok_Ok _ _ _ _ _ Eh).
  rewrite Nat2Z.id, take_ge, Ed by (rewrite length_drop; lia). done.
Qed.

(** C32: after a handshake, whatever the two ends send each other, in whatever order, for as long
    as they like and through every key rotation, is received as it was sent. *)
Theorem noise_transport (p q : PeerChannelEncryptor) (msgs : list (bool * bytes)) :
  mirrored p q -> Forall (fun m => all_u8 m.2 /\ Z.of_nat (length m.2) <= LN_MAX_MSG_LEN) msgs ->
  exists p' q', converse msgs p q = ((fun m => Ret (Ok m.2)) <$> msgs, p', q') /\ mirrored p' q'.
Proof.
  intros Hm Hms. revert p q Hm. induction Hms as [|[d msg] msgs [Hu Hl] _ IH]; intros p q Hm; [by exists p, q|].
  cbn [converse fmap list_fmap]. destruct d.
  - destruct (deliver_mirrored msg p q Hm Hu Hl) as (p1 & q1 & -> & Hm1).
    destruct (IH p1 q1 Hm1) as (p2 & q2 & -> & Hm2). by exists p2, q2.
  - destruct (deliver_mirrored msg q p (mirrored_sym _ _ Hm) Hu Hl) as (q1 & p1 & -> & Hm1).
    destruct (IH p1 q1 (mirrored_sym _ _ Hm1)) as (p2 & q2 & -> & Hm2). by exists p2, q2.
Qed.

(** *** Nonces *)

Fixpoint send_all (msgs : list bytes) : prog PeerChannelEncryptor (list bytes) :=
  match msgs with
  | [] => mret []
  | msg :: msgs' => ct ← encrypt_message msg; cts ← send_all msgs'; mret (ct :: cts)
  end.

(** The chaining key and the key after a number of rotations. *)
Definition rotated (n : nat) (k : Keys) : bytes * bytes :=
  Nat.iter n (fun '(c, s) => hkdf_extract_expand_twice c s) (sck k, sk k).

(** The keys of a sender that has sent [j] messages since [k]: half a thousand per key. *)
Definition sent (j : nat) (k k' : Keys) : Prop :=
  (sck k', sk k') = rotated (Nat.div j 500) k /\ sn k' = 2 * Z.of_nat (Nat.modulo j 500) /\ array_ok 32 (sk k').

Lemma encrypt_sent k k' j p msg :
  noise_state p = Finished k' -> sent j k (rotate_send k') -> all_u8 msg -> Z.of_nat (length msg) <= LN_MAX_MSG_LEN ->
  exists ct k2, encrypt_message msg p = (Ret ct, set_noise p (Finished k2)) /\ sent (S j) k (rotate_send k2).
Proof.
  intros Ep (Er & En & Ha) Hu Hl.
  assert (Hm : (Nat.modulo j 500 < 500)%nat) by (apply Nat.mod_upper_bound; lia).
  destruct (encrypt_finished p k' msg Ep Ha ltac:(lia) Hu Hl) as (hdr & body & Ee & _).
  set (k1 := rotate_send k') in *. exists (hdr ++ body), (set_sn k1 (sn k1 + 1 + 1)). split; [done|].
  assert (Hdm := Nat.div_mod_eq j 500). unfold rotate_send, sent. cbn [set_sn sn sck sk].
  destruct (Z.leb_spec 1000 (sn k1 + 1 + 1)) as [Hge|Hlt].
  - assert (Hj : Nat.modulo j 500 = 499%nat) by lia.
    rewrite <- (Nat.div_unique (S j) 500 (S (Nat.div j 500)) 0), <- (Nat.mod_unique (S j) 500 (S (Nat.div j 500)) 0) by lia.
    pose proof (twice_arrays (sck k1) (sk k1)) as [_ T2].
    destruct (hkdf_extract_expand_twice (sck k1) (sk k1)) as [c s] eqn:Et. cbn [sck sk sn snd] in *.
    unfold rotated in *. rewrite Nat.iter_succ, <- Er. cbn beta iota. by rewrite Et.
  - assert (Hj : (Nat.modulo j 500 < 499)%nat) by lia.
    rewrite <- (Nat.div_unique (S j) 500 (Nat.div j 500) (S (Nat.modulo j 500))),
      <- (Nat.mod_unique (S j) 500 (Nat.div j 500) (S (Nat.modulo j 500))) by lia.
    cbn [set_sn sck sk sn]. split; [done|]. split; [lia|apply Ha].
Qed.


(** *** Tampering *)

(** A message whose tag is not the sender's is refused, and the receiver's nonce stays. *)
Theorem bad_mac_refused (p q : PeerChannelEncryptor) (msg tag : bytes) :
  mirrored p q -> all_u8 msg -> Z.of_nat (length msg) <= LN_MAX_MSG_LEN -> length tag = 16%nat ->
  exists ct p' kq, encrypt_message msg p = (Ret ct, p') /\ noise_state q = Finished kq /\
    (tag <> slice 2 18 ct ->
     decrypt_length_header (take 2 ct ++ tag) q = (Ret (Err "Bad MAC"), set_noise q (Finished (rotate_receive kq)))).
Proof.
  intros (kp & kq & Ep & Eq & Hk) Hu Hl Ht. destruct (rotate_together _ _ Hk) as [Hk1 Hn].
  pose proof Hk1 as [[E1 E2 E3 Ha Hr He] _].
  destruct (encrypt_finished p kp msg Ep Ha ltac:(lia) Hu Hl) as (hdr & body & Ee & Lh & _ & _ & Bh & _).
  set (kp1 := rotate_send kp) in *. set (kq1 := rotate_receive kq) in *.
  exists (hdr ++ body), (set_noise p (Finished (set_sn kp1 (sn kp1 + 1 + 1)))), kq. split_and!; [done..|].
  intros Hne. rewrite take_app_le by lia.
  assert (Hs : slice 2 18 (hdr ++ body) = drop 2 hdr).
  { unfold slice. rewrite drop_app_le by lia. rewrite take_app_length'; [done|]. rewrite length_drop. lia. }
  rewrite Hs in Hne. unfold decrypt_length_header, bind_ok, mbind, prog_bind, get, lift, put.
  rewrite length_app, length_take, Lh, Ht. cbn [Nat.min Nat.add Nat.eqb negb]. rewrite Eq. cbv zeta. fold kq1.
  rewrite <- E1, <- E2, Bh by done. done.
Qed.
End Handshake.
