(* ===== verification/OnionHop.v ===== *)
(** * Per-hop payloads of the onion: [OnionHopData] of msgs.rs

    A payload is a legacy one of fixed length, or a TLV stream preceded by its length.  The
    length is written as a [BigSize] and read as bitcoin's [VarInt]; the two agree below
    0xFD, and no payload that is written is longer. *)

From S2P Require Import Prelude Text Bytes Stream Ser SerLaws Tlv Features Msgs.

Local Open Scope Z_scope.

Definition MAX_VALUE_MSAT : Z := 21000000 * 100000000 * 1000.

Module FinalOnionHopData.
Record t := mk { payment_secret : bytes; total_msat : Z }.
Definition codec : Codec t :=
  mkCodec (fun m => c_write (arrayc 32) (payment_secret m) ++ c_write (high_zero_dropped 8) (total_msat m))
    (secret ← c_read (arrayc 32); amt ← c_read (high_zero_dropped 8); mret (mk secret amt)).
Definition ok (m : t) : Prop := array_ok 32 (payment_secret m) /\ u64 (total_msat m).
End FinalOnionHopData.

Module OnionHopData.
Inductive OnionHopDataFormat :=
| Legacy (short_channel_id : Z)
| NonFinalNode (short_channel_id : Z)
| FinalNode (payment_data : option FinalOnionHopData.t) (keysend_preimage : option bytes).

Record t := mk { format : OnionHopDataFormat; amt_to_forward : Z; outgoing_cltv_value : Z }.

(** The local variables the TLV fields are read into. *)
Record vars := mkVars {
  v_amt : Z; v_cltv_value : Z; v_short_id : option Z;
  v_payment_data : option FinalOnionHopData.t; v_keysend_preimage : option bytes }.

Definition set_amt x v := mkVars x (v_cltv_value v) (v_short_id v) (v_payment_data v) (v_keysend_preimage v).
Definition set_cltv x v := mkVars (v_amt v) x (v_short_id v) (v_payment_data v) (v_keysend_preimage v).
Definition set_short_id x v := mkVars (v_amt v) (v_cltv_value v) (Some x) (v_payment_data v) (v_keysend_preimage v).
Definition set_payment_data x v := mkVars (v_amt v) (v_cltv_value v) (v_short_id v) (Some x) (v_keysend_preimage v).
Definition set_keysend x v := mkVars (v_amt v) (v_cltv_value v) (v_short_id v) (v_payment_data v) (Some x).

Definition into {T} (c : Codec T) (set : T -> vars -> vars) (v : vars) : rd vars := x ← c_read c; mret (set x v).

Definition fields : list (tlv_field vars) :=
  [ mkField 2 Required (into (high_zero_dropped 8) set_amt);
    mkField 4 Required (into (high_zero_dropped 4) set_cltv);
    mkField 6 Absentable (into u64c set_short_id);
    mkField 8 Absentable (into FinalOnionHopData.codec set_payment_data);
    mkField 5482373484 Absentable (into (arrayc 32) set_keysend) ].

Definition init_vars : vars := mkVars 0 0 None None None.

Definition tlvs (m : t) : list (Z * option (list bytes)) :=
  let amount := [(2, Some (c_write (high_zero_dropped 8) (amt_to_forward m)));
                 (4, Some (c_write (high_zero_dropped 4) (outgoing_cltv_value m)))] in
  match format m with
  | Legacy _ => []
  | NonFinalNode short_channel_id => amount ++ [(6, Some (c_write u64c short_channel_id))]
  | FinalNode payment_data keysend_preimage =>
      amount ++ [(8, c_write FinalOnionHopData.codec <$> payment_data);
                 (5482373484, c_write (arrayc 32) <$> keysend_preimage)]
  end.

Definition write (m : t) : list bytes :=
  match format m with
  | Legacy short_channel_id =>
      c_write u8c 0 ++ c_write u64c short_channel_id ++ c_write u64c (amt_to_forward m) ++
      c_write u32c (outgoing_cltv_value m) ++ [replicate 12 0]
  | _ => write_tlv_fields (tlvs m)
  end.

Definition LEGACY_ONION_HOP_FLAG : Z := 0.

Definition format_of (v : vars) : result OnionHopDataFormat DecodeError :=
  match v_short_id v with
  | Some short_channel_id =>
      if v_payment_data v then Err InvalidValue else Ok (NonFinalNode short_channel_id)
  | None =>
      match v_payment_data v with
      | Some data =>
          if MAX_VALUE_MSAT <? FinalOnionHopData.total_msat data then Err InvalidValue
          else Ok (FinalNode (v_payment_data v) (v_keysend_preimage v))
      | None => Ok (FinalNode (v_payment_data v) (v_keysend_preimage v))
      end
  end.

Definition read `{Secp} : rd t :=
  v ← varint_decode;
  '(format, amt, cltv_value) ←
    (if negb (v =? LEGACY_ONION_HOP_FLAG) then
       vs ← read_tlv_within fields v init_vars;
       format ← of_result (format_of vs);
       mret (format, v_amt vs, v_cltv_value vs)
     else
       short_channel_id ← c_read u64c;
       amt ← c_read u64c;
       cltv_value ← c_read u32c;
       _ ← read_exact 12;
       mret (Legacy short_channel_id, amt, cltv_value));
  if MAX_VALUE_MSAT <? amt then rerr InvalidValue
  else mret (mk format amt cltv_value).

Definition codec `{Secp} : Codec t := mkCodec write read.

(** What can be sent and what is received: amounts up to 21 million bitcoin. *)
Definition format_ok (f : OnionHopDataFormat) : Prop :=
  match f with
  | Legacy s | NonFinalNode s => u64 s
  | FinalNode p k =>
      (forall d, p = Some d -> array_ok 32 (FinalOnionHopData.payment_secret d) /\
         0 <= FinalOnionHopData.total_msat d <= MAX_VALUE_MSAT) /\
      (forall b, k = Some b -> array_ok 32 b)
  end.
Definition ok (m : t) : Prop :=
  format_ok (format m) /\ 0 <= amt_to_forward m <= MAX_VALUE_MSAT /\ u32 (outgoing_cltv_value m).
End OnionHopData.

(** ** Laws *)

Global Instance final_hop_end : EndRoundTrip FinalOnionHopData.codec FinalOnionHopData.ok.
Proof.
  intros [s a] [Hs Ha]. unfold encode, vec_writer, FinalOnionHopData.codec. cbn [c_read c_write].
  rewrite concat_app, (run_field (arrayc 32) (array_ok 32)) by done.
  assert (E : run (c_read (high_zero_dropped 8)) (encode (high_zero_dropped 8) a) = (Ret (Ok a), []))
    by (apply high_zero_roundtrip; split; [lia|done]).
  by rewrite (run_bind_Ok _ _ _ _ _ E).
Qed.
Global Instance final_hop_typed : Typed FinalOnionHopData.codec FinalOnionHopData.ok.
Proof. intros bs m rest Hu H. open_read H. inv_run. apply typed in E; [|done]. apply typed in E0; [|done]. by split. Qed.
Global Instance high_zero_8_total : Total (high_zero_dropped 8) := high_zero_total 8 (ltac:(lia)).
Global Instance high_zero_4_total : Total (high_zero_dropped 4) := high_zero_total 4 (ltac:(lia)).
Global Instance final_hop_total : Total FinalOnionHopData.codec.
Proof. solve_total. Qed.

Section HopLaws.
Context `{SecpLaws}.
Import OnionHopData.

Lemma hop_fields_total : Forall (fun f => forall s, total (tf_decode f s)) fields.
Proof. repeat constructor; intros s; cbn [tf_decode]; unfold into; solve_total. Qed.

Global Instance onion_hop_total : Total codec.
Proof.
  change (total (c_read codec)). cbn [codec c_read]. unfold read.
  intros bs Hs. rewrite run_bind. destruct (varint_total bs Hs) as ([v|e] & bs1 & E); rewrite E; [|by eexists _, _].
  assert (Hv : u64 v) by (eapply varint_typed; [|exact E]; apply Hs).
  assert (Hs1 : sized bs1) by (by eapply run_sized). revert bs1 E Hs1.
  intros bs1 _. revert bs1. apply total_bind; [|solve_total].
  destruct (negb _); [|solve_total]. apply total_bind.
  - apply total_read_tlv_within; [apply hop_fields_total|width_lia].
  - intros vs. apply total_bind; [unfold of_result; apply total_ret|solve_total].
Qed.

(** The variables of an accepted payload are in range. *)
Definition vars_ok (v : vars) : Prop :=
  u64 (v_amt v) /\ u32 (v_cltv_value v) /\ (forall s, v_short_id v = Some s -> u64 s) /\
  (forall d, v_payment_data v = Some d -> FinalOnionHopData.ok d) /\
  (forall b, v_keysend_preimage v = Some b -> array_ok 32 b).

Lemma into_kept {T} (c : Codec T) valid `{!Typed c valid} t k set :
  match k with DefaultValue _ => False | _ => True end ->
  (forall x v, valid x -> vars_ok v -> vars_ok (set x v)) -> kept_by vars_ok (mkField t k (into c set)).
Proof.
  intros Hk Hset. split; [|by destruct k]. cbn [tf_decode]. unfold into. intros s bs s' rest Hs Hu H1. inv_run.
  apply typed in E; auto.
Qed.

Lemma hop_fields_kept : Forall (kept_by vars_ok) fields.
Proof.
  unfold fields. repeat apply Forall_cons_2; [..|constructor]; (eapply into_kept; [apply _|done|]);
    intros x v Hx (? & ? & ? & ? & ?); split_and!; cbn; try done; intros ? [= <-]; done.
Qed.

Lemma format_of_ok v f : vars_ok v -> format_of v = Ok f -> format_ok f.
Proof.
  intros (_ & _ & Hs & Hp & Hk) E. unfold format_of in E.
  destruct (v_short_id v) as [s|]; destruct (v_payment_data v) as [d|] eqn:Ed; simplify_eq; [by apply Hs| |].
  - destruct (Z.ltb_spec MAX_VALUE_MSAT (FinalOnionHopData.total_msat d)) as [|Hle]; simplify_eq. split; [|done].
    intros d' [= <-]. destruct (Hp d eq_refl) as [Ha [Hlo Hhi]]. split; [done|lia].
  - by split.
Qed.

Global Instance onion_hop_typed : Typed codec ok.
Proof.
  intros bs m rest Hu H1. open_read H1. unfold read in H1. apply run_bind_inv in H1 as (v & bs1 & E & H1).
  assert (all_u8 bs1) by (by eapply run_u8). assert (Hv : u64 v) by (exact (varint_typed _ _ _ Hu E)).
  apply run_bind_inv in H1 as ([[f amt] cltv] & bs2 & E1 & H1).
  destruct (Z.ltb_spec MAX_VALUE_MSAT amt) as [|Hle]; [done|]. rewrite run_ret in H1. injection H1 as <- _.
  destruct (negb _).
  - apply run_bind_inv in E1 as (vs & bs3 & E2 & E1). apply run_bind_inv in E1 as (f' & bs4 & E3 & E1).
    rewrite run_ret in E1. simplify_eq. cbn in E3. injection E3 as E3 _.
    assert (Hok : vars_ok vs).
    { eapply (read_tlv_within_inv _ vars_ok); [apply hop_fields_kept|exact (proj1 Hv)|done| |exact E2]. by split_and!. }
    pose proof (format_of_ok _ _ Hok E3). destruct Hok as ([Hlo _] & Hc & _). unfold ok. cbn [format amt_to_forward outgoing_cltv_value]. by split_and!.
  - inv_run. simplify_eq. repeat match goal with E : run (c_read _) _ = _ |- _ => apply typed in E; [|done] end.
    unfold ok, format_ok. cbn. split_and!; (done || width_lia).
Qed.

(** *** Round trip *)

Definition hop_steps (m : t) : list (step vars) :=
  let scid := match format m with NonFinalNode s => Some s | _ => None end in
  let data := match format m with FinalNode p _ => p | _ => None end in
  let preimage := match format m with FinalNode _ k => k | _ => None end in
  zip_with (fun f '(payload, upd) => mkStep f payload upd) fields
    [(Some (encode (high_zero_dropped 8) (amt_to_forward m)), set_amt (amt_to_forward m));
     (Some (encode (high_zero_dropped 4) (outgoing_cltv_value m)), set_cltv (outgoing_cltv_value m));
     (encode u64c <$> scid, fun v => from_option (fun x => set_short_id x v) v scid);
     (encode FinalOnionHopData.codec <$> data, fun v => from_option (fun x => set_payment_data x v) v data);
     (encode (arrayc 32) <$> preimage, fun v => from_option (fun x => set_keysend x v) v preimage)].

Lemma run_into {T} (c : Codec T) valid `{!EndRoundTrip c valid} set x v :
  valid x -> run (into c set v) (encode c x) = (Ret (Ok (set x v)), []).
Proof. intros Hx. unfold into. by rewrite (run_bind_Ok _ _ _ _ _ (end_round_trip x Hx)). Qed.

Lemma length_high_zero len x : (length (encode (high_zero_dropped len) x) <= len)%nat.
Proof.
  unfold encode, vec_writer. cbn [c_write high_zero_dropped concat].
  rewrite List.app_nil_r, length_drop, length_to_be_bytes. lia.
Qed.

Lemma max_value_u64 x : 0 <= x <= MAX_VALUE_MSAT -> u64 x.
Proof. unfold MAX_VALUE_MSAT. width_lia. Qed.

Lemma length_final_hop d :
  array_ok 32 (FinalOnionHopData.payment_secret d) -> (length (encode FinalOnionHopData.codec d) <= 40)%nat.
Proof.
  intros [Hl _]. pose proof (length_high_zero 8 (FinalOnionHopData.total_msat d)) as L.
  unfold encode, vec_writer in *. cbn [c_write FinalOnionHopData.codec]. rewrite concat_app, length_app.
  cbn [c_write arrayc concat]. rewrite List.app_nil_r. lia.
Qed.

Lemma hop_steps_ok m : ok m -> Forall step_ok (hop_steps m).
Proof.
  intros (Hf & Ha & Hc). apply max_value_u64 in Ha. unfold hop_steps, fields. cbn [zip_with].
  repeat apply Forall_cons_2; [..|constructor]; unfold step_ok; cbn [st_payload st_field st_upd tf_kind].
  - intros s. eapply run_into; [apply _|]. split; [lia|done].
  - intros s. eapply run_into; [apply _|]. split; [lia|done].
  - destruct (format m) as [x|x|p k]; cbn [fmap option_fmap option_map from_option tf_decode]; try done. intros s. by apply (run_into u64c u64).
  - destruct (format m) as [x|x|[d|] k]; cbn [fmap option_fmap option_map from_option tf_decode]; try done. intros s. destruct Hf as [Hd _].
    destruct (Hd d eq_refl) as [Hs Ht]. apply (run_into _ FinalOnionHopData.ok). split; [done|by apply max_value_u64].
  - destruct (format m) as [x|x|p [b|]]; cbn [fmap option_fmap option_map from_option tf_decode]; try done. intros s. destruct Hf as [_ Hb].
    by apply (run_into (arrayc 32) (array_ok 32)), Hb.
Qed.

(** Every record is short, so the stream is shorter than 0xFD bytes. *)
Definition short_record (n : nat) (r : Z * bytes) : Prop := u64 r.1 /\ (length r.2 <= n)%nat.

Lemma hop_records m :
  ok m -> match format m with Legacy _ => False | _ => True end ->
  outs_records (tlvs m) = records_of (hop_steps m) /\ Forall (short_record 40) (records_of (hop_steps m)).
Proof.
  intros (Hf & Ha & Hc) Hn. pose proof (length_high_zero 8 (amt_to_forward m)).
  pose proof (length_high_zero 4 (outgoing_cltv_value m)).
  unfold tlvs, hop_steps, fields, outs_records, records_of.
  destruct (format m) as [x|x|p k]; [done| |].
  - split; [done|]. repeat apply Forall_cons_2; [..|constructor]; (split; [done|cbn [snd]]); try lia.
    unfold encode, vec_writer. cbn. lia.
  - destruct Hf as [Hp Hk]. split; [by destruct p, k|].
    assert (Forall (short_record 40) (omap (fun o => b ← o.2; Some (o.1, b))
      [(8, encode FinalOnionHopData.codec <$> p); (5482373484, encode (arrayc 32) <$> k)])) as Hr.
    { destruct p as [d|], k as [b|]; cbn; repeat apply Forall_cons_2; try constructor; try done; cbn [snd];
        try (apply length_final_hop; by apply Hp); destruct (Hk b eq_refl) as [Hb _];
        unfold encode, vec_writer; cbn; rewrite List.app_nil_r; lia. }
    cbn. repeat (apply Forall_cons_2; [split; [done|cbn [snd]; lia]|]). exact Hr.
Qed.

Lemma length_bigsize x : (length (encode BigSize x) <= 9)%nat.
Proof. unfold encode, vec_writer. cbn [c_write BigSize]. repeat case_match; cbn; lia. Qed.

Lemma length_bigsize_small x : x < 0xFD -> length (encode BigSize x) = 1%nat.
Proof. intros Hx. unfold encode, vec_writer. cbn [c_write BigSize]. by replace (x <=? 0xFC) with true by lia. Qed.

Lemma short_records_length recs :
  Forall (short_record 40) recs -> (length (concat (record_bytes <$> recs)) <= 50 * length recs)%nat.
Proof.
  induction 1 as [|r recs [_ Hr] _ IH]; [done|]. cbn [fmap list_fmap concat length]. rewrite length_app.
  unfold record_bytes at 1. rewrite !length_app. rewrite (length_bigsize_small (Z.of_nat (length r.2))) by lia.
  pose proof (length_bigsize r.1). lia.
Qed.

Lemma hop_tlv_length m :
  ok m -> match format m with Legacy _ => False | _ => True end -> 0 < tlv_length (tlvs m) < 0xFD.
Proof.
  intros Hm Hn. destruct (hop_records m Hm Hn) as [Eo Hr].
  rewrite tlv_length_encode, length_writer_vec. unfold vec_writer. rewrite encode_tlv_stream_records, Eo.
  pose proof (short_records_length _ Hr).
  assert ((length (records_of (hop_steps m)) <= 5)%nat).
  { unfold records_of, hop_steps, fields. cbn.
    destruct (format m) as [x|x|[d|] [k|]]; cbn; lia. }
  assert ((0 < length (records_of (hop_steps m)))%nat) by (unfold records_of, hop_steps, fields; cbn; lia).
  assert ((length (records_of (hop_steps m)) <= length (concat (record_bytes <$> records_of (hop_steps m))))%nat); [|lia].
  apply records_bytes_length. eapply Forall_impl; [exact Hr|]. intros r [Ht Hl]. split; [done|width_lia].
Qed.

Lemma hop_decoded m :
  match format m with Legacy _ => False | _ => True end -> ok m ->
  let v := decoded (hop_steps m) init_vars in
  format_of v = Ok (format m) /\ v_amt v = amt_to_forward m /\ v_cltv_value v = outgoing_cltv_value m.
Proof.
  intros Hn (Hf & _). unfold decoded, hop_steps, fields, format_of. cbn.
  destruct (format m) as [x|x|[d|] [k|]]; cbn; try done;
    destruct Hf as [Hd _]; destruct (Hd d eq_refl) as [_ Ht];
    by replace (MAX_VALUE_MSAT <? _) with false by lia.
Qed.

Global Instance onion_hop_roundtrip : RoundTrip codec ok.
Proof.
  intros m rest Hm. destruct (match format m with Legacy s => inl s | _ => inr tt end) as [s|[]] eqn:Ef.
  - destruct m as [[s'| |] amt cltv]; try done. injection Ef as ->. destruct Hm as (Hs & Ha & Hc). cbn in Hs, Ha, Hc.
    open_codec. cbn [write format amt_to_forward outgoing_cltv_value]. rewrite !concat_app, <- !app_assoc.
    unfold read. change (concat (c_write u8c 0)) with [0]. cbn [app].
    rewrite (run_bind_Ok _ _ _ _ _ (varint_small 0 _ ltac:(lia))). cbn [Z.eqb LEGACY_ONION_HOP_FLAG negb].
    pose proof (max_value_u64 _ Ha).
    rewrite run_bind, !(run_field u64c u64), (run_field u32c u32), run_exact by done. rewrite run_ret.
    by replace (MAX_VALUE_MSAT <? amt) with false by lia.
  - assert (Hn : match format m with Legacy _ => False | _ => True end) by (by destruct (format m)).
    destruct (hop_records m Hm Hn) as [Eo Hr]. pose proof (hop_tlv_length m Hm Hn) as Hl.
    destruct (hop_decoded m Hn Hm) as (Df & Da & Dc).
    open_codec. replace (write m) with (write_tlv_fields (tlvs m)) by (unfold write; by destruct (format m)).
    unfold write_tlv_fields. rewrite concat_app, <- app_assoc.
    assert (Eb : concat (c_write BigSize (tlv_length (tlvs m))) = [tlv_length (tlvs m)]).
    { cbn [c_write BigSize]. replace (_ <=? 0xFC) with true by lia. cbn. rewrite wrap_small by width_lia. done. }
    rewrite Eb. unfold read. cbn [app]. rewrite (run_bind_Ok _ _ _ _ _ (varint_small (tlv_length (tlvs m)) _ ltac:(lia))).
    replace (tlv_length (tlvs m) =? LEGACY_ONION_HOP_FLAG) with false by (unfold LEGACY_ONION_HOP_FLAG; lia).
    cbn [negb].
    rewrite !run_bind. change fields with (st_field <$> hop_steps m).
    rewrite run_read_tlv_within; [|done| |repeat constructor|by apply hop_steps_ok].
    2: { eapply Forall_impl; [exact Hr|]. intros r [Ht Hlr]. split; [done|width_lia]. }
    rewrite run_bind, Df. cbn [of_result run lift]. rewrite run_ret, Da, Dc.
    destruct Hm as (_ & Ha & _). replace (MAX_VALUE_MSAT <? _) with false by lia. by destruct m.
Qed.
End HopLaws.
