(* ===== verification/ChannelMsgs.v ===== *)
(** * Channel messages of msgs.rs

    The messages that set up, update and close a channel, and those of the transport.  Each
    module has the message's fields, its codec and, as [ok], the values its fields' types
    allow and its encoding can carry. *)

From S2P Require Import Prelude Text Bytes Stream Ser SerLaws Tlv Features Msgs.

Local Open Scope Z_scope.

(** ** Onion packets *)

Module OnionPacket.
Record t `{Secp} := mk { version : Z; public_key : option PublicKey; hop_data : bytes; hmac : bytes }.

Definition codec `{Secp} : Codec t :=
  mkCodec
    (fun m => c_write u8c (version m) ++
       match public_key m with
       | Some pubkey => c_write pubkeyc pubkey
       | None => c_write (arrayc 33) (replicate 33 0)
       end ++ [hop_data m] ++ c_write (arrayc 32) (hmac m))
    (version ← c_read u8c;
     buf ← read_exact 33;
     hop_data ← c_read (arrayc (20 * 65));
     hmac ← c_read (arrayc 32);
     mret (mk _ version (pk_from_slice buf) hop_data hmac)).

Definition ok `{Secp} (m : t) : Prop :=
  u8 (version m) /\ array_ok (20 * 65) (hop_data m) /\ array_ok 32 (hmac m).
End OnionPacket.

Module OnionErrorPacket.
Record t := mk { data : bytes }.
Definition codec : Codec t := impl_writeable vecc data mk.
Definition ok (m : t) : Prop := vec_ok (data m).
End OnionErrorPacket.

Module DecodedOnionErrorPacket.
Record t := mk { hmac : bytes; failuremsg : bytes; pad : bytes }.
Definition codec : Codec t :=
  impl_writeable (pairc (arrayc 32) (pairc vecc vecc))
    (fun m => (hmac m, (failuremsg m, pad m))) (fun '(a, (b, c)) => mk a b c).
Definition ok (m : t) : Prop := array_ok 32 (hmac m) /\ vec_ok (failuremsg m) /\ vec_ok (pad m).
End DecodedOnionErrorPacket.

(** ** Optional trailing fields *)

Inductive OptionalField (T : Type) := Present (x : T) | Absent.
Arguments Present {T} _.
Arguments Absent {T}.

(** [OptionalField<Script>]: absent when there is no room for a length. *)
Definition opt_scriptc : Codec (OptionalField bytes) :=
  mkCodec (fun o => match o with Present script => c_write scriptc script | Absent => [] end)
    (rd_match (c_read u16c) (fun r =>
       match r with
       | Ok len => buf ← read_exact (Z.to_nat len); mret (Present buf)
       | Err ShortRead => mret Absent
       | Err e => rerr e
       end)).

(** [OptionalField<u64>]: the reader is only called when the field is there. *)
Definition opt_u64c : Codec (OptionalField Z) :=
  mkCodec (fun o => match o with Present value => c_write u64c value | Absent => [] end)
    (value ← c_read u64c; mret (Present value)).

(** ** Transport *)

Module ErrorMessage.
Record t := mk { channel_id : bytes; data : string }.
Definition codec : Codec t :=
  mkCodec
    (fun m => c_write (arrayc 32) (channel_id m) ++ c_write u16c (len16 (bytes_of (data m))) ++ [bytes_of (data m)])
    (channel_id ← c_read (arrayc 32);
     sz ← c_read u16c;
     data ← read_exact (Z.to_nat sz);
     match from_utf8 data with Some s => mret (mk channel_id s) | None => rerr InvalidValue end).
Definition ok (m : t) : Prop := array_ok 32 (channel_id m) /\ string_ok (data m).
End ErrorMessage.

(** The same code and fields as [ErrorMessage]. *)
Module WarningMessage.
Record t := mk { channel_id : bytes; data : string }.
Definition codec : Codec t :=
  mkCodec
    (fun m => c_write (arrayc 32) (channel_id m) ++ c_write u16c (len16 (bytes_of (data m))) ++ [bytes_of (data m)])
    (channel_id ← c_read (arrayc 32);
     sz ← c_read u16c;
     data ← read_exact (Z.to_nat sz);
     match from_utf8 data with Some s => mret (mk channel_id s) | None => rerr InvalidValue end).
Definition ok (m : t) : Prop := array_ok 32 (channel_id m) /\ string_ok (data m).
End WarningMessage.

Module Ping.
Record t := mk { ponglen : Z; byteslen : Z }.
Definition codec : Codec t :=
  mkCodec (fun m => c_write u16c (ponglen m) ++ c_write vecc (replicate (Z.to_nat (byteslen m)) 0))
    (ponglen ← c_read u16c;
     byteslen ← c_read u16c;
     _ ← read_exact (Z.to_nat byteslen);
     mret (mk ponglen byteslen)).
Definition ok (m : t) : Prop := u16 (ponglen m) /\ u16 (byteslen m).
End Ping.

Module Pong.
Record t := mk { byteslen : Z }.
Definition codec : Codec t :=
  mkCodec (fun m => c_write vecc (replicate (Z.to_nat (byteslen m)) 0))
    (byteslen ← c_read u16c;
     _ ← read_exact (Z.to_nat byteslen);
     mret (mk byteslen)).
Definition ok (m : t) : Prop := u16 (byteslen m).
End Pong.

(** ** Opening a channel *)

Module OpenChannel.
Record t `{Secp} := mk {
  chain_hash : bytes; temporary_channel_id : bytes; funding_satoshis : Z; push_msat : Z;
  dust_limit_satoshis : Z; max_htlc_value_in_flight_msat : Z; channel_reserve_satoshis : Z;
  htlc_minimum_msat : Z; feerate_per_kw : Z; to_self_delay : Z; max_accepted_htlcs : Z;
  funding_pubkey : PublicKey; revocation_basepoint : PublicKey; payment_point : PublicKey;
  delayed_payment_basepoint : PublicKey; htlc_basepoint : PublicKey;
  first_per_commitment_point : PublicKey; channel_flags : Z;
  shutdown_scriptpubkey : OptionalField bytes; channel_type : option bytes;
}.

Definition codec `{Secp} : Codec t :=
  option_msg
    (pairc (arrayc 32) (pairc (arrayc 32) (pairc u64c (pairc u64c (pairc u64c (pairc u64c (pairc u64c
     (pairc u64c (pairc u32c (pairc u16c (pairc u16c (pairc pubkeyc (pairc pubkeyc (pairc pubkeyc
     (pairc pubkeyc (pairc pubkeyc (pairc pubkeyc (pairc u8c opt_scriptc))))))))))))))))))
    (fun m => (chain_hash m, (temporary_channel_id m, (funding_satoshis m, (push_msat m,
       (dust_limit_satoshis m, (max_htlc_value_in_flight_msat m, (channel_reserve_satoshis m,
       (htlc_minimum_msat m, (feerate_per_kw m, (to_self_delay m, (max_accepted_htlcs m,
       (funding_pubkey m, (revocation_basepoint m, (payment_point m, (delayed_payment_basepoint m,
       (htlc_basepoint m, (first_per_commitment_point m, (channel_flags m, shutdown_scriptpubkey m)))))))))))))))))))
    1 channel_typec channel_type
    (fun '(a, (b, (c, (d, (e, (f, (g, (h, (i, (j, (k, (l, (m, (n, (o, (p, (q, (r, s)))))))))))))))))) ct =>
       mk _ a b c d e f g h i j k l m n o p q r s ct).

(** The fields before the optional script. *)
Definition body_ok `{Secp} (m : t) : Prop :=
  array_ok 32 (chain_hash m) /\ array_ok 32 (temporary_channel_id m) /\ u64 (funding_satoshis m) /\
  u64 (push_msat m) /\ u64 (dust_limit_satoshis m) /\ u64 (max_htlc_value_in_flight_msat m) /\
  u64 (channel_reserve_satoshis m) /\ u64 (htlc_minimum_msat m) /\ u32 (feerate_per_kw m) /\
  u16 (to_self_delay m) /\ u16 (max_accepted_htlcs m) /\ u8 (channel_flags m).
End OpenChannel.

Module AcceptChannel.
Record t `{Secp} := mk {
  temporary_channel_id : bytes; dust_limit_satoshis : Z; max_htlc_value_in_flight_msat : Z;
  channel_reserve_satoshis : Z; htlc_minimum_msat : Z; minimum_depth : Z; to_self_delay : Z;
  max_accepted_htlcs : Z; funding_pubkey : PublicKey; revocation_basepoint : PublicKey;
  payment_point : PublicKey; delayed_payment_basepoint : PublicKey; htlc_basepoint : PublicKey;
  first_per_commitment_point : PublicKey; shutdown_scriptpubkey : OptionalField bytes;
  channel_type : option bytes;
}.

Definition codec `{Secp} : Codec t :=
  option_msg
    (pairc (arrayc 32) (pairc u64c (pairc u64c (pairc u64c (pairc u64c (pairc u32c (pairc u16c
     (pairc u16c (pairc pubkeyc (pairc pubkeyc (pairc pubkeyc (pairc pubkeyc (pairc pubkeyc
     (pairc pubkeyc opt_scriptc))))))))))))))
    (fun m => (temporary_channel_id m, (dust_limit_satoshis m, (max_htlc_value_in_flight_msat m,
       (channel_reserve_satoshis m, (htlc_minimum_msat m, (minimum_depth m, (to_self_delay m,
       (max_accepted_htlcs m, (funding_pubkey m, (revocation_basepoint m, (payment_point m,
       (delayed_payment_basepoint m, (htlc_basepoint m, (first_per_commitment_point m,
        shutdown_scriptpubkey m)))))))))))))))
    1 channel_typec channel_type
    (fun '(a, (b, (c, (d, (e, (f, (g, (h, (i, (j, (k, (l, (m, (n, o)))))))))))))) ct =>
       mk _ a b c d e f g h i j k l m n o ct).

Definition body_ok `{Secp} (m : t) : Prop :=
  array_ok 32 (temporary_channel_id m) /\ u64 (dust_limit_satoshis m) /\
  u64 (max_htlc_value_in_flight_msat m) /\ u64 (channel_reserve_satoshis m) /\ u64 (htlc_minimum_msat m) /\
  u32 (minimum_depth m) /\ u16 (to_self_delay m) /\ u16 (max_accepted_htlcs m).
End AcceptChannel.

(** The script and type of an open or accept message that survive encoding: with no script
    there must be no type, since an absent script leaves nothing to tell them apart. *)
Definition script_ok (o : OptionalField bytes) : Prop :=
  match o with Present s => vec_ok s | Absent => True end.
Definition type_ok (ct : option bytes) : Prop :=
  match ct with Some f => all_u8 f /\ Z.of_nat (length f) < 2 ^ 64 | None => True end.
Definition script_type_ok (o : OptionalField bytes) (ct : option bytes) : Prop :=
  script_ok o /\ type_ok ct /\ (o = Absent -> ct = None).

Module FundingCreated.
Record t `{Secp} := mk {
  temporary_channel_id : bytes; funding_txid : bytes; funding_output_index : Z; signature : Signature }.
Definition codec `{Secp} : Codec t :=
  plain_msg (pairc (arrayc 32) (pairc (arrayc 32) (pairc u16c sigc)))
    (fun m => (temporary_channel_id m, (funding_txid m, (funding_output_index m, signature m))))
    (fun '(a, (b, (c, d))) => mk _ a b c d).
Definition ok `{Secp} (m : t) : Prop :=
  array_ok 32 (temporary_channel_id m) /\ array_ok 32 (funding_txid m) /\ u16 (funding_output_index m).
End FundingCreated.

Module FundingSigned.
Record t `{Secp} := mk { channel_id : bytes; signature : Signature }.
Definition codec `{Secp} : Codec t :=
  plain_msg (pairc (arrayc 32) sigc) (fun m => (channel_id m, signature m)) (fun '(a, b) => mk _ a b).
Definition ok `{Secp} (m : t) : Prop := array_ok 32 (channel_id m).
End FundingSigned.

Module ChannelReady.
Record t `{Secp} := mk {
  channel_id : bytes; next_per_commitment_point : PublicKey; short_channel_id_alias : option Z }.
Definition codec `{Secp} : Codec t :=
  option_msg (pairc (arrayc 32) pubkeyc) (fun m => (channel_id m, next_per_commitment_point m))
    1 u64c short_channel_id_alias (fun '(a, b) alias => mk _ a b alias).
Definition ok `{Secp} (m : t) : Prop :=
  array_ok 32 (channel_id m) /\ (forall a, short_channel_id_alias m = Some a -> u64 a).
End ChannelReady.

(** ** Closing *)

Module Shutdown.
Record t := mk { channel_id : bytes; scriptpubkey : bytes }.
Definition codec : Codec t :=
  plain_msg (pairc (arrayc 32) scriptc) (fun m => (channel_id m, scriptpubkey m)) (fun '(a, b) => mk a b).
Definition ok (m : t) : Prop := array_ok 32 (channel_id m) /\ vec_ok (scriptpubkey m).
End Shutdown.

Module ClosingSignedFeeRange.
Record t := mk { min_fee_satoshis : Z; max_fee_satoshis : Z }.
Definition codec : Codec t :=
  impl_writeable (pairc u64c u64c) (fun m => (min_fee_satoshis m, max_fee_satoshis m)) (fun '(a, b) => mk a b).
Definition ok (m : t) : Prop := u64 (min_fee_satoshis m) /\ u64 (max_fee_satoshis m).
End ClosingSignedFeeRange.

Module ClosingSigned.
Record t `{Secp} := mk {
  channel_id : bytes; fee_satoshis : Z; signature : Signature; fee_range : option ClosingSignedFeeRange.t }.
Definition codec `{Secp} : Codec t :=
  option_msg (pairc (arrayc 32) (pairc u64c sigc)) (fun m => (channel_id m, (fee_satoshis m, signature m)))
    1 ClosingSignedFeeRange.codec fee_range (fun '(a, (b, c)) fr => mk _ a b c fr).
Definition ok `{Secp} (m : t) : Prop :=
  array_ok 32 (channel_id m) /\ u64 (fee_satoshis m) /\
  (forall fr, fee_range m = Some fr -> ClosingSignedFeeRange.ok fr).
End ClosingSigned.

(** ** Updates *)

Module UpdateAddHTLC.
Record t `{Secp} := mk {
  channel_id : bytes; htlc_id : Z; amount_msat : Z; payment_hash : bytes; cltv_expiry : Z;
  onion_routing_packet : OnionPacket.t }.
Definition codec `{Secp} : Codec t :=
  plain_msg (pairc (arrayc 32) (pairc u64c (pairc u64c (pairc (arrayc 32) (pairc u32c OnionPacket.codec)))))
    (fun m => (channel_id m, (htlc_id m, (amount_msat m, (payment_hash m, (cltv_expiry m, onion_routing_packet m))))))
    (fun '(a, (b, (c, (d, (e, f))))) => mk _ a b c d e f).
Definition ok `{Secp} (m : t) : Prop :=
  array_ok 32 (channel_id m) /\ u64 (htlc_id m) /\ u64 (amount_msat m) /\ array_ok 32 (payment_hash m) /\
  u32 (cltv_expiry m) /\ OnionPacket.ok (onion_routing_packet m).
End UpdateAddHTLC.

Module UpdateFulfillHTLC.
Record t := mk { channel_id : bytes; htlc_id : Z; payment_preimage : bytes }.
Definition codec : Codec t :=
  plain_msg (pairc (arrayc 32) (pairc u64c (arrayc 32)))
    (fun m => (channel_id m, (htlc_id m, payment_preimage m))) (fun '(a, (b, c)) => mk a b c).
Definition ok (m : t) : Prop := array_ok 32 (channel_id m) /\ u64 (htlc_id m) /\ array_ok 32 (payment_preimage m).
End UpdateFulfillHTLC.

Module UpdateFailHTLC.
Record t := mk { channel_id : bytes; htlc_id : Z; reason : OnionErrorPacket.t }.
Definition codec : Codec t :=
  plain_msg (pairc (arrayc 32) (pairc u64c OnionErrorPacket.codec))
    (fun m => (channel_id m, (htlc_id m, reason m))) (fun '(a, (b, c)) => mk a b c).
Definition ok (m : t) : Prop :=
  array_ok 32 (channel_id m) /\ u64 (htlc_id m) /\ OnionErrorPacket.ok (reason m).
End UpdateFailHTLC.

Module UpdateFailMalformedHTLC.
Record t := mk { channel_id : bytes; htlc_id : Z; sha256_of_onion : bytes; failure_code : Z }.
Definition codec : Codec t :=
  plain_msg (pairc (arrayc 32) (pairc u64c (pairc (arrayc 32) u16c)))
    (fun m => (channel_id m, (htlc_id m, (sha256_of_onion m, failure_code m))))
    (fun '(a, (b, (c, d))) => mk a b c d).
Definition ok (m : t) : Prop :=
  array_ok 32 (channel_id m) /\ u64 (htlc_id m) /\ array_ok 32 (sha256_of_onion m) /\ u16 (failure_code m).
End UpdateFailMalformedHTLC.

Module CommitmentSigned.
Record t `{Secp} := mk { channel_id : bytes; signature : Signature; htlc_signatures : list Signature }.
Definition codec `{Secp} : Codec t :=
  plain_msg (pairc (arrayc 32) (pairc sigc (sig_vecc sigc)))
    (fun m => (channel_id m, (signature m, htlc_signatures m))) (fun '(a, (b, c)) => mk _ a b c).
Definition ok `{Secp} (m : t) : Prop :=
  array_ok 32 (channel_id m) /\ sig_vec_ok (fun _ => True) (htlc_signatures m).
End CommitmentSigned.

Module RevokeAndACK.
Record t `{Secp} := mk {
  channel_id : bytes; per_commitment_secret : bytes; next_per_commitment_point : PublicKey }.
Definition codec `{Secp} : Codec t :=
  plain_msg (pairc (arrayc 32) (pairc (arrayc 32) pubkeyc))
    (fun m => (channel_id m, (per_commitment_secret m, next_per_commitment_point m)))
    (fun '(a, (b, c)) => mk _ a b c).
Definition ok `{Secp} (m : t) : Prop := array_ok 32 (channel_id m) /\ array_ok 32 (per_commitment_secret m).
End RevokeAndACK.

Module UpdateFee.
Record t := mk { channel_id : bytes; feerate_per_kw : Z }.
Definition codec : Codec t :=
  plain_msg (pairc (arrayc 32) u32c) (fun m => (channel_id m, feerate_per_kw m)) (fun '(a, b) => mk a b).
Definition ok (m : t) : Prop := array_ok 32 (channel_id m) /\ u32 (feerate_per_kw m).
End UpdateFee.

Module DataLossProtect.
Record t `{Secp} := mk { your_last_per_commitment_secret : bytes; my_current_per_commitment_point : PublicKey }.
End DataLossProtect.

Module ChannelReestablish.
Record t `{Secp} := mk {
  channel_id : bytes; next_local_commitment_number : Z; next_remote_commitment_number : Z;
  data_loss_protect : OptionalField DataLossProtect.t }.
Definition codec `{Secp} : Codec t :=
  mkCodec
    (fun m => c_write (arrayc 32) (channel_id m) ++ c_write u64c (next_local_commitment_number m) ++
       c_write u64c (next_remote_commitment_number m) ++
       match data_loss_protect m with
       | Present d => c_write (arrayc 32) (DataLossProtect.your_last_per_commitment_secret d) ++
                      c_write pubkeyc (DataLossProtect.my_current_per_commitment_point d)
       | Absent => []
       end)
    (channel_id ← c_read (arrayc 32);
     next_local ← c_read u64c;
     next_remote ← c_read u64c;
     rd_match (c_read (arrayc 32)) (fun r =>
       match r with
       | Ok secret => point ← c_read pubkeyc;
           mret (mk _ channel_id next_local next_remote (Present (DataLossProtect.mk _ secret point)))
       | Err ShortRead => mret (mk _ channel_id next_local next_remote Absent)
       | Err e => rerr e
       end)).
Definition ok `{Secp} (m : t) : Prop :=
  array_ok 32 (channel_id m) /\ u64 (next_local_commitment_number m) /\ u64 (next_remote_commitment_number m) /\
  match data_loss_protect m with
  | Present d => array_ok 32 (DataLossProtect.your_last_per_commitment_secret d)
  | Absent => True
  end.
End ChannelReestablish.

Module AnnouncementSignatures.
Record t `{Secp} := mk {
  channel_id : bytes; short_channel_id : Z; node_signature : Signature; bitcoin_signature : Signature }.
Definition codec `{Secp} : Codec t :=
  plain_msg (pairc (arrayc 32) (pairc u64c (pairc sigc sigc)))
    (fun m => (channel_id m, (short_channel_id m, (node_signature m, bitcoin_signature m))))
    (fun '(a, (b, (c, d))) => mk _ a b c d).
Definition ok `{Secp} (m : t) : Prop := array_ok 32 (channel_id m) /\ u64 (short_channel_id m).
End AnnouncementSignatures.

(** ** Addresses and the init message *)

Module NetAddress.
Inductive t :=
| IPv4 (addr : bytes) (port : Z)
| IPv6 (addr : bytes) (port : Z)
| OnionV2 (addr : bytes)
| OnionV3 (ed25519_pubkey : bytes) (checksum version port : Z).

Definition get_id (a : t) : Z :=
  match a with IPv4 _ _ => 1 | IPv6 _ _ => 2 | OnionV2 _ => 3 | OnionV3 _ _ _ _ => 4 end.
Definition len (a : t) : Z :=
  match a with IPv4 _ _ => 6 | IPv6 _ _ => 18 | OnionV2 _ => 12 | OnionV3 _ _ _ _ => 37 end.
Definition MAX_LEN : Z := 37.

Definition write (a : t) : list bytes :=
  match a with
  | IPv4 addr port => c_write u8c 1 ++ c_write (arrayc 4) addr ++ c_write u16c port
  | IPv6 addr port => c_write u8c 2 ++ c_write (arrayc 16) addr ++ c_write u16c port
  | OnionV2 bs => c_write u8c 3 ++ c_write (arrayc 12) bs
  | OnionV3 key checksum version port =>
      c_write u8c 4 ++ c_write (arrayc 32) key ++ c_write u16c checksum ++ c_write u8c version ++ c_write u16c port
  end.

(** [impl Readable for Result<NetAddress, u8>]: an unknown descriptor is given back. *)
Definition read_result : rd (result t Z) :=
  byte ← c_read u8c;
  if byte =? 1 then addr ← c_read (arrayc 4); port ← c_read u16c; mret (Ok (IPv4 addr port))
  else if byte =? 2 then addr ← c_read (arrayc 16); port ← c_read u16c; mret (Ok (IPv6 addr port))
  else if byte =? 3 then addr ← c_read (arrayc 12); mret (Ok (OnionV2 addr))
  else if byte =? 4 then
    key ← c_read (arrayc 32); checksum ← c_read u16c; version ← c_read u8c; port ← c_read u16c;
    mret (Ok (OnionV3 key checksum version port))
  else mret (Err byte).

Definition codec : Codec t :=
  mkCodec write (r ← read_result; match r with Ok a => mret a | Err _ => rerr UnknownVersion end).

Definition ok (a : t) : Prop :=
  match a with
  | IPv4 addr port => array_ok 4 addr /\ u16 port
  | IPv6 addr port => array_ok 16 addr /\ u16 port
  | OnionV2 addr => array_ok 12 addr
  | OnionV3 key checksum version port => array_ok 32 key /\ u16 checksum /\ u8 version /\ u16 port
  end.
End NetAddress.

Module Init.
Record t := mk { features : bytes; remote_network_address : option NetAddress.t }.
Definition codec : Codec t :=
  mkCodec
    (fun m => write_up_to_13 (features m) ++ c_write featuresc (features m) ++
       encode_tlv_stream [(3, c_write NetAddress.codec <$> remote_network_address m)])
    (global_features ← c_read featuresc;
     features ← c_read featuresc;
     remote_network_address ← decode_tlv_stream [option_field 3 NetAddress.codec] None;
     mret (mk (or features global_features) remote_network_address)).
Definition ok (m : t) : Prop :=
  vec_ok (features m) /\ (forall a, remote_network_address m = Some a -> NetAddress.ok a).
End Init.
