(* ===== verification/ChannelMsgsLaws.v ===== *)
(** * The channel messages round trip, decode to values in range, and always decode

    Instances of the promises of Ser.v for the messages of ChannelMsgs.v. *)

From S2P Require Import Prelude Text Bytes Stream Ser SerLaws Tlv Features Msgs ChannelMsgs.

Local Open Scope Z_scope.

Section Laws.
Context `{SecpLaws}.

(** ** Onion packets *)

Global Instance onion_packet_roundtrip : RoundTrip OnionPacket.codec OnionPacket.ok.
Proof.
  intros [v k d h] rest (Hv & Hd & Hh). cbn [OnionPacket.version OnionPacket.public_key OnionPacket.hop_data OnionPacket.hmac] in *.
  open_codec. cbn [OnionPacket.version OnionPacket.public_key OnionPacket.hop_data OnionPacket.hmac].
  rewrite (run_field u8c u8) by done.
  assert (E : exists buf, concat (match k with Some pubkey => c_write pubkeyc pubkey
                                  | None => c_write (arrayc 33) (replicate 33 0) end) = buf /\
              length buf = 33%nat /\ pk_from_slice buf = k).
  { destruct k as [k|]; eexists; (split; [cbn; rewrite ?List.app_nil_r; reflexivity|]).
    - split; [apply pk_array|apply pk_roundtrip].
    - split; [done|apply pk_zero]. }
  destruct E as (buf & -> & Hb & Hk). rewrite run_exact by done.
  rewrite run_array by done. rewrite (run_field (arrayc 32) (array_ok 32)) by done. by rewrite run_ret, Hk.
Qed.
Global Instance onion_packet_typed : Typed OnionPacket.codec OnionPacket.ok.
Proof.
  intros bs m rest Hu H1. open_read H1. inv_run.
  repeat match goal with E : run (c_read _) _ = _ |- _ => apply typed in E; [|done] end. by split_and!.
Qed.
Global Instance onion_packet_total : Total OnionPacket.codec.
Proof. solve_total. Qed.

Global Instance onion_error_packet_roundtrip : RoundTrip OnionErrorPacket.codec OnionErrorPacket.ok.
Proof. apply (impl_writeable_roundtrip _ _ _ vec_ok); [apply _|by intros []]. Qed.
Global Instance onion_error_packet_typed : Typed OnionErrorPacket.codec OnionErrorPacket.ok.
Proof. apply (impl_writeable_typed _ _ _ vec_ok); [apply _|done]. Qed.
Global Instance onion_error_packet_total : Total OnionErrorPacket.codec.
Proof. apply impl_writeable_total, _. Qed.
Global Instance decoded_error_roundtrip : RoundTrip DecodedOnionErrorPacket.codec DecodedOnionErrorPacket.ok.
Proof.
  intros m rest Hm. eapply impl_writeable_roundtrip; [apply _|by intros []|]. exact Hm.
Qed.
Global Instance decoded_error_typed : Typed DecodedOnionErrorPacket.codec DecodedOnionErrorPacket.ok.
Proof. eapply impl_writeable_typed; [apply _|]. intros [a [b c]]. done. Qed.
Global Instance decoded_error_total : Total DecodedOnionErrorPacket.codec.
Proof. apply impl_writeable_total, _. Qed.

(** ** Optional trailing fields *)

Global Instance opt_script_present : RoundTrip opt_scriptc (fun o => exists s, o = Present s /\ vec_ok s).
Proof.
  intros o rest (s & -> & Hl & Hu). open_codec. rewrite run_match.
  destruct (len16_small s Hl) as [E W]. rewrite <- encode_bytes.
  replace (encode _ _) with (encode u16c (len16 s) ++ s).
  2: { unfold encode, vec_writer. cbn [scriptc vecc c_write]. rewrite concat_app. cbn. by rewrite List.app_nil_r. }
  rewrite <- app_assoc, (round_trip (c := u16c) (len16 s)) by done. cbv beta iota.
  rewrite E, Nat2Z.id, run_exact by done. done.
Qed.
Global Instance opt_script_end : EndRoundTrip opt_scriptc script_ok.
Proof.
  intros [s|] Ho; [|done]. rewrite <- (List.app_nil_r (encode _ _)). apply opt_script_present. eauto.
Qed.
Global Instance opt_script_typed : Typed opt_scriptc script_ok.
Proof.
  intros bs o rest Hu H1. open_read H1. rewrite run_match in H1.
  destruct (run (c_read u16c) bs) as [[[len|[]]|w|] bs1] eqn:E; try done.
  - assert (all_u8 bs1) by (by eapply run_u8). apply typed in E; [|done]. inv_run.
    apply read_exact_inv in E0 as [-> Hl]. split; [by eapply u16_len_ok|]. by apply Forall_app in H2 as [? _].
  - rewrite run_ret in H1. by simplify_eq.
Qed.
Global Instance opt_script_total : Total opt_scriptc.
Proof.
  intros bs Hs. cbn [opt_scriptc c_read]. rewrite run_match.
  destruct (is_total (c := u16c) bs Hs) as ([len|e] & bs1 & E); rewrite E.
  - apply total_bind; [apply total_read_exact|solve_total|by eapply run_sized].
  - destruct e; by eexists _, _.
Qed.

(** ** Transport *)

Lemma run_string_field {A} (f : string -> rd A) s rest :
  string_ok s ->
  run (sz ← c_read u16c; data ← read_exact (Z.to_nat sz);
       match from_utf8 data with Some s => f s | None => rerr InvalidValue end)
    (concat (c_write u16c (len16 (bytes_of s))) ++ bytes_of s ++ rest) = run (f s) rest.
Proof.
  intros [Hl Hv]. destruct (len16_small _ Hl) as [E W]. rewrite (run_field u16c u16) by done.
  rewrite E, Nat2Z.id, run_exact by done. unfold from_utf8. by rewrite Hv, string_of_bytes_of.
Qed.

Lemma string_field_inv sz data s :
  from_utf8 data = Some s -> length data = Z.to_nat sz -> u16 sz -> all_u8 data -> string_ok s.
Proof.
  intros Hs Hl Hz Hu. unfold from_utf8 in Hs. destruct (valid_utf8 data) eqn:Ev; simplify_eq.
  unfold string_ok. rewrite bytes_of_string_of by done. split; [by eapply u16_len_ok|done].
Qed.

Ltac string_msg_ty :=
  let H1 := fresh in intros bs m rest Hu H1; open_read H1; inv_run;
  repeat match goal with E : run (c_read _) _ = _ |- _ => apply typed in E; [|done] end;
  match goal with E : run (read_exact _) _ = _ |- _ => apply read_exact_inv in E as [-> ?] end;
  match goal with E : all_u8 (_ ++ _) |- _ => apply Forall_app in E as [? _] end;
  split; [done|by eapply string_field_inv].

Global Instance error_roundtrip : RoundTrip ErrorMessage.codec ErrorMessage.ok.
Proof.
  intros [c d] rest [Hc Hd]. open_codec. cbn [ErrorMessage.channel_id ErrorMessage.data] in *.
  rewrite (run_field (arrayc 32) (array_ok 32)) by done. by rewrite (run_string_field (fun s => mret (ErrorMessage.mk c s))).
Qed.
Global Instance error_typed : Typed ErrorMessage.codec ErrorMessage.ok.
Proof. string_msg_ty. Qed.
Global Instance error_total : Total ErrorMessage.codec.
Proof. solve_total. Qed.
Global Instance warning_roundtrip : RoundTrip WarningMessage.codec WarningMessage.ok.
Proof.
  intros [c d] rest [Hc Hd]. open_codec. cbn [WarningMessage.channel_id WarningMessage.data] in *.
  rewrite (run_field (arrayc 32) (array_ok 32)) by done. by rewrite (run_string_field (fun s => mret (WarningMessage.mk c s))).
Qed.
Global Instance warning_typed : Typed WarningMessage.codec WarningMessage.ok.
Proof. string_msg_ty. Qed.
Global Instance warning_total : Total WarningMessage.codec.
Proof. solve_total. Qed.

(** The ignored bytes of a ping. *)
Lemma run_zeros {A} (f : Z -> rd A) n rest :
  u16 n ->
  run (byteslen ← c_read u16c; _ ← read_exact (Z.to_nat byteslen); f byteslen)
    (concat (c_write vecc (replicate (Z.to_nat n) 0)) ++ rest) = run (f n) rest.
Proof.
  intros Hn. cbn [c_write vecc]. rewrite concat_app, <- app_assoc. unfold len16. rewrite length_replicate.
  rewrite Z2Nat.id, wrap_small by (try done; destruct Hn; lia). rewrite (run_field u16c u16) by done.
  cbn [concat]. rewrite List.app_nil_r, run_exact by (by rewrite length_replicate). done.
Qed.

Global Instance ping_roundtrip : RoundTrip Ping.codec Ping.ok.
Proof.
  intros [p b] rest [Hp Hb]. open_codec. cbn [Ping.ponglen Ping.byteslen] in *.
  rewrite (run_field u16c u16) by done. by rewrite (run_zeros (fun b => mret (Ping.mk p b))).
Qed.
Global Instance ping_typed : Typed Ping.codec Ping.ok.
Proof.
  intros bs m rest Hu H1. open_read H1. inv_run.
  repeat match goal with E : run (c_read _) _ = _ |- _ => apply typed in E; [|done] end. by split.
Qed.
Global Instance ping_total : Total Ping.codec.
Proof. solve_total. Qed.
Global Instance pong_roundtrip : RoundTrip Pong.codec Pong.ok.
Proof. intros [b] rest Hb. open_codec. by rewrite (run_zeros (fun b => mret (Pong.mk b))). Qed.
Global Instance pong_typed : Typed Pong.codec Pong.ok.
Proof.
  intros bs m rest Hu H1. open_read H1. inv_run.
  repeat match goal with E : run (c_read _) _ = _ |- _ => apply typed in E; [|done] end. done.
Qed.
Global Instance pong_total : Total Pong.codec.
Proof. solve_total. Qed.

(** ** Messages of the macros *)

Global Instance funding_created_roundtrip : EndRoundTrip FundingCreated.codec FundingCreated.ok.
Proof. plain_rt. Qed.
Global Instance funding_created_typed : Typed FundingCreated.codec FundingCreated.ok.
Proof. plain_ty. Qed.
Global Instance funding_created_total : Total FundingCreated.codec.
Proof. apply plain_msg_total, _. Qed.
Global Instance funding_signed_roundtrip : EndRoundTrip FundingSigned.codec FundingSigned.ok.
Proof. plain_rt. Qed.
Global Instance funding_signed_typed : Typed FundingSigned.codec FundingSigned.ok.
Proof. plain_ty. Qed.
Global Instance funding_signed_total : Total FundingSigned.codec.
Proof. apply plain_msg_total, _. Qed.
Global Instance shutdown_roundtrip : EndRoundTrip Shutdown.codec Shutdown.ok.
Proof. plain_rt. Qed.
Global Instance shutdown_typed : Typed Shutdown.codec Shutdown.ok.
Proof. plain_ty. Qed.
Global Instance shutdown_total : Total Shutdown.codec.
Proof. apply plain_msg_total, _. Qed.
Global Instance update_add_roundtrip : EndRoundTrip UpdateAddHTLC.codec UpdateAddHTLC.ok.
Proof. plain_rt. Qed.
Global Instance update_add_typed : Typed UpdateAddHTLC.codec UpdateAddHTLC.ok.
Proof. plain_ty. Qed.
Global Instance update_add_total : Total UpdateAddHTLC.codec.
Proof. apply plain_msg_total, _. Qed.
Global Instance update_fulfill_roundtrip : EndRoundTrip UpdateFulfillHTLC.codec UpdateFulfillHTLC.ok.
Proof. plain_rt. Qed.
Global Instance update_fulfill_typed : Typed UpdateFulfillHTLC.codec UpdateFulfillHTLC.ok.
Proof. plain_ty. Qed.
Global Instance update_fulfill_total : Total UpdateFulfillHTLC.codec.
Proof. apply plain_msg_total, _. Qed.
Global Instance update_fail_roundtrip : EndRoundTrip UpdateFailHTLC.codec UpdateFailHTLC.ok.
Proof. plain_rt. Qed.
Global Instance update_fail_typed : Typed UpdateFailHTLC.codec UpdateFailHTLC.ok.
Proof. plain_ty. Qed.
Global Instance update_fail_total : Total UpdateFailHTLC.codec.
Proof. apply plain_msg_total, _. Qed.
Global Instance update_malformed_roundtrip : EndRoundTrip UpdateFailMalformedHTLC.codec UpdateFailMalformedHTLC.ok.
Proof. plain_rt. Qed.
Global Instance update_malformed_typed : Typed UpdateFailMalformedHTLC.codec UpdateFailMalformedHTLC.ok.
Proof. plain_ty. Qed.
Global Instance update_malformed_total : Total UpdateFailMalformedHTLC.codec.
Proof. apply plain_msg_total, _. Qed.
Global Instance commitment_signed_roundtrip : EndRoundTrip CommitmentSigned.codec CommitmentSigned.ok.
Proof. plain_rt. Qed.
Global Instance commitment_signed_typed : Typed CommitmentSigned.codec CommitmentSigned.ok.
Proof. plain_ty. Qed.
Global Instance commitment_signed_total : Total CommitmentSigned.codec.
Proof. apply plain_msg_total, _. Qed.
Global Instance revoke_and_ack_roundtrip : EndRoundTrip RevokeAndACK.codec RevokeAndACK.ok.
Proof. plain_rt. Qed.
Global Instance revoke_and_ack_typed : Typed RevokeAndACK.codec RevokeAndACK.ok.
Proof. plain_ty. Qed.
Global Instance revoke_and_ack_total : Total RevokeAndACK.codec.
Proof. apply plain_msg_total, _. Qed.
Global Instance update_fee_roundtrip : EndRoundTrip UpdateFee.codec UpdateFee.ok.
Proof. plain_rt. Qed.
Global Instance update_fee_typed : Typed UpdateFee.codec UpdateFee.ok.
Proof. plain_ty. Qed.
Global Instance update_fee_total : Total UpdateFee.codec.
Proof. apply plain_msg_total, _. Qed.
Global Instance announcement_signatures_roundtrip : EndRoundTrip AnnouncementSignatures.codec AnnouncementSignatures.ok.
Proof. plain_rt. Qed.
Global Instance announcement_signatures_typed : Typed AnnouncementSignatures.codec AnnouncementSignatures.ok.
Proof. plain_ty. Qed.
Global Instance announcement_signatures_total : Total AnnouncementSignatures.codec.
Proof. apply plain_msg_total, _. Qed.

Global Instance fee_range_roundtrip : RoundTrip ClosingSignedFeeRange.codec ClosingSignedFeeRange.ok.
Proof. intros m rest Hm. eapply impl_writeable_roundtrip; [apply _|by intros []|exact Hm]. Qed.
Global Instance fee_range_typed : Typed ClosingSignedFeeRange.codec ClosingSignedFeeRange.ok.
Proof. eapply impl_writeable_typed; [apply _|by intros []]. Qed.
Global Instance fee_range_total : Total ClosingSignedFeeRange.codec.
Proof. apply impl_writeable_total, _. Qed.

(** ** Messages with a TLV *)

Global Instance channel_ready_roundtrip : EndRoundTrip ChannelReady.codec ChannelReady.ok.
Proof.
  intros [c p o] [Hc Ho]. eapply option_msg_roundtrip; [apply _|apply _|by vm_compute|by split|..|done].
  cbn in *. destruct o as [a|]; [|done]. split; [by apply Ho|done].
Qed.
Global Instance channel_ready_typed : Typed ChannelReady.codec ChannelReady.ok.
Proof. option_ty. Qed.
Global Instance channel_ready_total : Total ChannelReady.codec.
Proof. apply option_msg_total; apply _. Qed.

Global Instance closing_signed_roundtrip : EndRoundTrip ClosingSigned.codec ClosingSigned.ok.
Proof.
  intros [c f g o] (Hc & Hf & Ho). eapply option_msg_roundtrip; [apply _|apply _|by vm_compute|by split_and!|..|done].
  cbn in *. destruct o as [a|]; [|done]. split; [by apply Ho|done].
Qed.
Global Instance closing_signed_typed : Typed ClosingSigned.codec ClosingSigned.ok.
Proof. option_ty. Qed.
Global Instance closing_signed_total : Total ClosingSigned.codec.
Proof. apply option_msg_total; apply _. Qed.

Lemma type_tlv_ok ct : type_ok ct -> tlv_ok channel_typec (fun _ => True) ct.
Proof.
  destruct ct as [f|]; [|done]. intros [_ Hl]. split; [done|]. rewrite serialized_length_encode.
  unfold encode, vec_writer. cbn [channel_typec c_write]. by rewrite concat_write_be, length_rev.
Qed.

Definition open_channel_ok (m : OpenChannel.t) : Prop :=
  OpenChannel.body_ok m /\ script_type_ok (OpenChannel.shutdown_scriptpubkey m) (OpenChannel.channel_type m).
Definition accept_channel_ok (m : AcceptChannel.t) : Prop :=
  AcceptChannel.body_ok m /\ script_type_ok (AcceptChannel.shutdown_scriptpubkey m) (AcceptChannel.channel_type m).

Ltac script_msg_rt :=
  intros [] [Hb (Hs & Ht & Hn)]; red in Hb; cbn in Hb, Hs, Ht, Hn;
  match goal with s : OptionalField _ |- _ => destruct s as [s|] end;
  [eapply option_msg_roundtrip;
     [apply _|apply _|by vm_compute|cbn; split_and!; try tauto; by eexists|by apply type_tlv_ok|done]
  |specialize (Hn eq_refl); subst;
   eapply option_msg_end; [apply _|cbn; split_and!; tauto|done|done]].

Global Instance open_channel_roundtrip : EndRoundTrip OpenChannel.codec open_channel_ok.
Proof. script_msg_rt. Qed.
Global Instance open_channel_total : Total OpenChannel.codec.
Proof. apply option_msg_total; apply _. Qed.
Global Instance accept_channel_roundtrip : EndRoundTrip AcceptChannel.codec accept_channel_ok.
Proof. script_msg_rt. Qed.
Global Instance accept_channel_total : Total AcceptChannel.codec.
Proof. apply option_msg_total; apply _. Qed.

(** Decoded, the fields are in range; the script and the type each are. *)
Global Instance open_channel_typed :
  Typed OpenChannel.codec (fun m => OpenChannel.body_ok m /\ script_ok (OpenChannel.shutdown_scriptpubkey m) /\
    (forall f, OpenChannel.channel_type m = Some f -> all_u8 f)).
Proof. eapply option_msg_typed; [apply _|apply _|]. intros. repeat case_match. cbn in *. split_and!; try tauto. red. cbn. tauto. Qed.
Global Instance accept_channel_typed :
  Typed AcceptChannel.codec (fun m => AcceptChannel.body_ok m /\ script_ok (AcceptChannel.shutdown_scriptpubkey m) /\
    (forall f, AcceptChannel.channel_type m = Some f -> all_u8 f)).
Proof. eapply option_msg_typed; [apply _|apply _|]. intros. repeat case_match. cbn in *. split_and!; try tauto. red. cbn. tauto. Qed.

(** ** Reestablish *)

Global Instance reestablish_roundtrip : EndRoundTrip ChannelReestablish.codec ChannelReestablish.ok.
Proof.
  intros [c l r o] (Hc & Hl & Hr & Ho). rewrite <- (List.app_nil_r (encode _ _)). open_codec.
  cbn [ChannelReestablish.channel_id ChannelReestablish.next_local_commitment_number
       ChannelReestablish.next_remote_commitment_number ChannelReestablish.data_loss_protect] in *.
  rewrite (run_field (arrayc 32) (array_ok 32)), !(run_field u64c u64) by done. rewrite run_match.
  destruct o as [[s p]|]; [|done]. cbn in Ho. rewrite concat_app, <- (encode_bytes (arrayc 32)).
  cbn [DataLossProtect.your_last_per_commitment_secret]. rewrite (round_trip (c := arrayc 32) s) by done. cbv beta iota.
  rewrite <- (List.app_nil_r (concat (c_write pubkeyc _))). by rewrite (run_field pubkeyc (fun _ => True)).
Qed.
Global Instance reestablish_typed : Typed ChannelReestablish.codec ChannelReestablish.ok.
Proof.
  intros bs m rest Hu H1. open_read H1. inv_run. rewrite run_match in H1.
  destruct (run (c_read (arrayc 32)) bs2) as [[[s|[]]|w|] bs3] eqn:Es; try done; inv_run;
    repeat match goal with E : run (c_read _) _ = _ |- _ => apply typed in E; [|done] end; by split_and!.
Qed.
Global Instance reestablish_total : Total ChannelReestablish.codec.
Proof.
  change (total (c_read ChannelReestablish.codec)). cbn [ChannelReestablish.codec c_read]. do 3 (apply total_bind; [apply is_total|intros ?]).
  intros bs Hs. rewrite run_match. destruct (is_total (c := arrayc 32) bs Hs) as ([s|e] & bs1 & E); rewrite E.
  - apply total_bind; [apply is_total|solve_total|by eapply run_sized].
  - destruct e; by eexists _, _.
Qed.

(** ** Addresses and init *)

Lemma net_address_result {A} (f : result NetAddress.t Z -> rd A) a rest :
  NetAddress.ok a -> run (NetAddress.read_result ≫= f) (concat (NetAddress.write a) ++ rest) = run (f (Ok a)) rest.
Proof.
  intros Ha. assert (E : run NetAddress.read_result (concat (NetAddress.write a) ++ rest) = (Ret (Ok (Ok a)), rest));
    [|by rewrite (run_bind_Ok _ _ _ _ _ E)].
  destruct a; cbn in Ha; cbn [NetAddress.write]; rewrite !concat_app, <- !app_assoc; unfold NetAddress.read_result;
    rewrite (run_field u8c u8) by (by vm_compute); cbn [Z.eqb Pos.eqb].
  - rewrite (run_field (arrayc 4) (array_ok 4)), (run_field u16c u16) by tauto. done.
  - rewrite (run_field (arrayc 16) (array_ok 16)), (run_field u16c u16) by tauto. done.
  - rewrite (run_field (arrayc 12) (array_ok 12)) by tauto. done.
  - rewrite (run_field (arrayc 32) (array_ok 32)), (run_field u16c u16), (run_field u8c u8), (run_field u16c u16) by tauto. done.
Qed.

Lemma net_address_len a : NetAddress.ok a -> Z.of_nat (length (concat (NetAddress.write a))) = 1 + NetAddress.len a.
Proof.
  destruct a; cbn; rewrite ?length_app; cbn; unfold array_ok; intros; rewrite ?List.app_nil_r; lia.
Qed.

Lemma net_address_result_total : total NetAddress.read_result.
Proof. unfold NetAddress.read_result. solve_total. Qed.

Lemma net_address_result_typed bs r rest :
  all_u8 bs -> run NetAddress.read_result bs = (Ret (Ok r), rest) ->
  match r with Ok a => NetAddress.ok a | Err b => u8 b end.
Proof.
  intros Hu H1. unfold NetAddress.read_result in H1. inv_run;
    repeat match goal with E : run (c_read _) _ = _ |- _ => apply typed in E; [|done] end; cbn [NetAddress.ok]; tauto.
Qed.

Global Instance net_address_roundtrip : RoundTrip NetAddress.codec NetAddress.ok.
Proof. intros a rest Ha. open_codec. by rewrite net_address_result. Qed.
Global Instance net_address_typed : Typed NetAddress.codec NetAddress.ok.
Proof.
  intros bs a rest Hu H1. open_read H1. inv_run. by apply net_address_result_typed in E.
Qed.
Global Instance net_address_total : Total NetAddress.codec.
Proof. change (total (c_read NetAddress.codec)). cbn [NetAddress.codec c_read]. apply total_bind; [apply net_address_result_total|solve_total]. Qed.

Global Instance init_roundtrip : EndRoundTrip Init.codec Init.ok.
Proof.
  intros [f o] [Hf Ho]. unfold encode, vec_writer. cbn [Init.codec c_read c_write Init.features Init.remote_network_address] in *.
  rewrite !concat_app, run_up_to_13 by apply Hf. rewrite (run_field featuresc vec_ok) by done.
  rewrite encode_tlv_stream_records.
  rewrite (run_bind_Ok _ _ _ o []).
  { rewrite run_ret, or_up_to_13 by apply Hf. done. }
  set (st := mkStep (option_field 3 NetAddress.codec) (vec_writer <$> (c_write NetAddress.codec <$> o)) (fun _ => o)).
  assert (E : decoded [st] None = o) by (by destruct o). rewrite <- E.
  replace (outs_records _) with (records_of [st]) by (by destruct o).
  apply run_decode_tlv_ok.
  - destruct o as [a|]; cbn; constructor; [|done]. split; [by vm_compute|].
    pose proof (net_address_len a (Ho a eq_refl)) as L. cbn [snd]. change (u64 (Z.of_nat (length (concat (NetAddress.write a))))).
    rewrite L. destruct a; by vm_compute.
  - apply (tlv_spec_round_trip [st]); [repeat constructor|]. constructor; [|done]. unfold step_ok.
    destruct o as [a|]; [|done]. intros s. specialize (Ho a eq_refl). apply end_round_trip in Ho.
    change (run (x ← c_read NetAddress.codec; mret (Some x)) (encode NetAddress.codec a) = (Ret (Ok (Some a)), [])).
    by rewrite (run_bind_Ok _ _ _ _ _ Ho).
Qed.
Global Instance init_typed : Typed Init.codec Init.ok.
Proof.
  intros bs m rest Hu H1. open_read H1. inv_run. apply typed in E as [Hl1 Hu1]; [|done]. apply typed in E0 as [Hl2 Hu2]; [|done].
  set (P := fun s : option NetAddress.t => forall x, s = Some x -> NetAddress.ok x).
  assert (Hk : Forall (kept_by P) [option_field 3 NetAddress.codec]).
  { constructor; [apply option_field_kept, _|constructor]. }
  pose proof (decode_tlv_stream_inv _ P None bs1 _ _ Hk ltac:(done) ltac:(done) E1) as HP.
  split; [split; [by apply or_len_ok|by apply or_u8]|exact HP].
Qed.
Global Instance init_total : Total Init.codec.
Proof.
  change (total (c_read Init.codec)). cbn [Init.codec c_read]. do 2 (apply total_bind; [apply is_total|intros ?]).
  apply total_bind; [|solve_total]. apply total_decode_tlv_stream. constructor; [|done].
  intros s. apply option_field_total, _.
Qed.
End Laws.
