(* ===== verification/GossipMsgs.v ===== *)
(** * Gossip messages of msgs.rs

    Announcements, updates and queries.  Sums of lengths that the source keeps in [u16] wrap
    here as in a release build when they are written, and are checked as in a development
    build when they are read. *)

From S2P Require Import Prelude Text Bytes Stream Ser SerLaws Tlv Features Msgs ChannelMsgs ChannelMsgsLaws.

Local Open Scope Z_scope.

Definition rd_outcome {A} (o : outcome A) : rd A :=
  match o with Ret a => mret a | Panic w => RRet (Panic w) | OutOfFuel => RRet OutOfFuel end.

Definition add16 (a b : Z) : outcome Z := checked_op 16 "add" (a + b).

Module UnsignedNodeAnnouncement.
Record t `{Secp} := mk {
  features : bytes; timestamp : Z; node_id : PublicKey; rgb : bytes; alias : bytes;
  addresses : list NetAddress.t; excess_address_data : bytes; excess_data : bytes }.

Definition addr_len (l : list NetAddress.t) : Z := foldl (fun n a => wrap 16 (n + (1 + NetAddress.len a))) 0 l.

(** The loop over the addresses: those read, the position, and the unknown descriptor that
    ended it. *)
Fixpoint read_addresses (fuel : nat) (addr_len addr_readpos : Z) (addresses : list NetAddress.t) :
    rd (list NetAddress.t * Z * option Z) :=
  if addr_len <=? addr_readpos then mret (addresses, addr_readpos, None)
  else
    match fuel with
    | O => RRet OutOfFuel
    | S fuel' =>
        rd_match NetAddress.read_result (fun r =>
          match r with
          | Ok (Ok addr) =>
              next ← rd_outcome (n ← add16 addr_readpos 1; add16 n (NetAddress.len addr));
              if addr_len <? next then rerr BadLengthDescriptor
              else read_addresses fuel' addr_len next (addresses ++ [addr])
          | Ok (Err unknown_descriptor) => mret (addresses, addr_readpos, Some unknown_descriptor)
          | Err ShortRead => rerr BadLengthDescriptor
          | Err e => rerr e
          end)
    end.

(** What follows the addresses: the rest of their length, after the unknown descriptor. *)
Definition read_excess (addr_len addr_readpos : Z) (excess : option Z) : rd (bytes * bytes) :=
  if addr_readpos <? addr_len then
    let n := Z.to_nat (addr_len - addr_readpos) in
    match excess with
    | Some b => d ← read_exact (n - 1); mret (b :: d, [])
    | None => d ← read_exact n; mret (d, [])
    end
  else mret ([], match excess with Some b => [b] | None => [] end).

Definition codec `{Secp} : Codec t :=
  mkCodec
    (fun m => c_write featuresc (features m) ++ c_write u32c (timestamp m) ++ c_write pubkeyc (node_id m) ++
       [rgb m] ++ c_write (arrayc 32) (alias m) ++
       c_write u16c (wrap 16 (addr_len (addresses m) + wrap 16 (Z.of_nat (length (excess_address_data m))))) ++
       concat (NetAddress.write <$> addresses m) ++ [excess_address_data m] ++ [excess_data m])
    (features ← c_read featuresc;
     timestamp ← c_read u32c;
     node_id ← c_read pubkeyc;
     rgb ← read_exact 3;
     alias ← c_read (arrayc 32);
     addr_len ← c_read u16c;
     '(addresses, addr_readpos, excess) ← RFuel (fun fuel => read_addresses fuel addr_len 0 []);
     '(excess_address_data, excess_data) ← read_excess addr_len addr_readpos excess;
     rest ← read_to_end;
     mret (mk _ features timestamp node_id rgb alias addresses excess_address_data (excess_data ++ rest))).

(** Addresses and unparsed address data fill at most 2^16 - 1 bytes, and the latter starts
    with a descriptor that is not an address's. *)
Definition addr_bytes (l : list NetAddress.t) : Z := foldr (fun a n => 1 + NetAddress.len a + n) 0 l.
Definition excess_ok (d : bytes) : Prop :=
  match d with b :: _ => ~ (1 <= b <= 4) | [] => True end.
Definition ok `{Secp} (m : t) : Prop :=
  vec_ok (features m) /\ u32 (timestamp m) /\ array_ok 3 (rgb m) /\ array_ok 32 (alias m) /\
  Forall NetAddress.ok (addresses m) /\ all_u8 (excess_address_data m) /\ excess_ok (excess_address_data m) /\
  all_u8 (excess_data m) /\
  addr_bytes (addresses m) + Z.of_nat (length (excess_address_data m)) < 2 ^ 16.
End UnsignedNodeAnnouncement.

Module NodeAnnouncement.
Record t `{Secp} := mk { signature : Signature; contents : UnsignedNodeAnnouncement.t }.
Definition codec `{Secp} : Codec t :=
  impl_writeable (pairc sigc UnsignedNodeAnnouncement.codec) (fun m => (signature m, contents m)) (fun '(a, b) => mk _ a b).
Definition ok `{Secp} (m : t) : Prop := UnsignedNodeAnnouncement.ok (contents m).
End NodeAnnouncement.

Module UnsignedChannelAnnouncement.
Record t `{Secp} := mk {
  features : bytes; chain_hash : bytes; short_channel_id : Z; node_id_1 : PublicKey; node_id_2 : PublicKey;
  bitcoin_key_1 : PublicKey; bitcoin_key_2 : PublicKey; excess_data : bytes }.
Definition codec `{Secp} : Codec t :=
  mkCodec
    (fun m => c_write featuresc (features m) ++ c_write (arrayc 32) (chain_hash m) ++
       c_write u64c (short_channel_id m) ++ c_write pubkeyc (node_id_1 m) ++ c_write pubkeyc (node_id_2 m) ++
       c_write pubkeyc (bitcoin_key_1 m) ++ c_write pubkeyc (bitcoin_key_2 m) ++ [excess_data m])
    (features ← c_read featuresc; chain_hash ← c_read (arrayc 32); short_channel_id ← c_read u64c;
     node_id_1 ← c_read pubkeyc; node_id_2 ← c_read pubkeyc; bitcoin_key_1 ← c_read pubkeyc;
     bitcoin_key_2 ← c_read pubkeyc; excess_data ← read_to_end;
     mret (mk _ features chain_hash short_channel_id node_id_1 node_id_2 bitcoin_key_1 bitcoin_key_2 excess_data)).
Definition ok `{Secp} (m : t) : Prop :=
  vec_ok (features m) /\ array_ok 32 (chain_hash m) /\ u64 (short_channel_id m) /\ all_u8 (excess_data m).
End UnsignedChannelAnnouncement.

Module ChannelAnnouncement.
Record t `{Secp} := mk {
  node_signature_1 : Signature; node_signature_2 : Signature; bitcoin_signature_1 : Signature;
  bitcoin_signature_2 : Signature; contents : UnsignedChannelAnnouncement.t }.
Definition codec `{Secp} : Codec t :=
  impl_writeable (pairc sigc (pairc sigc (pairc sigc (pairc sigc UnsignedChannelAnnouncement.codec))))
    (fun m => (node_signature_1 m, (node_signature_2 m, (bitcoin_signature_1 m, (bitcoin_signature_2 m, contents m)))))
    (fun '(a, (b, (c, (d, e)))) => mk _ a b c d e).
Definition ok `{Secp} (m : t) : Prop := UnsignedChannelAnnouncement.ok (contents m).
End ChannelAnnouncement.

Module UnsignedChannelUpdate.
Record t := mk {
  chain_hash : bytes; short_channel_id : Z; timestamp : Z; flags : Z; cltv_expiry_delta : Z;
  htlc_minimum_msat : Z; htlc_maximum_msat : OptionalField Z; fee_base_msat : Z;
  fee_proportional_millionths : Z; excess_data : bytes }.
Definition codec : Codec t :=
  mkCodec
    (fun m =>
       let message_flags := match htlc_maximum_msat m with Present _ => 1 | Absent => 0 end in
       let all_flags := Z.lor (flags m) (Z.shiftl message_flags 8) in
       c_write (arrayc 32) (chain_hash m) ++ c_write u64c (short_channel_id m) ++ c_write u32c (timestamp m) ++
       c_write u16c all_flags ++ c_write u16c (cltv_expiry_delta m) ++ c_write u64c (htlc_minimum_msat m) ++
       c_write u32c (fee_base_msat m) ++ c_write u32c (fee_proportional_millionths m) ++
       c_write opt_u64c (htlc_maximum_msat m) ++ [excess_data m])
    (chain_hash ← c_read (arrayc 32); short_channel_id ← c_read u64c; timestamp ← c_read u32c;
     all_flags ← c_read u16c;
     let has_htlc_maximum_msat := Z.land (Z.shiftr all_flags 8) 1 =? 1 in
     cltv_expiry_delta ← c_read u16c; htlc_minimum_msat ← c_read u64c; fee_base_msat ← c_read u32c;
     fee_proportional_millionths ← c_read u32c;
     htlc_maximum_msat ← (if has_htlc_maximum_msat then c_read opt_u64c else mret Absent);
     excess_data ← read_to_end;
     mret (mk chain_hash short_channel_id timestamp (wrap 8 all_flags) cltv_expiry_delta htlc_minimum_msat
             htlc_maximum_msat fee_base_msat fee_proportional_millionths excess_data)).
Definition ok (m : t) : Prop :=
  array_ok 32 (chain_hash m) /\ u64 (short_channel_id m) /\ u32 (timestamp m) /\ u8 (flags m) /\
  u16 (cltv_expiry_delta m) /\ u64 (htlc_minimum_msat m) /\
  (forall v, htlc_maximum_msat m = Present v -> u64 v) /\ u32 (fee_base_msat m) /\
  u32 (fee_proportional_millionths m) /\ all_u8 (excess_data m).
End UnsignedChannelUpdate.

Module ChannelUpdate.
Record t `{Secp} := mk { signature : Signature; contents : UnsignedChannelUpdate.t }.
Definition codec `{Secp} : Codec t :=
  impl_writeable (pairc sigc UnsignedChannelUpdate.codec) (fun m => (signature m, contents m)) (fun '(a, b) => mk _ a b).
Definition ok `{Secp} (m : t) : Prop := UnsignedChannelUpdate.ok (contents m).
End ChannelUpdate.

(** ** Queries *)

(** The encoded ids of a query: their length, the encoding (uncompressed), the ids. *)
Definition EncodingType_Uncompressed : Z := 0.
Definition write_scids (ids : list Z) : list bytes :=
  c_write u16c (wrap 16 (1 + wrap 16 (len16 ids * 8))) ++ c_write u8c EncodingType_Uncompressed ++ write_each u64c ids.
Definition read_scids : rd (list Z) :=
  encoding_len ← c_read u16c;
  encoding_type ← c_read u8c;
  if negb (encoding_type =? EncodingType_Uncompressed) then rerr UnsupportedCompression
  else if (encoding_len =? 0) || negb ((encoding_len - 1) `mod` 8 =? 0) then rerr InvalidValue
  else read_n u64c (Z.to_nat ((encoding_len - 1) `div` 8)).
Definition scids_ok (ids : list Z) : Prop := Forall u64 ids /\ 1 + 8 * Z.of_nat (length ids) < 2 ^ 16.

Module QueryShortChannelIds.
Record t := mk { chain_hash : bytes; short_channel_ids : list Z }.
Definition codec : Codec t :=
  mkCodec (fun m => c_write (arrayc 32) (chain_hash m) ++ write_scids (short_channel_ids m))
    (chain_hash ← c_read (arrayc 32); ids ← read_scids; mret (mk chain_hash ids)).
Definition ok (m : t) : Prop := array_ok 32 (chain_hash m) /\ scids_ok (short_channel_ids m).
End QueryShortChannelIds.

Module ReplyShortChannelIdsEnd.
Record t := mk { chain_hash : bytes; full_information : bool }.
Definition codec : Codec t :=
  plain_msg (pairc (arrayc 32) boolc) (fun m => (chain_hash m, full_information m)) (fun '(a, b) => mk a b).
Definition ok (m : t) : Prop := array_ok 32 (chain_hash m).
End ReplyShortChannelIdsEnd.

Module QueryChannelRange.
Record t := mk { chain_hash : bytes; first_blocknum : Z; number_of_blocks : Z }.
Definition codec : Codec t :=
  plain_msg (pairc (arrayc 32) (pairc u32c u32c))
    (fun m => (chain_hash m, (first_blocknum m, number_of_blocks m))) (fun '(a, (b, c)) => mk a b c).
Definition ok (m : t) : Prop := array_ok 32 (chain_hash m) /\ u32 (first_blocknum m) /\ u32 (number_of_blocks m).

Definition end_blocknum (m : t) : Z :=
  match checked 32 (first_blocknum m + number_of_blocks m) with Some block => block | None => U32_MAX end.
End QueryChannelRange.

Module ReplyChannelRange.
Record t := mk {
  chain_hash : bytes; first_blocknum : Z; number_of_blocks : Z; sync_complete : bool; short_channel_ids : list Z }.
Definition codec : Codec t :=
  mkCodec
    (fun m => c_write (arrayc 32) (chain_hash m) ++ c_write u32c (first_blocknum m) ++
       c_write u32c (number_of_blocks m) ++ c_write boolc (sync_complete m) ++ write_scids (short_channel_ids m))
    (chain_hash ← c_read (arrayc 32); first_blocknum ← c_read u32c; number_of_blocks ← c_read u32c;
     sync_complete ← c_read boolc; ids ← read_scids;
     mret (mk chain_hash first_blocknum number_of_blocks sync_complete ids)).
Definition ok (m : t) : Prop :=
  array_ok 32 (chain_hash m) /\ u32 (first_blocknum m) /\ u32 (number_of_blocks m) /\ scids_ok (short_channel_ids m).
End ReplyChannelRange.

Module GossipTimestampFilter.
Record t := mk { chain_hash : bytes; first_timestamp : Z; timestamp_range : Z }.
Definition codec : Codec t :=
  plain_msg (pairc (arrayc 32) (pairc u32c u32c))
    (fun m => (chain_hash m, (first_timestamp m, timestamp_range m))) (fun '(a, (b, c)) => mk a b c).
Definition ok (m : t) : Prop := array_ok 32 (chain_hash m) /\ u32 (first_timestamp m) /\ u32 (timestamp_range m).
End GossipTimestampFilter.

(** * The gossip messages round trip, decode to values in range, and always decode

    Instances of the promises of Ser.v for the messages of GossipMsgs.v.  The addresses of a
    node announcement are the interesting part: the reader's position cannot overflow
    because it never passes the bytes of the message. *)

(** Turn the successful runs of field codecs in the context into facts on the values. *)
Ltac type_fields :=
  repeat match goal with E : run (c_read _) _ = (Ret (Ok _), _) |- _ => apply typed in E; [|done] end.

(** Reading to the end, after everything else. *)
Lemma run_to_end {A} (f : bytes -> rd A) bs : run (read_to_end ≫= f) bs = run (f bs) [].
Proof. rewrite run_bind, run_read_to_end. done. Qed.

Lemma rd_outcome_inv {A} (o : outcome A) (bs : bytes) a rest :
  run (rd_outcome o) bs = (Ret (Ok a), rest) -> o = Ret a /\ rest = bs.
Proof. destruct o; cbn [rd_outcome]; intros H; inversion H; subst; done. Qed.

(** ** Addresses *)

Lemma addr_len_bytes l :
  UnsignedNodeAnnouncement.addr_bytes l < 2 ^ 16 -> UnsignedNodeAnnouncement.addr_len l = UnsignedNodeAnnouncement.addr_bytes l.
Proof.
  intros Hl. unfold UnsignedNodeAnnouncement.addr_len, UnsignedNodeAnnouncement.addr_bytes in *.
  assert (G : forall n, 0 <= n -> n + foldr (fun a n => 1 + NetAddress.len a + n) 0 l < 2 ^ 16 ->
    foldl (fun n a => wrap 16 (n + (1 + NetAddress.len a))) n l = n + foldr (fun a n => 1 + NetAddress.len a + n) 0 l).
  2: { rewrite G by lia. lia. }
  clear Hl. induction l as [|a l IH]; intros n Hn Hl; cbn [foldl foldr] in *; [lia|].
  assert (0 < NetAddress.len a) by (by destruct a).
  assert (0 <= foldr (fun a n => 1 + NetAddress.len a + n) 0 l).
  { clear. induction l as [|a l IH]; cbn; [lia|]. destruct a; cbn; lia. }
  rewrite wrap_small by width_lia. rewrite IH by lia. lia.
Qed.

Lemma net_address_consumed bs a rest :
  all_u8 bs -> run NetAddress.read_result bs = (Ret (Ok (Ok a)), rest) ->
  Z.of_nat (length bs) = Z.of_nat (length rest) + 1 + NetAddress.len a /\ NetAddress.ok a.
Proof.
  intros Hu H. pose proof (net_address_result_typed _ _ _ Hu H) as Ha. cbn in Ha.
  split; [|done]. unfold NetAddress.read_result in H. inv_run;
  repeat match goal with E : run (c_read ?c) _ = (Ret (Ok _), _) |- _ =>
    apply canonical in E; [|done]; subst end; simplify_eq;
  rewrite ?length_app; cbn [NetAddress.len]; cbn in Ha; unfold array_ok in *;
  unfold encode, vec_writer; cbn [c_write u8c u16c uintc arrayc concat]; rewrite ?List.app_nil_r, ?length_to_be_bytes; cbn [length];
  lia.
Qed.

Section Addresses.
Import UnsignedNodeAnnouncement.

Lemma addr_bytes_snoc l a : addr_bytes (l ++ [a]) = addr_bytes l + 1 + NetAddress.len a.
Proof. unfold addr_bytes. induction l as [|x l IH]; cbn; [lia|]. rewrite IH. lia. Qed.

Lemma net_address_len_pos a : 0 < NetAddress.len a.
Proof. by destruct a. Qed.

Lemma addr_bytes_nonneg l : 0 <= addr_bytes l.
Proof. unfold addr_bytes. induction l as [|a l IH]; cbn; [lia|]. pose proof (net_address_len_pos a). lia. Qed.

Lemma addr_bytes_count l : Z.of_nat (length l) <= addr_bytes l.
Proof. unfold addr_bytes. induction l as [|a l IH]; cbn; [lia|]. pose proof (net_address_len_pos a). lia. Qed.

Lemma addr_bytes_written l :
  Forall NetAddress.ok l -> Z.of_nat (length (concat (concat (NetAddress.write <$> l)))) = addr_bytes l.
Proof.
  induction 1 as [|a l Ha _ IH]; [done|]. cbn [fmap list_fmap concat]. rewrite concat_app, length_app.
  change (addr_bytes (a :: l)) with (1 + NetAddress.len a + addr_bytes l). rewrite <- IH.
  pose proof (net_address_len a Ha). lia.
Qed.

Lemma add16_ok n a : 0 <= n -> n + 1 + NetAddress.len a < 2 ^ 16 ->
  (m ← add16 n 1; add16 m (NetAddress.len a)) = Ret (n + 1 + NetAddress.len a).
Proof.
  intros Hn Hl. pose proof (net_address_len_pos a). unfold add16.
  rewrite checked_op_ok by width_lia. cbn. rewrite checked_op_ok by width_lia. done.
Qed.

(** An unknown descriptor ends the loop. *)
Lemma net_address_unknown b rest :
  u8 b -> ~ (1 <= b <= 4) -> run NetAddress.read_result (b :: rest) = (Ret (Ok (Err b)), rest).
Proof.
  intros Hb Hn. unfold NetAddress.read_result. change (b :: rest) with (concat (c_write u8c b) ++ rest).
  rewrite (run_field u8c u8) by done. by repeat eval_if.
Qed.

Lemma read_addresses_written l fuel alen pos acc ex rest :
  Forall NetAddress.ok l -> all_u8 ex -> excess_ok ex -> (length l < fuel)%nat -> 0 <= pos ->
  alen = pos + addr_bytes l + Z.of_nat (length ex) -> alen < 2 ^ 16 ->
  run (read_addresses fuel alen pos acc) (concat (concat (NetAddress.write <$> l)) ++ ex ++ rest) =
  (Ret (Ok (acc ++ l, pos + addr_bytes l, head ex)), tail ex ++ rest).
Proof.
  revert fuel pos acc. induction l as [|a l IH]; intros fuel pos acc Hl Hu Hex Hf Hp Ha Hlt;
    (destruct fuel as [|fuel]; [cbn in Hf; lia|]); cbn [read_addresses].
  - cbn [fmap list_fmap concat app]. rewrite List.app_nil_r. cbn [addr_bytes foldr] in *. destruct ex as [|b ex].
    + cbn in Ha. replace (alen <=? pos) with true by lia. rewrite run_ret. cbn. by rewrite Z.add_0_r.
    + cbn in Ha. replace (alen <=? pos) with false by lia. rewrite run_match.
      apply Forall_cons in Hu as [Hb _]. cbn [app]. rewrite net_address_unknown by done.
      rewrite run_ret. cbn. by rewrite Z.add_0_r.
  - apply Forall_cons in Hl as [Hok Hl]. pose proof (net_address_len_pos a). pose proof (addr_bytes_nonneg l).
    change (addr_bytes (a :: l)) with (1 + NetAddress.len a + addr_bytes l) in *.
    replace (alen <=? pos) with false by lia. rewrite run_match. cbn [fmap list_fmap concat].
    rewrite concat_app, <- app_assoc.
    pose proof (net_address_result mret a (concat (concat (NetAddress.write <$> l)) ++ ex ++ rest) Hok) as E.
    rewrite run_bind in E. destruct (run NetAddress.read_result _) as [[[r|e]|w|] bs'] eqn:Er; cbn in E; try discriminate E.
    injection E as -> ->.
    rewrite add16_ok by lia. cbn [rd_outcome]. rewrite run_bind, run_ret.
    replace (alen <? pos + 1 + NetAddress.len a) with false by lia. rewrite IH by (done || cbn in Hf; lia).
    rewrite <- app_assoc. cbn [app]. by replace (pos + 1 + _ + addr_bytes l) with (pos + (1 + NetAddress.len a + addr_bytes l)) by lia.
Qed.

Lemma read_addresses_inv fuel alen pos acc bs l pos' ex rest :
  all_u8 bs -> Forall NetAddress.ok acc -> pos = addr_bytes acc -> pos <= alen ->
  run (read_addresses fuel alen pos acc) bs = (Ret (Ok (l, pos', ex)), rest) ->
  Forall NetAddress.ok l /\ pos' = addr_bytes l /\
  match ex with Some b => pos' < alen /\ u8 b /\ ~ (1 <= b <= 4) | None => pos' = alen end.
Proof.
  revert pos acc bs. induction fuel as [|fuel IH]; intros pos acc bs Hu Hacc Hp Hle H; cbn [read_addresses] in H;
    (destruct (Z.leb_spec alen pos); [rewrite run_ret in H; simplify_eq; split_and!; (done || lia)|]); [done|].
  rewrite run_match in H. destruct (run NetAddress.read_result bs) as [[[r|e]|w|] bs1] eqn:Er; try (by destruct e); try done.
  pose proof (run_u8 _ _ _ _ Hu Er) as Hu1. destruct r as [a|b].
  - apply net_address_consumed in Er as [_ Hok]; [|done]. inv_run.
    assert (Hb : a0 = pos + 1 + NetAddress.len a /\ bs0 = bs1).
    { apply rd_outcome_inv in E as [E ->]. split; [|done]. revert E. unfold add16, checked_op.
      destruct (in_widthb 16 (pos + 1)); [|done]. cbn. destruct (in_widthb _ _); [|done]. by intros [= <-]. }
    destruct Hb as [-> ->]. apply IH in H; [done|done| |by rewrite addr_bytes_snoc; lia|lia].
    apply Forall_app. auto.
  - rewrite run_ret in H. simplify_eq. pose proof (net_address_result_typed _ _ _ Hu Er) as Hb. cbn in Hb.
    split_and!; [done..|]. unfold NetAddress.read_result in Er. inv_run; simplify_eq. lia.
Qed.

Lemma read_addresses_total fuel alen pos acc bs :
  sized bs -> (length bs < fuel)%nat -> 0 <= pos -> pos + Z.of_nat (length bs) < 2 ^ 16 ->
  exists r rest, run (read_addresses fuel alen pos acc) bs = (Ret r, rest).
Proof.
  revert pos acc bs. induction fuel as [|fuel IH]; intros pos acc bs Hs Hf Hp Hl; [lia|]. cbn [read_addresses].
  destruct (alen <=? pos); [by eexists _, _|]. rewrite run_match.
  destruct (net_address_result_total bs Hs) as ([[a|b]|e] & bs1 & E); rewrite E.
  - pose proof E as Ec. apply net_address_consumed in Ec as [Hc _]; [|apply Hs].
    pose proof (net_address_len_pos a). rewrite add16_ok by lia. cbn [rd_outcome]. rewrite run_bind, run_ret.
    destruct (_ <? _); [by eexists _, _|]. apply IH; [by eapply run_sized|lia..].
  - by eexists _, _.
  - destruct e; by eexists _, _.
Qed.
End Addresses.

(** ** Announcements and updates *)

Section Laws.
Context `{SecpLaws}.

Section NodeAnnouncements.
Import UnsignedNodeAnnouncement.

Lemma read_excess_written alen pos ex (rest : bytes) :
  pos + Z.of_nat (length ex) = alen ->
  run (read_excess alen pos (head ex)) (tail ex ++ rest) = (Ret (Ok (ex, [])), rest).
Proof.
  intros <-. unfold read_excess. destruct (Z.ltb_spec pos (pos + Z.of_nat (length ex))) as [Hlt|Hge];
    destruct ex as [|b ex]; cbn [length] in *; try lia; cbv zeta; cbn [hd_error tl app head tail]; [|done].
  rewrite run_exact by lia. done.
Qed.

Lemma read_excess_inv alen pos o bs ex d rest :
  all_u8 bs -> pos <= alen -> match o with Some b => pos < alen /\ u8 b /\ ~ (1 <= b <= 4) | None => pos = alen end ->
  run (read_excess alen pos o) bs = (Ret (Ok (ex, d)), rest) ->
  all_u8 ex /\ excess_ok ex /\ d = [] /\ pos + Z.of_nat (length ex) = alen.
Proof.
  intros Hu Hp Ho H1. unfold read_excess in H1. destruct o as [b|].
  - destruct Ho as (Hlt & Hb & Hn). replace (pos <? alen) with true in H1 by lia. inv_run. simplify_eq.
    apply read_exact_inv in E as [-> Hl]. apply Forall_app in Hu as [Hu _].
    split_and!; [by constructor|done|done|]. cbn. lia.
  - subst. rewrite Z.ltb_irrefl in H1. inv_run. simplify_eq. split_and!; try done. cbn. lia.
Qed.

Global Instance unsigned_node_announcement_end : EndRoundTrip codec ok.
Proof.
  intros m (Hf & Ht & Hrgb & Hal & Hl & Hex & Hexok & Hd & Hlen).
  rewrite <- (List.app_nil_r (encode _ _)). open_codec.
  rewrite (run_field featuresc vec_ok), (run_field u32c u32), (run_field pubkeyc (fun _ => True)) by done.
  rewrite run_exact by apply Hrgb. rewrite (run_field (arrayc 32) (array_ok 32)) by done.
  pose proof (addr_bytes_nonneg (addresses m)). pose proof (addr_bytes_count (addresses m)).
  pose proof (addr_bytes_written (addresses m) Hl).
  rewrite addr_len_bytes by lia. rewrite (wrap_small 16 (Z.of_nat _)) by width_lia. rewrite wrap_small by width_lia. rewrite (run_field u16c u16) by width_lia.
  rewrite run_bind. cbn [run left Read_slice].
  rewrite read_addresses_written by (done || (rewrite ?length_app; lia)).
  cbn [app]. rewrite run_bind, read_excess_written by done. rewrite run_to_end, run_ret. by destruct m.
Qed.

Global Instance unsigned_node_announcement_typed : Typed codec ok.
Proof.
  intros bs m rest Hu H1. open_read H1. inv_run. cbn [run] in E5. type_fields.
  apply read_exact_inv in E2 as [-> Hrgb]. rewrite run_read_to_end in E7. injection E7 as <- <-.
  apply read_addresses_inv in E5 as (Hl & -> & Hex); [|done..|destruct E4; lia].
  assert (all_u8 a2) by (by decompose_Forall_hyps).
  apply read_excess_inv in E6 as (He & Heok & -> & Hlen); [|done|destruct o; lia|done].
  destruct E4. split_and!; try done. cbn [addresses excess_address_data]. lia.
Qed.

Global Instance unsigned_node_announcement_total : Total codec.
Proof.
  change (total (c_read codec)). cbn [codec c_read].
  do 6 (apply total_bind; [solve [apply is_total|apply total_read_exact]|intros ?]).
  apply total_bind; [|intros [[l pos] ex]; unfold read_excess; solve_total].
  intros bs Hs. cbn [run left Read_slice]. destruct Hs as [Hu Hl]. apply read_addresses_total; [by split|lia..].
Qed.
End NodeAnnouncements.

Global Instance node_announcement_end : EndRoundTrip NodeAnnouncement.codec NodeAnnouncement.ok.
Proof. intros m Hm. eapply impl_writeable_end; [apply _|by intros []|done]. Qed.
Global Instance node_announcement_typed : Typed NodeAnnouncement.codec NodeAnnouncement.ok.
Proof. eapply impl_writeable_typed; [apply _|by intros [] []]. Qed.
Global Instance node_announcement_total : Total NodeAnnouncement.codec.
Proof. apply impl_writeable_total, _. Qed.

Global Instance unsigned_channel_announcement_end :
  EndRoundTrip UnsignedChannelAnnouncement.codec UnsignedChannelAnnouncement.ok.
Proof.
  intros m (Hf & Hc & Hs & Hd). rewrite <- (List.app_nil_r (encode _ _)). open_codec.
  rewrite (run_field featuresc vec_ok), (run_field (arrayc 32) (array_ok 32)), (run_field u64c u64) by done.
  do 4 rewrite (run_field pubkeyc (fun _ => True)) by done. rewrite run_to_end, run_ret. by destruct m.
Qed.
Global Instance unsigned_channel_announcement_typed :
  Typed UnsignedChannelAnnouncement.codec UnsignedChannelAnnouncement.ok.
Proof.
  intros bs m rest Hu H1. open_read H1. inv_run. rewrite run_read_to_end in E6. injection E6 as <- <-.
  type_fields. by split_and!.
Qed.
Global Instance unsigned_channel_announcement_total : Total UnsignedChannelAnnouncement.codec.
Proof. solve_total. Qed.

Global Instance channel_announcement_end : EndRoundTrip ChannelAnnouncement.codec ChannelAnnouncement.ok.
Proof. intros m Hm. eapply impl_writeable_end; [apply _|by intros []|done]. Qed.
Global Instance channel_announcement_typed : Typed ChannelAnnouncement.codec ChannelAnnouncement.ok.
Proof. eapply impl_writeable_typed; [apply _|]. intros (a & b & c & d & e) (_ & _ & _ & _ & He). exact He. Qed.
Global Instance channel_announcement_total : Total ChannelAnnouncement.codec.
Proof. apply impl_writeable_total, _. Qed.

(** The upper byte of the flags says whether there is a maximum. *)
Lemma all_flags_spec flags (b : bool) :
  u8 flags ->
  let all_flags := Z.lor flags (Z.shiftl (if b then 1 else 0) 8) in
  u16 all_flags /\ (Z.land (Z.shiftr all_flags 8) 1 =? 1) = b /\ wrap 8 all_flags = flags.
Proof.
  intros Hf. cbv zeta. assert (E : Z.lor flags (Z.shiftl (if b then 1 else 0) 8) = flags + (if b then 256 else 0)).
  { rewrite Z.lor_comm, lor_shiftl_add by done. destruct b; lia. }
  rewrite E. unfold wrap, in_width in *. split_and!; [destruct b; lia|destruct b; lia| |].
  - rewrite Z.shiftr_div_pow2 by lia. change (2 ^ 8) with 256. destruct b.
    + replace ((flags + 256) `div` 256) with 1; [done|]. apply (Z.div_unique_pos _ _ _ flags); lia.
    + rewrite Z.add_0_r, Z.div_small by lia. done.
  - destruct b; [|rewrite Z.add_0_r, Z.mod_small; lia]. symmetry. apply (Z.mod_unique_pos _ _ 1); lia.
Qed.

Global Instance opt_u64c_roundtrip : RoundTrip opt_u64c (fun o => exists v, o = Present v /\ u64 v).
Proof. intros o rest (v & -> & Hv). open_codec. by rewrite (run_field u64c u64). Qed.
Global Instance opt_u64c_typed : Typed opt_u64c (fun o => forall v, o = Present v -> u64 v).
Proof. intros bs o rest Hu H1. open_read H1. inv_run. type_fields. by intros v [= <-]. Qed.
Global Instance opt_u64c_total : Total opt_u64c.
Proof. solve_total. Qed.

Global Instance unsigned_channel_update_end : EndRoundTrip UnsignedChannelUpdate.codec UnsignedChannelUpdate.ok.
Proof.
  intros [c s t f d m o b p x] (Hc & Hs & Ht & Hf & Hd & Hm & Ho & Hb & Hp & Hx).
  rewrite <- (List.app_nil_r (encode _ _)). open_codec. cbv zeta.
  cbn [UnsignedChannelUpdate.chain_hash UnsignedChannelUpdate.short_channel_id UnsignedChannelUpdate.timestamp
    UnsignedChannelUpdate.flags UnsignedChannelUpdate.cltv_expiry_delta UnsignedChannelUpdate.htlc_minimum_msat
    UnsignedChannelUpdate.htlc_maximum_msat UnsignedChannelUpdate.fee_base_msat
    UnsignedChannelUpdate.fee_proportional_millionths UnsignedChannelUpdate.excess_data] in *.
  destruct (all_flags_spec f (if o then true else false) Hf) as (Hw & Hh & Hl).
  replace (match o with Present _ => 1 | Absent => 0 end) with (if (if o then true else false) then 1 else 0)
    by (by destruct o).
  rewrite (run_field (arrayc 32) (array_ok 32)), (run_field u64c u64), (run_field u32c u32) by done.
  rewrite (run_field u16c u16) by done. rewrite Hh, Hl.
  rewrite (run_field u16c u16), (run_field u64c u64), !(run_field u32c u32) by done.
  assert (E : run (if (if o then true else false) then c_read opt_u64c else mret Absent) (concat (c_write opt_u64c o) ++ x)
    = (Ret (Ok o), x)).
  { destruct o as [v|]; [|done]. apply (round_trip (c := opt_u64c)). eauto. }
  rewrite (run_bind_Ok _ _ _ _ _ E). by rewrite run_to_end, run_ret.
Qed.

Global Instance unsigned_channel_update_typed : Typed UnsignedChannelUpdate.codec UnsignedChannelUpdate.ok.
Proof.
  intros bs m rest Hu H1. open_read H1. cbv zeta in H1.
  do 8 (let a := fresh "a" in let b := fresh "b" in let E := fresh "E" in
    apply run_bind_inv in H1 as (a & b & E & H1); assert (all_u8 b) by (eapply run_u8; [|exact E]; done)).
  apply run_bind_inv in H1 as (o & b7 & Eo & H1). assert (all_u8 b7) by (eapply run_u8; [|exact Eo]; done).
  rewrite run_to_end, run_ret in H1. injection H1 as <- <-. type_fields.
  assert (Ho : forall v, o = Present v -> u64 v).
  { destruct (_ =? _); [by apply (typed (c := opt_u64c)) in Eo|]. rewrite run_ret in Eo. by injection Eo as <- _. }
  split_and!; try done. apply wrap_in_width. lia.
Qed.
Global Instance unsigned_channel_update_total : Total UnsignedChannelUpdate.codec.
Proof. solve_total. Qed.

Global Instance channel_update_end : EndRoundTrip ChannelUpdate.codec ChannelUpdate.ok.
Proof. intros m Hm. eapply impl_writeable_end; [apply _|by intros []|done]. Qed.
Global Instance channel_update_typed : Typed ChannelUpdate.codec ChannelUpdate.ok.
Proof. eapply impl_writeable_typed; [apply _|by intros [] []]. Qed.
Global Instance channel_update_total : Total ChannelUpdate.codec.
Proof. apply impl_writeable_total, _. Qed.

(** ** Queries *)

Lemma read_scids_written {A} (f : list Z -> rd A) ids rest :
  scids_ok ids -> run (read_scids ≫= f) (concat (write_scids ids) ++ rest) = run (f ids) rest.
Proof.
  intros [Hu Hl]. apply run_bind_Ok. unfold write_scids, read_scids. rewrite !concat_app, <- !app_assoc.
  destruct (len16_small ids) as [E _]; [unfold len_ok; lia|]. rewrite E.
  rewrite (wrap_small 16 (_ * 8)), wrap_small by width_lia. rewrite (run_field u16c u16) by width_lia.
  rewrite (run_field u8c u8) by (by vm_compute). cbn [EncodingType_Uncompressed Z.eqb negb].
  replace (1 + Z.of_nat (length ids) * 8 - 1) with (Z.of_nat (length ids) * 8) by lia.
  rewrite Z.mod_mul, Z.div_mul by lia. replace (1 + _ =? 0) with false by lia. cbn [orb negb Z.eqb].
  rewrite Nat2Z.id. by apply (run_read_n u64c u64).
Qed.

Lemma read_scids_typed bs ids rest :
  all_u8 bs -> run read_scids bs = (Ret (Ok ids), rest) -> scids_ok ids.
Proof.
  intros Hu H1. unfold read_scids in H1. inv_run. apply typed in E; [|done].
  apply (read_n_typed u64c u64) in H1 as [Hi Hl]; [|done]. split; [done|]. rewrite Hl. destruct E.
  pose proof (Z.div_mod (a - 1) 8 ltac:(lia)). lia.
Qed.

Lemma total_read_scids : total read_scids.
Proof. unfold read_scids. solve_total. Qed.

Global Instance query_scids_roundtrip : RoundTrip QueryShortChannelIds.codec QueryShortChannelIds.ok.
Proof.
  intros m rest [Hc Hs]. open_codec. rewrite (run_field (arrayc 32) (array_ok 32)), read_scids_written by done.
  by destruct m.
Qed.
Global Instance query_scids_typed : Typed QueryShortChannelIds.codec QueryShortChannelIds.ok.
Proof. intros bs m rest Hu H1. open_read H1. inv_run. type_fields. apply read_scids_typed in E0; [by split|done]. Qed.
Global Instance query_scids_total : Total QueryShortChannelIds.codec.
Proof. pose proof total_read_scids. solve_total. Qed.

Global Instance reply_scids_end_end : EndRoundTrip ReplyShortChannelIdsEnd.codec ReplyShortChannelIdsEnd.ok.
Proof. plain_rt. Qed.
Global Instance reply_scids_end_typed : Typed ReplyShortChannelIdsEnd.codec ReplyShortChannelIdsEnd.ok.
Proof. plain_ty. Qed.
Global Instance reply_scids_end_total : Total ReplyShortChannelIdsEnd.codec.
Proof. apply plain_msg_total, _. Qed.

Global Instance query_range_end : EndRoundTrip QueryChannelRange.codec QueryChannelRange.ok.
Proof. plain_rt. Qed.
Global Instance query_range_typed : Typed QueryChannelRange.codec QueryChannelRange.ok.
Proof. plain_ty. Qed.
Global Instance query_range_total : Total QueryChannelRange.codec.
Proof. apply plain_msg_total, _. Qed.

Global Instance reply_range_roundtrip : RoundTrip ReplyChannelRange.codec ReplyChannelRange.ok.
Proof.
  intros m rest (Hc & Hf & Hn & Hs). open_codec.
  rewrite (run_field (arrayc 32) (array_ok 32)), !(run_field u32c u32), (run_field boolc (fun _ => True)) by done.
  rewrite read_scids_written by done. by destruct m.
Qed.
Global Instance reply_range_typed : Typed ReplyChannelRange.codec ReplyChannelRange.ok.
Proof.
  intros bs m rest Hu H1. open_read H1. inv_run. type_fields. apply read_scids_typed in E3; [|done]. by split_and!.
Qed.
Global Instance reply_range_total : Total ReplyChannelRange.codec.
Proof. pose proof total_read_scids. solve_total. Qed.

Global Instance timestamp_filter_end : EndRoundTrip GossipTimestampFilter.codec GossipTimestampFilter.ok.
Proof. plain_rt. Qed.
Global Instance timestamp_filter_typed : Typed GossipTimestampFilter.codec GossipTimestampFilter.ok.
Proof. plain_ty. Qed.
Global Instance timestamp_filter_total : Total GossipTimestampFilter.codec.
Proof. apply plain_msg_total, _. Qed.
End Laws.
