(* ===== verification/Wire.v ===== *)
(** * Wire messages: rust-lightning/lightning/src/ln/wire.rs

    A message on the wire is a two-byte type and a payload.  The reader dispatches on the
    type to the codec of the message, gives types it does not know to the custom message
    reader, which is a parameter, and reports what that does not know either as unknown.  The
    theorems lift the promises of the codecs to the whole protocol. *)

From S2P Require Import Prelude Text Bytes Stream Ser SerLaws Tlv Features Msgs ChannelMsgs ChannelMsgsLaws GossipMsgs.

Local Open Scope Z_scope.

(** [CustomMessageReader], the [Type] of its messages and their [Writeable]. *)
Class CustomMessageReader := {
  CustomMessage : Type;
  custom_type_id : CustomMessage -> Z;
  custom_write : CustomMessage -> list bytes;
  custom_read : Z -> rd (option CustomMessage);
}.

Inductive Message `{Secp} `{CustomMessageReader} :=
| MInit (msg : Init.t)
| MError (msg : ErrorMessage.t)
| MWarning (msg : WarningMessage.t)
| MPing (msg : Ping.t)
| MPong (msg : Pong.t)
| MOpenChannel (msg : OpenChannel.t)
| MAcceptChannel (msg : AcceptChannel.t)
| MFundingCreated (msg : FundingCreated.t)
| MFundingSigned (msg : FundingSigned.t)
| MChannelReady (msg : ChannelReady.t)
| MShutdown (msg : Shutdown.t)
| MClosingSigned (msg : ClosingSigned.t)
| MUpdateAddHTLC (msg : UpdateAddHTLC.t)
| MUpdateFulfillHTLC (msg : UpdateFulfillHTLC.t)
| MUpdateFailHTLC (msg : UpdateFailHTLC.t)
| MUpdateFailMalformedHTLC (msg : UpdateFailMalformedHTLC.t)
| MCommitmentSigned (msg : CommitmentSigned.t)
| MRevokeAndACK (msg : RevokeAndACK.t)
| MUpdateFee (msg : UpdateFee.t)
| MChannelReestablish (msg : ChannelReestablish.t)
| MAnnouncementSignatures (msg : AnnouncementSignatures.t)
| MChannelAnnouncement (msg : ChannelAnnouncement.t)
| MNodeAnnouncement (msg : NodeAnnouncement.t)
| MChannelUpdate (msg : ChannelUpdate.t)
| MQueryShortChannelIds (msg : QueryShortChannelIds.t)
| MReplyShortChannelIdsEnd (msg : ReplyShortChannelIdsEnd.t)
| MQueryChannelRange (msg : QueryChannelRange.t)
| MReplyChannelRange (msg : ReplyChannelRange.t)
| MGossipTimestampFilter (msg : GossipTimestampFilter.t)
| Unknown (type_id : Z)
| Custom (msg : CustomMessage).

(** ** [Encode::TYPE] *)

Definition Init_TYPE : Z := 16.
Definition ErrorMessage_TYPE : Z := 17.
Definition WarningMessage_TYPE : Z := 1.
Definition Ping_TYPE : Z := 18.
Definition Pong_TYPE : Z := 19.
Definition OpenChannel_TYPE : Z := 32.
Definition AcceptChannel_TYPE : Z := 33.
Definition FundingCreated_TYPE : Z := 34.
Definition FundingSigned_TYPE : Z := 35.
Definition ChannelReady_TYPE : Z := 36.
Definition Shutdown_TYPE : Z := 38.
Definition ClosingSigned_TYPE : Z := 39.
Definition UpdateAddHTLC_TYPE : Z := 128.
Definition UpdateFulfillHTLC_TYPE : Z := 130.
Definition UpdateFailHTLC_TYPE : Z := 131.
Definition UpdateFailMalformedHTLC_TYPE : Z := 135.
Definition CommitmentSigned_TYPE : Z := 132.
Definition RevokeAndACK_TYPE : Z := 133.
Definition UpdateFee_TYPE : Z := 134.
Definition ChannelReestablish_TYPE : Z := 136.
Definition AnnouncementSignatures_TYPE : Z := 259.
Definition ChannelAnnouncement_TYPE : Z := 256.
Definition NodeAnnouncement_TYPE : Z := 257.
Definition ChannelUpdate_TYPE : Z := 258.
Definition QueryShortChannelIds_TYPE : Z := 261.
Definition ReplyShortChannelIdsEnd_TYPE : Z := 262.
Definition QueryChannelRange_TYPE : Z := 263.
Definition ReplyChannelRange_TYPE : Z := 264.
Definition GossipTimestampFilter_TYPE : Z := 265.

(** The types the reader dispatches on. *)
Definition known_types : list Z :=
  [Init_TYPE; ErrorMessage_TYPE; WarningMessage_TYPE; Ping_TYPE; Pong_TYPE;
   OpenChannel_TYPE; AcceptChannel_TYPE; FundingCreated_TYPE; FundingSigned_TYPE; ChannelReady_TYPE;
   Shutdown_TYPE; ClosingSigned_TYPE; UpdateAddHTLC_TYPE; UpdateFulfillHTLC_TYPE; UpdateFailHTLC_TYPE;
   UpdateFailMalformedHTLC_TYPE; CommitmentSigned_TYPE; RevokeAndACK_TYPE; UpdateFee_TYPE; ChannelReestablish_TYPE;
   AnnouncementSignatures_TYPE; ChannelAnnouncement_TYPE; NodeAnnouncement_TYPE; ChannelUpdate_TYPE; QueryShortChannelIds_TYPE;
   ReplyShortChannelIdsEnd_TYPE; QueryChannelRange_TYPE; ReplyChannelRange_TYPE; GossipTimestampFilter_TYPE].

Section Wire.
Context `{Secp} `{CustomMessageReader}.

Definition type_id (m : Message) : Z :=
  match m with
  | MInit _ => Init_TYPE
  | MError _ => ErrorMessage_TYPE
  | MWarning _ => WarningMessage_TYPE
  | MPing _ => Ping_TYPE
  | MPong _ => Pong_TYPE
  | MOpenChannel _ => OpenChannel_TYPE
  | MAcceptChannel _ => AcceptChannel_TYPE
  | MFundingCreated _ => FundingCreated_TYPE
  | MFundingSigned _ => FundingSigned_TYPE
  | MChannelReady _ => ChannelReady_TYPE
  | MShutdown _ => Shutdown_TYPE
  | MClosingSigned _ => ClosingSigned_TYPE
  | MUpdateAddHTLC _ => UpdateAddHTLC_TYPE
  | MUpdateFulfillHTLC _ => UpdateFulfillHTLC_TYPE
  | MUpdateFailHTLC _ => UpdateFailHTLC_TYPE
  | MUpdateFailMalformedHTLC _ => UpdateFailMalformedHTLC_TYPE
  | MCommitmentSigned _ => CommitmentSigned_TYPE
  | MRevokeAndACK _ => RevokeAndACK_TYPE
  | MUpdateFee _ => UpdateFee_TYPE
  | MChannelReestablish _ => ChannelReestablish_TYPE
  | MAnnouncementSignatures _ => AnnouncementSignatures_TYPE
  | MChannelAnnouncement _ => ChannelAnnouncement_TYPE
  | MNodeAnnouncement _ => NodeAnnouncement_TYPE
  | MChannelUpdate _ => ChannelUpdate_TYPE
  | MQueryShortChannelIds _ => QueryShortChannelIds_TYPE
  | MReplyShortChannelIdsEnd _ => ReplyShortChannelIdsEnd_TYPE
  | MQueryChannelRange _ => QueryChannelRange_TYPE
  | MReplyChannelRange _ => ReplyChannelRange_TYPE
  | MGossipTimestampFilter _ => GossipTimestampFilter_TYPE
  | Unknown type_id => type_id
  | Custom msg => custom_type_id msg
  end.

Definition is_even (m : Message) : bool := Z.land (type_id m) 1 =? 0.

(** One arm of [do_read]. *)
Definition arm {A} (c : Codec A) (mk : A -> Message) : rd Message := msg ← c_read c; mret (mk msg).

Definition do_read (message_type : Z) : rd Message :=
  if message_type =? Init_TYPE then arm Init.codec MInit
  else if message_type =? ErrorMessage_TYPE then arm ErrorMessage.codec MError
  else if message_type =? WarningMessage_TYPE then arm WarningMessage.codec MWarning
  else if message_type =? Ping_TYPE then arm Ping.codec MPing
  else if message_type =? Pong_TYPE then arm Pong.codec MPong
  else if message_type =? OpenChannel_TYPE then arm OpenChannel.codec MOpenChannel
  else if message_type =? AcceptChannel_TYPE then arm AcceptChannel.codec MAcceptChannel
  else if message_type =? FundingCreated_TYPE then arm FundingCreated.codec MFundingCreated
  else if message_type =? FundingSigned_TYPE then arm FundingSigned.codec MFundingSigned
  else if message_type =? ChannelReady_TYPE then arm ChannelReady.codec MChannelReady
  else if message_type =? Shutdown_TYPE then arm Shutdown.codec MShutdown
  else if message_type =? ClosingSigned_TYPE then arm ClosingSigned.codec MClosingSigned
  else if message_type =? UpdateAddHTLC_TYPE then arm UpdateAddHTLC.codec MUpdateAddHTLC
  else if message_type =? UpdateFulfillHTLC_TYPE then arm UpdateFulfillHTLC.codec MUpdateFulfillHTLC
  else if message_type =? UpdateFailHTLC_TYPE then arm UpdateFailHTLC.codec MUpdateFailHTLC
  else if message_type =? UpdateFailMalformedHTLC_TYPE then arm UpdateFailMalformedHTLC.codec MUpdateFailMalformedHTLC
  else if message_type =? CommitmentSigned_TYPE then arm CommitmentSigned.codec MCommitmentSigned
  else if message_type =? RevokeAndACK_TYPE then arm RevokeAndACK.codec MRevokeAndACK
  else if message_type =? UpdateFee_TYPE then arm UpdateFee.codec MUpdateFee
  else if message_type =? ChannelReestablish_TYPE then arm ChannelReestablish.codec MChannelReestablish
  else if message_type =? AnnouncementSignatures_TYPE then arm AnnouncementSignatures.codec MAnnouncementSignatures
  else if message_type =? ChannelAnnouncement_TYPE then arm ChannelAnnouncement.codec MChannelAnnouncement
  else if message_type =? NodeAnnouncement_TYPE then arm NodeAnnouncement.codec MNodeAnnouncement
  else if message_type =? ChannelUpdate_TYPE then arm ChannelUpdate.codec MChannelUpdate
  else if message_type =? QueryShortChannelIds_TYPE then arm QueryShortChannelIds.codec MQueryShortChannelIds
  else if message_type =? ReplyShortChannelIdsEnd_TYPE then arm ReplyShortChannelIdsEnd.codec MReplyShortChannelIdsEnd
  else if message_type =? QueryChannelRange_TYPE then arm QueryChannelRange.codec MQueryChannelRange
  else if message_type =? ReplyChannelRange_TYPE then arm ReplyChannelRange.codec MReplyChannelRange
  else if message_type =? GossipTimestampFilter_TYPE then arm GossipTimestampFilter.codec MGossipTimestampFilter
  else
    custom ← custom_read message_type;
    match custom with
    | Some custom => mret (Custom custom)
    | None => mret (Unknown message_type)
    end.

(** [read]: an error carries the type, when there was one. *)
Definition read : rd (result Message (DecodeError * option Z)) :=
  rd_match (c_read u16c) (fun r =>
    match r with
    | Err e => mret (Err (e, None))
    | Ok message_type =>
        rd_match (do_read message_type) (fun r =>
          match r with
          | Err e => mret (Err (e, Some message_type))
          | Ok m => mret (Ok m)
          end)
    end).

(** [write]: the type and the payload. *)
Definition write {M} (type_id : Z) (c : Codec M) (message : M) : list bytes :=
  c_write u16c type_id ++ c_write c message.

(** The instance of [write] for a message; an unknown one is never written. *)
Definition message_write (m : Message) : list bytes :=
  match m with
  | MInit msg => write Init_TYPE Init.codec msg
  | MError msg => write ErrorMessage_TYPE ErrorMessage.codec msg
  | MWarning msg => write WarningMessage_TYPE WarningMessage.codec msg
  | MPing msg => write Ping_TYPE Ping.codec msg
  | MPong msg => write Pong_TYPE Pong.codec msg
  | MOpenChannel msg => write OpenChannel_TYPE OpenChannel.codec msg
  | MAcceptChannel msg => write AcceptChannel_TYPE AcceptChannel.codec msg
  | MFundingCreated msg => write FundingCreated_TYPE FundingCreated.codec msg
  | MFundingSigned msg => write FundingSigned_TYPE FundingSigned.codec msg
  | MChannelReady msg => write ChannelReady_TYPE ChannelReady.codec msg
  | MShutdown msg => write Shutdown_TYPE Shutdown.codec msg
  | MClosingSigned msg => write ClosingSigned_TYPE ClosingSigned.codec msg
  | MUpdateAddHTLC msg => write UpdateAddHTLC_TYPE UpdateAddHTLC.codec msg
  | MUpdateFulfillHTLC msg => write UpdateFulfillHTLC_TYPE UpdateFulfillHTLC.codec msg
  | MUpdateFailHTLC msg => write UpdateFailHTLC_TYPE UpdateFailHTLC.codec msg
  | MUpdateFailMalformedHTLC msg => write UpdateFailMalformedHTLC_TYPE UpdateFailMalformedHTLC.codec msg
  | MCommitmentSigned msg => write CommitmentSigned_TYPE CommitmentSigned.codec msg
  | MRevokeAndACK msg => write RevokeAndACK_TYPE RevokeAndACK.codec msg
  | MUpdateFee msg => write UpdateFee_TYPE UpdateFee.codec msg
  | MChannelReestablish msg => write ChannelReestablish_TYPE ChannelReestablish.codec msg
  | MAnnouncementSignatures msg => write AnnouncementSignatures_TYPE AnnouncementSignatures.codec msg
  | MChannelAnnouncement msg => write ChannelAnnouncement_TYPE ChannelAnnouncement.codec msg
  | MNodeAnnouncement msg => write NodeAnnouncement_TYPE NodeAnnouncement.codec msg
  | MChannelUpdate msg => write ChannelUpdate_TYPE ChannelUpdate.codec msg
  | MQueryShortChannelIds msg => write QueryShortChannelIds_TYPE QueryShortChannelIds.codec msg
  | MReplyShortChannelIdsEnd msg => write ReplyShortChannelIdsEnd_TYPE ReplyShortChannelIdsEnd.codec msg
  | MQueryChannelRange msg => write QueryChannelRange_TYPE QueryChannelRange.codec msg
  | MReplyChannelRange msg => write ReplyChannelRange_TYPE ReplyChannelRange.codec msg
  | MGossipTimestampFilter msg => write GossipTimestampFilter_TYPE GossipTimestampFilter.codec msg
  | Unknown _ => []
  | Custom msg => c_write u16c (custom_type_id msg) ++ custom_write msg
  end.

(** ** Messages in range *)

Definition message_sat (open : OpenChannel.t -> Prop) (accept : AcceptChannel.t -> Prop)
    (unknown : Z -> Prop) (custom : CustomMessage -> Prop) (m : Message) : Prop :=
  match m with
  | MInit msg => Init.ok msg
  | MError msg => ErrorMessage.ok msg
  | MWarning msg => WarningMessage.ok msg
  | MPing msg => Ping.ok msg
  | MPong msg => Pong.ok msg
  | MOpenChannel msg => open msg
  | MAcceptChannel msg => accept msg
  | MFundingCreated msg => FundingCreated.ok msg
  | MFundingSigned msg => FundingSigned.ok msg
  | MChannelReady msg => ChannelReady.ok msg
  | MShutdown msg => Shutdown.ok msg
  | MClosingSigned msg => ClosingSigned.ok msg
  | MUpdateAddHTLC msg => UpdateAddHTLC.ok msg
  | MUpdateFulfillHTLC msg => UpdateFulfillHTLC.ok msg
  | MUpdateFailHTLC msg => UpdateFailHTLC.ok msg
  | MUpdateFailMalformedHTLC msg => UpdateFailMalformedHTLC.ok msg
  | MCommitmentSigned msg => CommitmentSigned.ok msg
  | MRevokeAndACK msg => RevokeAndACK.ok msg
  | MUpdateFee msg => UpdateFee.ok msg
  | MChannelReestablish msg => ChannelReestablish.ok msg
  | MAnnouncementSignatures msg => AnnouncementSignatures.ok msg
  | MChannelAnnouncement msg => ChannelAnnouncement.ok msg
  | MNodeAnnouncement msg => NodeAnnouncement.ok msg
  | MChannelUpdate msg => ChannelUpdate.ok msg
  | MQueryShortChannelIds msg => QueryShortChannelIds.ok msg
  | MReplyShortChannelIdsEnd msg => ReplyShortChannelIdsEnd.ok msg
  | MQueryChannelRange msg => QueryChannelRange.ok msg
  | MReplyChannelRange msg => ReplyChannelRange.ok msg
  | MGossipTimestampFilter msg => GossipTimestampFilter.ok msg
  | Unknown type_id => unknown type_id
  | Custom msg => custom msg
  end.

End Wire.

(** [IgnoringMessageHandler]: there are no custom messages and no type is known. *)
Definition IgnoringMessageHandler : CustomMessageReader := {|
  CustomMessage := Empty_set;
  custom_type_id msg := match msg with end;
  custom_write msg := match msg with end;
  custom_read _ := mret None;
|}.

(** ** Laws *)

(** What the documentation of [CustomMessageReader] asks of an implementation, for messages
    that satisfy [custom_ok]. *)
Class CustomLaws `{CustomMessageReader} (custom_ok : CustomMessage -> Prop) := {
  custom_type m : custom_ok m -> u16 (custom_type_id m) /\ custom_type_id m ∉ known_types;
  custom_roundtrip m : custom_ok m -> run (custom_read (custom_type_id m)) (concat (custom_write m)) = (Ret (Ok (Some m)), []);
  custom_total t : total (custom_read t);
  custom_typed t bs m rest : u16 t -> all_u8 bs -> run (custom_read t) bs = (Ret (Ok (Some m)), rest) ->
    custom_ok m /\ custom_type_id m = t;
  custom_octets m : custom_ok m -> all_u8 (concat (custom_write m));
}.

Definition ignoring_laws : CustomLaws (H := IgnoringMessageHandler) (fun _ => True).
Proof. split; [done|done|intros t; apply total_ret|done|done]. Qed.

Section Laws.
Context `{SecpLaws} `{Hc : CustomMessageReader} (custom_ok : CustomMessage -> Prop) `{!CustomLaws custom_ok}.

(** What can be sent. *)
Definition message_ok (m : Message) : Prop :=
  message_sat open_channel_ok accept_channel_ok (fun _ => False) custom_ok m.

(** What is received: the same ranges; open and accept messages as their fields; an unknown
    type is none of ours. *)
Definition open_in_range (m : OpenChannel.t) : Prop :=
  OpenChannel.body_ok m /\ script_ok (OpenChannel.shutdown_scriptpubkey m) /\
  (forall f, OpenChannel.channel_type m = Some f -> all_u8 f).
Definition accept_in_range (m : AcceptChannel.t) : Prop :=
  AcceptChannel.body_ok m /\ script_ok (AcceptChannel.shutdown_scriptpubkey m) /\
  (forall f, AcceptChannel.channel_type m = Some f -> all_u8 f).
Definition message_in_range (m : Message) : Prop :=
  message_sat open_in_range accept_in_range (fun t => t ∉ known_types) custom_ok m.

Lemma arm_written {A} (c : Codec A) valid `{!EndRoundTrip c valid} (mk : A -> Message) x :
  valid x -> run (arm c mk) (encode c x) = (Ret (Ok (mk x)), []).
Proof. intros Hx. unfold arm. by rewrite (run_bind_Ok _ _ _ _ _ (end_round_trip x Hx)). Qed.

Lemma arm_total {A} (c : Codec A) (mk : A -> Message) : Total c -> total (arm c mk).
Proof. intros Hc'. unfold arm. solve_total. Qed.

Lemma arm_inv {A} (c : Codec A) valid `{!Typed c valid} (mk : A -> Message) bs m rest :
  all_u8 bs -> run (arm c mk) bs = (Ret (Ok m), rest) -> exists x, m = mk x /\ valid x.
Proof. intros Hu Hr. unfold arm in Hr. inv_run. apply typed in E; [|done]. eauto. Qed.

Lemma do_read_unknown t : t ∉ known_types ->
  do_read t = (custom ← custom_read t; match custom with Some custom => mret (Custom custom) | None => mret (Unknown t) end).
Proof.
  intros Hn. unfold known_types in Hn. rewrite !not_elem_of_cons in Hn. unfold do_read.
  repeat match goal with H : _ /\ _ |- _ => destruct H as [?%Z.eqb_neq H] end.
  repeat match goal with H : (t =? ?x) = false |- _ => rewrite H; clear H end. done.
Qed.

Lemma run_read_type t payload :
  u16 t -> run read (concat (c_write u16c t) ++ payload) =
  (let '(o, rest) := run (do_read t) payload in
   (match o with
    | Ret (Ok m) => Ret (Ok (Ok m))
    | Ret (Err e) => Ret (Ok (Err (e, Some t)))
    | Panic w => Panic w
    | OutOfFuel => OutOfFuel
    end, rest)).
Proof.
  intros Ht. unfold read. rewrite run_match, <- encode_bytes, (round_trip (c := u16c)) by done. rewrite run_match.
  by destruct (run (do_read t) payload) as [[[m|e]|w|] rest].
Qed.

Lemma do_read_total t : total (do_read t).
Proof.
  unfold do_read. repeat (destruct (t =? _); [apply arm_total, _|]).
  apply total_bind; [apply custom_total|solve_total].
Qed.

Lemma do_read_inv t bs m rest :
  u16 t -> all_u8 bs -> run (do_read t) bs = (Ret (Ok m), rest) -> message_in_range m /\ type_id m = t.
Proof.
  intros Ht Hu Hr. unfold do_read in Hr.
  repeat match type of Hr with context [t =? ?x] =>
    destruct (Z.eqb_spec t x) as [->|?];
      [eapply arm_inv in Hr as (y & -> & Hy); [split; [exact Hy|done]|apply _|done]|] end.
  apply run_bind_inv in Hr as (c & bs1 & E & Hr). destruct c as [c|]; rewrite run_ret in Hr; simplify_eq.
  - eapply custom_typed in E; [|done|done]. exact E.
  - split; [|done]. cbn. unfold known_types. rewrite !not_elem_of_cons. split_and!; try done. apply not_elem_of_nil.
Qed.

(** Walk the arms of [do_read] to the one of a given type. *)
Ltac find_arm :=
  unfold do_read;
  repeat match goal with |- context [run (if ?a =? ?b then _ else _) _] =>
    let v := eval vm_compute in (a =? b) in change (a =? b) with v; cbv iota end.

(** C34: every message that can be sent is decoded as itself at the other end, and nothing of it
    is left over. *)
Theorem wire_roundtrip (m : Message) :
  message_ok m -> run read (concat (message_write m)) = (Ret (Ok (Ok m)), []).
Proof.
  intros Hm. destruct m; cbn [message_write]; unfold write; rewrite ?concat_app;
    try (rewrite run_read_type by done; find_arm;
         match goal with |- context [run (arm ?c ?mk) ?bs] =>
           change bs with (encode c msg); rewrite (arm_written c _ mk msg Hm); done end); [done|].
  destruct (custom_type msg Hm) as [Ht Hn]. rewrite run_read_type, do_read_unknown by done.
  by rewrite (run_bind_Ok _ _ _ _ _ (custom_roundtrip msg Hm)).
Qed.

(** C35: whatever a peer sends, in a message of fewer than 2^16 bytes, the reader returns: a
    message or an error, never a panic, and it fails without a type only when there were
    not two bytes to hold one. *)
Theorem wire_total (bs : bytes) :
  sized bs ->
  exists r rest, run read bs = (Ret (Ok r), rest) /\ (forall e, r = Err (e, None) <-> (length bs < 2)%nat /\ e = ShortRead).
Proof.
  intros Hs. destruct (Nat.lt_ge_cases (length bs) 2) as [Hl|Hl].
  - assert (E : run (c_read u16c) bs = (Ret (Err ShortRead), [])).
    { cbn [u16c uintc c_read]. rewrite run_bind, run_read_exact_short by done. done. }
    eexists _, _. split; [unfold read; by rewrite run_match, E|]. intros e. split; [|by intros [_ ->]].
    by intros [= <-].
  - destruct (is_total (c := u16c) bs Hs) as ([t|e] & bs1 & E).
    2: { cbn [u16c uintc c_read] in E. by rewrite run_bind, run_read_exact_ok in E by done. }
    unfold read. rewrite run_match, E, run_match.
    destruct (do_read_total t bs1) as ([m|e] & bs2 & E2); [by eapply run_sized| |];
      rewrite E2; eexists _, _; (split; [done|]); intros; split; (done || lia).
Qed.

(** C36: a decoded message is of the type its first two bytes name, and every field of it is in
    the range of its type: it could not have been built in memory otherwise. *)
Theorem wire_typed (bs : bytes) (m : Message) rest :
  all_u8 bs -> run read bs = (Ret (Ok (Ok m)), rest) ->
  message_in_range m /\ exists payload, bs = to_be_bytes 2 (type_id m) ++ payload.
Proof.
  intros Hu Hr. unfold read in Hr. rewrite run_match in Hr.
  destruct (run (c_read u16c) bs) as [[[t|e]|w|] bs1] eqn:E; try done. rewrite run_match in Hr.
  destruct (run (do_read t) bs1) as [[[m'|e]|w|] bs2] eqn:E2; try done. rewrite run_ret in Hr. simplify_eq.
  pose proof E as Et. apply typed in Et; [|done]. apply do_read_inv in E2 as [Hm <-]; [|done|by eapply run_u8].
  split; [done|]. apply canonical in E; [|done]. exists bs1. rewrite E. unfold encode, vec_writer. cbn [c_write u16c uintc concat].
  by rewrite List.app_nil_r.
Qed.
End Laws.
