(* ===== verification/Secrets.v ===== *)
(** * Revocation secrets: the first part of rust-lightning/lightning/src/ln/chan_utils.rs

    A channel reveals the secret of each commitment transaction it revokes, counting down
    from index [2^48 - 1].  [CounterpartyCommitmentSecrets] keeps 49 of them, from which it
    derives all the others (BOLT 3).  [received] is the sequence of calls a channel makes;
    whatever the counterparty reveals, each secret it got away with is found again. *)

From S2P Require Import Prelude Text Bytes Stream Ser SerLaws Tlv.

Local Open Scope Z_scope.

(** ** The source *)

(** [Sha256::hash(..).into_inner()] of bitcoin_hashes. *)
Class Sha256 := { Sha256_hash : bytes -> bytes }.
Class Sha256Laws `{Sha256} := { Sha256_array m : array_ok 32 (Sha256_hash m) }.

(** [idx & (1 << bitpos) == (1 << bitpos)]. *)
Definition bit_set (idx bitpos : Z) : bool := Z.land idx (Z.shiftl 1 bitpos) =? Z.shiftl 1 bitpos.

(** [res[bitpos / 8] ^= 1 << (bitpos & 7)]; [bitpos] is below 48 and [res] has 32 bytes. *)
Definition flip_bit (bitpos : Z) (res : bytes) : bytes :=
  alter (fun b => Z.lxor b (Z.shiftl 1 (Z.land bitpos 7))) (Z.to_nat (bitpos `div` 8)) res.

Section Source.
Context `{Sha256}.

(** The body of the loops of [build_commitment_secret] and [derive_secret]. *)
Definition derive_bit (idx : Z) (res : bytes) (bitpos : Z) : bytes :=
  if bit_set idx bitpos then Sha256_hash (flip_bit bitpos res) else res.

Definition build_commitment_secret (commitment_seed : bytes) (idx : Z) : bytes :=
  foldl (fun res (i : nat) => let bitpos := 47 - Z.of_nat i in derive_bit idx res bitpos) commitment_seed (seq 0 48).

Record CounterpartyCommitmentSecrets := mkSecrets { old_secrets : list (bytes * Z) }.

Definition new_secrets : CounterpartyCommitmentSecrets := mkSecrets (replicate 49 (replicate 32 0, Z.shiftl 1 48)).

Definition place_secret (idx : Z) : nat :=
  match List.find (fun i => bit_set idx (Z.of_nat i)) (seq 0 48) with Some i => i | None => 48%nat end.

Definition get_min_seen_secret (self : CounterpartyCommitmentSecrets) : Z :=
  foldl (fun min (e : bytes * Z) => if e.2 <? min then e.2 else min) (Z.shiftl 1 48) (old_secrets self).

Definition derive_secret (secret : bytes) (bits : nat) (idx : Z) : bytes :=
  foldl (fun res (i : nat) => let bitpos := Z.of_nat bits - 1 - Z.of_nat i in derive_bit idx res bitpos) secret (seq 0 bits).

(** The loop of [provide_secret]: the secrets in lower places follow from the new one. *)
Fixpoint older_agree (secret : bytes) (pos : nat) (olds : list (bytes * Z)) (places : list nat) : outcome bool :=
  match places with
  | [] => Ret true
  | i :: places' =>
      e ← unwrap "index out of bounds" (olds !! i);
      if bool_decide (derive_secret secret pos e.2 = e.1) then older_agree secret pos olds places' else Ret false
  end.

Definition provide_secret (idx : Z) (secret : bytes) : prog CounterpartyCommitmentSecrets (result unit unit) :=
  let pos := place_secret idx in
  self ← get;
  ok ← lift (older_agree secret pos (old_secrets self) (seq 0 pos));
  if negb ok then mret (Err tt)
  else if get_min_seen_secret self <=? idx then mret (Ok tt)
  else _ ← put (mkSecrets (<[pos := (secret, idx)]> (old_secrets self))); mret (Ok tt).

(** [idx & (!((1 << i) - 1))], on [u64]. *)
Definition above (i : nat) (idx : Z) : Z := Z.land idx (U64_MAX - (Z.shiftl 1 (Z.of_nat i) - 1)).

(** The loop of [get_secret], from place [i] on. *)
Fixpoint find_secret (i : nat) (olds : list (bytes * Z)) (idx : Z) : option bytes :=
  match olds with
  | [] => None
  | (secret, old_idx) :: olds' => if above i idx =? old_idx then Some (derive_secret secret i idx) else find_secret (S i) olds' idx
  end.

Definition get_secret (idx : Z) (self : CounterpartyCommitmentSecrets) : outcome (option bytes) :=
  match find_secret 0 (old_secrets self) idx with
  | Some secret => Ret (Some secret)
  | None => if idx <? get_min_seen_secret self then Ret None else Panic "assertion failed: idx < self.get_min_seen_secret()"
  end.

Definition secretsc : Codec CounterpartyCommitmentSecrets :=
  mkCodec (fun self => write_each (pairc (arrayc 32) u64c) (old_secrets self) ++ write_tlv_fields [])
    (olds ← read_n (pairc (arrayc 32) u64c) 49; _ ← read_tlv_fields [] tt; mret (mkSecrets olds)).

(** ** Bits and places *)

Lemma bit_set_testbit idx p : 0 <= p -> bit_set idx p = Z.testbit idx p.
Proof.
  intros Hp. unfold bit_set. rewrite Z.shiftl_1_l. apply eq_true_iff_eq. rewrite Z.eqb_eq. split; intros E.
  - apply (f_equal (fun z => Z.testbit z p)) in E. rewrite Z.land_spec, Z.pow2_bits_true, andb_true_r in E by done. done.
  - apply Z.bits_inj'. intros q Hq. rewrite Z.land_spec. destruct (decide (q = p)) as [->|Hne].
    + by rewrite E, Z.pow2_bits_true.
    + rewrite Z.pow2_bits_false by done. apply andb_false_r.
Qed.

Definition clear (i : nat) (j : Z) : Z := j - j `mod` 2 ^ Z.of_nat i.

Lemma clear_testbit i j q : 0 <= q -> Z.testbit (clear i j) q = (Z.of_nat i <=? q) && Z.testbit j q.
Proof.
  intros Hq. replace (clear i j) with (Z.shiftl (Z.shiftr j (Z.of_nat i)) (Z.of_nat i)).
  - destruct (Z.leb_spec (Z.of_nat i) q); cbn [andb].
    + rewrite Z.shiftl_spec, Z.shiftr_spec by lia. f_equal. lia.
    + by rewrite Z.shiftl_spec_low by lia.
  - unfold clear. rewrite Z.shiftr_div_pow2, Z.shiftl_mul_pow2 by lia.
    pose proof (Z.div_mod j (2 ^ Z.of_nat i) ltac:(pose proof (Z.pow_pos_nonneg 2 (Z.of_nat i)); lia)). lia.
Qed.

Lemma above_clear i j : (i <= 48)%nat -> u64 j -> above i j = clear i j.
Proof.
  intros Hi Hj. unfold above, U64_MAX. rewrite Z.shiftl_1_l. apply Z.bits_inj'. intros q Hq. rewrite Z.land_spec, clear_testbit by done.
  replace (2 ^ 64 - 1 - (2 ^ Z.of_nat i - 1)) with (Z.shiftl (Z.ones (64 - Z.of_nat i)) (Z.of_nat i)).
  - destruct (Z.leb_spec (Z.of_nat i) q); cbn [andb].
    + rewrite Z.shiftl_spec by lia. destruct (Z_lt_le_dec q 64).
      * rewrite Z.ones_spec_low by lia. apply andb_true_r.
      * by rewrite (testbit_above 64 j) by (done || lia).
    + rewrite Z.shiftl_spec_low by lia. apply andb_false_r.
  - rewrite Z.shiftl_mul_pow2, Z.ones_equiv by lia. rewrite <- Z.sub_1_r, Z.mul_sub_distr_r, <- Z.pow_add_r by lia.
    replace (64 - Z.of_nat i + Z.of_nat i) with 64 by lia. lia.
Qed.

(** The place of a nonzero index is the lowest of its bits that is set. *)
Definition odd_at (m : Z) (i : nat) : Prop := Z.testbit m (Z.of_nat i) = true /\ forall q, 0 <= q < Z.of_nat i -> Z.testbit m q = false.

Lemma odd_at_unique m i j : odd_at m i -> odd_at m j -> i = j.
Proof.
  intros [H1 H2] [H3 H4]. destruct (Nat.lt_trichotomy i j) as [Hl|[?|Hl]]; [|done|].
  - rewrite H4 in H1 by lia. done.
  - rewrite H2 in H3 by lia. done.
Qed.

Lemma place_secret_spec m : in_width 48 m -> (place_secret m < 48)%nat /\ odd_at m (place_secret m) \/ m = 0 /\ place_secret m = 48%nat.
Proof.
  intros Hm. unfold place_secret.
  assert (Hfind : forall n k, match List.find (fun i => bit_set m (Z.of_nat i)) (seq k n) with
    | Some i => (k <= i < k + n)%nat /\ Z.testbit m (Z.of_nat i) = true /\ forall q, Z.of_nat k <= q < Z.of_nat i -> Z.testbit m q = false
    | None => forall q, Z.of_nat k <= q < Z.of_nat (k + n) -> Z.testbit m q = false end).
  { induction n as [|n IH]; intros k; cbn [seq List.find]; [lia|]. rewrite bit_set_testbit by lia. destruct (Z.testbit m (Z.of_nat k)) eqn:E.
    - split_and!; [lia|lia|done|lia].
    - specialize (IH (S k)). destruct (List.find _ _).
      + destruct IH as (H1 & H2 & H3). split_and!; [lia|lia|done|]. intros q Hq. destruct (decide (q = Z.of_nat k)) as [->|]; [done|apply H3; lia].
      + intros q Hq. destruct (decide (q = Z.of_nat k)) as [->|]; [done|apply IH; lia]. }
  specialize (Hfind 48%nat 0%nat). destruct (List.find _ _) as [i|].
  - left. destruct Hfind as (H1 & H2 & H3). split; [lia|]. split; [done|]. intros q Hq. apply H3. lia.
  - right. split; [|done]. apply Z.bits_inj'. intros q Hq. rewrite Z.testbit_0_l. destruct (Z_lt_le_dec q 48); [apply Hfind; lia|by apply (testbit_above 48)].
Qed.

Lemma odd_at_place m i : in_width 48 m -> (i < 48)%nat -> odd_at m i -> place_secret m = i.
Proof.
  intros Hm Hi Ho. destruct (place_secret_spec m Hm) as [[_ H1]|[-> _]]; [by eapply odd_at_unique|]. destruct Ho as [Ho _]. by rewrite Z.testbit_0_l in Ho.
Qed.

Lemma place_bound m : in_width 48 m -> (place_secret m <= 48)%nat.
Proof. intros Hm. destruct (place_secret_spec m Hm) as [[? _]|[_ ->]]; lia. Qed.

Lemma clear_place m : in_width 48 m -> clear (place_secret m) m = m.
Proof.
  intros Hm. destruct (place_secret_spec m Hm) as [[_ [_ Hl]]|[-> ->]]; [|done].
  apply Z.bits_inj'. intros q Hq. rewrite clear_testbit by done. destruct (Z.leb_spec (Z.of_nat (place_secret m)) q); [done|]. by rewrite Hl.
Qed.

(** In arithmetic: an odd multiple of a power of two. *)
Lemma odd_at_mul m i : 0 <= m -> odd_at m i -> exists a, m = (2 * a + 1) * 2 ^ Z.of_nat i.
Proof.
  intros Hm [H1 H2]. exists (Z.shiftr m (Z.of_nat i + 1)). replace ((_ + 1) * _) with (clear i m).
  - apply Z.bits_inj'. intros q Hq. rewrite clear_testbit by done. destruct (Z.leb_spec (Z.of_nat i) q); [done|by rewrite H2].
  - unfold clear. rewrite Z.shiftr_div_pow2, Z.pow_add_r, <- Z.div_div by lia. change (2 ^ 1) with 2.
    rewrite Z.testbit_true in H1 by lia. pose proof (Z.div_mod m (2 ^ Z.of_nat i) ltac:(pose proof (Z.pow_pos_nonneg 2 (Z.of_nat i)); lia)).
    pose proof (Z.div_mod (m `div` 2 ^ Z.of_nat i) 2 ltac:(lia)). nia.
Qed.

Lemma clear_odd j i : Z.testbit j (Z.of_nat i) = true -> odd_at (clear i j) i.
Proof.
  intros Hj. split; [by rewrite clear_testbit, Z.leb_refl by lia|]. intros q Hq. rewrite clear_testbit by lia. by destruct (Z.leb_spec (Z.of_nat i) q); [lia|].
Qed.

(** Two indices of one place below 48 are at least twice its weight apart. *)
Lemma place_spacing c m i : in_width 48 c -> in_width 48 m -> (i < 48)%nat -> place_secret c = i -> place_secret m = i -> c - 2 ^ Z.of_nat i < m -> c <= m.
Proof.
  intros Hc Hm Hi Ec Em Hlt. destruct (place_secret_spec c Hc) as [[_ Hoc]|[_ ?]]; [|lia]. destruct (place_secret_spec m Hm) as [[_ Hom]|[_ ?]]; [|lia].
  rewrite Ec in Hoc. rewrite Em in Hom. apply odd_at_mul in Hoc as [b ->]; [|apply Hc]. apply odd_at_mul in Hom as [a ->]; [|apply Hm].
  pose proof (Z.pow_pos_nonneg 2 (Z.of_nat i) ltac:(lia) ltac:(lia)) as Hk. clear -Hk Hlt. revert Hk Hlt. generalize (2 ^ Z.of_nat i). intros k Hk Hlt.
  assert (b <= a) by nia. nia.
Qed.

Lemma clear_bounds i j : 0 <= j -> 0 <= clear i j <= j.
Proof.
  intros Hj. unfold clear. pose proof (Z.mod_pos_bound j (2 ^ Z.of_nat i) ltac:(apply Z.pow_pos_nonneg; lia)).
  pose proof (Z.mod_le j (2 ^ Z.of_nat i) Hj ltac:(apply Z.pow_pos_nonneg; lia)). lia.
Qed.

Lemma clear_succ i j : clear i j = clear (S i) j + (if Z.testbit j (Z.of_nat i) then 2 ^ Z.of_nat i else 0).
Proof.
  unfold clear. rewrite Nat2Z.inj_succ, Z.pow_succ_r by lia. rewrite (Z.mul_comm 2), Z.rem_mul_r by (pose proof (Z.pow_pos_nonneg 2 (Z.of_nat i)); lia).
  pose proof (Z.testbit_spec' j (Z.of_nat i) ltac:(lia)) as E. destruct (Z.testbit j (Z.of_nat i)); cbn [Z.b2z] in E; rewrite <- E; lia.
Qed.

(** ** Deriving *)

Fixpoint derive_from (bits : nat) (idx : Z) (res : bytes) : bytes :=
  match bits with O => res | S b => derive_from b idx (derive_bit idx res (Z.of_nat b)) end.

Lemma derive_secret_from secret bits idx : derive_secret secret bits idx = derive_from bits idx secret.
Proof.
  unfold derive_secret. revert secret. induction bits as [|b IH]; intros secret; [done|]. cbn [seq foldl derive_from].
  rewrite <- (IH (derive_bit idx secret (Z.of_nat b))). rewrite <- fmap_S_seq, foldl_fmap.
  replace (Z.of_nat (S b) - 1 - Z.of_nat 0) with (Z.of_nat b) by lia.
  clear IH. generalize (derive_bit idx secret (Z.of_nat b)). induction (seq 0 b) as [|i l IHi]; intros r; [done|]. cbn [foldl].
  replace (Z.of_nat (S b) - 1 - Z.of_nat (S i)) with (Z.of_nat b - 1 - Z.of_nat i) by lia. apply IHi.
Qed.

Lemma build_commitment_secret_from seed idx : build_commitment_secret seed idx = derive_from 48 idx seed.
Proof. rewrite <- derive_secret_from. reflexivity. Qed.

Lemma derive_from_clear bits idx res : (forall q, 0 <= q < Z.of_nat bits -> Z.testbit idx q = false) -> derive_from bits idx res = res.
Proof.
  induction bits as [|b IH]; intros Hq; [done|]. cbn [derive_from]. unfold derive_bit. rewrite bit_set_testbit, Hq by lia. apply IH. intros q ?. apply Hq. lia.
Qed.

(** Deriving can stop at any place and go on from there. *)
Lemma derive_from_split i p m j res :
  (i <= p)%nat -> (forall q, Z.of_nat i <= q < Z.of_nat p -> Z.testbit m q = Z.testbit j q) -> (forall q, 0 <= q < Z.of_nat i -> Z.testbit m q = false) ->
  derive_from p j res = derive_from i j (derive_from p m res).
Proof.
  intros Hip. revert res. induction Hip as [|p Hip IH]; intros res Hh Hl.
  - by rewrite (derive_from_clear i m).
  - cbn [derive_from]. rewrite <- IH; [|intros; apply Hh; lia|done]. unfold derive_bit. by rewrite !bit_set_testbit, Hh by lia.
Qed.

(** ** What the structure remembers *)

Lemma in_width_48 n j : 0 <= n -> n <= j < 2 ^ 48 -> in_width 48 j.
Proof. unfold in_width. lia. Qed.

(** The entry at place [i] after the secrets [f] of all indices from [n] on: the newest one
    that belongs there, if any. *)
Definition holds_newest (f : Z -> bytes) (n : Z) (i : nat) (e : bytes * Z) : Prop :=
  (n <= e.2 < 2 ^ 48 /\ place_secret e.2 = i /\ e.1 = f e.2 /\ forall m, n <= m < 2 ^ 48 -> place_secret m = i -> e.2 <= m) \/
  (e.2 = 2 ^ 48 /\ forall m, n <= m < 2 ^ 48 -> place_secret m <> i).

(** BOLT 3: a secret is derived from any earlier-revoked one that covers it. *)
Definition agrees (f : Z -> bytes) (n : Z) : Prop :=
  forall m j, n <= m -> 0 <= j < 2 ^ 48 -> 0 <= m < 2 ^ 48 -> clear (place_secret m) j = m -> derive_from (place_secret m) j (f m) = f j.

Definition remembers (f : Z -> bytes) (n : Z) (self : CounterpartyCommitmentSecrets) : Prop :=
  length (old_secrets self) = 49%nat /\ agrees f n /\ forall i e, old_secrets self !! i = Some e -> holds_newest f n i e.

Lemma new_remembers f : remembers f (2 ^ 48) new_secrets.
Proof.
  split; [done|]. split; [intros m j; lia|]. intros i e He. apply lookup_replicate in He as [-> _]. right. split; [done|lia].
Qed.

(** The last entry stored is the one with the smallest index. *)
Lemma min_seen_fold l acc : let r := foldl (fun min (e : bytes * Z) => if e.2 <? min then e.2 else min) acc l in
  r <= acc /\ (forall e, e ∈ l -> r <= e.2) /\ (r = acc \/ exists e, e ∈ l /\ r = e.2).
Proof.
  revert acc. induction l as [|e l IH]; intros acc; cbn [foldl].
  - split_and!; [lia|by intros e He%elem_of_nil|by left].
  - destruct (IH (if e.2 <? acc then e.2 else acc)) as (H1 & H2 & H3). destruct (Z.ltb_spec e.2 acc).
    + split_and!; [lia| |].
      * intros x [->|Hx]%elem_of_cons; [lia|by apply H2].
      * right. destruct H3 as [->|(x & Hx & ->)]; eexists; (split; [|done]); [left|by right].
    + split_and!; [lia| |].
      * intros x [->|Hx]%elem_of_cons; [lia|by apply H2].
      * destruct H3 as [->|(x & Hx & ->)]; [by left|right]. eexists. split; [by right|done].
Qed.

Lemma remembers_min f n self : 0 <= n <= 2 ^ 48 -> remembers f n self -> get_min_seen_secret self = n.
Proof.
  intros Hn (Hl & _ & He). pose proof (min_seen_fold (old_secrets self) (Z.shiftl 1 48)) as (H1 & H2 & H3).
  fold (get_min_seen_secret self) in *. change (Z.shiftl 1 48) with (2 ^ 48) in *.
  assert (Hge : n <= get_min_seen_secret self).
  { destruct H3 as [->|(e & Hin & ->)]; [lia|]. apply list_elem_of_lookup in Hin as [i Hi]. destruct (He i e Hi) as [[? _]|[-> _]]; lia. }
  destruct (decide (n = 2 ^ 48)) as [->|Hne]; [lia|]. assert (Hw : in_width 48 n) by (unfold in_width; lia).
  destruct (lookup_lt_is_Some_2 (old_secrets self) (place_secret n)) as [e Hi]; [pose proof (place_bound n Hw); lia|].
  pose proof (H2 e ltac:(by eapply list_elem_of_lookup_2)). destruct (He _ _ Hi) as [(_ & _ & _ & Hm)|[_ Hno]].
  - specialize (Hm n ltac:(lia) eq_refl). lia.
  - by destruct (Hno n ltac:(lia)).
Qed.

(** *** Looking up *)

Lemma find_secret_some i l idx s :
  find_secret i l idx = Some s -> exists k e, l !! k = Some e /\ above (i + k) idx = e.2 /\ s = derive_secret e.1 (i + k) idx.
Proof.
  revert i. induction l as [|[s0 o] l IH]; intros i E; cbn in E; [done|]. destruct (Z.eqb_spec (above i idx) o).
  - simplify_eq. exists 0%nat, (s0, above i idx). by rewrite Nat.add_0_r.
  - apply IH in E as (k & e & Hk & Ha & ->). exists (S k), e. by rewrite Nat.add_succ_r.
Qed.

Lemma find_secret_none i l idx k e : find_secret i l idx = None -> l !! k = Some e -> above (i + k) idx <> e.2.
Proof.
  revert i k. induction l as [|[s0 o] l IH]; intros i k E Hk; cbn in E; [done|]. destruct (Z.eqb_spec (above i idx) o); [done|].
  destruct k as [|k]; cbn in Hk; [simplify_eq; by rewrite Nat.add_0_r|]. rewrite Nat.add_succ_r. by apply (IH (S i)).
Qed.

(** Of the prefixes of [j] from [n] on, the shortest is stored. *)
Lemma shortest_prefix n j : 0 <= n <= j -> j < 2 ^ 48 ->
  exists i, (i <= 48)%nat /\ n <= clear i j /\ place_secret (clear i j) = i /\ forall m, n <= m < 2 ^ 48 -> place_secret m = i -> clear i j <= m.
Proof.
  intros Hn Hj.
  assert (Hex : forall d, (d <= 48)%nat -> n <= clear (48 - d) j -> exists i, (i <= 48)%nat /\ n <= clear i j /\ ((i < 48)%nat -> clear (S i) j < n)).
  { induction d as [|d IH]; intros Hd H1.
    - exists 48%nat. split_and!; [lia|by rewrite Nat.sub_0_r in H1|lia].
    - destruct (Z_lt_le_dec (clear (48 - d) j) n) as [Hlt|Hge]; [|apply IH; [lia|done]].
      exists (48 - S d)%nat. split_and!; [lia|done|]. intros _. by replace (S (48 - S d)) with (48 - d)%nat by lia. }
  destruct (Hex 48%nat) as (i & Hi & H1 & H2); [lia|unfold clear; cbn; rewrite Z.mod_1_r; lia|]. exists i.
  pose proof (clear_bounds i j ltac:(lia)) as Hc. assert (Hw : in_width 48 (clear i j)) by (unfold in_width; lia). split_and!; [done|done| |].
  - destruct (decide (i = 48%nat)) as [->|Hne].
    + unfold clear. change (Z.of_nat 48) with 48. rewrite Z.mod_small, Z.sub_diag by lia. reflexivity.
    + apply odd_at_place; [done|lia|]. apply clear_odd. pose proof (clear_succ i j). destruct (Z.testbit j (Z.of_nat i)); [done|]. specialize (H2 ltac:(lia)). lia.
  - intros m Hm Hp. destruct (decide (i = 48%nat)) as [->|Hne].
    { destruct (place_secret_spec m ltac:(unfold in_width; lia)) as [[? _]|[-> _]]; [lia|]. unfold clear. change (Z.of_nat 48) with 48. rewrite Z.mod_small by lia. lia. }
    pose proof (clear_succ i j) as Hs. specialize (H2 ltac:(lia)). destruct (Z.testbit j (Z.of_nat i)) eqn:Et; [|lia].
    apply (place_spacing _ m i); [done|unfold in_width; lia|lia| |done|lia]. by apply odd_at_place; [|lia|apply clear_odd].
Qed.

Lemma remembers_lookup f n self j : 0 <= n -> n <= j < 2 ^ 48 -> remembers f n self -> get_secret j self = Ret (Some (f j)).
Proof.
  intros Hn Hj (Hl & Ha & He). unfold get_secret. assert (Hu : u64 j) by (unfold in_width; lia).
  destruct (find_secret 0 (old_secrets self) j) as [s|] eqn:E.
  - apply find_secret_some in E as (k & e & Hk & Hab & ->). cbn [Nat.add] in *. pose proof (lookup_lt_Some _ _ _ Hk) as Hlt.
    rewrite above_clear in Hab by (done || lia). do 2 f_equal. rewrite derive_secret_from. destruct (He k e Hk) as [(H1 & H2 & -> & _)|[H1 _]].
    + rewrite <- H2. apply Ha; [lia|lia|lia|]. by rewrite H2, Hab.
    + pose proof (clear_bounds k j ltac:(lia)). lia.
  - exfalso. destruct (shortest_prefix n j) as (i & Hi & H1 & H2 & H3); [lia|lia|]. pose proof (clear_bounds i j ltac:(lia)).
    destruct (lookup_lt_is_Some_2 (old_secrets self) i) as [e Hk]; [lia|]. pose proof (find_secret_none _ _ _ _ _ E Hk) as Hno. cbn [Nat.add] in Hno.
    rewrite above_clear in Hno by (done || lia). destruct (He i e Hk) as [(H4 & H5 & _ & H6)|[_ H4]].
    + specialize (H6 (clear i j) ltac:(lia) H2). specialize (H3 e.2 ltac:(lia) H5). lia.
    + by destruct (H4 (clear i j) ltac:(lia)).
Qed.

Lemma remembers_absent f n self j : 0 <= j < n -> n <= 2 ^ 48 -> remembers f n self -> get_secret j self = Ret None.
Proof.
  intros Hj Hn Hr. pose proof (remembers_min f n self ltac:(lia) Hr) as Hm. destruct Hr as (Hl & _ & He). unfold get_secret.
  destruct (find_secret 0 (old_secrets self) j) as [s|] eqn:E.
  - exfalso. apply find_secret_some in E as (k & e & Hk & Hab & _). cbn [Nat.add] in *. pose proof (lookup_lt_Some _ _ _ Hk).
    rewrite above_clear in Hab by (unfold in_width; lia). pose proof (clear_bounds k j ltac:(lia)). destruct (He k e Hk) as [[? _]|[? _]]; lia.
  - rewrite Hm. by destruct (Z.ltb_spec j n); [|lia].
Qed.

(** *** Storing *)

(** The secret just below is checked against every one it covers. *)
Lemma covered_bucket n j p : 0 < n <= 2 ^ 48 -> place_secret (n - 1) = p -> 0 <= j < 2 ^ 48 -> clear p j = n - 1 -> j <> n - 1 ->
  exists i, (i < p)%nat /\ clear i j = n - 1 + 2 ^ Z.of_nat i /\ place_secret (clear i j) = i /\
    (forall m, n <= m < 2 ^ 48 -> place_secret m = i -> clear i j <= m) /\
    (forall q, Z.of_nat i <= q < Z.of_nat p -> Z.testbit (clear i j) q = Z.testbit j q) /\ (forall q, 0 <= q < Z.of_nat i -> Z.testbit (clear i j) q = false).
Proof.
  intros Hn Hp Hj Hc Hne.
  assert (Hex : forall d, (d <= p)%nat -> clear (p - d) j <> n - 1 -> exists i, (i < p)%nat /\ Z.testbit j (Z.of_nat i) = true /\ clear (S i) j = n - 1).
  { induction d as [|d IH]; intros Hd H1; [by rewrite Nat.sub_0_r in H1|].
    destruct (decide (clear (p - d) j = n - 1)) as [E|]; [|apply IH; [lia|done]]. exists (p - S d)%nat. pose proof (clear_succ (p - S d) j) as Hs.
    replace (S (p - S d)) with (p - d)%nat in * by lia. rewrite E in Hs. destruct (Z.testbit j (Z.of_nat (p - S d))); [split_and!; [lia|done|done]|lia]. }
  destruct (Hex p) as (i & Hi & Ht & Hs); [lia|rewrite Nat.sub_diag; unfold clear; cbn; rewrite Z.mod_1_r; lia|]. exists i.
  pose proof (clear_succ i j) as Hs'. rewrite Ht, Hs in Hs'. pose proof (place_bound (n - 1) ltac:(unfold in_width; lia)). pose proof (clear_bounds i j ltac:(lia)).
  assert (Hpl : place_secret (clear i j) = i) by (apply odd_at_place; [unfold in_width; lia|lia|by apply clear_odd]).
  split_and!; [done|done|done| | |].
  - intros m Hm Hpm. apply (place_spacing _ m i); [unfold in_width; lia|unfold in_width; lia|lia|done|done|lia].
  - intros q Hq. rewrite clear_testbit by lia. by destruct (Z.leb_spec (Z.of_nat i) q); [|lia].
  - intros q Hq. rewrite clear_testbit by lia. by destruct (Z.leb_spec (Z.of_nat i) q); [lia|].
Qed.

Lemma older_agree_returns secret pos olds places : Forall (fun i => i < length olds)%nat places ->
  exists b, older_agree secret pos olds places = Ret b /\ (b = true <-> forall i e, i ∈ places -> olds !! i = Some e -> derive_secret secret pos e.2 = e.1).
Proof.
  induction 1 as [|i places Hi _ IH]; cbn [older_agree].
  - exists true. split; [done|]. split; [|done]. by intros _ i e He%elem_of_nil.
  - destruct (lookup_lt_is_Some_2 olds i Hi) as [e He]. rewrite He. cbn [unwrap mbind outcome_bind]. case_bool_decide as Hd.
    + destruct IH as (b & -> & Hb). exists b. split; [done|]. rewrite Hb. split.
      * intros H1 k x [->|Hk]%elem_of_cons Hx; [by simplify_eq|by eapply H1].
      * intros H1 k x Hk Hx. eapply H1; [by right|done].
    + exists false. split; [done|]. split; [done|]. intros H1. destruct Hd. eapply H1; [left|done].
Qed.

(** The two ways a call ends. *)
Lemma provide_cases f n self : 0 < n <= 2 ^ 48 -> remembers f n self ->
  let pos := place_secret (n - 1) in let secret := f (n - 1) in
  (forall i e, (i < pos)%nat -> old_secrets self !! i = Some e -> derive_secret secret pos e.2 = e.1) /\
    provide_secret (n - 1) secret self = (Ret (Ok tt), mkSecrets (<[pos := (secret, n - 1)]> (old_secrets self))) \/
  ~ (forall i e, (i < pos)%nat -> old_secrets self !! i = Some e -> derive_secret secret pos e.2 = e.1) /\
    provide_secret (n - 1) secret self = (Ret (Err tt), self).
Proof.
  intros Hn Hr pos secret. pose proof (remembers_min f n self ltac:(lia) Hr) as Hmin. destruct Hr as (Hl & _ & _).
  pose proof (place_bound (n - 1) ltac:(unfold in_width; lia)) as Hpos. unfold provide_secret, mbind, prog_bind, get, lift, put, mret, prog_ret. cbn beta zeta.
  fold pos. destruct (older_agree_returns secret pos (old_secrets self) (seq 0 pos)) as (b & -> & Hb).
  { apply Forall_forall. intros i Hi%elem_of_seq. subst pos. lia. }
  assert (Hiff : (forall i e, i ∈ seq 0 pos -> old_secrets self !! i = Some e -> derive_secret secret pos e.2 = e.1) <->
    (forall i e, (i < pos)%nat -> old_secrets self !! i = Some e -> derive_secret secret pos e.2 = e.1)).
  { split; intros H1 i e Hi; apply H1; [apply elem_of_seq; lia|apply elem_of_seq in Hi; lia]. }
  rewrite Hiff in Hb. destruct b; cbn [negb].
  - left. split; [by apply Hb|]. rewrite Hmin. by destruct (Z.leb_spec n (n - 1)); [lia|].
  - right. split; [|done]. intros H1. by apply Hb in H1.
Qed.

(** An accepted secret is remembered, with all those before it. *)
Lemma provide_remembers f n self :
  0 < n <= 2 ^ 48 -> remembers f n self ->
  (forall i e, (i < place_secret (n - 1))%nat -> old_secrets self !! i = Some e -> derive_secret (f (n - 1)) (place_secret (n - 1)) e.2 = e.1) ->
  remembers f (n - 1) (mkSecrets (<[place_secret (n - 1) := (f (n - 1), n - 1)]> (old_secrets self))).
Proof.
  intros Hn (Hl & Ha & He) Hok. set (p := place_secret (n - 1)) in *. assert (Hw : in_width 48 (n - 1)) by (unfold in_width; lia).
  split; [cbn; by rewrite length_insert|]. split.
  - intros m j Hm Hj Hm' Hc. destruct (decide (m = n - 1)) as [->|]; [|apply Ha; lia || done]. fold p in Hc |- *.
    destruct (decide (j = n - 1)) as [->|Hne].
    { apply derive_from_clear. intros q Hq. destruct (place_secret_spec (n - 1) Hw) as [[_ [_ Hz]]|[-> _]]; [by apply Hz|by rewrite Z.testbit_0_l]. }
    destruct (covered_bucket n j p) as (i & Hi & Ei & Hpl & Hmin & Hh & Hlo); try done. pose proof (clear_bounds i j ltac:(lia)).
    pose proof (Z.pow_pos_nonneg 2 (Z.of_nat i) ltac:(lia) ltac:(lia)). pose proof (place_bound (n - 1) Hw) as Hpb. fold p in Hpb.
    destruct (lookup_lt_is_Some_2 (old_secrets self) i) as [e Hk]; [lia|]. specialize (Hok i e Hi Hk).
    destruct (He i e Hk) as [(He1 & He2 & He3 & He4)|[_ He1]]; [|by destruct (He1 (clear i j) ltac:(lia))].
    assert (Ee : e.2 = clear i j) by (specialize (Hmin e.2 ltac:(lia) He2); specialize (He4 (clear i j) ltac:(lia) Hpl); lia).
    rewrite derive_secret_from, He3, Ee in Hok. rewrite (derive_from_split i p (clear i j) j) by (done || lia). rewrite Hok.
    rewrite <- Hpl at 1. apply Ha; [lia|lia|lia|]. by rewrite Hpl.
  - intros i e Hi. cbn [old_secrets] in Hi. destruct (decide (i = p)) as [->|Hne].
    + rewrite list_lookup_insert_eq in Hi by (pose proof (place_bound (n - 1) Hw); lia). simplify_eq. left. cbn [fst snd]. split_and!; [lia|lia|done|done|lia].
    + rewrite list_lookup_insert_ne in Hi by done. destruct (He i e Hi) as [(H1 & H2 & H3 & H4)|[H1 H2]]; [left|right].
      * split_and!; [lia|lia|done|done|]. intros m Hm Hp. apply H4; [|done]. destruct (decide (m = n - 1)) as [->|]; [done|lia].
      * split; [done|]. intros m Hm Hp. destruct (decide (m = n - 1)) as [->|]; [done|]. by apply (H2 m); [lia|].
Qed.

(** ** The calls of a channel *)

(** All the secrets from index [n] on have been revealed, as [f], and accepted. *)
Inductive received (f : Z -> bytes) : Z -> CounterpartyCommitmentSecrets -> Prop :=
| received_none : received f (2 ^ 48) new_secrets
| received_next n self self' :
    0 < n -> received f n self -> provide_secret (n - 1) (f (n - 1)) self = (Ret (Ok tt), self') -> received f (n - 1) self'.

Lemma received_remembers f n self : received f n self -> 0 <= n <= 2 ^ 48 /\ remembers f n self.
Proof.
  induction 1 as [|n self self' Hn _ [Hb IH] E]; [split; [lia|apply new_remembers]|]. split; [lia|].
  destruct (provide_cases f n self ltac:(lia) IH) as [[Hok Ep]|[_ Ep]]; rewrite Ep in E; simplify_eq. by apply provide_remembers; [lia|..].
Qed.

(** An honest seed is never refused: the check of [provide_secret] has no false alarms. *)
Lemma build_agrees seed n : agrees (build_commitment_secret seed) n.
Proof.
  intros m j _ Hj Hm Hc. rewrite !build_commitment_secret_from. symmetry. pose proof (place_bound m ltac:(unfold in_width; lia)).
  apply derive_from_split; [done| |]; intros q Hq; rewrite <- Hc, clear_testbit by lia.
  - by destruct (Z.leb_spec (Z.of_nat (place_secret m)) q); [|lia].
  - by destruct (Z.leb_spec (Z.of_nat (place_secret m)) q); [lia|].
Qed.

(** The places below that of an index hold the indices just above it. *)
Lemma below_place n i : 0 <= n < 2 ^ 48 -> (i < place_secret n)%nat ->
  let j := n + 2 ^ Z.of_nat i in j < 2 ^ 48 /\ clear (place_secret n) j = n /\ place_secret j = i.
Proof.
  intros Hn Hi j. assert (Hw : in_width 48 n) by (unfold in_width; lia). pose proof (place_bound n Hw) as Hp. pose proof (clear_place n Hw) as Hc.
  set (p := place_secret n) in *.
  assert (Hbit : forall q, 0 <= q < Z.of_nat p -> Z.testbit n q = false).
  { intros q Hq. rewrite <- Hc, clear_testbit by lia. by destruct (Z.leb_spec (Z.of_nat p) q); [lia|]. }
  assert (Ej : j = Z.lor n (2 ^ Z.of_nat i)).
  { apply Z.add_nocarry_lor, Z.bits_inj'. intros q Hq. rewrite Z.land_spec, Z.pow2_bits_eqb, Z.testbit_0_l by lia.
    destruct (Z.eqb_spec (Z.of_nat i) q) as [<-|]; [rewrite Hbit by lia|rewrite andb_false_r]; done. }
  assert (Hj : forall q, 0 <= q -> Z.testbit j q = Z.testbit n q || (Z.of_nat i =? q)) by (intros q Hq; by rewrite Ej, Z.lor_spec, Z.pow2_bits_eqb by lia).
  assert (Hjw : in_width 48 j).
  { rewrite Ej. apply lor_in_width; [lia|done|]. pose proof (Z.pow_pos_nonneg 2 (Z.of_nat i)). split; [lia|]. apply Z.pow_lt_mono_r; lia. }
  split_and!; [apply Hjw| |].
  - apply Z.bits_inj'. intros q Hq. rewrite clear_testbit, Hj by done. destruct (Z.leb_spec (Z.of_nat p) q); cbn [andb].
    + destruct (Z.eqb_spec (Z.of_nat i) q); [lia|apply orb_false_r].
    + by rewrite Hbit by lia.
  - apply odd_at_place; [done|lia|]. split; [by rewrite Hj, Z.eqb_refl, orb_true_r by lia|]. intros q Hq. rewrite Hj, Hbit by lia. by destruct (Z.eqb_spec (Z.of_nat i) q); [lia|].
Qed.

(** What is stored in those places. *)
Lemma stored_below f n self i e : 0 < n <= 2 ^ 48 -> remembers f n self -> (i < place_secret (n - 1))%nat -> old_secrets self !! i = Some e ->
  n - 1 < e.2 < 2 ^ 48 /\ clear (place_secret (n - 1)) e.2 = n - 1 /\ place_secret e.2 = i /\ e.1 = f e.2.
Proof.
  intros Hn (_ & _ & Hb) Hi He. destruct (below_place (n - 1) i) as (H1 & H2 & H3); [lia|done|]. set (j := n - 1 + 2 ^ Z.of_nat i) in *.
  pose proof (Z.pow_pos_nonneg 2 (Z.of_nat i) ltac:(lia) ltac:(lia)) as Hk. pose proof (place_bound (n - 1) ltac:(unfold in_width; lia)) as Hp.
  destruct (Hb i e He) as [(H4 & H5 & H6 & H7)|[_ H4]]; [|by destruct (H4 j ltac:(lia))].
  assert (e.2 = j) as Ej.
  { specialize (H7 j ltac:(lia) H3). pose proof (place_spacing j e.2 i ltac:(unfold in_width; lia) ltac:(unfold in_width; lia) ltac:(lia) H3 H5). lia. }
  rewrite Ej in *. by split_and!; [lia|lia|..].
Qed.

Lemma built_accepted seed n self : 0 < n <= 2 ^ 48 -> remembers (build_commitment_secret seed) n self ->
  exists self', provide_secret (n - 1) (build_commitment_secret seed (n - 1)) self = (Ret (Ok tt), self').
Proof.
  intros Hn Hr. destruct (provide_cases _ n self ltac:(lia) Hr) as [[_ Ep]|[Hno _]]; [by eexists|]. destruct Hno. intros i e Hi He.
  destruct (stored_below (build_commitment_secret seed) n self i e) as (H1 & H2 & _ & ->); [done..|]. rewrite derive_secret_from. apply (build_agrees seed (n - 1)); lia || done.
Qed.

(** The arrays of the source. *)
Lemma remembers_arrays f n self : (forall j, array_ok 32 (f j)) -> received f n self -> Forall (fun e => array_ok 32 e.1 /\ u64 e.2) (old_secrets self).
Proof.
  intros Hf. induction 1 as [|n self self' Hn Hr IH E]; [apply Forall_replicate; split; [split; [done|apply zeros_u8]|done]|].
  apply received_remembers in Hr as [Hb Hr]. destruct (provide_cases f n self ltac:(lia) Hr) as [[_ Ep]|[_ Ep]]; rewrite Ep in E; simplify_eq.
  cbn [old_secrets]. apply Forall_insert; [done|]. split; [apply Hf|]. unfold in_width. cbn [snd]. lia.
Qed.

(** ** Theorems *)

(** C15: whatever a counterparty reveals, the secrets that were accepted can all be looked up, unchanged, although only 49 are stored; those not yet revealed are absent, and the assertion of the lookup never fails. *)
Theorem revealed_secrets_found (f : Z -> bytes) (n : Z) (self : CounterpartyCommitmentSecrets) :
  received f n self -> forall j, 0 <= j < 2 ^ 48 -> get_secret j self = Ret (if n <=? j then Some (f j) else None).
Proof.
  intros Hr j Hj. apply received_remembers in Hr as [Hn Hr]. destruct (Z.leb_spec n j); [by eapply remembers_lookup; [..|done]; lia|by eapply remembers_absent; [..|done]; lia].
Qed.

(** A revealed secret is accepted exactly when every secret revealed before it that BOLT 3 derives from it is the one that was revealed; otherwise an error is returned and nothing changes. *)
Theorem provide_secret_checks (f : Z -> bytes) (n : Z) (self : CounterpartyCommitmentSecrets) :
  0 < n -> received f n self ->
  let pos := place_secret (n - 1) in
  exists r self', provide_secret (n - 1) (f (n - 1)) self = (Ret r, self') /\ (is_err r = true -> self' = self) /\
    (r = Ok tt <-> forall j, 0 <= j < 2 ^ 48 -> clear pos j = n - 1 -> j <> n - 1 -> derive_secret (f (n - 1)) pos j = f j).
Proof.
  intros Hn0 Hr pos. apply received_remembers in Hr as [Hn Hr]. destruct (provide_cases f n self ltac:(lia) Hr) as [[Hok E]|[Hno E]]; eexists _, _; (split; [exact E|]).
  - split; [done|]. split; [intros _|done]. intros j Hj Hc Hne. apply provide_remembers in Hok as (_ & Ha & _); [|lia|done].
    rewrite derive_secret_from. by apply Ha; [lia|lia|lia|].
  - split; [done|]. split; [done|]. intros Hall. destruct Hno. intros i e Hi He.
    destruct (stored_below f n self i e) as (H1 & H2 & H3 & ->); [lia|done|done|done|]. apply Hall; [lia|done|lia].
Qed.

(** The secrets built from one seed are accepted, down to index 0. *)
Theorem built_secrets_accepted (seed : bytes) (n : Z) :
  0 <= n <= 2 ^ 48 -> exists self, received (build_commitment_secret seed) n self.
Proof.
  intros Hn. assert (Hex : forall d, (d <= Z.to_nat (2 ^ 48))%nat -> exists self, received (build_commitment_secret seed) (2 ^ 48 - Z.of_nat d) self).
  { intros d. induction d as [|d IH]; intros Hd; [exists new_secrets; constructor|]. destruct IH as [self Hr]; [lia|].
    replace (2 ^ 48 - Z.of_nat (S d)) with (2 ^ 48 - Z.of_nat d - 1) by lia. set (m := 2 ^ 48 - Z.of_nat d) in *.
    destruct (built_accepted seed m self) as [self' E]; [lia|by apply received_remembers|]. eexists. eapply received_next; [|exact Hr|exact E]. lia. }
  replace n with (2 ^ 48 - Z.of_nat (Z.to_nat (2 ^ 48 - n))) by lia. apply Hex. lia.
Qed.

(** The whole structure is written and read back. *)
Theorem secrets_roundtrip (f : Z -> bytes) (n : Z) (self : CounterpartyCommitmentSecrets) (rest : bytes) :
  (forall j, array_ok 32 (f j)) -> received f n self -> run (c_read secretsc) (encode secretsc self ++ rest) = (Ret (Ok self), rest).
Proof.
  intros Hf Hr. pose proof (remembers_arrays f n self Hf Hr) as Ha. apply received_remembers in Hr as [_ (Hl & _)]. open_codec.
  rewrite <- Hl, (run_bind_Ok _ _ _ _ _ (run_read_n (pairc (arrayc 32) u64c) _ (old_secrets self) _ Ha)).
  rewrite (run_bind_Ok _ _ _ _ _ (read_write_tlv_fields [] [] tt rest ltac:(done) ltac:(by constructor) ltac:(done) ltac:(by constructor) ltac:(by constructor))).
  rewrite run_ret. by destruct self.
Qed.

End Source.

(** ** A concrete exchange *)

(** A digest that is none, so that the cases evaluate. *)
Definition toy_sha : Sha256 := {| Sha256_hash m := (fun b => (5 * b + 1) `mod` 256) <$> m |}.
Definition toy_seed : bytes := replicate 32 7.
Definition toy_secret (idx : Z) : bytes := @build_commitment_secret toy_sha toy_seed idx.

(** The first [k] secrets, as they are revealed. *)
Fixpoint reveal (f : Z -> bytes) (k : nat) : outcome (result unit unit) * CounterpartyCommitmentSecrets :=
  match k with
  | O => (Ret (Ok tt), new_secrets)
  | S k' => match reveal f k' with
            | (Ret (Ok tt), self) => @provide_secret toy_sha (2 ^ 48 - Z.of_nat k) (f (2 ^ 48 - Z.of_nat k)) self
            | r => r
            end
  end.

Lemma reveal_received f k self : (k <= Z.to_nat (2 ^ 48))%nat -> reveal f k = (Ret (Ok tt), self) -> @received toy_sha f (2 ^ 48 - Z.of_nat k) self.
Proof.
  revert self. induction k as [|k IH]; intros self Hk E; cbn [reveal] in E; [injection E as <-; constructor|].
  destruct (reveal f k) as [[[[]|]| |] self0]; simplify_eq. replace (2 ^ 48 - Z.of_nat (S k)) with (2 ^ 48 - Z.of_nat k - 1) in * by lia.
  eapply received_next; [lia|apply IH; [lia|done]|exact E].
Qed.

Definition seen9 : CounterpartyCommitmentSecrets := (reveal toy_secret 9).2.
Lemma seen9_received : @received toy_sha toy_secret (2 ^ 48 - 9) seen9.
Proof. apply (reveal_received toy_secret 9); [lia|]. vm_compute. reflexivity. Qed.

Lemma revealed_secrets_found_witness :
  @received toy_sha toy_secret (2 ^ 48 - 9) seen9 /\
  @get_secret toy_sha (2 ^ 48 - 6) seen9 = Ret (Some (toy_secret (2 ^ 48 - 6))) /\ @get_secret toy_sha (2 ^ 48 - 10) seen9 = Ret None.
Proof.
  split; [exact seen9_received|]. split.
  - exact (@revealed_secrets_found toy_sha toy_secret (2 ^ 48 - 9) seen9 seen9_received (2 ^ 48 - 6) ltac:(lia)).
  - exact (@revealed_secrets_found toy_sha toy_secret (2 ^ 48 - 9) seen9 seen9_received (2 ^ 48 - 10) ltac:(lia)).
Defined.

(** Secrets that have nothing to do with each other: index [2^48 - 1] is odd and accepted, the
    next is not. *)
Definition wild_secret (idx : Z) : bytes := replicate 32 (idx `mod` 256).
Definition seen1 : CounterpartyCommitmentSecrets := (reveal wild_secret 1).2.

Lemma provide_secret_checks_witness :
  0 < 2 ^ 48 - 1 /\ (reveal wild_secret 1).1 = Ret (Ok tt) /\ reveal wild_secret 2 = (Ret (Err tt), seen1) /\
  ~ forall j, 0 <= j < 2 ^ 48 -> clear (place_secret (2 ^ 48 - 1 - 1)) j = 2 ^ 48 - 1 - 1 -> j <> 2 ^ 48 - 1 - 1 ->
      @derive_secret toy_sha (wild_secret (2 ^ 48 - 1 - 1)) (place_secret (2 ^ 48 - 1 - 1)) j = wild_secret j.
Proof.
  assert (H1 : reveal wild_secret 1 = (Ret (Ok tt), seen1)) by reflexivity.
  assert (E2 : reveal wild_secret 2 = (Ret (Err tt), seen1)) by (vm_compute; reflexivity).
  split; [lia|]. split; [by rewrite H1|]. split; [exact E2|].
  destruct (@provide_secret_checks toy_sha wild_secret (2 ^ 48 - 1) seen1 ltac:(lia) (reveal_received wild_secret 1 seen1 ltac:(lia) H1)) as (r & self' & E & _ & Hiff).
  intros Hall. apply Hiff in Hall. rewrite Hall in E. vm_compute in E. discriminate E.
Defined.

Lemma built_secrets_accepted_witness : 0 <= 2 ^ 48 - 9 <= 2 ^ 48 /\ exists self, @received toy_sha toy_secret (2 ^ 48 - 9) self.
Proof. split; [lia|]. exact (@built_secrets_accepted toy_sha toy_seed (2 ^ 48 - 9) ltac:(lia)). Defined.
