(* ===== verification/Transactions.v ===== *)
(** * Bitcoin transactions: rust-lightning/lightning/src/util/transaction_utils.rs, chain/transaction.rs

    The transaction types of the bitcoin crate as data, the unstable sort of the standard
    library with what it promises, and the functions of transaction_utils.rs. *)

From S2P Require Import Prelude Text Bytes Stream Ser SerLaws Msgs.

Local Open Scope Z_scope.

(** ** Types of the bitcoin crate *)

Record BitcoinOutPoint := mkVout { bo_txid : bytes; bo_vout : Z }.
Record TxIn := mkTxIn { previous_output : BitcoinOutPoint; script_sig : bytes; sequence : Z; witness : list bytes }.
Record TxOut := mkTxOut { script_pubkey : bytes; out_value : Z }.
Record Transaction := mkTransaction { version : Z; lock_time : Z; input : list TxIn; output : list TxOut }.

#[global] Instance BitcoinOutPoint_eq_dec : EqDecision BitcoinOutPoint.
Proof. solve_decision. Defined.
#[global] Instance TxIn_eq_dec : EqDecision TxIn.
Proof. solve_decision. Defined.
#[global] Instance TxOut_eq_dec : EqDecision TxOut.
Proof. solve_decision. Defined.
#[global] Instance Transaction_eq_dec : EqDecision Transaction.
Proof. solve_decision. Defined.

(** ** chain/transaction.rs *)

Record OutPoint := mkOutPoint { op_txid : bytes; op_index : Z }.

Definition to_channel_id (self : OutPoint) : bytes :=
  let res := op_txid self in
  let res := alter (fun b => Z.lxor b (wrap 8 (Z.land (Z.shiftr (op_index self) 8) 0xff))) 30%nat res in
  alter (fun b => Z.lxor b (wrap 8 (Z.land (Z.shiftr (op_index self) 0) 0xff))) 31%nat res.

Definition into_bitcoin_outpoint (self : OutPoint) : BitcoinOutPoint := mkVout (op_txid self) (op_index self).

Definition funding_outpointc : Codec OutPoint :=
  impl_writeable (pairc (arrayc 32) u16c) (fun o => (op_txid o, op_index o)) (fun b => mkOutPoint b.1 b.2).

Global Instance funding_outpointc_roundtrip : RoundTrip funding_outpointc (fun o => array_ok 32 (op_txid o) /\ u16 (op_index o)).
Proof.
  intros o rest Ho. apply (impl_writeable_roundtrip (pairc (arrayc 32) u16c) (fun o => (op_txid o, op_index o)) _ (fun x => array_ok 32 x.1 /\ u16 x.2) _); [by intros []|done].
Qed.

(** ** Comparisons: [Ordering::then_with] and [Ord] on slices *)

Definition then_with (a b : comparison) : comparison := match a with Eq => b | _ => a end.

Fixpoint slice_cmp (a b : bytes) : comparison :=
  match a, b with
  | [], [] => Eq
  | [], _ :: _ => Lt
  | _ :: _, [] => Gt
  | x :: a', y :: b' => then_with (x ?= y) (slice_cmp a' b')
  end.

Lemma then_with_opp a b : CompOpp (then_with a b) = then_with (CompOpp a) (CompOpp b).
Proof. by destruct a. Qed.

(** A comparison whose results compose, as [Ord] requires. *)
Definition composes {A} (cmp : A -> A -> comparison) (P : A -> Prop) : Prop :=
  (forall a b, P a -> P b -> cmp b a = CompOpp (cmp a b)) /\
  (forall o a b c, P a -> P b -> P c -> cmp a b = o -> cmp b c = o -> cmp a c = o).

Lemma composes_mixed {A} (cmp : A -> A -> comparison) P a b c :
  composes cmp P -> P a -> P b -> P c -> cmp a b = Eq -> cmp a c = cmp b c.
Proof.
  intros [Ho Ht] Ha Hb Hc E. assert (Eb : cmp b a = Eq) by (by rewrite Ho, E by done). destruct (cmp b c) eqn:Ec.
  - by apply (Ht _ a b c).
  - destruct (cmp a c) eqn:Eac; [|done|].
    + rewrite (Ht Eq b a c) in Ec by done. done.
    + assert (E1 : cmp c b = Gt) by (by rewrite Ho, Ec by done). pose proof (Ht Gt a c b Ha Hc Hb Eac E1). congruence.
  - destruct (cmp a c) eqn:Eac; [| |done].
    + rewrite (Ht Eq b a c) in Ec by done. done.
    + assert (E1 : cmp c b = Lt) by (by rewrite Ho, Ec by done). pose proof (Ht Lt a c b Ha Hc Hb Eac E1). congruence.
Qed.

Lemma then_with_composes {A} (f g : A -> A -> comparison) (P : A -> Prop) :
  composes f P ->
  (forall a b, P a -> P b -> f a b = Eq -> g b a = CompOpp (g a b)) ->
  (forall o a b c, P a -> P b -> P c -> f a b = Eq -> f b c = Eq -> g a b = o -> g b c = o -> g a c = o) ->
  composes (fun a b => then_with (f a b) (g a b)) P.
Proof.
  intros Hf Ho Ht. pose proof Hf as [Hfo Hft]. split.
  - intros a b Ha Hb. rewrite (Hfo a b), then_with_opp by done. destruct (f a b) eqn:E; cbn; [by apply Ho|done..].
  - intros o a b c Ha Hb Hc H1 H2. destruct (f a b) eqn:E1; cbn in H1.
    + rewrite (composes_mixed f P a b c) by done. destruct (f b c) eqn:E2; cbn in *; [by apply (Ht o a b c)|done..].
    + subst o. destruct (f b c) eqn:E2; cbn in H2; [|by rewrite (Hft Lt a b c)|done].
      assert (E3 : f c b = Eq) by (by rewrite Hfo, E2 by done). assert (E4 : f c a = Gt) by (rewrite (composes_mixed f P c b a) by done; by rewrite Hfo, E1 by done).
      by rewrite Hfo, E4 by done.
    + subst o. destruct (f b c) eqn:E2; cbn in H2; [|done|by rewrite (Hft Gt a b c)].
      assert (E3 : f c b = Eq) by (by rewrite Hfo, E2 by done). assert (E4 : f c a = Lt) by (rewrite (composes_mixed f P c b a) by done; by rewrite Hfo, E1 by done).
      by rewrite Hfo, E4 by done.
Qed.

Lemma compare_composes {A} (key : A -> Z) P : composes (fun a b => key a ?= key b) P.
Proof.
  split; [intros; apply Z.compare_antisym|]. intros o a b c _ _ _ H1 H2.
  destruct (Z.compare_spec (key a) (key b)), (Z.compare_spec (key b) (key c)), (Z.compare_spec (key a) (key c)); subst; lia || congruence.
Qed.

Lemma slice_cmp_opp a b : slice_cmp b a = CompOpp (slice_cmp a b).
Proof.
  revert b. induction a as [|x a IH]; intros [|y b]; cbn; [done..|]. by rewrite then_with_opp, Z.compare_antisym, IH.
Qed.

Lemma slice_cmp_eq a b : slice_cmp a b = Eq <-> a = b.
Proof.
  revert b. induction a as [|x a IH]; intros [|y b]; cbn; [done..|]. destruct (Z.compare_spec x y); cbn.
  - rewrite IH. subst. split; [by intros ->|by intros [=]].
  - split; [done|]. intros [=]. lia.
  - split; [done|]. intros [=]. lia.
Qed.

Lemma slice_cmp_trans o a b c : slice_cmp a b = o -> slice_cmp b c = o -> slice_cmp a c = o.
Proof.
  revert b c. induction a as [|x a IH]; intros [|y b] [|z c] H1 H2; cbn in *; subst; try done.
  destruct (Z.compare_spec x y), (Z.compare_spec y z), (Z.compare_spec x z); subst; cbn in *; try lia; try done; try congruence. by apply (IH b).
Qed.

Lemma slice_composes {A} (key : A -> bytes) P : composes (fun a b => slice_cmp (key a) (key b)) P.
Proof. split; [intros; apply slice_cmp_opp|]. intros o a b c _ _ _. apply slice_cmp_trans. Qed.

(** ** [slice::sort_unstable_by]

    The result is a permutation; when the comparison is an order, it is sorted. How elements
    that compare equal are arranged is not promised. *)

Class UnstableSort := { sort_unstable_by : forall {A : Type}, (A -> A -> comparison) -> list A -> list A }.
Class UnstableSortLaws `{UnstableSort} := {
  sort_unstable_permutation {A} (cmp : A -> A -> comparison) l : sort_unstable_by cmp l ≡ₚ l;
  sort_unstable_sorted {A} (cmp : A -> A -> comparison) l :
    composes cmp (fun x => x ∈ l) -> StronglySorted (fun a b => cmp a b <> Gt) (sort_unstable_by cmp l);
}.

(** ** transaction_utils.rs *)

(** What is used of the bitcoin crate: sizes, and the dust limit of a script. *)
Class TxSizes := {
  tx_weight : Transaction -> Z;
  txout_len : TxOut -> Z;
  varint_len : Z -> Z;
  dust_value : bytes -> Z;
}.

(** An output adds four times its size to the weight, and as much for a longer count; its size
    does not depend on its value. *)
Class TxSizesLaws `{TxSizes} := {
  weight_push tx out :
    tx_weight (mkTransaction (version tx) (lock_time tx) (input tx) (output tx ++ [out])) =
    tx_weight tx + 4 * txout_len out + 4 * (varint_len (Z.of_nat (length (output tx)) + 1) - varint_len (Z.of_nat (length (output tx))));
  txout_len_value s v v' : txout_len (mkTxOut s v) = txout_len (mkTxOut s v');
}.

Definition MAX_VALUE_MSAT : Z := 21_000_000_0000_0000_000.

(** [i64] arithmetic of the development profile. *)
Definition i64_op (what : string) (z : Z) : outcome Z :=
  if (- 2 ^ 63 <=? z) && (z <? 2 ^ 63) then Ret z else Panic ("attempt to " +:+ what +:+ " with overflow").

Section Source.
Context `{UnstableSort, TxSizes}.

Definition output_cmp {T} (tie_breaker : T -> T -> comparison) (a b : TxOut * T) : comparison :=
  then_with (out_value a.1 ?= out_value b.1) (then_with (slice_cmp (script_pubkey a.1) (script_pubkey b.1)) (tie_breaker a.2 b.2)).

Definition sort_outputs {T} (outputs : list (TxOut * T)) (tie_breaker : T -> T -> comparison) : list (TxOut * T) :=
  sort_unstable_by (output_cmp tie_breaker) outputs.

(** The loop that sums the outputs and stops when they reach the inputs. *)
Fixpoint sum_outputs (input_value output_value : Z) (outs : list TxOut) : outcome (result Z unit) :=
  match outs with
  | [] => Ret (Ok output_value)
  | out :: outs' =>
      output_value ← add64 output_value (out_value out);
      if input_value <=? output_value then Ret (Err tt) else sum_outputs input_value output_value outs'
  end.

Definition WITNESS_FLAG_BYTES : Z := 2.

Definition maybe_add_change_output (input_value witness_max_weight feerate_sat_per_1000_weight : Z) (change_destination_script : bytes) :
    prog Transaction (result Z unit) :=
  if MAX_VALUE_MSAT `div` 1000 <? input_value then mret (Err tt)
  else
    tx ← get;
    let? output_value := lift (sum_outputs input_value 0 (output tx)) in
    let dust := dust_value change_destination_script in
    let change_output := mkTxOut change_destination_script 0 in
    let change_len := txout_len change_output in
    let starting_weight := tx_weight tx + WITNESS_FLAG_BYTES + witness_max_weight in
    let n := Z.of_nat (length (output tx)) in
    let weight_with_change := starting_weight + change_len * 4 + (varint_len (n + 1) - varint_len n) * 4 in
    fee ← lift (i64_op "multiply" (weight_with_change * feerate_sat_per_1000_weight));
    change_value ← lift (i64_op "subtract" (input_value - output_value - Z.quot fee 1000));
    if dust <=? change_value then
      _ ← put (mkTransaction (version tx) (lock_time tx) (input tx) (output tx ++ [mkTxOut change_destination_script (wrap 64 change_value)]));
      mret (Ok weight_with_change)
    else
      fee ← lift (i64_op "multiply" (starting_weight * feerate_sat_per_1000_weight));
      left ← lift (i64_op "subtract" (input_value - output_value - Z.quot fee 1000));
      if left <? 0 then mret (Err tt) else mret (Ok starting_weight).

End Source.

(** ** Sorted outputs *)

Definition values (outs : list TxOut) : Z := foldr (fun out sum => out_value out + sum) 0 outs.

Lemma values_app a b : values (a ++ b) = values a + values b.
Proof. unfold values. induction a as [|x a IH]; cbn; [lia|]. rewrite IH. lia. Qed.

Lemma values_Permutation a b : a ≡ₚ b -> values a = values b.
Proof. unfold values. induction 1; cbn; lia. Qed.

(** The part of the order that the outputs themselves decide. *)
Definition txout_cmp (a b : TxOut) : comparison := then_with (out_value a ?= out_value b) (slice_cmp (script_pubkey a) (script_pubkey b)).

Lemma txout_cmp_composes P : composes txout_cmp P.
Proof.
  apply then_with_composes; [apply compare_composes|intros; apply slice_cmp_opp|]. intros o a b c _ _ _ _ _. apply slice_cmp_trans.
Qed.

Lemma txout_cmp_eq a b : txout_cmp a b = Eq <-> a = b.
Proof.
  unfold txout_cmp. destruct a as [s v], b as [s' v']. cbn. destruct (Z.compare_spec v v'); cbn.
  - rewrite slice_cmp_eq. subst. split; [by intros ->|by intros [=]].
  - split; [done|]. intros [=]. lia.
  - split; [done|]. intros [=]. lia.
Qed.

Lemma output_cmp_txout {T} (tie : T -> T -> comparison) a b : output_cmp tie a b = then_with (txout_cmp a.1 b.1) (tie a.2 b.2).
Proof. unfold output_cmp, txout_cmp. by destruct (_ ?= _). Qed.

(** The order is one when the tie-breaker is, among outputs that are alike. *)
Lemma output_cmp_composes {T} (tie : T -> T -> comparison) P :
  (forall a b, P a -> P b -> a.1 = b.1 -> tie b.2 a.2 = CompOpp (tie a.2 b.2)) ->
  (forall o a b c, P a -> P b -> P c -> a.1 = b.1 -> b.1 = c.1 -> tie a.2 b.2 = o -> tie b.2 c.2 = o -> tie a.2 c.2 = o) ->
  composes (output_cmp tie) P.
Proof.
  intros Ho Ht. enough (composes (fun a b : TxOut * T => then_with (txout_cmp a.1 b.1) (tie a.2 b.2)) P) as [H1 H2].
  { split; [intros a b Ha Hb|intros o a b c Ha Hb Hc]; rewrite !output_cmp_txout; [by apply H1|by apply (H2 o a b c)]. }
  apply then_with_composes.
  - destruct (txout_cmp_composes (fun _ => True)) as [H1 H2]. split; [intros a b _ _; by apply H1|intros o a b c _ _ _; by apply (H2 o)].
  - intros a b Ha Hb E%txout_cmp_eq. by apply Ho.
  - intros o a b c Ha Hb Hc E1%txout_cmp_eq E2%txout_cmp_eq. by apply (Ht o a b c).
Qed.

(** Outputs in order, whatever they carry. *)
Definition in_order (outs : list TxOut) : Prop := StronglySorted (fun a b => txout_cmp a b <> Gt) outs.

Lemma in_order_unique a b : a ≡ₚ b -> in_order a -> in_order b -> a = b.
Proof.
  intros Hp Ha Hb. revert b Hp Hb. induction Ha as [|x a Ha IH Hx]; intros b Hp Hb; [by apply Permutation_nil_l in Hp|].
  destruct Hb as [|y b Hb Hy]; [by apply Permutation_nil_r in Hp|].
  assert (x = y) as ->.
  { rewrite Forall_forall in Hx, Hy. assert (H1 : y ∈ x :: a) by (rewrite Hp; left). assert (H2 : x ∈ y :: b) by (rewrite <- Hp; left).
    apply elem_of_cons in H1 as [?|H1]; [done|]. apply elem_of_cons in H2 as [?|H2]; [done|]. specialize (Hx _ H1). specialize (Hy _ H2). cbn in *.
    destruct (txout_cmp_composes (fun _ => True)) as [Ho _]. rewrite (Ho x y I I) in Hy. apply txout_cmp_eq. by destruct (txout_cmp x y). }
  f_equal. apply IH; [by apply Permutation_cons_inv in Hp|done].
Qed.

Section Sorted.
Context `{UnstableSortLaws}.

Lemma sort_outputs_permutation {T} outs (tie : T -> T -> comparison) : sort_outputs outs tie ≡ₚ outs.
Proof. apply sort_unstable_permutation. Qed.

Lemma sort_outputs_in_order {T} outs (tie : T -> T -> comparison) : composes (output_cmp tie) (fun x => x ∈ outs) -> in_order (sort_outputs outs tie).*1.
Proof.
  intros Hc. pose proof (sort_unstable_sorted _ _ Hc) as Hs. fold (sort_outputs outs tie) in Hs. unfold in_order. induction Hs as [|x l Hs IH Hx]; cbn; [constructor|].
  constructor; [done|]. apply Forall_fmap. eapply Forall_impl; [exact Hx|]. intros y Hy. cbn in Hy |- *. rewrite output_cmp_txout in Hy. by destruct (txout_cmp _ _).
Qed.
End Sorted.

(** ** The change output *)

Lemma sum_outputs_ok input_value outs acc v : sum_outputs input_value acc outs = Ret (Ok v) -> v = acc + values outs.
Proof.
  unfold values. revert acc. induction outs as [|o outs IH]; intros acc E; cbn [sum_outputs foldr] in *; [injection E as <-; lia|].
  unfold add64, checked_op in E. destruct (in_widthb 64 (acc + out_value o)); cbn [mbind outcome_bind] in E; [|done].
  destruct (input_value <=? acc + out_value o); [done|]. apply IH in E. lia.
Qed.

(** [maybe_add_change_output] meets the fee rate: on success the outputs, with the change if one was added, leave a fee of at least the rate for the weight that is returned, which is the weight of the signed transaction; the change is no dust and gives everything above that fee back; on failure the transaction is as it was. *)
Theorem change_output_pays `{TxSizesLaws} (input_value witness_max_weight feerate : Z) (script : bytes) (tx tx' : Transaction) (r : result Z unit) :
  0 <= dust_value script ->
  maybe_add_change_output input_value witness_max_weight feerate script tx = (Ret r, tx') ->
  match r with
  | Ok weight =>
      weight = tx_weight tx' + 2 + witness_max_weight /\
      (tx' = tx /\ Z.quot (weight * feerate) 1000 <= input_value - values (output tx') \/
       exists change, output tx' = output tx ++ [mkTxOut script change] /\ dust_value script <= change /\
         Z.quot (weight * feerate) 1000 = input_value - values (output tx'))
  | Err _ => tx' = tx
  end.
Proof.
  intros Hd. unfold maybe_add_change_output. destruct (Z.ltb_spec (MAX_VALUE_MSAT `div` 1000) input_value) as [|Hmax]; [by intros [= <- <-]|].
  assert (Hm : MAX_VALUE_MSAT `div` 1000 < 2 ^ 63) by reflexivity.
  unfold bind_ok, mbind, prog_bind, get, lift, put, mret, prog_ret.
  destruct (sum_outputs input_value 0 (output tx)) as [[out|[]]| |] eqn:Es; [|by intros [= <- <-]|done|done].
  apply sum_outputs_ok in Es. rewrite Z.add_0_l in Es.
  unfold i64_op at 1. match goal with |- context [txout_len ?c * 4] => set (len := txout_len c) end.
  set (start := tx_weight tx + WITNESS_FLAG_BYTES + witness_max_weight). set (wc := start + len * 4 + _). destruct (_ && _) eqn:E1; [|done].
  unfold i64_op at 1. destruct ((- 2 ^ 63 <=? input_value - out - Z.quot (wc * feerate) 1000) && _) eqn:E2; [|done]. apply andb_prop in E2 as [_ E2%Z.ltb_lt].
  destruct (Z.leb_spec (dust_value script) (input_value - out - Z.quot (wc * feerate) 1000)).
  - intros [= <- <-]. rewrite wrap_small by (unfold in_width; lia). split.
    + rewrite weight_push, (txout_len_value script (input_value - out - Z.quot (wc * feerate) 1000) 0). unfold wc, start, len, WITNESS_FLAG_BYTES. lia.
    + right. eexists. split; [done|]. cbn [output]. rewrite values_app. unfold values at 2. cbn. lia.
  - unfold i64_op at 1. destruct ((- 2 ^ 63 <=? start * feerate) && _); [|done]. unfold i64_op. destruct ((- 2 ^ 63 <=? input_value - out - Z.quot (start * feerate) 1000) && _); [|done].
    destruct (Z.ltb_spec (input_value - out - Z.quot (start * feerate) 1000) 0); intros [= <- <-]; [done|]. split; [done|]. left. split; [done|lia].
Qed.
