(* ===== verification/TlvStruct.v ===== *)
(** * Structures stored as TLV streams: [impl_writeable_tlv_based!] of util/ser_macros.rs

    A structure is a list of fields, each with how it is written, how it is read into the
    local variables [S] and which of them it sets.  What was written is read back, whatever
    follows it. *)

From S2P Require Import Prelude Text Bytes Stream Ser SerLaws Tlv.

Local Open Scope Z_scope.

(** ** The macro *)

(** A field of the structure [M]: its TLV, what is written for it, and the variable it sets. *)
Record struct_field (M S : Type) := mkStructField {
  sf_tlv : tlv_field S;
  sf_write : M -> option (list bytes);
  sf_set : M -> S -> S;
}.
Arguments mkStructField {M S} _ _ _.
Arguments sf_tlv {M S} _.
Arguments sf_write {M S} _ _.
Arguments sf_set {M S} _ _ _.

(** [(type, field, required)]. *)
Definition required {M S T} (type : Z) (c : Codec T) (field : M -> T) (set : option T -> S -> S) : struct_field M S :=
  mkStructField (mkField type Required (fun s => x ← c_read c; mret (set (Some x) s))) (fun m => Some (c_write c (field m))) (fun m => set (Some (field m))).

(** [(type, field, option)]. *)
Definition optional {M S T} (type : Z) (c : Codec T) (field : M -> option T) (set : option T -> S -> S) : struct_field M S :=
  mkStructField (mkField type Absentable (fun s => x ← c_read c; mret (set (Some x) s))) (fun m => c_write c <$> field m) (fun m => set (field m)).

(** [(type, field, vec_type)]. *)
Definition vec_type {M S T} (type : Z) (c : Codec T) (field : M -> list T) (set : option (list T) -> S -> S) : struct_field M S :=
  mkStructField (mkField type Absentable (fun s => x ← c_read (vec_wrapper c); mret (set (Some x) s)))
    (fun m => Some (c_write (vec_wrapper c) (field m))) (fun m => set (Some (field m))).

(** [impl_writeable_tlv_based!]; [build] fails where an [unwrap] of a required field would. *)
Definition impl_writeable_tlv_based {M S} (fields : list (struct_field M S)) (init : S) (build : S -> option M) : Codec M :=
  mkCodec (fun m => write_tlv_fields ((fun f => (tf_type (sf_tlv f), sf_write f m)) <$> fields))
    (s ← read_tlv_fields (sf_tlv <$> fields) init;
     match build s with Some m => mret m | None => RRet (Panic "called `Option::unwrap()` on a `None` value") end).

(** ** Its laws *)

Section Laws.
Context {M S : Type}.
Implicit Types (f : struct_field M S) (fs : list (struct_field M S)) (m : M).

Definition field_ok m f : Prop :=
  match sf_write f m with
  | None => tf_kind (sf_tlv f) = Absentable /\ forall s, sf_set f m s = s
  | Some p => forall s, run (tf_decode (sf_tlv f) s) (concat p) = (Ret (Ok (sf_set f m s)), [])
  end.

Lemma required_ok {T} type (c : Codec T) valid field set m : EndRoundTrip c valid -> valid (field m) -> field_ok m (required type c field set).
Proof. intros Hc Hv. unfold field_ok. cbn. intros s. by rewrite (run_bind_Ok _ _ _ _ _ (Hc _ Hv)). Qed.

Lemma optional_ok {T} type (c : Codec T) valid field set m :
  EndRoundTrip c valid -> (forall x, field m = Some x -> valid x) -> (forall s, set None s = s) -> field_ok m (optional type c field set).
Proof.
  intros Hc Hv Hs. unfold field_ok. cbn. destruct (field m) as [x|] eqn:E; cbn; [|done]. intros s. by rewrite (run_bind_Ok _ _ _ _ _ (Hc x (Hv x eq_refl))).
Qed.

Lemma vec_type_ok {T} type (c : Codec T) valid field set m : EndRoundTrip (vec_wrapper c) valid -> valid (field m) -> field_ok m (vec_type type c field set).
Proof. intros Hc Hv. unfold field_ok. cbn [sf_write vec_type tf_decode sf_tlv sf_set]. intros s. by rewrite (run_bind_Ok _ _ _ _ _ (Hc _ Hv)). Qed.

Definition out_of m f : Z * option (list bytes) := (tf_type (sf_tlv f), sf_write f m).
Definition step_of m f : step S := mkStep (sf_tlv f) (@concat Z <$> sf_write f m) (sf_set f m).

Lemma records_of_steps m fs : outs_records (out_of m <$> fs) = records_of (step_of m <$> fs).
Proof.
  unfold outs_records, records_of. induction fs as [|f fs IH]; [done|]. cbn. rewrite <- IH. by destruct (sf_write f m).
Qed.

(** Each record is no longer than the whole. *)
Lemma record_ok_of_length (outs : list (Z * option (list bytes))) : Forall (fun o => u64 o.1) outs -> u64 (tlv_length outs) -> Forall record_ok (outs_records outs).
Proof.
  intros Ht Hl. rewrite tlv_length_encode, length_writer_vec in Hl. unfold vec_writer in Hl. rewrite encode_tlv_stream_records in Hl. apply Forall_forall. intros r Hr. split.
  - unfold outs_records in Hr. apply list_elem_of_omap in Hr as ([t [p|]] & Hin & E); cbn in E; simplify_eq. rewrite Forall_forall in Ht. apply (Ht _ Hin).
  - assert (Hle : (length r.2 <= length (concat (record_bytes <$> outs_records outs)))%nat).
    { clear -Hr. induction (outs_records outs) as [|r' l IH]; [by apply elem_of_nil in Hr|]. cbn. rewrite length_app. apply elem_of_cons in Hr as [->|Hr].
      - unfold record_bytes. rewrite !length_app. lia.
      - specialize (IH Hr). lia. }
    unfold in_width in *. lia.
Qed.

(** What was written is read back. *)
Lemma tlv_struct_roundtrip fs init build (valid : M -> Prop) :
  increasing (sf_tlv <$> fs) -> Forall (fun f => u64 (tf_type (sf_tlv f))) fs ->
  (forall m, valid m -> u64 (tlv_length (out_of m <$> fs)) /\ Forall (field_ok m) fs /\ build (foldl (fun s f => sf_set f m s) init fs) = Some m) ->
  RoundTrip (impl_writeable_tlv_based fs init build) valid.
Proof.
  intros Hinc Hty Hv m rest Hm. destruct (Hv m Hm) as (Hl & Hok & Hb). open_codec. rewrite run_bind.
  assert (Hf : sf_tlv <$> fs = st_field <$> (step_of m <$> fs)) by (by rewrite <- list_fmap_compose).
  rewrite Hf. change ((fun f => (tf_type (sf_tlv f), sf_write f m)) <$> fs) with (out_of m <$> fs). rewrite (read_write_tlv_fields (step_of m <$> fs) (out_of m <$> fs)).
  - assert (Hd : forall s, decoded (step_of m <$> fs) s = foldl (fun s f => sf_set f m s) s fs).
    { clear -Hok. unfold decoded. induction Hok as [|f fs Hf Hok IH]; intros s; [done|]. cbn. rewrite IH. f_equal. unfold field_ok in Hf. destruct (sf_write f m); [done|]. symmetry. apply Hf. }
    rewrite Hd, Hb. done.
  - apply records_of_steps.
  - rewrite <- records_of_steps. apply record_ok_of_length; [|done]. by apply Forall_fmap.
  - done.
  - by rewrite <- Hf.
  - apply Forall_fmap. eapply Forall_impl; [exact Hok|]. intros f Hfo. unfold field_ok, step_ok in *. cbn. destruct (sf_write f m); cbn; [done|by destruct Hfo].
Qed.

End Laws.

(** ** Lengths *)

(** The length of a stream, field by field. *)
Lemma tlv_length_cons o outs :
  tlv_length (o :: outs) = match o.2 with None => 0 | Some p => serialized_length BigSize o.1 + serialized_length BigSize (length_writer p) + length_writer p end + tlv_length outs.
Proof.
  rewrite !tlv_length_encode, !length_writer_vec. unfold vec_writer, encode_tlv_stream. destruct o as [t [p|]]; cbn [fmap list_fmap concat encode_tlv fst snd]; [|done].
  rewrite !concat_app, !length_app, !serialized_length_encode, !length_writer_vec. unfold encode, vec_writer. lia.
Qed.

Lemma bigsize_len x : 1 <= serialized_length BigSize x <= 9.
Proof.
  unfold serialized_length. cbn [BigSize c_write]. rewrite length_writer_vec. unfold vec_writer.
  destruct (x <=? 0xFC); [cbn; lia|]. destruct (x <=? 0xFFFF); [|destruct (x <=? 0xFFFFFFFF)]; cbn [u8c u16c u32c u64c uintc c_write app concat]; rewrite ?length_app, ?length_to_be_bytes; cbn; lia.
Qed.

(** A field of at most [n] bytes adds at most [n + 18]. *)
Lemma tlv_length_le {M S} (m : M) (fs : list (struct_field M S)) n :
  0 <= n -> Forall (fun f => match sf_write f m with Some p => length_writer p <= n | None => True end) fs -> 0 <= tlv_length (out_of m <$> fs) <= (n + 18) * Z.of_nat (length fs).
Proof.
  intros Hn. induction 1 as [|f fs Hf _ IH]; [cbn; lia|]. cbn [fmap list_fmap]. rewrite tlv_length_cons. cbn [out_of fst snd length]. rewrite Nat2Z.inj_succ, Z.mul_succ_r.
  pose proof (bigsize_len (tf_type (sf_tlv f))). destruct (sf_write f m) as [p|]; [|lia]. pose proof (bigsize_len (length_writer p)). rewrite (length_writer_vec p) in *. lia.
Qed.

Lemma struct_len {M S} (m : M) (fs : list (struct_field M S)) init build n :
  0 <= n -> Forall (fun f => match sf_write f m with Some p => length_writer p <= n | None => True end) fs ->
  length_writer (c_write (impl_writeable_tlv_based fs init build) m) <= 9 + (n + 18) * Z.of_nat (length fs).
Proof.
  intros Hn Hf. cbn [impl_writeable_tlv_based c_write]. unfold write_tlv_fields. rewrite length_writer_vec. unfold vec_writer. rewrite concat_app, length_app.
  change ((fun f => (tf_type (sf_tlv f), sf_write f m)) <$> fs) with (out_of m <$> fs). pose proof (tlv_length_le m fs n Hn Hf) as Hb.
  pose proof (bigsize_len (tlv_length (out_of m <$> fs))) as H9. rewrite serialized_length_encode in H9. unfold encode, vec_writer in H9.
  rewrite tlv_length_encode, length_writer_vec in Hb at 1. rewrite tlv_length_encode, length_writer_vec in Hb. unfold vec_writer in Hb. lia.
Qed.

Lemma uint_len n x : length_writer (c_write (uintc n) x) = Z.of_nat n.
Proof. rewrite length_writer_vec. unfold vec_writer. cbn [uintc c_write concat]. by rewrite List.app_nil_r, length_to_be_bytes. Qed.

Lemma small_fits {M S} (m : M) (fs : list (struct_field M S)) n :
  0 <= n <= 2 ^ 32 -> Z.of_nat (length fs) <= 16 -> Forall (fun f => match sf_write f m with Some p => length_writer p <= n | None => True end) fs -> u64 (tlv_length (out_of m <$> fs)).
Proof. intros Hn Hl Hf. pose proof (tlv_length_le m fs n ltac:(lia) Hf). unfold in_width. nia. Qed.
