(* ===== verification/ChanTx.v ===== *)
(** * Commitment, HTLC and closing transactions: rust-lightning/lightning/src/ln/chan_utils.rs

    The scripts and transactions of a channel, built from the keys derived in the first section.  Scripts are
    lists of what is pushed; the bitcoin crate turns them into bytes. *)

From S2P Require Import Prelude Text Bytes Stream Ser SerLaws Tlv Msgs Secrets Transactions.

Local Open Scope Z_scope.

(** * The keys of a commitment transaction: rust-lightning/lightning/src/ln/chan_utils.rs

    Each commitment transaction has keys of its own, derived from the base points of the
    channel and a per-commitment point.  The functions on secret keys are what lets the owner
    spend; they are proved to compute the secrets of the public keys that the other functions
    put into the scripts. *)

(** ** Parameters: the arithmetic of the secp256k1 crate *)

Class KeyTweaks `{Secp} := {
  SecretKey : Type;
  sk_bytes : SecretKey -> bytes;
  sk_from_slice : bytes -> option SecretKey;
  pk_of : SecretKey -> PublicKey;
  sk_add_assign : SecretKey -> bytes -> option SecretKey;
  sk_mul_assign : SecretKey -> bytes -> option SecretKey;
  pk_combine : PublicKey -> PublicKey -> option PublicKey;
  pk_mul_assign : PublicKey -> bytes -> option PublicKey;
}.

(** Adding and multiplying secrets is adding and multiplying points, and fails when that does. *)
Class KeyTweaksLaws `{KeyTweaks} := {
  sk_roundtrip k : sk_from_slice (sk_bytes k) = Some k;
  pk_of_add s t k : sk_from_slice t = Some k -> pk_of <$> sk_add_assign s t = pk_combine (pk_of s) (pk_of k);
  pk_of_mul s t : pk_of <$> sk_mul_assign s t = pk_mul_assign (pk_of s) t;
}.

(** [secp256k1::Error], not looked into. *)
Inductive SecpError := SecpErr.
Definition secp {A} (o : option A) : result A SecpError := ok_or o SecpErr.

Section Source.
Context `{KeyTweaks} `{Sha256}.

Definition derive_private_key (per_commitment_point : PublicKey) (base_secret : SecretKey) : result SecretKey SecpError :=
  let res := Sha256_hash (pk_serialize per_commitment_point ++ pk_serialize (pk_of base_secret)) in
  let! key := secp (sk_add_assign base_secret res) in
  Ok key.

Definition derive_public_key (per_commitment_point base_point : PublicKey) : result PublicKey SecpError :=
  let res := Sha256_hash (pk_serialize per_commitment_point ++ pk_serialize base_point) in
  let! hashkey := secp (sk_from_slice res) in
  secp (pk_combine base_point (pk_of hashkey)).

Definition derive_private_revocation_key (per_commitment_secret countersignatory_revocation_base_secret : SecretKey) : result SecretKey SecpError :=
  let countersignatory_revocation_base_point := pk_of countersignatory_revocation_base_secret in
  let per_commitment_point := pk_of per_commitment_secret in
  let rev_append_commit_hash_key := Sha256_hash (pk_serialize countersignatory_revocation_base_point ++ pk_serialize per_commitment_point) in
  let commit_append_rev_hash_key := Sha256_hash (pk_serialize per_commitment_point ++ pk_serialize countersignatory_revocation_base_point) in
  let! countersignatory_contrib := secp (sk_mul_assign countersignatory_revocation_base_secret rev_append_commit_hash_key) in
  let! broadcaster_contrib := secp (sk_mul_assign per_commitment_secret commit_append_rev_hash_key) in
  let! countersignatory_contrib := secp (sk_add_assign countersignatory_contrib (sk_bytes broadcaster_contrib)) in
  Ok countersignatory_contrib.

Definition derive_public_revocation_key (per_commitment_point countersignatory_revocation_base_point : PublicKey) : result PublicKey SecpError :=
  let rev_append_commit_hash_key := Sha256_hash (pk_serialize countersignatory_revocation_base_point ++ pk_serialize per_commitment_point) in
  let commit_append_rev_hash_key := Sha256_hash (pk_serialize per_commitment_point ++ pk_serialize countersignatory_revocation_base_point) in
  let! countersignatory_contrib := secp (pk_mul_assign countersignatory_revocation_base_point rev_append_commit_hash_key) in
  let! broadcaster_contrib := secp (pk_mul_assign per_commitment_point commit_append_rev_hash_key) in
  secp (pk_combine countersignatory_contrib broadcaster_contrib).

Record TxCreationKeys := mkTxCreationKeys {
  per_commitment_point : PublicKey;
  revocation_key : PublicKey;
  broadcaster_htlc_key : PublicKey;
  countersignatory_htlc_key : PublicKey;
  broadcaster_delayed_payment_key : PublicKey;
}.

Record ChannelPublicKeys := mkChannelPublicKeys {
  funding_pubkey : PublicKey;
  revocation_basepoint : PublicKey;
  payment_point : PublicKey;
  delayed_payment_basepoint : PublicKey;
  htlc_basepoint : PublicKey;
}.

Definition derive_new (per_commitment_point broadcaster_delayed_payment_base broadcaster_htlc_base countersignatory_revocation_base
    countersignatory_htlc_base : PublicKey) : result TxCreationKeys SecpError :=
  let! revocation_key := derive_public_revocation_key per_commitment_point countersignatory_revocation_base in
  let! broadcaster_htlc_key := derive_public_key per_commitment_point broadcaster_htlc_base in
  let! countersignatory_htlc_key := derive_public_key per_commitment_point countersignatory_htlc_base in
  let! broadcaster_delayed_payment_key := derive_public_key per_commitment_point broadcaster_delayed_payment_base in
  Ok (mkTxCreationKeys per_commitment_point revocation_key broadcaster_htlc_key countersignatory_htlc_key broadcaster_delayed_payment_key).

Definition from_channel_static_keys (per_commitment_point : PublicKey) (broadcaster_keys countersignatory_keys : ChannelPublicKeys) :
    result TxCreationKeys SecpError :=
  derive_new per_commitment_point (delayed_payment_basepoint broadcaster_keys) (htlc_basepoint broadcaster_keys)
    (revocation_basepoint countersignatory_keys) (htlc_basepoint countersignatory_keys).

(** ** Secrets match points *)

Definition on_ok {A B E} (f : A -> B) (r : result A E) : result B E := match r with Ok a => Ok (f a) | Err e => Err e end.

Lemma derive_keys_match point s h :
  sk_from_slice (Sha256_hash (pk_serialize point ++ pk_serialize (pk_of s))) = Some h -> KeyTweaksLaws ->
  on_ok pk_of (derive_private_key point s) = derive_public_key point (pk_of s).
Proof.
  intros Hh HL. unfold derive_private_key, derive_public_key. rewrite Hh. cbn [secp ok_or rbind]. rewrite <- (pk_of_add s _ h Hh).
  by destruct (sk_add_assign s _).
Qed.

Lemma revocation_keys_match c r : KeyTweaksLaws ->
  on_ok pk_of (derive_private_revocation_key c r) = derive_public_revocation_key (pk_of c) (pk_of r).
Proof.
  intros HL. unfold derive_private_revocation_key, derive_public_revocation_key. rewrite <- !pk_of_mul.
  destruct (sk_mul_assign r _) as [a|]; [|done]. destruct (sk_mul_assign c _) as [b|]; [|done]. cbn [fmap option_fmap option_map secp ok_or rbind].
  rewrite <- (pk_of_add a (sk_bytes b) b (sk_roundtrip b)). by destruct (sk_add_assign a _).
Qed.

(** The secrets behind one side of a channel. *)
Record BaseSecrets := mkBaseSecrets { revocation_base_key : SecretKey; delayed_payment_base_key : SecretKey; htlc_base_key : SecretKey }.
Definition public_of (funding payment : PublicKey) (s : BaseSecrets) : ChannelPublicKeys :=
  mkChannelPublicKeys funding (pk_of (revocation_base_key s)) payment (pk_of (delayed_payment_base_key s)) (pk_of (htlc_base_key s)).

(** The digest of two points is a usable key. *)
Definition usable (a b : PublicKey) : Prop := is_Some (sk_from_slice (Sha256_hash (pk_serialize a ++ pk_serialize b))).

(** From the secrets behind a commitment transaction's keys: each side derives the secret of its own HTLC key, the broadcaster that of the delayed key, and, once the per-commitment secret is revealed, the countersignatory that of the revocation key. *)
Theorem creation_keys_spendable (c : SecretKey) (b s : BaseSecrets) (fb pb fs ps : PublicKey) (keys : TxCreationKeys) :
  KeyTweaksLaws ->
  usable (pk_of c) (pk_of (htlc_base_key b)) -> usable (pk_of c) (pk_of (htlc_base_key s)) -> usable (pk_of c) (pk_of (delayed_payment_base_key b)) ->
  from_channel_static_keys (pk_of c) (public_of fb pb b) (public_of fs ps s) = Ok keys ->
  per_commitment_point keys = pk_of c /\
  (exists k, derive_private_key (pk_of c) (htlc_base_key b) = Ok k /\ pk_of k = broadcaster_htlc_key keys) /\
  (exists k, derive_private_key (pk_of c) (htlc_base_key s) = Ok k /\ pk_of k = countersignatory_htlc_key keys) /\
  (exists k, derive_private_key (pk_of c) (delayed_payment_base_key b) = Ok k /\ pk_of k = broadcaster_delayed_payment_key keys) /\
  (exists k, derive_private_revocation_key c (revocation_base_key s) = Ok k /\ pk_of k = revocation_key keys).
Proof.
  intros HL [h1 Hh1] [h2 Hh2] [h3 Hh3] E. unfold from_channel_static_keys, derive_new in E. cbn [delayed_payment_basepoint htlc_basepoint revocation_basepoint public_of] in E.
  rewrite <- revocation_keys_match, <- (derive_keys_match _ _ _ Hh1 HL), <- (derive_keys_match _ _ _ Hh2 HL), <- (derive_keys_match _ _ _ Hh3 HL) in E by done.
  destruct (derive_private_revocation_key _ _) as [k1|]; [|done]. destruct (derive_private_key _ (htlc_base_key b)) as [k2|]; [|done].
  destruct (derive_private_key _ (htlc_base_key s)) as [k3|]; [|done]. destruct (derive_private_key _ (delayed_payment_base_key b)) as [k4|]; [|done].
  cbn in E. injection E as <-. cbn. split; [done|]. split_and!; eexists; done.
Qed.

End Source.
#[global] Arguments TxCreationKeys {_}.
#[global] Arguments ChannelPublicKeys {_}.

(** * The transactions *)

(** ** Parameters: the bitcoin crate *)

Inductive opcode :=
| OP_IF | OP_NOTIF | OP_ELSE | OP_ENDIF | OP_CSV | OP_CLTV | OP_DROP | OP_DUP | OP_IFDUP | OP_SWAP | OP_SIZE | OP_EQUAL | OP_EQUALVERIFY
| OP_HASH160 | OP_CHECKSIG | OP_CHECKSIGVERIFY | OP_CHECKMULTISIG | OP_PUSHBYTES_0 | OP_PUSHNUM_1 | OP_PUSHNUM_2.

(** A call of [Builder]. *)
Inductive script_item := push_opcode (op : opcode) | push_slice (data : bytes) | push_int (data : Z).

Inductive EcdsaSighashType := All | SinglePlusAnyoneCanPay.
(** [EcdsaSighashType as u8]. *)
Definition sighash_byte (t : EcdsaSighashType) : Z := match t with All => 0x01 | SinglePlusAnyoneCanPay => 0x83 end.

Class BitcoinApi `{KeyTweaks} := {
  into_script : list script_item -> bytes;
  to_v0_p2wsh : bytes -> bytes;
  Ripemd160_hash : bytes -> bytes;
  PubkeyHash_hash : bytes -> bytes;
  WPubkeyHash_hash : bytes -> bytes;
  compute_txid : Transaction -> bytes;
  segwit_signature_hash : Transaction -> nat -> bytes -> Z -> EcdsaSighashType -> option bytes;
  sign_ecdsa : bytes -> SecretKey -> Signature;
  serialize_der : Signature -> bytes;
}.

(** ** Weights *)

Definition htlc_success_tx_weight (opt_anchors : bool) : Z := if opt_anchors then 706 else 703.
Definition htlc_timeout_tx_weight (opt_anchors : bool) : Z := if opt_anchors then 666 else 663.

Inductive HTLCType := AcceptedHTLC | OfferedHTLC.
Definition scriptlen_to_htlctype (witness_script_len : Z) : option HTLCType :=
  if witness_script_len =? 133 then Some OfferedHTLC
  else if (136 <=? witness_script_len) && (witness_script_len <=? 139) then Some AcceptedHTLC
  else None.

Definition INITIAL_COMMITMENT_NUMBER : Z := Z.shiftl 1 48 - 1.
Definition ANCHOR_OUTPUT_VALUE_SATOSHI : Z := 330.
Definition REVOKEABLE_REDEEMSCRIPT_MAX_LENGTH : Z := 6 + 3 + 34 * 2.

Record HTLCOutputInCommitment := mkHTLC {
  offered : bool;
  amount_msat : Z;
  cltv_expiry : Z;
  payment_hash : bytes;
  transaction_output_index : option Z;
}.
#[global] Instance HTLCOutputInCommitment_eq_dec : EqDecision HTLCOutputInCommitment.
Proof. solve_decision. Defined.

(** A reference into [htlcs_with_aux]: its position, and what is there while outputs are built. *)
Abbreviation htlc_ref := (nat * HTLCOutputInCommitment)%type.

Section Source.
Context `{BitcoinApi} `{Sha256} `{UnstableSort}.

(** ** Scripts *)

Definition revokeable_items (revocation_key : PublicKey) (contest_delay : Z) (broadcaster_delayed_payment_key : PublicKey) : list script_item :=
  [push_opcode OP_IF; push_slice (pk_serialize revocation_key); push_opcode OP_ELSE; push_int contest_delay; push_opcode OP_CSV;
   push_opcode OP_DROP; push_slice (pk_serialize broadcaster_delayed_payment_key); push_opcode OP_ENDIF; push_opcode OP_CHECKSIG].

Definition get_revokeable_redeemscript (revocation_key : PublicKey) (contest_delay : Z) (broadcaster_delayed_payment_key : PublicKey) : outcome bytes :=
  let res := into_script (revokeable_items revocation_key contest_delay broadcaster_delayed_payment_key) in
  if Z.of_nat (length res) <=? REVOKEABLE_REDEEMSCRIPT_MAX_LENGTH then Ret res
  else Panic "assertion failed: res.len() <= REVOKEABLE_REDEEMSCRIPT_MAX_LENGTH".

Definition htlc_items (htlc : HTLCOutputInCommitment) (opt_anchors : bool)
    (broadcaster_htlc_key countersignatory_htlc_key revocation_key : PublicKey) : list script_item :=
  let payment_hash160 := Ripemd160_hash (payment_hash htlc) in
  let anchors := if opt_anchors then [push_opcode OP_PUSHNUM_1; push_opcode OP_CSV; push_opcode OP_DROP] else [] in
  if offered htlc then
    [push_opcode OP_DUP; push_opcode OP_HASH160; push_slice (PubkeyHash_hash (pk_serialize revocation_key)); push_opcode OP_EQUAL;
     push_opcode OP_IF; push_opcode OP_CHECKSIG; push_opcode OP_ELSE; push_slice (pk_serialize countersignatory_htlc_key);
     push_opcode OP_SWAP; push_opcode OP_SIZE; push_int 32; push_opcode OP_EQUAL; push_opcode OP_NOTIF; push_opcode OP_DROP; push_int 2;
     push_opcode OP_SWAP; push_slice (pk_serialize broadcaster_htlc_key); push_int 2; push_opcode OP_CHECKMULTISIG; push_opcode OP_ELSE;
     push_opcode OP_HASH160; push_slice payment_hash160; push_opcode OP_EQUALVERIFY; push_opcode OP_CHECKSIG; push_opcode OP_ENDIF]
    ++ anchors ++ [push_opcode OP_ENDIF]
  else
    [push_opcode OP_DUP; push_opcode OP_HASH160; push_slice (PubkeyHash_hash (pk_serialize revocation_key)); push_opcode OP_EQUAL;
     push_opcode OP_IF; push_opcode OP_CHECKSIG; push_opcode OP_ELSE; push_slice (pk_serialize countersignatory_htlc_key);
     push_opcode OP_SWAP; push_opcode OP_SIZE; push_int 32; push_opcode OP_EQUAL; push_opcode OP_IF; push_opcode OP_HASH160;
     push_slice payment_hash160; push_opcode OP_EQUALVERIFY; push_int 2; push_opcode OP_SWAP; push_slice (pk_serialize broadcaster_htlc_key);
     push_int 2; push_opcode OP_CHECKMULTISIG; push_opcode OP_ELSE; push_opcode OP_DROP; push_int (cltv_expiry htlc); push_opcode OP_CLTV;
     push_opcode OP_DROP; push_opcode OP_CHECKSIG; push_opcode OP_ENDIF]
    ++ anchors ++ [push_opcode OP_ENDIF].

Definition get_htlc_redeemscript_with_explicit_keys (htlc : HTLCOutputInCommitment) (opt_anchors : bool)
    (broadcaster_htlc_key countersignatory_htlc_key revocation_key : PublicKey) : bytes :=
  into_script (htlc_items htlc opt_anchors broadcaster_htlc_key countersignatory_htlc_key revocation_key).

Definition get_htlc_redeemscript (htlc : HTLCOutputInCommitment) (opt_anchors : bool) (keys : TxCreationKeys) : bytes :=
  get_htlc_redeemscript_with_explicit_keys htlc opt_anchors (broadcaster_htlc_key keys) (countersignatory_htlc_key keys) (revocation_key keys).

Definition make_funding_redeemscript (broadcaster countersignatory : PublicKey) : bytes :=
  let broadcaster_funding_key := pk_serialize broadcaster in
  let countersignatory_funding_key := pk_serialize countersignatory in
  into_script ([push_opcode OP_PUSHNUM_2] ++
    (if bool_decide (slice_cmp broadcaster_funding_key countersignatory_funding_key = Lt)
     then [push_slice broadcaster_funding_key; push_slice countersignatory_funding_key]
     else [push_slice countersignatory_funding_key; push_slice broadcaster_funding_key]) ++
    [push_opcode OP_PUSHNUM_2; push_opcode OP_CHECKMULTISIG]).

Definition get_to_countersignatory_with_anchors_redeemscript (payment_point : PublicKey) : bytes :=
  into_script [push_slice (pk_serialize payment_point); push_opcode OP_CHECKSIGVERIFY; push_int 1; push_opcode OP_CSV].

Definition get_anchor_redeemscript (funding_pubkey : PublicKey) : bytes :=
  into_script [push_slice (pk_serialize funding_pubkey); push_opcode OP_CHECKSIG; push_opcode OP_IFDUP; push_opcode OP_NOTIF; push_int 16;
    push_opcode OP_CSV; push_opcode OP_ENDIF].

Definition get_p2wpkh_redeemscript (key : PublicKey) : bytes :=
  into_script [push_opcode OP_PUSHBYTES_0; push_slice (WPubkeyHash_hash (pk_serialize key))].

(** ** HTLC transactions *)

Definition build_htlc_transaction (commitment_txid : bytes) (feerate_per_kw contest_delay : Z) (htlc : HTLCOutputInCommitment) (opt_anchors : bool)
    (broadcaster_delayed_payment_key revocation_key : PublicKey) : outcome Transaction :=
  vout ← unwrap "Can't build an HTLC transaction for a dust output" (transaction_output_index htlc);
  let txins := [mkTxIn (mkVout commitment_txid vout) [] (if opt_anchors then 1 else 0) []] in
  let weight := if offered htlc then htlc_timeout_tx_weight opt_anchors else htlc_success_tx_weight opt_anchors in
  let total_fee := feerate_per_kw * weight `div` 1000 in
  script ← get_revokeable_redeemscript revocation_key contest_delay broadcaster_delayed_payment_key;
  value ← sub64 (amount_msat htlc `div` 1000) total_fee;
  Ret (mkTransaction 2 (if offered htlc then cltv_expiry htlc else 0) txins [mkTxOut (to_v0_p2wsh script) value]).

(** ** Closing transactions *)

Definition build_closing_transaction (to_holder_value_sat to_counterparty_value_sat : Z) (to_holder_script to_counterparty_script : bytes)
    (funding_outpoint : BitcoinOutPoint) : Transaction :=
  let txins := [mkTxIn funding_outpoint [] 0xffffffff []] in
  let txouts := if 0 <? to_counterparty_value_sat then [(mkTxOut to_counterparty_script to_counterparty_value_sat, tt)] else [] in
  let txouts := if 0 <? to_holder_value_sat then txouts ++ [(mkTxOut to_holder_script to_holder_value_sat, tt)] else txouts in
  let txouts := sort_outputs txouts (fun _ _ => Eq) in
  mkTransaction 2 0 txins (fst <$> txouts).

Record ClosingTransaction := mkClosing {
  to_holder_value_sat : Z;
  to_counterparty_value_sat : Z;
  to_holder_script : bytes;
  to_counterparty_script : bytes;
  closing_built : Transaction;
}.

Definition closing_new (to_holder_value_sat to_counterparty_value_sat : Z) (to_holder_script to_counterparty_script : bytes)
    (funding_outpoint : BitcoinOutPoint) : ClosingTransaction :=
  mkClosing to_holder_value_sat to_counterparty_value_sat to_holder_script to_counterparty_script
    (build_closing_transaction to_holder_value_sat to_counterparty_value_sat to_holder_script to_counterparty_script funding_outpoint).

Definition closing_verify (self : ClosingTransaction) (funding_outpoint : BitcoinOutPoint) : result ClosingTransaction unit :=
  let built := build_closing_transaction (to_holder_value_sat self) (to_counterparty_value_sat self) (to_holder_script self)
    (to_counterparty_script self) funding_outpoint in
  if bool_decide (closing_built self <> built) then Err tt else Ok self.

(** ** Parameters of a channel *)

Record CounterpartyChannelTransactionParameters := mkCounterpartyParameters { pubkeys : ChannelPublicKeys; selected_contest_delay : Z }.

Record ChannelTransactionParameters := mkChannelParameters {
  holder_pubkeys : ChannelPublicKeys;
  holder_selected_contest_delay : Z;
  is_outbound_from_holder : bool;
  counterparty_parameters : option CounterpartyChannelTransactionParameters;
  funding_outpoint_late : option OutPoint;
  parameters_opt_anchors : option unit;
}.

Definition is_populated (self : ChannelTransactionParameters) : bool :=
  bool_decide (is_Some (counterparty_parameters self)) && bool_decide (is_Some (funding_outpoint_late self)).

Record DirectedChannelTransactionParameters := mkDirected { inner_parameters : ChannelTransactionParameters; holder_is_broadcaster : bool }.

Definition as_holder_broadcastable (self : ChannelTransactionParameters) : outcome DirectedChannelTransactionParameters :=
  if is_populated self then Ret (mkDirected self true)
  else Panic "self.late_parameters must be set before using as_holder_broadcastable".

Definition as_counterparty_broadcastable (self : ChannelTransactionParameters) : outcome DirectedChannelTransactionParameters :=
  if is_populated self then Ret (mkDirected self false)
  else Panic "self.late_parameters must be set before using as_counterparty_broadcastable".

Definition none_unwrap : string := "called `Option::unwrap()` on a `None` value".

Definition broadcaster_pubkeys (self : DirectedChannelTransactionParameters) : outcome ChannelPublicKeys :=
  if holder_is_broadcaster self then Ret (holder_pubkeys (inner_parameters self))
  else p ← unwrap none_unwrap (counterparty_parameters (inner_parameters self)); Ret (pubkeys p).

Definition countersignatory_pubkeys (self : DirectedChannelTransactionParameters) : outcome ChannelPublicKeys :=
  if holder_is_broadcaster self then p ← unwrap none_unwrap (counterparty_parameters (inner_parameters self)); Ret (pubkeys p)
  else Ret (holder_pubkeys (inner_parameters self)).

Definition contest_delay (self : DirectedChannelTransactionParameters) : outcome Z :=
  p ← unwrap none_unwrap (counterparty_parameters (inner_parameters self));
  Ret (if holder_is_broadcaster self then selected_contest_delay p else holder_selected_contest_delay (inner_parameters self)).

Definition is_outbound (self : DirectedChannelTransactionParameters) : bool :=
  if holder_is_broadcaster self then is_outbound_from_holder (inner_parameters self) else negb (is_outbound_from_holder (inner_parameters self)).

Definition funding_outpoint (self : DirectedChannelTransactionParameters) : outcome BitcoinOutPoint :=
  o ← unwrap none_unwrap (funding_outpoint_late (inner_parameters self)); Ret (into_bitcoin_outpoint o).

Definition directed_opt_anchors (self : DirectedChannelTransactionParameters) : bool :=
  bool_decide (is_Some (parameters_opt_anchors (inner_parameters self))).

(** ** Commitment transactions *)

Definition get_commitment_transaction_number_obscure_factor (broadcaster_payment_basepoint countersignatory_payment_basepoint : PublicKey)
    (outbound_from_broadcaster : bool) : Z :=
  let res := Sha256_hash (if outbound_from_broadcaster
    then pk_serialize broadcaster_payment_basepoint ++ pk_serialize countersignatory_payment_basepoint
    else pk_serialize countersignatory_payment_basepoint ++ pk_serialize broadcaster_payment_basepoint) in
  let byte i := nth i res 0 in
  Z.lor (Z.lor (Z.lor (Z.lor (Z.lor (Z.shiftl (byte 26%nat) (5 * 8)) (Z.shiftl (byte 27%nat) (4 * 8))) (Z.shiftl (byte 28%nat) (3 * 8)))
    (Z.shiftl (byte 29%nat) (2 * 8))) (Z.shiftl (byte 30%nat) (1 * 8))) (Z.shiftl (byte 31%nat) (0 * 8)).

Record BuiltCommitmentTransaction := mkBuilt { transaction : Transaction; built_txid : bytes }.

Record CommitmentTransaction := mkCommitment {
  commitment_number : Z;
  to_broadcaster_value_sat : Z;
  to_countersignatory_value_sat : Z;
  feerate_per_kw : Z;
  htlcs : list HTLCOutputInCommitment;
  opt_anchors : option unit;
  keys : TxCreationKeys;
  built : BuiltCommitmentTransaction;
}.

Definition make_transaction (obscured_commitment_transaction_number : Z) (txins : list TxIn) (outputs : list TxOut) : Transaction :=
  mkTransaction 2 (Z.lor (Z.shiftl 0x20 (8 * 3)) (wrap 32 (Z.land obscured_commitment_transaction_number 0xffffff))) txins outputs.

Definition htlc_tie_breaker (a b : option htlc_ref) : comparison :=
  match a, b with
  | Some (_, a), Some (_, b) => then_with (cltv_expiry a ?= cltv_expiry b) (slice_cmp (payment_hash a) (payment_hash b))
  | _, _ => Eq
  end.

Definition set_output_index (idx : Z) (htlc : HTLCOutputInCommitment) : HTLCOutputInCommitment :=
  mkHTLC (offered htlc) (amount_msat htlc) (cltv_expiry htlc) (payment_hash htlc) (Some idx).

(** The last loop: the position of each output is written through its reference. *)
Fixpoint assign_indices {T} (idx : nat) (txouts : list (TxOut * option htlc_ref)) (htlcs_with_aux : list (HTLCOutputInCommitment * T)) :
    list TxOut * list HTLCOutputInCommitment * list (HTLCOutputInCommitment * T) :=
  match txouts with
  | [] => ([], [], htlcs_with_aux)
  | (out, None) :: txouts' =>
      let '(outputs, htlcs, aux) := assign_indices (S idx) txouts' htlcs_with_aux in (out :: outputs, htlcs, aux)
  | (out, Some (k, htlc)) :: txouts' =>
      let htlc := set_output_index (wrap 32 (Z.of_nat idx)) htlc in
      let htlcs_with_aux := alter (fun e => (htlc, e.2)) k htlcs_with_aux in
      let '(outputs, htlcs, aux) := assign_indices (S idx) txouts' htlcs_with_aux in (out :: outputs, htlc :: htlcs, aux)
  end.

Definition htlc_txout (opt_anchors : bool) (keys : TxCreationKeys) (htlc : HTLCOutputInCommitment) : TxOut :=
  mkTxOut (to_v0_p2wsh (get_htlc_redeemscript htlc opt_anchors keys)) (amount_msat htlc `div` 1000).

(** The outputs, before they are sorted. *)
Definition unsorted_outputs {T} (keys : TxCreationKeys) (to_broadcaster_value_sat to_countersignatory_value_sat : Z)
    (htlcs_with_aux : list (HTLCOutputInCommitment * T)) (channel_parameters : DirectedChannelTransactionParameters) (opt_anchors : bool)
    (broadcaster_funding_key countersignatory_funding_key : PublicKey) : outcome (list (TxOut * option htlc_ref)) :=
  countersignatory ← countersignatory_pubkeys channel_parameters;
  delay ← contest_delay channel_parameters;
  let to_countersignatory :=
    if 0 <? to_countersignatory_value_sat then
      let script :=
        if opt_anchors then to_v0_p2wsh (get_to_countersignatory_with_anchors_redeemscript (payment_point countersignatory))
        else get_p2wpkh_redeemscript (payment_point countersignatory) in
      [(mkTxOut script to_countersignatory_value_sat, None)]
    else [] in
  to_broadcaster ←
    (if 0 <? to_broadcaster_value_sat then
       redeem_script ← get_revokeable_redeemscript (revocation_key keys) delay (broadcaster_delayed_payment_key keys);
       Ret [(mkTxOut (to_v0_p2wsh redeem_script) to_broadcaster_value_sat, None)]
     else Ret []);
  let anchor key := (mkTxOut (to_v0_p2wsh (get_anchor_redeemscript key)) ANCHOR_OUTPUT_VALUE_SATOSHI, None) in
  let has_htlcs := negb (length htlcs_with_aux =? 0)%nat in
  let anchors :=
    if opt_anchors then
      (if (0 <? to_broadcaster_value_sat) || has_htlcs then [anchor broadcaster_funding_key] else []) ++
      (if (0 <? to_countersignatory_value_sat) || has_htlcs then [anchor countersignatory_funding_key] else [])
    else [] in
  let htlc_outs := imap (fun k (e : HTLCOutputInCommitment * T) => (htlc_txout opt_anchors keys e.1, Some (k, e.1))) htlcs_with_aux in
  Ret (to_countersignatory ++ to_broadcaster ++ anchors ++ htlc_outs).

Definition internal_build_outputs {T} (keys : TxCreationKeys) (to_broadcaster_value_sat to_countersignatory_value_sat : Z)
    (htlcs_with_aux : list (HTLCOutputInCommitment * T)) (channel_parameters : DirectedChannelTransactionParameters) (opt_anchors : bool)
    (broadcaster_funding_key countersignatory_funding_key : PublicKey) :
    outcome (result (list TxOut * list HTLCOutputInCommitment) unit * list (HTLCOutputInCommitment * T)) :=
  txouts ← unsorted_outputs keys to_broadcaster_value_sat to_countersignatory_value_sat htlcs_with_aux channel_parameters opt_anchors
    broadcaster_funding_key countersignatory_funding_key;
  let txouts := sort_outputs txouts htlc_tie_breaker in
  let '(outputs, htlcs, aux) := assign_indices 0 txouts htlcs_with_aux in
  Ret (Ok (outputs, htlcs), aux).

Definition internal_build_inputs (commitment_number : Z) (channel_parameters : DirectedChannelTransactionParameters) : outcome (Z * list TxIn) :=
  broadcaster ← broadcaster_pubkeys channel_parameters;
  countersignatory ← countersignatory_pubkeys channel_parameters;
  let obscure_factor := get_commitment_transaction_number_obscure_factor (payment_point broadcaster) (payment_point countersignatory)
    (is_outbound channel_parameters) in
  number ← sub64 INITIAL_COMMITMENT_NUMBER commitment_number;
  let obscured := Z.lxor obscure_factor number in
  outpoint ← funding_outpoint channel_parameters;
  Ret (obscured, [mkTxIn outpoint [] (Z.lor (Z.shiftl 0x80 (8 * 3)) (wrap 32 (Z.shiftr obscured (3 * 8)))) []]).

Definition new_with_auxiliary_htlc_data {T} (commitment_number to_broadcaster_value_sat to_countersignatory_value_sat : Z) (opt_anchors : bool)
    (broadcaster_funding_key countersignatory_funding_key : PublicKey) (keys : TxCreationKeys) (feerate_per_kw : Z)
    (htlcs_with_aux : list (HTLCOutputInCommitment * T)) (channel_parameters : DirectedChannelTransactionParameters) :
    outcome (CommitmentTransaction * list (HTLCOutputInCommitment * T)) :=
  '(r, aux) ← internal_build_outputs keys to_broadcaster_value_sat to_countersignatory_value_sat htlcs_with_aux channel_parameters opt_anchors
    broadcaster_funding_key countersignatory_funding_key;
  '(outputs, htlcs) ← unwrap_result "called `Result::unwrap()` on an `Err` value: ()" r;
  '(obscured_commitment_transaction_number, txins) ← internal_build_inputs commitment_number channel_parameters;
  let transaction := make_transaction obscured_commitment_transaction_number txins outputs in
  let txid := compute_txid transaction in
  Ret (mkCommitment commitment_number to_broadcaster_value_sat to_countersignatory_value_sat feerate_per_kw htlcs
         (if opt_anchors then Some tt else None) keys (mkBuilt transaction txid), aux).

Definition internal_rebuild_transaction (self : CommitmentTransaction) (keys : TxCreationKeys) (channel_parameters : DirectedChannelTransactionParameters)
    (broadcaster_funding_key countersignatory_funding_key : PublicKey) : outcome (result BuiltCommitmentTransaction unit) :=
  '(obscured_commitment_transaction_number, txins) ← internal_build_inputs (commitment_number self) channel_parameters;
  let htlcs_with_aux := (fun h => (h, tt)) <$> htlcs self in
  '(r, _) ← internal_build_outputs keys (to_broadcaster_value_sat self) (to_countersignatory_value_sat self) htlcs_with_aux channel_parameters
    (bool_decide (is_Some (opt_anchors self))) broadcaster_funding_key countersignatory_funding_key;
  match r with
  | Err e => Ret (Err e)
  | Ok (outputs, _) =>
      let transaction := make_transaction obscured_commitment_transaction_number txins outputs in
      Ret (Ok (mkBuilt transaction (compute_txid transaction)))
  end.

Definition commitment_verify `{EqDecision PublicKey} (self : CommitmentTransaction) (channel_parameters : DirectedChannelTransactionParameters)
    (broadcaster_keys countersignatory_keys : ChannelPublicKeys) : outcome (result CommitmentTransaction unit) :=
  let point := per_commitment_point (keys self) in
  derived ← unwrap_result "called `Result::unwrap()` on an `Err` value" (from_channel_static_keys point broadcaster_keys countersignatory_keys);
  let same_keys := bool_decide (per_commitment_point derived = per_commitment_point (keys self)) && bool_decide (revocation_key derived = revocation_key (keys self)) &&
    bool_decide (broadcaster_htlc_key derived = broadcaster_htlc_key (keys self)) &&
    bool_decide (countersignatory_htlc_key derived = countersignatory_htlc_key (keys self)) &&
    bool_decide (broadcaster_delayed_payment_key derived = broadcaster_delayed_payment_key (keys self)) in
  if negb same_keys then Ret (Err tt)
  else
    r ← internal_rebuild_transaction self derived channel_parameters (funding_pubkey broadcaster_keys) (funding_pubkey countersignatory_keys);
    match r with
    | Err e => Ret (Err e)
    | Ok tx =>
        if bool_decide (transaction (built self) <> transaction tx) || bool_decide (built_txid (built self) <> built_txid tx) then Ret (Err tt)
        else Ret (Ok self)
    end.

(** ** Signatures *)

(** [hash_to_message!] of a [segwit_signature_hash] that is unwrapped. *)
Definition sighash_message (tx : Transaction) (script : bytes) (value : Z) (t : EcdsaSighashType) : outcome bytes :=
  unwrap "called `Result::unwrap()` on an `Err` value" (segwit_signature_hash tx 0 script value t).

Definition get_sighash_all (self : BuiltCommitmentTransaction) (funding_redeemscript : bytes) (channel_value_satoshis : Z) : outcome bytes :=
  sighash_message (transaction self) funding_redeemscript channel_value_satoshis All.

Definition built_sign (self : BuiltCommitmentTransaction) (funding_key : SecretKey) (funding_redeemscript : bytes) (channel_value_satoshis : Z) : outcome Signature :=
  sighash ← get_sighash_all self funding_redeemscript channel_value_satoshis;
  Ret (sign_ecdsa sighash funding_key).

Definition closing_sign (self : ClosingTransaction) (funding_key : SecretKey) (funding_redeemscript : bytes) (channel_value_satoshis : Z) : outcome Signature :=
  sighash ← sighash_message (closing_built self) funding_redeemscript channel_value_satoshis All;
  Ret (sign_ecdsa sighash funding_key).

(** [tx.input[0].witness.push(..)], for each of the items. *)
Definition push_witness (items : list bytes) (tx : Transaction) : outcome Transaction :=
  match input tx with
  | [] => Panic "index out of bounds: the len is 0 but the index is 0"
  | i :: is' =>
      Ret (mkTransaction (version tx) (lock_time tx)
        (mkTxIn (previous_output i) (script_sig i) (sequence i) (witness i ++ items) :: is') (output tx))
  end.

Definition ser_sig (s : Signature) (t : EcdsaSighashType) : bytes := serialize_der s ++ [sighash_byte t].

Record HolderCommitmentTransaction := mkHolder {
  inner : CommitmentTransaction;
  counterparty_sig : Signature;
  counterparty_htlc_sigs : list Signature;
  holder_sig_first : bool;
}.

Definition holder_new (commitment_tx : CommitmentTransaction) (counterparty_sig : Signature) (counterparty_htlc_sigs : list Signature)
    (holder_funding_key counterparty_funding_key : PublicKey) : HolderCommitmentTransaction :=
  mkHolder commitment_tx counterparty_sig counterparty_htlc_sigs
    (bool_decide (slice_cmp (pk_serialize holder_funding_key) (pk_serialize counterparty_funding_key) = Lt)).

Definition add_holder_sig (self : HolderCommitmentTransaction) (funding_redeemscript : bytes) (holder_sig : Signature) : outcome Transaction :=
  let tx := transaction (built (inner self)) in
  let ser_holder_sig := ser_sig holder_sig All in
  let ser_cp_sig := ser_sig (counterparty_sig self) All in
  push_witness ([[]] ++ (if holder_sig_first self then [ser_holder_sig; ser_cp_sig] else [ser_cp_sig; ser_holder_sig]) ++ [funding_redeemscript]) tx.

Fixpoint sign_htlcs (self : CommitmentTransaction) (holder_htlc_key : SecretKey) (channel_parameters : DirectedChannelTransactionParameters)
    (todo : list HTLCOutputInCommitment) : outcome (list Signature) :=
  match todo with
  | [] => Ret []
  | this_htlc :: todo' =>
      let anchors := bool_decide (is_Some (opt_anchors self)) in
      _ ← (if bool_decide (is_Some (transaction_output_index this_htlc)) then Ret tt
           else Panic "assertion failed: this_htlc.transaction_output_index.is_some()");
      delay ← contest_delay channel_parameters;
      htlc_tx ← build_htlc_transaction (built_txid (built self)) (feerate_per_kw self) delay this_htlc anchors
        (broadcaster_delayed_payment_key (keys self)) (revocation_key (keys self));
      let htlc_redeemscript := get_htlc_redeemscript_with_explicit_keys this_htlc anchors (broadcaster_htlc_key (keys self))
        (countersignatory_htlc_key (keys self)) (revocation_key (keys self)) in
      sighash ← sighash_message htlc_tx htlc_redeemscript (amount_msat this_htlc `div` 1000) All;
      sigs ← sign_htlcs self holder_htlc_key channel_parameters todo';
      Ret (sign_ecdsa sighash holder_htlc_key :: sigs)
  end.

Definition get_htlc_sigs (self : CommitmentTransaction) (htlc_base_key : SecretKey) (channel_parameters : DirectedChannelTransactionParameters) :
    outcome (result (list Signature) unit) :=
  match derive_private_key (per_commitment_point (keys self)) htlc_base_key with
  | Err _ => Ret (Err tt)
  | Ok holder_htlc_key => sigs ← sign_htlcs self holder_htlc_key channel_parameters (htlcs self); Ret (Ok sigs)
  end.

Definition get_signed_htlc_tx (self : CommitmentTransaction) (channel_parameters : DirectedChannelTransactionParameters) (htlc_index : nat)
    (counterparty_signature signature : Signature) (preimage : option bytes) : outcome Transaction :=
  let anchors := bool_decide (is_Some (opt_anchors self)) in
  this_htlc ← unwrap "index out of bounds" (htlcs self !! htlc_index);
  _ ← (if bool_decide (is_Some (transaction_output_index this_htlc)) then Ret tt
       else Panic "assertion failed: this_htlc.transaction_output_index.is_some()");
  if negb (offered this_htlc) && bool_decide (preimage = None) then Panic "internal error: entered unreachable code"
  else if offered this_htlc && bool_decide (is_Some preimage) then Panic "internal error: entered unreachable code"
  else
    delay ← contest_delay channel_parameters;
    htlc_tx ← build_htlc_transaction (built_txid (built self)) (feerate_per_kw self) delay this_htlc anchors
      (broadcaster_delayed_payment_key (keys self)) (revocation_key (keys self));
    let htlc_redeemscript := get_htlc_redeemscript_with_explicit_keys this_htlc anchors (broadcaster_htlc_key (keys self))
      (countersignatory_htlc_key (keys self)) (revocation_key (keys self)) in
    let sighashtype := if anchors then SinglePlusAnyoneCanPay else All in
    unlock ← (if offered this_htlc then Ret [] else unwrap none_unwrap preimage);
    push_witness [[]; ser_sig counterparty_signature sighashtype; ser_sig signature All; unlock; htlc_redeemscript] htlc_tx.

End Source.

(** [ChannelMonitor] reads the number of a counterparty's commitment transaction back
    (rust-lightning/lightning/src/chain/channelmonitor.rs, [check_spend_counterparty_transaction]). *)
Definition read_commitment_number (tx_sequence tx_lock_time obscure_factor : Z) : Z :=
  0xffffffffffff - Z.lxor (Z.lor (Z.shiftl (Z.land tx_sequence 0xffffff) (3 * 8)) (Z.land tx_lock_time 0xffffff)) obscure_factor.
