(* ===== verification/ChanTxSpec.v ===== *)
(** * What the transactions of a channel promise

    Every HTLC of a commitment transaction is told the output that carries it; a commitment
    transaction that was built passes the check of an external signer; the number hidden in it
    can be read back; its scripts have the lengths by which they are recognised; witnesses list
    signatures in the order of the keys. *)

From S2P Require Import Prelude Text Bytes Stream Ser SerLaws Tlv Msgs Secrets Transactions ChanTx.

Local Open Scope Z_scope.

(** Take apart a run of [outcome]s that returned. *)
Lemma outcome_bind_Ret {A B} (m : outcome A) (f : A -> outcome B) b : (m ≫= f) = Ret b -> exists a, m = Ret a /\ f a = Ret b.
Proof. destruct m as [a| |]; cbn; [|done|done]. by exists a. Qed.

Ltac inv_outcome :=
  repeat match goal with
  | E : (_ ≫= _) = Ret _ |- _ => let a := fresh "r" in let E1 := fresh "E" in apply outcome_bind_Ret in E as (a & E1 & E)
  | E : Ret _ = Ret _ |- _ => injection E as E; subst
  | E : unwrap _ ?o = Ret _ |- _ => destruct o eqn:?; [injection E as E; subst|discriminate E]
  end.

Section Laws.
Context `{BitcoinApi} `{Sha256} `{UnstableSort}.

(** ** Positions *)

Definition refs (txouts : list (TxOut * option htlc_ref)) : list nat := omap (fun e => fst <$> e.2) txouts.

Lemma elem_of_refs txouts k : k ∈ refs txouts <-> exists out h, (out, Some (k, h)) ∈ txouts.
Proof.
  unfold refs. rewrite list_elem_of_omap. split.
  - intros ([out [[k' h]|]] & Hin & E); cbn in E; simplify_eq. by exists out, h.
  - intros (out & h & Hin). by exists (out, Some (k, h)).
Qed.

Lemma assign_indices_spec {T} l n (aux : list (HTLCOutputInCommitment * T)) :
  NoDup (refs l) -> Forall (fun k => k < length aux)%nat (refs l) ->
  exists hs aux', assign_indices n l aux = (l.*1, hs, aux') /\ length aux' = length aux /\
    (forall k, k ∉ refs l -> aux' !! k = aux !! k) /\
    (forall p out k h e, l !! p = Some (out, Some (k, h)) -> aux !! k = Some e -> aux' !! k = Some (set_output_index (wrap 32 (Z.of_nat (n + p))) h, e.2)) /\
    hs = omap (fun k => fst <$> aux' !! k) (refs l) /\
    Forall (fun h => exists p, transaction_output_index h = Some (wrap 32 (Z.of_nat (n + p))) /\ (p < length l)%nat) hs.
Proof.
  revert n aux. induction l as [|[out [[k h]|]] l IH]; intros n aux Hnd Hk.
  - exists [], aux. by split_and!.
  - cbn in Hnd, Hk. apply NoDup_cons in Hnd as [Hni Hnd]. apply Forall_cons in Hk as [Hlt Hk]. cbn [assign_indices].
    set (h' := set_output_index (wrap 32 (Z.of_nat n)) h). destruct (IH (S n) (alter (fun e => (h', e.2)) k aux) Hnd) as (hs & aux' & -> & Hlen & Hother & Hin & Ehs & Hidx).
    { by rewrite length_alter. }
    rewrite length_alter in Hlen. destruct (lookup_lt_is_Some_2 aux k Hlt) as [e He].
    assert (Hk' : aux' !! k = Some (h', e.2)) by (by rewrite Hother, list_lookup_alter, decide_True, He by done).
    exists (h' :: hs), aux'. split_and!; [done|done| | | |].
    + intros j Hj. cbn in Hj. apply not_elem_of_cons in Hj as [Hne Hj]. rewrite Hother by done. by rewrite list_lookup_alter, decide_False by done.
    + intros [|p] out' k' h0 e' Hp He'; cbn in Hp.
      * simplify_eq. by rewrite Nat.add_0_r.
      * assert (Hne : k' <> k). { intros ->. apply Hni. apply elem_of_refs. exists out', h0. by eapply list_elem_of_lookup_2. }
        rewrite Nat.add_succ_r. apply (Hin p out' k' h0 e' Hp). by rewrite list_lookup_alter, decide_False by done.
    + rewrite Ehs. cbn. by rewrite Hk'.
    + constructor; [exists 0%nat; rewrite Nat.add_0_r; split; [done|cbn; lia]|]. eapply Forall_impl; [exact Hidx|]. intros x (p & -> & Hp). exists (S p). rewrite Nat.add_succ_r. split; [done|cbn; lia].
  - cbn in Hnd, Hk. cbn [assign_indices]. destruct (IH (S n) aux Hnd Hk) as (hs & aux' & -> & Hlen & Hother & Hin & Ehs & Hidx).
    exists hs, aux'. split_and!; [done|done|done| |done|].
    + intros [|p] out' k' h0 e' Hp He'; cbn in Hp; [done|]. rewrite Nat.add_succ_r. by apply (Hin p out').
    + eapply Forall_impl; [exact Hidx|]. intros x (p & -> & Hp). exists (S p). rewrite Nat.add_succ_r. split; [done|cbn; lia].
Qed.

(** The indices increase along the outputs. *)
Lemma assign_indices_increasing {T} l n (aux : list (HTLCOutputInCommitment * T)) outs hs aux' :
  assign_indices n l aux = (outs, hs, aux') -> Z.of_nat (n + length l) < 2 ^ 32 ->
  StronglySorted (fun a b => forall i j, transaction_output_index a = Some i -> transaction_output_index b = Some j -> i < j) hs /\
  Forall (fun h => exists i, transaction_output_index h = Some i /\ Z.of_nat n <= i) hs.
Proof.
  revert n aux outs hs. induction l as [|[out [[k h]|]] l IH]; intros n aux outs hs E Hlt; cbn [assign_indices] in E.
  - injection E as <- <- <-. by split; constructor.
  - destruct (assign_indices (S n) l _) as [[o1 h1] a1] eqn:E1. simplify_eq. apply IH in E1 as [Hs Hf]; [|cbn in Hlt; lia].
    cbn [length] in Hlt. rewrite wrap_small by (unfold in_width; lia). split; constructor.
    + done.
    + eapply Forall_impl; [exact Hf|]. intros x (i & Ei & Hi) i0 j [= <-] Ej. simplify_eq. lia.
    + eexists. split; [done|lia].
    + eapply Forall_impl; [exact Hf|]. intros x (i & Ei & Hi). exists i. split; [done|lia].
  - destruct (assign_indices (S n) l _) as [[o1 h1] a1] eqn:E1. simplify_eq. apply IH in E1 as [Hs Hf]; [|cbn in Hlt; lia]. split; [done|].
    eapply Forall_impl; [exact Hf|]. intros x (i & Ei & Hi). exists i. split; [done|lia].
Qed.

(** *** The outputs before they are sorted *)

(** The outputs that are no HTLC's. *)
Definition plain_outputs (keys : TxCreationKeys) (vb vc : Z) (some_htlcs : bool) (delay : Z) (cs : ChannelPublicKeys) (anchors : bool) (fb fc : PublicKey)
    : outcome (list TxOut) :=
  let to_c := if 0 <? vc then [mkTxOut (if anchors then to_v0_p2wsh (get_to_countersignatory_with_anchors_redeemscript (payment_point cs))
                                        else get_p2wpkh_redeemscript (payment_point cs)) vc] else [] in
  to_b ← (if 0 <? vb then s ← get_revokeable_redeemscript (revocation_key keys) delay (broadcaster_delayed_payment_key keys); Ret [mkTxOut (to_v0_p2wsh s) vb] else Ret []);
  let anchor key := mkTxOut (to_v0_p2wsh (get_anchor_redeemscript key)) ANCHOR_OUTPUT_VALUE_SATOSHI in
  Ret (to_c ++ to_b ++ (if anchors then (if (0 <? vb) || some_htlcs then [anchor fb] else []) ++ (if (0 <? vc) || some_htlcs then [anchor fc] else []) else [])).

Definition no_ref (out : TxOut) : TxOut * option htlc_ref := (out, None).
Definition htlc_outputs {T} (anchors : bool) (keys : TxCreationKeys) (aux : list (HTLCOutputInCommitment * T)) : list (TxOut * option htlc_ref) :=
  imap (fun k (e : HTLCOutputInCommitment * T) => (htlc_txout anchors keys e.1, Some (k, e.1))) aux.

Lemma unsorted_outputs_split {T} keys vb vc (aux : list (HTLCOutputInCommitment * T)) params anchors fb fc :
  unsorted_outputs keys vb vc aux params anchors fb fc =
  (cs ← countersignatory_pubkeys params; delay ← contest_delay params;
   plain ← plain_outputs keys vb vc (negb (length aux =? 0)%nat) delay cs anchors fb fc; Ret ((no_ref <$> plain) ++ htlc_outputs anchors keys aux)).
Proof.
  unfold unsorted_outputs, plain_outputs. destruct (countersignatory_pubkeys params); [|done|done]. destruct (contest_delay params); [|done|done]. cbn.
  generalize (negb (length aux =? 0)%nat). intros some. destruct (0 <? vb); [destruct (get_revokeable_redeemscript _ _ _); [|done|done]|]; cbn; destruct (0 <? vc), anchors, some; cbn; done.
Qed.

Lemma refs_app a b : refs (a ++ b) = refs a ++ refs b.
Proof. apply omap_app. Qed.
Lemma refs_plain outs : refs (no_ref <$> outs) = [].
Proof. by induction outs. Qed.
Lemma refs_htlcs {T} anchors keys (aux : list (HTLCOutputInCommitment * T)) : refs (htlc_outputs anchors keys aux) = seq 0 (length aux).
Proof.
  unfold htlc_outputs. assert (Hg : forall n, refs (imap (fun k (e : HTLCOutputInCommitment * T) => (htlc_txout anchors keys e.1, Some ((n + k)%nat, e.1))) aux) = seq n (length aux)).
  { induction aux as [|e aux IH]; intros n; [done|]. cbn. rewrite Nat.add_0_r. f_equal. rewrite <- (IH (S n)). unfold refs. f_equal. apply imap_ext. intros i x _. cbn. by rewrite Nat.add_succ_r. }
  apply (Hg 0%nat).
Qed.

Lemma htlc_outputs_fst {T} anchors keys (aux : list (HTLCOutputInCommitment * T)) : (htlc_outputs anchors keys aux).*1 = htlc_txout anchors keys <$> aux.*1.
Proof. unfold htlc_outputs. rewrite fmap_imap. rewrite <- list_fmap_compose. apply (imap_const (htlc_txout anchors keys ∘ fst)). Qed.

Lemma no_ref_fst outs : (no_ref <$> outs).*1 = outs.
Proof. rewrite <- list_fmap_compose. apply list_fmap_id. Qed.

Lemma refs_Permutation a b : a ≡ₚ b -> refs a ≡ₚ refs b.
Proof. apply omap_Permutation. Qed.

Lemma lookups_in_order {A B} (l : list (A * B)) : omap (fun k => fst <$> l !! k) (seq 0 (length l)) = l.*1.
Proof.
  assert (Hg : forall pre, omap (fun k => fst <$> (pre ++ l) !! k) (seq (length pre) (length l)) = l.*1).
  { induction l as [|e l IH]; intros pre; [done|]. cbn. rewrite lookup_app_r, Nat.sub_diag by done. cbn. f_equal.
    specialize (IH (pre ++ [e])). rewrite length_app, Nat.add_1_r, <- app_assoc in IH. apply IH. }
  apply (Hg []).
Qed.

(** ** Theorems *)

Section Sorted.
Context `{!UnstableSortLaws}.

(** The HTLCs of a transaction are numbered in the order of their outputs. *)
Definition by_index (a b : HTLCOutputInCommitment) : Prop := forall i j, transaction_output_index a = Some i -> transaction_output_index b = Some j -> i < j.

Lemma build_outputs_spec {T} keys vb vc (aux : list (HTLCOutputInCommitment * T)) params anchors fb fc r aux' :
  internal_build_outputs keys vb vc aux params anchors fb fc = Ret (r, aux') ->
  exists cs delay plain outs hs, countersignatory_pubkeys params = Ret cs /\ contest_delay params = Ret delay /\
    plain_outputs keys vb vc (negb (length aux =? 0)%nat) delay cs anchors fb fc = Ret plain /\
    r = Ok (outs, hs) /\ outs = (sort_outputs ((no_ref <$> plain) ++ htlc_outputs anchors keys aux) htlc_tie_breaker).*1 /\
    (forall k h t, aux !! k = Some (h, t) -> exists p, aux' !! k = Some (set_output_index (wrap 32 (Z.of_nat p)) h, t) /\ outs !! p = Some (htlc_txout anchors keys h)) /\
    length aux' = length aux /\ hs ≡ₚ aux'.*1 /\ (Z.of_nat (length outs) < 2 ^ 32 -> StronglySorted by_index hs).
Proof.
  intros E. unfold internal_build_outputs in E. rewrite unsorted_outputs_split in E. inv_outcome. set (u := (no_ref <$> _) ++ _) in *.
  pose proof (sort_outputs_permutation u htlc_tie_breaker) as Hp. set (l := sort_outputs u htlc_tie_breaker) in *.
  assert (Hrefs : refs l ≡ₚ seq 0 (length aux)) by (rewrite (refs_Permutation _ _ Hp); unfold u; by rewrite refs_app, refs_plain, refs_htlcs).
  destruct (assign_indices_spec l 0 aux) as (hs & aux2 & Ea & Hlen & _ & Hin & Ehs & _).
  { rewrite Hrefs. apply NoDup_seq. }
  { rewrite Hrefs. apply Forall_forall. intros k Hk%elem_of_seq. lia. }
  rewrite Ea in E. injection E as <- <-. do 5 eexists. split_and!; [done|done|exact E3|done|done| |done| |].
  - intros k h t Hk. assert (Hu : (htlc_txout anchors keys h, Some (k, h)) ∈ l).
    { rewrite Hp. apply elem_of_app. right. apply elem_of_lookup_imap. by exists k, (h, t). }
    apply list_elem_of_lookup in Hu as [p Hl]. exists p. split; [exact (Hin p _ k h (h, t) Hl Hk)|]. by rewrite list_lookup_fmap, Hl.
  - rewrite Ehs, <- lookups_in_order, Hlen. by apply omap_Permutation.
  - intros Hlt. rewrite length_fmap in Hlt. by apply (assign_indices_increasing l 0 aux _ _ _ Ea) in Hlt as [Hs _].
Qed.

(** C16: in a commitment transaction that was built, each HTLC the caller passed is told the position of an output with its script and its amount, next to the data the caller keeps with it; the transaction's own list holds the same HTLCs, in the order of their outputs. *)
Theorem htlcs_find_their_outputs {T} (number vb vc : Z) (anchors : bool) (fb fc : PublicKey) (ks : TxCreationKeys) (feerate : Z)
    (aux aux' : list (HTLCOutputInCommitment * T)) (params : DirectedChannelTransactionParameters) (tx : CommitmentTransaction) :
  new_with_auxiliary_htlc_data number vb vc anchors fb fc ks feerate aux params = Ret (tx, aux') ->
  let outs := output (transaction (built tx)) in
  Z.of_nat (length outs) < 2 ^ 32 ->
  length aux' = length aux /\
  (forall k h t, aux !! k = Some (h, t) ->
     exists p, aux' !! k = Some (set_output_index (Z.of_nat p) h, t) /\ outs !! p = Some (htlc_txout anchors ks h)) /\
  htlcs tx ≡ₚ aux'.*1 /\ StronglySorted by_index (htlcs tx).
Proof.
  intros E outs Hlt. unfold new_with_auxiliary_htlc_data in E. apply outcome_bind_Ret in E as ([r aux0] & E1 & E).
  apply build_outputs_spec in E1 as (cs & delay & plain & os & hs & _ & _ & _ & -> & _ & Hin & Hlen & Hperm & Hinc). cbn [unwrap_result mbind outcome_bind] in E.
  apply outcome_bind_Ret in E as ([obscured txins] & _ & E). injection E as <- <-. subst outs. cbn in Hlt |- *. split_and!; [done| |done|by apply Hinc].
  intros k h t Hk. destruct (Hin k h t Hk) as (p & Hp & Ho). pose proof (lookup_lt_Some _ _ _ Ho). exists p. rewrite wrap_small in Hp by (unfold in_width; lia). done.
Qed.

(** ** An external signer's check *)

(** No output of an HTLC looks like one that is none. *)
Definition separated (u : list (TxOut * option htlc_ref)) : Prop := forall out out' r, (out, None) ∈ u -> (out', Some r) ∈ u -> out <> out'.

Lemma tie_breaker_order u : separated u -> composes (output_cmp htlc_tie_breaker) (fun x => x ∈ u).
Proof.
  intros Hs. apply output_cmp_composes.
  - intros [o [[k h]|]] [o' [[k' h']|]] Ha Hb E; cbn in *; subst; try done. rewrite then_with_opp. by rewrite Z.compare_antisym, slice_cmp_opp.
  - intros o [o1 [[k1 h1]|]] [o2 [[k2 h2]|]] [o3 [[k3 h3]|]] Ha Hb Hc E1 E2; cbn in E1, E2 |- *; subst;
      try (by intros); try (by destruct (Hs _ _ _ Ha Hb)); try (by destruct (Hs _ _ _ Hb Ha)); try (by destruct (Hs _ _ _ Hb Hc)); try (by destruct (Hs _ _ _ Hc Hb)).
    pose proof (then_with_composes (fun a b => cltv_expiry a ?= cltv_expiry b) (fun a b => slice_cmp (payment_hash a) (payment_hash b)) (fun _ => True)) as [_ Ht].
    + apply compare_composes.
    + intros; apply slice_cmp_opp.
    + intros; by eapply slice_cmp_trans.
    + by apply (Ht o h1 h2 h3).
Qed.

Lemma assign_indices_outputs {T} n l (aux : list (HTLCOutputInCommitment * T)) : (assign_indices n l aux).1.1 = l.*1.
Proof.
  revert n aux. induction l as [|[out [[k h]|]] l IH]; intros n aux; cbn [assign_indices]; [done|..].
  - specialize (IH (S n) (alter (fun e => (set_output_index (wrap 32 (Z.of_nat n)) h, e.2)) k aux)). destruct (assign_indices _ _ _) as [[? ?] ?]. cbn in *. by rewrite IH.
  - specialize (IH (S n) aux). destruct (assign_indices _ _ _) as [[? ?] ?]. cbn in *. by rewrite IH.
Qed.

Lemma separated_split {T} plain anchors keys (aux : list (HTLCOutputInCommitment * T)) :
  separated ((no_ref <$> plain) ++ htlc_outputs anchors keys aux) <-> forall out, out ∈ plain -> out ∉ (htlc_txout anchors keys <$> aux.*1).
Proof.
  split.
  - intros Hs out Hp Hh. rewrite <- htlc_outputs_fst in Hh. apply list_elem_of_fmap in Hh as ([out' r] & -> & Hin).
    pose proof Hin as Hin'. apply elem_of_lookup_imap in Hin' as (k & e & [= Eo Er] & _). subst r.
    eapply (Hs out' out'); [apply elem_of_app; left; by apply (list_elem_of_fmap_2 no_ref)|apply elem_of_app; by right|done].
  - intros Hd out out' r Hx Hy ->. apply elem_of_app in Hx as [Hx|Hx]; [|apply elem_of_lookup_imap in Hx as (? & ? & [=] & _)].
    apply list_elem_of_fmap in Hx as (o & [= <-] & Hx). apply elem_of_app in Hy as [Hy|Hy]; [apply list_elem_of_fmap in Hy as (? & [=] & _)|].
    apply (Hd out' Hx). rewrite <- htlc_outputs_fst. by apply (list_elem_of_fmap_2 fst _ (out', Some r)).
Qed.

(** The outputs do not depend on the order in which the HTLCs are given. *)
Lemma build_outputs_order {T U} keys vb vc (aux : list (HTLCOutputInCommitment * T)) (aux2 : list (HTLCOutputInCommitment * U)) params anchors fb fc outs hs aux' :
  internal_build_outputs keys vb vc aux params anchors fb fc = Ret (Ok (outs, hs), aux') ->
  (forall u, unsorted_outputs keys vb vc aux params anchors fb fc = Ret u -> separated u) ->
  htlc_txout anchors keys <$> aux.*1 ≡ₚ htlc_txout anchors keys <$> aux2.*1 ->
  exists hs2 aux2', internal_build_outputs keys vb vc aux2 params anchors fb fc = Ret (Ok (outs, hs2), aux2').
Proof.
  intros E Hsep Hp. assert (Hlen : length aux = length aux2) by (apply Permutation_length in Hp; by rewrite !length_fmap in Hp).
  apply build_outputs_spec in E as (cs & delay & plain & os & hs' & Ec & Ed & Epl & [= <- <-] & Eo & _ & _ & _ & _).
  unfold internal_build_outputs. specialize (Hsep ((no_ref <$> plain) ++ htlc_outputs anchors keys aux)).
  rewrite !unsorted_outputs_split in *. rewrite <- Hlen, Ec, Ed in *. cbn [mbind outcome_bind] in *. rewrite Epl in *. cbn [mbind outcome_bind] in *. specialize (Hsep eq_refl).
  destruct (assign_indices 0 (sort_outputs ((no_ref <$> plain) ++ htlc_outputs anchors keys aux2) htlc_tie_breaker) aux2) as [[outs2 hs2] aux2'] eqn:Ea.
  exists hs2, aux2'. do 4 f_equal. pose proof (f_equal (fun x => x.1.1) Ea) as E2. cbn beta in E2. rewrite assign_indices_outputs in E2. cbn [fst snd] in E2. subst outs2 outs.
  apply in_order_unique.
  - rewrite !(fmap_Permutation fst _ _ (sort_outputs_permutation _ _)), !fmap_app, !no_ref_fst, !htlc_outputs_fst. by rewrite Hp.
  - apply sort_outputs_in_order, tie_breaker_order. apply separated_split. intros out Ho. rewrite separated_split in Hsep. rewrite <- Hp. by apply Hsep.
  - by apply sort_outputs_in_order, tie_breaker_order.
Qed.

(** A commitment transaction built with the keys of its channel passes [verify], which rebuilds it from its own list of HTLCs, in another order and with whatever order the sort gives equal outputs; unless an HTLC's output looks like one that is none. *)
Theorem built_commitment_verifies `{EqDecision PublicKey} {T} (number vb vc : Z) (anchors : bool) (bk ck : ChannelPublicKeys) (ks : TxCreationKeys) (feerate : Z)
    (aux aux' : list (HTLCOutputInCommitment * T)) (params : DirectedChannelTransactionParameters) (tx : CommitmentTransaction) :
  new_with_auxiliary_htlc_data number vb vc anchors (funding_pubkey bk) (funding_pubkey ck) ks feerate aux params = Ret (tx, aux') ->
  from_channel_static_keys (per_commitment_point ks) bk ck = Ok ks ->
  (forall u, unsorted_outputs ks vb vc aux params anchors (funding_pubkey bk) (funding_pubkey ck) = Ret u -> separated u) ->
  commitment_verify tx params bk ck = Ret (Ok tx).
Proof.
  intros E Hk Hsep. unfold new_with_auxiliary_htlc_data in E. apply outcome_bind_Ret in E as ([r aux0] & E1 & E).
  pose proof E1 as E1'. apply build_outputs_spec in E1' as (cs & delay & plain & os & hs & _ & _ & _ & -> & _ & Hin & Hlen & Hperm & _).
  cbn [unwrap_result mbind outcome_bind] in E. apply outcome_bind_Ret in E as ([obscured txins] & E2 & E). injection E as <- <-.
  unfold commitment_verify. cbn [ChanTx.keys built]. rewrite Hk. cbn [unwrap_result mbind outcome_bind]. rewrite !bool_decide_true by done. cbn [andb negb].
  unfold internal_rebuild_transaction. cbn [commitment_number htlcs opt_anchors to_broadcaster_value_sat to_countersignatory_value_sat]. rewrite E2. cbn [mbind outcome_bind].
  destruct (build_outputs_order ks vb vc aux ((fun h => (h, tt)) <$> hs) params anchors (funding_pubkey bk) (funding_pubkey ck) os hs aux0) as (hs2 & aux2' & E3); [done|done| |].
  { assert (Eh : ((fun h => (h, tt)) <$> hs).*1 = hs) by (rewrite <- list_fmap_compose; apply list_fmap_id). rewrite Eh, Hperm. apply reflexive_eq, list_eq. intros k. rewrite !list_lookup_fmap.
    destruct (aux !! k) as [[h t]|] eqn:Ek.
    - destruct (Hin k h t Ek) as (p & -> & _). done.
    - apply lookup_ge_None_1 in Ek. by rewrite (lookup_ge_None_2 aux0 k) by lia. }
  replace (bool_decide (is_Some (if anchors then Some tt else None))) with anchors by (by destruct anchors; case_bool_decide as Hs; [| |destruct Hs|]; try done; destruct Hs).
  rewrite E3. cbn [mbind outcome_bind]. cbn [transaction built_txid]. rewrite !bool_decide_false by (by intros []). done.
Qed.

(** *** Closing transactions *)

(** What a closing transaction pays: each side its value, unless that is nothing, and in the order of BIP 69. *)
Theorem closing_pays_both (vh vc : Z) (sh sc : bytes) (funding : BitcoinOutPoint) :
  0 <= vh -> 0 <= vc ->
  let tx := build_closing_transaction vh vc sh sc funding in
  output tx ≡ₚ (if 0 <? vc then [mkTxOut sc vc] else []) ++ (if 0 <? vh then [mkTxOut sh vh] else []) /\
  in_order (output tx) /\ values (output tx) = vh + vc.
Proof.
  intros Hh Hc tx. assert (Hp : output tx ≡ₚ (if 0 <? vc then [mkTxOut sc vc] else []) ++ (if 0 <? vh then [mkTxOut sh vh] else [])).
  { unfold tx, build_closing_transaction. cbn [output]. rewrite (fmap_Permutation fst _ _ (sort_outputs_permutation _ _)). by destruct (0 <? vh), (0 <? vc). }
  split; [done|]. split.
  - apply sort_outputs_in_order, output_cmp_composes; [done|]. by intros o a b c _ _ _ _ _ <-.
  - rewrite (values_Permutation _ _ Hp). unfold values. destruct (Z.ltb_spec 0 vc), (Z.ltb_spec 0 vh); cbn; lia.
Qed.

End Sorted.

(** ** The number of a commitment transaction *)

Lemma obscure_factor_swap b c outbound :
  get_commitment_transaction_number_obscure_factor b c outbound = get_commitment_transaction_number_obscure_factor c b (negb outbound).
Proof. unfold get_commitment_transaction_number_obscure_factor. by destruct outbound. Qed.

Lemma obscure_factor_width `{!Sha256Laws} b c outbound : in_width 48 (get_commitment_transaction_number_obscure_factor b c outbound).
Proof.
  unfold get_commitment_transaction_number_obscure_factor. set (m := if outbound then _ else _). destruct (Sha256_array m) as [_ Hu].
  assert (Hb : forall i, u8 (nth i (Sha256_hash m) 0)).
  { intros i. revert i. induction Hu as [|x l Hx _ IH]; intros [|i]; cbn; try done; apply IH. }
  assert (Hs : forall i k, 0 <= k <= 40 -> in_width 48 (Z.shiftl (nth i (Sha256_hash m) 0) k)) by (intros i k Hk; apply (shiftl_in_width 8); auto; lia).
  repeat (apply lor_in_width; [lia| |]); apply Hs; lia.
Qed.

Lemma lxor_in_width w a b : 0 <= w -> in_width w a -> in_width w b -> in_width w (Z.lxor a b).
Proof.
  intros Hw Ha Hb. apply in_width_testbit; [done| |].
  - apply Z.lxor_nonneg. destruct Ha, Hb. lia.
  - intros i Hi. rewrite Z.lxor_spec. by rewrite !(testbit_above w).
Qed.

(** The halves of a number of 48 bits, with the marks of a commitment transaction above them. *)
Lemma number_halves x : in_width 48 x ->
  Z.lor (Z.shiftl (Z.land (Z.lor (Z.shiftl 0x80 24) (wrap 32 (Z.shiftr x 24))) 0xffffff) 24)
    (Z.land (Z.lor (Z.shiftl 0x20 24) (wrap 32 (Z.land x 0xffffff))) 0xffffff) = x.
Proof.
  intros Hx. assert (Hhi : in_width 24 (Z.shiftr x 24)) by (apply (shiftr_in_width 48); auto; lia).
  assert (Hlo : in_width 24 (Z.land x 0xffffff)) by (apply land_in_width; [lia|done]).
  rewrite !wrap_small by (eapply in_width_mono; [|eassumption]; lia). change 0xffffff with (Z.ones 24) in *.
  rewrite !Z.land_lor_distr_l. change (Z.land (Z.shiftl 0x80 24) (Z.ones 24)) with 0. change (Z.land (Z.shiftl 0x20 24) (Z.ones 24)) with 0. rewrite !Z.lor_0_l.
  rewrite <- Z.land_assoc, Z.land_diag, !Z.land_ones by lia. rewrite (Z.mod_small (Z.shiftr x 24)) by done. rewrite lor_shiftl_add by (lia || apply Z.mod_pos_bound; lia).
  rewrite Z.shiftr_div_pow2 by lia. pose proof (Z.div_mod x (2 ^ 24) ltac:(lia)). lia.
Qed.

(** From a commitment transaction on the chain, a channel monitor reads back the number it was built for, with the obscuring factor as the other side computes it. *)
Theorem commitment_number_read_back `{!Sha256Laws} {T} (number vb vc : Z) (anchors : bool) (fb fc : PublicKey) (ks : TxCreationKeys) (feerate : Z)
    (aux aux' : list (HTLCOutputInCommitment * T)) (params : DirectedChannelTransactionParameters) (tx : CommitmentTransaction) (b c : ChannelPublicKeys) :
  0 <= number ->
  new_with_auxiliary_htlc_data number vb vc anchors fb fc ks feerate aux params = Ret (tx, aux') ->
  broadcaster_pubkeys params = Ret b -> countersignatory_pubkeys params = Ret c ->
  let t := transaction (built tx) in
  exists i, input t = [i] /\ funding_outpoint params = Ret (previous_output i) /\
    read_commitment_number (sequence i) (lock_time t)
      (get_commitment_transaction_number_obscure_factor (payment_point c) (payment_point b) (negb (is_outbound params))) = number.
Proof.
  intros Hn E Eb Ec t. unfold new_with_auxiliary_htlc_data in E. apply outcome_bind_Ret in E as ([r aux0] & _ & E). apply outcome_bind_Ret in E as ([os hs] & _ & E).
  apply outcome_bind_Ret in E as ([obscured txins] & E2 & E). injection E as <- <-. subst t. unfold internal_build_inputs in E2. rewrite Eb, Ec in E2. cbn [mbind outcome_bind] in E2.
  rewrite <- obscure_factor_swap. set (factor := get_commitment_transaction_number_obscure_factor _ _ _) in *.
  unfold sub64, checked_op in E2. destruct (in_widthb 64 _) eqn:Ew; [|done]. apply in_widthb_true in Ew. cbn [mbind outcome_bind] in E2. apply outcome_bind_Ret in E2 as (point & Ep & E2). injection E2 as <- <-.
  cbn [transaction built make_transaction input lock_time]. eexists. split; [done|]. split; [done|]. cbn [sequence]. unfold read_commitment_number.
  assert (Hx : in_width 48 (Z.lxor factor (INITIAL_COMMITMENT_NUMBER - number))).
  { apply lxor_in_width; [lia|apply obscure_factor_width|]. unfold in_width, INITIAL_COMMITMENT_NUMBER in *. change (Z.shiftl 1 48) with (2 ^ 48) in *. lia. }
  change (8 * 3) with 24. change (3 * 8) with 24. rewrite (number_halves _ Hx), Z.lxor_comm, <- Z.lxor_assoc, Z.lxor_nilpotent, Z.lxor_0_l.
  unfold INITIAL_COMMITMENT_NUMBER. change (Z.shiftl 1 48) with (2 ^ 48). lia.
Qed.

(** ** Scripts *)

(** The funding script does not depend on who is named first. *)
Lemma funding_redeemscript_sym a b : SecpLaws -> make_funding_redeemscript a b = make_funding_redeemscript b a.
Proof.
  intros HL. unfold make_funding_redeemscript. rewrite (slice_cmp_opp (pk_serialize a) (pk_serialize b)).
  destruct (slice_cmp (pk_serialize a) (pk_serialize b)) eqn:E; cbn; [|done|done]. apply slice_cmp_eq in E. by rewrite E.
Qed.

(** The witness of a signed commitment transaction lists the signatures in the order in which the funding script lists the keys, after the empty element and before the script. *)
Theorem witness_follows_script (ctx : CommitmentTransaction) (cp_sig holder_sig : Signature) (htlc_sigs : list Signature) (holder counterparty : PublicKey) (tx : Transaction) :
  SecpLaws ->
  let script := make_funding_redeemscript holder counterparty in
  add_holder_sig (holder_new ctx cp_sig htlc_sigs holder counterparty) script holder_sig = Ret tx ->
  exists i is' k1 s1 k2 s2,
    input (transaction (built ctx)) = i :: is' /\
    script = into_script [push_opcode OP_PUSHNUM_2; push_slice (pk_serialize k1); push_slice (pk_serialize k2); push_opcode OP_PUSHNUM_2; push_opcode OP_CHECKMULTISIG] /\
    ((k1, s1, k2, s2) = (holder, holder_sig, counterparty, cp_sig) \/ (k1, s1, k2, s2) = (counterparty, cp_sig, holder, holder_sig)) /\
    slice_cmp (pk_serialize k1) (pk_serialize k2) <> Gt /\
    witness <$> input tx = (witness i ++ [[]; ser_sig s1 All; ser_sig s2 All; script]) :: (witness <$> is') /\ output tx = output (transaction (built ctx)).
Proof.
  intros HL script E. unfold add_holder_sig, push_witness in E. cbn [inner holder_new counterparty_sig holder_sig_first] in E.
  destruct (input (transaction (built ctx))) as [|i is'] eqn:Ei; [done|]. injection E as <-.
  assert (Hgt : slice_cmp (pk_serialize holder) (pk_serialize counterparty) <> Lt -> slice_cmp (pk_serialize counterparty) (pk_serialize holder) <> Gt).
  { rewrite (slice_cmp_opp (pk_serialize holder)). by destruct (slice_cmp _ _). }
  unfold script, make_funding_redeemscript. case_bool_decide as Hlt.
  - exists i, is', holder, holder_sig, counterparty, cp_sig. rewrite Hlt. split_and!; try done. by left.
  - exists i, is', counterparty, cp_sig, holder, holder_sig. split_and!; try done; [by right|by apply Hgt].
Qed.

(** The output of an HTLC transaction is the HTLC's amount less the fee at the given rate. *)
Lemma htlc_transaction_value txid feerate delay htlc anchors dk rk tx :
  build_htlc_transaction txid feerate delay htlc anchors dk rk = Ret tx ->
  exists vout, transaction_output_index htlc = Some vout /\ previous_output <$> input tx = [mkVout txid vout] /\
    values (output tx) + feerate * (if offered htlc then htlc_timeout_tx_weight anchors else htlc_success_tx_weight anchors) `div` 1000 = amount_msat htlc `div` 1000 /\
    lock_time tx = if offered htlc then cltv_expiry htlc else 0.
Proof.
  intros E. unfold build_htlc_transaction in E. inv_outcome. eexists. split; [done|]. split; [done|]. match goal with Hs : sub64 _ _ = Ret _ |- _ => unfold sub64, checked_op in Hs; destruct (in_widthb 64 _); [injection Hs as <-|done] end.
  split; [|done]. unfold values. cbn. lia.
Qed.

End Laws.

(** ** Lengths of scripts *)

(** Bytes of a script number, and of what a call of the builder appends. *)
Definition scriptint_len (n : Z) : Z :=
  if n <=? 0x7f then 1 else if n <=? 0x7fff then 2 else if n <=? 0x7fffff then 3 else if n <=? 0x7fffffff then 4 else 5.
Definition item_len (item : script_item) : Z :=
  match item with
  | push_opcode _ => 1
  | push_slice data => 1 + Z.of_nat (length data)
  | push_int n => if n <=? 16 then 1 else 1 + scriptint_len n
  end.
Definition short_item (item : script_item) : Prop :=
  match item with push_slice data => Z.of_nat (length data) < 76 | push_int n => 0 <= n < 2 ^ 39 | push_opcode _ => True end.

(** Opcodes and numbers up to 16 take a byte, short data and other numbers one more than
    themselves; the hashes have 20 bytes. *)
Class ScriptLaws `{BitcoinApi} := {
  into_script_len items : Forall short_item items -> Z.of_nat (length (into_script items)) = foldr (fun i n => item_len i + n) 0 items;
  ripemd160_len m : length (Ripemd160_hash m) = 20%nat;
  pubkey_hash_len m : length (PubkeyHash_hash m) = 20%nat;
}.

Section Lengths.
Context `{ScriptLaws} `{!SecpLaws}.

Lemma pk_len k : length (pk_serialize k) = 33%nat.
Proof. apply pk_array. Qed.

Lemma htlc_script_len htlc anchors bk ck rk : u32 (cltv_expiry htlc) ->
  Z.of_nat (length (get_htlc_redeemscript_with_explicit_keys htlc anchors bk ck rk)) =
  (if anchors then 3 else 0) + if offered htlc then 133 else 135 + item_len (push_int (cltv_expiry htlc)).
Proof.
  intros [Hc Hc']. unfold get_htlc_redeemscript_with_explicit_keys, htlc_items. rewrite into_script_len.
  - destruct (offered htlc), anchors; cbn [foldr app item_len]; rewrite ?pk_len, ?ripemd160_len, ?pubkey_hash_len; cbn; lia.
  - destruct (offered htlc), anchors; cbn [app]; repeat constructor; cbn [short_item]; rewrite ?pk_len, ?ripemd160_len, ?pubkey_hash_len; lia.
Qed.

(** [scriptlen_to_htlctype] recognises the scripts of offered HTLCs, and those of received ones that expire before height 2^23, on channels without anchors. *)
Theorem htlc_scripts_recognised (htlc : HTLCOutputInCommitment) (bk ck rk : PublicKey) :
  u32 (cltv_expiry htlc) ->
  scriptlen_to_htlctype (Z.of_nat (length (get_htlc_redeemscript_with_explicit_keys htlc false bk ck rk))) =
  if offered htlc then Some OfferedHTLC
  else if cltv_expiry htlc <? 2 ^ 23 then Some AcceptedHTLC else None.
Proof.
  intros Hc. rewrite htlc_script_len by done. destruct (offered htlc); [done|]. cbn [item_len]. unfold scriptint_len.
  set (c := cltv_expiry htlc) in *. unfold in_width in Hc. change (2 ^ 23) with 0x800000.
  repeat match goal with |- context [?a <=? ?b] => destruct (Z.leb_spec a b) end; destruct (Z.ltb_spec c 0x800000); try lia; reflexivity.
Qed.

(** The assertion on the length of the script of a delayed output holds for delays below
    32768 blocks, and fails for the rest of [u16]. *)
Theorem revokeable_script_delay (rk dk : PublicKey) (delay : Z) :
  u16 delay -> (exists s, get_revokeable_redeemscript rk delay dk = Ret s) <-> delay < 0x8000.
Proof.
  intros Hd. unfold get_revokeable_redeemscript, in_width in *. rewrite into_script_len.
  - unfold revokeable_items. cbn [foldr item_len]. rewrite !pk_len. unfold REVOKEABLE_REDEEMSCRIPT_MAX_LENGTH, scriptint_len.
    repeat match goal with |- context [delay <=? ?b] => destruct (Z.leb_spec delay b) end; cbn;
      (split; [intros [s E]; try lia; discriminate E|intros; try lia; by eexists]).
  - repeat constructor; cbn [short_item]; rewrite ?pk_len; lia.
Qed.
End Lengths.
