(* ===== verification/ChanCodecs.v ===== *)
(** * The structures of chan_utils.rs on disk

    Keys, HTLCs, channel parameters and commitment transactions are stored with the channel
    monitor; each is read back as it was written. *)

From S2P Require Import Prelude Text Bytes Stream Ser SerLaws Tlv TlvStruct Msgs Secrets Transactions ChanTx.

Local Open Scope Z_scope.

(** [bitcoin::Transaction], by consensus encoding: a codec of the bitcoin crate. *)
Class TransactionCodec := { transactionc : Codec Transaction }.
Class TransactionCodecLaws `{TransactionCodec} (tx_ok : Transaction -> Prop) := { transaction_roundtrip :: RoundTrip transactionc tx_ok }.

Section Source.
Context `{BitcoinApi} `{TransactionCodec}.

(** Five local variables, and setting one of them. *)
Definition vars5 (A B C D E : Type) : Type := option A * option B * option C * option D * option E.
Definition set1 {A B C D E} (x : option A) (s : vars5 A B C D E) : vars5 A B C D E := let '(_, b, c, d, e) := s in (x, b, c, d, e).
Definition set2 {A B C D E} (x : option B) (s : vars5 A B C D E) : vars5 A B C D E := let '(a, _, c, d, e) := s in (a, x, c, d, e).
Definition set3 {A B C D E} (x : option C) (s : vars5 A B C D E) : vars5 A B C D E := let '(a, b, _, d, e) := s in (a, b, x, d, e).
Definition set4 {A B C D E} (x : option D) (s : vars5 A B C D E) : vars5 A B C D E := let '(a, b, c, _, e) := s in (a, b, c, x, e).
Definition set5 {A B C D E} (x : option E) (s : vars5 A B C D E) : vars5 A B C D E := let '(a, b, c, d, _) := s in (a, b, c, d, x).

(** A present [option] field sets its variable. *)
Definition when_some {T S} (set : option T -> S -> S) (o : option T) (s : S) : S := match o with Some x => set (Some x) s | None => s end.

Definition tx_creation_keysc : Codec TxCreationKeys :=
  impl_writeable_tlv_based
    [required 0 pubkeyc per_commitment_point set1; required 2 pubkeyc revocation_key set2; required 4 pubkeyc broadcaster_htlc_key set3;
     required 6 pubkeyc countersignatory_htlc_key set4; required 8 pubkeyc broadcaster_delayed_payment_key set5]
    (None, None, None, None, None)
    (fun '(a, b, c, d, e) => a ← a; b ← b; c ← c; d ← d; e ← e; Some (mkTxCreationKeys a b c d e)).

Definition channel_public_keysc : Codec ChannelPublicKeys :=
  impl_writeable_tlv_based
    [required 0 pubkeyc funding_pubkey set1; required 2 pubkeyc revocation_basepoint set2; required 4 pubkeyc payment_point set3;
     required 6 pubkeyc delayed_payment_basepoint set4; required 8 pubkeyc htlc_basepoint set5]
    (None, None, None, None, None)
    (fun '(a, b, c, d, e) => a ← a; b ← b; c ← c; d ← d; e ← e; Some (mkChannelPublicKeys a b c d e)).

Definition htlcc : Codec HTLCOutputInCommitment :=
  impl_writeable_tlv_based
    [required 0 boolc offered set1; required 2 u64c amount_msat set2; required 4 u32c cltv_expiry set3; required 6 (arrayc 32) payment_hash set4;
     optional 8 u32c transaction_output_index (when_some set5)]
    (None, None, None, None, None)
    (fun '(a, b, c, d, e) => a ← a; b ← b; c ← c; d ← d; Some (mkHTLC a b c d e)).

Definition counterparty_parametersc : Codec CounterpartyChannelTransactionParameters :=
  impl_writeable_tlv_based
    [required 0 channel_public_keysc pubkeys (fun x (s : option ChannelPublicKeys * option Z) => (x, s.2)); required 2 u16c selected_contest_delay (fun x s => (s.1, x))]
    (None, None) (fun '(a, b) => a ← a; b ← b; Some (mkCounterpartyParameters a b)).

(** Variables of [ChannelTransactionParameters]: the first five, and [opt_anchors]. *)
Definition fst5 {A B C D E F S'} (f : S' -> vars5 A B C D E -> vars5 A B C D E) (x : S') (s : vars5 A B C D E * F) : vars5 A B C D E * F := (f x s.1, s.2).

Definition channel_parametersc : Codec ChannelTransactionParameters :=
  impl_writeable_tlv_based
    [required 0 channel_public_keysc holder_pubkeys (fst5 set1); required 2 u16c holder_selected_contest_delay (fst5 set2);
     required 4 boolc is_outbound_from_holder (fst5 set3); optional 6 counterparty_parametersc counterparty_parameters (fst5 (when_some set4));
     optional 8 funding_outpointc funding_outpoint_late (fst5 (when_some set5)); optional 10 unitc parameters_opt_anchors (fun x s => (s.1, match x with Some _ => x | None => s.2 end))]
    (None, None, None, None, None, None)
    (fun '(a, b, c, d, e, f) => a ← a; b ← b; c ← c; Some (mkChannelParameters a b c d e f)).

Definition built_commitmentc : Codec BuiltCommitmentTransaction :=
  impl_writeable_tlv_based
    [required 0 transactionc transaction (fun x (s : option Transaction * option bytes) => (x, s.2)); required 2 (arrayc 32) built_txid (fun x s => (s.1, x))]
    (None, None) (fun '(a, b) => a ← a; b ← b; Some (mkBuilt a b)).

(** Variables of [CommitmentTransaction]: two groups. *)
Definition snd3 {A B C D S'} (f : S' -> B * C * D -> B * C * D) (x : S') (s : A * (B * C * D)) : A * (B * C * D) := (s.1, f x s.2).

Definition commitmentc : Codec CommitmentTransaction :=
  impl_writeable_tlv_based
    [required 0 u64c commitment_number (fst5 set1); required 2 u64c to_broadcaster_value_sat (fst5 set2); required 4 u64c to_countersignatory_value_sat (fst5 set3);
     required 6 u32c feerate_per_kw (fst5 set4); required 8 tx_creation_keysc keys (fst5 set5);
     required 10 built_commitmentc built (snd3 (fun x '(_, b, c) => (x, b, c))); vec_type 12 htlcc htlcs (snd3 (fun x '(a, _, c) => (a, x, c)));
     optional 14 unitc opt_anchors (snd3 (fun x '(a, b, c) => (a, b, match x with Some _ => x | None => c end)))]
    (None, None, None, None, None, (None, Some [], None))
    (fun '(n, vb, vc, f, k, (b, h, o)) => n ← n; vb ← vb; vc ← vc; f ← f; k ← k; b ← b; h ← h; Some (mkCommitment n vb vc f h o k b)).

(** ** Round trips *)

Definition htlc_ok (h : HTLCOutputInCommitment) : Prop :=
  u64 (amount_msat h) /\ u32 (cltv_expiry h) /\ array_ok 32 (payment_hash h) /\ (forall i, transaction_output_index h = Some i -> u32 i).

Definition parameters_ok (p : ChannelTransactionParameters) : Prop :=
  u16 (holder_selected_contest_delay p) /\ (forall c, counterparty_parameters p = Some c -> u16 (selected_contest_delay c)) /\
  (forall o, funding_outpoint_late p = Some o -> array_ok 32 (op_txid o) /\ u16 (op_index o)).

Context `{!SecpLaws}.

Lemma pubkey_len k : length_writer (c_write pubkeyc k) = 33.
Proof. rewrite length_writer_vec. unfold vec_writer. cbn [pubkeyc slicec arrayc c_write concat]. rewrite List.app_nil_r. destruct (pk_array k) as [-> _]. done. Qed.

(** The three conditions of [tlv_struct_roundtrip]: types, lengths of at most [n] each, and
    the fields; a field's codec is found by its class. *)
Ltac field_len := cbn [sf_write required optional vec_type fmap option_fmap option_map]; rewrite ?pubkey_len; try lia.
Ltac field_value :=
  first [ eapply required_ok; [apply _|] | eapply optional_ok; [apply _| |first [done|by intros []|by intros [? [[] ?]]]] | eapply vec_type_ok; [apply _|] ]; cbn beta; eauto with codec.

Global Instance tx_creation_keysc_roundtrip : RoundTrip tx_creation_keysc (fun _ => True).
Proof.
  apply tlv_struct_roundtrip; [by repeat constructor|by repeat constructor|]. intros m _. split_and!.
  - apply (small_fits m _ 33); [lia|done|]. repeat constructor; field_len.
  - repeat constructor; field_value.
  - by destruct m.
Qed.

Global Instance channel_public_keysc_roundtrip : RoundTrip channel_public_keysc (fun _ => True).
Proof.
  apply tlv_struct_roundtrip; [by repeat constructor|by repeat constructor|]. intros m _. split_and!.
  - apply (small_fits m _ 33); [lia|done|]. repeat constructor; field_len.
  - repeat constructor; field_value.
  - by destruct m.
Qed.

Lemma channel_public_keys_len k : length_writer (c_write channel_public_keysc k) <= 9 + 51 * 5.
Proof. eapply Z.le_trans; [apply (struct_len k _ _ _ 33); [lia|]; repeat constructor; field_len|done]. Qed.

Lemma tx_creation_keys_len k : length_writer (c_write tx_creation_keysc k) <= 9 + 51 * 5.
Proof. eapply Z.le_trans; [apply (struct_len k _ _ _ 33); [lia|]; repeat constructor; field_len|done]. Qed.

Global Instance htlcc_roundtrip : RoundTrip htlcc htlc_ok.
Proof.
  apply tlv_struct_roundtrip; [by repeat constructor|by repeat constructor|]. intros m (Ha & Hc & [Hl Hp] & Hi). split_and!.
  - apply (small_fits m _ 32); [lia|done|]. unfold u64c, u32c. repeat constructor; field_len; rewrite ?uint_len; try lia.
    + by rewrite length_writer_vec.
    + rewrite length_writer_vec. unfold vec_writer. cbn. rewrite List.app_nil_r. lia.
    + destruct (transaction_output_index m); cbn [fmap option_fmap option_map]; [rewrite uint_len; lia|done].
  - repeat constructor; field_value. by split.
  - destruct m as [o a c h [i|]]; done.
Qed.

Global Instance counterparty_parametersc_roundtrip : RoundTrip counterparty_parametersc (fun p => u16 (selected_contest_delay p)).
Proof.
  apply tlv_struct_roundtrip; [by repeat constructor|by repeat constructor|]. intros m Hd. split_and!.
  - apply (small_fits m _ 264); [lia|done|]. unfold u16c. repeat constructor; field_len; rewrite ?uint_len; try lia. apply channel_public_keys_len.
  - repeat constructor; field_value.
  - by destruct m.
Qed.

Lemma counterparty_parameters_len p : length_writer (c_write counterparty_parametersc p) <= 9 + (264 + 18) * 2.
Proof.
  eapply Z.le_trans; [apply (struct_len p _ _ _ 264); [lia|]; unfold u16c; repeat constructor; field_len; rewrite ?uint_len; try lia|done].
  apply channel_public_keys_len.
Qed.

Global Instance channel_parametersc_roundtrip : RoundTrip channel_parametersc parameters_ok.
Proof.
  apply tlv_struct_roundtrip; [by repeat constructor|by repeat constructor|]. intros m (Hd & Hc & Ho). split_and!.
  - apply (small_fits m _ 573); [lia|done|]. unfold u16c. repeat constructor; field_len; rewrite ?uint_len; try lia.
    + eapply Z.le_trans; [apply channel_public_keys_len|done].
    + by rewrite length_writer_vec.
    + destruct (counterparty_parameters m); cbn [fmap option_fmap option_map]; [eapply Z.le_trans; [apply counterparty_parameters_len|done]|done].
    + destruct (funding_outpoint_late m) as [o|] eqn:Eo; cbn [fmap option_fmap option_map]; [|done]. destruct (Ho o eq_refl) as [[Hl _] _].
      rewrite length_writer_vec. unfold vec_writer. cbn. rewrite length_app, ?List.app_nil_r. cbn. lia.
    + by destruct (parameters_opt_anchors m).
  - repeat constructor; field_value.
  - destruct m as [a b c [d|] [e|] [[]|]]; done.
Qed.

(** The length of a commitment transaction's stream is not bounded by its type. *)
Definition commitment_ok (tx_ok : Transaction -> Prop) (m : CommitmentTransaction) : Prop :=
  u64 (commitment_number m) /\ u64 (to_broadcaster_value_sat m) /\ u64 (to_countersignatory_value_sat m) /\ u32 (feerate_per_kw m) /\
  Forall htlc_ok (htlcs m) /\ tx_ok (transaction (built m)) /\ array_ok 32 (built_txid (built m)) /\
  length_writer (c_write transactionc (transaction (built m))) <= 2 ^ 30 /\ Z.of_nat (length (htlcs m)) <= 2 ^ 16.

Section Commitment.
Context (tx_ok : Transaction -> Prop) `{!TransactionCodecLaws tx_ok}.

Global Instance built_commitmentc_roundtrip :
  RoundTrip built_commitmentc (fun b => tx_ok (transaction b) /\ array_ok 32 (built_txid b) /\ length_writer (c_write transactionc (transaction b)) <= 2 ^ 30).
Proof.
  apply tlv_struct_roundtrip; [by repeat constructor|by repeat constructor|]. intros m (Ht & [Hl Hu] & Hs). split_and!.
  - apply (small_fits m _ (2 ^ 30)); [lia|done|]. repeat constructor; field_len. rewrite length_writer_vec. unfold vec_writer. cbn. rewrite List.app_nil_r. lia.
  - repeat constructor; field_value. by split.
  - by destruct m.
Qed.

Lemma built_len b : array_ok 32 (built_txid b) -> length_writer (c_write transactionc (transaction b)) <= 2 ^ 30 ->
  length_writer (c_write built_commitmentc b) <= 9 + (2 ^ 30 + 18) * 2.
Proof.
  intros [Hl _] Hs. eapply Z.le_trans; [apply (struct_len b _ _ _ (2 ^ 30)); [lia|]; repeat constructor; field_len|done].
  rewrite length_writer_vec. unfold vec_writer. cbn. rewrite List.app_nil_r. lia.
Qed.

Lemma htlc_len h : array_ok 32 (payment_hash h) -> (length (encode htlcc h) <= 259)%nat.
Proof.
  intros [Hl _]. apply Nat2Z.inj_le. unfold encode. rewrite <- length_writer_vec. eapply Z.le_trans; [apply (struct_len h _ _ _ 32); [lia|]; unfold u64c, u32c|done].
  repeat constructor; field_len; rewrite ?uint_len; try lia; [by rewrite length_writer_vec|rewrite length_writer_vec; unfold vec_writer; cbn; rewrite List.app_nil_r; lia|].
  destruct (transaction_output_index h); cbn [fmap option_fmap option_map]; [rewrite uint_len; lia|done].
Qed.

Lemma htlcs_len hs : Forall htlc_ok hs -> length_writer (write_each htlcc hs) <= 259 * Z.of_nat (length hs).
Proof.
  rewrite length_writer_vec. unfold vec_writer, write_each. induction 1 as [|h hs (_ & _ & Hh & _) _ IH]; [done|]. cbn [fmap list_fmap concat length].
  rewrite concat_app, length_app. pose proof (htlc_len h Hh) as Hl. unfold encode, vec_writer in Hl. lia.
Qed.

Lemma htlcc_nonempty : nonempty htlcc htlc_ok.
Proof.
  intros h _. unfold encode, vec_writer. cbn [htlcc impl_writeable_tlv_based c_write]. unfold write_tlv_fields. rewrite concat_app.
  match goal with |- context [c_write BigSize ?x] => pose proof (bigsize_len x) as Hb end. rewrite serialized_length_encode in Hb. unfold encode, vec_writer in Hb.
  destruct (concat (c_write BigSize _)); [cbn in Hb; lia|done].
Qed.

Global Instance htlcs_roundtrip : EndRoundTrip (vec_wrapper htlcc) (Forall htlc_ok).
Proof. apply vec_wrapper_roundtrip; [apply _|done|apply htlcc_nonempty]. Qed.

Global Instance commitmentc_roundtrip : RoundTrip commitmentc (commitment_ok tx_ok).
Proof.
  apply tlv_struct_roundtrip; [by repeat constructor|by repeat constructor|]. intros m (H1' & H2' & H3' & H4' & Hh & Ht & Hi & Hs & Hn). split_and!.
  - apply (small_fits m _ (9 + (2 ^ 30 + 18) * 2)); [lia|done|]. unfold u64c, u32c. repeat constructor; field_len; rewrite ?uint_len; try lia.
    + apply (Z.le_trans _ _ _ (tx_creation_keys_len (keys m))). lia.
    + by apply built_len.
    + apply (Z.le_trans _ (259 * Z.of_nat (length (htlcs m)))); [by apply htlcs_len|lia].
    + by destruct (opt_anchors m).
  - repeat (apply Forall_cons; split); [field_value|field_value|field_value|field_value|field_value| | | |constructor].
    + by apply (required_ok 10 built_commitmentc _ built _ m (round_trip_end _ _ built_commitmentc_roundtrip)).
    + by apply (vec_type_ok 12 htlcc _ htlcs _ m htlcs_roundtrip).
    + field_value.
  - destruct m as [n vb vc f h [[]|] k b]; done.
Qed.
End Commitment.

End Source.
