(* ===== verification/Octets.v ===== *)
(** * Encodings are bytes

    The encoder of a message in range writes bytes, which is what the transport encrypts: an
    instance of [Octets] per codec, and the encoding of every message that can be sent. *)

From S2P Require Import Prelude Text Bytes Stream Ser SerLaws Tlv Features Msgs ChannelMsgs ChannelMsgsLaws GossipMsgs Wire.

Local Open Scope Z_scope.

Class Octets {T} (c : Codec T) (valid : T -> Prop) : Prop :=
  octets : forall x, valid x -> all_u8 (concat (c_write c x)).

Lemma u8_nil : all_u8 (concat []).
Proof. constructor. Qed.
Lemma u8_one (x : bytes) : all_u8 x -> all_u8 (concat [x]).
Proof. cbn. by rewrite List.app_nil_r. Qed.
Lemma u8_app (a b : list bytes) : all_u8 (concat a) -> all_u8 (concat b) -> all_u8 (concat (a ++ b)).
Proof. intros. rewrite concat_app. by apply Forall_app. Qed.
Lemma u8_cons (x : bytes) (b : list bytes) : all_u8 x -> all_u8 (concat b) -> all_u8 (concat (x :: b)).
Proof. intros. cbn. by apply Forall_app. Qed.
Lemma u8_concat (l : list (list bytes)) : Forall (fun a => all_u8 (concat a)) l -> all_u8 (concat (concat l)).
Proof. induction 1; cbn [concat]; [constructor|]. by apply u8_app. Qed.

Create HintDb octets.
#[export] Hint Resolve u8_nil u8_one u8_app u8_cons octets zeros_u8 to_be_bytes_u8 : octets.

Section Codecs.
Context `{SecpLaws}.

Global Instance u8c_octets : Octets u8c u8.
Proof. intros x Hx. apply u8_one. by constructor. Qed.
Global Instance uintc_octets n : Octets (uintc n) (fun _ => True).
Proof. intros x _. apply u8_one, to_be_bytes_u8. Qed.
Global Instance u16c_octets : Octets u16c (fun _ => True) := uintc_octets 2.
Global Instance u32c_octets : Octets u32c (fun _ => True) := uintc_octets 4.
Global Instance u64c_octets : Octets u64c (fun _ => True) := uintc_octets 8.
Global Instance boolc_octets : Octets boolc (fun _ => True).
Proof. intros [] _; by repeat constructor. Qed.
Global Instance bigsize_octets : Octets BigSize (fun _ => True).
Proof.
  intros x _. unfold BigSize. cbn [c_write]. repeat case_match; repeat apply u8_app; try (apply u8c_octets; by vm_compute);
    try (by apply octets); try done. apply u8c_octets. by apply wrap_in_width.
Qed.
Global Instance arrayc_octets n : Octets (arrayc n) (array_ok n).
Proof. intros x [_ Hx]. by apply u8_one. Qed.
Global Instance vecc_octets : Octets vecc vec_ok.
Proof. intros x [_ Hx]. apply u8_app; [by apply octets|by apply u8_one]. Qed.
Global Instance scriptc_octets : Octets scriptc vec_ok := vecc_octets.
Global Instance pairc_octets {A B} (a : Codec A) (b : Codec B) va vb : Octets a va -> Octets b vb -> Octets (pairc a b) (fun x => va x.1 /\ vb x.2).
Proof. intros Ha Hb x [Hx Hy]. apply u8_app; by apply octets. Qed.
Global Instance pubkeyc_octets : Octets pubkeyc (fun _ => True).
Proof. intros k _. apply u8_one, pk_array. Qed.
Global Instance sigc_octets : Octets sigc (fun _ => True).
Proof. intros s _. apply u8_one, sig_array. Qed.

Lemma write_each_octets {T} (c : Codec T) valid (l : list T) : Octets c valid -> Forall valid l -> all_u8 (concat (write_each c l)).
Proof. intros Hc Hl. apply u8_concat, Forall_fmap. eapply Forall_impl; [exact Hl|]. intros x Hx. by apply octets. Qed.

Global Instance sig_vecc_octets {T} (c : Codec T) : Octets c (fun _ => True) -> Octets (sig_vecc c) (fun _ => True).
Proof. intros Hc l _. apply u8_app; [by apply octets|]. eapply write_each_octets; [done|]. by apply Forall_true. Qed.
Global Instance featuresc_octets : Octets featuresc vec_ok.
Proof. intros x [_ Hx]. apply u8_app; [by apply octets|]. rewrite concat_write_be. by apply Forall_rev. Qed.
Global Instance channel_typec_octets : Octets channel_typec all_u8.
Proof. intros x Hx. unfold channel_typec. cbn [c_write]. rewrite concat_write_be. by apply Forall_rev. Qed.
Global Instance opt_script_octets : Octets opt_scriptc script_ok.
Proof. intros [s|] Hs; [by apply vecc_octets|constructor]. Qed.

Global Instance impl_writeable_octets {M B} (fields : Codec B) (of_msg : M -> B) build valid :
  Octets fields valid -> Octets (impl_writeable fields of_msg build) (fun m => valid (of_msg m)).
Proof. intros Hf m Hm. by apply (octets (c := fields)). Qed.
Lemma plain_msg_octets {M B} (fields : Codec B) (of_msg : M -> B) build valid :
  Octets fields valid -> Octets (plain_msg fields of_msg build) (fun m => valid (of_msg m)).
Proof. intros Hf m Hm. apply u8_app; [by apply (octets (c := fields))|constructor]. Qed.
Lemma tlv_octets type payload : (forall p, payload = Some p -> all_u8 (concat p)) -> all_u8 (concat (encode_tlv_stream [(type, payload)])).
Proof.
  intros Hp. unfold encode_tlv_stream. cbn. rewrite List.app_nil_r. destruct payload as [p|]; [|constructor]. cbn [encode_tlv].
  repeat apply u8_app; [by apply octets..|]. by apply Hp.
Qed.
Lemma option_msg_octets {M B T} (fields : Codec B) (of_msg : M -> B) type (c : Codec T) tlv build valid validT :
  Octets fields valid -> Octets c validT ->
  Octets (option_msg fields of_msg type c tlv build) (fun m => valid (of_msg m) /\ forall x, tlv m = Some x -> validT x).
Proof.
  intros Hf Hc m [Hm Ht]. apply u8_app; [by apply (octets (c := fields))|]. apply tlv_octets.
  intros p Hp. apply fmap_Some in Hp as (x & Hx & ->). apply octets. by apply Ht.
Qed.

Global Instance onion_packet_octets : Octets OnionPacket.codec OnionPacket.ok.
Proof.
  intros [v k d h] (Hv & [_ Hd] & Hh). unfold OnionPacket.codec. cbn [c_write OnionPacket.version OnionPacket.public_key OnionPacket.hop_data OnionPacket.hmac] in *.
  repeat apply u8_app; [by apply octets| |by apply u8_one|by apply octets].
  destruct k; [by apply octets|]. apply u8_one, zeros_u8.
Qed.
Global Instance net_address_octets : Octets NetAddress.codec NetAddress.ok.
Proof.
  intros [a p|a p|a|k c v p] Ha; cbn [NetAddress.ok] in Ha; unfold NetAddress.codec; cbn [c_write NetAddress.write];
    repeat apply u8_app; try (apply u8c_octets; by vm_compute); try (by apply octets); by (apply octets; tauto).
Qed.

Context `{Hc : CustomMessageReader} (custom_ok : CustomMessage -> Prop) `{!CustomLaws custom_ok}.

(** A sequence of parts, each one an encoding or a run of bytes. *)
Ltac parts := repeat first [by apply octets | by apply u8_one | apply u8_app].

Lemma string_octets s : all_u8 (concat (c_write u16c (len16 (bytes_of s)) ++ [bytes_of s])).
Proof. apply u8_app; [by apply octets|]. apply u8_one, bytes_of_u8. Qed.

Global Instance error_octets : Octets ErrorMessage.codec ErrorMessage.ok.
Proof. intros m [Hi _]. apply u8_app; [by apply octets|apply string_octets]. Qed.
Global Instance warning_octets : Octets WarningMessage.codec WarningMessage.ok.
Proof. intros m [Hi _]. apply u8_app; [by apply octets|apply string_octets]. Qed.
Lemma padding_octets n : all_u8 (concat (c_write vecc (replicate n 0))).
Proof. apply u8_app; [by apply octets|]. apply u8_one, zeros_u8. Qed.
Global Instance ping_octets : Octets Ping.codec (fun _ => True).
Proof. intros m _. apply u8_app; [by apply octets|apply padding_octets]. Qed.
Global Instance pong_octets : Octets Pong.codec (fun _ => True).
Proof. intros m _. apply padding_octets. Qed.
Global Instance reestablish_octets : Octets ChannelReestablish.codec ChannelReestablish.ok.
Proof.
  intros m (Hi & _ & _ & Hd). unfold ChannelReestablish.codec. cbn [c_write]. parts.
  destruct (ChannelReestablish.data_loss_protect m); [|constructor]. apply u8_app; by apply octets.
Qed.
Global Instance init_octets : Octets Init.codec Init.ok.
Proof.
  intros m [Hf Ha]. unfold Init.codec. cbn [c_write]. apply u8_app; [|apply u8_app; [by apply octets|]].
  - apply u8_app; [by apply octets|]. apply Forall_concat, Forall_fmap, Forall_true. intros i. cbn. constructor; [|done].
    assert (Hn : u8 (nth i (Init.features m) 0)).
    { destruct (nth_in_or_default i (Init.features m) 0) as [Hin| ->]; [|by vm_compute]. destruct Hf as [_ Hf].
      rewrite Forall_forall in Hf. by apply Hf, list_elem_of_In. }
    case_match; [done|]. apply land_in_width; [done|by vm_compute].
  - apply tlv_octets. intros p Hp. apply fmap_Some in Hp as (a & Ea & ->). apply octets. by apply Ha.
Qed.
Global Instance channel_announcement_octets : Octets UnsignedChannelAnnouncement.codec UnsignedChannelAnnouncement.ok.
Proof. intros m (Hf & Hc' & _ & He). unfold UnsignedChannelAnnouncement.codec. cbn [c_write]. parts. Qed.
Global Instance opt_u64_octets : Octets opt_u64c (fun _ => True).
Proof. intros [v|] _; [by apply u64c_octets|constructor]. Qed.
Global Instance channel_update_octets : Octets UnsignedChannelUpdate.codec UnsignedChannelUpdate.ok.
Proof. intros m (Hc' & _ & _ & _ & _ & _ & _ & _ & _ & He). unfold UnsignedChannelUpdate.codec. cbn [c_write]. parts. Qed.
Global Instance node_announcement_octets : Octets UnsignedNodeAnnouncement.codec UnsignedNodeAnnouncement.ok.
Proof.
  intros m (Hf & _ & [_ Hr] & Hal & Ha & Hx & _ & He & _). unfold UnsignedNodeAnnouncement.codec. cbn [c_write].
  parts. apply u8_concat, Forall_fmap. eapply Forall_impl; [exact Ha|].
  intros a Hok. by apply (octets (c := NetAddress.codec)).
Qed.
Lemma scids_octets ids : all_u8 (concat (write_scids ids)).
Proof.
  unfold write_scids. repeat apply u8_app; [by apply octets|apply u8c_octets; by vm_compute|].
  eapply write_each_octets; [apply _|]. by apply Forall_true.
Qed.
Global Instance query_scids_octets : Octets QueryShortChannelIds.codec QueryShortChannelIds.ok.
Proof. intros m [Hc' _]. apply u8_app; [by apply octets|apply scids_octets]. Qed.
Global Instance reply_range_octets : Octets ReplyChannelRange.codec ReplyChannelRange.ok.
Proof. intros m [Hc' _]. unfold ReplyChannelRange.codec. cbn [c_write]. do 4 (apply u8_app; [by apply octets|]). apply scids_octets. Qed.

Lemma message_octets (m : Message) : message_ok custom_ok m -> all_u8 (concat (message_write m)).
Proof.
  intros Hm. destruct m; cbn [message_write]; unfold Wire.write; try (apply u8_app; [by apply octets|]);
    unfold message_ok in Hm; cbn [message_sat] in Hm; try done.
  all: try (by apply octets).
  all: try (eapply plain_msg_octets; [apply _|]; hnf in Hm; cbn; naive_solver).
  all: try (eapply option_msg_octets; [apply _|apply _|]; hnf in Hm; cbn; naive_solver).
  all: try (eapply impl_writeable_octets; [apply _|]; cbn; naive_solver).
  - destruct Hm as [Hb (Hs & Ht & _)]. eapply option_msg_octets; [apply _|apply _|]. red in Hb. cbn. split; [naive_solver|].
    intros x Hx. rewrite Hx in Ht. apply Ht.
  - destruct Hm as [Hb (Hs & Ht & _)]. eapply option_msg_octets; [apply _|apply _|]. red in Hb. cbn. split; [naive_solver|].
    intros x Hx. rewrite Hx in Ht. apply Ht.
  - by eapply plain_msg_octets; [apply _|].
  - destruct Hm. by eapply plain_msg_octets; [apply _|].
  - by eapply custom_octets.
Qed.
End Codecs.
