(* ===== verification/WireCases.v ===== *)
(** * Concrete keys, and messages on which the theorems about messages are applied

    A toy [Secp] of two keys and two signatures, with bitcoin's [VarInt] as its documentation
    defines it, satisfies the laws of Msgs.v; [IgnoringMessageHandler] those of Wire.v. *)

From S2P Require Import Prelude Text Bytes Stream Ser SerLaws Tlv Features Msgs OnionHop ChannelMsgs ChannelMsgsLaws GossipMsgs Wire.

Local Open Scope Z_scope.

Definition toy_key (k : bool) : bytes := (if k then 2 else 3) :: replicate 32 1.
Definition toy_sig (s : bool) : bytes := (if s then 1 else 0) :: replicate 63 5.
Definition from_table (f : bool -> bytes) (b : bytes) : option bool :=
  if decide (b = f true) then Some true else if decide (b = f false) then Some false else None.

(** Lengths are little-endian and must be minimal. *)
Definition le_uint (n : nat) : rd Z := buf ← read_exact n; mret (from_le_bytes buf).
Definition toy_varint : rd Z :=
  n ← c_read u8c;
  if n =? 0xFF then x ← le_uint 8; if x <? 0x100000000 then rerr InvalidValue else mret x
  else if n =? 0xFE then x ← le_uint 4; if x <? 0x10000 then rerr InvalidValue else mret x
  else if n =? 0xFD then x ← le_uint 2; if x <? 0xFD then rerr InvalidValue else mret x
  else mret n.

#[local] Instance toy_secp : Secp := {|
  PublicKey := bool; pk_serialize := toy_key; pk_from_slice := from_table toy_key;
  Signature := bool; sig_serialize_compact := toy_sig; sig_from_compact := from_table toy_sig;
  varint_decode := toy_varint;
|}.

Lemma le_uint_typed n bs x rest :
  (n <= 8)%nat -> all_u8 bs -> run (le_uint n) bs = (Ret (Ok x), rest) -> u64 x.
Proof.
  intros Hn Hu H. unfold le_uint in H. inv_run. apply read_exact_inv in E as [-> Hl].
  apply Forall_app in Hu as [Hu _]. pose proof (from_le_bytes_bound a Hu) as B. rewrite Hl, pow256_pow2 in B.
  split; [lia|]. eapply Z.lt_le_trans; [apply B|]. apply Z.pow_le_mono_r; lia.
Qed.

#[local] Instance toy_secp_laws : SecpLaws.
Proof.
  split.
  - intros []; split; [done|by repeat constructor|done|by repeat constructor].
  - by intros [].
  - done.
  - intros []; split; [done|by repeat constructor|done|by repeat constructor].
  - by intros [].
  - intros n rest Hn. cbn [varint_decode toy_secp]. unfold toy_varint. change (n :: rest) with (encode u8c n ++ rest).
    rewrite (run_bind_Ok _ _ _ _ _ (u8c_roundtrip n rest ltac:(width_lia))). by repeat eval_if.
  - cbn [varint_decode toy_secp]. unfold toy_varint, le_uint. solve_total.
  - cbn [varint_decode toy_secp]. unfold toy_varint. intros bs n rest Hu H. inv_run;
      try (eapply le_uint_typed; [| |eassumption]; [lia|done]). apply (u8c_typed _ _ _ Hu) in E. width_lia.
Qed.

#[local] Existing Instance IgnoringMessageHandler.
#[local] Existing Instance ignoring_laws.

(** An update of a channel with a maximum, followed by data of a later version. *)
Definition example_update : Message :=
  MChannelUpdate (ChannelUpdate.mk _ true
    (UnsignedChannelUpdate.mk (replicate 32 7) 770000 1650000000 1 40 1000 (Present 990000000) 1000 1 [9; 9])).

Lemma wire_roundtrip_witness :
  message_ok (fun _ => True) example_update /\
  run read (concat (message_write example_update)) = (Ret (Ok (Ok example_update)), []).
Proof.
  assert (Hm : message_ok (fun _ => True) example_update)
    by (cbn; split_and!; try done; [by repeat constructor|by intros ? [= <-]|by repeat constructor]).
  split; [exact Hm|exact (wire_roundtrip (fun _ => True) example_update Hm)].
Defined.

(** An unknown type with a payload, read as such. *)
Lemma wire_total_witness :
  exists r rest, run read [0x90; 0x01; 1; 2] = (Ret (Ok r), rest) /\
    (forall e, r = Err (e, None) <-> (length [0x90; 0x01; 1; 2] < 2)%nat /\ e = ShortRead).
Proof. apply (wire_total (fun _ => True)). split; [by repeat constructor|done]. Defined.

Lemma wire_typed_witness :
  message_in_range (fun _ => True) example_update /\
  exists payload, concat (message_write example_update) = to_be_bytes 2 (type_id example_update) ++ payload.
Proof.
  apply (wire_typed (fun _ => True) (concat (message_write example_update)) example_update []).
  - vm_compute. by repeat constructor.
  - reflexivity.
Defined.

(** The records of a final payload, and an odd type nobody knows. *)
Definition toy_records : list (Z * bytes) := [(2, [5]); (4, [1]); (7, [0; 0])].

Lemma toy_records_ok : Forall record_ok toy_records.
Proof. repeat constructor; by_decide. Qed.


Lemma u48_roundtrip_witness :
  (2 ^ 48 <= 7 -> u48_write 7 = Panic "assertion failed: u & 0xffff_0000_0000_0000 == 0") /\
  (7 < 2 ^ 48 -> exists calls, u48_write 7 = Ret calls /\ run u48_read (vec_writer calls ++ [1]) = (Ret (Ok 7), [1])).
Proof. apply (u48_roundtrip 7 [1]). by_decide. Defined.
