(* ===== verification/ChanCases.v ===== *)
(** * A channel with small numbers

    Keys are the nonzero residues modulo 3, scripts are their items one after the other, and
    the sort is by insertion; these satisfy the hypotheses of the theorems about keys and
    transactions, which are then applied to a commitment transaction with two HTLCs. *)

From S2P Require Import Prelude Text HexUtils Bytes Stream Ser SerLaws Tlv Msgs Wire WireCases Secrets Transactions ChanTx ChanTxSpec.

Local Open Scope Z_scope.

#[local] Existing Instances toy_secp toy_secp_laws.

(** ** Keys modulo 3 *)

Definition residue (b : bool) : Z := if b then 2 else 1.
Definition of_residue (z : Z) : option bool := if z `mod` 3 =? 0 then None else Some (z `mod` 3 =? 2).
Definition sum (m : bytes) : Z := foldr Z.add 0 m.

#[local] Instance toy_tweaks : KeyTweaks := {|
  SecretKey := bool; sk_bytes k := [residue k]; sk_from_slice t := of_residue (sum t); pk_of k := k;
  sk_add_assign s t := of_residue (residue s + sum t);
  sk_mul_assign s t := of_residue (residue s * sum t);
  pk_combine a b := of_residue (residue a + residue b);
  pk_mul_assign a t := of_residue (residue a * sum t);
|}.

Lemma of_residue_add a z k : of_residue z = Some k -> of_residue (a + z) = of_residue (a + residue k).
Proof.
  unfold of_residue. intros E. rewrite <- (Z.add_mod_idemp_r a z), <- (Z.add_mod_idemp_r a (residue k)) by lia.
  pose proof (Z.mod_pos_bound z 3 ltac:(lia)). destruct (Z.eqb_spec (z `mod` 3) 0); [done|]. injection E as <-.
  destruct (Z.eqb_spec (z `mod` 3) 2) as [->|]; [done|]. replace (z `mod` 3) with 1 by lia. done.
Qed.

#[local] Instance toy_tweaks_laws : KeyTweaksLaws.
Proof.
  split.
  - by intros [].
  - intros s t k E. cbn. rewrite (of_residue_add _ _ _ E). by destruct (of_residue _).
  - intros s t. cbn. by destruct (of_residue _).
Qed.

#[local] Instance toy_digest : Sha256 := {| Sha256_hash m := replicate 32 ((1 + sum m) `mod` 256) |}.
#[local] Instance toy_digest_laws : Sha256Laws.
Proof. split. intros m. split; [done|]. apply Forall_replicate. unfold in_width. change (2 ^ 8) with 256. apply Z.mod_pos_bound. lia. Qed.

(** ** Scripts and sorting *)

Definition item_bytes (i : script_item) : bytes :=
  match i with
  | push_opcode _ => [0]
  | push_slice data => Z.of_nat (length data) :: data
  | push_int n => if n <=? 16 then [n] else let len := Z.to_nat (scriptint_len n) in Z.of_nat len :: to_le_bytes len n
  end.

#[local] Instance toy_bitcoin : BitcoinApi := {|
  into_script items := concat (item_bytes <$> items); to_v0_p2wsh s := 0 :: s;
  Ripemd160_hash m := replicate 20 (sum m `mod` 256); PubkeyHash_hash m := replicate 20 (sum m `mod` 256); WPubkeyHash_hash m := replicate 20 (sum m `mod` 256);
  compute_txid tx := replicate 32 (sum (out_value <$> output tx) `mod` 256);
  segwit_signature_hash tx i script value t := Some (replicate 32 (value `mod` 256));
  sign_ecdsa m k := k; serialize_der s := [residue s];
|}.

#[local] Instance toy_script_laws : ScriptLaws.
Proof.
  split.
  - intros items _. cbn [into_script toy_bitcoin]. induction items as [|i items IH]; [done|]. cbn. rewrite length_app, Nat2Z.inj_add, IH. f_equal.
    destruct i as [op|data|n]; cbn; [done|lia|]. destruct (n <=? 16); [done|]. cbn. rewrite length_to_le_bytes. unfold scriptint_len.
    repeat match goal with |- context [n <=? ?b] => destruct (n <=? b) end; lia.
  - intros m. apply length_replicate.
  - intros m. apply length_replicate.
Qed.

Fixpoint insert_cmp {A} (cmp : A -> A -> comparison) (x : A) (l : list A) : list A :=
  match l with
  | [] => [x]
  | y :: l' => match cmp x y with Gt => y :: insert_cmp cmp x l' | _ => x :: l end
  end.
Definition insertion_sort {A} (cmp : A -> A -> comparison) (l : list A) : list A := foldr (insert_cmp cmp) [] l.
#[local] Instance toy_sort : UnstableSort := {| sort_unstable_by A cmp l := insertion_sort cmp l |}.

Lemma insert_cmp_permutation {A} (cmp : A -> A -> comparison) x l : insert_cmp cmp x l ≡ₚ x :: l.
Proof. induction l as [|y l IH]; [done|]. cbn. destruct (cmp x y); [done..|]. rewrite IH. apply Permutation_swap. Qed.

Lemma insert_cmp_sorted {A} (cmp : A -> A -> comparison) (P : A -> Prop) x l : composes cmp P -> P x -> Forall P l ->
  StronglySorted (fun a b => cmp a b <> Gt) l -> StronglySorted (fun a b => cmp a b <> Gt) (insert_cmp cmp x l).
Proof.
  intros Hc Hx Hl Hs. induction Hs as [|y l Hs IH Hy]; cbn; [by repeat constructor|]. apply Forall_cons in Hl as [Py Hl].
  assert (Hle : cmp x y <> Gt -> Forall (fun z => cmp x z <> Gt) l).
  { intros Hxy. rewrite Forall_forall in *. intros z Hz Hxz. pose proof (Hy z Hz) as Hyz. pose proof (Hl z Hz) as Pz. destruct Hc as [Ho Ht].
    destruct (cmp x y) eqn:E1; [| |done].
    - rewrite (composes_mixed cmp P x y z) in Hxz by (done || by split). done.
    - assert (E2 : cmp z x = Lt) by (by rewrite (Ho x z), Hxz). pose proof (Ht Lt z x y Pz Hx Py E2 E1) as E3. apply Hyz. by rewrite (Ho z y), E3. }
  destruct (cmp x y) eqn:E.
  - constructor; [by constructor|]. constructor; [by rewrite E|]. by apply Hle.
  - constructor; [by constructor|]. constructor; [by rewrite E|]. by apply Hle.
  - constructor; [by apply IH|]. rewrite insert_cmp_permutation. constructor; [|done]. destruct Hc as [Ho _]. rewrite (Ho x y), E by done. done.
Qed.

#[local] Instance toy_sort_laws : UnstableSortLaws.
Proof.
  assert (Hp : forall A (cmp : A -> A -> comparison) l, insertion_sort cmp l ≡ₚ l).
  { intros A cmp l. induction l as [|x l IH]; [done|]. cbn. by rewrite insert_cmp_permutation, IH. }
  split; [exact Hp|]. intros A cmp l Hc. cbn [sort_unstable_by toy_sort].
  assert (Hg : forall k, Forall (fun x => x ∈ l) k -> StronglySorted (fun a b => cmp a b <> Gt) (insertion_sort cmp k)).
  { induction 1 as [|x k Hx Hk IH]; cbn; [constructor|]. apply (insert_cmp_sorted cmp (fun x => x ∈ l)); [done|done| |done]. fold (insertion_sort cmp k). by rewrite Hp. }
  apply Hg. by apply Forall_forall.
Qed.

(** ** A channel *)

Definition bob : BaseSecrets := mkBaseSecrets true false true.
Definition carol : BaseSecrets := mkBaseSecrets false true false.
Definition bob_keys : ChannelPublicKeys := public_of true false bob.
Definition carol_keys : ChannelPublicKeys := public_of false true carol.
Definition toy_params : DirectedChannelTransactionParameters :=
  mkDirected (mkChannelParameters bob_keys 144 true (Some (mkCounterpartyParameters carol_keys 720)) (Some (mkOutPoint (replicate 32 5) 1)) None) true.
Definition toy_keys : TxCreationKeys := mkTxCreationKeys false true false true true.

Lemma toy_keys_derived : from_channel_static_keys false bob_keys carol_keys = Ok toy_keys.
Proof. reflexivity. Qed.

Lemma creation_keys_spendable_witness :
  usable (pk_of false) (pk_of (htlc_base_key bob)) /\
  exists k, derive_private_revocation_key (false : @SecretKey toy_secp toy_tweaks) (revocation_base_key carol) = Ok k /\ pk_of k = revocation_key toy_keys.
Proof.
  assert (H1 : usable (pk_of false) (pk_of (htlc_base_key bob))) by (eexists; vm_compute; reflexivity).
  assert (H2 : usable (pk_of false) (pk_of (htlc_base_key carol))) by (eexists; vm_compute; reflexivity).
  assert (H3 : usable (pk_of false) (pk_of (delayed_payment_base_key bob))) by (eexists; vm_compute; reflexivity).
  split; [exact H1|].
  destruct (creation_keys_spendable (false : @SecretKey toy_secp toy_tweaks) bob carol (true : @PublicKey toy_secp) false false true toy_keys toy_tweaks_laws H1 H2 H3 toy_keys_derived) as (_ & _ & _ & _ & H).
  exact H.
Defined.

Definition toy_htlcs : list (HTLCOutputInCommitment * string) :=
  [(mkHTLC true 7000000 800100 (replicate 32 1) None, "mine"); (mkHTLC false 5000000 800000 (replicate 32 2) None, "yours")].

Definition toy_commitment : option (CommitmentTransaction * list (HTLCOutputInCommitment * string)) :=
  match new_with_auxiliary_htlc_data 281474976710650 90000 6000 false (funding_pubkey bob_keys) (funding_pubkey carol_keys) toy_keys 253 toy_htlcs toy_params with
  | Ret r => Some r | _ => None end.

(** The values of the outputs, the positions the caller is told, and those of the transaction. *)
Definition summary (r : CommitmentTransaction * list (HTLCOutputInCommitment * string)) : list Z * list (option Z * string) * list (option Z) :=
  (out_value <$> output (transaction (built r.1)), (fun e => (transaction_output_index e.1, e.2)) <$> r.2, transaction_output_index <$> htlcs r.1).
Example toy_commitment_built : option_map summary toy_commitment = Some ([5000; 6000; 7000; 90000], [(Some 2, "mine"%string); (Some 0, "yours"%string)], [Some 0; Some 2]).
Proof. reflexivity. Qed.

Definition the_commitment : CommitmentTransaction * list (HTLCOutputInCommitment * string) :=
  match toy_commitment with
  | Some r => r
  | None => (mkCommitment 0 0 0 0 [] None toy_keys (mkBuilt (mkTransaction 2 0 [] []) []), [])
  end.

Lemma the_commitment_built :
  new_with_auxiliary_htlc_data 281474976710650 90000 6000 false (funding_pubkey bob_keys) (funding_pubkey carol_keys) toy_keys 253 toy_htlcs toy_params =
  Ret (the_commitment.1, the_commitment.2).
Proof. reflexivity. Qed.

Lemma htlcs_find_their_outputs_witness :
  StronglySorted by_index (htlcs the_commitment.1) /\
  exists p, the_commitment.2 !! 0%nat = Some (set_output_index (Z.of_nat p) (mkHTLC true 7000000 800100 (replicate 32 1) None), "mine"%string) /\
    output (transaction (built the_commitment.1)) !! p = Some (htlc_txout false toy_keys (mkHTLC true 7000000 800100 (replicate 32 1) None)).
Proof.
  destruct (htlcs_find_their_outputs 281474976710650 90000 6000 false (funding_pubkey bob_keys) (funding_pubkey carol_keys) toy_keys 253 toy_htlcs
    the_commitment.2 toy_params the_commitment.1 the_commitment_built ltac:(vm_compute; reflexivity)) as (_ & Hin & _ & Hs).
  split; [exact Hs|]. exact (Hin 0%nat _ _ eq_refl).
Defined.

#[local] Instance toy_pk_eq_dec : EqDecision (@PublicKey toy_secp).
Proof. cbn. apply _. Defined.

Lemma built_commitment_verifies_witness :
  from_channel_static_keys (per_commitment_point toy_keys) bob_keys carol_keys = Ok toy_keys /\
  commitment_verify the_commitment.1 toy_params bob_keys carol_keys = Ret (Ok the_commitment.1).
Proof.
  split; [exact toy_keys_derived|].
  apply (built_commitment_verifies 281474976710650 90000 6000 false bob_keys carol_keys toy_keys 253 toy_htlcs the_commitment.2 toy_params the_commitment.1
    the_commitment_built toy_keys_derived).
  intros u E. vm_compute in E. injection E as <-. intros out out' r H1 H2 ->.
  repeat (apply elem_of_cons in H1 as [H1|H1]; [|]); try (by apply elem_of_nil in H1); try discriminate H1;
    repeat (apply elem_of_cons in H2 as [H2|H2]; [|]); try (by apply elem_of_nil in H2); injection H1 as ->; discriminate H2.
Defined.

Lemma commitment_number_read_back_witness :
  exists i, input (transaction (built the_commitment.1)) = [i] /\ funding_outpoint toy_params = Ret (previous_output i) /\
    read_commitment_number (sequence i) (lock_time (transaction (built the_commitment.1)))
      (get_commitment_transaction_number_obscure_factor (payment_point carol_keys) (payment_point bob_keys) (negb (is_outbound toy_params))) = 281474976710650.
Proof.
  exact (commitment_number_read_back 281474976710650 90000 6000 false (funding_pubkey bob_keys) (funding_pubkey carol_keys) toy_keys 253 toy_htlcs the_commitment.2 toy_params
    the_commitment.1 bob_keys carol_keys ltac:(lia) the_commitment_built eq_refl eq_refl).
Defined.

Lemma witness_follows_script_witness :
  exists tx, add_holder_sig (holder_new the_commitment.1 (true : @Signature toy_secp) [] (true : @PublicKey toy_secp) false)
      (make_funding_redeemscript true false) (false : @Signature toy_secp) = Ret tx /\ output tx = output (transaction (built the_commitment.1)).
Proof.
  eexists. split; [vm_compute; reflexivity|].
  destruct (witness_follows_script the_commitment.1 (true : @Signature toy_secp) false [] (true : @PublicKey toy_secp) false _ toy_secp_laws ltac:(vm_compute; reflexivity))
    as (i & is' & k1 & s1 & k2 & s2 & _ & _ & _ & _ & _ & Ho).
  exact Ho.
Defined.

Lemma htlc_scripts_recognised_witness :
  u32 800000 /\ scriptlen_to_htlctype (Z.of_nat (length (get_htlc_redeemscript_with_explicit_keys (mkHTLC false 5000000 800000 (replicate 32 2) None) false true false true))) = Some AcceptedHTLC.
Proof.
  assert (Hc : u32 800000) by (unfold in_width; lia). split; [exact Hc|].
  exact (htlc_scripts_recognised (mkHTLC false 5000000 800000 (replicate 32 2) None) (true : @PublicKey toy_secp) false true Hc).
Defined.

(** With anchors, the script of an offered HTLC is as long as that of a received one. *)
Example anchor_scripts_alike :
  scriptlen_to_htlctype (Z.of_nat (length (get_htlc_redeemscript_with_explicit_keys (mkHTLC true 5000000 800000 (replicate 32 2) None) true true false true))) = Some AcceptedHTLC.
Proof. vm_compute. reflexivity. Qed.

(** A delay of 32768 blocks fails the assertion on the length of the delayed output's script. *)
Example long_delay_panics : get_revokeable_redeemscript true 0x8000 false = Panic "assertion failed: res.len() <= REVOKEABLE_REDEEMSCRIPT_MAX_LENGTH".
Proof. vm_compute. reflexivity. Qed.
