(* ===== verification/Invoice.v ===== *)
(** * Invoices as text: rust-lightning/lightning-invoice/src (lib.rs, ser.rs, de.rs)

    A BOLT 11 invoice is a human-readable part (currency and amount) and a list of five-bit groups
    (timestamp, tagged fields, signature) in bech32.  The bech32 crate is a parameter: its conversion
    between bytes and groups ([Bech32Laws] states it as BIP 173 does) and the text itself.  Bytes are
    [Z] below 256, groups ([u5]) [Z] below 32. *)

From S2P Require Import Prelude Text Bytes Stream Ser SerLaws Features Msgs Secrets.

Local Open Scope Z_scope.

(** ** The bech32 crate *)

Inductive Bech32Error := InvalidChecksum | InvalidLength | InvalidPadding | OtherBech32Error (what : string).
Inductive Variant := VBech32 | VBech32m.
#[global] Instance Bech32Error_eq_dec : EqDecision Bech32Error.
Proof. solve_decision. Defined.

Class Bech32 := {
  slice_to_base32 : bytes -> list Z;
  slice_base32_len : bytes -> nat;
  vec_from_base32 : list Z -> result bytes Bech32Error;
  encode_to_fmt : string -> list Z -> result string Bech32Error;
  bech32_decode : string -> result (string * list Z * Variant) Bech32Error;
}.

(** Bits, most significant first. *)
Definition bits_of (n : nat) (x : Z) : list bool := (fun i => Z.testbit x (Z.of_nat i)) <$> rev (seq 0 n).
Definition of_bits (l : list bool) : Z := foldl (fun acc b => 2 * acc + Z.b2z b) 0 l.
Definition all_bits (n : nat) (xs : list Z) : list bool := concat (bits_of n <$> xs).

(** Groups of [n] bits, the last filled up with zeros. *)
Fixpoint groups (fuel n : nat) (l : list bool) : list Z :=
  match fuel, l with
  | S fuel', _ :: _ => of_bits (take n (l ++ replicate n false)) :: groups fuel' n (drop n l)
  | _, _ => []
  end.
Definition regroup (n : nat) (l : list bool) : list Z := groups (length l) n l.

(** The conversion from groups back to bytes: what is left over must be less than a group, and zero. *)
Definition leftover (l : list bool) : list bool := drop (length l / 8 * 8) l.
Definition unpack (l : list bool) : result bytes Bech32Error :=
  if (length (leftover l) <? 5)%nat && forallb negb (leftover l) then Ok (regroup 8 (take (length l / 8 * 8) l)) else Err InvalidPadding.

(** Human-readable parts this crate makes are valid ones. *)
Definition hrp_ok (hrp : string) : Prop := is_ascii hrp = true /\ 1 <= len hrp <= 83 /\ Forall (fun b => 33 <= b <= 126 /\ ~ (65 <= b <= 90)) (bytes_of hrp).

Class Bech32Laws `{Bech32} : Prop := {
  to_base32_spec bs : all_u8 bs -> slice_to_base32 bs = regroup 5 (all_bits 8 bs);
  base32_len_spec bs : slice_base32_len bs = length (slice_to_base32 bs);
  from_base32_spec d : Forall (in_width 5) d -> vec_from_base32 d = unpack (all_bits 5 d);
  encode_decode hrp d : hrp_ok hrp -> Forall (in_width 5) d -> exists text, encode_to_fmt hrp d = Ok text /\ bech32_decode text = Ok (hrp, d, VBech32);
  decode_typed text hrp d v : bech32_decode text = Ok (hrp, d, v) -> is_ascii hrp = true /\ Forall (in_width 5) d;
}.

(** [u5::try_from_u8(x).expect(..)]. *)
Definition u5_expect (why : string) (x : Z) : outcome Z := if x <? 32 then Ret x else Panic why.

(** Signatures with a recovery id. *)
Inductive SecpError := InvalidRecoveryIdE | InvalidSignatureE | OtherSecpError.
Class InvoiceCrypto `{Secp} := {
  RecoverableSignature : Type;
  rs_serialize_compact : RecoverableSignature -> Z * bytes;
  recovery_id_from_i32 : Z -> option Z;
  rs_from_compact : bytes -> Z -> option RecoverableSignature;
  recover_ecdsa : bytes -> RecoverableSignature -> result PublicKey SecpError;
  verify_recoverable : bytes -> RecoverableSignature -> PublicKey -> bool;
}.

(** ** lib.rs: data *)

Definition Duration : Type := Z * Z. (* seconds and nanoseconds *)

Inductive ParseError :=
| EBech32Error (e : Bech32Error) | ParseAmountError | MalformedSignature | BadPrefix | UnknownCurrency | UnknownSiPrefix | MalformedHRP
| TooShortDataPart | UnexpectedEndOfTaggedFields | DescriptionDecodeError | PaddingError | IntegerOverflowError
| InvalidSegWitProgramLength | InvalidPubKeyHashLength | InvalidScriptHashLength | InvalidRecoveryId | InvalidSliceLength (f : string) | Skip.
#[global] Instance ParseError_eq_dec : EqDecision ParseError.
Proof. solve_decision. Defined.

Inductive SemanticError :=
| NoPaymentHash | MultiplePaymentHashes | NoDescription | MultipleDescriptions | NoPaymentSecret | MultiplePaymentSecrets
| InvalidFeatures | SInvalidRecoveryId | InvalidSignature | ImpreciseAmount.
Inductive CreationError := DescriptionTooLong | RouteTooLong | TimestampOutOfBounds | InvalidAmount | MissingRouteHints.
Inductive ParseOrSemanticError := EParse (e : ParseError) | ESemantic (e : SemanticError).

Definition MAX_TIMESTAMP : Z := Z.shiftl 1 35 - 1.
Definition DEFAULT_EXPIRY_TIME : Z := 3600.
Definition DEFAULT_MIN_FINAL_CLTV_EXPIRY : Z := 18.

Inductive SiPrefix := Milli | Micro | Nano | Pico.
Inductive Currency := Bitcoin | BitcoinTestnet | Regtest | Simnet | Signet.

Definition multiplier (p : SiPrefix) : Z := match p with Milli => 1000000000 | Micro => 1000000 | Nano => 1000 | Pico => 1 end.
Definition values_desc : list SiPrefix := [Milli; Micro; Nano; Pico].

Record RawHrp := mkHrp { currency : Currency; raw_amount : option Z; si_prefix : option SiPrefix }.

Inductive Fallback :=
| SegWitProgram (version : Z) (program : bytes)
| PubKeyHash (hash : bytes)
| ScriptHash (hash : bytes).

(** The hop of a private route. *)
Record RouteHintHop `{Secp} := mkHint {
  src_node_id : PublicKey; hint_scid : Z; hint_base_msat : Z; hint_proportional : Z; hint_cltv : Z;
  hint_htlc_minimum : option Z; hint_htlc_maximum : option Z }.

Inductive TaggedField `{Secp} :=
| TPaymentHash (hash : bytes)
| TDescription (d : string)
| TPayeePubKey (k : PublicKey)
| TDescriptionHash (hash : bytes)
| TExpiryTime (d : Duration)
| TMinFinalCltvExpiry (n : Z)
| TFallback (f : Fallback)
| TPrivateRoute (hops : list RouteHintHop)
| TPaymentSecret (s : bytes)
| TFeatures (flags : bytes).
Inductive RawTaggedField `{Secp} := KnownSemantics (f : TaggedField) | UnknownSemantics (content : list Z).

Record RawDataPart `{Secp} := mkData { timestamp : Duration; tagged_fields : list RawTaggedField }.
Record RawInvoice `{Secp} := mkRaw { hrp : RawHrp; data : RawDataPart }.
Record SignedRawInvoice `{InvoiceCrypto} := mkSigned { raw_invoice : RawInvoice; inv_hash : bytes; signature : RecoverableSignature }.

Definition TAG_PAYMENT_HASH : Z := 1.
Definition TAG_DESCRIPTION : Z := 13.
Definition TAG_PAYEE_PUB_KEY : Z := 19.
Definition TAG_DESCRIPTION_HASH : Z := 23.
Definition TAG_EXPIRY_TIME : Z := 6.
Definition TAG_MIN_FINAL_CLTV_EXPIRY : Z := 24.
Definition TAG_FALLBACK : Z := 9.
Definition TAG_PRIVATE_ROUTE : Z := 3.
Definition TAG_PAYMENT_SECRET : Z := 16.
Definition TAG_FEATURES : Z := 5.

(** [PositiveTimestamp::from_duration_since_epoch] and [from_unix_timestamp]. *)
Definition from_duration_since_epoch (d : Duration) : result Duration CreationError :=
  if d.1 <=? MAX_TIMESTAMP then Ok d else Err TimestampOutOfBounds.
Definition from_unix_timestamp (unix_seconds : Z) : result Duration CreationError := from_duration_since_epoch (unix_seconds, 0).
Definition description_new (d : string) : result string CreationError := if 639 <? len d then Err DescriptionTooLong else Ok d.
Definition private_route_new `{Secp} (hops : list RouteHintHop) : result (list RouteHintHop) CreationError :=
  if (length hops <=? 12)%nat then Ok hops else Err RouteTooLong.

(** ** ser.rs *)

Section Writing.
Context `{Bech32} `{InvoiceCrypto}.

(** [BytesToBase32]: the converter's buffer, with what it has written so far. *)
Record BytesToBase32 := mkConv { written : list Z; buffer : Z; buffer_bits : Z }.
Definition new_converter (writer : list Z) : BytesToBase32 := mkConv writer 0 0.

(** The group that is complete in the buffer. *)
Definition flush (c : BytesToBase32) : outcome BytesToBase32 :=
  if 5 <=? buffer_bits c then
    d ← u5_expect "<32" (Z.shiftr (Z.land (buffer c) 0xF8) 3);
    Ret (mkConv (written c ++ [d]) (wrap 8 (Z.shiftl (buffer c) 5)) (buffer_bits c - 5))
  else Ret c.
Definition append_u8 (byte : Z) (c : BytesToBase32) : outcome BytesToBase32 :=
  c ← flush c;
  let from_buffer := Z.shiftr (buffer c) 3 in
  let from_byte := Z.shiftr byte (3 + buffer_bits c) in
  d ← u5_expect "<32" (Z.lor from_buffer from_byte);
  Ret (mkConv (written c ++ [d]) (wrap 8 (Z.shiftl byte (5 - buffer_bits c))) (3 + buffer_bits c)).
Fixpoint append (bs : bytes) (c : BytesToBase32) : outcome BytesToBase32 :=
  match bs with [] => Ret c | b :: bs' => c ← append_u8 b c; append bs' c end.
Definition finalize (c : BytesToBase32) : outcome (list Z) :=
  c ← flush c;
  if buffer_bits c =? 0 then Ret (written c)
  else d ← u5_expect "<32" (Z.shiftr (buffer c) 3); Ret (written c ++ [d]).

Definition bytes_size_to_base32_size (byte_size : nat) : nat :=
  let bits := (byte_size * 8)%nat in if (bits mod 5 =? 0)%nat then (bits / 5)%nat else (bits / 5 + 1)%nat.

(** The loops divide a 64-bit number by the base until it is zero. *)
Fixpoint digits_loop (fuel : nat) (base rem_int : Z) : list Z :=
  match fuel with
  | O => []
  | S fuel' => if rem_int =? 0 then [] else rem_int `mod` base :: digits_loop fuel' base (rem_int `div` base)
  end.
Definition encode_int_be_base32 (int : Z) : list Z := rev (digits_loop 13 32 int).
Definition encode_int_be_base256 (int : Z) : list Z := rev (digits_loop 8 256 int).
Definition encoded_int_be_base32_size (int : Z) : nat :=
  match find (fun pos => negb (Z.land int (wrap 64 (Z.shiftl 0x1f (5 * Z.of_nat pos))) =? 0)) (rev (seq 0 13)) with
  | Some pos => S pos
  | None => 0%nat
  end.
Definition try_stretch (in_vec : list Z) (target_len : nat) : option (list Z) :=
  if (target_len <? length in_vec)%nat then None else Some (replicate (target_len - length in_vec) 0 ++ in_vec).

Definition currency_str (c : Currency) : string :=
  match c with Bitcoin => "bc" | BitcoinTestnet => "tb" | Regtest => "bcrt" | Simnet => "sb" | Signet => "tbs" end.
Definition si_str (p : SiPrefix) : string := match p with Milli => "m" | Micro => "u" | Nano => "n" | Pico => "p" end.
Definition hrp_str (h : RawHrp) : string :=
  "ln" +:+ currency_str (currency h) +:+ (match raw_amount h with Some amt => to_string amt | None => "" end) +:+
  (match si_prefix h with Some si => si_str si | None => "" end).

(** Integers of a fixed size. *)
Definition stretched (why : string) (v : list Z) (n : nat) : outcome (list Z) := Prelude.unwrap why (try_stretch v n).

Definition append_hop (hop : RouteHintHop) (c : BytesToBase32) : outcome BytesToBase32 :=
  c ← append (pk_serialize (src_node_id hop)) c;
  v ← stretched "sizeof(u64) == 8" (encode_int_be_base256 (hint_scid hop)) 8; c ← append v c;
  v ← stretched "sizeof(u32) == 4" (encode_int_be_base256 (hint_base_msat hop)) 4; c ← append v c;
  v ← stretched "sizeof(u32) == 4" (encode_int_be_base256 (hint_proportional hop)) 4; c ← append v c;
  v ← stretched "sizeof(u16) == 2" (encode_int_be_base256 (hint_cltv hop)) 2; append v c.
Fixpoint append_hops (hops : list RouteHintHop) (c : BytesToBase32) : outcome BytesToBase32 :=
  match hops with [] => Ret c | h :: hops' => c ← append_hop h c; append_hops hops' c end.

Definition fallback_payload (f : Fallback) : list Z :=
  match f with
  | SegWitProgram version program => version :: slice_to_base32 program
  | PubKeyHash hash => 17 :: slice_to_base32 hash
  | ScriptHash hash => 18 :: slice_to_base32 hash
  end.
Definition fallback_len (f : Fallback) : nat :=
  match f with SegWitProgram _ program => (bytes_size_to_base32_size (length program) + 1)%nat | _ => 33%nat end.

(** The tag, the length ([Base32Len]) and the payload ([ToBase32]) of a field. *)
Definition tag (f : TaggedField) : Z :=
  match f with
  | TPaymentHash _ => TAG_PAYMENT_HASH | TDescription _ => TAG_DESCRIPTION | TPayeePubKey _ => TAG_PAYEE_PUB_KEY
  | TDescriptionHash _ => TAG_DESCRIPTION_HASH | TExpiryTime _ => TAG_EXPIRY_TIME | TMinFinalCltvExpiry _ => TAG_MIN_FINAL_CLTV_EXPIRY
  | TFallback _ => TAG_FALLBACK | TPrivateRoute _ => TAG_PRIVATE_ROUTE | TPaymentSecret _ => TAG_PAYMENT_SECRET | TFeatures _ => TAG_FEATURES
  end.
Definition base32_len (f : TaggedField) : nat :=
  match f with
  | TPaymentHash hash | TDescriptionHash hash => slice_base32_len hash
  | TDescription d => slice_base32_len (bytes_of d)
  | TPayeePubKey _ => bytes_size_to_base32_size 33
  | TExpiryTime d => encoded_int_be_base32_size d.1
  | TMinFinalCltvExpiry n => encoded_int_be_base32_size n
  | TFallback fb => fallback_len fb
  | TPrivateRoute hops => bytes_size_to_base32_size (length hops * 51)
  | TPaymentSecret _ => 52%nat
  | TFeatures flags => length (write_base32 flags)
  end.
Definition payload (f : TaggedField) : outcome (list Z) :=
  match f with
  | TPaymentHash hash | TDescriptionHash hash => Ret (slice_to_base32 hash)
  | TDescription d => Ret (slice_to_base32 (bytes_of d))
  | TPayeePubKey k => Ret (slice_to_base32 (pk_serialize k))
  | TExpiryTime d => Ret (encode_int_be_base32 d.1)
  | TMinFinalCltvExpiry n => Ret (encode_int_be_base32 n)
  | TFallback fb => Ret (fallback_payload fb)
  | TPrivateRoute hops => c ← append_hops hops (new_converter []); finalize c
  | TPaymentSecret s => Ret (slice_to_base32 s)
  | TFeatures flags => Ret (write_base32 flags)
  end.

Definition write_tagged_field (f : TaggedField) : outcome (list Z) :=
  let len := base32_len f in
  if (len <? 1024)%nat then
    t ← u5_expect "invalid tag, not in 0..32" (tag f);
    l ← stretched "Can't be longer than 2, see assert above." (encode_int_be_base32 (Z.of_nat len)) 2;
    p ← payload f;
    Ret (t :: l ++ p)
  else Panic "Every tagged field data can be at most 1023 bytes long.".

Definition write_raw_field (f : RawTaggedField) : outcome (list Z) :=
  match f with UnknownSemantics content => Ret content | KnownSemantics f => write_tagged_field f end.
Fixpoint write_fields (l : list RawTaggedField) : outcome (list Z) :=
  match l with [] => Ret [] | f :: l' => x ← write_raw_field f; xs ← write_fields l'; Ret (x ++ xs) end.

Definition write_timestamp (t : Duration) : outcome (list Z) :=
  stretched "Can't be longer due than 7 u5s due to timestamp bounds" (encode_int_be_base32 t.1) 7.
Definition write_data (d : RawDataPart) : outcome (list Z) :=
  t ← write_timestamp (timestamp d); fs ← write_fields (tagged_fields d); Ret (t ++ fs).
Definition write_signature (s : RecoverableSignature) : outcome (list Z) :=
  let '(recovery_id, sig) := rs_serialize_compact s in
  c ← append sig (new_converter []);
  c ← append_u8 (wrap 8 recovery_id) c;
  finalize c.

(** [Display for SignedRawInvoice]. *)
Definition invoice_to_string (i : SignedRawInvoice) : outcome string :=
  d ← write_data (data (raw_invoice i));
  s ← write_signature (signature i);
  match encode_to_fmt (hrp_str (hrp (raw_invoice i))) (d ++ s) with Ok text => Ret text | Err _ => Panic "HRP is valid" end.
End Writing.

(** ** de.rs *)

(** [char::is_numeric] on ASCII, which the bech32 crate checked the text to be. *)
Definition is_numeric (c : ascii) : bool := match digit_val c with Some _ => true | None => false end.

Module Hrp.
Inductive States := Start | ParseL | ParseN | ParseCurrencyPrefix | ParseAmountNumber | ParseAmountSiPrefix.

Definition next_state (s : States) (read_symbol : ascii) : result States ParseError :=
  match s with
  | Start => if bool_decide (read_symbol = "l"%char) then Ok ParseL else Err MalformedHRP
  | ParseL => if bool_decide (read_symbol = "n"%char) then Ok ParseN else Err MalformedHRP
  | ParseN | ParseCurrencyPrefix => if negb (is_numeric read_symbol) then Ok ParseCurrencyPrefix else Ok ParseAmountNumber
  | ParseAmountNumber =>
      if is_numeric read_symbol then Ok ParseAmountNumber
      else if bool_decide (read_symbol ∈ ["m"; "u"; "n"; "p"]%char) then Ok ParseAmountSiPrefix
      else Err UnknownSiPrefix
  | ParseAmountSiPrefix => Err MalformedHRP
  end.
Definition state_is_final (s : States) : bool := match s with ParseL | ParseN => false | _ => true end.

(** A range is its start and its end. *)
Record StateMachine := mkSM {
  state : States; position : nat; currency_prefix : option (nat * nat); amount_number : option (nat * nat); amount_si_prefix : option (nat * nat) }.
Definition new_sm : StateMachine := mkSM Start 0 None None None.
Definition update_range (r : option (nat * nat)) (position : nat) : option (nat * nat) :=
  match r with None => Some (position, S position) | Some (s, e) => Some (s, S e) end.

Definition sm_step (c : ascii) (m : StateMachine) : result StateMachine ParseError :=
  let! next := next_state (state m) c in
  Ok (match next with
      | ParseCurrencyPrefix => mkSM next (S (position m)) (update_range (currency_prefix m) (position m)) (amount_number m) (amount_si_prefix m)
      | ParseAmountNumber => mkSM next (S (position m)) (currency_prefix m) (update_range (amount_number m) (position m)) (amount_si_prefix m)
      | ParseAmountSiPrefix => mkSM next (S (position m)) (currency_prefix m) (amount_number m) (update_range (amount_si_prefix m) (position m))
      | _ => mkSM next (S (position m)) (currency_prefix m) (amount_number m) (amount_si_prefix m)
      end).
Fixpoint sm_run (input : string) (m : StateMachine) : result StateMachine ParseError :=
  match input with EmptyString => Ok m | String c input' => let! m := sm_step c m in sm_run input' m end.

(** [&input[r]]. *)
Definition slice_of (input : string) (r : option (nat * nat)) : string :=
  match r with Some (s, e) => String.substring s (e - s) input | None => "" end.
Definition parse_hrp (input : string) : result (string * string * string) ParseError :=
  let! m := sm_run input new_sm in
  if negb (state_is_final (state m)) then Err MalformedHRP
  else Ok (slice_of input (currency_prefix m), slice_of input (amount_number m), slice_of input (amount_si_prefix m)).
End Hrp.

Definition currency_from_str (s : string) : result Currency ParseError :=
  if bool_decide (s = "bc") then Ok Bitcoin else if bool_decide (s = "tb") then Ok BitcoinTestnet
  else if bool_decide (s = "bcrt") then Ok Regtest else if bool_decide (s = "sb") then Ok Simnet
  else if bool_decide (s = "tbs") then Ok Signet else Err UnknownCurrency.
Definition si_from_str (s : string) : result SiPrefix ParseError :=
  if bool_decide (s = "m") then Ok Milli else if bool_decide (s = "u") then Ok Micro
  else if bool_decide (s = "n") then Ok Nano else if bool_decide (s = "p") then Ok Pico else Err UnknownSiPrefix.

Definition hrp_from_str (s : string) : result RawHrp ParseError :=
  let! parts := Hrp.parse_hrp s in
  let! currency := currency_from_str parts.1.1 in
  let! amount := (if bool_decide (parts.1.2 = "") then Ok None
                  else match parse_u64 parts.1.2 with Some a => Ok (Some a) | None => Err ParseAmountError end) in
  let! si_prefix := (if bool_decide (parts.2 = "") then Ok None
                     else
                       let! si := si_from_str parts.2 in
                       if match amount with Some amt => negb (in_widthb 64 (amt * multiplier si)) | None => false end then Err IntegerOverflowError
                       else Ok (Some si)) in
  Ok (mkHrp currency amount si_prefix).

(** [parse_int_be], for a type of [w] bits. *)
Definition parse_int_be (w : Z) (digits : list Z) (base : Z) : option Z :=
  foldl (fun acc b => x ← acc; x ← checked w (x * base); checked w (x + b)) (Some 0) digits.

(** [From<bech32::Error> for ParseError]. *)
Definition from_bech32 (e : Bech32Error) : ParseError := match e with InvalidPadding => PaddingError | _ => EBech32Error e end.

Section Reading.
Context `{Bech32} `{InvoiceCrypto} `{Sha256}.

Definition from_base32_bytes (d : list Z) : result bytes ParseError := map_err from_bech32 (vec_from_base32 d).
(** The [expect] of a conversion that fails only on a wrong length. *)
Definition of_length (n : nat) (why : string) (bs : bytes) : outcome bytes := if (length bs =? n)%nat then Ret bs else Panic why.

Definition sha256_from_base32 (field_data : list Z) : outcome (result bytes ParseError) :=
  if negb (length field_data =? 52)%nat then Ret (Err Skip)
  else match from_base32_bytes field_data with
       | Ok bs => bs ← of_length 32 "length was checked before (52 u5 -> 32 u8)" bs; Ret (Ok bs)
       | Err e => Ret (Err e)
       end.
Definition description_from_base32 (field_data : list Z) : outcome (result string ParseError) :=
  match from_base32_bytes field_data with
  | Err e => Ret (Err e)
  | Ok bs =>
      match from_utf8 bs with
      | None => Ret (Err DescriptionDecodeError)
      | Some s => match description_new s with Ok d => Ret (Ok d) | Err _ => Panic "Max len is 639=floor(1023*5/8) since the len field is only 10bits long" end
      end
  end.
Definition pubkey_from_base32 (field_data : list Z) : result PublicKey ParseError :=
  if negb (length field_data =? 53)%nat then Err Skip
  else let! bs := from_base32_bytes field_data in match pk_from_slice bs with Some k => Ok k | None => Err MalformedSignature end.
Definition int_from_base32 (field_data : list Z) : result Z ParseError :=
  match parse_int_be 64 field_data 32 with Some x => Ok x | None => Err IntegerOverflowError end.
Definition fallback_from_base32 (field_data : list Z) : result Fallback ParseError :=
  match field_data with
  | [] => Err UnexpectedEndOfTaggedFields
  | version :: rest =>
      let! bs := from_base32_bytes rest in
      if version <=? 16 then
        if (length bs <? 2)%nat || (40 <? length bs)%nat then Err InvalidSegWitProgramLength else Ok (SegWitProgram version bs)
      else if version =? 17 then if negb (length bs =? 20)%nat then Err InvalidPubKeyHashLength else Ok (PubKeyHash bs)
      else if version =? 18 then if negb (length bs =? 20)%nat then Err InvalidScriptHashLength else Ok (ScriptHash bs)
      else Err Skip
  end.

Definition expect_int (why : string) (o : option Z) : outcome Z := Prelude.unwrap why o.
Definition hop_from_bytes (hop_bytes : bytes) : outcome (result RouteHintHop ParseError) :=
  match pk_from_slice (take 33 hop_bytes) with
  | None => Ret (Err MalformedSignature)
  | Some k =>
      scid ← expect_int "short chan ID slice too big?" (parse_int_be 64 (take 8 (drop 33 hop_bytes)) 256);
      base ← expect_int "slice too big?" (parse_int_be 32 (take 4 (drop 41 hop_bytes)) 256);
      proportional ← expect_int "slice too big?" (parse_int_be 32 (take 4 (drop 45 hop_bytes)) 256);
      cltv ← expect_int "slice too big?" (parse_int_be 16 (take 2 (drop 49 hop_bytes)) 256);
      Ret (Ok (mkHint _ k scid base proportional cltv None None))
  end.
(** The loop takes 51 bytes at a time; [n] is their number divided by 51. *)
Fixpoint hops_from_bytes (n : nat) (bs : bytes) : outcome (result (list RouteHintHop) ParseError) :=
  match n with
  | O => Ret (Ok [])
  | S n' =>
      h ← hop_from_bytes (take 51 bs);
      match h with
      | Err e => Ret (Err e)
      | Ok hop => r ← hops_from_bytes n' (drop 51 bs); Ret (match r with Ok hops => Ok (hop :: hops) | Err e => Err e end)
      end
  end.
Definition route_from_base32 (field_data : list Z) : outcome (result (list RouteHintHop) ParseError) :=
  match from_base32_bytes field_data with
  | Err e => Ret (Err e)
  | Ok bs => if negb (length bs mod 51 =? 0)%nat then Ret (Err UnexpectedEndOfTaggedFields) else hops_from_bytes (length bs / 51) bs
  end.
(** lightning/src/ln/mod.rs; the error is converted by the caller. *)
Definition secret_from_base32 (field_data : list Z) : outcome (result bytes Bech32Error) :=
  if negb (length field_data =? 52)%nat then Ret (Err InvalidLength)
  else match vec_from_base32 field_data with
       | Ok bs => bs ← of_length 32 "source slice length does not match destination slice length" bs; Ret (Ok bs)
       | Err e => Ret (Err e)
       end.

(** [Ok(constructor(x?))]. *)
Definition wrapped {A} (k : A -> TaggedField) (r : result A ParseError) : result TaggedField ParseError := let! x := r in Ok (k x).

Definition field_from_base32 (field : list Z) : outcome (result TaggedField ParseError) :=
  match field with
  | t :: _ :: _ :: field_data =>
      if t =? TAG_PAYMENT_HASH then r ← sha256_from_base32 field_data; Ret (wrapped TPaymentHash r)
      else if t =? TAG_DESCRIPTION then r ← description_from_base32 field_data; Ret (wrapped TDescription r)
      else if t =? TAG_PAYEE_PUB_KEY then Ret (wrapped TPayeePubKey (pubkey_from_base32 field_data))
      else if t =? TAG_DESCRIPTION_HASH then r ← sha256_from_base32 field_data; Ret (wrapped TDescriptionHash r)
      else if t =? TAG_EXPIRY_TIME then Ret (wrapped (fun s => TExpiryTime (s, 0)) (int_from_base32 field_data))
      else if t =? TAG_MIN_FINAL_CLTV_EXPIRY then Ret (wrapped TMinFinalCltvExpiry (int_from_base32 field_data))
      else if t =? TAG_FALLBACK then Ret (wrapped TFallback (fallback_from_base32 field_data))
      else if t =? TAG_PRIVATE_ROUTE then r ← route_from_base32 field_data; Ret (wrapped TPrivateRoute r)
      else if t =? TAG_PAYMENT_SECRET then r ← secret_from_base32 field_data; Ret (wrapped TPaymentSecret (map_err from_bech32 r))
      else if t =? TAG_FEATURES then Ret (Ok (TFeatures (from_base32 field_data)))
      else Ret (Err Skip)
  | _ => Ret (Err UnexpectedEndOfTaggedFields)
  end.

Fixpoint parse_tagged_parts (fuel : nat) (data : list Z) : outcome (result (list RawTaggedField) ParseError) :=
  match data with
  | [] => Ret (Ok [])
  | _ =>
      match fuel with
      | O => OutOfFuel
      | S fuel' =>
          if (length data <? 3)%nat then Ret (Err UnexpectedEndOfTaggedFields)
          else
            len ← expect_int "can't overflow" (parse_int_be 64 (take 2 (drop 1 data)) 32);
            let last_element := (3 + Z.to_nat len)%nat in
            if (length data <? last_element)%nat then Ret (Err UnexpectedEndOfTaggedFields)
            else
              let field := take last_element data in
              r ← field_from_base32 field;
              match (match r with
                     | Ok f => Ok (KnownSemantics f)
                     | Err Skip | Err (EBech32Error InvalidLength) => Ok (UnknownSemantics field)
                     | Err e => Err e
                     end) with
              | Err e => Ret (Err e)
              | Ok part => rest ← parse_tagged_parts fuel' (drop last_element data); Ret (let! parts := rest in Ok (part :: parts))
              end
      end
  end.

Definition timestamp_from_base32 (b32 : list Z) : outcome (result Duration ParseError) :=
  if negb (length b32 =? 7)%nat then Ret (Err (InvalidSliceLength "PositiveTimestamp::from_base32()"))
  else
    t ← expect_int "7*5bit < 64bit, no overflow possible" (parse_int_be 64 b32 32);
    match from_unix_timestamp t with Ok t => Ret (Ok t) | Err _ => Panic "internal error: entered unreachable code" end.

Definition data_from_base32 (d : list Z) : outcome (result RawDataPart ParseError) :=
  if (length d <? 7)%nat then Ret (Err TooShortDataPart)
  else
    t ← timestamp_from_base32 (take 7 d);
    match t with
    | Err e => Ret (Err e)
    | Ok timestamp => r ← parse_tagged_parts (length d) (drop 7 d); Ret (let! tagged := r in Ok (mkData _ timestamp tagged))
    end.

Definition signature_from_base32 (s : list Z) : outcome (result RecoverableSignature ParseError) :=
  if negb (length s =? 104)%nat then Ret (Err (InvalidSliceLength "InvoiceSignature::from_base32()"))
  else
    match from_base32_bytes s with
    | Err e => Ret (Err e)
    | Ok bs =>
        if (length bs <? 65)%nat then Panic "index out of bounds"
        else Ret (match recovery_id_from_i32 (nth 64 bs 0) with
                  | None => Err MalformedSignature
                  | Some id => match rs_from_compact (take 64 bs) id with Some sig => Ok sig | None => Err MalformedSignature end
                  end)
    end.

(** lightning/src/util/invoice.rs *)
Definition construct_invoice_preimage (hrp_bytes : bytes) (data_without_signature : list Z) : outcome bytes :=
  let overhang := ((length data_without_signature * 5) mod 8)%nat in
  let data_part := data_without_signature ++ (if (0 <? overhang)%nat then 0 :: (if (overhang <? 3)%nat then [0] else []) else []) in
  match vec_from_base32 data_part with
  | Ok bs => Ret (hrp_bytes ++ bs)
  | Err _ => Panic "No padding error may occur due to appended zero above."
  end.
Definition hash_from_parts (hrp_bytes : bytes) (data_without_signature : list Z) : outcome bytes :=
  p ← construct_invoice_preimage hrp_bytes data_without_signature; Ret (Sha256_hash p).

(** [FromStr for SignedRawInvoice]. *)
Definition signed_from_str (s : string) : outcome (result SignedRawInvoice ParseError) :=
  match bech32_decode s with
  | Err e => Ret (Err (from_bech32 e))
  | Ok (hrp, data, var) =>
      match var with
      | VBech32m => Ret (Err (EBech32Error InvalidChecksum))
      | VBech32 =>
          if (length data <? 104)%nat then Ret (Err TooShortDataPart)
          else
            match hrp_from_str hrp with
            | Err e => Ret (Err e)
            | Ok raw_hrp =>
                let unsigned := take (length data - 104) data in
                d ← data_from_base32 unsigned;
                match d with
                | Err e => Ret (Err e)
                | Ok data_part =>
                    hash ← hash_from_parts (bytes_of hrp) unsigned;
                    sig ← signature_from_base32 (drop (length data - 104) data);
                    Ret (let! signature := sig in Ok (mkSigned _ _ (mkRaw _ raw_hrp data_part) hash signature))
                end
            end
      end
  end.
End Reading.

(** ** lib.rs: invoices *)

Section Invoices.
Context `{Bech32} `{InvoiceCrypto} `{Sha256}.

(** The writer's hash of an invoice, and signing. *)
Definition raw_hash (r : RawInvoice) : outcome bytes :=
  d ← write_data (data r); hash_from_parts (bytes_of (hrp_str (hrp r))) d.
Definition sign {E} (sign_method : bytes -> result RecoverableSignature E) (r : RawInvoice) : outcome (result SignedRawInvoice E) :=
  hash ← raw_hash r;
  Ret (let! s := sign_method hash in Ok (mkSigned _ _ r hash s)).

(** [find_extract!] over the fields with known semantics. *)
Definition known_tagged_fields (r : RawInvoice) : list TaggedField :=
  omap (fun raw => match raw with KnownSemantics tf => Some tf | UnknownSemantics _ => None end) (tagged_fields (data r)).
Definition find_all_extract {A} (pat : TaggedField -> option A) (r : RawInvoice) : list A := omap pat (known_tagged_fields r).
Definition find_extract {A} (pat : TaggedField -> option A) (r : RawInvoice) : option A := head (find_all_extract pat r).

Definition payment_hash := find_extract (fun f => match f with TPaymentHash x => Some x | _ => None end).
Definition description := find_extract (fun f => match f with TDescription x => Some x | _ => None end).
Definition payee_pub_key := find_extract (fun f => match f with TPayeePubKey x => Some x | _ => None end).
Definition description_hash := find_extract (fun f => match f with TDescriptionHash x => Some x | _ => None end).
Definition expiry_time := find_extract (fun f => match f with TExpiryTime x => Some x | _ => None end).
Definition min_final_cltv_expiry := find_extract (fun f => match f with TMinFinalCltvExpiry x => Some x | _ => None end).
Definition payment_secret := find_extract (fun f => match f with TPaymentSecret x => Some x | _ => None end).
Definition features := find_extract (fun f => match f with TFeatures x => Some x | _ => None end).
Definition fallbacks := find_all_extract (fun f => match f with TFallback x => Some x | _ => None end).
Definition private_routes := find_all_extract (fun f => match f with TPrivateRoute x => Some x | _ => None end).

(** The product is checked in the development profile only. *)
Definition amount_pico_btc (r : RawInvoice) : outcome (option Z) :=
  match raw_amount (hrp r) with
  | None => Ret None
  | Some v => x ← mul64 v (match si_prefix (hrp r) with None => 1000000000000 | Some si => multiplier si end); Ret (Some x)
  end.

(** [SignedRawInvoice]. *)
Definition recover_payee_pub_key (i : SignedRawInvoice) : result PublicKey SecpError := recover_ecdsa (inv_hash i) (signature i).
Definition signed_check_signature (i : SignedRawInvoice) : bool :=
  match recover_payee_pub_key i with
  | Err _ => false
  | Ok recovered =>
      let pub_key := match payee_pub_key (raw_invoice i) with Some k => k | None => recovered end in
      verify_recoverable (inv_hash i) (signature i) pub_key
  end.

(** [Invoice] wraps a [SignedRawInvoice] whose invariants were checked. *)
Definition count (pat : TaggedField -> bool) (i : SignedRawInvoice) : nat := length (List.filter pat (known_tagged_fields (raw_invoice i))).

Definition check_payment_secret (i : SignedRawInvoice) : result unit SemanticError :=
  let payment_secret_count := count (fun f => match f with TPaymentSecret _ => true | _ => false end) i in
  if (payment_secret_count <? 1)%nat then Err NoPaymentSecret
  else if (1 <? payment_secret_count)%nat then Err MultiplePaymentSecrets
  else Ok tt.
Definition check_field_counts (i : SignedRawInvoice) : result unit SemanticError :=
  let payment_hash_cnt := count (fun f => match f with TPaymentHash _ => true | _ => false end) i in
  if (payment_hash_cnt <? 1)%nat then Err NoPaymentHash
  else if (1 <? payment_hash_cnt)%nat then Err MultiplePaymentHashes
  else
    let description_cnt := count (fun f => match f with TDescription _ | TDescriptionHash _ => true | _ => false end) i in
    if (description_cnt <? 1)%nat then Err NoDescription
    else if (1 <? description_cnt)%nat then Err MultipleDescriptions
    else let! _ := check_payment_secret i in Ok tt.
Definition check_amount (i : SignedRawInvoice) : outcome (result unit SemanticError) :=
  a ← amount_pico_btc (raw_invoice i);
  Ret (match a with Some v => if negb (v `mod` 10 =? 0) then Err ImpreciseAmount else Ok tt | None => Ok tt end).
Definition check_feature_bits (i : SignedRawInvoice) : result unit SemanticError :=
  let! _ := check_payment_secret i in
  match features (raw_invoice i) with
  | None => Err InvalidFeatures
  | Some fs => if requires_unknown_bits InvoiceContext fs then Err InvalidFeatures
               else if negb (supports_feature PaymentSecret fs) then Err InvalidFeatures
               else Ok tt
  end.
Definition check_signature (i : SignedRawInvoice) : outcome (result unit SemanticError) :=
  match recover_payee_pub_key i with
  | Err InvalidRecoveryIdE => Ret (Err SInvalidRecoveryId)
  | Err InvalidSignatureE => Ret (Err InvalidSignature)
  | Err OtherSecpError => Panic "no other error may occur"
  | Ok _ => Ret (if negb (signed_check_signature i) then Err InvalidSignature else Ok tt)
  end.

(** The checks run in order up to the first error. *)
Definition and_then {E} (a : outcome (result unit E)) (b : outcome (result unit E)) : outcome (result unit E) :=
  r ← a; match r with Ok _ => b | Err e => Ret (Err e) end.
Definition from_signed (i : SignedRawInvoice) : outcome (result SignedRawInvoice SemanticError) :=
  r ← and_then (Ret (check_field_counts i)) (and_then (Ret (check_feature_bits i)) (and_then (check_signature i) (check_amount i)));
  Ret (let! _ := r in Ok i).

(** [FromStr for Invoice] (de.rs). *)
Definition invoice_from_str (s : string) : outcome (result SignedRawInvoice ParseOrSemanticError) :=
  r ← signed_from_str s;
  match r with
  | Err e => Ret (Err (EParse e))
  | Ok signed => x ← from_signed signed; Ret (map_err ESemantic x)
  end.

(** [Invoice]'s own accessors. *)
Definition invoice_expiry_time (i : SignedRawInvoice) : Duration :=
  match expiry_time (raw_invoice i) with Some d => d | None => (DEFAULT_EXPIRY_TIME, 0) end.
Definition invoice_min_final_cltv_expiry (i : SignedRawInvoice) : Z :=
  match min_final_cltv_expiry (raw_invoice i) with Some n => n | None => DEFAULT_MIN_FINAL_CLTV_EXPIRY end.
Definition invoice_amount_milli_satoshis (i : SignedRawInvoice) : outcome (option Z) :=
  a ← amount_pico_btc (raw_invoice i); Ret (option_map (fun v => v `div` 10) a).
(** [Duration::checked_add] and the order on durations. *)
Definition duration_add (a b : Duration) : option Duration :=
  let nanos := a.2 + b.2 in
  let secs := a.1 + b.1 + (if 1000000000 <=? nanos then 1 else 0) in
  if secs <? 2 ^ 64 then Some (secs, if 1000000000 <=? nanos then nanos - 1000000000 else nanos) else None.
Definition duration_ltb (a b : Duration) : bool := (a.1 <? b.1) || ((a.1 =? b.1) && (a.2 <? b.2)).
Definition would_expire (i : SignedRawInvoice) (at_time : Duration) : bool :=
  duration_ltb (default (U64_MAX, 999999999) (duration_add (timestamp (data (raw_invoice i))) (invoice_expiry_time i))) at_time.

(** [InvoiceBuilder]; which of its methods may follow which is a matter of types. *)
Record InvoiceBuilder := mkBuilder {
  b_currency : Currency; b_amount : option Z; b_si_prefix : option SiPrefix; b_timestamp : option Duration;
  b_tagged_fields : list TaggedField; b_error : option CreationError }.
Definition builder_new (c : Currency) : InvoiceBuilder := mkBuilder c None None None [] None.
Definition push_field (f : TaggedField) (b : InvoiceBuilder) : InvoiceBuilder :=
  mkBuilder (b_currency b) (b_amount b) (b_si_prefix b) (b_timestamp b) (b_tagged_fields b ++ [f]) (b_error b).
Definition fail_with (e : CreationError) (b : InvoiceBuilder) : InvoiceBuilder :=
  mkBuilder (b_currency b) (b_amount b) (b_si_prefix b) (b_timestamp b) (b_tagged_fields b) (Some e).

Definition b_amount_milli_satoshis (amount_msat : Z) (b : InvoiceBuilder) : outcome InvoiceBuilder :=
  amount ← mul64 amount_msat 10;
  si ← Prelude.unwrap "Pico should always match" (find (fun p => amount `mod` multiplier p =? 0) values_desc);
  Ret (mkBuilder (b_currency b) (Some (amount `div` multiplier si)) (Some si) (b_timestamp b) (b_tagged_fields b) (b_error b)).
Definition b_payee_pub_key (k : PublicKey) : InvoiceBuilder -> InvoiceBuilder := push_field (TPayeePubKey k).
Definition b_expiry_time (d : Duration) : InvoiceBuilder -> InvoiceBuilder := push_field (TExpiryTime d).
Definition b_fallback (f : Fallback) : InvoiceBuilder -> InvoiceBuilder := push_field (TFallback f).
Definition b_private_route (hint : list RouteHintHop) (b : InvoiceBuilder) : InvoiceBuilder :=
  match private_route_new hint with Ok r => push_field (TPrivateRoute r) b | Err e => fail_with e b end.
Definition b_description (d : string) (b : InvoiceBuilder) : InvoiceBuilder :=
  match description_new d with Ok d => push_field (TDescription d) b | Err e => fail_with e b end.
Definition b_description_hash (h : bytes) : InvoiceBuilder -> InvoiceBuilder := push_field (TDescriptionHash h).
Definition b_payment_hash (h : bytes) : InvoiceBuilder -> InvoiceBuilder := push_field (TPaymentHash h).
Definition b_duration_since_epoch (time : Duration) (b : InvoiceBuilder) : InvoiceBuilder :=
  match from_duration_since_epoch time with
  | Ok t => mkBuilder (b_currency b) (b_amount b) (b_si_prefix b) (Some t) (b_tagged_fields b) (b_error b)
  | Err e => fail_with e b
  end.
Definition b_min_final_cltv_expiry (n : Z) : InvoiceBuilder -> InvoiceBuilder := push_field (TMinFinalCltvExpiry n).
Definition b_payment_secret (s : bytes) (b : InvoiceBuilder) : InvoiceBuilder :=
  let features := set_required_bit PaymentSecret (set_required_bit VariableLengthOnion empty) in
  push_field (TFeatures features) (push_field (TPaymentSecret s) b).
Definition b_basic_mpp (b : InvoiceBuilder) : InvoiceBuilder :=
  mkBuilder (b_currency b) (b_amount b) (b_si_prefix b) (b_timestamp b)
    ((fun f => match f with TFeatures fs => TFeatures (set_optional_bit BasicMPP fs) | f => f end) <$> b_tagged_fields b) (b_error b).

Definition build_raw (b : InvoiceBuilder) : outcome (result RawInvoice CreationError) :=
  match b_error b with
  | Some e => Ret (Err e)
  | None =>
      timestamp ← Prelude.unwrap "ensured to be Some(t) by type T" (b_timestamp b);
      Ret (Ok (mkRaw _ (mkHrp (b_currency b) (b_amount b) (b_si_prefix b)) (mkData _ timestamp (KnownSemantics <$> b_tagged_fields b))))
  end.

Inductive SignOrCreationError (E : Type) := SignError (e : E) | ECreationError (e : CreationError).
Arguments SignError {E} e.
Arguments ECreationError {E} e.
Definition try_build_signed {E} (sign_function : bytes -> result RecoverableSignature E) (b : InvoiceBuilder) :
    outcome (result SignedRawInvoice (SignOrCreationError E)) :=
  r ← build_raw b;
  match r with
  | Err e => Ret (Err (ECreationError e))
  | Ok raw =>
      s ← sign sign_function raw;
      match s with
      | Err e => Ret (Err (SignError e))
      | Ok invoice =>
          let why := "should be ensured by type signature of builder" in
          _ ← unwrap_result why (check_field_counts invoice);
          _ ← unwrap_result why (check_feature_bits invoice);
          a ← check_amount invoice;
          _ ← unwrap_result why a;
          Ret (Ok invoice)
      end
  end.
End Invoices.
