(* ===== verification/InvoiceSpec.v ===== *)
(** * Invoices: what is printed is read back, and no text makes the parser panic

    The specification of Invoice.v: the converter of ser.rs is the regrouping of bits that BIP 173
    describes, every valid invoice survives printing and parsing, and the parser answers every text. *)

From S2P Require Import Prelude Text Bytes Stream Ser SerLaws Features Msgs Secrets WireCases Invoice.

Local Open Scope Z_scope.

(** ** Bits *)

Lemma foldl_bits l acc : foldl (fun acc b => 2 * acc + Z.b2z b) acc l = acc * 2 ^ Z.of_nat (length l) + of_bits l.
Proof.
  unfold of_bits. revert acc. induction l as [|b l IH]; intros acc; cbn [foldl length]; [cbn; lia|].
  rewrite IH, (IH (2 * 0 + _)), Nat2Z.inj_succ, Z.pow_succ_r by lia. ring.
Qed.
Lemma of_bits_cons b l : of_bits (b :: l) = Z.b2z b * 2 ^ Z.of_nat (length l) + of_bits l.
Proof. unfold of_bits at 1. cbn [foldl]. rewrite foldl_bits. f_equal. Qed.
Lemma of_bits_app l k : of_bits (l ++ k) = of_bits l * 2 ^ Z.of_nat (length k) + of_bits k.
Proof. unfold of_bits at 1. rewrite foldl_app, foldl_bits. done. Qed.
Lemma of_bits_width l : in_width (Z.of_nat (length l)) (of_bits l).
Proof.
  induction l as [|b l IH]; [cbn; unfold in_width; lia|]. rewrite of_bits_cons. unfold in_width in *.
  cbn [length]. rewrite Nat2Z.inj_succ, Z.pow_succ_r by lia. destruct b; cbn [Z.b2z]; lia.
Qed.
Lemma bits_of_S n x : bits_of (S n) x = Z.testbit x (Z.of_nat n) :: bits_of n x.
Proof. unfold bits_of. rewrite seq_S, rev_app_distr. done. Qed.
Lemma length_bits_of n x : length (bits_of n x) = n.
Proof. unfold bits_of. by rewrite length_fmap, length_rev, length_seq. Qed.
Lemma of_bits_of n x : of_bits (bits_of n x) = wrap (Z.of_nat n) x.
Proof.
  unfold wrap. induction n as [|n IH]; [by rewrite Z.mod_1_r|].
  rewrite bits_of_S, of_bits_cons, IH, length_bits_of, Nat2Z.inj_succ, Z.pow_succ_r by lia.
  rewrite Z.testbit_spec', (Z.mul_comm 2), Z.rem_mul_r by lia. ring.
Qed.
Lemma bits_of_bits l : bits_of (length l) (of_bits l) = l.
Proof.
  assert (E : forall n x y, x `mod` 2 ^ Z.of_nat n = y `mod` 2 ^ Z.of_nat n -> bits_of n x = bits_of n y).
  { intros n x y Hm. unfold bits_of. apply list_fmap_ext. intros j i Hi.
    apply list_elem_of_lookup_2, list_elem_of_In, in_rev, in_seq in Hi.
    by rewrite <- (Z.mod_pow2_bits_low x (Z.of_nat n)), Hm, Z.mod_pow2_bits_low by lia. }
  induction l as [|b l IH]; [done|]. cbn [length]. rewrite bits_of_S, of_bits_cons. f_equal.
  - pose proof (of_bits_width l) as Hw. unfold in_width in Hw.
    apply Z.b2z_inj. rewrite Z.testbit_spec' by lia. rewrite Z.add_comm, Z_div_plus, (Z.div_small (of_bits l)) by lia.
    by destruct b.
  - etrans; [|exact IH]. apply E. by rewrite Z.add_comm, Z_mod_plus_full.
Qed.
Lemma of_bits_false n : of_bits (replicate n false) = 0.
Proof. induction n as [|n IH]; [done|]. cbn [replicate]. by rewrite of_bits_cons, IH. Qed.

Lemma all_bits_cons n x xs : all_bits n (x :: xs) = bits_of n x ++ all_bits n xs.
Proof. done. Qed.
Lemma all_bits_app n xs ys : all_bits n (xs ++ ys) = all_bits n xs ++ all_bits n ys.
Proof. unfold all_bits. by rewrite fmap_app, concat_app. Qed.
Lemma length_all_bits n xs : length (all_bits n xs) = (length xs * n)%nat.
Proof. induction xs as [|x xs IH]; [done|]. rewrite all_bits_cons, length_app, length_bits_of, IH. done. Qed.
Lemma all_bits_zeros n k : all_bits n (replicate k 0) = replicate (k * n) false.
Proof.
  induction k as [|k IH]; [done|]. cbn [replicate]. rewrite all_bits_cons, IH. cbn [Nat.mul]. rewrite replicate_add. f_equal.
  clear IH. induction n as [|n IH]; [done|]. by rewrite bits_of_S, Z.testbit_0_l, IH.
Qed.
Lemma all_bits_inj n xs ys : (0 < n)%nat -> Forall (in_width (Z.of_nat n)) xs -> Forall (in_width (Z.of_nat n)) ys -> all_bits n xs = all_bits n ys -> xs = ys.
Proof.
  intros Hn Hx. revert ys. induction Hx as [|x xs Hx Hxs IH]; intros ys Hy E.
  - apply (f_equal length) in E. rewrite !length_all_bits in E. destruct ys; [done|]. cbn [length] in E. lia.
  - destruct Hy as [|y ys Hy Hys].
    { apply (f_equal length) in E. rewrite !length_all_bits in E. cbn [length] in E. lia. }
    rewrite !all_bits_cons in E. apply app_inj_1 in E as [E1 E2]; [|by rewrite !length_bits_of].
    f_equal; [|by apply IH]. apply (f_equal of_bits) in E1. by rewrite !of_bits_of, !wrap_small in E1.
Qed.

(** Regrouping fills the last group up with zeros. *)
Lemma groups_spec n fuel l :
  (0 < n)%nat -> (length l <= fuel)%nat ->
  Forall (in_width (Z.of_nat n)) (groups fuel n l) /\
  exists k, (k < n)%nat /\ all_bits n (groups fuel n l) = l ++ replicate k false.
Proof.
  intros Hn. revert l. induction fuel as [|fuel IH]; intros [|b l] Hl; cbn [groups length] in *; try lia.
  1,2: split; [constructor|by exists 0%nat].
  set (w := b :: l) in *. destruct (IH (drop n w)) as (Hw & k & Hk & E).
  { rewrite length_drop. subst w. cbn [length]. lia. }
  assert (Hlen : length (take n (w ++ replicate n false)) = n).
  { rewrite length_take, length_app, length_replicate. lia. }
  pose proof (of_bits_width (take n (w ++ replicate n false))) as Hb. pose proof (bits_of_bits (take n (w ++ replicate n false))) as Hb'.
  rewrite Hlen in Hb, Hb'. split; [by constructor|]. rewrite all_bits_cons, E, Hb'.
  destruct (Nat.le_gt_cases n (length w)) as [Hge|Hlt].
  - exists k. split; [done|]. rewrite take_app_le, app_assoc, take_drop by done. done.
  - exists (n - length w)%nat. assert (Hd : drop n w = []) by (apply drop_ge; lia).
    split; [subst w; cbn [length] in *; lia|]. rewrite take_app, (take_ge w), take_replicate, Nat.min_l by lia.
    rewrite Hd in *. replace (replicate k false) with (@nil bool); [by rewrite !List.app_nil_r|].
    apply (f_equal length) in E. rewrite length_all_bits in E. rewrite length_app, length_replicate in E. cbn [length] in E.
    destruct k; [done|]. destruct (groups _ _ _); cbn [length Nat.mul Nat.add] in E; lia.
Qed.
Lemma regroup_spec n l :
  (0 < n)%nat ->
  Forall (in_width (Z.of_nat n)) (regroup n l) /\ exists k, (k < n)%nat /\ all_bits n (regroup n l) = l ++ replicate k false.
Proof. intros Hn. by apply groups_spec. Qed.

(** The groups are the only ones that carry the bits with less than a group of padding. *)
Lemma regroup_unique n l xs k :
  (0 < n)%nat -> (k < n)%nat -> Forall (in_width (Z.of_nat n)) xs -> all_bits n xs = l ++ replicate k false -> xs = regroup n l.
Proof.
  intros Hn Hk Hxs E. destruct (regroup_spec n l Hn) as (Hr & j & Hj & Er).
  apply (all_bits_inj n); [done..|]. rewrite E, Er. do 2 f_equal.
  apply (f_equal length) in E, Er. rewrite length_all_bits, length_app, length_replicate in E, Er. 
  assert (length xs = length (regroup n l)) by nia. nia.
Qed.

(** ** Bytes and groups *)

Section Groups.
Context `{Bech32Laws}.

Abbreviation u5s := (Forall (in_width 5)).

Lemma to_base32_u5 bs : all_u8 bs -> u5s (slice_to_base32 bs).
Proof. intros Hb. rewrite to_base32_spec by done. apply (regroup_spec 5). lia. Qed.

Lemma length_regroup n l : (0 < n)%nat -> length (regroup n l) = ((length l + (n - 1)) / n)%nat.
Proof.
  intros Hn. destruct (regroup_spec n l Hn) as (_ & k & Hk & E). apply (f_equal length) in E.
  rewrite length_all_bits, length_app, length_replicate in E. apply (Nat.div_unique _ _ _ (n - 1 - k)); nia.
Qed.

Lemma length_to_base32 bs : all_u8 bs -> length (slice_to_base32 bs) = bytes_size_to_base32_size (length bs).
Proof.
  intros Hb. rewrite to_base32_spec, length_regroup, length_all_bits by (done || lia). unfold bytes_size_to_base32_size.
  pose proof (Nat.div_mod_eq (length bs * 8) 5). pose proof (Nat.mod_upper_bound (length bs * 8) 5 ltac:(lia)).
  destruct (Nat.eqb_spec ((length bs * 8) mod 5) 0); symmetry.
  - apply (Nat.div_unique _ _ _ 4); lia.
  - apply (Nat.div_unique _ _ _ ((length bs * 8) mod 5 - 1)); lia.
Qed.

(** Whole bytes followed by less than a group of zeros are unpacked. *)
Lemma unpack_bytes bs k : all_u8 bs -> (k < 5)%nat -> unpack (all_bits 8 bs ++ replicate k false) = Ok bs.
Proof.
  intros Hb Hk.
  assert (E : ((length (all_bits 8 bs ++ replicate k false)) / 8 * 8)%nat = length (all_bits 8 bs)).
  { rewrite length_app, length_replicate, length_all_bits. rewrite Nat.add_comm, Nat.div_add, (Nat.div_small k) by lia. lia. }
  unfold unpack, leftover. rewrite E, drop_app_length, take_app_length, length_replicate.
  rewrite (proj2 (Nat.ltb_lt _ _) Hk).
  replace (forallb negb (replicate k false)) with true by (clear; induction k; [done|]; cbn; done).
  cbn [andb]. f_equal. symmetry. apply (regroup_unique 8 _ _ 0); [lia|lia|done|]. by rewrite List.app_nil_r.
Qed.
Lemma base32_roundtrip bs : all_u8 bs -> vec_from_base32 (slice_to_base32 bs) = Ok bs.
Proof.
  intros Hb. rewrite from_base32_spec by by apply to_base32_u5. rewrite to_base32_spec by done.
  destruct (regroup_spec 5 (all_bits 8 bs)) as (_ & k & Hk & ->); [lia|]. by apply unpack_bytes.
Qed.

(** What comes out of the conversion are bytes, as many as fit. *)
Lemma unpack_typed l bs : unpack l = Ok bs -> all_u8 bs /\ length bs = (length l / 8)%nat.
Proof.
  assert (Hle : (length l / 8 * 8 <= length l)%nat) by (pose proof (Nat.div_mod_eq (length l) 8); lia).
  unfold unpack. revert Hle. generalize (length l / 8)%nat. intros k Hle. case_match; intros [= <-].
  split; [apply (regroup_spec 8); lia|].
  rewrite length_regroup, (length_take_le _ _ Hle) by lia. by rewrite Nat.add_comm, Nat.div_add by lia.
Qed.
Lemma from_base32_typed d bs : u5s d -> vec_from_base32 d = Ok bs -> all_u8 bs /\ length bs = (length d * 5 / 8)%nat.
Proof. intros Hd E. rewrite from_base32_spec in E by done. apply unpack_typed in E. by rewrite length_all_bits in E. Qed.

(** ** The converter *)

(** Short lists of bits, all of them. *)
Fixpoint all_lists (n : nat) : list (list bool) :=
  match n with O => [[]] | S n' => [] :: (b ← [true; false]; (cons b) <$> all_lists n') end.
Lemma all_lists_complete n l : (length l <= n)%nat -> l ∈ all_lists n.
Proof.
  revert l. induction n as [|n IH]; intros [|b l] Hl; cbn [all_lists length] in *; try lia; [set_solver..|].
  apply elem_of_cons. right. apply list_elem_of_bind. exists b. split; [|destruct b; set_solver].
  apply list_elem_of_fmap. exists l. split; [done|]. apply IH. lia.
Qed.

(** A step of the converter on what waits, apart from what it has written before. *)
Definition prefixed (w : list Z) (o : outcome BytesToBase32) : outcome BytesToBase32 :=
  match o with Ret c => Ret (mkConv (w ++ written c) (buffer c) (buffer_bits c)) | Panic why => Panic why | OutOfFuel => OutOfFuel end.
Definition holding (w : list Z) (r : list bool) : BytesToBase32 :=
  mkConv w (of_bits (r ++ replicate (8 - length r) false)) (Z.of_nat (length r)).

Lemma flush_prefixed w b n : flush (mkConv w b n) = prefixed w (flush (mkConv [] b n)).
Proof. unfold flush, u5_expect. cbn. repeat case_match; cbn; by rewrite ?List.app_nil_r. Qed.
Lemma append_u8_prefixed w byte b n : append_u8 byte (mkConv w b n) = prefixed w (append_u8 byte (mkConv [] b n)).
Proof.
  unfold append_u8. rewrite flush_prefixed. destruct (flush (mkConv [] b n)) as [c| |]; cbn; [|done..].
  unfold u5_expect. case_match; cbn; by rewrite <- ?List.app_assoc.
Qed.

Definition view (o : outcome BytesToBase32) : option (list Z * Z * Z) :=
  match o with Ret c => Some (written c, buffer c, buffer_bits c) | _ => None end.
Lemma view_inj o c : view o = view (Ret c) -> o = Ret c.
Proof. destruct o as [[]| |], c; cbn; congruence. Qed.

(** The groups complete in [r], and the bits left. *)
Definition full (r : list bool) : list Z := regroup 5 (take (length r / 5 * 5) r).
Definition rest_bits (r : list bool) : list bool := drop (length r / 5 * 5) r.

Definition flush_case (r : list bool) : bool :=
  bool_decide (view (flush (holding [] r)) = view (Ret (holding (full r) (rest_bits r)))).
(** With less than a group waiting, a byte completes one group. *)
Definition append_case (r : list bool) : bool :=
  forallb (fun byte => bool_decide (view (append_u8 byte (holding [] r)) =
    view (Ret (holding (regroup 5 (take 5 (r ++ bits_of 8 byte))) (drop 5 (r ++ bits_of 8 byte)))))) (Z.of_nat <$> seq 0 256).

Lemma flush_cases : forallb flush_case (all_lists 7) = true.
Proof. vm_compute. reflexivity. Qed.
Lemma append_cases : forallb append_case (all_lists 4) = true.
Proof. vm_compute. reflexivity. Qed.

Lemma flush_holding w r : (length r <= 7)%nat -> flush (holding w r) = Ret (holding (w ++ full r) (rest_bits r)).
Proof.
  intros Hr. pose proof flush_cases as Hc. rewrite forallb_forall in Hc.
  specialize (Hc r (proj1 (list_elem_of_In _ _) (all_lists_complete 7 r Hr))).
  apply bool_decide_eq_true, view_inj in Hc. unfold holding in *. by rewrite flush_prefixed, Hc.
Qed.
Lemma append_holding w r byte :
  (length r <= 4)%nat -> u8 byte ->
  append_u8 byte (holding w r) = Ret (holding (w ++ regroup 5 (take 5 (r ++ bits_of 8 byte))) (drop 5 (r ++ bits_of 8 byte))).
Proof.
  intros Hr Hb. pose proof append_cases as Hc. rewrite forallb_forall in Hc.
  specialize (Hc r (proj1 (list_elem_of_In _ _) (all_lists_complete 4 r Hr))). unfold append_case in Hc.
  rewrite forallb_forall in Hc. unfold in_width in Hb.
  opose proof (Hc byte _) as Hc'.
  { apply list_elem_of_In, list_elem_of_fmap. exists (Z.to_nat byte). split; [lia|]. apply list_elem_of_In, in_seq. lia. }
  apply bool_decide_eq_true, view_inj in Hc'. unfold holding in *. by rewrite append_u8_prefixed, Hc'.
Qed.

Lemma rest_bits_length r : (length (rest_bits r) <= 4)%nat.
Proof. unfold rest_bits. rewrite length_drop. pose proof (Nat.div_mod_eq (length r) 5). pose proof (Nat.mod_upper_bound (length r) 5 ltac:(lia)). lia. Qed.
Lemma full_small r : (length r <= 4)%nat -> full r = [] /\ rest_bits r = r.
Proof. intros Hr. unfold full, rest_bits. rewrite (Nat.div_small (length r) 5) by lia. done. Qed.
Lemma whole_groups r m : (length r = m * 5)%nat -> u5s (regroup 5 r) /\ all_bits 5 (regroup 5 r) = r.
Proof.
  intros Hr. destruct (regroup_spec 5 r ltac:(lia)) as (Hw & k & Hk & E). split; [done|].
  destruct k; [by rewrite List.app_nil_r in E|]. apply (f_equal length) in E. rewrite length_all_bits, length_app, length_replicate in E. lia.
Qed.
Lemma full_spec r : u5s (full r) /\ all_bits 5 (full r) ++ rest_bits r = r.
Proof.
  unfold full, rest_bits. destruct (whole_groups (take (length r / 5 * 5) r) (length r / 5)) as [Hu E].
  { apply length_take_le. pose proof (Nat.div_mod_eq (length r) 5). lia. }
  split; [done|]. by rewrite E, take_drop.
Qed.

(** The converter holds the bits it was given: groups written, and up to seven bits waiting. *)
Definition conv_ok (c : BytesToBase32) (total : list bool) : Prop :=
  exists w r, c = holding w r /\ u5s w /\ (length r <= 7)%nat /\ all_bits 5 w ++ r = total.

Lemma append_u8_ok c total byte :
  conv_ok c total -> u8 byte -> exists c', append_u8 byte c = Ret c' /\ conv_ok c' (total ++ bits_of 8 byte).
Proof.
  intros (w & r & -> & Hw & Hr & <-) Hb. destruct (full_spec r) as [Hf Ef]. pose proof (rest_bits_length r) as Hl.
  assert (E : append_u8 byte (holding w r) = append_u8 byte (holding (w ++ full r) (rest_bits r))).
  { unfold append_u8. rewrite !flush_holding by lia.
    destruct (full_small (rest_bits r) Hl) as [-> ->]. by rewrite List.app_nil_r. }
  rewrite E, append_holding by done. eexists. split; [done|].
  set (q := rest_bits r ++ bits_of 8 byte). assert (Hq : length q = (length (rest_bits r) + 8)%nat) by (subst q; by rewrite length_app, length_bits_of).
  destruct (whole_groups (take 5 q) 1) as [Hu Eu]; [rewrite length_take; lia|].
  eexists _, _. split; [done|]. split_and!.
  - by rewrite !Forall_app.
  - rewrite length_drop. lia.
  - rewrite !all_bits_app, Eu, <- !app_assoc, take_drop. subst q. by rewrite (app_assoc (all_bits 5 (full r))), Ef.
Qed.
Lemma append_ok bs c total :
  conv_ok c total -> all_u8 bs -> exists c', append bs c = Ret c' /\ conv_ok c' (total ++ all_bits 8 bs).
Proof.
  intros Hc Hb. revert c total Hc. induction Hb as [|b bs Hb Hbs IH]; intros c total Hc; cbn [append].
  - exists c. by rewrite List.app_nil_r.
  - destruct (append_u8_ok c total b Hc Hb) as (c1 & -> & Hc1). destruct (IH c1 _ Hc1) as (c2 & E & Hc2).
    exists c2. split; [by rewrite <- E|]. by rewrite all_bits_cons, app_assoc.
Qed.
Lemma finalize_ok c total : conv_ok c total -> finalize c = Ret (regroup 5 total).
Proof.
  intros (w & r & -> & Hw & Hr & <-). destruct (full_spec r) as [Hf Ef]. pose proof (rest_bits_length r) as Hl.
  assert (Et : all_bits 5 w ++ r = all_bits 5 (w ++ full r) ++ rest_bits r) by by rewrite all_bits_app, <- app_assoc, Ef.
  rewrite Et. assert (Hwf : u5s (w ++ full r)) by by rewrite Forall_app.
  unfold finalize. rewrite flush_holding by done. clear Ef Et. generalize dependent (w ++ full r). intros v Hv.
  cbn -[rest_bits replicate Z.shiftr].
  destruct (rest_bits r) as [|b q] eqn:Er.
  - cbn -[Z.shiftr]. f_equal. apply (regroup_unique 5 _ _ 0); [lia|lia|done|]. by rewrite !List.app_nil_r.
  - assert (Hs : Z.shiftr (of_bits ((b :: q) ++ replicate (8 - length (b :: q)) false)) 3 = of_bits ((b :: q) ++ replicate (5 - length (b :: q)) false)).
    { replace (8 - length (b :: q))%nat with (5 - length (b :: q) + 3)%nat by (cbn [length] in *; lia).
      rewrite replicate_add, app_assoc, of_bits_app, of_bits_false, Z.shiftr_div_pow2 by lia.
      cbn [length replicate]. rewrite Z.add_0_r. by apply Z.div_mul. }
    rewrite Hs. remember ((b :: q) ++ replicate (5 - length (b :: q)) false) as p eqn:Ep.
    assert (Hp : length p = 5%nat) by (rewrite Ep, length_app, length_replicate; cbn [length] in *; lia).
    pose proof (of_bits_width p) as Hw5. pose proof (bits_of_bits p) as Hb5. rewrite Hp in Hw5, Hb5. unfold in_width in Hw5.
    unfold u5_expect. rewrite (proj2 (Z.ltb_lt (of_bits p) 32)) by lia. cbn. f_equal.
    apply (regroup_unique 5 _ _ (5 - length (b :: q))); [lia|cbn [length]; lia| |].
    + rewrite Forall_app. split; [done|]. constructor; [done|constructor].
    + rewrite all_bits_app, all_bits_cons, Hb5. change (all_bits 5 []) with (@nil bool). by rewrite List.app_nil_r, Ep, <- !app_assoc.
Qed.
Lemma new_converter_ok : conv_ok (new_converter []) [].
Proof. exists [], []. split_and!; [done|constructor|cbn; lia|done]. Qed.

(** The converter of ser.rs and the crate's conversion agree. *)
Lemma converted bs : all_u8 bs -> (c ← append bs (new_converter []); finalize c) = Ret (slice_to_base32 bs).
Proof.
  intros Hb. destruct (append_ok bs _ _ new_converter_ok Hb) as (c & -> & Hc). cbn.
  by rewrite (finalize_ok _ _ Hc), to_base32_spec.
Qed.
End Groups.

(** ** Integers *)

Definition digits_value (base acc : Z) (ds : list Z) : Z := foldl (fun a d => a * base + d) acc ds.
Abbreviation digits_in base := (Forall (fun d => 0 <= d < base)).

Lemma digits_value_app base acc ds es : digits_value base acc (ds ++ es) = digits_value base (digits_value base acc ds) es.
Proof. apply foldl_app. Qed.
Lemma digits_value_ge base acc ds : 1 <= base -> 0 <= acc -> digits_in base ds -> acc <= digits_value base acc ds.
Proof.
  intros Hb. revert acc. induction ds as [|d ds IH]; intros acc Ha Hd; cbn; [lia|]. inversion_clear Hd as [|?? Hd1 Hd2].
  specialize (IH (acc * base + d) ltac:(nia) Hd2). unfold digits_value in IH. nia.
Qed.
Lemma digits_value_lt base acc ds :
  1 <= base -> digits_in base ds -> digits_value base acc ds < (acc + 1) * base ^ Z.of_nat (length ds).
Proof.
  intros Hb. revert acc. induction ds as [|d ds IH]; intros acc Hd; [cbn; lia|]. inversion_clear Hd as [|?? Hd1 Hd2].
  specialize (IH (acc * base + d) Hd2). cbn [digits_value foldl length]. rewrite Nat2Z.inj_succ, Z.pow_succ_r by lia.
  fold (digits_value base (acc * base + d) ds). pose proof (Z.pow_pos_nonneg base (Z.of_nat (length ds)) ltac:(lia) ltac:(lia)). nia.
Qed.
Lemma parse_int_be_value w base ds :
  1 <= base -> digits_in base ds -> digits_value base 0 ds < 2 ^ w -> parse_int_be w ds base = Some (digits_value base 0 ds).
Proof.
  intros Hb Hd Hlt. unfold parse_int_be.
  enough (G : forall acc, 0 <= acc -> digits_value base acc ds < 2 ^ w ->
    foldl (fun a b => x ← a; x ← checked w (x * base); checked w (x + b)) (Some acc) ds = Some (digits_value base acc ds)) by by apply G.
  clear Hlt. induction ds as [|d ds IH]; intros acc Ha Hlt; [done|]. inversion_clear Hd as [|?? Hd1 Hd2]. cbn [foldl digits_value] in *.
  fold (digits_value base (acc * base + d) ds) in *. pose proof (digits_value_ge base (acc * base + d) ds Hb ltac:(nia) Hd2).
  assert (E : forall z, 0 <= z < 2 ^ w -> checked w z = Some z).
  { intros z Hz. unfold checked. by rewrite (proj2 (Z.leb_le _ _)), (proj2 (Z.ltb_lt _ _)) by lia. }
  cbn [mbind option_bind]. rewrite E by nia. cbn [mbind option_bind]. rewrite E by nia. apply IH; [done|nia|done].
Qed.
(** Digits enough for the type do not overflow. *)
Lemma parse_int_be_fits w base ds :
  1 <= base -> digits_in base ds -> base ^ Z.of_nat (length ds) <= 2 ^ w -> parse_int_be w ds base = Some (digits_value base 0 ds).
Proof. intros Hb Hd Hw. apply parse_int_be_value; [done..|]. pose proof (digits_value_lt base 0 ds Hb Hd). lia. Qed.

Lemma digits_loop_spec base fuel x :
  2 <= base -> 0 <= x < base ^ Z.of_nat fuel ->
  digits_value base 0 (rev (digits_loop fuel base x)) = x /\ digits_in base (digits_loop fuel base x).
Proof.
  intros Hb. revert x. induction fuel as [|fuel IH]; intros x Hx; cbn [digits_loop].
  - cbn in Hx. split; [cbn; lia|constructor].
  - destruct (Z.eqb_spec x 0) as [->|Hne]; [by split; [|constructor]|].
    rewrite Nat2Z.inj_succ, Z.pow_succ_r in Hx by lia.
    destruct (IH (x `div` base)) as [Ev Hd]. { split; [apply Z.div_pos; lia|apply Z.div_lt_upper_bound; lia]. }
    pose proof (Z.mod_pos_bound x base ltac:(lia)). pose proof (Z.div_mod x base ltac:(lia)).
    cbn [rev]. rewrite digits_value_app, Ev. split; [cbn; lia|by constructor].
Qed.
(** No more digits than the number needs. *)
Lemma digits_loop_length base fuel k x :
  2 <= base -> 0 <= x < base ^ Z.of_nat k -> (length (digits_loop fuel base x) <= k)%nat.
Proof.
  intros Hb. revert k x. induction fuel as [|fuel IH]; intros k x Hx; cbn [digits_loop length]; [lia|].
  destruct (Z.eqb_spec x 0); [cbn; lia|]. destruct k as [|k]; [cbn in Hx; lia|].
  rewrite Nat2Z.inj_succ, Z.pow_succ_r in Hx by lia. cbn [length]. apply le_n_S, IH.
  split; [apply Z.div_pos; lia|apply Z.div_lt_upper_bound; lia].
Qed.
Lemma digits_in_rev base ds : digits_in base ds -> digits_in base (rev ds).
Proof. apply Forall_rev. Qed.

(** A number stretched to [n] digits, and read back. *)
Lemma stretched_spec why base fuel n x :
  2 <= base -> 0 <= x < base ^ Z.of_nat n -> 0 <= x < base ^ Z.of_nat fuel ->
  exists ds, stretched why (rev (digits_loop fuel base x)) n = Ret ds /\ length ds = n /\ digits_in base ds /\ digits_value base 0 ds = x.
Proof.
  intros Hb Hn Hf. destruct (digits_loop_spec base fuel x Hb Hf) as [Ev Hd]. pose proof (digits_loop_length base fuel n x Hb Hn) as Hl.
  unfold stretched, try_stretch. rewrite length_rev. rewrite (proj2 (Nat.ltb_ge _ _) Hl). eexists. split; [done|].
  split; [rewrite length_app, length_replicate, length_rev; lia|]. split.
  - apply Forall_app. split; [apply Forall_replicate; lia|by apply digits_in_rev].
  - rewrite digits_value_app. etrans; [|exact Ev]. f_equal. generalize (n - length (digits_loop fuel base x))%nat. intros k.
    induction k; [done|]. exact IHk.
Qed.

(** The size announced for an integer is that of its digits. *)
Lemma mask_zero x p : u64 x -> (p < 13)%nat -> (Z.land x (wrap 64 (Z.shiftl 0x1f (5 * Z.of_nat p))) =? 0) = (x `div` 32 ^ Z.of_nat p `mod` 32 =? 0).
Proof.
  intros Hx Hp. assert (E : Z.land x (wrap 64 (Z.shiftl 0x1f (5 * Z.of_nat p))) = Z.shiftl (x `div` 32 ^ Z.of_nat p `mod` 32) (5 * Z.of_nat p)).
  { change 0x1f with (Z.ones 5). change (_ `mod` 32) with (x `div` 32 ^ Z.of_nat p `mod` 2 ^ 5).
    rewrite <- Z.land_ones by lia. change 32 with (2 ^ 5). rewrite <- Z.pow_mul_r, <- Z.shiftr_div_pow2 by lia.
    apply Z.bits_inj'. intros i Hi. unfold wrap. rewrite Z.land_spec, Z.shiftl_spec by lia.
    destruct (Z.lt_ge_cases i 64) as [H64|H64].
    - rewrite Z.mod_pow2_bits_low, Z.shiftl_spec by lia.
      destruct (Z.lt_ge_cases i (5 * Z.of_nat p)) as [Hlo|Hhi].
      + rewrite !(Z.testbit_neg_r _ (i - _)) by lia. by rewrite andb_false_r.
      + rewrite Z.land_spec, Z.shiftr_spec by lia. do 2 f_equal. lia.
    - rewrite (testbit_above 64 x) by (done || lia). cbn [andb].
      destruct (Z.lt_ge_cases i (5 * Z.of_nat p)) as [Hlo|Hhi]; [by rewrite Z.testbit_neg_r by lia|].
      rewrite Z.land_spec, Z.shiftr_spec by lia. rewrite (testbit_above 64 x) by (done || lia). done. }
  rewrite E, Z.shiftl_mul_pow2 by lia. pose proof (Z.pow_pos_nonneg 2 (5 * Z.of_nat p) ltac:(lia) ltac:(lia)).
  destruct (Z.eqb_spec (x `div` 32 ^ Z.of_nat p `mod` 32) 0) as [->|Hne]; [done|]. apply Z.eqb_neq. nia.
Qed.
Lemma digits_loop_succ base n x :
  2 <= base -> 0 <= x -> x `div` base ^ Z.of_nat n `mod` base <> 0 -> length (digits_loop (S n) base x) = S n.
Proof.
  intros Hb. revert x. induction n as [|n IH]; intros x Hx Hd.
  - cbn in *. rewrite Z.div_1_r in Hd. destruct (Z.eqb_spec x 0) as [->|]; [by rewrite Z.mod_0_l in Hd by lia|done].
  - remember (S n) as m. cbn [digits_loop]. destruct (Z.eqb_spec x 0) as [->|].
    { rewrite Z.div_0_l, Z.mod_0_l in Hd; [done|lia|]. pose proof (Z.pow_pos_nonneg base (Z.of_nat m) ltac:(lia) ltac:(lia)). lia. }
    cbn [length]. rewrite Heqm in *. f_equal. apply IH; [apply Z.div_pos; lia|].
    rewrite Nat2Z.inj_succ, Z.pow_succ_r in Hd by lia.
    by rewrite Z.div_div by (try apply Z.pow_pos_nonneg; try apply Z.pow_nonzero; lia).
Qed.
Lemma digits_loop_fuel base n m x : 2 <= base -> 0 <= x < base ^ Z.of_nat n -> (n <= m)%nat -> digits_loop m base x = digits_loop n base x.
Proof.
  intros Hb. revert m x. induction n as [|n IH]; intros m x Hx Hm.
  - cbn in Hx. assert (x = 0) as -> by lia. by destruct m.
  - destruct m as [|m]; [lia|]. cbn [digits_loop]. destruct (x =? 0); [done|]. f_equal. apply IH; [|lia].
    rewrite Nat2Z.inj_succ, Z.pow_succ_r in Hx by lia. split; [apply Z.div_pos; lia|apply Z.div_lt_upper_bound; lia].
Qed.
Lemma find_digits n x :
  u64 x -> (n <= 13)%nat -> x < 32 ^ Z.of_nat n ->
  match find (fun pos => negb (Z.land x (wrap 64 (Z.shiftl 0x1f (5 * Z.of_nat pos))) =? 0)) (rev (seq 0 n)) with
  | Some pos => S pos
  | None => 0%nat
  end = length (digits_loop n 32 x).
Proof.
  intros Hx Hn Hlt. unfold in_width in Hx. revert Hlt. induction n as [|n IH]; intros Hlt; [done|].
  rewrite seq_S, rev_app_distr. cbn [rev app find Nat.add]. rewrite mask_zero by (done || lia).
  rewrite Nat2Z.inj_succ, Z.pow_succ_r in Hlt by lia.
  destruct (Z.eqb_spec (x `div` 32 ^ Z.of_nat n `mod` 32) 0) as [E|E]; cbn [negb].
  - rewrite Z.mod_small in E by (split; [apply Z.div_pos; lia|apply Z.div_lt_upper_bound; lia]).
    apply Z.div_small_iff in E; [|apply Z.pow_nonzero; lia]. rewrite IH by lia.
    by rewrite (digits_loop_fuel 32 n (S n)) by lia.
  - symmetry. apply digits_loop_succ; [lia..|done].
Qed.
Lemma encoded_size x : u64 x -> encoded_int_be_base32_size x = length (encode_int_be_base32 x).
Proof.
  intros Hx. unfold encoded_int_be_base32_size, encode_int_be_base32. rewrite length_rev. apply find_digits; [done|lia|].
  unfold in_width in Hx. change (32 ^ Z.of_nat 13) with (2 ^ 65). lia.
Qed.
Lemma encode_base32_spec x : u64 x -> Forall (in_width 5) (encode_int_be_base32 x) /\ int_from_base32 (encode_int_be_base32 x) = Ok x.
Proof.
  intros Hx. unfold encode_int_be_base32, in_width in *.
  destruct (digits_loop_spec 32 13 x) as [Ev Hd]; [lia|change (32 ^ Z.of_nat 13) with (2 ^ 65); lia|].
  apply (digits_in_rev 32) in Hd. split; [done|]. unfold int_from_base32. rewrite parse_int_be_value; [by rewrite Ev|lia|done|lia].
Qed.

(** ** The human-readable part *)

(** What can be written so that it is read back: no prefix without an amount, no overflow. *)
Definition hrp_valid (h : RawHrp) : bool :=
  match raw_amount h, si_prefix h with
  | None, None => true
  | None, Some _ => false
  | Some a, None => in_widthb 64 a
  | Some a, Some si => in_widthb 64 a && in_widthb 64 (a * multiplier si)
  end.

Fixpoint all_numeric (s : string) : bool := match s with EmptyString => true | String c r => is_numeric c && all_numeric r end.
Lemma to_digits_numeric f n rest : 0 <= n -> all_numeric rest = true -> all_numeric (to_digits f n rest) = true.
Proof.
  revert n rest. induction f as [|f IH]; intros n rest Hn Hr; [done|]. cbn [to_digits].
  assert (Hc : all_numeric (String (digit_char (n `mod` 10)) rest) = true).
  { cbn [all_numeric]. unfold is_numeric. by rewrite digit_val_char by (apply Z.mod_pos_bound; lia). }
  case_match; [done|]. apply IH; [apply Z.div_pos; lia|done].
Qed.
Lemma to_string_numeric n : 0 <= n -> all_numeric (to_string n) = true.
Proof. intros Hn. by apply to_digits_numeric. Qed.
Lemma to_digits_len f k n rest : 0 <= n < 10 ^ Z.of_nat (S k) -> len (to_digits f n rest) <= Z.of_nat (S k) + len rest.
Proof.
  revert k n rest. induction f as [|f IH]; intros k n rest Hn; cbn [to_digits]; [lia|].
  destruct (Z.eqb_spec (n `div` 10) 0) as [E|E]; [cbn [len]; lia|].
  rewrite (Nat2Z.inj_succ k), Z.pow_succ_r in Hn by lia.
  destruct k as [|k]; [cbn in Hn; rewrite Z.div_small in E by lia; done|].
  specialize (IH k (n `div` 10) (String (digit_char (n `mod` 10)) rest)). cbn [len] in IH.
  assert (Hd : 0 <= n `div` 10 < 10 ^ Z.of_nat (S k)) by (split; [apply Z.div_pos; lia|apply Z.div_lt_upper_bound; lia]).
  specialize (IH Hd). lia.
Qed.
Lemma to_string_len_u64 n : u64 n -> len (to_string n) <= 20.
Proof. intros Hn. pose proof (to_digits_len (S (Z.to_nat (Z.log2 n))) 19 n "") as Hl. unfold in_width in Hn. cbn [len] in Hl. apply Hl. lia. Qed.

Lemma sm_run_app s t m : Hrp.sm_run (s +:+ t) m = let! m' := Hrp.sm_run s m in Hrp.sm_run t m'.
Proof. revert m. induction s as [|c s IH]; intros m; rewrite ?app_nil_l, ?app_cons; [done|]. cbn [Hrp.sm_run]. destruct (Hrp.sm_step c m); [apply IH|done]. Qed.
Lemma sm_run_digits s p cp a e si :
  all_numeric s = true ->
  Hrp.sm_run s (Hrp.mkSM Hrp.ParseAmountNumber p cp (Some (a, e)) si) =
  Ok (Hrp.mkSM Hrp.ParseAmountNumber (p + String.length s) cp (Some (a, e + String.length s)%nat) si).
Proof.
  revert p e. induction s as [|c s IH]; intros p e Hs; cbn [Hrp.sm_run String.length]; [by rewrite !Nat.add_0_r|].
  cbn [all_numeric] in Hs. apply andb_true_iff in Hs as [Hc Hs]. unfold Hrp.sm_step. cbn [Hrp.state Hrp.next_state]. rewrite Hc. cbn.
  rewrite IH by done. by rewrite <- !Nat.add_succ_comm.
Qed.
Lemma sm_run_amount s p cp :
  all_numeric s = true -> s <> "" ->
  Hrp.sm_run s (Hrp.mkSM Hrp.ParseCurrencyPrefix p cp None None) =
  Ok (Hrp.mkSM Hrp.ParseAmountNumber (p + String.length s) cp (Some (p, p + String.length s)%nat) None).
Proof.
  destruct s as [|c s]; intros Hs Hne; [done|]. cbn [Hrp.sm_run String.length all_numeric] in *.
  apply andb_true_iff in Hs as [Hc Hs]. unfold Hrp.sm_step. cbn [Hrp.state Hrp.next_state]. rewrite Hc. cbn.
  rewrite sm_run_digits by done. by rewrite <- !Nat.add_succ_comm.
Qed.
Lemma sm_run_currency c :
  Hrp.sm_run ("ln" +:+ currency_str c) Hrp.new_sm =
  Ok (Hrp.mkSM Hrp.ParseCurrencyPrefix (2 + String.length (currency_str c)) (Some (2, 2 + String.length (currency_str c))%nat) None None).
Proof. by destruct c. Qed.

Lemma slice_middle s t u : Hrp.slice_of (s +:+ t +:+ u) (Some (String.length s, String.length s + String.length t)%nat) = t.
Proof.
  cbn [Hrp.slice_of]. rewrite Nat.add_comm, Nat.add_sub.
  rewrite substring_skip, substring_0_app; [done|by rewrite string_length_len..].
Qed.
Lemma length_app_s s t : String.length (s +:+ t) = (String.length s + String.length t)%nat.
Proof. apply Nat2Z.inj. rewrite Nat2Z.inj_add, !string_length_len. apply len_app. Qed.
Lemma to_string_ne n : 0 <= n -> to_string n <> "".
Proof. intros Hn E. pose proof (to_string_len n Hn). rewrite E in *. cbn in *. lia. Qed.

Ltac sm_simpl := cbn [rbind Hrp.state Hrp.state_is_final negb Hrp.currency_prefix Hrp.amount_number Hrp.amount_si_prefix Hrp.sm_run].
Lemma parse_hrp_str h :
  hrp_valid h = true ->
  Hrp.parse_hrp (hrp_str h) =
  Ok (currency_str (currency h), match raw_amount h with Some a => to_string a | None => "" end, match si_prefix h with Some si => si_str si | None => "" end).
Proof.
  destruct h as [c amt si]. unfold hrp_valid, hrp_str, Hrp.parse_hrp. cbn [currency raw_amount si_prefix]. intros Hv.
  assert (Ecur : forall t, Hrp.slice_of ("ln" +:+ currency_str c +:+ t) (Some (2, 2 + String.length (currency_str c))%nat) = currency_str c)
    by (intros t; apply (slice_middle "ln")).
  rewrite <- (app_assoc_s "ln"), sm_run_app, sm_run_currency. cbn [rbind].
  destruct amt as [a|]; [|destruct si; [done|]; rewrite app_nil_l; sm_simpl; by rewrite app_assoc_s, Ecur].
  assert (Ha : 0 <= a). { destruct si; [apply andb_true_iff in Hv as [Hv _]|]; apply in_widthb_true in Hv; unfold in_width in Hv; lia. }
  rewrite sm_run_app, sm_run_amount by (by apply to_string_numeric || by apply to_string_ne). cbn [rbind].
  assert (Eamt : forall t, Hrp.slice_of ("ln" +:+ currency_str c +:+ to_string a +:+ t) (Some (2 + String.length (currency_str c), 2 + String.length (currency_str c) + String.length (to_string a))%nat) = to_string a).
  { intros t. rewrite <- (app_assoc_s "ln"). apply (slice_middle ("ln" +:+ currency_str c)). }
  destruct si as [si|].
  - replace (Hrp.sm_run (si_str si) _) with (Ok (E := ParseError) (Hrp.mkSM Hrp.ParseAmountSiPrefix
      (S (2 + String.length (currency_str c) + String.length (to_string a))) (Some (2, 2 + String.length (currency_str c))%nat)
      (Some (2 + String.length (currency_str c), 2 + String.length (currency_str c) + String.length (to_string a))%nat)
      (Some (2 + String.length (currency_str c) + String.length (to_string a), S (2 + String.length (currency_str c) + String.length (to_string a)))%nat)))
      by by destruct si.
    sm_simpl. rewrite app_assoc_s, Ecur, Eamt. do 2 f_equal.
    pose proof (slice_middle ("ln" +:+ currency_str c +:+ to_string a) (si_str si) "") as Hs.
    rewrite !length_app_s, !app_assoc_s, app_nil_r in Hs. rewrite <- Hs at 2. do 3 f_equal; destruct si; cbn -[Nat.add]; lia.
  - sm_simpl. by rewrite app_assoc_s, Ecur, Eamt.
Qed.
Lemma hrp_roundtrip h : hrp_valid h = true -> hrp_from_str (hrp_str h) = Ok h.
Proof.
  intros Hv. unfold hrp_from_str. rewrite parse_hrp_str by done. cbn [rbind fst snd].
  replace (currency_from_str (currency_str (currency h))) with (Ok (E := ParseError) (currency h)) by by destruct (currency h).
  cbn [rbind]. destruct h as [c [a|] [si|]]; unfold hrp_valid in Hv; cbn [raw_amount si_prefix currency] in *; try done.
  - apply andb_true_iff in Hv as [Ha Hm]. apply in_widthb_true in Ha. unfold in_width in Ha.
    rewrite bool_decide_eq_false_2 by (apply to_string_ne; lia). unfold parse_u64. rewrite parse_to_string by (unfold U64_MAX; lia).
    cbn. replace (bool_decide (si_str si = "")) with false by by destruct si.
    replace (si_from_str (si_str si)) with (Ok (E := ParseError) si) by by destruct si. cbn. by rewrite Hm.
  - apply in_widthb_true in Hv. unfold in_width in Hv.
    rewrite bool_decide_eq_false_2 by (apply to_string_ne; lia). unfold parse_u64. by rewrite parse_to_string by (unfold U64_MAX; lia).
Qed.


Lemma numeric_bytes s : all_numeric s = true -> Forall (fun b => 33 <= b <= 126 /\ ~ (65 <= b <= 90)) (bytes_of s).
Proof.
  induction s as [|c s IH]; intros Hs; [constructor|]. cbn [all_numeric] in Hs. apply andb_true_iff in Hs as [Hc Hs].
  rewrite bytes_of_cons. constructor; [|by apply IH]. unfold is_numeric, digit_val in Hc. destruct ((48 <=? _) && _) eqn:E; [lia|done].
Qed.
Lemma hrp_str_ok h : hrp_valid h = true -> hrp_ok (hrp_str h).
Proof.
  intros Hv. unfold hrp_str.
  assert (C : is_ascii (currency_str (currency h)) = true /\ 2 <= len (currency_str (currency h)) <= 4 /\
    Forall (fun b => 33 <= b <= 126 /\ ~ (65 <= b <= 90)) (bytes_of (currency_str (currency h)))).
  { destruct (currency h); split_and!; try done; by_decide. }
  assert (A : match raw_amount h with Some a => u64 a | None => True end).
  { unfold hrp_valid in Hv. destruct (raw_amount h) as [a|]; [|done]. apply in_widthb_true.
    destruct (si_prefix h); [by apply andb_true_iff in Hv as [? _]|done]. }
  assert (S : forall s, (match si_prefix h with Some si => si_str si | None => "" end) = s ->
    is_ascii s = true /\ 0 <= len s <= 1 /\ Forall (fun b => 33 <= b <= 126 /\ ~ (65 <= b <= 90)) (bytes_of s)).
  { intros s <-. destruct (si_prefix h) as [[]|]; split_and!; try done; by_decide. }
  destruct (S _ eq_refl) as (S1 & S2 & S3). destruct C as (C1 & C2 & C3).
  assert (N : forall s, (match raw_amount h with Some a => to_string a | None => "" end) = s ->
    is_ascii s = true /\ 0 <= len s <= 20 /\ Forall (fun b => 33 <= b <= 126 /\ ~ (65 <= b <= 90)) (bytes_of s)).
  { intros s <-. destruct (raw_amount h) as [a|]; [|split_and!; [done|cbn; lia..|constructor]].
    pose proof A as A'. unfold in_width in A'. split_and!; [apply to_string_ascii; lia|apply len_nonneg|by apply to_string_len_u64|].
    apply numeric_bytes, to_string_numeric. lia. }
  destruct (N _ eq_refl) as (N1 & N2 & N3). unfold hrp_ok. rewrite !is_ascii_app, !len_app, !bytes_of_app, C1, S1, N1, !Forall_app.
  change (len "ln") with 2. split_and!; try done; try lia. by_decide.
Qed.

(** ** Fields *)

Section Fields.
Context `{Bech32Laws} `{InvoiceCrypto} `{!SecpLaws}.

Abbreviation u5s := (Forall (in_width 5)).

Definition hop_valid (h : RouteHintHop) : Prop :=
  u64 (hint_scid h) /\ u32 (hint_base_msat h) /\ u32 (hint_proportional h) /\ u16 (hint_cltv h) /\
  hint_htlc_minimum h = None /\ hint_htlc_maximum h = None.
Definition fallback_valid (f : Fallback) : Prop :=
  match f with
  | SegWitProgram version program => 0 <= version <= 16 /\ all_u8 program /\ (2 <= length program <= 40)%nat
  | PubKeyHash h | ScriptHash h => array_ok 20 h
  end.
(** The invariants the types of the fields keep, and what the text cannot carry left out:
    fractions of a second, limits of a hint's channel, zero bytes at the end of features. *)
Definition field_valid (f : TaggedField) : Prop :=
  match f with
  | TPaymentHash h | TDescriptionHash h | TPaymentSecret h => array_ok 32 h
  | TDescription d => len d <= 639 /\ valid_utf8 (bytes_of d) = true
  | TPayeePubKey _ => True
  | TExpiryTime d => u64 d.1 /\ d.2 = 0
  | TMinFinalCltvExpiry n => u64 n
  | TFallback f => fallback_valid f
  | TPrivateRoute hops => (length hops <= 12)%nat /\ Forall hop_valid hops
  | TFeatures flags => all_u8 flags /\ trim_high flags = flags /\ (length flags <= 639)%nat
  end.

Lemma digits256_u8 ds : digits_in 256 ds <-> all_u8 ds.
Proof. done. Qed.

Lemma encode_length x : u64 x -> (length (encode_int_be_base32 x) < 1024)%nat.
Proof.
  intros Hx. unfold encode_int_be_base32, in_width in *. rewrite length_rev.
  pose proof (digits_loop_length 32 13 13 x ltac:(lia)) as Hl. change (32 ^ Z.of_nat 13) with (2 ^ 65) in Hl. lia.
Qed.

(** A number of [n] bytes through the converter. *)
Lemma append_number why n x c total :
  (n <= 8)%nat -> in_width (8 * Z.of_nat n) x -> conv_ok c total ->
  exists ds c', stretched why (encode_int_be_base256 x) n = Ret ds /\ append ds c = Ret c' /\ conv_ok c' (total ++ all_bits 8 ds) /\
    length ds = n /\ all_u8 ds /\ parse_int_be (8 * Z.of_nat n) ds 256 = Some x.
Proof.
  intros Hn Hx Hc. unfold in_width in Hx. rewrite Z.pow_mul_r in Hx by lia. change (2 ^ 8) with 256 in Hx.
  destruct (stretched_spec why 256 8 n x) as (ds & E & Hl & Hd & Ev); [lia|done| |].
  { split; [lia|]. eapply Z.lt_le_trans; [apply Hx|]. apply Z.pow_le_mono_r; lia. }
  destruct (append_ok ds c total Hc Hd) as (c' & Ec & Hc'). exists ds, c'. split_and!; try done. rewrite parse_int_be_value, Ev; [done|lia|done|]. rewrite Ev, Z.pow_mul_r by lia. apply Hx.
Qed.

Lemma append_hop_ok hop c total :
  hop_valid hop -> conv_ok c total ->
  exists bs c', append_hop hop c = Ret c' /\ conv_ok c' (total ++ all_bits 8 bs) /\ length bs = 51%nat /\ all_u8 bs /\
    hop_from_bytes bs = Ret (Ok hop).
Proof.
  intros (V1 & V2 & V3 & V4 & V5 & V6) Hc. destruct (pk_array (src_node_id hop)) as [Lk Uk].
  destruct (append_ok _ _ _ Hc Uk) as (c1 & E1 & Hc1).
  destruct (append_number "sizeof(u64) == 8" 8 _ c1 _ ltac:(lia) V1 Hc1) as (d2 & c2 & S2 & E2 & Hc2 & L2 & U2 & P2).
  destruct (append_number "sizeof(u32) == 4" 4 _ c2 _ ltac:(lia) V2 Hc2) as (d3 & c3 & S3 & E3 & Hc3 & L3 & U3 & P3).
  destruct (append_number "sizeof(u32) == 4" 4 _ c3 _ ltac:(lia) V3 Hc3) as (d4 & c4 & S4 & E4 & Hc4 & L4 & U4 & P4).
  destruct (append_number "sizeof(u16) == 2" 2 _ c4 _ ltac:(lia) V4 Hc4) as (d5 & c5 & S5 & E5 & Hc5 & L5 & U5 & P5).
  exists (pk_serialize (src_node_id hop) ++ d2 ++ d3 ++ d4 ++ d5), c5. split_and!.
  - unfold append_hop. rewrite E1. cbn [mbind outcome_bind]. rewrite S2. cbn [mbind outcome_bind]. rewrite E2. cbn [mbind outcome_bind].
    rewrite S3. cbn [mbind outcome_bind]. rewrite E3. cbn [mbind outcome_bind]. rewrite S4. cbn [mbind outcome_bind]. rewrite E4.
    cbn [mbind outcome_bind]. rewrite S5. exact E5.
  - by rewrite !all_bits_app, !app_assoc.
  - rewrite !length_app. lia.
  - by rewrite !Forall_app.
  - change (8 * Z.of_nat 8) with 64 in P2. change (8 * Z.of_nat 4) with 32 in P3, P4. change (8 * Z.of_nat 2) with 16 in P5.
    unfold hop_from_bytes, expect_int. rewrite take_app_length', pk_roundtrip by done.
    rewrite (drop_app_length' _ _ 33) by done. rewrite (take_app_length' d2 _ 8) by done. rewrite P2. cbn [Prelude.unwrap mbind outcome_bind].
    rewrite (app_assoc (pk_serialize _)), (drop_app_length' _ _ 41) by (rewrite length_app; lia). rewrite (take_app_length' d3 _ 4), P3 by done.
    cbn [Prelude.unwrap mbind outcome_bind].
    rewrite (app_assoc (_ ++ _)), (drop_app_length' _ _ 45) by (rewrite !length_app; lia). rewrite (take_app_length' d4 _ 4), P4 by done.
    cbn [Prelude.unwrap mbind outcome_bind].
    rewrite (app_assoc ((_ ++ _) ++ _)), (drop_app_length' _ _ 49) by (rewrite !length_app; lia). rewrite (take_ge d5), P5 by lia.
    cbn [Prelude.unwrap mbind outcome_bind]. destruct hop; cbn in *. by subst.
Qed.

Lemma append_hops_ok hops c total :
  Forall hop_valid hops -> conv_ok c total ->
  exists bs c', append_hops hops c = Ret c' /\ conv_ok c' (total ++ all_bits 8 bs) /\ length bs = (length hops * 51)%nat /\ all_u8 bs /\
    hops_from_bytes (length hops) bs = Ret (Ok hops).
Proof.
  intros Hv. revert c total. induction Hv as [|h hops Hh Hv IH]; intros c total Hc.
  - exists [], c. cbn. rewrite List.app_nil_r. split_and!; (done || constructor).
  - destruct (append_hop_ok h c total Hh Hc) as (b1 & c1 & E1 & Hc1 & L1 & U1 & R1).
    destruct (IH c1 _ Hc1) as (b2 & c2 & E2 & Hc2 & L2 & U2 & R2). exists (b1 ++ b2), c2. split_and!.
    + cbn [append_hops]. rewrite E1. exact E2.
    + by rewrite all_bits_app, app_assoc.
    + rewrite length_app. cbn [length]. lia.
    + by apply Forall_app.
    + cbn [length hops_from_bytes]. rewrite take_app_length', drop_app_length', R1 by done. cbn [mbind outcome_bind]. by rewrite R2.
Qed.
Lemma route_roundtrip hops :
  Forall hop_valid hops ->
  exists bs, (c ← append_hops hops (new_converter []); finalize c) = Ret (slice_to_base32 bs) /\ all_u8 bs /\ length bs = (length hops * 51)%nat /\ route_from_base32 (slice_to_base32 bs) = Ret (Ok hops).
Proof.
  intros Hv. destruct (append_hops_ok hops _ _ Hv new_converter_ok) as (bs & c & E & Hc & L & U & R). exists bs. rewrite E.
  cbn [mbind outcome_bind]. rewrite (finalize_ok _ _ Hc), to_base32_spec by done. split_and!; try done.
  rewrite <- to_base32_spec by done. unfold route_from_base32, from_base32_bytes. rewrite base32_roundtrip by done. cbn [map_err].
  by rewrite L, Nat.Div0.mod_mul, Nat.div_mul.
Qed.

Lemma bytes_roundtrip bs : all_u8 bs -> from_base32_bytes (slice_to_base32 bs) = Ok bs.
Proof. intros Hb. unfold from_base32_bytes. by rewrite base32_roundtrip. Qed.
Lemma hash_roundtrip h : array_ok 32 h -> length (slice_to_base32 h) = 52%nat /\ sha256_from_base32 (slice_to_base32 h) = Ret (Ok h).
Proof.
  intros [L U]. assert (E : length (slice_to_base32 h) = 52%nat) by by rewrite length_to_base32, L.
  split; [done|]. unfold sha256_from_base32. rewrite E, bytes_roundtrip by done. cbn [Nat.eqb negb]. unfold of_length. by rewrite L.
Qed.
Lemma secret_roundtrip h : array_ok 32 h -> length (slice_to_base32 h) = 52%nat /\ secret_from_base32 (slice_to_base32 h) = Ret (Ok h).
Proof.
  intros [L U]. assert (E : length (slice_to_base32 h) = 52%nat) by by rewrite length_to_base32, L.
  split; [done|]. unfold secret_from_base32. rewrite E, base32_roundtrip by done. cbn [Nat.eqb negb]. unfold of_length. by rewrite L.
Qed.
Lemma fallback_roundtrip f :
  fallback_valid f ->
  u5s (fallback_payload f) /\ length (fallback_payload f) = fallback_len f /\ (fallback_len f < 1024)%nat /\
  fallback_from_base32 (fallback_payload f) = Ok f.
Proof.
  destruct f as [version program|h|h]; cbn [fallback_valid fallback_payload fallback_len fallback_from_base32 length].
  - intros (Hver & U & L). rewrite length_to_base32, bytes_roundtrip by done. cbn [rbind].
    rewrite (proj2 (Z.leb_le version 16)) by lia.
    replace ((length program <? 2)%nat || (40 <? length program)%nat) with false
      by (symmetry; apply orb_false_iff; rewrite !Nat.ltb_ge; lia).
    split_and!; [constructor; [unfold in_width; lia|by apply to_base32_u5]|lia| |done].
    unfold bytes_size_to_base32_size. pose proof (Nat.div_mod_eq (length program * 8) 5). case_match; lia.
  - intros [L U]. rewrite length_to_base32, bytes_roundtrip, L by done. cbn [rbind].
    split_and!; [constructor; [unfold in_width; lia|by apply to_base32_u5]|done|lia|]. by rewrite L.
  - intros [L U]. rewrite length_to_base32, bytes_roundtrip, L by done. cbn [rbind].
    split_and!; [constructor; [unfold in_width; lia|by apply to_base32_u5]|done|lia|]. by rewrite L.
Qed.

(** Every valid field has a payload of the length announced, which is read back. *)
Lemma payload_ok f :
  field_valid f ->
  exists p, payload f = Ret p /\ u5s p /\ length p = base32_len f /\ (base32_len f < 1024)%nat /\
    forall l1 l2, field_from_base32 (tag f :: l1 :: l2 :: p) = Ret (Ok f).
Proof.
  destruct f as [h|d|k|h|d|n|fb|hops|s|flags]; cbn [field_valid payload base32_len]; intros Hv.
  - destruct (hash_roundtrip h Hv) as [L R]. destruct Hv as [_ U]. rewrite base32_len_spec, L. eexists.
    split_and!; [done|by apply to_base32_u5|done|lia|]. intros. cbn. by rewrite R.
  - destruct Hv as [Hl Hv]. pose proof (bytes_of_u8 d) as U. rewrite base32_len_spec. eexists. split_and!; [done|by apply to_base32_u5|done| |].
    + rewrite length_to_base32 by done. unfold bytes_size_to_base32_size. rewrite <- length_bytes_of in Hl.
      pose proof (Nat.div_mod_eq (length (bytes_of d) * 8) 5). case_match; lia.
    + intros. cbn. unfold description_from_base32. rewrite bytes_roundtrip by done. unfold from_utf8, description_new.
      rewrite Hv, string_of_bytes_of. by rewrite (proj2 (Z.ltb_ge 639 (len d))).
  - destruct (pk_array k) as [L U]. assert (E : length (slice_to_base32 (pk_serialize k)) = 53%nat) by by rewrite length_to_base32, L.
    eexists. split_and!; [done|by apply to_base32_u5|done|cbn; lia|]. intros. cbn. unfold pubkey_from_base32.
    rewrite E, bytes_roundtrip by done. cbn. by rewrite pk_roundtrip.
  - destruct (hash_roundtrip h Hv) as [L R]. destruct Hv as [_ U]. rewrite base32_len_spec, L. eexists.
    split_and!; [done|by apply to_base32_u5|done|lia|]. intros. cbn. by rewrite R.
  - destruct Hv as [Hu Hz]. destruct (encode_base32_spec d.1 Hu) as [U R]. rewrite encoded_size by done. eexists.
    split_and!; [done|done|done|by apply encode_length|]. intros. cbn -[encode_int_be_base32]. rewrite R. destruct d. cbn in *. by subst.
  - destruct (encode_base32_spec n Hv) as [U R]. rewrite encoded_size by done. eexists.
    split_and!; [done|done|done|by apply encode_length|]. intros. cbn -[encode_int_be_base32]. by rewrite R.
  - destruct (fallback_roundtrip fb Hv) as (U & L & B & R). eexists. split_and!; [done..|]. intros. cbn. by rewrite R.
  - destruct Hv as [Hl Hv]. destruct (route_roundtrip hops Hv) as (bs & E & U & L & R). exists (slice_to_base32 bs).
    rewrite length_to_base32, L by done. split_and!; [done|by apply to_base32_u5|done| |].
    + unfold bytes_size_to_base32_size. pose proof (Nat.div_mod_eq (length hops * 51 * 8) 5). case_match; lia.
    + intros. cbn. by rewrite R.
  - destruct (secret_roundtrip s Hv) as [L R]. destruct Hv as [_ U]. eexists.
    split_and!; [done|by apply to_base32_u5|done|lia|]. intros. cbn. by rewrite R.
  - destruct Hv as (U & T & L). destruct (write_base32_width flags) as [W B]. eexists. split_and!; [done|done|done| |].
    + eapply Nat.le_lt_trans; [apply B|]. apply Nat.div_lt_upper_bound; lia.
    + intros. cbn -[from_base32 write_base32]. by rewrite features_base32_roundtrip.
Qed.
End Fields.

(** ** Data part, signature, invoice *)

(** The documented behaviour of recoverable signatures: 64 bytes and an id below four, read back. *)
Class InvoiceCryptoLaws `{InvoiceCrypto} : Prop := {
  rs_array s : array_ok 64 (rs_serialize_compact s).2;
  rs_id s : 0 <= (rs_serialize_compact s).1 < 4;
  rs_id_read s : recovery_id_from_i32 (rs_serialize_compact s).1 = Some (rs_serialize_compact s).1;
  rs_roundtrip s : rs_from_compact (rs_serialize_compact s).2 (rs_serialize_compact s).1 = Some s;
}.

Section Whole.
Context `{Bech32Laws} `{InvoiceCrypto} `{!SecpLaws} `{!InvoiceCryptoLaws} `{Sha256}.

Abbreviation u5s := (Forall (in_width 5)).

(** A field the reader does not understand is kept as it came. *)
Definition unknown_valid (content : list Z) : Prop :=
  exists t l1 l2 p, content = t :: l1 :: l2 :: p /\ u5s content /\ Z.of_nat (length p) = 32 * l1 + l2 /\
    (field_from_base32 content = Ret (Err Skip) \/ field_from_base32 content = Ret (Err (EBech32Error InvalidLength))).
Definition raw_field_valid (f : RawTaggedField) : Prop :=
  match f with KnownSemantics f => field_valid f | UnknownSemantics content => unknown_valid content end.

(** The part a field is read as. *)
Definition read_as (field : list Z) (part : RawTaggedField) : Prop :=
  match part with
  | KnownSemantics f => field_from_base32 field = Ret (Ok f)
  | UnknownSemantics content => content = field /\
      (field_from_base32 field = Ret (Err Skip) \/ field_from_base32 field = Ret (Err (EBech32Error InvalidLength)))
  end.

Lemma write_raw_ok raw :
  raw_field_valid raw ->
  exists t l1 l2 p, write_raw_field raw = Ret (t :: l1 :: l2 :: p) /\ u5s (t :: l1 :: l2 :: p) /\
    Z.of_nat (length p) = 32 * l1 + l2 /\ read_as (t :: l1 :: l2 :: p) raw.
Proof.
  destruct raw as [f|content]; cbn [raw_field_valid write_raw_field].
  - intros Hv. destruct (payload_ok f Hv) as (p & E & U & L & B & R). unfold write_tagged_field. rewrite (proj2 (Nat.ltb_lt _ _) B).
    assert (T : 0 <= tag f < 32) by (destruct f; by_decide). unfold u5_expect. rewrite (proj2 (Z.ltb_lt (tag f) 32)) by lia.
    destruct (stretched_spec "Can't be longer than 2, see assert above." 32 13 2 (Z.of_nat (base32_len f))) as (ds & Es & Hl & Hd & Ev);
      [lia|cbn; lia|change (32 ^ Z.of_nat 13) with (2 ^ 65); lia|].
    destruct ds as [|l1 [|l2 [|]]]; try done. cbn in Ev. cbn [mbind outcome_bind]. unfold encode_int_be_base32. rewrite Es. cbn [mbind outcome_bind].
    rewrite E. cbn [mbind outcome_bind app]. exists (tag f), l1, l2, p. split_and!; [done| |lia|apply R].
    inversion_clear Hd as [|?? H1' Hd']. inversion_clear Hd' as [|?? H2' _]. rewrite !Forall_cons. done.
  - intros (t & l1 & l2 & p & -> & U & L & R). exists t, l1, l2, p. done.
Qed.

Lemma parse_part fuel t l1 l2 p part rest :
  u5s (t :: l1 :: l2 :: p) -> Z.of_nat (length p) = 32 * l1 + l2 -> read_as (t :: l1 :: l2 :: p) part ->
  parse_tagged_parts (S fuel) ((t :: l1 :: l2 :: p) ++ rest) =
  (r ← parse_tagged_parts fuel rest; Ret (let! parts := r in Ok (part :: parts))).
Proof.
  intros U L R. cbn [parse_tagged_parts app]. replace (length (t :: l1 :: l2 :: p ++ rest) <? 3)%nat with false by (symmetry; apply Nat.ltb_ge; cbn [length]; lia).
  inversion_clear U as [|?? _ U1]. inversion_clear U1 as [|?? U1' U2]. inversion_clear U2 as [|?? U2' _]. unfold in_width in *.
  cbn [drop take]. rewrite take_0. unfold expect_int. rewrite parse_int_be_value; [|lia|by rewrite !Forall_cons|unfold digits_value; cbn [foldl]; lia]. cbn [digits_value foldl Prelude.unwrap mbind outcome_bind].
  replace (Z.to_nat ((0 * 32 + l1) * 32 + l2)) with (length p) by lia.
  replace (t :: l1 :: l2 :: p ++ rest) with ((t :: l1 :: l2 :: p) ++ rest) by done.
  replace (length ((t :: l1 :: l2 :: p) ++ rest) <? 3 + length p)%nat with false by (symmetry; apply Nat.ltb_ge; rewrite length_app; cbn [length]; lia).
  rewrite (take_app_length' (t :: l1 :: l2 :: p)), (drop_app_length' (t :: l1 :: l2 :: p)) by done.
  destruct part as [f|c]; cbn [read_as] in R; [by rewrite R|]. by destruct R as [-> [-> | ->]].
Qed.

Lemma fields_roundtrip l :
  Forall raw_field_valid l ->
  exists d, write_fields l = Ret d /\ u5s d /\ forall fuel, (length d <= fuel)%nat -> parse_tagged_parts fuel d = Ret (Ok l).
Proof.
  induction 1 as [|f l Hf Hl (d & E & U & R)].
  - exists []. split_and!; [done|constructor|]. intros [|fuel] _; done.
  - destruct (write_raw_ok f Hf) as (t & l1 & l2 & p & Ef & Uf & L & Rf). exists ((t :: l1 :: l2 :: p) ++ d). split_and!.
    + cbn [write_fields]. rewrite Ef. cbn [mbind outcome_bind]. by rewrite E.
    + by apply Forall_app.
    + intros [|fuel] Hfuel; [cbn in Hfuel; lia|]. rewrite (parse_part _ _ _ _ _ f) by done.
      rewrite R; [done|]. rewrite length_app in Hfuel. cbn in Hfuel. lia.
Qed.

Definition data_valid (d : RawDataPart) : Prop :=
  0 <= (timestamp d).1 <= MAX_TIMESTAMP /\ (timestamp d).2 = 0 /\ Forall raw_field_valid (tagged_fields d).
Lemma data_roundtrip d :
  data_valid d -> exists l, write_data d = Ret l /\ u5s l /\ data_from_base32 l = Ret (Ok d).
Proof.
  intros (Ht & Hn & Hf). destruct (fields_roundtrip _ Hf) as (l & E & U & R). unfold MAX_TIMESTAMP in Ht.
  change (Z.shiftl 1 35 - 1) with (2 ^ 35 - 1) in Ht.
  destruct (stretched_spec "Can't be longer due than 7 u5s due to timestamp bounds" 32 13 7 (timestamp d).1) as (ds & Es & Hl & Hd & Ev);
    [lia|change (32 ^ Z.of_nat 7) with (2 ^ 35); lia|change (32 ^ Z.of_nat 13) with (2 ^ 65); lia|].
  exists (ds ++ l). unfold write_data, write_timestamp, encode_int_be_base32. rewrite Es. cbn [mbind outcome_bind]. rewrite E.
  split_and!; [done|by apply Forall_app|]. unfold data_from_base32.
  rewrite (proj2 (Nat.ltb_ge _ _)), (take_app_length' ds), (drop_app_length' ds) by (rewrite ?length_app; lia).
  unfold timestamp_from_base32. rewrite Hl, parse_int_be_value, Ev by (done || lia). cbn [Nat.eqb negb expect_int Prelude.unwrap mbind outcome_bind].
  unfold from_unix_timestamp, from_duration_since_epoch, MAX_TIMESTAMP. change (Z.shiftl 1 35 - 1) with (2 ^ 35 - 1). cbn [fst].
  rewrite (proj2 (Z.leb_le _ _)) by lia. rewrite R by (rewrite length_app; lia). cbn. do 3 f_equal. destruct d as [[s n] fs]. cbn in *. by subst.
Qed.

Lemma append_app a b c : append (a ++ b) c = (c ← append a c; append b c).
Proof. revert c. induction a as [|x a IH]; intros c; cbn [append app]; [done|]. destruct (append_u8 x c); cbn [mbind outcome_bind]; [apply IH|done..]. Qed.
Lemma signature_roundtrip s :
  exists l, write_signature s = Ret l /\ u5s l /\ length l = 104%nat /\ signature_from_base32 l = Ret (Ok s).
Proof.
  pose proof (rs_array s) as [L U]. pose proof (rs_id s) as Hid. pose proof (rs_id_read s) as Hr. pose proof (rs_roundtrip s) as Hs.
  unfold write_signature. destruct (rs_serialize_compact s) as [id sig]. cbn [fst snd] in *.
  assert (Hw : wrap 8 id = id) by (apply wrap_small; unfold in_width; lia). rewrite Hw.
  assert (Ub : all_u8 (sig ++ [id])) by (apply Forall_app; split; [done|]; rewrite Forall_cons; split; [unfold in_width; lia|done]).
  pose proof (converted (sig ++ [id]) Ub) as E. rewrite append_app in E.
  exists (slice_to_base32 (sig ++ [id])). assert (El : length (slice_to_base32 (sig ++ [id])) = 104%nat) by by rewrite length_to_base32, length_app, L.
  split_and!; [|by apply to_base32_u5|done|].
  - destruct (append sig (new_converter [])) as [c| |]; [|done..]. cbn [mbind outcome_bind append] in E |- *.
    by destruct (append_u8 id c).
  - unfold signature_from_base32. rewrite El, bytes_roundtrip by done. cbn [Nat.eqb negb]. rewrite length_app, L. cbn [length Nat.add Nat.ltb Nat.leb].
    rewrite app_nth2, L, take_app_length' by lia. cbn [Nat.sub nth]. by rewrite Hr, Hs.
Qed.

(** What an invoice must be to survive: valid parts, and the hash of what it says. *)
Definition raw_valid (r : RawInvoice) : Prop := hrp_valid (hrp r) = true /\ data_valid (data r).
Definition signed_valid (i : SignedRawInvoice) : Prop := raw_valid (raw_invoice i) /\ raw_hash (raw_invoice i) = Ret (inv_hash i).

Lemma signed_roundtrip i :
  signed_valid i -> exists text, invoice_to_string i = Ret text /\ signed_from_str text = Ret (Ok i).
Proof.
  intros [[Hh Hd] Hash]. destruct (data_roundtrip _ Hd) as (d & E & U & R). destruct (signature_roundtrip (signature i)) as (s & Es & Us & Ls & Rs).
  destruct (encode_decode (hrp_str (hrp (raw_invoice i))) (d ++ s)) as (text & Et & Dt); [by apply hrp_str_ok|by apply Forall_app|].
  exists text. unfold invoice_to_string. rewrite E. cbn [mbind outcome_bind]. rewrite Es. cbn [mbind outcome_bind]. rewrite Et. split; [done|].
  unfold raw_hash in Hash. rewrite E in Hash. cbn [mbind outcome_bind] in Hash.
  unfold signed_from_str. rewrite Dt, length_app, Ls. replace (length d + 104 <? 104)%nat with false by (symmetry; apply Nat.ltb_ge; lia).
  rewrite hrp_roundtrip by done. rewrite Nat.add_sub, take_app_length, drop_app_length, R. cbn [mbind outcome_bind]. rewrite Hash.
  cbn [mbind outcome_bind]. rewrite Rs. by destruct i as [[]].
Qed.

(** ** The parser answers every text *)

Definition answers {A} (o : outcome A) : Prop := exists a, o = Ret a.
Lemma answers_bind {A B} (o : outcome A) (f : A -> outcome B) : answers o -> (forall a, o = Ret a -> answers (f a)) -> answers (o ≫= f).
Proof. intros [a E] Hf. rewrite E. by apply Hf. Qed.

Lemma bytes_read d bs : u5s d -> from_base32_bytes d = Ok bs -> all_u8 bs /\ length bs = (length d * 5 / 8)%nat.
Proof.
  intros U E. unfold from_base32_bytes in E. destruct (vec_from_base32 d) eqn:Ed; [|done]. cbn in E. simplify_eq. by apply from_base32_typed.
Qed.
Lemma number_read w n bs : all_u8 bs -> (length bs <= n)%nat -> w = 8 * Z.of_nat n -> exists x, parse_int_be w bs 256 = Some x.
Proof.
  intros U L ->. eexists. apply parse_int_be_fits; [lia|done|]. rewrite Z.pow_mul_r by lia. apply Z.pow_le_mono_r; lia.
Qed.
Lemma hop_answers bs : all_u8 bs -> answers (hop_from_bytes bs).
Proof.
  intros U. unfold hop_from_bytes, expect_int. case_match; [|by eexists].
  destruct (number_read 64 8 (take 8 (drop 33 bs))) as [x ->]; [by apply Forall_take, Forall_drop|rewrite length_take; lia|done|].
  destruct (number_read 32 4 (take 4 (drop 41 bs))) as [y ->]; [by apply Forall_take, Forall_drop|rewrite length_take; lia|done|].
  destruct (number_read 32 4 (take 4 (drop 45 bs))) as [z ->]; [by apply Forall_take, Forall_drop|rewrite length_take; lia|done|].
  destruct (number_read 16 2 (take 2 (drop 49 bs))) as [v ->]; [by apply Forall_take, Forall_drop|rewrite length_take; lia|done|].
  by eexists.
Qed.
Lemma hops_answer n bs : all_u8 bs -> answers (hops_from_bytes n bs).
Proof.
  revert bs. induction n as [|n IH]; intros bs U; cbn [hops_from_bytes]; [by eexists|].
  apply answers_bind; [by apply hop_answers, Forall_take|]. intros [hop|e] _; [|by eexists].
  apply answers_bind; [by apply IH, Forall_drop|]. intros r _. by eexists.
Qed.

Lemma field_answers field : u5s field -> (length field <= 3 + 1023)%nat -> answers (field_from_base32 field).
Proof.
  intros U L. unfold field_from_base32. destruct field as [|t [|l1 [|l2 d]]]; try by eexists.
  rewrite !Forall_cons in U. destruct U as (_ & _ & _ & U). cbn [length] in L.
  assert (B : (length d * 5 / 8 <= 639)%nat) by (pose proof (Nat.div_mod_eq (length d * 5) 8); lia).
  assert (H52 : length d = 52%nat -> (length d * 5 / 8)%nat = 32%nat) by by intros ->.
  assert (A : forall bs, from_base32_bytes d = Ok bs -> length d = 52%nat -> length bs = 32%nat).
  { intros bs E L'. apply bytes_read in E as [_ ->]; [|done]. by apply H52. }
  assert (Hsha : answers (sha256_from_base32 d)).
  { unfold sha256_from_base32. destruct (Nat.eqb_spec (length d) 52) as [L'|]; [|by eexists]. cbn [negb].
    destruct (from_base32_bytes d) eqn:E; [|by eexists]. unfold of_length. rewrite (A _ eq_refl L'). by eexists. }
  repeat (case_match; [try by eexists|]); try by eexists.
  - apply answers_bind; [done|]. intros; by eexists.
  - apply answers_bind; [|intros; by eexists]. unfold description_from_base32. destruct (from_base32_bytes d) as [bs|] eqn:E; [|by eexists].
    apply bytes_read in E as [Ub Lb]; [|done]. unfold from_utf8. destruct (valid_utf8 bs); [|by eexists]. unfold description_new.
    rewrite <- length_bytes_of, bytes_of_string_of by done. rewrite (proj2 (Z.ltb_ge _ _)) by lia. by eexists.
  - apply answers_bind; [done|]. intros; by eexists.
  - apply answers_bind; [|intros; by eexists]. unfold route_from_base32. destruct (from_base32_bytes d) eqn:E; [|by eexists].
    apply bytes_read in E as [Ub _]; [|done]. case_match; [by eexists|]. by apply hops_answer.
  - apply answers_bind; [|intros; by eexists]. unfold secret_from_base32. destruct (Nat.eqb_spec (length d) 52) as [L'|]; [|by eexists]. cbn [negb].
    destruct (vec_from_base32 d) eqn:E; [|by eexists]. apply from_base32_typed in E as [_ Lb]; [|done]. unfold of_length. rewrite Lb, H52 by done. by eexists.
Qed.

Lemma parts_answer fuel d : u5s d -> (length d <= fuel)%nat -> answers (parse_tagged_parts fuel d).
Proof.
  revert d. induction fuel as [|fuel IH]; intros d U L; destruct d as [|t d']; [by eexists|cbn in L; lia|by eexists|].
  cbn [parse_tagged_parts]. set (d := t :: d') in *. case_match eqn:E3; [by eexists|]. apply Nat.ltb_ge in E3.
  assert (V : u5s (take 2 (drop 1 d))) by by apply Forall_take, Forall_drop.
  assert (Hn : Z.of_nat (length (take 2 (drop 1 d))) = 2) by (rewrite length_take, length_drop; lia).
  unfold expect_int. rewrite (parse_int_be_fits 64 32); [|lia|done|rewrite Hn; lia].
  cbn [Prelude.unwrap mbind outcome_bind]. pose proof (digits_value_lt 32 0 _ ltac:(lia) V) as Hlt. rewrite Hn in Hlt.
  set (n := digits_value 32 0 _) in *. case_match; [by eexists|].
  apply answers_bind.
  { apply field_answers; [by apply Forall_take|]. rewrite length_take. lia. }
  intros r _. case_match; [|by eexists]. apply answers_bind; [|intros; by eexists].
  apply IH; [by apply Forall_drop|]. rewrite length_drop. subst d. cbn [length] in *. lia.
Qed.
Lemma data_answers d : u5s d -> answers (data_from_base32 d).
Proof.
  intros U. unfold data_from_base32. case_match eqn:E; [by eexists|]. apply Nat.ltb_ge in E.
  assert (V : u5s (take 7 d)) by by apply Forall_take. assert (L : length (take 7 d) = 7%nat) by (rewrite length_take; lia).
  apply answers_bind.
  - unfold timestamp_from_base32. rewrite L. cbn [Nat.eqb negb]. unfold expect_int. pose proof (digits_value_lt 32 0 _ ltac:(lia) V) as Hlt. rewrite L in Hlt.
    change ((0 + 1) * 32 ^ Z.of_nat 7) with (2 ^ 35) in Hlt. rewrite parse_int_be_value by (done || lia). cbn [Prelude.unwrap mbind outcome_bind].
    unfold from_unix_timestamp, from_duration_since_epoch, MAX_TIMESTAMP. change (Z.shiftl 1 35 - 1) with (2 ^ 35 - 1). cbn [fst].
    rewrite (proj2 (Z.leb_le _ _)) by lia. by eexists.
  - intros [t|e] _; [|by eexists]. apply answers_bind; [|intros; by eexists].
    apply parts_answer; [by apply Forall_drop|rewrite length_drop; lia].
Qed.
Lemma signature_answers s : u5s s -> answers (signature_from_base32 s).
Proof.
  intros U. unfold signature_from_base32. destruct (Nat.eqb_spec (length s) 104) as [L|]; [|by eexists]. cbn [negb].
  destruct (from_base32_bytes s) eqn:E; [|by eexists]. apply bytes_read in E as [_ Lb]; [|done]. rewrite Lb, L. by eexists.
Qed.

(** The zeros appended to the data make whole bytes, with less than a group of zeros to spare. *)
Lemma preimage_answers h d : u5s d -> answers (construct_invoice_preimage h d).
Proof.
  intros U. unfold construct_invoice_preimage. set (o := ((length d * 5) mod 8)%nat).
  set (z := if (0 <? o)%nat then 0 :: (if (o <? 3)%nat then [0] else []) else []).
  assert (Ez : exists k, z = replicate k 0 /\ ((length d * 5 + k * 5) mod 8 <= k * 5)%nat /\ ((length d * 5 + k * 5) mod 8 < 5)%nat).
  { pose proof (Nat.div_mod_eq (length d * 5) 8) as Hdm. pose proof (Nat.mod_upper_bound (length d * 5) 8 ltac:(lia)) as Hlt. fold o in Hdm, Hlt.
    rewrite (Nat.mul_comm 8) in Hdm. subst z. destruct (Nat.ltb_spec 0 o); [destruct (Nat.ltb_spec o 3)|].
    - exists 2%nat. split; [done|]. replace (length d * 5 + 2 * 5)%nat with (o + 2 + (length d * 5 / 8 + 1) * 8)%nat by lia.
      rewrite Nat.Div0.mod_add, Nat.mod_small by lia. lia.
    - exists 1%nat. split; [done|]. replace (length d * 5 + 1 * 5)%nat with (o - 3 + (length d * 5 / 8 + 1) * 8)%nat by lia.
      rewrite Nat.Div0.mod_add, Nat.mod_small by lia. lia.
    - exists 0%nat. split; [done|]. replace (length d * 5 + 0 * 5)%nat with (0 + (length d * 5 / 8) * 8)%nat by lia.
      rewrite Nat.Div0.mod_add. cbn. lia. }
  destruct Ez as (k & -> & Hk & Hk5).
  assert (Uz : u5s (d ++ replicate k 0)) by (apply Forall_app; split; [done|]; apply Forall_replicate; unfold in_width; lia).
  rewrite from_base32_spec, all_bits_app, all_bits_zeros by done. unfold unpack, leftover.
  set (l := all_bits 5 d ++ replicate (k * 5) false). assert (Ll : length l = (length d * 5 + k * 5)%nat) by (subst l; by rewrite length_app, length_all_bits, length_replicate).
  assert (Ed : exists j, (j < 5)%nat /\ drop (length l / 8 * 8) l = replicate j false).
  { pose proof (Nat.div_mod_eq (length l) 8) as Hdm. rewrite Ll in *. set (q := ((length d * 5 + k * 5) / 8)%nat) in *.
    exists (k * 5 - (q * 8 - length d * 5))%nat. subst l. rewrite drop_app_ge, drop_replicate, length_all_bits by (rewrite length_all_bits; lia).
    split; [lia|done]. }
  destruct Ed as (j & Hj & Ed). rewrite Ed, length_replicate, (proj2 (Nat.ltb_lt _ _) Hj).
  replace (forallb negb (replicate j false)) with true by (clear; induction j; [done|]; cbn; done). by eexists.
Qed.

Lemma signed_from_str_answers s : answers (signed_from_str s).
Proof.
  unfold signed_from_str. destruct (bech32_decode s) as [[[h d] []]|e] eqn:E; try by eexists.
  apply decode_typed in E as [_ U]. case_match; [by eexists|]. case_match; [|by eexists].
  apply answers_bind; [by apply data_answers, Forall_take|]. intros [dp|e] _; [|by eexists].
  apply answers_bind; [unfold hash_from_parts; apply answers_bind; [by apply preimage_answers, Forall_take|intros; by eexists]|].
  intros hash _. apply answers_bind; [by apply signature_answers, Forall_drop|]. intros; by eexists.
Qed.
End Whole.

(** ** The builder *)

Section Building.
Context `{Bech32Laws} `{InvoiceCrypto} `{!SecpLaws} `{!InvoiceCryptoLaws} `{Sha256}.

(** The amount is kept exactly, with the largest prefix that divides it. *)
Lemma builder_amount msat b :
  0 <= msat -> msat * 10 < 2 ^ 64 ->
  exists a si, b_amount_milli_satoshis msat b =
    Ret (mkBuilder (b_currency b) (Some a) (Some si) (b_timestamp b) (b_tagged_fields b) (b_error b)) /\
    a * multiplier si = msat * 10 /\ u64 a.
Proof.
  intros H0' Hlt. unfold b_amount_milli_satoshis, mul64. rewrite checked_op_ok by (unfold in_width; lia). cbn [mbind outcome_bind].
  set (x := msat * 10) in *. assert (Hx : 0 <= x < 2 ^ 64) by (subst x; lia).
  destruct (find (fun p => x `mod` multiplier p =? 0) values_desc) as [si|] eqn:E.
  - apply find_some in E as [_ E]. apply Z.eqb_eq in E. cbn [Prelude.unwrap mbind outcome_bind]. exists (x `div` multiplier si), si.
    assert (Hm : 1 <= multiplier si) by (destruct si; cbn; lia). pose proof (Z.div_mod x (multiplier si) ltac:(lia)).
    split; [done|]. split; [lia|]. unfold in_width. split; [apply Z.div_pos; lia|]. apply Z.div_lt_upper_bound; nia.
  - assert (E' := find_none _ _ E Pico ltac:(cbn; tauto)). cbn [multiplier] in E'. by rewrite Z.mod_1_r in E'.
Qed.
Lemma raw_hash_answers r : raw_valid r -> answers (raw_hash r).
Proof.
  intros [_ Hd]. destruct (data_roundtrip _ Hd) as (l & E & U & _). unfold raw_hash, hash_from_parts. rewrite E. cbn [mbind outcome_bind].
  apply answers_bind; [by apply preimage_answers|]. intros; by eexists.
Qed.

Lemma from_signed_steps i :
  check_field_counts i = Ok tt -> check_feature_bits i = Ok tt -> check_signature i = Ret (Ok tt) ->
  from_signed i = (r ← check_amount i; Ret (let! _ := r in Ok i)).
Proof. intros E1 E2 E3. unfold from_signed, and_then. by rewrite E1, E2, E3. Qed.

(** C22: an invoice whose parts are valid can be printed, and the text is parsed to the same signed invoice; as a
    checked invoice it is accepted when, and only when, the checks accept the invoice that was printed. *)
Theorem invoice_roundtrip (i : SignedRawInvoice) :
  signed_valid i ->
  exists text, invoice_to_string i = Ret text /\ signed_from_str text = Ret (Ok i) /\
    invoice_from_str text = (x ← from_signed i; Ret (map_err ESemantic x)).
Proof.
  intros Hv. destruct (signed_roundtrip i Hv) as (text & E & R). exists text. split_and!; [done..|].
  unfold invoice_from_str. by rewrite R.
Qed.


(** The invoice a node makes: description, payment hash, time, final delta, secret, amount. *)
Definition standard_builder (cur : Currency) (d : string) (h : bytes) (secs cltv : Z) (secret : bytes) (msat : Z) : outcome InvoiceBuilder :=
  b_amount_milli_satoshis msat (b_payment_secret secret (b_min_final_cltv_expiry cltv
    (b_duration_since_epoch (secs, 0) (b_payment_hash h (b_description d (builder_new cur)))))).

End Building.

(** ** A concrete text encoding *)

Module ToyInvoice.
#[local] Existing Instance toy_secp.
#[local] Existing Instance toy_secp_laws.
#[local] Existing Instance toy_sha.

(** Groups as characters from [@] on, after a separator; no checksum. *)
Definition to_char (d : Z) : ascii := ascii_of (64 + d).
Definition text_of (ds : list Z) : string := string_of_list_ascii (to_char <$> ds).
Definition toy_decode (text : string) : result (string * list Z * Variant) Bech32Error :=
  match last_split "1" text with
  | None => Err (OtherBech32Error "missing separator")
  | Some (h, t) =>
      let ds := (fun b => b - 64) <$> bytes_of t in
      if is_ascii h && forallb (in_widthb 5) ds then Ok (h, ds, VBech32) else Err (OtherBech32Error "invalid character")
  end.
#[local] Instance toy_bech32 : Bech32 := {|
  slice_to_base32 bs := regroup 5 (all_bits 8 bs);
  slice_base32_len bs := length (regroup 5 (all_bits 8 bs));
  vec_from_base32 d := unpack (all_bits 5 d);
  encode_to_fmt h d := Ok (h +:+ String "1" (text_of d));
  bech32_decode := toy_decode;
|}.

Lemma text_of_ok ds :
  Forall (in_width 5) ds -> no_char "1" (text_of ds) = true /\ (fun b => b - 64) <$> bytes_of (text_of ds) = ds.
Proof.
  induction 1 as [|d ds Hd Hds [IH1 IH2]]; [done|]. unfold in_width in Hd. change (text_of (d :: ds)) with (String (to_char d) (text_of ds)).
  assert (Hb : byte_of (to_char d) = 64 + d) by (apply byte_of_ascii_of; unfold in_width; lia).
  rewrite bytes_of_cons, fmap_cons, IH2, Hb. cbn [no_char]. rewrite IH1, andb_true_r. split; [|f_equal; lia].
  apply bool_decide_eq_true. intros E. apply (f_equal byte_of) in E. rewrite Hb in E. change (byte_of "1") with 49 in E. lia.
Qed.
#[local] Instance toy_bech32_laws : Bech32Laws.
Proof.
  split; try done.
  - intros h d (Ha & _) Hd. eexists. split; [done|]. cbn [bech32_decode toy_bech32]. unfold toy_decode.
    destruct (text_of_ok d Hd) as [Hn Hr]. rewrite last_split_app, Hr, Ha by done. cbn [andb].
    replace (forallb (in_widthb 5) d) with true; [done|]. symmetry. apply forallb_forall. intros x Hx.
    apply in_widthb_true. rewrite Forall_forall in Hd. by apply Hd, list_elem_of_In.
  - intros text h d v E. cbn [bech32_decode toy_bech32] in E. unfold toy_decode in E. destruct (last_split "1" text) as [[h' t]|]; [|done].
    destruct (is_ascii h' && _) eqn:Eb; [|done]. apply andb_true_iff in Eb as [Ha Hf]. simplify_eq. split; [done|].
    apply Forall_forall. intros x Hx. apply in_widthb_true. rewrite forallb_forall in Hf. by apply Hf, list_elem_of_In.
Qed.

#[local] Instance toy_invoice_crypto : InvoiceCrypto := {|
  RecoverableSignature := bool;
  rs_serialize_compact s := (if s then 1 else 0, replicate 64 7);
  recovery_id_from_i32 z := if (0 <=? z) && (z <? 4) then Some z else None;
  rs_from_compact bs id := if bool_decide (bs = replicate 64 7) then (if id =? 0 then Some false else if id =? 1 then Some true else None) else None;
  recover_ecdsa _ s := Ok s;
  verify_recoverable _ s k := bool_decide (s = k);
|}.
#[local] Instance toy_invoice_crypto_laws : InvoiceCryptoLaws.
Proof. split; intros []; by_decide. Qed.

(** The node's only signature. *)
Definition toy_signature : RecoverableSignature := true.


(** A coffee. *)
Definition coffee : outcome (result SignedRawInvoice (SignOrCreationError unit)) :=
  b ← standard_builder Regtest "a coffee" (replicate 32 1) 1650000000 18 (replicate 32 2) 250000; try_build_signed (fun _ => Ok toy_signature) b.

(** The invoice with a whole number of bitcoins, which needs no prefix, and one from a time between two seconds. *)
Definition with_hash (r : RawInvoice) : SignedRawInvoice :=
  mkSigned _ _ r (match raw_hash r with Ret h => h | _ => [] end) true.
Definition plain_fields : list RawTaggedField :=
  KnownSemantics <$> [TDescription "gold"; TPaymentHash (replicate 32 1); TPaymentSecret (replicate 32 2); TFeatures [0; 65]].
Definition bitcoins (n : Z) : SignedRawInvoice := with_hash (mkRaw _ (mkHrp Bitcoin (Some n) None) (mkData _ (1650000000, 0) plain_fields)).
Lemma bitcoins_data n : data_valid (data (raw_invoice (bitcoins n))).
Proof.
  split; [by_decide|]. split; [done|]. unfold bitcoins, with_hash, plain_fields. cbn [raw_invoice data tagged_fields fmap list_fmap].
  rewrite !Forall_cons, Forall_nil. cbn [raw_field_valid field_valid]. split_and!; by_decide.
Qed.
Lemma bitcoins_checks n :
  from_signed (bitcoins n) = (r ← check_amount (bitcoins n); Ret (let! _ := r in Ok (bitcoins n))).
Proof. apply from_signed_steps; reflexivity. Qed.
Lemma invoice_roundtrip_witness :
  exists text, invoice_to_string (bitcoins 21) = Ret text /\ signed_from_str text = Ret (Ok (bitcoins 21)) /\
    invoice_from_str text = Ret (Ok (bitcoins 21)).
Proof.
  destruct (invoice_roundtrip (bitcoins 21)) as (text & E & R & F).
  - split; [split; [reflexivity|apply bitcoins_data]|]. vm_compute. reflexivity.
  - exists text. split; [done|]. split; [done|]. rewrite F, bitcoins_checks. reflexivity.
Defined.

(** Without a prefix nothing checked the product: twenty million bitcoins pass the parser and panic in the check of the amount. *)
Example amount_overflow :
  exists text, invoice_to_string (bitcoins 20000000) = Ret text /\ signed_from_str text = Ret (Ok (bitcoins 20000000)) /\
    invoice_from_str text = Panic "attempt to multiply with overflow".
Proof.
  destruct (signed_roundtrip (bitcoins 20000000)) as (text & E & R).
  - split; [split; [reflexivity|apply bitcoins_data]|]. vm_compute. reflexivity.
  - exists text. split; [done|]. split; [done|]. unfold invoice_from_str. rewrite R. cbn [mbind outcome_bind]. by rewrite bitcoins_checks.
Qed.

(** The builder keeps fractions of a second that the text does not carry. *)
Definition at_half : SignedRawInvoice := with_hash (mkRaw _ (mkHrp Bitcoin None None) (mkData _ (1650000000, 500000000) plain_fields)).
Example fraction_lost :
  match invoice_to_string at_half with
  | Ret text => match invoice_from_str text with Ret (Ok i) => timestamp (data (raw_invoice i)) = (1650000000, 0) | _ => False end
  | _ => False
  end.
Proof. vm_compute. reflexivity. Qed.
End ToyInvoice.
