(* ===== verification/NoiseSafe.v ===== *)
(** * The encryptor on bytes a peer chose

    Whatever arrives, an encryptor that is called at the right step returns: the acts of the
    handshake and the two halves of a message are accepted or refused, never a panic, and
    the encryptor stays well formed. *)

From S2P Require Import Prelude Text HexUtils Bytes ChaCha20 Poly1305 Poly1305Spec Stream Ser SerLaws Aead Tlv Features Msgs Noise.

Local Open Scope Z_scope.

Section NoiseSafe.
Context `{SecpLaws} `{!NoiseCrypto} `{!NoiseLaws} `{!FixedTimeEq} `{!FixedTimeEqLaws}.

(** Opening any sealed text of bytes gives bytes of its length, or is refused. *)
Lemma decrypt_total n key ad (ct : bytes) :
  length key = 32%nat -> all_u8 ad -> all_u8 ct -> (16 <= length ct)%nat -> Z.of_nat (length ct) <= MAX_DATA ->
  exists r, decrypt_with_ad (length ct - 16) n key ad ct = Ret r /\
    forall res, r = Ok res -> length res = (length ct - 16)%nat /\ all_u8 res.
Proof.
  intros Hk Ha Hc Hl Hm. destruct (nonce_of_ok n) as [Hn H0n].
  destruct (new_at key (nonce_of n) ad Hk Hn H0n Ha) as (pk & c0 & s & _ & Hst & En & Hs).
  set (k := (length ct - 16)%nat) in *. set (enc := take k ct). assert (Le : length enc = k) by (unfold enc; rewrite length_take; lia).
  assert (Ue : all_u8 enc) by (by apply Forall_take).
  destruct (decrypt_at pk ad c0 Hst s [] [] enc (drop k ct) Hs Ue) as (m & c' & s' & Em & Ed); [cbn; lia|rewrite length_drop; lia|].
  destruct (next_piece pk ad c0 Hst [] [] s enc Hs) as (y & c2 & _ & Ey & Ly & Uy); [cbn; lia|].
  rewrite Em in Ey. injection Ey as <- _. unfold decrypt_with_ad. rewrite En. cbn [mbind outcome_bind].
  replace (length ct <? 16)%nat with false by (symmetry; apply Nat.ltb_ge; lia). fold k enc. rewrite Le in Ed. rewrite Ed. cbn [mbind outcome_bind].
  case_bool_decide; cbn [mbind outcome_bind]; (eexists; split; [done|]); intros res [= <-].
  split; [lia|auto].
Qed.

(** ** Well-formed encryptors *)

Definition keys_ok (k : Keys) : Prop :=
  array_ok 32 (sk k) /\ 0 <= sn k <= 1000 /\ sn k `mod` 2 = 0 /\ array_ok 32 (rk k) /\ 0 <= rn k <= 1001.

Definition encryptor_ok (p : PeerChannelEncryptor) : Prop :=
  match noise_state p with
  | InProgress PreActOne (Inbound None None None) bi => array_ok 32 (h bi)
  | InProgress PostActOne (Outbound _) bi => array_ok 32 (h bi) /\ is_Some (their_node_id p)
  | InProgress PostActTwo (Inbound (Some _) (Some _) (Some temp_k)) bi => array_ok 32 (h bi) /\ array_ok 32 temp_k
  | Finished k => keys_ok k
  | _ => False
  end.

Lemma mix_hash_ok bi data : array_ok 32 (h (mix_hash bi data)).
Proof. apply sha256_array. Qed.

Lemma outbound_act_total bi our their :
  exists act tk bi', outbound_noise_act bi our their = Ret (act, tk, bi') /\ length act = 50%nat /\ all_u8 act /\
    array_ok 32 tk /\ array_ok 32 (h bi').
Proof.
  unfold outbound_noise_act, hkdf. set (bi1 := mix_hash bi _).
  pose proof (twice_arrays (ck bi1) (ecdh their our)) as [_ Ht2]. destruct (hkdf_extract_expand_twice _ _) as [t1 t2]. cbn [fst snd] in *.
  destruct (sealed 0 t2 (h (mkBi (h bi1) t1)) []) as (c & Ec & Lc & Uc & _); [apply Ht2|apply sha256_array|done|done|].
  cbn [length Nat.add] in Ec, Lc. rewrite Ec. cbn [mbind outcome_bind]. destruct (pk_zero_byte (from_secret_key our)) as [Lp Up].
  eexists _, _, _. split; [done|]. split_and!.
  - cbn [length]. rewrite length_app. lia.
  - constructor; [by vm_compute|]. by apply Forall_app.
  - done.
  - apply mix_hash_ok.
Qed.

Lemma inbound_act_total bi act our :
  length act = 50%nat -> all_u8 act -> array_ok 32 (h bi) ->
  exists r bi', inbound_noise_act act our bi = (Ret r, bi') /\ array_ok 32 (h bi') /\
    forall pub tk, r = Ok (pub, tk) -> array_ok 32 tk.
Proof.
  intros La Ua Hh. unfold inbound_noise_act. rewrite La. cbn [Nat.eqb negb].
  destruct (negb _); [eexists _, _; by split_and!|]. destruct (pk_from_slice _) as [pub|]; [|eexists _, _; by split_and!].
  unfold hkdf. set (bi1 := mix_hash bi _).
  pose proof (twice_arrays (ck bi1) (ecdh pub our)) as [_ Ht2]. destruct (hkdf_extract_expand_twice _ _) as [t1 t2]. cbn [fst snd] in *.
  destruct (decrypt_total 0 t2 (h (mkBi (h bi1) t1)) (drop 34 act)) as (r & Er & _);
    [apply Ht2|apply sha256_array|by apply Forall_drop|rewrite length_drop; lia|rewrite length_drop, La; by vm_compute|].
  rewrite length_drop, La in Er. cbn [Nat.sub] in Er. rewrite Er.
  destruct r as [x|e]; (eexists _, _; split; [done|]; split; [apply sha256_array|]); intros pub' tk' [=]; by subst.
Qed.

(** ** The acts *)

Lemma new_inbound_ok our : encryptor_ok (new_inbound our).
Proof. apply sha256_array. Qed.

Lemma act_one_made their ie :
  exists act p, get_act_one (new_outbound their ie) = (Ret act, p) /\ length act = 50%nat /\ encryptor_ok p /\ get_noise_step p = ActTwo.
Proof.
  unfold get_act_one, new_outbound, mbind, prog_bind, get, lift. cbn [noise_state their_node_id unwrap].
  destruct (outbound_act_total (mkBi (sha256 (NOISE_H ++ pk_serialize their)) NOISE_CK) ie their) as (act & tk & bi & E & La & _ & _ & Hb).
  rewrite bool_decide_true by done. cbn [negb]. rewrite E. eexists _, _. split; [done|]. by split_and!.
Qed.

Lemma act_one_total act our eph p :
  length act = 50%nat -> all_u8 act -> encryptor_ok p -> get_noise_step p = ActOne ->
  exists r p', process_act_one_with_keys act our eph p = (Ret r, p') /\
    forall reply, r = Ok reply -> length reply = 50%nat /\ encryptor_ok p' /\ get_noise_step p' = ActThree.
Proof.
  intros La Ua Hp Hs. unfold encryptor_ok, get_noise_step in *. unfold process_act_one_with_keys, mbind, prog_bind, get, lift. rewrite La. cbn [Nat.eqb negb].
  destruct (noise_state p) as [[] [ie|[] [] []] bi|k]; try done.
  rewrite bool_decide_true by done. cbn [negb].
  destruct (inbound_act_total bi act our La Ua Hp) as ([[pub tk]|e] & bi' & E & Hh & Ht); rewrite E; [|by eexists _, _].
  cbn [get_or_insert]. destruct (outbound_act_total bi' eph pub) as (reply & tk' & bi2 & E2 & L2 & _ & Htk & Hb2). rewrite E2.
  eexists _, _. split; [done|]. intros reply' [= <-]. by split_and!.
Qed.

Lemma make_act_three_total bi re tk our :
  array_ok 32 (h bi) -> array_ok 32 tk ->
  exists act sk rk ck', make_act_three bi re tk our = Ret (act, (sk, rk), ck') /\ length act = 66%nat /\ array_ok 32 sk /\ array_ok 32 rk.
Proof.
  intros Hh Htk. unfold make_act_three. destruct (pk_zero_byte (from_secret_key our)) as [Lp Up].
  destruct (sealed 1 tk (h bi) (pk_serialize (from_secret_key our))) as (c & Ec & Lc & Uc & _); [apply Htk|apply Hh|done|by rewrite Lp|].
  rewrite Lp in Ec, Lc. cbn [Nat.add] in Ec, Lc. rewrite Ec. cbn [mbind outcome_bind]. unfold hkdf. set (bi1 := mix_hash bi c).
  pose proof (twice_arrays (ck bi1) (ecdh re our)) as [_ Ht2]. destruct (hkdf_extract_expand_twice _ _) as [t1 t2]. cbn [fst snd] in *.
  destruct (sealed 0 t2 (h (mkBi (h bi1) t1)) []) as (t & Et & Lt & _); [apply Ht2|apply sha256_array|done|done|].
  cbn [length Nat.add] in Et, Lt. rewrite Et. cbn [mbind outcome_bind Noise.ck].
  pose proof (twice_arrays t1 []) as [K1 K2]. destruct (hkdf_extract_expand_twice t1 []) as [a b]. cbn [fst snd] in *.
  eexists _, _, _, _. split; [done|]. split_and!; [|done..]. cbn [length]. rewrite length_app. lia.
Qed.

Lemma fresh_keys_ok a b c : array_ok 32 a -> array_ok 32 b -> keys_ok (mkKeys a 0 c b 0 c).
Proof. intros Ha Hb. split_and!; cbn; try done; try lia; apply Ha || apply Hb. Qed.

Lemma act_two_total act our p :
  length act = 50%nat -> all_u8 act -> encryptor_ok p -> get_noise_step p = ActTwo ->
  exists r p', process_act_two act our p = (Ret r, p') /\
    forall reply id, r = Ok (reply, id) -> encryptor_ok p' /\ get_noise_step p' = NoiseComplete.
Proof.
  intros La Ua Hp Hs. unfold encryptor_ok, get_noise_step in *. unfold process_act_two, mbind, prog_bind, get, lift. rewrite La. cbn [Nat.eqb negb].
  destruct (noise_state p) as [[] [ie|[] [] []] bi|k]; try done. destruct Hp as [Hh [id Hid]].
  rewrite bool_decide_true by done. cbn [negb].
  destruct (inbound_act_total bi act ie La Ua Hh) as ([[re tk]|e] & bi' & E & Hh' & Ht); rewrite E; [|by eexists _, _].
  destruct (make_act_three_total bi' re tk our Hh' (Ht _ _ eq_refl)) as (reply & a & b & c & E3 & _ & Ha & Hb). rewrite E3.
  cbv [put]. rewrite Hid. cbn [Noise.unwrap]. eexists _, _. split; [done|]. intros reply' id' [= <- <-]. split; [by apply fresh_keys_ok|done].
Qed.

Lemma act_three_total act p :
  length act = 66%nat -> all_u8 act -> encryptor_ok p -> get_noise_step p = ActThree ->
  exists r p', process_act_three act p = (Ret r, p') /\
    forall id, r = Ok id -> encryptor_ok p' /\ get_noise_step p' = NoiseComplete.
Proof.
  intros La Ua Hp Hs. unfold encryptor_ok, get_noise_step in *.
  unfold process_act_three, bind_ok, mbind, prog_bind, get, lift, put. rewrite La. cbn [Nat.eqb negb].
  destruct (noise_state p) as [[] [ie|[ie|] [re|] [k2|]] bi|k]; try done. destruct Hp as [Hh Hk2].
  rewrite bool_decide_true by done. cbn [negb]. destruct (negb _); [by eexists _, _|]. cbn [Noise.unwrap].
  assert (L1 : length (slice 1 50 act) = 49%nat) by (unfold slice; rewrite length_take, length_drop; lia).
  destruct (decrypt_total 1 k2 (h bi) (slice 1 50 act)) as (r & Er & _);
    [apply Hk2|apply Hh|by apply Forall_take, Forall_drop|lia|rewrite L1; by vm_compute|].
  rewrite L1 in Er. cbn [Nat.sub] in Er. rewrite Er. destruct r as [node_id|e]; [|by eexists _, _].
  destruct (pk_from_slice node_id) as [id|]; [|by eexists _, _]. unfold hkdf. set (bi1 := mix_hash bi _).
  pose proof (twice_arrays (ck bi1) (ecdh id re)) as [_ Ht2]. destruct (hkdf_extract_expand_twice _ _) as [t1 t2]. cbn [fst snd] in *.
  assert (L2 : length (drop 50 act) = 16%nat) by (rewrite length_drop; lia).
  destruct (decrypt_total 0 t2 (h (mkBi (h bi1) t1)) (drop 50 act)) as (r & Er2 & _);
    [apply Ht2|apply sha256_array|by apply Forall_drop|lia|rewrite L2; by vm_compute|].
  rewrite L2 in Er2. cbn [Nat.sub] in Er2. rewrite Er2. destruct r as [x|e]; [|by eexists _, _]. cbn [Noise.ck].
  pose proof (twice_arrays t1 []) as [K1 K2]. destruct (hkdf_extract_expand_twice t1 []) as [a b]. cbn [fst snd] in *.
  eexists _, _. split; [done|]. intros id' [= <-]. split; [by apply fresh_keys_ok|done].
Qed.

(** ** Messages *)

Lemma rotate_send_ok k : keys_ok k -> keys_ok (rotate_send k) /\ sn (rotate_send k) <= 998.
Proof.
  intros Hk. pose proof Hk as (Hs & Hn & He & Hr & Hm). unfold rotate_send. destruct (Z.leb_spec 1000 (sn k)).
  - pose proof (twice_arrays (sck k) (sk k)) as [_ T2]. destruct (hkdf_extract_expand_twice _ _) as [c x]. cbn in T2.
    split; [|cbn; lia]. split_and!; cbn; try done; lia.
  - split; [done|]. by apply even_below.
Qed.

Lemma rotate_receive_ok k : keys_ok k -> keys_ok (rotate_receive k) /\ rn (rotate_receive k) <= 999.
Proof.
  intros Hk. pose proof Hk as (Hs & Hn & He & Hr & Hm). unfold rotate_receive. destruct (Z.leb_spec 1000 (rn k)).
  - pose proof (twice_arrays (rck k) (rk k)) as [_ T2]. destruct (hkdf_extract_expand_twice _ _) as [c x]. cbn in T2.
    split; [|cbn; lia]. split_and!; cbn; try done; lia.
  - split; [done|lia].
Qed.

Definition oversize : string := "Attempted to encrypt message longer than 65535 bytes!".

(** Encrypting refuses a message that is too long, and nothing else. *)
Lemma encrypt_total msg p k :
  noise_state p = Finished k -> keys_ok k -> all_u8 msg ->
  (LN_MAX_MSG_LEN < Z.of_nat (length msg) /\ encrypt_message msg p = (Panic oversize, p)) \/
  (exists ct k', encrypt_message msg p = (Ret ct, set_noise p (Finished k')) /\ keys_ok k' /\ rn k' = rn k /\
     length ct = (length msg + 34)%nat).
Proof.
  intros Ep Hk Hu. destruct (Z_lt_le_dec LN_MAX_MSG_LEN (Z.of_nat (length msg))) as [Hl|Hl].
  - left. split; [done|]. unfold encrypt_message. by replace (_ <? _) with true by lia.
  - right. destruct (rotate_send_ok k Hk) as [(Hs & Hn & He & Hr & Hm) Hb].
    destruct (encrypt_finished p k msg Ep Hs ltac:(lia) Hu Hl) as (hdr & body & E & Lh & Lb & _).
    eexists _, _. split; [exact E|]. split; [|split; [|rewrite length_app; lia]].
    + split_and!; cbn; try done; try lia; try apply Hs || apply Hr.
      replace (sn (rotate_send k) + 1 + 1) with (sn (rotate_send k) + 1 * 2) by lia. by rewrite Z_mod_plus_full.
    + cbn. unfold rotate_send. destruct (_ <=? _); [|done]. by destruct (hkdf_extract_expand_twice _ _).
Qed.

Lemma header_total msg p k :
  noise_state p = Finished k -> keys_ok k -> length msg = 18%nat -> all_u8 msg ->
  exists r k', decrypt_length_header msg p = (Ret r, set_noise p (Finished k')) /\ keys_ok k' /\
    forall len, r = Ok len -> u16 len /\ rn k' <= 1000.
Proof.
  intros Ep Hk Hl Hu. destruct (rotate_receive_ok k Hk) as [Hk1 Hn]. pose proof Hk1 as (Hs & Hsn & He & Hr & Hm).
  unfold decrypt_length_header, bind_ok, mbind, prog_bind, get, lift, put. rewrite Hl. cbn [Nat.eqb negb]. rewrite Ep.
  set (k1 := rotate_receive k) in *.
  destruct (decrypt_total (rn k1) (rk k1) [] msg) as (r & Er & Hres); [apply Hr|done|done|lia|rewrite Hl; by vm_compute|].
  rewrite Hl in Er, Hres. cbn [Nat.sub] in Er, Hres. rewrite Er. destruct r as [res|e]; [|by exists (Err e), k1].
  rewrite add64_small by lia. eexists _, _. split; [done|]. split; [split_and!; cbn; try done; lia|]. intros len [= <-].
  destruct (Hres _ eq_refl) as [L U]. split; [|cbn; lia].
  pose proof (from_be_bytes_bound res U) as Hb. rewrite L in Hb. unfold in_width. cbn in Hb. lia.
Qed.

Lemma message_total msg p k :
  noise_state p = Finished k -> keys_ok k -> rn k <= 1000 -> (16 <= length msg)%nat ->
  Z.of_nat (length msg) <= LN_MAX_MSG_LEN + 16 -> all_u8 msg ->
  exists r k', decrypt_message msg p = (Ret r, set_noise p (Finished k')) /\ keys_ok k' /\
    forall res, r = Ok res -> length res = (length msg - 16)%nat /\ all_u8 res.
Proof.
  intros Ep Hk Hn Hl Hl' Hu. pose proof Hk as (Hs & Hsn & He & Hr & Hm). unfold decrypt_message, bind_ok, mbind, prog_bind, get, lift, put.
  replace (_ <? _) with false by lia. rewrite Ep. replace (_ <? 16)%nat with false by (symmetry; apply Nat.ltb_ge; lia).
  destruct (decrypt_total (rn k) (rk k) [] msg) as (r & Er & Hres);
    [apply Hr|done|done|done|unfold LN_MAX_MSG_LEN, U16_MAX, MAX_DATA in *; lia|].
  rewrite Er. destruct r as [res|e].
  - rewrite add64_small by lia. eexists _, _. split; [done|]. split; [split_and!; cbn; try done; lia|]. intros res' [= <-]. by apply Hres.
  - exists (Err e), k. split; [|done]. unfold mret, prog_ret. f_equal. unfold set_noise. rewrite <- Ep. by destruct p.
Qed.
End NoiseSafe.
