(* ===== verification/NoiseCases.v ===== *)
(** * A session on which the theorems about the transport are applied

    A toy key exchange over the two keys of WireCases.v and a toy digest satisfy the laws of
    Noise.v. *)

From S2P Require Import Prelude Text Bytes Stream Ser SerLaws Aead Tlv Features Msgs Noise WireCases.

Local Open Scope Z_scope.

#[local] Existing Instance toy_secp.
#[local] Existing Instance toy_secp_laws.

Definition toy_digest (m : bytes) : bytes := replicate 31 7 ++ [Z.of_nat (length m) `mod` 256].

#[local] Instance toy_noise : NoiseCrypto := {|
  SecretKey := bool; from_secret_key := fun s : bool => s; ecdh := fun (a b : bool) => [if xorb a b then 1 else 0];
  sha256 := toy_digest; hmac_sha256 := fun k m => toy_digest (k ++ m);
|}.

Lemma toy_digest_array m : array_ok 32 (toy_digest m).
Proof.
  split; [done|]. unfold toy_digest. apply Forall_app. split; [apply Forall_replicate; by vm_compute|].
  constructor; [|constructor]. apply Z.mod_pos_bound. lia.
Qed.

#[local] Instance toy_noise_laws : NoiseLaws.
Proof. split; [apply toy_digest_array|intros; apply toy_digest_array|by intros [] []]. Qed.

#[local] Instance toy_eq : FixedTimeEq := {|
  fixed_time_eq a b := if decide (length a = length b) then Ret (bool_decide (a = b)) else Panic "assertion failed: a.len() == b.len()"
|}.
#[local] Instance toy_eq_laws : FixedTimeEqLaws.
Proof. intros a b Hl. cbn. by rewrite decide_True. Qed.

Definition toy_keys : Keys := mkKeys (replicate 32 1) 0 (replicate 32 3) (replicate 32 2) 0 (replicate 32 3).
Definition toy_keys' : Keys := mkKeys (replicate 32 2) 0 (replicate 32 3) (replicate 32 1) 0 (replicate 32 3).
Definition toy_peer : PeerChannelEncryptor := mkPeer _ _ None (Finished toy_keys).
Definition toy_peer' : PeerChannelEncryptor := mkPeer _ _ None (Finished toy_keys').

Lemma toy_mirrored : mirrored toy_peer toy_peer'.
Proof.
  exists toy_keys, toy_keys'. split_and!; [done|done|]. apply fresh_mirrored; split; [done|by_decide|done|by_decide].
Qed.

Definition key_a : @SecretKey _ toy_noise := true.
Definition key_b : @SecretKey _ toy_noise := false.

Lemma noise_handshake_witness :
  exists act1 p1 act2 q1 act3 p2 q2,
    get_act_one (new_outbound (from_secret_key key_b) key_a) = (Ret act1, p1) /\
    process_act_one_with_keys act1 key_b key_a (new_inbound key_b) = (Ret (Ok act2), q1) /\
    process_act_two act2 key_a p1 = (Ret (Ok (act3, from_secret_key key_b)), p2) /\
    process_act_three act3 q1 = (Ret (Ok (from_secret_key key_a)), q2) /\
    their_node_id p2 = Some (from_secret_key key_b) /\ their_node_id q2 = Some (from_secret_key key_a) /\
    mirrored p2 q2.
Proof. apply (noise_handshake key_a key_b key_a key_a). Defined.

Lemma noise_transport_witness :
  exists p' q', converse [(true, [1; 2; 3]); (false, []); (true, [9])] toy_peer toy_peer' =
    ([Ret (Ok [1; 2; 3]); Ret (Ok []); Ret (Ok [9])], p', q') /\ mirrored p' q'.
Proof.
  apply (noise_transport toy_peer toy_peer' [(true, [1; 2; 3]); (false, []); (true, [9])] toy_mirrored). by_decide.
Defined.


Lemma bad_mac_refused_witness :
  exists ct p' kq, encrypt_message [5] toy_peer = (Ret ct, p') /\ noise_state toy_peer' = Finished kq /\
    (replicate 16 0 <> slice 2 18 ct ->
     decrypt_length_header (take 2 ct ++ replicate 16 0) toy_peer' =
     (Ret (Err "Bad MAC"), set_noise toy_peer' (Finished (rotate_receive kq)))).
Proof. apply (bad_mac_refused toy_peer toy_peer' [5] (replicate 16 0) toy_mirrored); [by_decide|by vm_compute|done]. Defined.
