(* ===== verification/InboundPayment.v ===== *)
(** * Payments to be received: ln/inbound_payment.rs

    A node keeps no record of the invoices it issued: the payment secret in an invoice carries the
    least amount and the expiry, encrypted, and the payment hash (or the secret itself, for a hash
    of the user) is an HMAC of them.  What [create] and [create_from_hash] hand out is what [verify]
    accepts, for the amount and until the time it was made for; and [verify] accepts nothing that
    is not authenticated by the node's keys. *)

From S2P Require Import Prelude Text Bytes ChaCha20 Stream Ser SerLaws Aead Msgs Noise OnionHop WireCases NoiseCases.

Local Open Scope Z_scope.

Definition IV_LEN : nat := 16.
Definition METADATA_LEN : nat := 16.
Definition METADATA_KEY_LEN : nat := 32.
Definition AMT_MSAT_LEN : nat := 8.
Definition METHOD_TYPE_OFFSET : Z := 5.

Record ExpandedKey := mkExpandedKey { metadata_key : bytes; ldk_pmt_hash_key : bytes; user_pmt_hash_key : bytes }.

Inductive Method := LdkPaymentHash | UserPaymentHash.
#[global] Instance Method_eq_dec : EqDecision Method.
Proof. solve_decision. Defined.

Definition method_as_u8 (m : Method) : Z := match m with LdkPaymentHash => 0 | UserPaymentHash => 1 end.
Definition from_bits (bits : Z) : result Method Z :=
  if bits =? method_as_u8 LdkPaymentHash then Ok LdkPaymentHash
  else if bits =? method_as_u8 UserPaymentHash then Ok UserPaymentHash
  else Err bits.

(** The messages of [APIError::APIMisuseError]. *)
Inductive APIError :=
| PreimageMismatch (payment_hash bad_preimage_bytes : bytes)
| ExpectedLdkPaymentHash
| UnknownPaymentType (bits : Z).

Section Source.
Context `{NoiseCrypto} `{FixedTimeEq}.

(** b"LDK Inbound Payment Key Expansion" *)
Definition expansion_salt : bytes := bytes_of "LDK Inbound Payment Key Expansion".

(** [ExpandedKey::new]. *)
Definition new_expanded_key (key_material : bytes) : ExpandedKey :=
  let '(metadata_key, ldk_pmt_hash_key, user_pmt_hash_key) := hkdf_extract_expand_thrice expansion_salt key_material in
  mkExpandedKey metadata_key ldk_pmt_hash_key user_pmt_hash_key.

(** [bytes[0] |= b] on an array. *)
Definition or_first (b : Z) (bs : bytes) : bytes := match bs with x :: bs' => Z.lor x b :: bs' | [] => [] end.
Definition and_first (b : Z) (bs : bytes) : bytes := match bs with x :: bs' => Z.land x b :: bs' | [] => [] end.

Definition construct_metadata_bytes (min_value_msat : option Z) (payment_type : Method) (invoice_expiry_delta_secs highest_seen_timestamp : Z) :
    outcome (result bytes unit) :=
  if match min_value_msat with Some amt => MAX_VALUE_MSAT <? amt | None => false end then Ret (Err tt)
  else
    let min_amt_msat_bytes := match min_value_msat with Some amt => to_be_bytes 8 amt | None => replicate AMT_MSAT_LEN 0 end in
    let min_amt_msat_bytes := or_first (wrap 8 (Z.shiftl (method_as_u8 payment_type) METHOD_TYPE_OFFSET)) min_amt_msat_bytes in
    t ← add64 highest_seen_timestamp invoice_expiry_delta_secs;
    expiry ← add64 t 7200;
    Ret (Ok (min_amt_msat_bytes ++ to_be_bytes 8 expiry)).

Definition construct_payment_secret (iv_bytes metadata_bytes metadata_key : bytes) : outcome bytes :=
  chacha_block ← get_single_block metadata_key iv_bytes;
  Ret (iv_bytes ++ xor_bytes metadata_bytes chacha_block).

(** [rand_bytes] is what [get_secure_random_bytes] returned. *)
Definition create (keys : ExpandedKey) (min_value_msat : option Z) (invoice_expiry_delta_secs : Z) (rand_bytes : bytes) (current_time : Z) :
    outcome (result (bytes * bytes) unit) :=
  m ← construct_metadata_bytes min_value_msat LdkPaymentHash invoice_expiry_delta_secs current_time;
  match m with
  | Err e => Ret (Err e)
  | Ok metadata_bytes =>
      let iv_bytes := take IV_LEN rand_bytes in
      let payment_preimage_bytes := hmac_sha256 (ldk_pmt_hash_key keys) (iv_bytes ++ metadata_bytes) in
      let ldk_pmt_hash := sha256 payment_preimage_bytes in
      payment_secret ← construct_payment_secret iv_bytes metadata_bytes (metadata_key keys);
      Ret (Ok (ldk_pmt_hash, payment_secret))
  end.

Definition create_from_hash (keys : ExpandedKey) (min_value_msat : option Z) (payment_hash : bytes) (invoice_expiry_delta_secs current_time : Z) :
    outcome (result bytes unit) :=
  m ← construct_metadata_bytes min_value_msat UserPaymentHash invoice_expiry_delta_secs current_time;
  match m with
  | Err e => Ret (Err e)
  | Ok metadata_bytes =>
      let hmac_bytes := hmac_sha256 (user_pmt_hash_key keys) (metadata_bytes ++ payment_hash) in
      let iv_bytes := take IV_LEN hmac_bytes in
      secret ← construct_payment_secret iv_bytes metadata_bytes (metadata_key keys);
      Ret (Ok secret)
  end.

Definition decrypt_metadata (payment_secret : bytes) (keys : ExpandedKey) : outcome (bytes * bytes) :=
  let iv_bytes := take IV_LEN payment_secret in
  let encrypted_metadata_bytes := drop IV_LEN payment_secret in
  chacha_block ← get_single_block (metadata_key keys) iv_bytes;
  Ret (iv_bytes, xor_bytes encrypted_metadata_bytes chacha_block).

Definition derive_ldk_payment_preimage (payment_hash iv_bytes metadata_bytes : bytes) (keys : ExpandedKey) : outcome (result bytes bytes) :=
  let decoded_payment_preimage := hmac_sha256 (ldk_pmt_hash_key keys) (iv_bytes ++ metadata_bytes) in
  same ← fixed_time_eq payment_hash (sha256 decoded_payment_preimage);
  Ret (if (same : bool) then Ok decoded_payment_preimage else Err decoded_payment_preimage).

(** What the metadata says. *)
Definition payment_type_bits (metadata_bytes : bytes) : Z :=
  Z.shiftr (Z.land (nth 0 metadata_bytes 0) 0xE0) METHOD_TYPE_OFFSET.
Definition min_amt_msat_of (metadata_bytes : bytes) : Z := from_be_bytes (and_first 0x1F (take AMT_MSAT_LEN metadata_bytes)).
Definition expiry_of (metadata_bytes : bytes) : Z := from_be_bytes (drop AMT_MSAT_LEN metadata_bytes).

Definition verify (payment_hash : bytes) (payment_data : FinalOnionHopData.t) (highest_seen_timestamp : Z) (keys : ExpandedKey) :
    outcome (result (option bytes) unit) :=
  '(iv_bytes, metadata_bytes) ← decrypt_metadata (FinalOnionHopData.payment_secret payment_data) keys;
  let payment_type_res := from_bits (payment_type_bits metadata_bytes) in
  let min_amt_msat := min_amt_msat_of metadata_bytes in
  let expiry := expiry_of metadata_bytes in
  checked ← (match payment_type_res with
             | Ok UserPaymentHash =>
                 same ← fixed_time_eq iv_bytes (take IV_LEN (hmac_sha256 (user_pmt_hash_key keys) (metadata_bytes ++ payment_hash)));
                 Ret (if (same : bool) then Ok None else Err tt)
             | Ok LdkPaymentHash =>
                 r ← derive_ldk_payment_preimage payment_hash iv_bytes metadata_bytes keys;
                 Ret (match r with Ok preimage => Ok (Some preimage) | Err _ => Err tt end)
             | Err _ => Ret (Err tt)
             end);
  match checked with
  | Err e => Ret (Err e)
  | Ok payment_preimage =>
      if FinalOnionHopData.total_msat payment_data <? min_amt_msat then Ret (Err tt)
      else if expiry <? highest_seen_timestamp then Ret (Err tt)
      else Ret (Ok payment_preimage)
  end.

Definition get_payment_preimage (payment_hash payment_secret : bytes) (keys : ExpandedKey) : outcome (result bytes APIError) :=
  '(iv_bytes, metadata_bytes) ← decrypt_metadata payment_secret keys;
  match from_bits (payment_type_bits metadata_bytes) with
  | Ok LdkPaymentHash =>
      r ← derive_ldk_payment_preimage payment_hash iv_bytes metadata_bytes keys;
      Ret (map_err (PreimageMismatch payment_hash) r)
  | Ok UserPaymentHash => Ret (Err ExpectedLdkPaymentHash)
  | Err other => Ret (Err (UnknownPaymentType other))
  end.
End Source.

(** ** One block of the cipher *)

(** With a sixteen-byte nonce the first four bytes are the block counter, and a counter that is
    used up panics. *)
Definition counter_exhausted (nonce : bytes) : bool := bool_decide (take 4 nonce = [255; 255; 255; 255]).

Lemma le_bytes_max (bs : bytes) : all_u8 bs -> length bs = 4%nat -> wrapping_add32 (from_le_bytes bs) 1 = 0 <-> bs = [255; 255; 255; 255].
Proof.
  intros Hu Hl. pose proof (from_le_bytes_bound bs Hu) as Hb. rewrite Hl in Hb. change (256 ^ Z.of_nat 4) with (2 ^ 32) in Hb. split; [|intros ->; done].
  intros E. assert (Hmax : from_le_bytes bs = 2 ^ 32 - 1).
  { unfold wrapping_add32, wrap in E. destruct (decide (from_le_bytes bs = 2 ^ 32 - 1)) as [|Hne]; [done|]. rewrite Z.mod_small in E by lia. lia. }
  rewrite <- (to_from_le_bytes bs Hu), Hl, Hmax. reflexivity.
Qed.

Lemma xor_bytes_length (a b : bytes) : (length a <= length b)%nat -> length (xor_bytes a b) = length a.
Proof. revert b. induction a as [|x a IH]; intros [|y b] Hl; cbn in *; try lia. rewrite IH; lia. Qed.

Lemma xor_bytes_twice (a b : bytes) : (length a <= length b)%nat -> xor_bytes (xor_bytes a b) b = a.
Proof. revert b. induction a as [|x a IH]; intros [|y b] Hl; cbn in *; try lia; [done..|]. rewrite IH by lia. f_equal. by rewrite Z.lxor_assoc, Z.lxor_nilpotent, Z.lxor_0_r. Qed.

Lemma one_update f c x xs : cc_offset c = BLOCK_SIZE -> (length (x :: xs) <= BLOCK_SIZE)%nat ->
  process_loop (S f) c (x :: xs) =
  (c' ← update c; Ret (xor_bytes (x :: xs) (cc_output c'), mkChaCha (cc_state c') (cc_output c') (length (x :: xs)))).
Proof.
  intros Ho Hl. cbn [process_loop]. rewrite decide_True by done. destruct (update c) as [c'| |] eqn:E; [|done..]. cbn [mbind outcome_bind]. apply update_ok in E as [_ ->].
  rewrite Nat.sub_0_r, (Nat.min_r _ _ Hl), (drop_ge (x :: xs)), (take_ge (x :: xs)) by lia. cbn [drop]. destruct f; cbn [process_loop mbind outcome_bind Nat.add]; by rewrite List.app_nil_r.
Qed.

Lemma one_block c input : input <> [] -> (length input <= BLOCK_SIZE)%nat -> cc_offset c = BLOCK_SIZE ->
  process_in_place c input = (c' ← update c; Ret (xor_bytes input (cc_output c'), mkChaCha (cc_state c') (cc_output c') (length input))).
Proof. intros Hn Hl Ho. unfold process_in_place. destruct input as [|x xs]; [done|]. by apply (one_update (length xs)). Qed.

(** Rewriting with these, instead of reducing, keeps the cipher folded. *)
Lemma ret_outcome {A B} (a : A) (f : A -> outcome B) : (Ret a ≫= f) = f a.
Proof. done. Qed.
Lemma bind_outcome_assoc {A B C} (m : outcome A) (f : A -> outcome B) (g : B -> outcome C) : ((m ≫= f) ≫= g) = (m ≫= (fun a => f a ≫= g)).
Proof. by destruct m. Qed.

Lemma expand_nonce key nonce : length key = 32%nat -> length nonce = 16%nat -> exists st, expand key nonce = Ret st /\ w0 (row_d st) = from_le_bytes (take 4 nonce).
Proof.
  intros Hk Hn. unfold expand. rewrite decide_False by lia. rewrite decide_True by done. cbn [mbind outcome_bind]. rewrite decide_False by lia. rewrite decide_True by done. cbn [mbind outcome_bind].
  eexists. split; [reflexivity|]. change (from_le_bytes (take 4 (take 16 nonce)) = from_le_bytes (take 4 nonce)). by rewrite take_take.
Qed.

Lemma update_nonce st out nonce : all_u8 (take 4 nonce) -> length (take 4 nonce) = 4%nat -> w0 (row_d st) = from_le_bytes (take 4 nonce) ->
  update (mkChaCha st out 64) = if counter_exhausted nonce then Panic "counter is exhausted" else Ret (mkChaCha (next_counter st) (block_of st) 0).
Proof.
  intros Hu Hl Ew. pose proof (le_bytes_max (take 4 nonce) Hu Hl) as Hmax. unfold update. cbn [cc_state]. unfold next_counter. cbn [row_d u32x4_add map2 w0]. rewrite Ew. unfold counter_exhausted.
  case_bool_decide as E; [by rewrite (proj2 Hmax E)|]. destruct (Z.eqb_spec (wrapping_add32 (from_le_bytes (take 4 nonce)) 1) 0) as [E0|_]; [by apply Hmax in E0|done].
Qed.

Lemma single_block key nonce : length key = 32%nat -> all_u8 nonce -> length nonce = 16%nat ->
  if counter_exhausted nonce then get_single_block key nonce = Panic "counter is exhausted"
  else exists block, get_single_block key nonce = Ret block /\ length block = 32%nat.
Proof.
  intros Hk Hu Hn. destruct (expand_nonce key nonce Hk Hn) as (st & Est & Ew). assert (Hb : length (block_of st) = 64%nat) by apply length_state_to_buffer.
  assert (E : get_single_block key nonce = (c' ← update (mkChaCha st (replicate BLOCK_SIZE 0) 64); Ret (xor_bytes (replicate 32 0) (cc_output c')))).
  { unfold get_single_block. rewrite Est, ret_outcome, one_block; [|done|rewrite length_replicate; by apply Nat.leb_le|done]. rewrite bind_outcome_assoc. done. }
  rewrite E, (update_nonce st _ nonce); [|by apply Forall_take|rewrite length_take; lia|done]. destruct (counter_exhausted nonce); [done|]. rewrite ret_outcome. cbn [cc_output].
  revert Hb. generalize (block_of st). intros block Hb. eexists. split; [reflexivity|]. rewrite xor_bytes_length; rewrite length_replicate; [done|lia].
Qed.

(** ** Metadata *)

Lemma from_be_bytes_cons b (bs : bytes) : from_be_bytes (b :: bs) = b * 256 ^ Z.of_nat (length bs) + from_be_bytes bs.
Proof.
  unfold from_be_bytes. cbn [rev]. rewrite <- (length_rev bs). generalize (rev bs). clear bs. intros bs. induction bs as [|x bs IH]; [cbn; lia|]. cbn [Datatypes.app from_le_bytes length].
  rewrite IH, pow256_succ. lia.
Qed.

Definition method_of (metadata : bytes) : result Method Z := from_bits (payment_type_bits metadata).

Lemma first_byte (amt : Z) : 0 <= amt < 2 ^ 61 -> exists b rest, to_be_bytes 8 amt = b :: rest /\ 0 <= b < 32 /\ length rest = 7%nat.
Proof.
  intros Ha. pose proof (from_to_be_bytes 8 amt) as E. pose proof (to_be_bytes_u8 8 amt) as Hu. pose proof (length_to_be_bytes 8 amt) as Hl. destruct (to_be_bytes 8 amt) as [|b rest]; [done|]. exists b, rest.
  cbn in Hl. assert (Hlr : length rest = 7%nat) by lia. split_and!; [done| | |done]; apply Forall_cons in Hu as [Hb Hr]; unfold in_width in Hb; [lia|].
  rewrite from_be_bytes_cons in E. pose proof (from_be_bytes_bound rest Hr) as Hbr. rewrite Hlr in Hbr, E. change (256 ^ Z.of_nat 7) with (2 ^ 56) in *. change (256 ^ Z.of_nat 8) with (2 ^ 64) in E. lia.
Qed.

Lemma tagged_byte b ty : 0 <= b < 32 ->
  let x := Z.lor b (wrap 8 (Z.shiftl (method_as_u8 ty) METHOD_TYPE_OFFSET)) in
  from_bits (Z.shiftr (Z.land x 0xE0) METHOD_TYPE_OFFSET) = Ok ty /\ Z.land x 0x1F = b.
Proof.
  intros Hb. set (check := fun n => let b := Z.of_nat n in
      forallb (fun ty => let x := Z.lor b (wrap 8 (Z.shiftl (method_as_u8 ty) METHOD_TYPE_OFFSET)) in
        match from_bits (Z.shiftr (Z.land x 0xE0) METHOD_TYPE_OFFSET) with Ok m => bool_decide (m = ty) | Err _ => false end && (Z.land x 0x1F =? b)) [LdkPaymentHash; UserPaymentHash]).
  assert (Hall : forallb check (seq 0 32) = true) by (vm_compute; reflexivity).
  rewrite forallb_forall in Hall. specialize (Hall (Z.to_nat b) ltac:(apply in_seq; lia)). unfold check in Hall. rewrite Z2Nat.id in Hall by lia. cbv zeta in Hall. rewrite forallb_forall in Hall.
  specialize (Hall ty ltac:(destruct ty; cbn; auto)). apply andb_true_iff in Hall as [Hm Hl]. apply Z.eqb_eq in Hl. cbv zeta. split; [|done].
  destruct (from_bits _); [|done]. by apply bool_decide_eq_true in Hm as ->.
Qed.

(** The metadata carries what it was made from. *)
Lemma metadata_spec min ty delta ts m :
  (forall amt, min = Some amt -> 0 <= amt) -> 0 <= delta -> 0 <= ts -> construct_metadata_bytes min ty delta ts = Ret (Ok m) ->
  length m = METADATA_LEN /\ method_of m = Ok ty /\ min_amt_msat_of m = default 0 min /\ expiry_of m = ts + delta + 7200.
Proof.
  intros Hmin Hd Ht E. unfold construct_metadata_bytes in E. destruct (match min with Some amt => MAX_VALUE_MSAT <? amt | None => false end) eqn:Emax; [done|]. cbv zeta in E.
  set (amt := default 0 min) in *.
  assert (Ea : match min with Some amt => to_be_bytes 8 amt | None => replicate AMT_MSAT_LEN 0 end = to_be_bytes 8 amt) by (unfold amt; by destruct min). rewrite Ea in E.
  assert (Hamt : 0 <= amt < 2 ^ 61).
  { unfold amt. destruct min as [a|]; cbn; [|lia]. specialize (Hmin a eq_refl). apply Z.ltb_ge in Emax. unfold MAX_VALUE_MSAT in Emax. lia. }
  destruct (first_byte amt Hamt) as (b & rest & Eb & Hb & Hl). rewrite Eb in E. cbn [or_first] in E. destruct (tagged_byte b ty Hb) as [Hty Hland]. cbv zeta in Hty, Hland.
  set (x := Z.lor b _) in *.
  unfold add64, checked_op in E. destruct (in_widthb 64 (ts + delta)) eqn:E1; [|done]. cbn [mbind outcome_bind] in E. destruct (in_widthb 64 (ts + delta + 7200)) eqn:E2; [|done]. cbn [mbind outcome_bind] in E.
  assert (Em : m = (x :: rest) ++ to_be_bytes 8 (ts + delta + 7200)) by (by injection E). clear E. subst m.
  apply in_widthb_true in E2. unfold in_width in E2.
  assert (Hexp : from_be_bytes (to_be_bytes 8 (ts + delta + 7200)) = ts + delta + 7200) by (apply from_to_be_bytes; change (256 ^ Z.of_nat 8) with (2 ^ 64); lia).
  assert (Hamtb : from_be_bytes (b :: rest) = amt) by (rewrite <- Eb; apply from_to_be_bytes; change (256 ^ Z.of_nat 8) with (2 ^ 64); lia).
  split_and!.
  - rewrite length_app, length_to_be_bytes. cbn. unfold METADATA_LEN. lia.
  - exact Hty.
  - unfold min_amt_msat_of. rewrite take_app_length' by (cbn; unfold AMT_MSAT_LEN; lia). cbn [and_first]. by rewrite Hland.
  - unfold expiry_of. rewrite drop_app_length' by (cbn; unfold AMT_MSAT_LEN; lia). done.
Qed.

(** ** What is accepted *)

Section Verify.
Context `{NoiseCrypto} `{FixedTimeEq} `{!NoiseLaws} `{!FixedTimeEqLaws}.
Implicit Types (keys : ExpandedKey) (iv metadata secret payment_hash : bytes).

Definition keys_ok keys : Prop := length (metadata_key keys) = METADATA_KEY_LEN.

Lemma expanded_ok material : keys_ok (new_expanded_key material).
Proof. unfold new_expanded_key, hkdf_extract_expand_thrice, hkdf_extract_expand, keys_ok. cbn. apply (proj1 (hmac_array _ _)). Qed.

Lemma exhausted_iv secret : counter_exhausted (take IV_LEN secret) = counter_exhausted secret.
Proof. unfold counter_exhausted. by rewrite take_take. Qed.

(** The secret and the metadata determine each other. *)
Lemma decrypt_cases keys secret : keys_ok keys -> array_ok 32 secret ->
  if counter_exhausted secret then decrypt_metadata secret keys = Panic "counter is exhausted"
  else exists metadata, length metadata = METADATA_LEN /\ decrypt_metadata secret keys = Ret (take IV_LEN secret, metadata) /\
    construct_payment_secret (take IV_LEN secret) metadata (metadata_key keys) = Ret secret.
Proof.
  intros Hk [Hl Hu]. pose proof (single_block (metadata_key keys) (take IV_LEN secret) Hk (Forall_take _ _ _ Hu) ltac:(rewrite length_take; unfold IV_LEN; lia)) as Hb. rewrite exhausted_iv in Hb.
  unfold decrypt_metadata, construct_payment_secret. destruct (counter_exhausted secret); [by rewrite Hb|]. destruct Hb as (block & Eb & Hlb). rewrite Eb, ret_outcome. eexists. split; [|split; [reflexivity|]].
  - rewrite xor_bytes_length; rewrite length_drop; unfold IV_LEN, METADATA_LEN; lia.
  - rewrite ret_outcome, xor_bytes_twice by (rewrite length_drop; unfold IV_LEN; lia). by rewrite take_drop.
Qed.

Lemma construct_decrypt keys iv metadata secret : keys_ok keys -> all_u8 iv -> length iv = IV_LEN -> length metadata = METADATA_LEN ->
  construct_payment_secret iv metadata (metadata_key keys) = Ret secret -> decrypt_metadata secret keys = Ret (iv, metadata) /\ length secret = 32%nat.
Proof.
  intros Hk Hu Hl Hm E. unfold construct_payment_secret in E. pose proof (single_block (metadata_key keys) iv Hk Hu Hl) as Hb. destruct (counter_exhausted iv); [by rewrite Hb in E|]. destruct Hb as (block & Eb & Hlb).
  rewrite Eb, ret_outcome in E. injection E as <-. assert (Hx : length (xor_bytes metadata block) = METADATA_LEN) by (rewrite xor_bytes_length; [done|unfold METADATA_LEN in Hm; lia]).
  unfold decrypt_metadata. rewrite take_app_length', drop_app_length' by done. rewrite Eb, ret_outcome, xor_bytes_twice by (unfold METADATA_LEN in Hm; lia). split; [done|]. rewrite length_app, Hl, Hx. done.
Qed.

(** The check of the HMAC. *)
Definition authentic keys payment_hash iv metadata (preimage : option bytes) : Prop :=
  match method_of metadata with
  | Ok LdkPaymentHash => preimage = Some (hmac_sha256 (ldk_pmt_hash_key keys) (iv ++ metadata)) /\ sha256 (hmac_sha256 (ldk_pmt_hash_key keys) (iv ++ metadata)) = payment_hash
  | Ok UserPaymentHash => preimage = None /\ iv = take IV_LEN (hmac_sha256 (user_pmt_hash_key keys) (metadata ++ payment_hash))
  | Err _ => False
  end.

Lemma verify_decrypted keys payment_hash secret total now iv metadata :
  length payment_hash = 32%nat -> length iv = IV_LEN -> decrypt_metadata secret keys = Ret (iv, metadata) ->
  exists r, verify payment_hash (FinalOnionHopData.mk secret total) now keys = Ret r /\
    forall preimage, r = Ok preimage <-> authentic keys payment_hash iv metadata preimage /\ min_amt_msat_of metadata <= total /\ now <= expiry_of metadata.
Proof.
  intros Hh Hiv E. unfold verify. cbn [FinalOnionHopData.payment_secret FinalOnionHopData.total_msat]. rewrite E, ret_outcome. cbv zeta. fold (method_of metadata). unfold authentic.
  assert (Hend : forall (c : result (option bytes) unit), exists r, (match c with Err e => Ret (Err e) | Ok p => if total <? min_amt_msat_of metadata then Ret (Err tt) else if expiry_of metadata <? now then Ret (Err tt) else Ret (Ok p) end) = Ret r /\
    forall p, r = Ok p <-> c = Ok p /\ min_amt_msat_of metadata <= total /\ now <= expiry_of metadata).
  { intros [c|[]]; [|eexists; split; [done|]; naive_solver]. destruct (Z.ltb_spec total (min_amt_msat_of metadata)); [eexists; split; [done|]; intros p; split; [done|lia]|].
    destruct (Z.ltb_spec (expiry_of metadata) now); eexists; (split; [done|]); intros p; [split; [done|lia]|]. split; [intros [= <-]; split_and!; [done|lia|lia]|by intros [[= <-] _]]. }
  destruct (method_of metadata) as [[|]|bits].
  - unfold derive_ldk_payment_preimage. cbv zeta. rewrite fixed_time_eq_spec by (rewrite Hh; symmetry; apply (proj1 (sha256_array _))). rewrite !ret_outcome. case_bool_decide as Eq; rewrite ?ret_outcome.
    + destruct (Hend (Ok (Some (hmac_sha256 (ldk_pmt_hash_key keys) (iv ++ metadata))))) as (r & Er & Hr). exists r. split; [exact Er|]. intros p. rewrite Hr. naive_solver.
    + destruct (Hend (Err tt)) as (r & Er & Hr). exists r. split; [exact Er|]. intros p. rewrite Hr. naive_solver.
  - rewrite fixed_time_eq_spec by (rewrite Hiv, length_take, (proj1 (hmac_array _ _)); done). rewrite !ret_outcome. case_bool_decide as Eq.
    + destruct (Hend (Ok None)) as (r & Er & Hr). exists r. split; [exact Er|]. intros p. rewrite Hr. naive_solver.
    + destruct (Hend (Err tt)) as (r & Er & Hr). exists r. split; [exact Er|]. intros p. rewrite Hr. naive_solver.
  - rewrite ret_outcome. destruct (Hend (Err tt)) as (r & Er & Hr). exists r. split; [exact Er|]. intros p. rewrite Hr. naive_solver.
Qed.

(** C20: every secret has an answer: a counter that is used up panics, and otherwise the payment is
    accepted exactly when the metadata in the secret is authentic for the payment hash, the total
    reaches the amount and the time is not past the expiry. *)
Theorem verify_exact keys payment_hash secret total now :
  keys_ok keys -> length payment_hash = 32%nat -> array_ok 32 secret ->
  if counter_exhausted secret then verify payment_hash (FinalOnionHopData.mk secret total) now keys = Panic "counter is exhausted"
  else exists metadata r,
    construct_payment_secret (take IV_LEN secret) metadata (metadata_key keys) = Ret secret /\
    verify payment_hash (FinalOnionHopData.mk secret total) now keys = Ret r /\
    forall preimage, r = Ok preimage <-> authentic keys payment_hash (take IV_LEN secret) metadata preimage /\ min_amt_msat_of metadata <= total /\ now <= expiry_of metadata.
Proof.
  intros Hk Hh Hs. pose proof (decrypt_cases keys secret Hk Hs) as Hd. destruct (counter_exhausted secret).
  - unfold verify. cbn [FinalOnionHopData.payment_secret]. by rewrite Hd.
  - destruct Hd as (metadata & Hm & Ed & Ec). destruct (verify_decrypted keys payment_hash secret total now (take IV_LEN secret) metadata Hh ltac:(rewrite length_take, (proj1 Hs); reflexivity) Ed) as (r & Er & Hr). by exists metadata, r.
Qed.

(** The answer on a secret whose metadata is known to be authentic. *)
Lemma verify_issued keys payment_hash secret iv metadata preimage total now :
  length payment_hash = 32%nat -> length iv = IV_LEN -> decrypt_metadata secret keys = Ret (iv, metadata) -> authentic keys payment_hash iv metadata preimage ->
  verify payment_hash (FinalOnionHopData.mk secret total) now keys = Ret (if (min_amt_msat_of metadata <=? total) && (now <=? expiry_of metadata) then Ok preimage else Err tt).
Proof.
  intros Hh Hiv Ed Ha. destruct (verify_decrypted keys payment_hash secret total now iv metadata Hh Hiv Ed) as (r & Er & Hr). rewrite Er. f_equal.
  destruct (Z.leb_spec (min_amt_msat_of metadata) total), (Z.leb_spec now (expiry_of metadata)); cbn [andb]; [by apply Hr|..]; (destruct r as [p|[]]; [|done]); destruct (proj1 (Hr p) eq_refl) as (_ & ? & ?); lia.
Qed.

(** Amounts and times in range. *)
Definition request_ok (min_value_msat : option Z) (delta now : Z) : Prop :=
  (forall amt, min_value_msat = Some amt -> 0 <= amt <= MAX_VALUE_MSAT) /\ 0 <= delta /\ 0 <= now /\ now + delta + 7200 < 2 ^ 64.

Lemma metadata_made min ty delta now : request_ok min delta now ->
  exists m, construct_metadata_bytes min ty delta now = Ret (Ok m) /\ length m = METADATA_LEN /\ method_of m = Ok ty /\ min_amt_msat_of m = default 0 min /\ expiry_of m = now + delta + 7200.
Proof.
  intros (Hm & Hd & Hn & Hr). assert (E : exists m, construct_metadata_bytes min ty delta now = Ret (Ok m)).
  { unfold construct_metadata_bytes. assert (Emax : match min with Some amt => MAX_VALUE_MSAT <? amt | None => false end = false) by (destruct min as [a|]; [apply Z.ltb_ge, Hm|]; done). rewrite Emax.
    unfold add64, checked_op. assert (E1 : in_widthb 64 (now + delta) = true) by (apply in_widthb_true; unfold in_width; lia). assert (E2 : in_widthb 64 (now + delta + 7200) = true) by (apply in_widthb_true; unfold in_width; lia).
    cbv zeta. rewrite E1, ret_outcome, E2, ret_outcome. by eexists. }
  destruct E as [m E]. exists m. split; [done|]. apply (metadata_spec min ty delta now m); [|done..]. intros amt ->. by apply Hm.
Qed.

Lemma secret_made keys iv metadata : keys_ok keys -> array_ok IV_LEN iv -> length metadata = METADATA_LEN -> counter_exhausted iv = false ->
  exists secret, construct_payment_secret iv metadata (metadata_key keys) = Ret secret /\ decrypt_metadata secret keys = Ret (iv, metadata).
Proof.
  intros Hk [Hl Hu] Hm Hc. pose proof (single_block (metadata_key keys) iv Hk Hu Hl) as Hb. rewrite Hc in Hb. destruct Hb as (block & Eb & Hlb).
  assert (E : construct_payment_secret iv metadata (metadata_key keys) = Ret (iv ++ xor_bytes metadata block)) by (unfold construct_payment_secret; by rewrite Eb, ret_outcome).
  eexists. split; [exact E|]. by apply (construct_decrypt keys iv metadata _ Hk Hu Hl Hm E).
Qed.

Lemma take_array n m (bs : bytes) : (n <= m)%nat -> array_ok m bs -> array_ok n (take n bs).
Proof. intros Hn [Hl Hu]. split; [rewrite length_take; lia|by apply Forall_take]. Qed.

(** C19: an invoice of the node is honoured: what [create] hands out is the hash of a preimage the
    node can find again from the secret alone, and the payment is accepted, with that preimage,
    exactly from the amount on and until two hours after the expiry. *)
Theorem invoice_honoured keys min delta rand now :
  keys_ok keys -> request_ok min delta now -> array_ok 32 rand -> counter_exhausted rand = false ->
  exists preimage secret, create keys min delta rand now = Ret (Ok (sha256 preimage, secret)) /\
    get_payment_preimage (sha256 preimage) secret keys = Ret (Ok preimage) /\
    forall total t, verify (sha256 preimage) (FinalOnionHopData.mk secret total) t keys =
      Ret (if (default 0 min <=? total) && (t <=? now + delta + 7200) then Ok (Some preimage) else Err tt).
Proof.
  intros Hk Hq Hr Hc. destruct (metadata_made min LdkPaymentHash delta now Hq) as (m & Em & Hlm & Hty & Hamt & Hexp). assert (Hiv : array_ok IV_LEN (take IV_LEN rand)) by (apply (take_array _ 32); [by apply Nat.leb_le|done]).
  destruct (secret_made keys (take IV_LEN rand) m Hk Hiv Hlm ltac:(by rewrite exhausted_iv)) as (secret & Es & Ed).
  exists (hmac_sha256 (ldk_pmt_hash_key keys) (take IV_LEN rand ++ m)), secret. split_and!.
  - unfold create. rewrite Em, ret_outcome. cbv zeta. by rewrite Es, ret_outcome.
  - unfold get_payment_preimage. rewrite Ed, ret_outcome. fold (method_of m). rewrite Hty. unfold derive_ldk_payment_preimage. cbv zeta. rewrite fixed_time_eq_spec by done. rewrite !ret_outcome. by rewrite bool_decide_true.
  - intros total t. rewrite (verify_issued keys _ secret (take IV_LEN rand) m (Some (hmac_sha256 (ldk_pmt_hash_key keys) (take IV_LEN rand ++ m)))); [by rewrite Hamt, Hexp|apply sha256_array|apply Hiv|done|]. unfold authentic. by rewrite Hty.
Qed.

(** The same for a hash of the user, whose preimage the node does not know. *)
Theorem hash_honoured keys min delta payment_hash now m :
  keys_ok keys -> request_ok min delta now -> length payment_hash = 32%nat ->
  construct_metadata_bytes min UserPaymentHash delta now = Ret (Ok m) -> counter_exhausted (hmac_sha256 (user_pmt_hash_key keys) (m ++ payment_hash)) = false ->
  exists secret, create_from_hash keys min payment_hash delta now = Ret (Ok secret) /\
    get_payment_preimage payment_hash secret keys = Ret (Err ExpectedLdkPaymentHash) /\
    forall total t, verify payment_hash (FinalOnionHopData.mk secret total) t keys =
      Ret (if (default 0 min <=? total) && (t <=? now + delta + 7200) then Ok None else Err tt).
Proof.
  intros Hk Hq Hh Em Hc. destruct (metadata_made min UserPaymentHash delta now Hq) as (m' & Em' & Hlm & Hty & Hamt & Hexp). assert (m' = m) as -> by congruence.
  set (mac := hmac_sha256 (user_pmt_hash_key keys) (m ++ payment_hash)) in *. assert (Hiv : array_ok IV_LEN (take IV_LEN mac)) by (apply (take_array _ 32); [by apply Nat.leb_le|apply hmac_array]).
  destruct (secret_made keys (take IV_LEN mac) m Hk Hiv Hlm ltac:(by rewrite exhausted_iv)) as (secret & Es & Ed). exists secret. split_and!.
  - unfold create_from_hash. rewrite Em, ret_outcome. cbv zeta. fold mac. by rewrite Es, ret_outcome.
  - unfold get_payment_preimage. rewrite Ed, ret_outcome. fold (method_of m). by rewrite Hty.
  - intros total t. rewrite (verify_issued keys _ secret (take IV_LEN mac) m None); [by rewrite Hamt, Hexp|done|apply Hiv|done|]. unfold authentic. by rewrite Hty.
Qed.
End Verify.

(** * Invoices on which the theorems about received payments are applied *)

#[local] Existing Instance toy_secp.
#[local] Existing Instance toy_noise.
#[local] Existing Instance toy_noise_laws.
#[local] Existing Instance toy_eq.
#[local] Existing Instance toy_eq_laws.

Definition toy_inbound : ExpandedKey := new_expanded_key (replicate 32 5).
Definition toy_rand : bytes := replicate 32 4.
Definition toy_hash : bytes := replicate 32 6.

Lemma toy_inbound_ok : keys_ok toy_inbound.
Proof. apply expanded_ok. Defined.

Lemma toy_request : request_ok (Some 1000) 3600 1650000000.
Proof. split_and!; [intros amt [= <-]; unfold MAX_VALUE_MSAT; lia|lia..]. Defined.

(** 1000 msat within an hour. *)
Lemma invoice_honoured_witness :
  exists preimage secret, create toy_inbound (Some 1000) 3600 toy_rand 1650000000 = Ret (Ok (sha256 preimage, secret)) /\
    get_payment_preimage (sha256 preimage) secret toy_inbound = Ret (Ok preimage) /\
    forall total t, verify (sha256 preimage) (FinalOnionHopData.mk secret total) t toy_inbound =
      Ret (if (1000 <=? total) && (t <=? 1650000000 + 3600 + 7200) then Ok (Some preimage) else Err tt).
Proof. apply (invoice_honoured toy_inbound (Some 1000) 3600 toy_rand 1650000000 toy_inbound_ok toy_request); [split; [done|apply Forall_replicate; by vm_compute]|by vm_compute]. Defined.

Lemma hash_honoured_witness :
  exists secret, create_from_hash toy_inbound (Some 1000) toy_hash 3600 1650000000 = Ret (Ok secret) /\
    get_payment_preimage toy_hash secret toy_inbound = Ret (Err ExpectedLdkPaymentHash) /\
    forall total t, verify toy_hash (FinalOnionHopData.mk secret total) t toy_inbound =
      Ret (if (1000 <=? total) && (t <=? 1650000000 + 3600 + 7200) then Ok None else Err tt).
Proof. eapply (hash_honoured toy_inbound (Some 1000) 3600 toy_hash 1650000000 _ toy_inbound_ok toy_request); [done|vm_compute; reflexivity|by vm_compute]. Defined.

(** A secret that starts with four bytes 255, which the sender of a payment is free to choose, stops
    the receiver. *)
Lemma verify_exact_witness :
  verify toy_hash (FinalOnionHopData.mk (replicate 32 255) 1000) 1650000000 toy_inbound = Panic "counter is exhausted".
Proof. apply (verify_exact toy_inbound toy_hash (replicate 32 255) 1000 1650000000 toy_inbound_ok); [done|split; [done|apply Forall_replicate; by vm_compute]]. Defined.

(** A secret of nobody's is refused. *)
Example stranger_refused : verify toy_hash (FinalOnionHopData.mk (replicate 32 1) 1000) 1650000000 toy_inbound = Ret (Err tt).
Proof. vm_compute. reflexivity. Qed.
