(* ===== verification/Onion.v ===== *)
(** * Onion routing: rust-lightning/lightning/src/ln/onion_utils.rs

    The keys of a route, the payloads of its hops, the construction of the packet from the
    last hop to the first, and the decoding of one layer by a hop.  The packet has a fixed
    length; a layer's authenticator covers the padding that a forwarding hop will append, so
    the sender computes that padding (the filler) in advance. *)

From S2P Require Import Prelude Text HexUtils Bytes ChaCha20 Poly1305 Poly1305Spec Stream Ser SerLaws Aead Tlv Features Msgs OnionHop Noise ChannelMsgs.

Local Open Scope Z_scope.

(** ** Parameters: multiplication of keys by a scalar *)

Class OnionCrypto `{NoiseCrypto} := {
  sk_mul : SecretKey -> bytes -> option SecretKey;
  pk_mul : PublicKey -> bytes -> option PublicKey;
}.

(** Multiplying the secret key multiplies its public key; shared secrets have 32 bytes. *)
Class OnionLaws `{OnionCrypto} := {
  mul_public s b s' : sk_mul s b = Some s' -> pk_mul (from_secret_key s) b = Some (from_secret_key s');
  ecdh_array p s : array_ok 32 (ecdh p s);
}.

(** ** [ChaChaReader] of chacha20.rs *)

Fixpoint in_chacha {A} (c : ChaCha20.ChaCha20) (m : rd A) : rd (A * ChaCha20.ChaCha20) :=
  match m with
  | RRet (Ret (Ok a)) => rok (a, c)
  | RRet (Ret (Err e)) => rerr e
  | RRet (Panic w) => RRet (Panic w)
  | RRet OutOfFuel => RRet OutOfFuel
  | RRead n k =>
      RRead n (fun r =>
        match r with
        | Ok (b :: bs) =>
            match ChaCha20.process_in_place c (b :: bs) with
            | Ret (dest, c') => in_chacha c' (k (Ok dest))
            | Panic w => RRet (Panic w)
            | OutOfFuel => RRet OutOfFuel
            end
        | r => in_chacha c (k r)
        end)
  | RFuel k => RFuel (fun f => in_chacha c (k f))
  end.

(** ** Keys *)

Record RouteHop `{Secp} := mkRouteHop {
  pubkey : PublicKey; node_features : bytes; short_channel_id : Z; channel_features : bytes;
  fee_msat : Z; cltv_expiry_delta : Z;
}.

Record OnionKeys `{Secp} := mkOnionKeys { ephemeral_pubkey : PublicKey; rho : bytes; mu : bytes }.

Section Onion.
Context `{OnionCrypto} `{FixedTimeEq}.

Definition assert_32 (shared_secret : bytes) : outcome unit :=
  if (length shared_secret =? 32)%nat then Ret tt else Panic "assertion failed: shared_secret.len() == 32".

Definition gen_rho_mu_from_shared_secret (shared_secret : bytes) : outcome (bytes * bytes) :=
  _ ← assert_32 shared_secret;
  Ret (hmac_sha256 [0x72; 0x68; 0x6f] shared_secret, hmac_sha256 [0x6d; 0x75] shared_secret).
Definition gen_um_from_shared_secret (shared_secret : bytes) : outcome bytes :=
  _ ← assert_32 shared_secret; Ret (hmac_sha256 [0x75; 0x6d] shared_secret).
Definition gen_ammag_from_shared_secret (shared_secret : bytes) : outcome bytes :=
  _ ← assert_32 shared_secret; Ret (hmac_sha256 [0x61; 0x6d; 0x6d; 0x61; 0x67] shared_secret).

Definition next_hop_packet_pubkey (packet_pubkey : PublicKey) (packet_shared_secret : bytes) : option PublicKey :=
  let blinding_factor := sha256 (pk_serialize packet_pubkey ++ packet_shared_secret) in
  pk_mul packet_pubkey blinding_factor.

(** What the callback is given for each hop. *)
Record hop_secret := mkHopSecret {
  hs_shared_secret : bytes; hs_blinding_factor : bytes; hs_ephemeral_pubkey : PublicKey; hs_hop : RouteHop }.

Fixpoint construct_onion_keys_callback (path : list RouteHop) (blinded_priv : SecretKey) : option (list hop_secret) :=
  match path with
  | [] => Some []
  | hop :: path' =>
      let blinded_pub := from_secret_key blinded_priv in
      let shared_secret := ecdh (pubkey hop) blinded_priv in
      let blinding_factor := sha256 (pk_serialize blinded_pub ++ shared_secret) in
      blinded_priv' ← sk_mul blinded_priv blinding_factor;
      rest ← construct_onion_keys_callback path' blinded_priv';
      Some (mkHopSecret shared_secret blinding_factor blinded_pub hop :: rest)
  end.

Fixpoint onion_keys_of (secrets : list hop_secret) : outcome (list OnionKeys) :=
  match secrets with
  | [] => Ret []
  | s :: secrets' =>
      '(rho, mu) ← gen_rho_mu_from_shared_secret (hs_shared_secret s);
      rest ← onion_keys_of secrets';
      Ret (mkOnionKeys _ (hs_ephemeral_pubkey s) rho mu :: rest)
  end.

Definition construct_onion_keys (path : list RouteHop) (session_priv : SecretKey) : outcome (option (list OnionKeys)) :=
  match construct_onion_keys_callback path session_priv with
  | None => Ret None
  | Some secrets => keys ← onion_keys_of secrets; Ret (Some keys)
  end.

(** ** Payloads *)

Definition supports_variable_length_onion (features : bytes) : bool := supports_feature VariableLengthOnion features.

(** The loop from the last hop to the first: the payloads so far, the value, the expiry and
    the channel of the hop after. *)
Fixpoint payloads_loop (rpath : list RouteHop) (idx : nat) (total_msat : Z) (payment_secret_option : option bytes)
    (starting_htlc_offset : Z) (keysend_preimage : option bytes) (cur_value_msat cur_cltv last_short_channel_id : Z)
    (res : list OnionHopData.t) : outcome (result (list OnionHopData.t * Z * Z) string) :=
  match rpath with
  | [] => Ret (Ok (res, cur_value_msat, cur_cltv))
  | hop :: rpath' =>
      let value_msat := if cur_value_msat =? 0 then fee_msat hop else cur_value_msat in
      cltv ← (if cur_cltv =? starting_htlc_offset then add32 (cltv_expiry_delta hop) starting_htlc_offset else Ret cur_cltv);
      let format :=
        if supports_variable_length_onion (node_features hop) then
          if (idx =? 0)%nat then
            OnionHopData.FinalNode
              ((fun s => FinalOnionHopData.mk s total_msat) <$> payment_secret_option) keysend_preimage
          else OnionHopData.NonFinalNode last_short_channel_id
        else OnionHopData.Legacy last_short_channel_id in
      let res := OnionHopData.mk format value_msat cltv :: res in
      cur_value_msat ← add64 cur_value_msat (fee_msat hop);
      if 21000000 * 100000000 * 1000 <=? cur_value_msat then Ret (Err "Channel fees overflowed?")
      else
        cur_cltv ← add32 cur_cltv (cltv_expiry_delta hop);
        if 500000000 <=? cur_cltv then Ret (Err "Channel CLTV overflowed?")
        else payloads_loop rpath' (S idx) total_msat payment_secret_option starting_htlc_offset keysend_preimage
               cur_value_msat cur_cltv (short_channel_id hop) res
  end.

(** An error is the text of an [APIError::RouteError]. *)
Definition build_onion_payloads (path : list RouteHop) (total_msat : Z) (payment_secret_option : option bytes)
    (starting_htlc_offset : Z) (keysend_preimage : option bytes) : outcome (result (list OnionHopData.t * Z * Z) string) :=
  payloads_loop (rev path) 0 total_msat payment_secret_option starting_htlc_offset keysend_preimage
    0 starting_htlc_offset 0 [].

(** ** The packet *)

Definition ONION_DATA_LEN : nat := 20 * 65.

Definition shift_arr_right (arr : bytes) (amt : nat) : outcome bytes :=
  if (ONION_DATA_LEN <? amt)%nat then Panic "index out of bounds"
  else Ret (replicate amt 0 ++ take (ONION_DATA_LEN - amt) arr).

Definition payload_len {HD} (c : Codec HD) (payload : HD) : nat := Z.to_nat (serialized_length c payload).

Fixpoint size_loop {HD} (c : Codec HD) (payloads : list HD) (len : nat) : outcome bool :=
  match payloads with
  | [] => Ret false
  | payload :: payloads' =>
      if negb (payload_len c payload + 32 <? ONION_DATA_LEN)%nat then Panic "assertion failed: payload_len.0 + 32 < ONION_DATA_LEN"
      else
        let len := (len + (payload_len c payload + 32))%nat in
        if (ONION_DATA_LEN <? len)%nat then Ret true else size_loop c payloads' len
  end.
Definition route_size_insane (payloads : list OnionHopData.t) : outcome bool := size_loop OnionHopData.codec payloads 0.

(** [ChaCha20::new(key, &[0u8; 8])]. *)
Definition zero_nonce : bytes := replicate 8 0.

(** The key stream is advanced byte by byte. *)
Fixpoint skip_bytes (n : nat) (chacha : ChaCha20.ChaCha20) : outcome ChaCha20.ChaCha20 :=
  match n with
  | O => Ret chacha
  | S n' => '(_, chacha) ← ChaCha20.process_in_place chacha [0]; skip_bytes n' chacha
  end.

(** The loop of the filler; [last] is [payloads.len() - 1]. *)
Fixpoint filler_loop {HD} (c : Codec HD) (hops : list (HD * OnionKeys)) (i last pos : nat) (res : bytes) : outcome bytes :=
  match hops with
  | [] => Ret res
  | (payload, keys) :: hops' =>
      if (i =? last)%nat then Ret res
      else
        chacha ← ChaCha20.new (rho keys) zero_nonce;
        chacha ← skip_bytes (ONION_DATA_LEN - pos) chacha;
        let pos := (pos + (payload_len c payload + 32))%nat in
        if (ONION_DATA_LEN <? pos)%nat then Panic "assertion failed: pos <= ONION_DATA_LEN"
        else
          '(res, _) ← ChaCha20.process_in_place chacha (resize pos res);
          filler_loop c hops' (S i) last pos res
  end.

(** [packet_data[off..off + src.len()].copy_from_slice(src)]. *)
Definition copy_at (off : nat) (src arr : bytes) : bytes := take off arr ++ src ++ drop (off + length src) arr.

(** The loop of the layers, [hops] from the last to the first. *)
Fixpoint layers_loop {HD} (c : Codec HD) (rhops : list (HD * OnionKeys)) (i : nat) (filler associated_data : bytes)
    (packet_data hmac_res : bytes) : outcome (bytes * bytes) :=
  match rhops with
  | [] => Ret (packet_data, hmac_res)
  | (payload, keys) :: rhops' =>
      let len := payload_len c payload in
      packet_data ← shift_arr_right packet_data (len + 32);
      let packet_data := copy_at len hmac_res (copy_at 0 (encode c payload) packet_data) in
      chacha ← ChaCha20.new (rho keys) zero_nonce;
      '(packet_data, _) ← ChaCha20.process_in_place chacha packet_data;
      let packet_data := if (i =? 0)%nat then copy_at (ONION_DATA_LEN - length filler) filler packet_data else packet_data in
      let hmac_res := hmac_sha256 (mu keys) (packet_data ++ associated_data) in
      layers_loop c rhops' (S i) filler associated_data packet_data hmac_res
  end.

Definition construct_onion_packet_with_init_noise {HD} (c : Codec HD) (payloads : list HD) (onion_keys : list OnionKeys)
    (packet_data associated_data : bytes) : outcome OnionPacket.t :=
  if (length payloads =? 0)%nat then Panic "attempt to subtract with overflow"
  else
    filler ← filler_loop c (zip payloads onion_keys) 0 (length payloads - 1) 0 [];
    '(packet_data, hmac_res) ← layers_loop c (rev (zip payloads onion_keys)) 0 filler associated_data packet_data (replicate 32 0);
    first ← unwrap (head onion_keys);
    Ret (OnionPacket.mk _ 0 (Some (ephemeral_pubkey first)) packet_data hmac_res).

Definition construct_onion_packet (payloads : list OnionHopData.t) (onion_keys : list OnionKeys)
    (prng_seed associated_data : bytes) : outcome OnionPacket.t :=
  chacha ← ChaCha20.new prng_seed zero_nonce;
  '(packet_data, _) ← ChaCha20.process chacha (replicate ONION_DATA_LEN 0) ONION_DATA_LEN;
  construct_onion_packet_with_init_noise OnionHopData.codec payloads onion_keys packet_data associated_data.

(** ** Decoding one layer *)

Inductive Hop :=
| Receive (msg : OnionHopData.t)
| Forward (next_hop_data : OnionHopData.t) (next_hop_hmac new_packet_bytes : bytes).

Inductive OnionDecodeErr :=
| Malformed (err_msg : string) (err_code : Z)
| Relay (err_msg : string) (err_code : Z).

Definition decode_error_code (err : DecodeError) : Z :=
  match err with
  | UnknownVersion => Z.lor 0x4000 1
  | UnknownRequiredFeature | InvalidValue | ShortRead => Z.lor 0x4000 22
  | _ => Z.lor 0x2000 2
  end.

Definition decode_next_hop (shared_secret hop_data hmac_bytes payment_hash : bytes) : outcome (result Hop OnionDecodeErr) :=
  '(rho, mu) ← gen_rho_mu_from_shared_secret shared_secret;
  eq ← fixed_time_eq (hmac_sha256 mu (hop_data ++ payment_hash)) hmac_bytes;
  if negb (eq : bool) then Ret (Err (Malformed "HMAC Check failed" (Z.lor (Z.lor 0x8000 0x4000) 5)))
  else
    chacha ← ChaCha20.new rho zero_nonce;
    match run (in_chacha chacha OnionHopData.read) hop_data with
    | (Ret (Err err), _) => Ret (Err (Relay "Unable to decode our hop data" (decode_error_code err)))
    | (Ret (Ok (msg, chacha)), stream) =>
        match run (in_chacha chacha (read_exact 32)) stream with
        | (Ret (Err _), _) => Ret (Err (Relay "Unable to decode our hop data" (Z.lor 0x4000 22)))
        | (Ret (Ok (hmac, chacha)), stream) =>
            if bool_decide (hmac = replicate 32 0) then Ret (Ok (Receive msg))
            else
              '(bytes, chacha) ← ChaCha20.process_in_place chacha (take ONION_DATA_LEN stream);
              if (ONION_DATA_LEN <? length stream)%nat then Panic "assertion failed: chacha_stream.read(&mut t).unwrap() == 0"
              else
                '(pad, _) ← ChaCha20.process_in_place chacha (replicate (ONION_DATA_LEN - length bytes) 0);
                Ret (Ok (Forward msg hmac (bytes ++ pad)))
        | (Panic w, _) => Panic w
        | (OutOfFuel, _) => OutOfFuel
        end
    | (Panic w, _) => Panic w
    | (OutOfFuel, _) => OutOfFuel
    end.
End Onion.
