(* ===== verification/OnionSpec.v ===== *)
(** * Every hop of a route peels its layer

    The key stream as bytes, the packet as a pure function of the payloads and the keys, the
    identity on the filler that makes the layers fit together, and the theorem that a packet
    built for a route is decoded hop by hop to the payloads it was built from. *)

From S2P Require Import Prelude Text HexUtils Bytes ChaCha20 Poly1305 Poly1305Spec Stream Ser SerLaws Aead Tlv Features Msgs Noise OnionHop ChannelMsgs Onion.

Local Open Scope Z_scope.

(** ** The key stream *)

Lemma bytewise_xor c xs ys c' :
  bytewise c xs = Ret (ys, c') ->
  exists k, bytewise c (replicate (length xs) 0) = Ret (k, c') /\ ys = xor_bytes xs k.
Proof.
  revert c ys. induction xs as [|x xs IH]; intros c ys E; cbn in E; [simplify_eq; by exists []|].
  unfold step_byte in E.
  destruct (if decide (cc_offset c = BLOCK_SIZE) then update c else Ret c) as [c1| |] eqn:E1; cbn in E; [|done..].
  destruct (bytewise _ xs) as [[zs c2]| |] eqn:E2; cbn in E; [|done..]. injection E as <- <-.
  destruct (IH _ _ E2) as (k & Ek & ->). cbn [length replicate bytewise]. unfold step_byte. rewrite E1.
  cbn [mbind outcome_bind]. rewrite Ek. eexists. split; [done|]. cbn. by rewrite Z.lxor_0_l.
Qed.

Lemma xor_bytes_app a b c d :
  length a = length c -> xor_bytes (a ++ b) (c ++ d) = xor_bytes a c ++ xor_bytes b d.
Proof. revert c. induction a as [|x a IH]; intros [|y c] Hl; cbn in *; try done. by rewrite IH by lia. Qed.

Lemma xor_bytes_drop n a b : xor_bytes (drop n a) (drop n b) = drop n (xor_bytes a b).
Proof.
  revert a b. induction n as [|n IH]; intros [|x a] [|y b]; cbn; try done; try (by destruct (drop n a)); apply IH.
Qed.

Lemma xor_bytes_take n a b : xor_bytes (take n a) (take n b) = take n (xor_bytes a b).
Proof. revert a b. induction n as [|n IH]; intros [|x a] [|y b]; cbn; try done. by rewrite IH. Qed.

Lemma xor_bytes_zeros k : xor_bytes (replicate (length k) 0) k = k.
Proof. induction k as [|x k IH]; [done|]. cbn [length replicate xor_bytes]. by rewrite IH, Z.lxor_0_l. Qed.

(** Enough for a packet and the padding of one hop. *)
Definition KS_MAX : nat := 2 * ONION_DATA_LEN.

Definition ks (key : bytes) (n : nat) : bytes :=
  match ChaCha20.new key zero_nonce with
  | Ret c => match bytewise c (replicate n 0) with Ret (k, _) => k | _ => [] end
  | _ => []
  end.

(** The cipher after [n] bytes of the stream of [key]. *)
Definition at_pos (key : bytes) (n : nat) (c : ChaCha20.ChaCha20) : Prop :=
  exists c0, ChaCha20.new key zero_nonce = Ret c0 /\ cipher_ok c0 /\ available c0 = 64 * (2 ^ 32 - 1) /\
    bytewise c0 (replicate n 0) = Ret (ks key n, c).

Lemma at_pos_new key : length key = 32%nat -> exists c, ChaCha20.new key zero_nonce = Ret c /\ at_pos key 0 c.
Proof.
  intros Hk. destruct (fresh_cipher key zero_nonce Hk eq_refl) as (c & Ec & Hok & Hav).
  exists c. split; [done|]. exists c. split_and!; [done|apply Hok..|done|]. unfold ks. by rewrite Ec.
Qed.

Lemma at_pos_process key m c x :
  at_pos key m c -> (m + length x <= KS_MAX)%nat ->
  exists c', bytewise c x = Ret (xor_bytes x (drop m (ks key (m + length x))), c') /\
    process_in_place c x = Ret (xor_bytes x (drop m (ks key (m + length x))), c') /\
    at_pos key (m + length x) c' /\ take m (ks key (m + length x)) = ks key m /\ length (ks key m) = m.
Proof.
  intros (c0 & E0 & Hok & Hav & Eb) Hl. unfold KS_MAX, ONION_DATA_LEN in Hl.
  destruct (bytewise_ok _ _ _ _ Hok Eb) as [Hokc _].
  pose proof (bytewise_available _ _ _ _ Hok Eb) as Ha. rewrite length_replicate in Ha.
  pose proof Hokc as (Hb & Hw & _).
  destruct (bytewise_total c x Hb Hw) as (y & c' & Ey); [lia|].
  destruct (bytewise_xor _ _ _ _ Ey) as (k & Ek & ->).
  assert (Lm : length (ks key m) = m) by (apply length_bytewise in Eb; by rewrite length_replicate in Eb).
  assert (Ekk : ks key (m + length x) = ks key m ++ k /\ bytewise c0 (replicate (m + length x) 0) = Ret (ks key m ++ k, c')).
  { assert (E : bytewise c0 (replicate (m + length x) 0) = Ret (ks key m ++ k, c')).
    { rewrite replicate_add, bytewise_app, Eb. cbn. by rewrite Ek. }
    split; [|done]. unfold ks at 1. by rewrite E0, E. }
  destruct Ekk as [Ekk E2]. exists c'. rewrite Ekk, drop_app_length' by done.
  split; [done|]. split; [|split_and!; [|by rewrite take_app_length' by done|done]].
  - unfold process_in_place. rewrite process_loop_bytewise by (done || lia). done.
  - exists c0. rewrite Ekk. split_and!; [done|apply Hok..|done|done].
Qed.

Lemma at_pos_skip key n : forall m c,
  at_pos key m c -> (m + n <= KS_MAX)%nat -> exists c', skip_bytes n c = Ret c' /\ at_pos key (m + n) c'.
Proof.
  induction n as [|n IH]; intros m c Hc Hl; cbn [skip_bytes]; [exists c; by rewrite Nat.add_0_r|].
  destruct (at_pos_process key m c [0] Hc) as (c1 & _ & E & Hc1 & _); [cbn [length]; lia|].
  rewrite E. cbn [mbind outcome_bind]. cbn [length] in Hc1.
  destruct (IH _ _ Hc1) as (c' & E' & Hc'); [lia|]. exists c'. split; [done|].
  by replace (m + S n)%nat with (m + 1 + n)%nat by lia.
Qed.

Section Stream.
Context (key : bytes) (Hkey : length key = 32%nat).

Lemma ks_facts m n : (m <= n)%nat -> (n <= KS_MAX)%nat -> length (ks key n) = n /\ take m (ks key n) = ks key m.
Proof.
  intros Hm Hn. destruct (at_pos_new key Hkey) as (c0 & _ & H0).
  destruct (at_pos_process key 0 c0 (replicate n 0) H0) as (c & _ & _ & Hc & _); [rewrite length_replicate; lia|].
  rewrite length_replicate in Hc. cbn [Nat.add] in Hc.
  destruct (at_pos_process key n c [] Hc) as (_ & _ & _ & _ & _ & Ln); [cbn [length]; lia|]. split; [done|].
  destruct (at_pos_process key 0 c0 (replicate m 0) H0) as (c1 & _ & _ & Hc1 & _); [rewrite length_replicate; lia|].
  rewrite length_replicate in Hc1. cbn [Nat.add] in Hc1.
  destruct (at_pos_process key m c1 (replicate (n - m) 0) Hc1) as (_ & _ & _ & _ & Et & _); [rewrite length_replicate; lia|].
  rewrite length_replicate in Et. by replace (m + (n - m))%nat with n in Et by lia.
Qed.

(** Bytes [a] to [b] of the stream. *)
Definition kslice (a b : nat) : bytes := drop a (ks key b).

Lemma length_kslice a b : (a <= b)%nat -> (b <= KS_MAX)%nat -> length (kslice a b) = (b - a)%nat.
Proof. intros Ha Hb. unfold kslice. rewrite length_drop. by rewrite (proj1 (ks_facts a b Ha Hb)). Qed.

Lemma kslice_app a b c : (a <= b)%nat -> (b <= c)%nat -> (c <= KS_MAX)%nat -> kslice a c = kslice a b ++ kslice b c.
Proof.
  intros Ha Hb Hc. unfold kslice. destruct (ks_facts b c Hb Hc) as [Lc Tb].
  rewrite <- (take_drop b (ks key c)) at 1. rewrite Tb, drop_app_le; [done|].
  rewrite (proj1 (ks_facts b b ltac:(lia) ltac:(lia))). lia.
Qed.

Lemma kslice_0 n : kslice 0 n = ks key n.
Proof. apply drop_0. Qed.
End Stream.

(** ** The pure packet *)

Abbreviation L := ONION_DATA_LEN.

(** A hop: its encoded payload and its keys. *)
Record layer := mkLayer { ly_payload : bytes; ly_rho : bytes; ly_mu : bytes }.
Definition ly_len (h : layer) : nat := (length (ly_payload h) + 32)%nat.
Definition layer_ok (h : layer) : Prop := length (ly_rho h) = 32%nat.

(** The filler after the hops [hs]. *)
Fixpoint filler_spec (res : bytes) (hs : list layer) : bytes :=
  match hs with
  | [] => res
  | h :: hs' =>
      filler_spec (xor_bytes (res ++ replicate (ly_len h) 0) (kslice (ly_rho h) (L - length res) (L + ly_len h))) hs'
  end.

Definition clear_layer (h : layer) (packet hmac : bytes) : bytes := ly_payload h ++ hmac ++ take (L - ly_len h) packet.

Section Packet.
Context (hmac_of : bytes -> bytes -> bytes) (filler init : bytes).

(** The packet for the hops from here on, and its authenticator. *)
Fixpoint wrap_layers (hs : list layer) : bytes * bytes :=
  match hs with
  | [] => (init, replicate 32 0)
  | h :: hs' =>
      let '(packet, hmac) := wrap_layers hs' in
      let packet := xor_bytes (clear_layer h packet hmac) (ks (ly_rho h) L) in
      let packet := match hs' with [] => take (L - length filler) packet ++ filler | _ => packet end in
      (packet, hmac_of (ly_mu h) packet)
  end.

Definition total_len (hs : list layer) : nat := foldr (fun h n => (ly_len h + n)%nat) 0%nat hs.

Hypothesis hmac_length : forall k m, length (hmac_of k m) = 32%nat.
Hypothesis init_length : length init = L.
Hypothesis filler_fits : (length filler <= L)%nat.

Lemma wrap_lengths hs :
  Forall layer_ok hs -> (total_len hs <= L)%nat ->
  length (wrap_layers hs).1 = L /\ length (wrap_layers hs).2 = 32%nat.
Proof.
  induction hs as [|h hs IH]; intros Hok Hl; cbn [wrap_layers]; [by split|].
  apply Forall_cons in Hok as [Hh Hok]. cbn [total_len foldr] in Hl. destruct IH as [L1 L2]; [done|unfold total_len; lia|].
  destruct (wrap_layers hs) as [p m]. cbn [fst snd] in *. split; [|apply hmac_length].
  assert (Lx : length (xor_bytes (clear_layer h p m) (ks (ly_rho h) L)) = L).
  { rewrite length_xor_bytes, (proj1 (ks_facts _ Hh L L ltac:(lia) ltac:(unfold KS_MAX; lia))).
    unfold clear_layer. rewrite !length_app, length_take, L1, L2. unfold ly_len in *. lia. }
  destruct hs; [|done]. rewrite length_app, length_take, Lx. lia.
Qed.
End Packet.

Lemma length_filler_spec hs : forall res,
  Forall layer_ok hs -> (length res + total_len hs <= L)%nat ->
  length (filler_spec res hs) = (length res + total_len hs)%nat.
Proof.
  induction hs as [|h hs IH]; intros res Hok Hl; cbn [filler_spec]; cbn [total_len foldr] in *; [lia|].
  apply Forall_cons in Hok as [Hh Hok].
  assert (Lx : length (xor_bytes (res ++ replicate (ly_len h) 0) (kslice (ly_rho h) (L - length res) (L + ly_len h)))
    = (length res + ly_len h)%nat).
  { rewrite length_xor_bytes, length_app, length_replicate, length_kslice by (done || unfold KS_MAX; lia). lia. }
  rewrite IH; [|done|rewrite Lx; unfold total_len; lia]. rewrite Lx. unfold total_len. lia.
Qed.

(** One step of the filler: what there was under the stream, and the stream beyond the packet. *)
Definition filler_step (h : layer) (res : bytes) : bytes :=
  xor_bytes (res ++ replicate (ly_len h) 0) (kslice (ly_rho h) (L - length res) (L + ly_len h)).

Lemma filler_step_spec h res :
  layer_ok h -> (length res + ly_len h <= L)%nat ->
  filler_step h res = xor_bytes res (kslice (ly_rho h) (L - length res) L) ++ kslice (ly_rho h) L (L + ly_len h) /\
  length (kslice (ly_rho h) (L - length res) L) = length res /\
  length (kslice (ly_rho h) L (L + ly_len h)) = ly_len h /\ length (filler_step h res) = (length res + ly_len h)%nat.
Proof.
  intros Hh Hl.
  assert (Ek : kslice (ly_rho h) (L - length res) (L + ly_len h) =
    kslice (ly_rho h) (L - length res) L ++ kslice (ly_rho h) L (L + ly_len h)) by (apply kslice_app; [done|lia|lia|unfold KS_MAX; lia]).
  assert (Lk : length (kslice (ly_rho h) (L - length res) L) = length res)
    by (rewrite length_kslice by (done || unfold KS_MAX; lia); lia).
  assert (Lk2 : length (kslice (ly_rho h) L (L + ly_len h)) = ly_len h)
    by (rewrite length_kslice by (done || unfold KS_MAX; lia); lia).
  assert (Eres : filler_step h res = xor_bytes res (kslice (ly_rho h) (L - length res) L) ++ kslice (ly_rho h) L (L + ly_len h)).
  { unfold filler_step. rewrite Ek, xor_bytes_app by done. f_equal. rewrite <- Lk2 at 1. apply xor_bytes_zeros. }
  split_and!; [done..|]. rewrite Eres, length_app, length_xor_bytes, Lk. lia.
Qed.

Lemma total_len_removelast hs : Forall layer_ok hs -> Forall layer_ok (removelast hs) /\ (total_len (removelast hs) <= total_len hs)%nat.
Proof.
  intros Hok. destruct hs as [|h hs]; [done|]. assert (Hne : h :: hs <> []) by done. revert Hok Hne. generalize (h :: hs).
  intros l Hok Hne. rewrite (app_removelast_last h Hne) in Hok. apply Forall_app in Hok as [? _]. split; [done|].
  rewrite (app_removelast_last h Hne) at 2. unfold total_len. rewrite foldr_app. cbn [foldr].
  clear. induction (removelast l) as [|x l' IH]; cbn; lia.
Qed.

Section Tail.
Context (hmac_of : bytes -> bytes -> bytes) (init : bytes).
Hypothesis hmac_length : forall k m, length (hmac_of k m) = 32%nat.
Hypothesis init_length : length init = L.

Lemma drop_take_comm n m (l : bytes) : drop n (take m l) = take (m - n) (drop n l).
Proof. by rewrite skipn_firstn_comm. Qed.

(** The end of a layer is the end of the next packet, under this layer's stream. *)
Lemma drop_clear_layer h packet hmac n :
  length packet = L -> length hmac = 32%nat -> (n + ly_len h <= L)%nat ->
  drop (L - n) (clear_layer h packet hmac) = take n (drop (L - n - ly_len h) packet).
Proof.
  intros Lp Lh Hn. unfold clear_layer. rewrite app_assoc.
  assert (La : length (ly_payload h ++ hmac) = ly_len h) by (rewrite length_app; unfold ly_len; lia).
  replace (L - n)%nat with (length (ly_payload h ++ hmac) + (L - n - ly_len h))%nat by lia.
  rewrite drop_app_add, drop_take_comm. f_equal; [lia|]. f_equal. lia.
Qed.

(** The last bytes of every packet are the filler of the hops before it. *)
Lemma packet_tail hs : forall res,
  hs <> [] -> Forall layer_ok hs -> (length res + total_len hs <= L)%nat ->
  drop (L - length res) (wrap_layers hmac_of (filler_spec res (removelast hs)) init hs).1 = res.
Proof.
  induction hs as [|h hs IH]; intros res Hne Hok Hl; [done|]. apply Forall_cons in Hok as [Hh Hok].
  cbn [total_len foldr] in Hl. fold (total_len hs) in Hl. destruct hs as [|h' hs'].
  - cbn [removelast filler_spec wrap_layers fst]. rewrite drop_app_length'; [done|].
    rewrite length_take, length_xor_bytes, (proj1 (ks_facts _ Hh L L ltac:(lia) ltac:(unfold KS_MAX; lia))).
    unfold clear_layer. rewrite !length_app, length_take, init_length, length_replicate. unfold ly_len in *. lia.
  - remember (h' :: hs') as hs eqn:Ehs. assert (Hne' : hs <> []) by (by subst).
    assert (Er : removelast (h :: hs) = h :: removelast hs) by (by subst). rewrite Er. cbn [filler_spec].
    fold (filler_step h res). set (res' := filler_step h res).
    destruct (filler_step_spec h res Hh) as (Eres & Lk & _ & Lres); [lia|]. fold res' in Eres, Lres.
    specialize (IH res' Hne' Hok ltac:(lia)).
    assert (Lf : (length (filler_spec res' (removelast hs)) <= L)%nat).
    { destruct (total_len_removelast hs Hok). rewrite length_filler_spec by (done || lia). lia. }
    set (f := filler_spec res' (removelast hs)) in *.
    destruct (wrap_lengths hmac_of f init hmac_length init_length Lf hs Hok) as [L1 L2]; [lia|].
    assert (Ew : (wrap_layers hmac_of f init (h :: hs)).1 =
      xor_bytes (clear_layer h (wrap_layers hmac_of f init hs).1 (wrap_layers hmac_of f init hs).2) (ks (ly_rho h) L)).
    { cbn [wrap_layers]. destruct (wrap_layers hmac_of f init hs). subst hs. done. }
    rewrite Ew, <- xor_bytes_drop, drop_clear_layer by (done || lia). fold (kslice (ly_rho h) (L - length res) L).
    replace (L - length res - ly_len h)%nat with (L - length res')%nat by lia. rewrite IH.
    rewrite Eres, take_app_length' by (rewrite length_xor_bytes, Lk; lia). apply xor_bytes_involutive. lia.
Qed.
End Tail.

(** ** The code computes the pure packet *)

Section Code.
Context `{OnionLaws} `{!SecpLaws} `{!NoiseLaws} `{!FixedTimeEq} `{!FixedTimeEqLaws} {HD : Type} (c : Codec HD).

Definition to_layer (h : HD * OnionKeys) : layer := mkLayer (encode c h.1) (rho h.2) (mu h.2).
Definition hmac_with (associated_data key packet : bytes) : bytes := hmac_sha256 key (packet ++ associated_data).

Lemma payload_len_encode p : payload_len c p = length (encode c p).
Proof. unfold payload_len. rewrite serialized_length_encode. lia. Qed.

Lemma filler_loop_spec hs : forall i res,
  hs <> [] -> Forall layer_ok (to_layer <$> hs) -> (length res + total_len (to_layer <$> hs) <= L)%nat ->
  filler_loop c hs i (i + length hs - 1) (length res) res = Ret (filler_spec res (removelast (to_layer <$> hs))).
Proof.
  induction hs as [|[p k] hs IH]; intros i res Hne Hok Hl; [done|]. cbn [filler_loop]. destruct hs as [|h' hs'].
  { cbn [length]. replace (i + 1 - 1)%nat with i by lia. by rewrite Nat.eqb_refl. }
  remember (h' :: hs') as hs eqn:Ehs. assert (Hne' : hs <> []) by (by subst).
  assert (Hlen : (0 < length hs)%nat) by (subst; cbn; lia). cbn [fmap list_fmap] in *.
  apply Forall_cons in Hok as [Hk Hok]. cbn [total_len foldr] in Hl. fold (total_len (to_layer <$> hs)) in Hl.
  assert (El : (payload_len c p + 32)%nat = ly_len (to_layer (p, k))) by (unfold ly_len; by rewrite payload_len_encode).
  rewrite El. replace (i =? _)%nat with false by (symmetry; apply Nat.eqb_neq; cbn [length]; lia).
  unfold layer_ok in Hk. cbn [to_layer ly_rho snd] in Hk.
  destruct (at_pos_new (rho k) Hk) as (c0 & E0 & P0). rewrite E0. cbn [mbind outcome_bind].
  destruct (at_pos_skip (rho k) (L - length res) 0 c0 P0) as (c1 & E1 & P1); [unfold KS_MAX; lia|]. rewrite E1.
  cbn [mbind outcome_bind Nat.add] in *. replace (_ <? _)%nat with false by (symmetry; apply Nat.ltb_ge; lia).
  assert (Er : resize (length res + ly_len (to_layer (p, k))) res = res ++ replicate (ly_len (to_layer (p, k))) 0).
  { unfold resize. rewrite take_ge by lia. do 2 f_equal. lia. }
  rewrite Er. set (x := res ++ replicate (ly_len (to_layer (p, k))) 0).
  assert (Lx : length x = (length res + ly_len (to_layer (p, k)))%nat) by (unfold x; rewrite length_app, length_replicate; lia).
  destruct (at_pos_process (rho k) (L - length res) c1 x P1) as (c2 & _ & E2 & _); [unfold KS_MAX; lia|].
  rewrite E2. cbn [mbind outcome_bind].
  assert (Erm : removelast (to_layer (p, k) :: (to_layer <$> hs)) = to_layer (p, k) :: removelast (to_layer <$> hs)) by (by subst).
  rewrite Erm. cbn [filler_spec]. fold x. replace (L - length res + length x)%nat with (L + ly_len (to_layer (p, k)))%nat by lia.
  fold (kslice (rho k) (L - length res) (L + ly_len (to_layer (p, k)))). cbn [to_layer ly_rho snd].
  set (res' := xor_bytes x _).
  assert (Lres : length res' = (length res + ly_len (to_layer (p, k)))%nat).
  { unfold res'. rewrite length_xor_bytes, Lx, length_kslice by (done || unfold KS_MAX; lia). lia. }
  rewrite <- Lres. replace (i + length ((p, k) :: hs) - 1)%nat with (S i + length hs - 1)%nat by (cbn [length]; lia).
  apply IH; [done|done|lia].
Qed.

Lemma layers_loop_app a b : forall i f ad packet hmac,
  layers_loop c (a ++ b) i f ad packet hmac =
  ('(packet, hmac) ← layers_loop c a i f ad packet hmac; layers_loop c b (i + length a) f ad packet hmac).
Proof.
  induction a as [|[p k] a IH]; intros i f ad packet hmac; cbn [app layers_loop].
  { cbn [mbind outcome_bind length]. by rewrite Nat.add_0_r. }
  destruct (shift_arr_right packet (payload_len c p + 32)) as [p1| |]; cbn [mbind outcome_bind]; [|done..].
  destruct (ChaCha20.new (rho k) zero_nonce) as [c0| |]; cbn [mbind outcome_bind]; [|done..].
  destruct (process_in_place c0 _) as [[p2 c2]| |]; cbn [mbind outcome_bind]; [|done..].
  rewrite IH. cbn [length]. by rewrite Nat.add_succ_r.
Qed.

(** The layer written over the shifted packet. *)
Lemma layer_written h packet hmac :
  length packet = L -> length hmac = 32%nat -> (ly_len (to_layer h) <= L)%nat ->
  copy_at (payload_len c h.1) hmac (copy_at 0 (encode c h.1) (replicate (payload_len c h.1 + 32) 0 ++ take (L - (payload_len c h.1 + 32)) packet))
  = clear_layer (to_layer h) packet hmac.
Proof.
  intros Lp Lh Hl. rewrite payload_len_encode. unfold copy_at, clear_layer, ly_len in *. cbn [to_layer ly_payload] in *.
  set (e := encode c h.1) in *. set (t := take (L - (length e + 32)) packet).
  rewrite take_0. cbn [app Nat.add].
  assert (Ed : drop (length e) (replicate (length e + 32) 0 ++ t) = replicate 32 0 ++ t).
  { rewrite replicate_add, <- app_assoc, drop_app_length' by (by rewrite length_replicate). done. }
  rewrite Ed, take_app_length.
  replace (drop (length e + length hmac) (e ++ replicate 32 0 ++ t)) with t; [done|].
  rewrite app_assoc, drop_app_length'; [done|]. rewrite length_app, length_replicate. lia.
Qed.

Lemma layers_loop_spec f ad init hs :
  length init = L -> (length f <= L)%nat -> Forall layer_ok (to_layer <$> hs) -> (total_len (to_layer <$> hs) <= L)%nat ->
  layers_loop c (rev hs) 0 f ad init (replicate 32 0) = Ret (wrap_layers (hmac_with ad) f init (to_layer <$> hs)).
Proof.
  intros Li Lf. induction hs as [|[p k] hs IH]; intros Hok Hl; [done|]. cbn [rev fmap list_fmap] in *.
  apply Forall_cons in Hok as [Hk Hok]. cbn [total_len foldr] in Hl. fold (total_len (to_layer <$> hs)) in Hl.
  rewrite layers_loop_app, IH by (done || lia). rewrite length_rev. cbn [Nat.add].
  destruct (wrap_lengths (hmac_with ad) f init) with (hs := to_layer <$> hs) as [L1 L2];
    [intros; apply hmac_array|done|done|done|lia|].
  cbn [wrap_layers]. destruct (wrap_layers (hmac_with ad) f init (to_layer <$> hs)) as [packet hmac]. cbn [fst snd] in *.
  cbn [mbind outcome_bind layers_loop].
  assert (El : (payload_len c p + 32)%nat = ly_len (to_layer (p, k))) by (unfold ly_len; by rewrite payload_len_encode).
  unfold shift_arr_right. replace (_ <? _)%nat with false by (symmetry; apply Nat.ltb_ge; lia). cbn [mbind outcome_bind].
  pose proof (layer_written (p, k) packet hmac L1 L2 ltac:(lia)) as Ew. cbn [fst] in Ew. rewrite Ew.
  unfold layer_ok in Hk. cbn [to_layer ly_rho snd] in Hk.
  destruct (at_pos_new (rho k) Hk) as (c0 & E0 & P0). rewrite E0. cbn [mbind outcome_bind].
  assert (Lc : length (clear_layer (to_layer (p, k)) packet hmac) = L).
  { unfold clear_layer. rewrite !length_app, length_take, L1, L2. unfold ly_len in *. lia. }
  destruct (at_pos_process (rho k) 0 c0 (clear_layer (to_layer (p, k)) packet hmac) P0) as (c1 & _ & E1 & _); [rewrite Lc; unfold KS_MAX; lia|].
  rewrite E1, Lc, drop_0. cbn [mbind outcome_bind Nat.add to_layer ly_rho ly_mu snd].
  set (x := xor_bytes _ _).
  assert (Lx : length x = L).
  { unfold x. rewrite length_xor_bytes, Lc, (proj1 (ks_facts _ Hk L L ltac:(lia) ltac:(unfold KS_MAX; lia))). lia. }
  assert (Ecp : copy_at (L - length f) f x = take (L - length f) x ++ f).
  { unfold copy_at. rewrite (drop_ge x), List.app_nil_r by lia. done. }
  destruct hs as [|h' hs']; cbn [length fmap list_fmap Nat.eqb]; [by rewrite Ecp|done].
Qed.
End Code.

(** ** Decoding one layer *)

Lemma run_in_chacha {A} (m : rd A) : forall c bs dec c1 a rest,
  buffer_ok c -> bytewise c bs = Ret (dec, c1) -> run m dec = (Ret (Ok a), rest) ->
  exists n c', (n <= length bs)%nat /\ rest = drop n dec /\ run (in_chacha c m) bs = (Ret (Ok (a, c')), drop n bs) /\
    bytewise c (take n bs) = Ret (take n dec, c').
Proof.
  induction m as [o|n k IH|k IH]; intros c bs dec c1 a rest Hc Eb Hr; cbn [run in_chacha] in *.
  - unfold lift in Hr. destruct o as [[x|e]|w|]; simplify_eq. exists 0%nat, c. split_and!; (done || lia).
  - unfold mbind, prog_bind in *. cbn [do_read Read_slice] in *.
    destruct (bytewise_split n _ _ _ _ Eb) as (c' & E1 & E2).
    assert (Hlen : length (take n bs) = length (take n dec)) by (by apply length_bytewise in E1).
    assert (Ldec : length dec = length bs) by (by eapply length_bytewise).
    destruct (take n bs) as [|b tl] eqn:Et.
    + assert (Etd : take n dec = []) by (apply nil_length_inv; by rewrite <- Hlen).
      assert (Ed : drop n bs = bs) by (rewrite <- (take_drop n bs) at 2; by rewrite Et).
      assert (Edd : drop n dec = dec) by (rewrite <- (take_drop n dec) at 2; by rewrite Etd).
      rewrite Ed. rewrite Etd, Edd in Hr. by apply (IH (Ok []) c bs dec c1).
    + rewrite <- Et in *. clear Et b tl.
      assert (Ep : process_in_place c (take n bs) = Ret (take n dec, c')).
      { unfold process_in_place. by rewrite process_loop_bytewise by (done || lia). }
      destruct (IH (Ok (take n dec)) c' (drop n bs) (drop n dec) c1 a rest) as (j & c2 & Hj & Er & E & Hb2);
        [by eapply bytewise_buffer_ok|done|done|].
      rewrite length_drop in Hj. exists (Nat.min n (length bs) + j)%nat, c2.
      assert (D : forall l : bytes, length l = length bs -> drop (Nat.min n (length bs) + j) l = drop j (drop n l) /\
        take (Nat.min n (length bs) + j) l = take n l ++ take j (drop n l)).
      { intros l Ll. rewrite <- drop_drop, take_plus. rewrite <- Ll.
        destruct (Nat.le_gt_cases n (length l)); [by rewrite Nat.min_l by lia|].
        rewrite Nat.min_r, !(drop_ge l), !(take_ge l) by lia. done. }
      destruct (D bs eq_refl) as [-> ->]. destruct (D dec Ldec) as [-> ->].
      split; [lia|]. split_and!; [done| |].
      * rewrite Ep. exact E.
      * rewrite bytewise_app, E1. cbn [mbind outcome_bind]. by rewrite Hb2.
  - cbn [left Read_slice] in *. assert (Ldec : length dec = length bs) by (by eapply length_bytewise).
    rewrite Ldec in Hr. by apply (IH (S (length bs)) c bs dec c1).
Qed.

Section Decode.
Context `{OnionLaws} `{!SecpLaws} `{!NoiseLaws} `{!FixedTimeEq} `{!FixedTimeEqLaws}.

(** One layer of a packet whose clear text is a payload, an authenticator and the rest. *)
Lemma decode_layer ss packet hmac ad payload next rest k1 k2 :
  gen_rho_mu_from_shared_secret ss = Ret (k1, k2) -> length k1 = 32%nat -> length packet = L ->
  OnionHopData.ok payload -> length next = 32%nat ->
  xor_bytes packet (ks k1 L) = encode OnionHopData.codec payload ++ next ++ rest ->
  hmac = hmac_sha256 k2 (packet ++ ad) ->
  let l := (length (encode OnionHopData.codec payload) + 32)%nat in
  decode_next_hop ss packet hmac ad =
  Ret (Ok (if bool_decide (next = replicate 32 0) then Receive payload
           else Forward payload next (rest ++ kslice k1 L (L + l)))).
Proof.
  intros Eg Hk Lp Hpl Ln Ex Eh. cbv zeta. set (enc := encode OnionHopData.codec payload) in *.
  assert (Lks : length (ks k1 L) = L) by (apply (ks_facts k1 Hk L L); unfold KS_MAX; lia).
  assert (Lrest : length rest = (L - (length enc + 32))%nat /\ (length enc + 32 <= L)%nat).
  { assert (length (xor_bytes packet (ks k1 L)) = L) as Lx by (rewrite length_xor_bytes; lia).
    rewrite Ex, !length_app in Lx. lia. }
  unfold decode_next_hop. rewrite Eg. cbn [mbind outcome_bind].
  rewrite fixed_time_eq_spec by (subst hmac; done). rewrite bool_decide_eq_true_2 by done. cbn [mbind outcome_bind negb].
  destruct (at_pos_new k1 Hk) as (c0 & E0 & P0). rewrite E0. cbn [mbind outcome_bind].
  destruct (at_pos_process k1 0 c0 packet P0) as (c1 & Eb & _ & _); [rewrite Lp; unfold KS_MAX; lia|].
  rewrite Lp, drop_0 in Eb. cbn [Nat.add] in Eb. rewrite Ex in Eb.
  assert (Hb0 : buffer_ok c0) by (destruct P0 as (c0' & E0' & Hok & _ & Eb'); rewrite E0 in E0'; injection E0' as <-; apply Hok).
  destruct (run_in_chacha OnionHopData.read c0 packet _ c1 payload (next ++ rest) Hb0 Eb) as (n & c2 & Hn & Er & E1 & Eb1).
  { exact (onion_hop_roundtrip payload (next ++ rest) Hpl). }
  assert (n = length enc) as ->.
  { assert (length (next ++ rest) = length (drop n (enc ++ next ++ rest))) as Ll by (by rewrite <- Er).
    rewrite length_drop, !length_app in Ll. lia. }
  rewrite E1. destruct (bytewise_split (length enc) _ _ _ _ Eb) as (c2' & Es1 & Es2).
  rewrite Eb1 in Es1. injection Es1 as <-. rewrite drop_app_length in Es2.
  destruct (run_in_chacha (read_exact 32) c2 (drop (length enc) packet) (next ++ rest) c1 next rest
    (bytewise_buffer_ok _ _ _ _ Hb0 Eb1) Es2) as (n & c3 & Hn3 & Er3 & E3 & Eb3).
  { rewrite <- Ln. apply run_read_exact_app. }
  assert (n = 32%nat) as ->.
  { rewrite length_drop, Lp in Hn3. assert (length rest = length (drop n (next ++ rest))) as Ll by (by rewrite <- Er3). rewrite length_drop, !length_app in Ll. lia. }
  rewrite E3. case_bool_decide as Hz; [done|].
  destruct (bytewise_split 32 _ _ _ _ Es2) as (c3' & Es3 & Es4). rewrite Eb3 in Es3. injection Es3 as <-.
  rewrite (drop_app_length' next) in Es4 by done.
  set (stream := drop 32 (drop (length enc) packet)) in *.
  assert (Lst : length stream = (L - (length enc + 32))%nat) by (unfold stream; rewrite !length_drop; lia).
  rewrite take_ge by lia.
  assert (Ep4 : process_in_place c3 stream = Ret (rest, c1)).
  { unfold process_in_place. rewrite process_loop_bytewise; [done| |lia].
    eapply bytewise_buffer_ok; [|exact Eb3]. by eapply bytewise_buffer_ok. }
  rewrite Ep4. cbn [mbind outcome_bind]. replace (_ <? _)%nat with false by (symmetry; apply Nat.ltb_ge; lia).
  replace (L - length rest)%nat with (length enc + 32)%nat by lia.
  assert (P1 : at_pos k1 L c1).
  { destruct (at_pos_process k1 0 c0 packet P0) as (c1' & Eb' & _ & P1 & _); [rewrite Lp; unfold KS_MAX; lia|].
    rewrite Lp, drop_0 in Eb'. cbn [Nat.add] in *. rewrite Ex, Eb in Eb'. injection Eb' as <-. by rewrite Lp in P1. }
  destruct (at_pos_process k1 L c1 (replicate (length enc + 32) 0) P1) as (c4 & _ & Ep & _); [rewrite length_replicate; unfold KS_MAX; lia|].
  rewrite length_replicate in Ep. rewrite Ep. cbn [mbind outcome_bind]. fold (kslice k1 L (L + (length enc + 32))).
  do 4 f_equal. assert (Lk : length (kslice k1 L (L + (length enc + 32))) = (length enc + 32)%nat)
    by (rewrite length_kslice by (done || unfold KS_MAX; lia); lia).
  rewrite <- Lk at 1. apply xor_bytes_zeros.
Qed.
End Decode.

(** ** A route of honest hops *)

Section Route.
Context `{OnionLaws} `{!SecpLaws} `{!NoiseLaws} `{!FixedTimeEq} `{!FixedTimeEqLaws}.

(** The packet travels: each hop derives its shared secret, decodes its layer and, unless the
    payment is for it, passes the rest on with the next ephemeral key.  The payloads that
    were read, and whether a hop took the payment as its own. *)
Fixpoint transit (secrets : list SecretKey) (ephemeral : PublicKey) (packet hmac payment_hash : bytes) :
    outcome (list OnionHopData.t * bool) :=
  match secrets with
  | [] => Ret ([], false)
  | secret :: secrets' =>
      let shared_secret := ecdh ephemeral secret in
      r ← decode_next_hop shared_secret packet hmac payment_hash;
      match r with
      | Ok (Receive p) => Ret ([p], true)
      | Ok (Forward p next_hmac packet) =>
          match next_hop_packet_pubkey ephemeral shared_secret with
          | Some ephemeral => '(l, b) ← transit secrets' ephemeral packet next_hmac payment_hash; Ret (p :: l, b)
          | None => Ret ([p], false)
          end
      | Err _ => Ret ([], false)
      end
  end.

Abbreviation hopc := (OnionHopData.codec).

(** The keys of a path, hop by hop. *)
Lemma keys_cons hop path b keys :
  construct_onion_keys (hop :: path) b = Ret (Some keys) ->
  exists b' k keys', keys = k :: keys' /\ construct_onion_keys path b' = Ret (Some keys') /\
    ephemeral_pubkey k = from_secret_key b /\ length (rho k) = 32%nat /\
    gen_rho_mu_from_shared_secret (ecdh (pubkey hop) b) = Ret (rho k, mu k) /\
    next_hop_packet_pubkey (from_secret_key b) (ecdh (pubkey hop) b) = Some (from_secret_key b').
Proof.
  intros E. unfold construct_onion_keys in *. cbn [construct_onion_keys_callback] in E.
  destruct (sk_mul b _) as [b'|] eqn:Em; cbn in E; [|done].
  destruct (construct_onion_keys_callback path b') as [secrets|] eqn:Ec; cbn in E; [|done].
  unfold gen_rho_mu_from_shared_secret, assert_32 in *. destruct (ecdh_array (pubkey hop) b) as [Le _]. rewrite Le in *. cbn in E.
  destruct (onion_keys_of secrets) as [ks'| |] eqn:Ek; cbn in E; [|done..]. injection E as <-.
  exists b', (mkOnionKeys _ (from_secret_key b) (hmac_sha256 [0x72; 0x68; 0x6f] (ecdh (pubkey hop) b))
    (hmac_sha256 [0x6d; 0x75] (ecdh (pubkey hop) b))), ks'.
  split; [done|]. split; [by rewrite Ec, Ek|]. split; [done|]. split; [apply hmac_array|]. split; [done|].
  unfold next_hop_packet_pubkey. by eapply mul_public.
Qed.

Lemma layers_ok_of path b keys payloads :
  construct_onion_keys path b = Ret (Some keys) -> Forall layer_ok (to_layer hopc <$> zip payloads keys).
Proof.
  revert b keys payloads. induction path as [|hop path IH]; intros b keys payloads E.
  { cbn in E. injection E as <-. by destruct payloads. }
  apply keys_cons in E as (b' & k & keys' & -> & E & _ & Lr & _). destruct payloads as [|p payloads]; [constructor|].
  cbn. constructor; [done|]. by eapply IH.
Qed.

Lemma keys_length path b keys : construct_onion_keys path b = Ret (Some keys) -> length keys = length path.
Proof.
  revert b keys. induction path as [|hop path IH]; intros b keys E; [cbn in E; by injection E as <-|].
  apply keys_cons in E as (b' & k & keys' & -> & E & _). cbn. f_equal. by eapply IH.
Qed.

(** The clear text of the last packet, whose end is the filler. *)
Lemma last_clear h f init :
  layer_ok h -> length init = L -> (length f + ly_len h <= L)%nat ->
  exists rest, xor_bytes (take (L - length f) (xor_bytes (clear_layer h init (replicate 32 0)) (ks (ly_rho h) L)) ++ f) (ks (ly_rho h) L)
    = ly_payload h ++ replicate 32 0 ++ rest.
Proof.
  intros Hh Li Hl. set (n := (L - length f)%nat). set (k := ks (ly_rho h) L).
  assert (Lk : length k = L) by (apply (ks_facts _ Hh L L); unfold KS_MAX; lia).
  set (cl := clear_layer h init (replicate 32 0)).
  assert (Lc : length cl = L).
  { unfold cl, clear_layer. rewrite !length_app, length_take, Li, length_replicate. unfold ly_len in *. lia. }
  replace (xor_bytes (take n (xor_bytes cl k) ++ f) k) with (xor_bytes (take n (xor_bytes cl k) ++ f) (take n k ++ drop n k))
    by (by rewrite take_drop).
  rewrite xor_bytes_app by (rewrite !length_take, length_xor_bytes; lia).
  rewrite xor_bytes_take, xor_bytes_involutive by lia.
  assert (Et : take n cl = ly_payload h ++ replicate 32 0 ++ take (n - ly_len h) (take (L - ly_len h) init)).
  { unfold cl, clear_layer. rewrite app_assoc. replace n with (length (ly_payload h ++ replicate 32 0%Z) + (n - ly_len h))%nat at 1.
    - rewrite take_app_add. by rewrite <- app_assoc.
    - rewrite length_app, length_replicate. unfold ly_len in *. lia. }
  rewrite Et. eexists. by rewrite <- !app_assoc.
Qed.

Hypothesis hmac_nonzero : forall k m, hmac_sha256 k m <> replicate 32 0.

Lemma transit_suffix ad init (Li : length init = L) secrets : forall path b keys payloads res,
  (pubkey <$> path) = (from_secret_key <$> secrets) -> construct_onion_keys path b = Ret (Some keys) ->
  length payloads = length path -> path <> [] -> Forall OnionHopData.ok payloads ->
  (length res + total_len (to_layer hopc <$> zip payloads keys) <= L)%nat ->
  let f := filler_spec res (removelast (to_layer hopc <$> zip payloads keys)) in
  let '(packet, hmac) := wrap_layers (hmac_with ad) f init (to_layer hopc <$> zip payloads keys) in
  transit secrets (from_secret_key b) packet hmac ad = Ret (payloads, true).
Proof.
  induction secrets as [|s secrets IH]; intros path b keys payloads res Hpk Hk Hlen Hne Hok Hl; destruct path as [|hop path]; try done.
  cbn [fmap list_fmap] in Hpk. injection Hpk as Hp Hpk. apply keys_cons in Hk as (b' & k & keys' & -> & Hk & He & Lr & Hg & Hn).
  destruct payloads as [|p payloads]; [done|]. cbn [length] in Hlen. injection Hlen as Hlen. apply Forall_cons in Hok as [Hokp Hok].
  cbn [zip fmap list_fmap] in *. cbn [total_len foldr] in Hl. fold (total_len (to_layer hopc <$> zip payloads keys')) in Hl.
  pose proof (layers_ok_of path b' keys' payloads Hk) as Hlo. set (h := to_layer hopc (p, k)) in *.
  assert (Hh : layer_ok h) by done. cbn [transit].
  assert (Ess : ecdh (from_secret_key b) s = ecdh (pubkey hop) b) by (by rewrite Hp, ecdh_comm). rewrite Ess.
  assert (Hhl : ly_len h = (length (encode hopc p) + 32)%nat) by done.
  destruct path as [|hop' path].
  - pose proof (keys_length _ _ _ Hk) as Lk'. destruct payloads; [|done]. destruct keys'; [|done].
    cbn [zip fmap list_fmap removelast filler_spec wrap_layers]. unfold total_len in Hl. cbn [foldr zip fmap list_fmap] in Hl.
    destruct (last_clear h res init Hh Li) as [rest Ex]; [lia|].
    set (packet := take _ _ ++ res) in *.
    assert (Lp : length packet = L).
    { unfold packet. rewrite length_app, length_take, length_xor_bytes, (proj1 (ks_facts _ Hh L L ltac:(lia) ltac:(unfold KS_MAX; lia))).
      unfold clear_layer. rewrite !length_app, length_take, Li, length_replicate. unfold ly_len in *. lia. }
    erewrite (decode_layer _ packet _ ad p (replicate 32 0) rest (rho k) (mu k)); try done.
  - assert (Hne' : hop' :: path <> []) by done. remember (hop' :: path) as path' eqn:Epath.
    pose proof (keys_length _ _ _ Hk) as Lk'.
    assert (Hz : to_layer hopc <$> zip payloads keys' <> []).
    { destruct payloads as [|p' payloads]; [by rewrite Epath in Hlen|]. destruct keys' as [|k' keys']; [by rewrite Epath in Lk'|done]. }
    set (hs := to_layer hopc <$> zip payloads keys') in *.
    assert (Er : removelast (h :: hs) = h :: removelast hs) by (by destruct hs). rewrite Er. cbn [filler_spec].
    fold (filler_step h res). set (res' := filler_step h res).
    destruct (filler_step_spec h res Hh) as (Eres & Lk1 & Lk2 & Lres); [lia|]. fold res' in Eres, Lres.
    specialize (IH path' b' keys' payloads res' Hpk Hk Hlen Hne' Hok ltac:(fold hs; lia)). fold hs in IH.
    set (f := filler_spec res' (removelast hs)) in *.
    assert (Lf : (length f <= L)%nat).
    { destruct (total_len_removelast hs Hlo). unfold f. rewrite length_filler_spec by (done || lia). lia. }
    assert (Hhl' : forall k m, length (hmac_with ad k m) = 32%nat) by (intros; apply hmac_array).
    destruct (wrap_lengths (hmac_with ad) f init Hhl' Li Lf hs Hlo) as [L1 L2]; [lia|].
    pose proof (packet_tail (hmac_with ad) init Hhl' Li hs res' Hz Hlo ltac:(lia)) as Htail. fold f in Htail.
    assert (Hm : exists k' m', (wrap_layers (hmac_with ad) f init hs).2 = hmac_with ad k' m').
    { destruct hs as [|h1 hs1]; [done|]. cbn [wrap_layers]. destruct (wrap_layers _ _ _ hs1). by eexists _, _. }
    assert (Ew : wrap_layers (hmac_with ad) f init (h :: hs) =
      let packet := xor_bytes (clear_layer h (wrap_layers (hmac_with ad) f init hs).1 (wrap_layers (hmac_with ad) f init hs).2) (ks (ly_rho h) L) in
      (packet, hmac_with ad (ly_mu h) packet)).
    { cbn [wrap_layers]. destruct (wrap_layers (hmac_with ad) f init hs). by destruct hs. }
    rewrite Ew. cbv zeta. destruct (wrap_layers (hmac_with ad) f init hs) as [packet' hmac']. cbn [fst snd] in *.
    assert (Lc : length (clear_layer h packet' hmac') = L).
    { unfold clear_layer. rewrite !length_app, length_take, L1, L2. unfold ly_len in *. lia. }
    assert (Lks : length (ks (rho k) L) = L) by (apply (ks_facts _ Lr L L); unfold KS_MAX; lia).
    rewrite (decode_layer _ _ _ ad p hmac' (take (L - ly_len h) packet') (rho k) (mu k)); try done.
    2: { rewrite length_xor_bytes, Lc. cbn [h to_layer ly_rho snd]. lia. }
    2: { cbn [h to_layer ly_rho snd]. by rewrite xor_bytes_involutive by lia. }
    destruct Hm as (k' & m' & Hm). rewrite bool_decide_eq_false_2 by (rewrite Hm; apply hmac_nonzero).
    cbn [mbind outcome_bind]. rewrite Hn. fold hopc. rewrite <- Hhl.
    replace (take (L - ly_len h) packet' ++ kslice (rho k) L (L + ly_len h)) with packet'.
    { rewrite IH. done. }
    rewrite <- (take_drop (L - ly_len h) packet') at 1. f_equal.
    assert (Ed : drop (L - ly_len h) packet' = drop (length res) (drop (L - length res') packet')) by (rewrite drop_drop; f_equal; lia).
    rewrite Ed, Htail, Eres, drop_app_length'; [done|]. rewrite length_xor_bytes. lia.
Qed.

Lemma size_loop_total payloads keys : forall n,
  length keys = length payloads -> (n <= L)%nat -> size_loop hopc payloads n = Ret false ->
  (n + total_len (to_layer hopc <$> zip payloads keys) <= L)%nat.
Proof.
  revert keys. induction payloads as [|p payloads IH]; intros keys n Lk Hn E; cbn [size_loop] in E.
  { change (n + 0 <= L)%nat. by rewrite Nat.add_0_r. }
  destruct keys as [|k keys]; [done|]. cbn [zip fmap list_fmap total_len foldr].
  destruct (negb _); [done|]. destruct (Nat.ltb_spec L (n + (payload_len hopc p + 32))) as [|Hle]; [done|].
  injection Lk as Lk. specialize (IH keys _ Lk Hle E). rewrite payload_len_encode in IH. unfold total_len, ly_len in *.
  cbn [to_layer ly_payload fst]. lia.
Qed.

(** The noise the packet starts from. *)
Lemma init_noise prng_seed : length prng_seed = 32%nat ->
  exists init, length init = L /\
    forall payloads keys ad, construct_onion_packet payloads keys prng_seed ad =
      construct_onion_packet_with_init_noise hopc payloads keys init ad.
Proof.
  intros Hseed. destruct (at_pos_new prng_seed Hseed) as (c0 & E0 & P0).
  unfold construct_onion_packet, process. rewrite E0.
  generalize (length_replicate L 0). generalize (replicate L 0). intros zs Lz.
  destruct (at_pos_process prng_seed 0 c0 zs P0) as (c1 & Eb & E1 & _); [rewrite Lz; unfold KS_MAX; lia|].
  eexists. split; [|intros payloads keys ad; cbn [mbind outcome_bind]; rewrite (decide_True _ _ Lz), E1; reflexivity].
  rewrite length_xor_bytes, drop_0, Lz, Nat.add_0_l, (proj1 (ks_facts _ Hseed L L ltac:(lia) ltac:(unfold KS_MAX; lia))). lia.
Qed.

(** C5: a payment reaches its destination: for a route of hops that the size check accepts, the
    packet is built without a panic, every hop finds in it the payload it was built from,
    and only the last one takes the payment as its own. *)
Theorem onion_delivered (secrets : list SecretKey) (path : list RouteHop) (session_priv : SecretKey)
    (keys : list OnionKeys) (payloads : list OnionHopData.t) (prng_seed payment_hash : bytes) :
  (pubkey <$> path) = (from_secret_key <$> secrets) -> path <> [] -> length payloads = length path ->
  construct_onion_keys path session_priv = Ret (Some keys) ->
  Forall OnionHopData.ok payloads -> route_size_insane payloads = Ret false -> length prng_seed = 32%nat ->
  exists packet e, construct_onion_packet payloads keys prng_seed payment_hash = Ret packet /\
    OnionPacket.public_key packet = Some e /\
    transit secrets e (OnionPacket.hop_data packet) (OnionPacket.hmac packet) payment_hash = Ret (payloads, true).
Proof.
  intros Hpk Hne Hlen Hk Hok Hsz Hseed. pose proof (keys_length _ _ _ Hk) as Lk.
  pose proof (size_loop_total payloads keys 0 ltac:(lia) ltac:(lia) Hsz) as Ht. cbn [Nat.add] in Ht.
  pose proof (layers_ok_of path session_priv keys payloads Hk) as Hlo.
  destruct (init_noise prng_seed Hseed) as (init & Li & Ec).
  assert (Hzne : zip payloads keys <> []).
  { destruct payloads, keys; try done; destruct path; done. }
  assert (Lz : length (zip payloads keys) = length payloads) by (rewrite length_zip_with; lia).
  assert (Hf : filler_loop hopc (zip payloads keys) 0 (length payloads - 1) 0 [] =
    Ret (filler_spec [] (removelast (to_layer hopc <$> zip payloads keys)))).
  { pose proof (filler_loop_spec hopc (zip payloads keys) 0 [] Hzne Hlo) as E. cbn [length Nat.add] in E. rewrite Lz in E. by apply E. }
  set (f := filler_spec [] (removelast (to_layer hopc <$> zip payloads keys))) in *.
  assert (Lf : (length f <= L)%nat).
  { destruct (total_len_removelast _ Hlo). unfold f. rewrite length_filler_spec; [cbn [length]; lia|done|cbn [length]; lia]. }
  pose proof (layers_loop_spec hopc f payment_hash init (zip payloads keys) Li Lf Hlo Ht) as Hw.
  pose proof (transit_suffix payment_hash init Li secrets path session_priv keys payloads [] Hpk Hk Hlen Hne Hok) as Htr.
  cbv zeta in Htr. fold f in Htr. cbn [length Nat.add] in Htr. specialize (Htr Ht).
  destruct (wrap_layers _ f init _) as [packet hmac].
  destruct path as [|hop path]; [done|]. apply keys_cons in Hk as (b' & k & keys' & -> & _ & He & _).
  exists (OnionPacket.mk _ 0 (Some (ephemeral_pubkey k)) packet hmac), (ephemeral_pubkey k). split_and!; [|done|].
  - rewrite Ec. unfold construct_onion_packet_with_init_noise.
    replace (length payloads =? 0)%nat with false by (symmetry; apply Nat.eqb_neq; rewrite Hlen; cbn; lia).
    rewrite Hf. cbn [mbind outcome_bind]. rewrite Hw. done.
  - rewrite He. exact Htr.
Qed.
End Route.

(** * What each hop is told: [build_onion_payloads]

    The loop runs from the destination to the first hop with running totals; the payloads it
    builds are given here by recursion from the first hop, with the totals of what lies
    beyond a hop. *)

Section Payloads.
Context `{Secp} (total_msat : Z) (payment_secret_option keysend_preimage : option bytes) (offset : Z).

Definition sum_fees (hops : list RouteHop) : Z := foldr Z.add 0 (fee_msat <$> hops).
Definition sum_deltas (hops : list RouteHop) : Z := foldr Z.add 0 (cltv_expiry_delta <$> hops).

Definition final_format (hop : RouteHop) : OnionHopData.OnionHopDataFormat :=
  if supports_variable_length_onion (node_features hop) then
    OnionHopData.FinalNode ((fun s => FinalOnionHopData.mk s total_msat) <$> payment_secret_option) keysend_preimage
  else OnionHopData.Legacy 0.

Definition forward_format (hop next : RouteHop) : OnionHopData.OnionHopDataFormat :=
  if supports_variable_length_onion (node_features hop) then OnionHopData.NonFinalNode (short_channel_id next)
  else OnionHopData.Legacy (short_channel_id next).

(** A hop forwards over the channel of the next hop what that hop and those after it need. *)
Fixpoint payloads_spec (path : list RouteHop) : list OnionHopData.t :=
  match path with
  | [] => []
  | hop :: rest =>
      match rest with
      | [] => [OnionHopData.mk (final_format hop) (fee_msat hop) (offset + cltv_expiry_delta hop)]
      | next :: _ => OnionHopData.mk (forward_format hop next) (sum_fees rest) (offset + sum_deltas rest) :: payloads_spec rest
      end
  end.

Definition hop_ok (h : RouteHop) : Prop := 0 <= fee_msat h /\ 0 <= cltv_expiry_delta h.

Lemma sums_nonneg hops : Forall hop_ok hops -> 0 <= sum_fees hops /\ 0 <= sum_deltas hops.
Proof. unfold sum_fees, sum_deltas, hop_ok. induction 1; cbn; lia. Qed.

Lemma sum_fees_app a b : sum_fees (a ++ b) = sum_fees a + sum_fees b.
Proof. unfold sum_fees. rewrite fmap_app, foldr_app. induction a as [|h a IH]; cbn; lia. Qed.
Lemma sum_deltas_app a b : sum_deltas (a ++ b) = sum_deltas a + sum_deltas b.
Proof. unfold sum_deltas. rewrite fmap_app, foldr_app. induction a as [|h a IH]; cbn; lia. Qed.

(** The loop with the suffix [next :: suf] done. *)
Lemma payloads_loop_spec rpath : forall next suf,
  Forall hop_ok rpath -> 0 <= offset -> 0 < sum_fees (next :: suf) -> 0 < sum_deltas (next :: suf) ->
  sum_fees (rev rpath ++ next :: suf) < 21000000 * 100000000 * 1000 ->
  offset + sum_deltas (rev rpath ++ next :: suf) < 500000000 ->
  payloads_loop rpath (length (next :: suf)) total_msat payment_secret_option offset keysend_preimage
    (sum_fees (next :: suf)) (offset + sum_deltas (next :: suf)) (short_channel_id next) (payloads_spec (next :: suf)) =
  Ret (Ok (payloads_spec (rev rpath ++ next :: suf), sum_fees (rev rpath ++ next :: suf),
           offset + sum_deltas (rev rpath ++ next :: suf))).
Proof.
  induction rpath as [|hop rpath IH]; intros next suf Hok Ho Hf Hd Hlf Hld; [done|].
  apply Forall_cons in Hok as [[Hf0 Hd0] Hok]. cbn [rev] in *. rewrite <- !app_assoc in *. cbn [app] in *.
  destruct (sums_nonneg (rev rpath)) as [N1 N2]; [by apply Forall_rev|].
  rewrite sum_fees_app in Hlf. rewrite sum_deltas_app in Hld.
  assert (E1 : sum_fees (hop :: next :: suf) = fee_msat hop + sum_fees (next :: suf)) by done.
  assert (E2 : sum_deltas (hop :: next :: suf) = cltv_expiry_delta hop + sum_deltas (next :: suf)) by done.
  cbn [payloads_loop]. rewrite (proj2 (Z.eqb_neq _ _)) by lia. rewrite (proj2 (Z.eqb_neq _ _)) by lia.
  cbn [mbind outcome_bind]. unfold add64, add32. rewrite checked_op_ok by (unfold in_width; lia). cbn [mbind outcome_bind].
  rewrite (proj2 (Z.leb_gt _ _)) by lia. rewrite checked_op_ok by (unfold in_width; lia). cbn [mbind outcome_bind].
  rewrite (proj2 (Z.leb_gt _ _)) by lia.
  rewrite <- IH; [|done..|lia|lia|rewrite sum_fees_app; lia|rewrite sum_deltas_app; lia].
  rewrite E1, E2, (Z.add_comm (fee_msat hop)), (Z.add_comm (cltv_expiry_delta hop)), Z.add_assoc. done.
Qed.


(** When the last hop asks for no delay, the hop before it takes the expiry of its own
    channel for the one to forward with: the guard of the loop compares the running expiry
    with its starting value to tell the last hop. *)
Theorem zero_delta_misleads_hop (hop last : RouteHop) :
  0 < fee_msat last -> 0 <= fee_msat hop -> sum_fees [hop; last] < 21000000 * 100000000 * 1000 ->
  cltv_expiry_delta last = 0 -> 0 <= cltv_expiry_delta hop -> 0 <= offset -> offset + cltv_expiry_delta hop < 500000000 ->
  exists p q, build_onion_payloads [hop; last] total_msat payment_secret_option offset keysend_preimage =
      Ret (Ok ([p; q], sum_fees [hop; last], offset + cltv_expiry_delta hop)) /\
    OnionHopData.outgoing_cltv_value p = offset + cltv_expiry_delta hop /\ OnionHopData.outgoing_cltv_value q = offset.
Proof.
  intros Hf Hf0 Hs Hd Hd0 Ho Hl. assert (E : sum_fees [hop; last] = fee_msat last + fee_msat hop) by (cbn; lia). rewrite E in *.
  unfold build_onion_payloads. cbn [rev app payloads_loop]. unfold add64, add32. rewrite Hd, !Z.eqb_refl.
  cbn [Z.add]. repeat (rewrite checked_op_ok by (unfold in_width; lia); cbn [mbind outcome_bind];
    rewrite ?(proj2 (Z.leb_gt _ _)) by lia). rewrite Z.add_0_r, Z.eqb_refl.
  repeat (rewrite checked_op_ok by (unfold in_width; lia); cbn [mbind outcome_bind]; rewrite ?(proj2 (Z.leb_gt _ _)) by lia).
  eexists _, _. split; [done|]. split; [|done]. cbn. lia.
Qed.
End Payloads.
