(* ===== verification/OnionError.v ===== *)
(** * Failures on the way back: onion_utils.rs

    The hop that fails an HTLC authenticates a reason with the secret it shares with the
    sender and encrypts it; each hop on the way back encrypts it once more.  The sender
    peels the layers in the order of the route until one authenticates, and reads from the
    reason what to tell the network graph and the scorer, and whether a retry makes sense.
    What the probes learn is this verdict. *)

From S2P Require Import Prelude Text HexUtils Bytes ChaCha20 Poly1305 Poly1305Spec Stream Ser SerLaws Aead Tlv Features Msgs Noise OnionHop ChannelMsgs ChannelMsgsLaws GossipMsgs Onion OnionSpec.

Local Open Scope Z_scope.

(** ** [get_onion_debug_field] of util/errors.rs *)

Definition get_onion_debug_field (error_code : Z) : string * nat :=
  match Z.land error_code 0xff with
  | 4 | 5 | 6 => ("sha256_of_onion", 32%nat)
  | 11 | 12 => ("htlc_msat", 8%nat)
  | 13 | 18 => ("cltv_expiry", 4%nat)
  | 19 => ("incoming_htlc_msat", 8%nat)
  | 20 => ("flags", 2%nat)
  | _ => ("", 0%nat)
  end.

(** ** [NetworkUpdate] of routing/gossip.rs *)

Inductive NetworkUpdate `{Secp} :=
| ChannelUpdateMessage (msg : ChannelUpdate.t)
| ChannelFailure (short_channel_id : Z) (is_permanent : bool)
| NodeFailure (node_id : PublicKey) (is_permanent : bool).

(** [slice.get(i..j)]. *)
Definition get_range (i j : nat) (l : bytes) : option bytes :=
  if ((i <=? j) && (j <=? length l))%nat then Some (slice i j l) else None.

Definition PERM : Z := 0x4000.
Definition NODE : Z := 0x2000.
Definition UPDATE : Z := 0x1000.
Definition has_flag (error_code flag : Z) : bool := Z.land error_code flag =? flag.

(** [checked_mul] and [checked_add] on u64. *)
Definition checked64 (z : Z) : option Z := if in_widthb 64 z then Some z else None.

Section OnionError.
Context `{OnionCrypto} `{FixedTimeEq}.

(** ** The failing hop and the hops before it *)

Definition encrypt_failure_packet (shared_secret raw_packet : bytes) : outcome OnionErrorPacket.t :=
  ammag ← gen_ammag_from_shared_secret shared_secret;
  chacha ← ChaCha20.new ammag zero_nonce;
  '(packet_crypted, _) ← ChaCha20.process chacha raw_packet (length raw_packet);
  Ret (OnionErrorPacket.mk packet_crypted).

Definition build_failure_packet (shared_secret : bytes) (failure_type : Z) (failure_data : bytes) :
    outcome DecodedOnionErrorPacket.t :=
  _ ← assert_32 shared_secret;
  if (256 - 2 <? length failure_data)%nat then Panic "assertion failed: failure_data.len() <= 256 - 2"
  else
    um ← gen_um_from_shared_secret shared_secret;
    let failuremsg := wrap 8 (Z.land (Z.shiftr failure_type 8) 0xff) :: wrap 8 (Z.land (Z.shiftr failure_type 0) 0xff) :: failure_data in
    let pad := replicate (256 - 2 - length failure_data) 0 in
    let packet := DecodedOnionErrorPacket.mk (replicate 32 0) failuremsg pad in
    let hmac := hmac_sha256 um (drop 32 (encode DecodedOnionErrorPacket.codec packet)) in
    Ret (DecodedOnionErrorPacket.mk hmac failuremsg pad).

Definition build_first_hop_failure_packet (shared_secret : bytes) (failure_type : Z) (failure_data : bytes) :
    outcome OnionErrorPacket.t :=
  failure_packet ← build_failure_packet shared_secret failure_type failure_data;
  encrypt_failure_packet shared_secret (encode DecodedOnionErrorPacket.codec failure_packet).

(** ** The sender *)

(** Whether a channel update that came with a failure could not have caused it. *)
Definition is_chan_update_invalid (error_code amt_to_forward : Z) (route_hop : RouteHop) (contents : UnsignedChannelUpdate.t) : bool :=
  match Z.land error_code 0xff with
  | 7 => false
  | 11 => UnsignedChannelUpdate.htlc_minimum_msat contents <? amt_to_forward
  | 12 =>
      match
        (prop_fee ← checked64 (amt_to_forward * UnsignedChannelUpdate.fee_proportional_millionths contents);
         checked64 (prop_fee / 1000000 + UnsignedChannelUpdate.fee_base_msat contents))
      with
      | Some fee_msats => fee_msats <=? fee_msat route_hop
      | None => false
      end
  | 13 => UnsignedChannelUpdate.cltv_expiry_delta contents <=? wrap 16 (cltv_expiry_delta route_hop)
  | 14 => false
  | 20 => Z.land (UnsignedChannelUpdate.flags contents) 2 =? 0
  | _ => false
  end.

(** The channel update inside a failure, without the type that may precede it. *)
Definition update_slice_of (failuremsg : bytes) (debug_field_size : nat) : option bytes :=
  update_len_slice ← get_range (debug_field_size + 2) (debug_field_size + 4) failuremsg;
  let update_len := Z.to_nat (Bytes.from_be_bytes update_len_slice) in
  update_slice ← get_range (debug_field_size + 4) (debug_field_size + 4 + update_len) failuremsg;
  Some (if (2 <? length update_slice)%nat && bool_decide (slice 0 2 update_slice = to_be_bytes 2 258)
        then drop 2 update_slice else update_slice).

(** The branch of the codes with the flag [UPDATE]. *)
Definition process_update (route_hop failing_route_hop : RouteHop) (amt_to_forward error_code : Z) (failuremsg : bytes) :
    outcome (option NetworkUpdate * option Z) :=
  '(network_update, scid) ←
    match update_slice_of failuremsg (get_onion_debug_field error_code).2 with
    | None => Ret (None, None)
    | Some update_slice =>
        r ← fst (run (c_read ChannelUpdate.codec) update_slice);
        match r with
        | Err _ => Ret (None, None)
        | Ok chan_update =>
            let contents := ChannelUpdate.contents chan_update in
            if is_chan_update_invalid error_code amt_to_forward route_hop contents then
              Ret (Some (ChannelFailure (short_channel_id route_hop) true), None)
            else
              Ret (Some (ChannelUpdateMessage chan_update),
                   if short_channel_id failing_route_hop =? UnsignedChannelUpdate.short_channel_id contents
                   then Some (short_channel_id failing_route_hop) else None)
        end
    end;
  Ret (match network_update with None => Some (NodeFailure (pubkey route_hop) true) | u => u end,
       match scid with None => Some (short_channel_id route_hop) | s => s end).

(** The verdict on an authenticated reason with a code. *)
Definition process_code (route_hop failing_route_hop : RouteHop) (amt_to_forward : Z) (is_from_final_node : bool)
    (error_code : Z) (failuremsg : bytes) : outcome (option NetworkUpdate * option Z * bool) :=
  let payment_failed :=
    match Z.land error_code 0xff with 15 | 16 | 17 | 18 | 19 | 23 => true | _ => false end && is_from_final_node in
  '(network_update, scid) ←
    (if has_flag error_code NODE then
       Ret (Some (NodeFailure (pubkey route_hop) (has_flag error_code PERM)), Some (short_channel_id route_hop))
     else if has_flag error_code PERM then
       if negb payment_failed then
         Ret (Some (ChannelFailure (short_channel_id failing_route_hop) true), Some (short_channel_id failing_route_hop))
       else Ret (None, None)
     else if has_flag error_code UPDATE then
       process_update route_hop failing_route_hop amt_to_forward error_code failuremsg
     else if payment_failed then
       Ret (None, match Z.land error_code 0xff with 18 | 19 => Some (short_channel_id route_hop) | _ => None end)
     else Ret (Some (NodeFailure (pubkey route_hop) true), Some (short_channel_id route_hop)));
  Ret (network_update, scid, negb (has_flag error_code PERM && is_from_final_node)).

(** The variables the closure of [process_onion_failure] captures. *)
Record failure_state := mkFailure {
  f_res : option (option NetworkUpdate * option Z * bool);
  f_htlc_msat : Z;
  f_error_code_ret : option Z;
  f_error_packet_ret : option bytes;
  f_is_from_final_node : bool;
  f_packet_decrypted : bytes;
}.

(** The closure, called with the secret of the hop at [route_hop_idx] of [path]. *)
Definition failure_callback (path : list RouteHop) (route_hop_idx : nat) (secret : hop_secret) (st : failure_state) :
    outcome failure_state :=
  match f_res st with
  | Some _ => Ret st
  | None =>
      let route_hop := hs_hop secret in
      amt_to_forward ← sub64 (f_htlc_msat st) (fee_msat route_hop);
      ammag ← gen_ammag_from_shared_secret (hs_shared_secret secret);
      chacha ← ChaCha20.new ammag zero_nonce;
      '(packet_decrypted, _) ← ChaCha20.process chacha (f_packet_decrypted st) (length (f_packet_decrypted st));
      let is_from_final_node := (route_hop_idx + 1 =? length path)%nat in
      failing_route_hop ←
        (if is_from_final_node then Ret route_hop else Prelude.unwrap "index out of bounds" (path !! (route_hop_idx + 1)%nat));
      let st' := mkFailure None amt_to_forward (f_error_code_ret st) (f_error_packet_ret st) is_from_final_node packet_decrypted in
      r ← fst (run (c_read DecodedOnionErrorPacket.codec) packet_decrypted);
      match r with
      | Err _ => Ret st'
      | Ok err_packet =>
          um ← gen_um_from_shared_secret (hs_shared_secret secret);
          let hmac := hmac_sha256 um (drop 32 (encode DecodedOnionErrorPacket.codec err_packet)) in
          eq ← fixed_time_eq hmac (DecodedOnionErrorPacket.hmac err_packet);
          if negb (eq : bool) then Ret st'
          else
            let failuremsg := DecodedOnionErrorPacket.failuremsg err_packet in
            match get_range 0 2 failuremsg with
            | Some error_code_slice =>
                let error_code := Bytes.from_be_bytes error_code_slice in
                res ← process_code route_hop failing_route_hop amt_to_forward is_from_final_node error_code failuremsg;
                Ret (mkFailure (Some res) amt_to_forward (Some error_code) (Some (drop 2 failuremsg)) is_from_final_node packet_decrypted)
            | None =>
                Ret (mkFailure (Some (Some (NodeFailure (pubkey route_hop) true), Some (short_channel_id route_hop), negb is_from_final_node))
                       amt_to_forward (f_error_code_ret st) (f_error_packet_ret st) is_from_final_node packet_decrypted)
            end
      end
  end.

Fixpoint failure_loop (path : list RouteHop) (idx : nat) (secrets : list hop_secret) (st : failure_state) : outcome failure_state :=
  match secrets with
  | [] => Ret st
  | s :: secrets' => st ← failure_callback path idx s st; failure_loop path (S idx) secrets' st
  end.

Definition process_onion_failure (path : list RouteHop) (session_priv : SecretKey) (first_hop_htlc_msat : Z) (packet_decrypted : bytes) :
    outcome (option NetworkUpdate * option Z * bool * option Z * option bytes) :=
  secrets ← Prelude.unwrap "Route that we sent via spontaneously grew invalid keys in the middle of it?"
              (construct_onion_keys_callback path session_priv);
  st ← failure_loop path 0 secrets (mkFailure None first_hop_htlc_msat None None false packet_decrypted);
  Ret (match f_res st with
       | Some (channel_update, scid, payment_retryable) =>
           (channel_update, scid, payment_retryable, f_error_code_ret st, f_error_packet_ret st)
       | None => (None, None, negb (f_is_from_final_node st), None, None)
       end).
End OnionError.

(** * The sender's verdict on a failure

    One layer of encryption as a function on bytes; a verdict is always reached and blames
    only the route; a reason given by a hop is attributed to that hop. *)

(** ** One layer as a function on bytes *)

Section Layer.
Context `{OnionLaws} `{!SecpLaws} `{!NoiseLaws} `{!FixedTimeEq} `{!FixedTimeEqLaws}.

Definition peel (shared_secret d : bytes) : bytes :=
  match ChaCha20.new (hmac_sha256 [0x61; 0x6d; 0x6d; 0x61; 0x67] shared_secret) zero_nonce with
  | Ret c => match bytewise c d with Ret (y, _) => y | _ => [] end
  | _ => []
  end.

Lemma peel_spec shared_secret d :
  length shared_secret = 32%nat -> Z.of_nat (length d) < 2 ^ 16 ->
  exists ammag c c', gen_ammag_from_shared_secret shared_secret = Ret ammag /\ ChaCha20.new ammag zero_nonce = Ret c /\
    ChaCha20.process c d (length d) = Ret (peel shared_secret d, c') /\
    length (peel shared_secret d) = length d /\ (all_u8 d -> all_u8 (peel shared_secret d)) /\
    peel shared_secret (peel shared_secret d) = d.
Proof.
  intros Hs Hl. unfold peel, gen_ammag_from_shared_secret, assert_32, process, process_in_place. rewrite Hs. cbn [Nat.eqb mbind outcome_bind].
  set (ammag := hmac_sha256 _ _). assert (La : length ammag = 32%nat) by apply hmac_array.
  destruct (fresh_cipher ammag zero_nonce La eq_refl) as (c & Ec & Hok & Hav). rewrite Ec.
  pose proof Hok as (Hb & Hw & _). destruct (bytewise_total c d Hb Hw) as (y & c' & Ey); [lia|].
  exists ammag, c, c'. rewrite decide_True, process_loop_bytewise, Ey by (done || lia).
  split_and!; [done..|by eapply length_bytewise|intros; by eapply bytewise_ok|]. by rewrite (bytewise_involutive _ _ _ _ Ey).
Qed.

(** The reason in a peeled packet, when it authenticates. *)
Definition authentic (shared_secret packet : bytes) : option DecodedOnionErrorPacket.t :=
  match fst (run (c_read DecodedOnionErrorPacket.codec) packet) with
  | Ret (Ok p) =>
      if bool_decide (hmac_sha256 (hmac_sha256 [0x75; 0x6d] shared_secret) (drop 32 (encode DecodedOnionErrorPacket.codec p))
                      = DecodedOnionErrorPacket.hmac p)
      then Some p else None
  | _ => None
  end.

(** The channel blamed for a failure at hop [idx] that is not about its inbound side. *)
Definition next_hop (path : list RouteHop) (idx : nat) (hop : RouteHop) : RouteHop := default hop (path !! (idx + 1)%nat).

Lemma failing_hop (path : list RouteHop) idx hop : (idx < length path)%nat ->
  (if (idx + 1 =? length path)%nat then Ret hop else Prelude.unwrap "index out of bounds" (path !! (idx + 1)%nat)) =
  Ret (next_hop path idx hop).
Proof.
  intros Hi. unfold next_hop. destruct (Nat.eqb_spec (idx + 1) (length path)) as [E|E].
  - by rewrite lookup_ge_None_2 by lia.
  - by destruct (lookup_lt_is_Some_2 path (idx + 1)) as [h ->]; [lia|].
Qed.

(** One call of the closure. *)
Lemma failure_callback_spec path idx secret st :
  f_res st = None -> length (hs_shared_secret secret) = 32%nat -> sized (f_packet_decrypted st) ->
  (idx < length path)%nat -> 0 <= fee_msat (hs_hop secret) <= f_htlc_msat st -> u64 (f_htlc_msat st) ->
  let hop := hs_hop secret in
  let amt := f_htlc_msat st - fee_msat hop in
  let final := (idx + 1 =? length path)%nat in
  let packet := peel (hs_shared_secret secret) (f_packet_decrypted st) in
  sized packet /\
  failure_callback path idx secret st =
  match authentic (hs_shared_secret secret) packet with
  | None => Ret (mkFailure None amt (f_error_code_ret st) (f_error_packet_ret st) final packet)
  | Some p =>
      let msg := DecodedOnionErrorPacket.failuremsg p in
      match get_range 0 2 msg with
      | Some code =>
          res ← process_code hop (next_hop path idx hop) amt final (Bytes.from_be_bytes code) msg;
          Ret (mkFailure (Some res) amt (Some (Bytes.from_be_bytes code)) (Some (drop 2 msg)) final packet)
      | None =>
          Ret (mkFailure (Some (Some (NodeFailure (pubkey hop) true), Some (short_channel_id hop), negb final)) amt
                 (f_error_code_ret st) (f_error_packet_ret st) final packet)
      end
  end.
Proof.
  intros Hr Hs [Hu Hl] Hi Hf Hm hop amt final packet.
  destruct (peel_spec _ _ Hs Hl) as (ammag & c & c' & Ea & Ec & Ep & Lp & Up & _). fold packet in Ep, Lp, Up.
  assert (Hsz : sized packet) by (split; [auto|by rewrite Lp]). split; [done|].
  unfold failure_callback. rewrite Hr. fold hop. unfold sub64. rewrite checked_op_ok by (unfold u64, in_width, hop in *; lia).
  cbn [mbind outcome_bind]. rewrite Ea. cbn [mbind outcome_bind]. rewrite Ec. cbn [mbind outcome_bind]. rewrite Ep.
  cbn [mbind outcome_bind]. rewrite failing_hop by done. cbn [mbind outcome_bind]. fold final amt. unfold authentic.
  destruct (decoded_error_total packet Hsz) as (r & rest & Er). rewrite Er. cbn [fst mbind outcome_bind].
  destruct r as [p|e]; [|done]. pose proof (decoded_error_typed _ _ _ (proj1 Hsz) Er) as [[Lh _] _].
  unfold gen_um_from_shared_secret, assert_32. rewrite Hs. cbn [Nat.eqb mbind outcome_bind].
  rewrite fixed_time_eq_spec by (rewrite Lh; apply hmac_array). cbn [mbind outcome_bind]. by case_bool_decide.
Qed.

(** ** Whatever comes back, no panic and no blame outside the route *)

Definition on_route (path : list RouteHop) (v : option NetworkUpdate * option Z * bool) : Prop :=
  match v.1.1 with
  | Some (ChannelFailure scid _) => scid ∈ short_channel_id <$> path
  | Some (NodeFailure node_id _) => node_id ∈ pubkey <$> path
  | _ => True
  end /\ (forall scid, v.1.2 = Some scid -> scid ∈ short_channel_id <$> path).

Lemma sized_slice i j bs : sized bs -> sized (slice i j bs).
Proof.
  intros [Hu Hl]. unfold slice. split; [by apply Forall_take, Forall_drop|]. rewrite length_take, length_drop. lia.
Qed.

Lemma sized_drop n bs : sized bs -> sized (drop n bs).
Proof. intros [Hu Hl]. split; [by apply Forall_drop|]. rewrite length_drop. lia. Qed.

Lemma update_slice_sized msg n s : sized msg -> update_slice_of msg n = Some s -> sized s.
Proof.
  intros Hm. unfold update_slice_of, get_range. intros E. repeat (case_match; cbn in E; try done); simplify_eq;
    try apply sized_drop; by apply sized_slice.
Qed.

Lemma process_update_safe path hop next amt code msg :
  hop ∈ path -> next ∈ path -> sized msg ->
  exists u s, process_update hop next amt code msg = Ret (u, s) /\ on_route path (u, s, false).
Proof.
  intros Hh Hn Hm. unfold process_update.
  assert (Hhp : pubkey hop ∈ pubkey <$> path) by by apply list_elem_of_fmap_2.
  assert (Hhs : short_channel_id hop ∈ short_channel_id <$> path) by by apply list_elem_of_fmap_2.
  assert (Hns : short_channel_id next ∈ short_channel_id <$> path) by by apply list_elem_of_fmap_2.
  destruct (update_slice_of _ _) as [s|] eqn:Es; cbn [mbind outcome_bind].
  2: { eexists _, _. split; [done|]. split; [done|]. by intros ? [= <-]. }
  destruct (channel_update_total s (update_slice_sized _ _ _ Hm Es)) as (r & rest & ->). cbn [fst mbind outcome_bind].
  destruct r as [cu|e]; [destruct (is_chan_update_invalid _ _ _ _); [|destruct (_ =? _)]|]; cbn [mbind outcome_bind];
    (eexists _, _; split; [done|]; split; [done|]; by intros ? [= <-]).
Qed.

Lemma process_code_safe path hop next amt final code msg :
  hop ∈ path -> next ∈ path -> sized msg ->
  exists v, process_code hop next amt final code msg = Ret v /\ on_route path v /\ v.2 = negb (has_flag code PERM && final).
Proof.
  intros Hh Hn Hm. unfold process_code.
  assert (Hhp : pubkey hop ∈ pubkey <$> path) by by apply list_elem_of_fmap_2.
  assert (Hhs : short_channel_id hop ∈ short_channel_id <$> path) by by apply list_elem_of_fmap_2.
  assert (Hns : short_channel_id next ∈ short_channel_id <$> path) by by apply list_elem_of_fmap_2.
  destruct (process_update_safe path hop next amt code msg Hh Hn Hm) as (u & s & Eu & Hu).
  generalize (match Z.land code 0xff with 15 | 16 | 17 | 18 | 19 | 23 => true | _ => false end && final).
  intros payment_failed. cbv zeta.
  destruct (has_flag code NODE); [|destruct (has_flag code PERM) eqn:Ep; [destruct (negb payment_failed)|
    destruct (has_flag code UPDATE); [rewrite Eu|destruct payment_failed]]]; cbn [mbind outcome_bind];
    (eexists; split; [done|]; split; [|done]); (exact Hu || (split; [done|]));
    cbn [fst snd]; intros ? E; repeat case_match; by simplify_eq.
Qed.

Definition total_fees (hops : list RouteHop) : Z := foldr Z.add 0 (fee_msat <$> hops).

Lemma secrets_of path b secrets :
  construct_onion_keys_callback path b = Some secrets ->
  (hs_hop <$> secrets) = path /\ Forall (fun s => length (hs_shared_secret s) = 32%nat) secrets.
Proof.
  revert b secrets. induction path as [|hop path IH]; intros b secrets E; cbn in E; [by injection E as <-|].
  destruct (sk_mul b _) as [b'|]; cbn in E; [|done].
  destruct (construct_onion_keys_callback path b') as [rest|] eqn:Er; cbn in E; [|done]. injection E as <-.
  destruct (IH _ _ Er) as [<- Hf]. split; [done|]. constructor; [apply ecdh_array|done].
Qed.

Lemma failure_loop_done path secrets : forall idx st, f_res st <> None -> failure_loop path idx secrets st = Ret st.
Proof.
  induction secrets as [|s secrets IH]; intros idx st Hr; [done|]. cbn [failure_loop]. unfold failure_callback.
  destruct (f_res st) eqn:E; [|done]. cbn. apply IH. by rewrite E.
Qed.

Lemma next_hop_on_path path idx hop : path !! idx = Some hop -> next_hop path idx hop ∈ path.
Proof.
  intros Hh. unfold next_hop. destruct (path !! (idx + 1)%nat) as [h|] eqn:E; cbn; by eapply list_elem_of_lookup_2.
Qed.

Lemma total_fees_nonneg hops : Forall (fun h => 0 <= fee_msat h) hops -> 0 <= total_fees hops.
Proof. unfold total_fees. induction 1; cbn; lia. Qed.

Lemma authentic_inv ss packet p : sized packet -> authentic ss packet = Some p -> sized (DecodedOnionErrorPacket.failuremsg p).
Proof.
  intros [Hu Hl] E. unfold authentic in E. destruct (run _ packet) as [r rest] eqn:Er. cbn [fst] in E.
  destruct r as [[p'|]| |]; try done. case_bool_decide; [|done]. injection E as ->.
  destruct (decoded_error_typed _ _ _ Hu Er) as (_ & [Hm Hml] & _). split; [done|]. unfold len_ok in *. lia.
Qed.

(** What the next hop is given. *)
Lemma route_step path idx s secrets m :
  (hs_hop <$> s :: secrets) = drop idx path -> Forall (fun h => 0 <= fee_msat h) path -> total_fees (drop idx path) <= m ->
  path !! idx = Some (hs_hop s) /\ (idx < length path)%nat /\ (hs_hop <$> secrets) = drop (S idx) path /\
  0 <= fee_msat (hs_hop s) <= m /\ total_fees (drop (S idx) path) <= m - fee_msat (hs_hop s).
Proof.
  intros Hd Hf Ht. cbn [fmap list_fmap] in Hd.
  assert (Hh : path !! idx = Some (hs_hop s)).
  { rewrite <- (Nat.add_0_r idx), <- lookup_drop. by rewrite <- Hd. }
  assert (Hd' : (hs_hop <$> secrets) = drop (S idx) path).
  { rewrite <- (Nat.add_1_r idx), <- drop_drop, <- Hd. done. }
  pose proof (total_fees_nonneg _ (Forall_drop _ (S idx) _ Hf)). pose proof (Forall_lookup_1 _ _ _ _ Hf Hh).
  rewrite <- Hd in Ht. unfold total_fees in Ht. cbn [fmap list_fmap foldr] in Ht. fold (total_fees (hs_hop <$> secrets)) in Ht.
  rewrite Hd' in Ht. cbn in *. split_and!; [done|by eapply lookup_lt_Some|done|lia..].
Qed.

Lemma failure_loop_safe path secrets : forall idx st,
  f_res st = None -> (hs_hop <$> secrets) = drop idx path -> Forall (fun s => length (hs_shared_secret s) = 32%nat) secrets ->
  sized (f_packet_decrypted st) -> Forall (fun h => 0 <= fee_msat h) path ->
  total_fees (drop idx path) <= f_htlc_msat st -> u64 (f_htlc_msat st) ->
  exists st', failure_loop path idx secrets st = Ret st' /\ (forall v, f_res st' = Some v -> on_route path v).
Proof.
  induction secrets as [|s secrets IH]; intros idx st Hr Hd Hs Hp Hf Ht Hm.
  { exists st. split; [done|]. intros v. by rewrite Hr. }
  apply Forall_cons in Hs as [Hs0 Hs]. destruct (route_step _ _ _ _ _ Hd Hf Ht) as (Hh & Hi & Hd' & Hfee & Ht').
  destruct (failure_callback_spec path idx s st Hr Hs0 Hp Hi Hfee Hm) as [Hsz Ecb].
  cbn [failure_loop]. rewrite Ecb. destruct (authentic _ _) as [p|] eqn:Eau.
  - cbv zeta. destruct (get_range 0 2 _) as [code|].
    + destruct (process_code_safe path (hs_hop s) (next_hop path idx (hs_hop s)) (f_htlc_msat st - fee_msat (hs_hop s))
        (idx + 1 =? length path)%nat (Bytes.from_be_bytes code) (DecodedOnionErrorPacket.failuremsg p)) as (v & Ev & Hv & _).
      * by eapply list_elem_of_lookup_2.
      * by apply next_hop_on_path.
      * by eapply authentic_inv.
      * rewrite Ev. cbn [mbind outcome_bind]. rewrite failure_loop_done by done. eexists. split; [done|].
        cbn [f_res]. by intros ? [= <-].
    + cbn [mbind outcome_bind]. rewrite failure_loop_done by done. eexists. split; [done|]. cbn [f_res]. intros ? [= <-].
      apply list_elem_of_lookup_2 in Hh. split; cbn [fst snd]; [|intros ? [= <-]]; by apply list_elem_of_fmap_2.
  - cbn [mbind outcome_bind]. apply IH; cbn [f_res f_htlc_msat f_packet_decrypted]; try done. unfold in_width in *; lia.
Qed.

(** C8: a packet that comes back for a payment, whatever its bytes, gives a verdict without a
    panic, and a node or channel the verdict says has failed is one of the route's. *)
Theorem failure_verdict_safe (path : list RouteHop) (session_priv : SecretKey) (first_hop_htlc_msat : Z) (packet : bytes) :
  construct_onion_keys_callback path session_priv <> None ->
  Forall (fun h => 0 <= fee_msat h) path -> total_fees path <= first_hop_htlc_msat < 2 ^ 64 -> sized packet ->
  exists v code data, process_onion_failure path session_priv first_hop_htlc_msat packet = Ret (v, code, data) /\ on_route path v.
Proof.
  intros Hk Hf Hm Hp. unfold process_onion_failure. destruct (construct_onion_keys_callback _ _) as [secrets|] eqn:E; [|done].
  cbn [Prelude.unwrap mbind outcome_bind]. destruct (secrets_of _ _ _ E) as [Eh Hs]. pose proof (total_fees_nonneg path Hf).
  destruct (failure_loop_safe path secrets 0 (mkFailure None first_hop_htlc_msat None None false packet)) as (st & -> & Hv);
    cbn [f_res f_htlc_msat f_packet_decrypted]; rewrite ?drop_0; try done; [lia|unfold in_width; lia|].
  cbn [mbind outcome_bind]. destruct (f_res st) as [[[u s] r]|] eqn:Er.
  - exists (u, s, r). eexists _, _. split; [done|]. by apply Hv.
  - eexists (_, _, _), _, _. split; [done|]. by split.
Qed.

(** ** A reason is attributed to the hop that gave it *)

(** The hops before the failing one encrypt the reason once more each, the last of them first. *)
Fixpoint return_trip (secrets : list hop_secret) (reason : bytes) : outcome bytes :=
  match secrets with
  | [] => Ret reason
  | s :: secrets' =>
      d ← return_trip secrets' reason;
      p ← encrypt_failure_packet (hs_shared_secret s) d;
      Ret (OnionErrorPacket.data p)
  end.

Definition layers (secrets : list hop_secret) (reason : bytes) : bytes :=
  foldr (fun s d => peel (hs_shared_secret s) d) reason secrets.

Lemma encrypt_failure_peel ss d : length ss = 32%nat -> Z.of_nat (length d) < 2 ^ 16 ->
  encrypt_failure_packet ss d = Ret (OnionErrorPacket.mk (peel ss d)).
Proof.
  intros Hs Hl. destruct (peel_spec ss d Hs Hl) as (ammag & c & c' & Ea & Ec & Ep & _). unfold encrypt_failure_packet.
  rewrite Ea. cbn [mbind outcome_bind]. rewrite Ec. cbn [mbind outcome_bind]. by rewrite Ep.
Qed.

Lemma return_trip_layers secrets reason :
  Forall (fun s => length (hs_shared_secret s) = 32%nat) secrets -> sized reason ->
  return_trip secrets reason = Ret (layers secrets reason) /\ sized (layers secrets reason).
Proof.
  intros Hs Hr. induction Hs as [|s secrets Hss Hs [E Hz]]; [done|]. cbn [return_trip layers foldr].
  fold (layers secrets reason). rewrite E. cbn [mbind outcome_bind]. rewrite encrypt_failure_peel by (done || apply Hz).
  split; [done|]. destruct (peel_spec _ _ Hss (proj2 Hz)) as (_ & _ & _ & _ & _ & _ & Lp & Up & _).
  split; [apply Up, Hz|]. rewrite Lp. apply Hz.
Qed.

(** The reason a failing hop builds is one its secret authenticates. *)
Lemma failure_code_bytes code : u16 code ->
  Bytes.from_be_bytes [wrap 8 (Z.land (Z.shiftr code 8) 0xff); wrap 8 (Z.land (Z.shiftr code 0) 0xff)] = code.
Proof.
  intros Hc. unfold Bytes.from_be_bytes, wrap. cbn [rev app from_le_bytes].
  change 0xff with (Z.ones 8). rewrite !Z.land_ones, Z.shiftr_0_r, Z.shiftr_div_pow2, !Z.mod_mod by lia.
  change (2 ^ 8) with 256. unfold in_width in Hc. rewrite (Z.mod_small (code / 256)).
  - pose proof (Z.div_mod code 256). lia.
  - split; [apply Z.div_pos; lia|]. apply Z.div_lt_upper_bound; lia.
Qed.

Lemma build_failure_packet_spec ss code data :
  length ss = 32%nat -> u16 code -> all_u8 data -> (length data <= 254)%nat ->
  exists p, build_failure_packet ss code data = Ret p /\ sized (encode DecodedOnionErrorPacket.codec p) /\
    authentic ss (encode DecodedOnionErrorPacket.codec p) = Some p /\
    exists c, DecodedOnionErrorPacket.failuremsg p = c ++ data /\ length c = 2%nat /\ Bytes.from_be_bytes c = code.
Proof.
  intros Hs Hc Hd Hl. unfold build_failure_packet, gen_um_from_shared_secret, assert_32. rewrite Hs. cbn [Nat.eqb mbind outcome_bind].
  replace (256 - 2 <? length data)%nat with false by (symmetry; apply Nat.ltb_ge; lia).
  set (msg := _ :: _ :: data). set (pad := replicate (256 - 2 - length data) 0). set (um := hmac_sha256 [0x75; 0x6d] ss).
  set (p0 := DecodedOnionErrorPacket.mk (replicate 32 0) msg pad).
  set (hmac := hmac_sha256 um (drop 32 (encode DecodedOnionErrorPacket.codec p0))).
  eexists. split; [done|]. set (p := DecodedOnionErrorPacket.mk hmac msg pad).
  destruct (hmac_array um (drop 32 (encode DecodedOnionErrorPacket.codec p0))) as [Lh Uh]. fold hmac in Lh, Uh.
  assert (Hm : all_u8 msg).
  { unfold msg. constructor; [apply wrap_in_width; lia|]. constructor; [apply wrap_in_width; lia|done]. }
  assert (Lm : length msg = (2 + length data)%nat) by done.
  assert (Lp : length pad = (254 - length data)%nat) by (unfold pad; rewrite length_replicate; lia).
  assert (Hok : DecodedOnionErrorPacket.ok p).
  { split; [done|]. split; (split; [unfold len_ok; cbn [p DecodedOnionErrorPacket.failuremsg DecodedOnionErrorPacket.pad]; lia|]); [done|].
    by apply Forall_replicate. }
  set (tail := to_be_bytes 2 (len16 msg) ++ msg ++ to_be_bytes 2 (len16 pad) ++ pad).
  assert (Ee : forall h, encode DecodedOnionErrorPacket.codec (DecodedOnionErrorPacket.mk h msg pad) = h ++ tail).
  { intros h. unfold encode, vec_writer. cbn. by rewrite !List.app_nil_r. }
  assert (Ed : drop 32 (encode DecodedOnionErrorPacket.codec p) = drop 32 (encode DecodedOnionErrorPacket.codec p0)).
  { unfold p, p0. rewrite !Ee, !drop_app_length'; [done|by rewrite length_replicate|done]. }
  split_and!.
  - unfold p. rewrite Ee. split.
    + unfold tail. rewrite !Forall_app. split_and!; [done|apply to_be_bytes_u8|done|apply to_be_bytes_u8|by apply Forall_replicate].
    + unfold tail. rewrite !length_app, !length_to_be_bytes, Lh, Lm, Lp. lia.
  - unfold authentic. rewrite (end_round_trip (c := DecodedOnionErrorPacket.codec) p Hok). cbn [fst]. rewrite Ed. by rewrite bool_decide_eq_true_2.
  - exists (take 2 msg). split; [done|]. split; [done|]. by apply failure_code_bytes.
Qed.

(** The amount that a hop of the route is asked to forward. *)
Lemma failure_loop_attributed path before s after : forall idx st p c,
  f_res st = None -> (hs_hop <$> before ++ s :: after) = drop idx path ->
  Forall (fun t => length (hs_shared_secret t) = 32%nat) (before ++ s :: after) ->
  Forall (fun h => 0 <= fee_msat h) path -> total_fees (drop idx path) <= f_htlc_msat st -> u64 (f_htlc_msat st) ->
  let reason := encode DecodedOnionErrorPacket.codec p in
  sized reason -> authentic (hs_shared_secret s) reason = Some p ->
  get_range 0 2 (DecodedOnionErrorPacket.failuremsg p) = Some c ->
  f_packet_decrypted st = layers (before ++ [s]) reason ->
  (forall pre t post, before = pre ++ t :: post -> authentic (hs_shared_secret t) (layers (post ++ [s]) reason) = None) ->
  let i := (idx + length before)%nat in
  let amt := f_htlc_msat st - total_fees (hs_hop <$> before ++ [s]) in
  exists v, process_code (hs_hop s) (next_hop path i (hs_hop s)) amt (i + 1 =? length path)%nat (Bytes.from_be_bytes c)
      (DecodedOnionErrorPacket.failuremsg p) = Ret v /\
    failure_loop path idx (before ++ s :: after) st =
      Ret (mkFailure (Some v) amt (Some (Bytes.from_be_bytes c)) (Some (drop 2 (DecodedOnionErrorPacket.failuremsg p)))
             (i + 1 =? length path)%nat reason).
Proof.
  induction before as [|t before IH]; intros idx st p c Hr Hd Hs Hf Ht Hm reason Hz Ha Hc Hp Hun i amt;
    cbn [app] in *; apply Forall_cons in Hs as [Hs0 Hs]; destruct (route_step _ _ _ _ _ Hd Hf Ht) as (Hh & Hi & Hd' & Hfee & Ht');
    cbn [layers foldr] in Hp.
  - destruct (peel_spec (hs_shared_secret s) reason Hs0 (proj2 Hz)) as (_ & _ & _ & _ & _ & _ & Lp & Up & Ei).
    destruct (failure_callback_spec path idx s st Hr Hs0) as [_ Ecb]; [rewrite Hp; split; [apply Up, Hz|rewrite Lp; apply Hz]|done..|].
    rewrite Hp, Ei, Ha in Ecb. cbv zeta in Ecb. rewrite Hc in Ecb.
    assert (Ei0 : i = idx) by (unfold i; cbn; lia). assert (Ea : amt = f_htlc_msat st - fee_msat (hs_hop s)) by (unfold amt, total_fees; cbn; lia).
    clearbody i amt. subst i amt.
    destruct (process_code_safe path (hs_hop s) (next_hop path idx (hs_hop s)) (f_htlc_msat st - fee_msat (hs_hop s))
        (idx + 1 =? length path)%nat (Bytes.from_be_bytes c) (DecodedOnionErrorPacket.failuremsg p)) as (v & Ev & _).
    { by eapply list_elem_of_lookup_2. }
    { by apply next_hop_on_path. }
    { by eapply authentic_inv. }
    exists v. split; [done|]. cbn [failure_loop]. rewrite Ecb, Ev. cbn [mbind outcome_bind].
    by rewrite failure_loop_done.
  - assert (Hss : Forall (fun t => length (hs_shared_secret t) = 32%nat) (before ++ [s])).
    { apply Forall_app in Hs as [Hb Hs]. apply Forall_app. split; [done|]. apply Forall_cons in Hs as [Hs1 _]. by constructor. }
    destruct (return_trip_layers (before ++ [s]) reason Hss Hz) as [_ Hzl]. fold (layers (before ++ [s]) reason) in Hp.
    destruct (peel_spec (hs_shared_secret t) (layers (before ++ [s]) reason) Hs0 (proj2 Hzl)) as (_ & _ & _ & _ & _ & _ & Lp & Up & Ei).
    destruct (failure_callback_spec path idx t st Hr Hs0) as [_ Ecb]; [rewrite Hp; split; [apply Up, Hzl|rewrite Lp; apply Hzl]|done..|].
    rewrite Hp, Ei, (Hun [] t before eq_refl) in Ecb. cbn [failure_loop]. rewrite Ecb. cbn [mbind outcome_bind].
    assert (Ea : amt = f_htlc_msat st - fee_msat (hs_hop t) - total_fees (hs_hop <$> before ++ [s])).
    { unfold amt, total_fees. cbn. lia. }
    assert (Ei0 : i = (S idx + length before)%nat) by (unfold i; cbn; lia). clearbody i amt. subst i amt.
    apply (IH (S idx) (mkFailure None (f_htlc_msat st - fee_msat (hs_hop t)) (f_error_code_ret st) (f_error_packet_ret st)
      (idx + 1 =? length path)%nat (layers (before ++ [s]) reason)) p c); try done; cbn [f_htlc_msat]; [unfold in_width in *; lia|].
    intros pre t' post ->. by apply (Hun (t :: pre)).
Qed.

(** C7: the hop that fails a payment is the one the sender holds responsible: a reason built by
    a hop and encrypted by the hops before it is read by the sender as that hop's, code and
    data intact, unless the secret of an earlier hop happens to authenticate it.  The
    payment is not worth a retry only when the destination says so for good, and when the
    destination says it does not know the payment, as it does to a probe, nobody is
    blamed. *)
Theorem failure_attributed (path : list RouteHop) (session_priv : SecretKey) (first_hop_htlc_msat : Z)
    (before : list hop_secret) (s : hop_secret) (after : list hop_secret) (code : Z) (data : bytes) :
  construct_onion_keys_callback path session_priv = Some (before ++ s :: after) ->
  Forall (fun h => 0 <= fee_msat h) path -> total_fees path <= first_hop_htlc_msat < 2 ^ 64 ->
  u16 code -> all_u8 data -> (length data <= 254)%nat ->
  (forall pre t post reason d, before = pre ++ t :: post ->
     build_first_hop_failure_packet (hs_shared_secret s) code data = Ret reason ->
     return_trip post (OnionErrorPacket.data reason) = Ret d -> authentic (hs_shared_secret t) d = None) ->
  exists reason packet v,
    build_first_hop_failure_packet (hs_shared_secret s) code data = Ret reason /\
    return_trip before (OnionErrorPacket.data reason) = Ret packet /\
    process_onion_failure path session_priv first_hop_htlc_msat packet = Ret (v, Some code, Some data) /\
    v.2 = negb (has_flag code PERM && bool_decide (after = [])) /\
    on_route (hs_hop s :: (hs_hop <$> take 1 after)) v /\
    (code = Z.lor PERM 15 -> after = [] -> v = (None, None, false)).
Proof.
  intros Hk Hf Hm Hc Hd Hl Hun. destruct (secrets_of _ _ _ Hk) as [Eh Hs].
  assert (Hss : length (hs_shared_secret s) = 32%nat) by (by apply Forall_app in Hs as [_ Hs]; apply Forall_cons in Hs as [? _]).
  assert (Hsb : Forall (fun t => length (hs_shared_secret t) = 32%nat) before) by (by apply Forall_app in Hs as [? _]).
  destruct (build_failure_packet_spec _ _ _ Hss Hc Hd Hl) as (p & Ep & Hz & Ha & cb & Em & Lc & Ec).
  assert (Eb : build_first_hop_failure_packet (hs_shared_secret s) code data =
    Ret (OnionErrorPacket.mk (layers [s] (encode DecodedOnionErrorPacket.codec p)))).
  { unfold build_first_hop_failure_packet. rewrite Ep. cbn [mbind outcome_bind]. by rewrite encrypt_failure_peel by (done || apply Hz). }
  assert (Hz1 : sized (layers [s] (encode DecodedOnionErrorPacket.codec p))) by (by apply return_trip_layers; [constructor|]).
  assert (Hlay : forall l, layers l (layers [s] (encode DecodedOnionErrorPacket.codec p)) = layers (l ++ [s]) (encode DecodedOnionErrorPacket.codec p))
    by (intros l; unfold layers; by rewrite foldr_app).
  eexists (OnionErrorPacket.mk _), (layers (before ++ [s]) (encode DecodedOnionErrorPacket.codec p)).
  set (i := length before). set (amt := first_hop_htlc_msat - total_fees (hs_hop <$> before ++ [s])).
  assert (Ef : (i + 1 =? length path)%nat = bool_decide (after = [])).
  { rewrite <- Eh, length_fmap, length_app. cbn [length]. fold i. destruct after; cbn [length];
      [rewrite bool_decide_eq_true_2 by done; apply Nat.eqb_eq; lia|rewrite bool_decide_eq_false_2 by done; apply Nat.eqb_neq; lia]. }
  assert (En : next_hop path i (hs_hop s) ∈ hs_hop s :: (hs_hop <$> take 1 after)).
  { unfold next_hop. rewrite <- Eh, list_lookup_fmap, lookup_app_r by lia. replace (i + 1 - length before)%nat with 1%nat by lia.
    destruct after; cbn; set_solver. }
  destruct (failure_loop_attributed path before s after 0 (mkFailure None first_hop_htlc_msat None None false
    (layers (before ++ [s]) (encode DecodedOnionErrorPacket.codec p))) p cb) as (v & Ev & El); cbn [f_res f_htlc_msat f_packet_decrypted]; rewrite ?drop_0; try done.
  { lia. } { pose proof (total_fees_nonneg path Hf). unfold in_width; lia. }
  { rewrite Em. unfold get_range. rewrite length_app, Lc. change (2 <=? 2 + length data)%nat with true. cbn [andb Nat.leb].
    unfold slice. cbn [Nat.sub]. by rewrite drop_0, take_app_length' by done. }
  { intros pre t post E. eapply Hun; [done|exact Eb|]. cbn [OnionErrorPacket.data]. rewrite <- Hlay. apply return_trip_layers; [|done].
    rewrite E in Hsb. apply Forall_app in Hsb as [_ Hsb]. by apply Forall_cons in Hsb as [_ ?]. }
  cbn [Nat.add f_htlc_msat] in Ev, El. fold i amt in Ev, El. rewrite Ef, Ec in *.
  destruct (process_code_safe (hs_hop s :: (hs_hop <$> take 1 after)) (hs_hop s) (next_hop path i (hs_hop s)) amt
    (bool_decide (after = [])) code (DecodedOnionErrorPacket.failuremsg p)) as (v' & Ev' & Hon & Hv2);
    [by left|done|exact (authentic_inv _ _ _ Hz Ha)|].
  rewrite Ev in Ev'. injection Ev' as <-. exists v. split_and!; try done.
  - cbn [OnionErrorPacket.data]. rewrite <- Hlay. by apply return_trip_layers.
  - unfold process_onion_failure. rewrite Hk. cbn [Prelude.unwrap mbind outcome_bind]. rewrite El. cbn [mbind outcome_bind f_res f_error_code_ret f_error_packet_ret].
    destruct v as [[u sc] r]. rewrite Em, drop_app_length' by done. done.
  - intros -> ->. rewrite bool_decide_eq_true_2 in Ev by done. unfold process_code in Ev. cbn in Ev. by injection Ev as <-.
Qed.
(** ** A packet nobody authenticated *)

Fixpoint unreadable (secrets : list hop_secret) (packet : bytes) : Prop :=
  match secrets with
  | [] => True
  | s :: secrets' =>
      let packet := peel (hs_shared_secret s) packet in
      authentic (hs_shared_secret s) packet = None /\ unreadable secrets' packet
  end.

Lemma failure_loop_unreadable path secrets : forall idx st,
  f_res st = None -> (hs_hop <$> secrets) = drop idx path -> Forall (fun s => length (hs_shared_secret s) = 32%nat) secrets ->
  sized (f_packet_decrypted st) -> Forall (fun h => 0 <= fee_msat h) path ->
  total_fees (drop idx path) <= f_htlc_msat st -> u64 (f_htlc_msat st) -> unreadable secrets (f_packet_decrypted st) ->
  exists st', failure_loop path idx secrets st = Ret st' /\ f_res st' = None /\
    f_is_from_final_node st' = if decide (secrets = []) then f_is_from_final_node st else true.
Proof.
  induction secrets as [|s secrets IH]; intros idx st Hr Hd Hs Hp Hf Ht Hm Hun; [by exists st|].
  apply Forall_cons in Hs as [Hs0 Hs]. destruct (route_step _ _ _ _ _ Hd Hf Ht) as (Hh & Hi & Hd' & Hfee & Ht').
  destruct Hun as [Ha Hun]. destruct (failure_callback_spec path idx s st Hr Hs0 Hp Hi Hfee Hm) as [Hsz Ecb].
  rewrite Ha in Ecb. cbn [failure_loop]. rewrite Ecb. cbn [mbind outcome_bind].
  edestruct (IH (S idx)) as (st' & -> & Hr' & Hfin); [..|exists st'; split_and!; [done..|]]; cbn [f_res f_htlc_msat f_packet_decrypted];
    try done; [unfold in_width in *; lia|]. rewrite Hfin. cbn [f_is_from_final_node]. case_decide as E; [|done]. subst secrets.
  apply Nat.eqb_eq. apply (f_equal length) in Hd'. rewrite length_fmap, length_drop in Hd'. cbn in Hd'. lia.
Qed.

(** A packet that no hop's secret authenticates, whichever hop it comes from, is taken for
    the answer of the destination: the payment is reported as not worth a retry. *)
Theorem garbage_blamed_on_destination (path : list RouteHop) (session_priv : SecretKey) (first_hop_htlc_msat : Z) (packet : bytes)
    (secrets : list hop_secret) :
  construct_onion_keys_callback path session_priv = Some secrets -> path <> [] ->
  Forall (fun h => 0 <= fee_msat h) path -> total_fees path <= first_hop_htlc_msat < 2 ^ 64 -> sized packet ->
  unreadable secrets packet ->
  process_onion_failure path session_priv first_hop_htlc_msat packet = Ret (None, None, false, None, None).
Proof.
  intros Hk Hne Hf Hm Hp Hun. destruct (secrets_of _ _ _ Hk) as [Eh Hs]. pose proof (total_fees_nonneg path Hf).
  unfold process_onion_failure. rewrite Hk. cbn [Prelude.unwrap mbind outcome_bind].
  destruct (failure_loop_unreadable path secrets 0 (mkFailure None first_hop_htlc_msat None None false packet)) as (st & -> & Hr & Hfin);
    cbn [f_res f_htlc_msat f_packet_decrypted]; rewrite ?drop_0; try done; [lia|unfold in_width; lia|].
  cbn [mbind outcome_bind]. rewrite Hr, Hfin, decide_False; [done|]. intros ->. by destruct path.
Qed.
End Layer.
