(* ===== verification/OnionCases.v ===== *)
(** * A route on which the theorems about onions and failures are applied

    A toy key exchange with secrets of 32 bytes, whose keys are unchanged by blinding,
    satisfies the laws of Onion.v. *)

From S2P Require Import Prelude Text Bytes ChaCha20 Stream Ser SerLaws Aead Tlv Features Msgs OnionHop Noise ChannelMsgs WireCases Onion OnionSpec OnionError.

Local Open Scope Z_scope.

#[local] Existing Instance toy_secp.
#[local] Existing Instance toy_secp_laws.

Definition sum_digest (m : bytes) : bytes := replicate 31 7 ++ [foldr Z.add 0 m `mod` 256].

#[local] Instance toy_route_noise : NoiseCrypto := {|
  SecretKey := bool; from_secret_key := fun s : bool => s;
  ecdh := fun (a b : bool) => sum_digest [if xorb a b then 1 else 0];
  sha256 := sum_digest; hmac_sha256 := fun k m => sum_digest (k ++ m);
|}.

Lemma sum_digest_array m : array_ok 32 (sum_digest m).
Proof.
  split; [done|]. unfold sum_digest. apply Forall_app. split; [apply Forall_replicate; by vm_compute|].
  constructor; [|constructor]. apply Z.mod_pos_bound. lia.
Qed.

#[local] Instance toy_route_noise_laws : NoiseLaws.
Proof. split; [apply sum_digest_array|intros; apply sum_digest_array|by intros [] []]. Qed.

#[local] Instance toy_onion : OnionCrypto := {| sk_mul := fun s _ => Some s; pk_mul := fun p _ => Some p |}.
#[local] Instance toy_onion_laws : OnionLaws.
Proof. split; [by intros s b s' [= ->]|intros; apply sum_digest_array]. Qed.

#[local] Instance toy_route_eq : FixedTimeEq := {|
  fixed_time_eq a b := if decide (length a = length b) then Ret (bool_decide (a = b)) else Panic "assertion failed: a.len() == b.len()"
|}.
#[local] Instance toy_route_eq_laws : FixedTimeEqLaws.
Proof. intros a b Hl. cbn. by rewrite decide_True. Qed.

Definition toy_path : list RouteHop :=
  [mkRouteHop _ true [0; 2] 77 [] 10 40; mkRouteHop _ false [0; 2] 78 [] 1000 20].
Definition toy_payloads : list OnionHopData.t :=
  [OnionHopData.mk (OnionHopData.NonFinalNode 78) 1000 620;
   OnionHopData.mk (OnionHopData.FinalNode (Some (FinalOnionHopData.mk (replicate 32 9) 1000)) None) 1000 620].

Definition toy_onion_keys : list OnionKeys :=
  match construct_onion_keys toy_path true with Ret (Some keys) => keys | _ => [] end.

Lemma sum_digest_nonzero k m : hmac_sha256 k m <> replicate 32 0.
Proof. done. Qed.

Lemma toy_payloads_ok : Forall OnionHopData.ok toy_payloads.
Proof.
  apply Forall_cons. split; [|apply Forall_singleton].
  - split; [by_decide|]. by_decide.
  - split; [|by_decide]. split; [|done]. intros d [= <-]. by_decide.
Qed.

Lemma onion_delivered_witness :
  exists packet e, construct_onion_packet toy_payloads toy_onion_keys (replicate 32 4) (replicate 32 6) = Ret packet /\
    OnionPacket.public_key packet = Some e /\
    transit [true; false] e (OnionPacket.hop_data packet) (OnionPacket.hmac packet) (replicate 32 6) = Ret (toy_payloads, true).
Proof.
  apply (onion_delivered sum_digest_nonzero [true; false] toy_path true toy_onion_keys toy_payloads
    (replicate 32 4) (replicate 32 6) eq_refl); [discriminate|reflexivity|reflexivity|exact toy_payloads_ok| |reflexivity].
  vm_compute. reflexivity.
Defined.

Definition toy_hop_secret (hop : RouteHop) : hop_secret :=
  let shared_secret := ecdh (pubkey hop) true in
  mkHopSecret shared_secret (sha256 (pk_serialize true ++ shared_secret)) true hop.
Definition toy_session : @SecretKey _ toy_route_noise := true.
Definition toy_first : hop_secret := toy_hop_secret (mkRouteHop _ true [0; 2] 77 [] 10 40).
Definition toy_last : hop_secret := toy_hop_secret (mkRouteHop _ false [0; 2] 78 [] 1000 20).

Lemma toy_secrets : construct_onion_keys_callback toy_path toy_session = Some ([toy_first] ++ toy_last :: []).
Proof. reflexivity. Qed.

Lemma toy_fees : Forall (fun h => 0 <= fee_msat h) toy_path.
Proof. repeat constructor; cbn; lia. Qed.

Lemma failure_verdict_safe_witness :
  exists v code data, process_onion_failure toy_path toy_session 1010 [1; 2; 3] = Ret (v, code, data) /\ on_route toy_path v.
Proof.
  apply (failure_verdict_safe toy_path toy_session 1010 [1; 2; 3]); [by rewrite toy_secrets|exact toy_fees|cbn; lia|].
  split; [by_decide|done].
Defined.

Definition toy_reason : OnionErrorPacket.t :=
  match build_first_hop_failure_packet (hs_shared_secret toy_last) 0x400f (replicate 12 0) with
  | Ret r => r
  | _ => OnionErrorPacket.mk []
  end.

Lemma toy_reason_built : build_first_hop_failure_packet (hs_shared_secret toy_last) 0x400f (replicate 12 0) = Ret toy_reason.
Proof. vm_compute. reflexivity. Qed.

Lemma toy_reason_unreadable reason :
  build_first_hop_failure_packet (hs_shared_secret toy_last) 0x400f (replicate 12 0) = Ret reason ->
  authentic (hs_shared_secret toy_first) (OnionErrorPacket.data reason) = None.
Proof.
  rewrite toy_reason_built. intros E. assert (E' : toy_reason = reason) by congruence. rewrite <- E'.
  vm_compute. reflexivity.
Qed.

(** The destination of a probe does not know the payment; the first hop cannot read its answer. *)
Lemma failure_attributed_witness :
  exists reason packet v,
    build_first_hop_failure_packet (hs_shared_secret toy_last) 0x400f (replicate 12 0) = Ret reason /\
    return_trip [toy_first] (OnionErrorPacket.data reason) = Ret packet /\
    process_onion_failure toy_path toy_session 1010 packet = Ret (v, Some 0x400f, Some (replicate 12 0)) /\
    v.2 = negb (has_flag 0x400f PERM && bool_decide ([] = @nil hop_secret)) /\
    on_route (hs_hop toy_last :: (hs_hop <$> take 1 [])) v /\
    (0x400f = Z.lor PERM 15 -> [] = @nil hop_secret -> v = (None, None, false)).
Proof.
  apply (failure_attributed toy_path toy_session 1010 [toy_first] toy_last [] 0x400f (replicate 12 0) toy_secrets toy_fees);
    [cbn; lia|done|by_decide|cbn; lia|].
  intros [|? [|]] t post reason d [= <- <-] Er Ed. cbn [return_trip] in Ed. injection Ed as <-.
  exact (toy_reason_unreadable reason Er).
Defined.

Definition toy_hop (k : bool) (scid fee delta : Z) : @RouteHop toy_secp := mkRouteHop toy_secp k [0; 2] scid [] fee delta.


Lemma zero_delta_misleads_hop_witness :
  exists p q, build_onion_payloads [toy_hop true 77 10 40; toy_hop false 78 1000 0] 1000 None 600 None =
      Ret (Ok ([p; q], 1010, 640)) /\
    OnionHopData.outgoing_cltv_value p = 640 /\ OnionHopData.outgoing_cltv_value q = 600.
Proof.
  apply (zero_delta_misleads_hop 1000 None None 600 (toy_hop true 77 10 40) (toy_hop false 78 1000 0)); by vm_compute.
Defined.

Lemma toy_garbage : unreadable [toy_first; toy_last] (replicate 40 1).
Proof. split_and!; [vm_compute; reflexivity..|done]. Qed.

Lemma garbage_blamed_on_destination_witness :
  process_onion_failure toy_path toy_session 1010 (replicate 40 1) = Ret (None, None, false, None, None).
Proof.
  apply (garbage_blamed_on_destination toy_path toy_session 1010 (replicate 40 1) [toy_first; toy_last] toy_secrets);
    [discriminate|exact toy_fees|cbn; lia|split; [by_decide|done]|exact toy_garbage].
Defined.
