(* ===== verification/Scid.v ===== *)
(** * Scid: short channel ids

    The packing of a block height, transaction index and output index into a
    64-bit short channel id: the unchecked version the prober uses (src/probe.rs),
    the checked version of the library
    (rust-lightning/lightning/src/util/scid_utils.rs), and the library's fake ids,
    whose output index carries an encrypted namespace. *)

From S2P Require Import Prelude Bytes ChaCha20.

Local Open Scope Z_scope.

(** ** src/probe.rs *)

Definition MAX_SCID_BLOCK : Z := 0x00ffffff.
Definition MAX_SCID_TX_INDEX : Z := 0x00ffffff.
Definition MAX_SCID_VOUT_INDEX : Z := 0xffff.

(** On [u64]s, [<<] drops the bits shifted out. *)
Definition scid_from_parts (block tx_index vout_index : Z) : Z :=
  Z.lor (Z.lor (wrap 64 (Z.shiftl block 40)) (wrap 64 (Z.shiftl tx_index 16))) vout_index.

Definition block_from_scid (short_channel_id : Z) : Z := wrap 32 (Z.shiftr short_channel_id 40).

Definition tx_index_from_scid (short_channel_id : Z) : Z :=
  wrap 32 (Z.land (Z.shiftr short_channel_id 16) MAX_SCID_TX_INDEX).

Definition vout_from_scid (short_channel_id : Z) : Z :=
  wrap 16 (Z.land short_channel_id MAX_SCID_VOUT_INDEX).

(** ** rust-lightning/lightning/src/util/scid_utils.rs *)

Module ScidUtils.

Inductive ShortChannelIdError := BlockOverflow | TxIndexOverflow | VoutIndexOverflow.

Definition scid_from_parts (block tx_index vout_index : Z) : result Z ShortChannelIdError :=
  if block >? MAX_SCID_BLOCK then Err BlockOverflow
  else if tx_index >? MAX_SCID_TX_INDEX then Err TxIndexOverflow
  else if vout_index >? MAX_SCID_VOUT_INDEX then Err VoutIndexOverflow
  else Ok (Z.lor (Z.lor (wrap 64 (Z.shiftl block 40)) (wrap 64 (Z.shiftl tx_index 16))) vout_index).

End ScidUtils.

Module FakeScid.

Definition TEST_SEGWIT_ACTIVATION_HEIGHT : Z := 0.
Definition MAINNET_SEGWIT_ACTIVATION_HEIGHT : Z := 481824.
Definition MAX_TX_INDEX : Z := 2500.
Definition MAX_NAMESPACES : Z := 8.
Definition NAMESPACE_ID_BITMASK : Z := 7.
Definition BLOCKS_PER_MONTH : Z := 144 * 30.
Definition MAX_SCID_BLOCKS_FROM_NOW : Z := BLOCKS_PER_MONTH.

Inductive Namespace := Phantom | OutboundAlias.

Definition namespace_u8 (n : Namespace) : Z := match n with Phantom => 0 | OutboundAlias => 1 end.

(** A block hash is given by the hexadecimal string it is displayed as. *)
Definition segwit_activation_height (genesis : string) : Z :=
  if decide (genesis = "000000000019d6689c085ae165831e934ff763ae46a2a6c172b3f1b60a8ce26f")
  then MAINNET_SEGWIT_ACTIVATION_HEIGHT else TEST_SEGWIT_ACTIVATION_HEIGHT.

Definition get_encrypted_vout (ns : Namespace) (block_height tx_index : Z)
    (fake_scid_rand_bytes : bytes) : outcome Z :=
  let salt := to_be_bytes 4 block_height ++ to_be_bytes 4 tx_index in
  chacha ← ChaCha20.new fake_scid_rand_bytes salt;
  '(vout_byte, _) ← process_in_place chacha [namespace_u8 ns];
  Ret (Z.land (nth 0 vout_byte 0) NAMESPACE_ID_BITMASK).

(** [u32] arithmetic that would overflow is a panic; [rand_bytes] is what
    [get_secure_random_bytes] returned. *)
Definition u32_add (a b : Z) : outcome Z := unwrap "attempt to add with overflow" (checked 32 (a + b)).

Definition get_fake_scid (ns : Namespace) (highest_seen_blockheight : Z) (genesis_hash : string)
    (fake_scid_rand_bytes rand_bytes : bytes) : outcome Z :=
  if namespace_u8 ns <? MAX_NAMESPACES then
    let segwit := segwit_activation_height genesis_hash in
    let since := saturating_sub highest_seen_blockheight segwit in
    let since := saturating_sub since MAX_SCID_BLOCKS_FROM_NOW in
    let rand_for_height := from_be_bytes (slice 0 4 rand_bytes) in
    since1 ← u32_add since 1;
    fake_scid_height ← u32_add segwit (rand_for_height `mod` since1);
    let rand_for_tx_index := from_be_bytes (slice 4 8 rand_bytes) in
    let fake_scid_tx_index := rand_for_tx_index `mod` MAX_TX_INDEX in
    fake_scid_vout ← get_encrypted_vout ns fake_scid_height fake_scid_tx_index fake_scid_rand_bytes;
    unwrap_result "scid_from_parts"
      (ScidUtils.scid_from_parts fake_scid_height fake_scid_tx_index fake_scid_vout)
  else Panic "assertion failed: namespace".

Definition is_valid_phantom (fake_scid_rand_bytes : bytes) (scid : Z) : outcome bool :=
  let block_height := block_from_scid scid in
  let tx_index := tx_index_from_scid scid in
  valid_vout ← get_encrypted_vout Phantom block_height tx_index fake_scid_rand_bytes;
  Ret (valid_vout =? wrap 8 (vout_from_scid scid)).

End FakeScid.

(** ** Lemmas *)

Definition in_range (block tx_index vout_index : Z) : Prop :=
  in_width 24 block /\ in_width 24 tx_index /\ in_width 16 vout_index.

Ltac pow2 :=
  unfold in_range, in_width in *;
  change (2 ^ 64) with 18446744073709551616 in *; change (2 ^ 40) with 1099511627776 in *;
  change (2 ^ 32) with 4294967296 in *; change (2 ^ 24) with 16777216 in *;
  change (2 ^ 16) with 65536 in *; change (2 ^ 8) with 256 in *;
  change (2 ^ 3) with 8 in *.

Lemma scid_value b t v :
  in_range b t v -> scid_from_parts b t v = b * 2 ^ 40 + t * 2 ^ 16 + v.
Proof.
  intros (Hb & Ht & Hv). unfold scid_from_parts.
  rewrite (wrap_small 64 (Z.shiftl b 40)) by (apply (shiftl_in_width 24); done).
  rewrite (wrap_small 64 (Z.shiftl t 16)) by (apply (shiftl_in_width 24); done).
  assert (Hlow : in_width 40 (t * 2 ^ 16 + v)) by (pow2; lia).
  rewrite <- Z.lor_assoc, (lor_shiftl_add t v 16) by (lia || done).
  rewrite lor_shiftl_add by (lia || done). lia.
Qed.

Lemma scid_u64 b t v : in_range b t v -> u64 (scid_from_parts b t v).
Proof. intros H. rewrite scid_value by done. pow2; lia. Qed.

Lemma block_from_scid_div s : u64 s -> block_from_scid s = s `div` 2 ^ 40.
Proof.
  intros H. unfold block_from_scid. rewrite Z.shiftr_div_pow2 by lia. apply wrap_small.
  pow2. split; [apply Z.div_pos; lia|apply Z.div_lt_upper_bound; lia].
Qed.

Lemma tx_index_from_scid_div s : tx_index_from_scid s = (s `div` 2 ^ 16) `mod` 2 ^ 24.
Proof.
  unfold tx_index_from_scid. change MAX_SCID_TX_INDEX with (Z.ones 24).
  rewrite Z.land_ones, Z.shiftr_div_pow2 by lia. apply wrap_small.
  apply (in_width_mono 24); [lia|]. apply (wrap_in_width 24). lia.
Qed.

Lemma vout_from_scid_mod s : vout_from_scid s = s `mod` 2 ^ 16.
Proof.
  unfold vout_from_scid. change MAX_SCID_VOUT_INDEX with (Z.ones 16).
  rewrite Z.land_ones by lia. apply wrap_small. apply (wrap_in_width 16). lia.
Qed.

Lemma scid_parts b t v :
  in_range b t v ->
  block_from_scid (scid_from_parts b t v) = b /\
  tx_index_from_scid (scid_from_parts b t v) = t /\
  vout_from_scid (scid_from_parts b t v) = v.
Proof.
  intros H. rewrite block_from_scid_div by (by apply scid_u64).
  rewrite tx_index_from_scid_div, vout_from_scid_mod, scid_value by done.
  pow2. destruct H as (Hb & Ht & Hv). split_and!.
  - symmetry. apply (Z.div_unique _ _ _ (t * 65536 + v)); lia.
  - rewrite <- (Z.div_unique_pos (b * 1099511627776 + t * 65536 + v) 65536 (b * 16777216 + t) v) by lia.
    symmetry. apply (Z.mod_unique _ _ b t); lia.
  - symmetry. apply (Z.mod_unique _ _ (b * 16777216 + t) v); lia.
Qed.

(** Every 64-bit id is the packing of its parts. *)
Lemma scid_surjective s :
  u64 s ->
  in_range (block_from_scid s) (tx_index_from_scid s) (vout_from_scid s) /\
  scid_from_parts (block_from_scid s) (tx_index_from_scid s) (vout_from_scid s) = s.
Proof.
  intros H.
  assert (Hr : in_range (block_from_scid s) (tx_index_from_scid s) (vout_from_scid s)).
  { rewrite block_from_scid_div, tx_index_from_scid_div, vout_from_scid_mod by done.
    split_and!.
    - pow2. split; [apply Z.div_pos; lia|apply Z.div_lt_upper_bound; lia].
    - apply (wrap_in_width 24). lia.
    - apply (wrap_in_width 16). lia. }
  split; [done|]. rewrite scid_value by done.
  rewrite block_from_scid_div, tx_index_from_scid_div, vout_from_scid_mod by done.
  pow2. pose proof (Z.div_mod s 65536 ltac:(lia)).
  pose proof (Z.div_mod (s `div` 65536) 16777216 ltac:(lia)) as Hd.
  rewrite Z.div_div in Hd by lia. change (65536 * 16777216) with 1099511627776 in Hd. lia.
Qed.

Lemma checked_scid_ok b t v :
  in_range b t v -> ScidUtils.scid_from_parts b t v = Ok (scid_from_parts b t v).
Proof.
  intros H. unfold ScidUtils.scid_from_parts, MAX_SCID_BLOCK, MAX_SCID_TX_INDEX, MAX_SCID_VOUT_INDEX.
  pow2. replace (b >? _) with false by lia. replace (t >? _) with false by lia.
  replace (v >? _) with false by lia. done.
Qed.

(** ** Properties: packing *)

(** Packing and extracting are inverse bijections between the parts in range and
    the 64-bit ids. *)
Theorem scid_bijection :
  (forall b t v, in_range b t v ->
     u64 (scid_from_parts b t v) /\
     block_from_scid (scid_from_parts b t v) = b /\
     tx_index_from_scid (scid_from_parts b t v) = t /\
     vout_from_scid (scid_from_parts b t v) = v) /\
  (forall s, u64 s ->
     in_range (block_from_scid s) (tx_index_from_scid s) (vout_from_scid s) /\
     scid_from_parts (block_from_scid s) (tx_index_from_scid s) (vout_from_scid s) = s).
Proof.
  split; [|apply scid_surjective].
  intros b t v H. split; [by apply scid_u64|by apply scid_parts].
Qed.

(** The library's checked constructor accepts exactly the parts in range, there
    agrees with the prober's unchecked one, and reports the first part that is out
    of range otherwise. *)
Theorem checked_scid_agrees (b t v : Z) :
  0 <= b -> 0 <= t -> 0 <= v ->
  match ScidUtils.scid_from_parts b t v with
  | Ok s => in_range b t v /\ s = scid_from_parts b t v
  | Err ScidUtils.BlockOverflow => ~ in_width 24 b
  | Err ScidUtils.TxIndexOverflow => in_width 24 b /\ ~ in_width 24 t
  | Err ScidUtils.VoutIndexOverflow => in_width 24 b /\ in_width 24 t /\ ~ in_width 16 v
  end.
Proof.
  intros Hb Ht Hv. unfold ScidUtils.scid_from_parts, MAX_SCID_BLOCK, MAX_SCID_TX_INDEX, MAX_SCID_VOUT_INDEX.
  destruct (Z.gtb_spec b 0x00ffffff); [pow2; lia|].
  destruct (Z.gtb_spec t 0x00ffffff); [pow2; lia|].
  destruct (Z.gtb_spec v 0xffff); [pow2; lia|].
  split; [pow2; lia|done].
Qed.

Lemma checked_scid_agrees_witness :
  match ScidUtils.scid_from_parts 700000 1200 1 with
  | Ok s => in_range 700000 1200 1 /\ s = scid_from_parts 700000 1200 1
  | Err ScidUtils.BlockOverflow => ~ in_width 24 700000
  | Err ScidUtils.TxIndexOverflow => in_width 24 700000 /\ ~ in_width 24 1200
  | Err ScidUtils.VoutIndexOverflow =>
      in_width 24 700000 /\ in_width 24 1200 /\ ~ in_width 16 1
  end.
Proof. apply (checked_scid_agrees 700000 1200 1); lia. Defined.

(** Ids order as (block, transaction index, output index) tuples. *)
Lemma scid_lt_iff b t v b' t' v' :
  in_range b t v -> in_range b' t' v' ->
  (scid_from_parts b t v < scid_from_parts b' t' v' <->
   b < b' \/ (b = b' /\ (t < t' \/ (t = t' /\ v < v')))).
Proof. intros H H'. rewrite !scid_value by done. pow2. lia. Qed.

(** The unchecked constructor is not injective: a transaction index of 2^24
    collides with the next block. *)
Example unchecked_collision : scid_from_parts 1 0 5 = scid_from_parts 0 16777216 5.
Proof. reflexivity. Qed.

(** ** Properties: fake ids *)

Lemma land_mask3 x : in_width 3 (Z.land x FakeScid.NAMESPACE_ID_BITMASK).
Proof.
  change FakeScid.NAMESPACE_ID_BITMASK with (Z.ones 3). rewrite Z.land_ones by lia.
  apply (wrap_in_width 3). lia.
Qed.

Lemma encrypted_vout_total ns h t key :
  length key = 32%nat -> exists v, FakeScid.get_encrypted_vout ns h t key = Ret v /\ in_width 3 v.
Proof.
  intros Hk. unfold FakeScid.get_encrypted_vout.
  destruct (fresh_process_total key (to_be_bytes 4 h ++ to_be_bytes 4 t) [FakeScid.namespace_u8 ns])
    as (c & enc & c' & E1 & _ & E2 & _).
  { done. }
  { left. by rewrite length_app, !length_to_be_bytes. }
  { cbn. lia. }
  rewrite E1. cbn [mbind outcome_bind]. rewrite E2. cbn [mbind outcome_bind].
  eexists. split; [done|apply land_mask3].
Qed.

Lemma rand_u32_bound i (bs : bytes) : all_u8 bs -> 0 <= from_be_bytes (slice i (i + 4) bs).
Proof. intros H. apply from_be_bytes_bound. by apply Forall_slice. Qed.

(** The height chosen for a fake id: between segwit activation and one month before
    the highest block seen (at segwit activation when there is no such block). *)
Lemma fake_height highest genesis r :
  0 <= highest < 2 ^ 32 -> 0 <= r ->
  let segwit := FakeScid.segwit_activation_height genesis in
  let since := saturating_sub (saturating_sub highest segwit) FakeScid.MAX_SCID_BLOCKS_FROM_NOW in
  FakeScid.u32_add since 1 = Ret (since + 1) /\
  segwit <= segwit + r `mod` (since + 1) <= Z.max segwit (highest - FakeScid.MAX_SCID_BLOCKS_FROM_NOW) /\
  FakeScid.u32_add segwit (r `mod` (since + 1)) = Ret (segwit + r `mod` (since + 1)).
Proof.
  intros Hh Hr segwit since. change (2 ^ 32) with 4294967296 in Hh.
  assert (Hs : segwit = 0 \/ segwit = 481824).
  { unfold segwit, FakeScid.segwit_activation_height. case_decide; [by right|by left]. }
  assert (Hsince : since = Z.max 0 (Z.max 0 (highest - segwit) - 4320)) by done.
  assert (H0 : 0 <= since < 4294967295) by lia.
  pose proof (Z.mod_pos_bound r (since + 1) ltac:(lia)) as Hm.
  change FakeScid.MAX_SCID_BLOCKS_FROM_NOW with 4320.
  unfold FakeScid.u32_add, checked. change (2 ^ 32) with 4294967296.
  split_and!; try lia.
  - replace ((0 <=? since + 1) && (since + 1 <? 4294967296)) with true by lia. done.
  - replace ((0 <=? _) && _) with true by lia. done.
Qed.

(** A fake id generated while the chain is within the 24-bit height range never
    panics, looks real (height between segwit activation and a month ago, small
    transaction index, an output index that is a namespace), and a phantom id is
    recognised as one. *)
Theorem fake_scid_spec (ns : FakeScid.Namespace) (highest : Z) (genesis : string) (key rand : bytes) :
  in_width 24 highest -> length key = 32%nat -> all_u8 rand ->
  exists s, FakeScid.get_fake_scid ns highest genesis key rand = Ret s /\
    let segwit := FakeScid.segwit_activation_height genesis in
    segwit <= block_from_scid s <= Z.max segwit (highest - FakeScid.MAX_SCID_BLOCKS_FROM_NOW) /\
    tx_index_from_scid s < FakeScid.MAX_TX_INDEX /\
    vout_from_scid s < FakeScid.MAX_NAMESPACES /\
    (ns = FakeScid.Phantom -> FakeScid.is_valid_phantom key s = Ret true).
Proof.
  intros Hh Hk Hr. unfold FakeScid.get_fake_scid.
  replace (FakeScid.namespace_u8 ns <? FakeScid.MAX_NAMESPACES) with true by (by destruct ns).
  pose proof (rand_u32_bound 0 rand Hr) as H1. pose proof (rand_u32_bound 4 rand Hr) as H2.
  destruct (fake_height highest genesis (from_be_bytes (slice 0 4 rand)) ltac:(pow2; lia) H1)
    as (E1 & Hb & E2).
  rewrite E1. cbn [mbind outcome_bind]. rewrite E2. cbn [mbind outcome_bind].
  set (h := FakeScid.segwit_activation_height genesis + _ `mod` _) in *.
  set (t := _ `mod` FakeScid.MAX_TX_INDEX).
  assert (Ht : 0 <= t < 2500) by (by apply Z.mod_pos_bound).
  destruct (encrypted_vout_total ns h t key Hk) as (v & Ev & Hv).
  rewrite Ev. cbn [mbind outcome_bind].
  assert (Hseg : 0 <= FakeScid.segwit_activation_height genesis <= 481824).
  { unfold FakeScid.segwit_activation_height. case_decide; vm_compute; split; congruence. }
  change FakeScid.MAX_SCID_BLOCKS_FROM_NOW with 4320 in *.
  assert (Hin : in_range h t v) by (pow2; lia).
  rewrite (checked_scid_ok h t v Hin). cbn [unwrap_result]. exists (scid_from_parts h t v). split; [done|].
  destruct (scid_parts h t v Hin) as (Eb & Et & Evo). rewrite Eb, Et, Evo.
  split_and!; [lia|lia|unfold FakeScid.MAX_TX_INDEX; lia|pow2; unfold FakeScid.MAX_NAMESPACES; lia|].
  intros ->. unfold FakeScid.is_valid_phantom. rewrite Eb, Et, Evo, Ev.
  cbn [mbind outcome_bind].
  rewrite wrap_small by (pow2; lia). by rewrite Z.eqb_refl.
Qed.

Lemma fake_scid_spec_witness :
  exists s, FakeScid.get_fake_scid FakeScid.Phantom 700000 "" (replicate 32 1) (replicate 32 9) = Ret s /\
    let segwit := FakeScid.segwit_activation_height "" in
    segwit <= block_from_scid s <= Z.max segwit (700000 - FakeScid.MAX_SCID_BLOCKS_FROM_NOW) /\
    tx_index_from_scid s < FakeScid.MAX_TX_INDEX /\
    vout_from_scid s < FakeScid.MAX_NAMESPACES /\
    (FakeScid.Phantom = FakeScid.Phantom -> FakeScid.is_valid_phantom (replicate 32 1) s = Ret true).
Proof.
  apply (fake_scid_spec FakeScid.Phantom 700000 "" (replicate 32 1) (replicate 32 9)).
  - vm_compute. intuition congruence.
  - done.
  - apply Forall_replicate. vm_compute. intuition congruence.
Defined.
