(* ===== verification/Graph.v ===== *)
(** * The network graph: rust-lightning/lightning/src/routing/gossip.rs

    Channels by short id and nodes by public key, each node with the ids of its channels.
    The graph changes by gossip (announcements and updates, with their signatures), by
    failures of payments, and by the passing of time.  Signature verification, the digest
    that is signed, the look-up of outputs on the chain and the script of a funding output
    are parameters.  Logging is left out; the clock is an argument. *)

From S2P Require Import Prelude Text HexUtils Bytes ChaCha20 Stream Ser SerLaws Tlv Features Msgs OnionHop ChannelMsgs GossipMsgs Noise Onion OnionError.

Local Open Scope Z_scope.

(** ** Parameters *)

Inductive AccessError := UnknownChain | UnknownTx.

Class GossipCrypto `{Secp} := {
  (** [Secp256k1::verify_ecdsa] of a digest. *)
  verify_ecdsa : bytes -> Signature -> PublicKey -> bool;
  sha256d : bytes -> bytes;
  (** The witness script hash of the 2-of-2 multisignature of two keys. *)
  funding_script : bytes -> bytes -> bytes;
}.

(** [chain::Access::get_utxo]: the value and the script of the output. *)
Definition Access : Type := bytes -> Z -> result (Z * bytes) AccessError.

(** ** Errors: msgs.rs and logger.rs *)

Inductive Level := Gossip | Trace | Debug | Info | Warn | Error.

Inductive ErrorAction :=
| DisconnectPeer (msg : option ErrorMessage.t)
| IgnoreError
| IgnoreAndLog (level : Level)
| IgnoreDuplicateGossip
| SendErrorMessage (msg : ErrorMessage.t)
| SendWarningMessage (msg : WarningMessage.t) (log_level : Level).

Record LightningError := mkLightningError { err : string; action : ErrorAction }.

(** ** Data *)

Definition STALE_CHANNEL_UPDATE_AGE_LIMIT_SECS : Z := 60 * 60 * 24 * 14.
Definition MAX_EXCESS_BYTES_FOR_RELAY : nat := 1024.

(** The serialisation of a public key. *)
Definition NodeId : Type := bytes.
Definition from_pubkey `{Secp} (k : PublicKey) : NodeId := pk_serialize k.

Module RoutingFees.
Record t := mk { base_msat : Z; proportional_millionths : Z }.
End RoutingFees.

Module ChannelUpdateInfo.
Record t `{Secp} := mk {
  last_update : Z; enabled : bool; cltv_expiry_delta : Z; htlc_minimum_msat : Z; htlc_maximum_msat : option Z;
  fees : RoutingFees.t; last_update_message : option ChannelUpdate.t }.
Definition disable `{Secp} (i : t) : t :=
  mk _ (last_update i) false (cltv_expiry_delta i) (htlc_minimum_msat i) (htlc_maximum_msat i) (fees i) (last_update_message i).
End ChannelUpdateInfo.

Module ChannelInfo.
Record t `{Secp} := mk {
  features : bytes; node_one : NodeId; one_to_two : option ChannelUpdateInfo.t; node_two : NodeId;
  two_to_one : option ChannelUpdateInfo.t; capacity_sats : option Z; announcement_message : option ChannelAnnouncement.t;
  announcement_received_time : Z }.
Definition with_directions `{Secp} (one two : option ChannelUpdateInfo.t) (c : t) : t :=
  mk _ (features c) (node_one c) one (node_two c) two (capacity_sats c) (announcement_message c) (announcement_received_time c).
End ChannelInfo.

Module NodeAnnouncementInfo.
Record t `{Secp} := mk {
  features : bytes; last_update : Z; rgb : bytes; alias : bytes; addresses : list NetAddress.t;
  announcement_message : option NodeAnnouncement.t }.
End NodeAnnouncementInfo.

Module NodeInfo.
Record t `{Secp} := mk {
  channels : list Z; lowest_inbound_channel_fees : option RoutingFees.t; announcement_info : option NodeAnnouncementInfo.t }.
Definition with_channels `{Secp} (l : list Z) (n : t) : t := mk _ l (lowest_inbound_channel_fees n) (announcement_info n).
Definition with_fees `{Secp} (f : option RoutingFees.t) (n : t) : t := mk _ (channels n) f (announcement_info n).
Definition with_announcement `{Secp} (a : option NodeAnnouncementInfo.t) (n : t) : t :=
  mk _ (channels n) (lowest_inbound_channel_fees n) a.
End NodeInfo.

Record NetworkGraph `{Secp} := mkGraph {
  genesis_hash : bytes;
  channels : gmap Z ChannelInfo.t;
  nodes : gmap NodeId NodeInfo.t;
  last_rapid_gossip_sync_timestamp : option Z;
}.

Section Graph.
Context `{GossipCrypto}.

Abbreviation graph A := (prog NetworkGraph A).
Abbreviation fails text act := (mret (Err (mkLightningError text act))).

Definition new (genesis : bytes) : NetworkGraph := mkGraph _ genesis ∅ ∅ None.
Definition set_channels (cs : gmap Z ChannelInfo.t) (g : NetworkGraph) : NetworkGraph :=
  mkGraph _ (genesis_hash g) cs (nodes g) (last_rapid_gossip_sync_timestamp g).
Definition set_nodes (ns : gmap NodeId NodeInfo.t) (g : NetworkGraph) : NetworkGraph :=
  mkGraph _ (genesis_hash g) (channels g) ns (last_rapid_gossip_sync_timestamp g).
Definition set_last_rapid_gossip_sync_timestamp (t : Z) : graph unit :=
  modify (fun g => mkGraph _ (genesis_hash g) (channels g) (nodes g) (Some t)).

(** [secp_verify_sig!]. *)
Definition secp_verify_sig (msg_hash : bytes) (sig : Signature) (key : PublicKey) (msg_type : string) : result unit LightningError :=
  if verify_ecdsa msg_hash sig key then Ok tt
  else
    let text := "Invalid signature on " +:+ msg_type +:+ " message" in
    Err (mkLightningError text (SendWarningMessage (WarningMessage.mk (replicate 32 0) text) Trace)).

(** ** Nodes *)

(** The bound on what is kept for relaying. *)
Definition should_relay (msg : UnsignedNodeAnnouncement.t) : bool :=
  let excess := length (UnsignedNodeAnnouncement.excess_data msg) in
  let excess_address := length (UnsignedNodeAnnouncement.excess_address_data msg) in
  ((excess <=? MAX_EXCESS_BYTES_FOR_RELAY) && (excess_address <=? MAX_EXCESS_BYTES_FOR_RELAY) &&
   (excess + excess_address <=? MAX_EXCESS_BYTES_FOR_RELAY))%nat.

Definition update_node_from_announcement_intern (msg : UnsignedNodeAnnouncement.t) (full_msg : option NodeAnnouncement.t) :
    graph (result unit LightningError) :=
  g ← get;
  let id := from_pubkey (UnsignedNodeAnnouncement.node_id msg) in
  let timestamp := UnsignedNodeAnnouncement.timestamp msg in
  match nodes g !! id with
  | None => fails "No existing channels for node_announcement" IgnoreError
  | Some node =>
      let store :=
        (_ ← put (set_nodes (<[id := NodeInfo.with_announcement (Some (NodeAnnouncementInfo.mk _
                 (UnsignedNodeAnnouncement.features msg) timestamp (UnsignedNodeAnnouncement.rgb msg)
                 (UnsignedNodeAnnouncement.alias msg) (UnsignedNodeAnnouncement.addresses msg)
                 (if should_relay msg then full_msg else None))) node]> (nodes g)) g);
         mret (Ok tt)) in
      match NodeInfo.announcement_info node with
      | Some node_info =>
          if timestamp <? NodeAnnouncementInfo.last_update node_info then
            fails "Update older than last processed update" (IgnoreAndLog Gossip)
          else if NodeAnnouncementInfo.last_update node_info =? timestamp then
            fails "Update had the same timestamp as last processed update" IgnoreDuplicateGossip
          else store
      | None => store
      end
  end.

Definition update_node_from_announcement (msg : NodeAnnouncement.t) : graph (result unit LightningError) :=
  let msg_hash := sha256d (encode UnsignedNodeAnnouncement.codec (NodeAnnouncement.contents msg)) in
  let? _ := mret (secp_verify_sig msg_hash (NodeAnnouncement.signature msg)
                    (UnsignedNodeAnnouncement.node_id (NodeAnnouncement.contents msg)) "node_announcement") in
  update_node_from_announcement_intern (NodeAnnouncement.contents msg) (Some msg).

Definition update_node_from_unsigned_announcement (msg : UnsignedNodeAnnouncement.t) : graph (result unit LightningError) :=
  update_node_from_announcement_intern msg None.

(** ** Channels *)

Definition remove_from_node (short_channel_id : Z) (node_id : NodeId) : graph unit :=
  g ← get;
  match nodes g !! node_id with
  | Some node =>
      let left_channels := List.filter (fun chan_id => negb (short_channel_id =? chan_id)) (NodeInfo.channels node) in
      put (set_nodes
        (if left_channels then delete node_id (nodes g)
         else <[node_id := NodeInfo.with_channels left_channels node]> (nodes g)) g)
  | None => panic "Had channel that pointed to unknown node (ie inconsistent network map)!"
  end.

Definition remove_channel_in_nodes (chan : ChannelInfo.t) (short_channel_id : Z) : graph unit :=
  _ ← remove_from_node short_channel_id (ChannelInfo.node_one chan);
  remove_from_node short_channel_id (ChannelInfo.node_two chan).

Definition add_to_node (short_channel_id : Z) (node_id : NodeId) : graph unit :=
  modify (fun g =>
    set_nodes
      (<[node_id :=
          match nodes g !! node_id with
          | Some node => NodeInfo.with_channels (NodeInfo.channels node ++ [short_channel_id]) node
          | None => NodeInfo.mk _ [short_channel_id] None None
          end]> (nodes g)) g).

Definition add_channel_between_nodes (short_channel_id : Z) (channel_info : ChannelInfo.t) (utxo_value : option Z) :
    graph (result unit LightningError) :=
  g ← get;
  let insert_and_link :=
    (_ ← modify (fun g => set_channels (<[short_channel_id := channel_info]> (channels g)) g);
     _ ← add_to_node short_channel_id (ChannelInfo.node_one channel_info);
     _ ← add_to_node short_channel_id (ChannelInfo.node_two channel_info);
     mret (Ok tt)) in
  match channels g !! short_channel_id with
  | Some old =>
      match utxo_value with
      | Some _ => _ ← remove_channel_in_nodes old short_channel_id; insert_and_link
      | None => fails "Already have knowledge of channel" IgnoreDuplicateGossip
      end
  | None => insert_and_link
  end.

Definition add_channel_from_partial_announcement (short_channel_id timestamp : Z) (features : bytes) (node_id_1 node_id_2 : PublicKey) :
    graph (result unit LightningError) :=
  if bool_decide (pk_serialize node_id_1 = pk_serialize node_id_2) then
    fails "Channel announcement node had a channel with itself" IgnoreError
  else
    add_channel_between_nodes short_channel_id
      (ChannelInfo.mk _ features (from_pubkey node_id_1) None (from_pubkey node_id_2) None None None timestamp) None.

Definition utxo_value_of (msg : UnsignedChannelAnnouncement.t) (chain_access : option Access) : result (option Z) LightningError :=
  match chain_access with
  | None => Ok None
  | Some get_utxo =>
      match get_utxo (UnsignedChannelAnnouncement.chain_hash msg) (UnsignedChannelAnnouncement.short_channel_id msg) with
      | Ok (value, script_pubkey) =>
          let expected_script := funding_script (pk_serialize (UnsignedChannelAnnouncement.bitcoin_key_1 msg))
                                   (pk_serialize (UnsignedChannelAnnouncement.bitcoin_key_2 msg)) in
          if bool_decide (script_pubkey = expected_script) then Ok (Some value)
          else Err (mkLightningError ("Channel announcement key (" +:+ hex_str script_pubkey +:+ ") didn't match on-chain script (" +:+
                                      hex_str expected_script +:+ ")") IgnoreError)
      | Err UnknownChain =>
          Err (mkLightningError ("Channel announced on an unknown chain (" +:+
                                 hex_str (UnsignedChannelAnnouncement.chain_hash msg) +:+ ")") IgnoreError)
      | Err UnknownTx => Err (mkLightningError "Channel announced without corresponding UTXO entry" IgnoreError)
      end
  end.

Definition update_channel_from_unsigned_announcement_intern (now : Z) (msg : UnsignedChannelAnnouncement.t)
    (full_msg : option ChannelAnnouncement.t) (chain_access : option Access) : graph (result unit LightningError) :=
  if bool_decide (pk_serialize (UnsignedChannelAnnouncement.node_id_1 msg) = pk_serialize (UnsignedChannelAnnouncement.node_id_2 msg)) ||
     bool_decide (pk_serialize (UnsignedChannelAnnouncement.bitcoin_key_1 msg) = pk_serialize (UnsignedChannelAnnouncement.bitcoin_key_2 msg))
  then fails "Channel announcement node had a channel with itself" IgnoreError
  else
    let? utxo_value := mret (utxo_value_of msg chain_access) in
    let chan_info := ChannelInfo.mk _ (UnsignedChannelAnnouncement.features msg)
      (from_pubkey (UnsignedChannelAnnouncement.node_id_1 msg)) None (from_pubkey (UnsignedChannelAnnouncement.node_id_2 msg)) None
      utxo_value
      (if (length (UnsignedChannelAnnouncement.excess_data msg) <=? MAX_EXCESS_BYTES_FOR_RELAY)%nat then full_msg else None) now in
    add_channel_between_nodes (UnsignedChannelAnnouncement.short_channel_id msg) chan_info utxo_value.

(** The four signatures of an announcement, in the order they are checked. *)
Definition verify_announcement (msg : ChannelAnnouncement.t) : result unit LightningError :=
  let contents := ChannelAnnouncement.contents msg in
  let msg_hash := sha256d (encode UnsignedChannelAnnouncement.codec contents) in
  let! _ := secp_verify_sig msg_hash (ChannelAnnouncement.node_signature_1 msg) (UnsignedChannelAnnouncement.node_id_1 contents) "channel_announcement" in
  let! _ := secp_verify_sig msg_hash (ChannelAnnouncement.node_signature_2 msg) (UnsignedChannelAnnouncement.node_id_2 contents) "channel_announcement" in
  let! _ := secp_verify_sig msg_hash (ChannelAnnouncement.bitcoin_signature_1 msg) (UnsignedChannelAnnouncement.bitcoin_key_1 contents) "channel_announcement" in
  secp_verify_sig msg_hash (ChannelAnnouncement.bitcoin_signature_2 msg) (UnsignedChannelAnnouncement.bitcoin_key_2 contents) "channel_announcement".

Definition update_channel_from_announcement (now : Z) (msg : ChannelAnnouncement.t) (chain_access : option Access) :
    graph (result unit LightningError) :=
  let? _ := mret (verify_announcement msg) in
  update_channel_from_unsigned_announcement_intern now (ChannelAnnouncement.contents msg) (Some msg) chain_access.

Definition update_channel_from_unsigned_announcement (now : Z) (msg : UnsignedChannelAnnouncement.t) (chain_access : option Access) :
    graph (result unit LightningError) :=
  update_channel_from_unsigned_announcement_intern now msg None chain_access.

(** ** Failures and time *)

Definition channel_failed (short_channel_id : Z) (is_permanent : bool) : graph unit :=
  g ← get;
  match channels g !! short_channel_id with
  | None => mret tt
  | Some chan =>
      if is_permanent then
        _ ← put (set_channels (delete short_channel_id (channels g)) g);
        remove_channel_in_nodes chan short_channel_id
      else
        put (set_channels (<[short_channel_id :=
               ChannelInfo.with_directions (ChannelUpdateInfo.disable <$> ChannelInfo.one_to_two chan)
                 (ChannelUpdateInfo.disable <$> ChannelInfo.two_to_one chan) chan]> (channels g)) g)
  end.

(** Not implemented. *)
Definition node_failed (node_id : PublicKey) (is_permanent : bool) : graph unit := mret tt.

Definition expire_direction (min_time_unix : Z) (d : option ChannelUpdateInfo.t) : option ChannelUpdateInfo.t :=
  match d with
  | Some i => if ChannelUpdateInfo.last_update i <? min_time_unix then None else Some i
  | None => None
  end.
Definition expire (min_time_unix : Z) (c : ChannelInfo.t) : ChannelInfo.t :=
  ChannelInfo.with_directions (expire_direction min_time_unix (ChannelInfo.one_to_two c))
    (expire_direction min_time_unix (ChannelInfo.two_to_one c)) c.
Definition to_remove (min_time_unix : Z) (c : ChannelInfo.t) : bool :=
  match ChannelInfo.one_to_two c, ChannelInfo.two_to_one c with
  | None, None => ChannelInfo.announcement_received_time c <? min_time_unix
  | _, _ => false
  end.

(** The entries of a [BTreeMap] with integer keys, in its order. *)
Definition in_order {V} (m : gmap Z V) : list (Z * V) := sort_by fst (map_to_list m).

Fixpoint remove_all (scids_to_remove : list Z) : graph unit :=
  match scids_to_remove with
  | [] => mret tt
  | scid :: rest =>
      g ← get;
      match channels g !! scid with
      | None => panic "We just accessed this scid, it should be present"
      | Some info =>
          _ ← put (set_channels (delete scid (channels g)) g);
          _ ← remove_channel_in_nodes info scid;
          remove_all rest
      end
  end.

Definition remove_stale_channels_with_time (current_time_unix : Z) : graph unit :=
  if U32_MAX <? current_time_unix then mret tt
  else if current_time_unix <? STALE_CHANNEL_UPDATE_AGE_LIMIT_SECS then mret tt
  else
    let min_time_unix := wrap 32 (current_time_unix - STALE_CHANNEL_UPDATE_AGE_LIMIT_SECS) in
    _ ← modify (fun g => set_channels (expire min_time_unix <$> channels g) g);
    g ← get;
    remove_all (fst <$> List.filter (fun e => to_remove min_time_unix e.2) (in_order (channels g))).

(** ** Channel updates *)

Definition chan_enabled (msg : UnsignedChannelUpdate.t) : bool := negb (Z.land (UnsignedChannelUpdate.flags msg) 2 =? 2).

(** [get_new_channel_info!]. *)
Definition get_new_channel_info (msg : UnsignedChannelUpdate.t) (full_msg : option ChannelUpdate.t) : ChannelUpdateInfo.t :=
  ChannelUpdateInfo.mk _ (UnsignedChannelUpdate.timestamp msg) (chan_enabled msg) (UnsignedChannelUpdate.cltv_expiry_delta msg)
    (UnsignedChannelUpdate.htlc_minimum_msat msg)
    (match UnsignedChannelUpdate.htlc_maximum_msat msg with Present max_value => Some max_value | Absent => None end)
    (RoutingFees.mk (UnsignedChannelUpdate.fee_base_msat msg) (UnsignedChannelUpdate.fee_proportional_millionths msg))
    (if (length (UnsignedChannelUpdate.excess_data msg) <=? MAX_EXCESS_BYTES_FOR_RELAY)%nat then full_msg else None).

(** [check_update_latest!]: whether the direction was enabled. *)
Definition check_update_latest (msg : UnsignedChannelUpdate.t) (target : option ChannelUpdateInfo.t) : result bool LightningError :=
  match target with
  | Some existing =>
      if UnsignedChannelUpdate.timestamp msg <? ChannelUpdateInfo.last_update existing then
        Err (mkLightningError "Update older than last processed update" (IgnoreAndLog Gossip))
      else if ChannelUpdateInfo.last_update existing =? UnsignedChannelUpdate.timestamp msg then
        Err (mkLightningError "Update had same timestamp as last processed update" IgnoreDuplicateGossip)
      else Ok (ChannelUpdateInfo.enabled existing)
  | None => Ok false
  end.

(** The checks of the advertised maximum; the product cannot overflow behind its guard. *)
Definition check_htlc_maximum (msg : UnsignedChannelUpdate.t) (channel : ChannelInfo.t) : outcome (result unit LightningError) :=
  match UnsignedChannelUpdate.htlc_maximum_msat msg with
  | Absent => Ret (Ok tt)
  | Present htlc_maximum_msat =>
      if MAX_VALUE_MSAT <? htlc_maximum_msat then
        Ret (Err (mkLightningError "htlc_maximum_msat is larger than maximum possible msats" IgnoreError))
      else
        match ChannelInfo.capacity_sats channel with
        | None => Ret (Ok tt)
        | Some capacity_sats =>
            bogus ← (if MAX_VALUE_MSAT / 1000 <? capacity_sats then Ret true
                     else cap ← mul64 capacity_sats 1000; Ret (cap <? htlc_maximum_msat));
            Ret (if bogus : bool then
                   Err (mkLightningError "htlc_maximum_msat is larger than channel capacity or capacity is bogus" IgnoreError)
                 else Ok tt)
        end
  end.

Definition check_update_sig (msg : UnsignedChannelUpdate.t) (sig : option Signature) (source : NodeId) (whose : string) : result unit LightningError :=
  match sig with
  | None => Ok tt
  | Some sig =>
      match pk_from_slice source with
      | None => Err (mkLightningError ("Couldn't parse " +:+ whose +:+ " node pubkey") (IgnoreAndLog Debug))
      | Some key => secp_verify_sig (sha256d (encode UnsignedChannelUpdate.codec msg)) sig key "channel_update"
      end
  end.

(** [cmp::min] in both components. *)
Definition min_fees (a b : RoutingFees.t) : RoutingFees.t :=
  RoutingFees.mk (Z.min (RoutingFees.base_msat a) (RoutingFees.base_msat b))
    (Z.min (RoutingFees.proportional_millionths a) (RoutingFees.proportional_millionths b)).

(** The direction of a channel towards a node, as the recomputation takes it. *)
Definition inbound (chan : ChannelInfo.t) (node_id : NodeId) : option ChannelUpdateInfo.t :=
  if bool_decide (ChannelInfo.node_one chan = node_id) then ChannelInfo.two_to_one chan else ChannelInfo.one_to_two chan.

(** The lowest fees over the enabled channels to a node. *)
Fixpoint lowest_fees (cs : gmap Z ChannelInfo.t) (node_id : NodeId) (ids : list Z) (lowest : option RoutingFees.t) : outcome (option RoutingFees.t) :=
  match ids with
  | [] => Ret lowest
  | chan_id :: ids' =>
      chan ← Prelude.unwrap "called `Option::unwrap()` on a `None` value" (cs !! chan_id);
      let lowest :=
        match inbound chan node_id with
        | Some chan_info =>
            if ChannelUpdateInfo.enabled chan_info then
              Some (min_fees (default (RoutingFees.mk U32_MAX U32_MAX) lowest) (ChannelUpdateInfo.fees chan_info))
            else lowest
        | None => lowest
        end in
      lowest_fees cs node_id ids' lowest
  end.

(** What follows the update of a direction: the fees of the node it leads to. *)
Definition update_node_fees (msg : UnsignedChannelUpdate.t) (dest_node_id : NodeId) (chan_was_enabled : bool) : graph unit :=
  g ← get;
  if chan_enabled msg then
    node ← lift (Prelude.unwrap "called `Option::unwrap()` on a `None` value" (nodes g !! dest_node_id));
    let fees := RoutingFees.mk (UnsignedChannelUpdate.fee_base_msat msg) (UnsignedChannelUpdate.fee_proportional_millionths msg) in
    let fees := match NodeInfo.lowest_inbound_channel_fees node with Some f => min_fees fees f | None => fees end in
    put (set_nodes (<[dest_node_id := NodeInfo.with_fees (Some fees) node]> (nodes g)) g)
  else if chan_was_enabled then
    node ← lift (Prelude.unwrap "called `Option::unwrap()` on a `None` value" (nodes g !! dest_node_id));
    lowest ← lift (lowest_fees (channels g) dest_node_id (NodeInfo.channels node) None);
    put (set_nodes (<[dest_node_id := NodeInfo.with_fees lowest node]> (nodes g)) g)
  else mret tt.

(** The age of an update is checked with the clock in builds with [std] outside tests. *)
Definition check_update_age (now : Z) (msg : UnsignedChannelUpdate.t) : outcome (result unit LightningError) :=
  oldest ← sub64 now STALE_CHANNEL_UPDATE_AGE_LIMIT_SECS;
  if UnsignedChannelUpdate.timestamp msg <? oldest then
    Ret (Err (mkLightningError "channel_update is older than two weeks old" (IgnoreAndLog Gossip)))
  else
    latest ← add64 now (60 * 60 * 24);
    if latest <? UnsignedChannelUpdate.timestamp msg then
      Ret (Err (mkLightningError "channel_update has a timestamp more than a day in the future" (IgnoreAndLog Gossip)))
    else Ret (Ok tt).

Definition update_channel_intern (now : Z) (msg : UnsignedChannelUpdate.t) (full_msg : option ChannelUpdate.t) (sig : option Signature) :
    graph (result unit LightningError) :=
  let? _ := lift (check_update_age now msg) in
  g ← get;
  let scid := UnsignedChannelUpdate.short_channel_id msg in
  match channels g !! scid with
  | None => fails "Couldn't find channel for update" IgnoreError
  | Some channel =>
      let? _ := lift (check_htlc_maximum msg channel) in
      let info := Some (get_new_channel_info msg full_msg) in
      if Z.land (UnsignedChannelUpdate.flags msg) 1 =? 1 then
        let? chan_was_enabled := mret (check_update_latest msg (ChannelInfo.two_to_one channel)) in
        let? _ := mret (check_update_sig msg sig (ChannelInfo.node_two channel) "source") in
        _ ← put (set_channels (<[scid := ChannelInfo.with_directions (ChannelInfo.one_to_two channel) info channel]> (channels g)) g);
        _ ← update_node_fees msg (ChannelInfo.node_one channel) chan_was_enabled;
        mret (Ok tt)
      else
        let? chan_was_enabled := mret (check_update_latest msg (ChannelInfo.one_to_two channel)) in
        let? _ := mret (check_update_sig msg sig (ChannelInfo.node_one channel) "destination") in
        _ ← put (set_channels (<[scid := ChannelInfo.with_directions info (ChannelInfo.two_to_one channel) channel]> (channels g)) g);
        _ ← update_node_fees msg (ChannelInfo.node_two channel) chan_was_enabled;
        mret (Ok tt)
  end.

Definition update_channel (now : Z) (msg : ChannelUpdate.t) : graph (result unit LightningError) :=
  update_channel_intern now (ChannelUpdate.contents msg) (Some msg) (Some (ChannelUpdate.signature msg)).

Definition update_channel_unsigned (now : Z) (msg : UnsignedChannelUpdate.t) : graph (result unit LightningError) :=
  update_channel_intern now msg None None.

(** ** [EventHandler for NetworkGraph]: what a failed payment tells *)

Definition handle_event (now : Z) (network_update : option NetworkUpdate) : graph unit :=
  match network_update with
  | None => mret tt
  | Some (ChannelUpdateMessage msg) => _ ← update_channel now msg; mret tt
  | Some (ChannelFailure short_channel_id is_permanent) => channel_failed short_channel_id is_permanent
  | Some (NodeFailure node_id is_permanent) => node_failed node_id is_permanent
  end.

Definition get_addresses (g : NetworkGraph) (pubkey : PublicKey) : option (list NetAddress.t) :=
  node ← nodes g !! from_pubkey pubkey;
  node_info ← NodeInfo.announcement_info node;
  Some (NodeAnnouncementInfo.addresses node_info).
End Graph.
