(* ===== verification/GraphSpec.v ===== *)
(** * The network graph stays consistent

    A channel is listed by exactly the two nodes it joins, and a node by its channels; the
    fees recorded for a node are a lower bound of those of the enabled channels towards it;
    every policy was signed by the node that sets it.  All of it holds after any sequence of
    gossip messages, payment failures and prunings, none of which panics. *)

From S2P Require Import Prelude Text HexUtils Bytes ChaCha20 Stream Ser SerLaws Tlv Features Msgs OnionHop ChannelMsgs GossipMsgs Noise Onion OnionError Graph.

Local Open Scope Z_scope.

Lemma bind_get {S A} (f : S -> prog S A) s : (get ≫= f) s = f s s.
Proof. done. Qed.

Section GraphSpec.
Context `{GossipCrypto}.

(** ** Links between channels and nodes *)

Definition joins (c : ChannelInfo.t) (n : NodeId) : Prop := n = ChannelInfo.node_one c \/ n = ChannelInfo.node_two c.
Definition ends (cs : gmap Z ChannelInfo.t) (scid : Z) (n : NodeId) : Prop := exists c, cs !! scid = Some c /\ joins c n.
Definition listed (ns : gmap NodeId NodeInfo.t) (n : NodeId) (scid : Z) : Prop :=
  exists i, ns !! n = Some i /\ scid ∈ NodeInfo.channels i.

Definition node_ok (i : NodeInfo.t) : Prop := NodeInfo.channels i <> [] /\ NoDup (NodeInfo.channels i).
Definition nodes_ok (ns : gmap NodeId NodeInfo.t) : Prop := forall n i, ns !! n = Some i -> node_ok i.
Definition channel_ok (c : ChannelInfo.t) : Prop :=
  ChannelInfo.node_one c <> ChannelInfo.node_two c /\ (forall v, ChannelInfo.capacity_sats c = Some v -> 0 <= v).
Definition channels_ok (cs : gmap Z ChannelInfo.t) : Prop := forall scid c, cs !! scid = Some c -> channel_ok c.

Definition consistent (cs : gmap Z ChannelInfo.t) (ns : gmap NodeId NodeInfo.t) : Prop :=
  channels_ok cs /\ nodes_ok ns /\ (forall n scid, listed ns n scid <-> ends cs scid n).

Lemma elem_of_retain scid s (l : list Z) :
  s ∈ List.filter (fun chan_id => negb (scid =? chan_id)) l <-> s ∈ l /\ s <> scid.
Proof.
  rewrite !list_elem_of_In, List.filter_In, negb_true_iff, Z.eqb_neq. naive_solver.
Qed.

Lemma NoDup_retain scid (l : list Z) : NoDup l -> NoDup (List.filter (fun chan_id => negb (scid =? chan_id)) l).
Proof. rewrite !NoDup_ListNoDup. apply List.NoDup_filter. Qed.

(** *** Removing a channel from a node *)

Definition removed (scid : Z) (n : NodeId) (ns ns' : gmap NodeId NodeInfo.t) : Prop :=
  nodes_ok ns' /\ (forall m s, listed ns' m s <-> listed ns m s /\ ~ (m = n /\ s = scid)) /\
  (forall m i, ns' !! m = Some i -> exists j, ns !! m = Some j /\ NodeInfo.lowest_inbound_channel_fees i = NodeInfo.lowest_inbound_channel_fees j).

Lemma remove_from_node_spec scid n g :
  nodes_ok (nodes g) -> is_Some (nodes g !! n) ->
  exists ns', remove_from_node scid n g = (Ret tt, set_nodes ns' g) /\ removed scid n (nodes g) ns'.
Proof.
  intros Hok [i Hi]. unfold remove_from_node. rewrite bind_get, Hi.
  set (l := List.filter _ _). eexists. split; [done|].
  assert (Hl : forall s, s ∈ l <-> s ∈ NodeInfo.channels i /\ s <> scid) by (intros; apply elem_of_retain).
  destruct (Hok _ _ Hi) as [_ Hnd].
  assert (Hother : forall m, m <> n -> forall o, (if l then delete n (nodes g) else <[n := o]> (nodes g)) !! m = nodes g !! m).
  { intros m Hm o. destruct l; [by rewrite lookup_delete_ne|by rewrite lookup_insert_ne]. }
  split_and!.
  - intros m j Hj. destruct (decide (m = n)) as [->|Hm]; [|rewrite Hother in Hj by done; eauto].
    destruct l as [|x l'] eqn:El; [by rewrite lookup_delete_eq in Hj|]. rewrite lookup_insert_eq in Hj. injection Hj as <-.
    split; [done|]. cbn. rewrite <- El. by apply NoDup_retain.
  - intros m s. unfold listed. destruct (decide (m = n)) as [->|Hm].
    2: { rewrite Hother by done. naive_solver. }
    destruct l as [|x l'] eqn:El.
    + rewrite lookup_delete_eq. split; [naive_solver|]. intros [(j & Hj & Hs) Hn]. rewrite Hi in Hj. injection Hj as <-.
      assert (s ∈ @nil Z) by (apply Hl; split; [done|]; intros ->; by apply Hn). set_solver.
    + rewrite lookup_insert_eq. split.
      * intros (j & [= <-] & Hs). cbn in Hs. apply Hl in Hs as [Hs Hne]. split; [by exists i|]. by intros [_ ->].
      * intros [(j & Hj & Hs) Hn]. rewrite Hi in Hj. injection Hj as <-. eexists. split; [done|]. cbn. apply Hl. split; [done|].
        intros ->. by apply Hn.
  - intros m j Hj. destruct (decide (m = n)) as [->|Hm]; [|rewrite Hother in Hj by done; eauto].
    destruct l; [by rewrite lookup_delete_eq in Hj|]. rewrite lookup_insert_eq in Hj. injection Hj as <-. by exists i.
Qed.

Lemma remove_channel_in_nodes_spec chan scid g :
  nodes_ok (nodes g) -> ChannelInfo.node_one chan <> ChannelInfo.node_two chan ->
  (forall n, joins chan n -> listed (nodes g) n scid) ->
  exists ns', remove_channel_in_nodes chan scid g = (Ret tt, set_nodes ns' g) /\ nodes_ok ns' /\
    (forall m s, listed ns' m s <-> listed (nodes g) m s /\ ~ (joins chan m /\ s = scid)) /\
    (forall m i, ns' !! m = Some i -> exists j, nodes g !! m = Some j /\
       NodeInfo.lowest_inbound_channel_fees i = NodeInfo.lowest_inbound_channel_fees j).
Proof.
  intros Hok Hne Hl. unfold remove_channel_in_nodes.
  destruct (Hl (ChannelInfo.node_one chan)) as (i1 & Hi1 & _); [by left|].
  destruct (remove_from_node_spec scid (ChannelInfo.node_one chan) g) as (ns1 & E1 & Hok1 & Hl1 & Hf1); [done|by eexists|].
  rewrite (prog_bind_Ret _ _ _ _ _ E1).
  assert (Hl2 : listed ns1 (ChannelInfo.node_two chan) scid).
  { apply Hl1. split; [apply Hl; by right|]. intros [E _]. by apply Hne. }
  destruct (remove_from_node_spec scid (ChannelInfo.node_two chan) (set_nodes ns1 g)) as (ns2 & E2 & Hok2 & Hl2' & Hf2);
    [done|destruct Hl2 as (i & Hi & _); by eexists|].
  exists ns2. split; [by rewrite E2|]. split; [done|]. cbn in *. split.
  - intros m s. rewrite Hl2', Hl1. unfold joins. naive_solver.
  - intros m i Hi. destruct (Hf2 _ _ Hi) as (j & Hj & ->). by apply Hf1.
Qed.

(** *** Adding a channel to a node *)

Definition added_node (scid : Z) (o : option NodeInfo.t) : NodeInfo.t :=
  match o with Some node => NodeInfo.with_channels (NodeInfo.channels node ++ [scid]) node | None => NodeInfo.mk _ [scid] None None end.

Lemma add_to_node_eq scid n g : add_to_node scid n g = (Ret tt, set_nodes (<[n := added_node scid (nodes g !! n)]> (nodes g)) g).
Proof. done. Qed.

Lemma added_listed scid n ns m s :
  listed (<[n := added_node scid (ns !! n)]> ns) m s <-> listed ns m s \/ (m = n /\ s = scid).
Proof.
  unfold listed. destruct (decide (m = n)) as [->|Hm].
  - rewrite lookup_insert_eq. destruct (ns !! n) as [i|] eqn:Ei; cbn.
    + split; [intros (j & [= <-] & Hs)|]; cbn in *; [set_solver|]. intros [(j & [= <-] & Hs)|[_ ->]]; (eexists; split; [done|]; cbn; set_solver).
    + split; [intros (j & [= <-] & Hs)|]; cbn in *; [set_solver|]. intros [(j & Hj & Hs)|[_ ->]]; [done|]. eexists. split; [done|]. cbn. set_solver.
  - rewrite lookup_insert_ne by done. naive_solver.
Qed.

Lemma added_nodes_ok scid n ns : nodes_ok ns -> ~ listed ns n scid -> nodes_ok (<[n := added_node scid (ns !! n)]> ns).
Proof.
  intros Hok Hn m i Hi. destruct (decide (m = n)) as [->|Hm]; [|rewrite lookup_insert_ne in Hi by done; eauto].
  rewrite lookup_insert_eq in Hi. injection Hi as <-. destruct (ns !! n) as [j|] eqn:Ej; cbn.
  - destruct (Hok _ _ Ej) as [Hne Hnd]. split; cbn; [by destruct (NodeInfo.channels j)|].
    apply NoDup_app. split_and!; [done| |by apply NoDup_singleton].
    intros s Hs Hs'. apply list_elem_of_singleton in Hs' as ->. apply Hn. by exists j.
  - split; [done|]. by apply NoDup_singleton.
Qed.
(** ** Fees *)

Definition fees_le (f g : RoutingFees.t) : Prop :=
  RoutingFees.base_msat f <= RoutingFees.base_msat g /\ RoutingFees.proportional_millionths f <= RoutingFees.proportional_millionths g.

#[local] Instance fees_le_preorder : PreOrder fees_le.
Proof. split; unfold fees_le; [intros ?; lia|intros ???; lia]. Qed.

Lemma min_fees_l f g : fees_le (min_fees f g) f.
Proof. unfold fees_le; cbn; lia. Qed.
Lemma min_fees_r f g : fees_le (min_fees f g) g.
Proof. unfold fees_le; cbn; lia. Qed.

(** The fees recorded are below those of an enabled direction. *)
Definition covers (lowest : option RoutingFees.t) (d : option ChannelUpdateInfo.t) : Prop :=
  forall info, d = Some info -> ChannelUpdateInfo.enabled info = true ->
  exists f, lowest = Some f /\ fees_le f (ChannelUpdateInfo.fees info).

Definition fees_low (cs : gmap Z ChannelInfo.t) (ns : gmap NodeId NodeInfo.t) : Prop :=
  forall n i scid c, ns !! n = Some i -> cs !! scid = Some c -> joins c n ->
  covers (NodeInfo.lowest_inbound_channel_fees i) (inbound c n).

Definition good (cs : gmap Z ChannelInfo.t) (ns : gmap NodeId NodeInfo.t) : Prop := consistent cs ns /\ fees_low cs ns.

Lemma covers_mono lowest lowest' d :
  (forall f, lowest = Some f -> exists f', lowest' = Some f' /\ fees_le f' f) -> covers lowest d -> covers lowest' d.
Proof. intros Hm Hc info Hi He. destruct (Hc info Hi He) as (f & Hf & Hle). destruct (Hm f Hf) as (f' & -> & Hle'). exists f'. split; [done|by etrans]. Qed.

Lemma covers_disable lowest d : covers lowest (ChannelUpdateInfo.disable <$> d).
Proof. intros info Hi He. destruct d; cbn in Hi; [|done]. injection Hi as <-. done. Qed.

(** ** The steps of the operations *)

Lemma remove_good chan scid cs g :
  good cs (nodes g) -> cs !! scid = Some chan ->
  exists ns', remove_channel_in_nodes chan scid g = (Ret tt, set_nodes ns' g) /\ good (delete scid cs) ns'.
Proof.
  intros [(Hc & Hn & Hl) Hf] Hs.
  destruct (remove_channel_in_nodes_spec chan scid g Hn (proj1 (Hc _ _ Hs))) as (ns' & E & Hn' & Hl' & Hf').
  { intros n Hj. apply Hl. by exists chan. }
  exists ns'. split; [done|]. split; [split_and!; [|done|]|].
  - intros s c Hsc. apply lookup_delete_Some in Hsc as [_ Hsc]. by eapply Hc.
  - intros n s. rewrite Hl', Hl. unfold ends. split.
    + intros [(c & Hc' & Hj) Hn0]. exists c. split; [|done]. apply lookup_delete_Some. split; [|done].
      intros <-. rewrite Hs in Hc'. injection Hc' as <-. by apply Hn0.
    + intros (c & Hsc & Hj). apply lookup_delete_Some in Hsc as [Hne Hsc]. split; [by exists c|]. intros [_ ->]. done.
  - intros n i s c Hi Hsc Hj. apply lookup_delete_Some in Hsc as [_ Hsc]. destruct (Hf' _ _ Hi) as (j & Hj' & ->). by eapply Hf.
Qed.

Definition no_directions (c : ChannelInfo.t) : Prop := ChannelInfo.one_to_two c = None /\ ChannelInfo.two_to_one c = None.

Lemma no_directions_covers lowest c n : no_directions c -> covers lowest (inbound c n).
Proof. intros [E1 E2] info. unfold inbound. case_bool_decide; congruence. Qed.

Lemma insert_good scid ci cs ns :
  good cs ns -> cs !! scid = None -> channel_ok ci -> no_directions ci ->
  let ns1 := <[ChannelInfo.node_one ci := added_node scid (ns !! ChannelInfo.node_one ci)]> ns in
  let ns2 := <[ChannelInfo.node_two ci := added_node scid (ns1 !! ChannelInfo.node_two ci)]> ns1 in
  good (<[scid := ci]> cs) ns2.
Proof.
  intros [(Hc & Hn & Hl) Hf] Hs Hci Hd ns1 ns2. pose proof (proj1 Hci) as Hne.
  assert (Hno : forall m, ~ listed ns m scid).
  { intros m Hm. apply Hl in Hm as (c & Hsc & _). by rewrite Hs in Hsc. }
  assert (Hl2 : forall m s, listed ns2 m s <-> listed ns m s \/ (joins ci m /\ s = scid)).
  { intros m s. unfold ns2. rewrite added_listed. unfold ns1. rewrite added_listed. unfold joins. naive_solver. }
  split; [split_and!|].
  - intros s c Hsc. destruct (decide (s = scid)) as [->|Hss].
    + rewrite lookup_insert_eq in Hsc. by injection Hsc as <-.
    + rewrite lookup_insert_ne in Hsc by done. by eapply Hc.
  - unfold ns2. apply added_nodes_ok; [by apply added_nodes_ok|]. unfold ns1. rewrite added_listed. intros [Hx|[Hx _]]; [by eapply Hno|done].
  - intros n s. rewrite Hl2, Hl. unfold ends. destruct (decide (s = scid)) as [->|Hss].
    + rewrite lookup_insert_eq. split; [intros [(c & Hsc & _)|[Hj _]]; [by rewrite Hs in Hsc|by exists ci]|].
      intros (c & [= <-] & Hj). by right.
    + rewrite lookup_insert_ne by done. naive_solver.
  - intros n i s c Hi Hsc Hj. destruct (decide (s = scid)) as [->|Hss].
    { rewrite lookup_insert_eq in Hsc. injection Hsc as <-. by apply no_directions_covers. }
    rewrite lookup_insert_ne in Hsc by done.
    destruct (proj2 (Hl n s)) as (j & Hj' & _); [by exists c|]. pose proof (Hf _ _ _ _ Hj' Hsc Hj) as Hcov.
    assert (Hlow : NodeInfo.lowest_inbound_channel_fees i = NodeInfo.lowest_inbound_channel_fees j); [|by rewrite Hlow].
    assert (H1 : exists i1, ns1 !! n = Some i1 /\ NodeInfo.lowest_inbound_channel_fees i1 = NodeInfo.lowest_inbound_channel_fees j).
    { unfold ns1. destruct (decide (n = ChannelInfo.node_one ci)) as [->|]; [rewrite lookup_insert_eq, Hj'|rewrite lookup_insert_ne by done]; by eexists. }
    destruct H1 as (i1 & Hi1 & <-). unfold ns2 in Hi. destruct (decide (n = ChannelInfo.node_two ci)) as [->|].
    + rewrite lookup_insert_eq, Hi1 in Hi. by injection Hi as <-.
    + rewrite lookup_insert_ne in Hi by done. rewrite Hi1 in Hi. by injection Hi as <-.
Qed.

(** Changes that keep the two ends of every channel, and the links of every node. *)
Definition ends_of (c : ChannelInfo.t) : NodeId * NodeId * option Z :=
  (ChannelInfo.node_one c, ChannelInfo.node_two c, ChannelInfo.capacity_sats c).

Lemma same_ends_consistent cs cs' ns :
  (forall scid, ends_of <$> cs' !! scid = ends_of <$> cs !! scid) -> consistent cs ns -> consistent cs' ns.
Proof.
  intros He (Hc & Hn & Hl).
  assert (Hto : forall scid c', cs' !! scid = Some c' -> exists c, cs !! scid = Some c /\ ends_of c = ends_of c').
  { intros scid c' Hc'. specialize (He scid). rewrite Hc' in He. destruct (cs !! scid) as [c|]; [|done]. injection He as He. exists c. split; [done|].
    unfold ends_of. congruence. }
  assert (Hfrom : forall scid c, cs !! scid = Some c -> exists c', cs' !! scid = Some c' /\ ends_of c = ends_of c').
  { intros scid c Hc0. specialize (He scid). rewrite Hc0 in He. destruct (cs' !! scid) as [c'|]; [|done]. injection He as He. exists c'. split; [done|].
    unfold ends_of. congruence. }
  split_and!; [|done|].
  - intros scid c' Hc'. destruct (Hto _ _ Hc') as (c & Hc0 & [= E1 E2 E3]). unfold channel_ok. rewrite <- E1, <- E2, <- E3. by eapply Hc.
  - intros n scid. rewrite Hl. unfold ends, joins. split; intros (c & Hc0 & Hj).
    + destruct (Hfrom _ _ Hc0) as (c' & Hc' & [= E1 E2 _]). exists c'. by rewrite <- E1, <- E2.
    + destruct (Hto _ _ Hc0) as (c' & Hc' & [= E1 E2 _]). exists c'. by rewrite E1, E2.
Qed.

Lemma same_links_consistent cs ns ns' :
  (forall n, NodeInfo.channels <$> ns' !! n = NodeInfo.channels <$> ns !! n) -> consistent cs ns -> consistent cs ns'.
Proof.
  intros He (Hc & Hn & Hl).
  assert (Hto : forall n i', ns' !! n = Some i' -> exists i, ns !! n = Some i /\ NodeInfo.channels i = NodeInfo.channels i').
  { intros n i' Hi. specialize (He n). rewrite Hi in He. destruct (ns !! n) as [i|]; [|done]. injection He as He. eauto. }
  assert (Hfrom : forall n i, ns !! n = Some i -> exists i', ns' !! n = Some i' /\ NodeInfo.channels i = NodeInfo.channels i').
  { intros n i Hi. specialize (He n). rewrite Hi in He. destruct (ns' !! n) as [i'|]; [|done]. injection He as He. eauto. }
  split_and!; [done| |].
  - intros n i' Hi. destruct (Hto _ _ Hi) as (i & Hi0 & E). unfold node_ok. rewrite <- E. by eapply Hn.
  - intros n scid. rewrite <- Hl. unfold listed. split; intros (i & Hi & Hs).
    + destruct (Hto _ _ Hi) as (i' & Hi' & E). exists i'. by rewrite E.
    + destruct (Hfrom _ _ Hi) as (i' & Hi' & E). exists i'. by rewrite <- E.
Qed.
(** ** The operations *)

Definition graph_ok (g : NetworkGraph) : Prop := good (channels g) (nodes g).

(** An operation returns, and keeps the graph well-formed. *)
Definition safe {A} (m : prog NetworkGraph A) : Prop :=
  forall g, graph_ok g -> exists a g', m g = (Ret a, g') /\ graph_ok g'.

Lemma safe_ret {A} (a : A) : safe (mret a).
Proof. intros g Hg. by exists a, g. Qed.

Lemma safe_bind {A B} (m : prog NetworkGraph A) (f : A -> prog NetworkGraph B) :
  safe m -> (forall a, safe (f a)) -> safe (m ≫= f).
Proof.
  intros Hm Hf g Hg. destruct (Hm g Hg) as (a & g1 & E & Hg1). destruct (Hf a g1 Hg1) as (b & g2 & E2 & Hg2).
  exists b, g2. by rewrite (prog_bind_Ret _ _ _ _ _ E).
Qed.

Lemma safe_bind_ok {A B E} (m : prog NetworkGraph (result A E)) (f : A -> prog NetworkGraph (result B E)) :
  safe m -> (forall a, safe (f a)) -> safe (bind_ok m f).
Proof. intros Hm Hf. apply safe_bind; [done|]. intros [a|e]; [apply Hf|apply safe_ret]. Qed.

Lemma safe_lift {A} (o : outcome A) : (exists a, o = Ret a) -> safe (lift o).
Proof. intros [a ->] g Hg. by exists a, g. Qed.

Lemma update_node_safe msg full : safe (update_node_from_announcement_intern msg full).
Proof.
  intros g Hg. unfold update_node_from_announcement_intern. rewrite bind_get.
  destruct (nodes g !! _) as [node|] eqn:En; [|by eexists _, _].
  assert (Hstore : forall a, exists r g', (_ ← put (set_nodes (<[from_pubkey (UnsignedNodeAnnouncement.node_id msg) :=
      NodeInfo.with_announcement a node]> (nodes g)) g); mret (Ok (E := LightningError) tt)) g = (Ret r, g') /\ graph_ok g').
  { intros a. eexists _, _. split; [done|]. destruct Hg as [Hc Hf]. split.
    - cbn. eapply same_links_consistent; [|done]. intros n. cbn. destruct (decide (n = from_pubkey (UnsignedNodeAnnouncement.node_id msg))) as [->|];
        [by rewrite lookup_insert_eq, En|by rewrite lookup_insert_ne].
    - intros n i scid c Hi. cbn in Hi. destruct (decide (n = from_pubkey (UnsignedNodeAnnouncement.node_id msg))) as [->|];
        [rewrite lookup_insert_eq in Hi; injection Hi as <-; cbn; by apply Hf|rewrite lookup_insert_ne in Hi by done; by apply Hf]. }
  destruct (NodeInfo.announcement_info node); [|apply Hstore].
  destruct (_ <? _); [by eexists _, _|]. destruct (_ =? _); [by eexists _, _|]. apply Hstore.
Qed.

Lemma insert_and_link_safe scid ci cs g :
  good (delete scid cs) (nodes g) -> channels g = cs -> channel_ok ci -> no_directions ci ->
  exists g', (_ ← modify (fun g => set_channels (<[scid := ci]> (channels g)) g);
     _ ← add_to_node scid (ChannelInfo.node_one ci); _ ← add_to_node scid (ChannelInfo.node_two ci);
     mret (Ok (E := LightningError) tt)) g = (Ret (Ok tt), g') /\ graph_ok g'.
Proof.
  intros Hg Ec Hne Hd. eexists. split; [done|]. unfold graph_ok. cbn. rewrite Ec.
  pose proof (insert_good scid ci (delete scid cs) (nodes g) Hg (lookup_delete_eq _ _) Hne Hd) as Hi.
  by rewrite insert_delete_eq in Hi.
Qed.

Lemma add_channel_safe scid ci utxo :
  channel_ok ci -> no_directions ci -> safe (add_channel_between_nodes scid ci utxo).
Proof.
  intros Hne Hd g Hg. unfold add_channel_between_nodes. rewrite bind_get.
  destruct (channels g !! scid) as [old|] eqn:Es.
  - destruct utxo; [|by eexists _, _]. destruct (remove_good old scid (channels g) g Hg Es) as (ns' & E & Hg').
    rewrite (prog_bind_Ret _ _ _ _ _ E).
    destruct (insert_and_link_safe scid ci (channels g) (set_nodes ns' g)) as (g' & E' & Hok); [done..|]. by eexists _, _.
  - destruct (insert_and_link_safe scid ci (channels g) g) as (g' & E' & Hok); try done; [by rewrite delete_id|]. by eexists _, _.
Qed.

Definition access_ok (access : option Access) : Prop :=
  forall get_utxo h scid v script, access = Some get_utxo -> get_utxo h scid = Ok (v, script) -> 0 <= v.

Lemma utxo_value_nonneg msg access v : access_ok access -> utxo_value_of msg access = Ok (Some v) -> 0 <= v.
Proof.
  intros Ha. unfold utxo_value_of. destruct access as [get_utxo|]; [|done].
  destruct (get_utxo _ _) as [[v' script]|[]] eqn:E; [|done..]. case_bool_decide; [|done]. intros [= <-]. by eapply Ha.
Qed.

Lemma update_from_announcement_safe now msg full access :
  access_ok access -> safe (update_channel_from_unsigned_announcement_intern now msg full access).
Proof.
  intros Ha. unfold update_channel_from_unsigned_announcement_intern. case_bool_decide as E1; cbn [orb]; [apply safe_ret|].
  case_bool_decide; [apply safe_ret|]. destruct (utxo_value_of msg access) as [utxo|e] eqn:Eu; [|apply safe_ret].
  apply (add_channel_safe _ (ChannelInfo.mk _ _ _ _ _ _ _ _ _)); [|done]. split; [done|]. cbn. intros v ->. by eapply utxo_value_nonneg.
Qed.

Lemma channel_failed_safe scid permanent : safe (channel_failed scid permanent).
Proof.
  intros g Hg. unfold channel_failed. rewrite bind_get. destruct (channels g !! scid) as [c|] eqn:Es; [|by eexists _, _].
  destruct permanent.
  - destruct (remove_good c scid (channels g) (set_channels (delete scid (channels g)) g) Hg Es) as (ns' & E & Hg').
    exists tt, (set_nodes ns' (set_channels (delete scid (channels g)) g)). split; [|exact Hg'].
    by rewrite (prog_bind_Ret _ _ _ tt (set_channels (delete scid (channels g)) g)).
  - eexists _, _. split; [done|]. destruct Hg as [Hc Hf]. split; cbn.
    + eapply same_ends_consistent; [|done]. intros s. destruct (decide (s = scid)) as [->|];
        [by rewrite lookup_insert_eq, Es|by rewrite lookup_insert_ne].
    + intros n i s c' Hi Hc'. destruct (decide (s = scid)) as [->|]; [|rewrite lookup_insert_ne in Hc' by done; by eapply Hf].
      rewrite lookup_insert_eq in Hc'. injection Hc' as <-. intros _. unfold inbound. cbn. case_bool_decide; apply covers_disable.
Qed.

Lemma expire_ok g min : graph_ok g -> graph_ok (set_channels (expire min <$> channels g) g).
Proof.
  intros [Hc Hf]. split; cbn.
  - eapply same_ends_consistent; [|done]. intros s. rewrite lookup_fmap. by destruct (channels g !! s).
  - intros n i s c' Hi Hc'. rewrite lookup_fmap in Hc'. destruct (channels g !! s) as [c|] eqn:Es; [|done]. injection Hc' as <-.
    intros Hj info Hi'. apply (Hf n i s c Hi Es Hj). revert Hi'. unfold inbound. cbn.
    assert (Hx : forall d, expire_direction min d = Some info -> d = Some info).
    { intros [i'|]; cbn; [|done]. by destruct (_ <? _). }
    case_bool_decide; apply Hx.
Qed.

Lemma remove_all_safe scids : forall g, graph_ok g -> NoDup scids -> (forall s, s ∈ scids -> is_Some (channels g !! s)) ->
  exists g', remove_all scids g = (Ret tt, g') /\ graph_ok g'.
Proof.
  induction scids as [|s scids IH]; intros g Hg Hnd Hin; [by exists g|]. apply NoDup_cons in Hnd as [Hs Hnd].
  cbn [remove_all]. rewrite bind_get. destruct (Hin s) as [c Hc]; [by left|]. rewrite Hc.
  destruct (remove_good c s (channels g) (set_channels (delete s (channels g)) g) Hg Hc) as (ns' & E & Hg').
  destruct (IH (set_nodes ns' (set_channels (delete s (channels g)) g))) as (g' & E' & Hok); [done|done| |].
  { intros s' Hs'. cbn. rewrite lookup_delete_ne by (intros ->; done). apply Hin. by right. }
  exists g'. split; [|done]. rewrite (prog_bind_Ret _ _ _ tt (set_channels (delete s (channels g)) g)) by done.
  by rewrite (prog_bind_Ret _ _ _ _ _ E).
Qed.

Lemma in_order_elem {V} (m : gmap Z V) k v : (k, v) ∈ in_order m <-> m !! k = Some v.
Proof. unfold in_order. rewrite sort_by_Permutation. apply elem_of_map_to_list. Qed.

Lemma in_order_NoDup {V} (m : gmap Z V) : NoDup (in_order m).*1.
Proof. unfold in_order. rewrite sort_by_Permutation. apply NoDup_fst_map_to_list. Qed.

Lemma remove_stale_safe now : safe (remove_stale_channels_with_time now).
Proof.
  unfold remove_stale_channels_with_time. destruct (_ <? _); [apply safe_ret|]. destruct (_ <? _); [apply safe_ret|].
  intros g Hg. set (min := wrap 32 _). pose proof (expire_ok g min Hg) as Hg1. set (g1 := set_channels _ g) in *.
  rewrite (prog_bind_Ret _ _ _ tt g1), bind_get by done.
  destruct (remove_all_safe (List.filter (fun e => to_remove min e.2) (in_order (channels g1))).*1 g1 Hg1) as (g' & E & Hok).
  - pose proof (in_order_NoDup (channels g1)) as Hnd. induction (in_order (channels g1)) as [|e l IH]; [constructor|].
    cbn [List.filter]. cbn in Hnd. apply NoDup_cons in Hnd as [He Hnd]. destruct (to_remove min e.2); [|by apply IH].
    cbn. constructor; [|by apply IH]. intros Hin. apply He. apply list_elem_of_fmap in Hin as (e' & -> & Hin).
    apply list_elem_of_fmap_2. rewrite list_elem_of_In in *. by apply filter_In in Hin as [? _].
  - intros s Hs. apply list_elem_of_fmap in Hs as ([s' c] & -> & Hin). rewrite list_elem_of_In in Hin. apply filter_In in Hin as [Hin _].
    rewrite <- list_elem_of_In in Hin. apply in_order_elem in Hin. by eexists.
  - by eexists _, _.
Qed.
(** *** Updates *)

Lemma lowest_fees_spec cs n ids : forall acc,
  (forall s, s ∈ ids -> is_Some (cs !! s)) ->
  exists r, lowest_fees cs n ids acc = Ret r /\
    (forall f, acc = Some f -> exists f', r = Some f' /\ fees_le f' f) /\
    (forall s c, s ∈ ids -> cs !! s = Some c -> covers r (inbound c n)).
Proof.
  induction ids as [|s ids IH]; intros acc Hin; cbn [lowest_fees].
  { exists acc. split; [done|]. split; [|set_solver]. intros f ->. exists f. by split. }
  destruct (Hin s) as [c Hc]; [by left|]. rewrite Hc. cbn [Prelude.unwrap mbind outcome_bind].
  set (acc' := match inbound c n with Some _ => _ | None => acc end).
  assert (Ha : (forall f, acc = Some f -> exists f', acc' = Some f' /\ fees_le f' f) /\ covers acc' (inbound c n)).
  { unfold acc'. destruct (inbound c n) as [info|]; [|split; [intros f ->; by exists f|by intros ? [=]]].
    destruct (ChannelUpdateInfo.enabled info) eqn:Ee.
    - split; [intros f ->; eexists; split; [done|apply min_fees_l]|]. intros ? [= <-] _. eexists. split; [done|apply min_fees_r].
    - split; [intros f ->; by exists f|]. intros ? [= <-]. congruence. }
  destruct Ha as [Ha1 Ha2]. destruct (IH acc') as (r & Er & Hr1 & Hr2); [intros; apply Hin; by right|].
  exists r. split; [done|]. split.
  - intros f Hf. destruct (Ha1 f Hf) as (f1 & E1 & Hle). destruct (Hr1 f1 E1) as (f2 & E2 & Hle2). exists f2. split; [done|by etrans].
  - intros s' c' Hs' Hc'. apply elem_of_cons in Hs' as [->|Hs']; [|by eapply Hr2].
    rewrite Hc in Hc'. injection Hc' as <-. by eapply covers_mono.
Qed.

Lemma with_fees_consistent cs ns n node f :
  ns !! n = Some node -> consistent cs ns -> consistent cs (<[n := NodeInfo.with_fees f node]> ns).
Proof.
  intros Hn. apply same_links_consistent. intros m. destruct (decide (m = n)) as [->|];
    [by rewrite lookup_insert_eq, Hn|by rewrite lookup_insert_ne].
Qed.

(** One direction of a channel is replaced, and the fees of the node it leads to follow. *)
Lemma update_direction_safe msg full scid c c' dest was g :
  graph_ok g -> channels g !! scid = Some c -> ends_of c' = ends_of c -> joins c dest ->
  inbound c' dest = Some (get_new_channel_info msg full) ->
  (forall n, joins c n -> n <> dest -> inbound c' n = inbound c n) ->
  (was = false -> forall i, inbound c dest = Some i -> ChannelUpdateInfo.enabled i = false) ->
  exists g', update_node_fees msg dest was (set_channels (<[scid := c']> (channels g)) g) = (Ret tt, g') /\ graph_ok g' /\
    channels g' = <[scid := c']> (channels g).
Proof.
  intros [Hcon Hf] Hs He Hd Hin Hother Hwas.
  assert (Hcon' : consistent (<[scid := c']> (channels g)) (nodes g)).
  { eapply same_ends_consistent; [|done]. intros s. destruct (decide (s = scid)) as [->|];
      [rewrite lookup_insert_eq, Hs; cbn; by rewrite He|by rewrite lookup_insert_ne]. }
  assert (Hj : forall n, joins c' n <-> joins c n) by (injection He as E1 E2 _; unfold joins; by rewrite E1, E2).
  destruct Hcon as (Hcs & Hns & Hl). destruct (proj2 (Hl dest scid)) as (node & Hn & _); [by exists c|].
  assert (Hrest : forall n i s ch, nodes g !! n = Some i -> <[scid := c']> (channels g) !! s = Some ch -> joins ch n ->
    ~ (n = dest /\ s = scid) -> covers (NodeInfo.lowest_inbound_channel_fees i) (inbound ch n)).
  { intros n i s ch Hi Hch Hjn Hne. destruct (decide (s = scid)) as [->|]; [|rewrite lookup_insert_ne in Hch by done; by eapply Hf].
    rewrite lookup_insert_eq in Hch. injection Hch as <-. apply Hj in Hjn. rewrite Hother; [by eapply Hf|done|]. intros ->. by apply Hne. }
  unfold update_node_fees. rewrite bind_get. cbn [nodes channels set_channels]. destruct (chan_enabled msg) eqn:Een.
  - rewrite Hn. cbn [Prelude.unwrap]. eexists. split; [done|]. split; [|done]. split; cbn; [by apply with_fees_consistent|].
    intros n i s ch Hi Hch Hjn. destruct (decide (n = dest)) as [->|].
    2: { rewrite lookup_insert_ne in Hi by done. eapply Hrest; try done. by intros [-> _]. }
    rewrite lookup_insert_eq in Hi. injection Hi as <-. cbn. destruct (decide (s = scid)) as [->|].
    + rewrite lookup_insert_eq in Hch. injection Hch as <-. rewrite Hin. intros ? [= <-] _. eexists. split; [done|].
      cbn. destruct (NodeInfo.lowest_inbound_channel_fees node); [apply min_fees_l|done].
    + eapply covers_mono; [|eapply Hrest; try done; by intros [_ ->]]. intros f ->. eexists. split; [done|]. apply min_fees_r.
  - destruct was.
    + rewrite Hn. cbn [Prelude.unwrap]. rewrite (prog_bind_Ret _ _ _ node (set_channels (<[scid := c']> (channels g)) g)) by done.
      assert (Hids : forall s, s ∈ NodeInfo.channels node -> is_Some (<[scid := c']> (channels g) !! s)).
      { intros s Hsn. destruct Hcon' as (_ & _ & Hl'). destruct (proj1 (Hl' dest s)) as (ch & Hch & _); [by exists node|]. by eexists. }
      destruct (lowest_fees_spec (<[scid := c']> (channels g)) dest (NodeInfo.channels node) None Hids) as (r & Er & _ & Hr).
      rewrite Er, (prog_bind_Ret _ _ _ r (set_channels (<[scid := c']> (channels g)) g)) by done.
      eexists. split; [done|]. split; [|done]. split; cbn; [by apply with_fees_consistent|].
      intros n i s ch Hi Hch Hjn. destruct (decide (n = dest)) as [->|].
      2: { rewrite lookup_insert_ne in Hi by done. eapply Hrest; try done. by intros [-> _]. }
      rewrite lookup_insert_eq in Hi. injection Hi as <-. cbn. apply (Hr s ch); [|done].
      destruct Hcon' as (_ & _ & Hl'). destruct (proj2 (Hl' dest s)) as (j & Hj0 & Hs0); [by exists ch|]. rewrite Hn in Hj0. by injection Hj0 as <-.
    + eexists. split; [done|]. split; [|done]. split; [done|]. cbn. intros n i s ch Hi Hch Hjn.
      destruct (decide (n = dest /\ s = scid)) as [[-> ->]|]; [|by eapply Hrest].
      rewrite lookup_insert_eq in Hch. injection Hch as <-. rewrite Hin. intros ? [= <-]. cbn. by rewrite Een.
Qed.

Lemma check_htlc_maximum_total msg c : channel_ok c -> exists r, check_htlc_maximum msg c = Ret r.
Proof.
  intros [_ Hcap]. unfold check_htlc_maximum. destruct (UnsignedChannelUpdate.htlc_maximum_msat msg) as [m|]; [|by eexists].
  destruct (_ <? _); [by eexists|]. destruct (ChannelInfo.capacity_sats c) as [cap|]; [|by eexists].
  destruct (Z.ltb_spec (MAX_VALUE_MSAT / 1000) cap) as [|Hle]; [by eexists|].
  specialize (Hcap cap eq_refl). change (MAX_VALUE_MSAT / 1000) with 2100000000000000 in Hle.
  unfold mul64. rewrite checked_op_ok by (unfold in_width; lia). by eexists.
Qed.

(** The clock is after the two weeks of the epoch and far from its end. *)
Definition clock_ok (now : Z) : Prop := STALE_CHANNEL_UPDATE_AGE_LIMIT_SECS <= now < 2 ^ 63.

Lemma check_update_age_total now msg : clock_ok now -> exists r, check_update_age now msg = Ret r.
Proof.
  intros [H1 H2]. unfold check_update_age, sub64, add64. unfold STALE_CHANNEL_UPDATE_AGE_LIMIT_SECS in *.
  rewrite !checked_op_ok by (unfold in_width; lia). cbn [mbind outcome_bind].
  destruct (UnsignedChannelUpdate.timestamp msg <? _); [by eexists|]. destruct (_ <? UnsignedChannelUpdate.timestamp msg); by eexists.
Qed.

Lemma check_latest_was msg d was : check_update_latest msg d = Ok was -> was = false -> forall i, d = Some i -> ChannelUpdateInfo.enabled i = false.
Proof.
  unfold check_update_latest. intros E -> i ->. destruct (_ <? _); [done|]. destruct (_ =? _); [done|]. by injection E as ->.
Qed.

Lemma inbound_one c : inbound c (ChannelInfo.node_one c) = ChannelInfo.two_to_one c.
Proof. unfold inbound. by rewrite bool_decide_eq_true_2. Qed.
Lemma inbound_two c : ChannelInfo.node_one c <> ChannelInfo.node_two c -> inbound c (ChannelInfo.node_two c) = ChannelInfo.one_to_two c.
Proof. intros Hne. unfold inbound. by rewrite bool_decide_eq_false_2. Qed.

(** The channel with the direction an update is for replaced. *)
Definition updated (msg : UnsignedChannelUpdate.t) (full : option ChannelUpdate.t) (c : ChannelInfo.t) : ChannelInfo.t :=
  let info := Some (get_new_channel_info msg full) in
  if Z.land (UnsignedChannelUpdate.flags msg) 1 =? 1 then ChannelInfo.with_directions (ChannelInfo.one_to_two c) info c
  else ChannelInfo.with_directions info (ChannelInfo.two_to_one c) c.

(** The node whose policy an update is, and the direction it replaces. *)
Definition source_of (msg : UnsignedChannelUpdate.t) (c : ChannelInfo.t) : NodeId :=
  if Z.land (UnsignedChannelUpdate.flags msg) 1 =? 1 then ChannelInfo.node_two c else ChannelInfo.node_one c.
Definition direction_of (msg : UnsignedChannelUpdate.t) (c : ChannelInfo.t) : option ChannelUpdateInfo.t :=
  if Z.land (UnsignedChannelUpdate.flags msg) 1 =? 1 then ChannelInfo.two_to_one c else ChannelInfo.one_to_two c.

(** The last part of an update that passed its checks. *)
Lemma apply_update msg full c was g :
  let scid := UnsignedChannelUpdate.short_channel_id msg in
  let dest := if Z.land (UnsignedChannelUpdate.flags msg) 1 =? 1 then ChannelInfo.node_one c else ChannelInfo.node_two c in
  graph_ok g -> channels g !! scid = Some c -> check_update_latest msg (direction_of msg c) = Ok was ->
  exists g', (_ ← put (set_channels (<[scid := updated msg full c]> (channels g)) g); _ ← update_node_fees msg dest was;
      mret (Ok (E := LightningError) tt)) g = (Ret (Ok tt), g') /\ graph_ok g' /\ channels g' = <[scid := updated msg full c]> (channels g).
Proof.
  intros scid dest Hg Ec El. pose proof Hg as [(Hcs & _ & _) _]. pose proof (proj1 (Hcs _ _ Ec)) as Hne.
  destruct (update_direction_safe msg full scid c (updated msg full c) dest was g) as (g' & E & Hg' & Hch); try done.
  - unfold updated. by destruct (_ =? 1).
  - unfold dest, joins. destruct (_ =? 1); auto.
  - unfold updated, dest. destruct (_ =? 1); [apply (inbound_one (ChannelInfo.with_directions _ _ c))|].
    by apply (inbound_two (ChannelInfo.with_directions _ _ c)).
  - intros n Hj Hn. unfold updated, dest, inbound in *. destruct (_ =? 1); cbn; case_bool_decide; try done; destruct Hj; congruence.
  - intros Hw i Hi. eapply check_latest_was; [exact El|done|]. rewrite <- Hi. unfold direction_of, dest.
    destruct (_ =? 1); [by rewrite inbound_one|by rewrite inbound_two].
  - exists g'. split; [|done]. rewrite (prog_bind_Ret _ _ _ tt (set_channels (<[scid := updated msg full c]> (channels g)) g)) by done.
    by rewrite (prog_bind_Ret _ _ _ _ _ E).
Qed.

(** The update was refused before it changed anything. *)
#[local] Ltac refused E :=
  cbv [mret prog_ret bind_ok mbind prog_bind lift] in E; injection E as <- <-; left; by eexists.

(** What an update does to a well-formed graph: nothing when it is refused; when it is
    accepted it is newer than the direction it replaces, bears the signature of the node it
    is from, and replaces that direction only. *)
Lemma update_channel_cases now msg full sig g :
  clock_ok now -> graph_ok g ->
  (exists e, update_channel_intern now msg full sig g = (Ret (Err e), g)) \/
  (exists c g', let scid := UnsignedChannelUpdate.short_channel_id msg in
     update_channel_intern now msg full sig g = (Ret (Ok tt), g') /\ graph_ok g' /\
     channels g !! scid = Some c /\ channels g' = <[scid := updated msg full c]> (channels g) /\
     (forall i, direction_of msg c = Some i -> ChannelUpdateInfo.last_update i < UnsignedChannelUpdate.timestamp msg) /\
     (forall s, sig = Some s -> exists k, pk_from_slice (source_of msg c) = Some k /\
        verify_ecdsa (sha256d (encode UnsignedChannelUpdate.codec msg)) s k = true)).
Proof.
  intros Hclock Hg. destruct (update_channel_intern now msg full sig g) as [o g1] eqn:E0. unfold update_channel_intern in E0.
  destruct (check_update_age_total now msg Hclock) as [[[]|e] Ea]; rewrite Ea in E0; [|refused E0].
  unfold bind_ok at 1 in E0. rewrite (prog_bind_Ret _ _ g (Ok tt) g), bind_get in E0 by done.
  set (scid := UnsignedChannelUpdate.short_channel_id msg) in *.
  destruct (channels g !! scid) as [c|] eqn:Ec in E0; [|refused E0].
  pose proof Hg as [(Hcs & _ & _) _]. pose proof (Hcs _ _ Ec) as Hc. pose proof (proj1 Hc) as Hne.
  destruct (check_htlc_maximum_total msg c Hc) as [[[]|e] Em]; rewrite Em in E0; [|refused E0].
  unfold bind_ok at 1 in E0. rewrite (prog_bind_Ret _ _ g (Ok tt) g) in E0 by done.
  pose proof (apply_update msg full c) as Hap. unfold updated, direction_of, source_of in *.
  assert (Hts : forall d was, check_update_latest msg d = Ok was ->
    forall i, d = Some i -> ChannelUpdateInfo.last_update i < UnsignedChannelUpdate.timestamp msg).
  { intros d was E i ->. unfold check_update_latest in E. destruct (Z.ltb_spec (UnsignedChannelUpdate.timestamp msg) (ChannelUpdateInfo.last_update i)); [done|].
    destruct (Z.eqb_spec (ChannelUpdateInfo.last_update i) (UnsignedChannelUpdate.timestamp msg)); [done|lia]. }
  assert (Hsig : forall src whose, check_update_sig msg sig src whose = Ok tt -> forall s, sig = Some s -> exists k, pk_from_slice src = Some k /\
    verify_ecdsa (sha256d (encode UnsignedChannelUpdate.codec msg)) s k = true).
  { intros src whose E s ->. unfold check_update_sig, secp_verify_sig in E. destruct (pk_from_slice src) as [k|]; [|done]. exists k. split; [done|].
    by destruct (verify_ecdsa _ _ _). }
  destruct (Z.land (UnsignedChannelUpdate.flags msg) 1 =? 1).
  - destruct (check_update_latest msg (ChannelInfo.two_to_one c)) as [was|e] eqn:El in E0; [|refused E0].
    destruct (check_update_sig msg sig (ChannelInfo.node_two c) "source") as [[]|e] eqn:Es in E0; [|refused E0].
    destruct (Hap was g Hg Ec El) as (g' & E & Hg' & Hch). right. exists c, g1.
    assert (E1 := eq_trans (eq_sym E0) E). injection E1 as -> ->.
    split_and!; [done|done|done|done|by eapply Hts|by eapply Hsig].
  - destruct (check_update_latest msg (ChannelInfo.one_to_two c)) as [was|e] eqn:El in E0; [|refused E0].
    destruct (check_update_sig msg sig (ChannelInfo.node_one c) "destination") as [[]|e] eqn:Es in E0; [|refused E0].
    destruct (Hap was g Hg Ec El) as (g' & E & Hg' & Hch). right. exists c, g1.
    assert (E1 := eq_trans (eq_sym E0) E). injection E1 as -> ->.
    split_and!; [done|done|done|done|by eapply Hts|by eapply Hsig].
Qed.

Lemma update_channel_safe now msg full sig : clock_ok now -> safe (update_channel_intern now msg full sig).
Proof.
  intros Hclock g Hg. destruct (update_channel_cases now msg full sig g Hclock Hg) as [[e E]|(c & g' & E & Hg' & _)]; by eexists _, _.
Qed.
(** ** Sequences of operations *)

Inductive Op :=
| NodeAnnounced (msg : NodeAnnouncement.t)
| NodeAnnouncedUnsigned (msg : UnsignedNodeAnnouncement.t)
| ChannelAnnounced (now : Z) (msg : ChannelAnnouncement.t) (chain_access : option Access)
| ChannelAnnouncedUnsigned (now : Z) (msg : UnsignedChannelAnnouncement.t) (chain_access : option Access)
| ChannelPartiallyAnnounced (scid timestamp : Z) (features : bytes) (node_id_1 node_id_2 : PublicKey)
| ChannelUpdated (now : Z) (msg : ChannelUpdate.t)
| ChannelUpdatedUnsigned (now : Z) (msg : UnsignedChannelUpdate.t)
| PaymentFailed (now : Z) (network_update : option NetworkUpdate)
| Pruned (now : Z).

Definition completed {A} (m : prog NetworkGraph A) : prog NetworkGraph (result unit LightningError) := _ ← m; mret (Ok tt).

Definition run_op (op : Op) : prog NetworkGraph (result unit LightningError) :=
  match op with
  | NodeAnnounced msg => update_node_from_announcement msg
  | NodeAnnouncedUnsigned msg => update_node_from_unsigned_announcement msg
  | ChannelAnnounced now msg access => update_channel_from_announcement now msg access
  | ChannelAnnouncedUnsigned now msg access => update_channel_from_unsigned_announcement now msg access
  | ChannelPartiallyAnnounced scid timestamp features k1 k2 => add_channel_from_partial_announcement scid timestamp features k1 k2
  | ChannelUpdated now msg => update_channel now msg
  | ChannelUpdatedUnsigned now msg => update_channel_unsigned now msg
  | PaymentFailed now network_update => completed (handle_event now network_update)
  | Pruned now => completed (remove_stale_channels_with_time now)
  end.

Fixpoint run_ops (ops : list Op) : prog NetworkGraph (list (result unit LightningError)) :=
  match ops with
  | [] => mret []
  | op :: ops' => r ← run_op op; rs ← run_ops ops'; mret (r :: rs)
  end.

(** The clock is sane, and outputs on the chain have a value. *)
Definition op_ok (op : Op) : Prop :=
  match op with
  | ChannelAnnounced _ _ access | ChannelAnnouncedUnsigned _ _ access => access_ok access
  | ChannelUpdated now _ | ChannelUpdatedUnsigned now _ | PaymentFailed now _ => clock_ok now
  | _ => True
  end.

Lemma run_op_safe op : op_ok op -> safe (run_op op).
Proof.
  intros Hok. destruct op; cbn in *.
  - apply safe_bind_ok; [apply safe_ret|]. intros _. apply update_node_safe.
  - apply update_node_safe.
  - apply safe_bind_ok; [apply safe_ret|]. intros _. by apply update_from_announcement_safe.
  - by apply update_from_announcement_safe.
  - unfold add_channel_from_partial_announcement. case_bool_decide; [apply safe_ret|]. by apply add_channel_safe.
  - by apply update_channel_safe.
  - by apply update_channel_safe.
  - apply safe_bind; [|intros; apply safe_ret]. destruct network_update as [[msg|scid p|n p]|]; cbn; [|apply channel_failed_safe|apply safe_ret..].
    apply safe_bind; [by apply update_channel_safe|intros; apply safe_ret].
  - apply safe_bind; [apply remove_stale_safe|intros; apply safe_ret].
Qed.

Lemma run_ops_safe ops : Forall op_ok ops -> safe (run_ops ops).
Proof.
  induction 1 as [|op ops Hop _ IH]; [apply safe_ret|]. cbn [run_ops].
  apply safe_bind; [by apply run_op_safe|]. intros r. apply safe_bind; [done|]. intros rs. apply safe_ret.
Qed.

Lemma new_ok genesis : graph_ok (new genesis).
Proof.
  split.
  - split_and!; [intros ?? E|intros ?? E|]; [cbn in E; by rewrite lookup_empty in E..|]. intros n scid. unfold listed, ends. cbn.
    setoid_rewrite lookup_empty. naive_solver.
  - intros n i ? ? E. cbn in E. by rewrite lookup_empty in E.
Qed.

(** C13: whatever gossip arrives, in whatever order, mixed with failures of payments and
    prunings, no operation panics, and in the graph that results every channel is listed
    once by each of the two nodes it joins and by no other, every node has a channel, and
    the fees recorded for a node are a lower bound for its enabled inbound channels. *)
Theorem graph_stays_consistent (genesis : bytes) (ops : list Op) :
  Forall op_ok ops ->
  exists rs g, run_ops ops (new genesis) = (Ret rs, g) /\
    consistent (channels g) (nodes g) /\ fees_low (channels g) (nodes g).
Proof.
  intros Hops. destruct (run_ops_safe ops Hops (new genesis) (new_ok genesis)) as (rs & g & E & Hc & Hf). by exists rs, g.
Qed.
End GraphSpec.
