(* ===== verification/GraphAuth.v ===== *)
(** * Every policy in the graph was signed

    What peers and failing hops tell about a channel is taken over only with the signature
    of the node whose policy it is, and a channel only with the signatures of its two nodes
    and its two funding keys. *)

From S2P Require Import Prelude Text HexUtils Bytes ChaCha20 Stream Ser SerLaws Tlv Features Msgs OnionHop ChannelMsgs GossipMsgs Noise Onion OnionError Graph GraphSpec.

Local Open Scope Z_scope.

Section GraphAuth.
Context `{GossipCrypto}.

(** The policy [i] is the one of a signed update for the channel; it can only have been
    disabled since. *)
Definition signed_policy (scid : Z) (from_two : bool) (src : NodeId) (i : ChannelUpdateInfo.t) : Prop :=
  exists m s k, pk_from_slice src = Some k /\ verify_ecdsa (sha256d (encode UnsignedChannelUpdate.codec m)) s k = true /\
    UnsignedChannelUpdate.short_channel_id m = scid /\ (Z.land (UnsignedChannelUpdate.flags m) 1 =? 1) = from_two /\
    exists full, i = get_new_channel_info m full \/ i = ChannelUpdateInfo.disable (get_new_channel_info m full).

Definition announced (scid : Z) (c : ChannelInfo.t) : Prop :=
  exists a, verify_announcement a = Ok tt /\
    let contents := ChannelAnnouncement.contents a in
    UnsignedChannelAnnouncement.short_channel_id contents = scid /\
    ChannelInfo.node_one c = from_pubkey (UnsignedChannelAnnouncement.node_id_1 contents) /\
    ChannelInfo.node_two c = from_pubkey (UnsignedChannelAnnouncement.node_id_2 contents) /\
    (forall full, ChannelInfo.announcement_message c = Some full -> full = a).

Definition channel_signed (scid : Z) (c : ChannelInfo.t) : Prop :=
  announced scid c /\
  (forall i, ChannelInfo.one_to_two c = Some i -> signed_policy scid false (ChannelInfo.node_one c) i) /\
  (forall i, ChannelInfo.two_to_one c = Some i -> signed_policy scid true (ChannelInfo.node_two c) i).

Definition all_signed (g : NetworkGraph) : Prop := map_Forall channel_signed (channels g).

(** Operations keep the signatures. *)
Definition keeps_signed (g g' : NetworkGraph) : Prop := all_signed g -> all_signed g'.

#[local] Instance keeps_signed_preorder : PreOrder keeps_signed.
Proof. split; unfold keeps_signed; [intros ?|intros ???]; auto. Qed.

Lemma same_channels g g' : channels g' = channels g -> keeps_signed g g'.
Proof. intros E. unfold keeps_signed, all_signed. by rewrite E. Qed.

Lemma signed_insert scid c g : channel_signed scid c -> keeps_signed g (set_channels (<[scid := c]> (channels g)) g).
Proof. intros Hc Hg. by apply map_Forall_insert_2. Qed.

Lemma signed_delete scid g : keeps_signed g (set_channels (delete scid (channels g)) g).
Proof. intros Hg. by apply map_Forall_delete. Qed.

(** A program whose first step reads the state. *)
Lemma keeps_get {A} (f : NetworkGraph -> prog NetworkGraph A) :
  (forall g o g', f g g = (o, g') -> keeps_signed g g') -> keeps keeps_signed (get ≫= f).
Proof. intros Hf g o g' E. by eapply Hf. Qed.

Lemma keeps_checked {A B E} (r : result A E) (f : A -> prog NetworkGraph (result B E)) :
  (forall a, r = Ok a -> keeps keeps_signed (f a)) -> keeps keeps_signed (bind_ok (mret r) f).
Proof. intros Hf. destruct r as [a|e]; [by apply Hf|apply keeps_ret, _]. Qed.

Lemma signed_remove_from_node scid n : keeps keeps_signed (remove_from_node scid n).
Proof.
  apply keeps_get. intros g o g' E. destruct (nodes g !! n); injection E as <- <-; by apply same_channels.
Qed.

Lemma signed_remove_channel c scid : keeps keeps_signed (remove_channel_in_nodes c scid).
Proof. apply keeps_bind; [apply _|apply signed_remove_from_node|intros; apply signed_remove_from_node]. Qed.

Lemma signed_add_to_node scid n : keeps keeps_signed (add_to_node scid n).
Proof. apply keeps_modify. intros g. by apply same_channels. Qed.

Lemma signed_add_channel scid ci utxo : channel_signed scid ci -> keeps keeps_signed (add_channel_between_nodes scid ci utxo).
Proof.
  intros Hci. apply keeps_get. intros g o g' E.
  assert (Hlink : keeps keeps_signed (_ ← modify (fun g => set_channels (<[scid := ci]> (channels g)) g);
     _ ← add_to_node scid (ChannelInfo.node_one ci); _ ← add_to_node scid (ChannelInfo.node_two ci); mret (Ok (E := LightningError) tt))).
  { apply keeps_bind; [apply _|apply keeps_modify; intros; by apply signed_insert|]. intros _.
    repeat (apply keeps_bind; [apply _|apply signed_add_to_node|intros _]). apply keeps_ret, _. }
  destruct (channels g !! scid) as [old|]; [destruct utxo|]; [| |by eapply Hlink].
  - eapply keeps_bind in E; [exact E|apply _|apply signed_remove_channel|done].
  - injection E as <- <-. done.
Qed.

Lemma signed_announcement now a access : keeps keeps_signed (update_channel_from_announcement now a access).
Proof.
  apply keeps_checked. intros [] Ea. unfold update_channel_from_unsigned_announcement_intern.
  destruct (_ || _); [apply keeps_ret, _|]. apply keeps_checked. intros utxo _. apply signed_add_channel.
  split; [|done]. exists a. split; [done|]. repeat (split; [done|]). intros full. cbn. case_match; congruence.
Qed.

Lemma signed_channel_failed scid p : keeps keeps_signed (channel_failed scid p).
Proof.
  apply keeps_get. intros g o g' E. destruct (channels g !! scid) as [c|] eqn:Ec; [|by injection E as <- <-].
  destruct p.
  - change (remove_channel_in_nodes c scid (set_channels (delete scid (channels g)) g) = (o, g')) in E.
    etrans; [apply signed_delete|by eapply signed_remove_channel].
  - injection E as <- <-. intros Hg. apply signed_insert; [|done]. destruct (Hg _ _ Ec) as (Ha & H1 & H2).
    assert (Hdis : forall two src i, signed_policy scid two src i -> signed_policy scid two src (ChannelUpdateInfo.disable i)).
    { intros two src i (m & s & k & Hk & Hv & Hs & Hf & full & Hi). exists m, s, k. split_and!; try done. exists full. right.
      by destruct Hi as [->| ->]. }
    split; [done|]. cbn. split; intros i Hi; apply fmap_Some in Hi as (j & Hj & ->); auto.
Qed.

Lemma signed_expire min g : keeps_signed g (set_channels (expire min <$> channels g) g).
Proof.
  intros Hg scid c' Hc. cbn in Hc. rewrite lookup_fmap in Hc. apply fmap_Some in Hc as (c & Hc & ->).
  destruct (Hg _ _ Hc) as (Ha & H1 & H2). split; [done|].
  assert (Hx : forall d i, expire_direction min d = Some i -> d = Some i) by (intros [j|] i; cbn; [by destruct (_ <? _)|done]).
  split; intros i Hi; apply Hx in Hi; auto.
Qed.

Lemma signed_remove_all scids : keeps keeps_signed (remove_all scids).
Proof.
  induction scids as [|s scids IH]; [apply keeps_ret, _|]. cbn [remove_all]. apply keeps_get. intros g o g' E.
  destruct (channels g !! s) as [c|]; [|by injection E as <- <-].
  change ((_ ← remove_channel_in_nodes c s; remove_all scids) (set_channels (delete s (channels g)) g) = (o, g')) in E.
  etrans; [apply signed_delete|]. eapply keeps_bind in E; [exact E|apply _|apply signed_remove_channel|done].
Qed.

Lemma signed_prune now : keeps keeps_signed (remove_stale_channels_with_time now).
Proof.
  unfold remove_stale_channels_with_time. destruct (_ <? _); [apply keeps_ret, _|]. destruct (_ <? _); [apply keeps_ret, _|].
  apply keeps_bind; [apply _|apply keeps_modify; intros; apply signed_expire|]. intros _. apply keeps_get. intros g o g'. apply signed_remove_all.
Qed.

Lemma signed_node_fees msg dest was : keeps keeps_signed (update_node_fees msg dest was).
Proof.
  apply keeps_get. intros g o g' E. destruct (chan_enabled msg); [|destruct was; [|by injection E as <- <-]];
    destruct (nodes g !! dest) as [node|]; try (injection E as <- <-; by apply same_channels).
  cbv [mbind prog_bind lift Prelude.unwrap] in E. destruct (lowest_fees _ _ _ _); injection E as <- <-; by apply same_channels.
Qed.

Lemma signed_update now msg : keeps keeps_signed (update_channel now msg).
Proof.
  unfold update_channel, update_channel_intern. set (contents := ChannelUpdate.contents msg).
  apply keeps_bind_ok; [apply _|apply keeps_lift, _|]. intros _. apply keeps_get. intros g o g' E.
  set (scid := UnsignedChannelUpdate.short_channel_id contents) in *.
  destruct (channels g !! scid) as [c|] eqn:Ec; [|by injection E as <- <-].
  intros Hg. pose proof (Hg _ _ Ec) as (Ha & H1 & H2). revert Hg. change (keeps_signed g g').
  assert (Hsig : forall src whose, check_update_sig contents (Some (ChannelUpdate.signature msg)) src whose = Ok tt ->
    exists k, pk_from_slice src = Some k /\ verify_ecdsa (sha256d (encode UnsignedChannelUpdate.codec contents)) (ChannelUpdate.signature msg) k = true).
  { intros src whose Es. unfold check_update_sig, secp_verify_sig in Es. destruct (pk_from_slice src) as [k|]; [|done]. exists k. split; [done|].
    by destruct (verify_ecdsa _ _ _). }
  assert (Hpol : forall src whose two, check_update_sig contents (Some (ChannelUpdate.signature msg)) src whose = Ok tt ->
    (Z.land (UnsignedChannelUpdate.flags contents) 1 =? 1) = two -> signed_policy scid two src (get_new_channel_info contents (Some msg))).
  { intros src whose two Es Ef. destruct (Hsig _ _ Es) as (k & Hk & Hv). exists contents, (ChannelUpdate.signature msg), k. split_and!; try done.
    eexists. by left. }
  assert (Hstore : forall c' dest was, channel_signed scid c' ->
    keeps_signed g (update_node_fees contents dest was (set_channels (<[scid := c']> (channels g)) g)).2).
  { intros c' dest was Hc'. etrans; [by apply signed_insert|].
    by eapply (signed_node_fees contents dest was _ _ _ (surjective_pairing _)). }
  cbv [bind_ok mbind prog_bind lift mret prog_ret put] in E.
  destruct (check_htlc_maximum contents c) as [[[]|e]| |]; [|by injection E as <- <-..].
  destruct (_ =? 1) eqn:Ef.
  - destruct (check_update_latest contents (ChannelInfo.two_to_one c)) as [was|e]; [|by injection E as <- <-].
    destruct (check_update_sig contents _ (ChannelInfo.node_two c) "source") as [[]|e] eqn:Es; [|by injection E as <- <-].
    assert (Hc' : channel_signed scid (ChannelInfo.with_directions (ChannelInfo.one_to_two c) (Some (get_new_channel_info contents (Some msg))) c)).
    { split; [done|]. cbn. split; [done|]. intros i [= <-]. by eapply Hpol. }
    specialize (Hstore _ (ChannelInfo.node_one c) was Hc').
    destruct (update_node_fees _ _ _ _) as [[[]| |] g2]; injection E as <- <-; exact Hstore.
  - destruct (check_update_latest contents (ChannelInfo.one_to_two c)) as [was|e]; [|by injection E as <- <-].
    destruct (check_update_sig contents _ (ChannelInfo.node_one c) "destination") as [[]|e] eqn:Es; [|by injection E as <- <-].
    assert (Hc' : channel_signed scid (ChannelInfo.with_directions (Some (get_new_channel_info contents (Some msg))) (ChannelInfo.two_to_one c) c)).
    { split; [done|]. cbn. split; [|done]. intros i [= <-]. by eapply Hpol. }
    specialize (Hstore _ (ChannelInfo.node_two c) was Hc').
    destruct (update_node_fees _ _ _ _) as [[[]| |] g2]; injection E as <- <-; exact Hstore.
Qed.

Lemma signed_node msg full : keeps keeps_signed (update_node_from_announcement_intern msg full).
Proof.
  apply keeps_get. intros g o g' E. cbv zeta in E.
  destruct (nodes g !! from_pubkey (UnsignedNodeAnnouncement.node_id msg)); [|by injection E as <- <-].
  repeat case_match; injection E as <- <-; by apply same_channels.
Qed.

(** What reaches the graph of a node that does not use rapid gossip sync. *)
Definition from_network (op : Op) : Prop :=
  match op with
  | NodeAnnounced _ | ChannelAnnounced _ _ _ | ChannelUpdated _ _ | PaymentFailed _ _ | Pruned _ => True
  | _ => False
  end.

Lemma signed_run_op op : from_network op -> keeps keeps_signed (run_op op).
Proof.
  destruct op; intros Hop; try done; cbn [run_op].
  - apply keeps_checked. intros [] _. apply signed_node.
  - apply signed_announcement.
  - apply signed_update.
  - apply keeps_bind; [apply _| |intros; apply keeps_ret, _].
    destruct network_update as [[m|scid p|n p]|]; cbn [handle_event node_failed]; [|apply signed_channel_failed|apply keeps_ret, _..].
    apply keeps_bind; [apply _|apply signed_update|intros; apply keeps_ret, _].
  - apply keeps_bind; [apply _|apply signed_prune|intros; apply keeps_ret, _].
Qed.

(** C14: a node that learns its graph from peers and from failed payments has in it only
    channels announced with the signatures of both nodes and both funding keys, and for each
    direction only a policy signed by the node it starts from, which failures can have
    disabled but not changed. *)
Theorem graph_is_signed (genesis : bytes) (ops : list Op) (o : outcome (list (result unit LightningError))) (g : NetworkGraph) :
  Forall from_network ops -> run_ops ops (new genesis) = (o, g) -> all_signed g.
Proof.
  intros Hops E. assert (K : keeps keeps_signed (run_ops ops)).
  { clear E. induction Hops as [|op ops Hop _ IH]; [apply keeps_ret, _|]. cbn [run_ops].
    apply keeps_bind; [apply _|by apply signed_run_op|]. intros r. apply keeps_bind; [apply _|done|]. intros. apply keeps_ret, _. }
  apply (K _ _ _ E). apply map_Forall_empty.
Qed.

(** An accepted update is newer than what it replaces, replaces nothing else, and a refused
    one changes nothing. *)
Theorem update_channel_effect (now : Z) (msg : ChannelUpdate.t) (g : NetworkGraph) :
  clock_ok now -> graph_ok g ->
  (exists e, update_channel now msg g = (Ret (Err e), g)) \/
  (exists c g', let contents := ChannelUpdate.contents msg in let scid := UnsignedChannelUpdate.short_channel_id contents in
     update_channel now msg g = (Ret (Ok tt), g') /\
     channels g !! scid = Some c /\ channels g' = <[scid := updated contents (Some msg) c]> (channels g) /\
     (forall i, direction_of contents c = Some i -> ChannelUpdateInfo.last_update i < UnsignedChannelUpdate.timestamp contents) /\
     (exists k, pk_from_slice (source_of contents c) = Some k /\
        verify_ecdsa (sha256d (encode UnsignedChannelUpdate.codec contents)) (ChannelUpdate.signature msg) k = true)).
Proof.
  intros Hc Hg. destruct (update_channel_cases now (ChannelUpdate.contents msg) (Some msg) (Some (ChannelUpdate.signature msg)) g Hc Hg)
    as [He|(c & g' & E & _ & Ec & Ech & Ht & Hs)]; [by left|right]. exists c, g'. split_and!; auto.
Qed.
End GraphAuth.
