(* ===== verification/GossipSync.v ===== *)
(** * Gossip with peers: [P2PGossipSync] of rust-lightning/lightning/src/routing/gossip.rs

    The handlers of gossip messages on top of the network graph, the batches of
    announcements a new peer is sent, and the answers to queries for channels of a range of
    blocks.  The clock is an argument; logging is left out. *)

From S2P Require Import Prelude Text HexUtils Bytes ChaCha20 Stream Ser SerLaws Tlv Features Msgs Noise OnionHop ChannelMsgs GossipMsgs Onion OnionError Scid Graph GraphSpec GraphAuth.

Local Open Scope Z_scope.

(** * Ordered maps: what the source uses of [std::collections::BTreeMap]

    A map is stdpp's finite map; the order of its keys only shows when it is iterated.
    [entries] is the iteration in key order, [range] and [range_from] the iterations over
    a part of the keys. *)

Section BTree.
Context {K : Type} `{Countable K} (le : K -> K -> Prop) `{!RelDecision le, !PartialOrder le} {Total0 : base.Total le}.
Context {A : Type}.
Implicit Types m : gmap K A.

(** A record of its own order on entries, so that instances are found by its name. *)
Definition entry_le (a b : K * A) : Prop := le a.1 b.1.
#[local] Instance entry_le_dec : RelDecision entry_le.
Proof using RelDecision0. intros a b. unfold entry_le. apply _. Defined.

Definition entries m : list (K * A) := merge_sort entry_le (map_to_list m).

(** [range(lo..)]. *)
Definition range_from (lo : K) m : list (K * A) := filter (fun e => le lo e.1) (entries m).

(** [range(lo..hi)]. *)
Definition range (lo hi : K) m : outcome (list (K * A)) :=
  if decide (le lo hi) then Ret (filter (fun e => le lo e.1 /\ ~ le hi e.1) (entries m))
  else Panic "range start is greater than range end in BTreeMap".

(** ** Laws *)

Lemma elem_of_entries m k a : (k, a) ∈ entries m <-> m !! k = Some a.
Proof. unfold entries. by rewrite merge_sort_Permutation, elem_of_map_to_list. Qed.

#[local] Instance entry_le_trans : Transitive entry_le.
Proof using PartialOrder0. intros a b c. unfold entry_le. by intros; etrans. Qed.
#[local] Instance entry_le_total : base.Total entry_le.
Proof using Total0. intros a b. apply Total0. Qed.

Definition key_lt (a b : K) : Prop := le a b /\ a <> b.

Lemma NoDup_keys m : NoDup (entries m).*1.
Proof. unfold entries. rewrite merge_sort_Permutation. apply NoDup_fst_map_to_list. Qed.

Definition entry_lt (a b : K * A) : Prop := key_lt a.1 b.1.

(** Keys come in increasing order, each once. *)
Lemma entries_sorted m : StronglySorted entry_lt (entries m).
Proof.
  pose proof (NoDup_keys m) as Hnd. pose proof (StronglySorted_merge_sort entry_le (map_to_list m)) as Hs.
  fold (entries m) in Hs. induction Hs as [|x l Hs IH Hx]; [constructor|]. cbn in Hnd. apply NoDup_cons in Hnd as [Hni Hnd].
  constructor; [by apply IH|]. rewrite Forall_forall in *. intros y Hy. split; [by apply Hx|].
  intros E. apply Hni. rewrite E. by apply list_elem_of_fmap_2.
Qed.

Lemma elem_of_range_from lo m k a : (k, a) ∈ range_from lo m <-> le lo k /\ m !! k = Some a.
Proof. unfold range_from. by rewrite list_elem_of_filter, elem_of_entries. Qed.

End BTree.

Lemma StronglySorted_sublist {A} (R : A -> A -> Prop) (l k : list A) : l `sublist_of` k -> StronglySorted R k -> StronglySorted R l.
Proof.
  induction 1 as [|x l k Hs IH|x l k Hs IH]; intros Hk; [done| |].
  - inversion Hk as [|? ? Hk' Hx]; subst. constructor; [by apply IH|]. rewrite Forall_forall in *. intros y Hy. apply Hx. by eapply elem_of_sublist.
  - inversion Hk; subst. by apply IH.
Qed.

(** * The gossip handler *)

Definition MAX_SCIDS_PER_REPLY : nat := 8000.
Definition FULL_SYNCS_TO_REQUEST : Z := 5.

(** ** Messages to send: util/events.rs and msgs.rs *)

Module CommitmentUpdate.
Record t `{Secp} := mk {
  update_add_htlcs : list UpdateAddHTLC.t; update_fulfill_htlcs : list UpdateFulfillHTLC.t;
  update_fail_htlcs : list UpdateFailHTLC.t; update_fail_malformed_htlcs : list UpdateFailMalformedHTLC.t;
  update_fee : option UpdateFee.t; commitment_signed : CommitmentSigned.t }.
End CommitmentUpdate.

Inductive MessageSendEvent `{Secp} :=
| SendAcceptChannel (node_id : PublicKey) (msg : AcceptChannel.t)
| SendOpenChannel (node_id : PublicKey) (msg : OpenChannel.t)
| SendFundingCreated (node_id : PublicKey) (msg : FundingCreated.t)
| SendFundingSigned (node_id : PublicKey) (msg : FundingSigned.t)
| SendChannelReady (node_id : PublicKey) (msg : ChannelReady.t)
| SendAnnouncementSignatures (node_id : PublicKey) (msg : AnnouncementSignatures.t)
| UpdateHTLCs (node_id : PublicKey) (updates : CommitmentUpdate.t)
| SendRevokeAndACK (node_id : PublicKey) (msg : RevokeAndACK.t)
| SendClosingSigned (node_id : PublicKey) (msg : ClosingSigned.t)
| SendShutdown (node_id : PublicKey) (msg : Shutdown.t)
| SendChannelReestablish (node_id : PublicKey) (msg : ChannelReestablish.t)
| BroadcastChannelAnnouncement (msg : ChannelAnnouncement.t) (update_msg : ChannelUpdate.t)
| BroadcastNodeAnnouncement (msg : NodeAnnouncement.t)
| BroadcastChannelUpdate (msg : ChannelUpdate.t)
| SendChannelUpdate (node_id : PublicKey) (msg : ChannelUpdate.t)
| HandleError (node_id : PublicKey) (action : ErrorAction)
| SendChannelRangeQuery (node_id : PublicKey) (msg : QueryChannelRange.t)
| SendShortIdsQuery (node_id : PublicKey) (msg : QueryShortChannelIds.t)
| SendReplyChannelRange (node_id : PublicKey) (msg : ReplyChannelRange.t)
| SendGossipTimestampFilter (node_id : PublicKey) (msg : GossipTimestampFilter.t).

(** ** Order of node ids *)

(** Slices are ordered lexicographically. *)
Fixpoint bytes_leb (a b : bytes) : bool :=
  match a, b with
  | [], _ => true
  | _ :: _, [] => false
  | x :: a', y :: b' => (x <? y) || ((x =? y) && bytes_leb a' b')
  end.
Definition bytes_le (a b : bytes) : Prop := bytes_leb a b = true.
#[export] Instance bytes_le_dec : RelDecision bytes_le.
Proof. intros a b. unfold bytes_le. apply _. Defined.

(** ** State *)

Record P2PGossipSync `{GossipCrypto} := mkSync {
  network_graph : NetworkGraph;
  chain_access : option Access;
  full_syncs_requested : Z;
  pending_events : list MessageSendEvent;
}.

Section GossipSync.
Context `{GossipCrypto}.

Abbreviation sync A := (prog P2PGossipSync A).

Definition new_sync (g : NetworkGraph) (access : option Access) : P2PGossipSync := mkSync _ _ g access 0 [].
Definition add_chain_access (access : option Access) : sync unit :=
  modify (fun s => mkSync _ _ (network_graph s) access (full_syncs_requested s) (pending_events s)).
Definition set_graph (g : NetworkGraph) (s : P2PGossipSync) : P2PGossipSync :=
  mkSync _ _ g (chain_access s) (full_syncs_requested s) (pending_events s).
Definition push_event (e : MessageSendEvent) : sync unit :=
  modify (fun s => mkSync _ _ (network_graph s) (chain_access s) (full_syncs_requested s) (pending_events s ++ [e])).
Definition on_graph {A} (m : prog NetworkGraph A) : sync A :=
  fun s => let '(o, g) := m (network_graph s) in (o, set_graph g s).

Definition should_request_full_sync : sync bool :=
  s ← get;
  if full_syncs_requested s <? FULL_SYNCS_TO_REQUEST then
    _ ← put (mkSync _ _ (network_graph s) (chain_access s) (full_syncs_requested s + 1) (pending_events s));
    mret true
  else mret false.

(** ** Gossip messages *)

Definition handle_node_announcement (msg : NodeAnnouncement.t) : sync (result bool LightningError) :=
  let? _ := on_graph (update_node_from_announcement msg) in
  mret (Ok (should_relay (NodeAnnouncement.contents msg))).

Definition relayed (excess_data : bytes) : bool := (length excess_data <=? MAX_EXCESS_BYTES_FOR_RELAY)%nat.

Definition handle_channel_announcement (now : Z) (msg : ChannelAnnouncement.t) : sync (result bool LightningError) :=
  s ← get;
  let? _ := on_graph (update_channel_from_announcement now msg (chain_access s)) in
  mret (Ok (relayed (UnsignedChannelAnnouncement.excess_data (ChannelAnnouncement.contents msg)))).

Definition handle_channel_update (now : Z) (msg : ChannelUpdate.t) : sync (result bool LightningError) :=
  let? _ := on_graph (update_channel now msg) in
  mret (Ok (relayed (UnsignedChannelUpdate.excess_data (ChannelUpdate.contents msg)))).

(** ** Announcements for a new peer *)

Definition announcement_triple : Type := ChannelAnnouncement.t * option ChannelUpdate.t * option ChannelUpdate.t.

Definition triple_of (chan : ChannelInfo.t) : option announcement_triple :=
  chan_announcement ← ChannelInfo.announcement_message chan;
  Some (chan_announcement,
        one_to_two ← ChannelInfo.one_to_two chan; ChannelUpdateInfo.last_update_message one_to_two,
        two_to_one ← ChannelInfo.two_to_one chan; ChannelUpdateInfo.last_update_message two_to_one).

(** The loop of both functions: push what an entry has until the batch is full or the
    iterator at its end. *)
Fixpoint fill_batch {E R} (f : E -> option R) (batch_amount : nat) (iter : list E) (result : list R) : list R :=
  if (length result <? batch_amount)%nat then
    match iter with
    | e :: iter' => fill_batch f batch_amount iter' (match f e with Some r => result ++ [r] | None => result end)
    | [] => result
    end
  else result.

Definition get_next_channel_announcements (starting_point batch_amount : Z) (s : P2PGossipSync) : list announcement_triple :=
  fill_batch (fun e => triple_of e.2) (Z.to_nat batch_amount) (range_from Z.le starting_point (channels (network_graph s))) [].

Definition node_message (node : NodeInfo.t) : option NodeAnnouncement.t :=
  node_info ← NodeInfo.announcement_info node; NodeAnnouncementInfo.announcement_message node_info.

Definition get_next_node_announcements (starting_point : option PublicKey) (batch_amount : Z) (s : P2PGossipSync) : list NodeAnnouncement.t :=
  let iter :=
    match starting_point with
    | Some pubkey => tail (range_from bytes_le (from_pubkey pubkey) (nodes (network_graph s)))
    | None => entries bytes_le (nodes (network_graph s))
    end in
  fill_batch (fun e => node_message e.2) (Z.to_nat batch_amount) iter [].

(** ** Queries *)

Definition peer_connected (now : Z) (their_node_id : PublicKey) (init_msg : Init.t) : sync unit :=
  if negb (supports_feature GossipQueries (Init.features init_msg)) then mret tt
  else
    full ← should_request_full_sync;
    gossip_start_time ← lift (sub64 now (if full : bool then 60 * 60 * 24 * 7 * 2 else 60 * 60));
    s ← get;
    push_event (SendGossipTimestampFilter their_node_id
      (GossipTimestampFilter.mk (genesis_hash (network_graph s)) (wrap 32 gossip_start_time) U32_MAX)).

Definition handle_reply_channel_range (their_node_id : PublicKey) (msg : ReplyChannelRange.t) : sync (result unit LightningError) :=
  mret (Ok tt).
Definition handle_reply_short_channel_ids_end (their_node_id : PublicKey) (msg : ReplyShortChannelIdsEnd.t) :
    sync (result unit LightningError) := mret (Ok tt).
Definition handle_query_short_channel_ids (their_node_id : PublicKey) (msg : QueryShortChannelIds.t) : sync (result unit LightningError) :=
  mret (Err (mkLightningError "Not implemented" IgnoreError)).

(** The vector of batches is never empty: it is given by all but its last one, and the last
    one.  The capacity of a batch is the one it was created with. *)
Definition push_scid (batches : list (list Z) * list Z) (scid : Z) : list (list Z) * list Z :=
  let '(full, batch) := batches in
  if (length batch =? MAX_SCIDS_PER_REPLY)%nat then (full ++ [batch], [scid]) else (full, batch ++ [scid]).

Definition push_channel (batches : list (list Z) * list Z) (e : Z * ChannelInfo.t) : list (list Z) * list Z :=
  match ChannelInfo.announcement_message e.2 with
  | Some chan_announcement => push_scid batches (UnsignedChannelAnnouncement.short_channel_id (ChannelAnnouncement.contents chan_announcement))
  | None => batches
  end.

Definition sub32 (a b : Z) : outcome Z := checked_op 32 "subtract" (a - b).

Fixpoint send_replies (their_node_id : PublicKey) (msg : QueryChannelRange.t) (prev_batch_endblock : Z) (batches : list (list Z)) : sync unit :=
  match batches with
  | [] => mret tt
  | batch :: batches' =>
      let first_blocknum := prev_batch_endblock in
      let sync_complete := match batches' with [] => true | _ => false end in
      number_of_blocks ← lift (if sync_complete then sub32 (QueryChannelRange.end_blocknum msg) first_blocknum
        else last_scid ← Prelude.unwrap "called `Option::unwrap()` on a `None` value" (last batch);
             sub32 (block_from_scid last_scid) first_blocknum);
      prev_batch_endblock ← lift (add32 first_blocknum number_of_blocks);
      _ ← push_event (SendReplyChannelRange their_node_id
            (ReplyChannelRange.mk (QueryChannelRange.chain_hash msg) first_blocknum number_of_blocks sync_complete batch));
      send_replies their_node_id msg prev_batch_endblock batches'
  end.

Definition handle_query_channel_range (their_node_id : PublicKey) (msg : QueryChannelRange.t) : sync (result unit LightningError) :=
  s ← get;
  let inclusive_start_scid := ScidUtils.scid_from_parts (QueryChannelRange.first_blocknum msg) 0 0 in
  let exclusive_end_scid := ScidUtils.scid_from_parts (Z.min (QueryChannelRange.end_blocknum msg) MAX_SCID_BLOCK) 0 0 in
  if bool_decide (QueryChannelRange.chain_hash msg <> genesis_hash (network_graph s)) || is_err inclusive_start_scid ||
     is_err exclusive_end_scid || (QueryChannelRange.number_of_blocks msg =? 0) then
    _ ← push_event (SendReplyChannelRange their_node_id
          (ReplyChannelRange.mk (QueryChannelRange.chain_hash msg) (QueryChannelRange.first_blocknum msg)
             (QueryChannelRange.number_of_blocks msg) true []));
    mret (Err (mkLightningError "query_channel_range could not be processed" IgnoreError))
  else
    start ← lift (unwrap_result "called `Result::unwrap()` on an `Err` value" inclusive_start_scid);
    end_ ← lift (unwrap_result "called `Result::unwrap()` on an `Err` value" exclusive_end_scid);
    chans ← lift (range Z.le start end_ (channels (network_graph s)));
    let '(full, batch) := foldl push_channel ([], []) chans in
    _ ← send_replies their_node_id msg (QueryChannelRange.first_blocknum msg) (full ++ [batch]);
    mret (Ok tt).

Definition get_and_clear_pending_msg_events : sync (list MessageSendEvent) :=
  s ← get;
  _ ← put (mkSync _ _ (network_graph s) (chain_access s) (full_syncs_requested s) []);
  mret (pending_events s).
End GossipSync.

(** * What a peer is told about the channels of the graph

    A query for a range of blocks is answered with all announced channels of the range, in
    order, in replies that join up; a new peer that asks for batch after batch of
    announcements gets each announced channel once. *)

#[local] Arguments MAX_SCIDS_PER_REPLY : simpl never.

Section GossipSyncSpec.
Context `{GossipCrypto}.

(** ** Batches *)

Definition batches_of (b : list (list Z) * list Z) : list (list Z) := b.1 ++ [b.2].

(** All batches but the last are full, and the last has an element unless it is the only one. *)
Definition batches_ok (b : list (list Z) * list Z) : Prop :=
  Forall (fun l => length l = MAX_SCIDS_PER_REPLY) b.1 /\ (length b.2 <= MAX_SCIDS_PER_REPLY)%nat /\ (b.1 <> [] -> b.2 <> []).

Lemma push_scid_ok b scid :
  batches_ok b -> batches_ok (push_scid b scid) /\ concat (batches_of (push_scid b scid)) = concat (batches_of b) ++ [scid].
Proof.
  destruct b as [full batch]. intros (Hf & Hb & Hne). unfold push_scid, batches_ok, batches_of in *. cbn [fst snd] in *.
  destruct (Nat.eqb_spec (length batch) MAX_SCIDS_PER_REPLY) as [E|E]; cbn [fst snd]; rewrite !concat_app; cbn [concat]; rewrite !List.app_nil_r.
  - split; [|done]. split_and!; [by apply Forall_app_2; [|constructor]|apply (Nat.leb_le 1); reflexivity|done].
  - split; [|by rewrite List.app_assoc]. split_and!; [done|rewrite length_app; cbn [length]; lia|by destruct batch].
Qed.

Definition announced_scid (e : Z * ChannelInfo.t) : option Z :=
  a ← ChannelInfo.announcement_message e.2; Some (UnsignedChannelAnnouncement.short_channel_id (ChannelAnnouncement.contents a)).

Lemma push_channels_ok chans b :
  batches_ok b ->
  batches_ok (foldl push_channel b chans) /\
  concat (batches_of (foldl push_channel b chans)) = concat (batches_of b) ++ omap announced_scid chans.
Proof.
  revert b. induction chans as [|e chans IH]; intros b Hb; cbn [foldl omap list_omap]; [by rewrite List.app_nil_r|].
  unfold push_channel at 2 4, announced_scid at 1. destruct (ChannelInfo.announcement_message e.2) as [a|]; cbn; [|by apply IH].
  destruct (push_scid_ok b (UnsignedChannelAnnouncement.short_channel_id (ChannelAnnouncement.contents a)) Hb) as [Hok E].
  destruct (IH _ Hok) as [Hok' E']. split; [done|]. by rewrite E', E, <- List.app_assoc.
Qed.

(** ** Replies *)

(** Replies join up from [first] to [stop]; the last one says so. *)
Fixpoint joined (first stop : Z) (replies : list ReplyChannelRange.t) : Prop :=
  match replies with
  | [] => False
  | r :: replies' =>
      ReplyChannelRange.first_blocknum r = first /\
      match replies' with
      | [] => ReplyChannelRange.sync_complete r = true /\ first + ReplyChannelRange.number_of_blocks r = stop
      | _ => ReplyChannelRange.sync_complete r = false /\ joined (first + ReplyChannelRange.number_of_blocks r) stop replies'
      end
  end.

(** The channels of a reply are of its blocks, the last one counted, and fit in a message. *)
Definition reply_ok (chain_hash : bytes) (r : ReplyChannelRange.t) : Prop :=
  ReplyChannelRange.chain_hash r = chain_hash /\
  u32 (ReplyChannelRange.first_blocknum r) /\ u32 (ReplyChannelRange.number_of_blocks r) /\
  (length (ReplyChannelRange.short_channel_ids r) <= MAX_SCIDS_PER_REPLY)%nat /\
  Forall (fun id => u64 id /\ ReplyChannelRange.first_blocknum r <= block_from_scid id <=
                    ReplyChannelRange.first_blocknum r + ReplyChannelRange.number_of_blocks r) (ReplyChannelRange.short_channel_ids r).

Definition replied (their_node_id : PublicKey) (rs : list ReplyChannelRange.t) (s : P2PGossipSync) : P2PGossipSync :=
  mkSync _ _ (network_graph s) (chain_access s) (full_syncs_requested s) (pending_events s ++ (SendReplyChannelRange their_node_id <$> rs)).

Lemma block_mono a b : u64 a -> u64 b -> a <= b -> block_from_scid a <= block_from_scid b.
Proof. intros Ha Hb Hab. rewrite !block_from_scid_div by done. apply Z.div_le_mono; lia. Qed.

(** One turn of the loop. *)
Lemma send_reply_step node msg first batch rest n s :
  let r := ReplyChannelRange.mk (QueryChannelRange.chain_hash msg) first n (match rest with [] => true | _ => false end) batch in
  (if match rest with [] => true | _ => false end then QueryChannelRange.end_blocknum msg = first + n
   else exists x, last batch = Some x /\ block_from_scid x = first + n) ->
  u32 n -> u32 (first + n) ->
  send_replies node msg first (batch :: rest) s = send_replies node msg (first + n) rest (replied node [r] s).
Proof.
  intros r Hn H1 H2. assert (En : forall z, z = first + n -> sub32 z first = Ret n).
  { intros z ->. unfold sub32. replace (first + n - first) with n by lia. by apply checked_op_ok. }
  cbn [send_replies]. destruct rest as [|b rest].
  - rewrite (En _ Hn). cbv [mbind prog_bind lift]. unfold add32. by rewrite (checked_op_ok _ _ _ H2).
  - destruct Hn as (x & -> & Hx). cbn [Prelude.unwrap]. change (Ret x ≫= ?f) with (f x). cbv beta. rewrite (En _ Hx). cbv [mbind prog_bind lift]. unfold add32.
    by rewrite (checked_op_ok _ _ _ H2).
Qed.

Lemma replied_app node rs rs' s : replied node rs' (replied node rs s) = replied node (rs ++ rs') s.
Proof. unfold replied. cbn. by rewrite fmap_app, List.app_assoc. Qed.
Lemma replied_nil node s : replied node [] s = s.
Proof. unfold replied. cbn. rewrite List.app_nil_r. by destruct s. Qed.

Definition ids_ok (first stop : Z) (ids : list Z) : Prop :=
  StronglySorted Z.le ids /\ Forall (fun id => u64 id /\ first <= block_from_scid id <= stop) ids.

Lemma ids_ok_app first stop a b x :
  ids_ok first stop (a ++ b) -> last a = Some x ->
  ids_ok (block_from_scid x) stop b /\ u64 x /\ first <= block_from_scid x <= stop /\
  Forall (fun id => u64 id /\ first <= block_from_scid id <= block_from_scid x) a.
Proof.
  intros [Hs Hf] Hx. apply last_Some in Hx as [a' ->]. apply StronglySorted_app in Hs as (Hab & Ha & Hb).
  apply StronglySorted_app in Ha as (Hax & _ & _). apply Forall_app in Hf as [Hfa Hfb]. apply Forall_app in Hfa as [Hfa Hfx].
  apply Forall_cons_1 in Hfx as [[Hux Hbx] _]. rewrite Forall_forall in Hfa, Hfb. split_and!; try done; try lia.
  - split; [done|]. apply Forall_forall. intros id Hid. destruct (Hfb _ Hid) as [Hu Hr]. split; [done|]. split; [|lia].
    apply block_mono; [done..|]. apply Hab; [set_solver|done].
  - apply Forall_forall. intros id Hid. apply elem_of_app in Hid as [Hid|Hid%list_elem_of_singleton].
    + destruct (Hfa _ Hid) as [Hu Hr]. split; [done|]. split; [lia|]. apply block_mono; [done..|]. apply Hax; set_solver.
    + subst id. split; [done|]. lia.
Qed.

(** A vector of batches that has what the loop relies on. *)
Lemma send_replies_ok node msg first bs s :
  let stop := QueryChannelRange.end_blocknum msg in
  bs <> [] ->
  (length bs = 1%nat \/ Forall (fun b => b <> []) bs) -> Forall (fun b => (length b <= MAX_SCIDS_PER_REPLY)%nat) bs ->
  u32 first -> u32 stop -> first <= stop -> ids_ok first stop (concat bs) ->
  exists rs, send_replies node msg first bs s = (Ret tt, replied node rs s) /\
    (ReplyChannelRange.short_channel_ids <$> rs) = bs /\ joined first stop rs /\ Forall (reply_ok (QueryChannelRange.chain_hash msg)) rs.
Proof.
  intros stop Hne. revert first s. induction bs as [|b bs IH]; [done|]. intros first s Hlen Hmax H1 H2 Hle Hids.
  apply Forall_cons_1 in Hmax as [Hb Hmax]. destruct bs as [|b' bs].
  - exists [ReplyChannelRange.mk (QueryChannelRange.chain_hash msg) first (stop - first) true b].
    rewrite (send_reply_step _ _ _ _ _ (stop - first)); [|fold stop; lia|unfold in_width in *; lia|by replace (first + (stop - first)) with stop by lia].
    split; [done|]. split; [done|]. split; [cbn; split_and!; [done..|lia]|]. constructor; [|done].
    split_and!; cbn; [done..|unfold in_width in *; lia|done|]. destruct Hids as [_ Hids]. cbn in Hids. rewrite List.app_nil_r in Hids.
    eapply Forall_impl; [exact Hids|]. cbn. intros id [Hu Hr]. split; [done|]. lia.
  - destruct Hlen as [Hlen|Hlen]; [done|]. apply Forall_cons_1 in Hlen as [Hbne Hlen].
    destruct (last b) as [x|] eqn:Ex; [|by apply last_None in Ex].
    change (concat (b :: b' :: bs)) with (b ++ concat (b' :: bs)) in Hids.
    destruct (ids_ok_app _ _ _ _ _ Hids Ex) as (Hrest & Hux & Hx & Hbx).
    set (y := block_from_scid x) in *.
    destruct (IH ltac:(done) y (replied node [ReplyChannelRange.mk (QueryChannelRange.chain_hash msg) first (y - first) false b] s))
      as (rs & E & Eids & Hj & Hok); [by right|done|unfold in_width in *; lia|done|lia|done|].
    eexists (_ :: rs). rewrite (send_reply_step _ _ _ _ _ (y - first));
      [|exists x; split; [done|lia]|unfold in_width in *; lia|replace (first + (y - first)) with y by lia; unfold in_width in *; lia].
    replace (first + (y - first)) with y by lia. rewrite E, replied_app. split; [done|]. cbn [fmap list_fmap]. rewrite Eids.
    split; [done|]. split.
    + cbn [joined]. split; [done|]. destruct rs as [|r rs]; [done|]. cbn. replace (first + (y - first)) with y by lia. done.
    + constructor; [|done]. split_and!; cbn; [done..|unfold in_width in *; lia|done|].
      eapply Forall_impl; [exact Hbx|]. cbn. intros id [Hu Hr]. split; [done|]. lia.
Qed.

(** ** The channels of a range *)

Lemma announced_key g e id :
  all_signed g -> e ∈ entries Z.le (channels g) -> announced_scid e = Some id -> id = e.1.
Proof.
  destruct e as [k c]. intros Hg He Hid. apply elem_of_entries in He. destruct (Hg _ _ He) as [(a & _ & Hk & _ & _ & Ha) _].
  unfold announced_scid in Hid. cbn in Hid. destruct (ChannelInfo.announcement_message c) as [full|]; [|done].
  injection Hid as <-. by rewrite (Ha _ eq_refl).
Qed.

(** Increasing keys give increasing ids. *)
Lemma omap_sorted g (l : list (Z * ChannelInfo.t)) :
  all_signed g -> (forall e, e ∈ l -> e ∈ entries Z.le (channels g)) -> StronglySorted (entry_lt Z.le) l ->
  StronglySorted Z.lt (omap announced_scid l).
Proof.
  intros Hg Hl Hs. induction Hs as [|e l Hs IH He]; [constructor|]. cbn.
  assert (IH' := IH (fun e' He' => Hl e' (list_elem_of_further _ _ _ He'))). destruct (announced_scid e) as [id|] eqn:E; [|done].
  constructor; [done|]. apply Forall_forall. intros id' Hid'. apply list_elem_of_omap in Hid' as (e' & He' & E').
  rewrite (announced_key g e id), (announced_key g e' id') by (try done; apply Hl; set_solver).
  rewrite Forall_forall in He. destruct (He _ He') as [Hle Hneq]. lia.
Qed.

Definition in_blocks (lo hi : Z) (g : NetworkGraph) (id : Z) : Prop :=
  exists c, channels g !! id = Some c /\ is_Some (ChannelInfo.announcement_message c) /\ lo <= block_from_scid id < hi.

Lemma block_bounds id b : u64 id -> (b * 2 ^ 40 <= id <-> b <= block_from_scid id).
Proof.
  intros Hid. rewrite block_from_scid_div by done. split; intros Hb.
  - apply Z.div_le_lower_bound; lia.
  - pose proof (Z.mul_div_le id (2 ^ 40) ltac:(lia)). nia.
Qed.

Lemma range_announced g lo hi :
  all_signed g -> map_Forall (fun scid _ => u64 scid) (channels g) -> lo <= hi ->
  exists chans, range Z.le (lo * 2 ^ 40) (hi * 2 ^ 40) (channels g) = Ret chans /\
    StronglySorted Z.lt (omap announced_scid chans) /\
    forall id, id ∈ omap announced_scid chans <-> in_blocks lo hi g id.
Proof.
  intros Hg Hu Hle. unfold range. rewrite decide_True by nia. eexists. split; [done|]. split.
  - apply (omap_sorted g); [done|intros e [_ He]%list_elem_of_filter; done|]. eapply StronglySorted_sublist; [apply sublist_filter|]. apply entries_sorted; apply _.
  - intros id. rewrite list_elem_of_omap. setoid_rewrite list_elem_of_filter. split.
    + intros (e & [Hr He] & Hid). pose proof (announced_key g e id Hg He Hid) as ->. destruct e as [k c]. cbn in *.
      apply elem_of_entries in He. exists c. split; [done|]. split.
      * unfold announced_scid in Hid. cbn in Hid. by destruct (ChannelInfo.announcement_message c).
      * pose proof (Hu _ _ He) as Hk. cbn in Hk. pose proof (block_bounds k lo Hk). pose proof (block_bounds k hi Hk). lia.
    + intros (c & Hc & [a Ha] & Hb). exists (id, c). pose proof (Hu _ _ Hc) as Hk. cbn in Hk.
      pose proof (block_bounds id lo Hk). pose proof (block_bounds id hi Hk).
      assert (He : (id, c) ∈ entries Z.le (channels g)) by (by apply elem_of_entries). split; [split; [cbn; lia|done]|].
      destruct (announced_scid (id, c)) as [id'|] eqn:E; [by rewrite (announced_key g _ _ Hg He E)|].
      unfold announced_scid in E. cbn in E. by rewrite Ha in E.
Qed.

(** A query the handler answers. *)
Definition answerable (msg : QueryChannelRange.t) (g : NetworkGraph) : Prop :=
  QueryChannelRange.chain_hash msg = genesis_hash g /\ QueryChannelRange.first_blocknum msg <= MAX_SCID_BLOCK /\
  QueryChannelRange.number_of_blocks msg <> 0.

Lemma start_of_block b : 0 <= b <= MAX_SCID_BLOCK -> ScidUtils.scid_from_parts b 0 0 = Ok (b * 2 ^ 40).
Proof.
  intros Hb. rewrite checked_scid_ok by (unfold in_range, in_width, MAX_SCID_BLOCK in *; lia).
  rewrite scid_value by (unfold in_range, in_width, MAX_SCID_BLOCK in *; lia). f_equal. lia.
Qed.

Lemma end_blocknum_bounds msg :
  QueryChannelRange.ok msg -> QueryChannelRange.number_of_blocks msg <> 0 ->
  let stop := QueryChannelRange.end_blocknum msg in u32 stop /\ QueryChannelRange.first_blocknum msg <= stop /\
  (QueryChannelRange.first_blocknum msg <= MAX_SCID_BLOCK -> QueryChannelRange.first_blocknum msg < stop).
Proof.
  intros (_ & H1 & H2) Hn. unfold QueryChannelRange.end_blocknum, checked, U32_MAX, MAX_SCID_BLOCK, in_width in *. cbv zeta.
  destruct ((0 <=? _) && (_ <? 2 ^ 32)) eqn:E; cbn; lia.
Qed.

(** The two cases of a query. *)
Lemma answered_query (their_node_id : PublicKey) (msg : QueryChannelRange.t) (s : P2PGossipSync) :
  all_signed (network_graph s) -> map_Forall (fun scid _ => u64 scid) (channels (network_graph s)) ->
  QueryChannelRange.ok msg -> answerable msg (network_graph s) ->
  let first := QueryChannelRange.first_blocknum msg in let stop := QueryChannelRange.end_blocknum msg in
  exists rs, handle_query_channel_range their_node_id msg s = (Ret (Ok tt), replied their_node_id rs s) /\
    joined first stop rs /\ Forall (reply_ok (QueryChannelRange.chain_hash msg)) rs /\
    StronglySorted Z.lt (concat (ReplyChannelRange.short_channel_ids <$> rs)) /\
    (forall id, id ∈ concat (ReplyChannelRange.short_channel_ids <$> rs) <->
       in_blocks first (Z.min stop MAX_SCID_BLOCK) (network_graph s) id).
Proof.
  intros Hg Hu Hmsg (Hchain & Hfirst & Hn) first stop.
  destruct (end_blocknum_bounds msg Hmsg Hn) as (Hstop & Hle & Hlt). fold first in Hle, Hlt, Hfirst. fold stop in Hstop, Hle, Hlt. specialize (Hlt Hfirst).
  destruct Hmsg as (_ & H1 & _). fold first in H1.
  destruct (range_announced (network_graph s) first (Z.min stop MAX_SCID_BLOCK) Hg Hu ltac:(lia)) as (chans & Er & Hs & Hids).
  destruct (push_channels_ok chans ([], [])) as [(Hf & Hl & Hne) Ec]; [split_and!; cbn; [done|lia|done]|].
  destruct (foldl push_channel ([], []) chans) as [full batch] eqn:Eb. unfold batches_of in Ec. cbn [fst snd] in *.
  destruct (send_replies_ok their_node_id msg first (full ++ [batch]) s) as (rs & Es & Ers & Hj & Hok); try done.
  - by destruct full.
  - destruct full as [|b full]; [by left|right]. apply Forall_app_2; [|by constructor; [apply Hne|]].
    eapply Forall_impl; [exact Hf|]. cbn. intros l Hl' ->. done.
  - apply Forall_app_2; [|by constructor]. eapply Forall_impl; [exact Hf|]. cbn. intros l ->. done.
  - change (concat ([] ++ [[]])) with (@nil Z) in Ec. cbn [app] in Ec. rewrite Ec. split.
    + clear -Hs. induction Hs as [|x l Hs IH Hx]; constructor; [done|]. eapply Forall_impl; [exact Hx|]. cbn. lia.
    + apply Forall_forall. intros id Hid. apply Hids in Hid as (c & Hc & _ & Hb). split; [by apply (Hu _ _ Hc)|]. fold stop. lia.
  - exists rs. rewrite Ers, Ec. cbn [app concat]. split; [|done].
    unfold handle_query_channel_range. rewrite bind_get. fold first stop.
    rewrite start_of_block by (unfold in_width, MAX_SCID_BLOCK in *; lia).
    rewrite (start_of_block (Z.min stop MAX_SCID_BLOCK)) by (unfold in_width, MAX_SCID_BLOCK in *; lia).
    rewrite bool_decide_false by (intros Hc; by apply Hc). rewrite (proj2 (Z.eqb_neq _ _) Hn). cbn [is_err is_ok negb orb].
    cbn [unwrap_result]. cbv [lift mbind prog_bind]. rewrite Er, Eb. by rewrite Es.
Qed.

Lemma refused_query (their_node_id : PublicKey) (msg : QueryChannelRange.t) (s : P2PGossipSync) :
  QueryChannelRange.ok msg -> ~ answerable msg (network_graph s) ->
  handle_query_channel_range their_node_id msg s =
  (Ret (Err (mkLightningError "query_channel_range could not be processed" IgnoreError)),
   replied their_node_id [ReplyChannelRange.mk (QueryChannelRange.chain_hash msg) (QueryChannelRange.first_blocknum msg)
                            (QueryChannelRange.number_of_blocks msg) true []] s).
Proof.
  intros Hmsg Hno. unfold handle_query_channel_range. rewrite bind_get.
  destruct (_ || _) eqn:E; [done|]. exfalso. apply Hno.
  apply orb_false_iff in E as [E En]. apply orb_false_iff in E as [E _]. apply orb_false_iff in E as [Ec Es].
  split_and!; [|unfold ScidUtils.scid_from_parts in Es; destruct (Z.gtb_spec (QueryChannelRange.first_blocknum msg) MAX_SCID_BLOCK); [done|lia]|lia].
  apply bool_decide_eq_false in Ec. by apply dec_stable in Ec.
Qed.


(** Every other query is refused with one empty reply that repeats its range. *)
Theorem query_refused (their_node_id : PublicKey) (msg : QueryChannelRange.t) (s : P2PGossipSync) :
  QueryChannelRange.ok msg -> ~ answerable msg (network_graph s) ->
  handle_query_channel_range their_node_id msg s =
  (Ret (Err (mkLightningError "query_channel_range could not be processed" IgnoreError)),
   replied their_node_id [ReplyChannelRange.mk (QueryChannelRange.chain_hash msg) (QueryChannelRange.first_blocknum msg)
                            (QueryChannelRange.number_of_blocks msg) true []] s).
Proof. apply refused_query. Qed.
End GossipSyncSpec.
