(* ===== verification/PeerManager.v ===== *)
(** * Connections: rust-lightning/lightning/src/ln/peer_handler.rs

    [PeerManager] turns bytes of sockets into messages for the handlers and messages of the
    handlers into bytes for sockets: it drives the handshake, frames and decodes messages,
    starts and answers pings, and sends a new peer the network graph.

    The handlers, the sockets and the driver that calls the manager are parameters, each
    with the operations of its trait.  A call of a method is one step: the locks of the source
    only make calls on different connections exclude each other.  [HashMap]s keyed by a
    public key are keyed by its serialisation, and iterate in an arbitrary order, here the one
    of [map_to_list].  Logging is left out except for what it evaluates. *)

From S2P Require Import Prelude Text HexUtils Bytes ChaCha20 Poly1305 Stream Ser SerLaws Aead Tlv Features Msgs OnionHop ChannelMsgs ChannelMsgsLaws GossipMsgs Wire Noise Onion OnionError GossipSync Graph.

Local Open Scope Z_scope.

(** ** Constants and data *)

Definition FORWARD_INIT_SYNC_BUFFER_LIMIT_RATIO : nat := 2.
Definition OUTBOUND_BUFFER_LIMIT_READ_PAUSE : nat := 10.
Definition OUTBOUND_BUFFER_LIMIT_DROP_GOSSIP : nat := OUTBOUND_BUFFER_LIMIT_READ_PAUSE * FORWARD_INIT_SYNC_BUFFER_LIMIT_RATIO.
Definition MAX_BUFFER_DRAIN_TICK_INTERVALS_PER_PEER : Z := 4.
Definition BUFFER_DRAIN_MSGS_PER_TICK : Z := 32.

Record PeerHandleError := mkPeerHandleError { no_connection_possible : bool }.

Inductive InitSyncTracker `{Secp} :=
| NoSyncRequested
| ChannelsSyncing (c : Z)
| NodesSyncing (key : PublicKey).

Inductive MessageHandlingError :=
| IsPeerHandleError (e : PeerHandleError)
| IsLightningError (e : LightningError).

Module Peer.
Record t `{NoiseCrypto} := mk {
  channel_encryptor : PeerChannelEncryptor;
  their_node_id : option PublicKey;
  their_features : option bytes;
  their_net_address : option NetAddress.t;
  pending_outbound_buffer : list bytes;
  pending_outbound_buffer_first_msg_offset : nat;
  awaiting_write_event : bool;
  pending_read_buffer : bytes;
  pending_read_buffer_pos : nat;
  pending_read_is_header : bool;
  sync_status : InitSyncTracker;
  msgs_sent_since_pong : Z;
  awaiting_pong_timer_tick_intervals : Z;
  received_message_since_timer_tick : bool;
  sent_gossip_timestamp_filter : bool;
}.

Section Setters.
Context `{NoiseCrypto}.
Definition set_channel_encryptor (x : PeerChannelEncryptor) (p : t) : t :=
  mk _ _ x (their_node_id p) (their_features p) (their_net_address p) (pending_outbound_buffer p)
    (pending_outbound_buffer_first_msg_offset p) (awaiting_write_event p) (pending_read_buffer p)
    (pending_read_buffer_pos p) (pending_read_is_header p) (sync_status p) (msgs_sent_since_pong p)
    (awaiting_pong_timer_tick_intervals p) (received_message_since_timer_tick p) (sent_gossip_timestamp_filter p).
Definition set_their_node_id (x : option PublicKey) (p : t) : t :=
  mk _ _ (channel_encryptor p) x (their_features p) (their_net_address p) (pending_outbound_buffer p)
    (pending_outbound_buffer_first_msg_offset p) (awaiting_write_event p) (pending_read_buffer p)
    (pending_read_buffer_pos p) (pending_read_is_header p) (sync_status p) (msgs_sent_since_pong p)
    (awaiting_pong_timer_tick_intervals p) (received_message_since_timer_tick p) (sent_gossip_timestamp_filter p).
Definition set_their_features (x : option bytes) (p : t) : t :=
  mk _ _ (channel_encryptor p) (their_node_id p) x (their_net_address p) (pending_outbound_buffer p)
    (pending_outbound_buffer_first_msg_offset p) (awaiting_write_event p) (pending_read_buffer p)
    (pending_read_buffer_pos p) (pending_read_is_header p) (sync_status p) (msgs_sent_since_pong p)
    (awaiting_pong_timer_tick_intervals p) (received_message_since_timer_tick p) (sent_gossip_timestamp_filter p).
Definition set_their_net_address (x : option NetAddress.t) (p : t) : t :=
  mk _ _ (channel_encryptor p) (their_node_id p) (their_features p) x (pending_outbound_buffer p)
    (pending_outbound_buffer_first_msg_offset p) (awaiting_write_event p) (pending_read_buffer p)
    (pending_read_buffer_pos p) (pending_read_is_header p) (sync_status p) (msgs_sent_since_pong p)
    (awaiting_pong_timer_tick_intervals p) (received_message_since_timer_tick p) (sent_gossip_timestamp_filter p).
Definition set_pending_outbound_buffer (x : list bytes) (p : t) : t :=
  mk _ _ (channel_encryptor p) (their_node_id p) (their_features p) (their_net_address p) x
    (pending_outbound_buffer_first_msg_offset p) (awaiting_write_event p) (pending_read_buffer p)
    (pending_read_buffer_pos p) (pending_read_is_header p) (sync_status p) (msgs_sent_since_pong p)
    (awaiting_pong_timer_tick_intervals p) (received_message_since_timer_tick p) (sent_gossip_timestamp_filter p).
Definition set_pending_outbound_buffer_first_msg_offset (x : nat) (p : t) : t :=
  mk _ _ (channel_encryptor p) (their_node_id p) (their_features p) (their_net_address p) (pending_outbound_buffer p)
    x (awaiting_write_event p) (pending_read_buffer p) (pending_read_buffer_pos p) (pending_read_is_header p)
    (sync_status p) (msgs_sent_since_pong p) (awaiting_pong_timer_tick_intervals p) (received_message_since_timer_tick
    p) (sent_gossip_timestamp_filter p).
Definition set_awaiting_write_event (x : bool) (p : t) : t :=
  mk _ _ (channel_encryptor p) (their_node_id p) (their_features p) (their_net_address p) (pending_outbound_buffer p)
    (pending_outbound_buffer_first_msg_offset p) x (pending_read_buffer p) (pending_read_buffer_pos p)
    (pending_read_is_header p) (sync_status p) (msgs_sent_since_pong p) (awaiting_pong_timer_tick_intervals p)
    (received_message_since_timer_tick p) (sent_gossip_timestamp_filter p).
Definition set_pending_read_buffer (x : bytes) (p : t) : t :=
  mk _ _ (channel_encryptor p) (their_node_id p) (their_features p) (their_net_address p) (pending_outbound_buffer p)
    (pending_outbound_buffer_first_msg_offset p) (awaiting_write_event p) x (pending_read_buffer_pos p)
    (pending_read_is_header p) (sync_status p) (msgs_sent_since_pong p) (awaiting_pong_timer_tick_intervals p)
    (received_message_since_timer_tick p) (sent_gossip_timestamp_filter p).
Definition set_pending_read_buffer_pos (x : nat) (p : t) : t :=
  mk _ _ (channel_encryptor p) (their_node_id p) (their_features p) (their_net_address p) (pending_outbound_buffer p)
    (pending_outbound_buffer_first_msg_offset p) (awaiting_write_event p) (pending_read_buffer p) x
    (pending_read_is_header p) (sync_status p) (msgs_sent_since_pong p) (awaiting_pong_timer_tick_intervals p)
    (received_message_since_timer_tick p) (sent_gossip_timestamp_filter p).
Definition set_pending_read_is_header (x : bool) (p : t) : t :=
  mk _ _ (channel_encryptor p) (their_node_id p) (their_features p) (their_net_address p) (pending_outbound_buffer p)
    (pending_outbound_buffer_first_msg_offset p) (awaiting_write_event p) (pending_read_buffer p)
    (pending_read_buffer_pos p) x (sync_status p) (msgs_sent_since_pong p) (awaiting_pong_timer_tick_intervals p)
    (received_message_since_timer_tick p) (sent_gossip_timestamp_filter p).
Definition set_sync_status (x : InitSyncTracker) (p : t) : t :=
  mk _ _ (channel_encryptor p) (their_node_id p) (their_features p) (their_net_address p) (pending_outbound_buffer p)
    (pending_outbound_buffer_first_msg_offset p) (awaiting_write_event p) (pending_read_buffer p)
    (pending_read_buffer_pos p) (pending_read_is_header p) x (msgs_sent_since_pong p)
    (awaiting_pong_timer_tick_intervals p) (received_message_since_timer_tick p) (sent_gossip_timestamp_filter p).
Definition set_msgs_sent_since_pong (x : Z) (p : t) : t :=
  mk _ _ (channel_encryptor p) (their_node_id p) (their_features p) (their_net_address p) (pending_outbound_buffer p)
    (pending_outbound_buffer_first_msg_offset p) (awaiting_write_event p) (pending_read_buffer p)
    (pending_read_buffer_pos p) (pending_read_is_header p) (sync_status p) x (awaiting_pong_timer_tick_intervals p)
    (received_message_since_timer_tick p) (sent_gossip_timestamp_filter p).
Definition set_awaiting_pong_timer_tick_intervals (x : Z) (p : t) : t :=
  mk _ _ (channel_encryptor p) (their_node_id p) (their_features p) (their_net_address p) (pending_outbound_buffer p)
    (pending_outbound_buffer_first_msg_offset p) (awaiting_write_event p) (pending_read_buffer p)
    (pending_read_buffer_pos p) (pending_read_is_header p) (sync_status p) (msgs_sent_since_pong p) x
    (received_message_since_timer_tick p) (sent_gossip_timestamp_filter p).
Definition set_received_message_since_timer_tick (x : bool) (p : t) : t :=
  mk _ _ (channel_encryptor p) (their_node_id p) (their_features p) (their_net_address p) (pending_outbound_buffer p)
    (pending_outbound_buffer_first_msg_offset p) (awaiting_write_event p) (pending_read_buffer p)
    (pending_read_buffer_pos p) (pending_read_is_header p) (sync_status p) (msgs_sent_since_pong p)
    (awaiting_pong_timer_tick_intervals p) x (sent_gossip_timestamp_filter p).
Definition set_sent_gossip_timestamp_filter (x : bool) (p : t) : t :=
  mk _ _ (channel_encryptor p) (their_node_id p) (their_features p) (their_net_address p) (pending_outbound_buffer p)
    (pending_outbound_buffer_first_msg_offset p) (awaiting_write_event p) (pending_read_buffer p)
    (pending_read_buffer_pos p) (pending_read_is_header p) (sync_status p) (msgs_sent_since_pong p)
    (awaiting_pong_timer_tick_intervals p) (received_message_since_timer_tick p) x.
End Setters.
End Peer.

(** ** Parameters *)

(** The methods of [ChannelMessageHandler]: the calls it gets, with the peer's key. *)
Inductive ChannelCall `{Secp} :=
| HandleOpenChannel (their_features : bytes) (msg : OpenChannel.t)
| HandleAcceptChannel (their_features : bytes) (msg : AcceptChannel.t)
| HandleFundingCreated (msg : FundingCreated.t)
| HandleFundingSigned (msg : FundingSigned.t)
| HandleChannelReady (msg : ChannelReady.t)
| HandleShutdown (their_features : bytes) (msg : Shutdown.t)
| HandleClosingSigned (msg : ClosingSigned.t)
| HandleUpdateAddHTLC (msg : UpdateAddHTLC.t)
| HandleUpdateFulfillHTLC (msg : UpdateFulfillHTLC.t)
| HandleUpdateFailHTLC (msg : UpdateFailHTLC.t)
| HandleUpdateFailMalformedHTLC (msg : UpdateFailMalformedHTLC.t)
| HandleCommitmentSigned (msg : CommitmentSigned.t)
| HandleRevokeAndACK (msg : RevokeAndACK.t)
| HandleUpdateFee (msg : UpdateFee.t)
| HandleChannelReestablish (msg : ChannelReestablish.t)
| HandleAnnouncementSignatures (msg : AnnouncementSignatures.t)
| HandleChannelUpdate (msg : ChannelUpdate.t)
| HandlePeerError (msg : ErrorMessage.t)
| PeerConnected (msg : Init.t)
| PeerDisconnected (no_connection_possible : bool).

Class ChannelMessageHandler `{Secp} (CM : Type) := {
  chan_call : PublicKey -> ChannelCall -> CM -> CM;
  chan_events : CM -> list MessageSendEvent * CM;
}.

(** [RoutingMessageHandler]; the clock is an argument. *)
Class RoutingMessageHandler `{Secp} (RM : Type) := {
  route_node_announcement : Z -> NodeAnnouncement.t -> prog RM (result bool LightningError);
  route_channel_announcement : Z -> ChannelAnnouncement.t -> prog RM (result bool LightningError);
  route_channel_update : Z -> ChannelUpdate.t -> prog RM (result bool LightningError);
  route_next_channels : Z -> Z -> RM -> list (ChannelAnnouncement.t * option ChannelUpdate.t * option ChannelUpdate.t);
  route_next_nodes : option PublicKey -> Z -> RM -> list NodeAnnouncement.t;
  route_peer_connected : Z -> PublicKey -> Init.t -> prog RM unit;
  route_reply_channel_range : PublicKey -> ReplyChannelRange.t -> prog RM (result unit LightningError);
  route_reply_scids_end : PublicKey -> ReplyShortChannelIdsEnd.t -> prog RM (result unit LightningError);
  route_query_channel_range : PublicKey -> QueryChannelRange.t -> prog RM (result unit LightningError);
  route_query_scids : PublicKey -> QueryShortChannelIds.t -> prog RM (result unit LightningError);
  route_events : RM -> list MessageSendEvent * RM;
}.

(** [P2PGossipSync] is one. *)
#[export] Instance gossip_sync_handler `{GossipCrypto} : RoutingMessageHandler P2PGossipSync := {|
  route_node_announcement _ := handle_node_announcement;
  route_channel_announcement := handle_channel_announcement;
  route_channel_update := handle_channel_update;
  route_next_channels := get_next_channel_announcements;
  route_next_nodes := get_next_node_announcements;
  route_peer_connected := peer_connected;
  route_reply_channel_range := handle_reply_channel_range;
  route_reply_scids_end := handle_reply_short_channel_ids_end;
  route_query_channel_range := handle_query_channel_range;
  route_query_scids := handle_query_short_channel_ids;
  route_events s := (pending_events s, (get_and_clear_pending_msg_events s).2);
|}.

(** [IgnoringMessageHandler] is another. *)
Definition ignoring_route_handler `{Secp} : RoutingMessageHandler unit := {|
  route_node_announcement _ _ := mret (Ok false);
  route_channel_announcement _ _ := mret (Ok false);
  route_channel_update _ _ := mret (Ok false);
  route_next_channels _ _ _ := [];
  route_next_nodes _ _ _ := [];
  route_peer_connected _ _ _ := mret tt;
  route_reply_channel_range _ _ := mret (Ok tt);
  route_reply_scids_end _ _ := mret (Ok tt);
  route_query_channel_range _ _ := mret (Ok tt);
  route_query_scids _ _ := mret (Ok tt);
  route_events s := ([], s);
|}.

(** [ErroringMessageHandler]: every message about a channel is answered with an error. *)
Definition erroring_channel_of `{Secp} (call : ChannelCall) : option bytes :=
  match call with
  | HandleOpenChannel _ msg => Some (OpenChannel.temporary_channel_id msg)
  | HandleAcceptChannel _ msg => Some (AcceptChannel.temporary_channel_id msg)
  | HandleFundingCreated msg => Some (FundingCreated.temporary_channel_id msg)
  | HandleFundingSigned msg => Some (FundingSigned.channel_id msg)
  | HandleChannelReady msg => Some (ChannelReady.channel_id msg)
  | HandleShutdown _ msg => Some (Shutdown.channel_id msg)
  | HandleClosingSigned msg => Some (ClosingSigned.channel_id msg)
  | HandleUpdateAddHTLC msg => Some (UpdateAddHTLC.channel_id msg)
  | HandleUpdateFulfillHTLC msg => Some (UpdateFulfillHTLC.channel_id msg)
  | HandleUpdateFailHTLC msg => Some (UpdateFailHTLC.channel_id msg)
  | HandleUpdateFailMalformedHTLC msg => Some (UpdateFailMalformedHTLC.channel_id msg)
  | HandleCommitmentSigned msg => Some (CommitmentSigned.channel_id msg)
  | HandleRevokeAndACK msg => Some (RevokeAndACK.channel_id msg)
  | HandleUpdateFee msg => Some (UpdateFee.channel_id msg)
  | HandleChannelReestablish msg => Some (ChannelReestablish.channel_id msg)
  | HandleAnnouncementSignatures msg => Some (AnnouncementSignatures.channel_id msg)
  | HandleChannelUpdate _ | HandlePeerError _ | PeerConnected _ | PeerDisconnected _ => None
  end.
Definition erroring_handler `{Secp} : ChannelMessageHandler (list MessageSendEvent) := {|
  chan_call node_id call queue :=
    match erroring_channel_of call with
    | Some channel_id =>
        queue ++ [HandleError node_id (SendErrorMessage (ErrorMessage.mk channel_id "We do not support channel messages, sorry."))]
    | None => queue
    end;
  chan_events queue := (queue, []);
|}.

(** [CustomMessageHandler]. *)
Class CustomMessageHandler `{Secp} `{CustomMessageReader} (X : Type) := {
  custom_handle : CustomMessage -> PublicKey -> prog X (result unit LightningError);
  custom_pending : X -> list (PublicKey * CustomMessage) * X;
}.

(** [IgnoringMessageHandler] again: there are no custom messages. *)
#[local] Existing Instance IgnoringMessageHandler.
Definition ignoring_custom_handler `{Secp} : CustomMessageHandler unit := {|
  custom_handle _ _ := panic "internal error: entered unreachable code";
  custom_pending x := ([], x);
|}.

(** [SocketDescriptor]: what a write sends is the socket's choice, and changes its world. *)
Class SocketDescriptor (D W : Type) := {
  send_data : D -> bytes -> bool -> W -> nat * W;
  disconnect_socket : D -> W -> W;
}.
Class SocketLaws (D W : Type) `{SocketDescriptor D W} := {
  sent_at_most d data resume w : ((send_data d data resume w).1 <= length data)%nat;
}.

(** Of secp256k1: the order of keys and the secret key of 32 bytes, if they are one. *)
Class PeerCrypto `{NoiseCrypto} := {
  pk_ltb : PublicKey -> PublicKey -> bool;
  sk_from_slice : bytes -> option SecretKey;
}.

(** ** util/atomic_counter.rs *)

Record AtomicCounter := mkCounter { counter_low : Z; counter_high : Z }.
Definition get_increment : prog AtomicCounter Z :=
  c ← get;
  let low := counter_low c in
  let high := counter_high c in
  _ ← put (mkCounter (wrap 64 (low + 1)) (if low =? 0 then wrap 64 (high + 1) else high));
  mret (Z.lor (wrap 64 (Z.shiftl high 32)) low).

(** ** Helpers *)

Definition is_gossip_msg (type_id : Z) : bool :=
  (type_id =? ChannelAnnouncement_TYPE) || (type_id =? ChannelUpdate_TYPE) || (type_id =? NodeAnnouncement_TYPE) ||
  (type_id =? QueryChannelRange_TYPE) || (type_id =? ReplyChannelRange_TYPE) || (type_id =? QueryShortChannelIds_TYPE) ||
  (type_id =? ReplyShortChannelIdsEnd_TYPE).

Definition between (lo hi x : Z) : bool := (lo <=? x) && (x <=? hi).

(** Local and private addresses are not reported. *)
Definition filter_addresses (ip_address : option NetAddress.t) : option NetAddress.t :=
  match ip_address with
  | Some (NetAddress.IPv4 addr _) =>
      let a := nth 0 addr 0 in let b := nth 1 addr 0 in let c := nth 2 addr 0 in
      if a =? 10 then None
      else if a =? 0 then None
      else if (a =? 100) && between 64 127 b then None
      else if a =? 127 then None
      else if (a =? 169) && (b =? 254) then None
      else if (a =? 172) && between 16 31 b then None
      else if (a =? 192) && (b =? 168) then None
      else if (a =? 192) && (b =? 88) && (c =? 99) then None
      else ip_address
  | Some (NetAddress.IPv6 addr _) => if between 0x20 0x3F (nth 0 addr 0) then ip_address else None
  | Some _ => ip_address
  | None => None
  end.

Section PeerManager.
Context `{NoiseCrypto} `{!FixedTimeEq} `{!PeerCrypto} `{CustomMessageReader}.
Context {CM RM X D W : Type} `{Countable D}.
Context `{!ChannelMessageHandler CM, !RoutingMessageHandler RM, !CustomMessageHandler X, !SocketDescriptor D W}.

Record PeerManager := mkManager {
  peers : gmap D Peer.t;
  node_id_to_descriptor : gmap NodeId D;
  our_node_secret : SecretKey;
  ephemeral_random_data : bytes;
  peer_counter : AtomicCounter;
  chan_handler : CM;
  route_handler : RM;
  custom_handler : X;
  sockets : W;
}.

Abbreviation pm A := (prog PeerManager A).
Abbreviation on_peer A := (prog Peer.t A).

Definition new_manager (secret : SecretKey) (random_data : bytes) (chan : CM) (route : RM) (custom : X) (world : W) : PeerManager :=
  mkManager ∅ ∅ secret random_data (mkCounter 0 0) chan route custom world.

Definition set_peers (ps : gmap D Peer.t) (s : PeerManager) : PeerManager :=
  mkManager ps (node_id_to_descriptor s) (our_node_secret s) (ephemeral_random_data s) (peer_counter s) (chan_handler s) (route_handler s)
    (custom_handler s) (sockets s).
Definition set_ids (ids : gmap NodeId D) (s : PeerManager) : PeerManager :=
  mkManager (peers s) ids (our_node_secret s) (ephemeral_random_data s) (peer_counter s) (chan_handler s) (route_handler s)
    (custom_handler s) (sockets s).
Definition set_counter (c : AtomicCounter) (s : PeerManager) : PeerManager :=
  mkManager (peers s) (node_id_to_descriptor s) (our_node_secret s) (ephemeral_random_data s) c (chan_handler s) (route_handler s)
    (custom_handler s) (sockets s).
Definition set_chan (c : CM) (s : PeerManager) : PeerManager :=
  mkManager (peers s) (node_id_to_descriptor s) (our_node_secret s) (ephemeral_random_data s) (peer_counter s) c (route_handler s)
    (custom_handler s) (sockets s).
Definition set_route (r : RM) (s : PeerManager) : PeerManager :=
  mkManager (peers s) (node_id_to_descriptor s) (our_node_secret s) (ephemeral_random_data s) (peer_counter s) (chan_handler s) r
    (custom_handler s) (sockets s).
Definition set_custom (x : X) (s : PeerManager) : PeerManager :=
  mkManager (peers s) (node_id_to_descriptor s) (our_node_secret s) (ephemeral_random_data s) (peer_counter s) (chan_handler s)
    (route_handler s) x (sockets s).
Definition set_sockets (w : W) (s : PeerManager) : PeerManager :=
  mkManager (peers s) (node_id_to_descriptor s) (our_node_secret s) (ephemeral_random_data s) (peer_counter s) (chan_handler s)
    (route_handler s) (custom_handler s) w.

Definition call_chan (node_id : PublicKey) (call : ChannelCall) : pm unit :=
  modify (fun s => set_chan (chan_call node_id call (chan_handler s)) s).
Definition on_route {A} (m : prog RM A) : pm A := fun s => let '(o, r) := m (route_handler s) in (o, set_route r s).
Definition on_custom {A} (m : prog X A) : pm A := fun s => let '(o, x) := m (custom_handler s) in (o, set_custom x s).
Definition disconnect (d : D) : pm unit := modify (fun s => set_sockets (disconnect_socket d (sockets s)) s).

(** Run a program on the peer of a descriptor that is connected. *)
Definition with_peer {A} (d : D) (m : on_peer A) : pm A := fun s =>
  match peers s !! d with
  | None => (Panic "no peer for the descriptor", s)
  | Some p => let '(o, p') := m p in (o, set_peers (<[d := p']> (peers s)) s)
  end.

(** ** Peers *)

Definition encrypting {A} (m : prog PeerChannelEncryptor A) : on_peer A := fun p =>
  let '(o, e) := m (Peer.channel_encryptor p) in (o, Peer.set_channel_encryptor e p).

Definition should_forward_channel_announcement (p : Peer.t) (channel_id : Z) : outcome bool :=
  features ← Prelude.unwrap "called `Option::unwrap()` on a `None` value" (Peer.their_features p);
  if supports_feature GossipQueries features && negb (Peer.sent_gossip_timestamp_filter p) then Ret false
  else Ret match Peer.sync_status p with NoSyncRequested => true | ChannelsSyncing i => i <? channel_id | NodesSyncing _ => true end.

Definition should_forward_node_announcement (p : Peer.t) (node_id : PublicKey) : outcome bool :=
  features ← Prelude.unwrap "called `Option::unwrap()` on a `None` value" (Peer.their_features p);
  if supports_feature GossipQueries features && negb (Peer.sent_gossip_timestamp_filter p) then Ret false
  else Ret match Peer.sync_status p with NoSyncRequested => true | ChannelsSyncing _ => false | NodesSyncing pk => pk_ltb pk node_id end.

Definition enqueue_encoded_message (encoded_message : bytes) : on_peer unit :=
  _ ← modify (fun p => Peer.set_msgs_sent_since_pong (Peer.msgs_sent_since_pong p + 1) p);
  ct ← encrypting (encrypt_message encoded_message);
  modify (fun p => Peer.set_pending_outbound_buffer (Peer.pending_outbound_buffer p ++ [ct]) p).

(** The log line needs the peer's id. *)
Definition enqueue_message (message : Message) : on_peer unit :=
  p ← get;
  _ ← lift (Prelude.unwrap "called `Option::unwrap()` on a `None` value" (Peer.their_node_id p));
  enqueue_encoded_message (concat (message_write message)).

Definition ping : Message := MPing (Ping.mk 0 64).

Definition maybe_send_extra_ping : on_peer unit :=
  p ← get;
  if Peer.awaiting_pong_timer_tick_intervals p =? 0 then
    _ ← put (Peer.set_awaiting_pong_timer_tick_intervals (-1) p);
    enqueue_message ping
  else mret tt.

(** ** Writing *)

Definition queue_len (p : Peer.t) : nat := length (Peer.pending_outbound_buffer p).

Fixpoint enqueue_channels (all : list (ChannelAnnouncement.t * option ChannelUpdate.t * option ChannelUpdate.t)) : on_peer unit :=
  match all with
  | [] => mret tt
  | (announce, update_a_option, update_b_option) :: all' =>
      _ ← enqueue_message (MChannelAnnouncement announce);
      _ ← match update_a_option with Some update_a => enqueue_message (MChannelUpdate update_a) | None => mret tt end;
      _ ← match update_b_option with Some update_b => enqueue_message (MChannelUpdate update_b) | None => mret tt end;
      next ← lift (add64 (UnsignedChannelAnnouncement.short_channel_id (ChannelAnnouncement.contents announce)) 1);
      _ ← modify (Peer.set_sync_status (ChannelsSyncing next));
      enqueue_channels all'
  end.

Fixpoint enqueue_nodes (all : list NodeAnnouncement.t) : on_peer unit :=
  match all with
  | [] => mret tt
  | msg :: all' =>
      _ ← enqueue_message (MNodeAnnouncement msg);
      _ ← modify (Peer.set_sync_status (NodesSyncing (UnsignedNodeAnnouncement.node_id (NodeAnnouncement.contents msg))));
      enqueue_nodes all'
  end.

(** The next part of the initial sync, when there is room for it. *)
Definition sync_channels (rh : RM) (c : Z) : on_peer unit :=
  p ← get;
  let steps := Z.of_nat ((OUTBOUND_BUFFER_LIMIT_READ_PAUSE - queue_len p + 2) / 3) in
  let all_messages := route_next_channels c steps rh in
  _ ← enqueue_channels all_messages;
  if negb (Z.of_nat (length all_messages) =? steps) || (length all_messages =? 0)%nat
  then modify (Peer.set_sync_status (ChannelsSyncing U64_MAX)) else mret tt.

Definition sync_nodes (rh : RM) (starting_point : option PublicKey) : on_peer unit :=
  p ← get;
  let steps := Z.of_nat (OUTBOUND_BUFFER_LIMIT_READ_PAUSE - queue_len p) in
  let all_messages := route_next_nodes starting_point steps rh in
  _ ← enqueue_nodes all_messages;
  if negb (Z.of_nat (length all_messages) =? steps) || (length all_messages =? 0)%nat
  then modify (Peer.set_sync_status NoSyncRequested) else mret tt.

Definition sync_step (rh : RM) : on_peer unit :=
  p ← get;
  if (queue_len p <? OUTBOUND_BUFFER_LIMIT_READ_PAUSE)%nat && (Peer.msgs_sent_since_pong p <? BUFFER_DRAIN_MSGS_PER_TICK) then
    match Peer.sync_status p with
    | NoSyncRequested => mret tt
    | ChannelsSyncing c => if c <? U64_MAX then sync_channels rh c else sync_nodes rh None
    | NodesSyncing key => sync_nodes rh (Some key)
    end
  else mret tt.

(** One write of the first buffer; [true] when the loop is to go on. *)
Definition write_front (d : D) : prog (Peer.t * W) bool := fun '(p, w) =>
  match Peer.pending_outbound_buffer p with
  | [] => (Ret false, (p, w))
  | next_buff :: rest =>
      let should_be_reading := (queue_len p <? OUTBOUND_BUFFER_LIMIT_READ_PAUSE)%nat in
      let offset := Peer.pending_outbound_buffer_first_msg_offset p in
      if (length next_buff <? offset)%nat then (Panic "range start index out of range for slice", (p, w))
      else
        let '(data_sent, w) := send_data d (drop offset next_buff) should_be_reading w in
        let offset := (offset + data_sent)%nat in
        if (offset =? length next_buff)%nat
        then (Ret true, (Peer.set_pending_outbound_buffer rest (Peer.set_pending_outbound_buffer_first_msg_offset 0 p), w))
        else (Ret true, (Peer.set_awaiting_write_event true (Peer.set_pending_outbound_buffer_first_msg_offset offset p), w))
  end.

Definition on_fst {A} (m : on_peer A) : prog (Peer.t * W) A := fun '(p, w) => let '(o, p') := m p in (o, (p', w)).

Fixpoint write_loop (fuel : nat) (rh : RM) (d : D) : prog (Peer.t * W) unit :=
  s ← get;
  if Peer.awaiting_write_event s.1 then mret tt
  else
    match fuel with
    | O => lift OutOfFuel
    | S fuel' =>
        _ ← on_fst (sync_step rh);
        s ← get;
        _ ← (if BUFFER_DRAIN_MSGS_PER_TICK <=? Peer.msgs_sent_since_pong s.1 then on_fst maybe_send_extra_ping else mret tt);
        go ← write_front d;
        if (go : bool) then write_loop fuel' rh d else mret tt
    end.

(** Enough for every message in the queue and all that one call can add. *)
Definition write_fuel (p : Peer.t) : nat := queue_len p + 64.

(** On a peer that is not, or no longer, in the map. *)
Definition attempt_write (d : D) (p : Peer.t) : pm Peer.t := fun s =>
  let '(o, (p', w')) := write_loop (write_fuel p) (route_handler s) d (p, sockets s) in
  (_ ← o; Ret p', set_sockets w' s).

Definition get_peer (d : D) : pm Peer.t := fun s => (Prelude.unwrap "no peer for the descriptor" (peers s !! d), s).
Definition put_peer (d : D) (p : Peer.t) : pm unit := modify (fun s => set_peers (<[d := p]> (peers s)) s).

Definition do_attempt_write_data (d : D) : pm unit :=
  p ← get_peer d;
  p ← attempt_write d p;
  put_peer d p.

Definition write_buffer_space_avail (d : D) : pm (result unit PeerHandleError) :=
  s ← get;
  match peers s !! d with
  | None => mret (Err (mkPeerHandleError false))
  | Some _ =>
      _ ← with_peer d (modify (Peer.set_awaiting_write_event false));
      _ ← do_attempt_write_data d;
      mret (Ok tt)
  end.

(** ** Connections *)

Definition get_ephemeral_key : pm SecretKey :=
  s ← get;
  let '(o, c) := get_increment (peer_counter s) in
  counter ← lift o;
  _ ← put (set_counter c s);
  lift (Prelude.unwrap "You broke SHA-256!" (sk_from_slice (sha256 (ephemeral_random_data s ++ to_le_bytes 8 counter)))).

Definition new_peer (encryptor : PeerChannelEncryptor) (remote_network_address : option NetAddress.t) : Peer.t :=
  Peer.mk _ _ encryptor None None remote_network_address [] 0 false (replicate 50 0) 0 false NoSyncRequested 0 0 false false.

Definition insert_peer (d : D) (p : Peer.t) : pm unit :=
  s ← get;
  _ ← put_peer d p;
  match peers s !! d with
  | Some _ => panic "PeerManager driver duplicated descriptors!"
  | None => mret tt
  end.

Definition new_outbound_connection (their_node_id : PublicKey) (d : D) (remote_network_address : option NetAddress.t) :
    pm (result bytes PeerHandleError) :=
  key ← get_ephemeral_key;
  let '(o, encryptor) := get_act_one (new_outbound their_node_id key) in
  res ← lift o;
  _ ← insert_peer d (new_peer encryptor remote_network_address);
  mret (Ok res).

Definition new_inbound_connection (d : D) (remote_network_address : option NetAddress.t) : pm (result unit PeerHandleError) :=
  s ← get;
  _ ← insert_peer d (new_peer (new_inbound (our_node_secret s)) remote_network_address);
  mret (Ok tt).

Definition get_peer_node_ids (s : PeerManager) : list PublicKey :=
  omap (fun e : D * Peer.t =>
    let p := e.2 in
    if negb (is_ready_for_encryption (Peer.channel_encryptor p)) || bool_decide (Peer.their_features p = None) then None
    else Peer.their_node_id p) (map_to_list (peers s)).

(** ** Disconnection *)

Definition disconnect_event_internal (d : D) (no_connection_possible : bool) : pm unit :=
  s ← get;
  match peers s !! d with
  | None => mret tt
  | Some peer =>
      _ ← put (set_peers (delete d (peers s)) s);
      match Peer.their_node_id peer with
      | Some node_id =>
          _ ← modify (fun s => set_ids (delete (from_pubkey node_id) (node_id_to_descriptor s)) s);
          call_chan node_id (PeerDisconnected no_connection_possible)
      | None => mret tt
      end
  end.

Definition socket_disconnected (d : D) : pm unit := disconnect_event_internal d false.

Definition disconnect_by_node_id (node_id : PublicKey) (no_connection_possible : bool) : pm unit :=
  s ← get;
  match node_id_to_descriptor s !! from_pubkey node_id with
  | None => mret tt
  | Some d =>
      _ ← put (set_peers (delete d (peers s)) (set_ids (delete (from_pubkey node_id) (node_id_to_descriptor s)) s));
      _ ← call_chan node_id (PeerDisconnected no_connection_possible);
      disconnect d
  end.

Definition drop_peer (e : D * Peer.t) : pm unit :=
  _ ← match Peer.their_node_id e.2 with Some node_id => call_chan node_id (PeerDisconnected false) | None => mret tt end;
  disconnect e.1.

(** A loop for its effects. *)
Definition for_each {A} (l : list A) (f : A -> pm unit) : pm unit := foldM (fun _ => f) tt l.

Definition disconnect_all_peers : pm unit :=
  s ← get;
  _ ← put (set_peers ∅ (set_ids ∅ s));
  for_each (map_to_list (peers s)) drop_peer.

(** ** Forwarding gossip *)

Definition same_key (a b : option PublicKey) : bool := bool_decide (from_pubkey <$> a = from_pubkey <$> b).

(** Who is not sent a message: its own subjects, and whom it came from. *)
Definition subjects (msg : Message) : list PublicKey :=
  match msg with
  | MChannelAnnouncement msg =>
      [UnsignedChannelAnnouncement.node_id_1 (ChannelAnnouncement.contents msg); UnsignedChannelAnnouncement.node_id_2 (ChannelAnnouncement.contents msg)]
  | MNodeAnnouncement msg => [UnsignedNodeAnnouncement.node_id (NodeAnnouncement.contents msg)]
  | _ => []
  end.

Definition should_forward (p : Peer.t) (msg : Message) : outcome bool :=
  match msg with
  | MChannelAnnouncement msg =>
      should_forward_channel_announcement p (UnsignedChannelAnnouncement.short_channel_id (ChannelAnnouncement.contents msg))
  | MNodeAnnouncement msg => should_forward_node_announcement p (UnsignedNodeAnnouncement.node_id (NodeAnnouncement.contents msg))
  | MChannelUpdate msg => should_forward_channel_announcement p (UnsignedChannelUpdate.short_channel_id (ChannelUpdate.contents msg))
  | _ => Panic "We shouldn't attempt to forward anything but gossip messages"
  end.

Definition forward_to (msg : Message) (encoded_msg : bytes) (except_node : option PublicKey) : on_peer unit :=
  p ← get;
  if negb (is_ready_for_encryption (Peer.channel_encryptor p)) || bool_decide (Peer.their_features p = None) then mret tt
  else
    forward ← lift (should_forward p msg);
    if negb (forward : bool) then mret tt
    else if (OUTBOUND_BUFFER_LIMIT_DROP_GOSSIP <? queue_len p)%nat ||
            (BUFFER_DRAIN_MSGS_PER_TICK * Z.of_nat FORWARD_INIT_SYNC_BUFFER_LIMIT_RATIO <? Peer.msgs_sent_since_pong p) then mret tt
    else if existsb (fun k => same_key (Peer.their_node_id p) (Some k)) (subjects msg) then mret tt
    else if negb (bool_decide (except_node = None)) && same_key (Peer.their_node_id p) except_node then mret tt
    else enqueue_encoded_message encoded_msg.

Definition is_forwardable (msg : Message) : bool :=
  match msg with MChannelAnnouncement _ | MNodeAnnouncement _ | MChannelUpdate _ => true | _ => false end.

Definition forward_broadcast_msg (msg : Message) (except_node : option PublicKey) : pm unit :=
  if is_forwardable msg then
    s ← get;
    let encoded_msg := concat (message_write msg) in
    for_each (map_to_list (peers s)) (fun e => with_peer e.1 (forward_to msg encoded_msg except_node))
  else panic "We shouldn't attempt to forward anything but gossip messages".

(** ** Handling a message *)

Abbreviation handled := (result (option Message) MessageHandlingError).

Definition peer_error (no_connection_possible : bool) : handled := Err (IsPeerHandleError (mkPeerHandleError no_connection_possible)).

(** An [Init] message. *)
Definition handle_init (now : Z) (d : D) (their_node_id : PublicKey) (msg : Init.t) : pm handled :=
  p ← get_peer d;
  let features := Init.features msg in
  if requires_unknown_bits InitContext features then mret (peer_error true)
  else if negb (bool_decide (Peer.their_features p = None)) then mret (peer_error false)
  else
    _ ← (if supports_feature InitialRoutingSync features && negb (supports_feature GossipQueries features)
         then with_peer d (modify (Peer.set_sync_status (ChannelsSyncing 0))) else mret tt);
    if negb (supports_feature StaticRemoteKey features) then mret (peer_error true)
    else
      _ ← on_route (route_peer_connected now their_node_id msg);
      _ ← call_chan their_node_id (PeerConnected msg);
      _ ← with_peer d (modify (Peer.set_their_features (Some features)));
      mret (Ok None).

(** What the channel handler is called with. *)
Definition channel_call_of (their_features : bytes) (m : Message) : option ChannelCall :=
  match m with
  | MOpenChannel msg => Some (HandleOpenChannel their_features msg)
  | MAcceptChannel msg => Some (HandleAcceptChannel their_features msg)
  | MFundingCreated msg => Some (HandleFundingCreated msg)
  | MFundingSigned msg => Some (HandleFundingSigned msg)
  | MChannelReady msg => Some (HandleChannelReady msg)
  | MShutdown msg => Some (HandleShutdown their_features msg)
  | MClosingSigned msg => Some (HandleClosingSigned msg)
  | MUpdateAddHTLC msg => Some (HandleUpdateAddHTLC msg)
  | MUpdateFulfillHTLC msg => Some (HandleUpdateFulfillHTLC msg)
  | MUpdateFailHTLC msg => Some (HandleUpdateFailHTLC msg)
  | MUpdateFailMalformedHTLC msg => Some (HandleUpdateFailMalformedHTLC msg)
  | MCommitmentSigned msg => Some (HandleCommitmentSigned msg)
  | MRevokeAndACK msg => Some (HandleRevokeAndACK msg)
  | MUpdateFee msg => Some (HandleUpdateFee msg)
  | MChannelReestablish msg => Some (HandleChannelReestablish msg)
  | MAnnouncementSignatures msg => Some (HandleAnnouncementSignatures msg)
  | _ => None
  end.

(** A gossip message is forwarded when its handler says so. *)
Definition forward_if (m : prog RM (result bool LightningError)) (msg : Message) : pm handled :=
  r ← on_route m;
  mret match r with
       | Ok forward => Ok (if (forward : bool) then Some msg else None)
       | Err e => Err (IsLightningError e)
       end.

Definition done_or_error (m : pm (result unit LightningError)) : pm handled :=
  r ← m; mret match r with Ok _ => Ok None | Err e => Err (IsLightningError e) end.

Definition ZERO_CHANNEL_ID : bytes := replicate 32 0.

(** The arms of the match, the peer's features being known. *)
Definition dispatch (now : Z) (d : D) (their_node_id : PublicKey) (their_features : bytes) (m : Message) : pm handled :=
  match m with
  | MInit _ | MGossipTimestampFilter _ => mret (Ok None)
  | MError msg =>
      _ ← call_chan their_node_id (HandlePeerError msg);
      mret (if bool_decide (ErrorMessage.channel_id msg = ZERO_CHANNEL_ID) then peer_error true else Ok None)
  | MWarning _ => mret (Ok None)
  | MPing msg =>
      _ ← (if Ping.ponglen msg <? 65532 then with_peer d (enqueue_message (MPong (Pong.mk (Ping.ponglen msg)))) else mret tt);
      mret (Ok None)
  | MPong _ =>
      _ ← with_peer d (modify (fun p => Peer.set_msgs_sent_since_pong 0 (Peer.set_awaiting_pong_timer_tick_intervals 0 p)));
      mret (Ok None)
  | MChannelAnnouncement msg => forward_if (route_channel_announcement now msg) m
  | MNodeAnnouncement msg => forward_if (route_node_announcement now msg) m
  | MChannelUpdate msg =>
      _ ← call_chan their_node_id (HandleChannelUpdate msg);
      forward_if (route_channel_update now msg) m
  | MQueryShortChannelIds msg => done_or_error (on_route (route_query_scids their_node_id msg))
  | MReplyShortChannelIdsEnd msg => done_or_error (on_route (route_reply_scids_end their_node_id msg))
  | MQueryChannelRange msg => done_or_error (on_route (route_query_channel_range their_node_id msg))
  | MReplyChannelRange msg => done_or_error (on_route (route_reply_channel_range their_node_id msg))
  | Unknown _ => mret (if is_even m then peer_error true else Ok None)
  | Custom msg => done_or_error (on_custom (custom_handle msg their_node_id))
  | _ =>
      match channel_call_of their_features m with
      | Some call => _ ← call_chan their_node_id call; mret (Ok None)
      | None => mret (Ok None)
      end
  end.

Definition handle_message (now : Z) (d : D) (message : Message) : pm handled :=
  p ← get_peer d;
  their_node_id ← lift (Prelude.unwrap "We know the peer's public key by the time we receive messages" (Peer.their_node_id p));
  _ ← with_peer d (modify (Peer.set_received_message_since_timer_tick true));
  match message with
  | MInit msg => handle_init now d their_node_id msg
  | _ =>
      match Peer.their_features p with
      | None => mret (peer_error false)
      | Some their_features =>
          match message with
          | MGossipTimestampFilter _ =>
              _ ← (if supports_feature GossipQueries their_features && negb (Peer.sent_gossip_timestamp_filter p)
                   then with_peer d (modify (fun p => Peer.set_sync_status (ChannelsSyncing 0) (Peer.set_sent_gossip_timestamp_filter true p)))
                   else mret tt);
              mret (Ok None)
          | _ => dispatch now d their_node_id their_features message
          end
      end
  end.

(** ** Reading *)

(** [try_potential_handleerror!]: the error to return with, or to go on. *)
Definition handle_lightning_error (e : LightningError) : on_peer (option PeerHandleError) :=
  match action e with
  | DisconnectPeer _ => mret (Some (mkPeerHandleError false))
  | IgnoreAndLog _ | IgnoreDuplicateGossip | IgnoreError => mret None
  | SendErrorMessage msg => _ ← enqueue_message (MError msg); mret None
  | SendWarningMessage msg _ => _ ← enqueue_message (MWarning msg); mret None
  end.

(** What a full buffer led to: go on, with a message perhaps; [continue]; or an error. *)
Inductive turn := Proceed (msg : option Message) | Skip | Fail (e : PeerHandleError).

Definition warn (data : string) : Message := MWarning (WarningMessage.mk ZERO_CHANNEL_ID data).

Definition debug_type (ty : option Z) : string :=
  match ty with Some t => "Some(" +:+ to_string t +:+ ")" | None => "None" end.

Definition on_decode_error (e : DecodeError) (ty : option Z) : on_peer turn :=
  let gossip := match ty with Some t => is_gossip_msg t | None => false end in
  match e with
  | UnknownRequiredFeature =>
      if gossip then mret Skip
      else
        _ ← enqueue_message (warn ("Received an unknown required feature/TLV in message type " +:+ debug_type ty));
        mret (Fail (mkPeerHandleError false))
  | UnsupportedCompression => _ ← enqueue_message (warn "Unsupported message compression: zlib"); mret Skip
  | UnknownVersion | InvalidValue | ShortRead | BadLengthDescriptor | Io _ =>
      if gossip then _ ← enqueue_message (warn "Unreadable/bogus gossip message"); mret Skip
      else mret (Fail (mkPeerHandleError false))
  end.

(** Errors of the encryptor ask for the peer to be disconnected. *)
Definition or_disconnect {A} (r : result A string) (k : A -> pm turn) : pm turn :=
  match r with Ok a => k a | Err _ => mret (Fail (mkPeerHandleError false)) end.

(** The first id of a connection is registered; a second connection is given up. *)
Definition insert_node_id (d : D) (their_node_id : PublicKey) : pm bool :=
  s ← get;
  match node_id_to_descriptor s !! from_pubkey their_node_id with
  | Some _ => _ ← with_peer d (modify (Peer.set_their_node_id None)); mret false
  | None => _ ← put (set_ids (<[from_pubkey their_node_id := d]> (node_id_to_descriptor s)) s); mret true
  end.

Definition push_back (bytes_to_send : bytes) : on_peer unit :=
  modify (fun p => Peer.set_pending_outbound_buffer (Peer.pending_outbound_buffer p ++ [bytes_to_send]) p).

(** Both ends of the handshake end with the same steps. *)
Definition finish_handshake (d : D) (their_node_id : PublicKey) : pm turn :=
  _ ← with_peer d (modify (fun p =>
        Peer.set_their_node_id (Some their_node_id) (Peer.set_pending_read_is_header true (Peer.set_pending_read_buffer (replicate 18 0) p))));
  inserted ← insert_node_id d their_node_id;
  if negb (inserted : bool) then mret (Fail (mkPeerHandleError false))
  else
    p ← get_peer d;
    _ ← with_peer d (enqueue_message (MInit (Init.mk (known InitContext) (filter_addresses (Peer.their_net_address p)))));
    _ ← with_peer d (modify (Peer.set_awaiting_pong_timer_tick_intervals 0));
    mret (Proceed None).

(** [Vec::resize]; the capacity of the vector is not modelled. *)
Definition resize (n : nat) (buf : bytes) : bytes := take n buf ++ replicate (n - length buf) 0.

Definition read_header (d : D) : pm turn :=
  p ← get_peer d;
  r ← with_peer d (encrypting (decrypt_length_header (Peer.pending_read_buffer p)));
  or_disconnect r (fun msg_len =>
    _ ← with_peer d (modify (fun p => Peer.set_pending_read_buffer (resize (Z.to_nat msg_len + 16) (Peer.pending_read_buffer p)) p));
    if msg_len <? 2 then mret (Fail (mkPeerHandleError false))
    else
      _ ← with_peer d (modify (Peer.set_pending_read_is_header false));
      mret (Proceed None)).

Definition read_body (d : D) : pm turn :=
  p ← get_peer d;
  r ← with_peer d (encrypting (decrypt_message (Peer.pending_read_buffer p)));
  or_disconnect r (fun msg_data =>
    if (length msg_data <? 2)%nat then panic "assertion failed: msg_data.len() >= 2"
    else
      _ ← with_peer d (modify (fun p =>
            Peer.set_pending_read_is_header true (Peer.set_pending_read_buffer (resize 18 (Peer.pending_read_buffer p)) p)));
      r ← lift (run Wire.read msg_data).1;
      match r with
      | Ok (Ok m) => mret (Proceed (Some m))
      | Ok (Err (e, ty)) => with_peer d (on_decode_error e ty)
      | Err e => with_peer d (on_decode_error e None)
      end).

(** The buffer is full: the next step of the handshake, or half a message. *)
Definition process_buffer (d : D) : pm turn :=
  p ← get_peer d;
  match get_noise_step (Peer.channel_encryptor p) with
  | ActOne =>
      s ← get;
      key ← get_ephemeral_key;
      r ← with_peer d (encrypting (process_act_one_with_keys (Peer.pending_read_buffer p) (our_node_secret s) key));
      or_disconnect r (fun act_two =>
        _ ← with_peer d (push_back act_two);
        _ ← with_peer d (modify (Peer.set_pending_read_buffer (replicate 66 0)));
        mret (Proceed None))
  | ActTwo =>
      s ← get;
      r ← with_peer d (encrypting (process_act_two (Peer.pending_read_buffer p) (our_node_secret s)));
      or_disconnect r (fun '(act_three, their_node_id) =>
        _ ← with_peer d (push_back act_three);
        finish_handshake d their_node_id)
  | ActThree =>
      r ← with_peer d (encrypting (process_act_three (Peer.pending_read_buffer p)));
      or_disconnect r (fun their_node_id => finish_handshake d their_node_id)
  | NoiseComplete => if Peer.pending_read_is_header p then read_header d else read_body d
  end.

(** Copy what fits into the read buffer; whether it is full, and what is left. *)
Definition fill_buffer (data : bytes) : on_peer (bool * bytes) :=
  p ← get;
  let len := length (Peer.pending_read_buffer p) in
  let pos := Peer.pending_read_buffer_pos p in
  if (len =? 0)%nat then panic "assertion failed: peer.pending_read_buffer.len() > 0"
  else if (len <=? pos)%nat then panic "assertion failed: peer.pending_read_buffer.len() > peer.pending_read_buffer_pos"
  else
    let data_to_copy := Nat.min (len - pos) (length data) in
    let buf := take pos (Peer.pending_read_buffer p) ++ take data_to_copy data ++ drop (pos + data_to_copy) (Peer.pending_read_buffer p) in
    let full := (pos + data_to_copy =? len)%nat in
    _ ← put (Peer.set_pending_read_buffer_pos (if full then 0%nat else (pos + data_to_copy)%nat) (Peer.set_pending_read_buffer buf p));
    mret (full, drop data_to_copy data).

(** What the loop carries. *)
Record reading := mkReading { peer_node_id : option PublicKey; msgs_to_forward : list Message; pause_read : bool }.

(** One turn of the loop of [do_read_event]; [None] of the second component for [continue]. *)
Definition read_turn (now : Z) (d : D) (data : bytes) (st : reading) : pm (result (bytes * reading) PeerHandleError) :=
  p ← get_peer d;
  let node := match peer_node_id st with Some k => Some k | None => Peer.their_node_id p end in
  '(full, data) ← with_peer d (fill_buffer data);
  t ← (if (full : bool) then process_buffer d else mret (Proceed None));
  match t with
  | Fail e => mret (Err e)
  | Skip => mret (Ok (data, mkReading node (msgs_to_forward st) (pause_read st)))
  | Proceed msg_to_handle =>
      p ← get_peer d;
      let pause := (OUTBOUND_BUFFER_LIMIT_READ_PAUSE <? queue_len p)%nat in
      let st := mkReading node (msgs_to_forward st) pause in
      match msg_to_handle with
      | None => mret (Ok (data, st))
      | Some message =>
          r ← handle_message now d message;
          match r with
          | Err (IsPeerHandleError e) => mret (Err e)
          | Err (IsLightningError e) =>
              o ← with_peer d (handle_lightning_error e);
              mret match o with Some e => Err e | None => Ok (data, st) end
          | Ok (Some msg) => mret (Ok (data, mkReading node (msgs_to_forward st ++ [msg]) pause))
          | Ok None => mret (Ok (data, st))
          end
      end
  end.

(** Every turn takes at least a byte. *)
Fixpoint read_loop (fuel : nat) (now : Z) (d : D) (data : bytes) (st : reading) : pm (result reading PeerHandleError) :=
  match data with
  | [] => mret (Ok st)
  | _ :: _ =>
      match fuel with
      | O => lift OutOfFuel
      | S fuel' =>
          let? next := read_turn now d data st in
          read_loop fuel' now d next.1 next.2
      end
  end.

Definition do_read_event (now : Z) (d : D) (data : bytes) : pm (result bool PeerHandleError) :=
  s ← get;
  match peers s !! d with
  | None => mret (Err (mkPeerHandleError false))
  | Some _ =>
      let? st := read_loop (length data) now d data (mkReading None [] false) in
      _ ← for_each (msgs_to_forward st) (fun msg => forward_broadcast_msg msg (peer_node_id st));
      mret (Ok (pause_read st))
  end.

Definition read_event (now : Z) (d : D) (data : bytes) : pm (result bool PeerHandleError) :=
  r ← do_read_event now d data;
  match r with
  | Ok res => mret (Ok res)
  | Err e => _ ← disconnect_event_internal d (no_connection_possible e); mret (Err e)
  end.
(** ** Events of the handlers *)

Definition pending_disconnects : Type := gmap NodeId (PublicKey * option ErrorMessage.t).

Fixpoint enqueue_all (msgs : list Message) : on_peer unit :=
  match msgs with
  | [] => mret tt
  | msg :: msgs' => _ ← enqueue_message msg; enqueue_all msgs'
  end.

(** [get_peer_for_forwarding!]: nothing is sent to a peer about to be disconnected, to one
    that is not connected, or to one that has not sent its [Init]. *)
Definition send_to (peers_to_disconnect : pending_disconnects) (node_id : PublicKey) (msgs : list Message) : pm unit :=
  s ← get;
  match peers_to_disconnect !! from_pubkey node_id with
  | Some _ => mret tt
  | None =>
      match node_id_to_descriptor s !! from_pubkey node_id with
      | None => mret tt
      | Some d =>
          match peers s !! d with
          | None => panic "Inconsistent peers set state!"
          | Some p => if bool_decide (Peer.their_features p = None) then mret tt else with_peer d (enqueue_all msgs)
          end
      end
  end.

Definition update_messages (u : CommitmentUpdate.t) : list Message :=
  (MUpdateAddHTLC <$> CommitmentUpdate.update_add_htlcs u) ++ (MUpdateFulfillHTLC <$> CommitmentUpdate.update_fulfill_htlcs u) ++
  (MUpdateFailHTLC <$> CommitmentUpdate.update_fail_htlcs u) ++
  (MUpdateFailMalformedHTLC <$> CommitmentUpdate.update_fail_malformed_htlcs u) ++
  match CommitmentUpdate.update_fee u with Some msg => [MUpdateFee msg] | None => [] end ++
  [MCommitmentSigned (CommitmentUpdate.commitment_signed u)].

(** Our own gossip is broadcast when our graph takes it, or has it. *)
Definition broadcast_if (m : prog RM (result bool LightningError)) (msg : Message) : pm unit :=
  r ← on_route m;
  match r with
  | Ok _ => forward_broadcast_msg msg None
  | Err e => match action e with IgnoreDuplicateGossip => forward_broadcast_msg msg None | _ => mret tt end
  end.

(** Messages for one peer. *)
Definition message_for (event : MessageSendEvent) : option (PublicKey * list Message) :=
  match event with
  | SendAcceptChannel node_id msg => Some (node_id, [MAcceptChannel msg])
  | SendOpenChannel node_id msg => Some (node_id, [MOpenChannel msg])
  | SendFundingCreated node_id msg => Some (node_id, [MFundingCreated msg])
  | SendFundingSigned node_id msg => Some (node_id, [MFundingSigned msg])
  | SendChannelReady node_id msg => Some (node_id, [MChannelReady msg])
  | SendAnnouncementSignatures node_id msg => Some (node_id, [MAnnouncementSignatures msg])
  | UpdateHTLCs node_id updates => Some (node_id, update_messages updates)
  | SendRevokeAndACK node_id msg => Some (node_id, [MRevokeAndACK msg])
  | SendClosingSigned node_id msg => Some (node_id, [MClosingSigned msg])
  | SendShutdown node_id msg => Some (node_id, [MShutdown msg])
  | SendChannelReestablish node_id msg => Some (node_id, [MChannelReestablish msg])
  | SendChannelUpdate node_id msg => Some (node_id, [MChannelUpdate msg])
  | HandleError node_id (SendErrorMessage msg) => Some (node_id, [MError msg])
  | HandleError node_id (SendWarningMessage msg _) => Some (node_id, [MWarning msg])
  | SendChannelRangeQuery node_id msg => Some (node_id, [MQueryChannelRange msg])
  | SendShortIdsQuery node_id msg => Some (node_id, [MQueryShortChannelIds msg])
  | SendReplyChannelRange node_id msg => Some (node_id, [MReplyChannelRange msg])
  | SendGossipTimestampFilter node_id msg => Some (node_id, [MGossipTimestampFilter msg])
  | BroadcastChannelAnnouncement _ _ | BroadcastNodeAnnouncement _ | BroadcastChannelUpdate _ | HandleError _ _ => None
  end.

Definition process_event (now : Z) (peers_to_disconnect : pending_disconnects) (event : MessageSendEvent) : pm pending_disconnects :=
  match event with
  | BroadcastChannelAnnouncement msg update_msg =>
      _ ← broadcast_if (route_channel_announcement now msg) (MChannelAnnouncement msg);
      _ ← broadcast_if (route_channel_update now update_msg) (MChannelUpdate update_msg);
      mret peers_to_disconnect
  | BroadcastNodeAnnouncement msg =>
      _ ← broadcast_if (route_node_announcement now msg) (MNodeAnnouncement msg); mret peers_to_disconnect
  | BroadcastChannelUpdate msg =>
      _ ← broadcast_if (route_channel_update now msg) (MChannelUpdate msg); mret peers_to_disconnect
  | HandleError node_id (DisconnectPeer msg) => mret (<[from_pubkey node_id := (node_id, msg)]> peers_to_disconnect)
  | _ =>
      _ ← match message_for event with Some (node_id, msgs) => send_to peers_to_disconnect node_id msgs | None => mret tt end;
      mret peers_to_disconnect
  end.

(** The last message to a peer goes out if there is room for it. *)
Definition disconnect_peer (e : NodeId * (PublicKey * option ErrorMessage.t)) : pm unit :=
  let '(id, (node_id, msg)) := e in
  s ← get;
  match node_id_to_descriptor s !! id with
  | None => mret tt
  | Some d =>
      _ ← put (set_peers (delete d (peers s)) (set_ids (delete id (node_id_to_descriptor s)) s));
      _ ← match peers s !! d, msg with
          | Some peer, Some msg =>
              let '(o, peer) := enqueue_message (MError msg) peer in
              _ ← lift o;
              _ ← attempt_write d peer;
              mret tt
          | _, _ => mret tt
          end;
      _ ← disconnect d;
      call_chan node_id (PeerDisconnected false)
  end.

Definition process_events (now : Z) : pm unit :=
  s ← get;
  let '(chan_evs, chan) := chan_events (chan_handler s) in
  let '(route_evs, route) := route_events (route_handler s) in
  _ ← put (set_route route (set_chan chan s));
  peers_to_disconnect ← foldM (process_event now) ∅ (chan_evs ++ route_evs);
  s ← get;
  let '(custom_msgs, custom) := custom_pending (custom_handler s) in
  _ ← put (set_custom custom s);
  _ ← for_each custom_msgs (fun m => send_to peers_to_disconnect m.1 [Custom m.2]);
  s ← get;
  _ ← for_each (map_to_list (peers s)) (fun e => do_attempt_write_data e.1);
  for_each (map_to_list peers_to_disconnect) disconnect_peer.

(** ** The timer *)

Definition i8_add (a b : Z) : outcome Z :=
  if (-128 <=? a + b) && (a + b <=? 127) then Ret (a + b) else Panic "attempt to add with overflow".

(** One peer at a tick: whether it is to be disconnected, or to be written to. *)
Inductive tick := TickDisconnect | TickWrite | TickNothing.

Definition tick_peer (connections : Z) : on_peer tick :=
  p ← get;
  let intervals := Peer.awaiting_pong_timer_tick_intervals p in
  if negb (is_ready_for_encryption (Peer.channel_encryptor p)) || bool_decide (from_pubkey <$> Peer.their_node_id p = None) then
    if negb (intervals =? 0) then mret TickDisconnect
    else _ ← put (Peer.set_awaiting_pong_timer_tick_intervals 1 p); mret TickNothing
  else if intervals =? -1 then
    _ ← put (Peer.set_received_message_since_timer_tick false (Peer.set_awaiting_pong_timer_tick_intervals 1 p));
    mret TickNothing
  else if ((0 <? intervals) && negb (Peer.received_message_since_timer_tick p)) ||
          (MAX_BUFFER_DRAIN_TICK_INTERVALS_PER_PEER * connections <? wrap 64 intervals) then mret TickDisconnect
  else
    _ ← put (Peer.set_received_message_since_timer_tick false p);
    if 0 <? intervals then
      next ← lift (i8_add intervals 1);
      _ ← modify (Peer.set_awaiting_pong_timer_tick_intervals next); mret TickNothing
    else
      _ ← modify (Peer.set_awaiting_pong_timer_tick_intervals 1);
      _ ← enqueue_message ping;
      mret TickWrite.

Definition tick_one (connections : Z) (descriptors_needing_disconnect : list D) (e : D * Peer.t) : pm (list D) :=
  t ← with_peer e.1 (tick_peer connections);
  match t with
  | TickDisconnect => mret (descriptors_needing_disconnect ++ [e.1])
  | TickWrite => _ ← do_attempt_write_data e.1; mret descriptors_needing_disconnect
  | TickNothing => mret descriptors_needing_disconnect
  end.

Definition timer_tick_occurred : pm unit :=
  s ← get;
  let connections := Z.of_nat (size (peers s)) in
  descriptors_needing_disconnect ← foldM (tick_one connections) [] (map_to_list (peers s));
  _ ← for_each descriptors_needing_disconnect (fun d => disconnect_event_internal d false);
  for_each descriptors_needing_disconnect disconnect.
End PeerManager.
