(* ===== verification/PeerStream.v ===== *)
(** * A connection is a stream

    How the bytes of a peer are cut into calls makes no difference to what they lead to. *)

From S2P Require Import Prelude Text HexUtils Bytes ChaCha20 Poly1305 Stream Ser SerLaws Aead Tlv Features Msgs OnionHop ChannelMsgs ChannelMsgsLaws GossipMsgs Wire Noise Onion OnionError GossipSync Graph PeerManager.

Local Open Scope Z_scope.

Section PeerStream.
Context `{NoiseCrypto} `{!FixedTimeEq} `{!PeerCrypto} `{CustomMessageReader}.
Context {CM RM X D W : Type} `{Countable D}.
Context `{!ChannelMessageHandler CM, !RoutingMessageHandler RM, !CustomMessageHandler X, !SocketDescriptor D W}.

Abbreviation manager := (@PeerManager _ _ CM RM X D W _ _).
Implicit Types s : manager.

(** ** Filling the buffer *)

Definition room (p : Peer.t) : nat := length (Peer.pending_read_buffer p) - Peer.pending_read_buffer_pos p.

Lemma fill_room (data : bytes) p : (0 < room p)%nat ->
  fill_buffer data p = let n := Nat.min (room p) (length data) in let pos := Peer.pending_read_buffer_pos p in
    let full := (pos + n =? length (Peer.pending_read_buffer p))%nat in
    (Ret (full, drop n data), Peer.set_pending_read_buffer_pos (if full then 0%nat else (pos + n)%nat)
       (Peer.set_pending_read_buffer (take pos (Peer.pending_read_buffer p) ++ take n data ++ drop (pos + n) (Peer.pending_read_buffer p)) p)).
Proof.
  intros Hr. unfold room in *. unfold fill_buffer, mbind, prog_bind, get, put.
  destruct (Nat.eqb_spec (length (Peer.pending_read_buffer p)) 0); [lia|].
  destruct (Nat.leb_spec (length (Peer.pending_read_buffer p)) (Peer.pending_read_buffer_pos p)); [lia|]. done.
Qed.

Lemma fill_no_room (data : bytes) p : room p = 0%nat -> exists why, forall data, fill_buffer data p = (Panic why, p).
Proof.
  intros Hr. unfold room in *. unfold fill_buffer, mbind, prog_bind, get.
  destruct (Nat.eqb_spec (length (Peer.pending_read_buffer p)) 0); [by eexists|].
  destruct (Nat.leb_spec (length (Peer.pending_read_buffer p)) (Peer.pending_read_buffer_pos p)); [by eexists|lia].
Qed.

(** What is left over stays in front of what comes later. *)
Lemma fill_long (a b : bytes) p : (0 < room p <= length a)%nat ->
  exists full rest p', fill_buffer a p = (Ret (full, rest), p') /\ fill_buffer (a ++ b) p = (Ret (full, rest ++ b), p') /\ (length rest < length a)%nat.
Proof.
  intros Hr. rewrite !fill_room by lia. cbv zeta. rewrite length_app. rewrite !Nat.min_l by lia. eexists _, _, _. split; [done|].
  rewrite take_app_le, drop_app_le by lia. split; [done|]. rewrite length_drop. lia.
Qed.

(** A piece that does not fill the buffer, and the next one. *)
Lemma fill_short (a b : bytes) p : (length a < room p)%nat ->
  exists p', fill_buffer a p = (Ret (false, []), p') /\ fill_buffer (a ++ b) p = fill_buffer b p' /\
    Peer.their_node_id p' = Peer.their_node_id p /\ queue_len p' = queue_len p.
Proof.
  intros Hr. rewrite (fill_room a) by lia. cbv zeta. rewrite Nat.min_r, drop_all, firstn_all by lia.
  set (pos := Peer.pending_read_buffer_pos p). set (buf := Peer.pending_read_buffer p). unfold room in Hr. fold pos buf in Hr.
  replace (pos + length a =? length buf)%nat with false by (symmetry; apply Nat.eqb_neq; lia). eexists. split; [done|]. split; [|done].
  set (buf' := take pos buf ++ a ++ drop (pos + length a) buf).
  assert (Lb : length buf' = length buf) by (unfold buf'; rewrite !length_app, length_take, length_drop; lia).
  rewrite !fill_room by (unfold room; cbn; fold pos buf buf'; lia). unfold room. cbn [Peer.pending_read_buffer_pos Peer.pending_read_buffer Peer.set_pending_read_buffer_pos Peer.set_pending_read_buffer].
  fold pos buf buf'. cbv zeta. rewrite Lb, length_app.
  set (n := Nat.min (length buf - (pos + length a)) (length b)).
  replace (Nat.min (length buf - pos) (length a + length b)) with (length a + n)%nat by lia.
  replace (pos + (length a + n))%nat with (pos + length a + n)%nat by lia.
  assert (E1 : take (length a + n) (a ++ b) = a ++ take n b) by (by rewrite take_app_add).
  assert (E2 : drop (length a + n) (a ++ b) = drop n b) by (by rewrite drop_app_add).
  assert (E3 : take (pos + length a) buf' = take pos buf ++ a).
  { unfold buf'. rewrite List.app_assoc. apply take_app_length'. rewrite length_app, length_take. lia. }
  assert (E4 : drop (pos + length a + n) buf' = drop (pos + length a + n) buf).
  { unfold buf'. rewrite List.app_assoc, drop_app_ge; [|rewrite length_app, length_take; lia]. rewrite length_app, length_take, drop_drop. f_equal. lia. }
  rewrite E1, E2, E3, E4, <- !List.app_assoc. done.
Qed.

(** ** A turn *)

(** What follows the copying, which does not look at the bytes left. *)
Definition finish (now : Z) (d : D) (node : option PublicKey) (st : reading) (full : bool) : prog manager (result reading PeerHandleError) :=
  t ← (if full then process_buffer d else mret (Proceed None));
  match t with
  | Fail e => mret (Err e)
  | Skip => mret (Ok (mkReading node (msgs_to_forward st) (pause_read st)))
  | Proceed msg_to_handle =>
      p ← get_peer d;
      let st := mkReading node (msgs_to_forward st) (OUTBOUND_BUFFER_LIMIT_READ_PAUSE <? queue_len p)%nat in
      match msg_to_handle with
      | None => mret (Ok st)
      | Some message =>
          r ← handle_message now d message;
          match r with
          | Err (IsPeerHandleError e) => mret (Err e)
          | Err (IsLightningError e) => o ← with_peer d (handle_lightning_error e); mret match o with Some e => Err e | None => Ok st end
          | Ok (Some msg) => mret (Ok (mkReading node (msgs_to_forward st ++ [msg]) (pause_read st)))
          | Ok None => mret (Ok st)
          end
      end
  end.

Definition with_rest (rest : bytes) (x : outcome (result reading PeerHandleError) * manager) : outcome (result (bytes * reading) PeerHandleError) * manager :=
  (match x.1 with Ret (Ok st) => Ret (Ok (rest, st)) | Ret (Err e) => Ret (Err e) | Panic why => Panic why | OutOfFuel => OutOfFuel end, x.2).

Definition node_of (st : reading) (p : Peer.t) : option PublicKey := match peer_node_id st with Some k => Some k | None => Peer.their_node_id p end.

Lemma finish_rest now d node st full rest s :
  (t ← (if full : bool then process_buffer d else mret (Proceed None));
   match t with
   | Fail e => mret (Err e)
   | Skip => mret (Ok (rest, mkReading node (msgs_to_forward st) (pause_read st)))
   | Proceed msg_to_handle =>
       p ← get_peer d;
       let pause := (OUTBOUND_BUFFER_LIMIT_READ_PAUSE <? queue_len p)%nat in
       let st := mkReading node (msgs_to_forward st) pause in
       match msg_to_handle with
       | None => mret (Ok (rest, st))
       | Some message =>
           r ← handle_message now d message;
           match r with
           | Err (IsPeerHandleError e) => mret (Err e)
           | Err (IsLightningError e) => o ← with_peer d (handle_lightning_error e); mret match o with Some e => Err e | None => Ok (rest, st) end
           | Ok (Some msg) => mret (Ok (rest, mkReading node (msgs_to_forward st ++ [msg]) pause))
           | Ok None => mret (Ok (rest, st))
           end
       end
   end) s = with_rest rest (finish now d node st full s).
Proof.
  unfold finish, mbind, prog_bind. destruct ((if full then process_buffer d else mret (Proceed None)) s) as [[[[m|]| |e]|why|] s1]; try done.
  - destruct (get_peer d s1) as [[p|why|] s2]; try done. destruct (handle_message now d m s2) as [[[[m'|]|[e|e]]|why|] s3]; try done.
    destruct (with_peer d (handle_lightning_error e) s3) as [[[e'|]|why|] s4]; done.
  - by destruct (get_peer d s1) as [[p|why|] s2].
Qed.

Lemma read_turn_eq now d data st s p :
  peers s !! d = Some p ->
  read_turn now d data st s =
  match fill_buffer data p with
  | (Ret (full, rest), p') => with_rest rest (finish now d (node_of st p) st full (set_peers (<[d := p']> (peers s)) s))
  | (Panic why, p') => (Panic why, set_peers (<[d := p']> (peers s)) s)
  | (OutOfFuel, p') => (OutOfFuel, set_peers (<[d := p']> (peers s)) s)
  end.
Proof.
  intros E. unfold read_turn. unfold mbind at 1, prog_bind at 1, get_peer at 1. rewrite E. cbn [Prelude.unwrap].
  unfold mbind at 1, prog_bind at 1, with_peer at 1. rewrite E. destruct (fill_buffer data p) as [[[full rest]|why|] p']; [|done|done].
  apply finish_rest.
Qed.

(** ** Readings that differ only in whether to pause *)

Definition similar (st st' : reading) : Prop := peer_node_id st = peer_node_id st' /\ msgs_to_forward st = msgs_to_forward st'.

Definition same {A} (R : A -> A -> Prop) (x y : outcome (result A PeerHandleError) * manager) : Prop :=
  x.2 = y.2 /\
  match x.1, y.1 with
  | Ret (Ok a), Ret (Ok b) => R a b
  | Ret (Err e), Ret (Err e') => e = e'
  | Panic why, Panic why' => why = why'
  | OutOfFuel, OutOfFuel => True
  | _, _ => False
  end.

Lemma finish_similar now d node st st' full s : msgs_to_forward st = msgs_to_forward st' -> same similar (finish now d node st full s) (finish now d node st' full s).
Proof.
  intros Hm. unfold finish, mbind, prog_bind. destruct ((if full then process_buffer d else mret (Proceed None)) s) as [[[[m|]| |e]|why|] s1]; try done.
  - destruct (get_peer d s1) as [[p|why|] s2]; try done. destruct (handle_message now d m s2) as [[[[m'|]|[e|e]]|why|] s3]; try done; cbn.
    + split; [done|]. split; [done|]. cbn. by rewrite Hm.
    + destruct (with_peer d (handle_lightning_error e) s3) as [[[e'|]|why|] s4]; done.
  - by destruct (get_peer d s1) as [[p|why|] s2].
Qed.

(** ** The loop *)

(** The loop after a turn. *)
Definition go_on (fuel : nat) (now : Z) (d : D) (rest : bytes) (x : outcome (result reading PeerHandleError) * manager) : outcome (result reading PeerHandleError) * manager :=
  match x with
  | (Ret (Ok st), s) => read_loop fuel now d rest st s
  | _ => x
  end.

Lemma read_loop_step fuel now d data st s :
  data <> [] -> read_loop (S fuel) now d data st s =
  match peers s !! d with
  | None => (Panic "no peer for the descriptor", s)
  | Some p =>
      match fill_buffer data p with
      | (Ret (full, rest), p') => go_on fuel now d rest (finish now d (node_of st p) st full (set_peers (<[d := p']> (peers s)) s))
      | (Panic why, p') => (Panic why, set_peers (<[d := p']> (peers s)) s)
      | (OutOfFuel, p') => (OutOfFuel, set_peers (<[d := p']> (peers s)) s)
      end
  end.
Proof.
  intros Hd. destruct data as [|b data]; [done|]. cbn [read_loop]. unfold bind_ok, mbind at 1, prog_bind at 1.
  destruct (peers s !! d) as [p|] eqn:E.
  - rewrite (read_turn_eq _ _ _ _ _ p E). destruct (fill_buffer (b :: data) p) as [[[full rest]|why|] p']; [|done|done].
    unfold with_rest, go_on. by destruct (finish _ _ _ _ _ _) as [[[st'|e]|why|] s'].
  - unfold read_turn, mbind, prog_bind, get_peer. by rewrite E.
Qed.

Lemma node_of_similar st st' p : similar st st' -> node_of st p = node_of st' p.
Proof. intros [Hn _]. unfold node_of. by rewrite Hn. Qed.

Lemma fill_shorter (data : bytes) p full rest p' : data <> [] -> fill_buffer data p = (Ret (full, rest), p') -> (length rest < length data)%nat.
Proof.
  intros Hd E. destruct (Nat.eq_dec (room p) 0%nat) as [Hr|Hr].
  - destruct (fill_no_room data p Hr) as [why Hw]. by rewrite Hw in E.
  - rewrite fill_room in E by lia. injection E as <- <- <-. rewrite length_drop. destruct data; [done|]. cbn [length]. lia.
Qed.

Lemma same_go_on fuel fuel' now d rest x y :
  (forall st st' s, similar st st' -> same similar (read_loop fuel now d rest st s) (read_loop fuel' now d rest st' s)) ->
  same similar x y -> same similar (go_on fuel now d rest x) (go_on fuel' now d rest y).
Proof.
  intros Hl [Es Ho]. destruct x as [[[st|e]|why|] s], y as [[[st'|e']|why'|] s']; cbn in *; subst; try done. by apply Hl.
Qed.

(** The loop does not depend on its fuel, when that is enough, or on what it said about pausing. *)
Lemma read_loop_similar fuel fuel' now d data st st' s :
  (length data <= fuel)%nat -> (length data <= fuel')%nat -> similar st st' ->
  same similar (read_loop fuel now d data st s) (read_loop fuel' now d data st' s).
Proof.
  revert fuel' data st st' s. induction fuel as [|fuel IH]; intros fuel' data st st' s Hl Hl' Hst.
  - destruct data; [|cbn in Hl; lia]. by destruct fuel'.
  - destruct data as [|b data]; [by destruct fuel'|]. destruct fuel' as [|fuel']; [cbn in Hl'; lia|]. rewrite !read_loop_step by done.
    destruct (peers s !! d) as [p|]; [|done]. destruct (fill_buffer (b :: data) p) as [[[full rest]|why|] p'] eqn:E; [|done|done].
    apply fill_shorter in E; [|done]. rewrite (node_of_similar st st' p Hst). cbn [length] in *. apply same_go_on; [|apply finish_similar, Hst].
    intros. apply IH; [lia|lia|done].
Qed.

Lemma same_refl (x : outcome (result reading PeerHandleError) * manager) : same similar x x.
Proof. destruct x as [[[?|?]|?|] ?]; by split. Qed.

Lemma read_nothing fuel now d st s : read_loop fuel now d [] st s = (Ret (Ok st), s).
Proof. by destruct fuel. Qed.
Lemma go_on_nothing fuel now d x : go_on fuel now d [] x = x.
Proof. destruct x as [[[st|e]|why|] s]; try done. apply read_nothing. Qed.

(** A piece that does not fill the buffer changes nothing but the buffer. *)
Lemma finish_waiting now d node st p s :
  finish now d node st false (set_peers (<[d := p]> (peers s)) s) =
  (Ret (Ok (mkReading node (msgs_to_forward st) (OUTBOUND_BUFFER_LIMIT_READ_PAUSE <? queue_len p)%nat)), set_peers (<[d := p]> (peers s)) s).
Proof. unfold finish, mbind, prog_bind, mret, prog_ret, get_peer. cbn [peers set_peers]. by rewrite lookup_insert_eq. Qed.

Lemma read_loop_app fuel fuel' fuel2 now d a b st st' s :
  (length a <= fuel)%nat -> (length (a ++ b) <= fuel')%nat -> (length b <= fuel2)%nat -> b <> [] -> similar st' st ->
  same similar (read_loop fuel' now d (a ++ b) st' s) (go_on fuel2 now d b (read_loop fuel now d a st s)).
Proof.
  revert fuel' a st st' s. induction fuel as [|fuel IH]; intros fuel' a st st' s Ha Hab Hb Hbne Hst.
  { destruct a; [|cbn in Ha; lia]. by apply read_loop_similar. }
  destruct a as [|x a]; [by apply read_loop_similar|]. set (c := x :: a) in *. destruct fuel' as [|fuel']; [cbn in Hab; lia|].
  rewrite !read_loop_step by done. destruct (peers s !! d) as [p|] eqn:Ep; [|done].
  destruct (Nat.eq_dec (room p) 0%nat) as [Hr0|Hr0]; [destruct (fill_no_room [] p Hr0) as [why Hw]; by rewrite !Hw|].
  rewrite (node_of_similar _ _ p Hst). destruct (Nat.le_gt_cases (room p) (length c)) as [Hr|Hr].
  - destruct (fill_long c b p ltac:(lia)) as (full & rest & p' & -> & -> & Hl). set (s1 := set_peers _ _).
    pose proof (finish_similar now d (node_of st p) st' st full s1 (proj2 Hst)) as [Es Ho].
    destruct (finish now d (node_of st p) st' full s1) as [[[st1|e]|why|] s2], (finish now d (node_of st p) st full s1) as [[[st2|e']|why'|] s2'];
      cbn in *; subst; try done.
    apply IH; [lia|rewrite length_app in *; lia|done|done|done].
  - destruct (fill_short c b p Hr) as (p' & -> & E & Eid & Eq). rewrite E, finish_waiting. cbn [go_on]. rewrite read_nothing. cbn [go_on].
    destruct fuel2 as [|fuel2]; [by destruct b; cbn in Hb; [|lia]|]. rewrite read_loop_step by done. cbn [peers set_peers]. rewrite lookup_insert_eq.
    destruct (fill_buffer b p') as [[[full rest]|why|] p2] eqn:Ef; rewrite ?insert_insert_eq; [|done|done].
    apply fill_shorter in Ef; [|done]. replace (node_of (mkReading (node_of st p) _ _) p') with (node_of st p)
      by (unfold node_of; cbn; rewrite Eid; by repeat case_match).
    apply same_go_on; [|apply (finish_similar _ _ _ st'); apply Hst].
    intros. rewrite length_app in Hab. apply read_loop_similar; [lia|lia|done].
Qed.

End PeerStream.
