(* ===== verification/PeerSpec.v ===== *)
(** * Connections are handled safely

    Whatever bytes peers send, however sockets take what is written and whatever the
    handlers ask for, the manager's two maps describe the same connections, no packet leaves
    an encryptor or a buffer in a state the next one would panic on, and the loops end.
    Two panics are left, and named: a message too long to encrypt, and an addition that
    overflows. *)

From S2P Require Import Prelude Text HexUtils Bytes ChaCha20 Poly1305 Stream Ser SerLaws Aead Tlv Features Msgs OnionHop ChannelMsgs ChannelMsgsLaws GossipMsgs Wire Octets Noise NoiseSafe Onion OnionError GossipSync Graph PeerManager.

Local Open Scope Z_scope.

(** ** Programs that panic only in named ways *)

Definition overflow : string := "attempt to add with overflow".
Definition named_panic (why : string) : Prop := why = oversize \/ why = overflow.

Definition triple {S A} (P : S -> Prop) (m : prog S A) (Q : A -> S -> Prop) : Prop :=
  forall s, P s -> match m s with (Ret a, s') => Q a s' | (Panic why, _) => named_panic why | (OutOfFuel, _) => False end.

Section Triple.
Context {S : Type}.
Implicit Types P : S -> Prop.

Lemma triple_ret {A} P (a : A) (Q : A -> S -> Prop) : (forall s, P s -> Q a s) -> triple P (mret a) Q.
Proof. intros HQ s Hs. by apply HQ. Qed.

Lemma triple_bind {A B} P (m : prog S A) (f : A -> prog S B) R Q :
  triple P m R -> (forall a, triple (R a) (f a) Q) -> triple P (m ≫= f) Q.
Proof.
  intros Hm Hf s Hs. unfold mbind, prog_bind. specialize (Hm s Hs). destruct (m s) as [[a|w|] s']; [by apply Hf|done|done].
Qed.

Lemma triple_get {A} P (f : S -> prog S A) Q : (forall s, P s -> triple (fun s' => s' = s) (f s) Q) -> triple P (get ≫= f) Q.
Proof. intros Hf s Hs. exact (Hf s Hs s eq_refl). Qed.

Lemma triple_modify P (g : S -> S) (Q : unit -> S -> Prop) : (forall s, P s -> Q tt (g s)) -> triple P (modify g) Q.
Proof. intros HQ s Hs. by apply HQ. Qed.

Lemma triple_put P (x : S) (Q : unit -> S -> Prop) : (forall s, P s -> Q tt x) -> triple P (put x) Q.
Proof. intros HQ s Hs. by apply (HQ s). Qed.

Lemma triple_lift {A} P (o : outcome A) (Q : A -> S -> Prop) :
  (forall s, P s -> match o with Ret a => Q a s | Panic why => named_panic why | OutOfFuel => False end) -> triple P (lift o) Q.
Proof. intros HQ s Hs. specialize (HQ s Hs). unfold lift. by destruct o. Qed.

Lemma triple_conseq {A} P P' (m : prog S A) (Q Q' : A -> S -> Prop) :
  (forall s, P s -> P' s) -> triple P' m Q' -> (forall a s, Q' a s -> Q a s) -> triple P m Q.
Proof. intros HP Hm HQ s Hs. specialize (Hm s (HP s Hs)). destruct (m s) as [[a|w|] s']; [by apply HQ|done|done]. Qed.

Lemma triple_pre {A} P P' (m : prog S A) (Q : A -> S -> Prop) : (forall s, P s -> P' s) -> triple P' m Q -> triple P m Q.
Proof. intros HP Hm. by eapply triple_conseq. Qed.

Lemma triple_post {A} P (m : prog S A) (Q Q' : A -> S -> Prop) : triple P m Q' -> (forall a s, Q' a s -> Q a s) -> triple P m Q.
Proof. intros Hm HQ. by eapply triple_conseq. Qed.

(** A known start state. *)
Lemma triple_here {A} P x (m : prog S A) (Q : A -> S -> Prop) :
  P x -> triple (fun s => P s /\ s = x) m Q -> triple (fun s => s = x) m Q.
Proof. intros Hx Hm s ->. by apply Hm. Qed.

(** A hypothesis about the start state. *)
Lemma triple_fact {A} (F : Prop) P (m : prog S A) (Q : A -> S -> Prop) :
  (forall s, P s -> F) -> (F -> triple P m Q) -> triple P m Q.
Proof. intros HF Hm s Hs. exact (Hm (HF s Hs) s Hs). Qed.

Lemma triple_foldM {A B} (I : B -> S -> Prop) (f : B -> A -> prog S B) (l : list A) b :
  (forall b a, a ∈ l -> triple (I b) (f b a) I) -> triple (I b) (foldM f b l) I.
Proof.
  revert b. induction l as [|a l IH]; intros b Hf; [by apply triple_ret|]. cbn [foldM]. eapply triple_bind; [apply Hf; set_solver|].
  intros b'. apply IH. intros b'' a' Ha'. apply Hf. set_solver.
Qed.

(** A program run on a known state. *)
Definition runs {A} (m : prog S A) (s : S) (Q : A -> S -> Prop) : Prop :=
  match m s with (Ret a, s') => Q a s' | (Panic why, _) => named_panic why | (OutOfFuel, _) => False end.

Lemma runs_triple {A} P (m : prog S A) (s : S) Q : triple P m Q -> P s -> runs m s Q.
Proof. intros Hm Hs. exact (Hm s Hs). Qed.
Lemma runs_bind {A B} (m : prog S A) (f : A -> prog S B) (s : S) (R : A -> S -> Prop) Q :
  runs m s R -> (forall a s', R a s' -> runs (f a) s' Q) -> runs (m ≫= f) s Q.
Proof. unfold runs, mbind, prog_bind. intros Hm Hf. destruct (m s) as [[a|why|] s']; [by apply Hf|done|done]. Qed.
Lemma runs_eq {A B} (m : prog S A) (f : A -> prog S B) (s : S) a s' Q : m s = (Ret a, s') -> runs (f a) s' Q -> runs (m ≫= f) s Q.
Proof. unfold runs, mbind, prog_bind. by intros ->. Qed.
End Triple.

Create HintDb triple.
#[export] Hint Resolve triple_ret triple_modify triple_lift : triple.

(** ** What is asked of the handlers *)

Section Laws.
Context `{Secp} `{CustomMessageReader}.

(** What can be written to a peer: its encoding is bytes. *)
Definition sendable (m : Message) : Prop := all_u8 (concat (message_write m)).
Definition error_sendable (e : LightningError) : Prop :=
  match action e with
  | SendErrorMessage msg => sendable (MError msg)
  | SendWarningMessage msg _ => sendable (MWarning msg)
  | _ => True
  end.
Definition event_sendable (e : MessageSendEvent) : Prop :=
  match e with
  | BroadcastChannelAnnouncement msg update_msg => ChannelAnnouncement.ok msg /\ ChannelUpdate.ok update_msg
  | BroadcastNodeAnnouncement msg => NodeAnnouncement.ok msg
  | BroadcastChannelUpdate msg => ChannelUpdate.ok msg
  | HandleError _ (DisconnectPeer (Some msg)) => sendable (MError msg)
  | _ => forall k msgs, message_for e = Some (k, msgs) -> Forall sendable msgs
  end.

(** A program of a handler returns, keeps the handler's invariant, and asks for nothing that
    cannot be sent. *)
Definition handler_ok {RM A} (inv : RM -> Prop) (m : prog RM (result A LightningError)) : Prop :=
  forall r, inv r -> exists res r', m r = (Ret res, r') /\ inv r' /\ (forall e, res = Err e -> error_sendable e).

Class RoutingLaws (RM : Type) `{!RoutingMessageHandler RM} (inv : RM -> Prop) (clock : Z -> Prop) := {
  law_node_announcement now msg : clock now -> NodeAnnouncement.ok msg -> handler_ok inv (route_node_announcement now msg);
  law_channel_announcement now msg : clock now -> ChannelAnnouncement.ok msg -> handler_ok inv (route_channel_announcement now msg);
  law_channel_update now msg : clock now -> ChannelUpdate.ok msg -> handler_ok inv (route_channel_update now msg);
  law_next_channels c n r : inv r -> 0 <= n ->
    Z.of_nat (length (route_next_channels c n r)) <= n /\
    Forall (fun '(a, u, v) => sendable (MChannelAnnouncement a) /\
      (forall m, u = Some m -> sendable (MChannelUpdate m)) /\ (forall m, v = Some m -> sendable (MChannelUpdate m)))
      (route_next_channels c n r);
  law_next_nodes k n r : inv r -> 0 <= n ->
    Z.of_nat (length (route_next_nodes k n r)) <= n /\ Forall (fun a => sendable (MNodeAnnouncement a)) (route_next_nodes k n r);
  law_peer_connected now k msg r : clock now -> inv r -> exists r', route_peer_connected now k msg r = (Ret tt, r') /\ inv r';
  law_reply_channel_range k msg : handler_ok inv (route_reply_channel_range k msg);
  law_reply_scids_end k msg : handler_ok inv (route_reply_scids_end k msg);
  law_query_channel_range k msg : QueryChannelRange.ok msg -> handler_ok inv (route_query_channel_range k msg);
  law_query_scids k msg : handler_ok inv (route_query_scids k msg);
  law_route_events r : inv r -> Forall event_sendable (route_events r).1 /\ inv (route_events r).2;
}.

(** What the channel handler is called with is in range. *)
Definition call_ok (call : ChannelCall) : Prop :=
  match call with
  | HandleOpenChannel _ msg => open_in_range msg
  | HandleAcceptChannel _ msg => accept_in_range msg
  | HandleFundingCreated msg => FundingCreated.ok msg
  | HandleFundingSigned msg => FundingSigned.ok msg
  | HandleChannelReady msg => ChannelReady.ok msg
  | HandleShutdown _ msg => Shutdown.ok msg
  | HandleClosingSigned msg => ClosingSigned.ok msg
  | HandleUpdateAddHTLC msg => UpdateAddHTLC.ok msg
  | HandleUpdateFulfillHTLC msg => UpdateFulfillHTLC.ok msg
  | HandleUpdateFailHTLC msg => UpdateFailHTLC.ok msg
  | HandleUpdateFailMalformedHTLC msg => UpdateFailMalformedHTLC.ok msg
  | HandleCommitmentSigned msg => CommitmentSigned.ok msg
  | HandleRevokeAndACK msg => RevokeAndACK.ok msg
  | HandleUpdateFee msg => UpdateFee.ok msg
  | HandleChannelReestablish msg => ChannelReestablish.ok msg
  | HandleAnnouncementSignatures msg => AnnouncementSignatures.ok msg
  | HandleChannelUpdate msg => ChannelUpdate.ok msg
  | HandlePeerError msg => ErrorMessage.ok msg
  | PeerConnected msg => Init.ok msg
  | PeerDisconnected _ => True
  end.

(** Who is connected, as the calls tell it: a peer is connected once before its messages are
    handled; it may be reported gone without ever having been connected. *)
Definition permitted (live : gset NodeId) (n : NodeId) (call : ChannelCall) : Prop :=
  match call with
  | PeerConnected _ => n ∉ live
  | PeerDisconnected _ => True
  | _ => n ∈ live
  end.
Definition live_after (live : gset NodeId) (n : NodeId) (call : ChannelCall) : gset NodeId :=
  match call with
  | PeerConnected _ => {[n]} ∪ live
  | PeerDisconnected _ => live ∖ {[n]}
  | _ => live
  end.

Class ChannelLaws (CM : Type) `{!ChannelMessageHandler CM} (chan_inv : gset NodeId -> CM -> Prop) := {
  law_chan_call live k call c :
    chan_inv live c -> call_ok call -> permitted live (from_pubkey k) call -> chan_inv (live_after live (from_pubkey k) call) (chan_call k call c);
  law_chan_events live c : chan_inv live c -> Forall event_sendable (chan_events c).1 /\ chan_inv live (chan_events c).2;
}.

Class CustomHandlerLaws (X : Type) `{!CustomMessageHandler X} := {
  law_custom_handle msg k : handler_ok (fun _ => True) (custom_handle msg k);
  law_custom_pending x : Forall (fun m => sendable (Custom m.2)) (custom_pending x).1;
}.
End Laws.

Class PeerLaws `{NoiseCrypto} `{!PeerCrypto} := { sk_of_digest m : is_Some (sk_from_slice (sha256 m)) }.

(** ** One peer *)

Section Peer.
Context `{SecpLaws} `{!NoiseCrypto} `{!NoiseLaws} `{!FixedTimeEq} `{!FixedTimeEqLaws} `{!PeerCrypto} `{CustomMessageReader}.

Abbreviation encryptor := Peer.channel_encryptor.

(** What the read buffer waits for, and what has been read of it. *)
Definition frame_ok (p : Peer.t) : Prop :=
  (Peer.pending_read_buffer_pos p < length (Peer.pending_read_buffer p))%nat /\ all_u8 (Peer.pending_read_buffer p) /\
  match noise_state (encryptor p) with
  | InProgress PostActTwo _ _ => length (Peer.pending_read_buffer p) = 66%nat
  | InProgress _ _ _ => length (Peer.pending_read_buffer p) = 50%nat
  | Finished k =>
      if Peer.pending_read_is_header p then length (Peer.pending_read_buffer p) = 18%nat
      else (18 <= length (Peer.pending_read_buffer p))%nat /\ Z.of_nat (length (Peer.pending_read_buffer p)) <= LN_MAX_MSG_LEN + 16 /\ rn k <= 1000
  end.

(** The offset is into the first buffer of the queue. *)
Definition queue_ok (p : Peer.t) : Prop :=
  match Peer.pending_outbound_buffer p with
  | [] => Peer.pending_outbound_buffer_first_msg_offset p = 0%nat
  | buff :: _ => (Peer.pending_outbound_buffer_first_msg_offset p <= length buff)%nat
  end.

(** The id of a peer is known exactly when the handshake is over; before, nothing but the
    acts is sent to it. *)
Definition id_ok (p : Peer.t) : Prop :=
  match Peer.their_node_id p with
  | Some _ => exists k, noise_state (encryptor p) = Finished k
  | None => is_ready_for_encryption (encryptor p) = false /\ Peer.their_features p = None /\ Peer.sync_status p = NoSyncRequested /\
            Peer.msgs_sent_since_pong p = 0 /\ forall a, Peer.their_net_address p = Some a -> NetAddress.ok a
  end.

Definition counts_ok (p : Peer.t) : Prop :=
  0 <= Peer.msgs_sent_since_pong p /\ -1 <= Peer.awaiting_pong_timer_tick_intervals p <= 127.

Definition peer_inv (p : Peer.t) : Prop :=
  encryptor_ok (encryptor p) /\ frame_ok p /\ queue_ok p /\ id_ok p /\ counts_ok p.

(** Who a peer is: its id once that is known, and whether its [Init] has arrived. *)
Abbreviation who := (option PublicKey * bool)%type.
Definition identity (p : Peer.t) : who := (Peer.their_node_id p, bool_decide (Peer.their_features p <> None)).

(** A peer in order, known to be this one. *)
Definition known_as (w : who) (p : Peer.t) : Prop := peer_inv p /\ identity p = w.

Lemma identity_of p id up : Peer.their_node_id p = id -> bool_decide (Peer.their_features p <> None) = up -> identity p = (id, up).
Proof. by intros <- <-. Qed.

(** A warning about no channel. *)
Lemma text_sendable data : sendable (MWarning (WarningMessage.mk (replicate 32 0) data)).
Proof.
  unfold sendable. cbn [message_write]. unfold write. apply u8_app; [by apply octets|]. cbn [c_write WarningMessage.codec]. apply u8_app.
  - apply (octets (c := arrayc 32)). split; [done|apply zeros_u8].
  - apply u8_app; [by apply octets|apply u8_one, bytes_of_u8].
Qed.

Lemma known_finished id up p : known_as (Some id, up) p -> exists k, noise_state (encryptor p) = Finished k /\ keys_ok k.
Proof.
  intros [(He & _ & _ & Hi & _) [= Hid Hup]]. unfold id_ok in Hi. rewrite Hid in Hi. destruct Hi as [k Hk]. exists k. split; [done|].
  unfold encryptor_ok in He. by rewrite Hk in He.
Qed.

Lemma queue_snoc (l : list bytes) (ct : bytes) (offset : nat) :
  match l with [] => offset = 0%nat | buff :: _ => (offset <= length buff)%nat end ->
  match l ++ [ct] with [] => offset = 0%nat | buff :: _ => (offset <= length buff)%nat end.
Proof. destruct l; cbn; [intros ->; lia|done]. Qed.

(** What enqueueing changes. *)
Definition enqueued (n : nat) (p p' : Peer.t) : Prop :=
  queue_len p' = (queue_len p + n)%nat /\ Peer.msgs_sent_since_pong p' = Peer.msgs_sent_since_pong p + Z.of_nat n /\
  Peer.their_features p' = Peer.their_features p /\ Peer.awaiting_write_event p' = Peer.awaiting_write_event p /\
  Peer.awaiting_pong_timer_tick_intervals p' = Peer.awaiting_pong_timer_tick_intervals p.

Lemma enqueued_refl p : enqueued 0 p p.
Proof. unfold enqueued. split_and!; (done || lia). Qed.
Lemma enqueued_trans a b p q r : enqueued a p q -> enqueued b q r -> enqueued (a + b) p r.
Proof. intros (A1 & A2 & A3 & A4 & A5) (B1 & B2 & B3 & B4 & B5). unfold enqueued. split_and!; (congruence || lia). Qed.

Lemma enqueue_encoded_ok id up (bs : bytes) p0 :
  all_u8 bs ->
  triple (fun p => known_as (Some id, up) p /\ p = p0) (enqueue_encoded_message bs) (fun _ p => known_as (Some id, up) p /\ enqueued 1 p0 p).
Proof.
  intros Hu p [Hp ->]. destruct (known_finished _ _ _ Hp) as (k & Ek & Hk). destruct Hp as [(He & Hf & Hq & Hi & Hc) [= Hid Hup]].
  unfold enqueue_encoded_message, mbind, prog_bind, modify, encrypting. cbn [Peer.channel_encryptor Peer.set_msgs_sent_since_pong].
  destruct (encrypt_total bs (encryptor p0) k Ek Hk Hu) as [[_ E]|(ct & k' & E & Hk' & Hrn & _)]; rewrite E; [by left|].
  split; [|unfold enqueued, queue_len; cbn; rewrite length_app; cbn; split_and!; (done || lia)].
  split; [|by apply identity_of]. split_and!.
  - exact Hk'.
  - destruct Hf as (Hpos & Hb & Hm). split_and!; [exact Hpos|exact Hb|]. cbn. rewrite Ek in Hm. destruct (Peer.pending_read_is_header p0); [done|].
    by rewrite Hrn.
  - unfold queue_ok. cbn. by apply queue_snoc.
  - unfold id_ok in *. cbn. rewrite Hid in *. by exists k'.
  - unfold counts_ok in *. cbn. lia.
Qed.

Lemma enqueue_message_ok id up m p0 :
  sendable m ->
  triple (fun p => known_as (Some id, up) p /\ p = p0) (enqueue_message m) (fun _ p => known_as (Some id, up) p /\ enqueued 1 p0 p).
Proof.
  intros Hm. unfold enqueue_message. apply triple_get. intros p [Hkn Ep]. subst p0. pose proof Hkn as [Hp [= Hid Hup]].
  eapply triple_bind; [apply triple_lift with (Q := fun _ p' => known_as (Some id, up) p' /\ p' = p)|].
  - intros s ->. rewrite Hid. by split.
  - intros ?. by apply enqueue_encoded_ok.
Qed.

(** Changes that keep a peer in order. *)
Lemma inv_sync st p id up : known_as (Some id, up) p -> known_as (Some id, up) (Peer.set_sync_status st p).
Proof. intros [(He & Hf & Hq & Hi & Hc) [= Hid Hup]]. split; [|by apply identity_of]. split_and!; try done. unfold id_ok in *. cbn. by rewrite Hid in *. Qed.
Lemma inv_intervals n p id : known_as id p -> -1 <= n <= 127 -> known_as id (Peer.set_awaiting_pong_timer_tick_intervals n p).
Proof. intros [(He & Hf & Hq & Hi & Hc) Hid] Hn. split; [|done]. split_and!; try done. unfold counts_ok in *. cbn. lia. Qed.
Lemma inv_features f p id up : known_as (Some id, up) p -> known_as (Some id, true) (Peer.set_their_features (Some f) p).
Proof.
  intros [(He & Hf & Hq & Hi & Hc) [= Hid Hup]]. split; [|by apply identity_of]. split_and!; try done. unfold id_ok in *. cbn. by rewrite Hid in *.
Qed.
Lemma inv_received b p id : known_as id p -> known_as id (Peer.set_received_message_since_timer_tick b p).
Proof. by intros [(He & Hf & Hq & Hi & Hc) Hid]. Qed.
Lemma inv_filter b p id : known_as id p -> known_as id (Peer.set_sent_gossip_timestamp_filter b p).
Proof. by intros [(He & Hf & Hq & Hi & Hc) Hid]. Qed.
Lemma inv_awaiting b p id : known_as id p -> known_as id (Peer.set_awaiting_write_event b p).
Proof. by intros [(He & Hf & Hq & Hi & Hc) Hid]. Qed.
Lemma inv_sent n p id up : known_as (Some id, up) p -> 0 <= n -> known_as (Some id, up) (Peer.set_msgs_sent_since_pong n p).
Proof.
  intros [(He & Hf & Hq & Hi & Hc) [= Hid Hup]] Hn. split; [|by apply identity_of]. split_and!; try done; [unfold id_ok in *; cbn; by rewrite Hid in *|].
  unfold counts_ok in *. cbn. lia.
Qed.
End Peer.

#[export] Hint Resolve inv_sync inv_intervals inv_features inv_received inv_filter inv_awaiting inv_sent : triple.
