(* ===== verification/PeerSafe.v ===== *)
(** * The manager keeps its peers in order

    The parts of [PeerManager] one by one: writing and the initial sync, which ends; the
    handshake, framing and decoding of whatever bytes arrive; and the handling of messages,
    events and timers. *)

From S2P Require Import Prelude Text HexUtils Bytes ChaCha20 Poly1305 Stream Ser SerLaws Aead Tlv Features Msgs OnionHop ChannelMsgs ChannelMsgsLaws GossipMsgs Wire Octets Noise NoiseSafe Onion OnionError GossipSync Graph PeerManager PeerSpec.

Local Open Scope Z_scope.

Section PeerSafe.
Context `{SecpLaws} `{!NoiseCrypto} `{!NoiseLaws} `{!FixedTimeEq} `{!FixedTimeEqLaws} `{!PeerCrypto} `{!PeerLaws} `{Hcmr : CustomMessageReader}.
Context {custom_ok : CustomMessage -> Prop} `{!CustomLaws custom_ok}.
Context {CM RM X D W : Type} `{Countable D}.
Context `{!ChannelMessageHandler CM, !RoutingMessageHandler RM, !CustomMessageHandler X, !SocketDescriptor D W}.
Context {chan_inv : gset NodeId -> CM -> Prop} {route_inv : RM -> Prop} {clock : Z -> Prop}.
Context `{!ChannelLaws CM chan_inv, !RoutingLaws RM route_inv clock, !CustomHandlerLaws X, !SocketLaws D W}.

Abbreviation who := (option PublicKey * bool)%type.

(** ** Programs that only add to the queue *)

Definition adds (id : PublicKey) (n : nat) (m : prog Peer.t unit) : Prop :=
  forall up p0, triple (fun p => known_as (Some id, up) p /\ p = p0) m (fun _ p => known_as (Some id, up) p /\ exists k, (k <= n)%nat /\ enqueued k p0 p).

Lemma adds_bind id a b m f : adds id a m -> adds id b f -> adds id (a + b) (_ ← m; f).
Proof.
  intros Hm Hf up p0. eapply triple_bind; [apply Hm|]. intros [] p [Hp (k & Hk & He)].
  pose proof (Hf up p p (conj Hp eq_refl)) as Hr. destruct (f p) as [[[]|w|] p']; [|done..]. destruct Hr as [Hp' (k' & Hk' & He')].
  split; [done|]. exists (k + k')%nat. split; [lia|]. by eapply enqueued_trans.
Qed.

Lemma adds_ret id n : adds id n (mret tt).
Proof. intros up p0 p [Hp ->]. split; [done|]. exists 0%nat. split; [lia|]. apply enqueued_refl. Qed.

Lemma adds_weaken id a b m : (a <= b)%nat -> adds id a m -> adds id b m.
Proof. intros Hab Hm up p0. eapply triple_post; [apply Hm|]. intros [] p [Hp (k & Hk & He)]. split; [done|]. exists k. split; [lia|done]. Qed.

Lemma adds_message id m : sendable m -> adds id 1 (enqueue_message m).
Proof. intros Hm up p0. eapply triple_post; [by apply enqueue_message_ok|]. intros [] p [Hp He]. split; [done|]. by exists 1%nat. Qed.

Lemma adds_sync id st : adds id 0 (modify (Peer.set_sync_status st)).
Proof. intros up p0. apply triple_modify. intros p [Hp ->]. split; [auto with triple|]. exists 0%nat. split; [lia|]. exact (enqueued_refl p0). Qed.

Lemma adds_all id ms : Forall sendable ms -> adds id (length ms) (enqueue_all ms).
Proof.
  induction 1 as [|m ms Hm _ IH]; [apply adds_ret|]. cbn [enqueue_all length]. apply (adds_bind id 1); [by apply adds_message|done].
Qed.

Lemma add64_named x y : match add64 x y with Ret _ => True | Panic why => named_panic why | OutOfFuel => False end.
Proof. unfold add64, checked_op. destruct (in_widthb _ _); [done|by right]. Qed.

Lemma adds_channels id all :
  Forall (fun '(a, u, v) => sendable (MChannelAnnouncement a) /\
    (forall m, u = Some m -> sendable (MChannelUpdate m)) /\ (forall m, v = Some m -> sendable (MChannelUpdate m))) all ->
  adds id (3 * length all) (enqueue_channels all).
Proof.
  induction 1 as [|[[a u] v] all (Ha & Hu & Hv) _ IH]; [apply adds_ret|]. cbn [enqueue_channels length].
  replace (3 * S (length all))%nat with (1 + (1 + (1 + (0 + 3 * length all))))%nat by lia.
  apply adds_bind; [by apply adds_message|]. apply adds_bind; [destruct u; [by apply adds_message, Hu|apply adds_ret]|].
  apply adds_bind; [destruct v; [by apply adds_message, Hv|apply adds_ret]|].
  intros up p0. eapply triple_bind; [apply triple_lift with (Q := fun _ p => known_as (Some id, up) p /\ p = p0)|].
  - intros p Hp. pose proof (add64_named (UnsignedChannelAnnouncement.short_channel_id (ChannelAnnouncement.contents a)) 1) as Hn.
    by destruct (add64 _ _).
  - intros next. apply (adds_bind id 0); [apply adds_sync|apply IH].
Qed.

Lemma adds_nodes id all : Forall (fun a => sendable (MNodeAnnouncement a)) all -> adds id (length all) (enqueue_nodes all).
Proof.
  induction 1 as [|a all Ha _ IH]; [apply adds_ret|]. cbn [enqueue_nodes length].
  apply (adds_bind id 1); [by apply adds_message|]. apply (adds_bind id 0); [apply adds_sync|done].
Qed.

(** ** Writing ends *)

(** How many messages a call can still write. *)
Definition potential (p : Peer.t) : nat :=
  queue_len p + (if Peer.msgs_sent_since_pong p <? BUFFER_DRAIN_MSGS_PER_TICK then Z.to_nat (44 - Peer.msgs_sent_since_pong p) else 0) +
  (if Peer.awaiting_pong_timer_tick_intervals p =? 0 then 1 else 0).

Definition settles (id : who) (m : prog Peer.t unit) : Prop :=
  forall p0, triple (fun p => known_as id p /\ p = p0) m
    (fun _ p => known_as id p /\ (potential p <= potential p0)%nat /\ Peer.awaiting_write_event p = Peer.awaiting_write_event p0).

Lemma enqueued_potential k p p' :
  (k <= 12)%nat -> Peer.msgs_sent_since_pong p < BUFFER_DRAIN_MSGS_PER_TICK -> enqueued k p p' -> (potential p' <= potential p)%nat.
Proof.
  intros Hk Hm (H1' & H2' & _ & _ & H5'). unfold potential, BUFFER_DRAIN_MSGS_PER_TICK in *. rewrite H1', H2', H5'.
  destruct (Z.ltb_spec (Peer.msgs_sent_since_pong p) 32); [|lia]. destruct (Z.ltb_spec (Peer.msgs_sent_since_pong p + Z.of_nat k) 32); lia.
Qed.

Lemma adds_settles id up n m p0 :
  (n <= 12)%nat -> Peer.msgs_sent_since_pong p0 < BUFFER_DRAIN_MSGS_PER_TICK -> adds id n m ->
  triple (fun p => known_as (Some id, up) p /\ p = p0) m
    (fun _ p => known_as (Some id, up) p /\ (potential p <= potential p0)%nat /\ Peer.awaiting_write_event p = Peer.awaiting_write_event p0).
Proof.
  intros Hn Hm Ha. eapply triple_post; [apply Ha|]. intros [] p [Hp (k & Hk & He)]. split_and!; [done| |apply He].
  eapply enqueued_potential; [|done|done]. lia.
Qed.

Lemma sync_step_ok id rh : route_inv rh -> settles id (sync_step rh).
Proof.
  intros Hr p0. unfold sync_step. apply triple_get. intros p [Hp Ep]. subst p0.
  assert (Hstay : forall A (x : A), triple (fun s' => s' = p) (mret x) (fun (_ : A) p' => known_as id p' /\ (potential p' <= potential p)%nat /\
    Peer.awaiting_write_event p' = Peer.awaiting_write_event p)) by (intros; apply triple_ret; by intros s ->).
  destruct (_ && _) eqn:Ego; [|apply Hstay]. apply andb_prop in Ego as [Hq Hm]. apply Nat.ltb_lt in Hq. apply Z.ltb_lt in Hm.
  destruct id as [[id|] up].
  2: { destruct Hp as [(_ & _ & _ & Hi & _) [= Hid _]]. unfold id_ok in Hi. rewrite Hid in Hi. destruct Hi as (_ & _ & -> & _). apply Hstay. }
  assert (Hnodes : forall k, triple (fun s' => s' = p) (sync_nodes rh k) (fun _ p' => known_as (Some id, up) p' /\ (potential p' <= potential p)%nat /\
    Peer.awaiting_write_event p' = Peer.awaiting_write_event p)).
  { intros k. apply (triple_here (known_as (Some id, up))); [done|]. unfold sync_nodes. apply triple_get. intros s [_ ->].
    apply (triple_here (known_as (Some id, up))); [done|].
    destruct (law_next_nodes k (Z.of_nat (OUTBOUND_BUFFER_LIMIT_READ_PAUSE - queue_len p)) rh Hr) as [Hl Hs]; [lia|].
    apply (adds_settles id up 10); [lia|done|]. unfold OUTBOUND_BUFFER_LIMIT_READ_PAUSE in *.
    apply (adds_weaken id (length (route_next_nodes k (Z.of_nat (10 - queue_len p)) rh) + 0)); [lia|].
    apply adds_bind; [by apply adds_nodes|]. destruct (_ || _); [apply adds_sync|apply adds_ret]. }
  destruct (Peer.sync_status p) as [|c|key]; [apply Hstay| |apply Hnodes]. destruct (c <? U64_MAX); [|apply Hnodes].
  apply (triple_here (known_as (Some id, up))); [done|]. unfold sync_channels. apply triple_get. intros s [_ ->].
  apply (triple_here (known_as (Some id, up))); [done|].
  set (steps := ((OUTBOUND_BUFFER_LIMIT_READ_PAUSE - queue_len p + 2) / 3)%nat).
  assert (Hsteps : (steps <= 4)%nat) by (unfold steps, OUTBOUND_BUFFER_LIMIT_READ_PAUSE in *; apply Nat.Div0.div_le_upper_bound; lia).
  destruct (law_next_channels c (Z.of_nat steps) rh Hr) as [Hl Hs]; [lia|].
  apply (adds_settles id up 12); [lia|done|].
  apply (adds_weaken id (3 * length (route_next_channels c (Z.of_nat steps) rh) + 0)); [lia|].
  apply adds_bind; [by apply adds_channels|]. destruct (_ || _); [apply adds_sync|apply adds_ret].
Qed.

Lemma ping_sendable : sendable ping.
Proof. apply (message_octets custom_ok). by split. Qed.

Lemma extra_ping_ok id p0 :
  triple (fun p => known_as id p /\ p = p0 /\ BUFFER_DRAIN_MSGS_PER_TICK <= Peer.msgs_sent_since_pong p) maybe_send_extra_ping
    (fun _ p => known_as id p /\ (potential p <= potential p0)%nat /\ Peer.awaiting_write_event p = Peer.awaiting_write_event p0).
Proof.
  unfold maybe_send_extra_ping. apply triple_get. intros p (Hp & Ep & Hm). subst p0.
  destruct (Peer.awaiting_pong_timer_tick_intervals p =? 0) eqn:Ea; [|apply triple_ret; by intros s ->].
  destruct id as [[id|] up].
  2: { destruct Hp as [(_ & _ & _ & Hi & _) [= Hid _]]. unfold id_ok in Hi. rewrite Hid in Hi. destruct Hi as (_ & _ & _ & E & _).
       unfold BUFFER_DRAIN_MSGS_PER_TICK in Hm. lia. }
  set (p1 := Peer.set_awaiting_pong_timer_tick_intervals (-1) p).
  eapply triple_bind; [apply triple_put with (Q := fun _ s => known_as (Some id, up) s /\ s = p1); intros s _; split; [|done]; by apply inv_intervals|].
  intros []. eapply triple_post; [apply enqueue_message_ok, ping_sendable|]. intros [] p' [Hp' (E1 & E2 & _ & E4 & E5)].
  split_and!; [done| |by rewrite E4]. unfold potential, BUFFER_DRAIN_MSGS_PER_TICK in *. rewrite E1, E2, E5. subst p1. cbn. rewrite Ea.
  unfold queue_len. cbn. destruct (Z.ltb_spec (Peer.msgs_sent_since_pong p + Z.of_nat 1) 32); [lia|].
  destruct (Z.ltb_spec (Peer.msgs_sent_since_pong p) 32); lia.
Qed.

(** One write: a buffer leaves the queue, or the socket is full. *)
Lemma write_front_ok id d p w :
  known_as id p -> Peer.awaiting_write_event p = false ->
  exists go p' w', write_front d (p, w) = (Ret go, (p', w')) /\ known_as id p' /\
    (go = true -> Peer.awaiting_write_event p' = true \/
       (Peer.awaiting_write_event p' = false /\ (S (potential p') <= potential p)%nat)).
Proof.
  intros [(He & Hf & Hq & Hi & Hc) Hid] Ha. unfold write_front. unfold queue_ok in Hq.
  destruct (Peer.pending_outbound_buffer p) as [|buff rest] eqn:Eb; [eexists _, _, _; split; [done|]; split; [|done]|].
  { split; [|done]. split_and!; try done. unfold queue_ok. by rewrite Eb. }
  destruct (Nat.ltb_spec (length buff) (Peer.pending_outbound_buffer_first_msg_offset p)); [lia|].
  set (data := drop _ buff). pose proof (sent_at_most d data (queue_len p <? OUTBOUND_BUFFER_LIMIT_READ_PAUSE)%nat w) as Hsent.
  destruct (send_data d data _ w) as [sent w']. cbn [fst] in Hsent. unfold data in Hsent. rewrite length_drop in Hsent.
  destruct (Nat.eqb_spec (Peer.pending_outbound_buffer_first_msg_offset p + sent) (length buff)) as [E|E].
  - eexists _, _, _. split; [done|]. split.
    + split; [|done]. split_and!; try done. unfold queue_ok. cbn. destruct rest; [done|lia].
    + intros _. right. split; [exact Ha|]. unfold potential, queue_len. cbn. rewrite Eb. cbn. lia.
  - eexists _, _, _. split; [done|]. split; [|intros _; by left].
    split; [|done]. split_and!; try done. unfold queue_ok. cbn. rewrite Eb. lia.
Qed.

Lemma write_loop_ok fuel id rh d p w :
  route_inv rh -> known_as id p -> (potential p < fuel)%nat ->
  match write_loop fuel rh d (p, w) with
  | (Ret _, (p', _)) => known_as id p'
  | (Panic why, _) => named_panic why
  | (OutOfFuel, _) => False
  end.
Proof.
  intros Hr. revert p w. induction fuel as [|fuel IH]; intros p w Hp Hpot; [lia|].
  cbn [write_loop]. unfold mbind at 1, prog_bind at 1, get at 1. cbn [fst].
  destruct (Peer.awaiting_write_event p) eqn:Ea; [done|].
  unfold mbind at 1, prog_bind at 1, on_fst at 1. pose proof (sync_step_ok id rh Hr p p (conj Hp eq_refl)) as H1'.
  destruct (sync_step rh p) as [[[]|why|] p1]; [|done..]. destruct H1' as (Hp1 & Hpot1 & Ha1).
  unfold mbind at 1, prog_bind at 1, get at 1. cbn [fst].
  assert (Hping : match (if BUFFER_DRAIN_MSGS_PER_TICK <=? Peer.msgs_sent_since_pong p1 then on_fst maybe_send_extra_ping else mret tt) (p1, w) with
    | (Ret _, (p2, w2)) => known_as id p2 /\ (potential p2 <= potential p1)%nat /\ Peer.awaiting_write_event p2 = Peer.awaiting_write_event p1 /\ w2 = w
    | (Panic why, _) => named_panic why | (OutOfFuel, _) => False end).
  { destruct (Z.leb_spec BUFFER_DRAIN_MSGS_PER_TICK (Peer.msgs_sent_since_pong p1)); [|by split_and!].
    unfold on_fst. pose proof (extra_ping_ok id p1 p1 (conj Hp1 (conj eq_refl ltac:(done)))) as H2'.
    destruct (maybe_send_extra_ping p1) as [[[]|why|] p2]; [|done..]. naive_solver. }
  unfold mbind at 1, prog_bind at 1.
  destruct ((if BUFFER_DRAIN_MSGS_PER_TICK <=? Peer.msgs_sent_since_pong p1 then on_fst maybe_send_extra_ping else mret tt) (p1, w))
    as [[[]|why|] [p2 w2]]; [|done..]. destruct Hping as (Hp2 & Hpot2 & Ha2 & ->).
  destruct (write_front_ok id d p2 w) as (go & p3 & w3 & E & Hp3 & Hgo); [done|by rewrite Ha2, Ha1|].
  unfold mbind at 1, prog_bind at 1. rewrite E. destruct go; [|done]. destruct (Hgo eq_refl) as [Hw|[Hw Hpot3]].
  - destruct fuel; cbn [write_loop]; unfold mbind, prog_bind, get; cbn [fst]; by rewrite Hw.
  - apply IH; [done|lia].
Qed.

Lemma write_fuel_enough p : counts_ok p -> (potential p < write_fuel p)%nat.
Proof.
  intros [Hs _]. unfold potential, write_fuel, BUFFER_DRAIN_MSGS_PER_TICK. destruct (_ <? _); destruct (_ =? 0); lia.
Qed.

(** ** The manager *)

Implicit Types s : @PeerManager _ _ CM RM X D W _ _.

(** The two maps describe the same connections. *)
Definition links s : Prop :=
  forall n d, node_id_to_descriptor s !! n = Some d <->
    exists p k, peers s !! d = Some p /\ Peer.their_node_id p = Some k /\ n = from_pubkey k.

(** The channel handler has been told of the peers whose [Init] has arrived. *)
Definition told s : Prop :=
  exists live, chan_inv live (chan_handler s) /\
    forall n, n ∈ live <-> exists d p k, peers s !! d = Some p /\ identity p = (Some k, true) /\ n = from_pubkey k.

Definition manager_inv s : Prop := links s /\ told s /\ map_Forall (fun _ p => peer_inv p) (peers s) /\ route_inv (route_handler s).

(** The same but for one peer, which is about to be dropped. *)
Definition manager_but (d : D) s : Prop :=
  links s /\ told s /\ map_Forall (fun _ p => peer_inv p) (delete d (peers s)) /\ route_inv (route_handler s).

(** The connection is there, and is this peer. *)
Definition connected (d : D) (id : who) s : Prop :=
  manager_inv s /\ exists p, peers s !! d = Some p /\ identity p = id.

Lemma inv_but d s : manager_inv s -> manager_but d s.
Proof. intros (Hl & Ht & Hp & Hr). split_and!; [done|done|by apply map_Forall_delete|done]. Qed.

(** The state with a peer replaced. *)
Definition put_at (d : D) (p : Peer.t) s := set_peers (<[d := p]> (peers s)) s.

Lemma put_at_lookup d p s : peers (put_at d p s) !! d = Some p.
Proof. apply lookup_insert_eq. Qed.
Lemma put_at_twice d p p' s : put_at d p' (put_at d p s) = put_at d p' s.
Proof. unfold put_at, set_peers. cbn. by rewrite insert_insert_eq. Qed.

Lemma with_peer_at {A} d (m : prog Peer.t A) p s :
  with_peer d m (put_at d p s) = (let '(o, p') := m p in (o, put_at d p' s)).
Proof. unfold with_peer. rewrite put_at_lookup. destruct (m p) as [o p']. by rewrite <- (put_at_twice d p p' s). Qed.
Lemma with_peer_in {A} d (m : prog Peer.t A) p s :
  peers s !! d = Some p -> with_peer d m s = (let '(o, p') := m p in (o, put_at d p' s)).
Proof. intros E. unfold with_peer. by rewrite E. Qed.

Lemma identity_id p p' : identity p = identity p' -> Peer.their_node_id p = Peer.their_node_id p'.
Proof. by intros [= ? _]. Qed.

Lemma links_put d p0 p s :
  links s -> peers s !! d = Some p0 -> Peer.their_node_id p = Peer.their_node_id p0 -> links (put_at d p s).
Proof.
  intros Hl E0 Eid n d'. cbn. rewrite (Hl n d'). destruct (decide (d' = d)) as [->|Hne].
  - rewrite lookup_insert_eq. split; intros (q & k & Eq & Hk & ->).
    + rewrite E0 in Eq. injection Eq as <-. exists p, k. by rewrite Eid.
    + injection Eq as <-. exists p0, k. by rewrite <- Eid.
  - by rewrite lookup_insert_ne.
Qed.

Lemma told_put d p0 p s :
  told s -> peers s !! d = Some p0 -> (forall k, identity p = (Some k, true) <-> identity p0 = (Some k, true)) -> told (put_at d p s).
Proof.
  intros (live & Hc & Hn) E0 Eid. exists live. split; [exact Hc|]. intros n. rewrite (Hn n). cbn.
  split; intros (d' & q & k & Eq & Hk & ->); destruct (decide (d' = d)) as [->|Hne].
  - exists d, p, k. rewrite lookup_insert_eq. split_and!; [done|apply Eid; congruence|done].
  - exists d', q, k. by rewrite lookup_insert_ne.
  - rewrite lookup_insert_eq in Eq. exists d, p0, k. split_and!; [done|apply Eid; congruence|done].
  - rewrite lookup_insert_ne in Eq by done. by exists d', q, k.
Qed.

Lemma inv_put d p0 p s :
  manager_inv s -> peers s !! d = Some p0 -> identity p = identity p0 -> peer_inv p -> manager_inv (put_at d p s).
Proof.
  intros (Hl & Ht & Hp & Hr) E0 Eid Hinv. split_and!; [by eapply links_put; [..|apply identity_id]|by eapply told_put; [..|intros k; rewrite Eid]|by apply map_Forall_insert_2|done].
Qed.

Lemma but_put d p0 p s :
  manager_but d s -> peers s !! d = Some p0 -> identity p = identity p0 -> manager_but d (put_at d p s).
Proof.
  intros (Hl & Ht & Hp & Hr) E0 Eid. split_and!; [by eapply links_put; [..|apply identity_id]|by eapply told_put; [..|intros k; rewrite Eid]| |done]. cbn. by rewrite delete_insert_eq.
Qed.

Lemma connected_peer d id s : connected d id s -> exists p, peers s !! d = Some p /\ known_as id p.
Proof. intros [(_ & _ & Hp & _) (p & E & Hid)]. exists p. split; [done|]. split; [|done]. by apply (Hp _ _ E). Qed.

Lemma connected_put d id id' p s : connected d id s -> id' = id -> known_as id' p -> connected d id (put_at d p s).
Proof.
  intros Hc -> [Hp Hid]. destruct (connected_peer _ _ _ Hc) as (p0 & E & _ & Hid0). destruct Hc as [Hm _]. split.
  - eapply inv_put; [done|done|congruence|done].
  - exists p. split; [apply put_at_lookup|done].
Qed.

(** A program on a peer. *)
Lemma with_peer_post {A} d id (m : prog Peer.t A) (Q : A -> Peer.t -> Prop) :
  triple (known_as id) m (fun a p => known_as id p /\ Q a p) ->
  triple (connected d id) (with_peer d m) (fun a s => connected d id s /\ exists p, peers s !! d = Some p /\ Q a p).
Proof.
  intros Hm s Hs. destruct (connected_peer _ _ _ Hs) as (p & E & Hp). rewrite (with_peer_in _ _ _ _ E). specialize (Hm p Hp).
  destruct (m p) as [[a|why|] p']; [|done..]. destruct Hm as [Hp' HQ]. split; [by eapply connected_put|].
  exists p'. split; [apply put_at_lookup|done].
Qed.

Lemma with_peer_ok {A} d id (m : prog Peer.t A) (Q : A -> Prop) :
  triple (known_as id) m (fun a p => known_as id p /\ Q a) ->
  triple (connected d id) (with_peer d m) (fun a s => connected d id s /\ Q a).
Proof.
  intros Hm. eapply triple_post; [by apply (with_peer_post d id m (fun a _ => Q a))|]. intros a s [Hs (p & _ & HQ)]. by split.
Qed.

Lemma with_peer_unit d id (m : prog Peer.t unit) :
  triple (known_as id) m (fun _ => known_as id) -> triple (connected d id) (with_peer d m) (fun _ => connected d id).
Proof.
  intros Hm. eapply triple_post; [apply (with_peer_ok d id m (fun _ => True))|by intros [] s []]. eapply triple_post; [exact Hm|by intros [] p].
Qed.

Lemma adds_known id up n m : adds id n m -> triple (known_as (Some id, up)) m (fun _ => known_as (Some id, up)).
Proof. intros Hm p Hp. specialize (Hm up p p (conj Hp eq_refl)). destruct (m p) as [[[]|why|] p']; [|done..]. by destruct Hm. Qed.

Lemma get_peer_ok {A} d id (f : Peer.t -> prog _ A) Q :
  (forall p, known_as id p -> triple (fun s => connected d id s /\ peers s !! d = Some p) (f p) Q) ->
  triple (connected d id) (get_peer d ≫= f) Q.
Proof.
  intros Hf s Hs. destruct (connected_peer _ _ _ Hs) as (p & E & Hp). unfold get_peer, mbind, prog_bind. rewrite E. cbn [Prelude.unwrap].
  by apply (Hf p).
Qed.

(** The calls a peer's messages lead to. *)
Lemma call_chan_ok d k call :
  call_ok call -> (forall m, call <> PeerConnected m) -> (forall b, call <> PeerDisconnected b) ->
  triple (connected d (Some k, true)) (call_chan k call) (fun _ => connected d (Some k, true)).
Proof.
  intros Hok Hc Hd. apply triple_modify. intros s [(Hl & (live & Hi & Hn) & Hp) (p & E & Hid)].
  assert (Hk : from_pubkey k ∈ live) by (apply Hn; eauto 6).
  assert (Ha : live_after live (from_pubkey k) call = live) by (destruct call; naive_solver).
  split; [|by exists p]. split_and!; [exact Hl| |apply Hp|apply Hp]. exists live. split; [|exact Hn]. rewrite <- Ha. apply law_chan_call; [done|done|].
  destruct call; naive_solver.
Qed.
Lemma disconnect_inv d : triple manager_inv (disconnect d) (fun _ => manager_inv).
Proof. by apply triple_modify. Qed.

Lemma on_route_ok {A} d id (m : prog RM (result A LightningError)) :
  handler_ok route_inv m -> triple (connected d id) (on_route m) (fun r s => connected d id s /\ forall e, r = Err e -> error_sendable e).
Proof.
  intros Hm s [(Hl & Ht & Hp & Hr) Hc]. unfold on_route. destruct (Hm _ Hr) as (res & r' & -> & Hr' & He). by split.
Qed.
Lemma on_route_inv {A} (m : prog RM (result A LightningError)) :
  handler_ok route_inv m -> triple manager_inv (on_route m) (fun _ => manager_inv).
Proof. intros Hm s (Hl & Ht & Hp & Hr). unfold on_route. destruct (Hm _ Hr) as (res & r' & -> & Hr' & He). by split. Qed.

(** ** Writing to a connection *)

Lemma attempt_write_ok (P : _ -> Prop) id d p :
  (forall s, P s -> route_inv (route_handler s)) -> (forall s w, P s -> P (set_sockets w s)) ->
  known_as id p -> triple P (attempt_write d p) (fun p' s => P s /\ known_as id p').
Proof.
  intros Hroute Hsock Hp s Hs. unfold attempt_write.
  pose proof (write_loop_ok (write_fuel p) id (route_handler s) d p (sockets s) (Hroute s Hs) Hp) as Hw.
  destruct (write_loop _ _ _ _) as [[[]|why|] [p' w']]; cbn [mbind outcome_bind] in *; [split; [by apply Hsock|]|..]; apply Hw, write_fuel_enough, Hp.
Qed.

Lemma do_write_ok d id : triple (connected d id) (do_attempt_write_data d) (fun _ => connected d id).
Proof.
  unfold do_attempt_write_data. apply get_peer_ok. intros p Hp s [Hs E]. unfold mbind, prog_bind, put_peer, modify.
  unfold attempt_write. destruct (Hs) as [(_ & _ & _ & Hr) _].
  pose proof (write_loop_ok (write_fuel p) id (route_handler s) d p (sockets s) Hr Hp) as Hw.
  destruct (write_loop _ _ _ _) as [[[]|why|] [p' w']]; cbn [outcome_bind] in *; [|apply Hw, write_fuel_enough, Hp..].
  change (connected d id (put_at d p' (set_sockets w' s))). eapply connected_put; [exact Hs|done|]. apply Hw, write_fuel_enough, Hp.
Qed.

(** ** Disconnecting *)

Lemma links_delete s d p k :
  links s -> peers s !! d = Some p -> Peer.their_node_id p = Some k ->
  links (set_ids (delete (from_pubkey k) (node_id_to_descriptor s)) (set_peers (delete d (peers s)) s)).
Proof.
  intros Hl E Hk n d'. cbn. assert (Ed : node_id_to_descriptor s !! from_pubkey k = Some d) by (apply Hl; eauto).
  destruct (decide (n = from_pubkey k)) as [->|Hn].
  - rewrite lookup_delete_eq. split; [done|]. intros (q & k' & Eq & Hk' & Ek). exfalso.
    destruct (decide (d' = d)) as [->|Hd]; [by rewrite lookup_delete_eq in Eq|]. rewrite lookup_delete_ne in Eq by done.
    assert (node_id_to_descriptor s !! from_pubkey k = Some d') by (rewrite Ek; apply Hl; eauto). congruence.
  - rewrite lookup_delete_ne by done. rewrite (Hl n d'). destruct (decide (d' = d)) as [->|Hd].
    + rewrite lookup_delete_eq. split; [|by intros (? & ? & ? & _)]. intros (q & k' & Eq & Hk' & ->). congruence.
    + by rewrite lookup_delete_ne.
Qed.

Lemma links_delete_unknown s d p :
  links s -> peers s !! d = Some p -> Peer.their_node_id p = None -> links (set_peers (delete d (peers s)) s).
Proof.
  intros Hl E Hk n d'. cbn. rewrite (Hl n d'). destruct (decide (d' = d)) as [->|Hd].
  - rewrite lookup_delete_eq. split; [|by intros (? & ? & ? & _)]. intros (q & k' & Eq & Hk' & ->). congruence.
  - by rewrite lookup_delete_ne.
Qed.

(** Taking a peer out, and telling the channel handler if the peer had an id. *)
Lemma told_gone s d p k b :
  links s -> told s -> peers s !! d = Some p -> Peer.their_node_id p = Some k ->
  told (set_chan (chan_call k (PeerDisconnected b) (chan_handler s)) (set_peers (delete d (peers s)) s)).
Proof.
  intros Hl (live & Hi & Hn) E Hk. exists (live ∖ {[from_pubkey k]}). split; [by apply (law_chan_call live k (PeerDisconnected b))|].
  assert (Ed : node_id_to_descriptor s !! from_pubkey k = Some d) by (apply Hl; eauto).
  intros n. rewrite elem_of_difference, not_elem_of_singleton, (Hn n). cbn. split.
  - intros [(d' & q & k' & Eq & Hk' & ->) Hne]. exists d', q, k'. rewrite lookup_delete_ne; [done|]. intros ->. injection Hk' as Hk' _. congruence.
  - intros (d' & q & k' & Eq & Hk' & ->). apply lookup_delete_Some in Eq as [Hne Eq]. split; [eauto 6|]. intros Ek.
    injection Hk' as Hk' _. assert (node_id_to_descriptor s !! from_pubkey k' = Some d') by (apply Hl; eauto). congruence.
Qed.

Lemma told_unknown s d p :
  told s -> peers s !! d = Some p -> Peer.their_node_id p = None -> told (set_peers (delete d (peers s)) s).
Proof.
  intros (live & Hi & Hn) E Hk. exists live. split; [exact Hi|]. intros n. rewrite (Hn n). cbn. split.
  - intros (d' & q & k' & Eq & Hk' & ->). exists d', q, k'. rewrite lookup_delete_ne; [done|]. intros ->. injection Hk' as Hk' _. congruence.
  - intros (d' & q & k' & Eq & Hk' & ->). apply lookup_delete_Some in Eq as [Hne Eq]. eauto 6.
Qed.

Lemma disconnect_event_ok d nc : triple (manager_but d) (disconnect_event_internal d nc) (fun _ => manager_inv).
Proof.
  unfold disconnect_event_internal. apply triple_get. intros s (Hl & Ht & Hp & Hr).
  destruct (peers s !! d) as [p|] eqn:E.
  - destruct (Peer.their_node_id p) as [k|] eqn:Ek; intros s' ->.
    + split_and!; [exact (links_delete _ _ _ _ Hl E Ek)|exact (told_gone _ _ _ _ nc Hl Ht E Ek)|exact Hp|exact Hr].
    + split_and!; [by eapply links_delete_unknown|by eapply told_unknown|exact Hp|exact Hr].
  - apply triple_ret. intros s' ->. rewrite delete_id in Hp by done. by split.
Qed.

End PeerSafe.
