(* ===== verification/PeerRead.v ===== *)
(** * Whatever bytes arrive

    The handshake, the framing and decoding of messages, and what a message does: a turn of
    the reading loop ends with every peer in order, or with one that is dropped. *)

From S2P Require Import Prelude Text HexUtils Bytes ChaCha20 Poly1305 Stream Ser SerLaws Aead Tlv Features Msgs OnionHop ChannelMsgs ChannelMsgsLaws GossipMsgs Wire Octets Noise NoiseSafe Onion OnionError GossipSync Graph PeerManager PeerSpec PeerSafe.

Local Open Scope Z_scope.

Section PeerRead.
Context `{SecpLaws} `{!NoiseCrypto} `{!NoiseLaws} `{!FixedTimeEq} `{!FixedTimeEqLaws} `{!PeerCrypto} `{!PeerLaws} `{Hcmr : CustomMessageReader}.
Context {custom_ok : CustomMessage -> Prop} `{!CustomLaws custom_ok}.
Context {CM RM X D W : Type} `{Countable D}.
Context `{!ChannelMessageHandler CM, !RoutingMessageHandler RM, !CustomMessageHandler X, !SocketDescriptor D W}.
Context {chan_inv : gset NodeId -> CM -> Prop} {route_inv : RM -> Prop} {clock : Z -> Prop}.
Context `{!ChannelLaws CM chan_inv, !RoutingLaws RM route_inv clock, !CustomHandlerLaws X, !SocketLaws D W}.

Abbreviation manager := (@PeerManager _ _ CM RM X D W _ _).
Implicit Types s : manager.
Abbreviation manager_inv := (PeerSafe.manager_inv (CM := CM) (X := X) (D := D) (W := W) (chan_inv := chan_inv) (route_inv := route_inv)).
Abbreviation manager_but := (PeerSafe.manager_but (CM := CM) (X := X) (D := D) (W := W) (chan_inv := chan_inv) (route_inv := route_inv)).
Abbreviation connected := (PeerSafe.connected (CM := CM) (X := X) (D := D) (W := W) (chan_inv := chan_inv) (route_inv := route_inv)).

(** ** The handshake and the frames *)

(** Opening a full buffer: what a step of the encryptor gives for the peer. *)
Lemma inv_broken d id p s : connected d id s -> identity p = id -> manager_but d (put_at d p s).
Proof. intros [Hm (p0 & E & Hid)] Hp. eapply but_put; [by apply inv_but|done|congruence]. Qed.

(** What a turn leaves. *)
Definition after_turn (d : D) (t : turn) s : Prop :=
  match t with
  | Fail _ => manager_but d s
  | Skip => exists id, connected d id s
  | Proceed None => exists id, connected d id s
  | Proceed (Some m) => exists k up, connected d (Some k, up) s /\ message_in_range custom_ok m
  end.

Lemma init_sendable a : (forall x, a = Some x -> NetAddress.ok x) -> sendable (MInit (Init.mk (known InitContext) a)).
Proof.
  intros Ha. apply (message_octets custom_ok). split; [|done]. split; [by vm_compute|]. apply Forall_forall. intros x Hx.
  assert (Hf : Forall u8 (known InitContext)) by (by vm_compute; repeat constructor). rewrite Forall_forall in Hf. by apply Hf.
Qed.

(** The connection of a peer whose handshake is over is registered, once per id. *)
Lemma links_register d k p s :
  links s -> node_id_to_descriptor s !! from_pubkey k = None -> (exists p0, peers s !! d = Some p0 /\ Peer.their_node_id p0 = None) ->
  Peer.their_node_id p = Some k -> links (put_at d p (set_ids (<[from_pubkey k := d]> (node_id_to_descriptor s)) s)).
Proof.
  intros Hl Hn (p0 & E0 & Hid0) Hk n d'. cbn. destruct (decide (n = from_pubkey k)) as [->|Hne].
  - rewrite lookup_insert_eq. split; [intros [= <-]; exists p, k; by rewrite lookup_insert_eq|]. intros (q & k' & Eq & Hk' & Ek).
    destruct (decide (d' = d)) as [->|Hd]; [done|]. rewrite lookup_insert_ne in Eq by done.
    assert (node_id_to_descriptor s !! from_pubkey k = Some d') by (rewrite Ek; apply Hl; eauto). congruence.
  - rewrite lookup_insert_ne by done. rewrite (Hl n d'). destruct (decide (d' = d)) as [->|Hd].
    + rewrite lookup_insert_eq. split; intros (q & k' & Eq & Hk' & ->); simplify_eq.
    + by rewrite lookup_insert_ne.
Qed.

Lemma filter_ok a x : (forall y, a = Some y -> NetAddress.ok y) -> filter_addresses a = Some x -> NetAddress.ok x.
Proof. intros Ha Hx. apply Ha. unfold filter_addresses in Hx. repeat case_match; congruence. Qed.

Lemma with_peer_modify d f p s : with_peer d (modify f) (put_at d p s) = (Ret tt, put_at d (f p) s).
Proof. by rewrite with_peer_at. Qed.

(** The rest of a program whose first step is one on the peer. *)
Lemma runs_modify {A} d f p s (k : unit -> prog _ A) Q :
  runs (k tt) (put_at d (f p) s) Q -> runs (with_peer d (modify f) ≫= k) (put_at d p s) Q.
Proof. intros Hr. eapply runs_eq; [apply with_peer_modify|exact Hr]. Qed.

Lemma finish_handshake_ok d k p keys s :
  connected d (None, false) s -> noise_state (Peer.channel_encryptor p) = Finished keys -> keys_ok keys -> queue_ok p -> counts_ok p ->
  Peer.their_features p = None -> Peer.pending_read_buffer_pos p = 0%nat -> (forall a, Peer.their_net_address p = Some a -> NetAddress.ok a) ->
  runs (finish_handshake d k) (put_at d p s) (after_turn d).
Proof.
  intros Hs Ek Hk Hq Hc Hfe Hpos Ha. unfold finish_handshake. apply runs_modify.
  set (p1 := Peer.set_their_node_id _ _). unfold insert_node_id. pose proof Hs as [(Hl & Ht & Hp & Hr) (p0 & E0 & Hid0)].
  destruct (node_id_to_descriptor s !! from_pubkey k) as [d'|] eqn:Ed.
  - eapply runs_eq with (a := false) (s' := put_at d (Peer.set_their_node_id None p1) s).
    { unfold mbind, prog_bind, get. cbn [node_id_to_descriptor put_at set_peers]. rewrite Ed. by rewrite with_peer_modify. }
    cbn [negb]. apply (inv_broken d (None, false)); [done|]. apply identity_of; [done|]. cbn. by rewrite Hfe.
  - set (ids := <[from_pubkey k := d]> (node_id_to_descriptor s)).
    eapply runs_eq with (a := true) (s' := put_at d p1 (set_ids ids s)).
    { unfold mbind, prog_bind, get. cbn [node_id_to_descriptor put_at set_peers]. by rewrite Ed. }
    cbn [negb]. eapply runs_eq; [unfold get_peer; by rewrite put_at_lookup|].
    apply (runs_triple (connected d (Some k, false))).
    2: assert (Hid1 : identity p1 = (Some k, false)) by (apply identity_of; [done|cbn; by rewrite Hfe]).
    2: split; [split_and!|exists p1; split; [apply put_at_lookup|done]].
    + eapply triple_bind; [apply with_peer_unit, (adds_known k _ 1), adds_message, init_sendable; intros x; by apply filter_ok|]. intros [].
      eapply triple_bind; [apply with_peer_unit, triple_modify; intros q Hq'; by apply inv_intervals|]. intros [].
      apply triple_ret. intros s' Hs'. by exists (Some k, false).
    + apply links_register; [done..|exists p0; by injection Hid0|done].
    + apply (told_put d p0); [done..|]. intros k'. rewrite Hid1, Hid0. by split; intros [=].
    + apply map_Forall_insert_2; [|done]. split_and!.
      * unfold encryptor_ok. cbn. by rewrite Ek.
      * unfold frame_ok. cbn -[replicate]. rewrite Ek, Hpos. split_and!; [by apply Nat.ltb_lt|by repeat constructor|done].
      * exact Hq.
      * unfold id_ok. cbn. by exists keys.
      * exact Hc.
    + done.
Qed.

(** ** A full buffer *)

Lemma put_at_self d p s : peers s !! d = Some p -> put_at d p s = s.
Proof. intros E. unfold put_at, set_peers. rewrite insert_id by done. by destruct s. Qed.

Lemma runs_encrypting {A B} d (m : prog PeerChannelEncryptor A) p r e s (k : A -> prog _ B) Q :
  m (Peer.channel_encryptor p) = (Ret r, e) -> runs (k r) (put_at d (Peer.set_channel_encryptor e p) s) Q ->
  runs (with_peer d (encrypting m) ≫= k) (put_at d p s) Q.
Proof. intros E Hr. eapply runs_eq; [|exact Hr]. rewrite with_peer_at. unfold encrypting. by rewrite E. Qed.

Lemma runs_get_peer {A} d p s (k : Peer.t -> prog _ A) Q : runs (k p) (put_at d p s) Q -> runs (get_peer d ≫= k) (put_at d p s) Q.
Proof. intros Hr. eapply runs_eq; [|exact Hr]. unfold get_peer. by rewrite put_at_lookup. Qed.

Lemma still_connected d id p s : connected d id s -> known_as id p -> after_turn d (Proceed None) (put_at d p s).
Proof. intros Hs Hp. exists id. by eapply connected_put. Qed.

Lemma ephemeral_key_made s : exists key c, get_ephemeral_key s = (Ret key, set_counter c s).
Proof.
  unfold get_ephemeral_key, mbind, prog_bind, get. destruct (get_increment (peer_counter s)) as [o c] eqn:E.
  unfold get_increment, mbind, prog_bind, get, put in E. injection E as <- <-.
  cbn [lift mret prog_ret]. unfold put. match goal with |- context [sk_from_slice (sha256 ?m)] => destruct (sk_of_digest m) as [key ->] end.
  eexists _, _. done.
Qed.

(** Before the handshake is over. *)
Lemma act_one_turn d p s :
  connected d (None, false) s -> known_as (None, false) p -> get_noise_step (Peer.channel_encryptor p) = ActOne -> Peer.pending_read_buffer_pos p = 0%nat ->
  runs (process_buffer d) (put_at d p s) (after_turn d).
Proof.
  intros Hs [(He & Hf & Hq & Hi & Hc) [= Hid Hup]] Hstep Hpos. unfold process_buffer. apply runs_get_peer. rewrite Hstep.
  eapply runs_eq; [done|]. destruct (ephemeral_key_made (put_at d p s)) as (key & c & Ek). eapply runs_eq; [exact Ek|].
  change (set_counter c (put_at d p s)) with (put_at d p (set_counter c s)). set (s1 := set_counter c s).
  assert (Hs1 : connected d (None, false) s1) by exact Hs. destruct Hf as (_ & Hu & Hlen). unfold get_noise_step in Hstep.
  destruct (act_one_total (Peer.pending_read_buffer p) (our_node_secret (put_at d p s)) key (Peer.channel_encryptor p)) as (r & e & Er & Hr);
    [by destruct (noise_state _) as [[] ? ?|] in Hlen, Hstep|done|done|done|].
  eapply runs_encrypting; [exact Er|]. destruct r as [act|why]; cbn [or_disconnect]; [|apply (inv_broken d (None, false)); [done|by apply identity_of]].
  destruct (Hr act eq_refl) as (_ & He' & Hstep'). do 2 apply runs_modify. apply (still_connected _ (None, false)); [done|].
  unfold get_noise_step in Hstep'. split; [|by apply identity_of]. split_and!.
  - exact He'.
  - unfold frame_ok. cbn -[replicate]. rewrite Hpos. destruct (noise_state e) as [[] ? ?|]; try done.
    split_and!; [by apply Nat.ltb_lt|by repeat constructor|done].
  - by apply queue_snoc.
  - unfold id_ok in *. cbn. rewrite Hid in *. destruct Hi as (_ & Hi). split; [|done]. unfold is_ready_for_encryption. by destruct (noise_state e).
  - exact Hc.
Qed.

Lemma complete_keys e : encryptor_ok e -> get_noise_step e = NoiseComplete -> exists k, noise_state e = Finished k /\ keys_ok k.
Proof. unfold encryptor_ok, get_noise_step. intros He Hs. destruct (noise_state e) as [[] ? ?|k]; try done. by exists k. Qed.

Lemma act_two_turn d p s :
  connected d (None, false) s -> known_as (None, false) p -> get_noise_step (Peer.channel_encryptor p) = ActTwo -> Peer.pending_read_buffer_pos p = 0%nat ->
  runs (process_buffer d) (put_at d p s) (after_turn d).
Proof.
  intros Hs [(He & Hf & Hq & Hi & Hc) [= Hid Hup]] Hstep Hpos. unfold process_buffer. apply runs_get_peer. rewrite Hstep.
  eapply runs_eq; [done|]. destruct Hf as (_ & Hu & Hlen).
  destruct (act_two_total (Peer.pending_read_buffer p) (our_node_secret (put_at d p s)) (Peer.channel_encryptor p)) as (r & e & Er & Hr);
    [unfold get_noise_step in Hstep; by destruct (noise_state _) as [[] ? ?|]|done..|].
  eapply runs_encrypting; [exact Er|]. destruct r as [[act their]|why]; cbn [or_disconnect]; [|apply (inv_broken d (None, false)); [done|by apply identity_of]].
  destruct (Hr _ _ eq_refl) as [He' Hstep']. destruct (complete_keys e He' Hstep') as (keys & Ek & Hk). apply runs_modify.
  unfold id_ok in Hi. rewrite Hid in Hi. destruct Hi as (_ & Hfe & _ & _ & Ha). by eapply finish_handshake_ok; [..|apply queue_snoc| | | |].
Qed.

Lemma act_three_turn d p s :
  connected d (None, false) s -> known_as (None, false) p -> get_noise_step (Peer.channel_encryptor p) = ActThree -> Peer.pending_read_buffer_pos p = 0%nat ->
  runs (process_buffer d) (put_at d p s) (after_turn d).
Proof.
  intros Hs [(He & Hf & Hq & Hi & Hc) [= Hid Hup]] Hstep Hpos. unfold process_buffer. apply runs_get_peer. rewrite Hstep.
  destruct Hf as (_ & Hu & Hlen).
  destruct (act_three_total (Peer.pending_read_buffer p) (Peer.channel_encryptor p)) as (r & e & Er & Hr);
    [unfold get_noise_step in Hstep; by destruct (noise_state _) as [[] ? ?|]|done..|].
  eapply runs_encrypting; [exact Er|]. destruct r as [their|why]; cbn [or_disconnect]; [|apply (inv_broken d (None, false)); [done|by apply identity_of]].
  destruct (Hr _ eq_refl) as [He' Hstep']. destruct (complete_keys e He' Hstep') as (keys & Ek & Hk).
  unfold id_ok in Hi. rewrite Hid in Hi. destruct Hi as (_ & Hfe & _ & _ & Ha). by eapply finish_handshake_ok.
Qed.

(** Afterwards. *)
Lemma resize_ok n buf : all_u8 buf -> length (resize n buf) = n /\ all_u8 (resize n buf).
Proof.
  intros Hu. unfold resize. rewrite length_app, length_take, length_replicate. split; [lia|].
  apply Forall_app. split; [by apply Forall_take|by apply Forall_replicate].
Qed.

(** The peer after a half of a message is opened. *)
Lemma known_framed id up p k buf hdr :
  known_as (Some id, up) p -> keys_ok k -> (0 < length buf)%nat -> all_u8 buf -> Peer.pending_read_buffer_pos p = 0%nat ->
  (if hdr : bool then length buf = 18%nat else (18 <= length buf)%nat /\ Z.of_nat (length buf) <= LN_MAX_MSG_LEN + 16 /\ rn k <= 1000) ->
  known_as (Some id, up) (Peer.set_pending_read_is_header hdr (Peer.set_pending_read_buffer buf
    (Peer.set_channel_encryptor (set_noise (Peer.channel_encryptor p) (Finished k)) p))).
Proof.
  intros [(He & Hf & Hq & Hi & Hc) [= Hid Hup]] Hk Hl Hu Hpos Hb. split; [|by apply identity_of]. split_and!; [exact Hk| |exact Hq| |exact Hc].
  - unfold frame_ok. cbn. rewrite Hpos. by split_and!.
  - unfold id_ok. cbn. rewrite Hid. by exists k.
Qed.

Lemma header_turn d id up p keys s :
  connected d (Some id, up) s -> known_as (Some id, up) p -> noise_state (Peer.channel_encryptor p) = Finished keys -> keys_ok keys ->
  Peer.pending_read_is_header p = true -> Peer.pending_read_buffer_pos p = 0%nat ->
  runs (read_header d) (put_at d p s) (after_turn d).
Proof.
  intros Hs Hp Ek Hk Hh Hpos. unfold read_header. apply runs_get_peer. pose proof Hp as [(He & Hf & _) Hid].
  destruct Hf as (_ & Hu & Hlen). rewrite Ek, Hh in Hlen.
  destruct (header_total (Peer.pending_read_buffer p) (Peer.channel_encryptor p) keys Ek Hk Hlen Hu) as (r & k' & Er & Hk' & Hr).
  eapply runs_encrypting; [exact Er|]. destruct r as [len|why]; cbn [or_disconnect]; [|by apply (inv_broken d (Some id, up))].
  destruct (Hr len eq_refl) as [Hlen' Hrn]. unfold in_width in Hlen'. apply runs_modify.
  destruct (resize_ok (Z.to_nat len + 16) (Peer.pending_read_buffer p) Hu) as [Lr Ur].
  destruct (Z.ltb_spec len 2); [by apply (inv_broken d (Some id, up))|]. apply runs_modify.
  apply (still_connected _ (Some id, up)); [done|]. apply known_framed; cbn [Peer.pending_read_buffer Peer.set_channel_encryptor]; try done; [lia|].
  rewrite Lr. unfold LN_MAX_MSG_LEN, U16_MAX. split_and!; [lia..|done].
Qed.

(** What is decoded of a message. *)
Lemma read_safe (bs : bytes) :
  sized bs -> exists r rest, run Wire.read bs = (Ret (Ok r), rest) /\ forall m, r = Ok m -> message_in_range custom_ok m.
Proof.
  intros Hs. destruct (is_total (c := u16c) bs Hs) as ([t|e] & bs1 & E); [|unfold Wire.read; rewrite run_match, E; by eexists _, _].
  unfold Wire.read. rewrite run_match, E, run_match. pose proof (run_sized _ _ _ _ Hs E) as Hs1. pose proof E as Et. apply typed in Et; [|apply Hs].
  destruct (do_read_total custom_ok t bs1 Hs1) as ([m|e] & bs2 & E2); rewrite E2; eexists _, _; (split; [done|]); [|done].
  intros m' [= <-]. destruct (do_read_inv custom_ok t bs1 m bs2 Et (proj1 Hs1) E2) as [Hm _]. exact Hm.
Qed.

(** A message that cannot be decoded leaves the peer in order. *)
Lemma decode_error_ok id up e ty : triple (known_as (Some id, up)) (on_decode_error e ty) (fun t p => known_as (Some id, up) p /\ forall m, t <> Proceed m).
Proof.
  assert (Hwarn : forall data t, (forall m, t <> Proceed m) ->
    triple (known_as (Some id, up)) (_ ← enqueue_message (warn data); mret t) (fun t p => known_as (Some id, up) p /\ forall m, t <> Proceed m)).
  { intros data t Ht. eapply triple_bind; [apply (adds_known id _ 1), adds_message, text_sendable|]. intros []. by apply triple_ret. }
  unfold on_decode_error. destruct e; try apply Hwarn; try done; (destruct ty as [t|]; [destruct (is_gossip_msg t)|]); try (by apply Hwarn); by apply triple_ret.
Qed.

Lemma connected_but d id s : connected d id s -> manager_but d s.
Proof. intros [Hm _]. by apply inv_but. Qed.

Lemma body_turn d id up p keys s :
  connected d (Some id, up) s -> known_as (Some id, up) p -> noise_state (Peer.channel_encryptor p) = Finished keys -> keys_ok keys ->
  Peer.pending_read_is_header p = false -> Peer.pending_read_buffer_pos p = 0%nat ->
  runs (read_body d) (put_at d p s) (after_turn d).
Proof.
  intros Hs Hp Ek Hk Hh Hpos. unfold read_body. apply runs_get_peer. pose proof Hp as [(He & Hf & _) Hid].
  destruct Hf as (_ & Hu & Hlen). rewrite Ek, Hh in Hlen. destruct Hlen as (Hl1 & Hl2 & Hrn).
  destruct (message_total (Peer.pending_read_buffer p) (Peer.channel_encryptor p) keys Ek Hk Hrn) as (r & k' & Er & Hk' & Hr); [lia|lia|done|].
  eapply runs_encrypting; [exact Er|]. destruct r as [msg|why]; cbn [or_disconnect]; [|by apply (inv_broken d (Some id, up))].
  destruct (Hr msg eq_refl) as [Lm Um]. destruct (Nat.ltb_spec (length msg) 2); [lia|]. apply runs_modify.
  destruct (resize_ok 18 (Peer.pending_read_buffer p) Hu) as [Lr Ur].
  apply (runs_triple (connected d (Some id, up))).
  2: { apply (connected_put d (Some id, up) (Some id, up)); [done|done|]. apply known_framed; cbn [Peer.pending_read_buffer Peer.set_channel_encryptor]; try done. lia. }
  assert (Hdec : forall e ty, triple (connected d (Some id, up)) (with_peer d (on_decode_error e ty)) (after_turn d)).
  { intros e ty. eapply triple_post; [apply (with_peer_ok d (Some id, up) _ (fun t => forall m, t <> Proceed m)), decode_error_ok|].
    intros t s' [Hs' Ht]. destruct t as [m| |e']; [by destruct (Ht m)|by exists (Some id, up)|by eapply connected_but]. }
  destruct (read_safe msg) as (r & rest & Erd & Hm); [split; [done|]; unfold LN_MAX_MSG_LEN, U16_MAX in Hl2; lia|]. rewrite Erd. cbn [fst].
  eapply triple_bind; [apply triple_lift with (Q := fun r' s => r' = Ok r /\ connected d (Some id, up) s); by intros s' Hs'|].
  intros r'. apply (triple_fact (r' = Ok r)); [by intros s' []|]. intros ->. eapply triple_pre; [by intros s' [_ Hs']; exact Hs'|].
  destruct r as [m|[e ty]]; [|apply Hdec]. apply triple_ret. intros s' Hs'. exists id, up. by split; [|apply Hm].
Qed.

Lemma process_buffer_ok d id :
  triple (fun s => connected d id s /\ exists p, peers s !! d = Some p /\ Peer.pending_read_buffer_pos p = 0%nat) (process_buffer d) (after_turn d).
Proof.
  intros s [Hs (p & Ep & Hpos)]. destruct (connected_peer _ _ _ Hs) as (p' & Ep' & Hp). rewrite Ep in Ep'. injection Ep' as <-.
  rewrite <- (put_at_self d p s Ep). change (runs (process_buffer d) (put_at d p s) (after_turn d)).
  pose proof Hp as [(He & _ & _ & Hi & _) Hid]. destruct id as [[id|] up]; injection Hid as Hid Hup; unfold id_ok in Hi; rewrite Hid in Hi.
  - destruct (known_finished _ _ _ Hp) as (k & Ek & Hk). unfold process_buffer. apply runs_get_peer. unfold get_noise_step. rewrite Ek.
    destruct (Peer.pending_read_is_header p) eqn:Eh; [by eapply header_turn|by eapply body_turn].
  - destruct Hi as (Hi & Hfe & _). assert (up = false) as -> by (by rewrite <- Hup, Hfe).
    destruct (get_noise_step (Peer.channel_encryptor p)) eqn:En; [by apply act_one_turn|by apply act_two_turn|by apply act_three_turn|].
    unfold is_ready_for_encryption in Hi. unfold get_noise_step in En. by destruct (noise_state _) as [[] ? ?|].
Qed.

Lemma fill_buffer_ok id (data : bytes) :
  data <> [] -> all_u8 data ->
  triple (known_as id) (fill_buffer data) (fun r p => known_as id p /\
    ((r.1 = true -> Peer.pending_read_buffer_pos p = 0%nat) /\ (length r.2 < length data)%nat /\ all_u8 r.2)).
Proof.
  intros Hd Hu p [(He & Hf & Hq & Hi & Hc) Hid]. unfold fill_buffer, mbind, prog_bind, get, put. destruct Hf as (Hpos & Hb & Hlen).
  destruct (Nat.eqb_spec (length (Peer.pending_read_buffer p)) 0) as [|Hne]; [lia|].
  destruct (Nat.leb_spec (length (Peer.pending_read_buffer p)) (Peer.pending_read_buffer_pos p)); [lia|].
  set (len := length (Peer.pending_read_buffer p)) in *. set (pos := Peer.pending_read_buffer_pos p) in *. set (n := Nat.min (len - pos) (length data)).
  assert (Hn : (0 < n)%nat) by (destruct data; [done|]; cbn [length] in n; subst n; lia).
  set (buf := take pos _ ++ _). assert (Lb : length buf = len).
  { unfold buf. rewrite !length_app, !length_take, length_drop. fold len. lia. }
  assert (Ub : all_u8 buf) by (unfold buf; apply Forall_app; split; [by apply Forall_take|]; apply Forall_app; split; [by apply Forall_take|by apply Forall_drop]).
  split; [split; [split_and!|]; try done|split_and!].
  - unfold frame_ok. cbn. rewrite Lb. split_and!; [destruct (Nat.eqb_spec (pos + n) len); lia|done|done].
  - cbn. intros ->. done.
  - cbn. rewrite length_drop. lia.
  - by apply Forall_drop.
Qed.

(** ** Handling a message *)

Definition after_message (d : D) (k : PublicKey) (r : result (option Message) MessageHandlingError) s : Prop :=
  (exists up, connected d (Some k, up) s) /\
  match r with
  | Ok (Some m) => sendable m /\ is_forwardable m = true
  | Err (IsLightningError e) => error_sendable e
  | _ => True
  end.

Lemma forwarded_sendable m : message_in_range custom_ok m -> is_forwardable m = true -> sendable m.
Proof. intros Hm Hf. apply (message_octets custom_ok). by destruct m. Qed.

Lemma forward_if_ok d k up (m : prog RM (result bool LightningError)) msg :
  handler_ok route_inv m -> message_in_range custom_ok msg -> is_forwardable msg = true ->
  triple (connected d (Some k, up)) (forward_if m msg) (after_message d k).
Proof.
  intros Hm Hmsg Hf. unfold forward_if. eapply triple_bind; [by apply on_route_ok|]. intros r. apply triple_ret. intros s [Hs He].
  split; [by exists up|]. destruct r as [[]|e]; [|done|by apply He]. split; [by apply forwarded_sendable|done].
Qed.

Lemma done_or_error_ok d k up m :
  triple (connected d (Some k, up)) m (fun r s => connected d (Some k, up) s /\ forall e, r = Err e -> error_sendable e) ->
  triple (connected d (Some k, up)) (done_or_error m) (after_message d k).
Proof.
  intros Hm. unfold done_or_error. eapply triple_bind; [exact Hm|]. intros r. apply triple_ret. intros s [Hs He].
  split; [by exists up|]. destruct r as [|e]; [done|by apply He].
Qed.

Lemma on_custom_ok {A} d id (m : prog X (result A LightningError)) :
  handler_ok (fun _ => True) m -> triple (connected d id) (on_custom m) (fun r s => connected d id s /\ forall e, r = Err e -> error_sendable e).
Proof. intros Hm s Hs. unfold on_custom. destruct (Hm (custom_handler s) I) as (res & x & -> & _ & He). by split. Qed.

Lemma handled_ret d k up r : match r with Ok (Some m) => sendable m /\ is_forwardable m = true | Err (IsLightningError e) => error_sendable e | _ => True end ->
  triple (connected d (Some k, up)) (mret r) (after_message d k).
Proof. intros Hr. apply triple_ret. intros s Hs. by split; [exists up|]. Qed.

Lemma called_ok d k call r :
  call_ok call -> (forall m, call <> PeerConnected m) -> (forall b, call <> PeerDisconnected b) ->
  match r with Ok (Some m) => sendable m /\ is_forwardable m = true | Err (IsLightningError e) => error_sendable e | _ => True end ->
  triple (connected d (Some k, true)) (_ ← call_chan k call; mret r) (after_message d k).
Proof. intros Hok Hc Hd Hr. eapply triple_bind; [by apply call_chan_ok|]. intros []. by apply handled_ret. Qed.

Lemma dispatch_ok now d k features m :
  clock now -> message_in_range custom_ok m -> triple (connected d (Some k, true)) (dispatch now d k features m) (after_message d k).
Proof.
  intros Hnow Hm. destruct m; cbn [dispatch channel_call_of]; try (by apply called_ok); try (by apply handled_ret).
  all: try (apply done_or_error_ok, on_route_ok; first [apply law_query_scids|apply law_reply_scids_end|apply law_reply_channel_range|by apply law_query_channel_range]).
  - apply called_ok; [exact Hm|done|done|]. by case_bool_decide.
  - apply triple_bind with (R := fun _ => connected d (Some k, true)); [|intros []; by apply handled_ret]. destruct (_ <? _) eqn:E; [|by apply triple_ret].
    apply with_peer_unit, (adds_known k _ 1), adds_message, (message_octets custom_ok). apply Hm.
  - apply triple_bind with (R := fun _ => connected d (Some k, true)); [|intros []; by apply handled_ret]. apply with_peer_unit, triple_modify. intros p Hp.
    apply inv_sent; [|done]. by apply inv_intervals.
  - apply forward_if_ok; [|done|done]. by apply law_channel_announcement.
  - apply forward_if_ok; [|done|done]. by apply law_node_announcement.
  - eapply triple_bind; [by apply call_chan_ok|]. intros []. apply forward_if_ok; [|done|done]. by apply law_channel_update.
  - apply handled_ret. by destruct (is_even _).
  - apply done_or_error_ok, on_custom_ok, law_custom_handle.
Qed.

(** The channel handler is told of the peer, and then its features are known. *)
Lemma connect_ok d k msg features :
  Init.ok msg ->
  triple (connected d (Some k, false)) (_ ← call_chan k (PeerConnected msg); with_peer d (modify (Peer.set_their_features (Some features))))
    (fun _ => connected d (Some k, true)).
Proof.
  intros Hok s [(Hl & (live & Hi & Hn) & Hp & Hr) (p & E & Hid)]. unfold mbind, prog_bind, call_chan, modify, with_peer. cbn [peers set_chan]. rewrite E.
  set (p' := Peer.set_their_features (Some features) p). assert (Hp' : known_as (Some k, true) p') by (apply (inv_features features p k false); by split; [apply (Hp d)|]).
  injection Hid as Hk Hup. pose proof Hp' as [Hpi Hid'].
  split; [split_and!|exists p'; split; [apply lookup_insert_eq|done]].
  - by apply (links_put d p p' (set_chan (chan_call k (PeerConnected msg) (chan_handler s)) s)).
  - assert (Hnot : from_pubkey k ∉ live).
    { intros (d' & q & k' & Eq & Hk' & Ek)%Hn. assert (E1 : node_id_to_descriptor s !! from_pubkey k = Some d) by (apply Hl; eauto).
      injection Hk' as Hk' Hup'. assert (E2 : node_id_to_descriptor s !! from_pubkey k = Some d') by (apply Hl; rewrite Ek; eauto).
      rewrite E1 in E2. injection E2 as <-. rewrite E in Eq. injection Eq as <-. by rewrite Hup in Hup'. }
    exists ({[from_pubkey k]} ∪ live). split; [by apply (law_chan_call live k (PeerConnected msg))|]. intros n. rewrite elem_of_union, elem_of_singleton, (Hn n). cbn. split.
    + intros [-> | (d' & q & k' & Eq & Hk' & ->)]; [exists d, p', k; by rewrite lookup_insert_eq|].
      exists d', q, k'. rewrite lookup_insert_ne; [done|]. intros <-. rewrite E in Eq. injection Eq as <-. apply (f_equal snd) in Hk'. cbn in Hk'. by rewrite Hup in Hk'.
    + intros (d' & q & k' & Eq & Hk' & ->). destruct (decide (d' = d)) as [->|Hne].
      * rewrite lookup_insert_eq in Eq. injection Eq as <-. rewrite Hid' in Hk'. injection Hk' as ->. by left.
      * rewrite lookup_insert_ne in Eq by done. right. eauto 6.
  - by apply map_Forall_insert_2.
  - exact Hr.
Qed.

Lemma bind_assoc {A B C} (m : prog manager A) (f : A -> prog manager B) (g : B -> prog manager C) s : ((m ≫= f) ≫= g) s = (m ≫= fun a => f a ≫= g) s.
Proof. unfold mbind, prog_bind. by destruct (m s) as [[a|why|] s']. Qed.

Lemma handle_init_ok now d k up msg :
  clock now -> Init.ok msg -> triple (connected d (Some k, up)) (handle_init now d k msg) (after_message d k).
Proof.
  intros Hnow Hok. unfold handle_init. apply get_peer_ok. intros p [_ Hid]. eapply triple_pre; [intros s [Hs _]; exact Hs|].
  destruct (requires_unknown_bits _ _); [by apply handled_ret|]. case_bool_decide as Hfe; [|by apply handled_ret]. cbn [negb].
  injection Hid as Hk Hup. assert (up = false) as -> by (by rewrite <- Hup, Hfe).
  apply triple_bind with (R := fun _ => connected d (Some k, false)).
  { destruct (_ && _); [|by apply triple_ret]. apply with_peer_unit, triple_modify. intros q. apply inv_sync. }
  intros []. destruct (negb _); [by apply handled_ret|].
  apply triple_bind with (R := fun _ => connected d (Some k, false)).
  { intros s [(Hl & Ht & Hps & Hr) Hc]. unfold on_route. destruct (law_peer_connected now k msg _ Hnow Hr) as (r' & -> & Hr'). by split. }
  intros [] s Hs. rewrite <- bind_assoc. revert s Hs. eapply triple_bind; [by apply connect_ok|]. intros []. by apply handled_ret.
Qed.

Lemma handle_message_ok now d k up m :
  clock now -> message_in_range custom_ok m -> triple (connected d (Some k, up)) (handle_message now d m) (after_message d k).
Proof.
  intros Hnow Hm. unfold handle_message. apply get_peer_ok. intros p [Hp [= Hid Hup]]. eapply triple_pre; [intros s [Hs _]; exact Hs|].
  rewrite Hid. cbn [Prelude.unwrap].
  eapply triple_bind; [apply triple_lift with (Q := fun k' s => connected d (Some k, up) s /\ k' = k); by intros s Hs|].
  intros k'. apply (triple_fact (k' = k)); [by intros s []|]. intros ->. eapply triple_pre; [intros s [Hs _]; exact Hs|].
  eapply triple_bind; [apply with_peer_unit, triple_modify; intros q; apply inv_received|]. intros [].
  destruct (Peer.their_features p) as [features|]; [|destruct m; by apply handle_init_ok || apply handled_ret].
  assert (up = true) as -> by done.
  assert (Hf : triple (connected d (Some k, true)) (_ ← (if supports_feature GossipQueries features && negb (Peer.sent_gossip_timestamp_filter p)
      then with_peer d (modify (fun p => Peer.set_sync_status (ChannelsSyncing 0) (Peer.set_sent_gossip_timestamp_filter true p))) else mret tt); mret (Ok None))
      (after_message d k)).
  { apply triple_bind with (R := fun _ => connected d (Some k, true)); [|intros []; by apply handled_ret].
    destruct (_ && _); [|by apply triple_ret]. apply with_peer_unit, triple_modify. intros q Hq. by apply inv_sync, inv_filter. }
  destruct m; by apply handle_init_ok || apply Hf || apply dispatch_ok.
Qed.

Lemma lightning_error_ok k up e :
  error_sendable e -> triple (known_as (Some k, up)) (handle_lightning_error e) (fun _ => known_as (Some k, up)).
Proof.
  unfold error_sendable, handle_lightning_error. intros He. destruct (action e); try by apply triple_ret.
  all: eapply triple_bind; [by apply (adds_known k _ 1), adds_message|]; intros []; by apply triple_ret.
Qed.

(** ** The loop *)

Definition forwards (st : reading) : Prop := Forall (fun m => sendable m /\ is_forwardable m = true) (msgs_to_forward st).

Definition after_read (d : D) (n : nat) (r : result (bytes * reading) PeerHandleError) s : Prop :=
  match r with
  | Ok (data, st) => (exists id, connected d id s) /\ (length data < n)%nat /\ all_u8 data /\ forwards st
  | Err _ => manager_but d s
  end.

(** The end of a turn: pausing, and the message if there is one. *)
Lemma turn_end_ok now d data st node t n :
  clock now -> (length data < n)%nat -> all_u8 data -> forwards st ->
  triple (after_turn d t)
    match t with
    | Fail e => mret (Err e)
    | Skip => mret (Ok (data, mkReading node (msgs_to_forward st) (pause_read st)))
    | Proceed msg_to_handle =>
        p ← get_peer d;
        let pause := (OUTBOUND_BUFFER_LIMIT_READ_PAUSE <? queue_len p)%nat in
        let st := mkReading node (msgs_to_forward st) pause in
        match msg_to_handle with
        | None => mret (Ok (data, st))
        | Some message =>
            r ← handle_message now d message;
            match r with
            | Err (IsPeerHandleError e) => mret (Err e)
            | Err (IsLightningError e) =>
                o ← with_peer d (handle_lightning_error e);
                mret match o with Some e => Err e | None => Ok (data, st) end
            | Ok (Some msg) => mret (Ok (data, mkReading node (msgs_to_forward st ++ [msg]) pause))
            | Ok None => mret (Ok (data, st))
            end
        end
    end (after_read d n).
Proof.
  intros Hnow Hl Hu Hst. destruct t as [msg| |e]; [|by apply triple_ret; intros s Hs; split_and!|by apply triple_ret].
  intros s Hs. destruct msg as [m|].
  - destruct Hs as (k & up & Hs & Hm). revert s Hs. apply get_peer_ok. intros p Hp. eapply triple_pre; [intros s [Hs _]; exact Hs|].
    eapply triple_bind; [by apply handle_message_ok|]. intros [[m'|]|[e|e]].
    + apply triple_ret. intros s [[up' Hs] Hm']. split_and!; [by exists (Some k, up')|done|done|]. apply Forall_app. split; [exact Hst|by apply Forall_singleton].
    + apply triple_ret. intros s [[up' Hs] _]. split_and!; [by exists (Some k, up')|done..].
    + apply triple_ret. intros s [[up' Hs] _]. by eapply connected_but.
    + apply (triple_fact (error_sendable e)); [by intros s []|]. intros He s [[up' Hs] _]. revert s Hs.
      eapply triple_bind; [apply (with_peer_ok d (Some k, up') _ (fun _ => True)); eapply triple_post; [by apply lightning_error_ok|by intros]|].
      intros o. apply triple_ret. intros s [Hs _]. destruct o; [by eapply connected_but|]. split_and!; [by exists (Some k, up')|done..].
  - destruct Hs as (id & Hs). revert s Hs. apply get_peer_ok. intros p Hp. apply triple_ret. intros s [Hs _]. split_and!; [by exists id|done..].
Qed.

Lemma read_turn_ok now d id data st :
  clock now -> data <> [] -> all_u8 data -> forwards st ->
  triple (connected d id) (read_turn now d data st) (after_read d (length data)).
Proof.
  intros Hnow Hd Hu Hst. unfold read_turn. apply get_peer_ok. intros p Hp. eapply triple_pre; [intros s [Hs _]; exact Hs|].
  eapply triple_bind.
  { apply (with_peer_post d id _ (fun r q => (r.1 = true -> Peer.pending_read_buffer_pos q = 0%nat) /\ (length r.2 < length data)%nat /\ all_u8 r.2)).
    by apply fill_buffer_ok. }
  intros [full data']. cbn [fst snd]. apply (triple_fact ((length data' < length data)%nat /\ all_u8 data')); [intros s (_ & q & _ & _ & ?); done|].
  intros [Hl Hu']. eapply triple_bind.
  - destruct full; [eapply triple_pre; [|apply (process_buffer_ok d id)]|apply triple_ret].
    + intros s (Hs & q & Eq & Hq & _). split; [done|]. exists q. auto.
    + intros s [Hs _]. by exists id.
  - intros t. by apply turn_end_ok.
Qed.

Lemma read_loop_ok fuel now d id data st :
  clock now -> all_u8 data -> forwards st -> (length data <= fuel)%nat ->
  triple (connected d id) (read_loop fuel now d data st)
    (fun r s => match r with Ok st' => (exists id', connected d id' s) /\ forwards st' | Err _ => manager_but d s end).
Proof.
  intros Hnow. revert id data st. induction fuel as [|fuel IH]; intros id data st Hu Hst Hl.
  - destruct data; [|cbn in Hl; lia]. apply triple_ret. intros s Hs. split; [by exists id|done].
  - destruct data as [|b data]; [apply triple_ret; intros s Hs; split; [by exists id|done]|]. cbn [read_loop]. unfold bind_ok.
    eapply triple_bind; [by apply read_turn_ok|]. intros [[data' st']|e]; [|by apply triple_ret].
    intros s ((id' & Hs) & Hl' & Hu' & Hst'). cbn [fst snd]. revert s Hs. apply IH; [done|done|cbn [length] in *; lia].
Qed.

(** ** Forwarding *)

(** A program on each peer of the map, whoever it is. *)
Definition inv_over (ds : gset D) s : Prop := manager_inv s /\ dom (peers s) = ds.

Lemma over_connected ds d s : inv_over ds s -> d ∈ ds -> exists id, connected d id s.
Proof.
  intros [Hm <-] Hd. apply elem_of_dom in Hd as [p E]. exists (identity p). split; [done|]. by exists p.
Qed.
Lemma dom_put d p s : d ∈ dom (peers s) -> dom (peers (put_at d p s)) = dom (peers s).
Proof. intros Hd. cbn. rewrite dom_insert_L. set_solver. Qed.

Lemma over_peer {A} ds d (m : prog Peer.t A) :
  (forall id, triple (known_as id) m (fun _ => known_as id)) -> d ∈ ds ->
  triple (inv_over ds) (with_peer d m) (fun _ => inv_over ds).
Proof.
  intros Hm Hd s Hs. destruct (over_connected _ _ _ Hs Hd) as [id Hc]. destruct (connected_peer _ _ _ Hc) as (p & E & Hp).
  rewrite (with_peer_in _ _ _ _ E). specialize (Hm id p Hp). destruct (m p) as [[a|why|] p']; [|done..].
  destruct Hs as [_ Hdom]. split; [eapply (connected_put d id id); by try exact Hc|]. rewrite dom_put; [done|]. by rewrite Hdom.
Qed.

Lemma for_each_ok {A} (I : manager -> Prop) (f : A -> prog manager unit) (l : list A) :
  (forall a, a ∈ l -> triple I (f a) (fun _ => I)) -> triple I (for_each l f) (fun _ => I).
Proof. intros Hf. apply (triple_foldM (fun _ => I)). intros [] a Ha. by apply Hf. Qed.

Lemma forward_to_ok id msg (encoded : bytes) except :
  is_forwardable msg = true -> all_u8 encoded -> triple (known_as id) (forward_to msg encoded except) (fun _ => known_as id).
Proof.
  intros Hf Hu. unfold forward_to. apply triple_get. intros p Hp.
  assert (Hstay : triple (fun q => q = p) (mret tt) (fun _ => known_as id)) by (apply triple_ret; by intros s ->).
  destruct (is_ready_for_encryption _) eqn:Er; [|exact Hstay]. destruct (Peer.their_features p) as [features|] eqn:Ef; [|exact Hstay].
  cbn. destruct id as [[id|] up].
  2: { destruct Hp as [(_ & _ & _ & Hi & _) [= Hid _]]. unfold id_ok in Hi. rewrite Hid in Hi. destruct Hi as [Hi _]. congruence. }
  eapply triple_bind; [apply triple_lift with (Q := fun _ q => q = p)|].
  - intros s ->. destruct msg; try done; cbn; unfold should_forward_channel_announcement, should_forward_node_announcement; rewrite Ef; cbn;
      by destruct (_ && _).
  - intros forward. repeat (destruct (if _ then _ else _) || case_match; try exact Hstay).
    all: intros s ->; pose proof (enqueue_encoded_ok id up encoded p Hu p (conj Hp eq_refl)) as He;
      destruct (enqueue_encoded_message encoded p) as [[[]|why|] p']; [|done..]; by destruct He.
Qed.

Lemma forward_broadcast_ok msg except :
  sendable msg -> is_forwardable msg = true -> triple manager_inv (forward_broadcast_msg msg except) (fun _ => manager_inv).
Proof.
  intros Hs Hf. unfold forward_broadcast_msg. rewrite Hf. apply triple_get. intros s0 Hs0.
  eapply triple_conseq with (P' := inv_over (dom (peers s0))) (Q' := fun _ => inv_over (dom (peers s0))); [by intros s ->| |by intros [] s [Hm _]].
  apply for_each_ok. intros [d p] Hd. apply elem_of_map_to_list in Hd. cbn. apply over_peer.
  - intros id. by apply forward_to_ok.
  - by apply elem_of_dom_2 in Hd.
Qed.

(** ** Reading *)

Lemma do_read_ok now d data :
  clock now -> all_u8 data -> triple manager_inv (do_read_event now d data)
    (fun r s => match r with Ok _ => manager_inv s | Err _ => manager_but d s end).
Proof.
  intros Hnow Hu. unfold do_read_event. apply triple_get. intros s0 Hs0. destruct (peers s0 !! d) as [p|] eqn:E.
  - eapply triple_pre with (P' := connected d (identity p)); [intros s ->; split; [done|by exists p]|]. unfold bind_ok.
    eapply triple_bind; [apply read_loop_ok; [done|done|constructor|done]|]. intros [st|e]; [|by apply triple_ret].
    apply (triple_fact (forwards st)); [by intros s []|]. intros Hst. eapply triple_pre with (P' := manager_inv); [by intros s [(id & Hs & _) _]|].
    apply triple_bind with (R := fun _ => manager_inv); [|intros []; by apply triple_ret]. apply for_each_ok. intros m Hm.
    unfold forwards in Hst. rewrite Forall_forall in Hst. destruct (Hst m Hm). by apply forward_broadcast_ok.
  - apply triple_ret. intros s ->. by apply inv_but.
Qed.

Lemma read_event_ok now d data :
  clock now -> all_u8 data -> triple manager_inv (read_event now d data) (fun _ => manager_inv).
Proof.
  intros Hnow Hu. unfold read_event. eapply triple_bind; [by apply do_read_ok|]. intros [res|e]; [by apply triple_ret|].
  eapply triple_bind; [apply disconnect_event_ok|]. intros []. by apply triple_ret.
Qed.
End PeerRead.
