(* ===== verification/PeerReach.v ===== *)
(** * The manager from its creation

    Every operation the driver, the sockets and the timer can call, in any order, with any
    bytes: the maps of the manager stay consistent, every peer stays in order, and the only
    panics are the two named ones. *)

From S2P Require Import Prelude Text HexUtils Bytes ChaCha20 Poly1305 Stream Ser SerLaws Aead Tlv Features Msgs OnionHop ChannelMsgs ChannelMsgsLaws GossipMsgs Wire Octets Noise NoiseSafe Onion OnionError GossipSync Graph PeerManager PeerSpec PeerSafe PeerRead.

Local Open Scope Z_scope.

Section PeerReach.
Context `{SecpLaws} `{!NoiseCrypto} `{!NoiseLaws} `{!FixedTimeEq} `{!FixedTimeEqLaws} `{!PeerCrypto} `{!PeerLaws} `{Hcmr : CustomMessageReader}.
Context {custom_ok : CustomMessage -> Prop} `{!CustomLaws custom_ok}.
Context {CM RM X D W : Type} `{Countable D}.
Context `{!ChannelMessageHandler CM, !RoutingMessageHandler RM, !CustomMessageHandler X, !SocketDescriptor D W}.
Context {chan_inv : gset NodeId -> CM -> Prop} {route_inv : RM -> Prop} {clock : Z -> Prop}.
Context `{!ChannelLaws CM chan_inv, !RoutingLaws RM route_inv clock, !CustomHandlerLaws X, !SocketLaws D W}.

Abbreviation manager := (@PeerManager _ _ CM RM X D W _ _).
Implicit Types s : manager.
Abbreviation manager_inv := (PeerSafe.manager_inv (CM := CM) (X := X) (D := D) (W := W) (chan_inv := chan_inv) (route_inv := route_inv)).
Abbreviation manager_but := (PeerSafe.manager_but (CM := CM) (X := X) (D := D) (W := W) (chan_inv := chan_inv) (route_inv := route_inv)).
Abbreviation inv_over := (PeerRead.inv_over (CM := CM) (X := X) (D := D) (W := W) (chan_inv := chan_inv) (route_inv := route_inv)).
Abbreviation connected := (PeerSafe.connected (CM := CM) (X := X) (D := D) (W := W) (chan_inv := chan_inv) (route_inv := route_inv)).

(** ** New connections *)

Lemma new_peer_ok e a :
  encryptor_ok e -> get_noise_step e = ActOne \/ get_noise_step e = ActTwo -> (forall x, a = Some x -> NetAddress.ok x) -> known_as (None, false) (new_peer e a).
Proof.
  intros He Hs Ha. unfold get_noise_step in Hs. split; [|done]. split_and!.
  - exact He.
  - unfold frame_ok. cbn -[replicate]. rewrite length_replicate. split_and!; [lia|apply zeros_u8|].
    destruct (noise_state e) as [[] ? ?|]; by destruct Hs.
  - done.
  - unfold id_ok. cbn. split_and!; try done. unfold is_ready_for_encryption. destruct (noise_state e) as [[] ? ?|]; by destruct Hs.
  - by split.
Qed.

Lemma insert_peer_ok d p :
  known_as (None, false) p -> triple (fun s => manager_inv s /\ peers s !! d = None) (insert_peer d p) (fun _ => manager_inv).
Proof.
  intros [Hp [= Hid Hup]] s [(Hl & (live & Hi & Hn) & Hps & Hr) E]. unfold insert_peer, mbind, prog_bind, get, put_peer, modify. rewrite E.
  split_and!; [| |by apply map_Forall_insert_2|done].
  - intros n d'. cbn. rewrite (Hl n d'). destruct (decide (d' = d)) as [->|Hd]; [|by rewrite lookup_insert_ne].
    rewrite lookup_insert_eq, E. split; [by intros (? & ? & ? & _)|]. intros (q & k & Eq & Hk & _). congruence.
  - exists live. split; [exact Hi|]. intros n. rewrite (Hn n). cbn. split; intros (d' & q & k & Eq & Hk & ->); exists d', q, k.
    + rewrite lookup_insert_ne; [done|]. intros <-. congruence.
    + destruct (decide (d' = d)) as [->|Hd]; [|by rewrite lookup_insert_ne in Eq]. rewrite lookup_insert_eq in Eq. injection Eq as <-.
      injection Hk as Hk _. congruence.
Qed.

Lemma outbound_ok k d a :
  (forall x, a = Some x -> NetAddress.ok x) ->
  triple (fun s => manager_inv s /\ peers s !! d = None) (new_outbound_connection k d a) (fun _ => manager_inv).
Proof.
  intros Ha s Hs. unfold new_outbound_connection. destruct (ephemeral_key_made s) as (key & c & Ek).
  change (runs (key ← get_ephemeral_key; let '(o, encryptor) := get_act_one (new_outbound k key) in
    res ← lift o; _ ← insert_peer d (new_peer encryptor a); mret (Ok res)) s (fun (_ : result bytes PeerHandleError) => manager_inv)).
  eapply runs_eq; [exact Ek|]. destruct (act_one_made k key) as (act & e & Ea & _ & He & Hstep). rewrite Ea.
  eapply runs_eq; [done|]. apply (runs_triple (fun s => manager_inv s /\ peers s !! d = None)); [|exact Hs]. eapply triple_bind; [apply insert_peer_ok, new_peer_ok; auto|].
  intros []. by apply triple_ret.
Qed.

Lemma inbound_ok d a :
  (forall x, a = Some x -> NetAddress.ok x) ->
  triple (fun s => manager_inv s /\ peers s !! d = None) (new_inbound_connection d a) (fun _ => manager_inv).
Proof.
  intros Ha. unfold new_inbound_connection. apply triple_get. intros s Hs. eapply triple_pre with (P' := fun s => manager_inv s /\ peers s !! d = None); [by intros ? ->|].
  eapply triple_bind; [apply insert_peer_ok, new_peer_ok; [apply new_inbound_ok|by left|done]|]. intros []. by apply triple_ret.
Qed.

(** ** Disconnecting *)

(** The connection of a node has been taken out, and the channel handler is about to be told. *)
Definition detached (k : PublicKey) s : Prop :=
  links s /\ (exists live, chan_inv live (chan_handler s) /\ forall n, n ∈ live ∖ {[from_pubkey k]} <->
     exists d p k', peers s !! d = Some p /\ identity p = (Some k', true) /\ n = from_pubkey k') /\
  map_Forall (fun _ p => peer_inv p) (peers s) /\ route_inv (route_handler s).

Lemma drop_linked s k d :
  manager_inv s -> node_id_to_descriptor s !! from_pubkey k = Some d ->
  detached k (set_peers (delete d (peers s)) (set_ids (delete (from_pubkey k) (node_id_to_descriptor s)) s)).
Proof.
  intros (Hl & Ht & Hp & Hr) E. pose proof E as (p & k' & Ep & Hk & Ek)%Hl. rewrite Ek.
  split_and!; [exact (links_delete _ _ _ _ Hl Ep Hk)| |by apply map_Forall_delete|done].
  destruct Ht as (live & Hi & Hn). exists live. split; [exact Hi|]. rewrite Ek. intros n. rewrite elem_of_difference, not_elem_of_singleton, (Hn n). cbn. split.
  - intros [(d' & q & k2 & Eq & Hk2 & ->) Hne]. exists d', q, k2. rewrite lookup_delete_ne; [done|]. intros <-. injection Hk2 as Hk2 _. congruence.
  - intros (d' & q & k2 & Eq & Hk2 & ->). apply lookup_delete_Some in Eq as [Hne Eq]. split; [eauto 6|]. intros Ek2.
    injection Hk2 as Hk2 _. assert (node_id_to_descriptor s !! from_pubkey k2 = Some d') by (apply Hl; eauto). congruence.
Qed.

Lemma tell_gone k b : triple (detached k) (call_chan k (PeerDisconnected b)) (fun _ => manager_inv).
Proof.
  apply triple_modify. intros s (Hl & (live & Hi & Hn) & Hp & Hr). split_and!; [exact Hl| |exact Hp|exact Hr].
  exists (live ∖ {[from_pubkey k]}). split; [by apply (law_chan_call live k (PeerDisconnected b))|exact Hn].
Qed.

Lemma disconnect_by_id_ok k b : triple manager_inv (disconnect_by_node_id k b) (fun _ => manager_inv).
Proof.
  unfold disconnect_by_node_id. apply triple_get. intros s Hs. destruct (node_id_to_descriptor s !! from_pubkey k) as [d|] eqn:E.
  - eapply triple_bind; [apply triple_put with (Q := fun _ => detached k); intros _ _; by apply drop_linked|]. intros [].
    eapply triple_bind; [apply tell_gone|]. intros []. apply disconnect_inv.
  - apply triple_ret. by intros ? ->.
Qed.

(** All peers have been taken out, and the channel handler is told of those that are left. *)
Definition emptied (l : list (D * Peer.t)) s : Prop :=
  peers s = ∅ /\ node_id_to_descriptor s = ∅ /\ route_inv (route_handler s) /\
  exists live, chan_inv live (chan_handler s) /\ forall n, n ∈ live -> exists e k, e ∈ l /\ Peer.their_node_id e.2 = Some k /\ n = from_pubkey k.

Lemma emptied_nil s : emptied [] s -> manager_inv s.
Proof.
  intros (Hp & Hd & Hr & live & Hi & Hn). split_and!; [| |rewrite Hp; apply map_Forall_empty|done].
  - intros n d. rewrite Hp, Hd, !lookup_empty. split; [done|]. by intros (? & ? & ? & _).
  - exists live. split; [done|]. intros n. rewrite Hp. split; [intros (e & k & Hin & _)%Hn; set_solver|]. intros (d & p & k & E & _). by rewrite lookup_empty in E.
Qed.

Lemma drop_all l : triple (emptied l) (for_each l drop_peer) (fun _ => manager_inv).
Proof.
  induction l as [|[d p] l IH]; [apply triple_ret, emptied_nil|]. unfold for_each. cbn [foldM]. apply triple_bind with (R := fun _ => emptied l); [|intros []; exact IH].
  unfold drop_peer. apply triple_bind with (R := fun _ => emptied l); [|intros []; by apply triple_modify]. cbn [snd].
  destruct (Peer.their_node_id p) as [k|] eqn:Ek; [apply triple_modify|apply triple_ret]; intros s (Hp & Hd & Hr & live & Hi & Hn); split_and!; try done.
  - exists (live ∖ {[from_pubkey k]}). split; [by apply (law_chan_call live k (PeerDisconnected false))|].
    intros n [(e & k' & Hin & Hk' & ->)%Hn Hne]%elem_of_difference. exists e, k'. split_and!; [|done|done].
    apply elem_of_cons in Hin as [-> |Hin]; [|done]. cbn in Hk'. set_solver.
  - exists live. split; [done|]. intros n (e & k' & Hin & Hk' & ->)%Hn. exists e, k'. split_and!; [|done|done].
    apply elem_of_cons in Hin as [-> |Hin]; [|done]. cbn in Hk'. congruence.
Qed.

Lemma disconnect_all_ok : triple manager_inv disconnect_all_peers (fun _ => manager_inv).
Proof.
  unfold disconnect_all_peers. apply triple_get. intros s (Hl & (live & Hi & Hn) & Hp & Hr).
  eapply triple_bind; [apply triple_put with (Q := fun _ => emptied (map_to_list (peers s))); intros _ _|intros []; apply drop_all].
  split_and!; [done..|]. exists live. split; [exact Hi|]. intros n (d & p & k & E & Hk & ->)%Hn. exists (d, p), k.
  injection Hk as Hk _. split_and!; [by apply elem_of_map_to_list|done|done].
Qed.

(** ** Events *)

Lemma broadcast_ok (m : prog RM (result bool LightningError)) msg :
  handler_ok route_inv m -> message_ok custom_ok msg -> is_forwardable msg = true -> triple manager_inv (broadcast_if m msg) (fun _ => manager_inv).
Proof.
  intros Hm Hs Hf. apply (message_octets custom_ok) in Hs. unfold broadcast_if. eapply triple_bind; [by apply on_route_inv|].
  intros [b|e]; [by apply forward_broadcast_ok|]. destruct (action e); try (by apply triple_ret). by apply forward_broadcast_ok.
Qed.

(** A message is sent to a peer that is linked. *)
Lemma send_to_ok pd k msgs : Forall sendable msgs -> triple manager_inv (send_to pd k msgs) (fun _ => manager_inv).
Proof.
  intros Hm. unfold send_to. apply triple_get. intros s Hs. assert (Hstay : triple (fun s' => s' = s) (mret tt) (fun _ => manager_inv)) by (apply triple_ret; by intros ? ->).
  destruct (pd !! from_pubkey k); [exact Hstay|]. destruct (node_id_to_descriptor s !! from_pubkey k) as [d|] eqn:E; [|exact Hstay].
  pose proof Hs as (Hl & _ & _). apply Hl in E as (p & k' & Ep & Hk & _). rewrite Ep. case_bool_decide; [exact Hstay|].
  eapply triple_conseq with (P' := connected d (Some k', true)) (Q' := fun _ => connected d (Some k', true));
    [intros ? ->; split; [done|exists p; split; [done|by apply identity_of; [|apply bool_decide_true]]]| |by intros [] ? []].
  by eapply with_peer_unit, adds_known, adds_all.
Qed.

(** The peers to be disconnected: under their ids, with what can still be sent to them. *)
Definition pending_ok (pd : pending_disconnects) : Prop :=
  map_Forall (fun n (e : PublicKey * option ErrorMessage.t) => n = from_pubkey e.1 /\ forall msg, e.2 = Some msg -> sendable (MError msg)) pd.

Lemma process_event_ok now pd event :
  clock now -> event_sendable event -> pending_ok pd ->
  triple manager_inv (process_event now pd event) (fun pd' s => pending_ok pd' /\ manager_inv s).
Proof.
  intros Hnow He Hpd.
  assert (Hret : forall m : prog manager unit, triple manager_inv m (fun _ => manager_inv) ->
    triple manager_inv (_ ← m; mret pd) (fun pd' s => pending_ok pd' /\ manager_inv s)).
  { intros m Hm. eapply triple_bind; [exact Hm|]. intros []. by apply triple_ret. }
  destruct event as [| | | | | | | | | | |msg update|msg|msg| |node_id action| | | |]; cbn [process_event message_for].
  all: try (apply Hret, send_to_ok; by eapply He).
  - destruct He as [Ha Hu]. eapply triple_bind; [apply broadcast_ok; [by apply law_channel_announcement|done|done]|]. intros [].
    apply Hret, broadcast_ok; [by apply law_channel_update|done|done].
  - apply Hret, broadcast_ok; [by apply law_node_announcement|done|done].
  - apply Hret, broadcast_ok; [by apply law_channel_update|done|done].
  - destruct action as [msg| | | | |]; cbn [message_for]; try (by apply Hret, triple_ret); try (apply Hret, send_to_ok; by eapply He).
    apply triple_ret. intros s Hs. split; [|done]. apply (map_Forall_insert_2 (M := gmap NodeId)); [|done]. split; [done|]. intros m [= ->]. exact He.
Qed.

Lemma disconnect_peer_ok k msg :
  (forall m, msg = Some m -> sendable (MError m)) -> triple manager_inv (disconnect_peer (from_pubkey k, (k, msg))) (fun _ => manager_inv).
Proof.
  intros Hm. unfold disconnect_peer. apply triple_get. intros s Hs.
  destruct (node_id_to_descriptor s !! from_pubkey k) as [d|] eqn:E; [|apply triple_ret; by intros ? ->].
  eapply triple_bind; [apply triple_put with (Q := fun _ => detached k); intros _ _; by apply drop_linked|]. intros [].
  pose proof Hs as (Hl & _ & Hp & _). apply Hl in E as (p & k' & Ep & Hk & _). rewrite Ep.
  apply triple_bind with (R := fun _ => detached k).
  2: { intros []. apply triple_bind with (R := fun _ => detached k); [by apply triple_modify|]. intros []. apply tell_gone. }
  destruct msg as [msg|]; [|by apply triple_ret]. set (w := identity p). assert (Hw : w = (Some k', w.2)) by (apply identity_of; done).
  assert (Hkn : known_as (Some k', w.2) p) by (split; [by apply (Hp _ _ Ep)|done]).
  pose proof (enqueue_message_ok k' w.2 (MError msg) p (Hm msg eq_refl) p (conj Hkn eq_refl)) as He.
  destruct (enqueue_message (MError msg) p) as [o p'].
  apply triple_bind with (R := fun _ s => detached k s /\ known_as (Some k', w.2) p').
  { apply triple_lift. intros s' Hs'. destruct o as [[]|why|]; [|done..]. by destruct He. }
  intros []. apply (triple_fact (known_as (Some k', w.2) p')); [by intros ? []|]. intros Hp'.
  eapply triple_bind; [eapply triple_pre; [by intros ? [? _]|apply (attempt_write_ok (detached k) (Some k', w.2)); [|done|done]]|].
  - by intros s' (_ & _ & _ & Hr).
  - intros p2. apply triple_ret. by intros ? [].
Qed.

(** Writing to a peer of the map. *)
Lemma over_write ds d : d ∈ ds -> triple (inv_over ds) (do_attempt_write_data d) (fun _ => inv_over ds).
Proof.
  intros Hd s Hs. destruct (over_connected _ _ _ Hs Hd) as [id Hc]. pose proof (do_write_ok d id s Hc) as Hw. destruct Hs as [_ Hdom].
  assert (Hdom' : dom (peers (do_attempt_write_data d s).2) = dom (peers s)).
  { destruct (connected_peer _ _ _ Hc) as (p & Ep & _). unfold do_attempt_write_data, get_peer, mbind, prog_bind. rewrite Ep. cbn [Prelude.unwrap].
    unfold attempt_write. destruct (write_loop _ _ _ _) as [[[]|why|] [p' w']]; cbn [mbind outcome_bind]; try done.
    cbn. rewrite dom_insert_L. set_solver. }
  destruct (do_attempt_write_data d s) as [[[]|why|] s']; [|done..]. split; [by destruct Hw|]. cbn in Hdom'. by rewrite Hdom', Hdom.
Qed.

Lemma write_all_ok : triple manager_inv (s ← get; for_each (map_to_list (peers s)) (fun e => do_attempt_write_data e.1)) (fun _ => manager_inv).
Proof.
  apply triple_get. intros s0 Hs0.
  eapply triple_conseq with (P' := inv_over (dom (peers s0))) (Q' := fun _ => inv_over (dom (peers s0))); [by intros s ->| |by intros [] s [Hm _]].
  apply for_each_ok. intros [d p] Hd. apply elem_of_map_to_list, elem_of_dom_2 in Hd. by apply over_write.
Qed.

Lemma process_events_ok now : clock now -> triple manager_inv (process_events now) (fun _ => manager_inv).
Proof.
  intros Hnow. unfold process_events. apply triple_get. intros s Hs.
  pose proof Hs as (Hl & (live & Hi & Hn) & Hp & Hr).
  destruct (law_chan_events live (chan_handler s) Hi) as [Hce Hi']. destruct (chan_events (chan_handler s)) as [chan_evs chan]. cbn in Hce, Hi'. destruct (law_route_events _ Hr) as [Hre Hr']. destruct (route_events (route_handler s)) as [route_evs route]. cbn in Hre, Hr'.
  eapply triple_bind; [apply triple_put with (Q := fun _ => manager_inv); intros _ _; split_and!; [exact Hl|by exists live|done|done]|]. intros [].
  eapply triple_bind; [eapply triple_pre; [|apply (triple_foldM (fun pd s => pending_ok pd /\ manager_inv s))]|].
  - intros s1 Hs1. split; [apply (map_Forall_empty (M := gmap NodeId))|done].
  - intros pd event Hev s1 [Hpd Hs1]. revert s1 Hs1. apply process_event_ok; [done| |done]. apply elem_of_app in Hev as [Hev|Hev].
    + rewrite Forall_forall in Hce. by apply Hce.
    + rewrite Forall_forall in Hre. by apply Hre.
  - intros pd. apply (triple_fact (pending_ok pd)); [by intros ? []|]. intros Hpd. apply triple_get. intros s1 [_ Hs1].
    pose proof (law_custom_pending (custom_handler s1)) as Hcp. destruct (custom_pending (custom_handler s1)) as [msgs custom]. cbn in Hcp.
    eapply triple_bind; [apply triple_put with (Q := fun _ => manager_inv); by intros _ _|]. intros [].
    eapply triple_bind; [apply for_each_ok; intros m Hm; apply send_to_ok, Forall_singleton; rewrite Forall_forall in Hcp; by apply (Hcp m)|]. intros [].
    apply triple_get. intros s2 Hs2. eapply triple_bind; [intros s3 ->; exact (write_all_ok s2 Hs2)|]. intros [].
    apply for_each_ok. intros [id [k msg]] Hin. apply (elem_of_map_to_list (M := gmap NodeId)) in Hin.
    destruct (Hpd id (k, msg) Hin) as [-> Hm]. by apply disconnect_peer_ok.
Qed.

(** ** Ticks *)

Lemma tick_peer_ok n id : triple (known_as id) (tick_peer n) (fun _ => known_as id).
Proof.
  unfold tick_peer. apply triple_get. intros p Hp. pose proof Hp as [(_ & _ & _ & Hi & _ & Hint) Hid].
  assert (Hret : forall t : tick, triple (fun q => q = p) (mret t) (fun _ => known_as id)) by (intros t; apply triple_ret; by intros ? ->).
  assert (Hput : forall q (t : tick), known_as id q -> triple (fun q => q = p) (_ ← put q; mret t) (fun _ => known_as id)).
  { intros q t Hq. eapply triple_bind; [apply triple_put with (Q := fun _ => known_as id); by intros|]. intros []. by apply triple_ret. }
  destruct (_ || bool_decide _) eqn:Eb; [destruct (negb (Peer.awaiting_pong_timer_tick_intervals p =? 0)); [apply Hret|by apply Hput, inv_intervals]|].
  apply orb_false_elim in Eb as [_ Ek]. apply bool_decide_eq_false in Ek.
  destruct (Z.eqb_spec (Peer.awaiting_pong_timer_tick_intervals p) (-1)); [by apply Hput, inv_received, inv_intervals|].
  destruct (_ || _); [apply Hret|].
  eapply triple_bind; [apply triple_put with (Q := fun _ => known_as id); intros _ _; by apply inv_received|]. intros [].
  destruct (Z.ltb_spec 0 (Peer.awaiting_pong_timer_tick_intervals p)).
  - apply triple_bind with (R := fun next q => known_as id q /\ -1 <= next <= 127).
    { apply triple_lift. intros q Hq. unfold i8_add. destruct (_ && _) eqn:Ea; [|by right]. apply andb_prop in Ea as [??]. split; [done|lia]. }
    intros next. eapply triple_bind; [apply triple_modify with (Q := fun _ => known_as id); intros q [Hq Hn]; by apply inv_intervals|]. intros []. by apply triple_ret.
  - destruct id as [[id|] up]; [|by injection Hid as Hid _; rewrite Hid in Ek].
    eapply triple_bind; [apply triple_modify with (Q := fun _ => known_as (Some id, up)); intros q Hq; by apply inv_intervals|]. intros [].
    eapply triple_bind; [apply (adds_known id up 1), adds_message, ping_sendable|]. intros []. by apply triple_ret.
Qed.

Lemma timer_tick_ok : triple manager_inv timer_tick_occurred (fun _ => manager_inv).
Proof.
  unfold timer_tick_occurred. apply triple_get. intros s0 Hs0.
  apply triple_bind with (R := fun _ => manager_inv).
  - eapply triple_conseq with (P' := inv_over (dom (peers s0))) (Q' := fun _ => inv_over (dom (peers s0))); [by intros s ->| |by intros ? s [Hm _]].
    apply (triple_foldM (fun _ => inv_over (dom (peers s0)))). intros ds [d p] Hd. apply elem_of_map_to_list, elem_of_dom_2 in Hd. unfold tick_one. cbn [fst].
    eapply triple_bind; [apply over_peer; [apply tick_peer_ok|done]|]. intros []; try by apply triple_ret.
    eapply triple_bind; [by apply over_write|]. intros []. by apply triple_ret.
  - intros ds. eapply triple_bind; [apply for_each_ok; intros d _; eapply triple_pre; [apply inv_but|apply disconnect_event_ok]|]. intros [].
    apply for_each_ok. intros d _. apply disconnect_inv.
Qed.

Lemma write_avail_ok d : triple manager_inv (write_buffer_space_avail d) (fun _ => manager_inv).
Proof.
  unfold write_buffer_space_avail. apply triple_get. intros s Hs. destruct (peers s !! d) as [p|] eqn:E; [|apply triple_ret; by intros ? ->].
  eapply triple_conseq with (P' := connected d (identity p)) (Q' := fun _ => connected d (identity p));
    [intros ? ->; split; [done|by exists p]| |by intros ? ? []].
  eapply triple_bind; [apply with_peer_unit, triple_modify; intros q; apply inv_awaiting|]. intros [].
  eapply triple_bind; [apply do_write_ok|]. intros []. by apply triple_ret.
Qed.

(** ** What the driver can do *)

Inductive operation :=
| NewOutbound (their_node_id : PublicKey) (d : D) (addr : option NetAddress.t)
| NewInbound (d : D) (addr : option NetAddress.t)
| ReadEvent (now : Z) (d : D) (data : bytes)
| WriteBufferSpaceAvail (d : D)
| ProcessEvents (now : Z)
| SocketDisconnected (d : D)
| DisconnectByNodeId (node_id : PublicKey) (no_connection_possible : bool)
| DisconnectAllPeers
| TimerTick
| Elsewhere (chan : CM) (route : RM) (custom : X) (world : W).

Definition ignore {A} (m : prog manager A) : prog manager unit := _ ← m; mret tt.

(** The handlers and the sockets are shared: they also change between calls. *)
Definition perform (o : operation) : prog manager unit :=
  match o with
  | NewOutbound k d addr => ignore (new_outbound_connection k d addr)
  | NewInbound d addr => ignore (new_inbound_connection d addr)
  | ReadEvent now d data => ignore (read_event now d data)
  | WriteBufferSpaceAvail d => ignore (write_buffer_space_avail d)
  | ProcessEvents now => process_events now
  | SocketDisconnected d => socket_disconnected d
  | DisconnectByNodeId k b => disconnect_by_node_id k b
  | DisconnectAllPeers => disconnect_all_peers
  | TimerTick => timer_tick_occurred
  | Elsewhere chan route custom world => modify (fun s => set_sockets world (set_custom custom (set_route route (set_chan chan s))))
  end.

(** What the driver promises: new descriptors are new, addresses are addresses, and what is
    read is bytes. *)
Definition allowed s (o : operation) : Prop :=
  match o with
  | NewOutbound _ d addr | NewInbound d addr => peers s !! d = None /\ forall a, addr = Some a -> NetAddress.ok a
  | ReadEvent now _ data => clock now /\ all_u8 data
  | ProcessEvents now => clock now
  | Elsewhere chan route _ _ => (forall live, chan_inv live (chan_handler s) -> chan_inv live chan) /\ route_inv route
  | _ => True
  end.

Inductive reachable : manager -> Prop :=
| reach_new secret random_data chan route custom world : chan_inv ∅ chan -> route_inv route -> reachable (new_manager secret random_data chan route custom world)
| reach_step s o s' : reachable s -> allowed s o -> perform o s = (Ret tt, s') -> reachable s'.

Lemma ignore_ok {A} P (m : prog manager A) : triple P m (fun _ => manager_inv) -> triple P (ignore m) (fun _ => manager_inv).
Proof. intros Hm. eapply triple_bind; [exact Hm|]. intros a. by apply triple_ret. Qed.

Lemma perform_ok o : triple (fun s => manager_inv s /\ allowed s o) (perform o) (fun _ => manager_inv).
Proof.
  intros s [Hs Ha]. destruct o; cbn [perform allowed] in *.
  - destruct Ha as [Hd Ha]. exact (ignore_ok _ _ (outbound_ok _ d _ Ha) s (conj Hs Hd)).
  - destruct Ha as [Hd Ha]. exact (ignore_ok _ _ (inbound_ok d _ Ha) s (conj Hs Hd)).
  - destruct Ha as [Hnow Hu]. exact (ignore_ok _ _ (read_event_ok now d data Hnow Hu) s Hs).
  - exact (ignore_ok _ _ (write_avail_ok d) s Hs).
  - by apply process_events_ok.
  - apply (disconnect_event_ok d false). by apply inv_but.
  - by apply disconnect_by_id_ok.
  - by apply disconnect_all_ok.
  - by apply timer_tick_ok.
  - destruct Hs as (Hl & (live & Hi & Hn) & Hp & _), Ha as [Hc Hr]. split_and!; [exact Hl| |exact Hp|exact Hr]. exists live. auto.
Qed.

Lemma new_inv secret random_data chan route custom world :
  chan_inv ∅ chan -> route_inv route -> manager_inv (new_manager secret random_data chan route custom world).
Proof.
  intros Hc Hr. apply emptied_nil. split_and!; [done..|]. exists ∅. split; [done|]. set_solver.
Qed.

Lemma reachable_inv s : reachable s -> manager_inv s.
Proof.
  induction 1 as [|s o s' _ IH Ha E]; [by apply new_inv|]. pose proof (perform_ok o s (conj IH Ha)) as Hp. by rewrite E in Hp.
Qed.

(** C9: whatever bytes peers send, in whatever pieces, and however sockets take what is written
    to them, the two maps of the manager describe the same connections, one per node, a peer
    has an id exactly when its handshake is over, and every call returns: it neither loops nor
    panics, but for a handler's message that is too long to send, or a counter that overflows. *)
Theorem manager_stays_consistent s :
  reachable s ->
  (forall n d, node_id_to_descriptor s !! n = Some d <-> exists p k, peers s !! d = Some p /\ Peer.their_node_id p = Some k /\ n = from_pubkey k) /\
  (forall d d' p p' k k', peers s !! d = Some p -> peers s !! d' = Some p' -> Peer.their_node_id p = Some k -> Peer.their_node_id p' = Some k' ->
     from_pubkey k = from_pubkey k' -> d = d') /\
  (forall d p, peers s !! d = Some p -> is_Some (Peer.their_node_id p) <-> is_ready_for_encryption (Peer.channel_encryptor p) = true) /\
  (forall o, allowed s o -> (exists s', perform o s = (Ret tt, s') /\ reachable s') \/
     exists s', perform o s = (Panic oversize, s') \/ perform o s = (Panic overflow, s')).
Proof.
  intros Hr. pose proof (reachable_inv s Hr) as Hs. pose proof Hs as (Hl & _ & Hp & _). split_and!; [exact Hl| | |].
  - intros d d' p p' k k' E E' Hk Hk' Heq. assert (E1 : node_id_to_descriptor s !! from_pubkey k = Some d) by (apply Hl; eauto).
    assert (E2 : node_id_to_descriptor s !! from_pubkey k = Some d') by (apply Hl; eauto). congruence.
  - intros d p E. destruct (Hp d p E) as (_ & _ & _ & Hi & _). unfold id_ok, is_ready_for_encryption in *. destruct (Peer.their_node_id p).
    + destruct Hi as [k ->]. split; [done|eauto].
    + destruct Hi as [-> _]. by split; [intros []|].
  - intros o Ha. pose proof (perform_ok o s (conj Hs Ha)) as Ho. destruct (perform o s) as [[[]|why|] s'] eqn:E; [| |done].
    + left. exists s'. split; [done|]. by eapply reach_step.
    + right. exists s'. destruct Ho as [-> | ->]; auto.
Qed.
End PeerReach.
