(* ===== verification/PeerTrace.v ===== *)
(** * What the handlers see

    The handlers of the source keep what the manager asks of them; and the calls the channel
    handler gets, recorded in front of it, follow its protocol. *)

From S2P Require Import Prelude Text HexUtils Bytes ChaCha20 Poly1305 Stream Ser SerLaws Aead Tlv Features Msgs Noise OnionHop ChannelMsgs ChannelMsgsLaws GossipMsgs Wire Octets NoiseSafe Onion OnionError Scid GossipSync Graph GraphSpec GraphAuth PeerManager PeerSpec PeerSafe PeerRead PeerReach.

Local Open Scope Z_scope.

(** * The network graph as the routing handler

    [P2PGossipSync] keeps what the peer manager asks of its routing handler: its calls return,
    the messages it stored and hands out again are ones it was given, and its errors and
    events can be sent. *)

Section PeerGossip.
Context `{SecpLaws} `{!GossipCrypto} `{Hcmr : CustomMessageReader} {custom_ok : CustomMessage -> Prop} `{!CustomLaws custom_ok}.

(** ** What is stored *)

Definition info_stored (i : option ChannelUpdateInfo.t) : Prop :=
  forall j m, i = Some j -> ChannelUpdateInfo.last_update_message j = Some m -> ChannelUpdate.ok m.
Definition channel_stored (c : ChannelInfo.t) : Prop :=
  (forall a, ChannelInfo.announcement_message c = Some a -> ChannelAnnouncement.ok a) /\
  info_stored (ChannelInfo.one_to_two c) /\ info_stored (ChannelInfo.two_to_one c).
Definition node_stored (n : NodeInfo.t) : Prop :=
  forall i m, NodeInfo.announcement_info n = Some i -> NodeAnnouncementInfo.announcement_message i = Some m -> NodeAnnouncement.ok m.

Definition stored (g : NetworkGraph) : Prop :=
  array_ok 32 (genesis_hash g) /\ map_Forall (fun scid c => u64 scid /\ channel_stored c) (channels g) /\
  map_Forall (fun _ n => node_stored n) (nodes g).
Definition keeps_stored (g g' : NetworkGraph) : Prop := stored g -> stored g'.

#[local] Instance keeps_stored_preorder : PreOrder keeps_stored.
Proof. split; unfold keeps_stored; [intros ?|intros ???]; auto. Qed.

Lemma stored_node k n g : (forall g0, stored g0 -> nodes g0 = nodes g -> node_stored n) -> keeps_stored g (set_nodes (<[k := n]> (nodes g)) g).
Proof. intros Hn Hg. pose proof Hg as (Hh & Hc & Hns). split_and!; [done|done|]. apply map_Forall_insert_2; [by apply (Hn g)|done]. Qed.
Lemma stored_channel scid c g :
  u64 scid -> (stored g -> channel_stored c) -> keeps_stored g (set_channels (<[scid := c]> (channels g)) g).
Proof. intros Hu Hc Hg. pose proof (Hc Hg). destruct Hg as (Hh & Hcs & Hns). split_and!; [done| |done]. by apply map_Forall_insert_2. Qed.

Lemma node_of g k n : stored g -> nodes g !! k = Some n -> node_stored n.
Proof. intros (_ & _ & Hns) E. exact (Hns k n E). Qed.
Lemma channel_of g scid c : stored g -> channels g !! scid = Some c -> u64 scid /\ channel_stored c.
Proof. intros (_ & Hcs & _) E. exact (Hcs scid c E). Qed.

Lemma stored_remove_from_node scid n : keeps keeps_stored (remove_from_node scid n).
Proof.
  intros g o g' E. unfold remove_from_node in E. rewrite bind_get in E. destruct (nodes g !! n) as [i|] eqn:En; [|by injection E as <- <-].
  injection E as <- <-. destruct (List.filter _ _) as [|x l].
  - intros (Hh & Hc & Hns). split_and!; [done|done|]. by apply map_Forall_delete.
  - intros Hg. apply stored_node; [|done]. intros g0 Hg0 E0. exact (node_of g n i Hg En).
Qed.
Lemma stored_remove_channel c scid : keeps keeps_stored (remove_channel_in_nodes c scid).
Proof. apply keeps_bind; [apply _|apply stored_remove_from_node|intros; apply stored_remove_from_node]. Qed.
Lemma stored_add_to_node scid n : keeps keeps_stored (add_to_node scid n).
Proof.
  apply keeps_modify. intros g Hg. apply stored_node; [|done]. intros g0 Hg0 E0. destruct (nodes g !! n) as [i|] eqn:En; [exact (node_of g n i Hg En)|done].
Qed.

Lemma stored_add_channel scid ci utxo : u64 scid -> channel_stored ci -> keeps keeps_stored (add_channel_between_nodes scid ci utxo).
Proof.
  intros Hu Hci g o g' E. unfold add_channel_between_nodes in E. rewrite bind_get in E.
  assert (Hlink : keeps keeps_stored (_ ← modify (fun g => set_channels (<[scid := ci]> (channels g)) g);
     _ ← add_to_node scid (ChannelInfo.node_one ci); _ ← add_to_node scid (ChannelInfo.node_two ci); mret (Ok (E := LightningError) tt))).
  { apply keeps_bind; [apply _|apply keeps_modify; intros; by apply stored_channel|]. intros _.
    apply keeps_bind; [apply _|apply stored_add_to_node|]. intros _. apply keeps_bind; [apply _|apply stored_add_to_node|]. intros _. apply keeps_ret, _. }
  destruct (channels g !! scid) as [old|]; [|by eapply Hlink]. destruct utxo; [|by injection E as <- <-].
  eapply keeps_bind in E; [exact E|apply _|apply stored_remove_channel|intros; exact Hlink].
Qed.

Lemma stored_announcement now a access : ChannelAnnouncement.ok a -> keeps keeps_stored (update_channel_from_announcement now a access).
Proof.
  intros Ha. apply keeps_bind_ok; [apply _|apply keeps_ret, _|]. intros _. unfold update_channel_from_unsigned_announcement_intern.
  destruct (_ || _); [apply keeps_ret, _|]. apply keeps_bind_ok; [apply _|apply keeps_ret, _|]. intros utxo. apply stored_add_channel; [apply Ha|].
  split_and!; [|done|done]. intros full. cbn. destruct (_ <=? _)%nat; [|done]. by intros [= <-].
Qed.

Lemma stored_node_announcement msg : NodeAnnouncement.ok msg -> keeps keeps_stored (update_node_from_announcement msg).
Proof.
  intros Hm. apply keeps_bind_ok; [apply _|apply keeps_ret, _|]. intros _ g o g' E. unfold update_node_from_announcement_intern in E. rewrite bind_get in E.
  destruct (nodes g !! _) as [node|] eqn:En; [|by injection E as <- <-].
  assert (Hstore : forall i, (forall m, NodeAnnouncementInfo.announcement_message i = Some m -> m = msg) ->
    keeps_stored g (set_nodes (<[from_pubkey (UnsignedNodeAnnouncement.node_id (NodeAnnouncement.contents msg)) := NodeInfo.with_announcement (Some i) node]> (nodes g)) g)).
  { intros i Hi. apply stored_node. intros g0 _ _ i' m [= <-] Em. by rewrite (Hi m Em). }
  assert (Hfull : forall m, (if should_relay (NodeAnnouncement.contents msg) then Some msg else None) = Some m -> m = msg) by (intros m; destruct (should_relay _); congruence).
  destruct (NodeInfo.announcement_info node) as [i|]; [destruct (_ <? _); [by injection E as <- <-|destruct (_ =? _); [by injection E as <- <-|]]|];
    injection E as <- <-; by apply Hstore.
Qed.

Lemma stored_node_fees msg dest was : keeps keeps_stored (update_node_fees msg dest was).
Proof.
  intros g o g' E. unfold update_node_fees in E. rewrite bind_get in E.
  assert (Hput : forall fees node, nodes g !! dest = Some node -> keeps_stored g (set_nodes (<[dest := NodeInfo.with_fees fees node]> (nodes g)) g)).
  { intros fees node En Hg. apply stored_node; [|done]. intros _ _ _. exact (node_of g dest node Hg En). }
  destruct (chan_enabled msg); [|destruct was; [|by injection E as <- <-]]; destruct (nodes g !! dest) as [node|] eqn:En; try (by injection E as <- <-).
  - injection E as <- <-. by apply Hput.
  - cbv [mbind prog_bind lift Prelude.unwrap] in E. destruct (lowest_fees _ _ _ _); injection E as <- <-; by try apply Hput.
Qed.

Lemma stored_update now msg : ChannelUpdate.ok msg -> keeps keeps_stored (update_channel now msg).
Proof.
  intros Hm. unfold update_channel, update_channel_intern. set (contents := ChannelUpdate.contents msg).
  apply keeps_bind_ok; [apply _|apply keeps_lift, _|]. intros _ g o g' E. rewrite bind_get in E. cbv zeta in E.
  set (scid := UnsignedChannelUpdate.short_channel_id contents) in *.
  destruct (channels g !! scid) as [c|] eqn:Ec; [|by injection E as <- <-].
  assert (Hinfo : info_stored (Some (get_new_channel_info contents (Some msg)))).
  { intros j m [= <-]. cbn. destruct (_ <=? _)%nat; [|done]. by intros [= <-]. }
  assert (Hstore : forall one two dest was, (channel_stored c -> info_stored one /\ info_stored two) ->
    keeps_stored g (update_node_fees contents dest was (set_channels (<[scid := ChannelInfo.with_directions one two c]> (channels g)) g)).2).
  { intros one two dest was Hd Hg. pose proof (channel_of g scid c Hg Ec) as [Hu Hc].
    eapply (stored_node_fees contents dest was _ _ _ (surjective_pairing _)), stored_channel; [done| |done]. intros _. split; [apply Hc|]. by apply Hd. }
  cbv [bind_ok mbind prog_bind lift mret prog_ret put] in E.
  destruct (check_htlc_maximum contents c) as [[[]|e]| |]; [|by injection E as <- <-..].
  destruct (_ =? 1); (destruct (check_update_latest contents _) as [was|e]; [|by injection E as <- <-]);
    (destruct (check_update_sig contents _ _ _) as [[]|e]; [|by injection E as <- <-]).
  - specialize (Hstore (ChannelInfo.one_to_two c) (Some (get_new_channel_info contents (Some msg))) (ChannelInfo.node_one c) was).
    destruct (update_node_fees _ _ _ _) as [[[]| |] g2]; injection E as <- <-; apply Hstore; by intros (_ & ? & _).
  - specialize (Hstore (Some (get_new_channel_info contents (Some msg))) (ChannelInfo.two_to_one c) (ChannelInfo.node_two c) was).
    destruct (update_node_fees _ _ _ _) as [[[]| |] g2]; injection E as <- <-; apply Hstore; by intros (_ & _ & ?).
Qed.

(** ** Errors *)

Definition errs {S A} (m : prog S (result A LightningError)) : Prop := forall s e s', m s = (Ret (Err e), s') -> error_sendable e.

Lemma errs_ok {S A} (a : A) : errs (S := S) (mret (Ok a)).
Proof. by intros s e s' [=]. Qed.
Lemma errs_fail {S A} text act : (forall m, act <> SendErrorMessage m) -> (forall m l, act <> SendWarningMessage m l) ->
  errs (S := S) (A := A) (mret (Err (mkLightningError text act))).
Proof. intros H1' H2' s e s' [= <- <-]. unfold error_sendable. cbn. destruct act; naive_solver. Qed.
Lemma errs_bind {S A B} (m : prog S A) (f : A -> prog S (result B LightningError)) : (forall a, errs (f a)) -> errs (m ≫= f).
Proof. intros Hf s e s' E. unfold mbind, prog_bind in E. destruct (m s) as [[a|why|] s1]; [by eapply Hf|done|done]. Qed.
Lemma errs_bind_ok {S A B} (m : prog S (result A LightningError)) (f : A -> prog S (result B LightningError)) :
  errs m -> (forall a, errs (f a)) -> errs (bind_ok m f).
Proof.
  intros Hm Hf s e s' E. unfold bind_ok, mbind, prog_bind in E. destruct (m s) as [[[a|e']|why|] s1] eqn:Em; [by eapply Hf| |done|done].
  injection E as <- <-. by eapply Hm.
Qed.
Lemma errs_pure {S A} (r : result A LightningError) : (forall e, r = Err e -> error_sendable e) -> errs (S := S) (mret r).
Proof. intros Hr s e s' [= -> _]. by apply Hr. Qed.
Lemma errs_lift {S A} (o : outcome (result A LightningError)) : (forall e, o = Ret (Err e) -> error_sendable e) -> errs (S := S) (lift o).
Proof. intros Ho s e s' [= -> _]. by apply Ho. Qed.

Lemma signature_error hash sig key what e : secp_verify_sig hash sig key what = Err e -> error_sendable e.
Proof. unfold secp_verify_sig. destruct (verify_ecdsa _ _ _); [done|]. intros [= <-]. apply text_sendable. Qed.

Lemma errs_node msg : errs (update_node_from_announcement msg).
Proof.
  apply errs_bind_ok; [apply errs_pure; intros e; apply signature_error|]. intros _. apply errs_bind. intros g. cbv zeta.
  destruct (nodes g !! _) as [node|]; [|by apply errs_fail]. destruct (NodeInfo.announcement_info node); [destruct (_ <? _); [by apply errs_fail|destruct (_ =? _); [by apply errs_fail|]]|];
    apply errs_bind; intros []; apply errs_ok.
Qed.

Lemma errs_announcement now msg access : errs (update_channel_from_announcement now msg access).
Proof.
  apply errs_bind_ok; [apply errs_pure; intros e; unfold verify_announcement; cbv zeta|intros _].
  - repeat (match goal with |- context [secp_verify_sig ?a ?b ?c ?d] => destruct (secp_verify_sig a b c d) as [[]|] eqn:?; cbn [mbind] end;
      try (intros [= <-]; by eapply signature_error)); done.
  - unfold update_channel_from_unsigned_announcement_intern. destruct (_ || _); [by apply errs_fail|]. apply errs_bind_ok.
    + apply errs_pure. intros e. unfold utxo_value_of. repeat case_match; intros [= <-]; done.
    + intros utxo. apply errs_bind. intros g. cbv zeta. destruct (channels g !! _); [destruct utxo; [|by apply errs_fail]|];
        repeat (apply errs_bind; intros []); apply errs_ok.
Qed.

Lemma errs_update now msg : errs (update_channel now msg).
Proof.
  assert (Hmax : forall m c, errs (S := NetworkGraph) (lift (check_htlc_maximum m c))).
  { intros m c. apply errs_lift. intros e. unfold check_htlc_maximum, mul64, checked_op. cbv [mbind outcome_bind].
    repeat case_match; intros [=]; by subst. }
  assert (Hlatest : forall m d, errs (S := NetworkGraph) (mret (check_update_latest m d))).
  { intros m d. apply errs_pure. intros e. unfold check_update_latest. repeat case_match; intros [=]; by subst. }
  assert (Hsig : forall m s k w, errs (S := NetworkGraph) (mret (check_update_sig m s k w))).
  { intros m s k w. apply errs_pure. intros e. unfold check_update_sig. destruct s; [|done]. destruct (pk_from_slice k); [apply signature_error|by intros [= <-]]. }
  unfold update_channel, update_channel_intern. apply errs_bind_ok.
  - apply errs_lift. intros e. unfold check_update_age, sub64, add64, checked_op. cbv [mbind outcome_bind]. repeat case_match; intros [=]; by subst.
  - intros _. apply errs_bind. intros g. cbv zeta. destruct (channels g !! _) as [c|]; [|by apply errs_fail]. apply errs_bind_ok; [apply Hmax|]. intros _.
    destruct (_ =? 1); (apply errs_bind_ok; [apply Hlatest|]; intros was; apply errs_bind_ok; [apply Hsig|]; intros _; repeat (apply errs_bind; intros []); apply errs_ok).
Qed.

(** ** The handler *)

Definition sync_inv (s : P2PGossipSync) : Prop :=
  graph_ok (network_graph s) /\ all_signed (network_graph s) /\ stored (network_graph s) /\ access_ok (chain_access s) /\
  Forall event_sendable (pending_events s).

Lemma on_graph_ok (m : prog NetworkGraph (result unit LightningError)) (forward : bool) :
  safe m -> keeps keeps_signed m -> keeps keeps_stored m -> errs m -> handler_ok sync_inv (let? _ := on_graph m in mret (Ok forward)).
Proof.
  intros Hs Hg Hst He s (Hok & Hsi & Hsto & Hac & Hev). destruct (Hs _ Hok) as (res & g' & E & Hok').
  unfold bind_ok, mbind, prog_bind, on_graph. rewrite E.
  assert (Hinv : sync_inv (set_graph g' s)) by (split_and!; [done|by apply (Hg _ _ _ E)|by apply (Hst _ _ _ E)|done|done]).
  destruct res as [[]|e]; eexists _, _; (split; [done|]); (split; [done|]); [done|]. intros e' [= <-]. by eapply He.
Qed.

Lemma node_announcement_ok msg : NodeAnnouncement.ok msg -> handler_ok sync_inv (handle_node_announcement msg).
Proof.
  intros Hm. apply on_graph_ok; [exact (run_op_safe (NodeAnnounced msg) I)|exact (signed_run_op (NodeAnnounced msg) I)|by apply stored_node_announcement|apply errs_node].
Qed.

Lemma channel_announcement_ok now msg : ChannelAnnouncement.ok msg -> handler_ok sync_inv (handle_channel_announcement now msg).
Proof.
  intros Hm s Hs. pose proof Hs as (_ & _ & _ & Ha & _).
  exact (on_graph_ok (update_channel_from_announcement now msg (chain_access s)) _ (run_op_safe (ChannelAnnounced now msg (chain_access s)) Ha)
    (signed_announcement _ _ _) (stored_announcement _ _ _ Hm) (errs_announcement _ _ _) s Hs).
Qed.

Lemma channel_update_ok now msg : clock_ok now -> ChannelUpdate.ok msg -> handler_ok sync_inv (handle_channel_update now msg).
Proof.
  intros Hnow Hm. apply on_graph_ok; [exact (run_op_safe (ChannelUpdated now msg) Hnow)|apply signed_update|by apply stored_update|apply errs_update].
Qed.

Lemma push_event_inv e s : sync_inv s -> event_sendable e -> exists s', push_event e s = (Ret tt, s') /\ sync_inv s'.
Proof.
  intros (Hok & Hsi & Hsto & Hac & Hev) He. eexists. split; [done|]. split_and!; try done. apply Forall_app. split; [done|by apply Forall_singleton].
Qed.

Lemma peer_connected_ok now k msg s : clock_ok now -> sync_inv s -> exists s', peer_connected now k msg s = (Ret tt, s') /\ sync_inv s'.
Proof.
  intros [Hlo Hhi] Hs. unfold peer_connected. destruct (negb _); [by exists s|]. unfold STALE_CHANNEL_UPDATE_AGE_LIMIT_SECS in Hlo.
  assert (Hev : forall full s1, sync_inv s1 -> exists s', (gossip_start_time ← lift (sub64 now (if full : bool then 60 * 60 * 24 * 7 * 2 else 60 * 60));
      s ← get; push_event (SendGossipTimestampFilter k (GossipTimestampFilter.mk (genesis_hash (network_graph s)) (wrap 32 gossip_start_time) U32_MAX))) s1 =
      (Ret tt, s') /\ sync_inv s').
  { intros full s1 Hs1. unfold sub64. rewrite checked_op_ok by (unfold in_width; destruct full; lia). apply push_event_inv; [done|].
    intros k' msgs [= <- <-]. apply Forall_singleton, (message_octets custom_ok). pose proof Hs1 as (_ & _ & [Hh _] & _).
    split_and!; [exact Hh|by apply wrap_in_width|by vm_compute]. }
  unfold should_request_full_sync. destruct Hs as (Hok & Hsi & Hsto & Hac & Hevs).
  destruct (full_syncs_requested s <? FULL_SYNCS_TO_REQUEST) eqn:E.
  - destruct (Hev true (mkSync _ _ (network_graph s) (chain_access s) (full_syncs_requested s + 1) (pending_events s))) as (s' & Es & Hs'); [by split_and!|].
    exists s'. split; [|done]. rewrite <- Es. unfold mbind, prog_bind, get. by rewrite E.
  - destruct (Hev false s) as (s' & Es & Hs'); [by split_and!|]. exists s'. split; [|done]. rewrite <- Es. unfold mbind, prog_bind, get. by rewrite E.
Qed.

Lemma reply_sendable hash r : array_ok 32 hash -> reply_ok hash r -> sendable (MReplyChannelRange r).
Proof.
  intros Hh (Eh & H1' & H2' & Hl & Hids). apply (message_octets custom_ok). split_and!; [by rewrite Eh|done|done|]. split.
  - eapply Forall_impl; [exact Hids|]. by intros id [].
  - apply Nat2Z.inj_le in Hl. change (Z.of_nat MAX_SCIDS_PER_REPLY) with 8000 in Hl. lia.
Qed.

Lemma query_range_ok k msg : QueryChannelRange.ok msg -> handler_ok sync_inv (handle_query_channel_range k msg).
Proof.
  intros Hm s Hs. pose proof Hs as (Hok & Hsi & Hsto & Hac & Hev). pose proof Hm as (Hh & H1' & H2').
  assert (Hinv : forall rs, Forall (reply_ok (QueryChannelRange.chain_hash msg)) rs -> sync_inv (replied k rs s)).
  { intros rs Hrs. split_and!; try done. apply Forall_app. split; [done|]. apply Forall_fmap. eapply Forall_impl; [exact Hrs|].
    intros r Hr k' msgs [= <- <-]. apply Forall_singleton. by eapply reply_sendable. }
  destruct (decide (answerable msg (network_graph s))) as [Ha|Ha].
  - destruct Hsto as (_ & Hcs & _). destruct (answered_query k msg s Hsi) as (rs & E & _ & Hrs & _); [|done|done|].
    { eapply map_Forall_impl; [exact Hcs|]. by intros scid c []. }
    eexists _, _. split; [exact E|]. split; [by apply Hinv|done].
  - eexists _, _. split; [by apply refused_query|]. split; [|by intros e [= <-]]. apply Hinv, Forall_singleton. split_and!; try done; cbn; lia.
Qed.

(** Batches hold what the entries have, and no more than was asked for. *)
Lemma fill_batch_ok {E R} (f : E -> option R) (P : R -> Prop) n iter (l : list R) :
  (forall e r, e ∈ iter -> f e = Some r -> P r) -> Forall P l -> (length l <= n)%nat ->
  (length (fill_batch f n iter l) <= n)%nat /\ Forall P (fill_batch f n iter l).
Proof.
  revert l. induction iter as [|e iter IH]; intros l Hf Hl Hn; cbn [fill_batch]; destruct (Nat.ltb_spec (length l) n); try done.
  apply IH; [intros; eapply Hf; [by apply list_elem_of_further|done]| |].
  - destruct (f e) as [r|] eqn:Er; [|done]. apply Forall_app. split; [done|]. apply Forall_singleton. eapply Hf; [apply list_elem_of_here|done].
  - destruct (f e); [rewrite length_app; cbn; lia|lia].
Qed.

Definition triple_sendable (t : announcement_triple) : Prop :=
  let '(a, u, v) := t in
  sendable (MChannelAnnouncement a) /\ (forall m, u = Some m -> sendable (MChannelUpdate m)) /\ (forall m, v = Some m -> sendable (MChannelUpdate m)).

Lemma info_sendable i m : info_stored i -> (j ← i; ChannelUpdateInfo.last_update_message j) = Some m -> sendable (MChannelUpdate m).
Proof. intros Hi E. destruct i as [j|]; [|done]. apply (message_octets custom_ok). exact (Hi j m eq_refl E). Qed.

Lemma next_channels_ok c n s : sync_inv s -> 0 <= n ->
  Z.of_nat (length (get_next_channel_announcements c n s)) <= n /\ Forall triple_sendable (get_next_channel_announcements c n s).
Proof.
  intros (_ & _ & Hsto & _) Hn. unfold get_next_channel_announcements.
  destruct (fill_batch_ok (fun e : Z * ChannelInfo.t => triple_of e.2) triple_sendable (Z.to_nat n) (range_from Z.le c (channels (network_graph s))) [])
    as [Hl Hf]; [|constructor|cbn; lia|split; [lia|done]].
  intros [scid chan] r [_ E]%elem_of_range_from Hr. destruct (channel_of _ _ _ Hsto E) as [_ (Ha & H1' & H2')]. unfold triple_of in Hr. cbn in Hr.
  destruct (ChannelInfo.announcement_message chan) as [a|] eqn:Ea; [|done]. injection Hr as <-. split_and!.
  - apply (message_octets custom_ok). by apply (Ha a).
  - intros m Em. exact (info_sendable _ m H1' Em).
  - intros m Em. exact (info_sendable _ m H2' Em).
Qed.

Lemma next_nodes_ok k n s : sync_inv s -> 0 <= n ->
  Z.of_nat (length (get_next_node_announcements k n s)) <= n /\ Forall (fun a => sendable (MNodeAnnouncement a)) (get_next_node_announcements k n s).
Proof.
  intros (_ & _ & Hsto & _) Hn. unfold get_next_node_announcements. cbv zeta. set (iter := match k with Some _ => _ | None => _ end).
  assert (Hiter : forall e, e ∈ iter -> nodes (network_graph s) !! e.1 = Some e.2).
  { intros [id node] He. unfold iter in He. destruct k as [k|].
    - assert (He' : (id, node) ∈ range_from bytes_le (from_pubkey k) (nodes (network_graph s))).
      { destruct (range_from bytes_le (from_pubkey k) (nodes (network_graph s))) as [|e l]; [by apply not_elem_of_nil in He|by apply list_elem_of_further]. }
      by apply elem_of_range_from in He' as [_ He'].
    - by apply elem_of_entries in He. }
  destruct (fill_batch_ok (fun e : NodeId * NodeInfo.t => node_message e.2) (fun a => sendable (MNodeAnnouncement a)) (Z.to_nat n) iter [])
    as [Hl Hf]; [|done|cbn; lia|split; [apply Nat2Z.inj_le in Hl; rewrite Z2Nat.id in Hl by done; exact Hl|exact Hf]].
  intros [id node] a He%Hiter Ha. cbn in *. unfold node_message in Ha. destruct (NodeInfo.announcement_info node) as [i|] eqn:Ei; [|done].
  apply (message_octets custom_ok). exact (node_of _ _ _ Hsto He i a Ei Ha).
Qed.

(** What the peer manager asks of its routing handler. *)
Lemma gossip_sync_laws : RoutingLaws P2PGossipSync sync_inv clock_ok.
Proof.
  split.
  - intros now msg _ Hm. by apply node_announcement_ok.
  - intros now msg _ Hm. by apply channel_announcement_ok.
  - intros now msg Hnow Hm. by apply channel_update_ok.
  - intros c n s Hs Hn. by apply next_channels_ok.
  - intros k n s Hs Hn. by apply next_nodes_ok.
  - intros now k msg s Hnow Hs. by apply peer_connected_ok.
  - intros k msg s Hs. by eexists _, _.
  - intros k msg s Hs. by eexists _, _.
  - intros k msg Hm. by apply query_range_ok.
  - intros k msg s Hs. eexists _, _. split; [done|]. split; [done|]. by intros e [= <-].
  - intros s (Hok & Hsi & Hsto & Hac & Hev). split; [done|]. by split_and!.
Qed.
End PeerGossip.

(** * What the handlers see *)

(** ** The simple handlers *)

Section Handlers.
Context `{SecpLaws} `{Hcmr : CustomMessageReader} {custom_ok : CustomMessage -> Prop} `{!CustomLaws custom_ok}.

(** The errors of [ErroringMessageHandler] name a channel of the message. *)
Lemma erroring_channel_id call id : call_ok call -> erroring_channel_of call = Some id -> array_ok 32 id.
Proof. destruct call; cbn; intros Hok [= <-]; repeat (apply Hok || destruct Hok as [? Hok]). Qed.

Lemma error_text_sendable id text : array_ok 32 id -> sendable (MError (ErrorMessage.mk id text)).
Proof.
  intros Hi. unfold sendable. cbn [message_write]. unfold write. apply u8_app; [by apply octets|]. cbn [c_write ErrorMessage.codec].
  apply u8_app; [by apply (octets (c := arrayc 32))|]. apply u8_app; [by apply octets|apply u8_one, bytes_of_u8].
Qed.

Lemma erroring_laws : @ChannelLaws _ _ (list MessageSendEvent) erroring_handler (fun _ queue => Forall event_sendable queue).
Proof.
  split.
  - intros live k call queue Hq Hok _. cbn. destruct (erroring_channel_of call) as [id|] eqn:E; [|done]. apply Forall_app. split; [done|].
    apply Forall_singleton. intros k' msgs [= <- <-]. apply Forall_singleton, error_text_sendable. by eapply erroring_channel_id.
  - intros live queue Hq. by split.
Qed.

Lemma ignoring_route_laws : @RoutingLaws _ _ unit ignoring_route_handler (fun _ => True) (fun _ => True).
Proof.
  assert (Hret : forall A (a : A), handler_ok (fun _ : unit => True) (mret (Ok a))) by (intros A a [] _; by eexists _, _).
  split; try (intros; apply Hret); cbn; try (intros; split; [lia|done]); eauto.
Qed.
End Handlers.

#[local] Existing Instance IgnoringMessageHandler.
Lemma ignoring_custom_laws `{Secp} : @CustomHandlerLaws _ _ unit ignoring_custom_handler.
Proof. split; [by intros []|done]. Qed.

(** ** The calls of the channel handler *)

Section Trace.
Context `{SecpLaws} `{!NoiseCrypto} `{!NoiseLaws} `{!FixedTimeEq} `{!FixedTimeEqLaws} `{!PeerCrypto} `{!PeerLaws} `{Hcmr : CustomMessageReader}.
Context {custom_ok : CustomMessage -> Prop} `{!CustomLaws custom_ok}.

Definition call_log : Type := list (NodeId * ChannelCall).

(** Another handler behind a log of the calls. *)
#[local] Instance recording {CM} `{!ChannelMessageHandler CM} : ChannelMessageHandler (call_log * CM) := {|
  chan_call k call c := (c.1 ++ [(from_pubkey k, call)], chan_call k call c.2);
  chan_events c := let '(events, c') := chan_events c.2 in (events, (c.1, c'));
|}.

(** The protocol, from the nodes connected before to those connected after. *)
Inductive follows : gset NodeId -> call_log -> gset NodeId -> Prop :=
| follows_nil live : follows live [] live
| follows_snoc live log live' n call :
    follows live log live' -> permitted live' n call -> call_ok call -> follows live (log ++ [(n, call)]) (live_after live' n call).

Lemma recording_laws {CM} `{!ChannelMessageHandler CM} (chan_inv : gset NodeId -> CM -> Prop) :
  ChannelLaws CM chan_inv -> ChannelLaws (call_log * CM) (fun live c => follows ∅ c.1 live /\ chan_inv live c.2).
Proof.
  intros Hlaws. split.
  - intros live k call [log c] [Hf Hi] Hok Hp. split; [by apply follows_snoc|by apply law_chan_call].
  - intros live [log c] [Hf Hi]. destruct (law_chan_events live c Hi) as [Hev Hi']. cbn. destruct (chan_events c) as [events c']. by split.
Qed.

Context {CM RM X D W : Type} `{Countable D}.
Context `{!ChannelMessageHandler CM, !RoutingMessageHandler RM, !CustomMessageHandler X, !SocketDescriptor D W}.
Context {chan_inv : gset NodeId -> CM -> Prop} {route_inv : RM -> Prop} {clock : Z -> Prop}.
Context `{!ChannelLaws CM chan_inv, !RoutingLaws RM route_inv clock, !CustomHandlerLaws X, !SocketLaws D W}.

Abbreviation manager := (@PeerManager _ _ (call_log * CM) RM X D W _ _).

(** C11: the channel handler is told that a peer is connected before any message of it, and not
    again before it was told that the peer is gone; at any time it has been told of exactly
    the peers that have completed the handshake and sent their [Init]. *)
Theorem channel_calls_ordered (s : manager) :
  reachable (chan_inv := fun live (c : call_log * CM) => follows ∅ c.1 live /\ chan_inv live c.2) (route_inv := route_inv) (clock := clock) s ->
  exists live, follows ∅ (chan_handler s).1 live /\
    forall n, n ∈ live <-> exists d p k, peers s !! d = Some p /\ Peer.their_node_id p = Some k /\ is_Some (Peer.their_features p) /\ n = from_pubkey k.
Proof.
  intros Hs. pose proof (recording_laws chan_inv _) as Hlaws. apply reachable_inv in Hs as (_ & (live & [Hf _] & Hn) & _).
  exists live. split; [done|]. intros n. rewrite (Hn n). split; intros (d & p & k & E & Hk).
  - destruct Hk as [[= Hk Hup] ->]. exists d, p, k. split_and!; try done. apply bool_decide_eq_true in Hup. by destruct (Peer.their_features p).
  - destruct Hk as (Hk & [f Hf'] & ->). exists d, p, k. split_and!; try done. apply identity_of; [done|]. by rewrite Hf'.
Qed.
End Trace.

(** ** The network graph behind the connections *)

Section Gossip.
Context `{SecpLaws} `{!NoiseCrypto} `{!NoiseLaws} `{!FixedTimeEq} `{!FixedTimeEqLaws} `{!PeerCrypto} `{!PeerLaws} `{!GossipCrypto} `{Hcmr : CustomMessageReader}.
Context {custom_ok : CustomMessage -> Prop} `{!CustomLaws custom_ok}.
Context {CM X D W : Type} `{Countable D}.
Context `{!ChannelMessageHandler CM, !CustomMessageHandler X, !SocketDescriptor D W}.
Context {chan_inv : gset NodeId -> CM -> Prop} `{!ChannelLaws CM chan_inv, !CustomHandlerLaws X, !SocketLaws D W}.

Lemma new_sync_inv genesis access : array_ok 32 genesis -> access_ok access -> sync_inv (new_sync (new genesis) access).
Proof. intros Hh Ha. split_and!; [apply new_ok|apply map_Forall_empty|split_and!; [done|apply map_Forall_empty..]|done|constructor]. Qed.

(** C10: behind a manager whose routing handler is the network graph, whatever peers send: the
    graph's nodes and channels agree, and every channel and policy in it is signed by the
    nodes it is about. *)
Theorem network_graph_behind_peers (s : @PeerManager _ _ CM P2PGossipSync X D W _ _) :
  reachable (chan_inv := chan_inv) (route_inv := sync_inv) (clock := clock_ok) s ->
  let g := network_graph (route_handler s) in consistent (channels g) (nodes g) /\ fees_low (channels g) (nodes g) /\ all_signed g.
Proof.
  intros Hs g. pose proof (gossip_sync_laws (custom_ok := custom_ok)) as Hlaws. apply reachable_inv in Hs as (_ & _ & _ & [Hc Hf] & Hsi & _). by split_and!.
Qed.
End Gossip.
