(* ===== verification/PeerCases.v ===== *)
(** * Two managers that talk to each other

    The toy keys and digest of the other case files, with the handlers of the source, satisfy
    the hypotheses of the theorems about connections; two managers then complete a handshake
    and exchange their [Init] messages. *)

From S2P Require Import Prelude Text HexUtils Bytes ChaCha20 Poly1305 Stream Ser SerLaws Aead Tlv Features Msgs Noise OnionHop ChannelMsgs ChannelMsgsLaws GossipMsgs Wire Octets WireCases NoiseSafe NoiseCases Onion OnionError Scid GossipSync Graph GraphSpec GraphAuth PeerManager PeerSpec PeerSafe PeerRead PeerReach PeerTrace.

Local Open Scope Z_scope.

(** * A small graph on which the theorems about the network graph are applied *)

#[local] Existing Instance toy_secp.

(** The signature [true] is valid, for every key. *)
#[local] Instance toy_gossip : GossipCrypto := {|
  verify_ecdsa := fun _ s _ => s; sha256d := fun m => take 32 m; funding_script := fun a b => a ++ b |}.

Definition toy_announcement : ChannelAnnouncement.t :=
  ChannelAnnouncement.mk toy_secp true true true true
    (UnsignedChannelAnnouncement.mk toy_secp [] (replicate 32 0) 77 true false true false []).
Definition toy_update (timestamp flags : Z) (sig : bool) : ChannelUpdate.t :=
  ChannelUpdate.mk toy_secp sig
    (UnsignedChannelUpdate.mk (replicate 32 0) 77 timestamp flags 40 1 (Present 1000) 10 20 []).

Definition toy_now : Z := 2000000.

Definition toy_ops : list Op :=
  [ChannelAnnounced toy_now toy_announcement None; ChannelUpdated toy_now (toy_update 1999000 0 true);
   PaymentFailed toy_now (Some (ChannelUpdateMessage (toy_update 1999001 1 true)));
   ChannelUpdated toy_now (toy_update 1999001 1 true); ChannelUpdated toy_now (toy_update 1999002 1 false);
   ChannelUpdated toy_now (toy_update 1999003 2 true); Pruned (toy_now + 2000000)].

Lemma toy_ops_ok : Forall op_ok toy_ops.
Proof. repeat constructor; by vm_compute. Qed.

Lemma toy_ops_network : Forall from_network toy_ops.
Proof. by repeat constructor. Qed.

Definition toy_graph : NetworkGraph := (run_ops (take 4 toy_ops) (new [])).2.

(** Announcement and first updates are accepted, a duplicate and a bad signature refused;
    pruning empties the graph. *)
Lemma toy_ops_results :
  match (run_ops toy_ops (new [])).1 with Ret rs => is_ok <$> rs | _ => [] end = [true; true; true; false; false; true; true] /\
  size (channels (run_ops toy_ops (new [])).2) = 0%nat /\ size (channels toy_graph) = 1%nat.
Proof. split_and!; vm_compute; reflexivity. Qed.

Lemma graph_stays_consistent_witness :
  exists rs g, run_ops toy_ops (new []) = (Ret rs, g) /\ consistent (channels g) (nodes g) /\ fees_low (channels g) (nodes g).
Proof. apply (graph_stays_consistent [] toy_ops toy_ops_ok). Defined.

Lemma graph_is_signed_witness : all_signed toy_graph.
Proof.
  apply (graph_is_signed [] (take 4 toy_ops) (run_ops (take 4 toy_ops) (new [])).1 toy_graph).
  - apply Forall_take, toy_ops_network.
  - apply surjective_pairing.
Defined.

Lemma toy_graph_ok : graph_ok toy_graph.
Proof.
  destruct (run_ops_safe (take 4 toy_ops)) with (g := new []) as (rs & g & E & Hg); [apply Forall_take, toy_ops_ok|apply new_ok|].
  unfold toy_graph. by rewrite E.
Qed.

Lemma update_channel_effect_witness :
  let msg := toy_update 1999005 0 true in
  (exists e, update_channel toy_now msg toy_graph = (Ret (Err e), toy_graph)) \/
  (exists c g', let contents := ChannelUpdate.contents msg in let scid := UnsignedChannelUpdate.short_channel_id contents in
     update_channel toy_now msg toy_graph = (Ret (Ok tt), g') /\
     channels toy_graph !! scid = Some c /\ channels g' = <[scid := updated contents (Some msg) c]> (channels toy_graph) /\
     (forall i, direction_of contents c = Some i -> ChannelUpdateInfo.last_update i < UnsignedChannelUpdate.timestamp contents) /\
     (exists k, pk_from_slice (source_of contents c) = Some k /\
        verify_ecdsa (sha256d (encode UnsignedChannelUpdate.codec contents)) (ChannelUpdate.signature msg) k = true)).
Proof. apply (update_channel_effect toy_now (toy_update 1999005 0 true) toy_graph); [by vm_compute|exact toy_graph_ok]. Defined.

(** * The manager *)

#[local] Existing Instances toy_secp toy_secp_laws toy_noise toy_noise_laws toy_eq toy_eq_laws toy_gossip IgnoringMessageHandler ignoring_laws.
#[local] Existing Instances erroring_handler ignoring_route_handler ignoring_custom_handler recording.
#[local] Existing Instances erroring_laws ignoring_route_laws ignoring_custom_laws recording_laws.

#[local] Instance toy_peer_crypto : PeerCrypto := {|
  pk_ltb a b := negb a && b; sk_from_slice m := Some (Z.odd (nth 31 m 0));
|}.
#[local] Instance toy_peer_laws : PeerLaws.
Proof. split. intros m. by eexists. Qed.

(** Sockets that take everything; what was written to each. *)
Definition toy_world : Type := list (nat * bytes).
#[local] Instance toy_socket : SocketDescriptor nat toy_world := {|
  send_data d data _ w := (length data, w ++ [(d, data)]);
  disconnect_socket _ w := w;
|}.
#[local] Instance toy_socket_laws : SocketLaws nat toy_world.
Proof. split. intros d data resume w. cbn. lia. Qed.

Abbreviation toy_handler := (call_log * list MessageSendEvent)%type.

(** Managers with either routing handler. *)
Section Sessions.
Context {RM : Type} `{!RoutingMessageHandler RM} (route : RM) (route_inv : RM -> Prop) `{!RoutingLaws RM route_inv clock_ok} (Hroute : route_inv route).

Abbreviation toy_manager := (@PeerManager _ _ toy_handler RM unit nat toy_world _ _).
Definition toy_new (secret : bool) (seed : bytes) : toy_manager := new_manager secret seed ([], []) route tt [].
Definition sent_of (s : toy_manager) : bytes := concat (sockets s).*2.
Definition clear (s : toy_manager) : toy_manager := set_sockets [] s.
Definition run_op (o : operation) (s : toy_manager) : toy_manager := (perform o s).2.

(** Read pieces of what the other wrote, and write. *)
Definition deliver (pieces : list bytes) (s : toy_manager) : toy_manager :=
  run_op (ProcessEvents toy_now) (foldl (fun s b => run_op (ReadEvent toy_now 1%nat b) s) s pieces).

Definition toy_chan_inv (live : gset NodeId) (c : toy_handler) : Prop := follows ∅ c.1 live /\ Forall event_sendable c.2.
#[local] Instance toy_chan_laws : ChannelLaws toy_handler toy_chan_inv.
Proof. exact (recording_laws (fun _ queue => Forall event_sendable queue) erroring_laws). Qed.

Abbreviation toy_reachable := (reachable (chan_inv := toy_chan_inv) (route_inv := route_inv) (clock := clock_ok)).
Abbreviation toy_allowed := (allowed (chan_inv := toy_chan_inv) (route_inv := route_inv) (clock := clock_ok)).

Lemma toy_new_reachable secret seed : toy_reachable (toy_new secret seed).
Proof. apply reach_new; [split; [apply follows_nil|constructor]|done]. Qed.

Lemma step_reachable o (s : toy_manager) : toy_reachable s -> toy_allowed s o -> (perform o s).1 = Ret tt -> toy_reachable (run_op o s).
Proof. intros Hs Ha E. eapply reach_step; [exact Hs|exact Ha|]. rewrite <- E. apply surjective_pairing. Qed.

Lemma clear_reachable (s : toy_manager) : toy_reachable s -> toy_reachable (clear s).
Proof.
  intros Hs. pose proof (reachable_inv s Hs) as (_ & _ & _ & Hr).
  by apply (reach_step s (Elsewhere (chan_handler s) (route_handler s) (custom_handler s) [])); [|split|destruct s].
Qed.

(** Deliveries return. *)
Fixpoint reads (pieces : list bytes) (s : toy_manager) : bool :=
  match pieces with
  | [] => match (perform (ProcessEvents toy_now) s).1 with Ret _ => true | _ => false end
  | b :: pieces' =>
      forallb (in_widthb 8) b && match perform (ReadEvent toy_now 1%nat b) s with (Ret _, s') => reads pieces' s' | _ => false end
  end.

Lemma deliver_reachable pieces (s : toy_manager) : toy_reachable s -> reads pieces s = true -> toy_reachable (deliver pieces s).
Proof.
  assert (Hnow : clock_ok toy_now) by by_decide. unfold deliver. revert s. induction pieces as [|b pieces IH]; intros s Hs Hr; cbn [foldl reads] in *.
  - apply step_reachable; [done|done|]. by destruct (perform (ProcessEvents toy_now) s) as [[[]|why|] s'].
  - apply andb_prop in Hr as [Hb Hr]. unfold run_op at 3. destruct (perform (ReadEvent toy_now 1%nat b) s) as [[[]|why|] s'] eqn:E; try done.
    apply IH; [|done]. eapply reach_step; [exact Hs| |exact E]. split; [done|]. apply Forall_forall. intros x Hx.
    rewrite forallb_forall in Hb. apply in_widthb_true, Hb. by apply list_elem_of_In.
Qed.

(** The inbound side, which the bytes of the other are given to. *)
Definition bob0 : toy_manager := run_op (NewInbound 1%nat None) (toy_new false [9]).
Lemma bob0_reachable : toy_reachable bob0.
Proof. apply step_reachable; [apply toy_new_reachable|by split|done]. Qed.
End Sessions.
#[local] Existing Instance toy_chan_laws.

Abbreviation plain := (@PeerManager _ _ toy_handler unit unit nat toy_world _ _).
Abbreviation gossiping := (@PeerManager _ _ toy_handler P2PGossipSync unit nat toy_world _ _).
Definition gossip0 : P2PGossipSync := new_sync (new (replicate 32 0)) None.

(** A session: [alice] connects to [carol], who has the network graph behind her and whose
    first read is cut in two; then [alice] sends an announcement. *)
Definition alice0 : plain := run_op (NewOutbound false 1%nat None) (toy_new tt true [7]).
Definition act_one : bytes := match (new_outbound_connection false 1%nat None (toy_new tt true [7])).1 with Ret (Ok b) => b | _ => [] end.
Definition first_pieces : list bytes := [take 20 act_one; drop 20 act_one].
Definition carol1 : gossiping := deliver first_pieces (bob0 gossip0).
Definition alice1 : plain := deliver [sent_of carol1] alice0.
Definition announcing : plain :=
  run_op (ProcessEvents toy_now) (with_peer 1%nat (enqueue_message (MChannelAnnouncement toy_announcement)) (clear alice1)).2.
Definition second_pieces : list bytes := [sent_of alice1; take 100 (sent_of announcing); drop 100 (sent_of announcing)].
Definition carol2 : gossiping := deliver second_pieces (clear carol1).

(** Whose [Init] a channel handler was told of, and nothing else. *)
Definition told_of {RM} (s : @PeerManager _ _ toy_handler RM unit nat toy_world _ _) : list (option (NodeId * bytes)) :=
  (fun e : NodeId * ChannelCall => match e.2 with PeerConnected m => Some (e.1, Init.features m) | _ => None end) <$> (chan_handler s).1.

(** Everything returns; [carol] knows [alice], her channel handler has been told, and the
    announcement has arrived. The facts are evaluated together, once. *)
Definition session_facts (c1 c2 : gossiping) : Prop :=
  reads first_pieces (bob0 gossip0) = true /\ reads second_pieces (clear c1) = true /\ node_id_to_descriptor c2 !! toy_key true = Some 1%nat /\
  told_of c2 = [Some (toy_key true, known InitContext)] /\
  map_to_list (ChannelInfo.capacity_sats <$> channels (network_graph (route_handler c2))) = [(77, None)] /\
  genesis_hash (network_graph (route_handler c2)) = replicate 32 0.
#[local] Instance session_facts_dec c1 c2 : Decision (session_facts c1 c2).
Proof. unfold session_facts. apply _. Defined.

Lemma toy_session : session_facts carol1 carol2.
Proof. apply (bool_decide_eq_true_1 (session_facts carol1 carol2)). vm_compute. reflexivity. Qed.

Abbreviation gossip_reachable := (reachable (chan_inv := toy_chan_inv) (route_inv := sync_inv) (clock := clock_ok)).
#[local] Instance toy_gossip_laws : RoutingLaws P2PGossipSync sync_inv clock_ok.
Proof. apply (gossip_sync_laws (custom_ok := fun _ => True)). Qed.

Lemma carol2_reachable : gossip_reachable carol2.
Proof.
  destruct toy_session as (H1 & H2 & _). apply deliver_reachable; [|exact H2]. apply clear_reachable; [apply _|]. apply deliver_reachable; [|exact H1].
  apply bob0_reachable, new_sync_inv; [split; [done|by_decide]|done].
Qed.

Lemma manager_stays_consistent_witness :
  gossip_reachable carol2 /\ (exists d, node_id_to_descriptor carol2 !! toy_key true = Some d) /\
  forall n d, node_id_to_descriptor carol2 !! n = Some d <-> exists p k, peers carol2 !! d = Some p /\ Peer.their_node_id p = Some k /\ n = from_pubkey k.
Proof.
  pose proof (manager_stays_consistent (chan_inv := toy_chan_inv) (route_inv := sync_inv) (clock := clock_ok) carol2 carol2_reachable) as (Hl & _).
  destruct toy_session as (_ & _ & Hd & _). split_and!; [exact carol2_reachable|exists 1%nat; exact Hd|exact Hl].
Defined.

Lemma channel_calls_ordered_witness :
  gossip_reachable carol2 /\ exists live, follows ∅ (chan_handler carol2).1 live /\
    forall n, n ∈ live <-> exists d p k, peers carol2 !! d = Some p /\ Peer.their_node_id p = Some k /\ is_Some (Peer.their_features p) /\ n = from_pubkey k.
Proof.
  split; [exact carol2_reachable|]. exact (channel_calls_ordered (chan_inv := fun _ queue => Forall event_sendable queue) (route_inv := sync_inv) (clock := clock_ok) carol2 carol2_reachable).
Defined.

Lemma network_graph_behind_peers_witness :
  gossip_reachable carol2 /\ let g := network_graph (route_handler carol2) in
  map_to_list (ChannelInfo.capacity_sats <$> channels g) = [(77, None)] /\ consistent (channels g) (nodes g) /\ fees_low (channels g) (nodes g) /\ all_signed g.
Proof.
  destruct toy_session as (_ & _ & _ & _ & Hc & _). split; [exact carol2_reachable|]. split; [exact Hc|].
  exact (network_graph_behind_peers (custom_ok := fun _ => True) (chan_inv := toy_chan_inv) carol2 carol2_reachable).
Defined.

(** Queries to that graph: of the first ten blocks, and of another chain. *)
Definition toy_query : QueryChannelRange.t := QueryChannelRange.mk (replicate 32 0) 0 10.
Definition foreign_query : QueryChannelRange.t := QueryChannelRange.mk (replicate 32 9) 0 10.

Lemma carol2_sync : sync_inv (route_handler carol2).
Proof. pose proof (reachable_inv carol2 carol2_reachable) as (_ & _ & _ & Hs). exact Hs. Qed.

Lemma carol2_chain : genesis_hash (network_graph (route_handler carol2)) = replicate 32 0.
Proof. by destruct toy_session as (_ & _ & _ & _ & _ & H). Qed.


Lemma query_refused_witness :
  exists s', handle_query_channel_range true foreign_query (route_handler carol2) =
    (Ret (Err (mkLightningError "query_channel_range could not be processed" IgnoreError)), s').
Proof.
  eexists. apply (query_refused (true : @PublicKey toy_secp) foreign_query (route_handler carol2)); [split_and!; by_decide|]. intros [Hh _]. rewrite carol2_chain in Hh. discriminate Hh.
Defined.

(** ** The panics that are left *)

(** A peer that keeps sending but never answers a ping is let go on for four ticks a
    connection; from 32 connections on the counter of its ticks overflows before that. *)
Definition busy_peer : Peer.t :=
  Peer.set_received_message_since_timer_tick true (Peer.set_awaiting_pong_timer_tick_intervals 127
    (Peer.set_their_node_id (Some true) (new_peer toy_peer None))).
Example tick_overflow : (tick_peer 32 busy_peer).1 = Panic overflow.
Proof. vm_compute. reflexivity. Qed.
Example tick_disconnects : (tick_peer 31 busy_peer).1 = Ret TickDisconnect.
Proof. vm_compute. reflexivity. Qed.

(** The initial sync asks for what follows the last announcement it sent. *)
Definition last_announcement : ChannelAnnouncement.t :=
  ChannelAnnouncement.mk toy_secp true true true true (UnsignedChannelAnnouncement.mk toy_secp [] (replicate 32 0) U64_MAX true false true false []).
Example sync_overflow :
  (enqueue_channels [(last_announcement, None, None)] (Peer.set_their_node_id (Some true) (new_peer toy_peer None))).1 = Panic overflow.
Proof. vm_compute. reflexivity. Qed.

(** The counter of ephemeral keys repeats itself once its low half needs more than 32 bits. *)
Example counter_repeats : (get_increment (mkCounter 1 1)).1 = (get_increment (mkCounter (2 ^ 32 + 1) 1)).1.
Proof. vm_compute. reflexivity. Qed.
