(* ===== verification/RapidSync.v ===== *)
(** * Rapid gossip sync: rust-lightning/lightning-rapid-gossip-sync/src

    A server the user trusts sends the network graph in a compact form: the nodes once, short
    channel ids as differences, and updates as what is different from a default or from what is
    known already.  [update_network_graph_from_byte_stream] decodes it and applies it to the graph
    piece by piece, so that an error leaves the graph with the pieces before it. *)

From S2P Require Import Prelude Text Bytes Stream Ser SerLaws Tlv Features Msgs ChannelMsgs GossipMsgs OnionError Graph GraphSpec WireCases.

Local Open Scope Z_scope.

Definition GOSSIP_PREFIX : bytes := [76; 68; 75; 1].

(** error.rs *)
Inductive GraphSyncError :=
| EDecodeError (e : DecodeError)
| ELightningError (e : LightningError).

(** [From<std::io::Error> for GraphSyncError], on an error [read_exact] has turned into a
    [DecodeError]. *)
Definition io_error (e : DecodeError) : GraphSyncError :=
  EDecodeError (match e with ShortRead => Io UnexpectedEof | _ => e end).

Record RapidGossipSync `{Secp} := mkRapid { network_graph : NetworkGraph; is_initial_sync_complete : bool }.

(** [channel_flags & mask > 0]. *)
Definition has_flag (channel_flags mask : Z) : bool := 0 <? Z.land channel_flags mask.

Section Source.
Context `{GossipCrypto} `{Read R}.
(** The time at the i-th update of a call. *)
Context (clock : nat -> Z).

Abbreviation sync A := (prog (R * RapidGossipSync) A).

Definition new_rapid (g : NetworkGraph) : RapidGossipSync := mkRapid _ g false.

Definition get_directional_info (c : ChannelInfo.t) (channel_flags : Z) : option ChannelUpdateInfo.t :=
  if Z.land channel_flags 1 =? 0 then ChannelInfo.one_to_two c else ChannelInfo.two_to_one c.

(** Read from the stream, with the conversion of the error the [?] makes. *)
Definition from_stream {A} (conv : DecodeError -> GraphSyncError) (m : rd A) : sync (result A GraphSyncError) :=
  fun s =>
    match run m s.1 with
    | (Ret r, c) => (Ret (map_err conv r), (c, s.2))
    | (Panic w, c) => (Panic w, (c, s.2))
    | (OutOfFuel, c) => (OutOfFuel, (c, s.2))
    end.
Definition readable {A} (c : Codec A) : sync (result A GraphSyncError) := from_stream EDecodeError (c_read c).

Definition on_graph {A} (m : prog NetworkGraph A) : sync A :=
  fun s => let '(o, g) := m (network_graph s.2) in (o, (s.1, mkRapid _ g (is_initial_sync_complete s.2))).

Definition checked_scid (previous_scid scid_delta : Z) : result Z GraphSyncError :=
  if in_widthb 64 (previous_scid + scid_delta) then Ok (previous_scid + scid_delta) else Err (EDecodeError InvalidValue).

Definition node_at (node_ids : list PublicKey) (i : Z) : outcome PublicKey :=
  Prelude.unwrap "index out of bounds" (node_ids !! Z.to_nat i).

(** One announcement. *)
Definition apply_announcement (backdated_timestamp node_id_count : Z) (node_ids : list PublicKey) (previous_scid : Z) :
    sync (result Z GraphSyncError) :=
  let? features := readable featuresc in
  let? scid_delta := readable BigSize in
  let? short_channel_id := mret (checked_scid previous_scid scid_delta) in
  let? node_id_1_index := readable BigSize in
  let? node_id_2_index := readable BigSize in
  if node_id_count <=? Z.max node_id_1_index node_id_2_index then mret (Err (EDecodeError InvalidValue))
  else
    node_id_1 ← lift (node_at node_ids node_id_1_index);
    node_id_2 ← lift (node_at node_ids node_id_2_index);
    announcement_result ← on_graph (add_channel_from_partial_announcement short_channel_id backdated_timestamp features node_id_1 node_id_2);
    mret (match announcement_result with
          | Err lightning_error =>
              match action lightning_error with
              | IgnoreDuplicateGossip => Ok short_channel_id
              | _ => Err (ELightningError lightning_error)
              end
          | Ok _ => Ok short_channel_id
          end).

Fixpoint apply_announcements (n : nat) (backdated_timestamp node_id_count : Z) (node_ids : list PublicKey) (previous_scid : Z) :
    sync (result unit GraphSyncError) :=
  match n with
  | O => mret (Ok tt)
  | S n' =>
      let? short_channel_id := apply_announcement backdated_timestamp node_id_count node_ids previous_scid in
      apply_announcements n' backdated_timestamp node_id_count node_ids short_channel_id
  end.

(** The maximum of all ones stands for no maximum. *)
Definition maximum_field (tentative_htlc_maximum_msat : Z) : OptionalField Z :=
  if tentative_htlc_maximum_msat =? 2 ^ 64 - 1 then Absent else Present tentative_htlc_maximum_msat.

Record Defaults := mkDefaults {
  default_cltv_expiry_delta : Z; default_htlc_minimum_msat : Z; default_fee_base_msat : Z;
  default_fee_proportional_millionths : Z; default_htlc_maximum_msat : OptionalField Z }.

Definition full_update (chain_hash : bytes) (backdated_timestamp : Z) (d : Defaults) (short_channel_id channel_flags : Z) : UnsignedChannelUpdate.t :=
  UnsignedChannelUpdate.mk chain_hash short_channel_id backdated_timestamp (Z.land channel_flags 3)
    (default_cltv_expiry_delta d) (default_htlc_minimum_msat d) (default_htlc_maximum_msat d) (default_fee_base_msat d)
    (default_fee_proportional_millionths d) [].

Definition incremental_update (chain_hash : bytes) (backdated_timestamp : Z) (g : NetworkGraph) (short_channel_id channel_flags : Z) :
    result UnsignedChannelUpdate.t GraphSyncError :=
  match channels g !! short_channel_id with
  | None => Err (ELightningError (mkLightningError "Couldn't find channel for update" IgnoreError))
  | Some channel =>
      match get_directional_info channel channel_flags with
      | None => Err (ELightningError (mkLightningError "Couldn't find previous directional data for update" IgnoreError))
      | Some info =>
          Ok (UnsignedChannelUpdate.mk chain_hash short_channel_id backdated_timestamp (Z.land channel_flags 3)
                (ChannelUpdateInfo.cltv_expiry_delta info) (ChannelUpdateInfo.htlc_minimum_msat info)
                (match ChannelUpdateInfo.htlc_maximum_msat info with Some m => Present m | None => Absent end)
                (RoutingFees.base_msat (ChannelUpdateInfo.fees info))
                (RoutingFees.proportional_millionths (ChannelUpdateInfo.fees info)) [])
      end
  end.

(** [if channel_flags & mask > 0 { let x = read; ... }]. *)
Definition override (channel_flags mask : Z) (c : Codec Z) (set : Z -> UnsignedChannelUpdate.t -> UnsignedChannelUpdate.t) (u : UnsignedChannelUpdate.t) :
    sync (result UnsignedChannelUpdate.t GraphSyncError) :=
  if has_flag channel_flags mask then let? x := readable c in mret (Ok (set x u)) else mret (Ok u).

Definition with_cltv (x : Z) (u : UnsignedChannelUpdate.t) : UnsignedChannelUpdate.t :=
  let 'UnsignedChannelUpdate.mk ch scid ts fl _ mn mx fb fp ex := u in UnsignedChannelUpdate.mk ch scid ts fl x mn mx fb fp ex.
Definition with_minimum (x : Z) (u : UnsignedChannelUpdate.t) : UnsignedChannelUpdate.t :=
  let 'UnsignedChannelUpdate.mk ch scid ts fl cl _ mx fb fp ex := u in UnsignedChannelUpdate.mk ch scid ts fl cl x mx fb fp ex.
Definition with_base (x : Z) (u : UnsignedChannelUpdate.t) : UnsignedChannelUpdate.t :=
  let 'UnsignedChannelUpdate.mk ch scid ts fl cl mn mx _ fp ex := u in UnsignedChannelUpdate.mk ch scid ts fl cl mn mx x fp ex.
Definition with_proportional (x : Z) (u : UnsignedChannelUpdate.t) : UnsignedChannelUpdate.t :=
  let 'UnsignedChannelUpdate.mk ch scid ts fl cl mn mx fb _ ex := u in UnsignedChannelUpdate.mk ch scid ts fl cl mn mx fb x ex.
Definition with_maximum (x : Z) (u : UnsignedChannelUpdate.t) : UnsignedChannelUpdate.t :=
  let 'UnsignedChannelUpdate.mk ch scid ts fl cl mn _ fb fp ex := u in UnsignedChannelUpdate.mk ch scid ts fl cl mn (maximum_field x) fb fp ex.

(** The fields the flags announce. *)
Definition read_overrides (channel_flags : Z) (u : UnsignedChannelUpdate.t) : sync (result UnsignedChannelUpdate.t GraphSyncError) :=
  let? u := override channel_flags 0x40 u16c with_cltv u in
  let? u := override channel_flags 0x20 u64c with_minimum u in
  let? u := override channel_flags 0x10 u32c with_base u in
  let? u := override channel_flags 0x08 u32c with_proportional u in
  override channel_flags 0x04 u64c with_maximum u.

(** One update. *)
Definition apply_update (i : nat) (chain_hash : bytes) (backdated_timestamp : Z) (d : Defaults) (previous_scid : Z) : sync (result Z GraphSyncError) :=
  let? scid_delta := readable BigSize in
  let? short_channel_id := mret (checked_scid previous_scid scid_delta) in
  let? channel_flags := readable u8c in
  s ← get;
  let? synthetic_update := mret (
    if Z.land channel_flags 0x80 =? 0 then Ok (full_update chain_hash backdated_timestamp d short_channel_id channel_flags)
    else incremental_update chain_hash backdated_timestamp (network_graph s.2) short_channel_id channel_flags) in
  let? synthetic_update := read_overrides channel_flags synthetic_update in
  r ← on_graph (update_channel_unsigned (clock i) synthetic_update);
  mret (match r with Ok _ => Ok short_channel_id | Err e => Err (ELightningError e) end).

Fixpoint apply_updates (n i : nat) (chain_hash : bytes) (backdated_timestamp : Z) (d : Defaults) (previous_scid : Z) : sync (result unit GraphSyncError) :=
  match n with
  | O => mret (Ok tt)
  | S n' =>
      let? short_channel_id := apply_update i chain_hash backdated_timestamp d previous_scid in
      apply_updates n' (S i) chain_hash backdated_timestamp d short_channel_id
  end.

Definition read_defaults : sync (result Defaults GraphSyncError) :=
  let? cltv := readable u16c in
  let? minimum := readable u64c in
  let? base := readable u32c in
  let? proportional := readable u32c in
  let? tentative := readable u64c in
  mret (Ok (mkDefaults cltv minimum base proportional (maximum_field tentative))).

Definition backdate (latest_seen_timestamp : Z) : Z := saturating_sub latest_seen_timestamp (24 * 3600 * 7).

Definition update_network_graph_from_byte_stream : sync (result Z GraphSyncError) :=
  let? prefix := from_stream io_error (read_exact 4) in
  if bool_decide (prefix = GOSSIP_PREFIX) then
    let? chain_hash := readable (arrayc 32) in
    let? latest_seen_timestamp := readable u32c in
    let backdated_timestamp := backdate latest_seen_timestamp in
    let? node_id_count := readable u32c in
    let? node_ids := from_stream EDecodeError (read_n pubkeyc (Z.to_nat node_id_count)) in
    let? announcement_count := readable u32c in
    let? _ := apply_announcements (Z.to_nat announcement_count) backdated_timestamp node_id_count node_ids 0 in
    let? update_count := readable u32c in
    if update_count =? 0 then mret (Ok latest_seen_timestamp)
    else
      let? d := read_defaults in
      let? _ := apply_updates (Z.to_nat update_count) 0 chain_hash backdated_timestamp d 0 in
      _ ← on_graph (set_last_rapid_gossip_sync_timestamp latest_seen_timestamp);
      _ ← modify (fun s => (s.1, mkRapid _ (network_graph s.2) true));
      mret (Ok latest_seen_timestamp)
  else mret (Err (EDecodeError UnknownVersion)).
End Source.

Section Calls.
Context `{GossipCrypto} (clock : nat -> Z).

(** From bytes in memory, and from a file that [open] opens or fails to. *)
Definition update_network_graph (update_data : bytes) : prog RapidGossipSync (result Z GraphSyncError) :=
  fun s => let '(o, (_, s')) := update_network_graph_from_byte_stream clock (update_data, s) in (o, s').

Definition sync_network_graph_with_file_path `{Read R} (open : string -> result R IoKind) (sync_path : string) : prog RapidGossipSync (result Z GraphSyncError) :=
  match open sync_path with
  | Err e => mret (Err (EDecodeError (Io e)))
  | Ok file => fun s => let '(o, (_, s')) := update_network_graph_from_byte_stream clock (file, s) in (o, s')
  end.
End Calls.

(** ** Reading always returns *)

Definition always {A} (m : rd A) : Prop := forall bs : bytes, exists r rest, run m bs = (Ret r, rest).

Lemma always_ret {A} (r : result A DecodeError) : always (RRet (Ret r)).
Proof. intros bs. by exists r, bs. Qed.
Lemma always_bind {A B} (m : rd A) (f : A -> rd B) : always m -> (forall a, always (f a)) -> always (m ≫= f).
Proof. intros Hm Hf bs. rewrite run_bind. destruct (Hm bs) as ([a|e] & rest & ->); [apply Hf|by eexists _, _]. Qed.
Lemma always_exact n : always (read_exact n).
Proof. intros bs. destruct (le_lt_dec n (length bs)); [rewrite run_read_exact_ok by done|rewrite run_read_exact_short by done]; by eexists _, _. Qed.
Lemma always_n {T} (c : Codec T) n : always (c_read c) -> always (read_n c n).
Proof. intros Hc. induction n as [|n IH]; [apply always_ret|]. apply always_bind; [done|]. intros x. apply always_bind; [done|]. intros xs. apply always_ret. Qed.

Create HintDb always discriminated.
#[export] Hint Resolve always_ret always_exact always_n : always.
#[export] Hint Extern 1 (always (mbind _ _)) => apply always_bind; [|intros] : always.
#[export] Hint Extern 1 (always (mret _)) => apply always_ret : always.
#[export] Hint Extern 3 (always (if ?b then _ else _)) => destruct b : always.
#[export] Hint Extern 3 (always (match ?o with _ => _ end)) => destruct o : always.

Lemma always_u8 : always (c_read u8c). Proof. cbn [c_read u8c]. auto with always. Qed.
Lemma always_uint n : always (c_read (uintc n)). Proof. cbn [c_read uintc]. auto with always. Qed.
#[export] Hint Resolve always_u8 always_uint : always.
Lemma always_bigsize : always (c_read BigSize).
Proof. unfold BigSize, u16c, u32c, u64c. cbn [c_read]. auto 8 with always. Qed.
Lemma always_features : always (c_read featuresc).
Proof. unfold featuresc, vecc, u16c. cbn [c_read]. auto 8 with always. Qed.
Lemma always_pubkey `{Secp} : always (c_read pubkeyc).
Proof. unfold pubkeyc, slicec. cbn [c_read arrayc]. auto 8 with always. Qed.
#[export] Hint Resolve always_bigsize always_features always_pubkey : always.

Lemma read_n_length {T} (c : Codec T) n : forall (bs : bytes) xs rest, run (read_n c n) bs = (Ret (Ok xs), rest) -> length xs = n.
Proof.
  induction n as [|n IH]; intros bs xs rest E; [by injection E as <- <-|]. apply run_bind_inv in E as (x & bs1 & _ & E). apply run_bind_inv in E as (ys & bs2 & E1 & E). injection E as <- <-. cbn. f_equal. by eapply IH.
Qed.

(** ** Any data is safe *)

Section Safe.
Context `{GossipCrypto} (clock : nat -> Z) (Hclock : forall i, clock_ok (clock i)).

(** What holds until the end of a sync: the graph is consistent, and the marks of a completed sync are
    those of before. *)
Record intact (t : option Z) (f : bool) (s : bytes * RapidGossipSync) : Prop := {
  in_u8 : all_u8 s.1;
  in_ok : graph_ok (network_graph s.2);
  in_time : last_rapid_gossip_sync_timestamp (network_graph s.2) = t;
  in_flag : is_initial_sync_complete s.2 = f;
}.
Context (t : option Z) (f : bool).

Definition ends_in {A} (m : prog (bytes * RapidGossipSync) (result A GraphSyncError)) (Q : A -> Prop) : Prop :=
  forall s, intact t f s -> exists r s', m s = (Ret r, s') /\ intact t f s' /\ forall a, r = Ok a -> Q a.

Lemma ends_ret {A} (r : result A GraphSyncError) (Q : A -> Prop) : (forall a, r = Ok a -> Q a) -> ends_in (mret r) Q.
Proof. intros HQ s Hs. by exists r, s. Qed.
Lemma ends_let {A B} m (k : A -> prog (bytes * RapidGossipSync) (result B GraphSyncError)) Q Q' :
  ends_in m Q -> (forall a, Q a -> ends_in (k a) Q') -> ends_in (let? a := m in k a) Q'.
Proof.
  intros Hm Hk s Hs. destruct (Hm s Hs) as ([a|e] & s1 & E & H1 & HQ).
  - rewrite (bind_ok_Ok _ _ _ _ _ E). by apply Hk; [apply HQ|].
  - exists (Err e), s1. split; [unfold bind_ok, mbind, prog_bind; by rewrite E|done].
Qed.
Lemma ends_stream {A} conv (m : rd A) (Q : A -> Prop) :
  always m -> (forall bs a rest, all_u8 bs -> run m bs = (Ret (Ok a), rest) -> Q a) -> ends_in (from_stream conv m) Q.
Proof.
  intros Hm HQ [bs st] [Hu Hok Ht Hf]. destruct (Hm bs) as (r & rest & E). unfold from_stream. cbn [fst snd] in *. rewrite E. eexists _, _. split; [done|]. split.
  - split; try done. cbn. by eapply run_u8.
  - intros a. destruct r; [|done]. intros [= <-]. by eapply HQ.
Qed.
Lemma ends_readable {A} (c : Codec A) valid `{!Typed c valid} : always (c_read c) -> ends_in (readable c) valid.
Proof. intros Hc. apply ends_stream; [done|]. intros bs a rest Hu E. by eapply (typed (c := c)). Qed.

(** An operation of the graph that is safe and leaves the time of the last sync. *)
Definition same_time (g g' : NetworkGraph) : Prop := last_rapid_gossip_sync_timestamp g' = last_rapid_gossip_sync_timestamp g.
#[local] Instance same_time_preorder : PreOrder same_time.
Proof. split; [done|]. intros a b c. unfold same_time. congruence. Qed.

Lemma ends_graph {A B} (m : prog NetworkGraph A) (k : A -> result B GraphSyncError) (Q : B -> Prop) :
  safe m -> keeps same_time m -> (forall a b, k a = Ok b -> Q b) -> ends_in (a ← on_graph m; mret (k a)) Q.
Proof.
  intros Hm Hk HQ [bs st] [Hu Hok Ht Hf]. destruct (Hm _ Hok) as (a & g & E & Hg). unfold on_graph, mbind, prog_bind. cbn [fst snd] in *. rewrite E. eexists _, _. split; [done|]. split; [|by intros; eapply HQ].
  split; try done. cbn. rewrite <- Ht. by apply (Hk _ _ _ E).
Qed.

Lemma partial_time scid ts features k1 k2 : keeps same_time (add_channel_from_partial_announcement scid ts features k1 k2).
Proof.
  unfold add_channel_from_partial_announcement. case_bool_decide; [apply keeps_ret, _|]. unfold add_channel_between_nodes. apply keeps_bind; [apply _|by intros g o g' [= <- <-]|]. intros g.
  destruct (channels g !! scid); [apply keeps_ret, _|]. unfold add_to_node. solve_keeps; by apply keeps_modify.
Qed.
Lemma update_time now msg : keeps same_time (update_channel_unsigned now msg).
Proof.
  intros g o g' E. unfold update_channel_unsigned, update_channel_intern, update_node_fees, bind_ok, mbind, prog_bind, lift, get, put, mret, prog_ret in E.
  repeat (case_match; simplify_eq); done.
Qed.

Lemma ends_weaken {A} m (Q Q' : A -> Prop) : ends_in m Q -> (forall a, Q a -> Q' a) -> ends_in m Q'.
Proof. intros Hm HQ s Hs. destruct (Hm s Hs) as (r & s' & E & H1 & H2). exists r, s'. split_and!; auto. Qed.

Lemma ends_announcement ts count node_ids prev : Z.of_nat (length node_ids) = count ->
  ends_in (apply_announcement ts count node_ids prev) (fun _ => True).
Proof.
  intros Hl. unfold apply_announcement.
  eapply ends_let; [apply (ends_readable featuresc vec_ok), always_features|]. intros features _.
  eapply ends_let; [apply (ends_readable BigSize u64), always_bigsize|]. intros delta _.
  eapply (ends_let _ _ (fun _ => True)); [by apply ends_ret|]. intros scid _.
  eapply ends_let; [apply (ends_readable BigSize u64), always_bigsize|]. intros i Hi.
  eapply ends_let; [apply (ends_readable BigSize u64), always_bigsize|]. intros j Hj. unfold in_width in Hi, Hj.
  destruct (Z.leb_spec count (Z.max i j)); [by apply ends_ret|].
  assert (Hat : forall k, 0 <= k < count -> exists n, node_at node_ids k = Ret n).
  { intros k Hk. destruct (lookup_lt_is_Some_2 node_ids (Z.to_nat k)) as [n En]; [lia|]. exists n. unfold node_at. by rewrite En. }
  destruct (Hat i ltac:(lia)) as [n1 E1], (Hat j ltac:(lia)) as [n2 E2]. rewrite E1, E2.
  apply ends_graph; [apply (run_op_safe (ChannelPartiallyAnnounced scid ts features n1 n2) I)|apply partial_time|done].
Qed.

Lemma ends_announcements ts count node_ids n : Z.of_nat (length node_ids) = count ->
  forall prev, ends_in (apply_announcements n ts count node_ids prev) (fun _ => True).
Proof.
  intros Hl. induction n as [|n IH]; intros prev; [by apply ends_ret|]. cbn [apply_announcements]. eapply ends_let; [by apply ends_announcement|]. intros scid _. apply IH.
Qed.

Lemma ends_override flags mask n set u : ends_in (override flags mask (uintc n) set u) (fun _ => True).
Proof.
  unfold override. destruct (has_flag flags mask); [|by apply ends_ret]. eapply (ends_let _ _ (fun _ => True)); [|intros; by apply ends_ret]. by apply ends_stream; [apply always_uint|].
Qed.

Lemma ends_update i chain_hash ts d prev : ends_in (apply_update clock i chain_hash ts d prev) (fun _ => True).
Proof.
  unfold apply_update. eapply ends_let; [apply (ends_readable BigSize u64), always_bigsize|]. intros delta _.
  eapply (ends_let _ _ (fun _ => True)); [by apply ends_ret|]. intros scid _.
  eapply ends_let; [apply (ends_readable u8c u8), always_u8|]. intros flags _.
  enough (Hall : forall g, ends_in (let? u := mret (if Z.land flags 128 =? 0 then Ok (full_update chain_hash ts d scid flags) else incremental_update chain_hash ts g scid flags) in
    let? u := read_overrides flags u in r ← on_graph (update_channel_unsigned (clock i) u); mret (match r with Ok _ => Ok scid | Err e => Err (ELightningError e) end)) (fun _ => True)).
  { intros s Hs. apply (Hall (network_graph s.2) s Hs). }
  intros g. eapply (ends_let _ _ (fun _ => True)); [by apply ends_ret|]. intros u _. unfold read_overrides.
  eapply (ends_let _ _ (fun _ => True)); [|intros u' _; apply ends_graph; [by apply (run_op_safe (ChannelUpdatedUnsigned _ _)), Hclock|apply update_time|done]].
  do 4 (eapply ends_let; [apply ends_override|]; intros ? _). apply ends_override.
Qed.

Lemma ends_updates chain_hash ts d n : forall i prev, ends_in (apply_updates clock n i chain_hash ts d prev) (fun _ => True).
Proof.
  induction n as [|n IH]; intros i prev; [by apply ends_ret|]. cbn [apply_updates]. eapply ends_let; [apply ends_update|]. intros scid _. apply IH.
Qed.

Lemma ends_defaults : ends_in read_defaults (fun _ => True).
Proof.
  unfold read_defaults. do 5 (eapply (ends_let _ _ (fun _ => True)); [by apply ends_stream; [apply always_uint|]|]; intros ? _). by apply ends_ret.
Qed.

(** The end of a call: everything is as before but for the graph, or the sync is marked as done. *)
Definition done_or_intact (r : result Z GraphSyncError) (s : bytes * RapidGossipSync) : Prop :=
  graph_ok (network_graph s.2) /\
  match r with
  | Ok ts => last_rapid_gossip_sync_timestamp (network_graph s.2) = Some ts /\ is_initial_sync_complete s.2 = true \/ intact t f s
  | Err _ => intact t f s
  end.

Lemma finish_let {A} m (k : A -> prog (bytes * RapidGossipSync) (result Z GraphSyncError)) Q :
  ends_in m Q -> (forall a, Q a -> forall s, intact t f s -> exists r s', k a s = (Ret r, s') /\ done_or_intact r s') ->
  forall s, intact t f s -> exists r s', (let? a := m in k a) s = (Ret r, s') /\ done_or_intact r s'.
Proof.
  intros Hm Hk s Hs. destruct (Hm s Hs) as ([a|e] & s1 & E & H1 & HQ).
  - rewrite (bind_ok_Ok _ _ _ _ _ E). by apply Hk; [apply HQ|].
  - exists (Err e), s1. split; [unfold bind_ok, mbind, prog_bind; by rewrite E|]. split; [apply H1|done].
Qed.

Lemma stream_finishes s : intact t f s -> exists r s', update_network_graph_from_byte_stream clock s = (Ret r, s') /\ done_or_intact r s'.
Proof.
  revert s. unfold update_network_graph_from_byte_stream.
  assert (Hret : forall r s, intact t f s -> exists r' s', (mret r : prog (bytes * RapidGossipSync) (result Z GraphSyncError)) s = (Ret r', s') /\ done_or_intact r' s').
  { intros r s Hs. exists r, s. split; [done|]. split; [apply Hs|]. destruct r; [by right|done]. }
  eapply (finish_let _ _ (fun _ => True)); [by apply ends_stream; [apply always_exact|]|]. intros prefix _. case_bool_decide; [|apply Hret].
  eapply (finish_let _ _ (fun _ => True)); [by apply ends_stream; [apply always_exact|]|]. intros chain_hash _.
  eapply (finish_let _ _ (fun _ => True)); [by apply ends_stream; [apply always_uint|]|]. intros ts _. cbv zeta.
  eapply finish_let; [apply (ends_readable u32c u32), always_uint|]. intros count Hc. unfold in_width in Hc.
  eapply (finish_let _ _ (fun ids => Z.of_nat (length ids) = count)); [apply ends_stream; [apply always_n, always_pubkey|]; intros bs ids rest _ E; rewrite (read_n_length _ _ _ _ _ E); lia|]. intros ids Hids.
  eapply (finish_let _ _ (fun _ => True)); [by apply ends_stream; [apply always_uint|]|]. intros n _.
  eapply finish_let; [by apply ends_announcements|]. intros _ _.
  eapply (finish_let _ _ (fun _ => True)); [by apply ends_stream; [apply always_uint|]|]. intros m _. destruct (m =? 0); [apply Hret|].
  eapply finish_let; [apply ends_defaults|]. intros d _. eapply finish_let; [apply ends_updates|]. intros _ _ [bs st] [Hu Hok Ht Hf].
  eexists _, _. split; [reflexivity|]. split; [exact Hok|]. left. done.
Qed.
End Safe.

(** Whatever the server sends, a sync returns: with an error, or with the time the data was seen
    at.  The graph stays consistent, also when the data ends in the middle; and a call that fails
    leaves the time of the last sync and the mark of a completed one as they were. *)
Theorem rapid_sync_safe `{GossipCrypto} (clock : nat -> Z) (data : bytes) (st : RapidGossipSync) :
  (forall i, clock_ok (clock i)) -> all_u8 data -> graph_ok (network_graph st) ->
  exists r st', update_network_graph clock data st = (Ret r, st') /\ graph_ok (network_graph st') /\
    let marks s := (last_rapid_gossip_sync_timestamp (network_graph s), is_initial_sync_complete s) in
    match r with Ok ts => marks st' = (Some ts, true) \/ marks st' = marks st | Err _ => marks st' = marks st end.
Proof.
  intros Hc Hu Hg. destruct (stream_finishes clock Hc (last_rapid_gossip_sync_timestamp (network_graph st)) (is_initial_sync_complete st) (data, st)) as (r & [bs st'] & E & Hg' & Hr); [by split|].
  unfold update_network_graph. rewrite E. exists r, st'. split_and!; [done|done|]. cbn zeta. cbn [snd] in Hr.
  destruct r; [destruct Hr as [[E1 E2]|[_ _ E1 E2]]|destruct Hr as [_ _ E1 E2]]; cbn [snd] in *; rewrite E1, E2; auto.
Qed.

(** ** What a snapshot does

    A snapshot as the server means it, its bytes, and the operations it stands for. *)

Record Announced := mkAnnounced { an_features : bytes; an_scid : Z; an_node_1 : Z; an_node_2 : Z }.
(** [None] keeps the default, or what is known. *)
Record Changed := mkChanged {
  ch_scid : Z; ch_incremental : bool; ch_disabled : bool; ch_direction : bool;
  ch_cltv : option Z; ch_minimum : option Z; ch_base : option Z; ch_proportional : option Z; ch_maximum : option Z }.

Record Snapshot `{Secp} := mkSnapshot {
  sn_chain_hash : bytes; sn_seen : Z; sn_nodes : list PublicKey; sn_announced : list Announced;
  sn_defaults : Z * Z * Z * Z * Z; sn_changed : list Changed }.

Definition flag (b : bool) (mask : Z) : Z := if b then mask else 0.
Definition given (o : option Z) : bool := match o with Some _ => true | None => false end.
Definition flags_of (c : Changed) : Z :=
  flag (ch_incremental c) 0x80 + flag (given (ch_cltv c)) 0x40 + flag (given (ch_minimum c)) 0x20 + flag (given (ch_base c)) 0x10 +
  flag (given (ch_proportional c)) 0x08 + flag (given (ch_maximum c)) 0x04 + flag (ch_disabled c) 0x02 + flag (ch_direction c) 0x01.

Definition announced_bytes (prev : Z) (a : Announced) : bytes :=
  encode featuresc (an_features a) ++ encode BigSize (an_scid a - prev) ++ encode BigSize (an_node_1 a) ++ encode BigSize (an_node_2 a).
Definition given_bytes (n : nat) (o : option Z) : bytes := match o with Some x => encode (uintc n) x | None => [] end.
Definition changed_bytes (prev : Z) (c : Changed) : bytes :=
  encode BigSize (ch_scid c - prev) ++ encode u8c (flags_of c) ++ given_bytes 2 (ch_cltv c) ++ given_bytes 8 (ch_minimum c) ++
  given_bytes 4 (ch_base c) ++ given_bytes 4 (ch_proportional c) ++ given_bytes 8 (ch_maximum c).

Fixpoint delta_bytes {A} (scid : A -> Z) (enc : Z -> A -> bytes) (prev : Z) (l : list A) : bytes :=
  match l with [] => [] | a :: l' => enc prev a ++ delta_bytes scid enc (scid a) l' end.

Definition count_bytes {A} (l : list A) : bytes := encode u32c (Z.of_nat (length l)).

Definition snapshot_bytes `{Secp} (s : Snapshot) : bytes :=
  let '(cltv, minimum, base, proportional, maximum) := sn_defaults s in
  GOSSIP_PREFIX ++ encode (arrayc 32) (sn_chain_hash s) ++ encode u32c (sn_seen s) ++ count_bytes (sn_nodes s) ++ concat (encode pubkeyc <$> sn_nodes s) ++
  count_bytes (sn_announced s) ++ delta_bytes an_scid announced_bytes 0 (sn_announced s) ++ count_bytes (sn_changed s) ++
  match sn_changed s with
  | [] => []
  | _ => encode u16c cltv ++ encode u64c minimum ++ encode u32c base ++ encode u32c proportional ++ encode u64c maximum ++ delta_bytes ch_scid changed_bytes 0 (sn_changed s)
  end.

Section Meaning.
Context `{GossipCrypto} (clock : nat -> Z).
Abbreviation graph A := (prog NetworkGraph A).

Definition tolerated (r : result unit LightningError) : result unit LightningError :=
  match r with Err e => match action e with IgnoreDuplicateGossip => Ok tt | _ => Err e end | Ok _ => Ok tt end.

Definition announce (snap : Snapshot) (a : Announced) : graph (result unit LightningError) :=
  match sn_nodes snap !! Z.to_nat (an_node_1 a), sn_nodes snap !! Z.to_nat (an_node_2 a) with
  | Some k1, Some k2 =>
      r ← run_op (ChannelPartiallyAnnounced (an_scid a) (backdate (sn_seen snap)) (an_features a) k1 k2); mret (tolerated r)
  | _, _ => mret (Ok tt)
  end.

(** The policy a change starts from: the default one, or the one that is known. *)
Definition policy (snap : Snapshot) (g : NetworkGraph) (c : Changed) : result (Z * Z * OptionalField Z * Z * Z) LightningError :=
  if ch_incremental c then
    match channels g !! ch_scid c with
    | None => Err (mkLightningError "Couldn't find channel for update" IgnoreError)
    | Some ch =>
        match (if ch_direction c then ChannelInfo.two_to_one ch else ChannelInfo.one_to_two ch) with
        | None => Err (mkLightningError "Couldn't find previous directional data for update" IgnoreError)
        | Some i =>
            Ok (ChannelUpdateInfo.cltv_expiry_delta i, ChannelUpdateInfo.htlc_minimum_msat i,
                match ChannelUpdateInfo.htlc_maximum_msat i with Some m => Present m | None => Absent end,
                RoutingFees.base_msat (ChannelUpdateInfo.fees i), RoutingFees.proportional_millionths (ChannelUpdateInfo.fees i))
        end
    end
  else let '(cltv, minimum, base, proportional, maximum) := sn_defaults snap in Ok (cltv, minimum, maximum_field maximum, base, proportional).

Definition change (snap : Snapshot) (i : nat) (c : Changed) : graph (result unit LightningError) :=
  g ← get;
  match policy snap g c with
  | Err e => mret (Err e)
  | Ok (cltv, minimum, maximum, base, proportional) =>
      run_op (ChannelUpdatedUnsigned (clock i)
        (UnsignedChannelUpdate.mk (sn_chain_hash snap) (ch_scid c) (backdate (sn_seen snap)) (flag (ch_disabled c) 2 + flag (ch_direction c) 1)
           (default cltv (ch_cltv c)) (default minimum (ch_minimum c)) (match ch_maximum c with Some x => maximum_field x | None => maximum end)
           (default base (ch_base c)) (default proportional (ch_proportional c)) []))
  end.

Fixpoint announce_all (snap : Snapshot) (l : list Announced) : graph (result unit LightningError) :=
  match l with [] => mret (Ok tt) | a :: l' => let? _ := announce snap a in announce_all snap l' end.
Fixpoint change_all (snap : Snapshot) (i : nat) (l : list Changed) : graph (result unit LightningError) :=
  match l with [] => mret (Ok tt) | c :: l' => let? _ := change snap i c in change_all snap (S i) l' end.

Definition meaning (snap : Snapshot) : graph (result unit LightningError) :=
  let? _ := announce_all snap (sn_announced snap) in change_all snap 0 (sn_changed snap).

(** What a server can say. *)
Definition in_sequence {A} (scid : A -> Z) (prev : Z) (l : list A) : Prop := Sorted Z.le (prev :: (scid <$> l)) /\ Forall (fun a => u64 (scid a)) l.
Definition opt_width (w : Z) (o : option Z) : Prop := forall x, o = Some x -> in_width w x.
Definition announced_ok (count : Z) (a : Announced) : Prop := vec_ok (an_features a) /\ 0 <= an_node_1 a < count /\ 0 <= an_node_2 a < count.
Definition changed_ok (c : Changed) : Prop :=
  opt_width 16 (ch_cltv c) /\ opt_width 64 (ch_minimum c) /\ opt_width 32 (ch_base c) /\ opt_width 32 (ch_proportional c) /\ opt_width 64 (ch_maximum c).
Record snapshot_ok (s : Snapshot) : Prop := {
  so_hash : array_ok 32 (sn_chain_hash s); so_seen : u32 (sn_seen s);
  so_counts : u32 (Z.of_nat (length (sn_nodes s))) /\ u32 (Z.of_nat (length (sn_announced s))) /\ u32 (Z.of_nat (length (sn_changed s)));
  so_announced : in_sequence an_scid 0 (sn_announced s) /\ Forall (announced_ok (Z.of_nat (length (sn_nodes s)))) (sn_announced s);
  so_changed : in_sequence ch_scid 0 (sn_changed s) /\ Forall changed_ok (sn_changed s);
  so_defaults : let '(cltv, minimum, base, proportional, maximum) := sn_defaults s in u16 cltv /\ u64 minimum /\ u32 base /\ u32 proportional /\ u64 maximum;
}.

(** A run of the decoder does what an operation of the graph does; when that succeeds it returns [b] and has read up to [rest]. *)
Definition as_ok {B} (b : B) (r : result unit LightningError) : result B GraphSyncError :=
  match r with Ok _ => Ok b | Err e => Err (ELightningError e) end.
Definition outcome_map {A B} (k : A -> B) (o : outcome A) : outcome B :=
  match o with Ret a => Ret (k a) | Panic w => Panic w | OutOfFuel => OutOfFuel end.
Definition agrees {B} (x : outcome (result B GraphSyncError) * (bytes * RapidGossipSync)) (b : B) (m : graph (result unit LightningError)) (rest : bytes) (st : RapidGossipSync) : Prop :=
  let '(o, g) := m (network_graph st) in
  exists c, x = (outcome_map (as_ok b) o, (c, mkRapid _ g (is_initial_sync_complete st))) /\ (forall u, o = Ret (Ok u) -> c = rest).

Lemma agrees_let {A B} m s (a : A) gm rest st (f : A -> prog (bytes * RapidGossipSync) (result B GraphSyncError)) b gm' rest' :
  agrees (m s) a gm rest st -> (forall st', agrees (f a (rest, st')) b gm' rest' st') -> agrees ((let? x := m in f x) s) b (let? _ := gm in gm') rest' st.
Proof.
  unfold agrees. intros Hm Hf. destruct (gm (network_graph st)) as [o g] eqn:E. destruct Hm as (c & Em & Hc). destruct o as [[u|e]|w|].
  - rewrite (bind_ok_Ok _ _ _ _ _ E), (bind_ok_Ok _ _ _ _ _ Em). specialize (Hf (mkRapid _ g (is_initial_sync_complete st))). rewrite (Hc u eq_refl). exact Hf.
  - unfold bind_ok, mbind, prog_bind. rewrite E, Em. cbn. by eexists.
  - unfold bind_ok, mbind, prog_bind. rewrite E, Em. cbn. by eexists.
  - unfold bind_ok, mbind, prog_bind. rewrite E, Em. cbn. by eexists.
Qed.

Lemma read_field {A B} (c : Codec A) valid `{!RoundTrip c valid} conv (k : A -> prog (bytes * RapidGossipSync) (result B GraphSyncError)) x rest st :
  valid x -> (let? a := from_stream conv (c_read c) in k a) (encode c x ++ rest, st) = k x (rest, st).
Proof. intros Hx. apply bind_ok_Ok. unfold from_stream. cbn [fst snd]. by rewrite (round_trip (c := c)). Qed.

Lemma pure_field {A B} (r : result A GraphSyncError) (k : A -> prog (bytes * RapidGossipSync) (result B GraphSyncError)) x s :
  r = Ok x -> (let? a := mret r in k a) s = k x s.
Proof. by intros ->. Qed.

Lemma next_scid prev scid : 0 <= prev <= scid -> u64 scid -> checked_scid prev (scid - prev) = Ok scid /\ u64 (scid - prev).
Proof.
  intros Hp Hs. unfold checked_scid. replace (prev + (scid - prev)) with scid by lia. unfold in_width in *. split; [|lia].
  by rewrite (proj2 (in_widthb_true 64 scid)).
Qed.

Lemma announcement_applied snap prev a rest st :
  announced_ok (Z.of_nat (length (sn_nodes snap))) a -> 0 <= prev <= an_scid a -> u64 (an_scid a) -> u32 (Z.of_nat (length (sn_nodes snap))) ->
  agrees (apply_announcement (backdate (sn_seen snap)) (Z.of_nat (length (sn_nodes snap))) (sn_nodes snap) prev (announced_bytes prev a ++ rest, st))
    (an_scid a) (announce snap a) rest st.
Proof.
  intros (Hf & H1 & H2) Hp Hs Hc. destruct (next_scid prev (an_scid a) Hp Hs) as [E Hd]. unfold in_width in Hc. unfold apply_announcement, announced_bytes, readable. rewrite <- !app_assoc.
  rewrite (read_field featuresc vec_ok), (read_field BigSize u64) by done. rewrite (pure_field _ _ _ _ E).
  rewrite !(read_field BigSize u64) by (unfold in_width; lia). destruct (Z.leb_spec (Z.of_nat (length (sn_nodes snap))) (Z.max (an_node_1 a) (an_node_2 a))); [lia|].
  destruct (lookup_lt_is_Some_2 (sn_nodes snap) (Z.to_nat (an_node_1 a))) as [k1 E1]; [lia|]. destruct (lookup_lt_is_Some_2 (sn_nodes snap) (Z.to_nat (an_node_2 a))) as [k2 E2]; [lia|].
  unfold announce, node_at. rewrite E1, E2. cbn [Prelude.unwrap run_op]. unfold agrees, on_graph, lift, mbind, prog_bind. cbn [fst snd].
  destruct (add_channel_from_partial_announcement _ _ _ _ _ (network_graph st)) as [[[[]|e]|w|] g]; cbn; [by eexists| |by eexists..]. unfold tolerated. destruct (action e); by eexists.
Qed.

Lemma flag_bits (b7 b6 b5 b4 b3 b2 b1 b0 : bool) :
  let z := flag b7 128 + flag b6 64 + flag b5 32 + flag b4 16 + flag b3 8 + flag b2 4 + flag b1 2 + flag b0 1 in
  (Z.land z 128 =? 0) = negb b7 /\ has_flag z 64 = b6 /\ has_flag z 32 = b5 /\ has_flag z 16 = b4 /\ has_flag z 8 = b3 /\ has_flag z 4 = b2 /\
  Z.land z 3 = flag b1 2 + flag b0 1 /\ (Z.land z 1 =? 0) = negb b0 /\ u8 z.
Proof. destruct b7, b6, b5, b4, b3, b2, b1, b0; by vm_compute. Qed.

Lemma read_override flags mask n set u o (Q : UnsignedChannelUpdate.t -> prog (bytes * RapidGossipSync) (result Z GraphSyncError)) rest st :
  has_flag flags mask = given o -> opt_width (8 * Z.of_nat n) o ->
  (let? u := override flags mask (uintc n) set u in Q u) (given_bytes n o ++ rest, st) = Q (match o with Some x => set x u | None => u end) (rest, st).
Proof.
  intros E Hw. unfold override. rewrite E. destruct o as [x|]; cbn [given given_bytes]; [|done].
  erewrite bind_ok_Ok; [done|]. unfold readable. by rewrite (read_field (uintc n) (in_width (8 * Z.of_nat n))) by (by apply Hw).
Qed.

Lemma bind_ok_assoc {S A B C E} (m : prog S (result A E)) (f : A -> prog S (result B E)) (g : B -> prog S (result C E)) s :
  (let? b := (let? a := m in f a) in g b) s = (let? a := m in let? b := f a in g b) s.
Proof. unfold bind_ok, mbind, prog_bind. by destruct (m s) as [[[a|e]|w|] s']. Qed.

Lemma bind_ok_run {S A B E} (m : prog S (result A E)) (f : A -> prog S (result B E)) s :
  (let? a := m in f a) s =
  match m s with (Ret (Ok a), s') => f a s' | (Ret (Err e), s') => (Ret (Err e), s') | (Panic w, s') => (Panic w, s') | (OutOfFuel, s') => (OutOfFuel, s') end.
Proof. unfold bind_ok, mbind, prog_bind. by destruct (m s) as [[[a|e]|w|] s']. Qed.

Definition defaults_of (snap : Snapshot) : Defaults :=
  let '(cltv, minimum, base, proportional, maximum) := sn_defaults snap in mkDefaults cltv minimum base proportional (maximum_field maximum).

(** The message before the overrides. *)
Lemma synthetic_base snap g c :
  (if Z.land (flags_of c) 128 =? 0 then Ok (full_update (sn_chain_hash snap) (backdate (sn_seen snap)) (defaults_of snap) (ch_scid c) (flags_of c))
   else incremental_update (sn_chain_hash snap) (backdate (sn_seen snap)) g (ch_scid c) (flags_of c)) =
  match policy snap g c with
  | Ok (cltv, minimum, maximum, base, proportional) =>
      Ok (UnsignedChannelUpdate.mk (sn_chain_hash snap) (ch_scid c) (backdate (sn_seen snap)) (flag (ch_disabled c) 2 + flag (ch_direction c) 1) cltv minimum maximum base proportional [])
  | Err e => Err (ELightningError e)
  end.
Proof.
  destruct (flag_bits (ch_incremental c) (given (ch_cltv c)) (given (ch_minimum c)) (given (ch_base c)) (given (ch_proportional c)) (given (ch_maximum c)) (ch_disabled c) (ch_direction c))
    as (E7 & _ & _ & _ & _ & _ & E3 & E0 & _). fold (flags_of c) in *. unfold policy, full_update, incremental_update, get_directional_info, defaults_of. rewrite E7, E3, E0.
  destruct (ch_incremental c); cbn [negb]; [|by destruct (sn_defaults snap) as [[[[? ?] ?] ?] ?]]. destruct (channels g !! ch_scid c) as [ch|]; [|done].
  destruct (ch_direction c); cbn [negb]; [destruct (ChannelInfo.two_to_one ch)|destruct (ChannelInfo.one_to_two ch)]; done.
Qed.

Lemma update_applied snap i prev c rest st :
  changed_ok c -> 0 <= prev <= ch_scid c -> u64 (ch_scid c) ->
  agrees (apply_update clock i (sn_chain_hash snap) (backdate (sn_seen snap)) (defaults_of snap) prev (changed_bytes prev c ++ rest, st)) (ch_scid c) (change snap i c) rest st.
Proof.
  intros (Hcl & Hmi & Hba & Hpr & Hma) Hp Hs. destruct (next_scid prev (ch_scid c) Hp Hs) as [E Hd].
  destruct (flag_bits (ch_incremental c) (given (ch_cltv c)) (given (ch_minimum c)) (given (ch_base c)) (given (ch_proportional c)) (given (ch_maximum c)) (ch_disabled c) (ch_direction c))
    as (_ & E6 & E5 & E4 & E3 & E2 & _ & _ & Hu8). fold (flags_of c) in *.
  unfold apply_update, changed_bytes, readable. rewrite <- !app_assoc. rewrite (read_field BigSize u64) by done. rewrite (pure_field _ _ _ _ E), (read_field u8c u8) by done.
  rewrite bind_get. cbn [snd]. rewrite synthetic_base. unfold agrees, change. rewrite bind_get. destruct (policy snap (network_graph st) c) as [[[[[cltv minimum] maximum] base] proportional]|e].
  2: { destruct st. eexists. split; [reflexivity|]. intros u Hu. discriminate Hu. }
  rewrite (pure_field _ _ _ _ eq_refl). unfold read_overrides.
  rewrite bind_ok_assoc, (read_override _ _ 2 _ _ (ch_cltv c)) by done.
  rewrite bind_ok_assoc, (read_override _ _ 8 _ _ (ch_minimum c)) by done.
  rewrite bind_ok_assoc, (read_override _ _ 4 _ _ (ch_base c)) by done.
  rewrite bind_ok_assoc, (read_override _ _ 4 _ _ (ch_proportional c)) by done.
  rewrite (read_override _ _ 8 _ _ (ch_maximum c)) by done.
  match goal with |- context [update_channel_unsigned (clock i) ?u] => set (msg := u) end.
  assert (Em : msg = UnsignedChannelUpdate.mk (sn_chain_hash snap) (ch_scid c) (backdate (sn_seen snap)) (flag (ch_disabled c) 2 + flag (ch_direction c) 1)
           (default cltv (ch_cltv c)) (default minimum (ch_minimum c)) (match ch_maximum c with Some x => maximum_field x | None => maximum end)
           (default base (ch_base c)) (default proportional (ch_proportional c)) []).
  { unfold msg. destruct (ch_cltv c), (ch_minimum c), (ch_base c), (ch_proportional c), (ch_maximum c); done. }
  rewrite <- Em. cbn [run_op]. unfold on_graph, mbind, prog_bind. cbn [fst snd]. destruct (update_channel_unsigned (clock i) msg (network_graph st)) as [[[u|e]|w|] g]; cbn; by eexists.
Qed.

(** Lists of differences. *)
Lemma in_sequence_cons {A} (scid : A -> Z) prev a l : in_sequence scid prev (a :: l) -> prev <= scid a /\ u64 (scid a) /\ in_sequence scid (scid a) l.
Proof.
  intros [Hs Hf]. cbn in Hs. apply Sorted_inv in Hs as [Hs Hd]. apply HdRel_inv in Hd. apply Forall_cons in Hf as [Ha Hf]. by split_and!.
Qed.

Lemma announcements_applied snap (l : list Announced) rest : u32 (Z.of_nat (length (sn_nodes snap))) ->
  Forall (announced_ok (Z.of_nat (length (sn_nodes snap)))) l -> forall prev st, 0 <= prev -> in_sequence an_scid prev l ->
  agrees (apply_announcements (length l) (backdate (sn_seen snap)) (Z.of_nat (length (sn_nodes snap))) (sn_nodes snap) prev (delta_bytes an_scid announced_bytes prev l ++ rest, st))
    tt (announce_all snap l) rest st.
Proof.
  intros Hc. induction 1 as [|a l Ha Hl IH]; intros prev st Hp Hseq.
  - destruct st. cbn. by eexists.
  - apply in_sequence_cons in Hseq as (Hle & Hu & Hseq). cbn [length apply_announcements announce_all delta_bytes]. rewrite <- app_assoc. eapply agrees_let; [by apply announcement_applied|].
    intros st'. apply IH; [unfold in_width in Hu; lia|done].
Qed.

Lemma updates_applied snap (l : list Changed) rest : Forall changed_ok l -> forall i prev st, 0 <= prev -> in_sequence ch_scid prev l ->
  agrees (apply_updates clock (length l) i (sn_chain_hash snap) (backdate (sn_seen snap)) (defaults_of snap) prev (delta_bytes ch_scid changed_bytes prev l ++ rest, st))
    tt (change_all snap i l) rest st.
Proof.
  induction 1 as [|c l Hc Hl IH]; intros i prev st Hp Hseq.
  - destruct st. cbn. by eexists.
  - apply in_sequence_cons in Hseq as (Hle & Hu & Hseq). cbn [length apply_updates change_all delta_bytes]. rewrite <- app_assoc. eapply agrees_let; [by apply update_applied|].
    intros st'. apply IH; [unfold in_width in Hu; lia|done].
Qed.

Lemma nodes_read `{!SecpLaws} (l : list PublicKey) (rest : bytes) : run (read_n pubkeyc (length l)) (concat (encode pubkeyc <$> l) ++ rest) = (Ret (Ok l), rest).
Proof.
  induction l as [|k l IH]; [done|]. cbn [length read_n fmap list_fmap concat]. rewrite <- app_assoc, (run_bind_Ok _ _ _ _ _ (round_trip (c := pubkeyc) k _ I)). by rewrite (run_bind_Ok _ _ _ _ _ IH).
Qed.

(** Nothing more is read from the end of the list of announcements on when there are no updates. *)
Definition marked (snap : Snapshot) (g : NetworkGraph) (st : RapidGossipSync) : RapidGossipSync :=
  match sn_changed snap with
  | [] => mkRapid _ g (is_initial_sync_complete st)
  | _ => mkRapid _ (mkGraph _ (genesis_hash g) (channels g) (nodes g) (Some (sn_seen snap))) true
  end.

Definition tail_bytes (snap : Snapshot) : bytes :=
  let '(cltv, minimum, base, proportional, maximum) := sn_defaults snap in
  encode u16c cltv ++ encode u64c minimum ++ encode u32c base ++ encode u32c proportional ++ encode u64c maximum ++ delta_bytes ch_scid changed_bytes 0 (sn_changed snap).

Lemma defaults_read snap (rest : bytes) st {B} (k : Defaults -> prog (bytes * RapidGossipSync) (result B GraphSyncError)) : snapshot_ok snap ->
  (let? d := read_defaults in k d) (tail_bytes snap, st) = k (defaults_of snap) (delta_bytes ch_scid changed_bytes 0 (sn_changed snap), st).
Proof.
  intros Hok. pose proof (so_defaults _ Hok) as Hd. unfold tail_bytes, defaults_of. destruct (sn_defaults snap) as [[[[cltv minimum] base] proportional] maximum]. destruct Hd as (H1 & H2 & H3 & H4 & H5).
  apply bind_ok_Ok. unfold read_defaults, readable. rewrite (read_field u16c u16), (read_field u64c u64), !(read_field u32c u32), (read_field u64c u64) by done. done.
Qed.

(** The updates, after their number was read. *)
Lemma changes_finish snap st o g : snapshot_ok snap -> sn_changed snap <> [] -> change_all snap 0 (sn_changed snap) (network_graph st) = (o, g) ->
  exists c, (let? d := read_defaults in
    let? _ := apply_updates clock (length (sn_changed snap)) 0 (sn_chain_hash snap) (backdate (sn_seen snap)) d 0 in
    _ ← on_graph (set_last_rapid_gossip_sync_timestamp (sn_seen snap)); _ ← modify (fun s => (s.1, mkRapid _ (network_graph s.2) true)); mret (Ok (sn_seen snap)))
      (tail_bytes snap, st) =
  (outcome_map (as_ok (sn_seen snap)) o, (c, match o with Ret (Ok _) => marked snap g st | _ => mkRapid _ g (is_initial_sync_complete st) end)).
Proof.
  intros Hok Hne E. rewrite (defaults_read _ [] _ _ Hok). pose proof (so_changed _ Hok) as [Hseq Hall]. pose proof (updates_applied snap (sn_changed snap) [] Hall 0 0 st ltac:(done) Hseq) as Hag.
  rewrite List.app_nil_r in Hag. unfold agrees in Hag. rewrite E in Hag. destruct Hag as (c & Ea & Hc). unfold bind_ok, mbind at 1, prog_bind at 1. rewrite Ea.
  assert (Hm : marked snap g st = mkRapid _ (mkGraph _ (genesis_hash g) (channels g) (nodes g) (Some (sn_seen snap))) true) by (unfold marked; by destruct (sn_changed snap)).
  destruct o as [[u|e]|w|]; cbn; rewrite ?Hm; by eexists.
Qed.

Lemma prefix_read {B} (k : bytes -> prog (bytes * RapidGossipSync) (result B GraphSyncError)) rest st :
  (let? p := from_stream io_error (read_exact 4) in k p) (GOSSIP_PREFIX ++ rest, st) = k GOSSIP_PREFIX (rest, st).
Proof. apply bind_ok_Ok. unfold from_stream. cbn [fst snd]. by rewrite run_read_exact_ok by (cbn; lia). Qed.
Lemma nodes_field `{!SecpLaws} {B} l (k : list PublicKey -> prog (bytes * RapidGossipSync) (result B GraphSyncError)) rest st :
  (let? ids := from_stream EDecodeError (read_n pubkeyc (length l)) in k ids) (concat (encode pubkeyc <$> l) ++ rest, st) = k l (rest, st).
Proof. apply bind_ok_Ok. unfold from_stream. cbn [fst snd]. by rewrite nodes_read. Qed.
End Meaning.


(** ** A snapshot of one channel *)

#[local] Existing Instance toy_secp.
#[local] Existing Instance toy_secp_laws.
#[local] Instance one_signature : GossipCrypto := {|
  verify_ecdsa := fun _ s _ => s; sha256d := fun m => take 32 m; funding_script := fun a b => a ++ b |}.

Definition seen_at : Z := 1650000000.
Definition rapid_clock (i : nat) : Z := seen_at + Z.of_nat i `mod` 2.
Definition toy_snapshot (changes : list Changed) : Snapshot :=
  mkSnapshot _ (replicate 32 0) seen_at [true; false] [mkAnnounced [] 77 0 1] (40, 1000, 10, 20, 2 ^ 64 - 1) changes.
(** The default policy with another fee in one direction, and the delay alone in the same direction. *)
Definition first_policy : Changed := mkChanged 77 false false false None None (Some 5) None (Some 1000000).
Definition new_delay : Changed := mkChanged 77 true false false (Some 144) None None None None.
Definition toy_rapid : RapidGossipSync := new_rapid (new (replicate 32 0)).

Lemma rapid_clock_ok i : clock_ok (rapid_clock i).
Proof. unfold clock_ok, rapid_clock, seen_at, STALE_CHANNEL_UPDATE_AGE_LIMIT_SECS. pose proof (Z.mod_pos_bound (Z.of_nat i) 2). lia. Defined.

Lemma toy_snapshot_ok changes : Forall changed_ok changes -> in_sequence ch_scid 0 changes -> u32 (Z.of_nat (length changes)) -> snapshot_ok (toy_snapshot changes).
Proof.
  intros Hc Hs Hl. split; try done.
  - split; [done|]. apply Forall_replicate. by vm_compute.
  - split; [split; [repeat constructor; cbn; lia|constructor; [by vm_compute|constructor]]|]. constructor; [|constructor]. split_and!; try done; by split.
Defined.

Lemma opt_none w : opt_width w None. Proof. done. Defined.
Lemma opt_some w x : in_width w x -> opt_width w (Some x). Proof. intros Hx y [= <-]. exact Hx. Defined.


(** Data that ends in the middle. *)
Lemma rapid_sync_safe_witness :
  exists r st', update_network_graph rapid_clock (GOSSIP_PREFIX ++ replicate 20 0) toy_rapid = (Ret r, st') /\ graph_ok (network_graph st') /\ is_initial_sync_complete st' = false.
Proof.
  destruct (rapid_sync_safe rapid_clock (GOSSIP_PREFIX ++ replicate 20 0) toy_rapid) as (r & st' & E & Hg & Hm).
  - intros i. apply rapid_clock_ok.
  - apply Forall_app. split; [repeat constructor; by vm_compute|apply Forall_replicate; by vm_compute].
  - apply new_ok.
  - exists r, st'. split; [exact E|]. split; [exact Hg|]. assert (Ef : is_initial_sync_complete (update_network_graph rapid_clock (GOSSIP_PREFIX ++ replicate 20 0) toy_rapid).2 = false) by (vm_compute; reflexivity). by rewrite E in Ef.
Defined.

(** A snapshot without updates returns its time and leaves the sync incomplete, so the graph is
    not pruned and the time is not kept. *)
Example no_updates_no_mark :
  let x := update_network_graph rapid_clock (snapshot_bytes (toy_snapshot [])) toy_rapid in
  x.1 = Ret (Ok seen_at) /\ is_initial_sync_complete x.2 = false /\ last_rapid_gossip_sync_timestamp (network_graph x.2) = None.
Proof. cbv zeta. split_and!; vm_compute; reflexivity. Qed.

(** The same snapshot a second time is an error: its updates are not newer. *)
Example same_snapshot_twice :
  let st := (update_network_graph rapid_clock (snapshot_bytes (toy_snapshot [first_policy])) toy_rapid).2 in
  (update_network_graph rapid_clock (snapshot_bytes (toy_snapshot [first_policy])) st).1 =
  Ret (Err (ELightningError (mkLightningError "Update had same timestamp as last processed update" IgnoreDuplicateGossip))).
Proof. vm_compute. reflexivity. Qed.

(** A change of a direction that is not known is an error. *)
Example unknown_direction :
  (update_network_graph rapid_clock (snapshot_bytes (toy_snapshot [new_delay])) toy_rapid).1 =
  Ret (Err (ELightningError (mkLightningError "Couldn't find previous directional data for update" IgnoreError))).
Proof. vm_compute. reflexivity. Qed.
