(* ===== verification/ScoringSpec.v ===== *)
(** * What the scorer promises

    Penalties are computed without overflow and grow with the amount, up to the capacity;
    bounds are what was last seen, fade with time, and agree in both directions; what a failed
    path taught is used in the next search. *)

From S2P Require Import Prelude Text Bytes Stream Ser Msgs GossipMsgs Onion Graph GossipSync Scoring.

Local Open Scope Z_scope.

Implicit Types (d : DirectedChannelLiquidity) (l : ChannelLiquidity) (p : ProbabilisticScoringParameters).

Definition params_ok p : Prop :=
  u64 (base_penalty_msat p) /\ u64 (liquidity_penalty_multiplier_msat p) /\ u64 (amount_penalty_multiplier_msat p) /\ u64 (anti_probing_penalty_msat p).
Definition directed_ok d : Prop := u64 (dir_min_offset d) /\ u64 (dir_max_offset d) /\ u64 (capacity_msat d).
Definition liquidity_ok l : Prop := u64 (min_liquidity_offset_msat l) /\ u64 (max_liquidity_offset_msat l).

(** ** Decay *)

Definition decays (half_life last now : Z) : Z := wrap 32 (as_secs (duration_since now last) `div` as_secs half_life).

Lemma decays_nonneg hl last t : 0 <= decays hl last t.
Proof. apply (wrap_in_width 32). lia. Qed.

Lemma decayed_range d o : 0 <= o -> 0 <= decayed_offset_msat d o <= o.
Proof.
  intros Ho. unfold decayed_offset_msat. destruct (_ =? 0); [lia|]. cbv zeta. fold (decays (half_life d) (dir_last_updated d) (dir_now d)). pose proof (decays_nonneg (half_life d) (dir_last_updated d) (dir_now d)) as Hd. destruct (_ <? 64); [|lia].
  rewrite Z.shiftr_div_pow2 by done. assert (0 < 2 ^ decays (half_life d) (dir_last_updated d) (dir_now d)) by (apply Z.pow_pos_nonneg; lia). split; [apply Z.div_pos; lia|]. apply Z.div_le_upper_bound; nia.
Qed.

Lemma min_range d : directed_ok d -> u64 (min_liquidity_msat d).
Proof. intros (H1 & _ & _). unfold min_liquidity_msat. pose proof (decayed_range d (dir_min_offset d) ltac:(unfold in_width in H1; lia)). unfold in_width in *. lia. Qed.
Lemma max_range d : directed_ok d -> 0 <= max_liquidity_msat d <= capacity_msat d.
Proof.
  intros (_ & H1 & H2). unfold max_liquidity_msat, saturating_sub. pose proof (decayed_range d (dir_max_offset d) ltac:(unfold in_width in H1; lia)). unfold in_width in *. lia.
Qed.

(** ** Penalties *)

Lemma saturating_mul_mono a a' b b' : 0 <= a <= a' -> 0 <= b <= b' -> 0 <= saturating_mul a b <= saturating_mul a' b'.
Proof. intros Ha Hb. unfold saturating_mul. assert (a * b <= a' * b') by nia. nia. Qed.

Lemma saturating_add_mono a a' b b' : 0 <= a <= a' -> 0 <= b <= b' -> 0 <= saturating_add 64 a b <= saturating_add 64 a' b'.
Proof. intros Ha Hb. unfold saturating_add. lia. Qed.

Lemma combined_mono a a' g g' p : params_ok p -> 0 <= a <= a' -> 0 <= g <= g' ->
  base_penalty_msat p <= combined_penalty_msat a g p <= combined_penalty_msat a' g' p /\ u64 (combined_penalty_msat a' g' p).
Proof.
  intros (Hb & Hl & Hm & _) Ha Hg. unfold in_width in *.
  assert (Hdiv : forall x y k, 0 < k -> 0 <= x <= y -> 0 <= x `div` k <= y `div` k) by (intros x y k Hk Hxy; split; [apply Z.div_pos; lia|apply Z.div_le_mono; lia]).
  assert (H1 : 0 <= Z.min (saturating_mul g (liquidity_penalty_multiplier_msat p) `div` 2048) (saturating_mul (liquidity_penalty_multiplier_msat p) NEGATIVE_LOG10_UPPER_BOUND)
    <= Z.min (saturating_mul g' (liquidity_penalty_multiplier_msat p) `div` 2048) (saturating_mul (liquidity_penalty_multiplier_msat p) NEGATIVE_LOG10_UPPER_BOUND)).
  { pose proof (Hdiv _ _ 2048 ltac:(lia) (saturating_mul_mono g g' _ _ Hg (conj (proj1 Hl) (Z.le_refl (liquidity_penalty_multiplier_msat p))))). pose proof (saturating_mul_mono _ _ 2 2 (conj (proj1 Hl) (Z.le_refl (liquidity_penalty_multiplier_msat p))) ltac:(lia)).
    unfold NEGATIVE_LOG10_UPPER_BOUND. lia. }
  assert (H2 : forall x y, 0 <= x <= y -> 0 <= saturating_mul x a `div` 2048 `div` AMOUNT_PENALTY_DIVISOR <= saturating_mul y a' `div` 2048 `div` AMOUNT_PENALTY_DIVISOR)
    by (intros x y Hxy; apply Hdiv; [done|]; apply Hdiv; [lia|]; by apply saturating_mul_mono).
  specialize (H2 _ _ (saturating_mul_mono g g' _ _ Hg (conj (proj1 Hm) (Z.le_refl (amount_penalty_multiplier_msat p))))).
  unfold combined_penalty_msat. cbv zeta. set (x := Z.min _ _) in *. set (x' := Z.min _ (saturating_mul _ _)) in *. set (y := _ `div` AMOUNT_PENALTY_DIVISOR) in *. set (y' := saturating_mul _ a' `div` _ `div` _) in *.
  clearbody x x' y y'. unfold saturating_add. lia.
Qed.

(** Strictly between the bounds: the ratio is a proper one, and nothing saturates but the widest range. *)
Lemma penalty_between d a p :
  params_ok p -> directed_ok d -> let M := max_liquidity_msat d in let m := Z.min (min_liquidity_msat d) M in
  m < a < M ->
  let den := Z.min u64_max (M - m + 1) in
  exists g, negative_log10_times_2048 (M - a + 1) den = Ret g /\ 0 <= g /\ 0 < M - a + 1 <= den /\ den < 2 ^ 64 /\
  penalty_msat d a p = Ret (if a - m <? den `div` 64 then base_penalty_msat p else combined_penalty_msat a g p).
Proof.
  intros Hp Hd M m Ha den. pose proof (max_range d Hd) as HM. pose proof (min_range d Hd) as Hm. destruct Hd as (_ & _ & Hcap). unfold in_width in *. fold M in HM.
  assert (Hnum : 0 < M - a + 1 <= den) by (unfold den; lia). assert (Hden : den < 2 ^ 64) by (unfold den; lia).
  destruct (negative_log10_ok (M - a + 1) den Hnum Hden) as (g & Eg & Hg). exists g. unfold in_width in Hg. split_and!; [done|lia|lia|lia|lia|].
  unfold penalty_msat. cbv zeta. fold M m. destruct (Z.leb_spec a m); [lia|]. destruct (Z.leb_spec M a); [lia|].
  unfold sub64. rewrite !(checked_op_ok 64) by (unfold in_width; lia). cbn [mbind outcome_bind].
  replace (saturating_add 64 (M - a) 1) with (M - a + 1) by (unfold saturating_add; lia). replace (saturating_add 64 (M - m) 1) with den by (unfold saturating_add, den; lia).
  change PRECISION_LOWER_BOUND_DENOMINATOR with 64. destruct (_ <? _); [done|]. rewrite Eg. done.
Qed.

(** The penalty of a channel is computed without a panic, whatever the bounds, the capacity, the
    amount and the parameters are, and fits 64 bits; and sending more is never cheaper, except at
    exactly the capacity of a channel nothing is known about. *)
Theorem penalty_grows d (a a' : Z) p :
  params_ok p -> directed_ok d -> 0 <= a <= a' ->
  exists x x', penalty_msat d a p = Ret x /\ penalty_msat d a' p = Ret x' /\ u64 x /\ u64 x' /\
    (~ (a' = max_liquidity_msat d /\ max_liquidity_msat d = capacity_msat d) -> x <= x').
Proof.
  intros Hp Hd Ha. pose proof (max_range d Hd) as HM. pose proof (min_range d Hd) as Hm. pose proof Hp as (Hb & _). unfold in_width in *.
  assert (Hat : forall b, 0 <= b -> exists x, penalty_msat d b p = Ret x /\ 0 <= x < 2 ^ 64 /\ (b <= Z.min (min_liquidity_msat d) (max_liquidity_msat d) -> x = 0) /\
    (max_liquidity_msat d < b \/ b = max_liquidity_msat d /\ max_liquidity_msat d <> capacity_msat d -> Z.min (min_liquidity_msat d) (max_liquidity_msat d) < b -> x = u64_max)).
  { intros b Hb0. destruct (decide (Z.min (min_liquidity_msat d) (max_liquidity_msat d) < b < max_liquidity_msat d)) as [Hin|Hout].
    - destruct (penalty_between d b p Hp Hd Hin) as (g & Eg & Hg & _ & _ & E). eexists. split; [exact E|]. pose proof (combined_mono b b g g p Hp ltac:(lia) ltac:(lia)) as [_ Hc]. unfold in_width in Hc.
      destruct (_ <? _); split_and!; try lia; intros [?|[? ?]]; lia.
    - pose proof (combined_mono b b (NEGATIVE_LOG10_UPPER_BOUND * 2048) (NEGATIVE_LOG10_UPPER_BOUND * 2048) p Hp ltac:(lia) ltac:(unfold NEGATIVE_LOG10_UPPER_BOUND; lia)) as [_ Hc]. unfold in_width in Hc.
      unfold penalty_msat. cbv zeta. destruct (Z.leb_spec b (Z.min (min_liquidity_msat d) (max_liquidity_msat d))); [eexists; split; [done|]; split_and!; lia|].
      destruct (Z.leb_spec (max_liquidity_msat d) b); [|lia]. destruct (Z.ltb_spec (max_liquidity_msat d) b); [eexists; split; [done|]; split_and!; lia|].
      destruct (Z.eqb_spec (max_liquidity_msat d) (capacity_msat d)); cbn [negb]; eexists; (split; [done|]); split_and!; try lia; intros [?|[? ?]]; lia. }
  destruct (Hat a ltac:(lia)) as (x & Ex & Hx & Hx0 & _). destruct (Hat a' ltac:(lia)) as (x' & Ex' & Hx' & _ & Hx'1). exists x, x'. split_and!; [done|done|lia|lia|lia|lia|]. intros Hedge.
  set (M := max_liquidity_msat d) in *. set (m := Z.min (min_liquidity_msat d) M) in *. destruct (decide (a <= m)); [rewrite Hx0 by done; lia|]. destruct (decide (M <= a')); [rewrite Hx'1 by lia; lia|].
  destruct (penalty_between d a p Hp Hd ltac:(lia)) as (g & Eg & Hg & Hn & Hden & E). destruct (penalty_between d a' p Hp Hd ltac:(lia)) as (g' & Eg' & Hg' & Hn' & _ & E').
  fold M in Eg, Eg', E, E', Hn, Hn', Hden. fold m in Eg, Eg', E, E', Hn, Hn', Hden. set (den := Z.min u64_max (M - m + 1)) in *. rewrite Ex in E. rewrite Ex' in E'. injection E as ->. injection E' as ->.
  pose proof (negative_log10_mono (M - a' + 1) (M - a + 1) den g' g ltac:(lia) ltac:(lia) Eg' Eg) as Hgg. pose proof (combined_mono a a' g g' p Hp Ha ltac:(lia)).
  destruct (Z.ltb_spec (a - m) (den `div` 64)), (Z.ltb_spec (a' - m) (den `div` 64)); lia.
Qed.

(** ** Bounds *)

Lemma decayed_now d o : dir_last_updated d = dir_now d -> as_secs (half_life d) <> 0 -> decayed_offset_msat d o = o.
Proof.
  intros E Hh. unfold decayed_offset_msat. destruct (Z.eqb_spec (as_secs (half_life d)) 0); [done|]. rewrite E. unfold duration_since, saturating_sub, as_secs at 1. rewrite Z.sub_diag, Z.max_id.
  rewrite !Z.div_0_l by (done || lia). cbn. by rewrite Z.shiftr_0_r.
Qed.

(** The bounds right after a payment taught something: the new bound holds, and the other is kept
    unless the two would cross. *)
Theorem bounds_learned d (a : Z) :
  directed_ok d -> as_secs (half_life d) <> 0 -> 0 <= a ->
  let lo := min_liquidity_msat d in let hi := max_liquidity_msat d in
  (let d' := failed_at_channel a d in max_liquidity_msat d' = Z.min hi a /\ min_liquidity_msat d' = if (a <? hi) && (a <? lo) then 0 else lo) /\
  (let d' := failed_downstream a d in min_liquidity_msat d' = Z.max lo a /\ max_liquidity_msat d' = if (lo <? a) && (hi <? a) then capacity_msat d else hi) /\
  (let d' := successful a d in max_liquidity_msat d' = Z.max 0 (hi - a) /\ min_liquidity_msat d' = if Z.max 0 (hi - a) <? lo then 0 else lo).
Proof.
  intros Hd Hh Ha lo hi. pose proof (max_range d Hd) as HM. pose proof (min_range d Hd) as Hm. fold hi in HM. fold lo in Hm. unfold in_width in Hm.
  assert (Hset : forall b, 0 <= b <= capacity_msat d -> let d' := set_max_liquidity_msat b d in max_liquidity_msat d' = b /\ min_liquidity_msat d' = if b <? lo then 0 else lo).
  { intros b Hb. cbv zeta. unfold max_liquidity_msat, min_liquidity_msat. rewrite !decayed_now by done. cbn. fold lo. split; [unfold saturating_sub; lia|]. done. }
  cbv zeta. split_and!.
  - unfold failed_at_channel. fold hi. destruct (Z.ltb_spec a hi); [|fold hi; lia]. rewrite (proj1 (Hset a ltac:(lia))). lia.
  - unfold failed_at_channel. fold hi. destruct (Z.ltb_spec a hi); cbn [andb]; [|done]. by rewrite (proj2 (Hset a ltac:(lia))).
  - unfold failed_downstream. fold lo. destruct (Z.ltb_spec lo a); [|fold lo; lia]. unfold min_liquidity_msat at 1. rewrite decayed_now by done. cbn. lia.
  - unfold failed_downstream. fold lo. destruct (Z.ltb_spec lo a); cbn [andb]; [|done]. unfold max_liquidity_msat at 1. rewrite decayed_now by done. cbn. fold hi. destruct (hi <? a); [unfold saturating_sub; lia|done].
  - unfold successful. fold hi. unfold saturating_sub at 1. rewrite (proj1 (Hset (Z.max 0 (hi - a)) ltac:(lia))). done.
  - unfold successful. fold hi. unfold saturating_sub at 1. rewrite (proj2 (Hset (Z.max 0 (hi - a)) ltac:(lia))). done.
Qed.

(** What is known fades: as time passes, and as long as fewer than 2^32 half-lives have, the lower
    bound does not rise and the upper bound does not fall. *)
Theorem bounds_fade d (later : Z) :
  directed_ok d -> 0 <= half_life d -> dir_now d <= later -> as_secs (duration_since later (dir_last_updated d)) `div` as_secs (half_life d) < 2 ^ 32 ->
  let d' := mkDirectedLiquidity (dir_min_offset d) (dir_max_offset d) (capacity_msat d) (dir_last_updated d) later (half_life d) in
  min_liquidity_msat d' <= min_liquidity_msat d /\ max_liquidity_msat d <= max_liquidity_msat d'.
Proof.
  intros Hd Hhl Hle Hlt d'. assert (Hfade : forall o, 0 <= o -> decayed_offset_msat d' o <= decayed_offset_msat d o).
  2: { destruct Hd as (H1 & H2 & _). unfold in_width in *. unfold min_liquidity_msat, max_liquidity_msat, saturating_sub. cbn [dir_min_offset dir_max_offset capacity_msat d']. pose proof (Hfade (dir_min_offset d) ltac:(lia)). pose proof (Hfade (dir_max_offset d) ltac:(lia)). lia. }
  intros o Ho. pose proof (decayed_range d o Ho) as Hr. unfold decayed_offset_msat in *. cbn [half_life dir_now dir_last_updated d'] in *. destruct (Z.eqb_spec (as_secs (half_life d)) 0) as [|Hh]; [done|]. cbv zeta in *.
  set (x := as_secs (duration_since (dir_now d) (dir_last_updated d)) `div` as_secs (half_life d)) in *. set (y := as_secs (duration_since later (dir_last_updated d)) `div` as_secs (half_life d)) in *.
  assert (Hs : 0 <= as_secs (duration_since (dir_now d) (dir_last_updated d)) <= as_secs (duration_since later (dir_last_updated d)))
    by (unfold as_secs, duration_since, saturating_sub; split; [apply Z.div_pos; lia|apply Z.div_le_mono; lia]).
  assert (Hpos : 0 < as_secs (half_life d)) by (assert (0 <= as_secs (half_life d)) by (apply Z.div_pos; lia); lia).
  assert (Hxy : 0 <= x <= y) by (unfold x, y; split; [apply Z.div_pos; lia|apply Z.div_le_mono; lia]). rewrite !wrap_small in * by (unfold in_width; lia).
  destruct (Z.ltb_spec y 64), (Z.ltb_spec x 64); try lia. rewrite !Z.shiftr_div_pow2 by lia. apply Z.div_le_compat_l; [done|]. split; [apply Z.pow_pos_nonneg; lia|apply Z.pow_le_mono_r; lia].
Qed.

(** ** Both directions *)

Lemma bytes_leb_flip (a b : bytes) : a <> b -> bytes_leb a b = negb (bytes_leb b a).
Proof.
  revert b. induction a as [|x a IH]; intros [|y b] Hne; try done. cbn. destruct (Z.ltb_spec x y), (Z.ltb_spec y x), (Z.eqb_spec x y), (Z.eqb_spec y x); try lia; try done. cbn. apply IH. congruence.
Qed.

(** The bounds of a channel seen from both ends mirror each other: what one side is known to be able
    to send is what the other is known to lack. *)
Theorem bounds_mirror l (source target : NodeId) (cap t hl : Z) :
  source <> target -> liquidity_ok l -> min_liquidity_offset_msat l <= cap -> max_liquidity_offset_msat l <= cap ->
  min_liquidity_msat (as_directed l source target cap t hl) + max_liquidity_msat (as_directed l target source cap t hl) = cap.
Proof.
  intros Hne [H1 H2] Hle1 Hle2. unfold as_directed, node_lt. rewrite (bytes_leb_flip target source) by done. unfold in_width in *.
  destruct (bytes_leb source target); cbn [negb]; unfold min_liquidity_msat, max_liquidity_msat, saturating_sub; cbn [dir_min_offset dir_max_offset capacity_msat];
    match goal with |- decayed_offset_msat ?d ?o + Z.max 0 (_ - decayed_offset_msat ?d' ?o) = _ => pose proof (decayed_range d o ltac:(lia)); change (decayed_offset_msat d' o) with (decayed_offset_msat d o) end; lia.
Qed.

(** ** What a failed channel is asked for *)

(** A view of the same channel, later and with another capacity. *)
Definition later_view d (cap now : Z) : DirectedChannelLiquidity :=
  mkDirectedLiquidity (dir_min_offset d) (dir_max_offset d) cap (dir_last_updated d) now (half_life d).
(** No half-life has passed since. *)
Definition same_period d (now : Z) : Prop := decays (half_life d) (dir_last_updated d) now = decays (half_life d) (dir_last_updated d) (dir_now d).

Lemma later_decayed d cap t o : same_period d t -> decayed_offset_msat (later_view d cap t) o = decayed_offset_msat d o.
Proof. intros E. unfold same_period, decays in E. unfold decayed_offset_msat. cbn. by rewrite E. Qed.

Lemma view_undirected source target d cap t :
  as_directed (undirected source target d) source target cap t (half_life d) = later_view d cap t.
Proof. unfold as_directed, undirected. by destruct (node_lt source target). Qed.

Lemma failed_keeps a d : let d' := failed_at_channel a d in dir_now d' = dir_now d /\ half_life d' = half_life d /\ capacity_msat d' = capacity_msat d.
Proof. unfold failed_at_channel. by destruct (_ <? _). Qed.
Lemma downstream_keeps a d : let d' := failed_downstream a d in dir_now d' = dir_now d /\ half_life d' = half_life d /\ capacity_msat d' = capacity_msat d.
Proof. unfold failed_downstream. by destruct (_ <? _). Qed.

Lemma failed_avoided d (failed cap t a : Z) p :
  directed_ok d -> as_secs (half_life d) <> 0 -> 0 <= failed < capacity_msat d -> 0 <= cap <= capacity_msat d -> failed <= a ->
  let d' := failed_at_channel failed d in same_period d' t -> min_liquidity_msat (later_view d' cap t) < a ->
  penalty_msat (later_view d' cap t) a p = Ret u64_max.
Proof.
  intros Hd Hh Hf Hcap Ha d' Hs Hmin. destruct (bounds_learned d failed Hd Hh ltac:(lia)) as ([Hmax _] & _ & _). fold d' in Hmax. destruct (failed_keeps failed d) as (_ & _ & Ec). fold d' in Ec.
  unfold max_liquidity_msat in Hmax at 1. rewrite Ec in Hmax. set (D := decayed_offset_msat d' (dir_max_offset d')) in *.
  assert (Em : max_liquidity_msat (later_view d' cap t) = saturating_sub cap D) by (unfold max_liquidity_msat; rewrite later_decayed by done; done).
  unfold penalty_msat. cbv zeta. rewrite Em. cbn [capacity_msat later_view]. unfold saturating_sub in *. destruct (Z.leb_spec a (Z.min (min_liquidity_msat (later_view d' cap t)) (Z.max 0 (cap - D)))); [lia|].
  assert (0 <= min_liquidity_msat (later_view d' cap t)).
  { unfold min_liquidity_msat. apply decayed_range. cbn. unfold d', failed_at_channel. destruct Hd as (Hd1 & _ & _). unfold in_width in Hd1. destruct (_ <? _); [|lia]. cbn. destruct (_ <? _); [lia|]. apply decayed_range. lia. }
  destruct (Z.leb_spec (Z.max 0 (cap - D)) a); [|lia]. destruct (Z.ltb_spec (Z.max 0 (cap - D)) a); [done|]. destruct (Z.eqb_spec (Z.max 0 (cap - D)) cap); [lia|done].
Qed.

Lemma downstream_known d (sent cap t : Z) :
  directed_ok d -> as_secs (half_life d) <> 0 -> 0 <= sent ->
  let d' := failed_downstream sent d in same_period d' t -> sent <= min_liquidity_msat (later_view d' cap t).
Proof.
  intros Hd Hh Hs d' Hp. destruct (bounds_learned d sent Hd Hh Hs) as (_ & [Hmin _] & _). fold d' in Hmin. unfold min_liquidity_msat in Hmin at 1 |- *. rewrite later_decayed by done. cbn [dir_min_offset later_view]. lia.
Qed.

(** ** What a failed path teaches *)

Section Paths.
Context {W : Type} `{Clock W} `{Secp}.
Implicit Types (s : ProbabilisticScorer (W := W)) (hop : RouteHop).

Definition hop_channel (g : NetworkGraph) hop : outcome (option (DirectedChannelInfo * NodeId)) :=
  match Graph.channels g !! Onion.short_channel_id hop with Some c => as_directed_to c (from_pubkey (Onion.pubkey hop)) | None => Ret None end.

Lemma directed_hop_eq hop s : directed_hop hop s = (hop_channel (network_graph s) hop, s).
Proof. unfold directed_hop, hop_channel, mbind, prog_bind, gets. by destruct (Graph.channels _ !! _). Qed.

(** What the scorer knows of a channel, or would note for a new one. *)
Definition known_or_new s (scid : Z) l : Prop :=
  match channel_liquidities s !! scid with Some l' => l = l' | None => exists t, l = mkLiquidity 0 0 t end.

(** The same scorer with other liquidities and a later clock. *)
Definition relearned (ls : gmap Z ChannelLiquidity) s s' : Prop :=
  params s' = params s /\ network_graph s' = network_graph s /\ channel_liquidities s' = ls.

Lemma on_liquidity_eq hop source cap op s : exists l t s',
  on_liquidity hop source cap op s = (Ret tt, s') /\ known_or_new s (Onion.short_channel_id hop) l /\
  let target := from_pubkey (Onion.pubkey hop) in
  relearned (<[Onion.short_channel_id hop := undirected source target (op (as_directed l source target cap t (liquidity_offset_half_life (params s))))]> (channel_liquidities s)) s s'.
Proof.
  unfold on_liquidity, known_or_new, relearned, mbind, prog_bind, gets, modify, now_time. destruct (channel_liquidities s !! Onion.short_channel_id hop) as [l|]; cbn; (eexists _, _, _; split; [reflexivity|]).
  - by split_and!.
  - split; [by eexists|]. by split_and!.
Qed.

(** What is noted for a hop. *)
Definition noted (op : DirectedChannelLiquidity -> DirectedChannelLiquidity) s (ls : gmap Z ChannelLiquidity) hop (c : DirectedChannelInfo) (source : NodeId) : Prop :=
  exists l t, known_or_new s (Onion.short_channel_id hop) l /\
    let target := from_pubkey (Onion.pubkey hop) in
    ls !! Onion.short_channel_id hop =
      Some (undirected source target (op (as_directed l source target (as_msat (effective_capacity c)) t (liquidity_offset_half_life (params s))))).

Lemma failed_hops_note amount pre hop post c source s s' :
  let scids := Onion.short_channel_id <$> pre in
  NoDup scids -> Onion.short_channel_id hop ∉ scids -> hop_channel (network_graph s) hop = Ret (Some (c, source)) ->
  failed_hops (Onion.short_channel_id hop) amount (pre ++ hop :: post) s = (Ret tt, s') ->
  params s' = params s /\ network_graph s' = network_graph s /\
  (forall k, k <> Onion.short_channel_id hop -> k ∉ scids -> channel_liquidities s' !! k = channel_liquidities s !! k) /\
  noted (failed_at_channel amount) s (channel_liquidities s') hop c source /\
  (forall h c' source', h ∈ pre -> hop_channel (network_graph s) h = Ret (Some (c', source')) -> noted (failed_downstream amount) s (channel_liquidities s') h c' source').
Proof.
  revert s. induction pre as [|h0 pre IH]; intros s scids Hnd Hni Hc E; cbn [Datatypes.app failed_hops] in E; unfold mbind at 1, prog_bind at 1 in E; rewrite directed_hop_eq in E.
  - rewrite Hc, Z.eqb_refl in E. destruct (on_liquidity_eq hop source (as_msat (effective_capacity c)) (failed_at_channel amount) s) as (l & t & s1 & E1 & Hl & (R1 & R2 & R3)). rewrite E1 in E. injection E as <-.
    split_and!; [done|done| | |by intros h c' src2 Hin%elem_of_nil]; [intros k Hk _; rewrite R3; by rewrite lookup_insert_ne|]. exists l, t. split; [done|]. cbv zeta. rewrite R3. by rewrite lookup_insert_eq.
  - cbn in Hnd, Hni. apply NoDup_cons in Hnd as [Hn0 Hnd]. apply not_elem_of_cons in Hni as [Hne Hni]. destruct (hop_channel (network_graph s) h0) as [[[c0 source0]|]|w|] eqn:E0; [| |done..].
    + destruct (Z.eqb_spec (Onion.short_channel_id h0) (Onion.short_channel_id hop)); [congruence|]. unfold mbind, prog_bind in E.
      destruct (on_liquidity_eq h0 source0 (as_msat (effective_capacity c0)) (failed_downstream amount) s) as (l & t & s1 & E1 & Hl & Hr). rewrite E1 in E. pose proof Hr as (R1 & R2 & R3).
      apply IH in E as (Q1 & Q2 & Q3 & Q4 & Q5); [|done|done|by rewrite R2].
      assert (Hother : forall k, k <> Onion.short_channel_id h0 -> channel_liquidities s1 !! k = channel_liquidities s !! k) by (intros k Hk; rewrite R3; by rewrite lookup_insert_ne).
      assert (Hback : forall op h c' src2, Onion.short_channel_id h <> Onion.short_channel_id h0 -> noted op s1 (channel_liquidities s') h c' src2 -> noted op s (channel_liquidities s') h c' src2).
      { intros op h c' src2 Hk (l1 & t1 & Hl1 & El1). exists l1, t1. rewrite R1 in El1. split; [|done]. unfold known_or_new in *. by rewrite Hother in Hl1. }
      split_and!; [congruence|congruence| |by apply Hback|].
      * intros k Hk Hin. cbn in Hin. apply not_elem_of_cons in Hin as [Hk0 Hin]. rewrite Q3 by done. by apply Hother.
      * intros h c' src2 Hin Eh. apply elem_of_cons in Hin as [->|Hin].
        -- rewrite E0 in Eh. injection Eh as <- <-. exists l, t. split; [done|]. cbv zeta. rewrite Q3 by (done || congruence). rewrite R3. by rewrite lookup_insert_eq.
        -- apply Hback; [|apply Q5; [done|by rewrite R2]]. intros Ek. apply Hn0. rewrite <- Ek. by apply list_elem_of_fmap_2.
    + apply IH in E as (Q1 & Q2 & Q3 & Q4 & Q5); [|done..]. split_and!; [done|done| |done|].
      * intros k Hk Hin. cbn in Hin. apply not_elem_of_cons in Hin as [_ Hin]. by apply Q3.
      * intros h c' src2 Hin Eh. apply elem_of_cons in Hin as [->|Hin]; [congruence|by apply Q5].
Qed.

End Paths.
