(* ===== verification/ScoringStore.v ===== *)
(** * The scorer on disk: the [Writeable] and [Readable] of routing/scoring.rs

    Bounds are stored with the wall-clock time they were noted at, and aged by the wall clock when
    they are read.  The clocks stand still while a scorer is written or read. *)

From S2P Require Import Prelude Text Bytes Stream Ser SerLaws Tlv Msgs GossipMsgs TlvStruct WireCases Onion GossipSync Graph Scoring ScoringSpec.

Local Open Scope Z_scope.

(** ** Stored bounds *)

Record stored := mkStored { stored_min : Z; stored_max : Z; stored_since_epoch : Z * Z }.

(** [Duration] as it is written, and in nanoseconds. *)
Definition of_nanos (n : Z) : Z * Z := (n `div` 1000000000, n `mod` 1000000000).
Definition to_nanos (d : Z * Z) : Z := d.1 * 1000000000 + d.2.

Definition storedc : Codec stored :=
  impl_writeable_tlv_based
    [required 0 u64c stored_min (fun x (s : option Z * option Z * option (Z * Z)) => (x, s.1.2, s.2));
     required 2 u64c stored_max (fun x s => (s.1.1, x, s.2)); required 4 durationc stored_since_epoch (fun x s => (s.1, x))]
    (None, None, None) (fun '(a, b, c) => a ← a; b ← b; c ← c; Some (mkStored a b c)).

Section Clocks.
Context (first_instant now since_epoch : Z).

(** [T::duration_since_epoch() - self.last_updated.elapsed()]. *)
Definition noted_at (l : ChannelLiquidity) : Z := since_epoch - duration_since now (last_updated l).
Definition to_stored (l : ChannelLiquidity) : stored :=
  mkStored (min_liquidity_offset_msat l) (max_liquidity_offset_msat l) (of_nanos (noted_at l)).

(** [T::now() - (T::duration_since_epoch() - duration_since_epoch)]. *)
Definition from_stored (s : stored) : outcome ChannelLiquidity :=
  let d := to_nanos (stored_since_epoch s) in
  if since_epoch <? d then Panic "overflow when subtracting durations"
  else
    let t := now - (since_epoch - d) in
    if t <? first_instant then Panic "overflow when subtracting duration from instant"
    else Ret (mkLiquidity (stored_min s) (stored_max s) t).

Definition liquidity_read : rd ChannelLiquidity :=
  s ← c_read storedc;
  match from_stored s with Ret l => mret l | Panic w => RRet (Panic w) | OutOfFuel => RRet OutOfFuel end.

Definition liquidityc : Codec (option ChannelLiquidity) :=
  mkCodec (fun o => match o with Some l => c_write storedc (to_stored l) | None => [] end) (l ← liquidity_read; mret (Some l)).

(** [entries] is the map in the order it is visited. *)
Definition scorer_write (entries : list (Z * ChannelLiquidity)) : outcome (list bytes) :=
  if forallb (fun e => 0 <=? noted_at e.2) entries
  then Ret (write_tlv_fields [(0, Some (hashmap_write u64c liquidityc entries))])
  else Panic "overflow when subtracting durations".

Definition scorer_read : rd (gmap Z ChannelLiquidity) :=
  read_tlv_fields [mkField 0 Required (fun _ => hashmap_read u64c liquidityc)] ∅.
End Clocks.

(** ** Durations and bounds round trip *)

Definition duration_ok (d : Z * Z) : Prop := u64 d.1 /\ 0 <= d.2 < 1000000000.

#[export] Instance durationc_roundtrip : RoundTrip durationc duration_ok.
Proof.
  intros [secs nanos] rest [Hs Hn]. cbn [fst snd] in *. unfold encode, vec_writer. cbn [durationc c_write c_read]. rewrite concat_app, <- app_assoc.
  rewrite (run_field u64c u64) by done. rewrite (run_field u32c u32) by (unfold in_width; cbn; lia). unfold duration_new. cbn [fst snd].
  rewrite Z.div_small, Z.mod_small by done. rewrite Z.add_0_r. unfold in_width in Hs. destruct (Z.leb_spec secs U64_MAX); [done|]. unfold U64_MAX in *. lia.
Qed.

Definition stored_ok (s : stored) : Prop := u64 (stored_min s) /\ u64 (stored_max s) /\ duration_ok (stored_since_epoch s).

Lemma duration_len d : length_writer (c_write durationc d) = 12.
Proof. rewrite length_writer_vec. unfold vec_writer. destruct d. cbn [durationc c_write u64c u32c uintc concat Datatypes.app]. rewrite !length_app, !length_to_be_bytes. done. Qed.

#[export] Instance storedc_roundtrip : RoundTrip storedc stored_ok.
Proof.
  apply tlv_struct_roundtrip; [by repeat constructor|by repeat constructor|]. intros m (H1 & H2 & H3). split_and!.
  - apply (small_fits m _ 12); [lia|done|]. unfold u64c. repeat constructor; cbn [sf_write required]; rewrite ?uint_len, ?duration_len; lia.
  - repeat constructor; (eapply required_ok; [apply _|]); done.
  - by destruct m.
Qed.

(** ** Maps *)

Section Maps.
Context {V : Type} (wc rc : Codec (option V)) (f : V -> V).

Definition reads_as (v : V) : Prop := forall rest, run (c_read rc) (concat (c_write wc (Some v)) ++ rest) = (Ret (Ok (Some (f v))), rest).

Lemma run_read_map (entries : list (Z * V)) (ret : gmap Z V) rest :
  NoDup entries.*1 -> Forall (fun e => u64 e.1 /\ reads_as e.2) entries -> (forall e, e ∈ entries -> ret !! e.1 = None) ->
  run (read_map u64c rc (length entries) ret) (concat (concat ((fun e => c_write u64c e.1 ++ c_write wc (Some e.2)) <$> entries)) ++ rest) =
  (Ret (Ok ((f <$> list_to_map entries) ∪ ret)), rest).
Proof.
  revert ret. induction entries as [|[k v] entries IH]; intros ret Hnd Hall Hret; cbn [length read_map].
  { cbn. by rewrite fmap_empty, (left_id_L ∅ (∪)). }
  apply NoDup_cons in Hnd as [Hk Hnd]. apply Forall_cons in Hall as [[Hu Hv] Hall]. cbn [fst snd] in *. cbn [fmap list_fmap concat fst snd]. rewrite !concat_app, <- !app_assoc.
  rewrite (run_field u64c u64) by done. rewrite (run_bind_Ok _ _ _ _ _ (Hv _)). pose proof (Hret (k, v) ltac:(by left)) as Hk0. cbn [fst] in Hk0. rewrite Hk0. rewrite IH; [|done|done|].
  - do 3 f_equal. change (list_to_map ((k, v) :: entries)) with (<[k := v]> (list_to_map (M := gmap Z V) entries)). rewrite fmap_insert, <- insert_union_l, <- insert_union_r; [done|].
    rewrite lookup_fmap, (not_elem_of_list_to_map_1 _ _ Hk). done.
  - intros e He. rewrite lookup_insert_ne; [apply Hret; by right|]. intros ->. apply Hk. by apply list_elem_of_fmap_2.
Qed.

Lemma run_hashmap (entries : list (Z * V)) rest :
  NoDup entries.*1 -> Forall (fun e => u64 e.1 /\ reads_as e.2) entries -> Z.of_nat (length entries) < 2 ^ 16 ->
  run (hashmap_read u64c rc) (concat (hashmap_write u64c wc entries) ++ rest) = (Ret (Ok (f <$> list_to_map entries)), rest).
Proof.
  intros Hnd Hall Hlen. unfold hashmap_read, hashmap_write. rewrite concat_app, <- app_assoc. unfold len16. rewrite (run_field u16c u16) by (apply wrap_in_width; lia).
  rewrite wrap_small by (unfold in_width; lia). rewrite Nat2Z.id, run_read_map; [|done|done|by intros e _; apply lookup_empty]. by rewrite (right_id_L ∅ (∪)).
Qed.
End Maps.

(** ** The scorer round trips *)

(** The bounds of [l] as another process sees them, when the wall clock has moved from [epoch] to [epoch']. *)
Definition aged (now epoch now' epoch' : Z) (l : ChannelLiquidity) : ChannelLiquidity :=
  mkLiquidity (min_liquidity_offset_msat l) (max_liquidity_offset_msat l) (now' - (epoch' - (epoch - duration_since now (last_updated l)))).

Lemma nanos_roundtrip n : 0 <= n < 2 ^ 64 * 1000000000 -> duration_ok (of_nanos n) /\ to_nanos (of_nanos n) = n.
Proof.
  intros Hn. unfold duration_ok, of_nanos, to_nanos, in_width. cbn [fst snd]. pose proof (Z.div_mod n 1000000000 ltac:(lia)). pose proof (Z.mod_pos_bound n 1000000000 ltac:(lia)).
  split_and!; [apply Z.div_pos; lia|apply Z.div_lt_upper_bound; lia|lia|lia|lia].
Qed.

Lemma stored_len first now epoch l : length_writer (c_write (liquidityc first now epoch) (Some l)) <= 99.
Proof.
  cbn [liquidityc c_write]. eapply Z.le_trans; [apply (struct_len (to_stored now epoch l) _ _ _ 12); [lia|]|done].
  unfold u64c. repeat constructor; cbn [sf_write required]; rewrite ?uint_len, ?duration_len; lia.
Qed.

Lemma entries_len first now epoch (entries : list (Z * ChannelLiquidity)) :
  0 <= length_writer (hashmap_write u64c (liquidityc first now epoch) entries) <= 2 + 107 * Z.of_nat (length entries).
Proof.
  rewrite length_writer_vec. unfold vec_writer, hashmap_write. rewrite concat_app, length_app. split; [lia|]. cbn [u16c uintc c_write concat]. rewrite List.app_nil_r, length_to_be_bytes.
  enough (H : Z.of_nat (length (concat (concat ((fun e => c_write u64c e.1 ++ c_write (liquidityc first now epoch) (Some e.2)) <$> entries)))) <= 107 * Z.of_nat (length entries)) by lia.
  induction entries as [|[k l] entries IH]; [done|]. cbn [fmap list_fmap concat fst snd length]. rewrite !concat_app, !length_app. pose proof (stored_len first now epoch l) as Hs. rewrite length_writer_vec in Hs. unfold vec_writer in Hs.
  assert (Hk : length (concat (c_write u64c k)) = 8%nat) by (cbn [u64c uintc c_write concat]; by rewrite List.app_nil_r, length_to_be_bytes). rewrite Hk. lia.
Qed.

(** A scorer that was written is read back with the same bounds for the same channels, and every
    bound is older by exactly what the wall clock has moved: for fewer than 2^16 channels, when the
    clock was not set back and the platform can represent the instants. *)
Theorem scorer_stored (first now epoch now' epoch' : Z) (entries : list (Z * ChannelLiquidity)) (rest : bytes) :
  NoDup entries.*1 -> Z.of_nat (length entries) < 2 ^ 16 ->
  Forall (fun e => u64 e.1 /\ liquidity_ok e.2 /\ duration_since now (last_updated e.2) <= epoch /\ first <= last_updated (aged now epoch now' epoch' e.2)) entries ->
  epoch <= epoch' < 2 ^ 64 * 1000000000 ->
  exists out, scorer_write first now epoch entries = Ret out /\
    run (scorer_read first now' epoch') (concat out ++ rest) = (Ret (Ok (aged now epoch now' epoch' <$> list_to_map entries)), rest) /\
    forall e, e ∈ entries -> last_updated e.2 <= now ->
      now' - last_updated (aged now epoch now' epoch' e.2) = (now - last_updated e.2) + (epoch' - epoch).
Proof.
  intros Hnd Hlen Hall He. unfold scorer_write. assert (Ha : forallb (fun e => 0 <=? noted_at now epoch e.2) entries = true).
  { apply forallb_forall. intros e Hin. apply list_elem_of_In in Hin. rewrite Forall_forall in Hall. apply Z.leb_le. unfold noted_at. destruct (Hall e Hin) as (_ & _ & ? & _). lia. }
  rewrite Ha. eexists. split; [done|]. split; [|intros e Hin Hl; unfold aged, duration_since, saturating_sub; cbn; lia].
  assert (Hreads : Forall (fun e => u64 e.1 /\ reads_as (liquidityc first now epoch) (liquidityc first now' epoch') (aged now epoch now' epoch') e.2) entries).
  { eapply Forall_impl; [exact Hall|]. intros [k l] (Hk & [Hl1 Hl2] & Hd & Hf). cbn [fst snd] in *. split; [done|]. intros r. cbn [liquidityc c_write c_read]. unfold liquidity_read.
    assert (Hn : 0 <= noted_at now epoch l < 2 ^ 64 * 1000000000) by (unfold noted_at, duration_since, saturating_sub in *; lia). destruct (nanos_roundtrip _ Hn) as [Hok Hto].
    rewrite !run_bind. pose proof (storedc_roundtrip (to_stored now epoch l) r) as E. unfold encode, vec_writer in E. rewrite E by (by split_and!). clear E.
    unfold from_stored. cbn [stored_since_epoch to_stored stored_min stored_max]. rewrite Hto. cbv zeta. unfold aged in Hf. cbn in Hf. fold (noted_at now epoch l) in Hf.
    destruct (Z.ltb_spec epoch' (noted_at now epoch l)); [unfold noted_at, duration_since, saturating_sub in *; lia|]. destruct (Z.ltb_spec (now' - (epoch' - noted_at now epoch l)) first); [lia|]. done. }
  set (p := hashmap_write u64c (liquidityc first now epoch) entries). set (fld := mkField 0 Required (fun _ : gmap Z ChannelLiquidity => hashmap_read u64c (liquidityc first now' epoch'))).
  set (m := aged now epoch now' epoch' <$> list_to_map entries).
  assert (Hp : run (hashmap_read u64c (liquidityc first now' epoch')) (concat p) = (Ret (Ok m), [])) by (rewrite <- (List.app_nil_r (concat p)); by apply run_hashmap).
  assert (Hl : 0 <= length_writer p <= 2 + 107 * Z.of_nat (length entries)) by apply entries_len.
  assert (Ht : u64 (tlv_length [(0, Some p)])).
  { rewrite tlv_length_cons. cbn [fst snd]. pose proof (bigsize_len 0). pose proof (bigsize_len (length_writer p)). change (tlv_length []) with 0. unfold in_width. lia. }
  unfold scorer_read. pose proof (read_write_tlv_fields [mkStep fld (Some (concat p)) (fun _ => m)] [(0, Some p)] ∅ rest) as E. cbn [fmap list_fmap st_field] in E. apply E; [done| |done|by repeat constructor|].
  - change (records_of _) with (outs_records [(0, Some p)]). apply record_ok_of_length; [by repeat constructor|done].
  - constructor; [|constructor]. intros s0. exact Hp.
Qed.

(** ** A stored scorer *)

Definition two_bounds : list (Z * ChannelLiquidity) := [(7, mkLiquidity 100 0 5000000000); (9, mkLiquidity 0 20 6000000000)].
Definition second (n : Z) : Z := n * 1000000000.

(** Written two and one seconds after the bounds were noted, read half a minute later. *)
Lemma scorer_stored_witness : exists out, scorer_write 0 (second 7) (second 1000) two_bounds = Ret out /\
  run (scorer_read 0 (second 90) (second 1030)) (concat out) = (Ret (Ok (aged (second 7) (second 1000) (second 90) (second 1030) <$> list_to_map two_bounds)), []).
Proof.
  destruct (scorer_stored 0 (second 7) (second 1000) (second 90) (second 1030) two_bounds []) as (out & E & Er & _).
  - repeat constructor; set_solver.
  - reflexivity.
  - repeat constructor; discriminate.
  - unfold second. lia.
  - exists out. split; [exact E|]. rewrite List.app_nil_r in Er. exact Er.
Defined.

(** When the wall clock was set back by a minute, reading the file panics. *)
Example clock_set_back : exists out, scorer_write 0 (second 7) (second 1000) two_bounds = Ret out /\
  (run (scorer_read 0 (second 90) (second 940)) (concat out)).1 = Panic "overflow when subtracting durations".
Proof. eexists. split; [reflexivity|]. vm_compute. reflexivity. Qed.

(** * The scorer on small inputs

    A graph of two channels and a payment that failed at the second; and two penalties that are
    not what one would expect. *)

#[local] Existing Instance toy_secp.
#[local] Instance toy_clock : Clock Z := {| now t := (t, t + 1); first_instant := 0 |}.

(** ** Penalties *)

Definition an_hour : Z := 3600 * 1000000000.
Definition untried (cap : Z) : DirectedChannelLiquidity := mkDirectedLiquidity 0 0 cap 0 0 an_hour.

Lemma penalty_grows_witness : exists x x', penalty_msat (untried 1000000) 5000 default_scoring_parameters = Ret x /\ penalty_msat (untried 1000000) 900000 default_scoring_parameters = Ret x' /\ x <= x'.
Proof.
  destruct (penalty_grows (untried 1000000) 5000 900000 default_scoring_parameters) as (x & x' & E & E' & _ & _ & Hle); [by repeat split|by repeat split|lia|].
  exists x, x'. split; [exact E|]. split; [exact E'|]. apply Hle. intros [Ha _]. vm_compute in Ha. discriminate Ha.
Defined.

(** At the capacity of a channel nothing is known about, the amount penalty is that of a chance of
    one in a hundred; one millisatoshi below, that of the real chance, which is smaller. *)
Example full_capacity_is_cheaper :
  penalty_msat (untried (2 ^ 40)) (2 ^ 40 - 1) default_scoring_parameters = Ret 3151444595 /\
  penalty_msat (untried (2 ^ 40)) (2 ^ 40) default_scoring_parameters = Ret 536951412.
Proof. vm_compute. auto. Qed.

(** A channel that carried 500 before and now fails at 500 is bounded by 500 from both sides: the same
    amount is tried over it again, without any penalty. *)
Example failed_channel_is_free :
  let d := failed_at_channel 500 (mkDirectedLiquidity 500 0 1000 0 60 an_hour) in
  min_liquidity_msat d = 500 /\ max_liquidity_msat d = 500 /\ penalty_msat d 500 default_scoring_parameters = Ret 0.
Proof. vm_compute. auto. Qed.

(** ** A path *)

Definition ends (source target : bool) (sats : Z) : ChannelInfo.t :=
  ChannelInfo.mk toy_secp [] (from_pubkey (source : @PublicKey toy_secp)) None (from_pubkey (target : @PublicKey toy_secp)) None (Some sats) None 0.
Definition toy_graph : NetworkGraph := mkGraph _ [] {[ 1 := ends true false 1000; 2 := ends false true 500 ]} ∅ None.
Definition towards (node : bool) (scid fee : Z) : RouteHop := mkRouteHop _ (node : @PublicKey toy_secp) [] scid [] fee 40.
Definition first_hop : RouteHop := towards false 1 10.
Definition second_hop : RouteHop := towards true 2 20000.
Definition toy_scorer : ProbabilisticScorer (W := Z) := mkScorer default_scoring_parameters toy_graph ∅ 0.
Definition taught : ProbabilisticScorer (W := Z) := (payment_path_failed [first_hop; second_hop] 2 toy_scorer).2.

Definition second_channel : DirectedChannelInfo := mkDirected (ends false true 500) None 500000 (Total 500000 None).

Example toy_bounds : channel_liquidities taught !! 2 = Some (mkLiquidity 480000 0 3) /\ channel_liquidities taught !! 1 = Some (mkLiquidity 20000 0 1).
Proof. split; reflexivity. Qed.

