(* ===== verification/Zbase32.v ===== *)
(** * Zbase32: rust-lightning/lightning/src/util/zbase32.rs

    The zbase32 text encoding [signmessage] prints signatures in: chunks of five
    bytes become eight symbols of a 32-letter alphabet.  [encode] and [decode] are
    translated chunk by chunk; the round trip is proved for every byte string. *)

From S2P Require Import Prelude Text Bytes.

Local Open Scope Z_scope.

(** ** Definitions *)

(** b"ybndrfg8ejkmcpqxot1uwisza345h769" *)
Definition ALPHABET : bytes :=
  Eval vm_compute in bytes_of "ybndrfg8ejkmcpqxot1uwisza345h769".

Definition INV_ALPHABET : list Z :=
  [ -1; 18; -1; 25; 26; 27; 30; 29; 7; 31; -1; -1; -1; -1; -1; -1; -1; 24; 1; 12; 3; 8; 5; 6; 28;
    21; 9; 10; -1; 11; 2; 16; 13; 14; 4; 22; 17; 19; -1; 20; 15; 0; 23].

(** [slice::chunks(n)]: the last chunk may be shorter. *)
Fixpoint chunks_aux {A} (fuel n : nat) (l : list A) : list (list A) :=
  match fuel, l with
  | S f, _ :: _ => take n l :: chunks_aux f n (drop n l)
  | _, _ => []
  end.
Definition chunks {A} (n : nat) (l : list A) : list (list A) := chunks_aux (length l) n l.

(** A fixed-size array initialised with zeros, the chunk copied to its front. *)
Definition padded (n : nat) (chunk : list Z) : list Z := take n (chunk ++ replicate n 0).

Definition at_ (buf : list Z) (i : nat) : Z := nth i buf 0.

(** The eight alphabet indices of a five-byte buffer. *)
Definition quintets (buf : bytes) : list Z :=
  [ Z.shiftr (Z.land (at_ buf 0) 0xF8) 3;
    Z.lor (wrap 8 (Z.shiftl (Z.land (at_ buf 0) 0x07) 2)) (Z.shiftr (Z.land (at_ buf 1) 0xC0) 6);
    Z.shiftr (Z.land (at_ buf 1) 0x3E) 1;
    Z.lor (wrap 8 (Z.shiftl (Z.land (at_ buf 1) 0x01) 4)) (Z.shiftr (Z.land (at_ buf 2) 0xF0) 4);
    Z.lor (wrap 8 (Z.shiftl (Z.land (at_ buf 2) 0x0F) 1)) (Z.shiftr (at_ buf 3) 7);
    Z.shiftr (Z.land (at_ buf 3) 0x7C) 2;
    Z.lor (wrap 8 (Z.shiftl (Z.land (at_ buf 3) 0x03) 3)) (Z.shiftr (Z.land (at_ buf 4) 0xE0) 5);
    Z.land (at_ buf 4) 0x1F ].

Definition encode_chunk (chunk : bytes) : bytes :=
  (fun q => at_ ALPHABET (Z.to_nat q)) <$> quintets (padded 5 chunk).

Definition encode_bytes (data : bytes) : bytes :=
  take ((length data * 8 + 4) / 5)%nat (concat (encode_chunk <$> chunks 5 data)).

Definition string_of_bytes (bs : bytes) : string := string_of_list_ascii (ascii_of <$> bs).

Definition encode (data : bytes) : string := string_of_bytes (encode_bytes data).

Definition to_ascii_uppercase (c : Z) : Z := if (97 <=? c) && (c <=? 122) then c - 32 else c.

(** The lookup of one character in the inverse alphabet; [wrapping_sub] is on [u8]. *)
Definition inv_char (c : Z) : option Z :=
  match nth_error INV_ALPHABET (Z.to_nat (wrap 8 (to_ascii_uppercase c - 48))) with
  | None => None
  | Some v => if v =? -1 then None else Some (wrap 8 v)
  end.

Definition shl8 (x k : Z) : Z := wrap 8 (Z.shiftl x k).

(** The five bytes of an eight-symbol buffer. *)
Definition dequintets (buf : list Z) : bytes :=
  [ Z.lor (shl8 (at_ buf 0) 3) (Z.shiftr (at_ buf 1) 2);
    Z.lor (Z.lor (shl8 (at_ buf 1) 6) (shl8 (at_ buf 2) 1)) (Z.shiftr (at_ buf 3) 4);
    Z.lor (shl8 (at_ buf 3) 4) (Z.shiftr (at_ buf 4) 1);
    Z.lor (Z.lor (shl8 (at_ buf 4) 7) (shl8 (at_ buf 5) 2)) (Z.shiftr (at_ buf 6) 3);
    Z.lor (shl8 (at_ buf 6) 5) (at_ buf 7) ].

Definition decode_chunk (chunk : bytes) : option bytes :=
  vs ← mapM inv_char chunk; Some (dequintets (padded 8 vs)).

Fixpoint decode_chunks (cs : list bytes) : option bytes :=
  match cs with
  | [] => Some []
  | c :: cs' => bs ← decode_chunk c; rest ← decode_chunks cs'; Some (bs ++ rest)
  end.

Definition decode (data : string) : result bytes unit :=
  if negb (is_ascii data) then Err tt
  else
    let data := bytes_of data in
    let output_length := (length data * 5 / 8)%nat in
    if ((output_length * 8 + 4) / 5 <? length data)%nat then Err tt
    else
      match decode_chunks (chunks 8 data) with
      | None => Err tt
      | Some ret =>
          if forallb (fun c => c =? 0) (drop output_length ret)
          then Ok (take output_length ret) else Err tt
      end.

(** ** Lemmas: bits of a byte *)

Lemma u8_eq_bits a b :
  u8 a -> u8 b -> (forall i, In i [0;1;2;3;4;5;6;7] -> Z.testbit a i = Z.testbit b i) -> a = b.
Proof.
  intros Ha Hb H. apply Z.bits_inj'. intros i Hi. destruct (Z_lt_le_dec i 8) as [Hlt|Hge].
  - apply H. cbn. lia.
  - by rewrite !(testbit_above 8) by (done || lia).
Qed.

Lemma shiftr_bit a k i : 0 <= i -> Z.testbit (Z.shiftr a k) i = Z.testbit a (i + k).
Proof. intros. by apply Z.shiftr_spec. Qed.

Lemma wrap8_low x i : 0 <= i < 8 -> Z.testbit (wrap 8 x) i = Z.testbit x i.
Proof. intros. apply Z.mod_pow2_bits_low. lia. Qed.

Lemma wrap8_high x i : 8 <= i -> Z.testbit (wrap 8 x) i = false.
Proof. intros. by apply Z.mod_pow2_bits_high. Qed.

(** Evaluate the bits of a byte expression at constant indices. *)
Ltac bit_step :=
  match goal with
  | |- context [Z.testbit ?e ?i] =>
      let c := eval vm_compute in i in progress change (Z.testbit e i) with (Z.testbit e c)
  | |- context [Z.testbit ?e (Zneg ?k)] => rewrite (Z.testbit_neg_r e (Zneg k)) by lia
  | |- context [Z.testbit (Z.lor ?a ?b) ?i] => rewrite (Z.lor_spec a b i)
  | |- context [Z.testbit (Z.land ?a ?b) ?i] => rewrite (Z.land_spec a b i)
  | |- context [Z.testbit (Z.shiftr ?a ?k) ?i] => rewrite (shiftr_bit a k i) by lia
  | |- context [Z.testbit (wrap 8 ?x) ?i] =>
      first [rewrite (wrap8_high x i) by lia | rewrite (wrap8_low x i) by lia]
  | |- context [Z.testbit (Z.shiftl ?a ?k) ?i] => rewrite (Z.shiftl_spec a k i) by lia
  | |- context [Z.testbit 0 ?k] => rewrite (Z.testbit_0_l k)
  | |- context [Z.testbit (Zpos ?c) ?i] =>
      let v := eval vm_compute in (Z.testbit (Zpos c) i) in change (Z.testbit (Zpos c) i) with v
  | H : in_width 8 ?x |- context [Z.testbit ?x (Zpos ?k)] =>
      rewrite (testbit_above 8 x (Zpos k) H) by lia
  end.

Ltac byte_bits :=
  unfold shl8; repeat bit_step;
  rewrite ?andb_false_r, ?andb_true_r, ?orb_false_r, ?orb_false_l; try reflexivity.

Lemma lor_u8 a b : u8 a -> u8 b -> u8 (Z.lor a b).
Proof. apply lor_in_width. lia. Qed.
Lemma shl8_u8 a k : u8 (wrap 8 (Z.shiftl a k)).
Proof. apply wrap_in_width. lia. Qed.
Lemma shiftr_u8 a k : 0 <= k -> u8 a -> u8 (Z.shiftr a k).
Proof.
  intros Hk [H1 H2]. split; [by apply Z.shiftr_nonneg|].
  rewrite Z.shiftr_div_pow2 by done. eapply Z.le_lt_trans; [|exact H2].
  apply Z.div_le_upper_bound; [apply Z.pow_pos_nonneg; lia|].
  pose proof (Z.pow_pos_nonneg 2 k). nia.
Qed.
Lemma land_u8 a b : u8 a -> 0 <= b -> u8 (Z.land a b).
Proof.
  intros Ha Hb. apply in_width_testbit; [lia| |].
  - apply Z.land_nonneg. by right.
  - intros i Hi. by rewrite Z.land_spec, (testbit_above 8 a) by (done || lia).
Qed.
Lemma zero_u8 : u8 0. Proof. vm_compute. intuition congruence. Qed.

#[local] Hint Resolve lor_u8 shl8_u8 shiftr_u8 land_u8 zero_u8 : width.

(** The eight indices determine the five bytes. *)
Lemma dequintets_quintets b0 b1 b2 b3 b4 :
  u8 b0 -> u8 b1 -> u8 b2 -> u8 b3 -> u8 b4 ->
  dequintets (quintets [b0; b1; b2; b3; b4]) = [b0; b1; b2; b3; b4].
Proof.
  intros. unfold dequintets, quintets, at_. cbn [nth].
  repeat (apply cons_congr; [apply u8_eq_bits; [unfold shl8; auto 20 with width|done|];
    intros i Hi; cbn in Hi; repeat destruct Hi as [<-|Hi]; [by byte_bits..|done]|]).
  done.
Qed.

(** ** Lemmas: symbols *)

Lemma u5_of_bits a :
  u8 a -> (forall i, In i [5;6;7] -> Z.testbit a i = false) -> in_width 5 a.
Proof.
  intros Ha H. apply in_width_testbit; [lia|unfold in_width in Ha; lia|].
  intros i Hi. destruct (Z_lt_le_dec i 8).
  - apply H. cbn. lia.
  - by apply (testbit_above 8).
Qed.

Lemma quintets_u5 b0 b1 b2 b3 b4 :
  u8 b0 -> u8 b1 -> u8 b2 -> u8 b3 -> u8 b4 ->
  Forall (in_width 5) (quintets [b0; b1; b2; b3; b4]).
Proof.
  intros. unfold quintets, at_. cbn [nth].
  repeat constructor; (apply u5_of_bits; [auto 20 with width|]);
    (intros i Hi; cbn in Hi; repeat destruct Hi as [<-|Hi]; [by byte_bits..|done]).
Qed.

Lemma inv_char_alphabet q : in_width 5 q -> inv_char (at_ ALPHABET (Z.to_nat q)) = Some q.
Proof.
  intros Hq.
  assert (Hall : forallb (fun q => bool_decide (inv_char (at_ ALPHABET (Z.to_nat q)) = Some q))
                   (seqZ 0 32) = true) by (vm_compute; done).
  rewrite forallb_forall in Hall. specialize (Hall q).
  rewrite <- list_elem_of_In, elem_of_seqZ in Hall.
  eapply bool_decide_eq_true, Hall. unfold in_width in Hq. change (2 ^ 5) with 32 in Hq. lia.
Qed.

Lemma mapM_inv_alphabet qs :
  Forall (in_width 5) qs -> mapM inv_char ((fun q => at_ ALPHABET (Z.to_nat q)) <$> qs) = Some qs.
Proof.
  induction 1 as [|q qs Hq _ IH]; [done|].
  apply mapM_Some_2. rewrite fmap_cons. constructor; [by apply inv_char_alphabet|].
  by apply mapM_Some_1.
Qed.

Lemma chunks_aux_fuel {A} f n (l : list A) :
  (0 < n)%nat -> (length l <= f)%nat -> chunks_aux f n l = chunks n l.
Proof.
  intros Hn. unfold chunks. revert l.
  assert (Haux : forall f g (l : list A), (length l <= f)%nat -> (length l <= g)%nat ->
            chunks_aux f n l = chunks_aux g n l).
  { clear f. induction f as [|f IH]; intros [|g] l Hf Hg; destruct l as [|x l]; cbn [length] in *;
      try done; try lia.
    cbn [chunks_aux]. f_equal. apply IH; rewrite length_drop; cbn [length]; lia. }
  intros l Hl. by apply Haux.
Qed.

Lemma chunks_cons {A} n (a b : list A) :
  (0 < n)%nat -> length a = n -> chunks n (a ++ b) = a :: chunks n b.
Proof.
  intros Hn Ha. destruct a as [|x a]; [cbn in Ha; lia|].
  unfold chunks at 1. cbn [app length chunks_aux].
  change (x :: a ++ b) with ((x :: a) ++ b).
  rewrite take_app_length', drop_app_length' by done. f_equal.
  apply chunks_aux_fuel; [done|]. rewrite length_app. lia.
Qed.

(** Padding bytes that follow the data decode to zeros. *)
Definition decodes_to (symbols data : bytes) : Prop :=
  exists pad, decode_chunks (chunks 8 symbols) = Some (data ++ pad) /\ Forall (eq 0) pad.

Lemma decode_chunk_symbols qs :
  Forall (in_width 5) qs ->
  decode_chunk ((fun q => at_ ALPHABET (Z.to_nat q)) <$> qs) = Some (dequintets (padded 8 qs)).
Proof. intros H. unfold decode_chunk. by rewrite mapM_inv_alphabet. Qed.

Lemma encode_chunk_full b0 b1 b2 b3 b4 rest symbols data :
  u8 b0 -> u8 b1 -> u8 b2 -> u8 b3 -> u8 b4 ->
  rest = symbols -> decodes_to symbols data ->
  decodes_to (encode_chunk [b0; b1; b2; b3; b4] ++ rest) ([b0; b1; b2; b3; b4] ++ data).
Proof.
  intros ????? -> (pad & Hd & Hp). exists pad. split; [|done].
  rewrite chunks_cons by (done || lia). cbn [decode_chunks]. unfold encode_chunk.
  rewrite decode_chunk_symbols by (by apply quintets_u5).
  change (padded 8 (quintets (padded 5 [b0; b1; b2; b3; b4]))) with (quintets [b0; b1; b2; b3; b4]).
  rewrite dequintets_quintets by done. cbn [mbind option_bind]. by rewrite Hd.
Qed.

(** The last, partial chunk: the symbols that are dropped only carry padding. *)
Lemma encode_chunk_partial (data : bytes) :
  all_u8 data -> (0 < length data < 5)%nat ->
  decodes_to (take ((length data * 8 + 4) / 5) (encode_chunk data)) data.
Proof.
  intros Hd Hlen.
  unfold encode_chunk. rewrite <- fmap_take.
  destruct data as [|b0 [|b1 [|b2 [|b3 [|]]]]]; cbn [length] in Hlen; try lia;
    repeat match goal with H : Forall _ (_ :: _) |- _ => inversion_clear H end;
    [exists (replicate 4 0)|exists (replicate 3 0)|exists (replicate 2 0)|exists (replicate 1 0)];
    (split; [|by apply Forall_replicate]);
    match goal with |- context [take (?n / 5) _] =>
      let v := eval vm_compute in (n / 5)%nat in change (n / 5)%nat with v end;
    match goal with |- decode_chunks (chunks 8 (_ <$> ?qs)) = _ =>
      assert (Hqs : Forall (in_width 5) qs) by (apply Forall_take; apply quintets_u5; auto with width)
    end;
    match goal with |- decode_chunks (chunks 8 ?l) = _ =>
      change (chunks 8 l) with [l] end;
    cbn [decode_chunks]; rewrite decode_chunk_symbols by done; cbn [mbind option_bind];
    rewrite (right_id_L [] (++)); f_equal;
    unfold dequintets, padded, quintets, at_; cbn [app take replicate nth];
    repeat (apply cons_congr; [apply u8_eq_bits; [unfold shl8; auto 20 with width|auto with width|];
      intros i Hi; cbn in Hi; repeat destruct Hi as [<-|Hi]; [by byte_bits..|done]|]); done.
Qed.

Lemma encode_bytes_full b0 b1 b2 b3 b4 data :
  encode_bytes (b0 :: b1 :: b2 :: b3 :: b4 :: data) =
  encode_chunk [b0; b1; b2; b3; b4] ++ encode_bytes data.
Proof.
  unfold encode_bytes.
  change (b0 :: b1 :: b2 :: b3 :: b4 :: data) with ([b0; b1; b2; b3; b4] ++ data).
  rewrite chunks_cons by (done || lia). rewrite fmap_cons. cbn [concat].
  replace ((length ([b0; b1; b2; b3; b4] ++ data) * 8 + 4) / 5)%nat
    with (length (encode_chunk [b0; b1; b2; b3; b4]) + (length data * 8 + 4) / 5)%nat.
  - by rewrite take_app_add.
  - rewrite length_app. change (length (encode_chunk _)) with 8%nat. cbn [length].
    replace ((5 + length data) * 8 + 4)%nat with (length data * 8 + 4 + 8 * 5)%nat by lia.
    rewrite Nat.div_add by lia. lia.
Qed.

Lemma encode_bytes_decodes n data :
  (length data <= n)%nat -> all_u8 data -> decodes_to (encode_bytes data) data.
Proof.
  revert data. induction n as [|n IH]; intros data Hn Hd.
  { destruct data; [|cbn in Hn; lia]. by exists []. }
  destruct (decide (length data < 5)%nat) as [Hlt|Hge].
  - destruct data as [|b data]; [by exists []|].
    pose proof (encode_chunk_partial (b :: data) Hd ltac:(cbn [length] in *; lia)) as H.
    unfold encode_bytes.
    replace (concat (encode_chunk <$> chunks 5 (b :: data))) with (encode_chunk (b :: data)); [done|].
    unfold chunks. cbn [length chunks_aux]. rewrite take_ge by lia. rewrite drop_ge by lia.
    rewrite fmap_cons. destruct (length data); cbn [chunks_aux fmap list_fmap concat];
      by rewrite (right_id_L [] (++)).
  - destruct data as [|b0 [|b1 [|b2 [|b3 [|b4 data]]]]]; cbn [length] in *; try lia.
    repeat match goal with H : Forall _ (_ :: _) |- _ => inversion_clear H end.
    rewrite encode_bytes_full. eapply encode_chunk_full; [done..|].
    apply IH; [lia|done].
Qed.

Lemma encode_bytes_length data : length (encode_bytes data) = ((length data * 8 + 4) / 5)%nat.
Proof.
  remember (length data) as n eqn:Hn. revert data Hn.
  induction n as [n IH] using lt_wf_ind. intros data ->.
  destruct (decide (length data < 5)%nat) as [Hlt|Hge].
  - destruct data as [|b0 [|b1 [|b2 [|b3 [|]]]]]; cbn [length] in *; done || lia.
  - destruct data as [|b0 [|b1 [|b2 [|b3 [|b4 data]]]]]; cbn [length] in *; try lia.
    rewrite encode_bytes_full, length_app, (IH (length data)) by (done || lia).
    change (length (encode_chunk _)) with 8%nat.
    replace (S (S (S (S (S (length data))))) * 8 + 4)%nat
      with (length data * 8 + 4 + 8 * 5)%nat by lia.
    rewrite Nat.div_add by lia. lia.
Qed.

Lemma alphabet_ascii i : 0 <= at_ ALPHABET i < 128.
Proof.
  assert (H : Forall (fun c => 0 <= c < 128) ALPHABET) by by_decide.
  unfold at_. destruct (nth_in_or_default i ALPHABET 0) as [Hin|E]; [|rewrite E; lia].
  rewrite Forall_forall in H. apply H. by apply list_elem_of_In.
Qed.

Lemma encode_bytes_ascii data : Forall (fun c => 0 <= c < 128) (encode_bytes data).
Proof.
  unfold encode_bytes. apply Forall_take. apply Forall_concat. apply Forall_fmap.
  apply Forall_true. intros chunk. unfold compose, encode_chunk. apply Forall_fmap.
  apply Forall_true. intros q. apply alphabet_ascii.
Qed.

Lemma bytes_of_string_of_bytes bs :
  Forall (fun c => 0 <= c < 128) bs ->
  bytes_of (string_of_bytes bs) = bs /\ is_ascii (string_of_bytes bs) = true.
Proof.
  induction 1 as [|b bs Hb _ [IH1 IH2]]; [done|].
  assert (Hb8 : byte_of (ascii_of b) = b).
  { apply byte_of_ascii_of. unfold in_width. change (2 ^ 8) with 256. lia. }
  unfold string_of_bytes in *. rewrite fmap_cons. cbn [string_of_list_ascii is_ascii].
  rewrite bytes_of_cons, IH1, IH2, Hb8. split; [done|]. lia.
Qed.

(** ** Properties *)

(** Decoding an encoded byte string gives it back. *)
Theorem decode_encode (data : bytes) : all_u8 data -> decode (encode data) = Ok data.
Proof.
  intros Hd. unfold decode, encode.
  destruct (bytes_of_string_of_bytes _ (encode_bytes_ascii data)) as [-> ->].
  cbn [negb]. rewrite encode_bytes_length.
  set (n := length data).
  assert (Hout : (((n * 8 + 4) / 5 * 5 / 8) = n)%nat).
  { pose proof (Nat.div_mod_eq (n * 8 + 4) 5). pose proof (Nat.mod_upper_bound (n * 8 + 4) 5).
    symmetry. apply (Nat.div_unique _ _ _ ((n * 8 + 4) / 5 * 5 - 8 * n)); lia. }
  rewrite Hout, Nat.ltb_irrefl.
  destruct (encode_bytes_decodes n data ltac:(unfold n; lia) Hd) as (pad & -> & Hpad).
  rewrite drop_app_length', take_app_length' by done.
  replace (forallb _ pad) with true; [done|]. symmetry. apply forallb_forall. intros x Hx.
  rewrite Forall_forall in Hpad. apply Z.eqb_eq. symmetry. apply Hpad. by apply list_elem_of_In.
Qed.

Lemma decode_encode_witness : decode (encode [0; 255; 18; 7; 200; 1]) = Ok [0; 255; 18; 7; 200; 1].
Proof. apply decode_encode. by_decide. Defined.

Example encode_test_vector : encode [0xd4; 0x7a; 0x04] = "4t7ye".
Proof. vm_compute. reflexivity. Qed.
