(* ===== verification/Fs.v ===== *)
(** * Fs: the part of the file system the program relies on

    A file is named by its directory and its name in it.  A file that was written
    and not yet synced may lose its contents when the machine stops, so each file
    carries whether it is [synced].  Every operation consumes one event of a
    schedule: it can succeed as POSIX says, fail with an [io::Error] (a write may
    then have written a prefix), or be the point where the machine stops. *)

From S2P Require Import Prelude Text Bytes.

Local Open Scope Z_scope.

Inductive ErrorKind := InvalidData | InvalidInput | Other | PermissionDenied.

(** [std::io::Error]: an error of the operating system has no inner error, a
    custom one has. *)
Inductive io_error :=
| OsError (what : string)
| Custom (kind : ErrorKind) (msg : string).

Definition into_inner (e : io_error) : option string :=
  match e with OsError _ => None | Custom _ msg => Some msg end.

Record file := File { content : bytes; synced : bool }.

Abbreviation path := (string * string)%type.

Record disk := Disk { files : gmap path file; dirs : gset string }.

Inductive event := Go | FailAt (k : nat) | CrashAt (k : nat).

Record world := World { on_disk : disk; schedule : list event }.

Abbreviation io A := (prog world (result A io_error)).

(** Run one operation: [f] is its effect when it succeeds, [partial k] what an
    interrupted run leaves behind. *)
Definition io_op {A} (partial : nat -> disk -> disk)
    (f : disk -> result (A * disk) io_error) : io A :=
  fun w =>
    match schedule w with
    | CrashAt k :: s => (Panic "power loss", World (partial k (on_disk w)) s)
    | FailAt k :: s => (Ret (Err (OsError "io")), World (partial k (on_disk w)) s)
    | Go :: s | s =>
        match f (on_disk w) with
        | Ok (a, d) => (Ret (Ok a), World d s)
        | Err e => (Ret (Err e), World (on_disk w) s)
        end
    end.

Definition no_effect (_ : nat) (d : disk) : disk := d.

Definition set_files (f : gmap path file -> gmap path file) (d : disk) : disk :=
  Disk (f (files d)) (dirs d).

Definition create_dir_all (p : string) : io unit :=
  io_op no_effect (fun d => Ok (tt, Disk (files d) ({[p]} ∪ dirs d))).

Definition create_dir (p : string) : io unit :=
  io_op no_effect (fun d =>
    if decide (p ∈ dirs d) then Err (OsError "File exists")
    else Ok (tt, Disk (files d) ({[p]} ∪ dirs d))).

Definition remove_dir_all (p : string) : io unit :=
  io_op no_effect (fun d =>
    if decide (p ∈ dirs d)
    then Ok (tt, Disk (filter (fun kv => kv.1.1 <> p) (files d)) (dirs d ∖ {[p]}))
    else Err (OsError "No such file or directory")).

(** [File::create]: truncates. *)
Definition file_create (p : path) : io unit :=
  io_op no_effect (fun d =>
    if decide (p.1 ∈ dirs d) then Ok (tt, set_files <[p := File [] false]> d)
    else Err (OsError "No such file or directory")).

(** [write_all] to a file that was just created. *)
Definition file_write (p : path) (data : bytes) : io unit :=
  io_op (fun k => set_files <[p := File (take k data) false]>)
    (fun d => Ok (tt, set_files <[p := File data false]> d)).

Definition sync_all (p : path) : io unit :=
  io_op no_effect (fun d =>
    Ok (tt, set_files (alter (fun f => File (content f) true) p) d)).

Definition rename (p q : path) : io unit :=
  io_op no_effect (fun d =>
    match files d !! p with
    | Some f => Ok (tt, set_files (fun m => <[q := f]> (delete p m)) d)
    | None => Err (OsError "No such file or directory")
    end).

Definition open_dir (p : string) : io unit :=
  io_op no_effect (fun d =>
    if decide (p ∈ dirs d) then Ok (tt, d) else Err (OsError "No such file or directory")).

Definition remove_file (p : path) : io unit :=
  io_op no_effect (fun d =>
    match files d !! p with
    | Some _ => Ok (tt, set_files (delete p) d)
    | None => Err (OsError "No such file or directory")
    end).

Definition file_read (p : path) : io bytes :=
  io_op no_effect (fun d =>
    match files d !! p with
    | Some f => Ok (content f, d)
    | None => Err (OsError "No such file or directory")
    end).

(** [OpenOptions::new().write(true).create(true)]: does not truncate. *)
Definition open_write (p : path) : io unit :=
  io_op no_effect (fun d =>
    match files d !! p with
    | Some _ => Ok (tt, d)
    | None => Ok (tt, set_files <[p := File [] false]> d)
    end).

(** Writing at an offset of a file that was opened without truncation. *)
Definition write_at (off : nat) (p : path) (data : bytes) : io unit :=
  let over old k := take off old ++ take k data ++ drop (off + k) old in
  let upd k d :=
    set_files <[p := File (over (match files d !! p with Some f => content f | None => [] end) k)
                          false]> d in
  io_op (fun k => upd (Nat.min k (length data))) (fun d => Ok (tt, upd (length data) d)).

(** Serializing through a [BufWriter]: the writer hands on what overflows its buffer
    while serializing, and these errors are reported; the rest is flushed when the
    writer is dropped, where errors are ignored.  [flush_point] is where that rest
    begins. *)
Definition buffered_write (flush_point : bytes -> nat) (p : path) (data : bytes) : io unit :=
  let? _ := write_at 0 p (take (flush_point data) data) in
  _ ← write_at (flush_point data) p (drop (flush_point data) data);
  mret (Ok tt).

(** [OpenOptions::new().create(true).append(true)] then [write_all]. *)
Definition append (p : path) (data : bytes) : io unit :=
  let upd k d :=
    set_files <[p := File (match files d !! p with Some f => content f | None => [] end
                           ++ take k data) false]> d in
  io_op upd (fun d => Ok (tt, upd (length data) d)).

(** [read_dir]: the names in a directory.  The order the system lists them in is
    unspecified; [order] is that order. *)
Definition dir_names (p : string) (d : disk) : list string :=
  omap (fun kv => if decide (kv.1.1 = p) then Some kv.1.2 else None) (map_to_list (files d)).

(** What can be found at a path after the machine stopped: the contents of a
    synced file are there; an unsynced one may hold anything, or be missing. *)
Inductive survives (d : disk) (p : path) : option bytes -> Prop :=
| survives_absent : files d !! p = None -> survives d p None
| survives_synced f : files d !! p = Some f -> synced f = true -> survives d p (Some (content f))
| survives_unsynced f o : files d !! p = Some f -> synced f = false -> survives d p o.

(** ** Lemmas *)

Lemma io_op_inv {A} partial (f : disk -> result (A * disk) io_error) w o w' :
  io_op partial f w = (o, w') ->
  (exists k, on_disk w' = partial k (on_disk w) /\ forall a, o <> Ret (Ok a)) \/
  match f (on_disk w) with
  | Ok (a, d) => on_disk w' = d /\ o = Ret (Ok a)
  | Err e => on_disk w' = on_disk w /\ o = Ret (Err e)
  end.
Proof.
  unfold io_op. intros H.
  destruct (schedule w) as [|[|k|k] s].
  1,2: right; destruct (f (on_disk w)) as [[a d]|e] eqn:E; by simplify_eq.
  all: simplify_eq; left; exists k; done.
Qed.

Lemma io_op_ok {A} partial (f : disk -> result (A * disk) io_error) d :
  io_op partial f (World d []) =
  match f d with
  | Ok (a, d') => (Ret (Ok a), World d' [])
  | Err e => (Ret (Err e), World d [])
  end.
Proof. done. Qed.

(** What each operation can do to the files, whatever the schedule. *)
Ltac op_cases H :=
  let k := fresh "k" in let E := fresh "E" in let Ho := fresh "Ho" in
  apply io_op_inv in H as [(k & E & Ho)|H];
  [|repeat match type of H with
    | context [match decide ?P with _ => _ end] => destruct (decide P)
    | context [match ?d !! ?p with _ => _ end] => destruct (d !! p) eqn:?
    end; destruct H as [E Ho]]; rewrite E; unfold no_effect, set_files; cbn [files].

Lemma create_dir_all_files p w o w' :
  create_dir_all p w = (o, w') -> files (on_disk w') = files (on_disk w).
Proof. intros H. by op_cases H. Qed.

Lemma open_dir_files p w o w' :
  open_dir p w = (o, w') -> files (on_disk w') = files (on_disk w).
Proof. intros H. by op_cases H. Qed.

Lemma file_create_files p w o w' q :
  file_create p w = (o, w') -> q <> p -> files (on_disk w') !! q = files (on_disk w) !! q.
Proof. intros H Hq. op_cases H; [done| |done]. by rewrite lookup_insert_ne. Qed.

Lemma file_write_files p data w o w' :
  file_write p data w = (o, w') ->
  (forall q, q <> p -> files (on_disk w') !! q = files (on_disk w) !! q) /\
  (forall a, o = Ret (Ok a) -> files (on_disk w') !! p = Some (File data false)).
Proof.
  intros H. op_cases H; (split; [intros; by rewrite lookup_insert_ne|]).
  - intros a ->. by destruct (Ho a).
  - intros. by rewrite lookup_insert_eq.
Qed.

Lemma sync_all_files p w o w' :
  sync_all p w = (o, w') ->
  (forall q, q <> p -> files (on_disk w') !! q = files (on_disk w) !! q) /\
  (forall a f, o = Ret (Ok a) -> files (on_disk w) !! p = Some f ->
     files (on_disk w') !! p = Some (File (content f) true)).
Proof.
  intros H. op_cases H; (split; [intros; try done; by rewrite lookup_alter_ne|]).
  - intros a f ->. by destruct (Ho a).
  - intros a f _ Hf. by rewrite lookup_alter_eq, Hf.
Qed.

Lemma rename_files p q w o w' :
  rename p q w = (o, w') ->
  (files (on_disk w') = files (on_disk w) /\ forall a, o <> Ret (Ok a)) \/
  (exists f, files (on_disk w) !! p = Some f /\
     files (on_disk w') = <[q := f]> (delete p (files (on_disk w))) /\ o = Ret (Ok tt)).
Proof.
  intros H. op_cases H.
  - left. done.
  - right. eexists. split; [done|]. by simplify_eq.
  - left. split; [done|]. intros a. by rewrite Ho.
Qed.

(** ** Directory listings *)

Lemma elem_of_dir_names p d n : n ∈ dir_names p d <-> is_Some (files d !! (p, n)).
Proof.
  unfold dir_names. rewrite list_elem_of_omap. split.
  - intros ([[q m] f] & Hin & Hd). cbn in Hd. case_decide; [|done]. simplify_eq.
    apply elem_of_map_to_list in Hin. by eexists.
  - intros [f Hf]. exists ((p, n), f). split; [by apply elem_of_map_to_list|]. cbn.
    by rewrite decide_True.
Qed.

Lemma NoDup_dir_names p d : NoDup (dir_names p d).
Proof.
  unfold dir_names. pose proof (NoDup_fst_map_to_list (files d)) as H.
  induction (map_to_list (files d)) as [|[[q m] f] l IH]; [constructor|].
  rewrite fmap_cons in H. apply NoDup_cons in H as [Hnot Hnd]. cbn in *.
  case_decide; [|by apply IH]. apply NoDup_cons. split; [|by apply IH].
  rewrite list_elem_of_omap. intros ([[q' m'] f'] & Hin & Hd). cbn in Hd.
  case_decide; [|done]. simplify_eq. apply Hnot. apply list_elem_of_fmap.
  by exists ((p, m), f').
Qed.

(** Without faults a fresh file holds what was written through the buffer. *)
Lemma buffered_write_fresh flush_point p data d b :
  files d !! p = Some (File [] b) ->
  exists d', buffered_write flush_point p data (World d []) = (Ret (Ok tt), World d' []) /\
    files d' = <[p := File data false]> (files d) /\ dirs d' = dirs d.
Proof.
  intros Hp. set (n := flush_point data). eexists. split; [|split].
  - unfold buffered_write. fold n.
    erewrite bind_ok_Ok by reflexivity. erewrite prog_bind_Ret by reflexivity. reflexivity.
  - cbn [files set_files on_disk]. rewrite lookup_insert_eq, insert_insert_eq, Hp.
    cbn [content take Datatypes.app]. rewrite skipn_nil, List.app_nil_r.
    rewrite (take_ge (take n data)), (take_ge (drop n data)) by done.
    rewrite take_take, Nat.min_id, (drop_ge (take n data)) by (rewrite length_take, length_drop; lia).
    by rewrite List.app_nil_r, take_drop.
  - done.
Qed.
