(* ===== verification/Disk.v ===== *)
(** * Disk: src/disk.rs, the persisters and the start-up recovery

    [write_to_file] (write, sync, rename), [YourPersister] (full monitors in
    [monitors/], single updates in [updates/]), the reading back of both at
    start-up ([FilesystemPersister::read_channelmonitors] of
    rust-lightning/lightning-persister and [read_channelmonitor_updates]), the
    re-application of the updates in [start_ldk].  The rest of src/disk.rs (the
    channel-peer file, the network graph and scorer files, the log) is in Peers.v.

    A channel monitor is abstract: the class [MonitorApi] states what the persister
    relies on, [update_monitor]'s guard on update ids being that of
    rust-lightning/lightning/src/chain/channelmonitor.rs. *)

From S2P Require Import Prelude Text HexUtils Bytes Fs.

Local Open Scope Z_scope.

(** ** Interfaces *)

(** Transaction ids and their hexadecimal form (the bitcoin crate's [Txid]). *)
Class TxidApi (Txid : Type) := {
  txid_eq_dec :: EqDecision Txid;
  txid_countable :: Countable Txid;
  txid_to_hex : Txid -> string;
  txid_from_hex : string -> option Txid;
}.

(** [Txid::from_hex] parses 64 digits and is inverse to [to_hex]. *)
Class TxidLaws (Txid : Type) `{TxidApi Txid} := {
  txid_from_to : forall t, txid_from_hex (txid_to_hex t) = Some t;
  txid_hex_len : forall t, len (txid_to_hex t) = 64;
  txid_hex_ascii : forall t, is_ascii (txid_to_hex t) = true;
  txid_hex_digits : forall t c, hex_nibble (byte_of c) = None -> no_char c (txid_to_hex t) = true;
  txid_from_len : forall s t, txid_from_hex s = Some t -> len s = 64;
}.

Record OutPoint (Txid : Type) := mkOutPoint { op_txid : Txid; op_index : Z }.
Arguments mkOutPoint {Txid} _ _.
Arguments op_txid {Txid} _.
Arguments op_index {Txid} _.

Definition CLOSED_CHANNEL_UPDATE_ID : Z := U64_MAX.

Class MonitorApi (Txid Monitor Update : Type) := {
  get_funding_txo : Monitor -> OutPoint Txid;
  get_latest_update_id : Monitor -> Z;
  update_id : Update -> Z;
  update_monitor : Monitor -> Update -> outcome (result unit unit * Monitor);
  write_monitor : Monitor -> bytes;
  read_monitor : bytes -> option Monitor;
  write_update : Update -> bytes;
  read_update : bytes -> option Update;
}.

Class MonitorLaws (Txid Monitor Update : Type) `{MonitorApi Txid Monitor Update} := {
  read_write_monitor : forall m, read_monitor (write_monitor m) = Some m;
  read_write_update : forall u, read_update (write_update u) = Some u;
  update_id_u64 : forall u, u64 (update_id u);
  update_keeps_txo : forall m u r m',
    update_monitor m u = Ret (r, m') -> get_funding_txo m' = get_funding_txo m;
  update_sets_id : forall m u r m',
    update_monitor m u = Ret (r, m') -> get_latest_update_id m' = update_id u;
  update_out_of_order : forall m u,
    update_id u <> CLOSED_CHANNEL_UPDATE_ID ->
    update_id u <> get_latest_update_id m + 1 ->
    exists why, update_monitor m u = Panic why;
}.

(** ** Writing *)

(** [unwrap] on an [io::Result]. *)
Definition unwrap_io {A} (m : io A) : prog world A :=
  r ← m; match r with Ok a => mret a | Err _ => panic "unwrap on io::Error" end.

(** src/disk.rs [write_to_file]. *)
Definition write_to_file (path : string) (filename : string) (data : bytes) : io unit :=
  let? _ := create_dir_all path in
  let filename_with_path := (path, filename) in
  let tmp_filename := (path, filename +:+ ".tmp") in
  let? _ := file_create tmp_filename in
  let? _ := file_write tmp_filename data in
  let? _ := sync_all tmp_filename in
  let? _ := rename tmp_filename filename_with_path in
  let? _ := open_dir path in
  mret (Ok tt).

Section Persister.
Context {Txid Monitor Update : Type} `{!TxidApi Txid} `{!MonitorApi Txid Monitor Update}.

Inductive ChannelMonitorUpdateErr := TemporaryFailure | PermanentFailure.

(** The other field of the source, [chan_update_cache], is created empty and the only
    operation on it anywhere is the [remove] of [update_persisted_channel], so it is
    always empty and is left out. *)
Record YourPersister := mkPersister { path_to_channel_data : string }.

Definition path_to_monitor_data (p : YourPersister) : string :=
  path_to_channel_data p +:+ "/monitors".
Definition path_to_monitor_data_updates (p : YourPersister) : string :=
  path_to_channel_data p +:+ "/updates".

Definition monitor_file (id : OutPoint Txid) : string :=
  txid_to_hex (op_txid id) +:+ "_" +:+ to_string (op_index id).
Definition update_file (id : OutPoint Txid) (uid : Z) : string :=
  txid_to_hex (op_txid id) +:+ "_" +:+ to_string (op_index id) +:+ "_" +:+ to_string uid.

(** "anytime monitor data is written, delete the update dir" *)
Definition clear_updates (p : YourPersister) : prog world unit :=
  _ ← unwrap_io (create_dir_all (path_to_monitor_data_updates p));
  _ ← unwrap_io (remove_dir_all (path_to_monitor_data_updates p));
  unwrap_io (create_dir (path_to_monitor_data_updates p)).

Definition persist_new_channel (p : YourPersister) (funding_txo : OutPoint Txid)
    (monitor : Monitor) : prog world (result unit ChannelMonitorUpdateErr) :=
  write_res ← write_to_file (path_to_monitor_data p) (monitor_file funding_txo) (write_monitor monitor);
  match write_res with
  | Err _ => mret (Err PermanentFailure)
  | Ok _ => _ ← clear_updates p; mret (Ok tt)
  end.

Definition update_persisted_channel (p : YourPersister) (id : OutPoint Txid)
    (update : option Update) (data : Monitor) : prog world (result unit ChannelMonitorUpdateErr) :=
  match update with
  | Some u =>
      _ ← unwrap_io (create_dir_all (path_to_monitor_data_updates p));
      _ ← unwrap_io (write_to_file (path_to_monitor_data_updates p)
                       (update_file id (update_id u)) (write_update u));
      mret (Ok tt)
  | None =>
      _ ← unwrap_io (write_to_file (path_to_monitor_data p) (monitor_file id) (write_monitor data));
      _ ← clear_updates p;
      mret (Ok tt)
  end.

(** ** Reading back *)

(** The order in which [read_dir] lists a directory. *)
Context (order : list string -> list string).

Definition read_dir (p : string) : prog world (list string) :=
  unwrap_io (io_op no_effect (fun d => Ok (order (dir_names p d), d))).

Definition dir_exists (p : string) : prog world bool :=
  gets (fun w => bool_decide (p ∈ dirs (on_disk w))).

Definition bad_name (filename : string) : bool := negb (is_ascii filename) || (len filename <? 65).

(** One iteration of the loop of [read_channelmonitor_updates]. *)
Definition read_update_file (dir filename : string) (acc : gmap Txid (list Update)) :
    io (gmap Txid (list Update)) :=
  if bad_name filename then mret (Err (Custom InvalidData "Invalid ChannelMonitor file name"))
  else if ends_with filename ".tmp" then mret (Ok acc)
  else
    let filename_vec := split_on "_" filename in
    name0 ← lift (unwrap "index out of bounds" (filename_vec !! 0%nat));
    match txid_from_hex name0 with
    | None => mret (Err (Custom InvalidData "Invalid tx ID in filename"))
    | Some txid =>
        name1 ← lift (unwrap "index out of bounds" (filename_vec !! 1%nat));
        match parse_u16 name1 with
        | None => mret (Err (Custom InvalidData "Invalid tx index in filename"))
        | Some _ =>
            let? contents := file_read (dir, filename) in
            match read_update contents with
            | Some u => mret (Ok (<[txid := default [] (acc !! txid) ++ [u]]> acc))
            | None => mret (Err (Custom InvalidData "Failed to deserialize ChannelMonitorUpdate"))
            end
        end
    end.

Fixpoint read_update_files (dir : string) (names : list string) (acc : gmap Txid (list Update)) :
    io (gmap Txid (list Update)) :=
  match names with
  | [] => mret (Ok acc)
  | n :: names' => let? acc' := read_update_file dir n acc in read_update_files dir names' acc'
  end.

Definition read_channelmonitor_updates (p : YourPersister) : io (gmap Txid (list Update)) :=
  ex ← dir_exists (path_to_monitor_data_updates p);
  if (ex : bool) then
    names ← read_dir (path_to_monitor_data_updates p);
    read_update_files (path_to_monitor_data_updates p) names ∅
  else mret (Ok ∅).

(** rust-lightning/lightning-persister/src/lib.rs. *)
Definition read_monitor_file (dir filename : string) : io (option Monitor) :=
  if bad_name filename then mret (Err (Custom InvalidData "Invalid ChannelMonitor file name"))
  else if ends_with filename ".tmp" then mret (Ok None)
  else
    match txid_from_hex (String.substring 0 64 filename) with
    | None => mret (Err (Custom InvalidData "Invalid tx ID in filename"))
    | Some txid =>
        match parse_u16 (String.substring 65 (String.length filename - 65) filename) with
        | None => mret (Err (Custom InvalidData "Invalid tx index in filename"))
        | Some index =>
            let? contents := file_read (dir, filename) in
            match read_monitor contents with
            | Some m =>
                if decide (op_txid (get_funding_txo m) = txid)
                then if op_index (get_funding_txo m) =? index then mret (Ok (Some m))
                     else mret (Err (Custom InvalidData "ChannelMonitor was stored in the wrong file"))
                else mret (Err (Custom InvalidData "ChannelMonitor was stored in the wrong file"))
            | None => mret (Err (Custom InvalidData "Failed to deserialize ChannelMonitor"))
            end
        end
    end.

Fixpoint read_monitor_files (dir : string) (names : list string) (res : list Monitor) :
    io (list Monitor) :=
  match names with
  | [] => mret (Ok res)
  | n :: names' =>
      let? m := read_monitor_file dir n in
      read_monitor_files dir names' (match m with Some m => res ++ [m] | None => res end)
  end.

Definition read_channelmonitors (path_to_channel_data : string) : io (list Monitor) :=
  let path := path_to_channel_data +:+ "/monitors" in
  ex ← dir_exists path;
  if (ex : bool) then names ← read_dir path; read_monitor_files path names []
  else mret (Ok []).

(** ** Start-up: src/main.rs [start_ldk], step 7 *)

(** Apply sorted updates; an error makes [start_ldk] return ([None]). *)
Fixpoint apply_updates (m : Monitor) (us : list Update) : outcome (option Monitor) :=
  match us with
  | [] => Ret (Some m)
  | u :: us' =>
      '(r, m') ← update_monitor m u;
      match r with Ok _ => apply_updates m' us' | Err _ => Ret None end
  end.

Fixpoint apply_all_updates (updates : gmap Txid (list Update)) (ms : list Monitor) :
    outcome (option (list Monitor)) :=
  match ms with
  | [] => Ret (Some [])
  | m :: ms' =>
      r ← match updates !! op_txid (get_funding_txo m) with
          | Some us => apply_updates m (sort_by update_id us)
          | None => Ret (Some m)
          end;
      match r with
      | None => Ret None
      | Some m' =>
          rest ← apply_all_updates updates ms';
          Ret (match rest with Some ms'' => Some (m' :: ms'') | None => None end)
      end
  end.

Definition load_channelmonitors (p : YourPersister) : prog world (option (list Monitor)) :=
  ms ← unwrap_io (read_channelmonitors (path_to_channel_data p));
  us ← unwrap_io (read_channelmonitor_updates p);
  lift (apply_all_updates us ms).

End Persister.

(** ** Lemmas: write_to_file *)

Lemma tmp_ne (s : string) : s +:+ ".tmp" <> s.
Proof.
  intros H. apply (f_equal len) in H. rewrite len_app in H.
  change (len ".tmp") with 4 in H. lia.
Qed.

(** The effect of an uninterrupted write. *)
Definition written (path filename : string) (data : bytes) (d : disk) : disk :=
  Disk (<[(path, filename) := File data true]> (delete (path, filename +:+ ".tmp") (files d)))
       ({[path]} ∪ dirs d).

Lemma write_to_file_ok path filename data d :
  write_to_file path filename data (World d []) = (Ret (Ok tt), World (written path filename data d) []).
Proof.
  unfold write_to_file.
  erewrite bind_ok_Ok by (unfold create_dir_all; by rewrite io_op_ok).
  erewrite bind_ok_Ok by (unfold file_create; rewrite io_op_ok; cbn;
    rewrite decide_True by set_solver; done).
  erewrite bind_ok_Ok by (unfold file_write; by rewrite io_op_ok).
  erewrite bind_ok_Ok by (unfold sync_all; by rewrite io_op_ok).
  erewrite bind_ok_Ok by (unfold rename; rewrite io_op_ok; cbn;
    rewrite lookup_alter_eq, lookup_insert_eq; cbn; done).
  erewrite bind_ok_Ok by (unfold open_dir; rewrite io_op_ok; cbn;
    rewrite decide_True by set_solver; done).
  unfold mret, prog_ret, set_files, written. cbn. do 3 f_equal.
  apply map_eq. intros q.
  destruct (decide (q = (path, filename))) as [->|Hq].
  { by rewrite !lookup_insert_eq. }
  rewrite !lookup_insert_ne by done.
  destruct (decide (q = (path, filename +:+ ".tmp"))) as [->|Hq'].
  { by rewrite !lookup_delete_eq. }
  rewrite !lookup_delete_ne by done. rewrite lookup_alter_ne by done.
  by rewrite !lookup_insert_ne by done.
Qed.

(** What one operation can do to the file at [q]: the interrupted or failed runs
    included. *)
Lemma write_to_file_inv path filename data w o w' :
  write_to_file path filename data w = (o, w') ->
  let target := (path, filename) in
  let tmp := (path, filename +:+ ".tmp") in
  (forall q, q <> tmp -> q <> target -> files (on_disk w') !! q = files (on_disk w) !! q) /\
  (files (on_disk w') !! target = files (on_disk w) !! target \/
   files (on_disk w') !! target = Some (File data true)) /\
  (o = Ret (Ok tt) -> files (on_disk w') !! target = Some (File data true)).
Proof.
  intros H target tmp. assert (Hne : tmp <> target) by (intros [= E]; by apply tmp_ne in E).
  unfold write_to_file in H. fold target tmp in H.
  set (same w1 := forall q, q <> tmp -> files (on_disk w1) !! q = files (on_disk w) !! q).
  assert (Hdone : forall w1, same w1 -> o <> Ret (Ok tt) ->
    w1 = w' -> (forall q, q <> tmp -> q <> target -> files (on_disk w') !! q = files (on_disk w) !! q) /\
    (files (on_disk w') !! target = files (on_disk w) !! target \/
     files (on_disk w') !! target = Some (File data true)) /\
    (o = Ret (Ok tt) -> files (on_disk w') !! target = Some (File data true))).
  { intros w1 Hs Ho ->. split; [auto|]. split; [|done]. left. by apply Hs. }
  assert (Hc : forall w1 w2, same w1 -> (forall q, q <> tmp -> files (on_disk w2) !! q = files (on_disk w1) !! q) ->
     same w2) by (intros ?? H1 H2 q Hq; by rewrite H2, H1).
  apply bind_ok_inv in H as [(? & w1 & H1 & H)|(o1 & H1 & _ & Ho)];
    apply create_dir_all_files in H1 as F1; [|by apply (Hdone w'); [intros q _; by rewrite F1|..]].
  assert (S1 : same w1) by (intros q _; by rewrite F1).
  apply bind_ok_inv in H as [(? & w2 & H2 & H)|(o1 & H2 & _ & Ho)];
    pose proof (fun q => file_create_files _ _ _ _ q H2) as F2; [|by apply (Hdone w'); [by eapply Hc|..]].
  assert (S2 : same w2) by (by eapply Hc).
  apply bind_ok_inv in H as [(? & w3 & H3 & H)|(o1 & H3 & _ & Ho)];
    apply file_write_files in H3 as [F3 W3]; [|by apply (Hdone w'); [by eapply Hc|..]].
  assert (S3 : same w3) by (by eapply Hc).
  apply bind_ok_inv in H as [(? & w4 & H4 & H)|(o1 & H4 & _ & Ho)];
    apply sync_all_files in H4 as [F4 W4]; [|by apply (Hdone w'); [by eapply Hc|..]].
  assert (S4 : same w4) by (by eapply Hc).
  specialize (W4 _ _ eq_refl (W3 _ eq_refl)). cbn in W4.
  apply bind_ok_inv in H as [(? & w5 & H5 & H)|(o1 & H5 & Hn & Ho)];
    apply rename_files in H5 as [[F5 N5]|(f & P5 & F5 & E5)].
  { by destruct (N5 x3). }
  2: { apply (Hdone w'); [|done|done]. eapply Hc; [exact S4|]. intros q _. by rewrite F5. }
  2: { by destruct (Hn tt). }
  rewrite W4 in P5. injection P5 as <-.
  assert (H6 : files (on_disk w') = files (on_disk w5)).
  { apply bind_ok_inv in H as [(? & w6 & H6 & H)|(o1 & H6 & _ & _)];
      apply open_dir_files in H6; [|done]. unfold mret, prog_ret in H. by simplify_eq. }
  rewrite H6, F5. split_and!.
  - intros q Hq Hq'. rewrite lookup_insert_ne, lookup_delete_ne by done. by apply S4.
  - right. by rewrite lookup_insert_eq.
  - intros _. by rewrite lookup_insert_eq.
Qed.

(** ** Lemmas: file names *)

Section Recovery.
Context {Txid Monitor Update : Type} `{!TxidApi Txid} `{!MonitorApi Txid Monitor Update}
  `{!TxidLaws Txid} `{!MonitorLaws Txid Monitor Update}.
Context (order : list string -> list string) (order_perm : forall l, order l ≡ₚ l).

Implicit Types (id : OutPoint Txid) (m : Monitor) (u : Update) (d : disk).

Lemma update_id_nonneg u : 0 <= update_id u.
Proof. apply update_id_u64. Qed.

Lemma update_file_inj id i j : 0 <= i -> 0 <= j -> update_file id i = update_file id j -> i = j.
Proof. intros Hi Hj H. unfold update_file in H. do 4 apply app_inj_r in H. by apply to_string_inj. Qed.

Lemma update_file_tmp_ne id i j : 0 <= i -> 0 <= j -> update_file id i +:+ ".tmp" <> update_file id j.
Proof.
  intros Hi Hj H. unfold update_file in H. rewrite !app_assoc_s in H. do 4 apply app_inj_r in H.
  pose proof (to_string_no_char "." j eq_refl Hj) as Hn. by rewrite <- H, no_char_app, andb_false_r in Hn.
Qed.

Lemma update_file_shape id i :
  0 <= op_index id -> 0 <= i ->
  bad_name (update_file id i) = false /\ ends_with (update_file id i) ".tmp" = false /\
  split_on "_" (update_file id i) =
    [txid_to_hex (op_txid id); to_string (op_index id); to_string i].
Proof.
  intros Hx Hi. unfold update_file, bad_name. rewrite !is_ascii_app, !len_app.
  rewrite txid_hex_ascii, !to_string_ascii, txid_hex_len by done. cbn [andb negb orb].
  pose proof (to_string_len (op_index id) Hx). pose proof (to_string_len i Hi).
  change (is_ascii "_") with true. change (len "_") with 1. cbn [andb negb orb]. split_and!.
  - lia.
  - apply (ends_with_no_char "."); [|done]. rewrite !no_char_app, !to_string_no_char by done.
    by rewrite txid_hex_digits.
  - rewrite !app_cons, !app_nil_l.
    rewrite split_on_app by (by apply txid_hex_digits).
    rewrite split_on_app by (by apply to_string_no_char).
    by rewrite split_on_no_char by (by apply to_string_no_char).
Qed.

Lemma monitor_file_shape id :
  0 <= op_index id <= U16_MAX ->
  bad_name (monitor_file id) = false /\ ends_with (monitor_file id) ".tmp" = false /\
  txid_from_hex (String.substring 0 64 (monitor_file id)) = Some (op_txid id) /\
  parse_u16 (String.substring 65 (String.length (monitor_file id) - 65) (monitor_file id)) =
    Some (op_index id).
Proof.
  intros Hx. unfold monitor_file, bad_name. rewrite !is_ascii_app, !len_app.
  rewrite txid_hex_ascii, !to_string_ascii, txid_hex_len by lia.
  pose proof (to_string_len (op_index id) ltac:(lia)).
  change (is_ascii "_") with true. change (len "_") with 1. cbn [andb negb orb]. split_and!.
  - lia.
  - apply (ends_with_no_char "."); [|done]. rewrite !no_char_app, !to_string_no_char by (done || lia).
    by rewrite txid_hex_digits.
  - rewrite substring_0_app by apply txid_hex_len. apply txid_from_to.
  - rewrite <- app_assoc_s, substring_skip by (by rewrite len_app, txid_hex_len).
    rewrite substring_all.
    + by apply parse_to_string.
    + rewrite Nat2Z.inj_sub_max, string_length_len, !len_app, txid_hex_len.
      change (len "_") with 1. lia.
Qed.

Lemma monitor_file_tmp_ne id : 0 <= op_index id -> monitor_file id +:+ ".tmp" <> monitor_file id.
Proof. intros _. apply tmp_ne. Qed.

Lemma updates_ne_monitors (p : YourPersister) : path_to_monitor_data_updates p <> path_to_monitor_data p.
Proof. intros H. by apply app_inj_r in H. Qed.

(** ** The persisted state of one channel

    [stored p id base log d]: the disk holds the full monitor [base] of channel [id]
    and the updates [log], and nothing else in the two directories. *)
Definition stored (p : YourPersister) (id : OutPoint Txid) (base : Monitor) (log : list Update)
    (d : disk) : Prop :=
  path_to_monitor_data p ∈ dirs d /\ path_to_monitor_data_updates p ∈ dirs d /\
  (forall n f, files d !! (path_to_monitor_data p, n) = Some f <->
     n = monitor_file id /\ f = File (write_monitor base) true) /\
  (forall n f, files d !! (path_to_monitor_data_updates p, n) = Some f <->
     exists u, u ∈ log /\ n = update_file id (update_id u) /\ f = File (write_update u) true).

Lemma clear_updates_ok (p : YourPersister) d :
  exists d', clear_updates p (World d []) = (Ret tt, World d' []) /\
    dirs d' = {[path_to_monitor_data_updates p]} ∪ dirs d /\
    (forall q n, files d' !! (q, n) =
       if decide (q = path_to_monitor_data_updates p) then None else files d !! (q, n)).
Proof.
  eexists. split.
  - unfold clear_updates, unwrap_io, create_dir_all, remove_dir_all, create_dir.
    unfold mbind, prog_bind. rewrite io_op_ok. cbn -[decide].
    rewrite decide_True by set_solver. cbn -[decide].
    rewrite decide_False by set_solver. cbn. done.
  - cbn [dirs files]. split.
    + apply set_eq. intros x. destruct (decide (x = path_to_monitor_data_updates p)); set_solver.
    + intros q n. case_decide as Hq.
      * apply map_lookup_filter_None_2. right. cbn. intros ? _ Hc. by apply Hc.
      * destruct (files d !! (q, n)) eqn:E.
        -- by apply map_lookup_filter_Some_2.
        -- apply map_lookup_filter_None_2. by left.
Qed.

(** Writing a full monitor, by either entry point, leaves exactly it. *)
Lemma full_write_stored p id m d :
  (forall n, n <> monitor_file id -> files d !! (path_to_monitor_data p, n) = None) ->
  exists d', clear_updates p (World (written (path_to_monitor_data p) (monitor_file id) (write_monitor m) d) [])
      = (Ret tt, World d' []) /\ stored p id m [] d'.
Proof.
  intros Hother. destruct (clear_updates_ok p (written (path_to_monitor_data p) (monitor_file id)
    (write_monitor m) d)) as (d' & E & Hdirs & Hfiles).
  exists d'. split; [exact E|]. unfold stored. rewrite Hdirs. cbn [dirs written].
  split_and!; [set_solver|set_solver| |].
  - intros n f. rewrite Hfiles, decide_False by (symmetry; intros ?; by eapply updates_ne_monitors).
    cbn [files written]. destruct (decide (n = monitor_file id)) as [->|Hn].
    + rewrite lookup_insert_eq. naive_solver.
    + rewrite lookup_insert_ne by congruence. split; [|naive_solver].
      destruct (decide (n = monitor_file id +:+ ".tmp")) as [->|];
        [by rewrite lookup_delete_eq|rewrite lookup_delete_ne by congruence; by rewrite Hother].
  - intros n f. rewrite Hfiles, decide_True by done. split; [done|].
    intros (u & Hu & _). by apply elem_of_nil in Hu.
Qed.

Lemma persist_new_stored p id m d :
  (forall n, n <> monitor_file id -> files d !! (path_to_monitor_data p, n) = None) ->
  exists d', persist_new_channel p id m (World d []) = (Ret (Ok tt), World d' []) /\ stored p id m [] d'.
Proof.
  intros H. destruct (full_write_stored p id m d H) as (d' & E & Hs). exists d'. split; [|done].
  unfold persist_new_channel. erewrite prog_bind_Ret by apply write_to_file_ok.
  cbv beta iota. rewrite (prog_bind_Ret _ _ _ _ _ E). reflexivity.
Qed.

Lemma unwrap_io_ok {A} (m : io A) w a w' : m w = (Ret (Ok a), w') -> unwrap_io m w = (Ret a, w').
Proof. intros H. unfold unwrap_io. by rewrite (prog_bind_Ret _ _ _ _ _ H). Qed.

Lemma block_update_stored p id m base log d :
  stored p id base log d ->
  exists d', update_persisted_channel p id None m (World d []) = (Ret (Ok tt), World d' []) /\
    stored p id m [] d'.
Proof.
  intros (_ & _ & Hm & _). destruct (full_write_stored p id m d) as (d' & E & Hs).
  { intros n Hn. apply eq_None_not_Some. intros [f Hf]. apply Hm in Hf. naive_solver. }
  exists d'. split; [|done]. unfold update_persisted_channel.
  erewrite prog_bind_Ret by (apply unwrap_io_ok; apply write_to_file_ok).
  by rewrite (prog_bind_Ret _ _ _ _ _ E).
Qed.

Lemma update_stored p id m base log d u :
  stored p id base log d -> (forall v, v ∈ log -> update_id v <> update_id u) ->
  exists d', update_persisted_channel p id (Some u) m (World d []) = (Ret (Ok tt), World d' []) /\
    stored p id base (log ++ [u]) d'.
Proof.
  intros (Hd1 & Hd2 & Hm & Hu) Hfresh.
  set (d0 := Disk (files d) ({[path_to_monitor_data_updates p]} ∪ dirs d)).
  exists (written (path_to_monitor_data_updates p) (update_file id (update_id u)) (write_update u) d0).
  split.
  { unfold update_persisted_channel. erewrite prog_bind_Ret by (apply unwrap_io_ok; reflexivity).
    by erewrite prog_bind_Ret by (apply unwrap_io_ok; apply write_to_file_ok). }
  unfold stored. cbn [dirs files written d0]. split_and!; [set_solver|set_solver| |].
  - intros n f. rewrite lookup_insert_ne, lookup_delete_ne
      by (intros [= E _]; by apply updates_ne_monitors in E). apply Hm.
  - intros n f. destruct (decide (n = update_file id (update_id u))) as [->|Hn].
    + rewrite lookup_insert_eq. split.
      * intros [= <-]. exists u. set_solver.
      * intros (v & Hv & E & ->). apply update_file_inj in E; try apply update_id_nonneg.
        apply elem_of_app in Hv as [Hv|Hv]; [by apply Hfresh in Hv|].
        apply list_elem_of_singleton in Hv. by subst.
    + rewrite lookup_insert_ne by congruence.
      destruct (decide (n = update_file id (update_id u) +:+ ".tmp")) as [->|Hn'].
      * rewrite lookup_delete_eq. split; [done|]. intros (v & _ & E & _).
        apply update_file_tmp_ne in E; [done|apply update_id_nonneg..].
      * rewrite lookup_delete_ne by congruence. rewrite Hu. set_solver.
Qed.

(** ** Reading back *)

Lemma file_read_ok q d f : files d !! q = Some f -> file_read q (World d []) = (Ret (Ok (content f)), World d []).
Proof. intros H. unfold file_read. rewrite io_op_ok. by rewrite H. Qed.

Lemma read_update_file_ok p id u d (acc : gmap Txid (list Update)) :
  0 <= op_index id <= U16_MAX ->
  files d !! (path_to_monitor_data_updates p, update_file id (update_id u)) = Some (File (write_update u) true) ->
  read_update_file (path_to_monitor_data_updates p) (update_file id (update_id u)) acc (World d []) =
  (Ret (Ok (<[op_txid id := default [] (acc !! op_txid id) ++ [u]]> acc)), World d []).
Proof.
  intros Hx Hf. unfold read_update_file.
  destruct (update_file_shape id (update_id u) ltac:(lia) (update_id_nonneg u)) as (-> & -> & ->).
  cbn [list_lookup lookup unwrap]. erewrite prog_bind_Ret by done.
  rewrite txid_from_to. erewrite prog_bind_Ret by done.
  unfold parse_u16. rewrite parse_to_string by lia.
  erewrite bind_ok_Ok by (by apply file_read_ok). cbn [content]. by rewrite read_write_update.
Qed.

Lemma read_update_files_ok p id us d (acc : gmap Txid (list Update)) :
  0 <= op_index id <= U16_MAX ->
  (forall u, u ∈ us -> files d !! (path_to_monitor_data_updates p, update_file id (update_id u))
     = Some (File (write_update u) true)) ->
  read_update_files (path_to_monitor_data_updates p) ((fun u => update_file id (update_id u)) <$> us) acc
    (World d []) =
  (Ret (Ok (if decide (us = []) then acc
            else <[op_txid id := default [] (acc !! op_txid id) ++ us]> acc)), World d []).
Proof.
  intros Hx. revert acc. induction us as [|u us IH]; intros acc Hf; [done|].
  rewrite fmap_cons. cbn [read_update_files].
  erewrite bind_ok_Ok by (apply read_update_file_ok; [done|]; apply Hf; left).
  rewrite IH by (intros; apply Hf; by right). rewrite (decide_False (P := u :: us = [])) by done.
  case_decide as E; [by rewrite E|]. do 3 f_equal. rewrite lookup_insert_eq. cbn.
  rewrite insert_insert_eq. f_equal. by rewrite <- (assoc_L (++)).
Qed.

(** The names in the updates directory are those of the log, in some order. *)
Lemma update_names p id base log d :
  stored p id base log d -> NoDup (update_id <$> log) ->
  exists us, us ≡ₚ log /\
    order (dir_names (path_to_monitor_data_updates p) d) = (fun u => update_file id (update_id u)) <$> us.
Proof.
  intros (_ & _ & _ & Hu) Hnd.
  assert (Hp : order (dir_names (path_to_monitor_data_updates p) d) ≡ₚ
               (fun u => update_file id (update_id u)) <$> log).
  { rewrite order_perm. apply NoDup_Permutation.
    - apply NoDup_dir_names.
    -
      induction log as [|u log IH] in Hnd |- *; [constructor|]. rewrite fmap_cons in *.
      apply NoDup_cons in Hnd as [Hn Hnd]. apply NoDup_cons. split; [|by apply IH].
      intros (v & E & Hv)%list_elem_of_fmap. apply Hn. apply list_elem_of_fmap. exists v.
      split; [|done]. by apply update_file_inj in E; [|apply update_id_nonneg..].
    - intros n. rewrite elem_of_dir_names, list_elem_of_fmap. split.
      + intros [f Hf]. apply Hu in Hf as (u & ? & ? & _). eauto.
      + intros (u & -> & Hin). eexists. apply Hu. eauto. }
  apply Permutation_map_inv in Hp as (us & E & Hus). exists us. by split.
Qed.

Lemma read_updates_stored p id base log d :
  stored p id base log d -> NoDup (update_id <$> log) -> 0 <= op_index id <= U16_MAX ->
  exists us, us ≡ₚ log /\
    read_channelmonitor_updates order p (World d []) =
    (Ret (Ok (if decide (us = []) then ∅ else {[op_txid id := us]})), World d []).
Proof.
  intros Hs Hnd Hx. destruct (update_names _ _ _ _ _ Hs Hnd) as (us & Hp & E).
  destruct Hs as (_ & Hd & _ & Hu). exists us. split; [done|].
  unfold read_channelmonitor_updates. erewrite prog_bind_Ret by done.
  rewrite bool_decide_eq_true_2 by done. cbv iota.
  erewrite prog_bind_Ret by (apply unwrap_io_ok; rewrite io_op_ok; rewrite E; reflexivity).
  rewrite read_update_files_ok; [|done|].
  - case_decide; [done|]. by rewrite lookup_empty.
  - intros u Hin. apply Hu. exists u. by rewrite <- Hp.
Qed.

Lemma read_monitors_stored p id base log d :
  stored p id base log d -> 0 <= op_index id <= U16_MAX -> get_funding_txo base = id ->
  read_channelmonitors order (path_to_channel_data p) (World d []) = (Ret (Ok [base]), World d []).
Proof.
  intros (Hd & _ & Hm & _) Hx Htxo.
  assert (E : order (dir_names (path_to_monitor_data p) d) = [monitor_file id]).
  { apply Permutation_singleton_r. rewrite order_perm. apply NoDup_Permutation.
    - apply NoDup_dir_names.
    - apply NoDup_singleton.
    - intros n. rewrite elem_of_dir_names, list_elem_of_singleton. split.
      + intros [f Hf]. by apply Hm in Hf as [? _].
      + intros ->. eexists. by apply Hm. }
  unfold read_channelmonitors. fold (path_to_monitor_data p). erewrite prog_bind_Ret by done.
  rewrite bool_decide_eq_true_2 by done. cbv iota.
  erewrite prog_bind_Ret by (apply unwrap_io_ok; rewrite io_op_ok; rewrite E; reflexivity).
  cbn [read_monitor_files]. unfold read_monitor_file.
  destruct (monitor_file_shape id Hx) as (-> & -> & -> & ->).
  rewrite (bind_ok_Ok _ _ _ (Some base) (World d [])); [reflexivity|].
  erewrite bind_ok_Ok by (apply file_read_ok; by apply Hm). cbn [content].
  rewrite read_write_monitor, Htxo, decide_True by done. by rewrite Z.eqb_refl.
Qed.

(** Start-up rebuilds the base monitor with its log applied. *)
Lemma load_stored p id base log d m :
  stored p id base log d -> StronglySorted Z.lt (update_id <$> log) ->
  0 <= op_index id <= U16_MAX -> get_funding_txo base = id ->
  apply_updates base log = Ret (Some m) ->
  load_channelmonitors order p (World d []) = (Ret (Some [m]), World d []).
Proof.
  intros Hs Hlog Hx Htxo Happ.
  assert (Hnd : NoDup (update_id <$> log)).
  { clear -Hlog. induction Hlog as [|x l _ IH Hl]; constructor; [|done].
    intros Hin. rewrite Forall_forall in Hl. apply Hl in Hin. lia. }
  assert (Hsorted : StronglySorted (fun a b => update_id a < update_id b) log).
  { clear -Hlog. induction log as [|u log IH]; [constructor|]. rewrite fmap_cons in Hlog.
    inversion Hlog as [|? ? Hs Hf]; subst. constructor; [by apply IH|]. rewrite Forall_fmap in Hf. exact Hf. }
  destruct (read_updates_stored _ _ _ _ _ Hs Hnd Hx) as (us & Hp & Eu).
  unfold load_channelmonitors.
  erewrite prog_bind_Ret by (apply unwrap_io_ok; by eapply read_monitors_stored).
  erewrite prog_bind_Ret by (apply unwrap_io_ok; exact Eu).
  unfold lift. f_equal. cbn [apply_all_updates]. rewrite Htxo.
  case_decide as Eus.
  - subst us. apply Permutation_nil_l in Hp. subst log. cbn in Happ. simplify_eq.
    by rewrite lookup_empty.
  - rewrite lookup_singleton_eq, (sort_by_unique _ us log) by done. cbn [mbind outcome_bind]. rewrite Happ. reflexivity.
Qed.

Lemma apply_updates_snoc m us u m1 :
  apply_updates m us = Ret (Some m1) ->
  apply_updates m (us ++ [u]) = apply_updates m1 [u].
Proof.
  revert m. induction us as [|v us IH]; intros m H; cbn in *; [by simplify_eq|].
  destruct (update_monitor m v) as [[[]  m']| |]; cbn in *; simplify_eq; by auto.
Qed.

(** ** Histories of one channel

    What the chain monitor does between two starts: it applies an update to the
    monitor in memory and hands it to the persister, or it changes the monitor
    because of a block and has it written in full. *)
Inductive persist_step (p : YourPersister) (id : OutPoint Txid) : Monitor * disk -> Monitor * disk -> Prop :=
| step_update m d u m' r d' :
    update_id u <> CLOSED_CHANNEL_UPDATE_ID ->
    update_monitor m u = Ret (Ok tt, m') ->
    update_persisted_channel p id (Some u) m' (World d []) = (r, World d' []) ->
    persist_step p id (m, d) (m', d')
| step_block m d m' r d' :
    get_funding_txo m' = get_funding_txo m ->
    update_persisted_channel p id None m' (World d []) = (r, World d' []) ->
    persist_step p id (m, d) (m', d').

(** The invariant of histories: the monitor in memory is the persisted base with
    the persisted updates applied, and their ids increase up to its own. *)
Definition in_step (p : YourPersister) (id : OutPoint Txid) (s : Monitor * disk) : Prop :=
  exists base log, stored p id base log s.2 /\ StronglySorted Z.lt (update_id <$> log) /\
    get_funding_txo base = id /\ get_funding_txo s.1 = id /\
    Forall (fun u => update_id u <= get_latest_update_id s.1) log /\
    apply_updates base log = Ret (Some s.1).

Lemma StronglySorted_snoc (l : list Z) x :
  StronglySorted Z.lt l -> Forall (fun y => y < x) l -> StronglySorted Z.lt (l ++ [x]).
Proof.
  induction 1 as [|y l Hl IH Hy]; intros Hx; cbn; [by repeat constructor|].
  inversion Hx; subst. constructor; [by apply IH|]. apply Forall_app. split; [done|]. by constructor.
Qed.

Lemma persist_step_in_step p id s s' : persist_step p id s s' -> in_step p id s -> in_step p id s'.
Proof.
  intros Hstep (base & log & Hs & Hlog & Hb & Hm & Hle & Happ). cbn [fst snd] in *.
  destruct Hstep as [m d u m' r d' Hnc Hu Hp|m d m' r d' Htxo Hp]; cbn [fst snd] in *.
  - assert (Hid : update_id u = get_latest_update_id m + 1).
    { destruct (decide (update_id u = get_latest_update_id m + 1)) as [|Hne]; [done|].
      destruct (update_out_of_order m u Hnc Hne) as [why E]. by rewrite E in Hu. }
    destruct (update_stored p id m' base log d u) as (d2 & E & Hs2); [done| |].
    { intros v Hv. rewrite Forall_forall in Hle. apply Hle in Hv. lia. }
    rewrite Hp in E. simplify_eq. exists base, (log ++ [u]). cbn. split_and!; try done.
    + rewrite fmap_app. apply StronglySorted_snoc; [done|]. apply Forall_fmap.
      eapply Forall_impl; [exact Hle|]. cbn. intros; lia.
    + by rewrite (update_keeps_txo _ _ _ _ Hu).
    + rewrite (update_sets_id _ _ _ _ Hu). apply Forall_app. split; [|by constructor].
      eapply Forall_impl; [exact Hle|]. cbn. intros; lia.
    + rewrite (apply_updates_snoc _ _ _ _ Happ). cbn. by rewrite Hu.
  - destruct (block_update_stored p id m' base log d Hs) as (d2 & E & Hs2).
    rewrite Hp in E. simplify_eq. exists m', []. cbn. split_and!; try done.
    + constructor.
    + congruence.
    + congruence.
Qed.


End Recovery.
