(* ===== verification/DiskCases.v ===== *)
(** * DiskCases: the persister on a concrete channel monitor

    [Counter] instantiates the interfaces of Disk.v with a monitor that only keeps
    its funding outpoint and its latest update id, with the id check of
    rust-lightning/lightning/src/chain/channelmonitor.rs [update_monitor].  It
    shows that the laws can hold, and it lets the runs below be computed: the
    crash safety of one write, and four histories the persister does not survive. *)

From S2P Require Import Prelude Text HexUtils Bytes Fs Disk.

Local Open Scope Z_scope.

(** ** The instance *)

Definition hexA : string := "aaaaaaaaaaaaaaaaaaaaaaaaaaaaaaaaaaaaaaaaaaaaaaaaaaaaaaaaaaaaaaaa".
Definition hexB : string := "bbbbbbbbbbbbbbbbbbbbbbbbbbbbbbbbbbbbbbbbbbbbbbbbbbbbbbbbbbbbbbbb".

Inductive tx := txA | txB.
Global Instance tx_eq_dec : EqDecision tx.
Proof. solve_decision. Defined.
Global Instance tx_countable : Countable tx.
Proof.
  refine (inj_countable' (fun t => match t with txA => true | txB => false end)
            (fun b : bool => if b then txA else txB) _).
  by intros [].
Defined.

Global Instance counter_txid : TxidApi tx := {
  txid_to_hex t := match t with txA => hexA | txB => hexB end;
  txid_from_hex s :=
    if decide (s = hexA) then Some txA else if decide (s = hexB) then Some txB else None;
}.

Lemma no_hex_char c h : hex_nibble (byte_of h) <> None -> hex_nibble (byte_of c) = None -> c <> h.
Proof. intros H1 H2 ->. done. Qed.

Fixpoint rep (h : ascii) (n : nat) : string :=
  match n with O => EmptyString | S n' => String h (rep h n') end.

Lemma no_char_rep c h n : c <> h -> no_char c (rep h n) = true.
Proof.
  intros Hc. induction n as [|n IH]; [done|]. cbn. by rewrite bool_decide_eq_true_2.
Qed.

Global Instance counter_txid_laws : TxidLaws tx.
Proof.
  split.
  - by intros [].
  - by intros [].
  - by intros [].
  - intros t c Hc. destruct t.
    + apply (no_char_rep c "a" 64). by apply no_hex_char.
    + apply (no_char_rep c "b" 64). by apply no_hex_char.
  - intros s t. cbn. repeat case_decide; intros; simplify_eq; done.
Qed.

Record counter := Counter { c_txo : OutPoint tx; c_latest : Z }.

Definition encode_counter (m : counter) : bytes :=
  [match op_txid (c_txo m) with txA => 0 | txB => 1 end; op_index (c_txo m); c_latest m].
Definition decode_counter (b : bytes) : option counter :=
  match b with
  | [t; i; l] => Some (Counter (mkOutPoint (if t =? 0 then txA else txB) i) l)
  | _ => None
  end.

(** Updates are their ids. *)
Inductive cupdate := CUpdate (id : Z) (bound : bool_decide (u64 id) = true).
Definition c_id (u : cupdate) : Z := match u with CUpdate id _ => id end.

Lemma cupdate_eq u v : c_id u = c_id v -> u = v.
Proof. destruct u as [i Hi], v as [j Hj]. cbn. intros <-. f_equal. apply proof_irrel. Qed.

Definition mk_update (id : Z) : option cupdate :=
  match decide (bool_decide (u64 id) = true) with left H => Some (CUpdate id H) | right _ => None end.

Global Instance counter_api : MonitorApi tx counter cupdate := {
  get_funding_txo := c_txo;
  get_latest_update_id := c_latest;
  Disk.update_id := c_id;
  update_monitor m u :=
    if negb (c_id u =? CLOSED_CHANNEL_UPDATE_ID) && negb (c_id u =? c_latest m + 1)
    then Panic "Attempted to apply ChannelMonitorUpdates out of order, check the update_id before passing an update to update_monitor!"
    else Ret (Ok tt, Counter (c_txo m) (c_id u));
  write_monitor := encode_counter;
  read_monitor := decode_counter;
  write_update u := [c_id u];
  read_update b := match b with [i] => mk_update i | _ => None end;
}.

Global Instance counter_laws : MonitorLaws tx counter cupdate.
Proof.
  split.
  - by intros [[[] i] l].
  - intros u. cbn. unfold mk_update. destruct u as [i Hi]. cbn.
    destruct (decide _) as [H|H]; [|done]. f_equal. by apply cupdate_eq.
  - intros [i Hi]. cbn. by apply bool_decide_eq_true in Hi.
  - intros m u r m' H. cbn in *. case_match; by simplify_eq.
  - intros m u r m' H. cbn in *. case_match; by simplify_eq.
  - intros m u H1 H2. cbn in *. apply Z.eqb_neq in H1, H2. rewrite H1, H2. cbn. by eexists.
Qed.

(** ** Concrete runs *)

Definition p0 : YourPersister := mkPersister "ldk".
Definition chA : OutPoint tx := mkOutPoint txA 0.
Definition chA' : OutPoint tx := mkOutPoint txA 1.
Definition chB : OutPoint tx := mkOutPoint txB 0.

Definition empty_disk : disk := Disk ∅ ∅.
Definition start : world := World empty_disk [].

Definition new_channel (id : OutPoint tx) : prog world (result unit ChannelMonitorUpdateErr) :=
  persist_new_channel p0 id (Counter id 0).
Definition update_channel (id : OutPoint tx) (u : cupdate) :=
  update_persisted_channel p0 id (Some u) (Counter id (c_id u)).
Definition block_on (id : OutPoint tx) (latest : Z) :=
  update_persisted_channel (Update := cupdate) p0 id None (Counter id latest).
Definition restart (w : world) : outcome (option (list counter)) :=
  (load_channelmonitors (fun l => l) p0 (World (on_disk w) [])).1.

Definition disk_new : disk := on_disk (exec (new_channel chA) start).
Definition disk_one : disk :=
  on_disk (exec (update_channel chA (CUpdate 1 eq_refl)) (World disk_new [])).



(** Power loss in the middle of the write of the temporary file. *)
Definition torn : world :=
  World (Disk {[("d", "f") := File [1; 2] true]} {["d"]}) [Go; Go; CrashAt 1].

(** ** Histories the persister does not survive *)

Definition one_update : prog world (result unit ChannelMonitorUpdateErr) :=
  _ ← new_channel chA; update_channel chA (CUpdate 1 eq_refl).

(** The updates directory is shared by all channels and is emptied whenever one full
    monitor is written: an update of channel A that was reported as persisted is
    gone once channel B is created, and A comes back at update 0. *)
Theorem new_channel_drops_other_updates :
  let w1 := exec one_update start in
  let w2 := exec (new_channel chB) w1 in
  value one_update start = Some (Ok tt) /\
  restart w1 = Ret (Some [Counter chA 1]) /\
  value (new_channel chB) w1 = Some (Ok tt) /\
  (restart w2 = Ret (Some [Counter chA 0; Counter chB 0]) \/
   restart w2 = Ret (Some [Counter chB 0; Counter chA 0])).
Proof.
  intros w1 w2. split; [by vm_compute|]. split; [by vm_compute|]. split; [by vm_compute|].
  first [left; by vm_compute | right; by vm_compute].
Qed.

(** Power loss after the full monitor was renamed into place and before the updates
    directory was removed: the next start applies an update the monitor already
    contains and panics. *)
Theorem crash_before_clearing_updates :
  let w1 := exec one_update start in
  let at_clear := World (on_disk w1) [Go; Go; Go; Go; Go; Go; Go; CrashAt 0] in
  value one_update start = Some (Ok tt) /\
  (block_on chA 1 at_clear).1 = Panic "power loss" /\
  restart (exec (block_on chA 1) at_clear) =
    Panic "Attempted to apply ChannelMonitorUpdates out of order, check the update_id before passing an update to update_monitor!".
Proof. intros w1 w2. split; [by vm_compute|]. split; by vm_compute. Qed.

Definition two_outputs : prog world (result unit ChannelMonitorUpdateErr) :=
  _ ← new_channel chA; _ ← new_channel chA'; _ ← update_channel chA (CUpdate 1 eq_refl);
  update_channel chA' (CUpdate 1 eq_refl).

(** Updates are collected per funding transaction id: two channels funded by outputs
    of one transaction get each other's updates, and the start-up panics. *)
Theorem shared_funding_tx_mixes_updates :
  value two_outputs start = Some (Ok tt) /\
  restart (exec two_outputs start) =
    Panic "Attempted to apply ChannelMonitorUpdates out of order, check the update_id before passing an update to update_monitor!".
Proof. split; by vm_compute. Qed.
