(* ===== verification/ChainMonitor.v ===== *)
(** * The chain monitor: rust-lightning/lightning/src/chain/chainmonitor.rs

    The chain monitor keeps the monitors of all channels, hands them the blocks, and has every change
    persisted.  A persister may take its time ([TemporaryFailure]); until it reports that it is done,
    the chain monitor does not let the channel go on, and holds back what the monitor has to tell.

    A channel monitor is abstract ([MonitorApi] of Disk.v and [MonitorOps]); so are the persister and the
    chain source ([Surroundings]), whose state is the world [W].  A call is one step: the persister does
    not call back while it is called.  Logging is left out. *)

From S2P Require Import Prelude Text HexUtils Bytes Fs Disk Stream Ser Msgs Transactions PeerManager.

Local Open Scope Z_scope.

#[global] Instance OutPoint_eq_dec {Txid} `{EqDecision Txid} : EqDecision (Disk.OutPoint Txid).
Proof. solve_decision. Defined.
#[global] Instance OutPoint_countable {Txid} `{Countable Txid} : Countable (Disk.OutPoint Txid).
Proof. by refine (inj_countable' (fun o => (Disk.op_txid o, Disk.op_index o)) (fun x => Disk.mkOutPoint x.1 x.2) _); intros []. Defined.

(** ** Interfaces *)

Inductive UpdateOrigin := OffChain (id : Z) | ChainSync (id : Z).
Record MonitorUpdateId := mkUpdateId { contents : UpdateOrigin }.
#[global] Instance UpdateOrigin_eq_dec : EqDecision UpdateOrigin.
Proof. solve_decision. Defined.
#[global] Instance MonitorUpdateId_eq_dec : EqDecision MonitorUpdateId.
Proof. solve_decision. Defined.

(** [HTLCUpdate] is what a monitor tells about an HTLC. *)
Inductive MonitorEvent (Txid HTLCUpdate : Type) :=
| HTLCEvent (update : HTLCUpdate)
| CommitmentTxConfirmed (funding_txo : Disk.OutPoint Txid)
| UpdateCompleted (funding_txo : Disk.OutPoint Txid) (monitor_update_id : Z)
| UpdateFailed (funding_txo : Disk.OutPoint Txid).
Arguments HTLCEvent {Txid HTLCUpdate} _.
Arguments CommitmentTxConfirmed {Txid HTLCUpdate} _.
Arguments UpdateCompleted {Txid HTLCUpdate} _ _.
Arguments UpdateFailed {Txid HTLCUpdate} _.

(** [WatchedOutput]; a script is its bytes. *)
Record WatchedOutput (Txid BlockHash : Type) := mkWatched { w_block_hash : option BlockHash; w_outpoint : Disk.OutPoint Txid; w_script : bytes }.
Arguments mkWatched {Txid BlockHash} _ _ _.

(** What a [ChannelMonitor] does on the chain; its broadcaster and fee estimator are in the world. *)
Class MonitorOps (W Txid Monitor Update Header BlockHash Tx HTLCUpdate Event Balance : Type) `{MonitorApi Txid Monitor Update} := {
  block_hash : Header -> BlockHash;
  mon_block_connected : Header -> list (Z * Tx) -> Z -> Monitor -> prog W (list (Txid * list (Z * bytes)) * Monitor);
  mon_transactions_confirmed : Header -> list (Z * Tx) -> Z -> Monitor -> prog W (list (Txid * list (Z * bytes)) * Monitor);
  mon_best_block_updated : Header -> Z -> Monitor -> prog W (list (Txid * list (Z * bytes)) * Monitor);
  mon_block_disconnected : Header -> Z -> Monitor -> prog W Monitor;
  mon_transaction_unconfirmed : Txid -> Monitor -> prog W Monitor;
  mon_get_relevant_txids : Monitor -> list Txid;
  mon_get_claimable_balances : Monitor -> list Balance;
  get_and_clear_pending_monitor_events : Monitor -> list (MonitorEvent Txid HTLCUpdate) * Monitor;
  mon_get_and_clear_pending_events : Monitor -> list Event * Monitor;
  funding_script : Monitor -> bytes;
  get_outputs_to_watch : Monitor -> list (Txid * list (Z * bytes));
  txid_cmp : Txid -> Txid -> comparison;
}.

(** What happens on the chain does not change which update a monitor is at; an update does. *)
Class MonitorOpsLaws {W Txid Monitor Update Header BlockHash Tx HTLCUpdate Event Balance} `{MonitorApi Txid Monitor Update}
    (O : MonitorOps W Txid Monitor Update Header BlockHash Tx HTLCUpdate Event Balance) : Prop := {
  connected_id h t n m w outs m' w' : mon_block_connected h t n m w = (Ret (outs, m'), w') -> get_latest_update_id m' = get_latest_update_id m;
  confirmed_id h t n m w outs m' w' : mon_transactions_confirmed h t n m w = (Ret (outs, m'), w') -> get_latest_update_id m' = get_latest_update_id m;
  best_id h n m w outs m' w' : mon_best_block_updated h n m w = (Ret (outs, m'), w') -> get_latest_update_id m' = get_latest_update_id m;
  disconnected_id h n m w m' w' : mon_block_disconnected h n m w = (Ret m', w') -> get_latest_update_id m' = get_latest_update_id m;
  unconfirmed_id t m w m' w' : mon_transaction_unconfirmed t m w = (Ret m', w') -> get_latest_update_id m' = get_latest_update_id m;
  monitor_events_id m : get_latest_update_id (get_and_clear_pending_monitor_events m).2 = get_latest_update_id m;
  events_id m : get_latest_update_id (mon_get_and_clear_pending_events m).2 = get_latest_update_id m;
  applied_id m u r m' : update_monitor m u = Ret (r, m') -> get_latest_update_id m' = update_id u;
}.
(** [Persist], [Filter] and [EventHandler]; the iteration over a hash map, in an order of its own. *)
Class Surroundings (W Txid Monitor Update BlockHash Tx Event : Type) := {
  persist_new_channel : Disk.OutPoint Txid -> Monitor -> MonitorUpdateId -> prog W (result unit ChannelMonitorUpdateErr);
  update_persisted_channel : Disk.OutPoint Txid -> option Update -> Monitor -> MonitorUpdateId -> prog W (result unit ChannelMonitorUpdateErr);
  register_tx : Txid -> bytes -> prog W unit;
  register_output : WatchedOutput Txid BlockHash -> prog W (option (Z * Tx));
  on_event : Event -> prog W unit;
  iter : forall V, list (Disk.OutPoint Txid * V) -> list (Disk.OutPoint Txid * V);
}.
Class IterLaws {W Txid Monitor Update BlockHash Tx Event} (E : Surroundings W Txid Monitor Update BlockHash Tx Event) : Prop :=
  iter_permutation V l : iter V l ≡ₚ l.

Definition LATENCY_GRACE_PERIOD_BLOCKS : Z := 3.

Section Source.
Context {W Txid Monitor Update Header BlockHash Tx HTLCUpdate Event Balance : Type}.
Context `{Countable Txid} `{Hapi : MonitorApi Txid Monitor Update}.
Context `{Hops : !MonitorOps W Txid Monitor Update Header BlockHash Tx HTLCUpdate Event Balance}.
Context `{Henv : Surroundings W Txid Monitor Update BlockHash Tx Event} `{UnstableSort}.
Abbreviation OutPoint := (Disk.OutPoint Txid).
Abbreviation MonitorEvent := (MonitorEvent Txid HTLCUpdate).

Record MonitorHolder := mkHolder {
  monitor : Monitor;
  pending_monitor_updates : list MonitorUpdateId;
  channel_perm_failed : bool;
  last_chain_persist_height : Z }.

(** The persister, the broadcaster and the fee estimator, and the chain source when there is one, are
    in [world]. *)
Record ChainMonitor := mkChainMonitor {
  monitors : gmap OutPoint MonitorHolder;
  sync_persistence_id : AtomicCounter;
  chain_source : bool;
  pending_monitor_events : list (OutPoint * list MonitorEvent);
  highest_chain_height : Z;
  world : W }.

Abbreviation cm A := (prog ChainMonitor A).

Definition set_monitors (m : gmap OutPoint MonitorHolder) (s : ChainMonitor) : ChainMonitor :=
  mkChainMonitor m (sync_persistence_id s) (chain_source s) (pending_monitor_events s) (highest_chain_height s) (world s).
Definition set_events (e : list (OutPoint * list MonitorEvent)) (s : ChainMonitor) : ChainMonitor :=
  mkChainMonitor (monitors s) (sync_persistence_id s) (chain_source s) e (highest_chain_height s) (world s).
Definition set_height (h : Z) (s : ChainMonitor) : ChainMonitor :=
  mkChainMonitor (monitors s) (sync_persistence_id s) (chain_source s) (pending_monitor_events s) h (world s).
Definition put_holder (o : OutPoint) (h : MonitorHolder) : cm unit := modify (fun s => set_monitors (<[o := h]> (monitors s)) s).
Definition push_event (o : OutPoint) (e : MonitorEvent) : cm unit := modify (fun s => set_events (pending_monitor_events s ++ [(o, [e])]) s).

(** Calls of the surroundings and of the counter. *)
Definition outside {A} (m : prog W A) : cm A :=
  fun s => let '(o, w) := m (world s) in (o, mkChainMonitor (monitors s) (sync_persistence_id s) (chain_source s) (pending_monitor_events s) (highest_chain_height s) w).
Definition next_sync_id : cm Z :=
  fun s => let '(o, c) := get_increment (sync_persistence_id s) in (o, mkChainMonitor (monitors s) c (chain_source s) (pending_monitor_events s) (highest_chain_height s) (world s)).

(** The monitors, in the order of the hash map. *)
Definition each (s : ChainMonitor) : list (OutPoint * MonitorHolder) := iter MonitorHolder (map_to_list (monitors s)).

Definition from_monitor_update (update : Update) : MonitorUpdateId := mkUpdateId (OffChain (update_id update)).
Definition from_new_monitor (m : Monitor) : MonitorUpdateId := mkUpdateId (OffChain (get_latest_update_id m)).

Definition is_offchain (u : MonitorUpdateId) : bool := match contents u with OffChain _ => true | ChainSync _ => false end.
Definition is_chainsync (u : MonitorUpdateId) : bool := match contents u with ChainSync _ => true | OffChain _ => false end.
Definition has_pending_offchain_updates (h : MonitorHolder) : bool := existsb is_offchain (pending_monitor_updates h).
Definition has_pending_chainsync_updates (h : MonitorHolder) : bool := existsb is_chainsync (pending_monitor_updates h).

Definition new_chain_monitor (chain_source : bool) (w : W) : ChainMonitor := mkChainMonitor ∅ (mkCounter 0 0) chain_source [] 0 w.

(** *** Blocks *)

Abbreviation Outputs := (list (Txid * list (Z * bytes))).

Fixpoint register_outputs (hash : BlockHash) (txid : Txid) (outputs : list (Z * bytes)) (dependent_txdata : list (Z * Tx)) : cm (list (Z * Tx)) :=
  match outputs with
  | [] => mret dependent_txdata
  | (idx, script) :: outputs' =>
      tx ← outside (register_output (mkWatched (Some hash) (Disk.mkOutPoint txid (wrap 16 idx)) script));
      register_outputs hash txid outputs' (dependent_txdata ++ match tx with Some tx => [tx] | None => [] end)
  end.
Fixpoint register_all (hash : BlockHash) (txn_outputs : Outputs) (dependent_txdata : list (Z * Tx)) : cm (list (Z * Tx)) :=
  match txn_outputs with
  | [] => mret dependent_txdata
  | (txid, outputs) :: rest => d ← register_outputs hash txid outputs dependent_txdata; register_all hash rest d
  end.

(** One monitor in [process_chain_data]. *)
Definition process_monitor (header : Header) (best_height : option Z) (process : Monitor -> prog W (Outputs * Monitor)) (funding_outpoint : OutPoint)
    (monitor_state : MonitorHolder) (dependent_txdata : list (Z * Tx)) : cm (list (Z * Tx)) :=
  '(txn_outputs, m) ← outside (process (monitor monitor_state));
  id ← next_sync_id;
  let update_id := mkUpdateId (ChainSync id) in
  let height := match best_height with
                | Some height => if has_pending_chainsync_updates monitor_state then last_chain_persist_height monitor_state else height
                | None => last_chain_persist_height monitor_state
                end in
  let pending := pending_monitor_updates monitor_state in
  let failed := channel_perm_failed monitor_state in
  r ← outside (update_persisted_channel funding_outpoint None m update_id);
  _ ← (match r with
       | Ok _ => put_holder funding_outpoint (mkHolder m pending failed height)
       | Err PermanentFailure =>
           _ ← put_holder funding_outpoint (mkHolder m pending true height);
           push_event funding_outpoint (UpdateFailed funding_outpoint)
       | Err TemporaryFailure => put_holder funding_outpoint (mkHolder m (pending ++ [update_id]) failed height)
       end);
  s ← get;
  if chain_source s then register_all (block_hash header) txn_outputs dependent_txdata else mret dependent_txdata.

Fixpoint process_monitors (header : Header) (best_height : option Z) (process : Monitor -> prog W (Outputs * Monitor)) (states : list (OutPoint * MonitorHolder))
    (dependent_txdata : list (Z * Tx)) : cm (list (Z * Tx)) :=
  match states with
  | [] => mret dependent_txdata
  | (o, h) :: rest => d ← process_monitor header best_height process o h dependent_txdata; process_monitors header best_height process rest d
  end.

(** [dedup_by_key]: of neighbours with the same index the first stays. *)
Fixpoint dedup_index (l : list (Z * Tx)) : list (Z * Tx) :=
  match l with
  | x :: l' =>
      match dedup_index l' with
      | y :: l'' => if x.1 =? y.1 then x :: l'' else x :: y :: l''
      | [] => [x]
      end
  | [] => []
  end.

(** The recursion goes on as long as the chain source finds more transactions of the block. *)
Fixpoint process_chain_data (fuel : nat) (header : Header) (best_height : option Z) (txdata : list (Z * Tx))
    (process : Monitor -> list (Z * Tx) -> prog W (Outputs * Monitor)) : cm unit :=
  match fuel with
  | O => lift OutOfFuel
  | S fuel' =>
      _ ← (match best_height with Some height => modify (fun s => if highest_chain_height s <? height then set_height height s else s) | None => mret tt end);
      s ← get;
      dependent_txdata ← process_monitors header best_height (fun m => process m txdata) (each s) [];
      match dependent_txdata with
      | [] => mret tt
      | _ => process_chain_data fuel' header None (dedup_index (sort_unstable_by (fun a b => Z.compare a.1 b.1) dependent_txdata)) process
      end
  end.

(** [chain::Listen] and [chain::Confirm]. *)
Definition filtered_block_connected (fuel : nat) (header : Header) (txdata : list (Z * Tx)) (height : Z) : cm unit :=
  process_chain_data fuel header (Some height) txdata (fun m txdata => mon_block_connected header txdata height m).
Definition transactions_confirmed (fuel : nat) (header : Header) (txdata : list (Z * Tx)) (height : Z) : cm unit :=
  process_chain_data fuel header None txdata (fun m txdata => mon_transactions_confirmed header txdata height m).
Definition best_block_updated (fuel : nat) (header : Header) (height : Z) : cm unit :=
  process_chain_data fuel header (Some height) [] (fun m txdata =>
    match txdata with [] => mon_best_block_updated header height m | _ => panic "assertion failed: txdata.is_empty()" end).

Fixpoint on_each (f : Monitor -> prog W Monitor) (states : list (OutPoint * MonitorHolder)) : cm unit :=
  match states with
  | [] => mret tt
  | (o, h) :: rest =>
      m ← outside (f (monitor h));
      _ ← put_holder o (mkHolder m (pending_monitor_updates h) (channel_perm_failed h) (last_chain_persist_height h));
      on_each f rest
  end.
Definition block_disconnected (header : Header) (height : Z) : cm unit :=
  s ← get; on_each (mon_block_disconnected header height) (each s).
Definition transaction_unconfirmed (txid : Txid) : cm unit := s ← get; on_each (mon_transaction_unconfirmed txid) (each s).

Fixpoint dedup_txids (l : list Txid) : list Txid :=
  match l with
  | x :: l' => match dedup_txids l' with y :: l'' => if decide (x = y) then x :: l'' else x :: y :: l'' | [] => [x] end
  | [] => []
  end.
Definition get_relevant_txids (s : ChainMonitor) : list Txid :=
  dedup_txids (sort_unstable_by txid_cmp (concat ((fun e => mon_get_relevant_txids (monitor e.2)) <$> each s))).

(** *** [chain::Watch] *)

Fixpoint load_outputs (txid : Txid) (outputs : list (Z * bytes)) : cm unit :=
  match outputs with
  | [] => mret tt
  | (index, script) :: outputs' =>
      if index <=? U16_MAX then _ ← outside (register_output (mkWatched None (Disk.mkOutPoint txid (wrap 16 index)) script)); load_outputs txid outputs'
      else panic "assertion failed: *index <= u16::max_value() as u32"
  end.
Fixpoint load_all (outputs : Outputs) : cm unit :=
  match outputs with [] => mret tt | (txid, os) :: rest => _ ← load_outputs txid os; load_all rest end.
Definition load_outputs_to_watch (m : Monitor) : cm unit :=
  _ ← outside (register_tx (Disk.op_txid (get_funding_txo m)) (funding_script m)); load_all (get_outputs_to_watch m).

Definition watch_channel (funding_outpoint : OutPoint) (m : Monitor) : cm (result unit ChannelMonitorUpdateErr) :=
  s ← get;
  match monitors s !! funding_outpoint with
  | Some _ => mret (Err PermanentFailure)
  | None =>
      let update_id := from_new_monitor m in
      persist_res ← outside (persist_new_channel funding_outpoint m update_id);
      match persist_res with
      | Err PermanentFailure => mret persist_res
      | _ =>
          let pending := match persist_res with Err _ => [update_id] | Ok _ => [] end in
          _ ← (if chain_source s then load_outputs_to_watch m else mret tt);
          _ ← put_holder funding_outpoint (mkHolder m pending false (highest_chain_height s));
          mret persist_res
      end
  end.

Definition update_channel (funding_txo : OutPoint) (update : Update) : cm (result unit ChannelMonitorUpdateErr) :=
  s ← get;
  match monitors s !! funding_txo with
  | None => mret (Err PermanentFailure)
  | Some h =>
      '(update_res, m) ← lift (update_monitor (monitor h) update);
      let update_id := from_monitor_update update in
      persist_res ← outside (update_persisted_channel funding_txo (Some update) m update_id);
      let pending := match persist_res with Err TemporaryFailure => pending_monitor_updates h ++ [update_id] | _ => pending_monitor_updates h end in
      let failed := match persist_res with Err PermanentFailure => true | _ => channel_perm_failed h end in
      _ ← put_holder funding_txo (mkHolder m pending failed (last_chain_persist_height h));
      mret (if is_err update_res then Err PermanentFailure else if failed then Err PermanentFailure else persist_res)
  end.

(** The error is [APIError::APIMisuseError] with a text that names the outpoint. *)
Inductive NoMonitor := NoChannelMonitor (funding_txo : OutPoint).

Definition channel_monitor_updated (funding_txo : OutPoint) (completed_update_id : MonitorUpdateId) : cm (result unit NoMonitor) :=
  s ← get;
  match monitors s !! funding_txo with
  | None => mret (Err (NoChannelMonitor funding_txo))
  | Some h =>
      let pending := filter (fun u => u <> completed_update_id) (pending_monitor_updates h) in
      let h' := mkHolder (monitor h) pending (channel_perm_failed h) (last_chain_persist_height h) in
      _ ← put_holder funding_txo h';
      match contents completed_update_id with
      | OffChain _ =>
          if has_pending_offchain_updates h' || channel_perm_failed h then mret (Ok tt)
          else _ ← push_event funding_txo (UpdateCompleted funding_txo (get_latest_update_id (monitor h))); mret (Ok tt)
      | ChainSync _ =>
          _ ← (if has_pending_chainsync_updates h' then mret tt
               else put_holder funding_txo (mkHolder (monitor h) pending (channel_perm_failed h) (highest_chain_height s)));
          mret (Ok tt)
      end
  end.

(** Whether the events of a monitor wait for the persister. *)
Definition held (highest : Z) (h : MonitorHolder) : bool :=
  has_pending_chainsync_updates h && (highest <? last_chain_persist_height h + LATENCY_GRACE_PERIOD_BLOCKS).

Fixpoint release_each (states : list (OutPoint * MonitorHolder)) (events : list (OutPoint * list MonitorEvent)) : cm (list (OutPoint * list MonitorEvent)) :=
  match states with
  | [] => mret events
  | (o, h) :: rest =>
      s ← get;
      if held (highest_chain_height s) h then release_each rest events
      else
        let '(monitor_events, m) := get_and_clear_pending_monitor_events (monitor h) in
        _ ← put_holder o (mkHolder m (pending_monitor_updates h) (channel_perm_failed h) (last_chain_persist_height h));
        release_each rest (match monitor_events with [] => events | _ => events ++ [(get_funding_txo (monitor h), monitor_events)] end)
  end.
Definition release_pending_monitor_events : cm (list (OutPoint * list MonitorEvent)) :=
  s ← get;
  _ ← put (set_events [] s);
  release_each (each s) (pending_monitor_events s).

(** *** The rest *)

Definition get_claimable_balances (ignored_channels : list (option OutPoint)) (s : ChainMonitor) : list Balance :=
  concat ((fun e => mon_get_claimable_balances (monitor e.2)) <$> filter (fun e => Some e.1 ∉ ignored_channels) (each s)).
Definition get_monitor (funding_txo : OutPoint) (s : ChainMonitor) : result Monitor unit :=
  match monitors s !! funding_txo with Some h => Ok (monitor h) | None => Err tt end.
Definition list_monitors (s : ChainMonitor) : list OutPoint := (each s).*1.

Fixpoint take_events (states : list (OutPoint * MonitorHolder)) (events : list Event) : cm (list Event) :=
  match states with
  | [] => mret events
  | (o, h) :: rest =>
      let '(evs, m) := mon_get_and_clear_pending_events (monitor h) in
      _ ← put_holder o (mkHolder m (pending_monitor_updates h) (channel_perm_failed h) (last_chain_persist_height h));
      take_events rest (events ++ evs)
  end.
Fixpoint handle_all (events : list Event) : cm unit :=
  match events with [] => mret tt | e :: rest => _ ← outside (on_event e); handle_all rest end.
Definition process_pending_events : cm unit := s ← get; events ← take_events (each s) []; handle_all events.

(** ** Loops over the monitors *)

Context `{Hiter : !IterLaws Henv}.

(** The monitors a loop still has before it are those of the map. *)
Definition ahead (states : list (OutPoint * MonitorHolder)) (s : ChainMonitor) : Prop := NoDup states.*1 /\ forall o h, (o, h) ∈ states -> monitors s !! o = Some h.

Lemma each_ahead s : ahead (each s) s.
Proof.
  unfold ahead, each. assert (Hp : iter MonitorHolder (map_to_list (monitors s)) ≡ₚ map_to_list (monitors s)) by apply iter_permutation. split.
  - rewrite Hp. apply NoDup_fst_map_to_list.
  - intros o h Hin. rewrite Hp in Hin. by apply elem_of_map_to_list in Hin.
Qed.
Lemma each_all s o h : monitors s !! o = Some h -> (o, h) ∈ each s.
Proof. intros E. unfold each. rewrite (iter_permutation _ (map_to_list (monitors s))). by apply elem_of_map_to_list. Qed.
Lemma ahead_cons o h rest s : ahead ((o, h) :: rest) s -> monitors s !! o = Some h /\ forall s' h', monitors s' = <[o := h']> (monitors s) -> ahead rest s'.
Proof.
  intros [Hn Hl]. apply NoDup_cons in Hn as [Hn Hr]. split; [apply Hl; set_solver|]. intros s' h' E. split; [done|]. intros o' h1 Hin. rewrite E, lookup_insert_ne; [apply Hl; set_solver|].
  intros <-. apply Hn. by apply (list_elem_of_fmap_2 fst _ (o, h1)).
Qed.

(** ** Events wait for the persister *)

(** A monitor after its events were taken, and what is handed out. *)
Definition drained (highest : Z) (h : MonitorHolder) : MonitorHolder :=
  if held highest h then h
  else mkHolder (get_and_clear_pending_monitor_events (monitor h)).2 (pending_monitor_updates h) (channel_perm_failed h) (last_chain_persist_height h).
Definition handed_out (highest : Z) (h : MonitorHolder) : list (OutPoint * list MonitorEvent) :=
  match (get_and_clear_pending_monitor_events (monitor h)).1 with
  | [] => []
  | evs => if held highest h then [] else [(get_funding_txo (monitor h), evs)]
  end.

Lemma release_each_spec states : forall events s, ahead states s ->
  exists s', release_each states events s = (Ret (events ++ concat ((fun e => handed_out (highest_chain_height s) e.2) <$> states)), s') /\
    pending_monitor_events s' = pending_monitor_events s /\ highest_chain_height s' = highest_chain_height s /\
    (forall o h, (o, h) ∈ states -> monitors s' !! o = Some (drained (highest_chain_height s) h)) /\
    (forall o, o ∉ states.*1 -> monitors s' !! o = monitors s !! o).
Proof.
  induction states as [|[o h] rest IH]; intros events s Ha.
  { exists s. cbn. rewrite List.app_nil_r. split_and!; try done. intros o h Hin. by apply elem_of_nil in Hin. }
  pose proof (proj1 Ha) as Hnd. apply NoDup_cons in Hnd as [Hno _]. apply ahead_cons in Ha as [Eh Ha]. cbn [release_each].
  assert (Eg : forall f : ChainMonitor -> cm (list (OutPoint * list MonitorEvent)), (get ≫= f) s = f s s) by done. rewrite Eg. clear Eg. cbn [fmap list_fmap concat snd fst]. unfold handed_out at 1.
  destruct (held (highest_chain_height s) h) eqn:Ehd.
  - destruct (IH events s) as (s' & E & P & Hh & Hin & Hout); [apply (Ha s h); by rewrite insert_id|]. exists s'. split; [rewrite E; by destruct (get_and_clear_pending_monitor_events (monitor h)).1|]. split_and!; try done.
    + intros o' h' Hx. apply elem_of_cons in Hx as [[= -> ->]|Hx]; [|by apply Hin]. unfold drained. rewrite Ehd. rewrite Hout; done.
    + intros o' Hx. apply Hout. set_solver.
  - destruct (get_and_clear_pending_monitor_events (monitor h)) as [evs m] eqn:Em. cbn [fst]. set (h' := mkHolder m (pending_monitor_updates h) (channel_perm_failed h) (last_chain_persist_height h)).
    set (s1 := set_monitors (<[o := h']> (monitors s)) s). destruct (IH (match evs with [] => events | _ => events ++ [(get_funding_txo (monitor h), evs)] end) s1) as (s' & E & P & Hh & Hin & Hout); [by apply (Ha s1 h')|].
    exists s'. split; [|split_and!; try done].
    + transitivity (release_each rest (match evs with [] => events | _ => events ++ [(get_funding_txo (monitor h), evs)] end) s1); [done|]. rewrite E. cbn. destruct evs; cbn; by rewrite <- ?app_assoc.
    + intros o' h1 Hx. apply elem_of_cons in Hx as [[= -> ->]|Hx]; [|by apply Hin]. rewrite Hout by done. cbn. rewrite lookup_insert_eq. unfold drained. by rewrite Ehd, Em.
    + intros o' Hx. rewrite Hout by set_solver. cbn. rewrite lookup_insert_ne; [done|]. set_solver.
Qed.

(** Fetching the events returns the queued notices and, for every monitor, all it has to tell or
    nothing: a monitor whose last block has not been persisted keeps its events, unless it has
    kept the channel waiting for three blocks. *)
Theorem release_exact s :
  exists s', release_pending_monitor_events s = (Ret (pending_monitor_events s ++ concat ((fun e => handed_out (highest_chain_height s) e.2) <$> each s)), s') /\
    pending_monitor_events s' = [] /\
    forall o, monitors s' !! o = drained (highest_chain_height s) <$> monitors s !! o.
Proof.
  pose proof (each_ahead s) as Ha. destruct (release_each_spec (each s) (pending_monitor_events s) (set_events [] s) Ha) as (s' & E & P & _ & Hin & Hout). exists s'. split; [exact E|]. split; [exact P|].
  intros o. destruct (monitors s !! o) as [h|] eqn:Eo; cbn.
  - apply Hin. by apply each_all.
  - rewrite Hout; [done|]. intros Hx. apply list_elem_of_fmap in Hx as ([o' h] & -> & Hx). cbn in Eo. rewrite (proj2 Ha o' h Hx) in Eo. done.
Qed.
End Source.
