(* ===== verification/ChainMonitorSpec.v ===== *)
(** * What the chain monitor promises

    The protocol between the chain monitor, the persister and the channel manager is a small automaton
    over what the persister was asked and answered: a channel has a latest update, updates that wait
    for the persister, and may be dead.  The chain monitor with any monitors, any persister and any chain
    source is proved to follow it.  From the automaton: a channel is told to go on only when every
    update the persister had asked time for is done, and never after a permanent failure. *)

From S2P Require Import Prelude Text HexUtils Bytes Fs Disk Stream Ser Msgs Transactions PeerManager ChainMonitor.

Local Open Scope Z_scope.

(** ** The protocol *)

Section Protocol.
Context {Txid : Type} `{Countable Txid}.
Abbreviation OutPoint := (Disk.OutPoint Txid).

(** What happens at the persister, and when events are fetched. *)
Inductive Call :=
| Created (o : OutPoint) (id : Z) (r : result unit ChannelMonitorUpdateErr)
| Stored (o : OutPoint) (u : MonitorUpdateId) (r : result unit ChannelMonitorUpdateErr)
| Finished (o : OutPoint) (u : MonitorUpdateId)
| Released.

Record Channel := mkChannel { latest : Z; waiting : list MonitorUpdateId; dead : bool }.
(** A channel may go on from an update, or must be closed. *)
Inductive Notice := GoOn (o : OutPoint) (id : Z) | Close (o : OutPoint).
Record Protocol := mkProtocol { chans : gmap OutPoint Channel; queue : list Notice }.

Definition set_latest (u : MonitorUpdateId) (c : Channel) : Channel :=
  match contents u with OffChain id => mkChannel id (waiting c) (dead c) | ChainSync _ => c end.

Definition created (o : OutPoint) (id : Z) (r : result unit ChannelMonitorUpdateErr) (p : Protocol) : Protocol :=
  match r with
  | Ok _ => mkProtocol (<[o := mkChannel id [] false]> (chans p)) (queue p)
  | Err TemporaryFailure => mkProtocol (<[o := mkChannel id [mkUpdateId (OffChain id)] false]> (chans p)) (queue p)
  | Err PermanentFailure => p
  end.

Definition stored (o : OutPoint) (u : MonitorUpdateId) (r : result unit ChannelMonitorUpdateErr) (c : Channel) (p : Protocol) : Protocol :=
  let c := set_latest u c in
  match r with
  | Ok _ => mkProtocol (<[o := c]> (chans p)) (queue p)
  | Err TemporaryFailure => mkProtocol (<[o := mkChannel (latest c) (waiting c ++ [u]) (dead c)]> (chans p)) (queue p)
  | Err PermanentFailure =>
      mkProtocol (<[o := mkChannel (latest c) (waiting c) true]> (chans p)) (queue p ++ if is_chainsync u then [Close o] else [])
  end.

Definition finished (o : OutPoint) (u : MonitorUpdateId) (c : Channel) (p : Protocol) : Protocol :=
  let left := filter (fun v => v <> u) (waiting c) in
  mkProtocol (<[o := mkChannel (latest c) left (dead c)]> (chans p))
    (queue p ++ if is_offchain u && negb (existsb is_offchain left) && negb (dead c) then [GoOn o (latest c)] else []).

Definition step (p : Protocol) (call : Call) : Protocol :=
  match call with
  | Created o id r => match chans p !! o with Some _ => p | None => created o id r p end
  | Stored o u r => match chans p !! o with Some c => stored o u r c p | None => p end
  | Finished o u => match chans p !! o with Some c => finished o u c p | None => p end
  | Released => mkProtocol (chans p) []
  end.

Definition follow (p : Protocol) (log : list Call) : Protocol := foldl step p log.
Definition start : Protocol := mkProtocol ∅ [].

(** The persister asked for time, for a channel it was asked to create or that is there. *)
Definition asked (p : Protocol) (call : Call) (o : OutPoint) (u : MonitorUpdateId) : Prop :=
  match call with
  | Created o' id (Err TemporaryFailure) => o' = o /\ u = mkUpdateId (OffChain id) /\ chans p !! o = None
  | Stored o' u' (Err TemporaryFailure) => o' = o /\ u' = u /\ is_Some (chans p !! o)
  | _ => False
  end.

Lemma follow_snoc p log c : follow p (log ++ [c]) = step (follow p log) c.
Proof. unfold follow. by rewrite foldl_app. Qed.

(** Channels stay; what waits waits until it is finished; the dead stay dead. *)
Lemma step_channel p call o c : chans p !! o = Some c ->
  exists c', chans (step p call) !! o = Some c' /\ (forall u, u ∈ waiting c -> u ∈ waiting c' \/ call = Finished o u) /\ (dead c = true -> dead c' = true).
Proof.
  intros E. destruct call as [o' id r|o' u r|o' u|]; cbn [step].
  - destruct (chans p !! o') eqn:E'; [by exists c; auto|]. assert (Ho : o' <> o) by congruence. exists c. unfold created. destruct r as [[]|[]]; cbn; rewrite ?lookup_insert_ne by done; auto.
  - destruct (chans p !! o') as [c1|] eqn:E'; [|by exists c; auto]. destruct (decide (o' = o)) as [->|Ho].
    + rewrite E in E'. injection E' as <-. unfold stored. assert (Hs : waiting (set_latest u c) = waiting c /\ dead (set_latest u c) = dead c) by (unfold set_latest; by destruct (contents u)).
      destruct Hs as [Hw Hd]. destruct r as [[]|[]]; cbn; rewrite lookup_insert_eq; eexists; (split; [done|]); cbn; rewrite ?Hw, ?Hd; set_solver.
    + exists c. unfold stored. destruct r as [[]|[]]; cbn; rewrite lookup_insert_ne by done; auto.
  - destruct (chans p !! o') as [c1|] eqn:E'; [|by exists c; auto]. destruct (decide (o' = o)) as [->|Ho].
    + rewrite E in E'. injection E' as <-. cbn. rewrite lookup_insert_eq. eexists. split; [done|]. cbn. split; [|done]. intros v Hv. destruct (decide (v = u)) as [->|Hn]; [by right|left].
      by apply list_elem_of_filter.
    + exists c. cbn. rewrite lookup_insert_ne by done. auto.
  - exists c. auto.
Qed.

Lemma follow_channel p log : forall o c, chans p !! o = Some c ->
  exists c', chans (follow p log) !! o = Some c' /\ (forall u, u ∈ waiting c -> u ∈ waiting c' \/ Finished o u ∈ log) /\ (dead c = true -> dead c' = true).
Proof.
  revert p. induction log as [|call log IH]; intros p o c E; [by exists c; auto|]. destruct (step_channel p call o c E) as (c1 & E1 & W1 & D1). destruct (IH _ _ _ E1) as (c2 & E2 & W2 & D2).
  exists c2. split; [exact E2|]. split; [|auto]. intros u Hu. destruct (W1 u Hu) as [H1| ->]; [|right; set_solver]. destruct (W2 u H1); [by left|right; set_solver].
Qed.

Lemma asked_waits l1 call l2 o u : asked (follow start l1) call o u ->
  exists c, chans (follow start (l1 ++ call :: l2)) !! o = Some c /\ (u ∈ waiting c \/ Finished o u ∈ l2).
Proof.
  intros Ha. assert (Hs : exists c, chans (step (follow start l1) call) !! o = Some c /\ u ∈ waiting c).
  { destruct call as [o' id [[]|[]]|o' u' [[]|[]]|o' u'|]; cbn in Ha; try done.
    - destruct Ha as (-> & -> & En). cbn. rewrite En. cbn. rewrite lookup_insert_eq. eexists. split; [done|]. cbn. set_solver.
    - destruct Ha as (-> & -> & [c Ec]). cbn. rewrite Ec. unfold stored. cbn. rewrite lookup_insert_eq. eexists. split; [done|]. cbn. set_solver. }
  destruct Hs as (c & Ec & Hu). destruct (follow_channel _ l2 _ _ Ec) as (c' & Ec' & Hw & _). exists c'. split; [|auto]. unfold follow in *. by rewrite foldl_app.
Qed.

Lemma failed_dead l1 o u l2 : is_Some (chans (follow start l1) !! o) ->
  exists c, chans (follow start (l1 ++ Stored o u (Err PermanentFailure) :: l2)) !! o = Some c /\ dead c = true.
Proof.
  intros [c Ec]. assert (Hs : exists c, chans (step (follow start l1) (Stored o u (Err PermanentFailure))) !! o = Some c /\ dead c = true).
  { cbn. rewrite Ec. unfold stored. cbn. rewrite lookup_insert_eq. by eexists. }
  destruct Hs as (c1 & Ec1 & Hd). destruct (follow_channel _ l2 _ _ Ec1) as (c' & Ec' & _ & Hd'). exists c'. split; [|auto]. unfold follow in *. by rewrite foldl_app.
Qed.
End Protocol.
Arguments Call : clear implicits.
Arguments Notice : clear implicits.

(** ** The chain monitor, with a record of the calls *)

Section Recorded.
Context {W Txid Monitor Update Header BlockHash Tx HTLCUpdate Event Balance : Type}.
Context `{Countable Txid} `{Hapi : MonitorApi Txid Monitor Update}.
Context `{Hops : !MonitorOps W Txid Monitor Update Header BlockHash Tx HTLCUpdate Event Balance}.
Context `{Henv : Surroundings W Txid Monitor Update BlockHash Tx Event} `{UnstableSort}.
Abbreviation OutPoint := (Disk.OutPoint Txid).
Abbreviation RW := (W * list (Call Txid))%type.

Definition unlogged {A} (m : prog W A) : prog RW A := fun s => let '(o, w) := m s.1 in (o, (w, s.2)).
Definition logged {A} (call : A -> Call Txid) (m : prog W A) : prog RW A :=
  fun s => let '(o, w) := m s.1 in (o, (w, match o with Ret a => s.2 ++ [call a] | _ => s.2 end)).

#[export] Instance recorded_ops : MonitorOps RW Txid Monitor Update Header BlockHash Tx HTLCUpdate Event Balance := {|
  block_hash := block_hash;
  mon_block_connected h t n m := unlogged (mon_block_connected h t n m);
  mon_transactions_confirmed h t n m := unlogged (mon_transactions_confirmed h t n m);
  mon_best_block_updated h n m := unlogged (mon_best_block_updated h n m);
  mon_block_disconnected h n m := unlogged (mon_block_disconnected h n m);
  mon_transaction_unconfirmed t m := unlogged (mon_transaction_unconfirmed t m);
  mon_get_relevant_txids := mon_get_relevant_txids;
  mon_get_claimable_balances := mon_get_claimable_balances;
  get_and_clear_pending_monitor_events := get_and_clear_pending_monitor_events;
  mon_get_and_clear_pending_events := mon_get_and_clear_pending_events;
  funding_script := funding_script;
  get_outputs_to_watch := get_outputs_to_watch;
  txid_cmp := txid_cmp;
|}.
#[export] Instance recorded : Surroundings RW Txid Monitor Update BlockHash Tx Event := {|
  persist_new_channel o m u := logged (Created o (get_latest_update_id m)) (persist_new_channel o m u);
  update_persisted_channel o up m u := logged (Stored o u) (update_persisted_channel o up m u);
  register_tx t s := unlogged (register_tx t s);
  register_output w := unlogged (register_output w);
  on_event e := unlogged (on_event e);
  iter := iter;
|}.

(** What the channel manager, the chain and the user's persister call. *)
Inductive Op :=
| Watch (o : OutPoint) (m : Monitor)
| UpdateChannel (o : OutPoint) (u : Update)
| Persisted (o : OutPoint) (u : MonitorUpdateId)
| BlockConnected (header : Header) (txdata : list (Z * Tx)) (height : Z)
| TransactionsConfirmed (header : Header) (txdata : list (Z * Tx)) (height : Z)
| BestBlockUpdated (header : Header) (height : Z)
| BlockDisconnected (header : Header) (height : Z)
| TransactionUnconfirmed (txid : Txid)
| ReleaseEvents
| ProcessEvents.

Abbreviation CM := (ChainMonitor (W := RW) (Txid := Txid) (Monitor := Monitor) (HTLCUpdate := HTLCUpdate)).

Definition note (c : Call Txid) : prog CM unit := outside (fun s => (Ret tt, (s.1, s.2 ++ [c]))).
Definition ignore {A} (m : prog CM A) : prog CM unit := _ ← m; mret tt.

Definition run_op (fuel : nat) (op : Op) : prog CM unit :=
  match op with
  | Watch o m => ignore (watch_channel o m)
  | UpdateChannel o u => ignore (update_channel o u)
  | Persisted o u => _ ← note (Finished o u); ignore (channel_monitor_updated o u)
  | BlockConnected h t n => filtered_block_connected fuel h t n
  | TransactionsConfirmed h t n => transactions_confirmed fuel h t n
  | BestBlockUpdated h n => best_block_updated fuel h n
  | BlockDisconnected h n => block_disconnected h n
  | TransactionUnconfirmed t => transaction_unconfirmed t
  | ReleaseEvents => _ ← note Released; ignore release_pending_monitor_events
  | ProcessEvents => process_pending_events
  end.
Fixpoint run_ops (fuel : nat) (ops : list Op) : prog CM unit :=
  match ops with [] => mret tt | op :: rest => _ ← run_op fuel op; run_ops fuel rest end.

(** The automaton's view. *)
Definition channel_of (h : MonitorHolder (Monitor := Monitor)) : Channel := mkChannel (get_latest_update_id (monitor h)) (pending_monitor_updates h) (channel_perm_failed h).
Definition notices (l : list (OutPoint * list (MonitorEvent Txid HTLCUpdate))) : list (Notice Txid) :=
  concat ((fun e => match e with UpdateCompleted o id => [GoOn o id] | UpdateFailed o => [Close o] | _ => [] end) <$> concat l.*2).
Definition view (s : CM) : Protocol := mkProtocol (channel_of <$> monitors s) (notices (pending_monitor_events s)).
Definition calls (s : CM) : list (Call Txid) := (world s).2.

(** ** The chain monitor follows the protocol *)

Context `{Hlaws : !MonitorOpsLaws Hops} `{Hiter : !IterLaws Henv}.

Lemma bind_Ret_inv {S A B} (m : prog S A) (f : A -> prog S B) s b s' : (m ≫= f) s = (Ret b, s') -> exists a s1, m s = (Ret a, s1) /\ f a s1 = (Ret b, s').
Proof. unfold mbind, prog_bind. destruct (m s) as [[a|w|] s1]; [|done..]. intros E. by exists a, s1. Qed.

Definition moves (s s' : CM) : Prop := exists new, calls s' = calls s ++ new /\ view s' = follow (view s) new.
#[local] Instance moves_preorder : PreOrder moves.
Proof.
  split.
  - intros s. exists []. by rewrite List.app_nil_r.
  - intros a b c (n1 & E1 & V1) (n2 & E2 & V2). exists (n1 ++ n2). rewrite E2, E1, app_assoc. split; [done|]. unfold follow in *. by rewrite foldl_app, <- V1.
Qed.

(** A call that touches neither the monitors nor the events nor the record. *)
Definition same (s s' : CM) : Prop :=
  monitors s' = monitors s /\ pending_monitor_events s' = pending_monitor_events s /\ calls s' = calls s /\
  highest_chain_height s' = highest_chain_height s /\ chain_source s' = chain_source s.
#[local] Instance same_preorder : PreOrder same.
Proof. split; [done|]. intros a b c (A1 & A2 & A3 & A4 & A5) (B1 & B2 & B3 & B4 & B5). unfold same. split_and!; congruence. Qed.
Lemma same_moves s s' : same s s' -> moves s s'.
Proof. intros (E1 & E2 & E3 & _). exists []. rewrite List.app_nil_r. split; [done|]. unfold view. by rewrite E1, E2. Qed.
Lemma same_view s s' : same s s' -> view s' = view s.
Proof. intros (E1 & E2 & _). unfold view. by rewrite E1, E2. Qed.

Lemma quiet_outside {A} (m : prog W A) : keeps same (outside (unlogged m)).
Proof. intros s o s' E. unfold outside, unlogged in E. destruct (m (world s).1) as [o1 w]. by injection E as <- <-. Qed.
Lemma quiet_id : keeps same next_sync_id.
Proof. intros s o s' E. unfold next_sync_id in E. destruct (get_increment (sync_persistence_id s)) as [o1 c]. by injection E as <- <-. Qed.
Lemma quiet_register hash txid outputs : forall d, keeps same (register_outputs (Henv := recorded) hash txid outputs d).
Proof. induction outputs as [|[i sc] os IH]; intros d; cbn [register_outputs]; [apply keeps_ret, _|]. apply keeps_bind; [apply _|apply quiet_outside|]. intros tx. apply IH. Qed.
Lemma quiet_register_all hash outs : forall d, keeps same (register_all (Henv := recorded) hash outs d).
Proof. induction outs as [|[t os] outs IH]; intros d; cbn [register_all]; [apply keeps_ret, _|]. apply keeps_bind; [apply _|apply quiet_register|]. intros tx. apply IH. Qed.

(** A call of the persister is recorded and changes nothing else. *)
Lemma logged_outside {A} (call : A -> Call Txid) (m : prog W A) s a s' :
  outside (logged call m) s = (Ret a, s') ->
  monitors s' = monitors s /\ pending_monitor_events s' = pending_monitor_events s /\ calls s' = calls s ++ [call a] /\
  highest_chain_height s' = highest_chain_height s /\ chain_source s' = chain_source s.
Proof. unfold outside, logged. destruct (m (world s).1) as [[b|w|] w'] eqn:Em; intros E; [|done..]. by injection E as -> <-. Qed.

Lemma put_view o h s : view (set_monitors (<[o := h]> (monitors s)) s) = mkProtocol (<[o := channel_of h]> (chans (view s))) (queue (view s)).
Proof. unfold view. cbn. by rewrite fmap_insert. Qed.
Lemma view_lookup o h s : monitors s !! o = Some h -> chans (view s) !! o = Some (channel_of h).
Proof. intros E. unfold view. cbn. by rewrite lookup_fmap, E. Qed.
Lemma view_lookup_None o s : monitors s !! o = None -> chans (view s) !! o = None.
Proof. intros E. unfold view. cbn. by rewrite lookup_fmap, E. Qed.
Lemma notices_app l l' : notices (l ++ l') = notices l ++ notices l'.
Proof. unfold notices. by rewrite fmap_app, concat_app, fmap_app, concat_app. Qed.
Lemma push_view o e s : view (set_events (pending_monitor_events s ++ [(o, [e])]) s) = mkProtocol (chans (view s)) (queue (view s) ++ notices [(o, [e])]).
Proof. unfold view. cbn [chans queue set_events monitors pending_monitor_events]. by rewrite notices_app. Qed.

(** What is asked of the step a block makes of a monitor. *)
Definition keeps_id (process : Monitor -> prog RW (list (Txid * list (Z * bytes)) * Monitor)) : Prop :=
  forall m w outs m' w', process m w = (Ret (outs, m'), w') -> w'.2 = w.2 /\ get_latest_update_id m' = get_latest_update_id m.

Lemma outside_keeps {A} (m : prog RW A) s a s' : outside m s = (Ret a, s') -> (forall w w', m w = (Ret a, w') -> w'.2 = w.2) -> same s s'.
Proof. unfold outside. destruct (m (world s)) as [o w'] eqn:Em. intros E Hm. injection E as -> <-. split_and!; try done. cbn. by apply (Hm _ _ Em). Qed.

(** The persister's answer to a block. *)
Lemma stored_block o h m id r height s :
  monitors s !! o = Some h -> get_latest_update_id m = get_latest_update_id (monitor h) ->
  let u := mkUpdateId (ChainSync id) in
  let put h' s := set_monitors (<[o := h']> (monitors s)) s in
  view (match r with
   | Ok _ => put (mkHolder m (pending_monitor_updates h) (channel_perm_failed h) height) s
   | Err PermanentFailure => let s := put (mkHolder m (pending_monitor_updates h) true height) s in set_events (pending_monitor_events s ++ [(o, [UpdateFailed o])]) s
   | Err TemporaryFailure => put (mkHolder m (pending_monitor_updates h ++ [u]) (channel_perm_failed h) height) s
   end) = step (view s) (Stored o u r).
Proof.
  intros Eh Em u put. cbn [step]. rewrite (view_lookup _ _ _ Eh). unfold stored, set_latest. cbn [contents u is_chainsync].
  assert (Ec : channel_of (mkHolder m (pending_monitor_updates h) (channel_perm_failed h) height) = channel_of h) by (unfold channel_of; cbn; by rewrite Em).
  destruct r as [[]|[]]; unfold put.
  - by rewrite put_view, Ec.
  - rewrite put_view. unfold channel_of. cbn. by rewrite Em.
  - cbv zeta. rewrite push_view, put_view. unfold channel_of. cbn. by rewrite Em.
Qed.

Lemma process_monitor_moves header best process o h d s d' s' :
  keeps_id process -> monitors s !! o = Some h -> process_monitor (Henv := recorded) header best process o h d s = (Ret d', s') ->
  moves s s' /\ exists h', monitors s' = <[o := h']> (monitors s).
Proof.
  intros Hp Eh E. unfold process_monitor in E. apply bind_Ret_inv in E as ([outs m] & s1 & E1 & E).
  assert (Hm : get_latest_update_id m = get_latest_update_id (monitor h)).
  { unfold outside in E1. destruct (process (monitor h) (world s)) as [o1 w1] eqn:Ep. injection E1 as -> _. by apply (Hp _ _ _ _ _ Ep). }
  assert (Q1 : same s s1) by (apply (outside_keeps _ _ _ _ E1); intros w w' Ew; by apply (Hp _ _ _ _ _ Ew)). clear E1.
  apply bind_Ret_inv in E as (id & s2 & E2 & E). assert (Q2 : same s s2) by (etrans; [exact Q1|by apply (quiet_id _ _ _ E2)]). clear E2 Q1 s1. cbv zeta in E.
  apply bind_Ret_inv in E as (r & s3 & E3 & E). apply (logged_outside (Stored o (mkUpdateId (ChainSync id)))) in E3 as (M3 & P3 & C3 & _). destruct Q2 as (M2 & P2 & C2 & _).
  apply bind_Ret_inv in E as (u & s4 & E4 & E). apply bind_Ret_inv in E as (sg & s5 & E5 & E). injection E5 as <- <-.
  set (height := match best with Some _ => _ | None => _ end) in E4.
  pose proof (stored_block o h m id r height s3) as Hsb. cbv zeta in Hsb. rewrite M3, M2 in Hsb. specialize (Hsb Eh Hm).
  assert (H4 : view s4 = step (view s3) (Stored o (mkUpdateId (ChainSync id)) r) /\ calls s4 = calls s3 /\ exists h', monitors s4 = <[o := h']> (monitors s)).
  { destruct r as [[]|[]]; unfold put_holder, push_event, modify, mbind, prog_bind in E4; injection E4 as <- <-; (split; [exact Hsb|]; split; [done|]; eexists; rewrite <- M2, <- M3; done). }
  clear Hsb. destruct H4 as (V4 & C4 & h' & M4).
  assert (Q5 : same s4 s'). { destruct (chain_source s4); [by eapply quiet_register_all|]. by injection E as <- <-. }
  assert (Vs : view s3 = view s) by (unfold view; by rewrite M3, M2, P3, P2). split.
  - exists [Stored o (mkUpdateId (ChainSync id)) r]. rewrite (same_view _ _ Q5), V4, Vs. split; [|done]. destruct Q5 as (_ & _ & C5 & _). by rewrite C5, C4, C3, C2.
  - exists h'. destruct Q5 as (M5 & _). by rewrite M5.
Qed.

#[local] Instance recorded_iter : IterLaws recorded.
Proof. intros V l. apply (iter_permutation (E := Henv)). Qed.

Lemma process_monitors_moves header best process states : keeps_id process -> forall d s d' s',
  ahead states s -> process_monitors (Henv := recorded) header best process states d s = (Ret d', s') -> moves s s'.
Proof.
  intros Hp. induction states as [|[o h] rest IH]; intros d s d' s' Ha E; cbn [process_monitors] in E; [by injection E as <- <-|].
  apply ahead_cons in Ha as [Eh Ha]. apply bind_Ret_inv in E as (d1 & s1 & E1 & E). apply process_monitor_moves in E1 as (M1 & h' & Eh'); [|done..]. etrans; [exact M1|]. by eapply IH; [by eapply Ha|].
Qed.

Lemma process_chain_data_moves fuel header (process : Monitor -> list (Z * Tx) -> prog RW (list (Txid * list (Z * bytes)) * Monitor)) :
  (forall t, keeps_id (fun m => process m t)) -> forall best txdata s u s', process_chain_data (Henv := recorded) fuel header best txdata process s = (Ret u, s') -> moves s s'.
Proof.
  intros Hp. induction fuel as [|fuel IH]; intros best txdata s u s' E; [done|]. cbn [process_chain_data] in E.
  apply bind_Ret_inv in E as (u1 & s1 & E1 & E). assert (M1 : moves s s1).
  { destruct best; [|by injection E1 as <- <-]. injection E1 as <- <-. destruct (_ <? _); [|done]. exists []. by rewrite List.app_nil_r. }
  apply bind_Ret_inv in E as (s2 & s2' & E2 & E). injection E2 as <- <-. apply bind_Ret_inv in E as (d & s3 & E3 & E). apply process_monitors_moves in E3; [|apply Hp|apply each_ahead].
  etrans; [exact M1|]. etrans; [exact E3|]. destruct d; [by injection E as <- <-|by eapply IH].
Qed.

Lemma unlogged_id (f : Monitor -> prog W (list (Txid * list (Z * bytes)) * Monitor)) :
  (forall m w outs m' w', f m w = (Ret (outs, m'), w') -> get_latest_update_id m' = get_latest_update_id m) -> keeps_id (fun m => unlogged (f m)).
Proof. intros Hf m w outs m' w' E. unfold unlogged in E. destruct (f m w.1) as [o1 w1] eqn:Ef. injection E as -> <-. split; [done|]. by eapply Hf. Qed.

(** A change of a monitor alone. *)
Lemma touch_moves o h m height s : monitors s !! o = Some h -> get_latest_update_id m = get_latest_update_id (monitor h) ->
  moves s (set_monitors (<[o := mkHolder m (pending_monitor_updates h) (channel_perm_failed h) height]> (monitors s)) s).
Proof.
  intros Eh Em. exists []. rewrite List.app_nil_r. split; [done|]. rewrite put_view. unfold channel_of. cbn. rewrite Em, insert_id; [done|]. cbn. by rewrite lookup_fmap, Eh.
Qed.

Lemma on_each_moves (f : Monitor -> prog W Monitor) states : (forall m w m' w', f m w = (Ret m', w') -> get_latest_update_id m' = get_latest_update_id m) ->
  forall s u s', ahead states s -> on_each (fun m => unlogged (f m)) states s = (Ret u, s') -> moves s s'.
Proof.
  intros Hf. induction states as [|[o h] rest IH]; intros s u s' Ha E; cbn [on_each] in E; [by injection E as <- <-|].
  apply ahead_cons in Ha as [Eh Ha]. apply bind_Ret_inv in E as (m & s1 & E1 & E). pose proof (quiet_outside _ _ _ _ E1) as Q1.
  assert (Hm : get_latest_update_id m = get_latest_update_id (monitor h)).
  { unfold outside, unlogged in E1. destruct (f (monitor h) (world s).1) as [o1 w1] eqn:Ef. injection E1 as -> _. by apply (Hf _ _ _ _ Ef). }
  apply bind_Ret_inv in E as (u2 & s2 & E2 & E). injection E2 as <- <-. assert (Eh1 : monitors s1 !! o = Some h) by (destruct Q1 as (-> & _); done).
  etrans; [by apply same_moves|]. etrans; [by apply (touch_moves o h m (last_chain_persist_height h) s1)|]. eapply IH; [|exact E]. eapply Ha. cbn. destruct Q1 as (-> & _). done.
Qed.

Lemma quiet_load m : keeps same (load_outputs_to_watch (Henv := recorded) m).
Proof.
  assert (Ho : forall txid os, keeps same (load_outputs (Henv := recorded) (Monitor := Monitor) (HTLCUpdate := HTLCUpdate) txid os)).
  { intros txid os. induction os as [|[i sc] os IH]; cbn [load_outputs]; [apply keeps_ret, _|]. destruct (_ <=? _); [|apply keeps_panic, _]. apply keeps_bind; [apply _|apply quiet_outside|]. done. }
  assert (Ha : forall outs, keeps same (load_all (Henv := recorded) (Monitor := Monitor) (HTLCUpdate := HTLCUpdate) outs)).
  { induction outs as [|[t os] outs IH]; cbn [load_all]; [apply keeps_ret, _|]. by apply keeps_bind; [apply _|apply Ho|]. }
  unfold load_outputs_to_watch. apply keeps_bind; [apply _|apply quiet_outside|]. done.
Qed.

Lemma watch_moves o m s r s' : watch_channel (Henv := recorded) o m s = (Ret r, s') -> moves s s'.
Proof.
  intros E. unfold watch_channel in E. apply bind_Ret_inv in E as (sg & s0 & E0 & E). injection E0 as <- <-. destruct (monitors s !! o) eqn:Eo; [by injection E as <- <-|]. cbv zeta in E.
  apply bind_Ret_inv in E as (pr & s1 & E1 & E). apply (logged_outside (Created o (get_latest_update_id m))) in E1 as (M1 & P1 & C1 & _).
  assert (V1 : view s1 = view s) by (unfold view; by rewrite M1, P1).
  assert (Hgo : forall pending, (_ ← (if chain_source s then load_outputs_to_watch (Henv := recorded) m else mret tt); _ ← put_holder o (mkHolder m pending false (highest_chain_height s)); mret pr) s1 = (Ret r, s') ->
    calls s' = calls s1 /\ view s' = mkProtocol (<[o := mkChannel (get_latest_update_id m) pending false]> (chans (view s))) (queue (view s))).
  { intros pending E1. apply bind_Ret_inv in E1 as (u & s2 & E2 & E1). assert (Q2 : same s1 s2) by (destruct (chain_source s); [by apply (quiet_load m _ _ _ E2)|by injection E2 as <- <-]).
    apply bind_Ret_inv in E1 as (u3 & s3 & E3 & E1). injection E3 as <- <-. injection E1 as <- <-. rewrite put_view, (same_view _ _ Q2), V1. split; [|done]. by destruct Q2 as (_ & _ & C2 & _). }
  exists [Created o (get_latest_update_id m) pr]. cbn [follow foldl step]. rewrite (view_lookup_None _ _ Eo). unfold created. destruct pr as [[]|[]].
  - apply Hgo in E as [C2 V2]. by rewrite C2, C1, V2.
  - apply Hgo in E as [C2 V2]. by rewrite C2, C1, V2.
  - injection E as <- <-. by rewrite C1, V1.
Qed.

Lemma update_moves o u s r s' : update_channel (Henv := recorded) o u s = (Ret r, s') -> moves s s'.
Proof.
  intros E. unfold update_channel in E. apply bind_Ret_inv in E as (sg & s0 & E0 & E). injection E0 as <- <-. destruct (monitors s !! o) as [h|] eqn:Eo; [|by injection E as <- <-].
  apply bind_Ret_inv in E as ([ur m] & s1 & E1 & E). injection E1 as Eu <-. apply applied_id in Eu. cbv zeta in E.
  apply bind_Ret_inv in E as (pr & s1 & E1 & E). apply (logged_outside (Stored o (from_monitor_update u))) in E1 as (M1 & P1 & C1 & _).
  assert (V1 : view s1 = view s) by (unfold view; by rewrite M1, P1). apply bind_Ret_inv in E as (u2 & s2 & E2 & E). injection E2 as <- <-. injection E as <- <-.
  exists [Stored o (from_monitor_update u) pr]. rewrite put_view, V1. split; [exact C1|]. cbn [follow foldl step]. rewrite (view_lookup _ _ _ Eo). unfold stored, set_latest, channel_of. cbn. rewrite Eu.
  destruct pr as [[]|[]]; cbn; by rewrite ?List.app_nil_r.
Qed.

Lemma finished_moves o u s r s' : (_ ← note (Finished o u); ignore (channel_monitor_updated o u)) s = (Ret r, s') -> moves s s'.
Proof.
  intros E. apply bind_Ret_inv in E as (u0 & s1 & E1 & E). unfold note, outside in E1. injection E1 as <- <-. set (s1 := mkChainMonitor _ _ _ _ _ _) in E.
  assert (V1 : view s1 = view s) by done. assert (C1 : calls s1 = calls s ++ [Finished o u]) by done. assert (M1 : monitors s1 = monitors s) by done. assert (P1 : pending_monitor_events s1 = pending_monitor_events s) by done. clearbody s1.
  exists [Finished o u]. cbn [follow foldl step]. apply bind_Ret_inv in E as (r1 & s2 & E & E2). injection E2 as <- <-. unfold channel_monitor_updated in E. apply bind_Ret_inv in E as (sg & s0 & E0 & E). injection E0 as <- <-.
  rewrite M1 in E. destruct (monitors s !! o) as [h|] eqn:Eo; [|injection E as <- <-; by rewrite (view_lookup_None _ _ Eo)]. cbv zeta in E.
  rewrite (view_lookup _ _ _ Eo). apply bind_Ret_inv in E as (u2 & s2' & E2 & E). injection E2 as <- <-. unfold finished, is_offchain at 1. destruct (contents u) as [id|id] eqn:Ec; cbn [andb] in *.
  - unfold has_pending_offchain_updates in E. cbn [pending_monitor_updates channel_of waiting dead latest] in *. destruct (existsb is_offchain _); cbn [orb negb andb] in *.
    + injection E as <- <-. rewrite put_view, V1, List.app_nil_r. done.
    + destruct (channel_perm_failed h); cbn [negb].
      * injection E as <- <-. rewrite put_view, V1, List.app_nil_r. done.
      * apply bind_Ret_inv in E as (u3 & s3 & E3 & E). injection E3 as <- <-. injection E as <- <-. split; [exact C1|]. etrans; [apply (push_view o _ (set_monitors _ s1))|]. rewrite put_view, V1. done.
  - apply bind_Ret_inv in E as (u3 & s3 & E3 & E). injection E as <- <-. rewrite List.app_nil_r. unfold has_pending_chainsync_updates in E3. destruct (existsb is_chainsync _).
    + injection E3 as <- <-. rewrite put_view, V1. done.
    + injection E3 as <- <-. split; [exact C1|]. unfold view. cbn. by rewrite M1, P1, !fmap_insert, insert_insert_eq.
Qed.

Lemma release_moves states : forall events s r s', ahead states s -> release_each states events s = (Ret r, s') -> moves s s'.
Proof.
  induction states as [|[o h] rest IH]; intros events s r s' Ha E; cbn [release_each] in E; [by injection E as <- <-|]. apply ahead_cons in Ha as [Eh Ha].
  apply bind_Ret_inv in E as (sg & s0 & E0 & E). injection E0 as <- <-. destruct (held _ h).
  - eapply IH; [|exact E]. apply (Ha s h). by rewrite insert_id.
  - cbn [get_and_clear_pending_monitor_events recorded_ops] in E. pose proof (monitor_events_id (monitor h)) as Hid. destruct (get_and_clear_pending_monitor_events (monitor h)) as [evs m]. cbn [snd] in Hid.
    apply bind_Ret_inv in E as (u & s1 & E1 & E). injection E1 as <- <-. etrans; [by apply (touch_moves o h m (last_chain_persist_height h) s)|]. eapply IH; [|exact E]. by eapply Ha.
Qed.

Lemma take_events_moves states : forall events s r s', ahead states s -> take_events states events s = (Ret r, s') -> moves s s'.
Proof.
  induction states as [|[o h] rest IH]; intros events s r s' Ha E; cbn [take_events] in E; [by injection E as <- <-|]. apply ahead_cons in Ha as [Eh Ha].
  cbn [mon_get_and_clear_pending_events recorded_ops] in E. pose proof (events_id (monitor h)) as Hid. destruct (mon_get_and_clear_pending_events (monitor h)) as [evs m]. cbn [snd] in Hid.
  apply bind_Ret_inv in E as (u & s1 & E1 & E). injection E1 as <- <-. etrans; [by apply (touch_moves o h m (last_chain_persist_height h) s)|]. eapply IH; [|exact E]. by eapply Ha.
Qed.

Lemma quiet_handle events : keeps same (handle_all (Henv := recorded) (Monitor := Monitor) (HTLCUpdate := HTLCUpdate) events).
Proof. induction events as [|e events IH]; cbn [handle_all]; [apply keeps_ret, _|]. by apply keeps_bind; [apply _|apply quiet_outside|]. Qed.

Lemma run_op_moves fuel op s u s' : run_op fuel op s = (Ret u, s') -> moves s s'.
Proof.
  intros E. destruct op; cbn [run_op] in E.
  - apply bind_Ret_inv in E as (r & s1 & E1 & E). injection E as <- <-. by eapply watch_moves.
  - apply bind_Ret_inv in E as (r & s1 & E1 & E). injection E as <- <-. by eapply update_moves.
  - by eapply finished_moves.
  - eapply process_chain_data_moves; [|exact E]. intros t. apply unlogged_id. intros m w outs m' w' Ew. by apply (connected_id _ _ _ _ _ _ _ _ Ew).
  - eapply process_chain_data_moves; [|exact E]. intros t. apply unlogged_id. intros m w outs m' w' Ew. by apply (confirmed_id _ _ _ _ _ _ _ _ Ew).
  - eapply process_chain_data_moves; [|exact E]. intros [|? ?]; [apply unlogged_id; intros m w outs m' w' Ew; by apply (best_id _ _ _ _ _ _ _ Ew)|]. intros m w outs m' w' Ew. discriminate Ew.
  - apply bind_Ret_inv in E as (sg & s0 & E0 & E). injection E0 as <- <-. eapply on_each_moves; [|apply each_ahead|exact E]. intros m w m' w' Ew. by apply (disconnected_id _ _ _ _ _ _ Ew).
  - apply bind_Ret_inv in E as (sg & s0 & E0 & E). injection E0 as <- <-. eapply on_each_moves; [|apply each_ahead|exact E]. intros m w m' w' Ew. by apply (unconfirmed_id _ _ _ _ _ Ew).
  - apply bind_Ret_inv in E as (u0 & s1 & E1 & E). unfold note, outside in E1. injection E1 as <- <-. set (s1 := mkChainMonitor _ _ _ _ _ _) in E.
    apply bind_Ret_inv in E as (evs & s2 & E2 & E). injection E as <- <-. unfold release_pending_monitor_events in E2. apply bind_Ret_inv in E2 as (sg & s0 & E0 & E2). injection E0 as <- <-.
    apply bind_Ret_inv in E2 as (u3 & s3 & E3 & E2). injection E3 as <- <-. apply release_moves in E2; [|apply (each_ahead s1)]. etrans; [|exact E2]. by exists [Released].
  - apply bind_Ret_inv in E as (sg & s0 & E0 & E). injection E0 as <- <-. apply bind_Ret_inv in E as (evs & s1 & E1 & E). apply take_events_moves in E1; [|apply each_ahead]. etrans; [exact E1|]. apply same_moves. by apply (quiet_handle _ _ _ _ E).
Qed.

Lemma run_ops_moves fuel ops : forall s u s', run_ops fuel ops s = (Ret u, s') -> moves s s'.
Proof.
  induction ops as [|op ops IH]; intros s u s' E; cbn [run_ops] in E; [by injection E as <- <-|]. apply bind_Ret_inv in E as (u1 & s1 & E1 & E). etrans; [by eapply run_op_moves|by eapply IH].
Qed.

Lemma reached_view source w fuel ops x (s : CM) : run_ops fuel ops (new_chain_monitor source (w, [])) = (Ret x, s) -> view s = follow start (calls s).
Proof. intros E. apply run_ops_moves in E as (new & C & V). cbn in C. by rewrite C, V. Qed.

(** C24: whatever the channel manager, the chain and the user call, in whatever order and with
    whatever the persister and the chain source answer, the chain monitor is at every point where
    the protocol is after the calls so far: the same updates wait, the same channels are dead, and
    the same notices are queued. *)
Theorem chain_monitor_refines (source : bool) (w : W) fuel ops u (s : CM) :
  run_ops fuel ops (new_chain_monitor source (w, [])) = (Ret u, s) -> view s = follow start (calls s).
Proof. apply reached_view. Qed.

(** C25: a channel is told to go on, and from its latest update, only when every off-chain update
    the persister asked time for has been reported as done, this one included, and only when no
    update of it failed for good. *)
Theorem completed_only_when_done (source : bool) (w : W) fuel ops x (s : CM) o u r s' :
  run_ops fuel ops (new_chain_monitor source (w, [])) = (Ret x, s) ->
  channel_monitor_updated o u s = (Ret r, s') -> pending_monitor_events s' <> pending_monitor_events s ->
  exists h, monitors s !! o = Some h /\
    pending_monitor_events s' = pending_monitor_events s ++ [(o, [UpdateCompleted o (get_latest_update_id (monitor h))])] /\
    (forall l1 call l2 v, calls s = l1 ++ call :: l2 -> asked (follow start l1) call o v -> is_offchain v = true -> v = u \/ Finished o v ∈ l2) /\
    (forall l1 v l2, calls s = l1 ++ Stored o v (Err PermanentFailure) :: l2 -> chans (follow start l1) !! o = None).
Proof.
  intros Erun E Hne. apply reached_view in Erun. unfold channel_monitor_updated in E. apply bind_Ret_inv in E as (sg & s0 & E0 & E). injection E0 as <- <-.
  destruct (monitors s !! o) as [h|] eqn:Eo; [|injection E as <- <-; done]. cbv zeta in E. apply bind_Ret_inv in E as (u2 & s2 & E2 & E). injection E2 as <- <-.
  destruct (contents u) as [id|id] eqn:Ec.
  2: { apply bind_Ret_inv in E as (u3 & s3 & E3 & E). injection E as <- <-. destruct (has_pending_chainsync_updates _); injection E3 as <- <-; done. }
  destruct (has_pending_offchain_updates _) eqn:Ep; cbn [orb] in E; [injection E as <- <-; done|]. destruct (channel_perm_failed h) eqn:Ef; [injection E as <- <-; done|].
  apply bind_Ret_inv in E as (u3 & s3 & E3 & E). injection E3 as <- <-. injection E as <- <-. exists h. split; [done|]. split; [done|].
  pose proof (view_lookup _ _ _ Eo) as Ev. rewrite Erun in Ev. split.
  - intros l1 call l2 v El Ha Hv. rewrite El in Ev. destruct (asked_waits l1 call l2 o v Ha) as (c & Ec' & Hw). rewrite Ev in Ec'. injection Ec' as <-. destruct Hw as [Hw|Hw]; [|by right]. left.
    destruct (decide (v = u)) as [|Hn]; [done|]. exfalso. unfold has_pending_offchain_updates in Ep. cbn in Ep, Hw. apply not_true_iff_false in Ep. apply Ep. apply existsb_exists. exists v. split; [|done].
    apply list_elem_of_In, list_elem_of_filter. done.
  - intros l1 v l2 El. rewrite El in Ev. destruct (chans (follow start l1) !! o) as [c0|] eqn:E1; [|done]. destruct (failed_dead l1 o v l2 ltac:(by rewrite E1)) as (c & Ec' & Hd). rewrite Ev in Ec'. injection Ec' as <-. cbn in Hd. congruence.
Qed.
End Recorded.

(** ** One channel and a slow persister *)

Module ToyChain.
Record monitor_t := mkM { at_id : Z; tells : list (MonitorEvent Z Z) }.

#[local] Instance toy_api : MonitorApi Z monitor_t Z := {|
  get_funding_txo _ := Disk.mkOutPoint 7 0; get_latest_update_id := at_id; update_id u := u;
  update_monitor m u := Ret (Ok tt, mkM u (tells m)); write_monitor _ := []; read_monitor _ := None; write_update _ := []; read_update _ := None |}.
(** Every block tells of an HTLC. *)
#[local] Instance toy_ops : MonitorOps (list (result unit ChannelMonitorUpdateErr)) Z monitor_t Z Z Z Z Z Z Z := {|
  block_hash h := h; mon_block_connected h _ _ m := mret ([], mkM (at_id m) (tells m ++ [HTLCEvent h]));
  mon_transactions_confirmed _ _ _ m := mret ([], m); mon_best_block_updated _ _ m := mret ([], m);
  mon_block_disconnected _ _ m := mret m; mon_transaction_unconfirmed _ m := mret m; mon_get_relevant_txids _ := []; mon_get_claimable_balances _ := [];
  get_and_clear_pending_monitor_events m := (tells m, mkM (at_id m) []); mon_get_and_clear_pending_events m := ([], m);
  funding_script _ := []; get_outputs_to_watch _ := []; txid_cmp := Z.compare |}.
#[local] Instance toy_laws : MonitorOpsLaws toy_ops.
Proof. split; intros; try match goal with E : _ = _ |- _ => injection E; intros; subst end; done. Qed.

(** The world is the list of answers to come. *)
Definition answer : prog (list (result unit ChannelMonitorUpdateErr)) (result unit ChannelMonitorUpdateErr) :=
  fun w => match w with r :: w' => (Ret r, w') | [] => (Ret (Ok tt), []) end.
#[local] Instance toy_env : Surroundings (list (result unit ChannelMonitorUpdateErr)) Z monitor_t Z Z Z Z := {|
  persist_new_channel _ _ _ := answer; update_persisted_channel _ _ _ _ := answer; register_tx _ _ := mret tt; register_output _ := mret None;
  on_event _ := mret tt; iter V l := l |}.
#[local] Instance toy_iter : IterLaws toy_env.
Proof. intros V l. reflexivity. Qed.
#[local] Instance toy_sort : UnstableSort := {| sort_unstable_by _ _ l := l |}.

Definition toy_o : Disk.OutPoint Z := Disk.mkOutPoint 7 0.
(** The first update and the second take time, the block does not. *)
Definition slow : list (result unit ChannelMonitorUpdateErr) := [Err TemporaryFailure; Ok tt; Err TemporaryFailure].
Definition toy_calls : list (Op (Txid := Z) (Monitor := monitor_t) (Update := Z) (Header := Z) (Tx := Z)) :=
  [Watch toy_o (mkM 0 []); BlockConnected 100 [] 5; UpdateChannel toy_o 1; Persisted toy_o (mkUpdateId (OffChain 0))].
Definition toy_run := run_ops (HTLCUpdate := Z) (Hops := toy_ops) (Henv := toy_env) 3 toy_calls (new_chain_monitor false (slow, [])).

Definition toy_state := toy_run.2.
Lemma toy_returns : toy_run = (Ret tt, toy_state).
Proof. unfold toy_state. rewrite (surjective_pairing toy_run) at 1. by f_equal. Qed.

Lemma chain_monitor_refines_witness : view toy_state = follow start (calls toy_state) /\ length (calls toy_state) = 4%nat.
Proof. split; [exact (chain_monitor_refines (Hops := toy_ops) (Henv := toy_env) false slow 3 toy_calls tt toy_state toy_returns)|]. vm_compute. reflexivity. Defined.

(** When the second is done as well, the channel goes on from it. *)
Definition toy_done := channel_monitor_updated toy_o (mkUpdateId (OffChain 1)) toy_state.
Lemma toy_done_returns : toy_done = (Ret (Ok tt), toy_done.2).
Proof. rewrite (surjective_pairing toy_done) at 1. by f_equal. Qed.
Lemma completed_only_when_done_witness : exists h, monitors toy_state !! toy_o = Some h /\
  pending_monitor_events toy_done.2 = pending_monitor_events toy_state ++ [(toy_o, [UpdateCompleted toy_o (get_latest_update_id (monitor h))])].
Proof.
  destruct (completed_only_when_done (Hops := toy_ops) (Henv := toy_env) false slow 3 toy_calls tt toy_state toy_o (mkUpdateId (OffChain 1)) (Ok tt) toy_done.2 toy_returns toy_done_returns) as (h & Eh & Ep & _).
  - vm_compute. discriminate.
  - exists h. split; [exact Eh|exact Ep].
Defined.

(** What a block told is kept while the persister has not stored it, for three blocks. *)
Definition after (ops : list (Op (Txid := Z) (Monitor := monitor_t) (Update := Z) (Header := Z) (Tx := Z))) :=
  (run_ops (HTLCUpdate := Z) (Hops := toy_ops) (Henv := toy_env) 3 (Watch toy_o (mkM 0 []) :: ops) (new_chain_monitor false ([Ok tt; Err TemporaryFailure], []))).2.
Example events_wait :
  (release_pending_monitor_events (after [BlockConnected 100 [] 5])).1 = Ret [] /\
  (release_pending_monitor_events (after [BlockConnected 100 [] 5; Persisted toy_o (mkUpdateId (ChainSync 0))])).1 = Ret [(toy_o, [HTLCEvent 100])] /\
  (release_pending_monitor_events (after [BlockConnected 100 [] 5; BestBlockUpdated 101 8])).1 = Ret [(toy_o, [HTLCEvent 100])].
Proof. split_and!; vm_compute; reflexivity. Qed.
End ToyChain.
