(* ===== verification/Json.v ===== *)
(** * Json: serde_json values and the Bitcoin Core RPC client

    The JSON values the program inspects, with the accessors of [serde_json::Value]
    it calls; IEEE-754 binary64 numbers as the Standard Library's [spec_float]; and
    [RpcClient] of rust-lightning/lightning-block-sync/src/rpc.rs with the
    conversions of that crate's convert.rs. *)

From Stdlib Require Import SpecFloat.
From S2P Require Import Prelude Text HexUtils Bytes Fs.

Local Open Scope Z_scope.

(** ** Binary64 *)

Module F64.
Definition prec : Z := 53.
Definition emax : Z := 1024.

Definition of_Z (z : Z) : spec_float := binary_normalize prec emax z 0 false.
Definition mul : spec_float -> spec_float -> spec_float := SFmul prec emax.
Definition div : spec_float -> spec_float -> spec_float := SFdiv prec emax.

(** [f64::round] (half away from zero) of [m * 2^e], for [m > 0]. *)
Definition round_pos (m : positive) (e : Z) : Z :=
  if 0 <=? e then Z.pos m * 2 ^ e else (Z.pos m + 2 ^ (- e - 1)) / 2 ^ (- e).

(** [x.round() as u32]: the cast saturates and sends NaN to 0. *)
Definition round_as_u32 (f : spec_float) : Z :=
  match f with
  | S754_nan => 0
  | S754_zero _ => 0
  | S754_infinity neg => if neg then 0 else U32_MAX
  | S754_finite neg m e => if neg then 0 else Z.min (round_pos m e) U32_MAX
  end.

Lemma round_as_u32_u32 f : u32 (round_as_u32 f).
Proof.
  assert (H : forall m e, 0 <= round_pos m e).
  { intros m e. unfold round_pos. destruct (Z.leb_spec 0 e).
    - apply Z.mul_nonneg_nonneg; [lia|]. apply Z.pow_nonneg. lia.
    - apply Z.div_pos; [|apply Z.pow_pos_nonneg; lia].
      pose proof (Z.pow_nonneg 2 (- e - 1)). lia. }
  assert (HU : U32_MAX = 2 ^ 32 - 1) by done.
  unfold round_as_u32, in_width. destruct f as [| [] | |[] m e]; try specialize (H m e); lia.
Qed.
End F64.

(** ** Values *)

Inductive number :=
| PosInt (n : Z)
| NegInt (n : Z)
| Float (f : spec_float).

Inductive json :=
| JNull
| JBool (b : bool)
| JNum (n : number)
| JStr (s : string)
| JArr (l : list json)
| JObj (fields : list (string * json)).

Fixpoint lookup_field (k : string) (fields : list (string * json)) : option json :=
  match fields with
  | [] => None
  | (k', v) :: fs => if decide (k = k') then Some v else lookup_field k fs
  end.

(** [value[key]]: a missing key, or a value that is no object, gives [Null]. *)
Definition index (j : json) (k : string) : json :=
  match j with JObj fields => default JNull (lookup_field k fields) | _ => JNull end.

Definition index_arr (j : json) (n : nat) : json :=
  match j with JArr l => default JNull (l !! n) | _ => JNull end.

Definition is_null (j : json) : bool := match j with JNull => true | _ => false end.
Definition is_object (j : json) : bool := match j with JObj _ => true | _ => false end.
Definition as_str (j : json) : option string := match j with JStr s => Some s | _ => None end.
Definition as_bool (j : json) : option bool := match j with JBool b => Some b | _ => None end.
Definition as_u64 (j : json) : option Z := match j with JNum (PosInt n) => Some n | _ => None end.
Definition as_i64 (j : json) : option Z :=
  match j with
  | JNum (PosInt n) => if n <=? 2 ^ 63 - 1 then Some n else None
  | JNum (NegInt n) => Some n
  | _ => None
  end.
Definition as_f64 (j : json) : option spec_float :=
  match j with
  | JNum (PosInt n) | JNum (NegInt n) => Some (F64.of_Z n)
  | JNum (Float f) => Some f
  | _ => None
  end.

(** [serde_json::json!] of an integer and of a string. *)
Definition jint (z : Z) : json := JNum (if 0 <=? z then PosInt z else NegInt z).

(** ** lightning-block-sync/src/rpc.rs *)

(** [HttpClient::post] fails with the body of an HTTP error or with another error. *)
Inductive post_error :=
| HttpError (status_code : string) (contents : bytes)
| PostIo (e : io_error).

Section Rpc.
(** The server, serde_json's parser of response bodies, and [from_utf8_lossy]. *)
Context {Server : Type} (post : json -> Server -> result json post_error * Server)
  (parse_body : bytes -> option json) (from_utf8_lossy : bytes -> string).

(** [impl Display for HttpError]. *)
Definition http_error (status_code : string) (contents : bytes) : io_error :=
  Custom Other ("status_code: " +:+ status_code +:+ ", contents: " +:+ from_utf8_lossy contents).

Record RpcClient := mkRpcClient { rpc_id : Z; server : Server }.

Definition invalid_data (msg : string) : io_error := Custom InvalidData msg.

(** What [call_method] makes of the response to one request. *)
Definition interpret_response (r : result json post_error) : result json io_error :=
  let! response := match r with
             | Ok response => Ok response
             | Err (HttpError code contents) =>
                 match parse_body contents with
                 | Some response => Ok response
                 | None => Err (http_error code contents)
                 end
             | Err (PostIo e) => Err e
             end in
  if negb (is_object response) then Err (invalid_data "expected JSON object")
  else
    let error := index response "error" in
    if negb (is_null error)
    then Err (Custom Other (default "unknown error" (as_str (index error "message"))))
    else
      let result := index response "result" in
      if is_null result then Err (invalid_data "expected JSON result") else Ok result.

(** [RpcClient::call_method], with the [try_into] of its result type. *)
Definition call_method {T} (try_into : json -> outcome (result T io_error))
    (method : string) (params : list json) : prog RpcClient (result T io_error) :=
  fun c =>
    let content := JObj [("method", JStr method); ("params", JArr params);
                         ("id", JStr (to_string (rpc_id c)))] in
    let '(r, s) := post content (server c) in
    let c' := mkRpcClient (rpc_id c + 1) s in
    match interpret_response r with
    | Err e => (Ret (Err e), c')
    | Ok result => (try_into result, c')
    end.
End Rpc.
Arguments RpcClient : clear implicits.
Arguments mkRpcClient {Server}.
Arguments rpc_id {Server}.
Arguments server {Server}.

(** ** lightning-block-sync/src/convert.rs *)

Inductive BlockSourceErrorKind := Persistent | Transient.

(** [From<std::io::Error> for BlockSourceError]: only malformed data is persistent.
    An error of the operating system (a socket that fails or times out) has neither of
    the two kinds. *)
Definition block_source_error (e : io_error) : BlockSourceErrorKind :=
  match e with
  | Custom InvalidData _ => Persistent
  | Custom InvalidInput _ => Persistent
  | _ => Transient
  end.

Section Convert.
Context {BlockHash : Type} (blockhash_from_hex : string -> option BlockHash)
  {Tx : Type} (deserialize : bytes -> option Tx).

(** [Vec::<u8>::from_hex] of the bitcoin crate: whole bytes of hex digits. *)
Definition vec_from_hex (s : string) : option bytes :=
  if Z.even (len s) then to_vec s else None.

(** [TryInto<(BlockHash, Option<u32>)> for JsonResponse]. *)
Definition try_into_best_block (j : json) : result (BlockHash * option Z) io_error :=
  if negb (is_object j) then Err (invalid_data "expected JSON object")
  else
    let! hash := match index j "bestblockhash" with
           | JStr hex_data =>
               match blockhash_from_hex hex_data with
               | None => Err (invalid_data "invalid hex data")
               | Some block_hash => Ok block_hash
               end
           | _ => Err (invalid_data "expected JSON string")
           end in
    let! height := match index j "blocks" with
             | JNull => Ok None
             | JNum n =>
                 match as_u64 (JNum n) with
                 | None => Err (invalid_data "invalid height")
                 | Some height =>
                     if height <=? U32_MAX then Ok (Some height) else Err (invalid_data "invalid height")
                 end
             | _ => Err (invalid_data "expected JSON number")
             end in
    Ok (hash, height).

(** [TryInto<Txid>] and [TryInto<Block>] for [JsonResponse] differ in the type and in
    the message for data that does not deserialize. *)
Definition try_into_hex (msg : string) (j : json) : result Tx io_error :=
  match as_str j with
  | None => Err (invalid_data "expected JSON string")
  | Some hex_data =>
      match vec_from_hex hex_data with
      | None => Err (invalid_data "invalid hex data")
      | Some data =>
          match deserialize data with
          | None => Err (invalid_data msg)
          | Some x => Ok x
          end
      end
  end.

Definition try_into_txid : json -> result Tx io_error := try_into_hex "invalid txid".
Definition try_into_block : json -> result Tx io_error := try_into_hex "invalid block data".

(** [TryInto<Transaction> for JsonResponse]. *)
Definition try_into_transaction (j : json) : result Tx io_error :=
  let! hex_tx := (if is_object j then
              match index j "hex" with
              | JStr hex_data =>
                  match index j "complete" with
                  | JBool false =>
                      let reason := match index (index_arr (index j "errors") 0) "error" with
                                    | JStr x => x | _ => "Unknown error" end in
                      Err (invalid_data ("transaction couldn't be signed. " +:+ reason))
                  | _ => Ok hex_data
                  end
              | _ => Err (invalid_data "expected JSON string")
              end
            else match as_str j with
                 | Some hex_tx => Ok hex_tx
                 | None => Err (invalid_data "expected JSON string")
                 end) in
  match vec_from_hex hex_tx with
  | None => Err (invalid_data "invalid hex data")
  | Some tx_data =>
      match deserialize tx_data with
      | None => Err (invalid_data "invalid transaction")
      | Some tx => Ok tx
      end
  end.
End Convert.
