(* ===== verification/Bitcoind.v ===== *)
(** * Bitcoind: src/bitcoind_client.rs and src/convert.rs

    The RPC client of the node's bitcoind: the conversions of its answers, the fee
    estimates it polls every minute, the transaction calls of the funding flow and
    the broadcaster with its list of harmless errors. *)

From Stdlib Require Import SpecFloat.
From S2P Require Import Prelude Text HexUtils Bytes Fs Json.

Local Open Scope Z_scope.

(** ** src/convert.rs *)

Record FundedTx := mkFundedTx { changepos : Z; funded_hex : string }.
Record SignedTx := mkSignedTx { complete : bool; signed_hex : string }.
Record FeeResponse := mkFeeResponse { feerate_sat_per_kw : option Z; errored : bool }.
Record BlockchainInfo (BlockHash : Type) := mkBlockchainInfo {
  latest_height : Z; latest_blockhash : BlockHash; chain : string }.
Arguments mkBlockchainInfo {BlockHash}.
Arguments latest_height {BlockHash}.
Arguments latest_blockhash {BlockHash}.
Arguments chain {BlockHash}.

Definition unwrapped {A} (o : option A) : outcome A :=
  unwrap "called `Option::unwrap()` on a `None` value" o.

Definition try_into_funded_tx (j : json) : outcome (result FundedTx io_error) :=
  changepos ← unwrapped (as_i64 (index j "changepos"));
  hex ← unwrapped (as_str (index j "hex"));
  Ret (Ok (mkFundedTx changepos hex)).

(** [RawTx] and [NewAddress] are the string itself. *)
Definition try_into_raw_tx (j : json) : outcome (result string io_error) :=
  s ← unwrapped (as_str j); Ret (Ok s).
Definition try_into_new_address (j : json) : outcome (result string io_error) :=
  s ← unwrapped (as_str j); Ret (Ok s).

Definition try_into_signed_tx (j : json) : outcome (result SignedTx io_error) :=
  hex ← unwrapped (as_str (index j "hex"));
  complete ← unwrapped (as_bool (index j "complete"));
  Ret (Ok (mkSignedTx complete hex)).

(** BTC per kvB to satoshis per 1000 weight units. *)
Definition sat_per_kw (feerate_btc_per_kvbyte : spec_float) : Z :=
  F64.round_as_u32 (F64.div (F64.mul feerate_btc_per_kvbyte (F64.of_Z 100000000)) (F64.of_Z 4)).

Definition try_into_fee_response (j : json) : outcome (result FeeResponse io_error) :=
  let errored := negb (is_null (index j "errors")) in
  Ret (Ok (mkFeeResponse (sat_per_kw <$> as_f64 (index j "feerate")) errored)).

Section Client.
Context {BlockHash : Type} (blockhash_from_hex : string -> option BlockHash).

Definition try_into_blockchain_info (j : json) : outcome (result (BlockchainInfo BlockHash) io_error) :=
  blocks ← unwrapped (as_u64 (index j "blocks"));
  best ← unwrapped (as_str (index j "bestblockhash"));
  hash ← unwrapped (blockhash_from_hex best);
  chain ← unwrapped (as_str (index j "chain"));
  Ret (Ok (mkBlockchainInfo blocks hash chain)).

(** ** src/bitcoind_client.rs *)

Inductive Target := Background | Normal | HighPriority.
(** [ConfirmationTarget] of lightning/src/chain/chaininterface.rs. *)
Inductive ConfirmationTarget := CtBackground | CtNormal | CtHighPriority.

Global Instance Target_eq_dec : EqDecision Target.
Proof. solve_decision. Defined.
Global Instance Target_countable : Countable Target.
Proof.
  refine (inj_countable' (fun t => match t with Background => 0%nat | Normal => 1%nat | HighPriority => 2%nat end)
    (fun n => match n with O => Background | 1%nat => Normal | _ => HighPriority end) _).
  by intros [].
Defined.

Definition MIN_FEERATE : Z := 253.

Context {Server : Type} (post : json -> Server -> result json post_error * Server)
  (parse_body : bytes -> option json) (from_utf8_lossy : bytes -> string).

Record BitcoindClient := mkClient {
  rpc_client : RpcClient Server;
  host : string;
  port : Z;
  rpc_user : string;
  rpc_password : string;
  fees : gmap Target Z;
}.

Definition set_rpc (r : RpcClient Server) (c : BitcoindClient) : BitcoindClient :=
  mkClient r (host c) (port c) (rpc_user c) (rpc_password c) (fees c).
Definition set_fees (f : gmap Target Z) (c : BitcoindClient) : BitcoindClient :=
  mkClient (rpc_client c) (host c) (port c) (rpc_user c) (rpc_password c) f.

Definition call {T} (try_into : json -> outcome (result T io_error)) (method : string)
    (params : list json) : prog BitcoindClient (result T io_error) :=
  fun c =>
    let '(o, r) := call_method post parse_body from_utf8_lossy try_into method params (rpc_client c) in
    (o, set_rpc r c).

(** [.await.unwrap()]. *)
Definition call_unwrap {T} (try_into : json -> outcome (result T io_error)) (method : string)
    (params : list json) : prog BitcoindClient T :=
  r ← call try_into method params;
  lift (unwrap_result "called `Result::unwrap()` on an `Err` value" r).

(** The fees before the first poll. *)
Definition initial_fees : gmap Target Z :=
  <[HighPriority := 5000]> (<[Normal := 2000]> (<[Background := MIN_FEERATE]> ∅)).

(** [BitcoindClient::new], once connected ([RpcClient::new] opens the socket). *)
Definition new (r0 : Server) (host : string) (port : Z) (rpc_user rpc_password : string) :
    outcome (result BitcoindClient io_error) :=
  let client := mkClient (mkRpcClient 0 r0) host port rpc_user rpc_password initial_fees in
  let '(o, c) := call try_into_blockchain_info "getblockchaininfo" [] client in
  match o with
  | Ret (Ok _) => Ret (Ok c)
  | Ret (Err _) =>
      Ret (Err (Custom PermissionDenied "Failed to make initial call to bitcoind - please check your RPC user/password and access settings"))
  | Panic w => Panic w
  | OutOfFuel => OutOfFuel
  end.

(** One "estimatesmartfee" call and the choice of the estimate. *)
Definition estimate (conf_target : Z) (mode : string) (fallback : Z) : prog BitcoindClient Z :=
  resp ← call_unwrap try_into_fee_response "estimatesmartfee" [jint conf_target; JStr mode];
  mret (match feerate_sat_per_kw resp with
        | Some feerate => Z.max feerate MIN_FEERATE
        | None => fallback
        end).

(** [fees.get(&t).unwrap().store(v)]: the map itself is fixed, only the atomics in it
    change. *)
Definition store_fee (t : Target) (v : Z) : prog BitcoindClient unit :=
  fun c =>
    match fees c !! t with
    | Some _ => (Ret tt, set_fees (<[t := v]> (fees c)) c)
    | None => (Panic "called `Option::unwrap()` on a `None` value", c)
    end.

(** One iteration of the loop of [poll_for_fee_estimates]. *)
Definition poll_once : prog BitcoindClient unit :=
  background_estimate ← estimate 144 "ECONOMICAL" MIN_FEERATE;
  normal_estimate ← estimate 18 "ECONOMICAL" 2000;
  high_prio_estimate ← estimate 6 "CONSERVATIVE" 5000;
  _ ← store_fee Background background_estimate;
  _ ← store_fee Normal normal_estimate;
  store_fee HighPriority high_prio_estimate.

(** [n] iterations of the loop, which the source runs for ever. *)
Fixpoint poll_for_fee_estimates (n : nat) : prog BitcoindClient unit :=
  match n with
  | O => mret tt
  | S n' => _ ← poll_once; poll_for_fee_estimates n'
  end.

Definition target_of (t : ConfirmationTarget) : Target :=
  match t with CtBackground => Background | CtNormal => Normal | CtHighPriority => HighPriority end.

Definition get_est_sat_per_1000_weight (t : ConfirmationTarget) (c : BitcoindClient) : outcome Z :=
  unwrapped (fees c !! target_of t).

Definition get_blockchain_info : prog BitcoindClient (BlockchainInfo BlockHash) :=
  call_unwrap try_into_blockchain_info "getblockchaininfo" [].

(** An output map as JSON: one object per map. *)
Definition outputs_json (outputs : list (list (string * spec_float))) : json :=
  JArr ((fun o => JObj ((fun kv => (kv.1, JNum (Float kv.2))) <$> o)) <$> outputs).

Definition create_raw_transaction (outputs : list (list (string * spec_float))) : prog BitcoindClient string :=
  call_unwrap try_into_raw_tx "createrawtransaction" [JArr []; outputs_json outputs].

Definition fund_raw_transaction (raw_tx : string) : prog BitcoindClient FundedTx :=
  c ← get;
  feerate ← lift (get_est_sat_per_1000_weight CtNormal c);
  let options := JObj [("fee_rate", JNum (Float (F64.div (F64.of_Z feerate) (F64.of_Z 250))));
                       ("replaceable", JBool false)] in
  call_unwrap try_into_funded_tx "fundrawtransaction" [JStr raw_tx; options].

Definition sign_raw_transaction_with_wallet (tx_hex : string) : prog BitcoindClient SignedTx :=
  call_unwrap try_into_signed_tx "signrawtransactionwithwallet" [JStr tx_hex].

(** [Txid] is deserialized by the bitcoin crate, [Address::from_str] is of it too. *)
Context {Txid Address : Type} (txid_deserialize : bytes -> option Txid)
  (address_from_str : string -> option Address).

Definition try_into_txid_outcome (j : json) : outcome (result Txid io_error) :=
  Ret (try_into_txid txid_deserialize j).

Definition send_raw_transaction (raw_tx : string) : prog BitcoindClient unit :=
  _ ← call_unwrap try_into_txid_outcome "sendrawtransaction" [JStr raw_tx]; mret tt.

Definition get_new_address : prog BitcoindClient Address :=
  addr ← call_unwrap try_into_new_address "getnewaddress" [JStr "LDK output address"];
  lift (unwrapped (address_from_str addr)).

(** The errors of "sendrawtransaction" the broadcaster ignores. *)
Definition harmless (err_str : string) : bool :=
  contains err_str "Transaction already in block chain"
  || contains err_str "Inputs missing or spent"
  || contains err_str "bad-txns-inputs-missingorspent"
  || contains err_str "txn-mempool-conflict"
  || contains err_str "non-BIP68-final"
  || contains err_str "insufficient fee, rejecting replacement ".

(** The task [broadcast_transaction] spawns. *)
Definition broadcast_transaction (tx : bytes) : prog BitcoindClient unit :=
  r ← call try_into_txid_outcome "sendrawtransaction" [JStr (hex_str tx)];
  match r with
  | Ok _ => mret tt
  | Err e =>
      err_str ← lift (unwrapped (into_inner e));
      if harmless err_str then mret tt else panic err_str
  end.
End Client.
Arguments BitcoindClient : clear implicits.

(** ** Properties *)

Section ClientProperties.
Context {BlockHash : Type} (blockhash_from_hex : string -> option BlockHash)
  {Server : Type} (post : json -> Server -> result json post_error * Server)
  (parse_body : bytes -> option json) (from_utf8_lossy : bytes -> string).
Implicit Types c : BitcoindClient Server.

(** Every target has a feerate LDK accepts. *)
Definition fees_ok c : Prop :=
  forall t, exists v, fees c !! t = Some v /\ MIN_FEERATE <= v <= U32_MAX.

Abbreviation estimate' := (estimate post parse_body from_utf8_lossy).
Abbreviation poll_once' := (poll_once post parse_body from_utf8_lossy).

Lemma fee_response_u32 j r v :
  try_into_fee_response j = Ret (Ok r) -> feerate_sat_per_kw r = Some v -> u32 v.
Proof.
  intros [= <-] H. cbn in H. destruct (as_f64 (index j "feerate")); [|done]. cbn in H. simplify_eq.
  apply F64.round_as_u32_u32.
Qed.

(** An RPC touches nothing but the RPC client. *)
Lemma call_fees {T} (f : json -> outcome (result T io_error)) m ps c o c' :
  call post parse_body from_utf8_lossy f m ps c = (o, c') -> fees c' = fees c.
Proof. unfold call. intros H. destruct (call_method _ _ _ _ _ _ _) as [o' r]. by simplify_eq. Qed.

Lemma call_unwrap_fees {T} (f : json -> outcome (result T io_error)) m ps c o c' :
  call_unwrap post parse_body from_utf8_lossy f m ps c = (o, c') -> fees c' = fees c.
Proof.
  unfold call_unwrap, mbind, prog_bind. destruct (call _ _ _ _ _ _ _) as [o1 c1] eqn:E.
  apply call_fees in E. destruct o1; unfold lift; intros; simplify_eq; by rewrite ?E.
Qed.

Lemma estimate_fees n mode d c o c' : estimate' n mode d c = (o, c') -> fees c' = fees c.
Proof.
  unfold estimate. intros H. unfold mbind, prog_bind in H.
  destruct (call_unwrap _ _ _ _ _ _ _) as [o1 c1] eqn:E. apply call_unwrap_fees in E.
  destruct o1; unfold mret, prog_ret in H; simplify_eq; congruence.
Qed.

Lemma estimate_bounds n mode d c v c' :
  MIN_FEERATE <= d <= U32_MAX -> estimate' n mode d c = (Ret v, c') -> MIN_FEERATE <= v <= U32_MAX.
Proof.
  intros Hd H. unfold estimate, call_unwrap in H. unfold mbind, prog_bind in H.
  destruct (call _ _ _ _ _ _ _) as [o1 c1] eqn:E. destruct o1 as [r| |]; cbn in H; [|by simplify_eq..].
  destruct r as [resp|e]; cbn in H; [|by simplify_eq]. unfold mret, prog_ret in H. simplify_eq.
  destruct (feerate_sat_per_kw resp) as [f|] eqn:Ef; [|done].
  unfold call, call_method in E. destruct (post _ _) as [r s].
  destruct (interpret_response _ _ _) as [j|e]; [|by simplify_eq]. assert (E' : try_into_fee_response j = Ret (Ok resp)) by congruence.
  pose proof (fee_response_u32 j resp f E' Ef) as [? ?].
  assert (U32_MAX = 2 ^ 32 - 1) by done. lia.
Qed.

Lemma store_fee_ok t v c :
  fees_ok c -> MIN_FEERATE <= v <= U32_MAX ->
  exists c', store_fee t v c = (Ret tt, c') /\ fees c' = <[t := v]> (fees c) /\ fees_ok c'.
Proof.
  intros Hc Hv. unfold store_fee. destruct (Hc t) as (v0 & -> & _). eexists. split; [done|].
  split; [done|]. intros t'. cbn. destruct (decide (t = t')) as [->|Hn].
  - rewrite lookup_insert_eq. eauto.
  - rewrite lookup_insert_ne by done. apply Hc.
Qed.

(** One poll replaces all three feerates or, when an RPC fails and the task panics,
    none of them. *)
Lemma poll_once_cases c o c' :
  fees_ok c -> poll_once' c = (o, c') ->
  fees_ok c' /\ (fees c' = fees c \/ o = Ret tt).
Proof.
  intros Hc H. unfold poll_once in H.
  assert (Hsame : forall c1, fees c1 = fees c -> fees_ok c1) by (intros c1 E t; rewrite E; apply Hc).
  unfold mbind at 1, prog_bind at 1 in H.
  destruct (estimate' 144 _ _ c) as [[b| |] c1] eqn:E1; pose proof (estimate_fees _ _ _ _ _ _ E1) as F1;
    [|simplify_eq; auto..].
  unfold mbind at 1, prog_bind at 1 in H.
  destruct (estimate' 18 _ _ c1) as [[n| |] c2] eqn:E2; pose proof (estimate_fees _ _ _ _ _ _ E2) as F2;
    rewrite F1 in F2; [|simplify_eq; auto..].
  unfold mbind at 1, prog_bind at 1 in H.
  destruct (estimate' 6 _ _ c2) as [[p| |] c3] eqn:E3; pose proof (estimate_fees _ _ _ _ _ _ E3) as F3;
    rewrite F2 in F3; [|simplify_eq; auto..].
  apply estimate_bounds in E1, E2, E3; [|by_decide..].
  destruct (store_fee_ok Background b c3 (Hsame _ F3) E1) as (c4 & S4 & _ & H4).
  destruct (store_fee_ok Normal n c4 H4 E2) as (c5 & S5 & _ & H5).
  destruct (store_fee_ok HighPriority p c5 H5 E3) as (c6 & S6 & _ & H6).
  rewrite (prog_bind_Ret _ _ _ _ _ S4), (prog_bind_Ret _ _ _ _ _ S5), S6 in H.
  simplify_eq. auto.
Qed.

Lemma poll_fees_ok n c o c' :
  fees_ok c -> poll_for_fee_estimates post parse_body from_utf8_lossy n c = (o, c') -> fees_ok c'.
Proof.
  revert c. induction n as [|n IH]; intros c Hc H; [by cbn in H; unfold mret, prog_ret in H; simplify_eq|].
  cbn [poll_for_fee_estimates] in H. unfold mbind, prog_bind in H.
  destruct (poll_once' c) as [o1 c1] eqn:E. apply poll_once_cases in E as [H1 _]; [|done].
  destruct o1; [by eapply IH|by simplify_eq..].
Qed.

Lemma initial_fees_ok c : fees c = initial_fees -> fees_ok c.
Proof. intros E t. rewrite E. destruct t; eexists; (split; [reflexivity|by_decide]). Qed.

Lemma new_fees r0 h p u w c :
  new blockhash_from_hex post parse_body from_utf8_lossy r0 h p u w = Ret (Ok c) -> fees c = initial_fees.
Proof.
  unfold new. destruct (call _ _ _ _ _ _ _) as [o c1] eqn:E. apply call_fees in E.
  destruct o as [[]| |]; intros; by simplify_eq.
Qed.

(** Whatever bitcoind answers, and however often it was polled, the fee estimator
    returns, and what it returns is at least LDK's minimum of 253 and fits 32 bits. *)
Theorem fee_floor r0 h p u w c n o c' t :
  new blockhash_from_hex post parse_body from_utf8_lossy r0 h p u w = Ret (Ok c) ->
  poll_for_fee_estimates post parse_body from_utf8_lossy n c = (o, c') ->
  exists v, get_est_sat_per_1000_weight t c' = Ret v /\ MIN_FEERATE <= v <= U32_MAX.
Proof.
  intros Hnew Hpoll. pose proof (poll_fees_ok n c o c' (initial_fees_ok c (new_fees _ _ _ _ _ _ Hnew)) Hpoll) as H.
  destruct (H (target_of t)) as (v & E & Hv). exists v. unfold get_est_sat_per_1000_weight. by rewrite E.
Qed.

(** A poll is all or nothing: when an RPC fails the task panics with the feerates
    of the previous poll untouched. *)
Theorem poll_all_or_nothing c o c' :
  fees_ok c -> poll_once' c = (o, c') -> o <> Ret tt -> fees c' = fees c.
Proof. intros Hc H Ho. by destruct (poll_once_cases c o c' Hc H) as [_ [|]]. Qed.

Context {Txid : Type} (txid_deserialize : bytes -> option Txid).
Abbreviation broadcast := (broadcast_transaction post parse_body from_utf8_lossy txid_deserialize).

(** The reply of bitcoind to a rejected transaction: an HTTP error whose body is the
    JSON-RPC error. *)
Definition rejects c (tx : bytes) (msg : string) : Prop :=
  exists code contents s fields err,
    post (JObj [("method", JStr "sendrawtransaction"); ("params", JArr [JStr (hex_str tx)]);
                ("id", JStr (to_string (rpc_id (rpc_client c))))]) (server (rpc_client c))
      = (Err (HttpError code contents), s) /\
    parse_body contents = Some (JObj fields) /\
    lookup_field "error" fields = Some (JObj err) /\
    lookup_field "message" err = Some (JStr msg).

(** A transaction bitcoind rejects makes the broadcast task panic exactly when
    bitcoind's message is not one of the six harmless ones. *)
Theorem broadcast_rejected c tx msg :
  rejects c tx msg ->
  (broadcast tx c).1 = if harmless msg then Ret tt else Panic msg.
Proof.
  intros (code & contents & s & fields & err & Hpost & Hbody & Herr & Hmsg).
  unfold broadcast_transaction, call, call_method, mbind, prog_bind. rewrite Hpost.
  unfold interpret_response. cbn [rbind]. rewrite Hbody. cbn. rewrite Herr. cbn. rewrite Hmsg. cbn.
  by destruct (harmless msg).
Qed.
End ClientProperties.

(** ** Witnesses and examples *)

(** A server that refuses every transaction as already mined, and estimates 1 BTC. *)
Definition refusal : json :=
  JObj [("error", JObj [("code", jint (-27)); ("message", JStr "Transaction already in block chain")])].
Definition toy_post (_ : json) (s : bool) : result json post_error * bool :=
  if s then (Err (HttpError "500" []), s)
  else (Ok (JObj [("error", JNull);
              ("result", JObj [("blocks", jint 7); ("bestblockhash", JStr "00"); ("chain", JStr "test");
                               ("feerate", jint 1)])]), s).
Definition toy_new : outcome (result (BitcoindClient bool) io_error) :=
  new (fun s => Some s) toy_post (fun _ => Some refusal) (fun _ => "") false "h" 1 "u" "p".
Definition toy_client : BitcoindClient bool :=
  match toy_new with Ret (Ok c) => c | _ => mkClient (mkRpcClient 0 false) "" 0 "" "" ∅ end.

Lemma fee_floor_witness :
  exists v, get_est_sat_per_1000_weight CtNormal
      (exec (poll_for_fee_estimates toy_post (fun _ => Some refusal) (fun _ => "") 2) toy_client) = Ret v /\
    MIN_FEERATE <= v <= U32_MAX.
Proof.
  refine (fee_floor (fun s => Some s) toy_post (fun _ => Some refusal) (fun _ => "") false "h" 1 "u" "p"
    toy_client 2 (Ret tt) _ CtNormal _ _); vm_compute; reflexivity.
Defined.

Lemma poll_all_or_nothing_witness :
  fees (exec (poll_once toy_post (fun _ => Some refusal) (fun _ => ""))
          (set_rpc (mkRpcClient 0 true) toy_client)) = fees toy_client.
Proof.
  refine (poll_all_or_nothing toy_post (fun _ => Some refusal) (fun _ => "")
    (set_rpc (mkRpcClient 0 true) toy_client) (Panic "called `Result::unwrap()` on an `Err` value") _ _ _ _).
  - intros []; eexists; (split; [vm_compute; reflexivity|by_decide]).
  - vm_compute. reflexivity.
  - discriminate.
Defined.

Lemma broadcast_rejected_witness :
  (broadcast_transaction toy_post (fun _ => Some refusal) (fun _ => "") (fun _ => Some tt) [1; 2]
     (set_rpc (mkRpcClient 0 true) toy_client)).1 = Ret tt.
Proof.
  refine (broadcast_rejected toy_post (fun _ => Some refusal) (fun _ => "") (fun _ => Some tt)
    (set_rpc (mkRpcClient 0 true) toy_client) [1; 2] "Transaction already in block chain" _).
  repeat eexists; vm_compute; reflexivity.
Defined.

(** 0.00001 BTC/kvB is 250 sat/kW, 0.0002 BTC/kvB is 5000 sat/kW. *)
Example feerate_conversion :
  sat_per_kw (F64.div (F64.of_Z 1) (F64.of_Z 100000)) = 250 /\
  sat_per_kw (F64.div (F64.of_Z 2) (F64.of_Z 10000)) = 5000.
Proof. split; vm_compute; reflexivity. Qed.
