(* ===== verification/App.v ===== *)
(** * App: the state of the probing node and what it uses of LDK

    The data types of src/main.rs and src/cli.rs, the interface through which the
    application drives LDK (channel manager, peer manager, network graph, invoice
    payer: class [Ldk]), and the state all its handlers share: the three payment
    maps, the table of probe attempts, the file system, the Ctrl-C counter and the
    LDK node itself.  What a handler prints, logs or asks of LDK is recorded in
    [trace], oldest first.

    The application is multi-threaded: the background processor delivers events
    and the Ctrl-C handler runs while a command is being executed.  [pending_env]
    lists what the environment does at each point where a command sleeps or
    releases a lock; [Probe.v] and [ProbeAll.v] consume it. *)

From Stdlib Require Import SpecFloat.
From S2P Require Import Prelude Text HexUtils Bytes Fs Json Bitcoind.

Local Open Scope Z_scope.

(** ** src/main.rs data *)

Inductive HTLCStatus := Pending | Succeeded | Failed.

Definition MillisatAmount := option Z.

(** [impl fmt::Display for MillisatAmount]. *)
Definition display_amount (a : MillisatAmount) : string :=
  match a with Some amt => to_string amt | None => "unknown" end.

Record PaymentInfo := mkPayment {
  preimage : option bytes;
  secret : option bytes;
  status : HTLCStatus;
  amt_msat : MillisatAmount;
}.

Abbreviation PaymentHash := bytes.
Abbreviation PaymentInfoStorage := (gmap bytes PaymentInfo).

Inductive Network := Bitcoin | Testnet | Regtest | Signet.

Global Instance HTLCStatus_eq_dec : EqDecision HTLCStatus.
Proof. solve_decision. Defined.
Global Instance Network_eq_dec : EqDecision Network.
Proof. solve_decision. Defined.

(** ** src/cli.rs data *)

Record Node := mkNode { pubkey : string }.

Record Transaction := mkTx {
  block_height : Z;
  id : string;
  block_index : Z;
  transaction_index : Z;
  amount : Z;
}.

(** A date is whatever the database stores. *)
Record Attempt := mkAttempt {
  target_pubkey : string;
  guess_pubkey : string;
  channel_id : string;
  attempt_result : string;
  date_found : Z;
}.

Record AttemptResult := mkAttemptResult {
  r_target_pubkey : string;
  r_other_pubkey : string;
  r_channel_id : string;
  r_transaction_id_output : string;
  r_amount : Z;
  r_block_open : Z;
  r_date_found : Z;
}.

(** ** Keys *)

(** secp256k1 public keys and SHA-256 (the bitcoin crate). *)
Class Keys (PublicKey : Type) := {
  pk_eq_dec :: EqDecision PublicKey;
  pk_from_str : string -> option PublicKey;
  pk_from_slice : bytes -> option PublicKey;
  pk_to_string : PublicKey -> string;
  pk_serialize : PublicKey -> bytes;
  sha256 : bytes -> bytes;
}.

(** ** LDK data used by the application *)

Record RouteHintHop (PublicKey : Type) := mkHintHop {
  src_node_id : PublicKey;
  short_channel_id : Z;
  fee_base_msat : Z;
  fee_proportional_millionths : Z;
  cltv_expiry_delta : Z;
  htlc_minimum_msat : option Z;
  htlc_maximum_msat : option Z;
}.
Arguments mkHintHop {PublicKey}.
Arguments src_node_id {PublicKey}.
Arguments short_channel_id {PublicKey}.
Arguments fee_base_msat {PublicKey}.
Arguments fee_proportional_millionths {PublicKey}.
Arguments cltv_expiry_delta {PublicKey}.
Arguments htlc_minimum_msat {PublicKey}.
Arguments htlc_maximum_msat {PublicKey}.

Record RouteParameters (PublicKey : Type) := mkRouteParameters {
  payee_pubkey : PublicKey;
  route_hints : list (list (RouteHintHop PublicKey));
  final_value_msat : Z;
  final_cltv_expiry_delta : Z;
}.
Arguments mkRouteParameters {PublicKey}.
Arguments payee_pubkey {PublicKey}.
Arguments route_hints {PublicKey}.
Arguments final_value_msat {PublicKey}.
Arguments final_cltv_expiry_delta {PublicKey}.

Record RouteHop (PublicKey : Type) := mkHop { hop_pubkey : PublicKey; hop_scid : Z }.
Arguments mkHop {PublicKey}.
Arguments hop_pubkey {PublicKey}.
Arguments hop_scid {PublicKey}.

(** [err_action] is the text of the [ErrorAction]. *)
Record LightningError := mkLightningError { err : string; err_action : string }.

Inductive PaymentSendFailure :=
| ParameterError (e : string)
| PathParameterError (e : string)
| AllFailedRetrySafe (e : string)
| PartialFailure (results failed_paths_retry payment_id : string).

(** [{:?}] of these two; the texts they carry are already formatted. *)
Definition debug_lightning_error (e : LightningError) : string :=
  "LightningError { err: " +:+ debug_str (err e) +:+ ", action: " +:+ err_action e +:+ " }".
Definition debug_send_failure (e : PaymentSendFailure) : string :=
  match e with
  | ParameterError e => "ParameterError(" +:+ e +:+ ")"
  | PathParameterError e => "PathParameterError(" +:+ e +:+ ")"
  | AllFailedRetrySafe e => "AllFailedRetrySafe(" +:+ e +:+ ")"
  | PartialFailure r f i =>
      "PartialFailure { results: " +:+ r +:+ ", failed_paths_retry: " +:+ f +:+ ", payment_id: " +:+ i +:+ " }"
  end.

Inductive PaymentError :=
| InvoiceError (e : string)
| RoutingError (e : LightningError)
| SendingError (e : PaymentSendFailure).

Record ChannelDetails (PublicKey : Type) := mkChannelDetails {
  cd_channel_id : bytes;
  cd_counterparty : PublicKey;
  cd_funding_txid : option string;
  cd_short_channel_id : option Z;
  cd_channel_value_satoshis : Z;
  cd_unspendable_punishment_reserve : option Z;
  cd_balance_msat : Z;
  cd_outbound_capacity_msat : Z;
  cd_inbound_capacity_msat : Z;
  cd_is_channel_ready : bool;
  cd_is_usable : bool;
  cd_is_public : bool;
}.
Arguments cd_channel_id {PublicKey}.
Arguments cd_counterparty {PublicKey}.
Arguments cd_funding_txid {PublicKey}.
Arguments cd_short_channel_id {PublicKey}.
Arguments cd_channel_value_satoshis {PublicKey}.
Arguments cd_unspendable_punishment_reserve {PublicKey}.
Arguments cd_balance_msat {PublicKey}.
Arguments cd_outbound_capacity_msat {PublicKey}.
Arguments cd_inbound_capacity_msat {PublicKey}.
Arguments cd_is_channel_ready {PublicKey}.
Arguments cd_is_usable {PublicKey}.
Arguments cd_is_public {PublicKey}.

(** The handshake settings the application changes from the defaults. *)
Record ChannelConfig := mkChannelConfig { announced_channel : bool; their_to_self_delay : Z }.

(** ** The LDK node

    One state [L] for the channel manager, the peer manager, the network graph,
    the scorer and the keys manager; operations that change it return it. *)
Class Ldk (PublicKey L : Type) := {
  Route : Type;
  Invoice : Type;
  SocketAddr : Type;
  get_our_node_id : L -> PublicKey;
  list_channels : L -> list (ChannelDetails PublicKey);
  first_hops : L -> list (ChannelDetails PublicKey);
  find_route : PublicKey -> RouteParameters PublicKey -> list (ChannelDetails PublicKey) -> bytes -> L ->
    result Route LightningError;
  send_payment : Route -> PaymentHash -> option bytes -> L -> result bytes PaymentSendFailure * L;
  debug_paths : Route -> string;
  claim_funds : bytes -> L -> L;
  funding_transaction_generated : bytes -> PublicKey -> bytes -> L -> result unit string * L;
  process_pending_htlc_forwards : L -> L;
  create_channel : PublicKey -> Z -> Z -> Z -> ChannelConfig -> L -> result bytes string * L;
  close_channel : bytes -> PublicKey -> L -> result unit string * L;
  force_close_broadcasting_latest_txn : bytes -> PublicKey -> L -> result unit string * L;
  get_peer_node_ids : L -> list PublicKey;
  connect_outbound : PublicKey -> SocketAddr -> L -> bool * L;
  connection_closed : PublicKey -> L -> bool;
  pay_invoice : Invoice -> L -> result bytes PaymentError * L;
  pay_pubkey : PublicKey -> bytes -> Z -> Z -> L -> result bytes PaymentError * L;
  create_invoice : Network -> option Z -> string -> Z -> L -> result Invoice string * L;
  invoice_from_str : string -> result Invoice string;
  invoice_payment_hash : Invoice -> bytes;
  invoice_payment_secret : Invoice -> bytes;
  invoice_amount_milli_satoshis : Invoice -> option Z;
  invoice_to_string : Invoice -> string;
  recover_payee_pub_key : Invoice -> PublicKey;
  sign_message : bytes -> L -> result string string;
  graph_nodes : L -> list bytes;
  graph_alias : L -> PublicKey -> option string;
  graph_channels : L -> gset Z;
  to_socket_addrs : string -> option (list SocketAddr);
}.

(** ** The other libraries the handlers call

    The bitcoind server with the JSON parser of its answers (see Bitcoind.v), the
    bech32 address of an output script, the bitcoin crate's transaction decoding, the
    keys manager's sweeping of spendable outputs, serde_json's (de)serializers of the
    application's own types and the order of directory listings. *)
Class Platform := {
  Server : Type;
  Address : Type;
  post : json -> Server -> result json post_error * Server;
  parse_body : bytes -> option json;
  from_utf8_lossy : bytes -> string;
  address_from_str : string -> option Address;
  witness_address : Network -> bytes -> option string;
  tx_deserialize : bytes -> option bytes;
  spend_spendable_outputs : list bytes -> Address -> Z -> result bytes unit;
  (* serde_json::from_str::<Vec<Node>> and ::<Vec<Transaction>>, and to_writer_pretty *)
  parse_nodes : string -> result (list Node) string;
  parse_txs : string -> result (list Transaction) string;
  results_json : list AttemptResult -> bytes;
  (* where the last buffer of a BufWriter begins *)
  buffer_rest : bytes -> nat;
  (* the order in which read_dir lists a directory *)
  dir_order : list string -> list string;
}.

(** ** Events: lightning/src/util/events.rs *)

Inductive PaymentPurpose :=
| InvoicePayment (payment_preimage : option bytes) (payment_secret : bytes)
| SpontaneousPayment (payment_preimage : bytes).

Inductive Event (PublicKey : Type) :=
| FundingGenerationReady (temporary_channel_id : bytes) (counterparty_node_id : PublicKey)
    (channel_value_satoshis : Z) (output_script : bytes)
| PaymentReceived (payment_hash : PaymentHash) (purpose : PaymentPurpose) (amount_msat : Z)
| PaymentClaimed (payment_hash : PaymentHash) (purpose : PaymentPurpose) (amount_msat : Z)
| PaymentSent (payment_preimage : bytes) (payment_hash : PaymentHash) (fee_paid_msat : option Z)
| OpenChannelRequest
| PaymentPathSuccessful
| PaymentPathFailed (path : list (RouteHop PublicKey)) (error_code : option Z)
| PaymentFailed (payment_hash : PaymentHash)
| PaymentForwarded (fee_earned_msat : option Z) (claim_from_onchain_tx : bool)
| PendingHTLCsForwardable (time_forwardable : Z)
| SpendableOutputs (outputs : list bytes)
| ChannelClosed (channel_id : bytes) (reason : string)
| DiscardFunding.
Arguments FundingGenerationReady {PublicKey}.
Arguments PaymentReceived {PublicKey}.
Arguments PaymentClaimed {PublicKey}.
Arguments PaymentSent {PublicKey}.
Arguments OpenChannelRequest {PublicKey}.
Arguments PaymentPathSuccessful {PublicKey}.
Arguments PaymentPathFailed {PublicKey}.
Arguments PaymentFailed {PublicKey}.
Arguments PaymentForwarded {PublicKey}.
Arguments PendingHTLCsForwardable {PublicKey}.
Arguments SpendableOutputs {PublicKey}.
Arguments ChannelClosed {PublicKey}.
Arguments DiscardFunding {PublicKey}.

(** ** Observable actions *)

(** [lightning::util::logger::Level]. *)
Inductive level := Gossip | Trace | Debug | Info | Warn | LevelError.

Inductive action (R : Type) :=
| Print (s : string)                   (** one [println!], [print!], [eprintln!] or [dbg!] *)
| Log (l : level) (s : string)         (** one [log_*!] *)
| ProbeLine (total i n : Z) (pubkey : string) (scid : Z) (** the progress line of [probeall], without its timings *)
| SendPayment (route : R) (hash : PaymentHash)
| ClaimFunds (preimage : bytes)
| Spawn (task : string) (lo hi : Z)    (** a task that sleeps between [lo] and [hi] ms *)
| Broadcast (tx : bytes).
Arguments Print {R}.
Arguments Log {R}.
Arguments ProbeLine {R}.
Arguments SendPayment {R}.
Arguments ClaimFunds {R}.
Arguments Spawn {R}.
Arguments Broadcast {R}.

(** ** State *)

Section State.
Context {PublicKey L : Type} `{!Keys PublicKey} `{!Ldk PublicKey L} {plat : Platform}.

(** What can happen while a command runs: LDK delivers an event, the user presses
    Ctrl-C, the LDK node changes by itself (messages from peers, blocks). *)
Inductive env_event :=
| Deliver (e : Event PublicKey)
| CtrlC
| NodeStep (f : L -> L).

Record app := mkApp {
  inbound_payments : PaymentInfoStorage;
  outbound_payments : PaymentInfoStorage;
  pending_payments : PaymentInfoStorage;
  attempts : list Attempt;
  ldk : L;
  bitcoind : BitcoindClient Server;
  disk_world : world;
  running : Z;
  entropy : list bytes;
  clock : Z;
  trace : list (action Route);
  pending_env : list (list env_event);
}.

Definition set_inbound (f : PaymentInfoStorage -> PaymentInfoStorage) (s : app) : app :=
  mkApp (f (inbound_payments s)) (outbound_payments s) (pending_payments s) (attempts s) (ldk s) (bitcoind s)
    (disk_world s) (running s) (entropy s) (clock s) (trace s) (pending_env s).
Definition set_outbound (f : PaymentInfoStorage -> PaymentInfoStorage) (s : app) : app :=
  mkApp (inbound_payments s) (f (outbound_payments s)) (pending_payments s) (attempts s) (ldk s) (bitcoind s)
    (disk_world s) (running s) (entropy s) (clock s) (trace s) (pending_env s).
Definition set_pending (f : PaymentInfoStorage -> PaymentInfoStorage) (s : app) : app :=
  mkApp (inbound_payments s) (outbound_payments s) (f (pending_payments s)) (attempts s) (ldk s) (bitcoind s)
    (disk_world s) (running s) (entropy s) (clock s) (trace s) (pending_env s).
Definition set_attempts (f : list Attempt -> list Attempt) (s : app) : app :=
  mkApp (inbound_payments s) (outbound_payments s) (pending_payments s) (f (attempts s)) (ldk s) (bitcoind s)
    (disk_world s) (running s) (entropy s) (clock s) (trace s) (pending_env s).
Definition set_ldk (l : L) (s : app) : app :=
  mkApp (inbound_payments s) (outbound_payments s) (pending_payments s) (attempts s) l (bitcoind s)
    (disk_world s) (running s) (entropy s) (clock s) (trace s) (pending_env s).
Definition set_bitcoind (b : BitcoindClient Server) (s : app) : app :=
  mkApp (inbound_payments s) (outbound_payments s) (pending_payments s) (attempts s) (ldk s) b
    (disk_world s) (running s) (entropy s) (clock s) (trace s) (pending_env s).
Definition set_world (w : world) (s : app) : app :=
  mkApp (inbound_payments s) (outbound_payments s) (pending_payments s) (attempts s) (ldk s) (bitcoind s)
    w (running s) (entropy s) (clock s) (trace s) (pending_env s).
Definition set_running (r : Z) (s : app) : app :=
  mkApp (inbound_payments s) (outbound_payments s) (pending_payments s) (attempts s) (ldk s) (bitcoind s)
    (disk_world s) r (entropy s) (clock s) (trace s) (pending_env s).
Definition set_entropy (e : list bytes) (s : app) : app :=
  mkApp (inbound_payments s) (outbound_payments s) (pending_payments s) (attempts s) (ldk s) (bitcoind s)
    (disk_world s) (running s) e (clock s) (trace s) (pending_env s).
Definition set_trace (f : list (action Route) -> list (action Route)) (s : app) : app :=
  mkApp (inbound_payments s) (outbound_payments s) (pending_payments s) (attempts s) (ldk s) (bitcoind s)
    (disk_world s) (running s) (entropy s) (clock s) (f (trace s)) (pending_env s).
Definition set_env (e : list (list env_event)) (s : app) : app :=
  mkApp (inbound_payments s) (outbound_payments s) (pending_payments s) (attempts s) (ldk s) (bitcoind s)
    (disk_world s) (running s) (entropy s) (clock s) (trace s) e.

Abbreviation prog := (prog app).

Definition emit (a : action Route) : prog unit := modify (set_trace (fun t => t ++ [a])).
Definition println (s : string) : prog unit := emit (Print s).
Definition log (l : level) (s : string) : prog unit := emit (Log l s).

(** One [dbg!] of an expression, without the position it prints. *)
Definition dbg (expr value : string) : prog unit := println (expr +:+ " = " +:+ value).

(** [print!("> ")], with or without [io::stdout().flush()]. *)
Definition prompt : prog unit := println "> ".

(** Run an operation of the LDK node. *)
Definition on_ldk {A} (f : L -> A * L) : prog A :=
  fun s => let '(a, l) := f (ldk s) in (Ret a, set_ldk l s).

(** Run an RPC of the bitcoind client. *)
Definition on_bitcoind {A} (m : Prelude.prog (BitcoindClient Server) A) : prog A :=
  fun s => let '(o, b) := m (bitcoind s) in (o, set_bitcoind b s).

(** Run a file-system operation. *)
Definition on_fs {A} (m : Prelude.prog world A) : prog A :=
  fun s => let '(o, w) := m (disk_world s) in (o, set_world w s).

(** [rand::thread_rng().gen::<[u8; 32]>()]: the random source is a list of values,
    never exhausted in the histories of interest. *)
Definition random32 : prog bytes :=
  fun s =>
    match entropy s with
    | b :: e => (Ret b, set_entropy e s)
    | [] => (OutOfFuel, s)
    end.

End State.
Arguments app PublicKey L {_ _}.
Arguments env_event : clear implicits.

(** The state setters, for unfolding in proofs. *)
Ltac unfold_state :=
  unfold set_inbound, set_outbound, set_pending, set_attempts, set_ldk, set_bitcoind, set_world, set_running,
    set_entropy, set_trace, set_env in *; cbn in *.

(** Run the printing and state-reading steps of a program in a hypothesis. *)
Ltac run_in H :=
  unfold prompt, dbg, println, log, emit, modify, gets, lift, panic, mbind, prog_bind, mret, prog_ret in H;
  cbv beta iota in H.
