(* ===== verification/Events.v ===== *)
(** * Events: [handle_ldk_events] of src/main.rs

    One definition per arm of the handler's match, composed by
    [handle_ldk_events].  The attempts table is the SQLite table [attempt]: the
    handler appends a row for every failed payment path that carries an error
    code. *)

From Stdlib Require Import SpecFloat.
From S2P Require Import Prelude Text HexUtils Bytes Fs Json Bitcoind App.

Local Open Scope Z_scope.

Section Events.
Context {PublicKey L : Type} `{!Keys PublicKey} `{!Ldk PublicKey L} {plat : Platform}.
Abbreviation prog := (prog (app PublicKey L)).

(** [Event::FundingGenerationReady]. *)
Definition on_funding_generation_ready (network : Network) (temporary_channel_id : bytes)
    (counterparty_node_id : PublicKey) (channel_value_satoshis : Z) (output_script : bytes) : prog unit :=
  addr ← lift (unwrap "Lightning funding tx should always be to a SegWit output"
                 (witness_address network output_script));
  let outputs := [[(addr, F64.div (F64.of_Z channel_value_satoshis) (F64.of_Z 100000000))]] in
  raw_tx ← on_bitcoind (create_raw_transaction post parse_body from_utf8_lossy outputs);
  funded_tx ← on_bitcoind (fund_raw_transaction post parse_body from_utf8_lossy raw_tx);
  signed_tx ← on_bitcoind (sign_raw_transaction_with_wallet post parse_body from_utf8_lossy (funded_hex funded_tx));
  if negb (complete signed_tx) then panic "assertion failed: signed_tx.complete == true"
  else
    tx_bytes ← lift (unwrapped (to_vec (signed_hex signed_tx)));
    final_tx ← lift (unwrapped (tx_deserialize tx_bytes));
    r ← on_ldk (funding_transaction_generated temporary_channel_id counterparty_node_id final_tx);
    if is_err r then
      _ ← println (newline +:+ "ERROR: Channel went away before we could fund it. The peer disconnected or refused the channel.");
      prompt
    else mret tt.

(** [Event::PaymentReceived]. *)
Definition on_payment_received (payment_hash : PaymentHash) (purpose : PaymentPurpose) (amount_msat : Z) :
    prog unit :=
  _ ← println (newline +:+ "EVENT: received payment from payment hash " +:+ hex_str payment_hash +:+ " of "
               +:+ to_string amount_msat +:+ " millisatoshis");
  _ ← prompt;
  let payment_preimage := match purpose with
                          | InvoicePayment p _ => p
                          | SpontaneousPayment p => Some p
                          end in
  p ← lift (unwrapped payment_preimage);
  _ ← on_ldk (fun l => (tt, claim_funds p l));
  emit (ClaimFunds p).

(** [Event::PaymentClaimed]. *)
Definition on_payment_claimed (payment_hash : PaymentHash) (purpose : PaymentPurpose) (amount_msat : Z) :
    prog unit :=
  _ ← println (newline +:+ "EVENT: claimed payment from payment hash " +:+ hex_str payment_hash +:+ " of "
               +:+ to_string amount_msat +:+ " millisatoshis");
  _ ← prompt;
  let '(payment_preimage, payment_secret) :=
    match purpose with
    | InvoicePayment p s => (p, Some s)
    | SpontaneousPayment p => (Some p, None)
    end in
  modify (set_inbound (fun payments =>
    match payments !! payment_hash with
    | Some payment => <[payment_hash := mkPayment payment_preimage payment_secret Succeeded (amt_msat payment)]> payments
    | None => <[payment_hash := mkPayment payment_preimage payment_secret Succeeded (Some amount_msat)]> payments
    end)).

(** [Event::PaymentSent]: a walk over all outbound payments. *)
Definition on_payment_sent (payment_preimage : bytes) (payment_hash : PaymentHash) (fee_paid_msat : option Z) :
    prog unit :=
  payments ← gets outbound_payments;
  _ ← modify (set_outbound (map_imap (fun hash payment =>
        Some (if decide (hash = payment_hash)
              then mkPayment (Some payment_preimage) (secret payment) Succeeded (amt_msat payment)
              else payment))));
  match payments !! payment_hash with
  | Some payment =>
      _ ← println (newline +:+ "EVENT: successfully sent payment of " +:+ display_amount (amt_msat payment)
            +:+ " millisatoshis"
            +:+ (match fee_paid_msat with Some fee => " (fee " +:+ to_string fee +:+ " msat)" | None => "" end)
            +:+ " from payment hash " +:+ debug_str (hex_str payment_hash) +:+ " with preimage "
            +:+ debug_str (hex_str payment_preimage));
      prompt
  | None => mret tt
  end.

(** The names of the onion failure codes. *)
Definition error_name (error_code : Z) : string :=
  if error_code =? 0x400f then "incorrect_or_unknown_payment_details"
  else if error_code =? 0x100c then "fee_insufficient"
  else if error_code =? 0xc005 then "invalid_onion_hmac"
  else if error_code =? 0x100d then "incorrect_cltv_expiry"
  else if error_code =? 0x100b then "amount_below_minimum"
  else if error_code =? 0x400a then "unknown_next_peer"
  else "unknown".

(** The row [PaymentPathFailed] inserts. *)
Definition attempt_of (node_pubkey guessed_node_pubkey : PublicKey) (chan_id error_code now : Z) : Attempt :=
  mkAttempt (pk_to_string node_pubkey) (pk_to_string guessed_node_pubkey) (to_string chan_id)
    (error_name error_code) now.

(** [Event::PaymentPathFailed]. *)
Definition on_payment_path_failed (path : list (RouteHop PublicKey)) (error_code : option Z) : prog unit :=
  last_hop ← lift (unwrapped (last path));
  let rest := removelast path in
  if (length rest <? 1)%nat then mret tt
  else
    prev ← lift (unwrapped (last rest));
    match error_code with
    | Some error_code =>
        _ ← log Info ("Result: " +:+ error_name error_code);
        now ← gets clock;
        modify (set_attempts (fun rows =>
          rows ++ [attempt_of (hop_pubkey prev) (hop_pubkey last_hop) (hop_scid last_hop) error_code now]))
    | None => mret tt
    end.

(** [Event::PaymentFailed]. *)
Definition on_payment_failed (payment_hash : PaymentHash) : prog unit :=
  _ ← log Debug (newline +:+ "EVENT: Failed to send payment to payment hash " +:+ debug_str (hex_str payment_hash)
                 +:+ ": exhausted payment retry attempts");
  pending ← gets pending_payments;
  match pending !! payment_hash with
  | Some _ =>
      _ ← modify (set_pending (delete payment_hash));
      log Trace ("Removed payment hash " +:+ debug_str (hex_str payment_hash) +:+ " from pending state")
  | None => mret tt
  end.

(** [Event::PaymentForwarded]. *)
Definition on_payment_forwarded (fee_earned_msat : option Z) (claim_from_onchain_tx : bool) : prog unit :=
  let from_onchain_str := if claim_from_onchain_tx then "from onchain downstream claim"
                          else "from HTLC fulfill message" in
  _ ← match fee_earned_msat with
      | Some fee_earned =>
          println (newline +:+ "EVENT: Forwarded payment, earning " +:+ to_string fee_earned +:+ " msat " +:+ from_onchain_str)
      | None => println (newline +:+ "EVENT: Forwarded payment, claiming onchain " +:+ from_onchain_str)
      end;
  prompt.

(** [Event::PendingHTLCsForwardable]: the task sleeps between [min] and [5 min] ms;
    [gen_range] panics on an empty range. *)
Definition on_pending_htlcs_forwardable (min : Z) : prog unit :=
  if min <? min * 5 then emit (Spawn "process_pending_htlc_forwards" min (min * 5))
  else panic "Rng.gen_range called with low >= high".

(** [Event::SpendableOutputs]. *)
Definition on_spendable_outputs (outputs : list bytes) : prog unit :=
  destination_address ← on_bitcoind (get_new_address post parse_body from_utf8_lossy address_from_str);
  client ← gets bitcoind;
  tx_feerate ← lift (get_est_sat_per_1000_weight CtNormal client);
  spending_tx ← lift (unwrap_result "called `Result::unwrap()` on an `Err` value"
                        (spend_spendable_outputs outputs destination_address tx_feerate));
  emit (Broadcast spending_tx).

Definition handle_ldk_events (network : Network) (event : Event PublicKey) : prog unit :=
  match event with
  | FundingGenerationReady tmp node value script => on_funding_generation_ready network tmp node value script
  | PaymentReceived hash purpose amt => on_payment_received hash purpose amt
  | PaymentClaimed hash purpose amt => on_payment_claimed hash purpose amt
  | PaymentSent preimage hash fee => on_payment_sent preimage hash fee
  | OpenChannelRequest => mret tt
  | PaymentPathSuccessful => _ ← println "PaymentPathSuccessful"; prompt
  | PaymentPathFailed path code => on_payment_path_failed path code
  | PaymentFailed hash => on_payment_failed hash
  | PaymentForwarded fee onchain => on_payment_forwarded fee onchain
  | PendingHTLCsForwardable t => on_pending_htlcs_forwardable t
  | SpendableOutputs outputs => on_spendable_outputs outputs
  | ChannelClosed channel_id reason =>
      _ ← println (newline +:+ "EVENT: Channel " +:+ hex_str channel_id +:+ " closed due to: " +:+ reason);
      prompt
  | DiscardFunding => mret tt
  end.

(** ** The environment

    What happens between two scheduling points: a batch of events, Ctrl-C presses
    (the second one exits the process) and steps of the LDK node. *)
Definition env_step (network : Network) (e : env_event PublicKey L) : prog unit :=
  match e with
  | Deliver ev => handle_ldk_events network ev
  | CtrlC =>
      prev ← gets running;
      _ ← modify (set_running (prev + 1));
      if prev =? 0 then println "Exiting..." else panic "process::exit(0)"
  | NodeStep f => on_ldk (fun l => (tt, f l))
  end.

Fixpoint env_steps (network : Network) (es : list (env_event PublicKey L)) : prog unit :=
  match es with
  | [] => mret tt
  | e :: es' => _ ← env_step network e; env_steps network es'
  end.

(** A scheduling point: the environment's next batch runs.  [false] when the
    environment has nothing more to say. *)
Definition yield_point (network : Network) : prog bool :=
  fun s =>
    match pending_env s with
    | [] => (Ret false, s)
    | es :: rest => (_ ← env_steps network es; mret true) (set_env rest s)
    end.

(** ** What the environment can do to the state

    [env_rel s s']: pending payments only disappear, attempts are only appended,
    the Ctrl-C counter only grows, the trace only grows and shows neither a probe
    line nor a payment being sent; entropy and disk are untouched. *)

Definition quiet (a : action Route) : Prop :=
  match a with ProbeLine _ _ _ _ _ | SendPayment _ _ => False | _ => True end.

Record env_rel (s s' : app PublicKey L) : Prop := {
  pending_shrinks : pending_payments s' ⊆ pending_payments s;
  attempts_grow : attempts s `prefix_of` attempts s';
  running_grows : running s <= running s';
  trace_grows : exists t, trace s' = trace s ++ t /\ Forall quiet t;
  entropy_same : entropy s' = entropy s;
  disk_same : disk_world s' = disk_world s;
}.

Global Instance env_rel_preorder : PreOrder env_rel.
Proof.
  split.
  - intros s. split; try done. exists []. by rewrite (right_id_L [] (++)).
  - intros s1 s2 s3 [P1 A1 R1 (t1 & T1 & Q1) E1 D1] [P2 A2 R2 (t2 & T2 & Q2) E2 D2]. split.
    + by etrans.
    + by etrans.
    + lia.
    + exists (t1 ++ t2). rewrite T2, T1, (assoc_L (++)). split; [done|]. by apply Forall_app.
    + congruence.
    + congruence.
Qed.

(** A step that leaves all these components alone. *)
Lemma env_rel_same (s s' : app PublicKey L) :
  pending_payments s' = pending_payments s -> attempts s' = attempts s -> running s' = running s ->
  trace s' = trace s -> entropy s' = entropy s -> disk_world s' = disk_world s -> env_rel s s'.
Proof.
  intros P A R T E D. split; rewrite ?P, ?A, ?R, ?T; try done.
  exists []. by rewrite (right_id_L [] (++)).
Qed.

Lemma keeps_emit a : quiet a -> keeps env_rel (emit a).
Proof. intros Hq. apply keeps_modify. intros s. split; try done. exists [a]. by repeat constructor. Qed.
Lemma keeps_println str : keeps env_rel (println str).
Proof. by apply keeps_emit. Qed.
Lemma keeps_log l str : keeps env_rel (log l str).
Proof. by apply keeps_emit. Qed.
Lemma keeps_on_ldk {A} (f : L -> A * L) : keeps env_rel (on_ldk f).
Proof. intros s o s' H. unfold on_ldk in H. destruct (f _). simplify_eq. by apply env_rel_same. Qed.
Lemma keeps_on_bitcoind {A} (m : Prelude.prog (BitcoindClient Server) A) : keeps env_rel (on_bitcoind m).
Proof. intros s o s' H. unfold on_bitcoind in H. destruct (m _). simplify_eq. by apply env_rel_same. Qed.
Lemma keeps_set_inbound f : keeps env_rel (modify (set_inbound f)).
Proof. apply keeps_modify. intros s. by apply env_rel_same. Qed.
Lemma keeps_set_outbound f : keeps env_rel (modify (set_outbound f)).
Proof. apply keeps_modify. intros s. by apply env_rel_same. Qed.
Lemma keeps_drop_pending h : keeps env_rel (modify (set_pending (delete h))).
Proof.
  apply keeps_modify. intros s. split; try done; [apply delete_subseteq|].
  exists []. by rewrite (right_id_L [] (++)).
Qed.
Lemma keeps_add_attempts rows : keeps env_rel (modify (set_attempts (fun r => r ++ rows))).
Proof.
  apply keeps_modify. intros s. split; try done; [by apply prefix_app_r|].
  exists []. by rewrite (right_id_L [] (++)).
Qed.

Hint Resolve keeps_println keeps_log keeps_on_ldk keeps_on_bitcoind keeps_set_inbound
  keeps_set_outbound keeps_drop_pending keeps_add_attempts : keeps.
Hint Extern 1 (keeps _ (emit _)) => apply keeps_emit; exact I : keeps.

Lemma keeps_prompt : keeps env_rel prompt.
Proof. apply keeps_println. Qed.
Hint Resolve keeps_prompt : keeps.

(** Every event handler stays within [env_rel], also when it panics. *)
Lemma handle_ldk_events_keeps network e : keeps env_rel (handle_ldk_events network e).
Proof.
  destruct e; cbn [handle_ldk_events]; unfold on_funding_generation_ready, on_payment_received,
    on_payment_claimed, on_payment_sent, on_payment_path_failed, on_payment_failed,
    on_payment_forwarded, on_pending_htlcs_forwardable, on_spendable_outputs; solve_keeps.
Qed.

Lemma env_step_keeps network e : keeps env_rel (env_step network e).
Proof.
  destruct e as [e| |f]; cbn [env_step].
  - apply handle_ldk_events_keeps.
  - intros s o s' H. assert (R1 : env_rel s (set_running (running s + 1) s)).
    { split; try done; cbn; [lia|]. exists []. by rewrite (right_id_L [] (++)). }
    etrans; [exact R1|]. unfold mbind, prog_bind, gets, modify in H. cbn in H.
    destruct (running s =? 0); revert H; [apply keeps_println|by apply keeps_panic, _].
  - apply keeps_on_ldk.
Qed.

Lemma env_steps_keeps network es : keeps env_rel (env_steps network es).
Proof.
  induction es as [|e es IH]; cbn [env_steps]; [apply keeps_ret, _|].
  apply keeps_bind; [apply _|apply env_step_keeps|done].
Qed.

Lemma yield_point_keeps network : keeps env_rel (yield_point network).
Proof.
  intros s o s' H. unfold yield_point in H. destruct (pending_env s) as [|es rest].
  { simplify_eq. reflexivity. }
  trans (set_env rest s); [by apply env_rel_same|]. revert H.
  apply keeps_bind; [apply _|apply env_steps_keeps|intros; apply keeps_ret, _].
Qed.

(** ** Properties *)

(** No sequence of events, Ctrl-C presses and LDK steps adds a pending payment,
    removes or rewrites a recorded attempt, or sends a payment. *)
Theorem environment_is_harmless network es s o s' :
  env_steps network es s = (o, s') ->
  pending_payments s' ⊆ pending_payments s /\
  attempts s `prefix_of` attempts s' /\
  exists t, trace s' = trace s ++ t /\ forall route hash, SendPayment route hash ∉ t.
Proof.
  intros H. apply env_steps_keeps in H as [P A _ (t & T & Q) _ _]. split_and!; [done|done|].
  exists t. split; [done|]. intros route hash Hin. rewrite Forall_forall in Q. by apply Q in Hin.
Qed.

Lemma last_removelast {A} (l : list A) x : last (l ++ [x]) = Some x /\ removelast (l ++ [x]) = l.
Proof. by rewrite last_snoc, removelast_last. Qed.

(** A failed payment path appends exactly one row, for the channel the last hop
    was probed on and the node before it, when the path has at least two hops and
    carries an error code; otherwise it changes nothing, and an empty path panics. *)
Theorem path_failed_spec network path code s :
  handle_ldk_events network (PaymentPathFailed path code) s =
  match rev path, code with
  | [], _ => (Panic "called `Option::unwrap()` on a `None` value", s)
  | last_hop :: prev :: _, Some c =>
      (Ret tt,
       set_attempts (fun rows =>
           rows ++ [attempt_of (hop_pubkey prev) (hop_pubkey last_hop) (hop_scid last_hop) c (clock s)])
         (set_trace (fun t => t ++ [Log Info ("Result: " +:+ error_name c)]) s))
  | _, _ => (Ret tt, s)
  end.
Proof.
  cbn [handle_ldk_events]. unfold on_payment_path_failed.
  destruct path as [|last_hop path _] using rev_ind; [done|].
  destruct (last_removelast path last_hop) as [-> ->]. rewrite rev_app_distr. cbn [rev Datatypes.app].
  cbn [unwrapped unwrap]. erewrite prog_bind_Ret by done.
  destruct path as [|prev path _] using rev_ind; [done|].
  rewrite length_app. cbn [length]. rewrite Nat.add_comm. cbn [Nat.add Nat.ltb Nat.leb].
  rewrite last_snoc, rev_app_distr. cbn [rev Datatypes.app]. erewrite prog_bind_Ret by done.
  by destruct code.
Qed.

(** A claimed payment is stored as succeeded with the preimage and secret of its
    purpose, keeping the amount of an entry that was there; no other entry and no
    other map changes. *)
Theorem payment_claimed_spec network hash purpose amt s :
  exists s', handle_ldk_events network (PaymentClaimed hash purpose amt) s = (Ret tt, s') /\
    inbound_payments s' !! hash =
      Some (mkPayment (match purpose with InvoicePayment p _ => p | SpontaneousPayment p => Some p end)
                      (match purpose with InvoicePayment _ sec => Some sec | SpontaneousPayment _ => None end)
                      Succeeded
                      (match inbound_payments s !! hash with Some p => amt_msat p | None => Some amt end)) /\
    (forall h, h <> hash -> inbound_payments s' !! h = inbound_payments s !! h) /\
    outbound_payments s' = outbound_payments s /\ pending_payments s' = pending_payments s.
Proof.
  cbn [handle_ldk_events]. unfold on_payment_claimed. destruct purpose; eexists;
    (split; [do 2 (erewrite prog_bind_Ret by done); reflexivity|]).
  all: cbn; split_and!; try done; destruct (inbound_payments s !! hash) eqn:E;
      rewrite ?lookup_insert_eq; try done; intros h Hh; by rewrite lookup_insert_ne.
Qed.

(** A sent payment marks exactly its own outbound entry, if there is one, as
    succeeded with its preimage. *)
Theorem payment_sent_spec network pre hash fee s :
  exists s', handle_ldk_events network (PaymentSent pre hash fee) s = (Ret tt, s') /\
    (forall h, outbound_payments s' !! h =
       if decide (h = hash)
       then (fun p => mkPayment (Some pre) (secret p) Succeeded (amt_msat p)) <$> outbound_payments s !! h
       else outbound_payments s !! h) /\
    inbound_payments s' = inbound_payments s /\ pending_payments s' = pending_payments s.
Proof.
  cbn [handle_ldk_events]. unfold on_payment_sent.
  assert (Hmap : forall h, map_imap (fun h' p => Some (if decide (h' = hash)
              then mkPayment (Some pre) (secret p) Succeeded (amt_msat p) else p)) (outbound_payments s) !! h =
       if decide (h = hash)
       then (fun p => mkPayment (Some pre) (secret p) Succeeded (amt_msat p)) <$> outbound_payments s !! h
       else outbound_payments s !! h).
  { intros h. rewrite map_lookup_imap. destruct (outbound_payments s !! h); cbn; by case_decide. }
  do 2 (erewrite prog_bind_Ret by done).
  destruct (outbound_payments s !! hash); (eexists; split; [reflexivity|]); cbn; by split_and!.
Qed.

(** A failed payment is no longer pending, and every other pending payment stays. *)
Theorem payment_failed_spec network hash s :
  exists s', handle_ldk_events network (PaymentFailed hash) s = (Ret tt, s') /\
    pending_payments s' = delete hash (pending_payments s) /\ attempts s' = attempts s.
Proof.
  cbn [handle_ldk_events]. unfold on_payment_failed.
  do 2 (erewrite prog_bind_Ret by done).
  cbn [pending_payments set_trace].
  destruct (pending_payments s !! hash) eqn:E; (eexists; split; [reflexivity|]); cbn; split; try done.
  by rewrite delete_id.
Qed.

(** The six failure codes the prober distinguishes have distinct names, and every
    other code is "unknown". *)
Theorem error_name_spec c c' :
  let known := [0x400f; 0x100c; 0xc005; 0x100d; 0x100b; 0x400a] in
  (error_name c = "unknown" <-> c ∉ known) /\
  (c ∈ known -> error_name c = error_name c' -> c = c').
Proof.
  cbv zeta. split.
  - unfold error_name. repeat case_match; rewrite ?Z.eqb_eq, ?Z.eqb_neq in *; subst;
      split; intros; first [done|set_solver].
  - intros Hin. rewrite !elem_of_cons in Hin. unfold error_name at 2.
    repeat case_match; rewrite ?Z.eqb_eq, ?Z.eqb_neq in *; subst;
      destruct_or! Hin; subst; intros; first [done|set_solver].
Qed.

End Events.
