(* ===== verification/Probe.v ===== *)
(** * Probe: src/probe.rs

    [find_routes] and [probe]: a probe sends a payment with a made-up hash along a
    route to the target node extended by one guessed hop over the guessed channel. *)

From S2P Require Import Prelude Text HexUtils Bytes Fs Json Bitcoind App Events.

Local Open Scope Z_scope.

Section Probe.
Context {PublicKey L : Type} `{!Keys PublicKey} `{!Ldk PublicKey L} {plat : Platform}.
Abbreviation prog := (prog (app PublicKey L)).

Definition find_routes (payee_pubkey : string) (private_routes : list (list (RouteHintHop PublicKey))) :
    prog (result Route LightningError) :=
  our_node_pubkey ← gets (fun s => get_our_node_id (ldk s));
  match pk_from_str payee_pubkey with
  | None => mret (Err (mkLightningError "" "IgnoreError"))
  | Some their_pubkey =>
      let route_params := mkRouteParameters their_pubkey private_routes 1000 40 in
      first_hops ← gets (fun s => first_hops (ldk s));
      random_bytes ← random32;
      gets (fun s => find_route our_node_pubkey route_params first_hops random_bytes (ldk s))
  end.

(** The guessed last hop. *)
Definition guessed_hop (source_pubkey : PublicKey) (channel_id : Z) : RouteHintHop PublicKey :=
  mkHintHop source_pubkey channel_id 1000 1 40 None None.

Definition probe_payment (preimage : bytes) : PaymentInfo :=
  mkPayment (Some preimage) None Pending (Some 10000).

(** [probe].  The map of pending payments is locked from the insertion to the end. *)
Definition probe (pubkey_str channel_id_str pubkey_guess : string) : prog (result unit string) :=
  source_pubkey ← lift (unwrap "called `Result::unwrap()` on an `Err` value" (pk_from_str pubkey_str));
  match parse_u64 channel_id_str with
  | None =>
      _ ← println "channel_id isn't a number";
      mret (Err "channel_id isn't a number")
  | Some channel_id =>
      fake_preimage ← random32;
      let payment_hash := sha256 fake_preimage in
      let next_route_hint := [[guessed_hop source_pubkey channel_id]] in
      route ← find_routes pubkey_guess next_route_hint;
      match route with
      | Err e => _ ← println ("No route: " +:+ debug_lightning_error e); mret (Err "no route")
      | Ok route =>
          _ ← modify (set_pending (insert payment_hash (probe_payment fake_preimage)));
          payment ← on_ldk (send_payment route payment_hash None);
          _ ← emit (SendPayment route payment_hash);
          match payment with
          | Ok payment_id => _ ← log Trace ("sent payment PaymentId(" +:+ debug_bytes payment_id +:+ ")"); mret (Ok tt)
          | Err e =>
              _ ← log Warn ("error sending probe " +:+ debug_send_failure e);
              _ ← modify (set_pending (delete payment_hash));
              mret (Err "no route")
          end
      end
  end.

(** ** What one probe does *)

(** [p'] is [p] with the entry of [hash] inserted, or with it deleted, or [p]. *)
Definition probe_rel (s s' : app PublicKey L) : Prop :=
  inbound_payments s' = inbound_payments s /\ outbound_payments s' = outbound_payments s /\
  attempts s' = attempts s /\ running s' = running s /\ pending_env s' = pending_env s /\
  disk_world s' = disk_world s /\
  exists t, trace s' = trace s ++ t /\ forall a b c d e, ProbeLine a b c d e ∉ t.

Global Instance probe_rel_preorder : PreOrder probe_rel.
Proof.
  split.
  - intros s. unfold probe_rel. split_and!; try done. exists []. rewrite (right_id_L [] (++)).
    split; [done|]. intros. apply not_elem_of_nil.
  - intros s1 s2 s3 (?&?&?&?&?&?&t1&T1&Q1) (?&?&?&?&?&?&t2&T2&Q2).
    unfold probe_rel. split_and!; try congruence. exists (t1 ++ t2).
    rewrite T2, T1, (assoc_L (++)). split; [done|]. intros. rewrite not_elem_of_app. auto.
Qed.

Lemma probe_rel_same (s s' : app PublicKey L) :
  inbound_payments s' = inbound_payments s -> outbound_payments s' = outbound_payments s ->
  attempts s' = attempts s -> running s' = running s -> pending_env s' = pending_env s ->
  disk_world s' = disk_world s -> trace s' = trace s -> probe_rel s s'.
Proof.
  intros. unfold probe_rel. split_and!; try done. exists []. rewrite (right_id_L [] (++)).
  split; [done|]. intros. apply not_elem_of_nil.
Qed.

Lemma probe_keeps_emit a : (forall x b c d e, a <> ProbeLine x b c d e) -> keeps probe_rel (emit a).
Proof.
  intros Ha. apply keeps_modify. intros s. unfold probe_rel. split_and!; try done. exists [a].
  split; [done|]. intros. rewrite list_elem_of_singleton. congruence.
Qed.
Lemma probe_keeps_println str : keeps probe_rel (println str).
Proof. by apply probe_keeps_emit. Qed.
Lemma probe_keeps_log l str : keeps probe_rel (log l str).
Proof. by apply probe_keeps_emit. Qed.
Lemma probe_keeps_on_ldk {A} (f : L -> A * L) : keeps probe_rel (on_ldk f).
Proof. intros s o s' H. unfold on_ldk in H. destruct (f _). simplify_eq. by apply probe_rel_same. Qed.
Lemma probe_keeps_random32 : keeps probe_rel random32.
Proof.
  intros s o s' H. unfold random32 in H. destruct (entropy s); simplify_eq; by apply probe_rel_same.
Qed.
Lemma probe_keeps_set_pending f : keeps probe_rel (modify (set_pending f)).
Proof. apply keeps_modify. intros s. by apply probe_rel_same. Qed.

Hint Resolve probe_keeps_println probe_keeps_log probe_keeps_on_ldk probe_keeps_random32
  probe_keeps_set_pending : keeps.
Hint Extern 1 (keeps _ (emit _)) => apply probe_keeps_emit; done : keeps.

Lemma find_routes_keeps payee hints : keeps probe_rel (find_routes payee hints).
Proof. unfold find_routes. solve_keeps. Qed.
Hint Resolve find_routes_keeps : keeps.

(** A probe touches neither the other payment maps nor the attempts, and prints no
    progress line. *)
Lemma probe_keeps p c g : keeps probe_rel (probe p c g).
Proof. unfold probe. solve_keeps. Qed.

(** [find_routes] and reading entropy leave the pending payments alone. *)
Definition same_pending (s s' : app PublicKey L) : Prop := pending_payments s' = pending_payments s.
Global Instance same_pending_preorder : PreOrder same_pending.
Proof. split; [done|]. intros s1 s2 s3 H1 H2. unfold same_pending in *. congruence. Qed.

Lemma random32_pending : keeps same_pending random32.
Proof. intros s o s' H. unfold random32 in H. by destruct (entropy s); simplify_eq. Qed.
Hint Resolve random32_pending : keeps.
Lemma find_routes_pending payee hints : keeps same_pending (find_routes payee hints).
Proof. unfold find_routes. solve_keeps. Qed.

(** Nor do they talk to LDK or leave a trace. *)
Definition same_sent (s s' : app PublicKey L) : Prop := trace s' = trace s /\ ldk s' = ldk s.
Global Instance same_sent_preorder : PreOrder same_sent.
Proof. split; [done|]. intros s1 s2 s3 [] []. split; congruence. Qed.

Lemma random32_sent : keeps same_sent random32.
Proof. intros s o s' H. unfold random32 in H. by destruct (entropy s); simplify_eq. Qed.
Hint Resolve random32_sent : keeps.
Lemma find_routes_sent payee hints : keeps same_sent (find_routes payee hints).
Proof. unfold find_routes. solve_keeps. Qed.

(** The whole of [probe] on the pending payments. *)
Lemma probe_pending p c g s o s' :
  probe p c g s = (o, s') ->
  (exists hash pre, o = Ret (Ok tt) /\ hash = sha256 pre /\
     pending_payments s' = <[hash := probe_payment pre]> (pending_payments s)) \/
  ((forall x, o <> Ret (Ok x)) /\
   (pending_payments s' = pending_payments s \/
    exists hash, pending_payments s' = delete hash (pending_payments s))).
Proof.
  intros H. unfold probe in H.
  destruct (pk_from_str p) as [src|]; cbn [unwrap] in H; [|run_in H; simplify_eq; right; split; [done|by left]].
  erewrite prog_bind_Ret in H by done.
  destruct (parse_u64 c) as [scid|]; [|run_in H; simplify_eq; right; split; [done|by left]].
  unfold mbind at 1, prog_bind at 1 in H.
  destruct (random32 s) as [[pre| |] s1] eqn:E1; apply random32_pending in E1 as P1;
    [|cbn in H; simplify_eq; right; split; [done|]; left; exact P1..].
  cbv beta zeta in H. unfold mbind at 1, prog_bind at 1 in H.
  destruct (find_routes g _ s1) as [[[route|e]| |] s2] eqn:E2; apply find_routes_pending in E2 as P2;
    [|run_in H; simplify_eq; right;
      (split; [done|]); left; cbn; unfold same_pending in *; congruence..].
  erewrite prog_bind_Ret in H by done. unfold mbind at 1, prog_bind at 1 in H. unfold on_ldk in H.
  destruct (send_payment _ _ _ _) as [[pid|e] l]; run_in H; simplify_eq; cbn in *.
  - left. exists (sha256 pre), pre. split_and!; try done. unfold same_pending in *. congruence.
  - right. split; [done|]. right. exists (sha256 pre). rewrite delete_insert_eq. unfold same_pending in *. congruence.
Qed.

(** ** Properties *)

Lemma find_routes_ok payee hints s route s' :
  find_routes payee hints s = (Ret (Ok route), s') ->
  exists pk rnd, pk_from_str payee = Some pk /\ entropy s = rnd :: entropy s' /\
    s' = set_entropy (entropy s') s /\
    find_route (get_our_node_id (ldk s)) (mkRouteParameters pk hints 1000 40) (first_hops (ldk s)) rnd (ldk s)
      = Ok route.
Proof.
  unfold find_routes. intros H. erewrite prog_bind_Ret in H by done.
  destruct (pk_from_str payee) as [pk|]; [|run_in H; simplify_eq].
  unfold random32 in H. run_in H. destruct (entropy s) as [|rnd e] eqn:Ee; simplify_eq.
  exists pk, rnd. cbn in *. by split_and!.
Qed.

(** A probe that reports success has sent one payment whose hash is that of the
    freshly drawn preimage, over the route LDK found from here to the guessed node
    with the probed channel of the target node as its last hop (fee 1000 msat + 1 ppm,
    delta 40, 1000 msat to deliver), and has recorded that hash, with its preimage,
    as pending. *)
Theorem probe_ok_spec p c g s s' :
  probe p c g s = (Ret (Ok tt), s') ->
  exists src scid guess pre rnd route pid,
    pk_from_str p = Some src /\ parse_u64 c = Some scid /\ pk_from_str g = Some guess /\
    entropy s = pre :: rnd :: entropy s' /\
    find_route (get_our_node_id (ldk s))
      (mkRouteParameters guess [[mkHintHop src scid 1000 1 40 None None]] 1000 40)
      (first_hops (ldk s)) rnd (ldk s) = Ok route /\
    send_payment route (sha256 pre) None (ldk s) = (Ok pid, ldk s') /\
    pending_payments s' = <[sha256 pre := mkPayment (Some pre) None Pending (Some 10000)]> (pending_payments s) /\
    trace s' = trace s ++ [SendPayment route (sha256 pre); Log Trace ("sent payment PaymentId(" +:+ debug_bytes pid +:+ ")")].
Proof.
  intros H. unfold probe in H.
  destruct (pk_from_str p) as [src|] eqn:Ep; cbn [unwrap] in H; [|run_in H; simplify_eq].
  erewrite prog_bind_Ret in H by done.
  destruct (parse_u64 c) as [scid|] eqn:Ec; [|run_in H; simplify_eq].
  unfold random32 in H. unfold mbind at 1, prog_bind at 1 in H.
  destruct (entropy s) as [|pre e] eqn:Ee; [simplify_eq|]. cbv zeta in H.
  unfold mbind at 1, prog_bind at 1 in H.
  destruct (find_routes g _ _) as [[[route|er]| |] s2] eqn:E2; [|run_in H; by simplify_eq..].
  apply find_routes_ok in E2 as (guess & rnd & Eg & Ern & Es2 & Efind). cbn in Ern, Efind. rewrite Es2 in H.
  unfold on_ldk in H. run_in H. cbn in H.
  destruct (send_payment _ _ _ _) as [[pid|er] l] eqn:Esend; simplify_eq.
  exists src, scid, guess, pre, rnd, route, pid. cbn in *. rewrite <- (assoc_L (++)). by split_and!.
Qed.

(** A probe that reports an error leaves the pending payments as they were, if the
    hash it drew was not pending already; a payment it tried to send is one that LDK
    refused; and the error says that the channel id is not a number exactly when that is
    so. *)
Theorem probe_err_spec p c g s e s' :
  probe p c g s = (Ret (Err e), s') ->
  (forall pre, head (entropy s) = Some pre -> pending_payments s !! sha256 pre = None) ->
  pending_payments s' = pending_payments s /\
  (exists t, trace s' = trace s ++ t /\
     forall route hash, SendPayment route hash ∈ t ->
       exists err l, send_payment route hash None (ldk s) = (Err err, l)) /\
  (e = "channel_id isn't a number" <-> parse_u64 c = None).
Proof.
  intros H Hfresh. unfold probe in H.
  destruct (pk_from_str p) as [src|] eqn:Ep; cbn [unwrap] in H; [|run_in H; simplify_eq].
  erewrite prog_bind_Ret in H by done.
  destruct (parse_u64 c) as [scid|] eqn:Ec.
  2:{ run_in H. simplify_eq. split_and!; [done| |done]. eexists. split; [reflexivity|]. set_solver. }
  unfold random32 in H. unfold mbind at 1, prog_bind at 1 in H.
  destruct (entropy s) as [|pre e'] eqn:Ee; [simplify_eq|]. cbv zeta in H. specialize (Hfresh pre eq_refl).
  unfold mbind at 1, prog_bind at 1 in H.
  destruct (find_routes g _ _) as [[[route|er]| |] s2] eqn:E2; apply find_routes_pending in E2 as P2;
    apply find_routes_sent in E2 as [T2 L2]; unfold same_pending in P2; cbn in P2, T2, L2; [..|run_in H; by simplify_eq|run_in H; by simplify_eq].
  2:{ run_in H. simplify_eq. cbn. rewrite T2. split_and!; [done| |done]. eexists. split; [reflexivity|]. set_solver. }
  unfold on_ldk in H. run_in H. cbn in H. rewrite L2 in H.
  destruct (send_payment _ _ _ _) as [[pid|er] l] eqn:Esend; simplify_eq. cbn.
  rewrite P2, delete_insert_eq, delete_id, T2, <- (assoc_L (++)) by done. split_and!; [done| |done].
  eexists. split; [reflexivity|]. intros r h Hin.
  rewrite !elem_of_app, !list_elem_of_singleton in Hin. naive_solver.
Qed.

End Probe.
