(* ===== verification/ProbeAll.v ===== *)
(** * ProbeAll: the "probeall" command of src/cli.rs

    Reading the node and transaction files, and the probing loops: for every node
    that has a route, every candidate output that is not a public channel and was not
    tried before is probed until LDK accepts the payment, with at most 31 payments in
    flight.  Events and Ctrl-C arrive at the scheduling points ([yield_point]); the
    two waiting loops of the source are unbounded and carry fuel here. *)

From S2P Require Import Prelude Text HexUtils Bytes Fs Json Bitcoind App Scid Events Probe.

Local Open Scope Z_scope.

Inductive flow := Continue | Break.

Section ProbeAll.
Context {PublicKey L : Type} `{!Keys PublicKey} `{!Ldk PublicKey L} {plat : Platform}.
Abbreviation prog := (prog (app PublicKey L)).
Context (network : Network).

(** ** The attempts table: [get_attempts_str] and [get_attempts_found] *)

Definition attempt_key (pubkey channel : string) : string := pubkey +:+ ":" +:+ channel.

Fixpoint attempts_str (rows : list Attempt) (acc : gmap string string) : gmap string string :=
  match rows with
  | [] => acc
  | a :: rows' =>
      if decide (attempt_result a = "unknown") then attempts_str rows' acc
      else attempts_str rows' (<[attempt_key (target_pubkey a) (channel_id a) := attempt_result a]> acc)
  end.
Definition get_attempts_str (rows : list Attempt) : gmap string string := attempts_str rows ∅.

Fixpoint get_attempts_found (rows : list Attempt) : list Attempt :=
  match rows with
  | [] => []
  | a :: rows' =>
      if decide (attempt_result a = "unknown" \/ attempt_result a = "unknown_next_peer")
      then get_attempts_found rows'
      else a :: get_attempts_found rows'
  end.

(** ** Files *)

(** The directory and name of a path given on the command line. *)
Definition path_of (p : string) : path :=
  match last_split "/" p with Some (d, n) => (d, n) | None => (".", p) end.

(** [fs::read_to_string]. *)
Definition read_to_string (p : path) : io string :=
  let? contents := file_read p in
  match from_utf8 contents with
  | Some s => mret (Ok s)
  | None => mret (Err (OsError "stream did not contain valid UTF-8"))
  end.

(** [println!("{:?}", e.into_inner().unwrap())]. *)
Definition print_io_error (e : io_error) : prog unit :=
  msg ← lift (unwrap "called `Option::unwrap()` on a `None` value" (into_inner e));
  println (debug_str msg).

(** The nodes to probe; [None] when the command gives up. *)
Definition read_nodes (nodepath : string) : prog (option (list Node)) :=
  if decide (nodepath = "all") then
    ids ← gets (fun s => graph_nodes (ldk s));
    _ ← foldM (fun _ pk => println ("trying to parse pubkey NodeId(" +:+ hex_str pk +:+ ") : " +:+ debug_str (hex_str pk))) tt ids;
    mret (Some ((fun pk => mkNode (hex_str pk)) <$> ids))
  else
    node_data ← on_fs (read_to_string (path_of nodepath));
    match node_data with
    | Err e => _ ← print_io_error e; mret None
    | Ok file =>
        match parse_nodes file with
        | Ok n => mret (Some n)
        | Err e => _ ← println e; mret None
        end
    end.

(** One transaction file; a file that does not parse is skipped. *)
Definition read_tx_file (dir name : string) : prog (list Transaction) :=
  _ ← println ("Reading tx file: Some(" +:+ debug_str name +:+ ")");
  tx_data ← on_fs (read_to_string (dir, name));
  match tx_data with
  | Err e => _ ← print_io_error e; mret []
  | Ok file =>
      match parse_txs file with
      | Ok n => mret n
      | Err e => _ ← println e; mret []
      end
  end.

(** [fs::read_dir]. *)
Definition list_dir (dir : string) : io (list string) :=
  io_op no_effect (fun d =>
    if decide (dir ∈ dirs d) then Ok (dir_order (dir_names dir d), d)
    else Err (OsError "No such file or directory")).

(** All transaction files of a directory, in the order it is listed. *)
Definition read_txs (txpath : string) : prog (option (list Transaction)) :=
  read_res ← on_fs (list_dir txpath);
  match read_res with
  | Err e => _ ← print_io_error e; mret None
  | Ok names =>
      txs ← foldM (fun acc name => new_txs ← read_tx_file txpath name; mret (acc ++ new_txs)) [] names;
      mret (Some txs)
  end.

(** ** Probing *)

Record probe_ctx := mkCtx {
  probetype : string;
  txs : list Transaction;
  short_channel_ids : gset Z;
  set_of_attempts : gmap string string;
}.

Definition pubkey_guess : string := "03b2c32c46e0b4b720c4f45f02a0cc4c5475df7ce4d5b1ab563961b1681c6917d6".

(** The loop that waits for pending HTLCs to clear. *)
Fixpoint wait_htlcs (fuel : nat) : prog unit :=
  match fuel with
  | O => fun s => (OutOfFuel, s)
  | S fuel' =>
      r ← gets running;
      if 0 <? r then mret tt
      else
        len ← gets (fun s => Z.of_nat (size (pending_payments s)));
        if 30 <? len then
          _ ← log Trace "Close to max htlc's, waiting...";
          _ ← yield_point network;
          wait_htlcs fuel'
        else mret tt
  end.

(** The loop that probes one output until the probe is accepted. *)
Fixpoint probe_until_ok (fuel : nat) (pubkey : string) (scid : Z) : prog unit :=
  match fuel with
  | O => fun s => (OutOfFuel, s)
  | S fuel' =>
      r ← probe pubkey (to_string scid) pubkey_guess;
      match r with
      | Ok _ => mret tt
      | Err _ => _ ← yield_point network; probe_until_ok fuel' pubkey scid
      end
  end.

Definition scid_of (tx : Transaction) : Z :=
  scid_from_parts (block_height tx) (block_index tx) (transaction_index tx).

(** The progress line and the probe of one output. *)
Definition announce_and_probe (fuel : nat) (ctx : probe_ctx) (node : Node) (i scid total : Z) : prog Z :=
  _ ← emit (ProbeLine total i (Z.of_nat (length (txs ctx))) (pubkey node) scid);
  _ ← yield_point network;
  _ ← probe_until_ok fuel (pubkey node) scid;
  mret (total + 1).

(** The body of the loop over the transactions after the signal checks. *)
Definition consider_tx (fuel : nat) (ctx : probe_ctx) (node : Node) (i : Z) (tx : Transaction) (total : Z) :
    prog Z :=
  if bool_decide (probetype ctx = "assumptions") && negb (amount tx `mod` 10000 =? 0) then mret total
  else if bool_decide (probetype ctx = "assumptions") && (1 <? transaction_index tx) then mret total
  else
    let scid := scid_of tx in
    if decide (scid ∈ short_channel_ids ctx)
    then _ ← log Info ("skipping public chan " +:+ to_string scid); mret total
    else
      let attempt := attempt_key (pubkey node) (to_string scid) in
      if decide (is_Some (set_of_attempts ctx !! attempt))
      then _ ← log Info ("skipping attempt " +:+ attempt); mret total
      else announce_and_probe fuel ctx node i scid total.

(** The body of the loop over the transactions, with the counter of probes. *)
Definition probe_tx (fuel : nat) (ctx : probe_ctx) (node : Node) (i : Z) (tx : Transaction) (total : Z) :
    prog (flow * Z) :=
  _ ← yield_point network;
  _ ← wait_htlcs fuel;
  _ ← yield_point network;
  r ← gets running;
  if 0 <? r then mret (Break, total)
  else
    total' ← consider_tx fuel ctx node i tx total;
    mret (Continue, total').

Fixpoint probe_txs (fuel : nat) (ctx : probe_ctx) (node : Node) (i : Z) (l : list Transaction) (total : Z) :
    prog Z :=
  match l with
  | [] => mret total
  | tx :: l' =>
      '(fl, total') ← probe_tx fuel ctx node i tx total;
      match fl with
      | Break => mret total'
      | Continue => probe_txs fuel ctx node (i + 1) l' total'
      end
  end.

Definition probe_node (fuel : nat) (ctx : probe_ctx) (node : Node) (total : Z) : prog Z :=
  route ← find_routes (pubkey node) [];
  match route with
  | Err _ =>
      _ ← log Info ("No routes to node " +:+ pubkey node +:+ ", skipping probes...");
      mret total
  | Ok _ =>
      total' ← probe_txs fuel ctx node 0 (txs ctx) total;
      _ ← log Info "Probing next node...";
      mret total'
  end.

Fixpoint probe_nodes (fuel : nat) (ctx : probe_ctx) (nodes : list Node) (total : Z) : prog Z :=
  match nodes with
  | [] => mret total
  | node :: nodes' => total' ← probe_node fuel ctx node total; probe_nodes fuel ctx nodes' total'
  end.

(** The command. *)
Definition probeall (fuel : nat) (probetype nodepath txpath : option string) : prog unit :=
  match probetype, nodepath, txpath with
  | Some probetype, Some nodepath, Some txpath =>
      nodes ← read_nodes nodepath;
      match nodes with
      | None => mret tt
      | Some nodes =>
          short_channel_ids ← gets (fun s => graph_channels (ldk s));
          txs ← read_txs txpath;
          match txs with
          | None => mret tt
          | Some txs =>
              _ ← log Info "sorting transactions by height";
              let txs := sort_by (fun tx => - block_height tx) txs in
              set_of_attempts ← gets (fun s => get_attempts_str (attempts s));
              _ ← log Info "Starting probing...";
              _ ← probe_nodes fuel (mkCtx probetype txs short_channel_ids set_of_attempts) nodes 1;
              mret tt
          end
      end
  | _, _, _ =>
      println "ERROR: probeall requires type nodefile and txfile: `probeprivate <probetype> <nodefile> <txfile>`"
  end.

End ProbeAll.
