(* ===== verification/ProbeAllSpec.v ===== *)
(** * ProbeAllSpec: what "probeall" promises

    The reference behaviour of the probing loops is a filter: the outputs to try on a
    node are those of [candidates], in order.  The loops of ProbeAll.v are proved to
    announce exactly these, to stay within the HTLC limit and to stop on Ctrl-C,
    whatever the environment does in between. *)

From S2P Require Import Prelude Text HexUtils Bytes Fs Json Bitcoind App Scid Events Probe ProbeAll.

Local Open Scope Z_scope.

Section Spec.
Context {PublicKey L : Type} `{!Keys PublicKey} `{!Ldk PublicKey L} {plat : Platform}.
Context (network : Network).
Implicit Types (s : app PublicKey L) (node : Node) (tx : Transaction) (ctx : probe_ctx).

(** ** The reference *)

Definition assumptions_hold (probetype : string) tx : bool :=
  negb (bool_decide (probetype = "assumptions")) ||
  ((amount tx `mod` 10000 =? 0) && (transaction_index tx <=? 1)).

Definition eligible ctx node tx : bool :=
  assumptions_hold (probetype ctx) tx &&
  bool_decide (scid_of tx ∉ short_channel_ids ctx) &&
  bool_decide (set_of_attempts ctx !! attempt_key (pubkey node) (to_string (scid_of tx)) = None).

Definition line_of node tx : string * Z := (pubkey node, scid_of tx).

(** The probes of one node. *)
Definition candidates ctx (l : list Transaction) node : list (string * Z) :=
  line_of node <$> List.filter (eligible ctx node) l.

(** The probes a trace announces. *)
Definition lines (t : list (action Route)) : list (string * Z) :=
  omap (fun a => match a with ProbeLine _ _ _ pk scid => Some (pk, scid) | _ => None end) t.

Lemma lines_app t t' : lines (t ++ t') = lines t ++ lines t'.
Proof. apply omap_app. Qed.

Lemma lines_none t : (forall a b c d e, ProbeLine a b c d e ∉ t) -> lines t = [].
Proof.
  induction t as [|a t IH]; intros H; [done|]. cbn.
  assert (Ht : lines t = []) by (apply IH; intros; intros Hin; eapply H; by right).
  destruct a; try done. exfalso. eapply H. left.
Qed.

(** ** Steps that announce nothing *)

Definition silent s s' : Prop := lines (trace s') = lines (trace s) /\ running s <= running s'.
Global Instance silent_preorder : PreOrder silent.
Proof.
  split; [intros s; by split|]. intros s1 s2 s3 [H1 ?] [H2 ?]. split; [congruence|lia].
Qed.

Lemma env_rel_silent s s' : env_rel s s' -> silent s s'.
Proof.
  intros [_ _ Hr (t & T & Q) _ _]. split; [|done]. rewrite T, lines_app.
  rewrite (lines_none t), (right_id_L [] (++)); [done|].
  intros a b c d e Hin. rewrite Forall_forall in Q. by apply Q in Hin.
Qed.

Lemma probe_rel_silent s s' : probe_rel s s' -> silent s s'.
Proof.
  intros (_ & _ & _ & Hr & _ & _ & t & T & Q). split; [|lia]. rewrite T, lines_app.
  by rewrite (lines_none t), (right_id_L [] (++)).
Qed.

Lemma yield_silent : keeps silent (yield_point network).
Proof. intros s o s' H. by eapply env_rel_silent, yield_point_keeps. Qed.
Lemma probe_silent p c g : keeps silent (probe p c g).
Proof. intros s o s' H. by eapply probe_rel_silent, probe_keeps. Qed.
Lemma find_routes_silent p h : keeps silent (find_routes p h).
Proof. intros s o s' H. by eapply probe_rel_silent, find_routes_keeps. Qed.
Lemma log_silent l str : keeps silent (log l str).
Proof. intros s o s' H. by eapply env_rel_silent, keeps_log. Qed.
Hint Resolve yield_silent probe_silent find_routes_silent log_silent : keeps.

Lemma wait_silent fuel : keeps silent (wait_htlcs network fuel).
Proof.
  induction fuel as [|fuel IH]; cbn [wait_htlcs]; [apply keeps_pure, _|].
  solve_keeps.
Qed.
Lemma probe_until_ok_silent fuel pk scid : keeps silent (probe_until_ok network fuel pk scid).
Proof.
  induction fuel as [|fuel IH]; cbn [probe_until_ok]; [apply keeps_pure, _|]. solve_keeps.
Qed.

(** ** One transaction *)

(** [announces l s s']: the step announces the probes [l]. *)
Definition announces (l : list (string * Z)) s s' : Prop :=
  lines (trace s') = lines (trace s) ++ l /\ running s <= running s'.

Lemma announces_silent s s' : announces [] s s' <-> silent s s'.
Proof. unfold announces, silent. by rewrite (right_id_L [] (++)). Qed.
Lemma announces_trans l1 l2 s1 s2 s3 :
  announces l1 s1 s2 -> announces l2 s2 s3 -> announces (l1 ++ l2) s1 s3.
Proof. intros [H1 ?] [H2 ?]. split; [by rewrite H2, H1, (assoc_L (++))|lia]. Qed.
Lemma silent_announces l s1 s2 s3 : silent s1 s2 -> announces l s2 s3 -> announces l s1 s3.
Proof. intros H%announces_silent. by apply (announces_trans []). Qed.
Lemma announces_then_silent l s1 s2 s3 : announces l s1 s2 -> silent s2 s3 -> announces l s1 s3.
Proof. intros H1 H2%announces_silent. rewrite <- (right_id_L [] (++) l). by eapply announces_trans. Qed.

Lemma announce_and_probe_announces fuel ctx node i scid total :
  keeps (announces [(pubkey node, scid)]) (announce_and_probe network fuel ctx node i scid total).
Proof.
  intros s o s' H. unfold announce_and_probe in H. erewrite prog_bind_Ret in H by reflexivity.
  assert (Hu := probe_until_ok_silent).
  eapply announces_then_silent; [|eapply keeps_bind in H; [exact H|apply _|apply yield_silent|solve_keeps]].
  split; [exact (lines_app (trace s) [ProbeLine _ _ _ _ _])|reflexivity].
Qed.

(** The early [continue]s and the two skips are together the negation of
    [eligible]; they log at most a line. *)
Lemma consider_tx_eq fuel ctx node i tx total :
  if eligible ctx node tx
  then consider_tx network fuel ctx node i tx total = announce_and_probe network fuel ctx node i (scid_of tx) total
  else exists logged, forall s,
    consider_tx network fuel ctx node i tx total s = (Ret total, set_trace (fun t => t ++ (Log Info <$> logged)) s).
Proof.
  assert (Hret : exists logged, forall s, mret (M := prog (app PublicKey L)) total s =
       (Ret total, set_trace (fun t => t ++ (Log Info <$> logged)) s)).
  { exists []. intros s. unfold set_trace. cbn. rewrite List.app_nil_r. by destruct s. }
  assert (Hlog : forall str, exists logged, forall s, (_ ← log Info str; mret (M := prog (app PublicKey L)) total) s =
       (Ret total, set_trace (fun t => t ++ (Log Info <$> logged)) s)).
  { intros str. by exists [str]. }
  unfold eligible, assumptions_hold, consider_tx.
  replace (transaction_index tx <=? 1) with (negb (1 <? transaction_index tx)) by lia.
  destruct (bool_decide (probetype ctx = "assumptions")); cbn [andb negb orb].
  1: destruct (amount tx `mod` 10000 =? 0), (1 <? transaction_index tx); cbn [andb negb orb]; try done.
  all: cbv zeta; repeat case_decide; repeat case_bool_decide; cbn [andb]; try done.
  all: first [by apply eq_None_not_Some in H0 | exfalso; by apply H0, not_eq_None_Some].
Qed.

Lemma set_trace_logs logged s : silent s (set_trace (fun t => t ++ (Log Info <$> logged)) s).
Proof.
  split; [|reflexivity]. cbn. rewrite lines_app, (lines_none (Log Info <$> logged)), List.app_nil_r; [done|].
  intros a b c d e (x & ? & _)%list_elem_of_fmap. done.
Qed.

Lemma probe_tx_cases fuel ctx node i tx total s o s' :
  probe_tx network fuel ctx node i tx total s = (o, s') ->
  (exists l, l `prefix_of` candidates ctx [tx] node /\ announces l s s') /\
  (forall t, o = Ret (Continue, t) -> announces (candidates ctx [tx] node) s s') /\
  (forall t, o = Ret (Break, t) -> 0 < running s').
Proof.
  intros H. unfold probe_tx in H.
  assert (Hnil : forall s', silent s s' -> exists l, l `prefix_of` candidates ctx [tx] node /\ announces l s s').
  { intros s1 Hs. exists []. split; [apply prefix_nil|by apply announces_silent]. }
  unfold mbind at 1, prog_bind at 1 in H.
  destruct (yield_point network s) as [o1 s1] eqn:E1. apply yield_silent in E1.
  destruct o1; [|simplify_eq; split_and!; auto; done..].
  unfold mbind at 1, prog_bind at 1 in H.
  destruct (wait_htlcs network fuel s1) as [o2 s2] eqn:E2. apply wait_silent in E2.
  assert (E : silent s s2) by (by etrans).
  destruct o2; [|simplify_eq; split_and!; auto; done..].
  unfold mbind at 1, prog_bind at 1 in H.
  destruct (yield_point network s2) as [o3 s3] eqn:E3. apply yield_silent in E3.
  assert (E' : silent s s3) by (by etrans).
  destruct o3; [|simplify_eq; split_and!; auto; done..].
  erewrite prog_bind_Ret in H by done.
  destruct (Z.ltb_spec 0 (running s3)); [run_in H; simplify_eq; split_and!; auto; done|].
  pose proof (consider_tx_eq fuel ctx node i tx total) as Hc. unfold mbind, prog_bind in H.
  unfold candidates in *. cbn [List.filter] in *.
  destruct (consider_tx network fuel ctx node i tx total s3) as [o4 s4] eqn:E4.
  assert (s' = s4) as -> by (destruct o4; run_in H; by simplify_eq).
  assert (Hb : forall t, o <> Ret (Break, t)) by (destruct o4; run_in H; by simplify_eq).
  destruct (eligible ctx node tx); cbn [fmap list_fmap] in *.
  - rewrite Hc in E4. apply announce_and_probe_announces in E4.
    assert (announces [line_of node tx] s s4) by (by eapply silent_announces).
    split_and!; [by eexists|done|]. intros t Ht. by destruct (Hb t).
  - destruct Hc as [logged Hc]. rewrite Hc in E4.
    assert (silent s s4) by (etrans; [exact E'|]; simplify_eq; apply set_trace_logs).
    split_and!; [auto|intros; by apply announces_silent|]. intros t Ht. by destruct (Hb t).
Qed.

(** ** All transactions of a node *)

Lemma candidates_cons ctx tx l node :
  candidates ctx (tx :: l) node = candidates ctx [tx] node ++ candidates ctx l node.
Proof. unfold candidates. cbn [List.filter]. by destruct (eligible ctx node tx). Qed.

Lemma probe_txs_cases fuel ctx node i l total s o s' :
  probe_txs network fuel ctx node i l total s = (o, s') ->
  (exists k, k `prefix_of` candidates ctx l node /\ announces k s s') /\
  (forall t, o = Ret t -> running s' <= 0 -> announces (candidates ctx l node) s s').
Proof.
  revert i total s. induction l as [|tx l IH]; intros i total s H.
  { cbn in H. run_in H. simplify_eq. assert (announces [] s' s') by (by apply announces_silent).
    split; [by exists []|done]. }
  cbn [probe_txs] in H. unfold mbind, prog_bind in H.
  destruct (probe_tx network fuel ctx node i tx total s) as [o1 s1] eqn:E1.
  apply probe_tx_cases in E1 as ((k & Hk & Ak) & Hc & Hb). rewrite candidates_cons.
  assert (Hpre : exists k, k `prefix_of` candidates ctx [tx] node ++ candidates ctx l node /\ announces k s s1).
  { exists k. split; [by apply prefix_app_r|done]. }
  destruct o1 as [[[|] t]| |]; [|run_in H; simplify_eq; split; [done|]; intros..|].
  - specialize (Hc t eq_refl). apply IH in H as [(k2 & Hk2 & A2) H2]. split.
    + eexists. split; [by apply prefix_app|by eapply announces_trans].
    + intros t' -> Hr. eapply announces_trans; [done|]. by eapply H2.
  - specialize (Hb t eq_refl). lia.
  - done.
  - simplify_eq. split; [done|]. done.
Qed.

(** ** All nodes *)

Lemma log_then_silent {A} l str (a : A) : keeps silent (_ ← log l str; mret a).
Proof. solve_keeps. Qed.

Lemma probe_node_cases fuel ctx node total s o s' :
  probe_node network fuel ctx node total s = (o, s') ->
  (exists k, k `prefix_of` candidates ctx (txs ctx) node /\ announces k s s') /\
  (forall t, o = Ret t -> running s' <= 0 ->
     silent s s' \/ announces (candidates ctx (txs ctx) node) s s').
Proof.
  intros H. unfold probe_node, mbind at 1, prog_bind at 1 in H.
  assert (Hnil : forall s', silent s s' -> exists k, k `prefix_of` candidates ctx (txs ctx) node /\ announces k s s').
  { intros s1 Hs. exists []. split; [apply prefix_nil|by apply announces_silent]. }
  destruct (find_routes (pubkey node) [] s) as [o1 s1] eqn:E1. apply find_routes_silent in E1.
  destruct o1 as [[route|e]| |]; [|..|by simplify_eq; auto|by simplify_eq; auto].
  - unfold mbind at 1, prog_bind at 1 in H.
    destruct (probe_txs _ _ _ _ _ _ _ s1) as [o2 s2] eqn:E2. apply probe_txs_cases in E2 as [(k & Hk & Ak) Hall].
    assert (Ak' : announces k s s2) by (by eapply silent_announces).
    destruct o2 as [t| |]; [|simplify_eq; split; [by exists k|done]..].
    pose proof (log_then_silent _ _ _ _ _ _ H) as H2.
    split; [exists k; split; [done|by eapply announces_then_silent]|]. intros t' -> Hr. right.
    eapply announces_then_silent; [|done]. eapply silent_announces; [done|].
    eapply Hall; [done|]. destruct H2. lia.
  - pose proof (log_then_silent _ _ _ _ _ _ H) as H2. assert (silent s s') by (by etrans). auto.
Qed.

(** Every probe announced, in whatever way the run ends, is a candidate. *)
Lemma probe_nodes_sound fuel ctx nodes total s o s' :
  probe_nodes network fuel ctx nodes total s = (o, s') ->
  exists k, announces k s s' /\
    forall ln, ln ∈ k -> exists node tx, node ∈ nodes /\ tx ∈ txs ctx /\ eligible ctx node tx = true /\ ln = line_of node tx.
Proof.
  revert total s. induction nodes as [|node nodes IH]; intros total s H.
  { cbn in H. run_in H. simplify_eq. exists []. split; [by apply announces_silent|]. set_solver. }
  cbn [probe_nodes] in H. unfold mbind, prog_bind in H.
  destruct (probe_node network fuel ctx node total s) as [o1 s1] eqn:E1.
  apply probe_node_cases in E1 as [(k & Hk & Ak) _].
  assert (Hk' : forall ln, ln ∈ k -> exists node' tx, node' ∈ node :: nodes /\ tx ∈ txs ctx /\
            eligible ctx node' tx = true /\ ln = line_of node' tx).
  { intros ln Hln. destruct Hk as [k' E]. assert (Hin : ln ∈ candidates ctx (txs ctx) node) by (rewrite E; set_solver).
    apply list_elem_of_fmap in Hin as (tx & -> & Htx). apply list_elem_of_In, filter_In in Htx as [Htx ?].
    exists node, tx. split_and!; [left|by apply list_elem_of_In|done|done]. }
  destruct o1; [|simplify_eq; by exists k..].
  apply IH in H as (k2 & A2 & H2). exists (k ++ k2). split; [by eapply announces_trans|].
  intros ln [Hln|Hln]%elem_of_app; [by apply Hk'|]. destruct (H2 _ Hln) as (n & tx & ? & ?).
  exists n, tx. split; [by right|done].
Qed.


(** ** The command *)

(** Steps that leave the LDK node, the attempts and the announced probes alone. *)
Definition reads s s' : Prop :=
  ldk s' = ldk s /\ attempts s' = attempts s /\ pending_payments s' = pending_payments s /\ silent s s'.
Global Instance reads_preorder : PreOrder reads.
Proof.
  split; [intros s; by split_and!|]. intros s1 s2 s3 (?&?&?&?) (?&?&?&?).
  split_and!; [congruence..|]. by etrans.
Qed.
Lemma reads_println str : keeps reads (println str).
Proof.
  intros s o s' H. assert (silent s s') by (by eapply env_rel_silent, keeps_println).
  run_in H. by simplify_eq.
Qed.
Lemma reads_log l str : keeps reads (log l str).
Proof. intros s o s' H. assert (silent s s') by (by eapply log_silent). run_in H. by simplify_eq. Qed.
Lemma reads_on_fs {A} (m : Prelude.prog world A) : keeps reads (on_fs m).
Proof. intros s o s' H. unfold on_fs in H. destruct (m _). by simplify_eq. Qed.
Hint Resolve reads_println reads_log reads_on_fs : keeps.
Lemma keeps_foldM {S A B} (R : S -> S -> Prop) `{!PreOrder R} (f : B -> A -> Prelude.prog S B) b l :
  (forall b a, keeps R (f b a)) -> keeps R (foldM f b l).
Proof.
  intros Hf. revert b. induction l as [|a l IH]; intros b; cbn [foldM]; [by apply keeps_ret|].
  by apply keeps_bind.
Qed.
Lemma reads_print_io_error e : keeps reads (print_io_error e).
Proof. unfold print_io_error. solve_keeps. Qed.
Hint Resolve reads_print_io_error : keeps.
Lemma reads_read_nodes p : keeps reads (read_nodes p).
Proof. unfold read_nodes. solve_keeps. apply keeps_foldM; [apply _|]. solve_keeps. Qed.
Lemma reads_read_txs p : keeps reads (read_txs p).
Proof. unfold read_txs, read_tx_file. solve_keeps. apply keeps_foldM; [apply _|]. solve_keeps. Qed.
Hint Resolve reads_read_nodes reads_read_txs : keeps.

(** Either the files could not be read, or the loops run on what was read. *)
Lemma probeall_cases fuel pt np tp s o s' :
  probeall network fuel pt np tp s = (o, s') ->
  reads s s' \/
  exists probetype nodes txs s1 s2 o2,
    reads s s1 /\
    probe_nodes network fuel
      (mkCtx probetype (sort_by (fun tx => - block_height tx) txs) (graph_channels (ldk s))
         (get_attempts_str (attempts s))) nodes 1 s1 = (o2, s2) /\ s' = s2.
Proof.
  intros H. unfold probeall in H.
  destruct pt as [pt|], np as [np|], tp as [tp|]; try (left; by eapply reads_println).
  unfold mbind at 1, prog_bind at 1 in H.
  destruct (read_nodes np s) as [o1 s1] eqn:E1. apply reads_read_nodes in E1.
  destruct o1 as [[nodes|]| |]; [|run_in H; simplify_eq; by left..].
  erewrite prog_bind_Ret in H by reflexivity. unfold mbind at 1, prog_bind at 1 in H.
  destruct (read_txs tp s1) as [o2 s2] eqn:E2. apply reads_read_txs in E2.
  assert (E : reads s s2) by (by etrans).
  destruct o2 as [[l|]| |]; [|run_in H; simplify_eq; by left..].
  destruct (log Info "sorting transactions by height" s2) as [o3 s3] eqn:E3. pose proof E3 as R3.
  apply reads_log in R3. assert (o3 = Ret tt) as -> by (run_in E3; by simplify_eq).
  rewrite (prog_bind_Ret _ _ _ _ _ E3) in H. cbv zeta in H. erewrite prog_bind_Ret in H by reflexivity.
  destruct (log Info "Starting probing..." s3) as [o4 s4] eqn:E4. pose proof E4 as R4.
  apply reads_log in R4. assert (o4 = Ret tt) as -> by (run_in E4; by simplify_eq).
  rewrite (prog_bind_Ret _ _ _ _ _ E4) in H.
  assert (R : reads s s4) by (etrans; [exact E|]; by etrans).
  assert (Eg : graph_channels (ldk s1) = graph_channels (ldk s)) by (destruct E1 as (-> & _); done).
  assert (Ea : get_attempts_str (attempts s3) = get_attempts_str (attempts s)).
  { destruct E as (_ & Ea & _), R3 as (_ & Ea' & _). by rewrite Ea', Ea. }
  rewrite Eg, Ea in H. unfold mbind, prog_bind in H.
  destruct (probe_nodes _ _ _ _ _ s4) as [o5 s5] eqn:E5. right. exists pt, nodes, l, s4, s5, o5.
  split_and!; [done|done|]. destruct o5; run_in H; by simplify_eq.
Qed.

(** C1: however "probeall" ends (return, panic, process exit, stuck waiting) it never
    announces a probe of a channel the network graph knows, nor of one the attempts
    table already has an answer for. *)
Theorem probeall_sound fuel pt np tp s o s' :
  probeall network fuel pt np tp s = (o, s') ->
  exists k, lines (trace s') = lines (trace s) ++ k /\
    forall pk scid, (pk, scid) ∈ k ->
      scid ∉ graph_channels (ldk s) /\
      get_attempts_str (attempts s) !! attempt_key pk (to_string scid) = None.
Proof.
  intros [H|(pt' & nodes & l & s1 & s2 & o2 & (_ & _ & _ & R) & H & ->)]%probeall_cases.
  { exists []. rewrite (right_id_L [] (++)). split; [apply H|]. set_solver. }
  apply probe_nodes_sound in H as (k & [Hk _] & Hin). exists k. destruct R as [R _].
  rewrite Hk, R. split; [done|]. intros pk scid (node & tx & _ & _ & He & E)%Hin.
  unfold line_of in E. simplify_eq. unfold eligible in He. cbn in He.
  rewrite !andb_true_iff, !bool_decide_eq_true in He. naive_solver.
Qed.

(** ** The HTLC limit *)

Definition in_flight s : nat := size (pending_payments s).

Definition drains s s' : Prop := (in_flight s' <= in_flight s)%nat /\ running s <= running s'.
Global Instance drains_preorder : PreOrder drains.
Proof. split; [intros s; split; lia|]. intros s1 s2 s3 [] []. split; lia. Qed.

Lemma env_rel_drains s s' : env_rel s s' -> drains s s'.
Proof. intros [P _ R _ _ _]. split; [|done]. by apply map_subseteq_size. Qed.
Lemma yield_drains : keeps drains (yield_point network).
Proof. intros s o s' H. by eapply env_rel_drains, yield_point_keeps. Qed.
Lemma log_drains l str : keeps drains (log l str).
Proof. intros s o s' H. by eapply env_rel_drains, keeps_log. Qed.
Lemma find_routes_drains p h : keeps drains (find_routes p h).
Proof.
  intros s o s' H. pose proof (find_routes_silent _ _ _ _ _ H) as [_ R].
  apply find_routes_pending in H. unfold drains, in_flight. by rewrite H.
Qed.
Hint Resolve yield_drains log_drains find_routes_drains : keeps.

(** The wait ends below the limit, or because of Ctrl-C. *)
Lemma wait_htlcs_spec fuel s o s' :
  wait_htlcs network fuel s = (o, s') ->
  drains s s' /\ (o = Ret tt -> 0 < running s' \/ (in_flight s' <= 30)%nat).
Proof.
  revert s. induction fuel as [|fuel IH]; intros s H; cbn [wait_htlcs] in H.
  { simplify_eq. split; [reflexivity|done]. }
  erewrite prog_bind_Ret in H by reflexivity. destruct (Z.ltb_spec 0 (running s)).
  { run_in H. simplify_eq. split; [reflexivity|by left]. }
  erewrite prog_bind_Ret in H by reflexivity. fold (in_flight s) in H.
  destruct (Z.ltb_spec 30 (Z.of_nat (in_flight s))).
  2: { run_in H. simplify_eq. split; [reflexivity|]. right. lia. }
  destruct (log Trace "Close to max htlc's, waiting..." s) as [o1 s1] eqn:E1. pose proof E1 as D1. apply log_drains in D1.
  unfold mbind at 1, prog_bind at 1 in H. rewrite E1 in H. destruct o1; [|by run_in E1..].
  unfold mbind at 1, prog_bind at 1 in H.
  destruct (yield_point network s1) as [o2 s2] eqn:E2. apply yield_drains in E2.
  assert (D : drains s s2) by (by etrans).
  destruct o2; [|simplify_eq; by split..]. apply IH in H as [D' H]. split; [by etrans|done].
Qed.

Lemma probe_in_flight p c g s o s' :
  probe p c g s = (o, s') ->
  (in_flight s' <= S (in_flight s))%nat /\ ((forall x, o <> Ret (Ok x)) -> (in_flight s' <= in_flight s)%nat).
Proof.
  unfold in_flight. intros [(h & pre & -> & _ & ->)|[Ho [->|[h ->]]]]%probe_pending.
  - rewrite map_size_insert. split; [destruct (_ !! _); cbn; lia|]. intros Hc. by destruct (Hc tt).
  - lia.
  - rewrite map_size_delete. destruct (_ !! _); cbn; lia.
Qed.

Lemma probe_until_ok_in_flight fuel pk scid s o s' :
  probe_until_ok network fuel pk scid s = (o, s') -> (in_flight s' <= S (in_flight s))%nat.
Proof.
  revert s. induction fuel as [|fuel IH]; intros s H; cbn [probe_until_ok] in H; [simplify_eq; lia|].
  unfold mbind at 1, prog_bind at 1 in H.
  destruct (probe pk _ _ s) as [o1 s1] eqn:E1. apply probe_in_flight in E1 as [Hle Hne].
  destruct o1 as [[u|e]| |]; [run_in H; by simplify_eq| |simplify_eq; lia|simplify_eq; lia].
  specialize (Hne ltac:(done)). unfold mbind at 1, prog_bind at 1 in H.
  destruct (yield_point network s1) as [o2 s2] eqn:E2. apply yield_drains in E2 as [D2 _].
  destruct o2; [|simplify_eq; lia..]. apply IH in H. lia.
Qed.

(** [capped s s']: no more than 31 in flight, unless there were more before. *)
Definition capped s s' : Prop := (in_flight s' <= in_flight s `max` 31)%nat.
Global Instance capped_preorder : PreOrder capped.
Proof. unfold capped. split; [intros s; lia|]. intros s1 s2 s3 H1 H2. lia. Qed.
Lemma drains_capped s s' : drains s s' -> capped s s'.
Proof. unfold capped. intros [H _]. lia. Qed.

Lemma consider_tx_in_flight fuel ctx node i tx total s o s' :
  consider_tx network fuel ctx node i tx total s = (o, s') -> (in_flight s' <= S (in_flight s))%nat.
Proof.
  intros H. pose proof (consider_tx_eq fuel ctx node i tx total) as Hc.
  destruct (eligible ctx node tx).
  - rewrite Hc in H. unfold announce_and_probe in H. erewrite prog_bind_Ret in H by reflexivity.
    set (s1 := set_trace _ s) in H. assert (E1 : in_flight s1 = in_flight s) by done. clearbody s1.
    unfold mbind at 1, prog_bind at 1 in H.
    destruct (yield_point network s1) as [o2 s2] eqn:E2. apply yield_drains in E2 as [D2 _].
    destruct o2; [|simplify_eq; lia..]. unfold mbind at 1, prog_bind at 1 in H.
    destruct (probe_until_ok _ _ _ _ s2) as [o3 s3] eqn:E3. apply probe_until_ok_in_flight in E3.
    assert (s' = s3) as -> by (destruct o3; run_in H; by simplify_eq). lia.
  - destruct Hc as [logged Hc]. rewrite Hc in H. simplify_eq. unfold in_flight. cbn. lia.
Qed.

Lemma probe_tx_capped fuel ctx node i tx total : keeps capped (probe_tx network fuel ctx node i tx total).
Proof.
  intros s o s' H. unfold probe_tx, mbind at 1, prog_bind at 1 in H.
  destruct (yield_point network s) as [o1 s1] eqn:E1. apply yield_drains in E1.
  destruct o1; [|simplify_eq; by apply drains_capped..].
  unfold mbind at 1, prog_bind at 1 in H.
  destruct (wait_htlcs network fuel s1) as [o2 s2] eqn:E2. apply wait_htlcs_spec in E2 as [E2 Hw].
  assert (E : drains s s2) by (by etrans).
  destruct o2 as [[]| |]; [|simplify_eq; by apply drains_capped..]. specialize (Hw eq_refl).
  unfold mbind at 1, prog_bind at 1 in H.
  destruct (yield_point network s2) as [o3 s3] eqn:E3. apply yield_drains in E3.
  assert (E' : drains s s3) by (by etrans).
  destruct o3; [|simplify_eq; by apply drains_capped..].
  erewrite prog_bind_Ret in H by reflexivity.
  destruct (Z.ltb_spec 0 (running s3)); [run_in H; simplify_eq; by apply drains_capped|].
  unfold mbind, prog_bind in H.
  destruct (consider_tx network fuel ctx node i tx total s3) as [o4 s4] eqn:E4. apply consider_tx_in_flight in E4.
  assert (s' = s4) as -> by (destruct o4; run_in H; by simplify_eq).
  destruct E3. unfold capped. lia.
Qed.

Lemma probe_nodes_capped fuel ctx nodes total : keeps capped (probe_nodes network fuel ctx nodes total).
Proof.
  assert (Ht := probe_tx_capped).
  assert (Hf : forall p h, keeps capped (find_routes p h))
    by (intros p h s o s' H; by eapply drains_capped, find_routes_drains).
  assert (Hl : forall l str, keeps capped (log l str))
    by (intros l str s o s' H; by eapply drains_capped, log_drains).
  assert (Htxs : forall l node i t, keeps capped (probe_txs network fuel ctx node i l t)).
  { induction l as [|tx l IH]; intros; cbn [probe_txs]; solve_keeps. }
  revert total. induction nodes as [|node nodes IH]; intros; cbn [probe_nodes]; unfold probe_node; solve_keeps.
Qed.

(** C2: "probeall" keeps at most 31 probe payments in flight (or as many as there were
    when it started), however it ends and however LDK's events are interleaved. *)
Theorem probeall_htlc_limit fuel pt np tp s o s' :
  probeall network fuel pt np tp s = (o, s') ->
  (size (pending_payments s') <= size (pending_payments s) `max` 31)%nat.
Proof.
  intros [(_ & _ & E & _)|(pt' & nodes & l & s1 & s2 & o2 & (_ & _ & E & _) & H & ->)]%probeall_cases.
  - rewrite E. lia.
  - apply probe_nodes_capped in H. unfold capped, in_flight in H. by rewrite E in H.
Qed.

(** ** Ctrl-C *)

Definition quiet_trace s s' : Prop := exists t, trace s' = trace s ++ t /\ Forall quiet t.
Global Instance quiet_trace_preorder : PreOrder quiet_trace.
Proof.
  split.
  - intros s. exists []. by rewrite List.app_nil_r.
  - intros s1 s2 s3 (t1 & T1 & Q1) (t2 & T2 & Q2). exists (t1 ++ t2). rewrite T2, T1, (assoc_L (++)).
    split; [done|]. by apply Forall_app.
Qed.

(** Stopped runs: nothing is probed and the request to stop stays. *)
Definition stopped s s' : Prop := 0 < running s -> 0 < running s' /\ quiet_trace s s'.
Global Instance stopped_preorder : PreOrder stopped.
Proof.
  split.
  - intros s Hr. split; [done|]. reflexivity.
  - intros s1 s2 s3 H1 H2 Hr. destruct (H1 Hr) as [Hr' ?]. destruct (H2 Hr'). split; [done|]. by etrans.
Qed.
Lemma env_rel_stopped s s' : env_rel s s' -> stopped s s'.
Proof. intros [_ _ R T _ _] Hr. split; [lia|done]. Qed.

Lemma find_routes_stopped p h : keeps stopped (find_routes p h).
Proof.
  assert (Hrand : keeps stopped (random32 (PublicKey := PublicKey) (L := L))).
  { intros s o s' H Hr. unfold random32 in H.
    destruct (entropy s); simplify_eq; (split; [done|]); exists []; by rewrite List.app_nil_r. }
  unfold find_routes. solve_keeps.
Qed.

Lemma probe_tx_stopped fuel ctx node i tx total s :
  0 < running s ->
  exists o s', probe_tx network (S fuel) ctx node i tx total s = (o, s') /\ env_rel s s' /\
    forall t fl, o = Ret (fl, t) -> fl = Break.
Proof.
  intros Hr. destruct (probe_tx network (S fuel) ctx node i tx total s) as [o s'] eqn:H.
  exists o, s'. split; [done|]. unfold probe_tx, mbind at 1, prog_bind at 1 in H.
  destruct (yield_point network s) as [o1 s1] eqn:E1. apply yield_point_keeps in E1.
  destruct o1; [|by simplify_eq..].
  assert (Hr1 : 0 < running s1) by (destruct E1; lia).
  assert (Hw : wait_htlcs network (S fuel) s1 = (Ret tt, s1)).
  { cbn [wait_htlcs]. erewrite prog_bind_Ret by reflexivity. by destruct (Z.ltb_spec 0 (running s1)); [|lia]. }
  rewrite (prog_bind_Ret _ _ _ _ _ Hw) in H. unfold mbind at 1, prog_bind at 1 in H.
  destruct (yield_point network s1) as [o3 s3] eqn:E3. apply yield_point_keeps in E3.
  assert (E : env_rel s s3) by (by etrans).
  destruct o3; [|by simplify_eq..]. erewrite prog_bind_Ret in H by reflexivity.
  destruct (Z.ltb_spec 0 (running s3)); [|destruct E; lia]. run_in H. simplify_eq. split; [done|]. intros; by simplify_eq.
Qed.

(** Once Ctrl-C was pressed nothing more is probed: the remaining nodes and
    transactions neither announce a probe nor send a payment. *)
Theorem ctrl_c_stops_probing fuel ctx nodes total s o s' :
  0 < running s ->
  probe_nodes network (S fuel) ctx nodes total s = (o, s') ->
  exists t, trace s' = trace s ++ t /\ Forall quiet t.
Proof.
  intros Hr H. assert (Htx : forall node i l t, keeps stopped (probe_txs network (S fuel) ctx node i l t)).
  { intros node i [|tx l] t s0 o0 s0' H0; cbn [probe_txs] in H0; [run_in H0; simplify_eq; reflexivity|].
    intros Hr0. destruct (probe_tx_stopped fuel ctx node i tx t s0 Hr0) as (o1 & s1 & E1 & R1 & Hb).
    unfold mbind, prog_bind in H0. rewrite E1 in H0. apply env_rel_stopped in R1.
    destruct o1 as [[fl t']| |]; [rewrite (Hb t' fl eq_refl) in H0; run_in H0|..]; simplify_eq; by apply R1. }
  assert (Hl : forall l str, keeps stopped (log l str))
    by (intros l str s1 o1 s1' H1; by eapply env_rel_stopped, keeps_log).
  assert (Hf := find_routes_stopped).
  assert (K : keeps stopped (probe_nodes network (S fuel) ctx nodes total)).
  { clear H. revert total. induction nodes; intros; cbn [probe_nodes]; unfold probe_node; solve_keeps. }
  by apply (K _ _ _ H Hr).
Qed.

(** ** Progress *)

(** The state after [n] sleeps, when none of them ends the process. *)
Fixpoint sleeps (n : nat) s : option (app PublicKey L) :=
  match n with
  | O => Some s
  | S n' =>
      match yield_point network (set_trace (fun t => t ++ [Log Trace "Close to max htlc's, waiting..."]) s) with
      | (Ret _, s') => sleeps n' s'
      | _ => None
      end
  end.

(** The wait for pending HTLCs ends: when the environment clears them (or Ctrl-C is
    pressed) within [n] sleeps, [n + 1] rounds of the loop are enough. *)
Theorem wait_htlcs_returns n s s1 fuel :
  sleeps n s = Some s1 -> 0 < running s1 \/ (size (pending_payments s1) <= 30)%nat ->
  (n < fuel)%nat ->
  exists s', wait_htlcs network fuel s = (Ret tt, s').
Proof.
  revert s fuel. induction n as [|n IH]; intros s [|fuel] Hs Hd Hf; try lia; cbn [sleeps wait_htlcs] in *.
  - simplify_eq. erewrite prog_bind_Ret by reflexivity. destruct (Z.ltb_spec 0 (running s1)); [by eexists|].
    erewrite prog_bind_Ret by reflexivity. destruct Hd; [lia|].
    destruct (Z.ltb_spec 30 (Z.of_nat (size (pending_payments s1)))); [lia|by eexists].
  - erewrite prog_bind_Ret by reflexivity. destruct (Z.ltb_spec 0 (running s)); [by eexists|].
    erewrite prog_bind_Ret by reflexivity. destruct (Z.ltb_spec 30 (Z.of_nat (size (pending_payments s)))); [|by eexists].
    erewrite prog_bind_Ret by reflexivity. destruct (yield_point network _) as [[]] eqn:E; try done.
    rewrite (prog_bind_Ret _ _ _ _ _ E). apply (IH _ fuel); [done|done|lia].
Qed.

(** ** Resuming *)

Lemma attempts_str_lookup rows acc k v :
  attempts_str rows acc !! k = Some v ->
  acc !! k = Some v \/ exists a, a ∈ rows /\ attempt_result a <> "unknown" /\
    k = attempt_key (target_pubkey a) (channel_id a).
Proof.
  revert acc. induction rows as [|a rows IH]; intros acc H; [by left|]. cbn in H. case_decide.
  - apply IH in H as [?|(b & ? & ?)]; [by left|]. right. exists b. split; [by right|done].
  - apply IH in H as [Hk|(b & ? & ?)].
    + destruct (decide (k = attempt_key (target_pubkey a) (channel_id a))) as [->|Hn].
      * right. exists a. split; [left|done].
      * rewrite lookup_insert_ne in Hk by done. by left.
    + right. exists b. split; [by right|done].
Qed.

Lemma attempts_str_mono rows acc k : is_Some (acc !! k) -> is_Some (attempts_str rows acc !! k).
Proof.
  revert acc. induction rows as [|a rows IH]; intros acc H; [done|]. cbn. case_decide; apply IH; [done|].
  rewrite lookup_insert_is_Some. destruct (decide (attempt_key (target_pubkey a) (channel_id a) = k)); auto.
Qed.

Lemma attempts_str_elem rows acc a :
  a ∈ rows -> attempt_result a <> "unknown" ->
  is_Some (attempts_str rows acc !! attempt_key (target_pubkey a) (channel_id a)).
Proof.
  revert acc. induction rows as [|b rows IH]; intros acc Hin Hu; [by apply elem_of_nil in Hin|].
  apply elem_of_cons in Hin as [->|Hin]; cbn.
  - rewrite decide_False by done. apply attempts_str_mono. rewrite lookup_insert_eq. by eexists.
  - case_decide; by apply IH.
Qed.

(** The table answers for a channel exactly when one of its rows for that node and
    channel has a result other than "unknown". *)
Theorem get_attempts_str_spec rows k :
  is_Some (get_attempts_str rows !! k) <->
  exists a, a ∈ rows /\ attempt_result a <> "unknown" /\ k = attempt_key (target_pubkey a) (channel_id a).
Proof.
  split.
  - intros [v H]. apply attempts_str_lookup in H as [H|H]; [by rewrite lookup_empty in H|done].
  - intros (a & Hin & Hu & ->). by apply attempts_str_elem.
Qed.

(** C39: a probe that was answered with one of the six known failure codes is not
    repeated: after the event that reports it, the channel is not eligible for that
    node any more, in this table and in any later one. *)
Theorem answered_probe_not_repeated s s' pre prev last_hop code rest node tx ctx :
  handle_ldk_events network (PaymentPathFailed (pre ++ [prev; last_hop]) (Some code)) s = (Ret tt, s') ->
  error_name code <> "unknown" ->
  pk_to_string (hop_pubkey prev) = pubkey node -> hop_scid last_hop = scid_of tx ->
  set_of_attempts ctx = get_attempts_str (attempts s' ++ rest) ->
  eligible ctx node tx = false.
Proof.
  intros H Hc Hpk Hscid Hset. cbn [handle_ldk_events] in H. unfold on_payment_path_failed in H.
  assert (Hlast : last (pre ++ [prev; last_hop]) = Some last_hop /\ removelast (pre ++ [prev; last_hop]) = pre ++ [prev]).
  { change [prev; last_hop] with ([prev] ++ [last_hop]). rewrite (assoc_L (++)). apply last_removelast. }
  destruct Hlast as [El Er]. rewrite El, Er in H. cbn [unwrapped unwrap] in H. erewrite prog_bind_Ret in H by done.
  rewrite length_app, Nat.add_comm in H. cbn [length Nat.add Nat.ltb Nat.leb] in H.
  rewrite last_snoc in H. cbn [unwrapped unwrap] in H. run_in H. simplify_eq. cbn in Hset.
  unfold eligible. apply andb_false_iff. right. apply bool_decide_eq_false. rewrite Hset.
  apply not_eq_None_Some. rewrite <- Hpk, <- Hscid.
  apply (attempts_str_elem _ _ (attempt_of (hop_pubkey prev) (hop_pubkey last_hop) (hop_scid last_hop) code (clock s))).
  - set_solver.
  - done.
Qed.

End Spec.
