(* ===== verification/DumpResults.v ===== *)
(** * DumpResults: the "dump_results" command of src/cli.rs

    Joins the attempts that found a channel with the scraped outputs, by short
    channel id, and writes them as JSON. *)

From S2P Require Import Prelude Text HexUtils Bytes Fs Json Bitcoind App Scid Disk Events Probe ProbeAll.

Local Open Scope Z_scope.

Section Dump.
Context {PublicKey L : Type} `{!Keys PublicKey} `{!Ldk PublicKey L} {plat : Platform}.
Abbreviation prog := (prog (app PublicKey L)).

(** [txs.insert(scid, tx)] for every transaction of a file. *)
Definition insert_txs (new_txs : list Transaction) (txs : gmap Z Transaction) : gmap Z Transaction :=
  foldl (fun m tx => <[scid_of tx := tx]> m) txs new_txs.

Definition read_tx_map (txpath : string) : prog (option (gmap Z Transaction)) :=
  read_res ← on_fs (list_dir txpath);
  match read_res with
  | Err e => _ ← print_io_error e; mret None
  | Ok names =>
      txs ← foldM (fun acc name => new_txs ← read_tx_file txpath name; mret (insert_txs new_txs acc)) ∅ names;
      mret (Some txs)
  end.

(** One row of the results. *)
Definition result_row (txs : gmap Z Transaction) (attempt : Attempt) : outcome AttemptResult :=
  scid ← unwrap "called `Result::unwrap()` on an `Err` value" (parse_u64 (channel_id attempt));
  let output_index := vout_from_scid scid in
  let '(transaction_id_output, amount) :=
    match txs !! scid with
    | Some utxo => (id utxo +:+ ":" +:+ to_string output_index, amount utxo)
    | None => ("", 0)
    end in
  let other_pubkey :=
    if decide (attempt_result attempt = "incorrect_or_unknown_payment_details")
    then guess_pubkey attempt else "" in
  Ret (mkAttemptResult (target_pubkey attempt) other_pubkey (channel_id attempt)
         transaction_id_output amount (block_from_scid scid) (date_found attempt)).

Fixpoint result_rows (txs : gmap Z Transaction) (attempts : list Attempt) : outcome (list AttemptResult) :=
  match attempts with
  | [] => Ret []
  | a :: l => r ← result_row txs a; rs ← result_rows txs l; Ret (r :: rs)
  end.

Definition dump_results (result_dir txpath : option string) : prog unit :=
  match result_dir, txpath with
  | Some result_dir, Some txpath =>
      txs ← read_tx_map txpath;
      match txs with
      | None => mret tt
      | Some txs =>
          attempts ← gets (fun s => get_attempts_found (attempts s));
          results ← lift (result_rows txs attempts);
          let p := (result_dir, "results.json") in
          _ ← on_fs (unwrap_io (file_create p));
          on_fs (unwrap_io (buffered_write buffer_rest p (results_json results)))
      end
  | _, _ =>
      println "ERROR: dump_results requires result_dir tx_dir: `dump_results <result_dir> <tx_dir>`"
  end.

(** ** Properties *)

Lemma get_attempts_found_filter rows :
  get_attempts_found rows =
  filter (fun a => attempt_result a <> "unknown" /\ attempt_result a <> "unknown_next_peer") rows.
Proof.
  induction rows as [|a rows IH]; [done|]. cbn [get_attempts_found]. rewrite filter_cons. rewrite IH.
  repeat case_decide; try done; exfalso; tauto.
Qed.

Lemma insert_txs_lookup l m scid :
  insert_txs l m !! scid =
  match last (filter (fun tx => scid_of tx = scid) l) with
  | Some tx => Some tx
  | None => m !! scid
  end.
Proof.
  revert m. induction l as [|tx l IH]; intros m; [done|]. cbn [insert_txs foldl]. fold (insert_txs l).
  unfold insert_txs in IH. rewrite IH. rewrite filter_cons. destruct (decide (scid_of tx = scid)) as [E|E].
  - rewrite last_cons. rewrite E, lookup_insert_eq. by destruct (last _).
  - by rewrite lookup_insert_ne.
Qed.

(** For a probed output the result row names it: the transaction id with its
    output index, its amount and the height of its block; the other end of the
    channel is named exactly when the failure came from the guessed node itself. *)
Theorem result_row_spec txs tx a :
  in_range (block_height tx) (block_index tx) (transaction_index tx) ->
  channel_id a = to_string (scid_of tx) -> txs !! scid_of tx = Some tx ->
  result_row txs a =
    Ret (mkAttemptResult (target_pubkey a)
           (if decide (attempt_result a = error_name 0x400f) then guess_pubkey a else "")
           (channel_id a) (id tx +:+ ":" +:+ to_string (transaction_index tx)) (amount tx)
           (block_height tx) (date_found a)).
Proof.
  intros Hr Hc Htx. unfold result_row. rewrite Hc.
  assert (Hu : u64 (scid_of tx)) by (exact (scid_u64 _ _ _ Hr)).
  unfold parse_u64. rewrite parse_to_string by (unfold in_width, U64_MAX in *; lia).
  cbn [unwrap mbind outcome_bind]. rewrite Htx.
  destruct (scid_parts _ _ _ Hr) as (Eb & _ & Ev). fold (scid_of tx) in Eb, Ev. by rewrite Eb, Ev.
Qed.

(** The results are the found attempts, in order: those whose failure was neither
    unknown nor "unknown_next_peer"; rows written by the event handler never make
    the command panic. *)
Theorem result_rows_total txs rows :
  (forall a, a ∈ rows -> exists scid, u64 scid /\ channel_id a = to_string scid) ->
  exists rs, result_rows txs (get_attempts_found rows) = Ret rs /\
    r_channel_id <$> rs = channel_id <$>
      filter (fun a => attempt_result a <> "unknown" /\ attempt_result a <> "unknown_next_peer") rows.
Proof.
  intros H. rewrite get_attempts_found_filter.
  induction rows as [|a rows IH]; [by exists []|]. destruct IH as (rs & E & Em); [set_solver|].
  rewrite filter_cons. case_decide as Ha; [|by exists rs].
  destruct (H a ltac:(left)) as (scid & Hs & Hc). cbn [result_rows]. unfold result_row. rewrite Hc.
  unfold parse_u64. rewrite parse_to_string by (unfold in_width, U64_MAX in *; lia).
  cbn [unwrap mbind outcome_bind]. destruct (txs !! scid); (eexists; split; [rewrite E; reflexivity|]);
    rewrite !fmap_cons, Em; cbn; by rewrite Hc.
Qed.

End Dump.
