(* ===== verification/Peers.v ===== *)
(** * Peers: peer addresses, the peer file, the network graph and scorer files, the log

    [parse_peer_info] of src/cli.rs and the rest of src/disk.rs: the channel-peer file
    that is appended to and read back, [persist_network]/[persist_scorer] with their
    readers, and [FilesystemLogger]. *)

From S2P Require Import Prelude Text HexUtils Bytes Fs Disk Json Bitcoind App.

Local Open Scope Z_scope.

Section Peers.
Context {PublicKey L : Type} `{!Keys PublicKey} `{!Ldk PublicKey L}.

(** [parse_peer_info].  The socket address is the first one the host resolves to. *)
Definition parse_peer_info (peer_pubkey_and_ip_addr : string) :
    outcome (result (PublicKey * SocketAddr) io_error) :=
  let pieces := split_on "@" peer_pubkey_and_ip_addr in
  match pieces !! 1%nat with
  | None =>
      Ret (Err (Custom Other "ERROR: incorrectly formatted peer info. Should be formatted as: `pubkey@host:port`"))
  | Some peer_addr_str =>
      match to_socket_addrs peer_addr_str with
      | Some (peer_addr :: _) =>
          pubkey_str ← unwrap "called `Option::unwrap()` on a `None` value" (pieces !! 0%nat);
          pubkey ← to_compressed_pubkey pk_from_slice pubkey_str;
          match pubkey with
          | None => Ret (Err (Custom Other "ERROR: unable to parse given pubkey for node"))
          | Some pubkey => Ret (Ok (pubkey, peer_addr))
          end
      | _ => Ret (Err (Custom Other "ERROR: couldn't parse pubkey@host:port into a socket address"))
      end
  end.

(** [persist_channel_peer]: append a line; only opening may fail without a panic. *)
Definition persist_channel_peer (p : path) (peer_info : string) : io unit :=
  let? _ := open_write p in
  _ ← unwrap_io (append p (bytes_of (peer_info +:+ String "010" "")));
  mret (Ok tt).

(** A [HashMap] whose keys have decidable equality only. *)
Fixpoint assoc_insert {A} (k : PublicKey) (v : A) (m : list (PublicKey * A)) : list (PublicKey * A) :=
  match m with
  | [] => [(k, v)]
  | (k', v') :: m' => if decide (k = k') then (k, v) :: m' else (k', v') :: assoc_insert k v m'
  end.

Fixpoint assoc_get {A} (k : PublicKey) (m : list (PublicKey * A)) : option A :=
  match m with
  | [] => None
  | (k', v) :: m' => if decide (k = k') then Some v else assoc_get k m'
  end.

(** [BufRead::lines]: split at newlines, drop the empty piece after the last one and a
    carriage return before a newline. *)
Fixpoint strip_cr (s : string) : string :=
  match s with
  | EmptyString => EmptyString
  | String "013" EmptyString => EmptyString
  | String a r => String a (strip_cr r)
  end.

Fixpoint buf_lines_of (pieces : list string) : list string :=
  match pieces with
  | [] => []
  | [lst] => if decide (lst = "") then [] else [lst]
  | piece :: pieces' => strip_cr piece :: buf_lines_of pieces'
  end.

Definition buf_lines (s : string) : list string := buf_lines_of (split_on "010" s).

Fixpoint parse_peer_lines (ls : list string) (peer_data : list (PublicKey * SocketAddr)) :
    outcome (result (list (PublicKey * SocketAddr)) io_error) :=
  match ls with
  | [] => Ret (Ok peer_data)
  | l :: ls' =>
      r ← parse_peer_info l;
      match r with
      | Ok (pubkey, socket_addr) => parse_peer_lines ls' (assoc_insert pubkey socket_addr peer_data)
      | Err e => Ret (Err e)
      end
  end.

(** [read_channel_peer_data]. *)
Definition read_channel_peer_data (p : path) : io (list (PublicKey * SocketAddr)) :=
  ex ← gets (fun w => bool_decide (is_Some (files (on_disk w) !! p)));
  if negb (ex : bool) then mret (Ok [])
  else
    let? contents := file_read p in
    text ← lift (unwrap "stream did not contain valid UTF-8" (from_utf8 contents));
    lift (parse_peer_lines (buf_lines text) []).

(** ** [persist_network] and [persist_scorer]

    Both serialize through a [BufWriter] over a temporary file that is opened without
    truncation, then rename. *)
Context (flush_point : bytes -> nat).

Definition persist_via_tmp (dir name : string) (data : bytes) : io unit :=
  let tmp_path := (dir, name +:+ ".tmp") in
  let? _ := open_write tmp_path in
  write_res ← (let? _ := buffered_write flush_point tmp_path data in rename tmp_path (dir, name));
  match write_res with
  | Err e => _ ← remove_file tmp_path; mret (Err e)
  | Ok _ => mret (Ok tt)
  end.

Context {Graph Scorer : Type}.

Definition persist_network (write_graph : Graph -> bytes) (dir name : string) (network_graph : Graph) : io unit :=
  persist_via_tmp dir name (write_graph network_graph).

Definition persist_scorer (write_scorer : Scorer -> bytes) (dir name : string) (scorer : Scorer) : io unit :=
  persist_via_tmp dir name (write_scorer scorer).

(** [read_network]/[read_scorer]: anything that cannot be read is replaced by a fresh
    value. *)
Definition read_network (read_graph : bytes -> option Graph) (fresh : Graph) (p : path) : prog world Graph :=
  file ← file_read p;
  match file with
  | Ok contents => mret (default fresh (read_graph contents))
  | Err _ => mret fresh
  end.

Definition read_scorer (read_scorer : bytes -> option Scorer) (fresh : Scorer) (p : path) : prog world Scorer :=
  file ← file_read p;
  match file with
  | Ok contents => mret (default fresh (read_scorer contents))
  | Err _ => mret fresh
  end.

(** ** [FilesystemLogger] *)

Definition level_str (l : level) : string :=
  match l with
  | Gossip => "GOSSIP" | Trace => "TRACE" | Debug => "DEBUG" | Info => "INFO" | Warn => "WARN" | LevelError => "ERROR"
  end.

(** [{:<5}]. *)
Definition pad5 (s : string) : string :=
  match len s with
  | 4 => s +:+ " "
  | _ => s
  end.

(** [FilesystemLogger::new]: the directory of the log. *)
Definition logger_new (data_dir : string) : prog world string :=
  let logs_path := data_dir +:+ "/logs" in
  _ ← unwrap_io (create_dir_all logs_path); mret logs_path.

(** [Logger::log], with the formatted time, module path and line of the record. *)
Definition logger_log (data_dir now : string) (l : level) (module line args : string) : prog world unit :=
  if negb (bool_decide (level_str l = "INFO")) && negb (bool_decide (level_str l = "WARN")) then mret tt
  else
    let log := now +:+ " " +:+ pad5 (level_str l) +:+ " [" +:+ module +:+ ":" +:+ line +:+ "] " +:+ args
               +:+ String "010" "" in
    _ ← unwrap_io (open_write (data_dir, "logs.txt"));
    unwrap_io (append (data_dir, "logs.txt") (bytes_of log)).

End Peers.

(** ** Properties: the peer file *)

Lemma from_utf8_ascii s : is_ascii s = true -> from_utf8 (bytes_of s) = Some s.
Proof.
  intros H. unfold from_utf8. assert (Hv : valid_utf8 (bytes_of s) = true).
  { induction s as [|a s IH]; [done|]. cbn in H. apply andb_true_iff in H as [Ha Hs].
    rewrite bytes_of_cons. cbn [valid_utf8]. rewrite Ha. by apply IH. }
  by rewrite Hv, string_of_bytes_of.
Qed.

Definition nl : string := String "010" "".

(** The text of a file of lines. *)
Definition unlines (ls : list string) : string := foldr (fun l acc => l +:+ nl +:+ acc) "" ls.

Definition clean_line (l : string) : Prop :=
  is_ascii l = true /\ no_char "010" l = true /\ no_char "013" l = true.

Lemma strip_cr_clean l : no_char "013" l = true -> strip_cr l = l.
Proof.
  induction l as [|a l IH]; [done|]. cbn [no_char]. rewrite andb_true_iff, bool_decide_eq_true.
  intros [Ha Hl]. specialize (IH Hl).
  assert (E : strip_cr (String a l) = String a (strip_cr l)).
  { destruct a as [[] [] [] [] [] [] [] []]; try done; by destruct l. }
  by rewrite E, IH.
Qed.

Lemma unlines_ascii ls : Forall clean_line ls -> is_ascii (unlines ls) = true.
Proof.
  induction 1 as [|l ls (Ha & _) Hls IH]; [done|]. cbn [unlines foldr]. fold (unlines ls).
  by rewrite !is_ascii_app, Ha, IH.
Qed.

Lemma buf_lines_unlines ls : Forall clean_line ls -> buf_lines (unlines ls) = ls.
Proof.
  unfold buf_lines. induction 1 as [|l ls (Ha & Hn & Hc) Hls IH]; [done|].
  cbn [unlines foldr]. fold (unlines ls). unfold nl. rewrite app_cons, app_nil_l.
  rewrite split_on_app by done.
  destruct (split_on "010" (unlines ls)) as [|x xs] eqn:E; [by apply split_on_cons_ne in E|].
  change (buf_lines_of (l :: x :: xs)) with (strip_cr l :: buf_lines_of (x :: xs)).
  by rewrite IH, strip_cr_clean.
Qed.

Lemma unlines_snoc ls l : unlines (ls ++ [l]) = unlines ls +:+ l +:+ nl.
Proof.
  induction ls as [|k ls IH]; [cbn [unlines foldr Datatypes.app]; by rewrite !app_nil_r, app_nil_l|].
  cbn [unlines foldr Datatypes.app]. fold (unlines (ls ++ [l])) (unlines ls). by rewrite IH, !app_assoc_s.
Qed.

Section PeerFile.
Context {PublicKey L : Type} `{!Keys PublicKey} `{!Ldk PublicKey L}.

(** Opening channels to a sequence of peers. *)
Fixpoint persist_peers (p : path) (infos : list string) : io unit :=
  match infos with
  | [] => mret (Ok tt)
  | i :: infos' => let? _ := persist_channel_peer p i in persist_peers p infos'
  end.

Definition holds_lines (d : disk) (p : path) (ls : list string) : Prop :=
  match files d !! p with
  | Some f => content f = bytes_of (unlines ls)
  | None => ls = []
  end.

Lemma persist_channel_peer_ok p info ls d :
  holds_lines d p ls ->
  exists d', persist_channel_peer p info (World d []) = (Ret (Ok tt), World d' []) /\
    is_Some (files d' !! p) /\ holds_lines d' p (ls ++ [info]).
Proof.
  unfold holds_lines. intros H.
  assert (Hopen : exists d1 f, open_write p (World d []) = (Ret (Ok tt), World d1 []) /\
            files d1 !! p = Some f /\ content f = bytes_of (unlines ls)).
  { unfold open_write. rewrite io_op_ok. destruct (files d !! p) as [f|] eqn:E.
    - exists d, f. by rewrite E.
    - subst ls. eexists _, (File [] false). split; [reflexivity|]. cbn. by rewrite lookup_insert_eq. }
  destruct Hopen as (d1 & f & Ho & Hf & Hc). unfold persist_channel_peer.
  rewrite (bind_ok_Ok _ _ _ _ _ Ho).
  eexists. split; [erewrite prog_bind_Ret; [reflexivity|]; apply unwrap_io_ok; reflexivity|].
  cbn. rewrite lookup_insert_eq. split; [by eexists|]. cbn. rewrite Hf, Hc, firstn_all2 by done.
  by rewrite unlines_snoc, (bytes_of_app (unlines ls)).
Qed.

Lemma persist_peers_ok p infos ls d :
  holds_lines d p ls ->
  exists d', persist_peers p infos (World d []) = (Ret (Ok tt), World d' []) /\
    holds_lines d' p (ls ++ infos) /\ (infos <> [] -> is_Some (files d' !! p)).
Proof.
  revert ls d. induction infos as [|i infos IH]; intros ls d H.
  { exists d. split; [done|]. by rewrite List.app_nil_r. }
  destruct (persist_channel_peer_ok p i ls d H) as (d1 & E1 & S1 & H1).
  destruct (IH _ _ H1) as (d2 & E2 & H2 & S2). exists d2. cbn [persist_peers].
  rewrite (bind_ok_Ok _ _ _ _ _ E1). split; [done|]. rewrite <- (assoc_L (++)) in H2. split; [done|].
  intros _. destruct infos; [|by apply S2].
  cbn in E2. unfold mret, prog_ret in E2. by simplify_eq.
Qed.

(** The peers of a list of lines, later lines overwriting earlier ones. *)
Definition peer_map (peers : list (PublicKey * SocketAddr)) : list (PublicKey * SocketAddr) :=
  foldl (fun m p => assoc_insert p.1 p.2 m) [] peers.

Lemma parse_peer_lines_ok infos peers m :
  Forall2 (fun i p => parse_peer_info i = Ret (Ok p)) infos peers ->
  parse_peer_lines infos m = Ret (Ok (foldl (fun m p => assoc_insert p.1 p.2 m) m peers)).
Proof.
  intros H. revert m. induction H as [|i [pk addr] infos peers Hp _ IH]; intros m; [done|].
  cbn [parse_peer_lines foldl]. rewrite Hp. cbn [mbind outcome_bind]. apply IH.
Qed.

Lemma assoc_get_insert {A} k k' (v : A) m :
  assoc_get k (assoc_insert k' v m) = if decide (k = k') then Some v else assoc_get k m.
Proof.
  induction m as [|[k2 v2] m IH]; cbn; [by repeat case_decide|].
  repeat (case_decide; subst; cbn; try done); by rewrite ?decide_False.
Qed.

(** The peers written to the channel-peer file are read back: reading returns, for
    every public key, the address of the last line written for it. *)
Theorem peer_file_roundtrip p infos peers d :
  files d !! p = None -> Forall clean_line infos ->
  Forall2 (fun i peer => parse_peer_info i = Ret (Ok peer)) infos peers ->
  exists d', persist_peers p infos (World d []) = (Ret (Ok tt), World d' []) /\
    exists m, read_channel_peer_data p (World d' []) = (Ret (Ok m), World d' []) /\
      forall pk, assoc_get pk m = snd <$> last (filter (fun peer => peer.1 = pk) peers).
Proof.
  intros Hd Hclean Hparse.
  assert (H0 : holds_lines d p []) by (unfold holds_lines; by rewrite Hd).
  destruct (persist_peers_ok p infos [] d H0) as (d' & E & Hl & Hs). exists d'. split; [done|].
  exists (peer_map peers). split.
  - unfold read_channel_peer_data. erewrite prog_bind_Ret by reflexivity. unfold holds_lines in Hl.
    cbn [Datatypes.app] in Hl. destruct infos as [|i infos].
    + inversion Hparse; subst. cbn [persist_peers] in E. unfold mret, prog_ret in E. simplify_eq.
      cbn [on_disk]. rewrite Hd. by rewrite bool_decide_eq_false_2 by (by intros []).
    + destruct (Hs ltac:(done)) as [f Hf]. rewrite Hf in Hl. cbn [on_disk].
      rewrite bool_decide_eq_true_2 by (by rewrite Hf). cbn [negb].
      erewrite bind_ok_Ok by (unfold file_read; rewrite io_op_ok, Hf; reflexivity).
      rewrite Hl, from_utf8_ascii by (by apply unlines_ascii). erewrite prog_bind_Ret by reflexivity.
      rewrite buf_lines_unlines by done. unfold lift. by erewrite parse_peer_lines_ok.
  - intros pk. unfold peer_map. clear.
    assert (H : forall m, assoc_get pk (foldl (fun m p => assoc_insert p.1 p.2 m) m peers) =
              match snd <$> last (filter (fun peer => peer.1 = pk) peers) with Some a => Some a | None => assoc_get pk m end).
    { induction peers as [|[k a] peers IH]; intros m; [done|]. cbn [foldl]. rewrite IH, filter_cons.
      cbn [fst snd]. rewrite assoc_get_insert. destruct (decide (k = pk)) as [->|Hn].
      - rewrite last_cons, decide_True by done. by destruct (last _) as [[]|].
      - by rewrite (decide_False (P := pk = k)) by congruence. }
    rewrite H. by destruct (snd <$> _).
Qed.
End PeerFile.

(** ** Properties: graph and scorer files *)

Section TmpFile.
Context (flush_point : bytes -> nat).

(** Without faults the graph (or scorer) is in its file when the call returns; a
    temporary file left over by an earlier run is not truncated first, so the bytes by
    which it was longer stay behind the new contents. *)
Theorem persist_via_tmp_content dir name data d :
  (flush_point data <= length data)%nat ->
  let old := match files d !! (dir, name +:+ ".tmp") with Some f => content f | None => [] end in
  exists d' f, persist_via_tmp flush_point dir name data (World d []) = (Ret (Ok tt), World d' []) /\
    files d' !! (dir, name) = Some f /\ content f = data ++ drop (length data) old /\
    files d' !! (dir, name +:+ ".tmp") = None.
Proof.
  intros Hf old. unfold persist_via_tmp. set (tmp := (dir, name +:+ ".tmp")).
  assert (Hne : tmp <> (dir, name)) by (intros [= E]; by apply tmp_ne in E).
  assert (Hopen : exists d1 f, open_write tmp (World d []) = (Ret (Ok tt), World d1 []) /\
            files d1 !! tmp = Some f /\ content f = old).
  { unfold open_write, old. rewrite io_op_ok. fold tmp. destruct (files d !! tmp) as [f|] eqn:E.
    - exists d, f. by rewrite E.
    - eexists _, (File [] false). split; [reflexivity|]. cbn. by rewrite lookup_insert_eq. }
  destruct Hopen as (d1 & f & Ho & Hf1 & Hc). rewrite (bind_ok_Ok _ _ _ _ _ Ho).
  set (n := flush_point data) in *.
  assert (Hcontent : take n (take n data ++ drop n old) ++ drop n data ++ drop (n + (length data - n)) (take n data ++ drop n old)
            = data ++ drop (length data) old).
  { rewrite take_app_le by (rewrite length_take; lia). rewrite take_take, Nat.min_id.
    rewrite (assoc_L (++)), take_drop. f_equal.
    rewrite drop_app_ge by (rewrite length_take; lia). rewrite length_take, drop_drop. f_equal. lia. }
  assert (Hw : exists d2 f2, bind_ok (buffered_write flush_point tmp data) (fun _ => rename tmp (dir, name)) (World d1 [])
              = (Ret (Ok tt), World d2 []) /\ files d2 !! (dir, name) = Some f2 /\ files d2 !! tmp = None /\
            content f2 = data ++ drop (length data) old).
  { eexists _, _. split.
    - unfold buffered_write. fold n.
      erewrite bind_ok_Ok by (erewrite bind_ok_Ok by reflexivity; erewrite prog_bind_Ret by reflexivity; reflexivity).
      unfold rename. rewrite io_op_ok. cbn [files on_disk set_files]. rewrite lookup_insert_eq. reflexivity.
    - cbn [files set_files]. split; [apply lookup_insert_eq|].
      split; [rewrite lookup_insert_ne by done; apply lookup_delete_eq|]. cbn [content]. rewrite lookup_insert_eq. cbn [content]. rewrite Hf1, Hc, length_take, length_drop.
      cbn [take]. rewrite Nat.min_l by done. cbn [Nat.add Datatypes.app].
        rewrite (take_ge (take n data)) by (rewrite length_take; lia).
        rewrite (take_ge (drop n data)) by (rewrite length_drop; lia). exact Hcontent. }
  destruct Hw as (d2 & f2 & E2 & F2 & T2 & C2). exists d2, f2. rewrite (prog_bind_Ret _ _ _ _ _ E2).
  by split_and!.
Qed.
End TmpFile.

(** The disk fills up while the last buffer is flushed: the call reports success and
    the file is cut short. *)
Theorem persist_network_silent_loss :
  let flush_point := fun data : bytes => 2%nat in
  let w := World (Disk ∅ {["d"]}) [Go; Go; FailAt 1; Go] in
  (persist_via_tmp flush_point "d" "network_graph" [1; 2; 3; 4] w).1 = Ret (Ok tt) /\
  content <$> files (on_disk (exec (persist_via_tmp flush_point "d" "network_graph" [1; 2; 3; 4]) w))
    !! ("d", "network_graph") = Some [1; 2; 3].
Proof. split; vm_compute; reflexivity. Qed.
