(* ===== verification/StartupArgs.v ===== *)
(** * StartupArgs: [parse_startup_args] of src/cli.rs

    The state of the program is the console output; [args] is [env::args()], the
    program name included. *)

From S2P Require Import Prelude Text HexUtils Bytes Fs Json Bitcoind App.

Local Open Scope Z_scope.

(** [IpAddr::from_str] of the standard library: the octets of an address. *)
Inductive IpAddr := V4 (octets : bytes) | V6 (octets : bytes).

Inductive NetAddress := IPv4 (addr : bytes) (port : Z) | IPv6 (addr : bytes) (port : Z).

Record LdkUserInfo := mkUserInfo {
  bitcoind_rpc_username : string;
  bitcoind_rpc_password : string;
  bitcoind_rpc_port : Z;
  bitcoind_rpc_host : string;
  ldk_storage_dir_path : string;
  ldk_peer_listening_port : Z;
  ldk_announced_listen_addr : list NetAddress;
  ldk_announced_node_name : bytes;
  network : Network;
}.

Section Args.
Context (ip_from_str : string -> option IpAddr).
Abbreviation prog := (prog (list string)).

Definition say (s : string) : prog unit := modify (fun out => out ++ [s]).

(** The announced addresses: all remaining arguments must be IP addresses. *)
Fixpoint announced_addrs (port : Z) (args : list string) : outcome (list NetAddress) :=
  match args with
  | [] => Ret []
  | s :: args' =>
      match ip_from_str s with
      | Some (V4 a) => l ← announced_addrs port args'; Ret (IPv4 a port :: l)
      | Some (V6 a) => l ← announced_addrs port args'; Ret (IPv6 a port :: l)
      | None => Panic "Failed to parse announced-listen-addr into an IP address"
      end
  end.

Definition parse_network (arg : option string) : outcome Network :=
  match arg with
  | Some net =>
      if decide (net = "mainnet") then Ret Bitcoin
      else if decide (net = "testnet") then Ret Testnet
      else if decide (net = "regtest") then Ret Regtest
      else if decide (net = "signet") then Ret Signet
      else Panic ("Unsupported network provided. Options are: `regtest`, `testnet`, and `signet`. Got " +:+ net)
  | None => Ret Testnet
  end.

(** The alias, zero-padded to 32 bytes, and how far it moves the argument index. *)
Definition parse_alias (arg : option string) : outcome (bytes * nat) :=
  match arg with
  | Some s =>
      if 32 <? len s then Panic "Node Alias can not be longer than 32 bytes"
      else Ret (bytes_of s ++ replicate (32 - length (bytes_of s)) 0, 1%nat)
  | None => Ret (replicate 32 0, 0%nat)
  end.

Definition parse_startup_args (args : list string) : prog (result LdkUserInfo unit) :=
  _ ← (if (length args <? 3)%nat
       then say "ldk-tutorial-node requires 3 arguments: `cargo run <bitcoind-rpc-username>:<bitcoind-rpc-password>@<bitcoind-rpc-host>:<bitcoind-rpc-port> ldk_storage_directory_path [<ldk-incoming-peer-listening-port>] [bitcoin-network] [announced-node-name announced-listen-addr*]`"
       else mret tt);
  bitcoind_rpc_info ← lift (unwrap "called `Option::unwrap()` on a `None` value" (args !! 1%nat));
  match rsplitn2 "@" bitcoind_rpc_info with
  | [rpc_path; user_and_password] =>
      match split_on ":" user_and_password with
      | [username; password] =>
          match split_on ":" rpc_path with
          | [host; port] =>
              bitcoind_rpc_port ← lift (unwrap "called `Result::unwrap()` on an `Err` value" (parse_u16 port));
              ldk_storage_dir_path ← lift (unwrap "called `Option::unwrap()` on a `None` value" (args !! 2%nat));
              let '(ldk_peer_listening_port, ldk_peer_port_set) :=
                match parse_u16 <$> args !! 3%nat with
                | Some (Some p) => (p, true)
                | Some None => (9735, false)
                | None => (9735, false)
                end in
              let arg_idx := if ldk_peer_port_set : bool then 4%nat else 3%nat in
              network ← lift (parse_network (args !! arg_idx));
              '(alias, skip) ← lift (parse_alias (args !! (arg_idx + 1)%nat));
              addrs ← lift (announced_addrs ldk_peer_listening_port (drop (arg_idx + skip + 1) args));
              mret (Ok (mkUserInfo username password bitcoind_rpc_port host ldk_storage_dir_path
                          ldk_peer_listening_port addrs alias network))
          | _ => _ ← say "ERROR: bad bitcoind RPC path provided"; mret (Err tt)
          end
      | _ => _ ← say "ERROR: bad bitcoind RPC username/password combo provided"; mret (Err tt)
      end
  | _ => _ ← say "ERROR: bad bitcoind RPC URL provided"; mret (Err tt)
  end.

(** ** Properties *)

Definition network_name (n : Network) : string :=
  match n with Bitcoin => "mainnet" | Testnet => "testnet" | Regtest => "regtest" | Signet => "signet" end.

Definition rpc_url (user pass host : string) (port : Z) : string :=
  user +:+ ":" +:+ pass +:+ "@" +:+ host +:+ ":" +:+ to_string port.

Lemma rpc_url_parses user pass host port :
  no_char ":" user = true -> no_char ":" pass = true ->
  no_char ":" host = true -> no_char "@" host = true -> 0 <= port <= U16_MAX ->
  rsplitn2 "@" (rpc_url user pass host port) = [host +:+ ":" +:+ to_string port; user +:+ ":" +:+ pass] /\
  split_on ":" (user +:+ ":" +:+ pass) = [user; pass] /\
  split_on ":" (host +:+ ":" +:+ to_string port) = [host; to_string port].
Proof.
  intros Hu Hp Hh Hh' Hport. split_and!.
  - unfold rsplitn2, rpc_url.
    rewrite <- (app_assoc_s user), <- (app_assoc_s (user +:+ ":")).
    change ("@" +:+ host +:+ ":" +:+ to_string port) with (String "@" (host +:+ ":" +:+ to_string port)).
    rewrite last_split_app; [by rewrite app_assoc_s|].
    rewrite !no_char_app, Hh', to_string_no_char by (done || lia). done.
  - rewrite app_cons, app_nil_l, split_on_app by done. by rewrite split_on_no_char.
  - rewrite app_cons, app_nil_l, split_on_app by done.
    rewrite split_on_no_char; [done|]. apply to_string_no_char; [done|lia].
Qed.

(** Well-formed arguments are understood: the credentials may contain "@", the
    listening port and the network are the ones given, and the alias is padded to 32
    bytes. *)
Theorem startup_args_roundtrip prog_name user pass host port dir lport net alias out :
  no_char ":" user = true -> no_char ":" pass = true ->
  no_char ":" host = true -> no_char "@" host = true ->
  0 <= port <= U16_MAX -> 0 <= lport <= U16_MAX -> len alias <= 32 ->
  parse_startup_args
    [prog_name; rpc_url user pass host port; dir; to_string lport; network_name net; alias] out =
  (Ret (Ok (mkUserInfo user pass port host dir lport []
              (bytes_of alias ++ replicate (32 - length (bytes_of alias)) 0) net)), out).
Proof.
  intros Hu Hp Hh Hh' Hport Hl Ha.
  destruct (rpc_url_parses user pass host port Hu Hp Hh Hh' Hport) as (E1 & E2 & E3).
  unfold parse_startup_args. cbn [length Nat.ltb Nat.leb]. erewrite prog_bind_Ret by reflexivity.
  cbn [lookup list_lookup unwrap]. erewrite prog_bind_Ret by reflexivity. rewrite E1, E2, E3.
  unfold parse_u16. rewrite parse_to_string by done. cbn [unwrap fmap option_fmap option_map].
  do 2 (erewrite prog_bind_Ret by reflexivity). rewrite parse_to_string by done.
  cbn [Nat.add lookup list_lookup].
  assert (En : parse_network (Some (network_name net)) = Ret net) by (by destruct net).
  rewrite En. erewrite prog_bind_Ret by reflexivity.
  unfold parse_alias. destruct (Z.ltb_spec 32 (len alias)); [lia|].
  by erewrite prog_bind_Ret by reflexivity.
Qed.

(** With no argument at all the program prints its usage and then panics: the usage
    message does not end it. *)
Theorem too_few_args_panics prog_name out :
  (parse_startup_args [prog_name] out).1 = Panic "called `Option::unwrap()` on a `None` value" /\
  length (parse_startup_args [prog_name] out).2 = S (length out).
Proof. split; [done|]. rewrite <- (Nat.add_1_r (length out)). exact (length_app out [_]). Qed.

End Args.

Lemma startup_args_roundtrip_witness :
  parse_startup_args (fun _ => None)
    ["ldk"; rpc_url "user" "p@ss" "localhost" 8332; "dir"; to_string 9736; network_name Regtest; "alice"] [] =
  (Ret (Ok (mkUserInfo "user" "p@ss" 8332 "localhost" "dir" 9736 []
              (bytes_of "alice" ++ replicate (32 - length (bytes_of "alice")) 0) Regtest)), []).
Proof.
  apply (startup_args_roundtrip (fun _ => None) "ldk" "user" "p@ss" "localhost" 8332 "dir" 9736 Regtest "alice" []);
    first [reflexivity | vm_compute; split; discriminate | vm_compute; discriminate].
Defined.
