(* ===== verification/Cli.v ===== *)
(** * Cli: the command loop of src/cli.rs

    One definition per command of [poll_for_user_input] and per helper it calls; a
    command takes the words that follow its name.  "probeall" and "dump_results" are
    in ProbeAll.v and DumpResults.v. *)

From S2P Require Import Prelude Text HexUtils Bytes Fs Json Bitcoind App Scid Disk Events Probe ProbeAll DumpResults Peers.

Local Open Scope Z_scope.

Section Cli.
Context {PublicKey L : Type} `{!Keys PublicKey} `{!Ldk PublicKey L} {plat : Platform}.
Abbreviation prog := (prog (app PublicKey L)).
Context (network : Network) (ldk_data_dir : string).

(** ** Connecting *)

(** [do_connect_peer]: wait until the peer shows up or the connection closes. *)
Fixpoint await_peer (fuel : nat) (pubkey : PublicKey) : prog (result unit unit) :=
  match fuel with
  | O => fun s => (OutOfFuel, s)
  | S fuel' =>
      closed ← gets (fun s => connection_closed pubkey (ldk s));
      if (closed : bool) then mret (Err tt)
      else
        peers ← gets (fun s => get_peer_node_ids (ldk s));
        if decide (pubkey ∈ peers) then mret (Ok tt)
        else _ ← yield_point network; await_peer fuel' pubkey
  end.

Definition do_connect_peer (fuel : nat) (pubkey : PublicKey) (peer_addr : SocketAddr) : prog (result unit unit) :=
  connected ← on_ldk (connect_outbound pubkey peer_addr);
  if (connected : bool) then await_peer fuel pubkey else mret (Err tt).

Definition connect_peer_if_necessary (fuel : nat) (pubkey : PublicKey) (peer_addr : SocketAddr) :
    prog (result unit unit) :=
  peers ← gets (fun s => get_peer_node_ids (ldk s));
  if decide (pubkey ∈ peers) then mret (Ok tt)
  else
    res ← do_connect_peer fuel pubkey peer_addr;
    _ ← (if is_err res then println "ERROR: failed to connect to peer" else mret tt);
    _ ← emit (Spawn "reconnect" 10000 10000);
    mret res.

(** ** Channels *)

Definition open_channel (peer_pubkey : PublicKey) (channel_amt_sat : Z) (announced_channel : bool) :
    prog (result unit unit) :=
  r ← on_ldk (create_channel peer_pubkey channel_amt_sat 0 0 (mkChannelConfig announced_channel 2016));
  match r with
  | Ok _ => _ ← println ("EVENT: initiated channel with peer " +:+ pk_to_string peer_pubkey +:+ ". "); mret (Ok tt)
  | Err e => _ ← println ("ERROR: failed to open channel: " +:+ e); mret (Err tt)
  end.

Definition close_channel_cmd (channel_id : bytes) (counterparty_node_id : PublicKey) : prog unit :=
  r ← on_ldk (close_channel channel_id counterparty_node_id);
  match r with
  | Ok _ => println "EVENT: initiating channel close"
  | Err e => println ("ERROR: failed to close channel: " +:+ e)
  end.

Definition force_close_channel (channel_id : bytes) (counterparty_node_id : PublicKey) : prog unit :=
  r ← on_ldk (force_close_broadcasting_latest_txn channel_id counterparty_node_id);
  match r with
  | Ok _ => println "EVENT: initiating channel force-close"
  | Err e => println ("ERROR: failed to force-close channel: " +:+ e)
  end.

(** ** Payments *)

(** [send_payment] of src/cli.rs. *)
Definition send_invoice_payment (invoice : Invoice) : prog unit :=
  let record status :=
    modify (set_outbound (insert (invoice_payment_hash invoice)
      (mkPayment None (Some (invoice_payment_secret invoice)) status (invoice_amount_milli_satoshis invoice)))) in
  r ← on_ldk (pay_invoice invoice);
  match r with
  | Ok _ =>
      amt_msat ← lift (unwrap "called `Option::unwrap()` on a `None` value" (invoice_amount_milli_satoshis invoice));
      _ ← println ("EVENT: initiated sending " +:+ to_string amt_msat +:+ " msats to "
                   +:+ pk_to_string (recover_payee_pub_key invoice));
      _ ← prompt;
      record Pending
  | Err (InvoiceError e) => _ ← println ("ERROR: invalid invoice: " +:+ e); prompt
  | Err (RoutingError e) => _ ← println ("ERROR: failed to find route: " +:+ err e); prompt
  | Err (SendingError e) => _ ← println ("ERROR: failed to send payment: " +:+ debug_send_failure e); _ ← prompt; record Failed
  end.

Definition keysend (payee_pubkey : PublicKey) (amt_msat : Z) : prog unit :=
  payment_preimage ← random32;
  let record status :=
    modify (set_outbound (insert (sha256 payment_preimage) (mkPayment None None status (Some amt_msat)))) in
  r ← on_ldk (pay_pubkey payee_pubkey payment_preimage amt_msat 40);
  match r with
  | Ok _ =>
      _ ← println ("EVENT: initiated sending " +:+ to_string amt_msat +:+ " msats to " +:+ pk_to_string payee_pubkey);
      _ ← prompt;
      record Pending
  | Err (InvoiceError e) => _ ← println ("ERROR: invalid payee: " +:+ e); prompt
  | Err (RoutingError e) => _ ← println ("ERROR: failed to find route: " +:+ err e); prompt
  | Err (SendingError e) => _ ← println ("ERROR: failed to send payment: " +:+ debug_send_failure e); _ ← prompt; record Failed
  end.

Definition get_invoice (amt_msat expiry_secs : Z) : prog unit :=
  r ← on_ldk (create_invoice network (Some amt_msat) "ldk-tutorial-node" expiry_secs);
  match r with
  | Ok invoice =>
      _ ← println ("SUCCESS: generated invoice: " +:+ invoice_to_string invoice);
      modify (set_inbound (insert (invoice_payment_hash invoice)
        (mkPayment None (Some (invoice_payment_secret invoice)) Pending (Some amt_msat))))
  | Err e => println ("ERROR: failed to create invoice: " +:+ e)
  end.

(** ** Reports *)

Definition help_lines : list string :=
  ["openchannel pubkey@host:port <amt_satoshis>"; "sendpayment <invoice>"; "getinvoice <amt_millisatoshis>";
   "connectpeer pubkey@host:port"; "listchannels"; "listpayments"; "closechannel <channel_id>";
   "forceclosechannel <channel_id>"; "nodeinfo"; "listpeers"; "signmessage <message>"; "findroutes <pubkey>";
   "sendfakepayment <pubkey>"; "probeprivate <pubkey> <guessed_node> <channel_id>";
   "probeprivate <nodefile> <txfile>"].

(** [print!] of [p] before the lines. *)
Definition prefix_first (p : string) (ls : list string) : list string :=
  match ls with [] => [p] | l :: ls' => (p +:+ l) :: ls' end.

Definition print_lines (ls : list string) : prog unit := foldM (fun _ l => println l) tt ls.

Definition help : prog unit := print_lines help_lines.

(** A sum of amounts of bitcoin in millisatoshis, which 64 bits are enough for. *)
Definition local_balance_msat (chans : list (ChannelDetails PublicKey)) : Z :=
  foldl (fun acc c => acc + (default 0 (cd_unspendable_punishment_reserve c) * 1000 + cd_outbound_capacity_msat c))
    0 chans.

Definition tab : string := String "009" "".
Definition bool_str (b : bool) : string := if b then "true" else "false".

Definition node_info : prog unit :=
  l ← gets ldk;
  let chans := list_channels l in
  print_lines [
    tab +:+ "{";
    tab +:+ tab +:+ " node_pubkey: " +:+ pk_to_string (get_our_node_id l);
    tab +:+ tab +:+ " num_channels: " +:+ to_string (Z.of_nat (length chans));
    tab +:+ tab +:+ " num_usable_channels: " +:+
      to_string (Z.of_nat (length (List.filter (fun c => cd_is_usable c) chans)));
    tab +:+ tab +:+ " local_balance_msat: " +:+ to_string (local_balance_msat chans);
    tab +:+ tab +:+ " num_peers: " +:+ to_string (Z.of_nat (length (get_peer_node_ids l)));
    tab +:+ "},"].

Definition list_peers : prog unit :=
  peers ← gets (fun s => get_peer_node_ids (ldk s));
  print_lines ([tab +:+ "{"] ++ ((fun pk => tab +:+ tab +:+ " pubkey: " +:+ pk_to_string pk) <$> peers)
               ++ [tab +:+ "},"]).

(** One entry of [list_channels]. *)
Definition channel_lines (l : L) (c : ChannelDetails PublicKey) : list string :=
  let field name value := tab +:+ tab +:+ name +:+ ": " +:+ value +:+ "," in
  [""; tab +:+ "{"; field "channel_id" (hex_str (cd_channel_id c))]
  ++ (match cd_funding_txid c with Some txid => [field "funding_txid" txid] | None => [] end)
  ++ [field "peer_pubkey" (hex_str (pk_serialize (cd_counterparty c)))]
  ++ (match graph_alias l (cd_counterparty c) with
      | Some alias => [tab +:+ tab +:+ "peer_alias: " +:+ alias] | None => [] end)
  ++ (match cd_short_channel_id c with Some id => [field "short_channel_id" (to_string id)] | None => [] end)
  ++ [field "is_channel_ready" (bool_str (cd_is_channel_ready c));
      field "channel_value_satoshis" (to_string (cd_channel_value_satoshis c));
      field "local_balance_msat" (to_string (cd_balance_msat c))]
  ++ (if cd_is_usable c
      then [field "available_balance_for_send_msat" (to_string (cd_outbound_capacity_msat c));
            field "available_balance_for_recv_msat" (to_string (cd_inbound_capacity_msat c))]
      else [])
  ++ [field "channel_can_send_payments" (bool_str (cd_is_usable c));
      field "public" (bool_str (cd_is_public c)); tab +:+ "},"].

Definition list_channels_cmd : prog unit :=
  l ← gets ldk;
  print_lines (prefix_first "[" (concat (channel_lines l <$> list_channels l) ++ ["]"])).

Definition status_str (st : HTLCStatus) : string :=
  match st with Pending => "pending" | Succeeded => "succeeded" | Failed => "failed" end.

Definition payment_lines (direction : string) (entry : PaymentHash * PaymentInfo) : list string :=
  [""; tab +:+ "{";
   tab +:+ tab +:+ "amount_millisatoshis: " +:+ display_amount (amt_msat entry.2) +:+ ",";
   tab +:+ tab +:+ "payment_hash: " +:+ hex_str entry.1 +:+ ",";
   tab +:+ tab +:+ "htlc_direction: " +:+ direction +:+ ",";
   tab +:+ tab +:+ "htlc_status: " +:+ status_str (status entry.2) +:+ ",";
   tab +:+ "},"].

Definition list_payments : prog unit :=
  inbound ← gets inbound_payments;
  outbound ← gets outbound_payments;
  print_lines (prefix_first "[" (concat (payment_lines "inbound" <$> map_to_list inbound)
               ++ concat (payment_lines "outbound" <$> map_to_list outbound) ++ ["]"])).

(** ** The commands *)

Definition openchannel (fuel : nat) (words : list string) : prog unit :=
  match words with
  | peer_pubkey_and_ip_addr :: channel_value_sat :: words' =>
      info ← lift (parse_peer_info peer_pubkey_and_ip_addr);
      match info with
      | Err e => print_io_error e
      | Ok (pubkey, peer_addr) =>
          match parse_u64 channel_value_sat with
          | None => println "ERROR: channel amount must be a number"
          | Some chan_amt_sat =>
              connected ← connect_peer_if_necessary fuel pubkey peer_addr;
              if is_err connected then mret tt
              else
                let announce := match words' with
                                | [] => Some false
                                | w :: _ =>
                                    if decide (w = "--public" \/ w = "--public=true") then Some true
                                    else if decide (w = "--public=false") then Some false else None
                                end in
                match announce with
                | None => println "ERROR: invalid `--public` command format. Valid formats: `--public`, `--public=true` `--public=false`"
                | Some announce_channel =>
                    opened ← open_channel pubkey chan_amt_sat announce_channel;
                    if is_ok opened then
                      _ ← on_fs (persist_channel_peer (ldk_data_dir, "channel_peer_data") peer_pubkey_and_ip_addr);
                      mret tt
                    else mret tt
                end
          end
      end
  | _ => println "ERROR: openchannel has 2 required arguments: `openchannel pubkey@host:port channel_amt_satoshis` [--public]"
  end.

Definition sendpayment (words : list string) : prog unit :=
  match words with
  | [] => println "ERROR: sendpayment requires an invoice: `sendpayment <invoice>`"
  | invoice_str :: _ =>
      match invoice_from_str invoice_str with
      | Err e => println ("ERROR: invalid invoice: " +:+ e)
      | Ok inv => send_invoice_payment inv
      end
  end.

Definition keysend_cmd (words : list string) : prog unit :=
  match words with
  | [] => println "ERROR: keysend requires a destination pubkey: `keysend <dest_pubkey> <amt_msat>`"
  | dest :: words' =>
      pk ← lift (to_compressed_pubkey pk_from_slice dest);
      match pk with
      | None => println "ERROR: couldn't parse destination pubkey"
      | Some dest_pubkey =>
          match words' with
          | [] => println "ERROR: keysend requires an amount in millisatoshis: `keysend <dest_pubkey> <amt_msat>`"
          | amt_msat_str :: _ =>
              match parse_u64 amt_msat_str with
              | None => println "ERROR: couldn't parse amount_msat" (* the parser's own message is left out *)
              | Some amt_msat => keysend dest_pubkey amt_msat
              end
          end
      end
  end.

Definition getinvoice (words : list string) : prog unit :=
  match words with
  | [] => println "ERROR: getinvoice requires an amount in millisatoshis"
  | amt_str :: words' =>
      match parse_u64 amt_str with
      | None => println "ERROR: getinvoice provided payment amount was not a number"
      | Some amt_msat =>
          match words' with
          | [] => println "ERROR: getinvoice requires an expiry in seconds"
          | expiry_secs_str :: _ =>
              match parse_u32 expiry_secs_str with
              | None => println "ERROR: getinvoice provided expiry was not a number"
              | Some expiry_secs => get_invoice amt_msat expiry_secs
              end
          end
      end
  end.

Definition connectpeer (fuel : nat) (words : list string) : prog unit :=
  match words with
  | [] => println "ERROR: connectpeer requires peer connection info: `connectpeer pubkey@host:port`"
  | peer_pubkey_and_ip_addr :: _ =>
      info ← lift (parse_peer_info peer_pubkey_and_ip_addr);
      match info with
      | Err e => print_io_error e
      | Ok (pubkey, peer_addr) =>
          r ← connect_peer_if_necessary fuel pubkey peer_addr;
          if is_ok r then println ("SUCCESS: connected to peer " +:+ pk_to_string pubkey) else mret tt
      end
  end.

(** The arguments shared by "closechannel" and "forceclosechannel". *)
Definition close_args (name : string) (words : list string) (k : bytes -> PublicKey -> prog unit) : prog unit :=
  let usage := name +:+ " <channel_id> <peer_pubkey>`" in
  match words with
  | [] => println ("ERROR: " +:+ name +:+ " requires a channel ID: `" +:+ usage)
  | channel_id_str :: words' =>
      match to_vec channel_id_str with
      | Some channel_id =>
          if negb (length channel_id =? 32)%nat then println "ERROR: couldn't parse channel_id"
          else
            match words' with
            | [] => println ("ERROR: " +:+ name +:+ " requires a peer pubkey: `" +:+ usage)
            | peer_pubkey_str :: _ =>
                match to_vec peer_pubkey_str with
                | None => println "ERROR: couldn't parse peer_pubkey"
                | Some peer_pubkey_vec =>
                    match pk_from_slice peer_pubkey_vec with
                    | None => println "ERROR: couldn't parse peer_pubkey"
                    | Some peer_pubkey => k channel_id peer_pubkey
                    end
                end
            end
      | None => println "ERROR: couldn't parse channel_id"
      end
  end.

Definition closechannel (words : list string) : prog unit := close_args "closechannel" words close_channel_cmd.
Definition forceclosechannel (words : list string) : prog unit :=
  close_args "forceclosechannel" words force_close_channel.

(** "signmessage" signs the rest of the line after the first 12 bytes. *)
Definition signmessage (line : string) : prog unit :=
  let bytes := bytes_of line in
  if (length bytes <=? 12)%nat then println "ERROR: signmsg requires a message"
  else
    r ← gets (fun s => sign_message (drop 12 bytes) (ldk s));
    println (match r with Ok sig => "Ok(" +:+ debug_str sig +:+ ")" | Err e => "Err(" +:+ e +:+ ")" end).

Definition findroutes (words : list string) : prog unit :=
  match words with
  | [] => println "ERROR: findroutes requires a pubkey: `findroutes <pubkey>`"
  | pubkey_str :: _ =>
      route ← find_routes pubkey_str [];
      match route with
      | Ok route => dbg "route.paths" (debug_paths route)
      | Err _ => println "No route found"
      end
  end.

Definition sendfakepayment (words : list string) : prog unit :=
  match words with
  | [] => println "ERROR: findroutes requires a pubkey: `findroutes <pubkey>`"
  | pubkey_str :: _ =>
      route ← find_routes pubkey_str [];
      fake_preimage ← random32;
      let payment_hash := sha256 fake_preimage in
      match route with
      | Err _ => mret tt
      | Ok route =>
          payment ← on_ldk (send_payment route payment_hash None);
          _ ← emit (SendPayment route payment_hash);
          match payment with
          | Ok _ => println "Payment attempt sent"
          | Err (ParameterError e) => _ ← println "parameter error"; dbg "e" e
          | Err (PathParameterError e) => _ ← println "path parameter error"; dbg "e" e
          | Err (AllFailedRetrySafe e) => _ ← println "all failed retry safe"; dbg "e" e
          | Err (PartialFailure results failed_paths_retry payment_id) =>
              println ("partial failure: " +:+ results +:+ " " +:+ failed_paths_retry +:+ " " +:+ payment_id)
          end
      end
  end.

Definition probeprivate (words : list string) : prog unit :=
  match words with
  | pubkey_str :: pubkey_guess :: channel_id_str :: _ =>
      _ ← probe pubkey_str channel_id_str pubkey_guess; mret tt
  | _ => println "ERROR: probeprivate requires pubkey, guessed pubkey, and channel_id: `probeprivate <pubkey> <pubkey_guess> <channel_id>`"
  end.

(** One line of input; [false] ends the loop. *)
Definition run_line (fuel : nat) (line : string) : prog bool :=
  match split_whitespace line with
  | [] => mret true
  | word :: words =>
      if decide (word = "help") then _ ← help; mret true
      else if decide (word = "stop") then _ ← println "Stopping the program"; mret false
      else if decide (word = "openchannel") then _ ← openchannel fuel words; mret true
      else if decide (word = "sendpayment") then _ ← sendpayment words; mret true
      else if decide (word = "keysend") then _ ← keysend_cmd words; mret true
      else if decide (word = "getinvoice") then _ ← getinvoice words; mret true
      else if decide (word = "connectpeer") then _ ← connectpeer fuel words; mret true
      else if decide (word = "listchannels") then _ ← list_channels_cmd; mret true
      else if decide (word = "listpayments") then _ ← list_payments; mret true
      else if decide (word = "closechannel") then _ ← closechannel words; mret true
      else if decide (word = "forceclosechannel") then _ ← forceclosechannel words; mret true
      else if decide (word = "nodeinfo") then _ ← node_info; mret true
      else if decide (word = "listpeers") then _ ← list_peers; mret true
      else if decide (word = "signmessage") then _ ← signmessage line; mret true
      else if decide (word = "findroutes") then _ ← findroutes words; mret true
      else if decide (word = "sendfakepayment") then _ ← sendfakepayment words; mret true
      else if decide (word = "probeprivate") then _ ← probeprivate words; mret true
      else if decide (word = "probeall")
        then _ ← probeall network fuel (words !! 0%nat) (words !! 1%nat) (words !! 2%nat); mret true
      else if decide (word = "dump_results")
        then _ ← dump_results (words !! 0%nat) (words !! 1%nat); mret true
      else _ ← println ("Unknown command. See `" +:+ dquote +:+ "help" +:+ dquote +:+ " for available commands."); mret true
  end.

(** The loop over standard input; a line that cannot be read panics. *)
Fixpoint poll_lines (fuel : nat) (input : list (result string io_error)) : prog unit :=
  _ ← prompt;
  match input with
  | [] => mret tt
  | l :: input' =>
      _ ← yield_point network;
      line ← lift (unwrap_result "called `Result::unwrap()` on an `Err` value" l);
      more ← run_line fuel line;
      if (more : bool) then poll_lines fuel input' else mret tt
  end.

(** [poll_for_user_input]; the Ctrl-C handler it installs is in [env_step]. *)
Definition poll_for_user_input (fuel : nat) (input : list (result string io_error)) : prog unit :=
  _ ← println ("LDK startup successful. To view available commands: " +:+ dquote +:+ "help" +:+ dquote +:+ ".");
  _ ← println "LDK logs are available at <your-supplied-ldk-data-dir-path>/.ldk/logs";
  me ← gets (fun s => get_our_node_id (ldk s));
  _ ← println ("Local Node ID is " +:+ pk_to_string me +:+ ".");
  _ ← modify (set_running 0);
  poll_lines fuel input.

End Cli.

(** ** Properties *)

Section CliProperties.
Context {PublicKey L : Type} `{!Keys PublicKey} `{!Ldk PublicKey L} {plat : Platform}.
Context (network : Network) (ldk_data_dir : string).
Implicit Types s : app PublicKey L.

(** A relation that only looks at the attempts and the pending payments, that events
    respect and that an unchanged pair satisfies. *)
Class Bookkeeping (R : app PublicKey L -> app PublicKey L -> Prop) := {
  bk_preorder :: PreOrder R;
  bk_same : forall s s', pending_payments s' = pending_payments s -> attempts s' = attempts s -> R s s';
  bk_env : forall s s', env_rel s s' -> R s s';
}.

Section Keeps.
Context (R : app PublicKey L -> app PublicKey L -> Prop) `{!Bookkeeping R}.

Lemma bk_emit a : keeps R (emit a).
Proof. apply keeps_modify. intros s. by apply bk_same. Qed.
Lemma bk_println str : keeps R (println str).
Proof. apply bk_emit. Qed.
Lemma bk_prompt : keeps R prompt.
Proof. apply bk_emit. Qed.
Lemma bk_log l str : keeps R (log l str).
Proof. apply bk_emit. Qed.
Lemma bk_on_ldk {A} (f : L -> A * L) : keeps R (on_ldk f).
Proof. intros s o s' H. unfold on_ldk in H. destruct (f _). simplify_eq. by apply bk_same. Qed.
Lemma bk_on_fs {A} (m : Prelude.prog world A) : keeps R (on_fs m).
Proof. intros s o s' H. unfold on_fs in H. destruct (m _). simplify_eq. by apply bk_same. Qed.
Lemma bk_random32 : keeps R random32.
Proof. intros s o s' H. unfold random32 in H. destruct (entropy s); simplify_eq; by apply bk_same. Qed.
Lemma bk_set_inbound f : keeps R (modify (set_inbound f)).
Proof. apply keeps_modify. intros s. by apply bk_same. Qed.
Lemma bk_set_outbound f : keeps R (modify (set_outbound f)).
Proof. apply keeps_modify. intros s. by apply bk_same. Qed.
Lemma bk_yield : keeps R (yield_point network).
Proof. intros s o s' H. by eapply bk_env, yield_point_keeps. Qed.
Lemma bk_foldM {A B} (f : B -> A -> prog (app PublicKey L) B) b l :
  (forall b a, keeps R (f b a)) -> keeps R (foldM f b l).
Proof.
  intros Hf. revert b. induction l as [|a l IH]; intros b; cbn [foldM]; [apply keeps_ret, _|].
  apply keeps_bind; [apply _|apply Hf|apply IH].
Qed.
Hint Resolve bk_emit bk_println bk_prompt bk_log bk_on_ldk bk_on_fs bk_random32 bk_set_inbound
  bk_set_outbound bk_yield : keeps.
Hint Extern 2 (keeps _ (foldM _ _ _)) => apply bk_foldM; solve_keeps : keeps.

Lemma bk_print_lines ls : keeps R (print_lines ls).
Proof. unfold print_lines. solve_keeps. Qed.
Lemma bk_find_routes p h : keeps R (find_routes p h).
Proof. unfold find_routes. solve_keeps. Qed.
Lemma bk_print_io_error e : keeps R (print_io_error e).
Proof. unfold print_io_error. solve_keeps. Qed.
Hint Resolve bk_print_lines bk_find_routes bk_print_io_error : keeps.

Lemma bk_connect fuel pk addr : keeps R (connect_peer_if_necessary network fuel pk addr).
Proof.
  assert (Ha : keeps R (await_peer network fuel pk)).
  { induction fuel as [|fuel IH]; cbn [await_peer]; [apply keeps_pure, _|]. solve_keeps. }
  unfold connect_peer_if_necessary, do_connect_peer. solve_keeps.
Qed.
Hint Resolve bk_connect : keeps.

Lemma bk_read_tx_file d n : keeps R (read_tx_file d n).
Proof. unfold read_tx_file. solve_keeps. Qed.
Hint Resolve bk_read_tx_file : keeps.

(** Every command but the two probing ones, and each of their steps but the probe
    itself, respects such a relation. *)
Lemma bk_run_line fuel line :
  (forall p c g, keeps R (probe p c g)) \/
  head (split_whitespace line) <> Some "probeprivate" /\ head (split_whitespace line) <> Some "probeall" ->
  keeps R (run_line network ldk_data_dir fuel line).
Proof.
  intros Hp. unfold run_line. destruct (split_whitespace line) as [|word words]; [apply keeps_ret, _|].
  assert (Hwait : keeps R (wait_htlcs network fuel)).
  { induction fuel as [|n IH]; cbn [wait_htlcs]; [apply keeps_pure, _|]. solve_keeps. }
  destruct (decide (word = "probeprivate" \/ word = "probeall")) as [Hw|Hw].
  - destruct Hp as [Hp|[H1 H2]]; [|exfalso; cbn in *; naive_solver].
    assert (Hu : forall pk scid, keeps R (probe_until_ok network fuel pk scid)).
    { intros. clear Hwait. induction fuel as [|n IH]; cbn [probe_until_ok]; [apply keeps_pure, _|]. solve_keeps. }
    assert (Ht : forall ctx node l i t, keeps R (probe_txs network fuel ctx node i l t)).
    { induction l as [|tx l IH]; intros; cbn [probe_txs]; unfold probe_tx, consider_tx, announce_and_probe; solve_keeps. }
    assert (Hn : forall ctx nodes t, keeps R (probe_nodes network fuel ctx nodes t)).
    { induction nodes; intros; cbn [probe_nodes]; unfold probe_node; solve_keeps. }
    destruct Hw as [->| ->]; repeat rewrite decide_False by done; rewrite decide_True by done;
      unfold probeall, probeprivate, read_nodes, read_txs; solve_keeps.
  - clear Hp Hwait. unfold help, openchannel, open_channel, sendpayment, send_invoice_payment, keysend_cmd, keysend,
      getinvoice, get_invoice, connectpeer, list_channels_cmd, list_payments, closechannel, forceclosechannel,
      close_args, close_channel_cmd, force_close_channel, node_info, list_peers, signmessage, findroutes,
      sendfakepayment, dump_results, read_tx_map.
    solve_keeps; naive_solver.
Qed.
End Keeps.

Definition attempts_kept s s' : Prop := attempts s `prefix_of` attempts s'.
Definition pending_not_grown s s' : Prop := pending_payments s' ⊆ pending_payments s.

Global Instance attempts_kept_bookkeeping : Bookkeeping attempts_kept.
Proof.
  split.
  - split; [intros s; unfold attempts_kept; reflexivity|]. intros s1 s2 s3 H1 H2. unfold attempts_kept in *. by etrans.
  - intros s s' _ E. unfold attempts_kept. by rewrite E.
  - intros s s' [_ H _ _ _ _]. done.
Qed.
Global Instance pending_not_grown_bookkeeping : Bookkeeping pending_not_grown.
Proof.
  split.
  - split; [intros s; unfold pending_not_grown; done|]. intros s1 s2 s3 H1 H2. unfold pending_not_grown in *. by etrans.
  - intros s s' E _. unfold pending_not_grown. by rewrite E.
  - intros s s' [H _ _ _ _ _]. done.
Qed.

(** No session at the command line loses a recorded attempt: whatever is typed,
    whatever LDK reports meanwhile and however the session ends, the rows that were in
    the table are still its first rows. *)
Theorem session_keeps_attempts fuel input s o s' :
  poll_for_user_input network ldk_data_dir fuel input s = (o, s') -> attempts s `prefix_of` attempts s'.
Proof.
  assert (Hp : forall p c g, keeps attempts_kept (probe (PublicKey := PublicKey) (L := L) p c g)).
  { intros p c g s0 o0 s0' H0. apply probe_keeps in H0 as (_ & _ & H0 & _). unfold attempts_kept. by rewrite H0. }
  assert (Hl := fun line => bk_run_line attempts_kept fuel line (or_introl Hp)).
  assert (Hy := bk_yield attempts_kept). assert (Hpr := bk_prompt attempts_kept).
  assert (K : keeps attempts_kept (poll_lines network ldk_data_dir fuel input)).
  { induction input as [|line input IH]; cbn [poll_lines]; solve_keeps. }
  assert (Hpl := bk_println attempts_kept).
  assert (Hr : keeps attempts_kept (modify (set_running (PublicKey := PublicKey) (L := L) 0))).
  { apply keeps_modify. intros s1. by apply bk_same. }
  enough (K' : keeps attempts_kept (poll_for_user_input network ldk_data_dir fuel input)) by apply K'.
  unfold poll_for_user_input. solve_keeps.
Qed.

(** Only the probing commands start payments that count as probes in flight: any
    other command leaves the set of pending probes as it is or smaller. *)
Theorem other_commands_add_no_probe fuel line s o s' :
  head (split_whitespace line) <> Some "probeprivate" -> head (split_whitespace line) <> Some "probeall" ->
  run_line network ldk_data_dir fuel line s = (o, s') ->
  pending_payments s' ⊆ pending_payments s.
Proof. intros H1 H2 H. exact (bk_run_line pending_not_grown fuel line (or_intror (conj H1 H2)) s o s' H). Qed.

(** Paying an invoice records it under its hash with its secret and amount: as
    pending when LDK took it, as failed when sending failed, and not at all when the
    invoice or the route was refused. *)
Theorem send_invoice_payment_spec invoice s r l :
  pay_invoice invoice (ldk s) = (r, l) ->
  (is_ok r = true -> is_Some (invoice_amount_milli_satoshis invoice)) ->
  exists s', send_invoice_payment invoice s = (Ret tt, s') /\ ldk s' = l /\
    outbound_payments s' =
      (let entry st := mkPayment None (Some (invoice_payment_secret invoice)) st (invoice_amount_milli_satoshis invoice) in
       match r with
       | Ok _ => <[invoice_payment_hash invoice := entry Pending]> (outbound_payments s)
       | Err (SendingError _) => <[invoice_payment_hash invoice := entry Failed]> (outbound_payments s)
       | Err _ => outbound_payments s
       end).
Proof.
  intros Hpay Hamt. unfold send_invoice_payment, mbind at 1, prog_bind at 1, on_ldk. rewrite Hpay.
  destruct r as [pid|[e|e|e]].
  - destruct (Hamt eq_refl) as [amt E]. rewrite E. eexists. split; [reflexivity|]. cbn. by rewrite ?E.
  - eexists. by split.
  - eexists. by split.
  - eexists. by split.
Qed.

(** "connectpeer" with a key of fewer than 66 hex digits ends the whole program with
    a panic, once the address resolves, instead of reporting the bad key. *)
Theorem connectpeer_short_key_panics fuel key addr_str addr rest words s :
  no_char "@" key = true -> no_char "@" addr_str = true -> len key < 66 ->
  to_socket_addrs addr_str = Some (addr :: rest) ->
  (connectpeer network fuel ((key +:+ "@" +:+ addr_str) :: words) s).1 = Panic "byte index out of bounds".
Proof.
  intros Hk Ha Hlen Haddr. unfold connectpeer, parse_peer_info. rewrite app_cons, app_nil_l.
  rewrite split_on_app, split_on_no_char by done. cbn [lookup list_lookup]. rewrite Haddr.
  cbn [unwrap mbind outcome_bind]. unfold to_compressed_pubkey, str_prefix.
  destruct (Z.leb_spec (Z.of_nat (33 * 2)) (len key)) as [H|H]; [lia|]. done.
Qed.

End CliProperties.
