(* ===== verification/Toy.v ===== *)
(** * Toy: a small node on which the theorems about the application are applied

    Concrete instances of the interfaces of App.v (public keys are their hex strings,
    LDK routes over exactly the hinted hop and accepts every payment) and, for every
    theorem of Events.v to Cli.v that has hypotheses, a run that satisfies them. *)

From S2P Require Import Prelude Text HexUtils Bytes Fs Disk Json Bitcoind App Scid Events Probe ProbeAll ProbeAllSpec DumpResults Peers Cli.

Local Open Scope Z_scope.

Global Instance toy_keys : Keys string := {
  pk_from_str s := if decide (s = "") then None else Some s;
  pk_from_slice b := Some (hex_str b);
  pk_to_string s := s;
  pk_serialize s := bytes_of s;
  sha256 b := 7 :: b;
}.

(** The toy LDK: who is connected and whether routing works. *)
Record toy := mkToy { toy_peers : list string; toy_routes : bool }.

Definition toy_route (p : RouteParameters string) : list (RouteHop string) :=
  ((fun h => mkHop (src_node_id h) 1) <$> concat (route_hints p)) ++
  [mkHop (payee_pubkey p) (match concat (route_hints p) with h :: _ => short_channel_id h | [] => 2 end)].

Global Instance toy_ldk : Ldk string toy := {
  Route := list (RouteHop string);
  Invoice := unit;
  SocketAddr := string;
  get_our_node_id _ := "me";
  list_channels _ := [];
  first_hops _ := [];
  find_route _ p _ _ l := if toy_routes l then Ok (toy_route p) else Err (mkLightningError "no route" "IgnoreError");
  send_payment _ _ _ l := (Ok [1], l);
  debug_paths _ := "";
  claim_funds _ l := l;
  funding_transaction_generated _ _ _ l := (Ok tt, l);
  process_pending_htlc_forwards l := l;
  create_channel _ _ _ _ _ l := (Ok [1], l);
  close_channel _ _ l := (Ok tt, l);
  force_close_broadcasting_latest_txn _ _ l := (Ok tt, l);
  get_peer_node_ids l := toy_peers l;
  connect_outbound pk _ l := (true, mkToy (pk :: toy_peers l) (toy_routes l));
  connection_closed _ _ := false;
  pay_invoice _ l := (Ok [9], l);
  pay_pubkey _ _ _ _ l := (Ok [9], l);
  create_invoice _ _ _ _ l := (Ok tt, l);
  invoice_from_str _ := Ok tt;
  invoice_payment_hash _ := [5];
  invoice_payment_secret _ := [6];
  invoice_amount_milli_satoshis _ := Some 1000;
  invoice_to_string _ := "ln";
  recover_payee_pub_key _ := "payee";
  sign_message _ _ := Ok "sig";
  graph_nodes _ := [];
  graph_alias _ _ := None;
  graph_channels _ := {[scid_from_parts 2 1 0]};
  to_socket_addrs s := Some [s];
}.

Definition tx1 : Transaction := mkTx 3 "t1" 1 0 20000.
Definition tx2 : Transaction := mkTx 2 "t2" 1 0 30000.   (** a public channel *)
Definition tx3 : Transaction := mkTx 1 "t3" 1 1 12345.

Global Instance toy_platform : Platform := {
  Server := bool;
  Address := string;
  post := toy_post;
  parse_body _ := Some refusal;
  from_utf8_lossy _ := "";
  address_from_str s := Some s;
  witness_address _ _ := Some "addr";
  tx_deserialize b := Some b;
  spend_spendable_outputs _ _ _ := Ok [1];
  parse_nodes s := if decide (s = "N") then Ok [mkNode "02aa"] else Err "bad";
  parse_txs s := if decide (s = "T") then Ok [tx3; tx1; tx2] else Err "bad";
  results_json _ := [];
  buffer_rest _ := 0%nat;
  dir_order l := l;
}.

Definition toy_disk : disk :=
  Disk {[("data", "nodes.json") := File (bytes_of "N") true; ("data/tx", "part-1.json") := File (bytes_of "T") true]}
       {["data"; "data/tx"]}.

Definition randoms : list bytes := [[1]; [2]; [3]; [4]; [5]; [6]; [7]; [8]; [9]].

Definition toy_app (running : Z) (env : list (list (env_event string toy))) : app string toy :=
  mkApp ∅ ∅ ∅ [] (mkToy [] true) toy_client (World toy_disk []) running randoms 100 [] env.

Definition path_failed : Event string :=
  PaymentPathFailed [mkHop "02aa" 1; mkHop pubkey_guess (scid_of tx1)] (Some 0x400f).

(** ** Events *)

Lemma environment_is_harmless_witness :
  pending_payments (exec (env_steps Testnet [Deliver path_failed; CtrlC]) (toy_app 0 [])) ⊆ ∅.
Proof.
  refine (proj1 (environment_is_harmless Testnet [Deliver path_failed; CtrlC] (toy_app 0 []) (Ret tt) _ _)).
  vm_compute. reflexivity.
Defined.

(** ** Probe *)

Lemma probe_ok_spec_witness :
  exists src scid guess pre rnd route pid,
    pk_from_str "02aa" = Some src /\ parse_u64 "77" = Some scid /\ pk_from_str "03bb" = Some guess /\
    randoms = pre :: rnd :: entropy (exec (probe "02aa" "77" "03bb") (toy_app 0 [])) /\
    find_route (PublicKey := string) (L := toy) "me"
      (mkRouteParameters guess [[mkHintHop src scid 1000 1 40 None None]] 1000 40) [] rnd (mkToy [] true) = Ok route /\
    send_payment route (sha256 pre) None (mkToy [] true) =
      (Ok pid, ldk (exec (probe "02aa" "77" "03bb") (toy_app 0 []))) /\
    pending_payments (exec (probe "02aa" "77" "03bb") (toy_app 0 [])) =
      <[sha256 pre := mkPayment (Some pre) None Pending (Some 10000)]> ∅ /\
    trace (exec (probe "02aa" "77" "03bb") (toy_app 0 [])) =
      [] ++ [SendPayment route (sha256 pre); Log Trace ("sent payment PaymentId(" +:+ debug_bytes pid +:+ ")")].
Proof.
  refine (probe_ok_spec "02aa" "77" "03bb" (toy_app 0 []) _ _). vm_compute. reflexivity.
Defined.

Lemma probe_err_spec_witness :
  pending_payments (exec (probe "02aa" "7x" "03bb") (toy_app 0 [])) = ∅ /\
  (exists t, trace (exec (probe "02aa" "7x" "03bb") (toy_app 0 [])) = [] ++ t /\
     forall route hash, SendPayment route hash ∈ t ->
       exists err l, send_payment (PublicKey := string) (L := toy) route hash None (mkToy [] true) = (Err err, l)) /\
  ("channel_id isn't a number" = "channel_id isn't a number" <-> parse_u64 "7x" = None).
Proof.
  refine (probe_err_spec "02aa" "7x" "03bb" (toy_app 0 []) "channel_id isn't a number" _ _ _).
  - vm_compute. reflexivity.
  - intros pre _. vm_compute. reflexivity.
Defined.

(** ** probeall *)

Definition toy_ctx : probe_ctx := mkCtx "all" [tx1; tx2; tx3] {[scid_from_parts 2 1 0]} ∅.

(** Two of the three outputs are probed: the other one is a public channel. *)
Example toy_probes :
  lines (trace (exec (probeall Testnet 5 (Some "all") (Some "data/nodes.json") (Some "data/tx")) (toy_app 0 [])))
  = [("02aa", scid_of tx1); ("02aa", scid_of tx3)].
Proof. vm_compute. reflexivity. Qed.


Definition toy_probeall : prog (app string toy) unit :=
  probeall Testnet 5 (Some "all") (Some "data/nodes.json") (Some "data/tx").

Lemma probeall_sound_witness :
  exists k, lines (trace (exec toy_probeall (toy_app 0 []))) = lines [] ++ k /\
    forall pk scid, (pk, scid) ∈ k ->
      scid ∉ ({[scid_from_parts 2 1 0]} : gset Z) /\
      get_attempts_str [] !! attempt_key pk (to_string scid) = None.
Proof.
  refine (probeall_sound Testnet 5 (Some "all") (Some "data/nodes.json") (Some "data/tx") (toy_app 0 [])
            (Ret tt) _ _).
  vm_compute. reflexivity.
Defined.

Lemma probeall_htlc_limit_witness :
  (size (pending_payments (exec toy_probeall (toy_app 0 []))) <= 0 `max` 31)%nat.
Proof.
  refine (probeall_htlc_limit Testnet 5 (Some "all") (Some "data/nodes.json") (Some "data/tx") (toy_app 0 [])
            (Ret tt) _ _).
  vm_compute. reflexivity.
Defined.

Lemma ctrl_c_stops_probing_witness :
  exists t, trace (exec (probe_nodes Testnet 1 toy_ctx [mkNode "02aa"] 1) (toy_app 1 [])) = [] ++ t /\
    Forall quiet t.
Proof.
  refine (ctrl_c_stops_probing Testnet 0 toy_ctx [mkNode "02aa"] 1 (toy_app 1 []) (Ret 1) _ _ _).
  - vm_compute. reflexivity.
  - vm_compute. reflexivity.
Defined.

(** 31 pending payments, one of which fails at the first sleep. *)
Definition full_app : app string toy :=
  set_pending (fun _ => list_to_map ((fun i => ([Z.of_nat i], probe_payment [Z.of_nat i])) <$> seq 0 31))
    (toy_app 0 [[Deliver (PaymentFailed [3])]]).

Lemma wait_htlcs_returns_witness : exists s', wait_htlcs Testnet 2 full_app = (Ret tt, s').
Proof.
  refine (wait_htlcs_returns Testnet 1 full_app (default full_app (sleeps Testnet 1 full_app)) 2 _ _ _).
  - vm_compute. reflexivity.
  - right. vm_compute. lia.
  - lia.
Defined.

Lemma answered_probe_not_repeated_witness :
  eligible (mkCtx "all" [] ∅ (get_attempts_str (attempts (exec (handle_ldk_events Testnet path_failed) (toy_app 0 [])) ++ [])))
    (mkNode "02aa") tx1 = false.
Proof.
  refine (answered_probe_not_repeated Testnet (toy_app 0 [])
    (exec (handle_ldk_events Testnet path_failed) (toy_app 0 []))
    [] (mkHop "02aa" 1) (mkHop pubkey_guess (scid_of tx1)) 0x400f [] (mkNode "02aa") tx1 _ _ _ _ _ _).
  - vm_compute. reflexivity.
  - vm_compute. discriminate.
  - reflexivity.
  - reflexivity.
  - reflexivity.
Defined.

(** ** dump_results *)

Definition row1 : Attempt := attempt_of "02aa" pubkey_guess (scid_of tx1) 0x400f 100.

Lemma result_row_spec_witness :
  result_row {[scid_of tx1 := tx1]} row1 =
  Ret (mkAttemptResult "02aa"
         (if decide (attempt_result row1 = error_name 0x400f) then pubkey_guess else "")
         (to_string (scid_of tx1)) (id tx1 +:+ ":" +:+ to_string 0) 20000 3 100).
Proof.
  refine (result_row_spec {[scid_of tx1 := tx1]} tx1 row1 _ _ _).
  - vm_compute. repeat split; discriminate.
  - reflexivity.
  - vm_compute. reflexivity.
Defined.

Lemma result_rows_total_witness :
  exists rs, result_rows ∅ (get_attempts_found [row1]) = Ret rs /\
    r_channel_id <$> rs = channel_id <$>
      filter (fun a => attempt_result a <> "unknown" /\ attempt_result a <> "unknown_next_peer") [row1].
Proof.
  refine (result_rows_total ∅ [row1] _). intros a Ha. apply list_elem_of_singleton in Ha. subst a.
  exists (scid_of tx1). split; [vm_compute; split; [discriminate|reflexivity]|reflexivity].
Defined.

(** ** Peers *)

Definition key66 : string := "020202020202020202020202020202020202020202020202020202020202020202".

Lemma peer_file_roundtrip_witness :
  exists d', persist_peers ("d", "peers") [key66 +:+ "@h:1"] (World (Disk ∅ ∅) []) = (Ret (Ok tt), World d' []) /\
    exists m, read_channel_peer_data ("d", "peers") (World d' []) = (Ret (Ok m), World d' []) /\
      forall pk, assoc_get pk m = snd <$> last (filter (fun peer => peer.1 = pk) [(key66, "h:1")]).
Proof.
  refine (peer_file_roundtrip ("d", "peers") [key66 +:+ "@h:1"] [(key66, "h:1")] (Disk ∅ ∅) _ _ _).
  - reflexivity.
  - repeat constructor.
  - constructor; [vm_compute; reflexivity|constructor].
Defined.

Lemma persist_via_tmp_content_witness :
  exists d' f, persist_via_tmp (fun _ => 1%nat) "d" "g" [1; 2]
      (World (Disk {[("d", "g.tmp") := File [7; 8; 9] false]} {["d"]}) []) = (Ret (Ok tt), World d' []) /\
    files d' !! ("d", "g") = Some f /\ content f = [1; 2] ++ drop 2 [7; 8; 9] /\ files d' !! ("d", "g" +:+ ".tmp") = None.
Proof.
  refine (persist_via_tmp_content (fun _ => 1%nat) "d" "g" [1; 2]
    (Disk {[("d", "g.tmp") := File [7; 8; 9] false]} {["d"]}) _).
  cbn. lia.
Defined.

(** ** Cli *)

Lemma session_keeps_attempts_witness :
  attempts (toy_app 0 []) `prefix_of`
  attempts (exec (poll_for_user_input Testnet "d" 5 [Ok "help"; Ok "nodeinfo"; Ok "stop"]) (toy_app 0 [[Deliver path_failed]])).
Proof.
  refine (session_keeps_attempts Testnet "d" 5 [Ok "help"; Ok "nodeinfo"; Ok "stop"] (toy_app 0 [[Deliver path_failed]])
    (Ret tt) _ _).
  vm_compute. reflexivity.
Defined.

Lemma other_commands_add_no_probe_witness :
  pending_payments (exec (run_line Testnet "d" 5 "keysend 0202") full_app) ⊆ pending_payments full_app.
Proof.
  refine (other_commands_add_no_probe Testnet "d" 5 "keysend 0202" full_app (Panic "byte index out of bounds") _ _ _ _).
  - vm_compute. discriminate.
  - vm_compute. discriminate.
  - vm_compute. reflexivity.
Defined.

Lemma send_invoice_payment_spec_witness :
  exists s', send_invoice_payment tt (toy_app 0 []) = (Ret tt, s') /\ ldk s' = mkToy [] true /\
    outbound_payments s' = <[[5] := mkPayment None (Some [6]) Pending (Some 1000)]> ∅.
Proof.
  refine (send_invoice_payment_spec tt (toy_app 0 []) (Ok [9]) (mkToy [] true) _ _).
  - reflexivity.
  - intros _. by eexists.
Defined.

Lemma connectpeer_short_key_panics_witness :
  (connectpeer Testnet 5 (["abc" +:+ "@" +:+ "localhost:9735"]) (toy_app 0 [])).1 = Panic "byte index out of bounds".
Proof.
  refine (connectpeer_short_key_panics Testnet 5 "abc" "localhost:9735" "localhost:9735" [] [] (toy_app 0 []) _ _ _ _).
  - reflexivity.
  - reflexivity.
  - vm_compute. reflexivity.
  - reflexivity.
Defined.
