(* ===== verification/Scraper.v ===== *)
(** * Scraper: src/scraper/main.rs

    Joins the dump of unspent outputs with the list of all transactions and their
    position in their block, and writes the matches in files of 10,000.  The csv
    reader and the JSON writer are libraries: a csv file is the list of its records,
    each deserialized or an error; progress messages are left out. *)

From S2P Require Import Prelude Text Bytes Fs Disk.

Local Open Scope Z_scope.

Record UtxoDump := mkUtxo { u_txid : string; u_vout : Z; u_height : Z; u_amount : Z }.
Record IterateDump := mkIterate { i_txid : string; i_tx_height : Z }.
Record ScrapeResult := mkScrape {
  sr_block_height : Z; sr_id : string; sr_block_index : Z; sr_transaction_index : Z; sr_amount : Z }.

Section Scraper.
Context (to_json : list ScrapeResult -> bytes) (flush_point : bytes -> nat).
Abbreviation prog := (prog world).

(** The first loop: outputs by transaction id, in the order of the dump. *)
Fixpoint load_utxos (rows : list (result UtxoDump string)) (utxo_dump : gmap string (list UtxoDump)) :
    result (gmap string (list UtxoDump)) string :=
  match rows with
  | [] => Ok utxo_dump
  | Err e :: _ => Err e
  | Ok utxo :: rows' =>
      load_utxos rows'
        match utxo_dump !! u_txid utxo with
        | Some utxos => <[u_txid utxo := utxos ++ [utxo]]> utxo_dump
        | None => <[u_txid utxo := [utxo]]> utxo_dump
        end
  end.

Definition scrape (iterate : IterateDump) (utxo : UtxoDump) : ScrapeResult :=
  mkScrape (u_height utxo) (u_txid utxo) (i_tx_height iterate) (u_vout utxo) (u_amount utxo).

Record scan := mkScan { scrape_results : list ScrapeResult; found : Z; part : Z }.

Definition part_file (part : Z) : path := ("./data/transactions", "part-" +:+ to_string part +:+ ".json").

(** [File::create(..).unwrap()] and [to_writer_pretty(..).unwrap()] through a [BufWriter]. *)
Definition write_part (part : Z) (results : list ScrapeResult) : prog unit :=
  _ ← unwrap_io (file_create (part_file part));
  unwrap_io (buffered_write flush_point (part_file part) (to_json results)).

Definition PART_SIZE : Z := 10000.

(** The body of the innermost loop. *)
Definition push_result (st : scan) (r : ScrapeResult) : prog scan :=
  let results := scrape_results st ++ [r] in
  let found := found st + 1 in
  if found `mod` PART_SIZE =? 0 then
    _ ← write_part (part st) results;
    mret (mkScan [] found (part st + 1))
  else mret (mkScan results found (part st)).

Fixpoint scan_rows (utxo_dump : gmap string (list UtxoDump)) (rows : list (result IterateDump string))
    (st : scan) : prog (result scan string) :=
  match rows with
  | [] => mret (Ok st)
  | Err e :: _ => mret (Err e)
  | Ok iterate :: rows' =>
      match utxo_dump !! i_txid iterate with
      | Some utxos =>
          st' ← foldM push_result st (scrape iterate <$> utxos);
          scan_rows utxo_dump rows' st'
      | None => scan_rows utxo_dump rows' st
      end
  end.

Definition main (utxo_rows : list (result UtxoDump string)) (iterate_rows : list (result IterateDump string)) :
    prog (result unit string) :=
  match load_utxos utxo_rows ∅ with
  | Err e => mret (Err e)
  | Ok utxo_dump =>
      r ← scan_rows utxo_dump iterate_rows (mkScan [] 0 1);
      match r with
      | Err e => mret (Err e)
      | Ok st => _ ← write_part (part st) (scrape_results st); mret (Ok tt)
      end
  end.

(** ** The reference: a join, cut into parts *)

Definition join (utxos : list UtxoDump) (iterates : list IterateDump) : list ScrapeResult :=
  concat ((fun it => scrape it <$> filter (fun u => u_txid u = i_txid it) utxos) <$> iterates).

Definition size_nat : nat := Z.to_nat PART_SIZE.

(** The contents of part [k + 1]. *)
Definition chunk (all : list ScrapeResult) (k : nat) : list ScrapeResult :=
  take size_nat (drop (k * size_nat) all).

(** ** Lemmas *)

Lemma load_utxos_spec utxos m :
  exists m', load_utxos (Ok <$> utxos) m = Ok m' /\
    forall txid, default [] (m' !! txid) = default [] (m !! txid) ++ filter (fun u => u_txid u = txid) utxos.
Proof.
  revert m. induction utxos as [|u utxos IH]; intros m.
  { exists m. split; [done|]. intros. by rewrite List.app_nil_r. }
  rewrite fmap_cons. cbn [load_utxos].
  match goal with |- context [load_utxos _ ?m'] => destruct (IH m') as (m2 & E & H) end.
  exists m2. split; [done|]. intros txid. rewrite H, filter_cons.
  destruct (decide (u_txid u = txid)) as [<-|Hn].
  - destruct (m !! u_txid u) eqn:Em; rewrite lookup_insert_eq; cbn; by rewrite <- ?(assoc_L (++)).
  - destruct (m !! u_txid u) eqn:Em; by rewrite lookup_insert_ne.
Qed.

(** The state of the scan after the results [all]. *)
Definition scan_of (all : list ScrapeResult) : scan :=
  let n := (length all / size_nat)%nat in
  mkScan (drop (n * size_nat) all) (Z.of_nat (length all)) (Z.of_nat n + 1).

(** The first [n] parts of [all] are on disk. *)
Definition parts_written (n : nat) (all : list ScrapeResult) (d : disk) : Prop :=
  "./data/transactions" ∈ dirs d /\
  forall k, (k < n)%nat -> content <$> files d !! part_file (Z.of_nat k + 1) = Some (to_json (chunk all k)).

Lemma size_pos : (0 < size_nat)%nat.
Proof. unfold size_nat, PART_SIZE. lia. Qed.
Opaque size_nat.

Lemma part_file_inj a b : 0 <= a -> 0 <= b -> part_file a = part_file b -> a = b.
Proof.
  unfold part_file. intros Ha Hb [= H].
  assert (Hf : forall x, 0 <= x -> split_on "." (to_string x +:+ ".json") = [to_string x; "json"]).
  { intros x Hx. change ".json" with (String "." "json").
    rewrite split_on_app by (by apply to_string_no_char). done. }
  assert (E : [to_string a; "json"] = [to_string b; "json"]) by (rewrite <- !Hf by done; f_equal; exact H).
  injection E as E. by apply to_string_inj.
Qed.

Lemma write_part_ok n all results d :
  parts_written n all d -> results = chunk all n ->
  exists d', write_part (Z.of_nat n + 1) results (World d []) = (Ret tt, World d' []) /\ parts_written (S n) all d'.
Proof.
  intros [Hdir Hk] Hr.
  destruct (buffered_write_fresh flush_point (part_file (Z.of_nat n + 1)) (to_json results)
    (set_files <[part_file (Z.of_nat n + 1) := File [] false]> d) false) as (d' & Ew & Hf & Hd);
    [apply lookup_insert_eq|].
  exists d'. split.
  - unfold write_part.
    erewrite prog_bind_Ret by (apply unwrap_io_ok; unfold file_create; rewrite io_op_ok; cbn [fst part_file];
      rewrite decide_True by done; reflexivity).
    by apply unwrap_io_ok.
  - split; [by rewrite Hd|]. intros k Hlt. rewrite Hf. cbn [files set_files]. destruct (decide (k = n)) as [->|Hn].
    + rewrite lookup_insert_eq. cbn. by rewrite Hr.
    + assert (part_file (Z.of_nat n + 1) <> part_file (Z.of_nat k + 1)).
      { intros E. apply part_file_inj in E; lia. }
      rewrite !lookup_insert_ne by done. apply Hk. lia.
Qed.

(** Results pushed later do not change a full part. *)
Lemma chunk_app all r k : (S k * size_nat <= length all)%nat -> chunk (all ++ [r]) k = chunk all k.
Proof.
  intros H. unfold chunk. rewrite drop_app_le by lia. rewrite take_app_le; [done|].
  rewrite length_drop. lia.
Qed.

Lemma push_result_ok all r d :
  parts_written (length all / size_nat) all d ->
  exists d', push_result (scan_of all) r (World d []) = (Ret (scan_of (all ++ [r])), World d' []) /\
    parts_written (length (all ++ [r]) / size_nat) (all ++ [r]) d'.
Proof.
  intros Hd. pose proof size_pos as Hs. unfold push_result, scan_of. cbn [scrape_results found part].
  set (len := length all) in *. set (n := (len / size_nat)%nat) in *.
  assert (Hlen : length (all ++ [r]) = S len) by (rewrite length_app; cbn; lia).
  assert (Hmod : PART_SIZE = Z.of_nat size_nat) by done.
  assert (Hn : (n * size_nat <= len < S n * size_nat)%nat).
  { pose proof (Nat.div_mod len size_nat ltac:(lia)). pose proof (Nat.mod_upper_bound len size_nat ltac:(lia)).
    fold n in H. nia. }
  assert (Hdrop : drop (n * size_nat) (all ++ [r]) = drop (n * size_nat) all ++ [r])
    by (apply drop_app_le; fold len; lia).
  assert (Hparts : parts_written n (all ++ [r]) d).
  { destruct Hd as [? Hk]. split; [done|]. intros k Hlt. rewrite Hk by done. rewrite chunk_app; [done|]. fold len. nia. }
  rewrite Hlen. replace (Z.of_nat len + 1) with (Z.of_nat (S len)) by lia.
  rewrite Hmod, <- Nat2Z.inj_mod. destruct (Z.eqb_spec (Z.of_nat (S len mod size_nat)) 0) as [E|E].
  - assert (Hdiv : (S len / size_nat = S n)%nat /\ (S len = S n * size_nat)%nat).
    { pose proof (Nat.div_mod (S len) size_nat ltac:(lia)). assert (Em : (S len mod size_nat = 0)%nat) by (by apply Nat2Z.inj).
      rewrite Em in H. assert (Hq : (S len / size_nat = S n)%nat) by nia. split; [done|]. rewrite Hq in H. lia. }
    destruct Hdiv as [-> Hl].
    destruct (write_part_ok n (all ++ [r]) (drop (n * size_nat) all ++ [r]) d Hparts) as (d' & Ew & Hd').
    { unfold chunk. rewrite Hdrop, take_ge; [done|]. rewrite length_app, length_drop. cbn. fold len. nia. }
    exists d'. rewrite (prog_bind_Ret _ _ _ _ _ Ew). split; [|done]. unfold mret, prog_ret. do 3 f_equal.
    + rewrite drop_ge; [done|]. rewrite Hlen. lia.
    + lia.
  - assert (Hdiv : (S len / size_nat = n)%nat).
    { symmetry. apply (Nat.div_unique _ _ _ (S len - n * size_nat)); [|nia].
      assert (S len <> S n * size_nat)%nat; [|nia]. intros E'. apply E. rewrite E', Nat.Div0.mod_mul. done. }
    rewrite Hdiv, Hdrop. exists d. by split.
Qed.

Lemma push_results_ok rs all d :
  parts_written (length all / size_nat) all d ->
  exists d', foldM push_result (scan_of all) rs (World d []) = (Ret (scan_of (all ++ rs)), World d' []) /\
    parts_written (length (all ++ rs) / size_nat) (all ++ rs) d'.
Proof.
  revert all d. induction rs as [|r rs IH]; intros all d Hd.
  { rewrite List.app_nil_r. by exists d. }
  destruct (push_result_ok all r d Hd) as (d1 & E1 & H1). destruct (IH _ _ H1) as (d2 & E2 & H2).
  exists d2. cbn [foldM]. rewrite (prog_bind_Ret _ _ _ _ _ E1), E2, <- (assoc_L (++)) in *. by split.
Qed.

Lemma scan_rows_ok utxos m iterates all d :
  (forall txid, default [] (m !! txid) = filter (fun u => u_txid u = txid) utxos) ->
  parts_written (length all / size_nat) all d ->
  exists d', scan_rows m (Ok <$> iterates) (scan_of all) (World d [])
      = (Ret (Ok (scan_of (all ++ join utxos iterates))), World d' []) /\
    parts_written (length (all ++ join utxos iterates) / size_nat) (all ++ join utxos iterates) d'.
Proof.
  intros Hm. revert all d. induction iterates as [|it iterates IH]; intros all d Hd.
  { unfold join. cbn [fmap list_fmap concat]. rewrite List.app_nil_r. by exists d. }
  rewrite fmap_cons. cbn [scan_rows]. unfold join. rewrite fmap_cons. cbn [concat]. fold (join utxos iterates).
  specialize (Hm (i_txid it)) as Hit.
  destruct (m !! i_txid it) as [us|]; cbn [default] in Hit.
  - destruct (push_results_ok (scrape it <$> us) all d Hd) as (d1 & E1 & H1).
    rewrite (prog_bind_Ret _ _ _ _ _ E1). destruct (IH _ _ H1) as (d2 & E2 & H2). exists d2.
    rewrite E2. rewrite <- (assoc_L (++)) in *. unfold id in Hit. by rewrite <- Hit.
  - rewrite <- Hit. cbn [fmap list_fmap Datatypes.app]. by apply IH.
Qed.


End Scraper.

