(* ===== verification/BlockSync.v ===== *)
(** * BlockSync: rust-lightning/lightning-block-sync/src/lib.rs and poll.rs

    The SPV client that keeps the channel manager and the channel monitors on the best
    chain: [ChainPoller] validates what a block source returns, [ChainNotifier] finds
    the fork point between the old and the new tip, disconnects and connects blocks,
    and [SpvClient] keeps the tip.  The block source is arbitrary: it may fail, lie and
    change its mind between two requests.  Hashing and the proof-of-work check are the
    bitcoin crate's ([HeaderApi]); headers of blocks are compared by hash. *)

From S2P Require Import Prelude Text Json App.

Local Open Scope Z_scope.

Class HeaderApi (BlockHash Header Block : Type) := {
  bh_eq_dec :: EqDecision BlockHash;
  bh_countable :: Countable BlockHash;
  header_eq_dec :: EqDecision Header;
  header_hash : Header -> BlockHash;
  prev_blockhash : Header -> BlockHash;
  bits : Header -> Z;
  work : Header -> Z;
  pow_valid : Header -> bool;
  block_header : Block -> Header;
  check_merkle_root : Block -> bool;
  check_witness_commitment : Block -> bool;
}.

(** Double SHA-256 has no collisions. *)
Class HeaderLaws (BlockHash Header Block : Type) `{HeaderApi BlockHash Header Block} := {
  header_hash_inj : forall a b, header_hash a = header_hash b -> a = b;
}.

Record BlockSourceError := mkSourceError { kind : BlockSourceErrorKind; error : string }.
Definition persistent (e : string) : BlockSourceError := mkSourceError Persistent e.
Definition transient (e : string) : BlockSourceError := mkSourceError Transient e.

Section BlockSync.
Context {BlockHash Header Block : Type} `{!HeaderApi BlockHash Header Block}.

Record BlockHeaderData := mkHeaderData { header : Header; height : Z; chainwork : Z }.

Record ValidatedBlockHeader := mkValidated { block_hash : BlockHash; inner : BlockHeaderData }.

Global Instance ValidatedBlockHeader_eq_dec : EqDecision ValidatedBlockHeader.
Proof. assert (EqDecision BlockHeaderData) by solve_decision. solve_decision. Defined.

Definition prev_of (h : ValidatedBlockHeader) : BlockHash := prev_blockhash (header (inner h)).
Definition height_of (h : ValidatedBlockHeader) : Z := height (inner h).

Inductive ChainTip := Common | Better (h : ValidatedBlockHeader) | Worse (h : ValidatedBlockHeader).

(** ** Validation (poll.rs) *)

Definition validate_header (d : BlockHeaderData) (hash : BlockHash) : result ValidatedBlockHeader BlockSourceError :=
  if negb (pow_valid (header d)) then Err (persistent "block target correct but not attained")
  else if decide (header_hash (header d) <> hash) then Err (persistent "invalid block hash")
  else Ok (mkValidated hash d).

(** A validated block is the block itself. *)
Definition validate_block (b : Block) (hash : BlockHash) : result Block BlockSourceError :=
  if negb (pow_valid (block_header b)) then Err (persistent "block target correct but not attained")
  else if decide (header_hash (block_header b) <> hash) then Err (persistent "invalid block hash")
  else if negb (check_merkle_root b) then Err (persistent "invalid merkle root")
  else if negb (check_witness_commitment b) then Err (persistent "invalid witness commitment")
  else Ok b.

(** [u32] and [Uint256] additions panic on overflow in the development profile; they
    are kept exact here. *)
Definition check_builds_on (h previous : ValidatedBlockHeader) (network : Network) : result unit BlockSourceError :=
  if decide (prev_of h <> block_hash previous) then Err (persistent "invalid previous block hash")
  else if negb (height_of h =? height_of previous + 1) then Err (persistent "invalid block height")
  else
    let w := work (header (inner h)) in
    if negb (chainwork (inner h) =? chainwork (inner previous) + w) then Err (persistent "invalid chainwork")
    else
      match network with
      | Bitcoin =>
          if height_of h `mod` 2016 =? 0 then
            let previous_work := work (header (inner previous)) in
            if (w >? Z.shiftl previous_work 2) || (w <? Z.shiftr previous_work 2)
            then Err (persistent "invalid difficulty transition") else Ok tt
          else if negb (bits (header (inner h)) =? bits (header (inner previous)))
          then Err (persistent "invalid difficulty") else Ok tt
      | _ => Ok tt
      end.

(** ** The poller *)

(** A block source with its own state. *)
Record BlockSource (S : Type) := mkSource {
  get_header : BlockHash -> option Z -> S -> result BlockHeaderData BlockSourceError * S;
  get_block : BlockHash -> S -> result Block BlockSourceError * S;
  get_best_block : S -> result (BlockHash * option Z) BlockSourceError * S;
}.
Arguments get_header {S}.
Arguments get_block {S}.
Arguments get_best_block {S}.

(** What a [chain::Listen] implementation is told. *)
Inductive listen_event :=
| Connected (b : Block) (height : Z)
| Disconnected (h : Header) (height : Z).

Context {S : Type} (src : BlockSource S) (network : Network).

(** The source's state, the header cache and the calls made on the listener. *)
Record sync := mkSync {
  source : S;
  header_cache : gmap BlockHash ValidatedBlockHeader;
  heard : list listen_event;
}.

Abbreviation prog := (prog sync).
Abbreviation fallible A := (prog (result A BlockSourceError)).

Definition ask {A} (f : S -> result A BlockSourceError * S) : fallible A :=
  fun st => let '(r, s) := f (source st) in (Ret r, mkSync s (header_cache st) (heard st)).

Definition poll_chain_tip (best_known : ValidatedBlockHeader) : fallible ChainTip :=
  let? best := ask (get_best_block src) in
  if decide (best.1 = header_hash (header (inner best_known))) then mret (Ok Common)
  else
    let? data := ask (get_header src best.1 best.2) in
    let? chain_tip := mret (validate_header data best.1) in
    if chainwork (inner chain_tip) >? chainwork (inner best_known)
    then mret (Ok (Better chain_tip)) else mret (Ok (Worse chain_tip)).

(** [ChainPoller::look_up_previous_header]. *)
Definition poll_previous_header (h : ValidatedBlockHeader) : fallible ValidatedBlockHeader :=
  if height_of h =? 0 then mret (Err (persistent "genesis block reached"))
  else
    let? data := ask (get_header src (prev_of h) (Some (height_of h - 1))) in
    let? previous := mret (validate_header data (prev_of h)) in
    let? _ := mret (check_builds_on h previous network) in
    mret (Ok previous).

Definition fetch_block (h : ValidatedBlockHeader) : fallible Block :=
  let? b := ask (get_block src (block_hash h)) in
  mret (validate_block b (block_hash h)).

(** ** The notifier (lib.rs) *)

(** [ChainNotifier::look_up_previous_header]: the cache first. *)
Definition look_up_previous_header (h : ValidatedBlockHeader) : fallible ValidatedBlockHeader :=
  cached ← gets (fun st => header_cache st !! prev_of h);
  match cached with
  | Some prev_header => mret (Ok prev_header)
  | None => poll_previous_header h
  end.

Record ChainDifference := mkDifference {
  common_ancestor : ValidatedBlockHeader;
  disconnected_blocks : list ValidatedBlockHeader;
  connected_blocks : list ValidatedBlockHeader;
}.

Fixpoint find_difference_loop (fuel : nat) (current previous : ValidatedBlockHeader)
    (disconnected connected : list ValidatedBlockHeader) : fallible ChainDifference :=
  match fuel with
  | O => fun st => (OutOfFuel, st)
  | Datatypes.S fuel' =>
      if decide (block_hash current = block_hash previous)
      then mret (Ok (mkDifference current disconnected connected))
      else
        let current_height := height_of current in
        let previous_height := height_of previous in
        let? dp := (if current_height <=? previous_height
                    then let? p := look_up_previous_header previous in mret (Ok (disconnected ++ [previous], p))
                    else mret (Ok (disconnected, previous))) in
        let? cc := (if current_height >=? previous_height
                    then let? c := look_up_previous_header current in mret (Ok (connected ++ [current], c))
                    else mret (Ok (connected, current))) in
        find_difference_loop fuel' cc.2 dp.2 dp.1 cc.1
  end.

Definition find_difference (fuel : nat) (current_header prev_header : ValidatedBlockHeader) :
    fallible ChainDifference :=
  find_difference_loop fuel current_header prev_header [] [].

(** The cache removal with its assertion, and the notification. *)
Definition disconnect_block (h : ValidatedBlockHeader) : prog unit :=
  fun st =>
    match header_cache st !! block_hash h with
    | Some cached_header =>
        if decide (cached_header = h)
        then (Ret tt, mkSync (source st) (delete (block_hash h) (header_cache st))
                        (heard st ++ [Disconnected (header (inner h)) (height_of h)]))
        else (Panic "assertion failed: cached_header == header",
              mkSync (source st) (delete (block_hash h) (header_cache st)) (heard st))
    | None => (Ret tt, mkSync (source st) (header_cache st)
                         (heard st ++ [Disconnected (header (inner h)) (height_of h)]))
    end.

Fixpoint disconnect_blocks (l : list ValidatedBlockHeader) : prog unit :=
  match l with
  | [] => mret tt
  | h :: l' => _ ← disconnect_block h; disconnect_blocks l'
  end.

Definition connect_block (h : ValidatedBlockHeader) (b : Block) : prog unit :=
  modify (fun st => mkSync (source st) (<[block_hash h := h]> (header_cache st))
                      (heard st ++ [Connected b (height_of h)])).

(** The loop of [connect_blocks] over the reversed list. *)
Fixpoint connect_loop (new_tip : ValidatedBlockHeader) (l : list ValidatedBlockHeader) :
    prog (result unit (BlockSourceError * option ValidatedBlockHeader)) :=
  match l with
  | [] => mret (Ok tt)
  | h :: l' =>
      block ← fetch_block h;
      match block with
      | Err e => mret (Err (e, Some new_tip))
      | Ok b => _ ← connect_block h b; connect_loop h l'
      end
  end.

Definition connect_blocks (new_tip : ValidatedBlockHeader) (connected : list ValidatedBlockHeader) :
    prog (result unit (BlockSourceError * option ValidatedBlockHeader)) :=
  connect_loop new_tip (rev connected).

Definition synchronize_listener (fuel : nat) (new_header old_header : ValidatedBlockHeader) :
    prog (result unit (BlockSourceError * option ValidatedBlockHeader)) :=
  difference ← find_difference fuel new_header old_header;
  match difference with
  | Err e => mret (Err (e, None))
  | Ok d =>
      _ ← disconnect_blocks (disconnected_blocks d);
      connect_blocks (common_ancestor d) (connected_blocks d)
  end.

(** ** The client *)

(** [SpvClient::update_chain_tip]: the new tip and whether blocks were connected. *)
Definition update_chain_tip (fuel : nat) (chain_tip best : ValidatedBlockHeader) :
    prog (ValidatedBlockHeader * bool) :=
  r ← synchronize_listener fuel best chain_tip;
  match r with
  | Ok _ => mret (best, true)
  | Err (_, Some t) => if decide (block_hash t <> block_hash chain_tip) then mret (t, true) else mret (chain_tip, false)
  | Err (_, None) => mret (chain_tip, false)
  end.

(** [SpvClient::poll_best_tip]: the state of the client is its tip. *)
Definition poll_best_tip (fuel : nat) (chain_tip : ValidatedBlockHeader) :
    fallible (ValidatedBlockHeader * ChainTip * bool) :=
  let? polled := poll_chain_tip chain_tip in
  match polled with
  | Common => mret (Ok (chain_tip, Common, false))
  | Better t =>
      if decide (block_hash t = block_hash chain_tip) then panic "debug_assert_ne!"
      else if chainwork (inner t) <=? chainwork (inner chain_tip) then panic "debug_assert!"
      else
        '(tip, connected) ← update_chain_tip fuel chain_tip t;
        mret (Ok (tip, Better t, connected))
  | Worse t =>
      if decide (block_hash t = block_hash chain_tip) then panic "debug_assert_ne!"
      else if chainwork (inner t) >? chainwork (inner chain_tip) then panic "debug_assert!"
      else mret (Ok (chain_tip, Worse t, false))
  end.

End BlockSync.
