(* ===== verification/BlockSyncSpec.v ===== *)
(** * BlockSyncSpec: the listener follows the chain

    A listener that is told to disconnect its tip goes to the tip's parent, and can
    connect a block only on top of its tip ([replay]).  The SPV client's notifications
    are proved to be such a walk from wherever the listener is to the tip the client
    then holds, for any block source; with a source that does not lie about heights the
    search for the fork point ends. *)

From S2P Require Import Prelude Text Json App BlockSync.

Local Open Scope Z_scope.

Section Spec.
Context {BlockHash Header Block : Type} `{!HeaderApi BlockHash Header Block} `{!HeaderLaws BlockHash Header Block}.
Context {S : Type} (src : BlockSource (Block := Block) (BlockHash := BlockHash) (Header := Header) S)
  (network : Network).

Abbreviation VH := (ValidatedBlockHeader (BlockHash := BlockHash) (Header := Header)).
Abbreviation sync := (sync (BlockHash := BlockHash) (Header := Header) (Block := Block) (S := S)).
Implicit Types (h cur prev anc tip : VH) (st : sync) (k : BlockHash).

(** ** The listener's view *)

Definition replay (tip : option BlockHash) (e : listen_event (Header := Header) (Block := Block)) :
    option BlockHash :=
  t ← tip;
  match e with
  | Disconnected hd _ => if decide (header_hash hd = t) then Some (prev_blockhash hd) else None
  | Connected b _ => if decide (prev_blockhash (block_header b) = t) then Some (header_hash (block_header b)) else None
  end.

Definition replay_all (tip : option BlockHash) (es : list listen_event) : option BlockHash := foldl replay tip es.

Lemma replay_all_app t es es' : replay_all t (es ++ es') = replay_all (replay_all t es) es'.
Proof. apply foldl_app. Qed.

(** ** What is known of headers *)

Definition valid h : Prop := header_hash (header (inner h)) = block_hash h.
Definition cache_ok (c : gmap BlockHash VH) : Prop := forall k h, c !! k = Some h -> block_hash h = k /\ valid h.

(** [path h l k]: walking back from [h], through exactly the headers [l], ends at a
    header with hash [k]. *)
Fixpoint path h (l : list VH) k : Prop :=
  match l with
  | [] => block_hash h = k
  | x :: l' => x = h /\ valid h /\ exists h', block_hash h' = prev_of h /\ valid h' /\ path h' l' k
  end.

Lemma ask_keeps {A} (f : S -> result A BlockSourceError * S) st o st' :
  ask f st = (o, st') -> header_cache st' = header_cache st /\ heard st' = heard st /\ exists r, o = Ret r.
Proof. unfold ask. destruct (f _) as [r s]. intros [= <- <-]. split_and!; try done. by eexists. Qed.

(** Asking the source changes neither the cache nor what the listener heard. *)
Definition only_asked st st' : Prop := header_cache st' = header_cache st /\ heard st' = heard st.
Global Instance only_asked_preorder : PreOrder only_asked.
Proof. split; [by intros st|]. intros s1 s2 s3 [] []. split; congruence. Qed.
Lemma ask_only {A} (f : S -> result A BlockSourceError * S) : keeps only_asked (ask f).
Proof. intros st o st' H. apply ask_keeps in H as (? & ? & _). by split. Qed.
Hint Resolve ask_only : keeps.

Lemma previous_only h : keeps only_asked (look_up_previous_header src network h).
Proof. unfold look_up_previous_header, poll_previous_header. solve_keeps. Qed.
Hint Resolve previous_only : keeps.
Lemma difference_only fuel cur prev D C : keeps only_asked (find_difference_loop src network fuel cur prev D C).
Proof.
  revert cur prev D C. induction fuel as [|fuel IH]; intros; cbn [find_difference_loop]; [apply keeps_pure, _|].
  solve_keeps.
Qed.
Lemma poll_tip_only h : keeps only_asked (poll_chain_tip src h).
Proof. unfold poll_chain_tip. solve_keeps. Qed.
Lemma fetch_only h : keeps only_asked (fetch_block src h).
Proof. unfold fetch_block. solve_keeps. Qed.

Lemma validate_header_ok d k h : validate_header d k = Ok h -> h = mkValidated k d /\ valid h.
Proof.
  unfold validate_header. destruct (pow_valid _); cbn [negb]; [|done]. case_decide as E; [done|].
  intros [= <-]. split; [done|]. unfold valid. cbn. destruct (decide (header_hash (header d) = k)); done.
Qed.

(** Invert a chain of [let?]s in a hypothesis. *)
Ltac ok_inv H :=
  let a := fresh "a" in let s := fresh "st" in let E := fresh "E" in let Hn := fresh "Hn" in
  apply bind_ok_inv in H as [(a & s & E & H)|(? & _ & _ & Hn)]; [|exfalso; by eapply Hn].

Lemma previous_ok h st p st' :
  cache_ok (header_cache st) ->
  look_up_previous_header src network h st = (Ret (Ok p), st') -> block_hash p = prev_of h /\ valid p.
Proof.
  intros Hc H. unfold look_up_previous_header in H. erewrite prog_bind_Ret in H by reflexivity.
  destruct (header_cache st !! prev_of h) as [c|] eqn:E.
  { unfold mret, prog_ret in H. simplify_eq. by apply Hc. }
  unfold poll_previous_header in H. destruct (height_of h =? 0); [by simplify_eq|].
  ok_inv H. ok_inv H. ok_inv H. unfold mret, prog_ret in *. simplify_eq.
  match goal with E : validate_header _ _ = Ok p |- _ => apply validate_header_ok in E as [-> Hv] end. done.
Qed.

(** ** The fork point *)

Lemma difference_ok fuel cur prev D C st d st' :
  cache_ok (header_cache st) -> valid cur -> valid prev ->
  find_difference_loop src network fuel cur prev D C st = (Ret (Ok d), st') ->
  exists D' C', disconnected_blocks d = D ++ D' /\ connected_blocks d = C ++ C' /\
    path prev D' (block_hash (common_ancestor d)) /\ path cur C' (block_hash (common_ancestor d)) /\
    valid (common_ancestor d).
Proof.
  revert cur prev D C st. induction fuel as [|fuel IH]; intros cur prev D C st Hc Hvc Hvp H;
    cbn [find_difference_loop] in H; [done|].
  case_decide as Eh.
  { unfold mret, prog_ret in H. simplify_eq. exists [], []. cbn. by rewrite !List.app_nil_r. }
  ok_inv H. rename a into dp, st0 into st1.
  assert (H1 : only_asked st st1 /\ exists x, dp.1 = D ++ x /\ valid dp.2 /\
            (x = [] /\ dp.2 = prev \/ x = [prev] /\ block_hash dp.2 = prev_of prev)).
  { destruct (height_of cur <=? height_of prev).
    - ok_inv E. unfold mret, prog_ret in E. simplify_eq. split; [by eapply previous_only|].
      destruct (previous_ok _ _ _ _ Hc E0). exists [prev]. cbn. auto.
    - unfold mret, prog_ret in E. simplify_eq. split; [reflexivity|]. exists []. rewrite List.app_nil_r. auto. }
  destruct H1 as ([Hc1 _] & x & Ex & Hvx & Hx).
  ok_inv H. rename a into cc, st0 into st2.
  assert (H2 : only_asked st1 st2 /\ exists y, cc.1 = C ++ y /\ valid cc.2 /\
            (y = [] /\ cc.2 = cur \/ y = [cur] /\ block_hash cc.2 = prev_of cur)).
  { destruct (height_of cur >=? height_of prev).
    - ok_inv E0. unfold mret, prog_ret in E0. simplify_eq. split; [by eapply previous_only|].
      rewrite <- Hc1 in Hc. destruct (previous_ok _ _ _ _ Hc E1). exists [cur]. cbn. auto.
    - unfold mret, prog_ret in E0. simplify_eq. split; [reflexivity|]. exists []. rewrite List.app_nil_r. auto. }
  destruct H2 as ([Hc2 _] & y & Ey & Hvy & Hy).
  destruct (IH _ _ _ _ _ ltac:(by rewrite Hc2, Hc1) Hvy Hvx H) as (D' & C' & Ed & Ec & Pd & Pc & Va).
  exists (x ++ D'), (y ++ C'). rewrite Ed, Ec, Ex, Ey, !(assoc_L (++)). split_and!; try done.
  - destruct Hx as [[-> <-]|[-> Hp]]; [done|]. cbn. split_and!; try done. by exists dp.2.
  - destruct Hy as [[-> <-]|[-> Hp]]; [done|]. cbn. split_and!; try done. by exists cc.2.
Qed.

(** ** Disconnecting *)

Lemma cache_ok_delete c k : cache_ok c -> cache_ok (delete k c).
Proof. intros H k' h Hk. apply lookup_delete_Some in Hk as [_ Hk]. by apply H. Qed.

Lemma disconnect_replay l h k st o st' t0 :
  cache_ok (header_cache st) -> path h l k ->
  replay_all t0 (heard st) = Some (block_hash h) ->
  disconnect_blocks l st = (o, st') ->
  cache_ok (header_cache st') /\ source st' = source st /\
  (exists k', replay_all t0 (heard st') = Some k') /\
  (o = Ret tt -> replay_all t0 (heard st') = Some k).
Proof.
  revert h st. induction l as [|x l IH]; intros h st Hc Hp Hr H; cbn [disconnect_blocks] in H.
  { unfold mret, prog_ret in H. simplify_eq. cbn in Hp. subst. split_and!; eauto. }
  cbn in Hp. destruct Hp as (-> & Hv & h' & Eh & Hv' & Hp).
  unfold mbind, prog_bind, disconnect_block in H.
  assert (Hr' : replay_all t0 (heard st ++ [Disconnected (header (inner h)) (height_of h)]) = Some (block_hash h')).
  { rewrite replay_all_app, Hr. cbn. unfold valid in Hv. rewrite decide_True by done. by rewrite Eh. }
  destruct (header_cache st !! block_hash h) as [c|] eqn:E.
  - case_decide.
    + eapply IH in H; [done|by apply cache_ok_delete|exact Hp|exact Hr'].
    + simplify_eq. cbn. split_and!; [by apply cache_ok_delete|done|by eexists|done].
  - by eapply IH in H.
Qed.

(** ** Connecting *)

(** [up t l]: the headers [l] can be connected one after the other on top of [t]. *)
Fixpoint up k (l : list VH) : Prop :=
  match l with
  | [] => True
  | h :: l' => prev_of h = k /\ valid h /\ up (block_hash h) l'
  end.

Lemma up_app k l l' : up k (l ++ l') <-> up k l /\ up (default k (block_hash <$> last l)) l'.
Proof.
  revert k. induction l as [|h l IH]; intros k; cbn [Datatypes.app up]; [naive_solver|].
  rewrite IH, last_cons. destruct (last l); cbn; naive_solver.
Qed.

(** The path back, reversed, leads up. *)
Lemma path_up l h k : path h l k -> up k (rev l) /\ default k (block_hash <$> last (rev l)) = block_hash h.
Proof.
  revert h. induction l as [|x l IH]; intros h H; cbn in *; [by split|].
  destruct H as (-> & Hv & h' & Eh & Hv' & Hp). apply IH in Hp as [Hu Hl]. rewrite last_snoc. split; [|done].
  apply up_app. split; [done|]. rewrite Hl. cbn. by split_and!.
Qed.

Lemma fetch_ok h st b st' :
  fetch_block src h st = (Ret (Ok b), st') -> valid h -> block_header b = header (inner h).
Proof.
  unfold fetch_block. intros H Hv. ok_inv H. unfold mret, prog_ret in H. simplify_eq.
  unfold validate_block in *. apply header_hash_inj. unfold valid in Hv. rewrite Hv.
  repeat case_match; try done. simplify_eq. by destruct (decide (header_hash (block_header b) = block_hash h)).
Qed.

Lemma connect_replay l tip st o st' t0 :
  cache_ok (header_cache st) -> up (block_hash tip) l ->
  replay_all t0 (heard st) = Some (block_hash tip) ->
  connect_loop src tip l st = (o, st') ->
  cache_ok (header_cache st') /\
  match o with
  | Ret (Ok _) => replay_all t0 (heard st') = Some (default (block_hash tip) (block_hash <$> last l))
  | Ret (Err (_, Some t)) => replay_all t0 (heard st') = Some (block_hash t) /\ (valid tip -> valid t)
  | _ => False
  end.
Proof.
  revert tip st. induction l as [|h l IH]; intros tip st Hc Hu Hr H; cbn [connect_loop] in H.
  { unfold mret, prog_ret in H. simplify_eq. cbn. by split. }
  unfold mbind at 1, prog_bind at 1 in H. cbn in Hu. destruct Hu as (Ep & Hv & Hu).
  destruct (fetch_block src h st) as [o1 st1] eqn:E1. apply fetch_only in E1 as F1. destruct F1 as [Fc Fh].
  destruct o1 as [[b|e]| |].
  - apply fetch_ok in E1; [|done]. erewrite prog_bind_Ret in H by reflexivity.
    apply IH in H; cbn [header_cache heard]; [| |done|].
    + destruct H as [Hc' H]. split; [done|]. rewrite last_cons.
      destruct o as [[|[e [t|]]]| |]; try done; [by destruct (last l)|].
      destruct H as [H Ht]. split; [done|]. auto.
    + intros k h' Hk. rewrite Fc in Hk. apply lookup_insert_Some in Hk as [[<- <-]|[_ Hk]]; [done|by apply Hc].
    + rewrite replay_all_app, Fh, Hr. cbn. rewrite E1, decide_True by done. by rewrite Hv.
  - unfold mret, prog_ret in H. simplify_eq. rewrite Fc, Fh. auto.
  - exfalso. clear -E1. unfold fetch_block, bind_ok, mbind, prog_bind, ask in E1.
    destruct (get_block _ _ _) as [[]]; by simplify_eq.
  - exfalso. clear -E1. unfold fetch_block, bind_ok, mbind, prog_bind, ask in E1.
    destruct (get_block _ _ _) as [[]]; by simplify_eq.
Qed.

(** ** One synchronization *)

Lemma sync_replay fuel new old st o st' t0 :
  cache_ok (header_cache st) -> valid new -> valid old ->
  replay_all t0 (heard st) = Some (block_hash old) ->
  synchronize_listener src network fuel new old st = (o, st') ->
  cache_ok (header_cache st') /\
  exists k, replay_all t0 (heard st') = Some k /\
    match o with
    | Ret (Ok _) => k = block_hash new
    | Ret (Err (_, Some t)) => k = block_hash t /\ valid t
    | Ret (Err (_, None)) => k = block_hash old
    | _ => True
    end.
Proof.
  intros Hc Hn Ho Hr H. unfold synchronize_listener, mbind at 1, prog_bind at 1 in H.
  destruct (find_difference src network fuel new old st) as [o1 st1] eqn:E1.
  pose proof (difference_only _ _ _ _ _ _ _ _ E1) as [Fc Fh].
  destruct o1 as [[d|e]| |]; [|unfold mret, prog_ret in H; simplify_eq; rewrite Fc, Fh; eauto..].
  destruct (difference_ok _ _ _ _ _ _ _ _ Hc Hn Ho E1) as (D & C & Ed & Ec & Pd & Pc & Va).
  cbn [Datatypes.app] in Ed, Ec. rewrite Ed, Ec in H. unfold mbind, prog_bind in H.
  destruct (disconnect_blocks D st1) as [o2 st2] eqn:E2.
  eapply disconnect_replay in E2 as (Hc2 & _ & Hk & Hok); [|by rewrite Fc|exact Pd|by rewrite Fh].
  destruct o2 as [[]| |]; [|simplify_eq; destruct Hk as [k Hk]; eauto..]. specialize (Hok eq_refl).
  apply path_up in Pc as [Hu Hl]. eapply connect_replay in H as [Hc3 H]; [|done|exact Hu|exact Hok].
  split; [done|]. destruct o as [[|[e [t|]]]| |]; try done.
  - rewrite Hl in H. eauto.
  - destruct H as [H Ht]. eauto.
Qed.

(** ** The client *)

(** The listener is at the client's tip. *)
Definition follows (t0 : option BlockHash) tip st : Prop :=
  cache_ok (header_cache st) /\ valid tip /\ replay_all t0 (heard st) = Some (block_hash tip).

Lemma poll_best_tip_follows fuel tip st o st' t0 :
  follows t0 tip st -> poll_best_tip src network fuel tip st = (o, st') ->
  (exists k, replay_all t0 (heard st') = Some k) /\
  match o with
  | Ret (Ok (tip', _, _)) => follows t0 tip' st'
  | Ret (Err _) => follows t0 tip st'
  | _ => True
  end.
Proof.
  intros (Hc & Hv & Hr) H. unfold poll_best_tip, bind_ok, mbind at 1, prog_bind at 1 in H.
  destruct (poll_chain_tip src tip st) as [o1 st1] eqn:E1. pose proof (poll_tip_only _ _ _ _ E1) as [Fc Fh].
  assert (Hf : follows t0 tip st1) by (unfold follows; by rewrite Fc, Fh).
  assert (Hk : exists k, replay_all t0 (heard st1) = Some k) by (destruct Hf as (_ & _ & ?); eauto).
  destruct o1 as [[polled|e]| |]; [|unfold mret, prog_ret in H; by simplify_eq..].
  destruct polled as [|t|t]; [unfold mret, prog_ret in H; by simplify_eq| |].
  - destruct (decide (block_hash t = block_hash tip)); [unfold panic in H; by simplify_eq|].
    destruct (_ <=? _); [unfold panic in H; by simplify_eq|].
    assert (Ht : valid t).
    { clear -E1. unfold poll_chain_tip in E1. ok_inv E1. case_decide; [by simplify_eq|].
      ok_inv E1. ok_inv E1. unfold mret, prog_ret in E1, E2. repeat case_match; simplify_eq.
      by eapply validate_header_ok. }
    unfold update_chain_tip, mbind, prog_bind in H.
    destruct (synchronize_listener src network fuel t tip st1) as [o2 st2] eqn:E2.
    destruct Hf as (Hc1 & _ & Hr1).
    eapply sync_replay in E2 as (Hc2 & k & Hk2 & Ho2); [|done..].
    assert (Hk' : exists k, replay_all t0 (heard st2) = Some k) by eauto.
    destruct o2 as [[u|[e [t'|]]]| |]; [| |unfold mret, prog_ret in H; by simplify_eq..].
    + unfold mret, prog_ret in H. injection H as <- <-. subst k. split; [done|]. by split_and!.
    + destruct Ho2 as [-> Ht']. case_decide as Eh; unfold mret, prog_ret in H; injection H as <- <-; (split; [done|]); [by split_and!|].
      assert (E : block_hash t' = block_hash tip) by (destruct (decide (block_hash t' = block_hash tip)); done).
      rewrite E in Hk2. by split_and!.
  - destruct (decide (block_hash t = block_hash tip)); [unfold panic in H; by simplify_eq|].
    destruct (_ >? _); unfold mret, prog_ret, panic in H; by simplify_eq.
Qed.

(** One round of the polling loop of src/main.rs that did not end the process. *)
Inductive polls : VH * sync -> VH * sync -> Prop :=
| polls_ok fuel tip st tip' t b st' :
    poll_best_tip src network fuel tip st = (Ret (Ok (tip', t, b)), st') -> polls (tip, st) (tip', st')
| polls_err fuel tip st e st' :
    poll_best_tip src network fuel tip st = (Ret (Err e), st') -> polls (tip, st) (tip, st').

Lemma polls_follows t0 s s' : polls s s' -> follows t0 s.1 s.2 -> follows t0 s'.1 s'.2.
Proof. destruct 1; intros Hf; by eapply poll_best_tip_follows in H as [_ H]. Qed.

(** C29: whatever the block source does, the blocks the listener is told to disconnect
    and connect over any number of polls are a walk, block by block, from the tip it
    started at to the tip the client holds. *)
Theorem spv_client_follows_chain tip0 st0 tip st :
  valid tip0 -> cache_ok (header_cache st0) -> heard st0 = [] ->
  rtc polls (tip0, st0) (tip, st) ->
  replay_all (Some (block_hash tip0)) (heard st) = Some (block_hash tip).
Proof.
  intros Hv Hc Hh H.
  assert (H0 : follows (Some (block_hash tip0)) (tip0, st0).1 (tip0, st0).2) by (unfold follows; cbn; by rewrite Hh).
  enough (Hf : follows (Some (block_hash tip0)) (tip, st).1 (tip, st).2) by apply Hf.
  revert H0. generalize (Some (block_hash tip0)). intros t0 H0.
  remember (tip0, st0) as s0 eqn:E0. remember (tip, st) as s eqn:E. clear E0 E.
  induction H as [|s1 s2 s3 Hst _ IH]; [done|]. apply IH. by eapply polls_follows.
Qed.

(** Also when a poll panics or is stuck, what the listener heard until then is such
    a walk. *)
Theorem spv_client_always_consistent fuel tip0 st0 o st :
  valid tip0 -> cache_ok (header_cache st0) -> heard st0 = [] ->
  poll_best_tip src network fuel tip0 st0 = (o, st) ->
  exists k, replay_all (Some (block_hash tip0)) (heard st) = Some k.
Proof.
  intros Hv Hc Hh H. eapply poll_best_tip_follows in H as [Hk _]; [exact Hk|].
  unfold follows. by rewrite Hh.
Qed.

(** ** Termination *)

(** A source that does not lie: the height of a header is a function of the header,
    one more than its parent's. *)
Class Honest (true_height : Header -> Z) := {
  true_height_pos : forall hd, 0 <= true_height hd;
  true_height_parent : forall hd p, prev_blockhash hd = header_hash p -> true_height hd = true_height p + 1;
  honest_source : forall k hint s d s', get_header _ src k hint s = (Ok d, s') -> height d = true_height (header d);
}.

Section Termination.
Context (true_height : Header -> Z) `{!Honest true_height}.

Definition honest h : Prop := valid h /\ height_of h = true_height (header (inner h)).
Definition cache_honest (c : gmap BlockHash VH) : Prop := forall k h, c !! k = Some h -> block_hash h = k /\ honest h.

(** A lookup of the previous header returns, and goes down by one. *)
Lemma previous_returns h st :
  cache_honest (header_cache st) -> honest h ->
  exists r st', look_up_previous_header src network h st = (Ret r, st') /\
    only_asked st st' /\
    forall p, r = Ok p -> honest p /\ height_of p = height_of h - 1.
Proof.
  intros Hc [Hv Hh].
  destruct (look_up_previous_header src network h st) as [o st'] eqn:E. pose proof (previous_only _ _ _ _ E) as Ho.
  assert (Hdown : forall p, honest p -> block_hash p = prev_of h -> height_of p = height_of h - 1).
  { intros p [Hvp Hhp] Hp. rewrite Hh, Hhp.
    rewrite (true_height_parent (header (inner h)) (header (inner p))); [lia|]. unfold valid in Hvp. by rewrite Hvp, Hp. }
  unfold look_up_previous_header in E. erewrite prog_bind_Ret in E by reflexivity.
  destruct (header_cache st !! prev_of h) as [c|] eqn:Ec.
  { unfold mret, prog_ret in E. simplify_eq. destruct (Hc _ _ Ec). eexists _, _. split; [done|]. split; [done|].
    intros p [= <-]. auto. }
  unfold poll_previous_header, bind_ok, mbind, prog_bind, ask, mret, prog_ret in E.
  destruct (height_of h =? 0).
  { simplify_eq. eexists _, _. by split. }
  destruct (get_header _ _ _ _ _) as [[d|e] s'] eqn:Eg; [|simplify_eq; eexists _, _; by split].
  destruct (validate_header d (prev_of h)) as [p|e] eqn:Ev; [|simplify_eq; eexists _, _; by split].
  apply validate_header_ok in Ev as [-> Hvp].
  assert (Hp : honest (mkValidated (prev_of h) d)).
  { split; [done|]. exact (honest_source _ _ _ _ _ Eg). }
  destruct (check_builds_on h _ network); simplify_eq; (eexists _, _; split; [done|]; split; [done|]); [|done].
  intros p [= <-]. auto.
Qed.

Lemma difference_terminates fuel cur prev D C st :
  cache_honest (header_cache st) -> honest cur -> honest prev ->
  height_of cur + height_of prev < Z.of_nat fuel ->
  exists r st', find_difference_loop src network fuel cur prev D C st = (Ret r, st').
Proof.
  revert cur prev D C st. induction fuel as [|fuel IH]; intros cur prev D C st Hc Hcur Hprev Hf.
  { destruct Hcur as [_ E1], Hprev as [_ E2]. pose proof (true_height_pos (header (inner cur))).
    pose proof (true_height_pos (header (inner prev))). lia. }
  cbn [find_difference_loop]. case_decide; [by eexists _, _|].
  destruct (previous_returns prev st Hc Hprev) as (rp & st1 & Ep & [Fc1 _] & Hp).
  destruct (Z.leb_spec (height_of cur) (height_of prev)) as [Hle|Hgt].
  - unfold bind_ok at 1 2, mbind at 1 2, prog_bind at 1 2. rewrite Ep. destruct rp as [p|e]; [|by eexists _, _].
    destruct (Hp p eq_refl) as [Hhp Hdown]. cbn [mret prog_ret].
    destruct (Z.geb_spec (height_of cur) (height_of prev)) as [Hge|Hlt].
    + destruct (previous_returns cur st1 ltac:(by rewrite Fc1) Hcur) as (rc & st2 & Ec2 & [Fc2 _] & Hcc).
      unfold bind_ok at 1 2, mbind at 1 2, prog_bind at 1 2. rewrite Ec2. destruct rc as [c|e]; [|by eexists _, _].
      destruct (Hcc c eq_refl) as [Hhc Hdc]. cbn [mret prog_ret fst snd].
      apply IH; [by rewrite Fc2, Fc1|done|done|lia].
    + unfold bind_ok at 1, mbind at 1, prog_bind at 1. cbn [mret prog_ret fst snd].
      apply IH; [by rewrite Fc1|done|done|lia].
  - unfold bind_ok at 1, mbind at 1, prog_bind at 1. cbn [mret prog_ret].
    destruct (Z.geb_spec (height_of cur) (height_of prev)) as [Hge|Hlt]; [|lia].
    destruct (previous_returns cur st Hc Hcur) as (rc & st2 & Ec2 & [Fc2 _] & Hcc).
    unfold bind_ok at 1 2, mbind at 1 2, prog_bind at 1 2. rewrite Ec2. destruct rc as [c|e]; [|by eexists _, _].
    destruct (Hcc c eq_refl) as [Hhc Hdc]. cbn [mret prog_ret fst snd].
    apply IH; [by rewrite Fc2|done|done|lia].
Qed.

(** The search for the fork point ends: with a source that reports true heights, as
    many steps as the two heights together are enough, whatever is in the cache. *)
Theorem find_difference_terminates fuel new old st :
  cache_honest (header_cache st) -> honest new -> honest old ->
  height_of new + height_of old < Z.of_nat fuel ->
  exists r st', find_difference src network fuel new old st = (Ret r, st').
Proof. apply difference_terminates. Qed.
End Termination.

End Spec.

(** ** A concrete chain

    A header is the list of the ids of its ancestors and itself, newest first; its hash
    is that list. *)
Section Toy.

Global Instance toy_header : HeaderApi (option (list Z)) (list Z) (list Z) := {
  header_hash h := Some h;
  prev_blockhash h := match h with [] => None | _ :: p => Some p end;
  bits _ := 0;
  work _ := 1;
  pow_valid _ := true;
  block_header b := b;
  check_merkle_root _ := true;
  check_witness_commitment _ := true;
}.

Global Instance toy_header_laws : HeaderLaws (option (list Z)) (list Z) (list Z).
Proof. split. intros a b H. cbn in H. congruence. Qed.

Definition toy_data (h : list Z) : BlockHeaderData := mkHeaderData h (Z.of_nat (length h)) (Z.of_nat (length h)).
Definition toy_validated (h : list Z) : ValidatedBlockHeader := mkValidated (Some h) (toy_data h).

(** The source is on the fork [5; 4; 1]. *)
Definition toy_source : BlockSource (BlockHash := option (list Z)) (Header := list Z) (Block := list Z) unit :=
  mkSource _
    (fun k _ s => (match k with Some h => Ok (toy_data h) | None => Err (transient "unknown") end, s))
    (fun k s => (match k with Some h => Ok h | None => Err (transient "unknown") end, s))
    (fun s => (Ok (Some [5; 4; 1], None), s)).

Definition toy_start : sync (BlockHash := option (list Z)) (Header := list Z) (Block := list Z) := mkSync tt ∅ [].

(** From [3; 1] the listener goes down to [1] and up to [5; 4; 1]. *)
Example toy_reorg :
  (poll_best_tip toy_source Regtest 9 (toy_validated [3; 1]) toy_start).2.(heard) =
  [Disconnected [3; 1] 2; Connected [4; 1] 2; Connected [5; 4; 1] 3].
Proof. vm_compute. reflexivity. Qed.

Definition toy_polled := (poll_best_tip toy_source Regtest 9 (toy_validated [3; 1]) toy_start).2.

Lemma spv_client_follows_chain_witness :
  replay_all (Some (Some [3; 1])) (heard toy_polled) = Some (Some [5; 4; 1]).
Proof.
  refine (spv_client_follows_chain toy_source Regtest (toy_validated [3; 1]) toy_start (toy_validated [5; 4; 1])
    toy_polled _ _ _ _).
  - reflexivity.
  - intros k h H. vm_compute in H. discriminate.
  - reflexivity.
  - eapply rtc_l; [|apply rtc_refl].
    apply (polls_ok toy_source Regtest 9 (toy_validated [3; 1]) toy_start (toy_validated [5; 4; 1])
      (Better (toy_validated [5; 4; 1])) true toy_polled).
    vm_compute. reflexivity.
Defined.

Lemma spv_client_always_consistent_witness :
  exists k, replay_all (Some (Some [3; 1])) (heard (exec (poll_best_tip toy_source Regtest 1 (toy_validated [3; 1])) toy_start)) = Some k.
Proof.
  refine (spv_client_always_consistent toy_source Regtest 1 (toy_validated [3; 1]) toy_start OutOfFuel _ _ _ _ _).
  - reflexivity.
  - intros k h H. vm_compute in H. discriminate.
  - reflexivity.
  - vm_compute. reflexivity.
Defined.

Global Instance toy_honest : Honest toy_source (fun h => Z.of_nat (length h)).
Proof.
  split.
  - intros. lia.
  - intros [|x hd] p H; [discriminate|]. cbn in H. injection H as ->. cbn [length]. lia.
  - intros [h|] hint s d s' H; cbn in H; [by injection H as <- _|discriminate].
Qed.

Lemma find_difference_terminates_witness :
  exists r st', find_difference toy_source Regtest 6 (toy_validated [5; 4; 1]) (toy_validated [3; 1]) toy_start = (Ret r, st').
Proof.
  refine (find_difference_terminates toy_source Regtest (fun h => Z.of_nat (length h)) 6
    (toy_validated [5; 4; 1]) (toy_validated [3; 1]) toy_start _ _ _ _).
  - intros k h H. vm_compute in H. discriminate.
  - split; reflexivity.
  - split; reflexivity.
  - vm_compute. reflexivity.
Defined.
End Toy.

(** * BlockSyncLive: with a good block source the client reaches the best tip

    The converse of the safety theorems of BlockSyncSpec.v: a source that serves one
    consistent tree of blocks, and always the same best tip, brings the client from any
    tip of that tree to the best one in a single poll, without a panic, and the listener
    with it. *)

Section Live.
Context {BlockHash Header Block : Type} `{!HeaderApi BlockHash Header Block} `{!HeaderLaws BlockHash Header Block}.
Context {S : Type} (src : BlockSource (Block := Block) (BlockHash := BlockHash) (Header := Header) S)
  (network : Network).

Abbreviation VH := (ValidatedBlockHeader (BlockHash := BlockHash) (Header := Header)).
Abbreviation sync := (sync (BlockHash := BlockHash) (Header := Header) (Block := Block) (S := S)).
Implicit Types (st : sync) (hd : Header).

(** What the source reports for a header, with its hash. *)
Definition reported (data : Header -> BlockHeaderData) hd : VH := mkValidated (header_hash hd) (data hd).

(** A source that serves the tree [known]: every header of it but the genesis block
    builds on another, with the height, work and difficulty [check_builds_on] asks for,
    and every block of it can be fetched. *)
Class Serves (known : Header -> Prop) (data : Header -> BlockHeaderData) (genesis best : Header) := {
  serves_data : forall hd, header (data hd) = hd /\ 0 <= height (data hd);
  serves_genesis : forall hd, known hd -> height (data hd) = 0 -> hd = genesis;
  serves_parent : forall hd, known hd -> 0 < height (data hd) ->
    exists p, known p /\ prev_blockhash hd = header_hash p /\
      check_builds_on (reported data hd) (reported data p) network = Ok tt;
  serves_pow : forall hd, known hd -> pow_valid hd = true;
  serves_header : forall hd hint s, known hd ->
    exists s', get_header _ src (header_hash hd) hint s = (Ok (data hd), s');
  serves_block : forall hd s, known hd ->
    exists b s', get_block _ src (header_hash hd) s = (Ok b, s') /\ block_header b = hd /\
      check_merkle_root b = true /\ check_witness_commitment b = true;
  serves_best : known best /\
    forall s, exists hint s', get_best_block _ src s = (Ok (header_hash best, hint), s');
}.

Context (known : Header -> Prop) (data : Header -> BlockHeaderData) (genesis best : Header)
  `{!Serves known data genesis best}.
Abbreviation v := (reported data).

(** Headers of the tree, as the client knows them, and a cache of them. *)
Definition of_tree (h : VH) : Prop := exists hd, known hd /\ h = v hd.
Definition cache_of_tree (c : gmap BlockHash VH) : Prop :=
  forall k h, c !! k = Some h -> block_hash h = k /\ of_tree h.

Lemma of_tree_valid h : of_tree h -> valid h.
Proof. intros (hd & _ & ->). unfold valid. cbn. by rewrite (proj1 (serves_data hd)). Qed.
Lemma cache_of_tree_ok c : cache_of_tree c -> cache_ok c.
Proof. intros H k h Hk. destruct (H _ _ Hk). split; [done|]. by apply of_tree_valid. Qed.
Lemma of_tree_inj h h' : of_tree h -> of_tree h' -> block_hash h = block_hash h' -> h = h'.
Proof. intros (hd & _ & ->) (hd' & _ & ->) H. cbn in H. by apply header_hash_inj in H as ->. Qed.
Lemma of_tree_height h : of_tree h -> 0 <= height_of h.
Proof. intros (hd & _ & ->). exact (proj2 (serves_data hd)). Qed.

Lemma validate_reported hd : known hd -> validate_header (data hd) (header_hash hd) = Ok (v hd).
Proof.
  intros Hk. unfold validate_header. rewrite (proj1 (serves_data hd)), (serves_pow hd Hk). cbn.
  by rewrite decide_False by (intros H; by apply H).
Qed.

(** ** Every step succeeds *)

Lemma previous_served h st :
  cache_of_tree (header_cache st) -> of_tree h -> 0 < height_of h ->
  exists p st', look_up_previous_header src network h st = (Ret (Ok p), st') /\ only_asked st st' /\
    of_tree p /\ height_of p = height_of h - 1.
Proof.
  intros Hc (hd & Hk & ->) Hh. destruct (serves_parent hd Hk Hh) as (p & Hkp & Hp & Hb).
  assert (Hprev : prev_of (v hd) = header_hash p) by (unfold prev_of; cbn; by rewrite (proj1 (serves_data hd))).
  assert (Hheight : height_of (v p) = height_of (v hd) - 1).
  { revert Hb. unfold check_builds_on. case_decide; [done|].
    destruct (Z.eqb_spec (height_of (v hd)) (height_of (v p) + 1)); [lia|done]. }
  exists (v p).
  unfold look_up_previous_header. erewrite prog_bind_Ret by reflexivity.
  destruct (header_cache st !! prev_of (v hd)) as [c|] eqn:Ec.
  { destruct (Hc _ _ Ec) as [Hcb Hct].
    assert (c = v p) as -> by (apply of_tree_inj; [done|by eexists|by rewrite Hcb, Hprev]).
    eexists. split_and!; [done|done|by eexists|done]. }
  unfold poll_previous_header. destruct (Z.eqb_spec (height_of (v hd)) 0); [lia|].
  unfold bind_ok, mbind, prog_bind, ask, mret, prog_ret. rewrite Hprev.
  destruct (serves_header p (Some (height_of (v hd) - 1)) (source st) Hkp) as [s' ->].
  rewrite validate_reported, Hb by done. eexists. split_and!; [done|done|by eexists|done].
Qed.

Lemma difference_served fuel cur prev D C st :
  cache_of_tree (header_cache st) -> of_tree cur -> of_tree prev ->
  height_of cur + height_of prev < Z.of_nat fuel -> Forall of_tree D -> Forall of_tree C ->
  exists d st', find_difference_loop src network fuel cur prev D C st = (Ret (Ok d), st') /\
    Forall of_tree (disconnected_blocks d) /\ Forall of_tree (connected_blocks d).
Proof.
  revert cur prev D C st. induction fuel as [|fuel IH]; intros cur prev D C st Hc Hcur Hprev Hf HD HC.
  { apply of_tree_height in Hcur, Hprev. lia. }
  pose proof (of_tree_height _ Hcur) as Hc0. pose proof (of_tree_height _ Hprev) as Hp0.
  cbn [find_difference_loop]. case_decide as Eh.
  { eexists _, _. split; [reflexivity|]. done. }
  assert (Hpos : 0 < height_of cur \/ 0 < height_of prev).
  { destruct (decide (0 < height_of cur)); [by left|]. destruct (decide (0 < height_of prev)); [by right|].
    exfalso. apply Eh. destruct Hcur as (a & Ka & ->), Hprev as (b & Kb & ->). cbn in *.
    rewrite (serves_genesis a Ka), (serves_genesis b Kb); [done|unfold height_of in *; cbn in *; lia..]. }
  destruct (Z.leb_spec (height_of cur) (height_of prev)) as [Hle|Hgt].
  - destruct (previous_served prev st Hc Hprev) as (p & st1 & Ep & [Fc1 _] & Hp & Hhp); [lia|].
    unfold bind_ok at 1 2, mbind at 1 2, prog_bind at 1 2. rewrite Ep. cbn [mret prog_ret].
    destruct (Z.geb_spec (height_of cur) (height_of prev)) as [Hge|Hlt].
    + destruct (previous_served cur st1) as (c & st2 & Ec & [Fc2 _] & Hcc & Hhc); [by rewrite Fc1|done|lia|].
      unfold bind_ok at 1 2, mbind at 1 2, prog_bind at 1 2. rewrite Ec. cbn [mret prog_ret fst snd].
      apply IH; [by rewrite Fc2, Fc1|done|done|lia|by apply Forall_app_2; auto|by apply Forall_app_2; auto].
    + unfold bind_ok at 1, mbind at 1, prog_bind at 1. cbn [mret prog_ret fst snd].
      apply IH; [by rewrite Fc1|done|done|lia|by apply Forall_app_2; auto|done].
  - unfold bind_ok at 1, mbind at 1, prog_bind at 1. cbn [mret prog_ret].
    destruct (Z.geb_spec (height_of cur) (height_of prev)) as [Hge|Hlt]; [|lia].
    destruct (previous_served cur st Hc Hcur) as (c & st2 & Ec & [Fc2 _] & Hcc & Hhc); [lia|].
    unfold bind_ok at 1 2, mbind at 1 2, prog_bind at 1 2. rewrite Ec. cbn [mret prog_ret fst snd].
    apply IH; [by rewrite Fc2|done|done|lia|done|by apply Forall_app_2; auto].
Qed.

Lemma disconnect_served l st :
  cache_of_tree (header_cache st) -> Forall of_tree l ->
  exists st', disconnect_blocks l st = (Ret tt, st') /\ cache_of_tree (header_cache st').
Proof.
  revert st. induction l as [|h l IH]; intros st Hc Hl; cbn [disconnect_blocks]; [by eexists|].
  apply Forall_cons in Hl as [Hh Hl]. unfold mbind, prog_bind, disconnect_block.
  destruct (header_cache st !! block_hash h) as [c|] eqn:E; [|by apply IH].
  destruct (Hc _ _ E) as [Hb Ht]. rewrite decide_True by (by apply of_tree_inj).
  apply IH; [|done]. intros k x Hk. cbn in Hk. apply lookup_delete_Some in Hk as [_ Hk]. by apply Hc.
Qed.

Lemma fetch_served h st : of_tree h -> exists b st', fetch_block src h st = (Ret (Ok b), st') /\ only_asked st st'.
Proof.
  intros (hd & Hk & ->). unfold fetch_block, bind_ok, mbind, prog_bind, ask, mret, prog_ret.
  cbn [block_hash reported].
  destruct (serves_block hd (source st) Hk) as (b & s' & -> & Hb & Hm & Hw). exists b.
  unfold validate_block. rewrite Hb, (serves_pow hd Hk), Hm, Hw. cbn.
  rewrite decide_False by (intros H; apply H; reflexivity). by eexists.
Qed.

Lemma connect_served tip l st : Forall of_tree l -> exists st', connect_loop src tip l st = (Ret (Ok tt), st').
Proof.
  revert tip st. induction l as [|h l IH]; intros tip st Hl; cbn [connect_loop]; [by eexists|].
  apply Forall_cons in Hl as [Hh Hl]. destruct (fetch_served h st Hh) as (b & st1 & E & _).
  erewrite prog_bind_Ret by exact E. cbv beta iota. erewrite prog_bind_Ret by reflexivity. by apply IH.
Qed.

Lemma sync_served fuel new old st :
  cache_of_tree (header_cache st) -> of_tree new -> of_tree old ->
  height_of new + height_of old < Z.of_nat fuel ->
  exists st', synchronize_listener src network fuel new old st = (Ret (Ok tt), st').
Proof.
  intros Hc Hn Ho Hf. unfold synchronize_listener.
  destruct (difference_served fuel new old [] [] st Hc Hn Ho Hf) as (d & st1 & E & HD & HC); [done..|].
  pose proof (difference_only _ _ _ _ _ _ _ _ _ _ E) as [Fc _].
  erewrite prog_bind_Ret by exact E. cbv beta iota.
  destruct (disconnect_served (disconnected_blocks d) st1) as (st2 & E2 & _); [by rewrite Fc|done|].
  erewrite prog_bind_Ret by exact E2. apply connect_served.
  rewrite Forall_forall in *. intros x Hx. apply HC. by apply list_elem_of_In, in_rev, list_elem_of_In in Hx.
Qed.

(** Progress: from any tip of the tree the source serves, one poll of a source whose
    best tip has more work returns that tip, without a panic and within as many steps as
    the two heights together, and leaves the listener at it. *)
Theorem spv_client_reaches_tip fuel tip st t0 :
  of_tree tip -> cache_of_tree (header_cache st) ->
  replay_all t0 (heard st) = Some (block_hash tip) ->
  chainwork (inner tip) < chainwork (data best) ->
  height (data best) + height_of tip < Z.of_nat fuel ->
  exists st', poll_best_tip src network fuel tip st = (Ret (Ok (v best, Better (v best), true)), st') /\
    replay_all t0 (heard st') = Some (header_hash best).
Proof.
  intros Ht Hc Hr Hw Hf. destruct serves_best as [Hbest Hserve].
  assert (Hb : of_tree (v best)) by by eexists.
  assert (Hne : block_hash (v best) <> block_hash tip).
  { intros E. apply of_tree_inj in E; [|done..]. rewrite <- E in Hw. cbn in Hw. lia. }
  destruct (Hserve (source st)) as (hint & s1 & E1).
  destruct (serves_header best hint s1 Hbest) as (s2 & E2).
  assert (Epoll : poll_chain_tip src tip st = (Ret (Ok (Better (v best))), mkSync s2 (header_cache st) (heard st))).
  { unfold poll_chain_tip, bind_ok, mbind, prog_bind, ask, mret, prog_ret. rewrite E1.
    cbn [source header_cache heard fst snd].
    rewrite decide_False; [|intros E; apply Hne; rewrite <- (of_tree_valid tip Ht); exact E].
    cbn [source header_cache heard]. rewrite E2, (validate_reported best Hbest). cbn [inner reported].
    by destruct (Z.gtb_spec (chainwork (data best)) (chainwork (inner tip))); [|lia]. }
  set (st1 := mkSync s2 (header_cache st) (heard st)) in *.
  destruct (sync_served fuel (v best) tip st1) as (st' & Es); [done..|].
  exists st'. split.
  - unfold poll_best_tip, bind_ok. erewrite prog_bind_Ret by exact Epoll. cbv beta iota.
    rewrite decide_False by done. cbn [inner reported].
    destruct (Z.leb_spec (chainwork (data best)) (chainwork (inner tip))); [lia|].
    unfold update_chain_tip, mbind, prog_bind. rewrite Es. done.
  - eapply sync_replay in Es as (_ & k & Hk & ->); [exact Hk|by apply cache_of_tree_ok|by apply of_tree_valid..|exact Hr].
Qed.
End Live.

(** ** On the toy chain *)

Global Instance toy_serves :
  Serves toy_source Regtest (fun h => True) toy_data [] [5; 4; 1].
Proof.
  split.
  - intros hd. cbn. split; [done|lia].
  - intros [|x hd] _ H; [done|]. cbn in H. lia.
  - intros [|x hd] _ H; cbn in H; [lia|]. exists hd. split_and!; [done..|].
    unfold check_builds_on. rewrite decide_False by (intros E; by apply E).
    unfold height_of, reported, toy_data. cbn [inner height chainwork header length].
    rewrite Nat2Z.inj_succ, <- Z.add_1_r. cbn [work toy_header]. by rewrite Z.eqb_refl.
  - done.
  - intros hd hint s _. by eexists.
  - intros hd s _. by eexists _, _.
  - split; [done|]. intros s. by eexists _, _.
Qed.

Lemma spv_client_reaches_tip_witness :
  exists st', poll_best_tip toy_source Regtest 6 (toy_validated [3; 1]) toy_start =
      (Ret (Ok (toy_validated [5; 4; 1], Better (toy_validated [5; 4; 1]), true)), st') /\
    replay_all (Some (Some [3; 1])) (heard st') = Some (Some [5; 4; 1]).
Proof.
  refine (spv_client_reaches_tip toy_source Regtest (fun _ => True) toy_data [] [5; 4; 1] 6
    (toy_validated [3; 1]) toy_start (Some (Some [3; 1])) _ _ _ _ _).
  - by exists [3; 1].
  - intros k h H. vm_compute in H. discriminate.
  - reflexivity.
  - reflexivity.
  - reflexivity.
Defined.
