(* ===== verification/BlockInit.v ===== *)
(** * BlockInit: rust-lightning/lightning-block-sync/src/init.rs

    At start-up every channel monitor and the channel manager may have been written at a
    different block.  [synchronize_listeners] takes them all to the best tip: each goes back
    to its own fork point, then the blocks of the longest way up are fetched once and told to
    every listener that has not seen them.  Listeners are numbered; what each was told is kept
    apart. *)

From S2P Require Import Prelude Text Json App BlockSync BlockSyncSpec.

Local Open Scope Z_scope.

Section Source.
Context {BlockHash Header Block : Type} `{!HeaderApi BlockHash Header Block}.
Context {S : Type} (src : BlockSource (Block := Block) (BlockHash := BlockHash) (Header := Header) S)
  (network : Network).

Abbreviation VH := (ValidatedBlockHeader (BlockHash := BlockHash) (Header := Header)).
Abbreviation event := (listen_event (Header := Header) (Block := Block)).
Abbreviation sync := (sync (BlockHash := BlockHash) (Header := Header) (Block := Block) (S := S)).

(** The source's state, the header cache, and the calls made on each listener. *)
Record inits := mkInits {
  shared_source : S;
  shared_cache : gmap BlockHash VH;
  told : list (list event);
}.

Abbreviation fallible A := (prog inits (result A BlockSourceError)).

(** Calls that reach no listener. *)
Definition unheard {A} (m : prog sync A) : prog inits A :=
  fun st => let '(o, s) := m (mkSync (shared_source st) (shared_cache st) []) in (o, mkInits (source s) (header_cache s) (told st)).

Definition validate_best_block_header : prog sync (result VH BlockSourceError) :=
  let? best := ask (get_best_block _ src) in
  let? data := ask (get_header _ src best.1 best.2) in
  mret (validate_header data best.1).

(** The header a listener was left at. *)
Definition old_header (old_block_hash : BlockHash) : prog sync (result VH BlockSourceError) :=
  cached ← gets (fun st => header_cache st !! old_block_hash);
  match cached with
  | Some h => mret (Ok h)
  | None => let? data := ask (get_header _ src old_block_hash None) in mret (validate_header data old_block_hash)
  end.

Fixpoint old_headers (chain_listeners : list BlockHash) : fallible (list VH) :=
  match chain_listeners with
  | [] => mret (Ok [])
  | k :: ks => let? h := unheard (old_header k) in let? hs := old_headers ks in mret (Ok (h :: hs))
  end.

(** [disconnect_blocks] with a [ReadOnlyCache], which removes nothing. *)
Definition disconnected (h : VH) : event := Disconnected (header (inner h)) (height_of h).
Definition disconnect_read_only (l : list VH) : prog sync unit :=
  modify (fun st => mkSync (source st) (header_cache st) (heard st ++ (disconnected <$> l))).

(** Calls on the listener [k], through [DynamicChainListener]. *)
Definition hearing {A} (k : nat) (m : prog sync A) : prog inits A :=
  fun st =>
    let '(o, s) := m (mkSync (shared_source st) (shared_cache st) (default [] (told st !! k))) in
    (o, mkInits (source s) (header_cache s) (<[k := heard s]> (told st))).

(** The loop over the listeners, with the most common ancestor and its way up. *)
Fixpoint disconnect_listeners (fuel : nat) (best_header : VH) (k : nat) (olds : list VH)
    (heights : list Z) (most_common_ancestor : option VH) (most_connected_blocks : list VH) :
    fallible (list Z * option VH * list VH) :=
  match olds with
  | [] => mret (Ok (heights, most_common_ancestor, most_connected_blocks))
  | old :: olds' =>
      let? d := hearing k (let? d := find_difference src network fuel best_header old in
                           _ ← disconnect_read_only (disconnected_blocks d); mret (Ok d)) in
      let heights := heights ++ [height_of (common_ancestor d)] in
      if (length most_connected_blocks <? length (connected_blocks d))%nat
      then disconnect_listeners fuel best_header (Datatypes.S k) olds' heights (Some (common_ancestor d)) (connected_blocks d)
      else disconnect_listeners fuel best_header (Datatypes.S k) olds' heights most_common_ancestor most_connected_blocks
  end.

(** [ChainListenerSet]: a listener is told of the blocks above its height. *)
Definition event_height (e : event) : Z := match e with Connected _ h | Disconnected _ h => h end.
Definition tell_above (starting_height : Z) (before new : list event) : list event :=
  before ++ filter (fun e => starting_height < event_height e) new.
Definition to_set {A} (heights : list Z) (m : prog sync A) : prog inits A :=
  fun st =>
    let '(o, s) := m (mkSync (shared_source st) (shared_cache st) []) in
    (o, mkInits (source s) (header_cache s) (zip_with (fun h b => tell_above h b (heard s)) heights (told st))).

Definition synchronize_listeners (fuel : nat) (chain_listeners : list BlockHash) : fallible VH :=
  let? best_header := unheard validate_best_block_header in
  let? olds := old_headers chain_listeners in
  let? found := disconnect_listeners fuel best_header 0 olds [] None [] in
  let '(heights, most_common_ancestor, most_connected_blocks) := found in
  match most_common_ancestor with
  | Some common_ancestor =>
      r ← to_set heights (connect_blocks src common_ancestor most_connected_blocks);
      match r with Err (e, _) => mret (Err e) | Ok _ => mret (Ok best_header) end
  | None => mret (Ok best_header)
  end.
End Source.

(** ** What is relied on *)

Section Spec.
Context {BlockHash Header Block : Type} `{!HeaderApi BlockHash Header Block} `{!HeaderLaws BlockHash Header Block}.
Context {S : Type} (src : BlockSource (Block := Block) (BlockHash := BlockHash) (Header := Header) S)
  (network : Network).

Abbreviation VH := (ValidatedBlockHeader (BlockHash := BlockHash) (Header := Header)).
Abbreviation event := (listen_event (Header := Header) (Block := Block)).
Abbreviation sync := (sync (BlockHash := BlockHash) (Header := Header) (Block := Block) (S := S)).
Abbreviation inits := (inits (BlockHash := BlockHash) (Header := Header) (Block := Block) (S := S)).
Implicit Types (h cur prev anc best : VH) (st : inits) (k old : BlockHash) (es : list event).

Definition cache_of (G : VH -> Prop) (c : gmap BlockHash VH) : Prop := forall k h, c !! k = Some h -> block_hash h = k /\ G h.

(** Headers [G] whose heights can be trusted: they go down by one with every step back, and
    the source answers with nothing else, asked for [starts] and what is before them. *)
Class Trusted (G : VH -> Prop) (starts : BlockHash -> Prop) := {
  trusted_valid : forall h, G h -> valid h;
  trusted_down : forall h p, G h -> G p -> block_hash p = prev_of h -> height_of p = height_of h - 1;
  trusted_same : forall h h', G h -> G h' -> block_hash h = block_hash h' -> height_of h = height_of h';
  trusted_previous : forall h (s : sync) p s', cache_of G (header_cache s) -> G h -> look_up_previous_header src network h s = (Ret (Ok p), s') -> G p;
  trusted_header : forall k hint s d s' h, starts k -> get_header _ src k hint s = (Ok d, s') -> validate_header d k = Ok h -> G h;
  trusted_best : forall s k hint s', get_best_block _ src s = (Ok (k, hint), s') -> starts k;
}.

(** ** Ways back *)

Ltac ok_step H :=
  let a := fresh "a" in let s := fresh "s" in let E := fresh "E" in let Hn := fresh "Hn" in
  apply bind_ok_inv in H as [(a & s & E & H)|(? & _ & _ & Hn)]; [|exfalso; by eapply Hn].

Section Walks.
Context (G : VH -> Prop) (starts : BlockHash -> Prop) `{!Trusted G starts}.

Lemma cache_of_ok c : cache_of G c -> cache_ok c.
Proof. intros H k h Hk. destruct (H k h Hk) as [Hb Hg]. split; [done|by apply trusted_valid]. Qed.

Lemma difference_trusted fuel cur prev D C (s : sync) d s' :
  cache_of G (header_cache s) -> G cur -> G prev -> Forall G C ->
  find_difference_loop src network fuel cur prev D C s = (Ret (Ok d), s') -> Forall G (connected_blocks d) /\ G (common_ancestor d).
Proof.
  revert cur prev D C s. induction fuel as [|fuel IH]; intros cur prev D C s Hc Hcur Hprev HC H; cbn [find_difference_loop] in H; [done|].
  case_decide; [unfold mret, prog_ret in H; simplify_eq; by split|]. ok_step H.
  assert (H1 : only_asked s s0 /\ G a.2).
  { destruct (_ <=? _); [|unfold mret, prog_ret in E; simplify_eq; by split]. ok_step E. unfold mret, prog_ret in E. simplify_eq. split; [by eapply previous_only|by eapply trusted_previous]. }
  destruct H1 as [[Hc1 _] Hg1]. rewrite <- Hc1 in Hc. ok_step H.
  assert (H2 : only_asked s0 s1 /\ G a0.2 /\ Forall G a0.1).
  { destruct (_ >=? _); [|unfold mret, prog_ret in E0; simplify_eq; by split]. ok_step E0. unfold mret, prog_ret in E0. simplify_eq.
    split_and!; [by eapply previous_only|eapply trusted_previous; [exact Hc|exact Hcur|eassumption]|by apply Forall_app_2; auto]. }
  destruct H2 as ([Hc2 _] & Hg2 & Hl2). eapply IH; [|exact Hg2|exact Hg1|exact Hl2|exact H]. by rewrite Hc2.
Qed.

Lemma path_take h (l : list VH) k j : path h l k -> exists k', path h (take j l) k'.
Proof.
  revert h j. induction l as [|x l IH]; intros h j Hp; [rewrite take_nil; by exists k|]. destruct j as [|j]; [by exists (block_hash h)|].
  cbn in Hp |- *. destruct Hp as (-> & Hv & h' & Eh & Hv' & Hp). destruct (IH h' j Hp) as [k' Hk']. exists k'. split_and!; [done|done|]. by exists h'.
Qed.

(** Headers with the same hash have the same ancestors. *)
Lemma path_unique h h2 (l l2 : list VH) k k2 :
  path h l k -> path h2 l2 k2 -> block_hash h = block_hash h2 -> length l = length l2 -> k = k2.
Proof.
  revert h h2 l2. induction l as [|x l IH]; intros h h2 [|y l2] Hp Hp2 Eh El; try done; cbn in Hp, Hp2; [congruence|].
  destruct Hp as (-> & Hv & h' & Eh' & _ & Hp), Hp2 as (-> & Hv2 & h2' & Eh2' & _ & Hp2). cbn in El. eapply IH; [exact Hp|exact Hp2| |lia].
  rewrite Eh', Eh2'. unfold prev_of. f_equal. apply header_hash_inj. unfold valid in Hv, Hv2. congruence.
Qed.

(** Heights go down along a way back. *)
Lemma path_heights h (l : list VH) anc :
  path h l (block_hash anc) -> G h -> Forall G l -> G anc ->
  height_of anc = height_of h - Z.of_nat (length l) /\ forall i x, l !! i = Some x -> height_of x = height_of h - Z.of_nat i.
Proof.
  revert h. induction l as [|y l IH]; intros h Hp Hh Hl Ha; cbn in Hp; [split; [rewrite (trusted_same h anc) by done; cbn; lia|done]|].
  destruct Hp as (-> & Hv & h' & Eh & Hv' & Hp). apply Forall_cons in Hl as [_ Hl].
  assert (exists g, G g /\ block_hash g = block_hash h' /\ path g l (block_hash anc)) as (g & Hg & Eg & Hpg).
  { destruct l as [|x l]; [by exists anc|]. destruct Hp as (-> & Hp). exists h'. apply Forall_cons in Hl as [Hx _]. by split_and!. }
  destruct (IH g Hpg Hg Hl Ha) as [E1 E2]. pose proof (trusted_down h g Hh Hg ltac:(congruence)) as Hd. split; [cbn [length]; lia|].
  intros [|i] x Hx; cbn in Hx; [injection Hx as <-; lia|]. rewrite (E2 i x Hx). lia.
Qed.

(** ** What listeners are told *)

Lemma replay_disconnected h (l : list VH) k : path h l k -> replay_all (Some (block_hash h)) (disconnected (Block := Block) <$> l) = Some k.
Proof.
  revert h. induction l as [|x l IH]; intros h Hp; cbn in Hp; [by subst|]. destruct Hp as (-> & Hv & h' & Eh & Hv' & Hp).
  unfold replay_all. cbn. rewrite decide_True by exact Hv. fold (prev_of h). rewrite <- Eh. by apply IH.
Qed.

Definition tells (e : event) h : Prop := exists b, e = Connected b (height_of h) /\ block_header b = header (inner h).

Lemma replay_tells es (l : list VH) k : up k l -> Forall2 tells es l -> replay_all (Some k) es = Some (default k (block_hash <$> last l)).
Proof.
  intros Hu Hf. revert k Hu. induction Hf as [|e x es l (b & -> & Hb) _ IH]; intros k Hu; [done|]. destruct Hu as (Ep & Hv & Hu).
  unfold replay_all. cbn. rewrite Hb, decide_True by exact Ep. unfold valid in Hv. rewrite Hv. rewrite last_cons. etrans; [by apply IH|]. by destruct (last l).
Qed.

Lemma connect_tells anc (l : list VH) (s : sync) o s' : Forall valid l -> connect_loop src anc l s = (o, s') ->

  exists m new, (m <= length l)%nat /\ heard s' = heard s ++ new /\ Forall2 tells new (take m l) /\
    exists r, o = Ret r /\ (is_ok r = true -> m = length l).
Proof.
  revert anc s. induction l as [|x l IH]; intros anc s Hv E; cbn [connect_loop] in E.
  { injection E as <- <-. exists 0%nat, []. rewrite List.app_nil_r. split_and!; [done|done|constructor|eexists; by split]. }
  apply Forall_cons in Hv as [Hx Hv]. unfold mbind at 1, prog_bind at 1 in E. destruct (fetch_block src x s) as [o1 s1] eqn:E1.
  pose proof (fetch_only _ _ _ _ _ E1) as [_ Fh]. assert (exists r, o1 = Ret r) as [r ->].
  { unfold fetch_block, bind_ok, mbind, prog_bind, ask, mret, prog_ret in E1. destruct (get_block _ _ _ _) as [[]]; injection E1 as <- _; by eexists. }
  destruct r as [b|e].
  - apply fetch_ok in E1; [|done]. erewrite prog_bind_Ret in E by reflexivity. apply IH in E as (m & new & Hm & Hh & Hf & r & -> & Hr); [|done].
    exists (Datatypes.S m), (Connected b (height_of x) :: new). cbn [heard] in Hh. rewrite Hh, Fh, <- (assoc_L (++)). split_and!; [cbn; lia|done| |].
    + cbn. constructor; [by exists b|done].
    + exists r. split; [done|]. intros. cbn. auto.
  - injection E as <- <-. exists 0%nat, []. rewrite List.app_nil_r. split_and!; [lia|done|constructor|eexists; by split].
Qed.
(** ** One listener *)

(** A listener that was at [old] has gone back to an ancestor of [best] at [height], at most
    [n] blocks below. *)
Definition at_fork best (n : nat) old (height : Z) es : Prop :=
  exists C anc, G anc /\ Forall G C /\ path best C (block_hash anc) /\ (length C <= n)%nat /\
    replay_all (Some old) es = Some (block_hash anc) /\ height = height_of anc.

Lemma at_fork_more best n n' old height es : (n <= n')%nat -> at_fork best n old height es -> at_fork best n' old height es.
Proof. intros Hn (C & anc & ? & ? & ? & ? & ? & ?). exists C, anc. split_and!; [done..|lia|done|done]. Qed.

Lemma tells_filter es (l : list VH) (start : Z) : Forall2 tells es l ->
  Forall2 tells (filter (fun e => start < event_height e) es) (filter (fun x => start < height_of x) l).
Proof.
  induction 1 as [|e x es l He _ IH]; [constructor|]. destruct He as (b & -> & Hb). rewrite !filter_cons. cbn [event_height].
  case_decide; [constructor; [by exists b|done]|done].
Qed.

Lemma filter_all {A} (P : A -> Prop) `{forall x, Decision (P x)} (l : list A) : Forall P l -> filter P l = l.
Proof. induction 1 as [|x l Hx _ IH]; [done|]. by rewrite filter_cons_True, IH. Qed.
Lemma filter_none {A} (P : A -> Prop) `{forall x, Decision (P x)} (l : list A) : Forall (fun x => ~ P x) l -> filter P l = [].
Proof. induction 1 as [|x l Hx _ IH]; [done|]. by rewrite filter_cons_False. Qed.

(** Of the way up from a deeper ancestor, the part above the listener's is the rest of its own. *)
Lemma above_fork best (blocks C : list VH) anc anc' (m : nat) :
  G best -> path best blocks (block_hash anc') -> Forall G blocks -> G anc' ->
  path best C (block_hash anc) -> Forall G C -> G anc -> (length C <= length blocks)%nat ->
  let own := rev (take (length C) blocks) in
  up (block_hash anc) own /\ default (block_hash anc) (block_hash <$> last own) = block_hash best /\
  filter (fun x => height_of anc < height_of x) (take m (rev blocks)) = take (m - (length blocks - length C)) own.
Proof.
  intros Hb Hp HG Ha' HpC HGC Ha Hle own. destruct (path_take best blocks (block_hash anc') (length C) Hp) as [k Hk].
  assert (k = block_hash anc) as -> by (eapply path_unique; [exact Hk|exact HpC|done|rewrite length_take; lia]).
  destruct (path_up _ _ _ Hk) as [Hu Hl]. split_and!; [done|done|].
  destruct (path_heights best blocks anc' Hp Hb HG Ha') as [_ Hh]. destruct (path_heights best C anc HpC Hb HGC Ha) as [Ea _].
  assert (Er : rev blocks = rev (drop (length C) blocks) ++ own) by (unfold own; by rewrite <- List.rev_app_distr, take_drop).
  rewrite Er, take_app, filter_app. rewrite filter_none, filter_all; [rewrite length_rev, length_drop; done|..].
  - apply Forall_take, Forall_rev, Forall_lookup. intros i x Hx. apply lookup_take_Some in Hx as [Hx Hi]. rewrite (Hh i x Hx). lia.
  - apply Forall_take, Forall_rev, Forall_lookup. intros i x Hx. rewrite lookup_drop in Hx. rewrite (Hh _ x Hx). lia.
Qed.

Lemma told_above best (blocks : list VH) anc' (m : nat) new old height es :
  G best -> path best blocks (block_hash anc') -> Forall G blocks -> G anc' ->
  Forall2 tells new (take m (rev blocks)) -> at_fork best (length blocks) old height es ->
  exists k, replay_all (Some old) (tell_above height es new) = Some k /\ (m = length blocks -> k = block_hash best).
Proof.
  intros Hb Hp HG Ha' Hf (C & anc & Ha & HGC & HpC & Hle & Hr & ->). destruct (above_fork best blocks C anc anc' m) as (Hu & Hl & Efilter); [done..|].
  set (own := rev (take (length C) blocks)) in *. apply (tells_filter _ _ (height_of anc)) in Hf. rewrite Efilter in Hf.
  unfold tell_above. rewrite replay_all_app, Hr. eexists. split; [apply replay_tells; [|exact Hf]|].
  - rewrite <- (take_drop (m - (length blocks - length C)) own) in Hu. by apply up_app in Hu as [Hu _].
  - intros ->. rewrite take_ge; [done|]. unfold own. rewrite length_rev, length_take. lia.
Qed.

(** ** All listeners *)

Definition walked old es : Prop := exists k, replay_all (Some old) es = Some k.

Lemma unheard_told {A} (m : prog sync A) st o st' : keeps only_asked m -> unheard m st = (o, st') -> told st' = told st /\ shared_cache st' = shared_cache st.
Proof. intros Hm E. unfold unheard in E. destruct (m _) as [o1 s1] eqn:E1. injection E as <- <-. apply Hm in E1 as [E1 _]. done. Qed.

#[local] Hint Resolve ask_only : keeps.
Lemma best_only : keeps only_asked (validate_best_block_header src).
Proof. unfold validate_best_block_header. solve_keeps. Qed.
Lemma old_only k : keeps only_asked (old_header src k).
Proof. unfold old_header. solve_keeps. Qed.

Lemma best_trusted (s : sync) best s' : validate_best_block_header src s = (Ret (Ok best), s') -> G best.
Proof.
  intros E. unfold validate_best_block_header in E. ok_step E. ok_step E. unfold ask in E0, E1. destruct (get_best_block _ _ _) as [r1 s2] eqn:E2. injection E0 as -> <-.
  destruct (get_header _ _ _ _ _) as [r3 s3] eqn:E3. injection E1 as -> <-. injection E as E _. destruct a as [k hint]. apply trusted_best in E2. by eapply trusted_header.
Qed.

Lemma old_trusted k (s : sync) h s' : starts k -> cache_of G (header_cache s) -> old_header src k s = (Ret (Ok h), s') -> block_hash h = k /\ G h.
Proof.
  intros Hk Hc E. unfold old_header in E. erewrite prog_bind_Ret in E by reflexivity. destruct (header_cache s !! k) as [c|] eqn:Ec; [injection E as <- <-; by apply Hc|].
  ok_step E. unfold ask in E0. destruct (get_header _ _ _ _ _) as [r3 s3] eqn:E3. injection E0 as -> <-. injection E as E _. split; [by apply validate_header_ok in E as [-> _]|by eapply trusted_header].
Qed.

Lemma olds_trusted ks st o st' : Forall starts ks -> cache_of G (shared_cache st) -> old_headers src ks st = (o, st') ->
  told st' = told st /\ shared_cache st' = shared_cache st /\ forall hs, o = Ret (Ok hs) -> Forall2 (fun k h => block_hash h = k /\ G h) ks hs.
Proof.
  revert st o st'. induction ks as [|k ks IH]; intros st o st' Hs Hc E; cbn [old_headers] in E; [injection E as <- <-; split_and!; [done..|]; by intros hs [= <-]|].
  apply Forall_cons in Hs as [Hk Hs]. apply bind_ok_inv in E as [(h & s1 & E1 & E)|(o1 & E1 & _ & Hno)].
  - pose proof (unheard_told _ _ _ _ (old_only k) E1) as [T1 C1]. apply bind_ok_inv in E as [(hs & s2 & E2 & E)|(o2 & E2 & _ & Hno)].
    + apply IH in E2 as (T2 & C2 & H2); [|done|by rewrite C1]. injection E as <- <-. split_and!; [congruence..|]. intros ? [= <-]. constructor; [|by apply H2].
      unfold unheard in E1. destruct (old_header src k _) as [o3 s3] eqn:E3. injection E1 as -> _. by eapply old_trusted in E3.
    + apply IH in E2 as (T2 & C2 & _); [|done|by rewrite C1]. split_and!; [congruence..|]. intros hs ->. by destruct (Hno hs).
  - apply unheard_told in E1 as [T1 C1]; [|apply old_only]. split_and!; [done..|]. intros hs ->. by destruct (Hno hs).
Qed.

(** Going back, for one listener. *)
Lemma hearing_fork fuel best h (k : nat) st o st' :
  cache_of G (shared_cache st) -> G best -> G h -> told st !! k = Some [] ->
  hearing k (let? d := find_difference src network fuel best h in _ ← disconnect_read_only (disconnected_blocks d); mret (Ok d)) st = (o, st') ->
  shared_cache st' = shared_cache st /\ exists es, told st' = <[k := es]> (told st) /\ walked (block_hash h) es /\
    forall d, o = Ret (Ok d) ->
      path best (connected_blocks d) (block_hash (common_ancestor d)) /\ Forall G (connected_blocks d) /\ G (common_ancestor d) /\
      at_fork best (length (connected_blocks d)) (block_hash h) (height_of (common_ancestor d)) es.
Proof.
  intros Hc Hb Hh Hk E. unfold hearing in E. rewrite Hk in E. change (default [] (Some [])) with ([] : list event) in E. set (s0 := mkSync (shared_source st) (shared_cache st) []) in *. destruct (bind_ok _ _ _) as [o1 s1] eqn:E1. injection E as <- <-.
  apply bind_ok_inv in E1 as [(d & s2 & E1 & E2)|(o2 & E1 & _ & Hno)]; pose proof (difference_only _ _ _ _ _ _ _ _ _ _ E1) as [Fc Fh].
  - injection E2 as <- <-. cbn [shared_cache told header_cache heard]. split; [done|]. eexists. split; [done|]. rewrite Fh. cbn [heard s0 Datatypes.app].
    destruct (difference_ok _ _ _ _ _ _ _ s0 _ _ (cache_of_ok _ Hc) (trusted_valid best Hb) (trusted_valid h Hh) E1) as (D & C & Ed & Ec & Pd & Pc & _). cbn in Ed, Ec. subst D C.
    destruct (difference_trusted _ _ _ _ _ s0 _ _ Hc Hb Hh (Forall_nil_2 _) E1) as [HG Ha]. apply replay_disconnected in Pd. split; [by eexists|].
    intros d' [= <-]. split_and!; [done..|]. exists (connected_blocks d), (common_ancestor d). by split_and!.
  - cbn [shared_cache told]. split; [done|]. eexists. split; [done|]. rewrite Fh. cbn. split; [by eexists|]. intros d ->. by destruct (Hno d).
Qed.

(** What the loop has found: the deepest fork point, and every listener at its own. *)
Definition found best (heights : list Z) (most : option VH) (blocks : list VH) : Prop :=
  match most with
  | Some anc => path best blocks (block_hash anc) /\ Forall G blocks /\ G anc
  | None => blocks = []
  end.

Lemma fork_walked best n olds heights ess : Forall3 (at_fork best n) olds heights ess -> Forall2 walked olds ess.
Proof. induction 1 as [|old ht es olds heights ess (C & anc & _ & _ & _ & _ & Hr & _) _ IH]; constructor; [by eexists|done]. Qed.

Lemma fork_more best n n' olds heights ess : (n <= n')%nat -> Forall3 (at_fork best n) olds heights ess -> Forall3 (at_fork best n') olds heights ess.
Proof. intros Hn. induction 1; constructor; [by eapply at_fork_more|done]. Qed.

Lemma start_walked (hs : list VH) : Forall2 walked (block_hash <$> hs) (replicate (length hs) []).
Proof. induction hs as [|h hs IH]; cbn; constructor; [by eexists|done]. Qed.

Lemma loop_forks fuel best olds hs heights most blocks pre st o st' :
  cache_of G (shared_cache st) -> G best -> Forall G hs ->
  told st = pre ++ replicate (length hs) [] -> found best heights most blocks -> Forall3 (at_fork best (length blocks)) olds heights pre ->
  disconnect_listeners src network fuel best (length pre) hs heights most blocks st = (o, st') ->
  shared_cache st' = shared_cache st /\ Forall2 walked (olds ++ (block_hash <$> hs)) (told st') /\
  forall heights' most' blocks', o = Ret (Ok (heights', most', blocks')) ->
    found best heights' most' blocks' /\ Forall3 (at_fork best (length blocks')) (olds ++ (block_hash <$> hs)) heights' (told st').
Proof.
  revert olds heights most blocks pre st. induction hs as [|h hs IH]; intros olds heights most blocks pre st Hc Hb Hg Ht Hfound Hpre E; cbn [disconnect_listeners] in E.
  { injection E as <- <-. cbn in Ht |- *. rewrite List.app_nil_r in Ht |- *. rewrite Ht. split_and!; [done|by eapply fork_walked|]. intros ??? [= <- <- <-]. done. }
  apply Forall_cons in Hg as [Hh Hg]. apply bind_ok_inv in E as [(d & s1 & E1 & E)|(o1 & E1 & _ & Hno)].
  all: apply hearing_fork in E1 as (C1 & es & T1 & W1 & Hd); [|done|done|done|rewrite Ht, lookup_app_r by done; by rewrite Nat.sub_diag].
  all: assert (T2 : told _ = (pre ++ [es]) ++ replicate (length hs) [])
    by (rewrite T1, Ht, insert_app_r_alt, Nat.sub_diag by done; cbn; by rewrite <- (assoc_L (++))); clear T1.
  - destruct (Hd d eq_refl) as (Hp & HG & Ha & Hf). replace (Datatypes.S (length pre)) with (length (pre ++ [es])) in E by (rewrite length_app; cbn; lia).
    change (block_hash <$> h :: hs) with ([block_hash h] ++ (block_hash <$> hs)). rewrite (assoc_L (++)), <- C1.
    destruct (Nat.ltb_spec (length blocks) (length (connected_blocks d))) as [Hlt|Hge]; (eapply IH in E; [exact E|by rewrite C1|done|done|exact T2|..]).
    + by split_and!.
    + apply Forall3_app; [eapply fork_more; [|exact Hpre]; lia|by constructor; [|constructor]].
    + done.
    + apply Forall3_app; [done|]. constructor; [by eapply at_fork_more|constructor].
  - split; [done|]. split; [|intros ??? ->; by destruct (Hno (heights', most', blocks'))]. rewrite T2, <- (assoc_L (++)). cbn. apply Forall2_app; [by eapply fork_walked|].
    constructor; [done|apply start_walked].
Qed.

Lemma set_walked best (blocks : list VH) anc (m : nat) new olds heights ess :
  G best -> path best blocks (block_hash anc) -> Forall G blocks -> G anc -> Forall2 tells new (take m (rev blocks)) ->
  Forall3 (at_fork best (length blocks)) olds heights ess ->
  Forall2 (fun old es => exists k, replay_all (Some old) es = Some k /\ (m = length blocks -> k = block_hash best)) olds
    (zip_with (fun ht b => tell_above ht b new) heights ess).
Proof. intros Hb Hp HG Ha Hn. induction 1; cbn; constructor; [by eapply told_above|done]. Qed.

(** Without a way up, everyone is at the best tip. *)
Lemma none_walked best olds heights ess : Forall3 (at_fork best 0) olds heights ess ->
  Forall2 (fun old es => replay_all (Some old) es = Some (block_hash best)) olds ess.
Proof.
  induction 1 as [|old ht es olds heights ess (C & anc & _ & _ & Hp & Hl & Hr & _) _ IH]; constructor; [|done].
  destruct C; [|cbn in Hl; lia]. cbn in Hp. by rewrite Hr, Hp.
Qed.

Lemma synchronized fuel ks st o st' :
  Forall starts ks -> cache_of G (shared_cache st) -> told st = replicate (length ks) [] ->
  synchronize_listeners src network fuel ks st = (o, st') ->
  Forall2 walked ks (told st') /\
  forall best, o = Ret (Ok best) -> Forall2 (fun old es => replay_all (Some old) es = Some (block_hash best)) ks (told st').
Proof.
  intros Hs Hc Ht E. assert (W0 : Forall2 walked ks (replicate (length ks) [])) by (clear; induction ks as [|k ks IH]; cbn; constructor; [by eexists|done]).
  unfold synchronize_listeners in E. apply bind_ok_inv in E as [(best & s1 & E1 & E)|(o1 & E1 & _ & Hno)].
  2: { apply unheard_told in E1 as [T1 _]; [|apply best_only]. rewrite T1, Ht. split; [done|]. intros best ->. by destruct (Hno best). }
  pose proof (unheard_told _ _ _ _ best_only E1) as [T1 C1]. assert (Hb : G best).
  { unfold unheard in E1. destruct (validate_best_block_header src _) as [o3 s3] eqn:E3. injection E1 as -> _. by eapply best_trusted. }
  apply bind_ok_inv in E as [(hs & s2 & E2 & E)|(o1 & E2 & _ & Hno)]; (apply olds_trusted in E2 as (T2 & C2 & Hhs); [|done|by rewrite C1]).
  2: { rewrite T2, T1, Ht. split; [done|]. intros b ->. by destruct (Hno b). }
  specialize (Hhs hs eq_refl). assert (Ek : block_hash <$> hs = ks) by (clear -Hhs; induction Hhs as [|k h ks hs [Hk _] _ IH]; cbn; by f_equal).
  assert (HG : Forall G hs) by (clear -Hhs; induction Hhs as [|k h ks hs [_ Hk] _ IH]; by constructor).
  apply bind_ok_inv in E as [([[heights most] blocks] & s3 & E3 & E)|(o1 & E3 & _ & Hno)];
    (apply (loop_forks _ _ [] _ _ _ _ []) in E3 as (C3 & W3 & Hfound);
      [|by rewrite C2, C1|done|done|rewrite T2, T1, Ht; cbn; by rewrite <- Ek, length_fmap|done|constructor]); cbn [Datatypes.app] in *; rewrite Ek in *.
  2: { split; [done|]. intros b ->. by destruct (Hno b). }
  destruct (Hfound _ _ _ eq_refl) as [Hf H3]. destruct most as [anc|].
  - destruct Hf as (Hp & HGb & Ha). unfold mbind, prog_bind, to_set in E. destruct (connect_blocks src anc blocks _) as [o4 s4] eqn:E4.
    assert (Hvb : Forall valid (rev blocks)) by (apply Forall_rev; eapply Forall_impl; [exact HGb|]; by apply trusted_valid).
    apply connect_tells in E4 as (m & new & Hm & Hheard & Hn & r & -> & Hr); [|done]. cbn in Hheard. pose proof (set_walked best blocks anc m new _ _ _ Hb Hp HGb Ha Hn H3) as Hw.
    rewrite <- Hheard in Hw. assert (Es : told st' = zip_with (fun ht b => tell_above ht b (heard s4)) heights (told s3)) by (destruct r as [|[]]; by injection E as _ <-).
    rewrite Es. split; [eapply Forall2_impl; [exact Hw|]; intros ?? (k & Hk & _); by eexists|]. intros b ->. destruct r as [u|[]]; [|done]. injection E as <- _.
    eapply Forall2_impl; [exact Hw|]. intros old es (k & Hk & Hall). rewrite Hk. f_equal. apply Hall. rewrite Hr by done. by rewrite length_rev.
  - cbn in Hf. subst blocks. injection E as <- <-. split; [done|]. intros b [= <-]. by eapply none_walked.
Qed.
End Walks.

(** Sources that report true heights. *)
#[export] Instance honest_trusted (true_height : Header -> Z) `{!Honest src true_height} : Trusted (honest true_height) (fun _ => True).
Proof.
  split.
  - by intros h [Hv _].
  - intros h p [Hv Hh] [Hvp Hhp] E. rewrite Hh, Hhp, (true_height_parent src (header (inner h)) (header (inner p))); [lia|]. unfold valid in Hvp. by rewrite Hvp, E.
  - intros h h' [Hv Hh] [Hv' Hh'] E. rewrite Hh, Hh'. f_equal. apply header_hash_inj. unfold valid in *. congruence.
  - intros h s p s' Hc Hh E. destruct (previous_returns src network true_height h s Hc Hh) as (r & s1 & E1 & _ & Hp). rewrite E in E1. injection E1 as <- _. by destruct (Hp p eq_refl).
  - intros k hint s d s' h _ E Ev. apply validate_header_ok in Ev as [-> Hv]. split; [done|]. by eapply honest_source.
  - done.
Qed.

(** At start-up, with a source that reports true heights, whatever else it answers: what
    each listener is told is a walk, block by block, from the block it was left at; and when
    the synchronisation reports success every listener has arrived at the returned header,
    although blocks are fetched once for all and each listener is told only those above its
    own fork point. *)
Theorem listeners_synchronized (true_height : Header -> Z) (fuel : nat) (listeners : list BlockHash) st o st' :
  Honest src true_height -> cache_honest true_height (shared_cache st) -> told st = replicate (length listeners) [] ->
  synchronize_listeners src network fuel listeners st = (o, st') ->
  Forall2 walked listeners (told st') /\
  forall best, o = Ret (Ok best) -> Forall2 (fun old es => replay_all (Some old) es = Some (block_hash best)) listeners (told st').
Proof. intros HH Hc Ht E. eapply (synchronized (honest true_height) (fun _ => True)); [by apply Forall_true|exact Hc|exact Ht|exact E]. Qed.

(** ** Arrival *)

Section Live.
Context (known : Header -> Prop) (data : Header -> BlockHeaderData) (genesis best : Header)
  `{!Serves src network known data genesis best} (Hroot : forall hd, known hd -> prev_blockhash genesis <> header_hash hd).

Definition in_tree k : Prop := exists hd, known hd /\ k = header_hash hd.

Lemma above_root h p : of_tree known data h -> of_tree known data p -> block_hash p = prev_of h -> 0 < height_of h /\ of_tree known data h.
Proof.
  intros Hh (q & Hq & ->) E. split; [|done]. pose proof (of_tree_height src network known data genesis best h Hh) as Hpos.
  destruct (decide (height_of h = 0)) as [E0|]; [|lia]. destruct Hh as (hd & Hk & ->). rewrite (serves_genesis src network hd Hk E0) in E. destruct (Hroot q Hq). unfold prev_of in E. cbn in E.
  by rewrite (proj1 (serves_data src network genesis)) in E.
Qed.

#[export] Instance served_trusted : Trusted (of_tree known data) in_tree.
Proof.
  split.
  - by apply (of_tree_valid src network known data genesis best).
  - intros h p Hh Hp E. destruct (above_root h p Hh Hp E) as [Hpos (hd & Hk & ->)]. destruct (serves_parent src network hd Hk Hpos) as (q & Hkq & Hq & Hb).
    assert (p = reported data q) as ->.
    { eapply of_tree_inj; [done|by exists q|]. rewrite E. unfold prev_of. cbn. by rewrite (proj1 (serves_data src network hd)), Hq. }
    revert Hb. unfold check_builds_on. case_decide; [done|]. destruct (Z.eqb_spec (height_of (reported data hd)) (height_of (reported data q) + 1)); [intros _; lia|done].
  - intros h h' Hh Hh' E. f_equal. by eapply of_tree_inj.
  - intros h s p s' Hc Hh E. pose proof (of_tree_height src network known data genesis best h Hh) as Hpos. destruct (decide (height_of h = 0)) as [E0|E0].
    + unfold look_up_previous_header in E. erewrite prog_bind_Ret in E by reflexivity. destruct (header_cache s !! prev_of h) as [c|] eqn:Ec.
      * injection E as <- _. by apply Hc in Ec as [_ Ht].
      * unfold poll_previous_header in E. destruct (Z.eqb_spec (height_of h) 0); done.
    + destruct (previous_served src network known data genesis best h s Hc Hh) as (p' & s1 & E1 & _ & Hp & _); [lia|]. rewrite E in E1. by injection E1 as <- _.
  - intros k hint s d s' h (hd & Hk & ->) E Ev. destruct (serves_header src network hd hint s Hk) as [s1 E1]. rewrite E1 in E. injection E as <- _. rewrite (validate_reported src network known data genesis best) in Ev by done. injection Ev as <-. by exists hd.
  - intros s k hint s' E. destruct (serves_best src network) as [Hb Hs]. destruct (Hs s) as (hint' & s1 & E1). rewrite E1 in E. injection E as <- _ _. by exists best.
Qed.

Lemma best_served (s : sync) : exists s', validate_best_block_header src s = (Ret (Ok (reported data best)), s').
Proof.
  destruct (serves_best src network) as [Hb Hs]. destruct (Hs (source s)) as (hint & s1 & E1). destruct (serves_header src network best hint s1 Hb) as [s2 E2].
  unfold validate_best_block_header, bind_ok, mbind, prog_bind, ask. rewrite E1. cbn [source header_cache heard fst snd]. rewrite E2, (validate_reported src network known data genesis best) by done. by eexists.
Qed.

Lemma old_served k (s : sync) : in_tree k -> cache_of (of_tree known data) (header_cache s) -> exists h s', old_header src k s = (Ret (Ok h), s').
Proof.
  intros (hd & Hk & ->) Hc. unfold old_header, mbind, prog_bind, gets. destruct (header_cache s !! _) as [c|]; [by eexists _, _|].
  destruct (serves_header src network hd None (source s) Hk) as [s2 E2]. unfold bind_ok, mbind, prog_bind, ask. rewrite E2, (validate_reported src network known data genesis best) by done. by eexists _, _.
Qed.

Lemma olds_served ks st : Forall in_tree ks -> cache_of (of_tree known data) (shared_cache st) -> exists hs st', old_headers src ks st = (Ret (Ok hs), st').
Proof.
  revert st. induction ks as [|k ks IH]; intros st Hs Hc; cbn [old_headers]; [by eexists _, _|]. apply Forall_cons in Hs as [Hk Hs].
  destruct (old_served k (mkSync (shared_source st) (shared_cache st) []) Hk Hc) as (h & s1 & E1).
  assert (E2 : unheard (old_header src k) st = (Ret (Ok h), mkInits (source s1) (header_cache s1) (told st))) by (unfold unheard; by rewrite E1).
  pose proof (unheard_told _ _ _ _ (old_only k) E2) as [_ C1]. unfold bind_ok. erewrite prog_bind_Ret by exact E2. cbv beta iota.
  destruct (IH (mkInits (source s1) (header_cache s1) (told st)) Hs) as (hs & st' & E3); [by rewrite C1|]. erewrite prog_bind_Ret by exact E3. by eexists _, _.
Qed.

Lemma loop_served fuel hs (k : nat) heights most blocks st :
  cache_of (of_tree known data) (shared_cache st) -> Forall (of_tree known data) hs -> Forall (fun h => height (data best) + height_of h < Z.of_nat fuel) hs ->
  Forall (of_tree known data) blocks ->
  exists heights' most' blocks' st', disconnect_listeners src network fuel (reported data best) k hs heights most blocks st = (Ret (Ok (heights', most', blocks')), st') /\
    Forall (of_tree known data) blocks'.
Proof.
  revert k heights most blocks st. induction hs as [|h hs IH]; intros k heights most blocks st Hc Hg Hf Hb; cbn [disconnect_listeners]; [by eexists _, _, _, _|].
  apply Forall_cons in Hg as [Hh Hg]. apply Forall_cons in Hf as [Hfh Hf]. destruct (serves_best src network) as [Hkb _]. assert (Ht : of_tree known data (reported data best)) by (by exists best).
  set (s0 := mkSync (shared_source st) (shared_cache st) (default [] (told st !! k))).
  destruct (difference_served src network known data genesis best fuel (reported data best) h [] [] s0) as (d & s1 & E1 & _ & HC); [done..|].
  pose proof (difference_only _ _ _ _ _ _ _ _ _ _ E1) as [Fc _].
  set (s2 := mkSync (source s1) (header_cache s1) (heard s1 ++ (disconnected <$> disconnected_blocks d))).
  assert (E2 : hearing k (let? d := find_difference src network fuel (reported data best) h in _ ← disconnect_read_only (disconnected_blocks d); mret (Ok d)) st =
    (Ret (Ok d), mkInits (source s2) (header_cache s2) (<[k := heard s2]> (told st)))).
  { unfold hearing. fold s0. unfold bind_ok, mbind at 1, prog_bind at 1. unfold find_difference. rewrite E1. done. }
  unfold bind_ok. erewrite prog_bind_Ret by exact E2. cbv beta iota zeta.
  destruct (_ <? _)%nat; apply IH; try done; cbn; by rewrite Fc.
Qed.

(** C30: with a source that serves one consistent tree of blocks and its best tip, the listeners
    arrive: from any blocks of the tree they were left at, [synchronize_listeners] returns the
    best tip, without a panic and within as many steps as the heights allow, and has taken every
    listener to it. *)
Theorem listeners_reach_best (fuel : nat) (listeners : list BlockHash) st :
  Forall in_tree listeners -> cache_of (of_tree known data) (shared_cache st) -> told st = replicate (length listeners) [] ->
  (forall hd, known hd -> header_hash hd ∈ listeners -> height (data best) + height (data hd) < Z.of_nat fuel) ->
  exists st', synchronize_listeners src network fuel listeners st = (Ret (Ok (reported data best)), st') /\
    Forall2 (fun old es => replay_all (Some old) es = Some (header_hash best)) listeners (told st').
Proof.
  intros Hl Hc Ht Hf. assert (Hall : exists st', synchronize_listeners src network fuel listeners st = (Ret (Ok (reported data best)), st')).
  2: { destruct Hall as [st' E]. exists st'. split; [done|]. apply (synchronized _ in_tree) in E as [_ Hok]; [|done..]. by apply (Hok _ eq_refl). }
  unfold synchronize_listeners. destruct (best_served (mkSync (shared_source st) (shared_cache st) [])) as [s1 E1].
  assert (E2 : unheard (validate_best_block_header src) st = (Ret (Ok (reported data best)), mkInits (source s1) (header_cache s1) (told st))) by (unfold unheard; by rewrite E1).
  pose proof (unheard_told _ _ _ _ best_only E2) as [_ C1]. unfold bind_ok at 1. erewrite prog_bind_Ret by exact E2. cbv beta iota. set (st1 := mkInits _ _ _) in *.
  destruct (olds_served listeners st1 Hl ltac:(by rewrite C1)) as (hs & st2 & E3). pose proof (olds_trusted _ in_tree listeners st1 _ _ Hl ltac:(by rewrite C1) E3) as (_ & C2 & Hhs).
  specialize (Hhs hs eq_refl). unfold bind_ok at 1. erewrite prog_bind_Ret by exact E3. cbv beta iota.
  assert (Hheights : Forall (fun h => height (data best) + height_of h < Z.of_nat fuel) hs).
  { apply Forall_lookup. intros i h Hi. destruct (Forall2_lookup_r _ _ _ _ _ Hhs Hi) as (k & Hk & Eh & hd & Hkd & ->). apply (Hf hd Hkd). apply list_elem_of_lookup. exists i. by rewrite Hk, <- Eh. }
  destruct (loop_served fuel hs 0 [] None [] st2) as (heights & most & blocks & st3 & E4 & HB); [by rewrite C2, C1| |done|constructor|].
  { clear -Hhs. induction Hhs as [|k h ks hs [_ Hh] _ IH]; by constructor. }
  unfold bind_ok. erewrite prog_bind_Ret by exact E4. cbv beta iota. destruct most as [anc|]; [|by eexists].
  destruct (connect_served src network known data genesis best anc (rev blocks) (mkSync (shared_source st3) (shared_cache st3) []) ltac:(by apply Forall_rev)) as [s5 E5].
  unfold mbind, prog_bind, to_set, connect_blocks. rewrite E5. by eexists.
Qed.
End Live.
End Spec.

(** ** Three listeners on the toy chain *)

Section Toy.
Definition toy_listeners : list (option (list Z)) := [Some [3; 1]; Some [1]; Some [5; 4; 1]].
Definition toy_inits : inits (BlockHash := option (list Z)) (Header := list Z) (Block := list Z) (S := unit) := mkInits tt ∅ (replicate 3 []).
Definition toy_arrived := (synchronize_listeners toy_source Regtest 7 toy_listeners toy_inits).2.

(** One goes back first, one only up, and the third is told nothing. *)
Example toy_told :
  told toy_arrived = [[Disconnected [3; 1] 2; Connected [4; 1] 2; Connected [5; 4; 1] 3]; [Connected [4; 1] 2; Connected [5; 4; 1] 3]; []].
Proof. vm_compute. reflexivity. Qed.

Lemma listeners_synchronized_witness :
  Forall2 (fun old es => replay_all (Some old) es = Some (Some [5; 4; 1])) toy_listeners (told toy_arrived).
Proof.
  refine (proj2 (listeners_synchronized toy_source Regtest (fun h => Z.of_nat (length h)) 7 toy_listeners toy_inits _ toy_arrived toy_honest _ _ _) (toy_validated [5; 4; 1]) _).
  - intros k h H. vm_compute in H. discriminate.
  - reflexivity.
  - vm_compute. reflexivity.
  - reflexivity.
Defined.

Lemma listeners_reach_best_witness :
  exists st', synchronize_listeners toy_source Regtest 7 toy_listeners toy_inits = (Ret (Ok (toy_validated [5; 4; 1])), st') /\
    Forall2 (fun old es => replay_all (Some old) es = Some (Some [5; 4; 1])) toy_listeners (told st').
Proof.
  refine (listeners_reach_best toy_source Regtest (fun _ => True) toy_data [] [5; 4; 1] _ 7 toy_listeners toy_inits _ _ _ _).
  - intros hd _ E. discriminate E.
  - repeat constructor; by eexists.
  - intros k h H. vm_compute in H. discriminate.
  - reflexivity.
  - intros hd _ H. unfold toy_listeners in H. cbn [header_hash toy_header] in H. set_unfold in H. destruct H as [[= ->]|[[= ->]|[[= ->]|[]]]]; cbn; lia.
Defined.
End Toy.
