(* ===== verification/Payer.v ===== *)
(** * The invoice payer: rust-lightning/lightning-invoice/src/payment.rs

    [InvoicePayer] sends a payment, finds new routes for what failed, and stands between LDK
    and the application's event handler: a failed path that is retried is not reported.  The
    payer (the channel manager), the router, the scorer, the clocks and the decorated handler
    are the environment [W]; time may pass with every call. *)

From S2P Require Import Prelude Text Bytes.

Local Open Scope Z_scope.

(** ** The environment *)

Class PayerEnv := {
  PublicKey : Type; ChannelDetails : Type; Route : Type; PaymentId : Type; InvoiceFeatures : Type; RouteHint : Type;
  LightningError : Type; APIError : Type; RouteHop : Type; OtherEvent : Type;
  keysend_features : InvoiceFeatures;
}.

Section Data.
Context `{PayerEnv}.

(** router.rs *)
Record PaymentParameters := mkPaymentParameters {
  payee_pubkey : PublicKey;
  features : option InvoiceFeatures;
  route_hints : list RouteHint;
  expiry_time : option Z;
  max_total_cltv_expiry_delta : Z;
  max_mpp_path_count : Z;
}.
Record RouteParameters := mkRouteParameters { payment_params : PaymentParameters; final_value_msat : Z; final_cltv_expiry_delta : Z }.

Definition DEFAULT_MAX_TOTAL_CLTV_EXPIRY_DELTA : Z := 1008.
Definition DEFAULT_MAX_MPP_PATH_COUNT : Z := 10.

Definition from_node_id (k : PublicKey) : PaymentParameters :=
  mkPaymentParameters k None [] None DEFAULT_MAX_TOTAL_CLTV_EXPIRY_DELTA DEFAULT_MAX_MPP_PATH_COUNT.
Definition with_features (f : InvoiceFeatures) (p : PaymentParameters) : PaymentParameters :=
  mkPaymentParameters (payee_pubkey p) (Some f) (route_hints p) (expiry_time p) (max_total_cltv_expiry_delta p) (max_mpp_path_count p).
Definition with_route_hints (h : list RouteHint) (p : PaymentParameters) : PaymentParameters :=
  mkPaymentParameters (payee_pubkey p) (features p) h (expiry_time p) (max_total_cltv_expiry_delta p) (max_mpp_path_count p).
Definition with_expiry_time (t : Z) (p : PaymentParameters) : PaymentParameters :=
  mkPaymentParameters (payee_pubkey p) (features p) (route_hints p) (Some t) (max_total_cltv_expiry_delta p) (max_mpp_path_count p).
Definition for_keysend (k : PublicKey) : PaymentParameters := with_features keysend_features (from_node_id k).

(** channelmanager.rs *)
Inductive PaymentSendFailure :=
| ParameterError (e : APIError)
| PathParameterError (es : list (result unit APIError))
| AllFailedRetrySafe (es : list APIError)
| PartialFailure (results : list (result unit APIError)) (failed_paths_retry : option RouteParameters) (payment_id : PaymentId).

(** util/events.rs: the events the payer looks into. *)
Inductive Event :=
| PaymentPathFailed (payment_id : option PaymentId) (payment_hash : bytes) (rejected_by_dest : bool) (path : list RouteHop)
    (short_channel_id : option Z) (retry : option RouteParameters)
| PaymentFailed (payment_id : PaymentId) (payment_hash : bytes)
| PaymentPathSuccessful (payment_id : PaymentId) (path : list RouteHop)
| PaymentSent (payment_id : option PaymentId) (payment_hash : bytes)
| Other (e : OtherEvent).

(** What an invoice tells (lib.rs): durations in nanoseconds. *)
Record Invoice := mkInvoice {
  amount_milli_satoshis : option Z;
  payment_hash_of : bytes;
  payment_secret : bytes;
  recover_payee_pub_key : PublicKey;
  timestamp : Z;
  expiry : Z;
  invoice_route_hints : list RouteHint;
  invoice_features : option InvoiceFeatures;
  min_final_cltv_expiry : Z;
}.
End Data.

#[global] Arguments Event {_}.
#[global] Arguments RouteParameters {_}.
#[global] Arguments PaymentSendFailure {_}.
#[global] Arguments Invoice {_}.

(** The traits [Payer] and [Router], the scorer, [EventHandler], the clocks and [Sha256]. *)
Class PayerOps (W : Type) `{PayerEnv} := {
  node_id : W -> PublicKey * W;
  first_hops : W -> list ChannelDetails * W;
  send_payment : Route -> bytes -> option bytes -> W -> result PaymentId PaymentSendFailure * W;
  send_spontaneous_payment : Route -> bytes -> W -> result PaymentId PaymentSendFailure * W;
  payer_retry_payment : Route -> PaymentId -> W -> result unit PaymentSendFailure * W;
  abandon_payment : PaymentId -> W -> unit * W;
  find_route : PublicKey -> RouteParameters -> bytes -> list ChannelDetails -> W -> result Route LightningError * W;
  payment_path_failed : list RouteHop -> Z -> W -> unit * W;
  payment_path_successful : list RouteHop -> W -> unit * W;
  decorated_handle_event : Event -> W -> unit * W;
  instant_now : W -> Z * W;
  system_now : W -> Z * W;
  sha256_of : bytes -> bytes;
}.

Section Source.
Context {W : Type} `{PayerOps W}.

Record PaymentAttempts := mkAttempts { count : Z; first_attempted_at : Z }.
Inductive Retry := Attempts (max_retry_count : Z) | Timeout (max_duration : Z).
Inductive PaymentError := InvoiceError (why : string) | Routing (e : LightningError) | Sending (e : PaymentSendFailure).

Record InvoicePayer := mkPayer { payment_cache : gmap bytes PaymentAttempts; world : W }.

(** A call of the environment. *)
Definition call {A} (f : W -> A * W) : prog InvoicePayer A := fun s => let r := f (world s) in (Ret r.1, mkPayer (payment_cache s) r.2).
Definition set_cache (f : gmap bytes PaymentAttempts -> gmap bytes PaymentAttempts) : prog InvoicePayer unit :=
  modify (fun s => mkPayer (f (payment_cache s)) (world s)).

(** [PaymentAttempts::new]. *)
Definition new_attempts : prog InvoicePayer PaymentAttempts := now ← call instant_now; mret (mkAttempts 0 now).

Definition is_retryable_now (self : Retry) (attempts : PaymentAttempts) : prog InvoicePayer bool :=
  match self with
  | Attempts max_retry_count => mret (count attempts <=? max_retry_count)
  | Timeout max_duration => now ← call instant_now; mret (saturating_sub now (first_attempted_at attempts) <=? max_duration)
  end.

(** [has_expired], with [is_expired_from_epoch] of lib.rs. *)
Definition has_expired (route_params : RouteParameters) : prog InvoicePayer bool :=
  match expiry_time (payment_params route_params) with
  | Some secs => now ← call system_now; mret ((0 <=? now) && (secs * 1000000000 <? now))
  | None => mret false
  end.

(** [expiry_time_from_unix_epoch(&invoice).as_secs()]. *)
Definition expiry_secs (invoice : Invoice) : outcome Z :=
  let t := timestamp invoice + expiry invoice in
  if t <? 2 ^ 64 * 1000000000 then Ret (t `div` 1000000000) else Panic "overflow when adding durations".

Section Retrying.
Context (retry : Retry).

Definition find (params : RouteParameters) (payment_hash : bytes) : prog InvoicePayer (result Route LightningError) :=
  payer ← call node_id; hops ← call first_hops; call (find_route payer params payment_hash hops).

(** [entry(payment_hash).and_modify(|attempts| attempts.count += 1).or_insert(..)]. *)
Definition count_attempt (payment_hash : bytes) : prog InvoicePayer PaymentAttempts :=
  cache ← gets payment_cache;
  match cache !! payment_hash with
  | Some a =>
      c ← lift (add64 (count a) 1);
      let a := mkAttempts c (first_attempted_at a) in
      _ ← set_cache (insert payment_hash a); mret a
  | None => now ← call instant_now; let a := mkAttempts 1 now in _ ← set_cache (insert payment_hash a); mret a
  end.

Fixpoint retry_payment (fuel : nat) (payment_id : PaymentId) (payment_hash : bytes) (params : RouteParameters) : prog InvoicePayer (result unit unit) :=
  match fuel with
  | O => fun s => (OutOfFuel, s)
  | S fuel' =>
      attempts ← count_attempt payment_hash;
      retryable ← is_retryable_now retry attempts;
      if negb retryable then mret (Err tt)
      else
        expired ← has_expired params;
        if (expired : bool) then mret (Err tt)
        else
          route ← find params payment_hash;
          match route with
          | Err _ => mret (Err tt)
          | Ok route =>
              r ← call (payer_retry_payment route payment_id);
              match r with
              | Ok _ => mret (Ok tt)
              | Err (ParameterError _) | Err (PathParameterError _) => mret (Err tt)
              | Err (AllFailedRetrySafe _) => retry_payment fuel' payment_id payment_hash params
              | Err (PartialFailure _ failed_paths_retry _) =>
                  _ ← (match failed_paths_retry with Some again => retry_payment fuel' payment_id payment_hash again | None => mret (Ok tt) end);
                  mret (Ok tt)
              end
          end
  end.

Fixpoint pay_internal (fuel : nat) (params : RouteParameters) (payment_hash : bytes) (send : Route -> W -> result PaymentId PaymentSendFailure * W) :
    prog InvoicePayer (result PaymentId PaymentError) :=
  match fuel with
  | O => fun s => (OutOfFuel, s)
  | S fuel' =>
      expired ← has_expired params;
      if (expired : bool) then mret (Err (InvoiceError "Invoice expired prior to send"))
      else
        route ← find params payment_hash;
        match route with
        | Err e => mret (Err (Routing e))
        | Ok route =>
            r ← call (send route);
            match r with
            | Ok payment_id => mret (Ok payment_id)
            | Err (AllFailedRetrySafe es) =>
                cache ← gets payment_cache;
                a ← lift (unwrap "called `Option::unwrap()` on a `None` value" (cache !! payment_hash));
                c ← lift (add64 (count a) 1);
                let a := mkAttempts c (first_attempted_at a) in
                _ ← set_cache (insert payment_hash a);
                retryable ← is_retryable_now retry a;
                if (retryable : bool) then pay_internal fuel' params payment_hash send else mret (Err (Sending (AllFailedRetrySafe es)))
            | Err (PartialFailure _ (Some retry_data) payment_id) =>
                _ ← retry_payment fuel' payment_id payment_hash retry_data; mret (Ok payment_id)
            | Err (PartialFailure _ None payment_id) => mret (Ok payment_id)
            | Err e => mret (Err (Sending e))
            end
        end
  end.

Definition remove_cached_payment (payment_hash : bytes) : prog InvoicePayer unit := set_cache (delete payment_hash).

(** The entry of the cache, then the payment; an error removes the entry. *)
Definition pay_cached (payment_hash : bytes) (pay : prog InvoicePayer (result PaymentId PaymentError)) : prog InvoicePayer (result PaymentId PaymentError) :=
  cache ← gets payment_cache;
  if bool_decide (is_Some (cache !! payment_hash)) then mret (Err (InvoiceError "payment pending"))
  else
    a ← new_attempts;
    _ ← set_cache (insert payment_hash a);
    r ← pay;
    match r with
    | Ok id => mret (Ok id)
    | Err e => _ ← remove_cached_payment payment_hash; mret (Err e)
    end.

Definition pay_invoice_using_amount (fuel : nat) (invoice : Invoice) (amount_msats : option Z) : prog InvoicePayer (result PaymentId PaymentError) :=
  if negb (xorb (bool_decide (is_Some (amount_milli_satoshis invoice))) (bool_decide (is_Some amount_msats)))
  then panic "assertion failed: invoice.amount_milli_satoshis().is_some() ^ amount_msats.is_some()"
  else
    let hash := payment_hash_of invoice in
    pay_cached hash (
      secs ← lift (expiry_secs invoice);
      let params := with_route_hints (invoice_route_hints invoice) (with_expiry_time secs (from_node_id (recover_payee_pub_key invoice))) in
      let params := match invoice_features invoice with Some f => with_features f params | None => params end in
      amount ← lift (unwrap "called `Option::unwrap()` on a `None` value" (match amount_milli_satoshis invoice with Some a => Some a | None => amount_msats end));
      pay_internal fuel (mkRouteParameters params amount (wrap 32 (min_final_cltv_expiry invoice))) hash
        (fun route => send_payment route hash (Some (payment_secret invoice)))).

Definition pay_invoice (fuel : nat) (invoice : Invoice) : prog InvoicePayer (result PaymentId PaymentError) :=
  if bool_decide (amount_milli_satoshis invoice = None) then mret (Err (InvoiceError "amount missing"))
  else pay_invoice_using_amount fuel invoice None.

Definition pay_zero_value_invoice (fuel : nat) (invoice : Invoice) (amount_msats : Z) : prog InvoicePayer (result PaymentId PaymentError) :=
  if bool_decide (is_Some (amount_milli_satoshis invoice)) then mret (Err (InvoiceError "amount unexpected"))
  else pay_invoice_using_amount fuel invoice (Some amount_msats).

Definition pay_pubkey (fuel : nat) (pubkey : PublicKey) (payment_preimage : bytes) (amount_msats final_cltv_expiry_delta : Z) :
    prog InvoicePayer (result PaymentId PaymentError) :=
  let hash := sha256_of payment_preimage in
  pay_cached hash (
    pay_internal fuel (mkRouteParameters (for_keysend pubkey) amount_msats final_cltv_expiry_delta) hash
      (fun route => send_spontaneous_payment route payment_preimage)).

(** The events the payer acts on; whether the decorated handler is told of them, too. *)
Definition path_failed (fuel : nat) (payment_id : option PaymentId) (payment_hash : bytes) (rejected_by_dest : bool) (path : list RouteHop)
    (short_channel_id : option Z) (again : option RouteParameters) : prog InvoicePayer bool :=
  _ ← (match short_channel_id with Some scid => call (payment_path_failed path scid) | None => mret tt end);
  match payment_id with
  | None => mret true
  | Some id =>
      if rejected_by_dest then _ ← call (abandon_payment id); mret true
      else
        match again with
        | None => _ ← call (abandon_payment id); mret true
        | Some params =>
            r ← retry_payment fuel id payment_hash params;
            match r with
            | Ok _ => mret false
            | Err _ => _ ← call (abandon_payment id); mret true
            end
        end
  end.

Definition handle_event (fuel : nat) (event : Event) : prog InvoicePayer unit :=
  tell ← (match event with
          | PaymentPathFailed id hash rejected path scid again => path_failed fuel id hash rejected path scid again
          | PaymentFailed _ hash => _ ← remove_cached_payment hash; mret true
          | PaymentPathSuccessful _ path => _ ← call (payment_path_successful path); mret true
          | PaymentSent _ hash =>
              (* the number of attempts is only logged; adding one to it may overflow *)
              cache ← gets payment_cache;
              _ ← remove_cached_payment hash;
              _ ← lift (match cache !! hash with Some a => add64 (count a) 1 | None => Ret 1 end);
              mret true
          | Other _ => mret true
          end);
  if (tell : bool) then call (decorated_handle_event event) else mret tt.
End Retrying.
End Source.
