(* ===== verification/PayerSpec.v ===== *)
(** * How often the invoice payer tries

    A payer that counts the calls which send a payment; with a limit of [max] retries, no
    payment is sent more than [max + 1] times between the creation and the removal of its
    entry, whatever the environment answers and however events come; and every request is
    answered. *)

From S2P Require Import Prelude Text Bytes Payer.

Local Open Scope Z_scope.

(** ** Counting *)

Section Counting.
Context {W : Type} `{PayerOps W}.

Definition quiet {A} (f : W -> A * W) (w : W * Z) : A * (W * Z) := let r := f w.1 in (r.1, (r.2, w.2)).
Definition counted {A} (f : W -> A * W) (w : W * Z) : A * (W * Z) := let r := f w.1 in (r.1, (r.2, w.2 + 1)).

(** The same environment, with the number of payments sent and retried. *)
Definition counting : PayerOps (W * Z) := {|
  node_id := quiet node_id; first_hops := quiet first_hops;
  send_payment r h s := counted (send_payment r h s);
  send_spontaneous_payment r p := counted (send_spontaneous_payment r p);
  payer_retry_payment r id := counted (payer_retry_payment r id);
  abandon_payment id := quiet (abandon_payment id);
  find_route k p h hops := quiet (find_route k p h hops);
  payment_path_failed path scid := quiet (payment_path_failed path scid);
  payment_path_successful path := quiet (payment_path_successful path);
  decorated_handle_event e := quiet (decorated_handle_event e);
  instant_now := quiet instant_now; system_now := quiet system_now; sha256_of := sha256_of;
|}.
End Counting.

(** Requests to the payer, by the application and by LDK. *)
Inductive request `{PayerEnv} :=
| PayInvoice (invoice : Invoice)
| PayZeroValue (invoice : Invoice) (amount_msats : Z)
| PayPubkey (pubkey : PublicKey) (preimage : bytes) (amount_msats delta : Z)
| Deliver (event : Event)
| Forget (hash : bytes).

Definition perform {W} `{PayerOps W} (retry : Retry) (fuel : nat) (rq : request) : prog (@InvoicePayer W) unit :=
  match rq with
  | PayInvoice i => _ ← pay_invoice retry fuel i; mret tt
  | PayZeroValue i a => _ ← pay_zero_value_invoice retry fuel i a; mret tt
  | PayPubkey k p a d => _ ← pay_pubkey retry fuel k p a d; mret tt
  | Deliver e => handle_event retry fuel e
  | Forget h => remove_cached_payment h
  end.

(** The payment a request may send. *)
Definition about {W} `{PayerOps W} (rq : request) : option bytes :=
  match rq with
  | PayInvoice i | PayZeroValue i _ => Some (payment_hash_of i)
  | PayPubkey _ p _ _ => Some (sha256_of p)
  | Deliver (PaymentPathFailed _ h _ _ _ _) => Some h
  | _ => None
  end.

Section Bound.
Context {W : Type} `{PayerOps W} (max : Z) (Hmax : 0 <= max).
#[local] Existing Instance counting | 0.

Abbreviation payer := (@InvoicePayer (W * Z)).
Implicit Types s : payer.

Definition calls s : Z := (world s).2.
Definition tries s (h : bytes) : Z := match payment_cache s !! h with Some a => count a | None => 0 end.
Definition budget s (h : bytes) : Z := Z.min (tries s h) max.

(** What a run may do to the payment [h]: leave the others alone, count up, and send [k] times
    more than it counted, at most. *)
Definition spends (h : bytes) (k : Z) s s' : Prop :=
  (forall h', h' <> h -> payment_cache s' !! h' = payment_cache s !! h') /\
  (is_Some (payment_cache s !! h) -> is_Some (payment_cache s' !! h)) /\
  tries s h <= tries s' h /\ calls s <= calls s' <= calls s + budget s' h - budget s h + k.

Lemma spends_refl h s : spends h 0 s s.
Proof. split_and!; [done|done|lia|lia|lia]. Qed.

Lemma spends_trans h k k' s1 s2 s3 : spends h k s1 s2 -> spends h k' s2 s3 -> spends h (k + k') s1 s3.
Proof.
  intros (A1 & A2 & A3 & A4) (B1 & B2 & B3 & B4). split_and!; [|tauto|lia|lia|lia]. intros h' Hne. by rewrite B1, A1.
Qed.

Lemma spends_weaken h k k' s s' : k <= k' -> spends h k s s' -> spends h k' s s'.
Proof. intros Hk (A1 & A2 & A3 & A4). split_and!; [done|done|done|lia|lia]. Qed.

(** Calls that send nothing keep everything. *)
Definition same s s' : Prop := payment_cache s' = payment_cache s /\ calls s' = calls s.

#[global] Instance same_preorder : PreOrder same.
Proof. split; [done|]. intros s1 s2 s3 [A1 A2] [B1 B2]. by split; congruence. Qed.

Lemma same_spends h s s' : same s s' -> spends h 0 s s'.
Proof. intros [E1 E2]. unfold spends, budget, tries. rewrite E1, E2. split_and!; [done|done|lia|lia|lia]. Qed.

Lemma keeps_call {A} (f : W * Z -> A * (W * Z)) : (forall w, (f w).2.2 = w.2) -> keeps same (call f).
Proof. intros Hf s o s' [= <- <-]. split; [done|]. apply Hf. Qed.
Lemma keeps_same_ret {A} (a : A) : keeps same (mret a).
Proof. by intros s o s' [= <- <-]. Qed.
#[local] Hint Resolve keeps_same_ret : keeps.
#[local] Hint Extern 2 (keeps same (call _)) => apply keeps_call; reflexivity : keeps.

Lemma keeps_find params h : keeps same (find params h).
Proof. unfold find. solve_keeps. Qed.
Lemma keeps_has_expired params : keeps same (has_expired params).
Proof. unfold has_expired. destruct (expiry_time _); solve_keeps. Qed.
Lemma keeps_retryable retry a : keeps same (is_retryable_now retry a).
Proof. unfold is_retryable_now. destruct retry; solve_keeps. Qed.
#[local] Hint Resolve keeps_find keeps_has_expired keeps_retryable : keeps.

(** ** Retries *)

(** One program after another. *)
Lemma bind_cases {A B} (m : prog payer A) (f : A -> prog payer B) s o s' :
  (m ≫= f) s = (o, s') ->
  exists o1 s1, m s = (o1, s1) /\ match o1 with Ret a => f a s1 = (o, s') | Panic w => o = Panic w /\ s' = s1 | OutOfFuel => o = OutOfFuel /\ s' = s1 end.
Proof. unfold mbind, prog_bind. intros E. destruct (m s) as [[a|w|] s1]; eexists _, s1; (split; [done|]); [done|by simplify_eq..]. Qed.

Lemma ret_bind {A B} (a : A) (f : A -> prog payer B) s : (mret a ≫= f) s = f a s.
Proof. done. Qed.

Lemma spends_call {A} h (f : W * Z -> A * (W * Z)) s : (forall w, (f w).2.2 = w.2 + 1) -> spends h 1 s (call f s).2.
Proof. intros Hf. unfold spends, budget, tries, calls, call. cbn. rewrite Hf. split_and!; [done|done|lia|lia|lia]. Qed.

Abbreviation retry := (Attempts max).

(** Counting one up: either the counter overflows, or there is an entry with one more. *)
Lemma count_attempt_spec h s o s' : 0 <= tries s h -> count_attempt h s = (o, s') ->
  (exists a, o = Ret a /\ payment_cache s' = <[h := a]> (payment_cache s) /\ count a = tries s h + 1 /\ calls s' = calls s) \/
  (exists w, o = Panic w /\ s' = s /\ 2 ^ 64 <= tries s h + 1).
Proof.
  unfold tries. intros Hn. unfold count_attempt, gets, lift, set_cache, modify, mbind, prog_bind. destruct (payment_cache s !! h) as [a|] eqn:E.
  - intros Ec. unfold add64, checked_op in Ec. destruct (in_widthb 64 (count a + 1)) eqn:Ew.
    + injection Ec as <- <-. left. eexists. by split_and!.
    + injection Ec as <- <-. right. eexists. split_and!; [done|by destruct s|]. destruct (decide (u64 (count a + 1))) as [Hw|Hw]; [apply in_widthb_true in Hw; congruence|].
      unfold in_width in Hw. lia.
  - intros Ec. injection Ec as <- <-. left. eexists. by split_and!.
Qed.

(** Counting pays for one call while there is any left. *)
Lemma spends_count h s s1 a : 0 <= tries s h -> payment_cache s1 = <[h := a]> (payment_cache s) -> count a = tries s h + 1 -> calls s1 = calls s ->
  spends h (if count a <=? max then -1 else 0) s s1.
Proof.
  intros Hn Ec Ea El. assert (Et : tries s1 h = tries s h + 1) by (unfold tries at 1; by rewrite Ec, lookup_insert_eq). unfold spends, budget. rewrite Et, El, Ea, Ec.
  split_and!; [|by rewrite lookup_insert_eq|lia|lia|destruct (Z.leb_spec (tries s h + 1) max); lia]. intros h' Hne. by rewrite lookup_insert_ne.
Qed.

Ltac next_call E :=
  let o := fresh "o" in let s := fresh "s" in let E1 := fresh "E" in apply bind_cases in E as (o & s & E1 & E).

(** The middle of an attempt: nothing is sent until a route is found. *)
Lemma attempt_prefix {B} h params (no : prog payer B) (bad : LightningError -> prog payer B) (go : Route -> prog payer B) s o s' :
  (forall s0 o0 s0', no s0 = (o0, s0') -> s0' = s0) -> (forall e s0 o0 s0', bad e s0 = (o0, s0') -> s0' = s0) ->
  (expired ← has_expired params; if (expired : bool) then no else route ← find params h; match route with Err e => bad e | Ok r => go r end) s = (o, s') ->
  same s s' \/ exists r s1, same s s1 /\ go r s1 = (o, s').
Proof.
  intros Hno Hbad E. next_call E. apply (keeps_has_expired params) in E0. destruct o0 as [b|w|]; [|destruct E as [_ ->]; by left..].
  destruct b; [apply Hno in E; subst; by left|]. next_call E. apply (keeps_find params h) in E1. destruct o0 as [[r|e]|w|]; [|apply Hbad in E; subst|destruct E as [_ ->]..].
  - right. exists r, s1. split; [by etrans|done].
  - left. by etrans.
  - left. by etrans.
  - left. by etrans.
Qed.

Lemma retry_spends fuel id h params s o s' : 0 <= tries s h -> retry_payment retry fuel id h params s = (o, s') -> spends h 0 s s'.
Proof.
  revert params s o s'. induction fuel as [|fuel IH]; intros params s o s' Hn E; cbn [retry_payment] in E; [injection E as _ <-; apply spends_refl|].
  next_call E. apply count_attempt_spec in E0 as [(a & -> & Ec & Ea & El)|(w & -> & -> & _)]; [|destruct E as [_ ->]; apply spends_refl|done].
  pose proof (spends_count h s s0 a Hn Ec Ea El) as H1. cbn [is_retryable_now] in E. rewrite ret_bind in E.
  destruct (count a <=? max); cbn [negb] in E; [|by injection E as _ <-].
  apply attempt_prefix in E as [Hs|(r & s1 & Hs & E)]; [..|by intros ??? [= _ <-]|by intros ???? [= _ <-]].
  { eapply spends_weaken; [|eapply spends_trans; [exact H1|by apply same_spends]]. lia. }
  assert (H2 : spends h (-1) s s1) by (change (-1) with (-1 + 0); eapply spends_trans; [exact H1|by apply same_spends]).
  next_call E. pose proof (spends_call h (payer_retry_payment r id) s1 (fun _ => eq_refl)) as H3. rewrite E0 in H3. cbn [snd] in H3.
  assert (H4 : spends h 0 s s2) by (change 0 with (-1 + 1); by eapply spends_trans). pose proof H4 as (_ & _ & Hle & _).
  destruct o0 as [[[]|[e|es|es|rs again id']]|w|]; [| | | | |destruct E as [_ ->]; exact H4..].
  - by injection E as _ <-.
  - by injection E as _ <-.
  - by injection E as _ <-.
  - change 0 with (0 + 0). eapply spends_trans; [exact H4|]. eapply IH; [lia|exact E].
  - next_call E. assert (H5 : spends h 0 s2 s3).
    { destruct again as [again|]; [eapply IH; [lia|exact E1]|]. injection E1 as _ <-. apply spends_refl. }
    assert (H6 : spends h 0 s s3) by (change 0 with (0 + 0); by eapply spends_trans). destruct o0 as [x|w|]; [by injection E as _ <-|destruct E as [_ ->]; exact H6..].
Qed.

(** ** Payments *)

Lemma pay_spends fuel params h send s o s' :
  (forall r w, (send r w).2.2 = w.2 + 1) -> 0 <= tries s h -> is_Some (payment_cache s !! h) -> pay_internal retry fuel params h send s = (o, s') -> spends h 1 s s'.
Proof.
  intros Hsend. revert s o s'. induction fuel as [|fuel IH]; intros s o s' Hn Hin E; cbn [pay_internal] in E; [injection E as _ <-; apply (spends_weaken h 0); [lia|apply spends_refl]|].
  apply attempt_prefix in E as [Hs|(r & s1 & Hs & E)]; [..|by intros ??? [= _ <-]|by intros ???? [= _ <-]].
  { apply (spends_weaken h 0); [lia|by apply same_spends]. }
  next_call E. pose proof (spends_call h (send r) s1 (Hsend r)) as H1. rewrite E0 in H1. cbn [snd] in H1.
  assert (H2 : spends h 1 s s0) by (change 1 with (0 + 1); eapply spends_trans; [by apply same_spends|exact H1]). pose proof H2 as (_ & Hin' & Hle & _). specialize (Hin' Hin).
  destruct o0 as [[id|[e|es|es|rs [again|] id]]|w|]; [by injection E as _ <-|by injection E as _ <-|by injection E as _ <-| | |by injection E as _ <-|destruct E as [_ ->]; exact H2..].
  - destruct Hin' as [a Ha]. rewrite (prog_bind_Ret _ _ _ _ _ (eq_refl : gets payment_cache s0 = (Ret (payment_cache s0), s0))) in E.
    rewrite Ha in E. rewrite (prog_bind_Ret _ _ _ _ _ (eq_refl : lift (unwrap _ (Some a)) s0 = (Ret a, s0))) in E. next_call E.
    unfold lift, add64, checked_op in E1. destruct (in_widthb 64 (count a + 1)); [|injection E1 as <- <-; destruct E as [_ ->]; exact H2].
    injection E1 as <- <-. next_call E. injection E1 as <- <-. cbn [is_retryable_now] in E. rewrite ret_bind in E.
    assert (Ht : tries s0 h = count a) by (unfold tries; by rewrite Ha). pose proof (spends_count h s0 (mkPayer (<[h := mkAttempts (count a + 1) (first_attempted_at a)]> (payment_cache s0)) (world s0)) (mkAttempts (count a + 1) (first_attempted_at a)) ltac:(lia) eq_refl ltac:(cbn; lia) eq_refl) as H3.
    cbn [count] in *. destruct (count a + 1 <=? max); [|injection E as _ <-; change 1 with (1 + 0); by eapply spends_trans].
    change 1 with (1 + -1 + 1). eapply spends_trans; [by eapply spends_trans|]. refine (IH _ o s' _ _ E); [unfold tries|]; cbn; rewrite lookup_insert_eq; cbn; [lia|done].
  - next_call E. assert (H3 : spends h 0 s0 s2) by (eapply retry_spends; [lia|exact E1]). assert (H4 : spends h 1 s s2) by (change 1 with (1 + 0); by eapply spends_trans).
    destruct o0; [by injection E as _ <-|destruct E as [_ ->]; exact H4..].
Qed.

(** ** Requests *)

(** What a request may do to the payment it is about: [n] calls were made for its entry before. *)
Definition within (h : bytes) s (n : Z) : Prop :=
  match payment_cache s !! h with Some a => 0 <= count a /\ 0 <= n <= Z.min (count a) max + 1 | None => n = 0 end.
Definition sent_after (h : bytes) s s' (n : Z) : Z := if bool_decide (is_Some (payment_cache s' !! h)) then n + (calls s' - calls s) else 0.

Definition own_effect (h : bytes) s s' : Prop :=
  (forall h', h' <> h -> payment_cache s' !! h' = payment_cache s !! h') /\
  forall n, within h s n -> 0 <= calls s' - calls s /\ n + (calls s' - calls s) <= max + 1 /\ within h s' (sent_after h s s' n).

Lemma spends_own h s s' : spends h 0 s s' -> own_effect h s s'.
Proof.
  intros (A1 & A2 & A3 & A4). split; [done|]. intros n Hw. unfold within, sent_after, budget, tries in *.
  destruct (payment_cache s !! h) as [a|]; destruct (payment_cache s' !! h) as [a'|]; cbn; try (destruct A2; [by eexists|done]); lia.
Qed.

Lemma same_own h s s' : same s s' -> own_effect h s s'.
Proof. intros Hs. by apply spends_own, same_spends. Qed.

Lemma pay_cached_own h pay s o s' :
  (forall s1 o1 s1', 0 <= tries s1 h -> is_Some (payment_cache s1 !! h) -> pay s1 = (o1, s1') -> spends h 1 s1 s1') ->
  pay_cached h pay s = (o, s') -> own_effect h s s'.
Proof.
  intros Hpay E. unfold pay_cached in E. next_call E. injection E0 as <- <-. case_bool_decide as Hin; [injection E as _ <-; by apply same_own|].
  assert (Hnone : payment_cache s !! h = None) by (destruct (payment_cache s !! h) eqn:Eh; [destruct Hin; by eexists|done]).
  next_call E. unfold new_attempts in E0. next_call E0. injection E1 as <- <-. injection E0 as <- <-.
  next_call E. injection E0 as <- <-. cbn [payment_cache world] in E. next_call E. apply Hpay in E0; [|unfold tries; cbn; by rewrite lookup_insert_eq|cbn; by rewrite lookup_insert_eq].
  match type of E0 with spends _ _ ?x _ => set (s2 := x) in * end. destruct E0 as (A1 & A2 & A3 & A4).
  assert (Ht : tries s2 h = 0) by (unfold tries, s2; cbn; by rewrite lookup_insert_eq). assert (Hc : calls s2 = calls s) by done.
  assert (Hs : (forall h', h' <> h -> payment_cache s0 !! h' = payment_cache s !! h')) by (intros h' Hne; rewrite A1 by done; cbn; by rewrite lookup_insert_ne).
  unfold budget in A4. rewrite Ht in *. destruct A2 as [a Ha]; [cbn; by rewrite lookup_insert_eq|]. unfold tries in A3, A4. rewrite Ha in A3, A4.
  assert (Hkept : own_effect h s s0).
  { split; [done|]. intros n Hw. unfold within, sent_after in *. rewrite Hnone in Hw. rewrite Ha. subst n. rewrite bool_decide_true by (by eexists). lia. }
  destruct o0 as [[id|e]|w|]; [injection E as _ <-; exact Hkept| |destruct E as [_ ->]; exact Hkept..].
  next_call E. injection E0 as <- <-. injection E as _ <-. split; [intros h' Hne; cbn; rewrite lookup_delete_ne by done; by apply Hs|].
  intros n Hw. unfold within, sent_after in *. rewrite Hnone in Hw. subst n. cbn [payment_cache calls world]. rewrite lookup_delete_eq. cbn. unfold calls in *. cbn. lia.
Qed.

Lemma pay_invoice_own fuel i amount s o s' : pay_invoice_using_amount retry fuel i amount s = (o, s') -> own_effect (payment_hash_of i) s s'.
Proof.
  unfold pay_invoice_using_amount. destruct (negb _); [intros [= _ <-]; by apply same_own|]. apply pay_cached_own. intros s1 o1 s1' Hn Hin E.
  next_call E. injection E0 as <- <-. destruct (expiry_secs i); [|destruct E as [_ ->]; apply (spends_weaken _ 0); [lia|apply spends_refl]..].
  next_call E. injection E0 as <- <-. destruct (unwrap _ _); [|destruct E as [_ ->]; apply (spends_weaken _ 0); [lia|apply spends_refl]..].
  by eapply pay_spends; [..|exact E].
Qed.

Lemma path_failed_own fuel id h rejected path scid again s o s' : path_failed retry fuel id h rejected path scid again s = (o, s') -> 0 <= tries s h -> spends h 0 s s'.
Proof.
  intros E Hn. unfold path_failed in E. next_call E.
  assert (Hs : same s s0) by (destruct scid; injection E0 as <- <-; done). assert (Ho : exists u, o0 = Ret u) by (destruct scid; injection E0 as <- _; by eexists). destruct Ho as [u ->].
  assert (Hquiet : forall pid b s1 o1 s1', (_ ← call (abandon_payment pid); mret (b : bool)) s1 = (o1, s1') -> same s1 s1') by (by intros pid b s1 o1 s1' [= _ <-]).
  destruct id as [pid|]; [|injection E as _ <-; by apply same_spends]. destruct rejected; [apply Hquiet in E; apply same_spends; by etrans|].
  destruct again as [params|]; [|apply Hquiet in E; apply same_spends; by etrans]. next_call E.
  assert (H1 : spends h 0 s0 s1) by (eapply retry_spends; [|exact E1]; destruct Hs as [Hs _]; unfold tries in *; by rewrite Hs).
  assert (H2 : spends h 0 s s1) by (change 0 with (0 + 0); eapply spends_trans; [by apply same_spends|done]).
  destruct o0 as [[[]|[]]|w|]; [by injection E as _ <-| |destruct E as [_ ->]; exact H2..]. apply Hquiet in E. change 0 with (0 + 0). eapply spends_trans; [exact H2|by apply same_spends].
Qed.

(** Requests that are about no payment send none. *)
Definition other_effect s s' : Prop :=
  calls s' = calls s /\ forall h, payment_cache s' !! h = payment_cache s !! h \/ payment_cache s' !! h = None.

Lemma handle_event_effect fuel e s o s' : handle_event retry fuel e s = (o, s') ->
  match e with PaymentPathFailed _ h _ _ _ _ => 0 <= tries s h -> spends h 0 s s' | _ => other_effect s s' end.
Proof.
  intros E. unfold handle_event in E. next_call E.
  assert (Hlast : match o0 with Ret _ => same s0 s' | _ => s' = s0 end) by (destruct o0 as [[|]|w|]; [injection E as _ <-; done..|by destruct E as [_ ->]|by destruct E as [_ ->]]).
  assert (Hsame : same s0 s') by (destruct o0; [done|by subst|by subst]). clear E Hlast. destruct e as [id h rejected path scid again|id h|id path|id h|e].
  - intros Hn. change 0 with (0 + 0). eapply spends_trans; [by eapply path_failed_own|by apply same_spends].
  - injection E0 as _ <-. destruct Hsame as [E1 E2]. split; [done|]. intros h'. rewrite E1. cbn. destruct (decide (h' = h)) as [->|Hne]; [right; apply lookup_delete_eq|left; by apply lookup_delete_ne].
  - injection E0 as _ <-. destruct Hsame as [E1 E2]. split; [done|]. intros h'. left. by rewrite E1.
  - next_call E0. injection E as <- <-. next_call E0. injection E as <- <-. next_call E0. assert (Hs : s0 = mkPayer (delete h (payment_cache s)) (world s)).
    { unfold lift in E. destruct (match payment_cache s !! h with Some a => add64 (count a) 1 | None => Ret 1 end); injection E as <- <-; [by injection E0 as _ <-|by destruct E0 as [_ ->]..]. }
    rewrite Hs in Hsame. destruct Hsame as [E1 E2]. split; [done|]. intros h'. rewrite E1. cbn. destruct (decide (h' = h)) as [->|Hne]; [right; apply lookup_delete_eq|left; by apply lookup_delete_ne].
  - injection E0 as _ <-. destruct Hsame as [E1 E2]. split; [done|]. intros h'. left. by rewrite E1.
Qed.

(** ** Sessions *)

(** The payer from its creation on, with the payments sent for [h] since its entry was made. *)
Inductive session (h : bytes) : payer -> Z -> Prop :=
| session_start s : payment_cache s = ∅ -> session h s 0
| session_step s n rq fuel o s' : session h s n -> perform retry fuel rq s = (o, s') ->
    session h s' (if bool_decide (about (W := W) rq = Some h) then sent_after h s s' n
                  else if bool_decide (is_Some (payment_cache s' !! h)) then n else 0).

Lemma perform_effect fuel rq s o s' : (forall h, 0 <= tries s h) -> perform retry fuel rq s = (o, s') ->
  match about (W := W) rq with Some h => own_effect h s s' | None => other_effect s s' end.
Proof.
  intros Hn E. destruct rq as [i|i amount|k p amount delta|e|h]; cbn [perform about] in *.
  1-3: next_call E; assert (s' = s0) as -> by (destruct o0; [by injection E as _ <-|by destruct E as [_ ->]..]).
  - unfold pay_invoice in E0. case_bool_decide; [injection E0 as _ <-; by apply same_own|by eapply pay_invoice_own].
  - unfold pay_zero_value_invoice in E0. case_bool_decide; [injection E0 as _ <-; by apply same_own|by eapply pay_invoice_own].
  - eapply pay_cached_own; [|exact E0]. intros s1 o1 s1' ?? E1. by eapply pay_spends; [..|exact E1].
  - apply handle_event_effect in E. destruct e; [by apply spends_own, E|done..].
  - injection E as _ <-. split; [done|]. intros h'. cbn. destruct (decide (h' = h)) as [->|Hne]; [right; apply lookup_delete_eq|left; by apply lookup_delete_ne].
Qed.

Lemma within_zero h s : 0 <= tries s h <-> within h s 0.
Proof. unfold tries, within. destruct (payment_cache s !! h); lia. Qed.

Lemma session_within h s n : session h s n -> (forall h', 0 <= tries s h') /\ within h s n.
Proof.
  induction 1 as [s Hs|s n rq fuel o s' _ [IHn IHw] E]; [split; [intros h'; unfold tries|unfold within]; by rewrite Hs, lookup_empty|].
  apply perform_effect in E; [|done]. destruct (about (W := W) rq) as [h1|].
  - destruct E as [Hother Hown]. split.
    + intros h'. destruct (decide (h' = h1)) as [->|Hne]; [|unfold tries; rewrite Hother by done; apply IHn]. destruct (Hown 0 (proj1 (within_zero _ _) (IHn h1))) as (_ & _ & Hw).
      unfold within, tries in *. destruct (payment_cache s' !! h1); lia.
    + destruct (decide (h1 = h)) as [->|Hne]; [rewrite bool_decide_true by done; by apply Hown|]. rewrite bool_decide_false by congruence.
      unfold within in *. rewrite Hother by done. destruct (payment_cache s !! h); cbn; [done|lia].
  - destruct E as [_ Hall]. split; [intros h'; specialize (IHn h'); unfold tries in *; destruct (Hall h') as [->| ->]; lia|].
    rewrite bool_decide_false by done. unfold within in *. destruct (Hall h) as [->| ->]; [|done]. destruct (payment_cache s !! h); cbn; lia.
Qed.

(** C17: with a limit of [max] retries, no payment is sent more than [max + 1] times between the
    creation and the removal of its cache entry: after any history of requests and events, with
    any answers of the channel manager, the router, the clocks and the scorer, a request about
    the payment sends at most what is left of [max + 1]. *)
Theorem attempts_bounded h s n rq fuel o s' :
  session h s n -> about (W := W) rq = Some h -> perform retry fuel rq s = (o, s') -> 0 <= calls s' - calls s /\ n + (calls s' - calls s) <= max + 1.
Proof.
  intros [Hn Hw]%session_within Hrq E. apply perform_effect in E; [|done]. rewrite Hrq in E. destruct E as [_ Hown]. by destruct (Hown n Hw) as (? & ? & _).
Qed.

End Bound.

(** ** Every request is answered *)

Section Answers.
Context {W : Type} `{PayerOps W} (max : Z) (Hmax : 0 <= max).

Implicit Types s : @InvoicePayer W.
Abbreviation retry := (Attempts max).

Definition returns {A} (m : prog (@InvoicePayer W) A) s (Q : A -> @InvoicePayer W -> Prop) : Prop := exists a s', m s = (Ret a, s') /\ Q a s'.
Definition entry s h : Z := match payment_cache s !! h with Some a => count a | None => 0 end.

Lemma returns_bind {A B} (m : prog InvoicePayer A) (f : A -> prog InvoicePayer B) s P Q :
  returns m s P -> (forall a s1, P a s1 -> returns (f a) s1 Q) -> returns (m ≫= f) s Q.
Proof. intros (a & s1 & E & HP) Hf. destruct (Hf a s1 HP) as (b & s2 & E2 & HQ). exists b, s2. split; [|done]. unfold mbind, prog_bind. by rewrite E. Qed.

Lemma returns_after {A B} (m : prog InvoicePayer A) (f : A -> prog InvoicePayer B) s a s1 Q : m s = (Ret a, s1) -> returns (f a) s1 Q -> returns (m ≫= f) s Q.
Proof. intros E (b & s2 & E2 & HQ). exists b, s2. split; [|done]. unfold mbind, prog_bind. by rewrite E. Qed.

Lemma returns_ret {A} (a : A) s (Q : A -> InvoicePayer -> Prop) : Q a s -> returns (mret a) s Q.
Proof. intros HQ. by exists a, s. Qed.

Lemma returns_call {A} (f : W -> A * W) s : returns (call f) s (fun _ s1 => payment_cache s1 = payment_cache s).
Proof. by eexists _, _. Qed.

Lemma has_expired_returns params s : returns (has_expired params) s (fun _ s1 => payment_cache s1 = payment_cache s).
Proof. unfold has_expired. destruct (expiry_time _); [by eexists _, _|by apply returns_ret]. Qed.

Lemma find_returns params h s : returns (find params h) s (fun _ s1 => payment_cache s1 = payment_cache s).
Proof. by eexists _, _. Qed.

Lemma count_attempt_returns h s : 0 <= entry s h -> entry s h + 1 < 2 ^ 64 ->
  returns (count_attempt h) s (fun a s1 => count a = entry s h + 1 /\ entry s1 h = count a).
Proof.
  unfold entry. intros Hn Hlt. unfold count_attempt, returns, gets, lift, set_cache, modify, mbind, prog_bind. destruct (payment_cache s !! h) as [a|] eqn:Ea.
  - unfold add64; rewrite (checked_op_ok 64) by (unfold in_width; lia). eexists _, _. split; [done|]. cbn. by rewrite lookup_insert_eq.
  - eexists _, _. split; [done|]. cbn. by rewrite lookup_insert_eq.
Qed.

(** What a retry needs: room in the counter, and fuel for the attempts left. *)
Definition room s h : Prop := 0 <= entry s h /\ entry s h + 1 < 2 ^ 64.
Definition left s h : Z := Z.max 0 (max - entry s h).

Lemma room_same s s1 h : payment_cache s1 = payment_cache s -> room s h -> room s1 h /\ left s1 h = left s h.
Proof. unfold room, left, entry. by intros ->. Qed.

Lemma retry_returns fuel id h params s : max + 1 < 2 ^ 64 -> room s h -> 1 + left s h <= Z.of_nat fuel ->
  returns (retry_payment retry fuel id h params) s (fun _ _ => True).
Proof.
  intros Hm. revert params s. induction fuel as [|fuel IH]; intros params s [Hn Hlt] Hf; [unfold left in Hf; lia|]. cbn [retry_payment].
  eapply returns_bind; [by apply count_attempt_returns|]. intros a s1 [Ha Hs1]. cbn beta. cbn [is_retryable_now].
  eapply returns_after; [reflexivity|]. destruct (Z.leb_spec (count a) max) as [Hle|]; cbn [negb]; [|by apply returns_ret].
  assert (Hr : room s1 h) by (unfold room; lia). assert (Hl : 1 + left s1 h <= Z.of_nat fuel) by (unfold left in *; lia).
  eapply returns_bind; [apply has_expired_returns|]. intros e s2 E2. destruct e; [by apply returns_ret|]. eapply returns_bind; [apply find_returns|].
  intros [route|e] s3 E3; cbn beta in *; [|by apply returns_ret]. eapply returns_bind; [apply returns_call|]. intros r s4 E4. cbn beta in *.
  assert (E5 : payment_cache s4 = payment_cache s1) by congruence. destruct (room_same _ _ _ E5 Hr) as [Hr4 Hl4]. rewrite <-Hl4 in Hl.
  destruct r as [[]|[e|es|es|rs [again|] id']]; try (by apply returns_ret); [by apply IH|]. eapply returns_bind; [by apply IH|]. intros. by apply returns_ret.
Qed.

Lemma pay_returns fuel params h send s : max + 1 < 2 ^ 64 -> is_Some (payment_cache s !! h) -> room s h -> 2 + left s h <= Z.of_nat fuel ->
  returns (pay_internal retry fuel params h send) s (fun _ _ => True).
Proof.
  intros Hm. revert s. induction fuel as [|fuel IH]; intros s Hin Hr Hf; [unfold left in Hf; lia|]. cbn [pay_internal].
  eapply returns_bind; [apply has_expired_returns|]. intros e s2 E2. destruct e; [by apply returns_ret|]. eapply returns_bind; [apply find_returns|].
  intros [route|e] s3 E3; cbn beta in *; [|by apply returns_ret]. eapply returns_bind; [apply returns_call|]. intros r s4 E4. cbn beta in *.
  assert (E5 : payment_cache s4 = payment_cache s) by congruence. destruct (room_same _ _ _ E5 Hr) as [Hr4 Hl4]. rewrite <-Hl4 in Hf.
  destruct r as [id|[e|es|es|rs [again|] id]]; try (by apply returns_ret).
  - destruct Hin as [a Ha]. rewrite <-E5 in Ha. assert (He : entry s4 h = count a) by (unfold entry; by rewrite Ha). destruct Hr4 as [Hn Hlt].
    eapply returns_after; [reflexivity|]. rewrite Ha. eapply returns_after; [reflexivity|].
    eapply returns_after; [unfold lift, add64; rewrite (checked_op_ok 64) by (unfold in_width; lia); reflexivity|]. cbv zeta. eapply returns_after; [reflexivity|].
    set (s5 := mkPayer _ _). assert (He5 : entry s5 h = count a + 1) by (unfold entry, s5; cbn; by rewrite lookup_insert_eq).
    eapply returns_after; [reflexivity|]. cbn [count]. destruct (Z.leb_spec (count a + 1) max) as [Hle|]; [|by apply returns_ret].
    apply IH; [cbn; by rewrite lookup_insert_eq|unfold room; lia|unfold left in *; lia].
  - eapply returns_bind; [apply retry_returns; [done|done|lia]|]. intros. by apply returns_ret.
Qed.

(** An invoice whose expiry is a time the platform can represent. *)
Definition datable (rq : request) : Prop :=
  match rq with PayInvoice i | PayZeroValue i _ => timestamp i + expiry i < 2 ^ 64 * 1000000000 | _ => True end.

(** A new entry. *)
Definition fresh h s : Prop := exists t, payment_cache s !! h = Some (mkAttempts 0 t).

Lemma fresh_room h s : fresh h s -> is_Some (payment_cache s !! h) /\ room s h /\ left s h = max.
Proof. intros [t E]. unfold room, left, entry. rewrite E. cbn. split_and!; [done|lia..]. Qed.

Lemma pay_cached_returns h pay s : (forall s1, fresh h s1 -> returns pay s1 (fun _ _ => True)) -> returns (pay_cached h pay) s (fun _ _ => True).
Proof.
  intros Hpay. unfold pay_cached. eapply returns_after; [reflexivity|]. case_bool_decide; [by apply returns_ret|].
  eapply returns_after; [reflexivity|]. eapply returns_after; [reflexivity|]. eapply returns_bind; [apply Hpay; eexists; cbn; by rewrite lookup_insert_eq|].
  intros [id|e] s3 _; [by apply returns_ret|]. by eexists _, _.
Qed.

Lemma pay_invoice_returns fuel i amount s : max + 1 < 2 ^ 64 -> max + 2 <= Z.of_nat fuel -> timestamp i + expiry i < 2 ^ 64 * 1000000000 ->
  xorb (bool_decide (is_Some (amount_milli_satoshis i))) (bool_decide (is_Some amount)) = true ->
  returns (pay_invoice_using_amount retry fuel i amount) s (fun _ _ => True).
Proof.
  intros Hm Hf Hd Hx. unfold pay_invoice_using_amount. rewrite Hx. cbn [negb]. apply pay_cached_returns. intros s1 E1.
  eapply returns_after; [unfold lift, expiry_secs; rewrite (proj2 (Z.ltb_lt _ _) Hd); reflexivity|].
  assert (exists v, match amount_milli_satoshis i with Some a => Some a | None => amount end = Some v) as [v Hv].
  { destruct (amount_milli_satoshis i) as [v|]; [by exists v|]. destruct amount as [v|]; [by exists v|done]. }
  cbv zeta. rewrite Hv. eapply returns_after; [reflexivity|]. destruct (fresh_room _ _ E1) as (? & ? & ?). apply pay_returns; [done..|lia].
Qed.

Lemma path_failed_returns fuel id h rejected path scid again s : max + 1 < 2 ^ 64 -> max + 2 <= Z.of_nat fuel -> room s h ->
  returns (path_failed retry fuel id h rejected path scid again) s (fun _ _ => True).
Proof.
  intros Hm Hf Hr. unfold path_failed. eapply (returns_bind _ _ _ (fun _ s1 => payment_cache s1 = payment_cache s)); [destruct scid; by eexists _, _|]. intros _ s1 E1.
  destruct id as [id|]; [|by apply returns_ret]. destruct rejected; [by eexists _, _|]. destruct again as [params|]; [|by eexists _, _].
  destruct (room_same _ _ _ E1 Hr) as [Hr1 _]. eapply returns_bind; [apply retry_returns; [done|done|]|].
  - destruct Hr1. unfold left. lia.
  - intros [r|r] s2 _; [by apply returns_ret|by eexists _, _].
Qed.

Lemma handle_event_returns fuel e s : max + 1 < 2 ^ 64 -> max + 2 <= Z.of_nat fuel -> (forall h, room s h) -> returns (handle_event retry fuel e) s (fun _ _ => True).
Proof.
  intros Hm Hf Hr. unfold handle_event. eapply (returns_bind _ _ _ (fun _ _ => True)).
  - destruct e as [id h rejected path scid again|id h|id path|id h|e]; [by apply path_failed_returns|by eexists _, _|by eexists _, _| |by eexists _, _].
    eapply returns_after; [reflexivity|]. eapply returns_after; [reflexivity|]. specialize (Hr h). unfold room, entry in Hr. unfold lift, add64.
    destruct (payment_cache s !! h); [rewrite (checked_op_ok 64) by (unfold in_width; lia)|]; by eexists _, _.
  - intros [|] s1 _; by eexists _, _.
Qed.

End Answers.

(** ** An environment whose payments are sent, and whose retries fail *)

Module ToyPayer.

#[local] Instance env : PayerEnv := {|
  PublicKey := unit; ChannelDetails := unit; Route := unit; PaymentId := unit; InvoiceFeatures := unit; RouteHint := unit;
  LightningError := unit; APIError := unit; RouteHop := unit; OtherEvent := unit; keysend_features := tt;
|}.

#[local] Instance ops : PayerOps unit := {|
  node_id w := (tt, w); first_hops w := ([], w); send_payment _ _ _ w := (Ok tt, w); send_spontaneous_payment _ _ w := (Err (ParameterError tt), w);
  payer_retry_payment _ _ w := (Err (AllFailedRetrySafe []), w); abandon_payment _ w := (tt, w); find_route _ _ _ _ w := (Ok tt, w);
  payment_path_failed _ _ w := (tt, w); payment_path_successful _ w := (tt, w); decorated_handle_event _ w := (tt, w);
  instant_now w := (7, w); system_now w := (1000, w); sha256_of b := b;
|}.

Definition toy_invoice : Invoice := mkInvoice (Some 1000) [1] [2] tt 0 3600000000000 [] None 18.
Definition toy_params : RouteParameters := mkRouteParameters (from_node_id tt) 1000 18.
Definition toy_failure : Event := PaymentPathFailed (Some tt) [1] false [] (Some 3) (Some toy_params).
Definition before : @InvoicePayer (unit * Z) := mkPayer ∅ (tt, 0).
Definition paid : @InvoicePayer (unit * Z) := mkPayer {[ [1] := mkAttempts 0 7 ]} (tt, 1).
Definition retried : @InvoicePayer (unit * Z) := mkPayer {[ [1] := mkAttempts 3 7 ]} (tt, 3).

Lemma toy_paid : perform (H0 := counting) (Attempts 2) 4 (PayInvoice toy_invoice) before = (Ret tt, paid).
Proof. reflexivity. Qed.
Lemma toy_retried : perform (H0 := counting) (Attempts 2) 4 (Deliver toy_failure) paid = (Ret tt, retried).
Proof. reflexivity. Qed.

(** The limit is met: one payment and two retries. *)
Lemma attempts_bounded_witness : session 2 [1] paid 1 /\ 1 + (calls retried - calls paid) <= 2 + 1.
Proof.
  assert (Hs : session 2 [1] paid 1) by exact (session_step 2 [1] before 0 (PayInvoice toy_invoice) 4 (Ret tt) paid (session_start 2 [1] before eq_refl) toy_paid).
  split; [exact Hs|]. exact (proj2 (attempts_bounded 2 ltac:(lia) [1] paid 1 (Deliver toy_failure) 4 (Ret tt) retried Hs eq_refl toy_retried)).
Defined.


End ToyPayer.
