(* ===== verification/Startup.v ===== *)
(** * Startup: the first half of [start_ldk] in src/main.rs

    Up to the point where the node has its state back: the data directory, the
    connection to bitcoind and the check of its network, the logger, the key seed, the
    channel monitors with their updates (Disk.v) and the channel manager.  Each early
    [return] of the source is the result [None]. *)

From S2P Require Import Prelude Text HexUtils Bytes Fs Disk DiskCases Json Bitcoind App Peers StartupArgs Toy.

Local Open Scope Z_scope.

(** The chain names of bitcoind. *)
Definition chain_name (n : Network) : string :=
  match n with Bitcoin => "main" | Testnet => "test" | Regtest => "regtest" | Signet => "signet" end.

(** [Display] of a network and of an I/O error, as they appear in the messages. *)
Definition display_network (n : Network) : string :=
  match n with Bitcoin => "bitcoin" | Testnet => "testnet" | Regtest => "regtest" | Signet => "signet" end.
Definition display_io_error (e : io_error) : string :=
  match e with OsError what => what | Custom _ msg => msg end.

(** ** The key seed *)

(** [fs::read] of the seed file, or a new seed written to it; the error is that of
    [File::create].  [fresh] is what [fill_bytes] produces. *)
Definition read_keys_seed (ldk_data_dir : string) (fresh : bytes) : prog world (result bytes io_error) :=
  let keys_seed_path := (ldk_data_dir, "keys_seed") in
  seed ← file_read keys_seed_path;
  match seed with
  | Ok seed =>
      if negb (length seed =? 32)%nat then panic "assertion failed: seed.len() == 32"
      else mret (Ok seed)
  | Err _ =>
      created ← file_create keys_seed_path;
      match created with
      | Err e => mret (Err e)
      | Ok _ =>
          _ ← unwrap_io (file_write keys_seed_path fresh);
          _ ← unwrap_io (sync_all keys_seed_path);
          mret (Ok fresh)
      end
  end.

Section Start.
Context {Txid Monitor Update : Type} `{!TxidApi Txid} `{!MonitorApi Txid Monitor Update} {plat : Platform}.
Context {BlockHash Manager : Type} (blockhash_from_hex : string -> option BlockHash)
  (read_manager : bytes -> list Monitor -> option (BlockHash * Manager))
  (new_manager : Network -> BlockHash -> Z -> Manager).

Record boot := mkBoot { boot_world : world; boot_out : list string; boot_bitcoind : BitcoindClient Server }.

Definition boot_fs {A} (m : prog world A) : prog boot A :=
  fun b => let '(o, w) := m (boot_world b) in (o, mkBoot w (boot_out b) (boot_bitcoind b)).
Definition boot_say (s : string) : prog boot unit :=
  modify (fun b => mkBoot (boot_world b) (boot_out b ++ [s]) (boot_bitcoind b)).
Definition boot_rpc {A} (m : prog (BitcoindClient Server) A) : prog boot A :=
  fun b => let '(o, c) := m (boot_bitcoind b) in (o, mkBoot (boot_world b) (boot_out b) c).

(** What the rest of [start_ldk] works with. *)
Record started := mkStarted {
  st_keys_seed : bytes;
  st_monitors : list Monitor;
  st_restarting : bool;
  st_blockhash : BlockHash;
  st_manager : Manager;
}.

(** Step 8: read the manager with the monitors, or make a fresh one at bitcoind's tip. *)
Definition load_manager (ldk_data_dir : string) (network : Network) (monitors : list Monitor) :
    prog boot (bool * BlockHash * Manager) :=
  f ← boot_fs (file_read (ldk_data_dir, "manager"));
  match f with
  | Ok contents =>
      '(hash, manager) ← lift (unwrap "called `Result::unwrap()` on an `Err` value" (read_manager contents monitors));
      mret (true, hash, manager)
  | Err _ =>
      getinfo_resp ← boot_rpc (get_blockchain_info blockhash_from_hex post parse_body from_utf8_lossy);
      mret (false, latest_blockhash getinfo_resp,
            new_manager network (latest_blockhash getinfo_resp) (wrap 32 (latest_height getinfo_resp)))
  end.

(** [start_ldk] from the parsed arguments to the channel manager; the connection to
    bitcoind is [connect]ed by [BitcoindClient::new]. *)
Definition start_ldk (args : LdkUserInfo) (connect : result (BitcoindClient Server) io_error) (fresh_seed : bytes) :
    prog boot (option started) :=
  let ldk_data_dir := ldk_storage_dir_path args +:+ "/.ldk" in
  _ ← boot_fs (unwrap_io (create_dir_all ldk_data_dir));
  match connect with
  | Err e => _ ← boot_say ("Failed to connect to bitcoind client: " +:+ display_io_error e); mret None
  | Ok client =>
      _ ← modify (fun b => mkBoot (boot_world b) (boot_out b) client);
      info ← boot_rpc (get_blockchain_info blockhash_from_hex post parse_body from_utf8_lossy);
      if negb (bool_decide (chain info = chain_name (network args)))
      then _ ← boot_say ("Chain argument (" +:+ display_network (network args) +:+
                           ") didn't match bitcoind chain (" +:+ chain info +:+ ")");
           mret None
      else
        _ ← boot_fs (logger_new ldk_data_dir);
        seed ← boot_fs (read_keys_seed ldk_data_dir fresh_seed);
        match seed with
        | Err e =>
            _ ← boot_say ("ERROR: Unable to create keys seed file " +:+ ldk_data_dir +:+ "/keys_seed: " +:+
                          display_io_error e);
            mret None
        | Ok keys_seed =>
            monitors ← boot_fs (load_channelmonitors dir_order (mkPersister ldk_data_dir));
            match monitors with
            | None => mret None
            | Some monitors =>
                '(restarting, hash, manager) ← load_manager ldk_data_dir (network args) monitors;
                mret (Some (mkStarted keys_seed monitors restarting hash manager))
            end
        end
  end.

(** ** Properties *)

(** A node is never started against a bitcoind of another network: a start that
    gets as far as a channel manager was told by bitcoind the chain it was asked for. *)
Theorem start_checks_network args client seed b o b' :
  start_ldk args (Ok client) seed b = (Ret (Some o), b') ->
  exists info c', get_blockchain_info blockhash_from_hex post parse_body from_utf8_lossy client = (Ret info, c') /\
    chain info = chain_name (network args).
Proof.
  unfold start_ldk, boot_fs, boot_rpc, boot_say, mbind, prog_bind, modify, mret, prog_ret. intros H.
  destruct (unwrap_io _ _) as [[]]; simplify_eq. cbn [boot_bitcoind] in H.
  destruct (get_blockchain_info _ _ _ _ client) as [[info| |] c'] eqn:E; simplify_eq.
  case_bool_decide; cbn [negb] in H; simplify_eq. eauto.
Qed.
End Start.

(** ** The key seed: properties *)

(** The seed is drawn once: a start that returned a seed makes every later start
    return the same one, also after a power loss. *)
Theorem keys_seed_stable dir fresh1 fresh2 d seed d' :
  length fresh1 = 32%nat ->
  read_keys_seed dir fresh1 (World d []) = (Ret (Ok seed), World d' []) ->
  (forall f, files d !! (dir, "keys_seed") = Some f -> synced f = true) ->
  read_keys_seed dir fresh2 (World d' []) = (Ret (Ok seed), World d' []) /\
  forall c, survives d' (dir, "keys_seed") c -> c = Some seed.
Proof.
  intros Hlen H Hsync. unfold read_keys_seed in *.
  destruct (files d !! (dir, "keys_seed")) as [f|] eqn:E.
  - erewrite prog_bind_Ret in H by (unfold file_read; rewrite io_op_ok, E; reflexivity). cbv beta iota in H.
    destruct (length (content f) =? 32)%nat eqn:El; cbn [negb] in H; unfold panic, mret, prog_ret in H; simplify_eq.
    erewrite prog_bind_Ret by (unfold file_read; rewrite io_op_ok, E; reflexivity). cbv beta iota.
    rewrite El. split; [done|]. intros c Hc. specialize (Hsync _ eq_refl).
    destruct Hc as [Hc|g Hc Hg|g c Hc Hg]; rewrite E in Hc; simplify_eq; congruence.
  - erewrite prog_bind_Ret in H by (unfold file_read; rewrite io_op_ok, E; reflexivity). cbv beta iota in H.
    unfold file_create in H. unfold mbind at 1, prog_bind at 1 in H. rewrite io_op_ok in H. cbn [fst] in H.
    destruct (decide (dir ∈ dirs d)); [|unfold mret, prog_ret in H; simplify_eq].
    erewrite prog_bind_Ret in H by (apply unwrap_io_ok; reflexivity).
    erewrite prog_bind_Ret in H by (apply unwrap_io_ok; reflexivity). unfold mret, prog_ret in H. simplify_eq.
    match goal with |- context [World ?d2 []] => set (D := d2) end.
    assert (Ef : files D !! (dir, "keys_seed") = Some (File seed true)).
    { unfold D. cbn [on_disk set_files files]. by rewrite lookup_alter_eq, lookup_insert_eq. }
    clearbody D. split.
    + erewrite prog_bind_Ret by (unfold file_read; rewrite io_op_ok, Ef; reflexivity).
      cbv beta iota. cbn [content]. rewrite Hlen. done.
    + intros c Hc. destruct Hc as [Hc|g Hc Hg|g c Hc Hg]; rewrite Ef in Hc; by simplify_eq.
Qed.

Lemma keys_seed_stable_witness :
  read_keys_seed "d" [] (World (on_disk (exec (read_keys_seed "d" (replicate 32 7)) (World (Disk ∅ {["d"]}) []))) [])
    = (Ret (Ok (replicate 32 7)),
       World (on_disk (exec (read_keys_seed "d" (replicate 32 7)) (World (Disk ∅ {["d"]}) []))) []) /\
  forall c, survives (on_disk (exec (read_keys_seed "d" (replicate 32 7)) (World (Disk ∅ {["d"]}) []))) ("d", "keys_seed") c
    -> c = Some (replicate 32 7).
Proof.
  refine (keys_seed_stable "d" (replicate 32 7) [] (Disk ∅ {["d"]}) (replicate 32 7) _ _ _ _).
  - reflexivity.
  - vm_compute. reflexivity.
  - intros f H. vm_compute in H. discriminate.
Defined.

(** Power loss while the very first seed is written leaves a file that is too short,
    and from then on every start fails its assertion. *)
Theorem torn_seed_is_fatal :
  let w := World (Disk ∅ {["d"]}) [Go; Go; CrashAt 5] in
  let after := exec (read_keys_seed "d" (replicate 32 7)) w in
  (read_keys_seed "d" (replicate 32 7) w).1 = Panic "power loss" /\
  (read_keys_seed "d" (replicate 32 9) (World (on_disk after) [])).1 = Panic "assertion failed: seed.len() == 32".
Proof. split; vm_compute; reflexivity. Qed.

(** * StartupCases: a start of the node against the toy bitcoind

    The bitcoind of Bitcoind.v reports the chain [test]; the channel monitors are those
    of DiskCases.v. *)

Definition toy_args (n : Network) : LdkUserInfo := mkUserInfo "u" "p" 1 "h" "data" 9735 [] [] n.

Definition toy_start_ldk (n : Network) : prog (boot (plat := toy_platform)) (option (started (Monitor := counter) (BlockHash := string) (Manager := Z))) :=
  start_ldk (Txid := tx) (Update := cupdate) (fun s => Some s) (fun _ _ => None) (fun _ _ height => height)
    (toy_args n) (Ok toy_client) (replicate 32 7).

Definition toy_boot : boot (plat := toy_platform) := mkBoot (World (Disk ∅ {[""]}) []) [] toy_client.

Lemma start_checks_network_witness :
  exists info c',
    get_blockchain_info (fun s => Some s) toy_post (fun _ => Some refusal) (fun _ => "") toy_client = (Ret info, c') /\
    chain info = "test".
Proof.
  refine (start_checks_network (Txid := tx) (Update := cupdate) (Monitor := counter) (plat := toy_platform)
    (fun s => Some s) (fun _ _ => None) (fun _ _ height => height) (toy_args Testnet) toy_client (replicate 32 7)
    toy_boot (mkStarted (replicate 32 7) [] false "00" 7) _ _).
  vm_compute. reflexivity.
Defined.

(** Asked for another network the node says so and does not start. *)
Example toy_wrong_network :
  (toy_start_ldk Bitcoin toy_boot).1 = Ret None /\
  boot_out (toy_start_ldk Bitcoin toy_boot).2 = ["Chain argument (bitcoin) didn't match bitcoind chain (test)"].
Proof. split; vm_compute; reflexivity. Qed.
